(* ===== verification/_CoqProject ===== *)
-Q . S2P
Prelude.v
Json.v
TurnState.v
TurnKernel.v
Env.v
Text.v
FileSystem.v
Envelope.v
Concrete.v
Ingress.v
Schema.v
Database.v
Samples.v
Ledger.v
LedgerChain.v
ChainMigration.v
ChainMigrationLemmas.v
ChainMigrationTheorems.v
StoreOpen.v
Binding.v
TurnRecords.v
TurnStore.v
StoreLemmas.v
Outbox.v
OutboxLemmas.v
Dispatch.v
DispatchLemmas.v
Dispatcher.v
StoreSteps.v
Machine.v
StoreInv.v
Scenario.v
Spec.v
StoreOpenLemmas.v
StoreOpenTheorems.v
StoreOpenSound.v
StoreTheorems.v
StoreOps.v
OutboxTheorems.v
DispatcherTheorems.v
Worker.v
Pool.v
PoolLemmas.v
PoolTheorems.v
Startup.v
TurnProof.v
Approval.v
LedgerQueries.v
Sync.v
SyncTheorems.v
Sessions.v
SessionTheorems.v
OmniSession.v
OmniSessionTheorems.v
Watchdog.v
SyntaxGate.v
Aci.v
Shadow.v
ShadowExecutor.v
Checkpoint.v
Cron.v
F64.v
Todo.v
Compressor.v
CompressorTheorems.v
CompressionSplit.v
TaskScheduler.v
Promotion.v
PromotionTheorems.v
ToolResults.v
ToolResultsTheorems.v
ToolBroker.v
ToolBrokerTheorems.v
AgentFsm.v
Gateway.v
ProofClosure.v
ProofClosureTheorems.v
Metabolic.v
Redact.v
Enclave.v
