(* ===== verification/Prelude.v ===== *)
(** * ZAION durable turns: verification library

    ZAION is an agent runtime.  Its durable core decides which requests become
    turns, moves each turn through a state machine in one SQLite database, logs
    every state change in an outbox, and delivers the outbox, signed and in order,
    to a hash-chained event ledger in the same database file.  This library models
    that core, the evidence and replication built on the ledger, the parts of the
    agent loop that decide what may run and what enters a conversation, and the
    workshop of the agent (files, background tasks, checkpoints, timed jobs, secrets),
    and proves what they promise.

    ** The program and the files

    The parts, from the bottom up, with the sources (under [src/crates]) and the
    files that model them:

    - [Prelude]: Rust's [Result] with its question mark, machine integers, UTF-8
      strings, SQL ordering, the tactics and the hint database [zaion];
      [Json]: [serde_json::Value].
    - [Env]: the code the sources call and do not contain (SHA-256, hex, base58,
      JSON text, chrono, Ed25519) as the class [Env], what is relied on of it as
      [EnvLaws], and the digest helpers of [turn_store.rs].  [Concrete] is an
      executable instance of both, used by every worked example; [Samples] is an
      empty database for it.
    - [TurnState] ([zaion-runtime/src/turn_state.rs]): the nine states, the
      transition table and the pure compare-and-transition.
      [TurnKernel] ([turn_kernel.rs], [turn_outcome.rs]): turn results and the
      terminal state each stands for.
    - [Ingress] ([authenticated_ingress.rs]): validation of a turn's identity and
      authority.
    - [Schema], [Database] ([turn_store.rs], [turn_store/dispatcher.rs],
      [zaion-ledger/src/schema.rs], [ledger.rs]): the tables as finite maps and
      lists, their constraints and triggers inside the statements that fire them,
      the validation of the installed triggers, and the error types.
    - [Ledger], [LedgerChain] ([zaion-ledger/src/ledger.rs]): appends, the hash
      chain per principal, its verification, event signatures, the identity of a
      database.  [ChainMigration], [ChainMigrationLemmas]: opening a ledger file,
      with the creation, migration and validation of its schema and chains.
      [Binding] ([binding.rs]): idempotent bindings and verified commits.
    - [TurnRecords], [TurnStore] ([turn_store.rs], [session_actor.rs]): reading
      rows back with all their integrity bindings; admission, transitions,
      approval, recovery of expired leases, the outbox and its queue.
      [StoreOpen], [StoreOpenLemmas]: [DurableTurnStore::open], with the markers of
      its migrations, the backfill of the commit order and the validation of what a
      file holds.
    - [Outbox] ([turn_store.rs], [dispatcher/persistence.rs]): claim, release,
      renew, quarantine, the queue snapshot.  [Dispatch] ([turn_store/dispatch.rs]):
      validation of a turn's whole history, the delivered prefix of the tenant,
      revalidation before signing, and completion.
    - [Dispatcher] ([turn_store/dispatcher.rs]): configuration, classification of
      errors, back-off, handling of failures, counters, admission of appends and
      shutdown.  [Worker]: the signer registry, [dispatch_claim] and [worker_loop] as
      programs of atomic actions.  [Pool]: the interleaved pool of workers with start,
      shutdown and joins.  [Startup]: the start-up barrier at the granularity of its
      mutex and condition variable.
    - [TurnProof] ([evidence_graph.rs], [turn_proof.rs]): evidence graphs and turn
      proofs.  [ProofClosure] ([turn_outcome.rs]): [ProofClosureVerifier].
    - [LedgerQueries] ([ledger.rs]): the listing queries.  [Sync] ([zaion-sync/src]):
      export, import, difference and the relay's handlers.
    - [Approval] ([approval_chain.rs]): blocking approval of dangerous commands, as
      threads that interleave at the mutexes of the chain.
    - [ToolResults] ([tool_result_storage.rs]): previews, files and budgets of tool
      results.  [AgentFsm] ([agent_fsm.rs]): the state machine of an agent session,
      which takes in tool results through them.  [ToolBroker] ([tool_broker.rs]): the
      policy that allows or denies a tool call.
    - [Sessions] ([session_store.rs], [session_branch.rs], [session_store_adapter.rs]):
      the interface of a session store, branching against it, and its implementation
      over the session table and the ledger.
    - [Compressor] ([compressor.rs]), over the floats of [F64] and the todo list of [Todo]
      ([todo_tool.rs]): the compression of a conversation.  [CompressionSplit]
      ([compression_split.rs]): a pass of the compressor and a branch of the session.
    - [TaskScheduler] ([task_scheduler.rs]): queues, background tasks and histories.
    - [Promotion] ([zaion-evolve/src/promotion.rs]): the signed chain of records through
      which a change that the agent made to itself becomes stable.
    - [Gateway] ([zaion-gateway/src]): bearer authentication, rate limiting, write
      audit, CSRF, outbound address checks, and the layers [build_router] composes.
    - [Text], [FileSystem]: the operations of [str], [std::path] and [std::fs] that
      the next parts share; a disk with the faults of its device.
    - [Envelope] ([zaion-types/src/envelope.rs]) and [OmniSession]
      ([omni_session.rs]): canonical messages of any channel, the sessions they are
      routed to, their splits, the token pyramid of a context and the replay from the
      ledger.
    - [Watchdog] ([zaion-watchdog/src]): the registry of toxic content, the anchors of
      files and the signed repairs.  [SyntaxGate], [Aci] ([zaion-aci/src]): the actions
      of the agent on files, behind the gates for toxicity, divergence and syntax.
    - [Shadow], [ShadowExecutor] ([zaion-shadow/src]): background tasks, their queue and
      life cycle, and the executor as interleaved steps between its locks.
    - [Checkpoint] ([zaion-checkpoint/src]): snapshots of directories in shadow
      repositories over an interface of git.  [Cron] ([cron.rs]): timed jobs in a file,
      recorded in the ledger.
    - [Metabolic] ([zaion-metabolic/src]): the token budget, the policy, hunger and
      pain.  [Redact] ([zaion-safety/src]): redaction of secrets.  [Enclave]
      ([zaion-enclave/src]): sealing, attestation and the store of secrets.

    ** How it is modelled

    A store operation is a function from the database and its arguments to an
    error or to a result and the new database: [BEGIN IMMEDIATE] makes each one
    atomic, and an error leaves the database as it was.  Clock readings and fresh
    UUIDs are arguments, so a theorem that quantifies over them covers any clock.
    [complete_outbox] uses two transactions and takes two databases.  Times are
    nanoseconds, stored times milliseconds, revisions and counters [Z] with the
    checks of their widths written out, and [f64] is the executable IEEE 754 of the
    Standard Library.  Loops over rows are structural; the scanning loops of
    [Redact] and the ancestors of a path in [FileSystem] have a fuel of one more than
    the length of their text, of which each round consumes a part.  The worker's program
    is a tree of actions of any length, and its theorem says that it ends.

    [Machine.step] is one operation of any kind with any arguments; [steps] is
    any interleaving of them.  [StoreSteps] shows that every successful operation
    is a sequence of a few small steps (admit a turn, change a turn, touch the
    lease of a head row, deliver a head row, ...), and [StoreInv] proves the
    invariants on those: one active turn per actor ([actor_inv]), a strictly
    increasing commit order that covers the outbox ([order_inv]), one outbox row
    per revision ([entry_inv]), delivery in order with proof ([delivery_inv]).
    [StoreLemmas], [OutboxLemmas] and [DispatchLemmas] invert the operations they
    are named after.  [Scenario] runs one turn from admission to delivery by
    evaluation.

    ** What is proved

    - [Spec]: the database refines an abstract log of turn entries, under every
      sequence of operations from a new database.
    - [StoreTheorems]: delivery is ordered and proved, an actor has one live turn,
      the outbox logs every revision, reading the queue succeeds, history is
      immutable.
    - [StoreOpenTheorems], [StoreOpenSound]: a new file becomes an empty store, and a
      store that was used in any way opens again unchanged; what [open] accepts is
      well formed; an older outbox is numbered by its rowids.
    - [StoreOps]: the exact effect of transitions, at most one writer per revision,
      exactly-once admission, what recovery ends and what it leaves alone.
    - [OutboxTheorems]: claims exclude and fence, a quarantined row blocks
      its tenant's later rows, completion is sound, an accepted history is a run of
      the state machine; and a defect: a turn admitted under approval can never be
      delivered and stops its tenant.
    - [DispatcherTheorems]: failures are classified closed and handled within the
      claimed row, shutdown closes the append gate, bounds of the persisted message
      and of the retry delay; and a defect: an accepted configuration that panics.
    - [PoolTheorems]: a running dispatcher moves the database only by operations of
      the store ([pool_refines_store]), returns permits and counts on every path, a
      successful shutdown leaves nothing running, and workers stop.  [Startup]: what
      the barrier ensures; and a defect: a lost wake-up.
    - [TurnProof], [ProofClosureTheorems]: evidence graphs are canonical, and
      the verifier accepts exactly the closed turns.
    - [SyncTheorems]: replication converges, imports are atomic, scoped and
      idempotent, the relay's token is required, what the bundle hash covers.
    - [Approval]: no command runs unapproved, requests are answered once and
      return; and a defect: an approval lost in a timeout.
    - [ToolResultsTheorems], [AgentFsm]: result files are confined, results
      enter a conversation whole or as a pointer to a file that holds them, the log of
      a session is a run of the state graph, the work on one message is bounded, the
      token limit is final; and a defect: results whose calls share a file are lost.
    - [ToolBrokerTheorems]: the broker allows exactly the calls of an independent
      specification, and what it allows stays inside the granted paths and hosts.
    - [SessionTheorems]: a branch forks a session with its whole history, session keys
      stay unique; and a defect: a session can be branched once under its default title.
    - [CompressorTheorems], [CompressionSplit]: a pass never panics and keeps the head, the
      recent turns and the latest request, its prompt quotes what it replaces, truncation
      is exact; and two defects: summaries grow without a bound, and a split stores
      nothing of the compressed history.
    - [Todo], [TaskScheduler]: the todo list refines a map; queues are first in, first out.
    - [PromotionTheorems]: promotions are earned, a chain verifies exactly when records are
      in the name of their signers; and two defects: a record in another name breaks the
      chain for good, and what was rolled back can be promoted again.
    - [Gateway]: protected routes are reached only with the token, writes are
      audited, bounds of the rate limit, the exact set of addresses let out; and a
      defect: user information in a URL misleads the outbound guard.
    - [OmniSessionTheorems], [Envelope]: replaying the ledger restores the sessions of
      checked envelopes, splits lose no message, a context is the longest prefix that
      fits; and defects: replay counts what it does not verify, a failed replay has
      dropped the sessions, a split may not shrink a session.
    - [Aci], [SyntaxGate], [Watchdog]: a write overwrites only what is absent or
      unchanged since the last write, the bracket check is exact on plain text; and
      defects: a patched file refuses writes, the check misreads lifetimes and comments,
      signed repairs are ambiguous.
    - [Shadow], [ShadowExecutor]: the queue refines an office, running
      futures are bounded over every interleaving, only allowed programs run; and
      defects: finished tasks fill the queue, a failure can meet a life cycle that
      refuses it, a retried task escapes cancellation, its own timeout is ignored.
    - [Checkpoint]: a restored checkpoint gives back what was recorded; and
      defects: deleted files return, a [.git] file blocks checkpoints.
    - [Cron]: the file of jobs refines a table, with one signed event per
      operation that succeeds; and defects: an error may come after the effect, a torn
      write loses all jobs, schedules are never read.
    - [Metabolic]: the shared budget is never overdrawn and never wraps, hunger
      and its degradation agree, receptors report crossings; and a defect: updates count
      time twice.  [Redact]: redaction works word by word and of a known token
      fewer bytes than its minimal length stay; and a defect: the pass for bearer tokens
      does nothing.  [Enclave]: the store refines a map, reports verify; and
      defects: sealed secrets open with the public key, signatures are ambiguous.
    - [LedgerChain], [Binding]: appends keep the chains, imports and keyed appends
      are idempotent, verification reports the longest intact prefix, a verified
      commit is evidence and round-trips; and two defects of the chain hash.
      [ChainMigrationTheorems]: a ledger that opens is intact and stays so, a broken
      chain is never repaired, a legacy file is upgraded.
    - [TurnState], [Env], [Ingress]: the compare-and-transition, the life of a
      turn, unambiguous identifiers, the exact set of accepted inputs.

    The theorems that need facts about foreign code take [EnvLaws], which
    [Concrete] inhabits; none assumes that SHA-256 is collision free.

    ** What is not modelled

    The availability of the whole path (every stored row reads back, a legal request
    succeeds) is left out, as is full-text search.  A file is opened on one
    connection at a time, and its pragmas and its path are not modelled.
    Failpoints compiled only for tests, mutex poisoning and the failure of SQLite's own
    I/O inside a store operation are left out; classification of such errors is
    modelled.  Of replication and the gateway, files and the HTTP transport are left
    out; of the watchdog, the supervision of processes; of the interface to files, the
    structural merge; of the safety checks, the scanner of prompts, which needs the case
    tables of Unicode.  The assembly of a prompt from the memory stores ([context.rs]) and
    those stores, over vector indexes, are a natural next step.  The agent loop and the
    model runtime are asynchronous exchanges with providers, and the other crates
    (adapters, command line, terminal interface, heuristics) are front ends: they do not
    take part in what is modelled. *)

From Stdlib Require Import Ascii.
From stdpp Require Import prelude gmap strings list sorting pretty.

(** ** Results: Rust's [Result<A, E>] *)

Inductive result (E A : Type) : Type :=
| Ok (a : A)
| Err (e : E).

Arguments Ok {E A} a.
Arguments Err {E A} e.

Declare Scope res_scope.
Delimit Scope res_scope with res.

(** The question-mark operator: [let? x := e in k] is [let x = e?; k]. *)
Notation "'let?' x := e 'in' k" :=
  (match e with Ok x => k | Err err => Err err end)
  (at level 10, x pattern, e at level 100, k at level 200,
   format "'let?'  x  :=  e  'in' '//' k") : res_scope.

(** [guard? b else e in k]: an early [return Err(e)] when [b] is false. *)
Notation "'guard?' b 'else' e 'in' k" :=
  (if b then k else Err e)
  (at level 10, b at level 100, e at level 100, k at level 200,
   format "'guard?'  b  'else'  e  'in' '//' k") : res_scope.

(** [Option::ok_or] *)
Definition ok_or {E A} (o : option A) (e : E) : result E A :=
  match o with Some a => Ok a | None => Err e end.

(** [Option<Result<A, E>>::transpose] applied to [o.map(f)]. *)
Definition transpose_map {E A B} (f : A -> result E B) (o : option A)
  : result E (option B) :=
  match o with
  | None => Ok None
  | Some a => match f a with Ok b => Ok (Some b) | Err e => Err e end
  end.

(** [iter.map(f).collect::<Result<Vec<_>, _>>()]: stops at the first error. *)
Fixpoint collect_map {E A B} (f : A -> result E B) (l : list A)
  : result E (list B) :=
  match l with
  | [] => Ok []
  | x :: l' =>
      match f x with
      | Err e => Err e
      | Ok y => match collect_map f l' with
                | Err e => Err e
                | Ok ys => Ok (y :: ys)
                end
      end
  end.

Definition is_ok {E A} (r : result E A) : bool :=
  match r with Ok _ => true | Err _ => false end.

(** ** Machine integers *)

Definition i64_max : Z := 9223372036854775807.
Definition i64_min : Z := -9223372036854775808.
Definition u64_max : Z := 18446744073709551615.

Definition in_i64 (z : Z) : bool := bool_decide (i64_min <= z <= i64_max)%Z.
Definition in_u64 (z : Z) : bool := bool_decide (0 <= z <= u64_max)%Z.

(** [u64::checked_add], [i64::checked_add] *)
Definition u64_checked_add (a b : Z) : option Z :=
  if in_u64 (a + b) then Some (a + b)%Z else None.
Definition i64_checked_add (a b : Z) : option Z :=
  if in_i64 (a + b) then Some (a + b)%Z else None.

(** [u64::try_from(i64)], [i64::try_from(u64)] *)
Definition u64_try_from (z : Z) : option Z := if in_u64 z then Some z else None.
Definition i64_try_from (z : Z) : option Z := if in_i64 z then Some z else None.

(** [n.to_le_bytes()] for an [n]-byte integer; a negative number is written in
    two's complement, which is what [Z.modulo] of each byte yields. *)
Fixpoint le_bytes (n : nat) (z : Z) : string :=
  match n with
  | O => EmptyString
  | S n' => String (Ascii.ascii_of_N (Z.to_N (z mod 256))) (le_bytes n' (z / 256))
  end.

(** [z.to_string()] of an integer. *)
Definition z_to_string (z : Z) : string := pretty z.

(** ** Strings: UTF-8 bytes *)

Definition str_len (s : string) : Z := Z.of_nat (String.length s).

(** [&s[..n]]; the sources only slice hexadecimal digests of 64 bytes. *)
Definition str_prefix (n : nat) (s : string) : string := String.substring 0 n s.

Definition starts_with (p s : string) : bool := String.prefix p s.

Definition in_range (lo hi n : N) : bool := (lo <=? n)%N && (n <=? hi)%N.

(** The bytes for which a name byte class of the sources holds. *)
Definition is_ascii_alphanumeric (a : Ascii.ascii) : bool :=
  let n := Ascii.N_of_ascii a in
  (in_range 48 57 n || in_range 65 90 n || in_range 97 122 n).

(** [b"...".contains(&byte)] *)
Definition byte_in (set : string) (a : Ascii.ascii) : bool :=
  existsb (Ascii.eqb a) (String.list_ascii_of_string set).

Definition str_all (p : Ascii.ascii -> bool) (s : string) : bool :=
  forallb p (String.list_ascii_of_string s).

Definition byte_is (n : N) (a : Ascii.ascii) : bool := (Ascii.N_of_ascii a =? n)%N.

(** [char::is_whitespace] (Unicode White_Space), one code point at a time, on
    the UTF-8 encoding. *)
Definition ws1 (a : Ascii.ascii) : bool :=
  match a with
  | "009" | "010" | "011" | "012" | "013" | "032" => true
  | _ => false
  end%char.

Definition ws2 (a b : Ascii.ascii) : bool :=
  match a with
  | "194" => match b with "133" | "160" => true | _ => false end
  | _ => false
  end%char.

Definition ws3 (a b c : Ascii.ascii) : bool :=
  match a, b with
  | "225", "154" => byte_is 128 c
  | "226", "128" => let n := Ascii.N_of_ascii c in
      in_range 128 138 n || in_range 168 169 n || (n =? 175)%N
  | "226", "129" => byte_is 159 c
  | "227", "128" => byte_is 128 c
  | _, _ => false
  end%char.

Fixpoint trim_front (l : list Ascii.ascii) : list Ascii.ascii :=
  match l with
  | [] => []
  | a :: l1 =>
      if ws1 a then trim_front l1 else
      match l1 with
      | [] => l
      | b :: l2 =>
          if ws2 a b then trim_front l2 else
          match l2 with
          | [] => l
          | c :: l3 => if ws3 a b c then trim_front l3 else l
          end
      end
  end.

(** The same on the reversed byte list, with the code units reversed. *)
Fixpoint trim_back (l : list Ascii.ascii) : list Ascii.ascii :=
  match l with
  | [] => []
  | a :: l1 =>
      if ws1 a then trim_back l1 else
      match l1 with
      | [] => l
      | b :: l2 =>
          if ws2 b a then trim_back l2 else
          match l2 with
          | [] => l
          | c :: l3 => if ws3 c b a then trim_back l3 else l
          end
      end
  end.

(** [str::trim] *)
Definition str_trim (s : string) : string :=
  String.string_of_list_ascii
    (rev (trim_back (rev (trim_front (String.list_ascii_of_string s))))).

(** [c.to_ascii_lowercase()] *)
Definition ascii_lowercase (a : Ascii.ascii) : Ascii.ascii :=
  let n := Ascii.N_of_ascii a in
  if in_range 65 90 n then Ascii.ascii_of_N (n + 32) else a.
Definition to_ascii_lowercase (s : string) : string :=
  String.string_of_list_ascii (map ascii_lowercase (String.list_ascii_of_string s)).

(** [str::contains] *)
Fixpoint str_contains (needle s : string) : bool :=
  String.prefix needle s
  || match s with EmptyString => false | String _ s' => str_contains needle s' end.

Definition newline : string := String (Ascii.ascii_of_N 10) EmptyString.

(** [parts.join("\n")] *)
Fixpoint join_lines (parts : list string) : string :=
  match parts with
  | [] => EmptyString
  | [x] => x
  | x :: rest => x +:+ newline +:+ join_lines rest
  end.

(** ** Options *)

Definition opt_is_some {A} (o : option A) : bool :=
  match o with Some _ => true | None => false end.

Definition opt_is_none {A} (o : option A) : bool := negb (opt_is_some o).

(** [Option::is_some_and], [Option::is_none_or] *)
Definition is_some_and {A} (p : A -> bool) (o : option A) : bool :=
  match o with Some a => p a | None => false end.
Definition is_none_or {A} (p : A -> bool) (o : option A) : bool :=
  match o with Some a => p a | None => true end.

(** SQL's [MIN]/[MAX] aggregates: [NULL] on no rows. *)
Definition sql_min (l : list Z) : option Z :=
  foldr (fun z acc => match acc with None => Some z | Some m => Some (Z.min z m) end)
        None l.
Definition sql_max (l : list Z) : option Z :=
  foldr (fun z acc => match acc with None => Some z | Some m => Some (Z.max z m) end)
        None l.

(** ** Automation *)

Create HintDb zaion.

(** Inverts a hypothesis that a chain of [let?]/[guard?] succeeded: destructs
    the scrutinee of its outermost match and drops the failing branches. *)
Ltac ok_step H :=
  match type of H with
  | Err _ = Ok _ => discriminate H
  | Ok _ = Err _ => discriminate H
  | Ok _ = Ok _ => injection H as H
  | (if ?b then _ else _) = _ =>
      let E := fresh "Hg" in destruct b eqn:E; try discriminate H
  | match ?e with _ => _ end = _ =>
      let E := fresh "Hm" in destruct e eqn:E; try discriminate H
  end.

Ltac ok_inv H := repeat (ok_step H; simpl in H).

(** [lia] with integer division by a constant. *)
Ltac zdiv_lia := Z.to_euclidean_division_equations; lia.
Ltac zdiv_nia := Z.to_euclidean_division_equations; nia.

(** Turns boolean guards into propositions. *)
Ltac bool_props :=
  repeat match goal with
  | H : andb _ _ = true |- _ => apply andb_true_iff in H; destruct H
  | H : orb _ _ = false |- _ => apply orb_false_iff in H; destruct H
  | H : negb _ = true |- _ => apply negb_true_iff in H
  | H : negb _ = false |- _ => apply negb_false_iff in H
  | H : bool_decide _ = true |- _ => apply bool_decide_eq_true in H
  | H : bool_decide _ = false |- _ => apply bool_decide_eq_false in H
  end.

(** ** Generic lemmas *)

Lemma collect_map_ok {E A B} (f : A -> result E B) l ys :
  collect_map f l = Ok ys <-> Forall2 (fun x y => f x = Ok y) l ys.
Proof.
  revert ys; induction l as [|x l IH]; intros ys; simpl.
  - split; [intros [= <-]; constructor | by inversion 1].
  - split.
    + intros H; destruct (f x) eqn:?, (collect_map f l) eqn:?; simplify_eq.
      constructor; [done | by apply IH].
    + inversion 1 as [|???? Hx Hl]; subst. rewrite Hx.
      apply IH in Hl. by rewrite Hl.
Qed.

Lemma le_bytes_length n z : String.length (le_bytes n z) = n.
Proof. revert z; induction n; intros z; simpl; auto. Qed.

Lemma sql_min_spec l :
  match sql_min l with
  | None => l = []
  | Some m => m ∈ l /\ Forall (fun z => m <= z)%Z l
  end.
Proof.
  induction l as [|z l IH]; simpl; [done|].
  destruct (sql_min l) as [m|] eqn:E; simpl; rewrite ?E.
  - destruct IH as [Hin Hall].
    split; [destruct (Z.min_spec z m) as [[? ->]|[? ->]]; set_solver|].
    constructor; [lia|]. eapply Forall_impl; [exact Hall|]; simpl; lia.
  - subst. split; [set_solver|]. repeat constructor. lia.
Qed.

Lemma sql_max_spec l :
  match sql_max l with
  | None => l = []
  | Some m => m ∈ l /\ Forall (fun z => z <= m)%Z l
  end.
Proof.
  induction l as [|z l IH]; simpl; [done|].
  destruct (sql_max l) as [m|] eqn:E; simpl; rewrite ?E.
  - destruct IH as [Hin Hall].
    split; [destruct (Z.max_spec z m) as [[? ->]|[? ->]]; set_solver|].
    constructor; [lia|]. eapply Forall_impl; [exact Hall|]; simpl; lia.
  - subst. split; [set_solver|]. repeat constructor. lia.
Qed.

(** ** Byte-wise string order, as [BTreeSet<String>] and SQL's [BINARY]
    collation use it *)

Definition str_lt (s t : string) : Prop := String.compare s t = Lt.

Lemma str_lt_strict s t : str_lt s t <-> String.le s t /\ s <> t.
Proof.
  unfold str_lt, String.le, String.leb. split.
  - intros E. rewrite E. split; [done|]. intros ->.
    pose proof (String.compare_antisym t t) as Ha. rewrite E in Ha. discriminate Ha.
  - intros [Hle Hne]. destruct (String.compare s t) eqn:E; [|done|done].
    apply String.compare_eq_iff in E. done.
Qed.

Lemma str_lt_trans s t u : str_lt s t -> str_lt t u -> str_lt s u.
Proof.
  rewrite !str_lt_strict. intros [? ?] [? ?]. split; [by etrans|].
  intros ->. by assert (u = t) as -> by by apply (anti_symm String.le).
Qed.

Lemma str_lt_irrefl s : ~ str_lt s s.
Proof. rewrite str_lt_strict. naive_solver. Qed.

Lemma str_compare_Gt s t : String.compare s t = Gt <-> str_lt t s.
Proof.
  unfold str_lt. rewrite (String.compare_antisym s t).
  destruct (String.compare t s); simpl; split; done.
Qed.

(** ** [ORDER BY]: a stable sort by a total preorder *)

Section Sort.
Context {A : Type} (le : A -> A -> bool).

(** Before the first element that is strictly above it. *)
Fixpoint sort_insert (x : A) (l : list A) : list A :=
  match l with
  | [] => [x]
  | y :: l' => if le x y then x :: l else y :: sort_insert x l'
  end.

Definition order_by (l : list A) : list A := foldr sort_insert [] l.

Lemma sort_insert_perm x l : sort_insert x l ≡ₚ x :: l.
Proof.
  induction l as [|y l IH]; simpl; [done|]. destruct (le x y); [done|].
  rewrite IH. apply Permutation_swap.
Qed.

Lemma order_by_perm l : order_by l ≡ₚ l.
Proof. induction l as [|x l IH]; simpl; [done|]. by rewrite sort_insert_perm, IH. Qed.

Lemma elem_of_order_by x l : x ∈ order_by l <-> x ∈ l.
Proof. by rewrite order_by_perm. Qed.

Lemma length_order_by l : length (order_by l) = length l.
Proof. by rewrite order_by_perm. Qed.

(** A list that is already in order is left alone. *)
Lemma order_by_id l : StronglySorted (fun x y => le x y = true) l -> order_by l = l.
Proof.
  induction 1 as [|x l _ IH Hx]; simpl; [done|]. rewrite IH.
  destruct Hx as [|y l Hy _]; simpl; [done|]. by rewrite Hy.
Qed.

Context (le_total : forall x y, le x y = false -> le y x = true)
        (le_trans : forall x y z, le x y = true -> le y z = true -> le x z = true).

Lemma sort_insert_sorted x l :
  StronglySorted (fun x y => le x y = true) l ->
  StronglySorted (fun x y => le x y = true) (sort_insert x l).
Proof.
  induction 1 as [|y l Hs IH Hy]; simpl; [repeat constructor|].
  destruct (le x y) eqn:E.
  - constructor; [by constructor|]. constructor; [done|].
    eapply Forall_impl; [exact Hy|]. eauto.
  - constructor; [done|]. rewrite sort_insert_perm. constructor; auto.
Qed.

Lemma order_by_sorted l : StronglySorted (fun x y => le x y = true) (order_by l).
Proof. induction l; simpl; [constructor|]. by apply sort_insert_sorted. Qed.

End Sort.

Lemma StronglySorted_weaken {A} (R S : A -> A -> Prop) l :
  (forall x y, R x y -> S x y) -> StronglySorted R l -> StronglySorted S l.
Proof.
  intros H. induction 1; constructor; [done|]. eapply Forall_impl; eauto.
Qed.

(** [ORDER BY] an integer column. *)
Definition order_by_key {A} (key : A -> Z) (l : list A) : list A :=
  order_by (fun x y => bool_decide (key x <= key y)%Z) l.

Lemma order_by_key_sorted {A} (key : A -> Z) l :
  StronglySorted (fun x y => key x <= key y)%Z (order_by_key key l).
Proof.
  assert (H : StronglySorted (fun x y => bool_decide (key x <= key y)%Z = true)
                (order_by_key key l)).
  { apply order_by_sorted.
    - intros x y. rewrite bool_decide_eq_false, bool_decide_eq_true. lia.
    - intros x y z. rewrite !bool_decide_eq_true. lia. }
  revert H. apply StronglySorted_weaken. intros x y. by rewrite bool_decide_eq_true.
Qed.

Lemma order_by_key_id {A} (key : A -> Z) l :
  StronglySorted (fun x y => key x <= key y)%Z l -> order_by_key key l = l.
Proof.
  intros H. apply order_by_id. revert H. apply StronglySorted_weaken.
  intros x y. by rewrite bool_decide_eq_true.
Qed.

(** A list in strictly increasing order of its keys is what any permutation of it
    sorts to. *)
Lemma strictly_sorted_unique {A} (key : A -> Z) l1 : forall l2,
  StronglySorted (fun x y => key x < key y)%Z l1 ->
  StronglySorted (fun x y => key x <= key y)%Z l2 -> l2 ≡ₚ l1 -> l2 = l1.
Proof.
  induction l1 as [|a l1 IH]; intros l2 H1 H2 Hp.
  - by apply Permutation_nil_r in Hp.
  - inversion H1 as [|? ? S1 F1]; subst.
    destruct l2 as [|b l2]; [by apply Permutation_nil_l in Hp|].
    inversion H2 as [|? ? S2 F2]; subst. rewrite Forall_forall in F1, F2.
    assert (a = b) as <-.
    { assert (Ha : a ∈ b :: l2) by (rewrite Hp; set_solver).
      assert (Hb : b ∈ a :: l1) by (rewrite <- Hp; set_solver).
      apply elem_of_cons in Ha as [->|Ha]; [done|]. apply elem_of_cons in Hb as [->|Hb]; [done|].
      specialize (F1 b Hb). specialize (F2 a Ha). simpl in *. lia. }
    f_equal. apply IH; [done..|]. by apply Permutation_cons_inv in Hp.
Qed.

Lemma order_by_key_perm {A} (key : A -> Z) l l' :
  StronglySorted (fun x y => key x < key y)%Z l -> l' ≡ₚ l -> order_by_key key l' = l.
Proof.
  intros Hs Hp. apply (strictly_sorted_unique key); [done|apply order_by_key_sorted|].
  unfold order_by_key. by rewrite order_by_perm.
Qed.

(** ** Filters that keep nothing or everything *)

Lemma filter_none {A} (P : A -> Prop) `{forall x, Decision (P x)} (l : list A) :
  (forall x, x ∈ l -> ~ P x) -> filter P l = [].
Proof.
  induction l as [|x l IH]; intros Hl; [done|].
  rewrite filter_cons_False by (apply Hl; set_solver). apply IH. set_solver.
Qed.

Lemma filter_every {A} (P : A -> Prop) `{forall x, Decision (P x)} (l : list A) :
  (forall x, x ∈ l -> P x) -> filter P l = l.
Proof.
  induction l as [|x l IH]; intros Hl; [done|].
  rewrite filter_cons_True by (apply Hl; set_solver). f_equal. apply IH. set_solver.
Qed.

(** ** Prefixes of strings *)

Lemma prefix_length n s :
  (n <= String.length s)%nat -> String.length (str_prefix n s) = n.
Proof.
  unfold str_prefix. revert n. induction s as [|a s IH]; intros [|n] Hn; simpl in *; try lia.
  f_equal. apply IH. lia.
Qed.

Lemma prefix_split n s : exists rest, s = str_prefix n s +:+ rest.
Proof.
  unfold str_prefix. revert n. induction s as [|a s IH]; intros [|n];
    [by exists ""..|by exists (String a s)|].
  destruct (IH n) as [rest Hr]. exists rest. simpl. by rewrite Hr at 1.
Qed.

Lemma starts_with_own p s : starts_with p (p +:+ s) = true.
Proof.
  unfold starts_with. induction p as [|a p IH]; [by destruct s|]. simpl.
  destruct (Ascii.ascii_dec a a); [exact IH|done].
Qed.
