(* ===== verification/Json.v ===== *)
(** * JSON documents ([serde_json::Value])

    The stores keep requests, authority envelopes, turn results and outbox
    payloads as JSON.  This file holds the document type, the accessors the
    sources use on it ([get], [pointer], [as_str], ...), and decidable equality.
    The text encoding itself ([to_string]/[from_str]) is serde's and is a
    parameter of the model: see [Env]. *)

From stdpp Require Import prelude gmap strings list countable.
From S2P Require Import Prelude.

(** A number is an integer or, for anything with a fraction or an exponent, the
    bits of an [f64].  An object keeps its members as an association list with
    the order of the literal that built it. *)
Inductive Value : Type :=
| VNull
| VBool (b : bool)
| VNumber (n : Z)
| VFloat (bits : Z)
| VString (s : string)
| VArray (vs : list Value)
| VObject (members : list (string * Value)).

(** The induction principle that goes through the two nested lists. *)
Section ValueInd.
Context (P : Value -> Prop).
Context (HNull : P VNull) (HBool : forall b, P (VBool b))
        (HNumber : forall n, P (VNumber n)) (HFloat : forall n, P (VFloat n))
        (HString : forall s, P (VString s))
        (HArray : forall vs, Forall P vs -> P (VArray vs))
        (HObject : forall ms, Forall (fun m => P m.2) ms -> P (VObject ms)).

Fixpoint Value_ind' (v : Value) : P v :=
  match v with
  | VNull => HNull
  | VBool b => HBool b
  | VNumber n => HNumber n
  | VFloat n => HFloat n
  | VString s => HString s
  | VArray vs =>
      HArray vs ((fix go l : Forall P l :=
        match l with
        | [] => Forall_nil_2 _
        | x :: l' => Forall_cons_2 _ _ _ (Value_ind' x) (go l')
        end) vs)
  | VObject ms =>
      HObject ms ((fix go l : Forall (fun m : string * Value => P m.2) l :=
        match l with
        | [] => Forall_nil_2 _
        | m :: l' =>
            Forall_cons_2 (fun m : string * Value => P m.2) m l'
              (Value_ind' m.2) (go l')
        end) ms)
  end.
End ValueInd.

(** ** Decidable equality and countability, through generic trees *)

Definition leaf : Type := unit + bool + Z + Z + string.

Definition leaf_null : leaf := inl (inl (inl (inl tt))).
Definition leaf_bool (b : bool) : leaf := inl (inl (inl (inr b))).
Definition leaf_number (n : Z) : leaf := inl (inl (inr n)).
Definition leaf_float (n : Z) : leaf := inl (inr n).
Definition leaf_string (s : string) : leaf := inr s.

Fixpoint value_to_tree (v : Value) : gen_tree leaf :=
  match v with
  | VNull => GenLeaf leaf_null
  | VBool b => GenLeaf (leaf_bool b)
  | VNumber n => GenLeaf (leaf_number n)
  | VFloat n => GenLeaf (leaf_float n)
  | VString s => GenLeaf (leaf_string s)
  | VArray vs => GenNode 0 (map value_to_tree vs)
  | VObject ms =>
      GenNode 1 (map (fun m => GenNode 2 [GenLeaf (leaf_string m.1);
                                          value_to_tree m.2]) ms)
  end.

Fixpoint tree_to_value (t : gen_tree leaf) : Value :=
  match t with
  | GenLeaf (inl (inl (inl (inl _)))) => VNull
  | GenLeaf (inl (inl (inl (inr b)))) => VBool b
  | GenLeaf (inl (inl (inr n))) => VNumber n
  | GenLeaf (inl (inr n)) => VFloat n
  | GenLeaf (inr s) => VString s
  | GenNode 0 ts => VArray (map tree_to_value ts)
  | GenNode _ ts =>
      VObject (map (fun t' =>
        match t' with
        | GenNode _ [GenLeaf (inr k); t''] => (k, tree_to_value t'')
        | _ => (EmptyString, VNull)
        end) ts)
  end.

Lemma tree_to_value_to_tree v : tree_to_value (value_to_tree v) = v.
Proof.
  induction v as [| | | | |vs IH|ms IH] using Value_ind'; simpl; try done.
  - f_equal. induction IH as [|x l Hx _ IHl]; simpl; [done|].
    by rewrite Hx, IHl.
  - f_equal. induction IH as [|[k x] l Hx _ IHl]; simpl in *; [done|].
    by rewrite Hx, IHl.
Qed.

#[export] Instance value_to_tree_inj : Inj (=) (=) value_to_tree.
Proof.
  intros x y H. rewrite <- (tree_to_value_to_tree x), H.
  apply tree_to_value_to_tree.
Qed.

#[export] Instance Value_eq_dec : EqDecision Value.
Proof.
  intros x y. destruct (decide (value_to_tree x = value_to_tree y)) as [E|E].
  - left. by apply (inj value_to_tree).
  - right. intros ->. by apply E.
Defined.

#[export] Instance Value_countable : Countable Value :=
  inj_countable' value_to_tree tree_to_value tree_to_value_to_tree.

(** ** Accessors *)

(** [Map::get] on the members of an object. *)
Fixpoint members_get (k : string) (ms : list (string * Value)) : option Value :=
  match ms with
  | [] => None
  | (k', v) :: ms' => if bool_decide (k = k') then Some v else members_get k ms'
  end.

(** [Value::get(key)]: [None] on anything but an object. *)
Definition value_get (k : string) (v : Value) : option Value :=
  match v with VObject ms => members_get k ms | _ => None end.

(** [Value::pointer], with the path already split at its slashes. *)
Fixpoint pointer (path : list string) (v : Value) : option Value :=
  match path with
  | [] => Some v
  | k :: path' => match value_get k v with
                  | Some v' => pointer path' v'
                  | None => None
                  end
  end.

Definition as_str (v : Value) : option string :=
  match v with VString s => Some s | _ => None end.
Definition as_bool (v : Value) : option bool :=
  match v with VBool b => Some b | _ => None end.
Definition as_u64 (v : Value) : option Z :=
  match v with VNumber n => u64_try_from n | _ => None end.
Definition as_object (v : Value) : option (list (string * Value)) :=
  match v with VObject ms => Some ms | _ => None end.
Definition contains_key (k : string) (ms : list (string * Value)) : bool :=
  opt_is_some (members_get k ms).

(** [value.pointer(path).and_then(Value::as_str)] *)
Definition pointer_str (path : list string) (v : Value) : option string :=
  match pointer path v with Some v' => as_str v' | None => None end.

Definition opt_string (o : option string) : Value :=
  match o with Some s => VString s | None => VNull end.

(** The documents whose text round trip is exact: no [f64] anywhere, every
    integer one that [serde_json::Number] can hold, and no member name twice
    (serde_json is built with insertion-ordered maps). *)
Fixpoint exact_json (v : Value) : bool :=
  match v with
  | VNumber n => bool_decide (i64_min <= n <= u64_max)%Z
  | VFloat _ => false
  | VArray vs => forallb exact_json vs
  | VObject ms =>
      bool_decide (NoDup (map fst ms)) && forallb (fun m => exact_json m.2) ms
  | _ => true
  end.

(** Nesting depth of arrays and objects; serde's parser refuses more than 127. *)
Fixpoint json_depth (v : Value) : nat :=
  match v with
  | VArray vs => S (foldr (fun v' d => Nat.max (json_depth v') d) 0 vs)
  | VObject ms => S (foldr (fun m d => Nat.max (json_depth m.2) d) 0 ms)
  | _ => 0
  end.

Definition max_json_depth : nat := 127.
