(* ===== verification/TurnState.v ===== *)
(** * Turn states and the versioned compare-and-transition
    ([crates/zaion-runtime/src/turn_state.rs])

    [TurnState] with its transition table, [VersionedTurnState] with its pure
    compare-and-transition, the step relation the latter induces, and the facts
    on runs of that relation the store relies on. *)

From stdpp Require Import prelude strings relations.
From S2P Require Import Prelude.
Local Open Scope res_scope.
Local Open Scope Z_scope.

Inductive TurnState : Type :=
| Accepted
| Routed
| Running
| WaitingApproval
| ToolRunning
| Completed
| Degraded
| Aborted
| Quarantined.

#[export] Instance TurnState_eq_dec : EqDecision TurnState.
Proof. solve_decision. Defined.

(** [TurnState::ALL] *)
Definition ALL : list TurnState :=
  [Accepted; Routed; Running; WaitingApproval; ToolRunning;
   Completed; Degraded; Aborted; Quarantined].

Definition is_terminal (s : TurnState) : bool :=
  match s with
  | Completed | Degraded | Aborted | Quarantined => true
  | _ => false
  end.

Definition can_transition_to (s next : TurnState) : bool :=
  match s with
  | Accepted =>
      match next with Routed | Aborted | Quarantined => true | _ => false end
  | Routed =>
      match next with Running | Aborted | Quarantined => true | _ => false end
  | Running =>
      match next with
      | WaitingApproval | ToolRunning | Completed | Degraded | Aborted
      | Quarantined => true
      | _ => false
      end
  | WaitingApproval =>
      match next with ToolRunning | Aborted | Quarantined => true | _ => false end
  | ToolRunning =>
      match next with
      | Running | WaitingApproval | Completed | Degraded | Aborted
      | Quarantined => true
      | _ => false
      end
  | Completed | Degraded | Aborted | Quarantined => false
  end.

(** The revision is a [u64]. *)
Record VersionedTurnState : Type := restore {
  state : TurnState;
  revision : Z
}.

#[export] Instance VersionedTurnState_eq_dec : EqDecision VersionedTurnState.
Proof. solve_decision. Defined.

Definition accepted : VersionedTurnState := restore Accepted 0.

Inductive TurnTransitionError : Type :=
| RevisionConflict (expected actual : Z)
| StateConflict (expected actual : TurnState)
| TerminalState (s : TurnState)
| IllegalTransition (from to : TurnState)
| RevisionExhausted.

#[export] Instance TurnTransitionError_eq_dec : EqDecision TurnTransitionError.
Proof. solve_decision. Defined.

Definition compare_and_transition (self : VersionedTurnState)
    (expected_state : TurnState) (expected_revision : Z) (next : TurnState)
  : result TurnTransitionError VersionedTurnState :=
  guard? bool_decide (revision self = expected_revision)
    else RevisionConflict expected_revision (revision self) in
  guard? bool_decide (state self = expected_state)
    else StateConflict expected_state (state self) in
  guard? negb (is_terminal (state self)) else TerminalState (state self) in
  guard? can_transition_to (state self) next
    else IllegalTransition (state self) next in
  let? r := ok_or (u64_checked_add (revision self) 1) RevisionExhausted in
  Ok (restore next r).

(** One successful compare-and-transition. *)
Inductive cas_step : relation VersionedTurnState :=
| cas_ok v es er next v' :
    compare_and_transition v es er next = Ok v' -> cas_step v v'.

(** ** Lemmas *)

Lemma in_u64_spec z : in_u64 z = true <-> 0 <= z <= u64_max.
Proof. unfold in_u64. by rewrite bool_decide_eq_true. Qed.

Lemma u64_checked_add_Some a b c :
  u64_checked_add a b = Some c <-> c = a + b /\ 0 <= a + b <= u64_max.
Proof.
  unfold u64_checked_add. rewrite <- in_u64_spec.
  destruct (in_u64 (a + b)) eqn:E; split; naive_solver.
Qed.

Lemma terminal_no_transition s next :
  is_terminal s = true -> can_transition_to s next = false.
Proof. by destruct s. Qed.

Lemma can_transition_not_terminal s next :
  can_transition_to s next = true -> is_terminal s = false.
Proof. by destruct s. Qed.

#[export] Hint Resolve terminal_no_transition can_transition_not_terminal : zaion.

Lemma compare_and_transition_ok v es er next v' :
  compare_and_transition v es er next = Ok v' <->
  revision v = er /\ state v = es /\ can_transition_to es next = true /\
  0 <= er + 1 <= u64_max /\ v' = restore next (er + 1).
Proof.
  unfold compare_and_transition. split.
  - intros H. ok_inv H. bool_props. subst.
    destruct (u64_checked_add (revision v) 1) as [r|] eqn:E; simplify_eq/=.
    apply u64_checked_add_Some in E as [-> ?]. auto.
  - intros (<- & <- & Ht & Hr & ->).
    rewrite !bool_decide_eq_true_2 by done.
    rewrite (can_transition_not_terminal _ _ Ht), Ht. simpl.
    destruct (u64_checked_add (revision v) 1) as [r|] eqn:E; simpl.
    + by apply u64_checked_add_Some in E as [-> _].
    + unfold u64_checked_add in E. by rewrite (proj2 (in_u64_spec _) Hr) in E.
Qed.

Lemma cas_step_inv v v' :
  cas_step v v' ->
  can_transition_to (state v) (state v') = true /\ revision v' = revision v + 1.
Proof.
  intros [v0 es er next w H].
  apply compare_and_transition_ok in H as (<- & <- & ? & ? & ->). auto.
Qed.

Lemma cas_runs_revision n v v' :
  nsteps cas_step n v v' -> revision v' = revision v + Z.of_nat n.
Proof.
  induction 1 as [|n x y z Hs _ IH]; [lia|].
  apply cas_step_inv in Hs as [_ Hr]. lia.
Qed.

(** The states a turn can be in after [n] transitions from [Accepted]. *)
Definition early (n : nat) (s : TurnState) : Prop :=
  match n with
  | 0%nat => s = Accepted
  | 1%nat => s = Routed \/ s = Aborted \/ s = Quarantined
  | 2%nat => s = Running \/ s = Aborted \/ s = Quarantined
  | _ => s <> Accepted /\ s <> Routed
  end.

Lemma early_step n s s' :
  early n s -> can_transition_to s s' = true -> early (S n) s'.
Proof. destruct n as [|[|[|n]]]; simpl; destruct s, s'; naive_solver. Qed.

Lemma cas_runs_early n v :
  nsteps cas_step n accepted v -> early n (state v).
Proof.
  intros H. cut (forall m u w, nsteps cas_step m u w -> forall k,
    early k (state u) -> early (k + m) (state w)).
  { intros C. by apply (C n accepted v H 0%nat). }
  clear. induction 1 as [|m x y z Hs _ IH]; intros k Hk.
  - by rewrite Nat.add_0_r.
  - rewrite Nat.add_succ_r. apply (IH (S k)).
    apply cas_step_inv in Hs as [Hc _]. by eapply early_step.
Qed.

(** ** Properties *)

(** [VersionedTurnState::compare_and_transition] succeeds exactly when the
    caller's expected revision and state are the current ones, the transition
    table allows the move and the [u64] revision does not overflow; it then
    returns the requested state at the next revision. *)
Theorem compare_and_transition_iff v es er next v' :
  compare_and_transition v es er next = Ok v' <->
  revision v = er /\ state v = es /\ can_transition_to es next = true /\
  0 <= er + 1 <= u64_max /\ v' = restore next (er + 1).
Proof. apply compare_and_transition_ok. Qed.

(** The life of a turn: after [n] successful compare-and-transitions from
    the accepted state the revision is [n]; the turn is [Completed] or
    [Degraded] only after at least three of them (it was routed and run first);
    and from a terminal state no compare-and-transition succeeds any more. *)
Theorem turn_lifecycle n v :
  nsteps cas_step n accepted v ->
  revision v = Z.of_nat n /\
  (state v = Completed \/ state v = Degraded -> (3 <= n)%nat) /\
  (is_terminal (state v) = true ->
   forall es er next, is_ok (compare_and_transition v es er next) = false).
Proof.
  intros H. split; [|split].
  - by rewrite (cas_runs_revision _ _ _ H).
  - intros Hc. apply cas_runs_early in H.
    destruct n as [|[|[|n]]]; simpl in H; [intuition congruence..|lia].
  - intros Ht es er next.
    destruct (compare_and_transition v es er next) eqn:E; [|done].
    apply compare_and_transition_ok in E as (_ & <- & Hc & _).
    by rewrite terminal_no_transition in Hc.
Qed.

Lemma turn_lifecycle_witness :
  revision (restore Completed 3) = Z.of_nat 3 /\
  (is_terminal Completed = true ->
   forall es er next,
     is_ok (compare_and_transition (restore Completed 3) es er next) = false).
Proof.
  assert (H : nsteps cas_step 3 accepted (restore Completed 3)).
  { apply nsteps_l with (restore Routed 1).
    { by apply (cas_ok _ Accepted 0 Routed). }
    apply nsteps_l with (restore Running 2).
    { by apply (cas_ok _ Routed 1 Running). }
    apply nsteps_l with (restore Completed 3).
    { by apply (cas_ok _ Running 2 Completed). }
    apply nsteps_O. }
  destruct (turn_lifecycle 3 (restore Completed 3) H) as (Hr & _ & Ht).
  split; [exact Hr | exact Ht].
Defined.
