(* ===== verification/TurnKernel.v ===== *)
(** * Turn results ([crates/zaion-runtime/src/turn_kernel.rs] and the outcome
    types of [crates/zaion-runtime/src/turn_outcome.rs])

    The canonical result of entering the turn kernel and the terminal turn state
    each result resolves to. *)

From stdpp Require Import prelude strings.
From S2P Require Import Prelude.
From S2P Require Import TurnState.

Record ProofClosure : Type := {
  schema_version : Z;
  answer_trace_event_id : string;
  turn_proof_event_id : string;
  proof_hash : string;
  receipt_proof_join_event_id : option string;
  evidence_graph_hash : string
}.

Record DegradationReport : Type := {
  dr_reason_code : string;
  safe_response : bool;
  lost_capabilities : list string
}.

Record TurnError : Type := {
  te_reason_code : string;
  te_message : string
}.

Record PartialLedgerTail : Type := {
  appended_event_ids : list string;
  last_safe_parent_event_id : option string
}.

Record QuarantineEvent : Type := {
  level : Z;
  qe_reason_code : string;
  diagnostic_scope : string
}.

Inductive TurnOutcome : Type :=
| OutcomeCompleted (closure : ProofClosure)
| OutcomeDegraded (closure : ProofClosure) (report : DegradationReport)
| OutcomeAborted (error : TurnError) (ledger_tail : PartialLedgerTail)
| OutcomeQuarantined (event : QuarantineEvent).

(** [TurnOutcome::ledger_event_type] *)
Definition ledger_event_type (o : TurnOutcome) : string :=
  match o with
  | OutcomeCompleted _ => "turn.proof"
  | OutcomeDegraded _ _ => "turn.degraded"
  | OutcomeAborted _ _ => "turn.aborted"
  | OutcomeQuarantined _ => "system.quarantine"
  end.

Definition is_safe_to_reply (o : TurnOutcome) : bool :=
  match o with
  | OutcomeCompleted _ => true
  | OutcomeDegraded _ report => safe_response report
  | OutcomeAborted _ _ | OutcomeQuarantined _ => false
  end.

Definition allows_tool_execution (o : TurnOutcome) : bool :=
  match o with OutcomeCompleted _ | OutcomeDegraded _ _ => true | _ => false end.

Definition allows_memory_write (o : TurnOutcome) : bool :=
  match o with OutcomeCompleted _ => true | _ => false end.

Record RuntimeOutput : Type := {
  runtime_owner : string;
  runtime_topology : list string;
  provider_response_hash : string;
  context_pack_id : string;
  memory_atom_ids : list string;
  tool_receipt_ids : list string;
  stream_hash : string
}.

Inductive TurnExecution : Type :=
| Finished (output : option RuntimeOutput) (outcome : TurnOutcome)
| Handled (kind : string)
| Scheduled (task_id start_event_id : string).

(** [TurnExecution::completed], [TurnExecution::aborted] *)
Definition completed (output : RuntimeOutput) (closure : ProofClosure)
  : TurnExecution := Finished (Some output) (OutcomeCompleted closure).
Definition aborted (error : TurnError) (ledger_tail : PartialLedgerTail)
  : TurnExecution := Finished None (OutcomeAborted error ledger_tail).

Definition execution_output (e : TurnExecution) : option RuntimeOutput :=
  match e with Finished output _ => output | _ => None end.

Definition execution_outcome (e : TurnExecution) : option TurnOutcome :=
  match e with Finished _ outcome => Some outcome | _ => None end.

Definition terminal_state (e : TurnExecution) : TurnState :=
  match e with
  | Handled _ | Scheduled _ _ => Completed
  | Finished _ outcome =>
      match outcome with
      | OutcomeCompleted _ => Completed
      | OutcomeDegraded _ _ => Degraded
      | OutcomeAborted _ _ => Aborted
      | OutcomeQuarantined _ => Quarantined
      end
  end.

Lemma terminal_state_is_terminal e : is_terminal (terminal_state e) = true.
Proof. by destruct e as [? []| |]. Qed.

#[export] Hint Resolve terminal_state_is_terminal : zaion.
