(* ===== verification/Env.v ===== *)
(** * The code around the sources: hashing, encodings, clocks, signatures

    The crates the sources call and do not contain (sha2, hex, bs58, serde_json,
    serde's derived encoders, chrono, ed25519-dalek) are the fields of [Env]; what
    the sources rely on of them is [EnvLaws].  Every definition of the model takes
    an [Env]; [Concrete] instantiates it and proves the laws.

    Times are [DateTime<Utc>] values, as nanoseconds since the epoch. *)

From stdpp Require Import prelude strings.
From S2P Require Import Prelude.
From S2P Require Import Json.
From S2P Require Import TurnKernel.
Local Open Scope Z_scope.

Class Env : Type := {
  (** [Sha256::digest]: 32 bytes. *)
  sha256 : string -> string;
  (** [hex::encode], [hex::decode], [bs58::encode(..).into_string()] *)
  hex_encode : string -> string;
  hex_decode : string -> option string;
  bs58_encode : string -> string;
  (** [serde_json::to_string], [serde_json::from_str] *)
  json_to_string : Value -> string;
  json_from_str : string -> option Value;
  (** [serde_json::to_value], [serde_json::from_value] on [TurnExecution] *)
  execution_to_value : TurnExecution -> Value;
  execution_from_value : Value -> option TurnExecution;
  (** [Utc.timestamp_millis_opt(ms).single()] *)
  timestamp_millis_opt : Z -> option Z;
  (** [DateTime::checked_add_signed] *)
  checked_add_signed : Z -> Z -> option Z;
  (** [to_rfc3339_opts(SecondsFormat::Millis, true)], the serde form of a
      [DateTime<Utc>], and [DateTime::parse_from_rfc3339] *)
  to_rfc3339_millis : Z -> string;
  to_rfc3339 : Z -> string;
  parse_from_rfc3339 : string -> option Z;
  (** [Uuid::parse_str(s)] printed back with [to_string] *)
  uuid_reprint : string -> option string;
  (** ed25519: [SigningKey::verifying_key().to_bytes()], [sign], whether
      [VerifyingKey::from_bytes] accepts, and [verify] on an accepted key. *)
  verifying_key : string -> string;
  ed25519_sign : string -> string -> string;
  ed25519_key_ok : string -> bool;
  ed25519_verify : string -> string -> string -> bool
}.

Definition nanos_per_milli : Z := 1000000.

(** [DateTime::timestamp_millis] rounds towards the past. *)
Definition timestamp_millis (t : Z) : Z := t / nanos_per_milli.

(** The stored, millisecond precision image of a time. *)
Definition truncate_millis (t : Z) : Z := timestamp_millis t * nanos_per_milli.

(** Years 0000 to 9999: where RFC 3339 text has four-digit years. *)
Definition year_ok (t : Z) : Prop :=
  -62167219200 * 1000000000 <= t < 253402300800 * 1000000000.

Class EnvLaws `{Env} : Prop := {
  sha256_length s : String.length (sha256 s) = 32%nat;
  hex_encode_length s :
    String.length (hex_encode s) = (2 * String.length s)%nat;
  hex_roundtrip s : hex_decode (hex_encode s) = Some s;
  json_exact_roundtrip v :
    exact_json v = true -> (json_depth v <= max_json_depth)%nat ->
    json_from_str (json_to_string v) = Some v;
  json_text_parses v :
    (json_depth v <= max_json_depth)%nat ->
    exists v', json_from_str (json_to_string v) = Some v';
  execution_roundtrip e : execution_from_value (execution_to_value e) = Some e;
  execution_value_exact e :
    exact_json (execution_to_value e) = true /\
    (json_depth (execution_to_value e) <= max_json_depth)%nat;
  timestamp_millis_opt_Some ms t :
    timestamp_millis_opt ms = Some t -> t = ms * nanos_per_milli;
  timestamp_millis_opt_ok ms :
    year_ok (ms * nanos_per_milli) ->
    timestamp_millis_opt ms = Some (ms * nanos_per_milli);
  checked_add_signed_Some t d t' :
    checked_add_signed t d = Some t' -> t' = t + d;
  checked_add_signed_ok t d :
    year_ok (t + d) -> checked_add_signed t d = Some (t + d);
  rfc3339_millis_roundtrip t :
    year_ok t ->
    parse_from_rfc3339 (to_rfc3339_millis t) = Some (truncate_millis t);
  rfc3339_roundtrip t :
    year_ok t -> parse_from_rfc3339 (to_rfc3339 t) = Some t;
  verifying_key_length sk : String.length (verifying_key sk) = 32%nat;
  verifying_key_ok sk : ed25519_key_ok (verifying_key sk) = true;
  sign_length sk m : String.length (ed25519_sign sk m) = 64%nat;
  sign_verifies sk m :
    ed25519_verify (verifying_key sk) m (ed25519_sign sk m) = true
}.

(** ** The shared length-prefixed digest

    [hash_parts] of [turn_store.rs] (and its copies in [ledger.rs]): every part
    is written as its length, its bytes and a separator byte. *)

Definition part_bytes (part : string) : string :=
  le_bytes 8 (str_len part) +:+ part +:+ le_bytes 1 31.

Definition parts_bytes (parts : list string) : string :=
  foldr (fun p acc => part_bytes p +:+ acc) EmptyString parts.

Section WithEnv.
Context `{Env}.

Definition hash_parts (parts : list string) : string :=
  hex_encode (sha256 (parts_bytes parts)).

(** [sha256_text] of [turn_store.rs] *)
Definition sha256_text (value : string) : string :=
  "sha256:" +:+ hex_encode (sha256 value).

(** [canonical_json] of [turn_store.rs]; [serde_json::to_string] of a [Value]
    does not fail. *)
Definition canonical_json (v : Value) : string := json_to_string v.

(** [principal_id_from_public_key] of [zaion-crypto] *)
Definition principal_id_from_public_key (public_key : string) : string :=
  bs58_encode (sha256 public_key).

End WithEnv.

(** ** Lemmas *)

Lemma truncate_millis_le t : truncate_millis t <= t < truncate_millis t + nanos_per_milli.
Proof. unfold truncate_millis, timestamp_millis, nanos_per_milli. zdiv_lia. Qed.

Lemma timestamp_millis_truncate t :
  timestamp_millis (truncate_millis t) = timestamp_millis t.
Proof. unfold truncate_millis, timestamp_millis, nanos_per_milli. zdiv_lia. Qed.

Lemma timestamp_millis_mul ms : timestamp_millis (ms * nanos_per_milli) = ms.
Proof. unfold timestamp_millis, nanos_per_milli. zdiv_lia. Qed.

Lemma timestamp_millis_mono t t' :
  t <= t' -> timestamp_millis t <= timestamp_millis t'.
Proof. unfold timestamp_millis, nanos_per_milli. zdiv_lia. Qed.

(** Comparing a stored millisecond with a clock reading, as a [DateTime] or in
    SQL, is the same test. *)
Lemma stored_le_iff ms now :
  ms * nanos_per_milli <= now <-> ms <= timestamp_millis now.
Proof. unfold timestamp_millis, nanos_per_milli. zdiv_lia. Qed.

Lemma stored_lt_iff ms now :
  now < ms * nanos_per_milli <-> timestamp_millis now < ms.
Proof. unfold timestamp_millis, nanos_per_milli. zdiv_lia. Qed.

Lemma year_ok_truncate t : year_ok t -> year_ok (truncate_millis t).
Proof. unfold year_ok, truncate_millis, timestamp_millis, nanos_per_milli. zdiv_lia. Qed.

#[export] Hint Resolve year_ok_truncate : zaion.

(** ** The digest preimage is unambiguous *)

Lemma append_inv_length (a b x y : string) :
  String.length a = String.length b -> a +:+ x = b +:+ y -> a = b /\ x = y.
Proof.
  revert b; induction a as [|c a IH]; intros [|d b] Hl He; simpl in *; try done.
  injection He as -> He. destruct (IH b) as [-> ->]; [lia|done|done].
Qed.

Lemma string_app_assoc (a b c : string) : a +:+ (b +:+ c) = (a +:+ b) +:+ c.
Proof. induction a as [|x a IH]; [done|]. exact (f_equal (String x) IH). Qed.

Lemma le_bytes_inj n a b :
  0 <= a < 256 ^ Z.of_nat n -> 0 <= b < 256 ^ Z.of_nat n ->
  le_bytes n a = le_bytes n b -> a = b.
Proof.
  revert a b; induction n as [|n IH]; intros a b Ha Hb Hab; [simpl in *; lia|].
  rewrite Nat2Z.inj_succ, Z.pow_succ_r in Ha, Hb by lia.
  injection Hab as Hc Hs.
  assert (Hmod : a mod 256 = b mod 256).
  { apply (f_equal Ascii.N_of_ascii) in Hc.
    rewrite !Ascii.N_ascii_embedding in Hc by
      (apply N2Z.inj_lt; rewrite Z2N.id; zdiv_lia). zdiv_lia. }
  assert (Hdiv : a / 256 = b / 256).
  { apply IH; [..|done]; split; try zdiv_lia; apply Z.div_lt_upper_bound; lia. }
  rewrite (Z.div_mod a 256), (Z.div_mod b 256) by lia. lia.
Qed.

Lemma part_bytes_inj p q x y :
  str_len p < 2 ^ 64 -> str_len q < 2 ^ 64 ->
  part_bytes p +:+ x = part_bytes q +:+ y -> p = q /\ x = y.
Proof.
  unfold part_bytes. intros Hp Hq E. rewrite <- !string_app_assoc in E.
  apply append_inv_length in E as [El E]; [|by rewrite !le_bytes_length].
  apply le_bytes_inj in El; [|unfold str_len in *; simpl; lia..].
  apply append_inv_length in E as [-> E]; [|unfold str_len in *; lia].
  by apply append_inv_length in E as [_ ->].
Qed.

(** The preimage of the identifiers of actors, turns, outbox rows and
    idempotent events is unambiguous: two different lists of parts never give
    the same bytes to SHA-256, whatever separators the parts themselves
    contain, because every part is preceded by its length. *)
Theorem parts_bytes_injective ps qs :
  Forall (fun p => str_len p < 2 ^ 64) ps ->
  Forall (fun q => str_len q < 2 ^ 64) qs ->
  ps <> qs -> parts_bytes ps <> parts_bytes qs.
Proof.
  intros Hps Hqs Hne E. apply Hne; clear Hne. revert qs Hqs E.
  induction Hps as [|p ps Hp _ IH]; intros qs Hqs E.
  - destruct Hqs as [|q qs Hq _]; [done|]. simpl in E. discriminate E.
  - destruct Hqs as [|q qs Hq Hqs]; [discriminate E|].
    apply part_bytes_inj in E as [-> E]; [|done..].
    f_equal. by apply IH.
Qed.

Lemma parts_bytes_injective_witness :
  parts_bytes ["ab"; "c"] <> parts_bytes ["a"; "bc"].
Proof.
  apply parts_bytes_injective; [| |discriminate];
    repeat constructor; unfold str_len; simpl; lia.
Defined.
