(* ===== verification/Text.v ===== *)
(** * Operations on text

    The operations of [str] that several components use beyond those of [Prelude]: slicing at
    a byte position, which panics inside a code point, [lines], searching and replacing.
    Strings are UTF-8 bytes. *)

From Stdlib Require Import Ascii.
From stdpp Require Import prelude strings list.
From S2P Require Import Prelude.
From S2P Require Import Env.

(** A byte that continues a code point. *)
Definition is_continuation (a : Ascii.ascii) : bool := in_range 128 191 (Ascii.N_of_ascii a).

(** [s.is_char_boundary(n)] *)
Definition is_char_boundary (n : nat) (s : string) : bool :=
  match String.get n s with
  | Some a => negb (is_continuation a)
  | None => bool_decide (n = String.length s)
  end.

(** [&s[..n]]; [None] is a panic. *)
Definition slice_to (n : nat) (s : string) : option string :=
  if is_char_boundary n s then Some (String.substring 0 n s) else None.

Definition is_ascii_hexdigit_byte (a : Ascii.ascii) : bool :=
  let n := Ascii.N_of_ascii a in
  in_range 48 57 n || in_range 65 70 n || in_range 97 102 n.

(** The well-formed UTF-8 sequences. *)
Fixpoint utf8_ok (l : list Ascii.ascii) : bool :=
  match l with
  | [] => true
  | a :: l1 =>
      let n := Ascii.N_of_ascii a in
      if (n <=? 127)%N then utf8_ok l1 else
      match l1 with
      | [] => false
      | b :: l2 =>
          let m := Ascii.N_of_ascii b in
          if in_range 194 223 n then is_continuation b && utf8_ok l2 else
          match l2 with
          | [] => false
          | c :: l3 =>
              if in_range 224 239 n then
                is_continuation b && is_continuation c
                && (negb (n =? 224)%N || (160 <=? m)%N) && (negb (n =? 237)%N || (m <=? 159)%N)
                && utf8_ok l3
              else
              match l3 with
              | [] => false
              | d :: l4 =>
                  in_range 240 244 n && is_continuation b && is_continuation c
                  && is_continuation d && (negb (n =? 240)%N || (144 <=? m)%N)
                  && (negb (n =? 244)%N || (m <=? 143)%N) && utf8_ok l4
              end
          end
      end
  end.

Definition str_utf8 (s : string) : bool := utf8_ok (String.list_ascii_of_string s).

(** ** [str::lines] *)

Definition lf : Ascii.ascii := Ascii.ascii_of_N 10.
Definition cr : Ascii.ascii := Ascii.ascii_of_N 13.

(** The pieces between line feeds; there is always one. *)
Fixpoint split_lf (s : string) : list string :=
  match s with
  | EmptyString => [EmptyString]
  | String a s' =>
      if Ascii.eqb a lf then EmptyString :: split_lf s'
      else match split_lf s' with
           | [] => [String a EmptyString]
           | w :: ws => String a w :: ws
           end
  end.

(** A line ending in a carriage return before the line feed loses it. *)
Fixpoint strip_cr (s : string) : string :=
  match s with
  | EmptyString => EmptyString
  | String a EmptyString => if Ascii.eqb a cr then EmptyString else s
  | String a s' => String a (strip_cr s')
  end.

(** The last piece is a line only when it is not empty, and keeps a carriage return. *)
Fixpoint lines_of (pieces : list string) : list string :=
  match pieces with
  | [] => []
  | [last] => if bool_decide (last = EmptyString) then [] else [last]
  | w :: ws => strip_cr w :: lines_of ws
  end.

Definition str_lines (s : string) : list string := lines_of (split_lf s).

(** [s.ends_with(c)] of a character of one byte. *)
Fixpoint ends_with_char (c : Ascii.ascii) (s : string) : bool :=
  match s with
  | EmptyString => false
  | String a EmptyString => Ascii.eqb a c
  | String _ s' => ends_with_char c s'
  end.

(** ** Searching and replacing *)

Definition str_drop (n : nat) (s : string) : string :=
  String.substring n (String.length s - n) s.

(** [s.find(needle)]: the byte offset of the first occurrence. *)
Fixpoint str_find (needle s : string) : option nat :=
  if String.prefix needle s then Some O
  else match s with
       | EmptyString => None
       | String _ s' => S <$> str_find needle s'
       end.

(** The number of code points. *)
Definition chars_count (s : string) : nat :=
  length (filter (fun a => is_continuation a = false) (String.list_ascii_of_string s)).

(** [s.matches(needle).count()]: occurrences that do not overlap; the empty pattern matches
    at every boundary of a code point. *)
Fixpoint count_from (fuel : nat) (needle s : string) : nat :=
  match fuel with
  | O => O
  | S fuel' =>
      match str_find needle s with
      | None => O
      | Some i => S (count_from fuel' needle (str_drop (i + String.length needle) s))
      end
  end.

Definition matches_count (needle s : string) : nat :=
  if bool_decide (needle = EmptyString) then S (chars_count s)
  else count_from (S (String.length s)) needle s.

(** [s.replacen(needle, by, 1)] *)
Definition replace_first (needle by_ s : string) : string :=
  match str_find needle s with
  | None => s
  | Some i =>
      String.substring 0 i s +:+ by_ +:+ str_drop (i + String.length needle) s
  end.

(** ** Lemmas *)

Lemma append_nil_r (s : string) : s +:+ EmptyString = s.
Proof. induction s as [|a s IH]; [done|]. exact (f_equal (String a) IH). Qed.

Lemma length_append (s t : string) :
  String.length (s +:+ t) = (String.length s + String.length t)%nat.
Proof. induction s as [|a s IH]; [done|]. exact (f_equal S IH). Qed.

Lemma substring_0_append (p q : string) : String.substring 0 (String.length p) (p +:+ q) = p.
Proof.
  induction p as [|a p IH]; [destruct q; done|]. exact (f_equal (String a) IH).
Qed.

Lemma substring_full (s : string) : String.substring 0 (String.length s) s = s.
Proof. induction s as [|a s IH]; [done|]. exact (f_equal (String a) IH). Qed.

Lemma substring_drop_append (p q : string) n :
  String.substring (String.length p) n (p +:+ q) = String.substring 0 n q.
Proof. induction p as [|a p IH]; [done|]. exact IH. Qed.

Lemma str_drop_append (p q : string) : str_drop (String.length p) (p +:+ q) = q.
Proof.
  unfold str_drop. rewrite substring_drop_append, length_append.
  replace (String.length p + String.length q - String.length p)%nat with (String.length q) by lia.
  apply substring_full.
Qed.

Lemma prefix_append (p q : string) : String.prefix p (p +:+ q) = true.
Proof.
  induction p as [|a p IH]; [destruct q; done|].
  change (String a p +:+ q) with (String a (p +:+ q)). simpl.
  rewrite IH. by destruct (Ascii.ascii_dec a a).
Qed.

Lemma prefix_inv (p s : string) : String.prefix p s = true -> exists q, s = p +:+ q.
Proof.
  revert s; induction p as [|a p IH]; intros s Hp; [by exists s|].
  destruct s as [|b s]; [done|]. simpl in Hp.
  destruct (Ascii.ascii_dec a b) as [->|]; [|done].
  destruct (IH s Hp) as [q ->]. by exists q.
Qed.

(** The first occurrence splits the text, and there is none before it. *)
Lemma str_find_Some needle s i :
  str_find needle s = Some i ->
  exists p q, s = p +:+ needle +:+ q /\ String.length p = i.
Proof.
  revert i; induction s as [|a s IH]; intros i Hf; cbn [str_find] in Hf.
  - destruct (String.prefix needle EmptyString) eqn:E; [|done]. injection Hf as <-.
    destruct (prefix_inv _ _ E) as [q Eq]. exists EmptyString, q. split; [exact Eq|done].
  - destruct (String.prefix needle (String a s)) eqn:E; [injection Hf as <-|].
    + destruct (prefix_inv _ _ E) as [q Eq]. exists EmptyString, q. split; [exact Eq|done].
    + destruct (str_find needle s) as [j|] eqn:Ej; [|done]. simplify_eq/=.
      destruct (IH j eq_refl) as (p & q & -> & <-). by exists (String a p), q.
Qed.

Lemma str_find_prefix needle s : String.prefix needle s = true -> str_find needle s = Some O.
Proof. intros Hp. destruct s; cbn [str_find]; by rewrite Hp. Qed.

Lemma str_find_occurs needle p q : is_Some (str_find needle (p +:+ needle +:+ q)).
Proof.
  induction p as [|a p [i IH]].
  - exists O. apply str_find_prefix. exact (prefix_append needle q).
  - change (String a p +:+ needle +:+ q) with (String a (p +:+ needle +:+ q)).
    cbn [str_find]. destruct (String.prefix _ _); [eauto|]. rewrite IH. eauto.
Qed.

(** Replacing the first occurrence changes exactly it. *)
Lemma replace_first_spec needle by_ s i :
  str_find needle s = Some i ->
  exists p q, s = p +:+ needle +:+ q /\ String.length p = i /\
    replace_first needle by_ s = p +:+ by_ +:+ q.
Proof.
  intros Hf. unfold replace_first. rewrite Hf.
  destruct (str_find_Some _ _ _ Hf) as (p & q & -> & <-). exists p, q. split; [done|].
  split; [done|]. rewrite substring_0_append.
  rewrite (string_app_assoc p needle q), <- length_append, str_drop_append. done.
Qed.

Lemma slice_to_all s : slice_to (String.length s) s = Some s.
Proof.
  unfold slice_to, is_char_boundary. rewrite substring_full.
  assert (String.get (String.length s) s = None) as ->.
  { induction s as [|a s IH]; [done|]. simpl. exact IH. }
  by rewrite bool_decide_eq_true_2.
Qed.

(** ** Text of hexadecimal digits is not trimmed *)

Lemma hexdigit_not_white a b c :
  is_ascii_hexdigit_byte a = true -> ws1 a = false /\ ws2 a b = false /\ ws3 a b c = false.
Proof.
  intros Ha. destruct a as [[] [] [] [] [] [] [] []]; try discriminate Ha; done.
Qed.

Lemma trim_front_hex l : forallb is_ascii_hexdigit_byte l = true -> trim_front l = l.
Proof.
  destruct l as [|a [|b [|c l]]]; simpl; intros Hl; [done|..];
    apply andb_true_iff in Hl as [Ha _].
  - by destruct (hexdigit_not_white a a a Ha) as (-> & _).
  - by destruct (hexdigit_not_white a b b Ha) as (-> & -> & _).
  - by destruct (hexdigit_not_white a b c Ha) as (-> & -> & ->).
Qed.

Lemma trim_back_hex l : forallb is_ascii_hexdigit_byte l = true -> trim_back l = l.
Proof.
  destruct l as [|a [|b [|c l]]]; cbn -[ws1 ws2 ws3]; intros Hl; [done|..];
    rewrite ?andb_true_iff in Hl.
  - by destruct (hexdigit_not_white a a a (proj1 Hl)) as (-> & _).
  - destruct Hl as (Ha & Hb & _). destruct (hexdigit_not_white a a a Ha) as (-> & _).
    by destruct (hexdigit_not_white b a a Hb) as (_ & -> & _).
  - destruct Hl as (Ha & Hb & Hc & _). destruct (hexdigit_not_white a a a Ha) as (-> & _).
    destruct (hexdigit_not_white b a a Hb) as (_ & -> & _).
    by destruct (hexdigit_not_white c b a Hc) as (_ & _ & ->).
Qed.

Lemma forallb_rev {A} (p : A -> bool) l : forallb p (rev l) = forallb p l.
Proof.
  induction l as [|a l IH]; simpl; [done|]. rewrite forallb_app, IH. simpl.
  rewrite andb_true_r. apply andb_comm.
Qed.

Lemma str_trim_hex s : str_all is_ascii_hexdigit_byte s = true -> str_trim s = s.
Proof.
  unfold str_all, str_trim. intros Hs. rewrite trim_front_hex by done.
  rewrite trim_back_hex by (by rewrite forallb_rev). rewrite rev_involutive.
  apply String.string_of_list_ascii_of_string.
Qed.

Example lines_example : str_lines "a
b

c" = ["a"; "b"; ""; "c"] /\ str_lines "a
" = ["a"] /\ str_lines "" = [].
Proof. done. Qed.

Example matches_example :
  matches_count "aa" "aaaa" = 2%nat /\ matches_count "" "ab" = 3%nat /\
  replace_first "b" "xy" "abb" = "axyb".
Proof. vm_compute. done. Qed.
