(* ===== verification/FileSystem.v ===== *)
(** * Files and paths

    The part of [std::path] and [std::fs] that the file operations of the agent use: the name
    and extension of a path, reading, writing, renaming and creating directories on a disk.
    A path is its text, and the disk maps texts: two texts of one file (links, doubled
    slashes) are two files here.  A call can fail for a reason the disk shows, or by a fault
    of the device, which the caller supplies; the texts of the errors are a parameter. *)

From Stdlib Require Import Ascii.
From stdpp Require Import prelude gmap strings list.
From S2P Require Import Prelude.
From S2P Require Import Text.
Local Open Scope res_scope.

(** ** Paths *)

Definition slash_byte : Ascii.ascii := Ascii.ascii_of_N 47.
Definition dot_byte : Ascii.ascii := Ascii.ascii_of_N 46.

(** Trailing separators and current-directory components, on the reversed bytes. *)
Fixpoint drop_trailing (l : list Ascii.ascii) : list Ascii.ascii :=
  match l with
  | a :: l1 =>
      if Ascii.eqb a slash_byte then drop_trailing l1
      else match l1 with
           | b :: l2 =>
               if Ascii.eqb a dot_byte && Ascii.eqb b slash_byte then drop_trailing l2 else l
           | [] => l
           end
  | [] => []
  end.

(** The bytes up to the next separator, and the rest with it. *)
Fixpoint take_name (l : list Ascii.ascii) : list Ascii.ascii * list Ascii.ascii :=
  match l with
  | [] => ([], [])
  | a :: l' =>
      if Ascii.eqb a slash_byte then ([], l)
      else let '(name, rest) := take_name l' in (a :: name, rest)
  end.

Definition string_of_rev (l : list Ascii.ascii) : string := String.string_of_list_ascii (rev l).

(** What precedes the last component, and [file_name]. *)
Definition split_name (path : string) : option (string * string) :=
  let '(name, rest) := take_name (drop_trailing (rev (String.list_ascii_of_string path))) in
  let name := string_of_rev name in
  if bool_decide (name ∈ [""; "."; ".."]) then None else Some (string_of_rev rest, name).

(** The bytes after the last dot, if there is one that is not the first byte. *)
Fixpoint take_extension (l : list Ascii.ascii) : option (list Ascii.ascii * list Ascii.ascii) :=
  match l with
  | [] => None
  | a :: l' =>
      if Ascii.eqb a dot_byte then
        match l' with [] => None | _ => Some ([], l') end
      else match take_extension l' with
           | Some (ext, stem) => Some (a :: ext, stem)
           | None => None
           end
  end.

(** [file_stem] and [extension] of a name. *)
Definition stem_extension (name : string) : string * option string :=
  match take_extension (rev (String.list_ascii_of_string name)) with
  | Some (ext, stem) => (string_of_rev stem, Some (string_of_rev ext))
  | None => (name, None)
  end.

Definition path_extension (path : string) : option string :=
  '(_, name) ← split_name path; (stem_extension name).2.

Definition with_extension (ext path : string) : string :=
  match split_name path with
  | None => path
  | Some (dir, name) => dir +:+ (stem_extension name).1 +:+ "." +:+ ext
  end.

(** [path.parent()]: what precedes the last component, without the separator. *)
Definition path_parent (path : string) : option string :=
  '(dir, _) ← split_name path;
  Some (match drop_trailing (rev (String.list_ascii_of_string dir)) with
        | [] => if bool_decide (dir = EmptyString) then EmptyString else "/"
        | l => string_of_rev l
        end).

(** ** The disk *)

Record Disk : Type := { files : gmap string string; dirs : gset string }.

Definition path_exists (d : Disk) (path : string) : bool :=
  opt_is_some (files d !! path) || bool_decide (path ∈ dirs d).

(** [std::fs::read] *)
Definition read_bytes (d : Disk) (path : string) : option string := files d !! path.

(** [std::fs::read_to_string] refuses bytes that are not UTF-8. *)
Definition read_to_string (d : Disk) (path : string) : option string :=
  s ← files d !! path; if str_utf8 s then Some s else None.

(** The faults of one operation: the text of the error, and for a write what it left. *)
Record Faults : Type := {
  mkdir_fault : option string;
  write_fault : option (string * option string);
  rename_fault : option string
}.

Definition no_faults : Faults :=
  {| mkdir_fault := None; write_fault := None; rename_fault := None |}.

(** The directories on the way to a path, itself included. *)
Fixpoint ancestors (fuel : nat) (path : string) : list string :=
  match fuel with
  | O => []
  | S fuel' =>
      path :: match path_parent path with
              | Some p => ancestors fuel' p
              | None => []
              end
  end.

Section Calls.
Context (err_text : string -> string).

Definition create_dir_all (fl : Faults) (d : Disk) (path : string) : Disk * result string unit :=
  match mkdir_fault fl with
  | Some e => (d, Err e)
  | None =>
      if bool_decide (path = EmptyString) then (d, Ok tt)
      else
        let on_way := ancestors (S (String.length path)) path in
        if existsb (fun p => opt_is_some (files d !! p)) on_way then (d, Err (err_text "mkdir"))
        else ({| files := files d; dirs := dirs d ∪ list_to_set on_way |}, Ok tt)
  end.

Definition parent_present (d : Disk) (path : string) : bool :=
  match path_parent path with
  | Some p => bool_decide (p = EmptyString) || bool_decide (p ∈ dirs d)
  | None => false
  end.

(** [std::fs::write] *)
Definition write_file (fl : Faults) (d : Disk) (path content : string) : Disk * result string unit :=
  if negb (parent_present d path) || bool_decide (path ∈ dirs d) then (d, Err (err_text "write"))
  else
    match write_fault fl with
    | Some (e, left_) =>
        (match left_ with
         | Some c => {| files := <[path := c]> (files d); dirs := dirs d |}
         | None => d
         end, Err e)
    | None => ({| files := <[path := content]> (files d); dirs := dirs d |}, Ok tt)
    end.

(** [std::fs::rename] *)
Definition rename_file (fl : Faults) (d : Disk) (from to_ : string) : Disk * result string unit :=
  match rename_fault fl with
  | Some e => (d, Err e)
  | None =>
      match files d !! from with
      | None => (d, Err (err_text "rename"))
      | Some c =>
          if bool_decide (to_ ∈ dirs d) then (d, Err (err_text "rename"))
          else ({| files := <[to_ := c]> (delete from (files d)); dirs := dirs d |}, Ok tt)
      end
  end.

(** [std::fs::write(&tmp, content)?; std::fs::rename(&tmp, path)?] *)
Definition replace_file (fl : Faults) (d : Disk) (tmp path content : string)
  : Disk * result string unit :=
  match write_file fl d tmp content with
  | (d1, Err e) => (d1, Err e)
  | (d1, Ok _) => rename_file fl d1 tmp path
  end.

End Calls.

(** ** Lemmas *)

(** A replacement that succeeds stores the content and removes the temporary file, one that
    fails leaves everything but the temporary file. *)
Lemma replace_file_spec err_text fl d tmp path content d' r :
  replace_file err_text fl d tmp path content = (d', r) ->
  dirs d' = dirs d /\
  match r with
  | Ok _ => files d' = <[path := content]> (delete tmp (files d)) /\ path ∉ dirs d
  | Err _ => forall p, p <> tmp -> files d' !! p = files d !! p
  end.
Proof.
  unfold replace_file, write_file. intros Hr.
  destruct (negb (parent_present d tmp) || bool_decide (tmp ∈ dirs d)).
  { injection Hr as <- <-. done. }
  destruct (write_fault fl) as [[e left_]|].
  { injection Hr as <- <-. destruct left_; simpl; [|done]. split; [done|].
    intros p Hp. by rewrite lookup_insert_ne. }
  unfold rename_file in Hr. simpl in Hr. destruct (rename_fault fl).
  { injection Hr as <- <-. simpl. split; [done|]. intros p Hp. by rewrite lookup_insert_ne. }
  rewrite lookup_insert_eq in Hr. case_bool_decide; injection Hr as <- <-; simpl.
  - split; [done|]. intros p Hp. by rewrite lookup_insert_ne.
  - split; [done|]. split; [|done]. by rewrite delete_insert_eq.
Qed.

Lemma create_dir_all_files err_text fl d path d' r :
  create_dir_all err_text fl d path = (d', r) -> files d' = files d /\ dirs d ⊆ dirs d'.
Proof.
  unfold create_dir_all. intros Hc. destruct (mkdir_fault fl); [by injection Hc as <- _|].
  case_bool_decide; [by injection Hc as <- _|].
  destruct (existsb _ _); injection Hc as <- _; simpl; set_solver.
Qed.

(** A parent is shorter than its path, so a path is none of its own ancestors. *)
Lemma drop_trailing_length l : (length (drop_trailing l) <= length l)%nat.
Proof.
  induction l as [l IH] using (well_founded_induction (well_founded_ltof _ length)).
  unfold ltof in IH. destruct l as [|a [|b l]]; simpl; [lia|..].
  - destruct (Ascii.eqb a slash_byte); simpl; lia.
  - destruct (Ascii.eqb a slash_byte); [specialize (IH (b :: l)); simpl in *; lia|].
    destruct (_ && _); [specialize (IH l)|]; simpl in *; lia.
Qed.

Lemma take_name_length l name rest :
  take_name l = (name, rest) -> length l = (length name + length rest)%nat.
Proof.
  revert name rest; induction l as [|a l IH]; simpl; intros name rest Ht; [by injection Ht as <- <-|].
  destruct (Ascii.eqb a slash_byte); [by injection Ht as <- <-|].
  destruct (take_name l) as [n r] eqn:E. injection Ht as <- <-. simpl. by rewrite (IH n r).
Qed.

Lemma list_ascii_length s : length (String.list_ascii_of_string s) = String.length s.
Proof. induction s as [|a s IH]; simpl; congruence. Qed.

Lemma string_of_rev_length l : String.length (string_of_rev l) = length l.
Proof.
  unfold string_of_rev. rewrite <- list_ascii_length, String.list_ascii_of_string_of_list_ascii.
  apply length_rev.
Qed.

Lemma split_name_shorter path dir name :
  split_name path = Some (dir, name) -> (String.length dir < String.length path)%nat.
Proof.
  unfold split_name. destruct (take_name _) as [n r] eqn:E. case_bool_decide as Hn; [done|].
  intros [= <- _]. apply take_name_length in E. rewrite string_of_rev_length.
  pose proof (drop_trailing_length (rev (String.list_ascii_of_string path))) as Hd.
  rewrite length_rev, list_ascii_length in Hd. destruct n; [|simpl in E; lia].
  destruct Hn. left.
Qed.

Lemma path_parent_shorter path parent :
  path_parent path = Some parent -> (String.length parent < String.length path)%nat.
Proof.
  unfold path_parent. destruct (split_name path) as [[dir name]|] eqn:E; [|done].
  apply split_name_shorter in E. simpl. intros [= <-].
  pose proof (drop_trailing_length (rev (String.list_ascii_of_string dir))) as Hd.
  rewrite length_rev, list_ascii_length in Hd.
  destruct (drop_trailing (rev (String.list_ascii_of_string dir))) as [|a l] eqn:Et.
  - case_bool_decide as He; simpl; [lia|]. destruct dir; [done|]. simpl in E. lia.
  - rewrite string_of_rev_length. lia.
Qed.

Lemma ancestors_shorter fuel : forall path p,
  p ∈ ancestors fuel path -> (String.length p <= String.length path)%nat.
Proof.
  induction fuel as [|fuel IH]; intros path p Hp; [by apply elem_of_nil in Hp|].
  simpl in Hp. apply elem_of_cons in Hp as [->|Hp]; [lia|].
  destruct (path_parent path) as [q|] eqn:E; [|by apply elem_of_nil in Hp].
  apply path_parent_shorter in E. apply IH in Hp. lia.
Qed.

Example paths_example :
  path_extension "src/main.rs" = Some "rs" /\ path_extension ".env" = None /\
  path_extension "a.tar.gz/" = Some "gz" /\ with_extension "_tmp" "src/main.rs" = "src/main._tmp" /\
  with_extension "_tmp" ".env" = ".env._tmp" /\ path_parent "src/main.rs" = Some "src" /\
  path_parent "main.rs" = Some "" /\ path_parent "/etc" = Some "/" /\ path_parent "/" = None /\
  path_extension "a/.." = None.
Proof. vm_compute. done. Qed.
