(* ===== verification/Envelope.v ===== *)
(** * The canonical ingress envelope ([crates/zaion-types/src/envelope.rs])

    The message that every channel hands to the runtime: its construction with the digest of
    its source, the checks, and the payload of the event that records it.  [envelope_id]
    slices the digest, which panics ([None]) on an envelope that was not checked.

    Shown: the constructor accepts exactly the well-formed inputs and what it returns passes
    the checks; two checked envelopes with the same digest have the same source, principal,
    channel, thread, message and body unless SHA-256 collides. *)

From Stdlib Require Import Ascii.
From stdpp Require Import prelude gmap strings list.
From S2P Require Import Prelude.
From S2P Require Import Json.
From S2P Require Import Env.
From S2P Require Import Text.
Local Open Scope res_scope.
Local Open Scope Z_scope.

Inductive CanonicalEnvelopeError : Type :=
| EmptySource
| EmptyPrincipal
| UnsafePrincipal (principal : string)
| EmptyChannel
| EmptyThread
| EmptyMessageId
| EmptySourceHash
| InvalidSourceHash
| SourceHashMismatch
| EmptyBody.

Record CanonicalEnvelope : Type := {
  ce_schema_version : Z;
  ce_source : string;
  ce_principal : string;
  ce_channel : string;
  ce_thread : string;
  ce_message_id : string;
  ce_source_hash : string;
  ce_body : string;
  ce_received_at : string;
  ce_signature : option string;
  ce_metadata : gmap string Value
}.

Definition blank (s : string) : bool := bool_decide (str_trim s = EmptyString).

Definition is_unsafe_principal (principal : string) : bool :=
  bool_decide (to_ascii_lowercase (str_trim principal) ∈
    ["default"; "default_principal"; "unbound"; "unbound-principal"; "anonymous";
     "ephemeral"; "principal_placeholder"]).

Definition is_sha256_hex (value : string) : bool :=
  bool_decide (str_len value = 64) && str_all is_ascii_hexdigit_byte value
  && bool_decide (value = to_ascii_lowercase value).

Section Envelope.
Context `{Env}.

(** Every part with its length before it and a separator byte after it. *)
Definition compute_source_hash (source principal channel thread message_id body : string)
  : string := hash_parts [source; principal; channel; thread; message_id; body].

Definition envelope_hash (e : CanonicalEnvelope) : string :=
  compute_source_hash (ce_source e) (ce_principal e) (ce_channel e) (ce_thread e)
    (ce_message_id e) (ce_body e).

Definition validate (e : CanonicalEnvelope) : result CanonicalEnvelopeError unit :=
  guard? negb (blank (ce_source e)) else EmptySource in
  guard? negb (blank (ce_principal e)) else EmptyPrincipal in
  guard? negb (is_unsafe_principal (ce_principal e)) else UnsafePrincipal (ce_principal e) in
  guard? negb (blank (ce_channel e)) else EmptyChannel in
  guard? negb (blank (ce_thread e)) else EmptyThread in
  guard? negb (blank (ce_message_id e)) else EmptyMessageId in
  guard? negb (blank (ce_source_hash e)) else EmptySourceHash in
  guard? is_sha256_hex (ce_source_hash e) else InvalidSourceHash in
  guard? bool_decide (ce_source_hash e = envelope_hash e) else SourceHashMismatch in
  guard? negb (blank (ce_body e)) else EmptyBody in
  Ok tt.

(** [CanonicalEnvelope::new]; [now] is the text of the clock reading. *)
Definition envelope_new (now source principal channel thread message_id body : string)
    (source_hash : option string) : result CanonicalEnvelopeError CanonicalEnvelope :=
  let e :=
    {| ce_schema_version := 1; ce_source := source; ce_principal := principal;
       ce_channel := channel; ce_thread := thread; ce_message_id := message_id;
       ce_source_hash :=
         default (compute_source_hash source principal channel thread message_id body)
           source_hash;
       ce_body := body; ce_received_at := now; ce_signature := None;
       ce_metadata := ∅ |} in
  let? _ := validate e in
  Ok e.

Definition ingest (e : CanonicalEnvelope) : result CanonicalEnvelopeError CanonicalEnvelope :=
  let? _ := validate e in
  Ok e.

End Envelope.

Definition session_id (e : CanonicalEnvelope) : string :=
  ce_principal e +:+ ":" +:+ ce_thread e.

Definition envelope_id (e : CanonicalEnvelope) : option string := slice_to 16 (ce_source_hash e).

Definition with_metadata (e : CanonicalEnvelope) (key : string) (value : Value)
  : CanonicalEnvelope :=
  {| ce_schema_version := ce_schema_version e; ce_source := ce_source e;
     ce_principal := ce_principal e; ce_channel := ce_channel e; ce_thread := ce_thread e;
     ce_message_id := ce_message_id e; ce_source_hash := ce_source_hash e;
     ce_body := ce_body e; ce_received_at := ce_received_at e;
     ce_signature := ce_signature e; ce_metadata := <[key := value]> (ce_metadata e) |}.

(** [BTreeMap] in JSON: the members in the order of the keys. *)
Definition btree_value (m : gmap string Value) : Value :=
  VObject (order_by (fun a b => String.leb a.1 b.1) (map_to_list m)).

Definition to_channel_received_payload (e : CanonicalEnvelope) : option Value :=
  id ← envelope_id e;
  Some (VObject
    [("schema", VString "zaion.canonical_envelope.v1"); ("envelope_id", VString id);
     ("source", VString (ce_source e)); ("principal_id", VString (ce_principal e));
     ("channel_id", VString (ce_channel e)); ("thread_id", VString (ce_thread e));
     ("message_id", VString (ce_message_id e)); ("source_message_id", VString (ce_message_id e));
     ("source_hash", VString (ce_source_hash e)); ("received_at", VString (ce_received_at e));
     ("signature_present", VBool (opt_is_some (ce_signature e)));
     ("metadata", btree_value (ce_metadata e)); ("content", VString (ce_body e));
     ("message", VString (ce_body e))]).

(** ** Theorems *)

Section EnvelopeTheorems.
Context `{Env}.

(** What the checks ask for. *)
Record well_formed_envelope (e : CanonicalEnvelope) : Prop := {
  wfe_source : str_trim (ce_source e) <> EmptyString;
  wfe_principal : str_trim (ce_principal e) <> EmptyString;
  wfe_safe : is_unsafe_principal (ce_principal e) = false;
  wfe_channel : str_trim (ce_channel e) <> EmptyString;
  wfe_thread : str_trim (ce_thread e) <> EmptyString;
  wfe_message : str_trim (ce_message_id e) <> EmptyString;
  wfe_hash_text : str_trim (ce_source_hash e) <> EmptyString;
  wfe_hex : is_sha256_hex (ce_source_hash e) = true;
  wfe_hash : ce_source_hash e = envelope_hash e;
  wfe_body : str_trim (ce_body e) <> EmptyString
}.

Lemma blank_false s : negb (blank s) = true <-> str_trim s <> EmptyString.
Proof. unfold blank. by rewrite negb_true_iff, bool_decide_eq_false. Qed.

Lemma validate_iff e : validate e = Ok tt <-> well_formed_envelope e.
Proof.
  unfold validate. split.
  - intros Hv. ok_inv Hv.
    repeat match goal with Hb : negb (blank _) = true |- _ => apply blank_false in Hb end.
    bool_props. by constructor.
  - intros [].
    repeat (rewrite (proj2 (blank_false _)) by done; simpl).
    rewrite wfe_safe0, wfe_hex0, bool_decide_eq_true_2 by done. done.
Qed.

(** An envelope that passed the checks has an identifier of 16 bytes. *)
Lemma checked_envelope_id e :
  well_formed_envelope e ->
  envelope_id e = Some (String.substring 0 16 (ce_source_hash e)).
Proof.
  intros Hw. pose proof (wfe_hex _ Hw) as Hx. unfold is_sha256_hex in Hx.
  apply andb_true_iff in Hx as [Hx _]. apply andb_true_iff in Hx as [Hl Ha].
  apply bool_decide_eq_true in Hl. unfold str_len in Hl.
  unfold envelope_id, slice_to, is_char_boundary.
  destruct (String.get 16 (ce_source_hash e)) as [a|] eqn:Eg.
  - assert (is_ascii_hexdigit_byte a = true) as Hd.
    { unfold str_all in Ha. rewrite forallb_forall in Ha. apply Ha. clear -Eg.
      revert Eg. generalize 16%nat as n. generalize (ce_source_hash e) as s.
      induction s as [|b s IH]; intros n Hg; [done|]. destruct n as [|n]; simpl in *.
      - left. congruence.
      - right. by apply (IH n). }
    unfold is_continuation. unfold is_ascii_hexdigit_byte, in_range in *. 
    replace ((128 <=? N_of_ascii a)%N && (N_of_ascii a <=? 191)%N) with false; [done|].
    symmetry. apply andb_false_iff. rewrite !orb_true_iff, !andb_true_iff, !N.leb_le in Hd.
    rewrite !N.leb_gt. lia.
  - exfalso. revert Eg. assert (Hlt : (16 < String.length (ce_source_hash e))%nat) by lia.
    revert Hlt. clear. generalize 16%nat as n. generalize (ce_source_hash e) as s.
    induction s as [|b s IH]; intros n Hl Hg; simpl in *; [lia|].
    destruct n as [|n]; [done|]. apply (IH n); [lia|done].
Qed.

(** The constructor accepts exactly the inputs that pass the checks. *)
Lemma envelope_new_spec now source principal channel thread message_id body hash e :
  envelope_new now source principal channel thread message_id body hash = Ok e ->
  well_formed_envelope e /\ ce_source e = source /\ ce_principal e = principal /\
  ce_channel e = channel /\ ce_thread e = thread /\ ce_message_id e = message_id /\
  ce_body e = body /\ (forall h, hash = Some h -> h = ce_source_hash e) /\
  ce_source_hash e = envelope_hash e.
Proof.
  unfold envelope_new. cbv zeta. intros Hn.
  match type of Hn with context [validate ?x] => destruct (validate x) as [[]|] eqn:Ev end;
    [|done]. injection Hn as <-. apply validate_iff in Ev.
  repeat split; try apply Ev; try done. intros h ->. done.
Qed.

Definition envelope_parts (e : CanonicalEnvelope) : list string :=
  [ce_source e; ce_principal e; ce_channel e; ce_thread e; ce_message_id e; ce_body e].

(** The digest binds the message: two checked envelopes with one digest agree in all that it
    covers, or their bytes are a collision of SHA-256. *)
Lemma same_hash_same_message `{!EnvLaws} e1 e2 :
  well_formed_envelope e1 -> well_formed_envelope e2 ->
  Forall (fun p => str_len p < 2 ^ 64) (envelope_parts e1) ->
  Forall (fun p => str_len p < 2 ^ 64) (envelope_parts e2) ->
  ce_source_hash e1 = ce_source_hash e2 ->
  envelope_parts e1 = envelope_parts e2 \/
  (parts_bytes (envelope_parts e1) <> parts_bytes (envelope_parts e2) /\
   sha256 (parts_bytes (envelope_parts e1)) = sha256 (parts_bytes (envelope_parts e2))).
Proof.
  intros W1 W2 L1 L2 Eh. rewrite (wfe_hash _ W1), (wfe_hash _ W2) in Eh.
  apply (f_equal hex_decode) in Eh. unfold envelope_hash, compute_source_hash, hash_parts in Eh.
  rewrite !hex_roundtrip in Eh. injection Eh as Eh.
  destruct (decide (envelope_parts e1 = envelope_parts e2)) as [|Hne]; [by left|right].
  split; [|exact Eh]. by apply parts_bytes_injective.
Qed.

Lemma ingest_spec e e' : ingest e = Ok e' <-> e' = e /\ well_formed_envelope e.
Proof.
  unfold ingest. rewrite <- validate_iff. destruct (validate e) as [[]|]; naive_solver.
Qed.

End EnvelopeTheorems.
