(* ===== verification/Concrete.v ===== *)
(** * A concrete environment

    One instance of [Env] that computes, and the proof that it satisfies
    [EnvLaws]: the laws are consistent, and the worked examples of the other
    files run on it.  It makes no claim to be SHA-256 or RFC 3339. *)

From stdpp Require Import prelude strings countable.
From S2P Require Import Prelude.
From S2P Require Import Json.
From S2P Require Import TurnState.
From S2P Require Import TurnKernel.
From S2P Require Import Env.
Local Open Scope Z_scope.

(** ** Text of an integer and back *)

Definition chr (n : N) : Ascii.ascii := Ascii.ascii_of_N n.

Fixpoint pos_text (p : positive) : string :=
  match p with
  | xH => EmptyString
  | xO p' => String (chr 48) (pos_text p')
  | xI p' => String (chr 49) (pos_text p')
  end.

Fixpoint text_pos (s : string) : option positive :=
  match s with
  | EmptyString => Some xH
  | String a s' =>
      match text_pos s' with
      | Some p => if Ascii.eqb a (chr 48) then Some (xO p)
                  else if Ascii.eqb a (chr 49) then Some (xI p) else None
      | None => None
      end
  end.

Lemma text_pos_text p : text_pos (pos_text p) = Some p.
Proof. induction p as [p IH|p IH|]; simpl; by rewrite ?IH. Qed.

Definition z_text (z : Z) : string :=
  match z with
  | Z0 => "0"
  | Zpos p => String (chr 43) (pos_text p)
  | Zneg p => String (chr 45) (pos_text p)
  end.

Definition text_z (s : string) : option Z :=
  match s with
  | EmptyString => None
  | String a s' =>
      if Ascii.eqb a (chr 43) then Zpos <$> text_pos s'
      else if Ascii.eqb a (chr 45) then Zneg <$> text_pos s'
      else Some 0
  end.

Lemma text_z_text z : text_z (z_text z) = Some z.
Proof. destruct z as [|p|p]; simpl; [done|..]; by rewrite text_pos_text. Qed.

(** ** A prefix code for documents

    A string is its bytes, each after an apostrophe, and a full stop; lists put a
    comma before each element and close with a bracket. *)

Fixpoint put_str (s rest : string) : string :=
  match s with
  | EmptyString => String (chr 46) rest
  | String a s' => String (chr 39) (String a (put_str s' rest))
  end.

Fixpoint put (v : Value) (rest : string) : string :=
  match v with
  | VNull => String (chr 110) rest
  | VBool true => String (chr 116) rest
  | VBool false => String (chr 102) rest
  | VNumber n => String (chr 105) (put_str (z_text n) rest)
  | VFloat n => String (chr 100) (put_str (z_text n) rest)
  | VString s => String (chr 115) (put_str s rest)
  | VArray vs =>
      String (chr 91) (foldr (fun v' acc => String (chr 44) (put v' acc))
                         (String (chr 93) rest) vs)
  | VObject ms =>
      String (chr 123) (foldr (fun m acc => String (chr 44) (put_str m.1 (put m.2 acc)))
                          (String (chr 125) rest) ms)
  end.

Fixpoint get_str (s : string) : option (string * string) :=
  match s with
  | EmptyString => None
  | String a s' =>
      if Ascii.eqb a (chr 46) then Some (EmptyString, s')
      else match s' with
           | EmptyString => None
           | String b s'' =>
               match get_str s'' with
               | Some (r, rest) => Some (String b r, rest)
               | None => None
               end
           end
  end.

Lemma get_put_str s rest : get_str (put_str s rest) = Some (s, rest).
Proof. induction s as [|a s IH]; simpl; [done|]. by rewrite IH. Qed.

(** One document, or the rest of a list of documents or of members. *)
Fixpoint get (fuel : nat) (s : string) {struct fuel} : option (Value * string) :=
  match fuel, s with
  | S n, String a s' =>
      let c := Ascii.N_of_ascii a in
      if (c =? 110)%N then Some (VNull, s')
      else if (c =? 116)%N then Some (VBool true, s')
      else if (c =? 102)%N then Some (VBool false, s')
      else if (c =? 105)%N then
        match get_str s' with
        | Some (t, r) => match text_z t with Some z => Some (VNumber z, r) | None => None end
        | None => None
        end
      else if (c =? 100)%N then
        match get_str s' with
        | Some (t, r) => match text_z t with Some z => Some (VFloat z, r) | None => None end
        | None => None
        end
      else if (c =? 115)%N then
        match get_str s' with Some (t, r) => Some (VString t, r) | None => None end
      else if (c =? 91)%N then
        match get_list n s' with Some (vs, r) => Some (VArray vs, r) | None => None end
      else if (c =? 123)%N then
        match get_members n s' with Some (ms, r) => Some (VObject ms, r) | None => None end
      else None
  | _, _ => None
  end
with get_list (fuel : nat) (s : string) {struct fuel} : option (list Value * string) :=
  match fuel, s with
  | S n, String a s' =>
      if Ascii.eqb a (chr 93) then Some ([], s')
      else match get n s' with
           | Some (v, r) =>
               match get_list n r with Some (vs, r') => Some (v :: vs, r') | None => None end
           | None => None
           end
  | _, _ => None
  end
with get_members (fuel : nat) (s : string) {struct fuel}
  : option (list (string * Value) * string) :=
  match fuel, s with
  | S n, String a s' =>
      if Ascii.eqb a (chr 125) then Some ([], s')
      else match get_str s' with
           | Some (k, r) =>
               match get n r with
               | Some (v, r') =>
                   match get_members n r' with
                   | Some (ms, r'') => Some ((k, v) :: ms, r'')
                   | None => None
                   end
               | None => None
               end
           | None => None
           end
  | _, _ => None
  end.

(** A bound on the nodes of a document: the fuel its parse needs. *)
Fixpoint nodes (v : Value) : nat :=
  match v with
  | VArray vs => S (foldr (fun v' n => S (nodes v' + n)) 1%nat vs)
  | VObject ms => S (foldr (fun m n => S (nodes m.2 + n)) 1%nat ms)
  | _ => 1%nat
  end.

Lemma get_put v : forall fuel rest, (nodes v <= fuel)%nat ->
  get fuel (put v rest) = Some (v, rest).
Proof.
  induction v as [|[]|n|n|s|vs IH|ms IH] using Value_ind'; intros fuel rest Hf;
    (destruct fuel as [|fuel]; [simpl in Hf; lia|]); try done.
  - simpl. by rewrite get_put_str, text_z_text.
  - simpl. by rewrite get_put_str, text_z_text.
  - simpl. by rewrite get_put_str.
  - cut (get_list fuel (foldr (fun v' acc => String (chr 44) (put v' acc))
           (String (chr 93) rest) vs) = Some (vs, rest)).
    { intros E. change (match get_list fuel (foldr
          (fun v' acc => String (chr 44) (put v' acc)) (String (chr 93) rest) vs) with
        | Some (vs', r) => Some (VArray vs', r) | None => None end
        = Some (VArray vs, rest)). by rewrite E. }
    simpl in Hf. apply le_S_n in Hf. revert fuel Hf.
    induction IH as [|v l Hv _ IHl]; intros fuel Hf; simpl in Hf;
      (destruct fuel as [|fuel]; [lia|]); [done|].
    cbn [foldr get_list]. change (Ascii.eqb (chr 44) (chr 93)) with false.
    cbn iota. rewrite Hv by lia. by rewrite IHl by lia.
  - cut (get_members fuel (foldr (fun m acc => String (chr 44) (put_str m.1 (put m.2 acc)))
           (String (chr 125) rest) ms) = Some (ms, rest)).
    { intros E. change (match get_members fuel (foldr
          (fun m acc => String (chr 44) (put_str m.1 (put m.2 acc)))
          (String (chr 125) rest) ms) with
        | Some (ms', r) => Some (VObject ms', r) | None => None end
        = Some (VObject ms, rest)). by rewrite E. }
    simpl in Hf. apply le_S_n in Hf. revert fuel Hf.
    induction IH as [|[k v] l Hv _ IHl]; intros fuel Hf; simpl in *;
      (destruct fuel as [|fuel]; [lia|]); [done|].
    cbn [foldr get_members fst snd].
    change (Ascii.eqb (chr 44) (chr 125)) with false.
    cbn iota. rewrite get_put_str, Hv by lia. by rewrite IHl by lia.
Qed.

Lemma put_str_length s rest :
  (String.length rest < String.length (put_str s rest))%nat.
Proof. induction s as [|a s IH]; simpl; lia. Qed.

Lemma put_length v : forall rest,
  (nodes v + String.length rest <= String.length (put v rest))%nat.
Proof.
  induction v as [|[]|n|n|s|vs IH|ms IH] using Value_ind'; intros rest;
    cbn [put nodes String.length]; try lia.
  - pose proof (put_str_length (z_text n) rest). lia.
  - pose proof (put_str_length (z_text n) rest). lia.
  - pose proof (put_str_length s rest). lia.
  - cut (foldr (fun v' n => S (nodes v' + n)) 1 vs + String.length rest
         <= String.length (foldr (fun v' acc => String (chr 44) (put v' acc))
              (String (chr 93) rest) vs))%nat; [lia|].
    induction IH as [|v l Hv _ IHl]; cbn [foldr String.length]; [lia|].
    specialize (Hv (foldr (fun v' acc => String (chr 44) (put v' acc))
      (String (chr 93) rest) l)). lia.
  - cut (foldr (fun m n => S (nodes m.2 + n)) 1 ms + String.length rest
         <= String.length (foldr
              (fun m acc => String (chr 44) (put_str m.1 (put m.2 acc)))
              (String (chr 125) rest) ms))%nat; [lia|].
    induction IH as [|[k v] l Hv _ IHl]; cbn [foldr String.length fst snd] in *; [lia|].
    match goal with |- context [put_str k ?r] => pose proof (put_str_length k r) end.
    specialize (Hv (foldr (fun m acc => String (chr 44) (put_str m.1 (put m.2 acc)))
      (String (chr 125) rest) l)). lia.
Qed.

Definition toy_to_string (v : Value) : string := put v EmptyString.
Definition toy_from_str (s : string) : option Value :=
  match get (String.length s) s with
  | Some (v, EmptyString) => Some v
  | _ => None
  end.

Lemma toy_json_roundtrip v : toy_from_str (toy_to_string v) = Some v.
Proof.
  unfold toy_from_str, toy_to_string. rewrite get_put; [done|].
  pose proof (put_length v EmptyString). simpl in *. lia.
Qed.

(** ** Turn results as documents *)

Definition strs (l : list string) : Value := VArray (map VString l).

Definition closure_value (c : ProofClosure) : Value :=
  VArray [VString (z_text (schema_version c)); VString (answer_trace_event_id c);
          VString (turn_proof_event_id c); VString (proof_hash c);
          opt_string (receipt_proof_join_event_id c); VString (evidence_graph_hash c)].

Definition outcome_value (o : TurnOutcome) : Value :=
  match o with
  | OutcomeCompleted c => VArray [VString "completed"; closure_value c]
  | OutcomeDegraded c r =>
      VArray [VString "degraded"; closure_value c; VString (dr_reason_code r);
              VBool (safe_response r); strs (lost_capabilities r)]
  | OutcomeAborted e t =>
      VArray [VString "aborted"; VString (te_reason_code e); VString (te_message e);
              strs (appended_event_ids t); opt_string (last_safe_parent_event_id t)]
  | OutcomeQuarantined q =>
      VArray [VString "quarantined"; VString (z_text (level q));
              VString (qe_reason_code q); VString (diagnostic_scope q)]
  end.

Definition output_value (o : option RuntimeOutput) : Value :=
  match o with
  | None => VNull
  | Some o =>
      VArray [VString (runtime_owner o); strs (runtime_topology o);
              VString (provider_response_hash o); VString (context_pack_id o);
              strs (memory_atom_ids o); strs (tool_receipt_ids o);
              VString (stream_hash o)]
  end.

Definition execution_value (e : TurnExecution) : Value :=
  match e with
  | Finished o oc => VArray [output_value o; outcome_value oc]
  | Handled k => VArray [VString k]
  | Scheduled t s => VArray [VString t; VString s; VNull]
  end.

Definition value_strs (v : Value) : option (list string) :=
  match v with VArray vs => mapM as_str vs | _ => None end.

Definition value_opt (v : Value) : option (option string) :=
  match v with VNull => Some None | VString s => Some (Some s) | _ => None end.

Definition value_closure (v : Value) : option ProofClosure :=
  match v with
  | VArray [VString sv; VString a; VString p; VString h; r; VString g] =>
      match text_z sv, value_opt r with
      | Some sv', Some r' =>
          Some {| schema_version := sv'; answer_trace_event_id := a;
                  turn_proof_event_id := p; proof_hash := h;
                  receipt_proof_join_event_id := r'; evidence_graph_hash := g |}
      | _, _ => None
      end
  | _ => None
  end.

Definition value_outcome (v : Value) : option TurnOutcome :=
  match v with
  | VArray [VString _; c] => OutcomeCompleted <$> value_closure c
  | VArray [VString _; VString l; VString rc; VString d] =>
      match text_z l with
      | Some l' => Some (OutcomeQuarantined
                     {| level := l'; qe_reason_code := rc; diagnostic_scope := d |})
      | None => None
      end
  | VArray [VString _; c; VString rc; VBool sr; lc] =>
      match value_closure c, value_strs lc with
      | Some c', Some lc' =>
          Some (OutcomeDegraded c' {| dr_reason_code := rc; safe_response := sr;
                                      lost_capabilities := lc' |})
      | _, _ => None
      end
  | VArray [VString _; VString rc; VString m; ids; p] =>
      match value_strs ids, value_opt p with
      | Some ids', Some p' =>
          Some (OutcomeAborted {| te_reason_code := rc; te_message := m |}
                  {| appended_event_ids := ids'; last_safe_parent_event_id := p' |})
      | _, _ => None
      end
  | _ => None
  end.

Definition value_output (v : Value) : option (option RuntimeOutput) :=
  match v with
  | VNull => Some None
  | VArray [VString o; tp; VString h; VString c; m; r; VString s] =>
      match value_strs tp, value_strs m, value_strs r with
      | Some tp', Some m', Some r' =>
          Some (Some {| runtime_owner := o; runtime_topology := tp';
                        provider_response_hash := h; context_pack_id := c;
                        memory_atom_ids := m'; tool_receipt_ids := r';
                        stream_hash := s |})
      | _, _, _ => None
      end
  | _ => None
  end.

Definition value_execution (v : Value) : option TurnExecution :=
  match v with
  | VArray [VString k] => Some (Handled k)
  | VArray [VString t; VString s; VNull] => Some (Scheduled t s)
  | VArray [o; oc] =>
      match value_output o, value_outcome oc with
      | Some o', Some oc' => Some (Finished o' oc')
      | _, _ => None
      end
  | _ => None
  end.

Lemma value_strs_strs l : value_strs (strs l) = Some l.
Proof. unfold value_strs, strs. induction l as [|x l IH]; simpl in *; by rewrite ?IH. Qed.

Lemma value_opt_string o : value_opt (opt_string o) = Some o.
Proof. by destruct o. Qed.

Lemma value_closure_value c : value_closure (closure_value c) = Some c.
Proof. destruct c. simpl. by rewrite text_z_text, value_opt_string. Qed.

Lemma value_outcome_value o : value_outcome (outcome_value o) = Some o.
Proof.
  destruct o as [c|c [rc sr lc]|[rc m] [ids p]|[l rc d]].
  - unfold outcome_value, value_outcome. by rewrite value_closure_value.
  - unfold outcome_value, value_outcome. simpl dr_reason_code. simpl safe_response.
    simpl lost_capabilities. destruct (closure_value c) eqn:E; rewrite <- E;
      by rewrite value_closure_value, value_strs_strs.
  - simpl. rewrite value_opt_string.
    assert (E := value_strs_strs ids). unfold value_strs, strs in E. by rewrite E.
  - simpl. by rewrite text_z_text.
Qed.

Lemma value_output_value o : value_output (output_value o) = Some o.
Proof.
  destruct o as [[ow tp h c m r s]|]; [|done]. simpl.
  assert (E := value_strs_strs). unfold value_strs, strs in E. by rewrite !E.
Qed.

Lemma value_execution_value e : value_execution (execution_value e) = Some e.
Proof.
  destruct e as [o oc|k|t s]; [|done..].
  assert (E : value_execution (VArray [output_value o; outcome_value oc])
    = match value_output (output_value o), value_outcome (outcome_value oc) with
      | Some o', Some oc' => Some (Finished o' oc')
      | _, _ => None
      end) by (destruct o as [[]|]; done).
  simpl. etrans; [exact E|]. by rewrite value_output_value, value_outcome_value.
Qed.

Lemma strs_exact l : forallb exact_json (map VString l) = true.
Proof. by induction l. Qed.

Lemma strs_depth l :
  foldr (fun v d => Nat.max (json_depth v) d) 0%nat (map VString l) = 0%nat.
Proof. induction l as [|x l IH]; simpl; [done|]. by rewrite IH. Qed.

Lemma execution_value_small e :
  exact_json (execution_value e) = true /\ (json_depth (execution_value e) <= 3)%nat.
Proof.
  assert (Ho : forall o, exact_json (opt_string o) = true /\ json_depth (opt_string o) = 0%nat)
    by (by intros []).
  destruct e as [o oc|k|t s]; [|simpl; split; [done|lia]..].
  assert (H1 : exact_json (output_value o) = true /\ (json_depth (output_value o) <= 2)%nat).
  { destruct o as [[]|]; simpl; rewrite ?strs_exact, ?strs_depth; split; (done || lia). }
  assert (H2 : exact_json (outcome_value oc) = true /\ (json_depth (outcome_value oc) <= 2)%nat).
  { destruct oc as [[]|[] []|[] []|[]]; simpl;
      rewrite ?strs_exact, ?strs_depth, ?(proj1 (Ho _)), ?(proj2 (Ho _));
      split; (done || lia). }
  simpl. destruct H1 as [-> ?], H2 as [-> ?]. split; [done|lia].
Qed.

(** ** Hexadecimal *)

Definition hex_digit (n : N) : Ascii.ascii :=
  Ascii.ascii_of_N (if (n <? 10)%N then 48 + n else 87 + n).
Definition hex_value (a : Ascii.ascii) : option N :=
  let n := Ascii.N_of_ascii a in
  if (48 <=? n)%N && (n <=? 57)%N then Some (n - 48)%N
  else if (97 <=? n)%N && (n <=? 102)%N then Some (n - 87)%N else None.

Fixpoint toy_hex_encode (s : string) : string :=
  match s with
  | EmptyString => EmptyString
  | String a s' =>
      let n := Ascii.N_of_ascii a in
      String (hex_digit (n / 16)) (String (hex_digit (n mod 16)) (toy_hex_encode s'))
  end.

Fixpoint toy_hex_decode (s : string) : option string :=
  match s with
  | EmptyString => Some EmptyString
  | String a (String b s') =>
      match hex_value a, hex_value b, toy_hex_decode s' with
      | Some x, Some y, Some t => Some (String (Ascii.ascii_of_N (16 * x + y)) t)
      | _, _, _ => None
      end
  | _ => None
  end.

Lemma hex_digits_roundtrip (a : Ascii.ascii) :
  let n := Ascii.N_of_ascii a in
  match hex_value (hex_digit (n / 16)), hex_value (hex_digit (n mod 16)) with
  | Some x, Some y => Ascii.ascii_of_N (16 * x + y) = a
  | _, _ => False
  end.
Proof. destruct a as [[] [] [] [] [] [] [] []]; reflexivity. Qed.

Lemma toy_hex_roundtrip s : toy_hex_decode (toy_hex_encode s) = Some s.
Proof.
  induction s as [|a s IH]; [done|]. simpl. rewrite IH.
  pose proof (hex_digits_roundtrip a) as Ha. simpl in Ha.
  destruct (hex_value (hex_digit (Ascii.N_of_ascii a / 16))); [|done].
  destruct (hex_value (hex_digit (Ascii.N_of_ascii a mod 16))); [|done].
  by rewrite Ha.
Qed.

Lemma toy_hex_length s :
  String.length (toy_hex_encode s) = (2 * String.length s)%nat.
Proof. induction s as [|a s IH]; simpl; [done|]. rewrite IH. lia. Qed.

(** ** A 32-byte checksum and a keyed checksum *)

Definition mask64 : Z := 18446744073709551615.

Definition checksum (s : string) : Z :=
  fold_left (fun h a => Z.land (h * 131 + Z.of_N (Ascii.N_of_ascii a) + 7) mask64)
            (String.list_ascii_of_string s) 14695981039346656037.

Definition toy_sha256 (s : string) : string := le_bytes 32 (checksum s).

Definition toy_sign_with (pk m : string) : string :=
  toy_sha256 (pk +:+ m) +:+ toy_sha256 (m +:+ pk).

(** chrono's representable milliseconds. *)
Definition chrono_ms_ok (ms : Z) : bool :=
  bool_decide (-8334601228800000 <= ms <= 8210266876799999).

#[export] Instance toy_env : Env := {|
  sha256 := toy_sha256;
  hex_encode := toy_hex_encode;
  hex_decode := toy_hex_decode;
  bs58_encode := fun s => "z" +:+ toy_hex_encode s;
  json_to_string := toy_to_string;
  json_from_str := toy_from_str;
  execution_to_value := execution_value;
  execution_from_value := value_execution;
  timestamp_millis_opt := fun ms =>
    if chrono_ms_ok ms then Some (ms * nanos_per_milli) else None;
  checked_add_signed := fun t d =>
    if chrono_ms_ok (timestamp_millis (t + d)) then Some (t + d) else None;
  to_rfc3339_millis := fun t => z_text (truncate_millis t);
  to_rfc3339 := z_text;
  parse_from_rfc3339 := text_z;
  uuid_reprint := fun s => if bool_decide (str_len s = 36) then Some s else None;
  verifying_key := toy_sha256;
  ed25519_sign := fun sk m => toy_sign_with (toy_sha256 sk) m;
  ed25519_key_ok := fun _ => true;
  ed25519_verify := fun pk m sig => bool_decide (sig = toy_sign_with pk m)
|}.

Lemma append_length (a b : string) :
  String.length (a +:+ b) = (String.length a + String.length b)%nat.
Proof. induction a as [|x a IH]; [done|]. simpl. f_equal. exact IH. Qed.

Lemma year_ok_chrono ms : year_ok (ms * nanos_per_milli) -> chrono_ms_ok ms = true.
Proof.
  unfold year_ok, nanos_per_milli, chrono_ms_ok. intros.
  apply bool_decide_eq_true. lia.
Qed.

#[export] Instance toy_env_laws : EnvLaws.
Proof.
  split.
  - intros s. apply (le_bytes_length 32).
  - apply toy_hex_length.
  - apply toy_hex_roundtrip.
  - intros v _ _. apply toy_json_roundtrip.
  - intros v _. exists v. apply toy_json_roundtrip.
  - apply value_execution_value.
  - intros e. destruct (execution_value_small e) as [He Hd]. split; [exact He|].
    unfold max_json_depth. simpl. lia.
  - intros ms t Ht. simpl in Ht. destruct (chrono_ms_ok ms); by simplify_eq.
  - intros ms Hy. simpl. by rewrite (year_ok_chrono _ Hy).
  - intros t d t' Ht. simpl in Ht. destruct (chrono_ms_ok _); by simplify_eq.
  - intros t d Hy. simpl. rewrite year_ok_chrono; [done|].
    by apply (year_ok_truncate (t + d)).
  - intros t _. apply text_z_text.
  - intros t _. apply text_z_text.
  - intros sk. apply (le_bytes_length 32).
  - done.
  - intros sk m. unfold ed25519_sign, toy_env, toy_sign_with, toy_sha256.
    by rewrite append_length, !le_bytes_length.
  - intros sk m. by apply bool_decide_eq_true.
Qed.
