(* ===== verification/Ingress.v ===== *)
(** * Authenticated ingress ([crates/zaion-runtime/src/authenticated_ingress.rs])

    The identity and authority context of a turn: the untrusted input, the
    validators, [AuthenticatedIngress::new] with its two accumulating loops, and
    the JSON document ([serde_json::to_value]) the store keeps as the turn's
    authority.  [new_spec] characterises the accepted inputs exactly. *)

From stdpp Require Import prelude strings list sorting.
From S2P Require Import Prelude.
From S2P Require Import Json.
From S2P Require Import Env.
Local Open Scope res_scope.
Local Open Scope Z_scope.

Definition MAX_ID_BYTES : Z := 256.
Definition MAX_SCOPES : nat := 32.
Definition MAX_ATTACHMENTS : nat := 16.
Definition MAX_ATTACHMENT_BYTES : Z := 64 * 1024 * 1024.
Definition MAX_TOTAL_ATTACHMENT_BYTES : Z := 128 * 1024 * 1024.
Definition MAX_DEADLINE_HORIZON_SECONDS : Z := 24 * 60 * 60.

Definition nanos_per_second : Z := 1000000000.

Record AuthenticatedSource : Type := {
  surface : string;
  source_id : string
}.

(** [IngressAttachmentInput] and [IngressAttachment] have the same fields. *)
Record IngressAttachment : Type := {
  attachment_id : string;
  media_type : string;
  byte_len : Z;
  att_sha256 : string
}.

Record AuthenticatedIngressInput : Type := {
  in_tenant_id : string;
  in_subject_id : string;
  in_principal_id : string;
  in_workspace_id : string;
  in_profile_id : string;
  in_session_id : string;
  in_source : AuthenticatedSource;
  in_deadline : Z;
  in_scopes : list string;
  in_idempotency_key : string;
  in_attachments : list IngressAttachment
}.

(** [scopes] is a [BTreeSet<String>]: the list of its elements in order. *)
Record AuthenticatedIngress : Type := {
  ing_tenant_id : string;
  ing_subject_id : string;
  ing_principal_id : string;
  ing_workspace_id : string;
  ing_profile_id : string;
  ing_session_id : string;
  ing_source : AuthenticatedSource;
  ing_deadline : Z;
  ing_scopes : list string;
  ing_idempotency_key : string;
  ing_attachments : list IngressAttachment
}.

Inductive IngressValidationError : Type :=
| InvalidIdentifier (field : string)
| InvalidIdempotencyKey
| IngressDeadlineExpired
| DeadlineTooFar (max_seconds : Z)
| MissingScopes
| TooManyScopes (max actual : nat)
| InvalidScope (scope : string)
| DuplicateScope (scope : string)
| TooManyAttachments (max actual : nat)
| InvalidMediaType (value : string)
| InvalidAttachmentDigest (value : string)
| InvalidAttachmentSize (id : string) (max actual : Z)
| DuplicateAttachmentId (id : string)
| AttachmentBytesOverflow
| TotalAttachmentSizeExceeded (max actual : Z).

(** ** Validators *)

Definition non_empty (s : string) : bool := negb (bool_decide (s = EmptyString)).
Definition is_trimmed (s : string) : bool := bool_decide (str_trim s = s).

Definition is_ascii_digit (a : Ascii.ascii) : bool :=
  in_range 48 57 (Ascii.N_of_ascii a).
Definition is_ascii_lowercase (a : Ascii.ascii) : bool :=
  in_range 97 122 (Ascii.N_of_ascii a).
Definition is_hex_letter (a : Ascii.ascii) : bool :=
  in_range 97 102 (Ascii.N_of_ascii a).

Definition identifier_ok (value : string) : bool :=
  non_empty value && bool_decide (str_len value <= MAX_ID_BYTES)
  && is_trimmed value
  && str_all (fun b => is_ascii_alphanumeric b || byte_in "._:-@" b) value.

Definition validate_identifier (field value : string)
  : result IngressValidationError unit :=
  if identifier_ok value then Ok tt else Err (InvalidIdentifier field).

Definition scope_ok (scope : string) : bool :=
  non_empty scope && bool_decide (str_len scope <= 128) && is_trimmed scope
  && str_all (fun b => is_ascii_alphanumeric b || byte_in "._:-" b) scope.

Definition validate_scope (scope : string) : result IngressValidationError unit :=
  if scope_ok scope then Ok tt else Err (InvalidScope scope).

Definition idempotency_key_ok (value : string) : bool :=
  bool_decide (8 <= str_len value <= 128) && is_trimmed value
  && str_all (fun b => is_ascii_alphanumeric b || byte_in "._:-" b) value.

Definition validate_idempotency_key (value : string)
  : result IngressValidationError unit :=
  if idempotency_key_ok value then Ok tt else Err InvalidIdempotencyKey.

Definition media_type_ok (value : string) : bool :=
  non_empty value && bool_decide (str_len value <= 127) && is_trimmed value
  && negb (str_all (fun b => negb (byte_in "/" b)) value)
  && str_all (fun b => is_ascii_lowercase b || is_ascii_digit b
                       || byte_in "!#$&^_.+-/" b) value.

Definition validate_media_type (value : string)
  : result IngressValidationError unit :=
  if media_type_ok value then Ok tt else Err (InvalidMediaType value).

(** [value.strip_prefix(p)] *)
Definition strip_prefix (p s : string) : option string :=
  if starts_with p s
  then Some (String.substring (String.length p) (String.length s - String.length p) s)
  else None.

Definition sha256_ok (value : string) : bool :=
  is_some_and
    (fun hex => bool_decide (str_len hex = 64)
                && str_all (fun b => is_ascii_digit b || is_hex_letter b) hex)
    (strip_prefix "sha256:" value).

Definition validate_sha256 (value : string) : result IngressValidationError unit :=
  if sha256_ok value then Ok tt else Err (InvalidAttachmentDigest value).

(** ** Building the value *)

(** [BTreeSet::insert]: [None] when the element was already there. *)
Fixpoint btree_insert (s : string) (set : list string) : option (list string) :=
  match set with
  | [] => Some [s]
  | x :: set' =>
      match String.compare s x with
      | Lt => Some (s :: set)
      | Eq => None
      | Gt => match btree_insert s set' with
              | Some set'' => Some (x :: set'')
              | None => None
              end
      end
  end.

Fixpoint collect_scopes (scopes : list string) (input : list string)
  : result IngressValidationError (list string) :=
  match input with
  | [] => Ok scopes
  | scope :: input' =>
      let? _ := validate_scope scope in
      match btree_insert scope scopes with
      | None => Err (DuplicateScope scope)
      | Some scopes' => collect_scopes scopes' input'
      end
  end.

Fixpoint collect_attachments (ids : list string) (total : Z)
    (acc : list IngressAttachment) (input : list IngressAttachment)
  : result IngressValidationError (list IngressAttachment) :=
  match input with
  | [] => Ok acc
  | a :: input' =>
      let? _ := validate_identifier "attachment_id" (attachment_id a) in
      let? _ := validate_media_type (media_type a) in
      let? _ := validate_sha256 (att_sha256 a) in
      guard? negb (bool_decide (byte_len a = 0)
                   || bool_decide (MAX_ATTACHMENT_BYTES < byte_len a))
        else InvalidAttachmentSize (attachment_id a) MAX_ATTACHMENT_BYTES (byte_len a) in
      match btree_insert (attachment_id a) ids with
      | None => Err (DuplicateAttachmentId (attachment_id a))
      | Some ids' =>
          let? total' := ok_or (u64_checked_add total (byte_len a))
                               AttachmentBytesOverflow in
          guard? bool_decide (total' <= MAX_TOTAL_ATTACHMENT_BYTES)
            else TotalAttachmentSizeExceeded MAX_TOTAL_ATTACHMENT_BYTES total' in
          collect_attachments ids' total' (acc ++ [a]) input'
      end
  end.

(** [AuthenticatedIngress::new] *)
Definition new (input : AuthenticatedIngressInput) (now : Z)
  : result IngressValidationError AuthenticatedIngress :=
  let? _ := validate_identifier "tenant_id" (in_tenant_id input) in
  let? _ := validate_identifier "subject_id" (in_subject_id input) in
  let? _ := validate_identifier "principal_id" (in_principal_id input) in
  let? _ := validate_identifier "workspace_id" (in_workspace_id input) in
  let? _ := validate_identifier "profile_id" (in_profile_id input) in
  let? _ := validate_identifier "session_id" (in_session_id input) in
  let? _ := validate_identifier "source.surface" (surface (in_source input)) in
  let? _ := validate_identifier "source.source_id" (source_id (in_source input)) in
  let? _ := validate_idempotency_key (in_idempotency_key input) in
  guard? negb (bool_decide (in_deadline input <= now)) else IngressDeadlineExpired in
  guard? bool_decide
      (in_deadline input <= now + MAX_DEADLINE_HORIZON_SECONDS * nanos_per_second)
    else DeadlineTooFar MAX_DEADLINE_HORIZON_SECONDS in
  guard? negb (bool_decide (in_scopes input = [])) else MissingScopes in
  guard? bool_decide (length (in_scopes input) <= MAX_SCOPES)%nat
    else TooManyScopes MAX_SCOPES (length (in_scopes input)) in
  let? scopes := collect_scopes [] (in_scopes input) in
  guard? bool_decide (length (in_attachments input) <= MAX_ATTACHMENTS)%nat
    else TooManyAttachments MAX_ATTACHMENTS (length (in_attachments input)) in
  let? attachments := collect_attachments [] 0 [] (in_attachments input) in
  Ok {| ing_tenant_id := in_tenant_id input;
        ing_subject_id := in_subject_id input;
        ing_principal_id := in_principal_id input;
        ing_workspace_id := in_workspace_id input;
        ing_profile_id := in_profile_id input;
        ing_session_id := in_session_id input;
        ing_source := in_source input;
        ing_deadline := in_deadline input;
        ing_scopes := scopes;
        ing_idempotency_key := in_idempotency_key input;
        ing_attachments := attachments |}.

(** ** The stored authority document *)

Definition attachment_value (a : IngressAttachment) : Value :=
  VObject [("attachment_id", VString (attachment_id a));
           ("media_type", VString (media_type a));
           ("byte_len", VNumber (byte_len a));
           ("sha256", VString (att_sha256 a))].

(** [serde_json::to_value(&ingress)], by the derived [Serialize]. *)
Definition ingress_to_value `{Env} (i : AuthenticatedIngress) : Value :=
  VObject [("tenant_id", VString (ing_tenant_id i));
           ("subject_id", VString (ing_subject_id i));
           ("principal_id", VString (ing_principal_id i));
           ("workspace_id", VString (ing_workspace_id i));
           ("profile_id", VString (ing_profile_id i));
           ("session_id", VString (ing_session_id i));
           ("source", VObject [("surface", VString (surface (ing_source i)));
                               ("source_id", VString (source_id (ing_source i)))]);
           ("deadline", VString (to_rfc3339 (ing_deadline i)));
           ("scopes", VArray (map VString (ing_scopes i)));
           ("idempotency_key", VString (ing_idempotency_key i));
           ("attachments", VArray (map attachment_value (ing_attachments i)))].

(** ** Lemmas *)

Lemma strip_prefix_Some p s r : strip_prefix p s = Some r <-> s = p +:+ r.
Proof.
  unfold strip_prefix, starts_with. revert s. induction p as [|c p IH]; intros s.
  - assert (Hs : forall t, String.substring 0 (String.length t) t = t)
      by (intros t; induction t as [|d t IHt]; simpl; congruence).
    simpl String.length. rewrite Nat.sub_0_r, Hs.
    replace (String.prefix "" s) with true by (by destruct s).
    change ("" +:+ r) with r. split; congruence.
  - destruct s as [|d s]; [split; [done|intros [=]]|]. simpl.
    destruct (Ascii.ascii_dec c d) as [->|Hne].
    + specialize (IH s). destruct (String.prefix p s).
      * rewrite IH. split; [by intros -> | by intros [= ->]].
      * split; [done|]. intros [= Hs]. by apply IH in Hs.
    + split; [done|]. by intros [= ? _].
Qed.

Lemma btree_insert_Some s set set' :
  btree_insert s set = Some set' -> set' ≡ₚ s :: set.
Proof.
  revert set'; induction set as [|x set IH]; intros set'; simpl; [by intros [= <-]|].
  destruct (String.compare s x) eqn:E; [done|by intros [= <-]|].
  destruct (btree_insert s set) as [r|]; [|done]. intros [= <-].
  rewrite (IH r eq_refl). apply Permutation_swap.
Qed.

Lemma btree_insert_sorted s set set' :
  StronglySorted str_lt set -> btree_insert s set = Some set' ->
  StronglySorted str_lt set'.
Proof.
  intros Hs; revert set'; induction Hs as [|x set Hs IH Hx]; intros set'; simpl.
  { intros [= <-]. repeat constructor. }
  destruct (String.compare s x) eqn:E; [done|..].
  - intros [= <-]. constructor; [by constructor|]. constructor; [done|].
    eapply Forall_impl; [exact Hx|]. intros y Hy. by eapply str_lt_trans.
  - destruct (btree_insert s set) as [r|] eqn:Er; [|done]. intros [= <-].
    constructor; [by apply IH|]. apply btree_insert_Some in Er.
    rewrite Er. constructor; [by apply str_compare_Gt|done].
Qed.

Lemma btree_insert_None s set :
  StronglySorted str_lt set -> btree_insert s set = None <-> s ∈ set.
Proof.
  induction 1 as [|x set Hs IH Hx]; simpl; [set_solver|].
  destruct (String.compare s x) eqn:E.
  - apply String.compare_eq_iff in E as ->. set_solver.
  - split; [done|]. intros [->|Hin]%elem_of_cons; [by apply str_lt_irrefl in E|].
    rewrite Forall_forall in Hx. exfalso. apply (str_lt_irrefl s).
    eapply str_lt_trans; [exact E|by apply Hx].
  - rewrite elem_of_cons. destruct (btree_insert s set) as [r|].
    + split; [done|]. intros [->|Hin]; [|by apply IH in Hin].
      apply str_compare_Gt in E. by apply str_lt_irrefl in E.
    + split; [|done]. intros _. right. by apply IH.
Qed.

Lemma collect_scopes_spec scopes input :
  StronglySorted str_lt scopes ->
  match collect_scopes scopes input with
  | Ok scopes' =>
      StronglySorted str_lt scopes' /\ scopes' ≡ₚ input ++ scopes /\
      Forall (fun s => scope_ok s = true) input /\
      NoDup input /\ (forall s, s ∈ input -> s ∉ scopes)
  | Err _ =>
      ~ (Forall (fun s => scope_ok s = true) input /\ NoDup input /\
         (forall s, s ∈ input -> s ∉ scopes))
  end.
Proof.
  revert scopes; induction input as [|s input IH]; intros scopes Hs; simpl.
  { repeat split; auto using NoDup_nil_2. set_solver. }
  unfold validate_scope. destruct (scope_ok s) eqn:Eok.
  2: { intros [Hf _]. apply Forall_cons in Hf as [Hf _]. congruence. }
  destruct (btree_insert s scopes) as [scopes'|] eqn:Ei.
  2: { apply btree_insert_None in Ei; [|done].
       intros (_ & _ & Hnot). apply (Hnot s); set_solver. }
  assert (Hfresh : s ∉ scopes).
  { intros Hin. apply btree_insert_None in Hin; [|done]. congruence. }
  pose proof (btree_insert_Some _ _ _ Ei) as Hp.
  specialize (IH scopes' (btree_insert_sorted _ _ _ Hs Ei)).
  assert (Hiff : (forall x, x ∈ input -> x ∉ scopes') <->
                 (s ∉ input) /\ (forall x, x ∈ input -> x ∉ scopes)).
  { setoid_rewrite Hp. clear. set_solver. }
  destruct (collect_scopes scopes' input) as [out|].
  - destruct IH as (Hso & Hpo & Hf & Hn & Hd). destruct (proj1 Hiff Hd) as [Hnin Hd'].
    split; [done|]. split; [rewrite Hpo, Hp; by rewrite Permutation_middle|].
    split; [by constructor|]. split; [by constructor|].
    intros x [->|Hx]%elem_of_cons; [done|by apply Hd'].
  - intros (Hf & Hn & Hd). apply IH. apply Forall_cons in Hf as [_ Hf].
    apply NoDup_cons in Hn as [Hnin Hn]. split; [done|]. split; [done|].
    apply Hiff. split; [done|]. intros x Hx. apply Hd. by right.
Qed.

Definition attachment_ok (a : IngressAttachment) : Prop :=
  identifier_ok (attachment_id a) = true /\ media_type_ok (media_type a) = true /\
  sha256_ok (att_sha256 a) = true /\ 1 <= byte_len a <= MAX_ATTACHMENT_BYTES.

Definition total_bytes (l : list IngressAttachment) : Z :=
  foldr (fun a acc => byte_len a + acc) 0 l.

Definition attachments_ok (ids : list string) (total : Z)
    (input : list IngressAttachment) : Prop :=
  Forall attachment_ok input /\ NoDup (map attachment_id input) /\
  (forall x, x ∈ map attachment_id input -> x ∉ ids) /\
  total + total_bytes input <= MAX_TOTAL_ATTACHMENT_BYTES.

Lemma total_bytes_nonneg l :
  Forall (fun a => 0 <= byte_len a) l -> 0 <= total_bytes l.
Proof. induction 1; simpl; lia. Qed.

(** One attachment: the checks up to the two accumulators are [attachment_ok]. *)
Lemma attachment_checks {B} (a : IngressAttachment) (k : result IngressValidationError B) :
  0 <= byte_len a ->
  let r :=
    let? _ := validate_identifier "attachment_id" (attachment_id a) in
    let? _ := validate_media_type (media_type a) in
    let? _ := validate_sha256 (att_sha256 a) in
    guard? negb (bool_decide (byte_len a = 0)
                 || bool_decide (MAX_ATTACHMENT_BYTES < byte_len a))
      else InvalidAttachmentSize (attachment_id a) MAX_ATTACHMENT_BYTES (byte_len a) in
    k in
  (attachment_ok a /\ r = k) \/ (~ attachment_ok a /\ exists e, r = Err e).
Proof.
  intros Hnn. unfold attachment_ok, validate_identifier, validate_media_type,
    validate_sha256. simpl.
  destruct (identifier_ok (attachment_id a)); [|right; naive_solver].
  destruct (media_type_ok (media_type a)); [|right; naive_solver].
  destruct (sha256_ok (att_sha256 a)); [|right; naive_solver].
  destruct (bool_decide (byte_len a = 0)) eqn:E0; bool_props; simpl.
  { right. split; [lia|eauto]. }
  destruct (bool_decide (MAX_ATTACHMENT_BYTES < byte_len a)) eqn:E1; bool_props; simpl.
  { right. split; [lia|eauto]. }
  left. split; [repeat split; lia|done].
Qed.

Lemma attachments_ok_cons ids ids' total a input :
  attachment_ok a -> attachment_id a ∉ ids -> ids' ≡ₚ attachment_id a :: ids ->
  attachments_ok ids total (a :: input) <->
  attachments_ok ids' (total + byte_len a) input.
Proof.
  intros Ha Hfresh Hp. unfold attachments_ok. simpl.
  rewrite Forall_cons, NoDup_cons. setoid_rewrite Hp.
  split.
  - intros ((_ & Hf) & (Hn & Hnd) & Hd & Ht).
    split; [done|]. split; [done|]. split; [set_solver|lia].
  - intros (Hf & Hnd & Hd & Ht). split; [done|]. split; [set_solver|].
    split; [set_solver|lia].
Qed.

Lemma collect_attachments_spec ids total acc input :
  StronglySorted str_lt ids -> 0 <= total <= MAX_TOTAL_ATTACHMENT_BYTES ->
  Forall (fun a => 0 <= byte_len a) input ->
  match collect_attachments ids total acc input with
  | Ok out => out = acc ++ input /\ attachments_ok ids total input
  | Err _ => ~ attachments_ok ids total input
  end.
Proof.
  intros Hs Ht Hnn; revert ids total acc Hs Ht.
  induction Hnn as [|a input Ha Hnn IH]; intros ids total acc Hs Ht.
  { simpl. rewrite app_nil_r. split; [done|].
    repeat split; auto using NoDup_nil_2; simpl; [set_solver|lia]. }
  cbn [collect_attachments].
  match goal with |- context [guard? _ else _ in ?k] =>
    destruct (attachment_checks a k Ha) as [[Hok ->]|[Hbad [e ->]]] end.
  2: { intros [Hf _]. by apply Forall_cons in Hf as [Hf _]. }
  destruct (btree_insert (attachment_id a) ids) as [ids'|] eqn:Ei.
  2: { apply btree_insert_None in Ei; [|done].
       intros (_ & _ & Hd & _). apply (Hd (attachment_id a)); set_solver. }
  assert (Hfresh : attachment_id a ∉ ids).
  { intros Hin. apply btree_insert_None in Hin; [|done]. congruence. }
  pose proof (btree_insert_Some _ _ _ Ei) as Hp.
  pose proof (attachments_ok_cons _ ids' total _ input Hok Hfresh Hp) as Hiff.
  assert (Hadd : u64_checked_add total (byte_len a) = Some (total + byte_len a)).
  { unfold u64_checked_add, in_u64. rewrite bool_decide_eq_true_2; [done|].
    unfold attachment_ok in Hok. unfold MAX_TOTAL_ATTACHMENT_BYTES,
      MAX_ATTACHMENT_BYTES, u64_max in *. lia. }
  rewrite Hadd. simpl. destruct (bool_decide _) eqn:Eb; bool_props.
  - specialize (IH ids' (total + byte_len a) (acc ++ [a])
      (btree_insert_sorted _ _ _ Hs Ei) ltac:(lia)).
    rewrite <- app_assoc in IH. by destruct (collect_attachments _ _ _ _); rewrite Hiff.
  - rewrite Hiff. intros (_ & _ & _ & Hsum). pose proof (total_bytes_nonneg _ Hnn). lia.
Qed.

(** The inputs the ingress contract admits at time [now]. *)
Definition admissible (input : AuthenticatedIngressInput) (now : Z) : Prop :=
  Forall (fun s => identifier_ok s = true)
    [in_tenant_id input; in_subject_id input; in_principal_id input;
     in_workspace_id input; in_profile_id input; in_session_id input;
     surface (in_source input); source_id (in_source input)] /\
  idempotency_key_ok (in_idempotency_key input) = true /\
  now < in_deadline input <= now + MAX_DEADLINE_HORIZON_SECONDS * nanos_per_second /\
  (1 <= length (in_scopes input) <= MAX_SCOPES)%nat /\
  Forall (fun s => scope_ok s = true) (in_scopes input) /\ NoDup (in_scopes input) /\
  (length (in_attachments input) <= MAX_ATTACHMENTS)%nat /\
  attachments_ok [] 0 (in_attachments input).

Lemma validate_identifier_ok field value :
  validate_identifier field value = Ok tt <-> identifier_ok value = true.
Proof. unfold validate_identifier. destruct (identifier_ok value); naive_solver. Qed.

Lemma validate_idempotency_key_ok value :
  validate_idempotency_key value = Ok tt <-> idempotency_key_ok value = true.
Proof.
  unfold validate_idempotency_key. destruct (idempotency_key_ok value); naive_solver.
Qed.

Lemma ingress_new_ok input now i :
  Forall (fun a => 0 <= byte_len a) (in_attachments input) ->
  new input now = Ok i ->
  admissible input now /\
  StronglySorted str_lt (ing_scopes i) /\ ing_scopes i ≡ₚ in_scopes input /\
  i = {| ing_tenant_id := in_tenant_id input; ing_subject_id := in_subject_id input;
         ing_principal_id := in_principal_id input;
         ing_workspace_id := in_workspace_id input;
         ing_profile_id := in_profile_id input; ing_session_id := in_session_id input;
         ing_source := in_source input; ing_deadline := in_deadline input;
         ing_scopes := ing_scopes i; ing_idempotency_key := in_idempotency_key input;
         ing_attachments := in_attachments input |}.
Proof.
  intros Hnn H. unfold new in H. ok_inv H. subst i. simpl.
  pose proof (collect_scopes_spec [] (in_scopes input) (SSorted_nil _)) as Hsc.
  pose proof (collect_attachments_spec [] 0 [] (in_attachments input)
    (SSorted_nil _) ltac:(unfold MAX_TOTAL_ATTACHMENT_BYTES; lia) Hnn) as Hat.
  repeat match goal with u : unit |- _ => destruct u end.
  repeat match goal with Hv : validate_identifier _ _ = Ok tt |- _ =>
    apply validate_identifier_ok in Hv end.
  match goal with Hv : validate_idempotency_key _ = Ok tt |- _ =>
    apply validate_idempotency_key_ok in Hv end.
  match goal with E : collect_scopes _ _ = Ok _ |- _ => rewrite E in Hsc end.
  match goal with E : collect_attachments _ _ _ _ = Ok _ |- _ => rewrite E in Hat end.
  destruct Hsc as (Hso & Hp & Hf & Hnd & _). destruct Hat as [-> Hat].
  rewrite app_nil_r in Hp. bool_props.
  split; [|split; [done|split; [done|done]]].
  unfold admissible. split; [by repeat constructor|].
  split; [done|]. split; [lia|]. split; [|done].
  destruct (in_scopes input); simpl in *; [done|lia].
Qed.

Lemma ingress_new_complete input now :
  Forall (fun a => 0 <= byte_len a) (in_attachments input) ->
  admissible input now -> is_ok (new input now) = true.
Proof.
  intros Hnn (Hids & Hk & Hd & Hl & Hsf & Hsn & Hal & Hat).
  rewrite !Forall_cons in Hids.
  destruct Hids as (H1 & H2 & H3 & H4 & H5 & H6 & H7 & H8 & _).
  unfold new, validate_idempotency_key, validate_identifier.
  rewrite H1, H2, H3, H4, H5, H6, H7, H8, Hk.
  rewrite (bool_decide_eq_false_2 (in_deadline input <= now)) by lia.
  rewrite (bool_decide_eq_true_2 (in_deadline input <= _)) by lia.
  rewrite (bool_decide_eq_false_2 (in_scopes input = []))
    by (intros E; rewrite E in Hl; simpl in Hl; lia).
  rewrite (bool_decide_eq_true_2 (length (in_scopes input) <= _)%nat) by lia.
  rewrite (bool_decide_eq_true_2 (length (in_attachments input) <= _)%nat) by lia.
  pose proof (collect_scopes_spec [] (in_scopes input) (SSorted_nil _)) as Hsc.
  pose proof (collect_attachments_spec [] 0 [] (in_attachments input)
    (SSorted_nil _) ltac:(unfold MAX_TOTAL_ATTACHMENT_BYTES; lia) Hnn) as Hatt.
  simpl. destruct (collect_scopes [] (in_scopes input)).
  2: { exfalso. apply Hsc. split; [done|]. split; [done|set_solver]. }
  by destruct (collect_attachments [] 0 [] (in_attachments input)).
Qed.

(**  [AuthenticatedIngress::new] accepts exactly the admissible inputs:
    canonical bounded identifiers, an 8 to 128 byte idempotency key, a deadline
    in the next 24 hours, 1 to 32 distinct valid scopes, and at most 16
    attachments with distinct identifiers, 1 to 64 MiB each and 128 MiB in all
    (so the byte total never overflows).  What it builds keeps every field, and
    its scope set is the input's in byte order. *)
Theorem ingress_new_spec input now :
  Forall (fun a => 0 <= byte_len a) (in_attachments input) ->
  (is_ok (new input now) = true <-> admissible input now) /\
  (forall i, new input now = Ok i ->
     StronglySorted str_lt (ing_scopes i) /\ ing_scopes i ≡ₚ in_scopes input /\
     ing_attachments i = in_attachments input /\
     ing_deadline i = in_deadline input /\
     ing_tenant_id i = in_tenant_id input /\
     ing_idempotency_key i = in_idempotency_key input).
Proof.
  intros Hnn. split; [split|].
  - destruct (new input now) as [i|] eqn:E; [|done].
    by apply ingress_new_ok in E as [? _].
  - by apply ingress_new_complete.
  - intros i E. apply ingress_new_ok in E as (_ & Hs & Hp & Hi); [|done].
    rewrite Hi. simpl. by repeat split.
Qed.

(** A local command-line turn. *)
Definition example_input : AuthenticatedIngressInput :=
  {| in_tenant_id := "tenant-1"; in_subject_id := "subject-1";
     in_principal_id := "principal-1"; in_workspace_id := "workspace-1";
     in_profile_id := "default"; in_session_id := "session-1";
     in_source := {| surface := "cli"; source_id := "msg-1" |};
     in_deadline := 300 * nanos_per_second;
     in_scopes := ["turn:submit"; "memory:read"];
     in_idempotency_key := "request-0001"; in_attachments := [] |}.

Lemma ingress_new_spec_witness :
  is_ok (new example_input 0) = true <-> admissible example_input 0.
Proof. apply (ingress_new_spec example_input 0). constructor. Defined.

(** ** The authority document parses back *)

Lemma forallb_map {A B} (f : B -> bool) (g : A -> B) l :
  forallb f (map g l) = forallb (fun x => f (g x)) l.
Proof. induction l; simpl; congruence. Qed.

Lemma scopes_value_exact l : forallb exact_json (map VString l) = true.
Proof. rewrite forallb_map. by induction l. Qed.

Lemma attachments_value_exact l :
  Forall (fun a => 0 <= byte_len a <= MAX_ATTACHMENT_BYTES) l ->
  forallb exact_json (map attachment_value l) = true.
Proof.
  induction 1 as [|a l Ha _ IH]; [done|].
  cbn [map forallb]. rewrite IH, andb_true_r.
  unfold attachment_value; cbn [exact_json forallb snd].
  rewrite (bool_decide_eq_true_2 (i64_min <= byte_len a <= u64_max));
    [by vm_compute|].
  unfold i64_min, u64_max, MAX_ATTACHMENT_BYTES in *; lia.
Qed.

Lemma max_depth_bound {A} (f : A -> Value) n l :
  (forall a, json_depth (f a) <= n)%nat ->
  (foldr (fun v d => Nat.max (json_depth v) d) 0 (map f l) <= n)%nat.
Proof. intros Hf. induction l as [|a l IH]; simpl; [lia|]. specialize (Hf a). lia. Qed.

Section Authority.
Context `{EnvLaws}.

Lemma ingress_value_exact i :
  Forall (fun a => 0 <= byte_len a <= MAX_ATTACHMENT_BYTES) (ing_attachments i) ->
  exact_json (ingress_to_value i) = true /\
  (json_depth (ingress_to_value i) <= max_json_depth)%nat.
Proof.
  intros Ha. split.
  - unfold ingress_to_value. cbn [exact_json forallb snd].
    rewrite scopes_value_exact, attachments_value_exact by done. by vm_compute.
  - unfold ingress_to_value, max_json_depth. cbn [json_depth foldr snd].
    pose proof (max_depth_bound VString 0 (ing_scopes i) ltac:(simpl; lia)).
    pose proof (max_depth_bound attachment_value 1 (ing_attachments i)
      ltac:(simpl; lia)). lia.
Qed.

End Authority.
