(* ===== verification/Schema.v ===== *)
(** * Schema objects: the installed triggers and their validation

    The rows of [sqlite_master] the stores look at, the SQL text of the triggers
    and identity objects the sources install, and the validators that compare the
    two: [validate_no_extra_outbox_triggers] of
    [crates/zaion-runtime/src/turn_store.rs] and the schema half of
    [validated_database_instance_id] of [crates/zaion-ledger/src/ledger.rs].
    What the triggers do is in [Database], in the statements that fire them. *)

From stdpp Require Import prelude strings list.
From S2P Require Import Prelude.
Local Open Scope res_scope.

Record SchemaObject : Type := {
  so_type : string;
  so_name : string;
  so_tbl_name : string;
  so_sql : string
}.

(** ** Normalised SQL text *)

Definition flush (cur : list Ascii.ascii) : list (list Ascii.ascii) :=
  match cur with [] => [] | _ => [rev' cur] end.

(** [str::split_whitespace]; [cur] is the current word, reversed. *)
Fixpoint split_ws (cur l : list Ascii.ascii) : list (list Ascii.ascii) :=
  match l with
  | [] => flush cur
  | a :: l1 =>
      if ws1 a then flush cur ++ split_ws [] l1 else
      match l1 with
      | [] => split_ws (a :: cur) l1
      | b :: l2 =>
          if ws2 a b then flush cur ++ split_ws [] l2 else
          match l2 with
          | [] => split_ws (a :: cur) l1
          | c :: l3 => if ws3 a b c then flush cur ++ split_ws [] l3
                       else split_ws (a :: cur) l1
          end
      end
  end.

(** [words.join(" ")] *)
Fixpoint join_words (ws : list (list Ascii.ascii)) : list Ascii.ascii :=
  match ws with
  | [] => []
  | [w] => w
  | w :: ws' => w ++ Ascii.ascii_of_nat 32 :: join_words ws'
  end.

(** [trim_end_matches(';')], on the reversed text. *)
Fixpoint drop_semicolons (l : list Ascii.ascii) : list Ascii.ascii :=
  match l with
  | a :: l' => if byte_is 59 a then drop_semicolons l' else l
  | [] => []
  end.

Definition normalize_schema_sql (sql : string) : string :=
  String.string_of_list_ascii
    (rev' (drop_semicolons
      (rev' (join_words (split_ws [] (String.list_ascii_of_string sql)))))).

(** ** The validators *)

(** [SELECT sql FROM sqlite_master WHERE type = ?1 AND name = ?2] *)
Definition schema_object_sql (master : list SchemaObject) (object_type name : string)
  : option string :=
  match filter (fun o => so_type o = object_type /\ so_name o = name) master with
  | o :: _ => Some (so_sql o)
  | [] => None
  end.

(** The error is the message of [SchemaIntegrity]. *)
Definition validate_schema_object (master : list SchemaObject)
    (object_type name expected_sql : string) : result string unit :=
  let? actual := ok_or (schema_object_sql master object_type name)
    ("required " +:+ object_type +:+ " " +:+ name +:+ " is missing") in
  guard? bool_decide (normalize_schema_sql actual = normalize_schema_sql expected_sql)
    else "required " +:+ object_type +:+ " " +:+ name +:+ " has an unexpected definition" in
  Ok tt.

(** [ORDER BY name LIMIT 1] over the triggers of some tables that are not in an
    allow-list. *)
Definition first_extra_trigger (master : list SchemaObject)
    (tables allowed : list string) : option string :=
  head (order_by String.leb
    (map so_name
      (filter (fun o => so_type o = "trigger" /\ so_tbl_name o ∈ tables
                        /\ (so_name o ∉ allowed)) master))).

(** ** The triggers of the turn store *)

Definition OUTBOX_ORDER_TRIGGER : string :=
  "turn_outbox_v2_assign_commit_order".
Definition OUTBOX_ORDER_UPDATE_GUARD : string :=
  "turn_outbox_commit_order_v2_no_update".
Definition OUTBOX_ORDER_DELETE_GUARD : string :=
  "turn_outbox_commit_order_v2_no_delete".
Definition OUTBOX_VERIFIED_COMMIT_INSERT_GUARD : string :=
  "turn_outbox_verified_commit_v2_insert_state".
Definition OUTBOX_VERIFIED_COMMIT_UPDATE_GUARD : string :=
  "turn_outbox_verified_commit_v2_no_update".
Definition OUTBOX_VERIFIED_COMMIT_DELETE_GUARD : string :=
  "turn_outbox_verified_commit_v2_no_delete".
Definition OUTBOX_VERIFIED_DELIVERY_GUARD : string :=
  "turn_outbox_v2_verified_delivery_guard".
Definition OUTBOX_QUARANTINE_INSERT_GUARD : string :=
  "turn_outbox_quarantine_v2_insert_state".
Definition OUTBOX_QUARANTINE_UPDATE_GUARD : string :=
  "turn_outbox_quarantine_v2_no_update".
Definition OUTBOX_QUARANTINE_DELETE_GUARD : string :=
  "turn_outbox_quarantine_v2_no_delete".

Definition CREATE_ORDER_TRIGGER : string := "
CREATE TRIGGER turn_outbox_v2_assign_commit_order
AFTER INSERT ON turn_outbox_v2
BEGIN
    INSERT INTO turn_outbox_commit_order_v2 (
        tenant_id, outbox_id, order_origin, legacy_source_rowid
    ) VALUES (
        NEW.tenant_id, NEW.outbox_id, 'transactional', NULL
    );
END;
".

Definition CREATE_ORDER_UPDATE_GUARD : string := "
CREATE TRIGGER turn_outbox_commit_order_v2_no_update
BEFORE UPDATE ON turn_outbox_commit_order_v2
BEGIN
    SELECT RAISE(ABORT, 'turn outbox commit order is immutable');
END;
".

Definition CREATE_ORDER_DELETE_GUARD : string := "
CREATE TRIGGER turn_outbox_commit_order_v2_no_delete
BEFORE DELETE ON turn_outbox_commit_order_v2
BEGIN
    SELECT RAISE(ABORT, 'turn outbox commit order is immutable');
END;
".

Definition CREATE_VERIFIED_COMMIT_INSERT_GUARD : string := "
CREATE TRIGGER turn_outbox_verified_commit_v2_insert_state
BEFORE INSERT ON turn_outbox_verified_commit_v2
WHEN NOT EXISTS (
    SELECT 1 FROM turn_outbox_v2 o
    WHERE o.tenant_id = NEW.tenant_id AND o.outbox_id = NEW.outbox_id
      AND (
          o.status = 'leased'
          OR (o.status = 'delivered' AND o.ledger_event_id = NEW.ledger_event_id)
      )
)
BEGIN
    SELECT RAISE(ABORT, 'verified outbox commit requires a leased or matching delivered row');
END;
".

Definition CREATE_VERIFIED_COMMIT_UPDATE_GUARD : string := "
CREATE TRIGGER turn_outbox_verified_commit_v2_no_update
BEFORE UPDATE ON turn_outbox_verified_commit_v2
BEGIN
    SELECT RAISE(ABORT, 'verified outbox commit evidence is immutable');
END;
".

Definition CREATE_VERIFIED_COMMIT_DELETE_GUARD : string := "
CREATE TRIGGER turn_outbox_verified_commit_v2_no_delete
BEFORE DELETE ON turn_outbox_verified_commit_v2
BEGIN
    SELECT RAISE(ABORT, 'verified outbox commit evidence is immutable');
END;
".

Definition CREATE_VERIFIED_DELIVERY_GUARD : string := "
CREATE TRIGGER turn_outbox_v2_verified_delivery_guard
BEFORE UPDATE ON turn_outbox_v2
WHEN OLD.status = 'delivered'
   OR (
       OLD.status != 'delivered' AND NEW.status = 'delivered'
       AND NOT EXISTS (
           SELECT 1 FROM turn_outbox_verified_commit_v2 v
           WHERE v.tenant_id = NEW.tenant_id AND v.outbox_id = NEW.outbox_id
             AND v.ledger_event_id = NEW.ledger_event_id
       )
   )
BEGIN
    SELECT RAISE(ABORT, 'delivered outbox rows are immutable and require verified commit evidence');
END;
".

Definition CREATE_OUTBOX_QUARANTINE_INSERT_GUARD : string := "
CREATE TRIGGER turn_outbox_quarantine_v2_insert_state
BEFORE INSERT ON turn_outbox_quarantine_v2
WHEN NOT EXISTS (
    SELECT 1
    FROM turn_outbox_v2 o
    JOIN turn_outbox_commit_order_v2 c
      ON c.tenant_id = o.tenant_id AND c.outbox_id = o.outbox_id
    JOIN turn_state_v2 s
      ON s.tenant_id = o.tenant_id AND s.turn_id = o.turn_id
    WHERE o.tenant_id = NEW.tenant_id AND o.outbox_id = NEW.outbox_id
      AND o.status = 'leased'
      AND o.lease_owner = NEW.lease_owner
      AND o.lease_token = NEW.lease_token
      AND o.attempts = NEW.attempts
      AND o.payload_hash = NEW.payload_hash
      AND c.commit_ordinal = NEW.commit_ordinal
      AND s.principal_id = NEW.principal_id
      AND o.lease_until_ms > NEW.quarantined_at_ms
      AND c.commit_ordinal = (
          SELECT MIN(c2.commit_ordinal)
          FROM turn_outbox_commit_order_v2 c2
          JOIN turn_outbox_v2 o2
            ON o2.tenant_id = c2.tenant_id AND o2.outbox_id = c2.outbox_id
          WHERE o2.tenant_id = NEW.tenant_id AND o2.status != 'delivered'
      )
)
BEGIN
    SELECT RAISE(ABORT, 'outbox quarantine requires the matching fenced lease');
END;
".

Definition CREATE_OUTBOX_QUARANTINE_UPDATE_GUARD : string := "
CREATE TRIGGER turn_outbox_quarantine_v2_no_update
BEFORE UPDATE ON turn_outbox_quarantine_v2
BEGIN
    SELECT RAISE(ABORT, 'outbox quarantine evidence is immutable');
END;
".

Definition CREATE_OUTBOX_QUARANTINE_DELETE_GUARD : string := "
CREATE TRIGGER turn_outbox_quarantine_v2_no_delete
BEFORE DELETE ON turn_outbox_quarantine_v2
BEGIN
    SELECT RAISE(ABORT, 'outbox quarantine evidence is immutable');
END;
".

Definition validate_order_trigger_schema (master : list SchemaObject)
  : result string unit :=
  let? _ := validate_schema_object master "trigger"
              OUTBOX_ORDER_TRIGGER CREATE_ORDER_TRIGGER in
  let? _ := validate_schema_object master "trigger"
              OUTBOX_ORDER_UPDATE_GUARD CREATE_ORDER_UPDATE_GUARD in
  validate_schema_object master "trigger"
    OUTBOX_ORDER_DELETE_GUARD CREATE_ORDER_DELETE_GUARD.

Definition validate_outbox_dispatcher_triggers (master : list SchemaObject)
  : result string unit :=
  let? _ := validate_schema_object master "trigger"
              OUTBOX_QUARANTINE_INSERT_GUARD CREATE_OUTBOX_QUARANTINE_INSERT_GUARD in
  let? _ := validate_schema_object master "trigger"
              OUTBOX_QUARANTINE_UPDATE_GUARD CREATE_OUTBOX_QUARANTINE_UPDATE_GUARD in
  validate_schema_object master "trigger"
    OUTBOX_QUARANTINE_DELETE_GUARD CREATE_OUTBOX_QUARANTINE_DELETE_GUARD.

Definition validate_outbox_trigger_allowlist (master : list SchemaObject)
  : result string unit :=
  match first_extra_trigger master
    ["turn_actor_v2"; "turn_state_v2"; "turn_outbox_v2";
     "turn_outbox_commit_order_v2"; "turn_outbox_verified_commit_v2";
     "turn_outbox_quarantine_v2"; "turn_store_schema_migrations_v2"]
    [OUTBOX_ORDER_TRIGGER; OUTBOX_ORDER_UPDATE_GUARD; OUTBOX_ORDER_DELETE_GUARD;
     OUTBOX_VERIFIED_COMMIT_INSERT_GUARD; OUTBOX_VERIFIED_COMMIT_UPDATE_GUARD;
     OUTBOX_VERIFIED_COMMIT_DELETE_GUARD; OUTBOX_VERIFIED_DELIVERY_GUARD;
     OUTBOX_QUARANTINE_INSERT_GUARD; OUTBOX_QUARANTINE_UPDATE_GUARD;
     OUTBOX_QUARANTINE_DELETE_GUARD] with
  | Some name => Err ("unexpected outbox trigger is installed: " +:+ name)
  | None => Ok tt
  end.

Definition validate_no_extra_outbox_triggers (master : list SchemaObject)
  : result string unit :=
  let? _ := validate_order_trigger_schema master in
  let? _ := validate_schema_object master "trigger"
              OUTBOX_VERIFIED_COMMIT_INSERT_GUARD CREATE_VERIFIED_COMMIT_INSERT_GUARD in
  let? _ := validate_schema_object master "trigger"
              OUTBOX_VERIFIED_COMMIT_UPDATE_GUARD CREATE_VERIFIED_COMMIT_UPDATE_GUARD in
  let? _ := validate_schema_object master "trigger"
              OUTBOX_VERIFIED_COMMIT_DELETE_GUARD CREATE_VERIFIED_COMMIT_DELETE_GUARD in
  let? _ := validate_schema_object master "trigger"
              OUTBOX_VERIFIED_DELIVERY_GUARD CREATE_VERIFIED_DELIVERY_GUARD in
  let? _ := validate_outbox_dispatcher_triggers master in
  validate_outbox_trigger_allowlist master.

(** ** The identity objects of the ledger *)

Definition DATABASE_IDENTITY_MIGRATION : string :=
  "ledger_database_instance_identity_v1".
Definition DATABASE_IDENTITY_TABLE : string :=
  "ledger_database_instance_identity_v1".
Definition DATABASE_IDENTITY_NO_INSERT_TRIGGER : string :=
  "ledger_database_instance_identity_no_insert_v1".
Definition DATABASE_IDENTITY_NO_UPDATE_TRIGGER : string :=
  "ledger_database_instance_identity_no_update_v1".
Definition DATABASE_IDENTITY_NO_DELETE_TRIGGER : string :=
  "ledger_database_instance_identity_no_delete_v1".

Definition CREATE_DATABASE_IDENTITY_TABLE : string := "
CREATE TABLE ledger_database_instance_identity_v1 (
    singleton   INTEGER PRIMARY KEY CHECK (singleton = 1),
    instance_id TEXT NOT NULL UNIQUE
) WITHOUT ROWID;
".

Definition CREATE_DATABASE_IDENTITY_NO_INSERT_TRIGGER : string := "
CREATE TRIGGER ledger_database_instance_identity_no_insert_v1
BEFORE INSERT ON ledger_database_instance_identity_v1
BEGIN
    SELECT RAISE(ABORT, 'ledger database instance identity is immutable');
END;
".

Definition CREATE_DATABASE_IDENTITY_NO_UPDATE_TRIGGER : string := "
CREATE TRIGGER ledger_database_instance_identity_no_update_v1
BEFORE UPDATE ON ledger_database_instance_identity_v1
BEGIN
    SELECT RAISE(ABORT, 'ledger database instance identity is immutable');
END;
".

Definition CREATE_DATABASE_IDENTITY_NO_DELETE_TRIGGER : string := "
CREATE TRIGGER ledger_database_instance_identity_no_delete_v1
BEFORE DELETE ON ledger_database_instance_identity_v1
BEGIN
    SELECT RAISE(ABORT, 'ledger database instance identity is immutable');
END;
".

(** [validate_database_schema_object] of the ledger: the message of
    [InvalidDatabaseInstanceIdentity]. *)
Definition validate_database_schema_object (master : list SchemaObject)
    (object_type name expected_sql : string) : result string unit :=
  let? actual := ok_or (schema_object_sql master object_type name)
    ("required database identity " +:+ object_type +:+ " " +:+ name +:+ " is missing") in
  guard? bool_decide (normalize_schema_sql actual = normalize_schema_sql expected_sql)
    else "database identity " +:+ object_type +:+ " " +:+ name
         +:+ " has an unexpected definition" in
  Ok tt.

(** The schema half of [validated_database_instance_id], after its check of the
    migration marker. *)
Definition validate_identity_schema (master : list SchemaObject) : result string unit :=
  let? _ := validate_database_schema_object master "table"
              DATABASE_IDENTITY_TABLE CREATE_DATABASE_IDENTITY_TABLE in
  let? _ := validate_database_schema_object master "trigger"
              DATABASE_IDENTITY_NO_INSERT_TRIGGER
              CREATE_DATABASE_IDENTITY_NO_INSERT_TRIGGER in
  let? _ := validate_database_schema_object master "trigger"
              DATABASE_IDENTITY_NO_UPDATE_TRIGGER
              CREATE_DATABASE_IDENTITY_NO_UPDATE_TRIGGER in
  let? _ := validate_database_schema_object master "trigger"
              DATABASE_IDENTITY_NO_DELETE_TRIGGER
              CREATE_DATABASE_IDENTITY_NO_DELETE_TRIGGER in
  match first_extra_trigger master [DATABASE_IDENTITY_TABLE]
          [DATABASE_IDENTITY_NO_INSERT_TRIGGER; DATABASE_IDENTITY_NO_UPDATE_TRIGGER;
           DATABASE_IDENTITY_NO_DELETE_TRIGGER] with
  | Some name => Err ("unexpected database identity trigger is installed: " +:+ name)
  | None => Ok tt
  end.

(** ** The schema [open] leaves behind *)

Definition trigger_object (name tbl sql : string) : SchemaObject :=
  {| so_type := "trigger"; so_name := name; so_tbl_name := tbl; so_sql := sql |}.

(** The objects the validators look at, as [open] installs them. *)
Definition installed_schema : list SchemaObject :=
  [trigger_object OUTBOX_ORDER_TRIGGER "turn_outbox_v2" CREATE_ORDER_TRIGGER;
   trigger_object OUTBOX_ORDER_UPDATE_GUARD "turn_outbox_commit_order_v2"
     CREATE_ORDER_UPDATE_GUARD;
   trigger_object OUTBOX_ORDER_DELETE_GUARD "turn_outbox_commit_order_v2"
     CREATE_ORDER_DELETE_GUARD;
   trigger_object OUTBOX_VERIFIED_COMMIT_INSERT_GUARD "turn_outbox_verified_commit_v2"
     CREATE_VERIFIED_COMMIT_INSERT_GUARD;
   trigger_object OUTBOX_VERIFIED_COMMIT_UPDATE_GUARD "turn_outbox_verified_commit_v2"
     CREATE_VERIFIED_COMMIT_UPDATE_GUARD;
   trigger_object OUTBOX_VERIFIED_COMMIT_DELETE_GUARD "turn_outbox_verified_commit_v2"
     CREATE_VERIFIED_COMMIT_DELETE_GUARD;
   trigger_object OUTBOX_VERIFIED_DELIVERY_GUARD "turn_outbox_v2"
     CREATE_VERIFIED_DELIVERY_GUARD;
   trigger_object OUTBOX_QUARANTINE_INSERT_GUARD "turn_outbox_quarantine_v2"
     CREATE_OUTBOX_QUARANTINE_INSERT_GUARD;
   trigger_object OUTBOX_QUARANTINE_UPDATE_GUARD "turn_outbox_quarantine_v2"
     CREATE_OUTBOX_QUARANTINE_UPDATE_GUARD;
   trigger_object OUTBOX_QUARANTINE_DELETE_GUARD "turn_outbox_quarantine_v2"
     CREATE_OUTBOX_QUARANTINE_DELETE_GUARD;
   {| so_type := "table"; so_name := DATABASE_IDENTITY_TABLE;
      so_tbl_name := DATABASE_IDENTITY_TABLE;
      so_sql := CREATE_DATABASE_IDENTITY_TABLE |};
   trigger_object DATABASE_IDENTITY_NO_INSERT_TRIGGER DATABASE_IDENTITY_TABLE
     CREATE_DATABASE_IDENTITY_NO_INSERT_TRIGGER;
   trigger_object DATABASE_IDENTITY_NO_UPDATE_TRIGGER DATABASE_IDENTITY_TABLE
     CREATE_DATABASE_IDENTITY_NO_UPDATE_TRIGGER;
   trigger_object DATABASE_IDENTITY_NO_DELETE_TRIGGER DATABASE_IDENTITY_TABLE
     CREATE_DATABASE_IDENTITY_NO_DELETE_TRIGGER].

(** The installed schema passes both validators. *)
Lemma installed_schema_valid :
  validate_no_extra_outbox_triggers installed_schema = Ok tt /\
  validate_identity_schema installed_schema = Ok tt.
Proof. split; vm_compute; reflexivity. Qed.
