(* ===== verification/Database.v ===== *)
(** * The shared SQLite database

    Tables, constraints, triggers and statements of the database file the turn
    store and the event ledger share ([CREATE_SCHEMA] and the other schema
    constants of [crates/zaion-runtime/src/turn_store.rs] and
    [crates/zaion-runtime/src/turn_store/dispatcher.rs],
    [crates/zaion-ledger/src/schema.rs]), and the error types of the two crates.

    A table with a text primary key is a finite map from the key to the other
    columns.  The rowid tables are lists in rowid order.  A statement returns the
    number of changed rows and the new database, or the SQLite error; its
    [CHECK], [UNIQUE], [FOREIGN KEY] constraints and triggers are tested by the
    statement that meets them.  A transaction is a function of the database: on
    an error the caller keeps the database it had, as SQLite rolls back. *)

From stdpp Require Import prelude gmap strings list.
From S2P Require Import Prelude.
From S2P Require Import Json.
From S2P Require Import TurnState.
From S2P Require Import Schema.
Local Open Scope res_scope.
Local Open Scope Z_scope.

(** ** Errors *)

(** What the sources distinguish of [rusqlite::Error]. *)
Inductive SqliteError : Type :=
| DatabaseBusy
| DatabaseLocked
| Constraint
| Full
| FromSqlConversionFailure
| OtherSqlite (message : string).

(** What the sources distinguish of [std::io::ErrorKind]. *)
Inductive IoErrorKind : Type := Interrupted | WouldBlock | TimedOut | OtherIo.

(** [zaion_ledger::LedgerError] *)
Inductive LedgerError : Type :=
| LedgerSqlite (e : SqliteError)
| Serialization
| LedgerIo (kind : IoErrorKind)
| NotFound (event_id : string)
| CorruptPayload (message : string)
| LedgerInvalidIdempotencyKey
| EventIdConflict (event_id : string)
| EventBindingPrincipalMismatch (expected derived : string)
| EventBindingMismatch (field : string)
| EventBindingSignatureInvalid
| EventBindingNonCanonicalSignature
| EventBindingUnsupportedLedgerPath (reason : string)
| InvalidDatabaseInstanceIdentity (reason : string)
| DatabaseInstanceIdentityDrift (expected actual : string)
| CorruptChain (reason : string).

(** [TurnStoreError] *)
Inductive TurnStoreError : Type :=
| Io (kind : IoErrorKind)
| Sqlite (e : SqliteError)
| Json
| MutexPoisoned
| CorruptState (value : string)
| CorruptOutboxStatus (value : string)
| CorruptRevision (value : Z)
| CorruptTimestamp (field : string) (value : Z)
| InvalidActorComponent (field : string)
| InvalidLeaseIdentity (field : string)
| ActorAuthorityMismatch
| DeadlineExpired
| IdempotencyConflict
| UnknownTurn (turn_id : string)
| NotWaitingApproval (turn_id : string)
| ActorBusy (actor_key active_turn_id : string) (lease_until : Z)
| ActorLeaseLost (lease_owner : string)
| MissingTurn (tenant_id turn_id : string)
| Transition (e : TurnTransitionError)
| CasLost
| MissingTerminalResult
| NonTerminalResult
| TerminalOutcomeMismatch (expected actual : TurnState)
| HashMismatch (field : string)
| RecordBindingMismatch (field : string)
| MissingOutbox (tenant_id outbox_id : string)
| OutboxLeaseLost (outbox_id lease_owner : string)
| OutboxLeaseExpired (outbox_id : string)
| InvalidOutboxLeaseDuration
| OutboxErrorTooLong
| OutboxRetryTimeInvalid
| OutboxAttemptsExhausted
| OutboxLeaseTimeOverflow
| CommitOrdinalExhausted
| OutboxOrderConflict (outbox_id : string)
| OutboxHistoryIncomplete (turn_id : string)
| OutboxHistoryRevision (expected actual : Z)
| OutboxHistoryGenesis (revision : Z)
| OutboxHistoryPreviousState (revision : Z)
| OutboxHistoryIllegalTransition (revision : Z) (from to : TurnState)
| OutboxHistoryCurrentTurn (turn_id : string)
| OutboxDeliveredPrefix (revision : Z)
| OutboxLedgerEventMismatch (revision : Z)
| OutboxCommitMismatch (outbox_id : string)
| OutboxLedgerPathMismatch
| OutboxLedgerInstanceMismatch
| OutboxPrincipalMismatch
| OutboxSignerEvidenceMissing (outbox_id : string)
| OutboxCompletionTimeInvalid
| NonMonotonicTimestamp
| Ledger (e : LedgerError)
| SchemaIntegrity (reason : string).

(** [#[from] rusqlite::Error], [#[from] LedgerError] *)
Definition from_sqlite {A} (r : result SqliteError A) : result TurnStoreError A :=
  match r with Ok a => Ok a | Err e => Err (Sqlite e) end.
Definition from_ledger {A} (r : result LedgerError A) : result TurnStoreError A :=
  match r with Ok a => Ok a | Err e => Err (Ledger e) end.
Definition from_schema {A} (r : result string A) : result TurnStoreError A :=
  match r with Ok a => Ok a | Err e => Err (SchemaIntegrity e) end.

(** ** Rows *)

Abbreviation Key := (string * string)%type.

(** [turn_actor_v2]; key [(tenant_id, actor_key)]. *)
Record ActorRow : Type := {
  ar_principal_id : string;
  ar_workspace_id : string;
  ar_profile_id : string;
  ar_channel_id : string;
  ar_thread_id : string;
  ar_revision : Z;
  ar_active_turn_id : option string;
  ar_lease_owner : option string;
  ar_lease_until_ms : option Z;
  ar_created_at_ms : Z;
  ar_updated_at_ms : Z
}.

(** [turn_state_v2]; key [(tenant_id, turn_id)]. *)
Record TurnRow : Type := {
  tr_actor_key : string;
  tr_subject_id : string;
  tr_principal_id : string;
  tr_workspace_id : string;
  tr_profile_id : string;
  tr_session_id : string;
  tr_source_surface : string;
  tr_source_id : string;
  tr_idempotency_key : string;
  tr_request_json : string;
  tr_request_hash : string;
  tr_authority_json : string;
  tr_authority_hash : string;
  tr_deadline_ms : Z;
  tr_state : string;
  tr_revision : Z;
  tr_terminal_json : option string;
  tr_terminal_hash : option string;
  tr_created_at_ms : Z;
  tr_updated_at_ms : Z
}.

(** [turn_outbox_v2]; key [(tenant_id, outbox_id)]. *)
Record OutboxRow : Type := {
  or_turn_id : string;
  or_revision : Z;
  or_event_type : string;
  or_effect_kind : string;
  or_idempotency_mode : string;
  or_payload_json : string;
  or_payload_hash : string;
  or_status : string;
  or_attempts : Z;
  or_available_at_ms : Z;
  or_lease_owner : option string;
  or_lease_token : option string;
  or_lease_until_ms : option Z;
  or_delivered_at_ms : option Z;
  or_ledger_event_id : option string;
  or_last_error : option string;
  or_created_at_ms : Z;
  or_updated_at_ms : Z
}.

(** [turn_outbox_commit_order_v2]; the rowid is [co_ordinal]. *)
Record OrderRow : Type := {
  co_ordinal : Z;
  co_tenant_id : string;
  co_outbox_id : string;
  co_order_origin : string;
  co_legacy_source_rowid : option Z
}.

Definition co_key (c : OrderRow) : Key := (co_tenant_id c, co_outbox_id c).

(** [turn_outbox_verified_commit_v2]; key [(tenant_id, outbox_id)]. *)
Record VerifiedRow : Type := {
  vr_ledger_event_id : string;
  vr_signer_public_key : string;
  vr_database_instance_id : string
}.

(** [turn_outbox_quarantine_v2]; key [(tenant_id, outbox_id)]. *)
Record QuarantineRow : Type := {
  qr_commit_ordinal : Z;
  qr_principal_id : string;
  qr_failure_class : string;
  qr_failure_code : string;
  qr_failure_phase : string;
  qr_error_message : string;
  qr_attempts : Z;
  qr_lease_owner : string;
  qr_lease_token : string;
  qr_payload_hash : string;
  qr_quarantined_at_ms : Z
}.

(** [events]; in rowid order. *)
Record EventRow : Type := {
  ev_event_id : string;
  ev_principal_id : string;
  ev_namespace_key : string;
  ev_run_id : option string;
  ev_event_type : string;
  ev_payload_json : string;
  ev_signature_hex : option string;
  ev_created_at : string;
  ev_parent_event_id : option string;
  ev_seq_num : Z;
  ev_prev_hash : string
}.

(** The database file.  [commit_order] is in rowid order, [order_sequence] its
    entry of [sqlite_sequence]; [main_file] is what the operating system and
    [PRAGMA database_list] say of the open file: its canonical path, or why it
    is not a regular file. *)
Record Db : Type := {
  actors : gmap Key ActorRow;
  turns : gmap Key TurnRow;
  outbox : gmap Key OutboxRow;
  commit_order : list OrderRow;
  order_sequence : option Z;
  verified : gmap Key VerifiedRow;
  quarantine : gmap Key QuarantineRow;
  events : list EventRow;
  ledger_migrations : list string;
  identity_rows : list (Z * string);
  sqlite_master : list SchemaObject;
  main_file : result string string
}.

Definition with_actors (db : Db) (x : gmap Key ActorRow) : Db :=
  {| actors := x; turns := turns db; outbox := outbox db;
     commit_order := commit_order db; order_sequence := order_sequence db;
     verified := verified db; quarantine := quarantine db; events := events db;
     ledger_migrations := ledger_migrations db; identity_rows := identity_rows db;
     sqlite_master := sqlite_master db; main_file := main_file db |}.

Definition with_turns (db : Db) (x : gmap Key TurnRow) : Db :=
  {| actors := actors db; turns := x; outbox := outbox db;
     commit_order := commit_order db; order_sequence := order_sequence db;
     verified := verified db; quarantine := quarantine db; events := events db;
     ledger_migrations := ledger_migrations db; identity_rows := identity_rows db;
     sqlite_master := sqlite_master db; main_file := main_file db |}.

Definition with_outbox (db : Db) (x : gmap Key OutboxRow) : Db :=
  {| actors := actors db; turns := turns db; outbox := x;
     commit_order := commit_order db; order_sequence := order_sequence db;
     verified := verified db; quarantine := quarantine db; events := events db;
     ledger_migrations := ledger_migrations db; identity_rows := identity_rows db;
     sqlite_master := sqlite_master db; main_file := main_file db |}.

Definition with_order (db : Db) (x : list OrderRow) (s : option Z) : Db :=
  {| actors := actors db; turns := turns db; outbox := outbox db;
     commit_order := x; order_sequence := s;
     verified := verified db; quarantine := quarantine db; events := events db;
     ledger_migrations := ledger_migrations db; identity_rows := identity_rows db;
     sqlite_master := sqlite_master db; main_file := main_file db |}.

Definition with_verified (db : Db) (x : gmap Key VerifiedRow) : Db :=
  {| actors := actors db; turns := turns db; outbox := outbox db;
     commit_order := commit_order db; order_sequence := order_sequence db;
     verified := x; quarantine := quarantine db; events := events db;
     ledger_migrations := ledger_migrations db; identity_rows := identity_rows db;
     sqlite_master := sqlite_master db; main_file := main_file db |}.

Definition with_quarantine (db : Db) (x : gmap Key QuarantineRow) : Db :=
  {| actors := actors db; turns := turns db; outbox := outbox db;
     commit_order := commit_order db; order_sequence := order_sequence db;
     verified := verified db; quarantine := x; events := events db;
     ledger_migrations := ledger_migrations db; identity_rows := identity_rows db;
     sqlite_master := sqlite_master db; main_file := main_file db |}.

Definition with_events (db : Db) (x : list EventRow) : Db :=
  {| actors := actors db; turns := turns db; outbox := outbox db;
     commit_order := commit_order db; order_sequence := order_sequence db;
     verified := verified db; quarantine := quarantine db; events := x;
     ledger_migrations := ledger_migrations db; identity_rows := identity_rows db;
     sqlite_master := sqlite_master db; main_file := main_file db |}.

(** ** Constraints *)

(** SQLite's [length(x) > 0] of a text: it counts up to the first NUL. *)
Definition sql_length_pos (s : string) : bool :=
  match s with EmptyString => false | String a _ => negb (byte_is 0 a) end.

Definition actor_check (r : ActorRow) : bool :=
  bool_decide (0 <= ar_revision r)
  && ((opt_is_none (ar_active_turn_id r) && opt_is_none (ar_lease_owner r)
       && opt_is_none (ar_lease_until_ms r))
      || (opt_is_some (ar_active_turn_id r) && opt_is_some (ar_lease_owner r)
          && opt_is_some (ar_lease_until_ms r))).

Definition turn_check (r : TurnRow) : bool :=
  bool_decide (tr_state r ∈ ["accepted"; "routed"; "running"; "waiting_approval";
    "tool_running"; "completed"; "degraded"; "aborted"; "quarantined"])
  && bool_decide (0 <= tr_revision r)
  && ((opt_is_none (tr_terminal_json r) && opt_is_none (tr_terminal_hash r))
      || (opt_is_some (tr_terminal_json r) && opt_is_some (tr_terminal_hash r))).

Definition outbox_check (r : OutboxRow) : bool :=
  bool_decide (0 <= or_revision r)
  && bool_decide (or_effect_kind r = "ledger_turn_state")
  && bool_decide (or_idempotency_mode r = "key_required")
  && bool_decide (0 <= or_attempts r)
  && ((bool_decide (or_status r = "pending")
       && opt_is_none (or_lease_owner r) && opt_is_none (or_lease_token r)
       && opt_is_none (or_lease_until_ms r)
       && opt_is_none (or_delivered_at_ms r) && opt_is_none (or_ledger_event_id r))
      || (bool_decide (or_status r = "leased")
          && opt_is_some (or_lease_owner r) && opt_is_some (or_lease_token r)
          && opt_is_some (or_lease_until_ms r)
          && opt_is_none (or_delivered_at_ms r) && opt_is_none (or_ledger_event_id r))
      || (bool_decide (or_status r = "delivered")
          && opt_is_none (or_lease_owner r) && opt_is_none (or_lease_token r)
          && opt_is_none (or_lease_until_ms r)
          && opt_is_some (or_delivered_at_ms r) && opt_is_some (or_ledger_event_id r))).

Definition verified_check (r : VerifiedRow) : bool :=
  sql_length_pos (vr_ledger_event_id r)
  && bool_decide (String.length (vr_signer_public_key r) = 32%nat)
  && sql_length_pos (vr_database_instance_id r).

Definition quarantine_check (r : QuarantineRow) : bool :=
  bool_decide (0 < qr_commit_ordinal r)
  && sql_length_pos (qr_principal_id r)
  && bool_decide (qr_failure_class r ∈ ["permanent"; "retry_exhausted"])
  && sql_length_pos (qr_failure_code r)
  && bool_decide (str_len (qr_failure_code r) <= 128)
  && bool_decide (qr_failure_phase r ∈ ["claim"; "resolve_signer"; "revalidate";
       "append"; "complete"; "retry_persist"; "quarantine_persist"])
  && sql_length_pos (qr_error_message r)
  && bool_decide (str_len (qr_error_message r) <= 4096)
  && bool_decide (0 < qr_attempts r).

(** ** Queries *)

(** The commit-order row of an outbox row: the [JOIN] of [OUTBOX_SELECT]. *)
Definition order_of (db : Db) (k : Key) : option OrderRow :=
  head (filter (fun c => co_key c = k) (commit_order db)).

(** The rows of [turn_outbox_commit_order_v2 c JOIN turn_outbox_v2 o], in
    commit order. *)
Definition outbox_join (db : Db) : list (OrderRow * OutboxRow) :=
  omap (fun c => match outbox db !! co_key c with
                 | Some o => Some (c, o)
                 | None => None
                 end) (commit_order db).

Definition tenant_join (db : Db) (tenant_id : string) : list (OrderRow * OutboxRow) :=
  filter (fun co => co_tenant_id co.1 = tenant_id) (outbox_join db).

(** [SELECT MIN(c.commit_ordinal) ... WHERE o.status != 'delivered'] *)
Definition first_undelivered (db : Db) (tenant_id : string) : option Z :=
  sql_min (map (fun co => co_ordinal co.1)
    (filter (fun co => or_status co.2 <> "delivered") (tenant_join db tenant_id))).

Definition last_delivered (db : Db) (tenant_id : string) : option Z :=
  sql_max (map (fun co => co_ordinal co.1)
    (filter (fun co => or_status co.2 = "delivered") (tenant_join db tenant_id))).

(** [SELECT MAX(commit_ordinal)] over the whole table. *)
Definition max_ordinal (db : Db) : option Z := sql_max (map co_ordinal (commit_order db)).

(** ** Statements *)

(** [UPDATE] of the row with a primary key, where a further condition holds. *)
Definition update_actor (db : Db) (k : Key) (cond : ActorRow -> bool)
    (set : ActorRow -> ActorRow) : result SqliteError (nat * Db) :=
  match actors db !! k with
  | Some r =>
      if cond r then
        if actor_check (set r)
        then Ok (1%nat, with_actors db (<[k := set r]> (actors db)))
        else Err Constraint
      else Ok (0%nat, db)
  | None => Ok (0%nat, db)
  end.

Definition update_turn (db : Db) (k : Key) (cond : TurnRow -> bool)
    (set : TurnRow -> TurnRow) : result SqliteError (nat * Db) :=
  match turns db !! k with
  | Some r =>
      if cond r then
        if turn_check (set r)
        then Ok (1%nat, with_turns db (<[k := set r]> (turns db)))
        else Err Constraint
      else Ok (0%nat, db)
  | None => Ok (0%nat, db)
  end.

(** The trigger [turn_outbox_v2_verified_delivery_guard]: whether it aborts the
    update of [old] to [new]. *)
Definition delivery_guard_aborts (db : Db) (k : Key) (old new : OutboxRow) : bool :=
  bool_decide (or_status old = "delivered")
  || (negb (bool_decide (or_status old = "delivered"))
      && bool_decide (or_status new = "delivered")
      && negb (is_some_and
           (fun v => is_some_and (fun e => bool_decide (vr_ledger_event_id v = e))
                                 (or_ledger_event_id new))
           (verified db !! k))).

Definition update_outbox (db : Db) (k : Key) (cond : OutboxRow -> bool)
    (set : OutboxRow -> OutboxRow) : result SqliteError (nat * Db) :=
  match outbox db !! k with
  | Some r =>
      if cond r then
        if delivery_guard_aborts db k r (set r) then Err Constraint
        else if outbox_check (set r)
        then Ok (1%nat, with_outbox db (<[k := set r]> (outbox db)))
        else Err Constraint
      else Ok (0%nat, db)
  | None => Ok (0%nat, db)
  end.

(** [INSERT ... ON CONFLICT(tenant_id, actor_key) DO NOTHING] *)
Definition insert_actor (db : Db) (k : Key) (r : ActorRow) : result SqliteError Db :=
  match actors db !! k with
  | Some _ => Ok db
  | None => if actor_check r then Ok (with_actors db (<[k := r]> (actors db)))
            else Err Constraint
  end.

Definition insert_turn (db : Db) (k : Key) (r : TurnRow) : result SqliteError Db :=
  if turn_check r
     && opt_is_none (turns db !! k)
     && bool_decide (map_Forall (fun k' r' =>
          ~ (k'.1 = k.1 /\ tr_idempotency_key r' = tr_idempotency_key r)) (turns db))
     && opt_is_some (actors db !! (k.1, tr_actor_key r))
  then Ok (with_turns db (<[k := r]> (turns db)))
  else Err Constraint.

(** The trigger [turn_outbox_v2_assign_commit_order] and [AUTOINCREMENT]: one
    more than the larger of the recorded sequence and the largest rowid. *)
Definition assign_commit_order (db : Db) (k : Key) : result SqliteError Db :=
  let last := Z.max (default 0 (order_sequence db)) (default 0 (max_ordinal db)) in
  guard? bool_decide (last < i64_max) else Full in
  guard? opt_is_none (order_of db k) else Constraint in
  Ok (with_order db
        (commit_order db ++
           [{| co_ordinal := last + 1; co_tenant_id := k.1; co_outbox_id := k.2;
               co_order_origin := "transactional"; co_legacy_source_rowid := None |}])
        (Some (last + 1))).

(** [INSERT INTO turn_outbox_v2]: the unique index on
    [(tenant_id, turn_id, revision)] implies the table's own constraint. *)
Definition insert_outbox_row (db : Db) (k : Key) (r : OutboxRow)
  : result SqliteError Db :=
  if outbox_check r
     && opt_is_none (outbox db !! k)
     && bool_decide (map_Forall (fun k' r' =>
          ~ (k'.1 = k.1 /\ or_turn_id r' = or_turn_id r /\
             or_revision r' = or_revision r)) (outbox db))
     && opt_is_some (turns db !! (k.1, or_turn_id r))
  then assign_commit_order (with_outbox db (<[k := r]> (outbox db))) k
  else Err Constraint.

(** [INSERT INTO turn_outbox_verified_commit_v2] with its insert guard. *)
Definition insert_verified (db : Db) (k : Key) (r : VerifiedRow)
  : result SqliteError Db :=
  if is_some_and (fun o =>
       bool_decide (or_status o = "leased")
       || (bool_decide (or_status o = "delivered")
           && bool_decide (or_ledger_event_id o = Some (vr_ledger_event_id r))))
       (outbox db !! k)
     && verified_check r && opt_is_none (verified db !! k)
  then Ok (with_verified db (<[k := r]> (verified db)))
  else Err Constraint.

(** The insert guard of [turn_outbox_quarantine_v2]: some row matches. *)
Definition quarantine_guard_ok (db : Db) (k : Key) (q : QuarantineRow) : bool :=
  match outbox db !! k, order_of db k with
  | Some o, Some c =>
      match turns db !! (k.1, or_turn_id o) with
      | Some s =>
          bool_decide (or_status o = "leased")
          && bool_decide (or_lease_owner o = Some (qr_lease_owner q))
          && bool_decide (or_lease_token o = Some (qr_lease_token q))
          && bool_decide (or_attempts o = qr_attempts q)
          && bool_decide (or_payload_hash o = qr_payload_hash q)
          && bool_decide (co_ordinal c = qr_commit_ordinal q)
          && bool_decide (tr_principal_id s = qr_principal_id q)
          && is_some_and (fun u => bool_decide (qr_quarantined_at_ms q < u))
               (or_lease_until_ms o)
          && bool_decide (first_undelivered db k.1 = Some (co_ordinal c))
      | None => false
      end
  | _, _ => false
  end.

Definition insert_quarantine (db : Db) (k : Key) (q : QuarantineRow)
  : result SqliteError Db :=
  if quarantine_guard_ok db k q && quarantine_check q
     && opt_is_none (quarantine db !! k)
     && bool_decide (map_Forall (fun _ q' => qr_commit_ordinal q' <> qr_commit_ordinal q)
                       (quarantine db))
  then Ok (with_quarantine db (<[k := q]> (quarantine db)))
  else Err Constraint.

(** [INSERT INTO events]: primary key and unique index. *)
Definition insert_event (db : Db) (e : EventRow) : result SqliteError Db :=
  if bool_decide (Forall (fun e' => ev_event_id e' <> ev_event_id e) (events db))
     && bool_decide (Forall (fun e' => ~ (ev_principal_id e' = ev_principal_id e /\
                                          ev_seq_num e' = ev_seq_num e)) (events db))
  then Ok (with_events db (events db ++ [e]))
  else Err Constraint.
