(* ===== verification/Samples.v ===== *)
(** * Sample databases

    A freshly opened database file over the concrete environment, shared by the
    worked examples. *)

From stdpp Require Import prelude gmap strings list.
From S2P Require Import Prelude.
From S2P Require Import Json.
From S2P Require Import TurnState.
From S2P Require Import TurnKernel.
From S2P Require Import Env.
From S2P Require Import Concrete.
From S2P Require Import Schema.
From S2P Require Import Database.

Definition sample_instance : string := "5f0c7a52-1c8e-4bfb-9a39-0c3f2f6f8e01".

(** What [DurableTurnStore::open] leaves of a new file. *)
Definition sample_db : Db :=
  {| actors := ∅; turns := ∅; outbox := ∅; commit_order := []; order_sequence := None;
     verified := ∅; quarantine := ∅; events := [];
     ledger_migrations := [DATABASE_IDENTITY_MIGRATION];
     identity_rows := [(1%Z, sample_instance)];
     sqlite_master := installed_schema;
     main_file := Ok "/var/lib/zaion/ledger.db" |}.
