(* ===== verification/Ledger.v ===== *)
(** * The event ledger ([crates/zaion-ledger/src/ledger.rs] and the signature
    helpers of [crates/zaion-crypto/src])

    Appending events (random identifier, preassigned identifier, idempotent
    key, atomic batch), the per-principal hash chain and its verification, event
    signatures, and the identity of the database instance.  Clock readings and
    fresh UUIDs are arguments. *)

From stdpp Require Import prelude gmap strings list.
From S2P Require Import Prelude.
From S2P Require Import Json.
From S2P Require Import TurnState.
From S2P Require Import TurnKernel.
From S2P Require Import Env.
From S2P Require Import Schema.
From S2P Require Import Database.
Local Open Scope res_scope.
Local Open Scope Z_scope.

Definition GENESIS_HASH : string :=
  "0000000000000000000000000000000000000000000000000000000000000000".
Definition MAX_IDEMPOTENCY_KEY_BYTES : Z := 256.

Definition ledger_sqlite {A} (r : result SqliteError A) : result LedgerError A :=
  match r with Ok a => Ok a | Err e => Err (LedgerSqlite e) end.

(** [LedgerEvent] *)
Record LedgerEvent : Type := {
  le_event_id : string;
  le_principal_id : string;
  le_namespace_key : string;
  le_run_id : option string;
  le_event_type : string;
  le_payload : Value;
  le_signature : option string;
  le_created_at : string;
  le_parent_event_id : option string
}.

Inductive EventSignatureMode : Type := CanonicalEnvelope | LegacyPayloadOnly.
Inductive EventInsertDisposition : Type := Inserted | Existing.
Inductive ExistingEventPolicy : Type := Reject | MatchAll | MatchIgnoringCreatedAt.

#[export] Instance EventSignatureMode_eq_dec : EqDecision EventSignatureMode.
Proof. solve_decision. Defined.

Record PreparedEvent : Type := {
  pe_event_id : string;
  pe_principal_id : string;
  pe_namespace_key : string;
  pe_run_id : option string;
  pe_event_type : string;
  pe_payload_json : string;
  pe_signature_hex : option string;
  pe_created_at : string;
  pe_parent_event_id : option string
}.

Record ChainVerifyResult : Type := {
  total : nat;
  cv_verified : nat;
  broken_at : option Z
}.

(** The handle: the instance identifier it observed first ([OnceLock]). *)
Record EventLedger : Type := { el_instance_id : option string }.

Section Ledger.
Context `{Env}.

(** ** Keys and signatures ([zaion-crypto]) *)

(** [ZaionKeypair]: the 32 bytes of its signing key. *)
Definition ZaionKeypair : Type := string.

Definition public_key_bytes (keypair : ZaionKeypair) : string := verifying_key keypair.

Definition principal_id (keypair : ZaionKeypair) : string :=
  bs58_encode (sha256 (verifying_key keypair)).

Definition sign (keypair : ZaionKeypair) (message : string) : string :=
  ed25519_sign keypair message.

Inductive CryptoError : Type := InvalidKey | VerificationFailed | DecodeError.

Definition verify_signature (public_key message signature : string)
  : result CryptoError unit :=
  guard? bool_decide (String.length public_key = 32%nat) else InvalidKey in
  guard? ed25519_key_ok public_key else InvalidKey in
  guard? bool_decide (String.length signature = 64%nat) else DecodeError in
  guard? ed25519_verify public_key message signature else VerificationFailed in
  Ok tt.

(** ** Event signatures *)

Definition event_envelope (principal namespace_key : string) (run_id : option string)
    (event_type : string) (payload : Value) (parent_event_id : option string) : Value :=
  VObject [("schema", VString "zaion.event.signature.v2");
           ("principal_id", VString principal);
           ("namespace_key", VString namespace_key);
           ("run_id", opt_string run_id);
           ("event_type", VString event_type);
           ("payload", payload);
           ("parent_event_id", opt_string parent_event_id)].

Definition event_envelope_signing_bytes (principal namespace_key : string)
    (run_id : option string) (event_type : string) (payload : Value)
    (parent_event_id : option string) : string :=
  json_to_string (event_envelope principal namespace_key run_id event_type payload
                    parent_event_id).

Definition sign_event_envelope (keypair : ZaionKeypair)
    (principal namespace_key : string) (run_id : option string) (event_type : string)
    (payload : Value) (parent_event_id : option string) : string :=
  sign keypair (event_envelope_signing_bytes principal namespace_key run_id event_type
                  payload parent_event_id).

Definition verify_event_signature (public_key : string) (event : LedgerEvent)
  : result CryptoError EventSignatureMode :=
  match le_signature event with
  | None => Err VerificationFailed
  | Some signature =>
      let envelope := event_envelope_signing_bytes (le_principal_id event)
        (le_namespace_key event) (le_run_id event) (le_event_type event)
        (le_payload event) (le_parent_event_id event) in
      match verify_signature public_key envelope signature with
      | Ok _ => Ok CanonicalEnvelope
      | Err _ =>
          let? _ := verify_signature public_key (json_to_string (le_payload event))
                      signature in
          Ok LegacyPayloadOnly
      end
  end.

(** ** Rows and the chain hash *)

Definition row_to_event (row : EventRow) : result SqliteError LedgerEvent :=
  let? payload := ok_or (json_from_str (ev_payload_json row)) FromSqlConversionFailure in
  let? signature := transpose_map
    (fun h => ok_or (hex_decode h) FromSqlConversionFailure) (ev_signature_hex row) in
  Ok {| le_event_id := ev_event_id row; le_principal_id := ev_principal_id row;
        le_namespace_key := ev_namespace_key row; le_run_id := ev_run_id row;
        le_event_type := ev_event_type row; le_payload := payload;
        le_signature := signature; le_created_at := ev_created_at row;
        le_parent_event_id := ev_parent_event_id row |}.

(** The text that is hashed, with its six fields separated by bars. *)
Definition event_hash_preimage (event_id principal event_type payload_json
    created_at : string) (seq_num : Z) : string :=
  event_id +:+ "|" +:+ principal +:+ "|" +:+ event_type +:+ "|" +:+ payload_json
    +:+ "|" +:+ created_at +:+ "|" +:+ z_to_string seq_num.

Definition event_hash (event_id principal event_type payload_json created_at : string)
    (seq_num : Z) : string :=
  hex_encode (sha256 (event_hash_preimage event_id principal event_type payload_json
                        created_at seq_num)).

(** [event_hash] of a stored row. *)
Definition row_hash (e : EventRow) : string :=
  event_hash (ev_event_id e) (ev_principal_id e) (ev_event_type e)
    (ev_payload_json e) (ev_created_at e) (ev_seq_num e).

(** [SELECT ... FROM events WHERE principal_id = ?1 ORDER BY seq_num ASC] *)
Definition principal_events (db : Db) (principal : string) : list EventRow :=
  order_by_key ev_seq_num (filter (fun e => ev_principal_id e = principal) (events db)).

(** [... ORDER BY seq_num DESC LIMIT 1] is the last of them. *)
Definition next_chain_position (db : Db) (principal : string)
  : result LedgerError (Z * string) :=
  match last (principal_events db principal) with
  | None => Ok (0, GENESIS_HASH)
  | Some e =>
      let? next_seq := ok_or (i64_checked_add (ev_seq_num e) 1)
                         (CorruptChain "event sequence exhausted i64") in
      Ok (next_seq,
          event_hash (ev_event_id e) principal (ev_event_type e) (ev_payload_json e)
            (ev_created_at e) (ev_seq_num e))
  end.

(** ** Appending *)

(** [StoredEventIdentity::matches] *)
Definition stored_matches (e : EventRow) (event : PreparedEvent)
    (include_created_at : bool) : bool :=
  bool_decide (ev_principal_id e = pe_principal_id event)
  && bool_decide (ev_namespace_key e = pe_namespace_key event)
  && bool_decide (ev_run_id e = pe_run_id event)
  && bool_decide (ev_event_type e = pe_event_type event)
  && bool_decide (ev_payload_json e = pe_payload_json event)
  && bool_decide (ev_signature_hex e = pe_signature_hex event)
  && (negb include_created_at || bool_decide (ev_created_at e = pe_created_at event))
  && bool_decide (ev_parent_event_id e = pe_parent_event_id event).

(** [... FROM events WHERE event_id = ?1] *)
Definition find_event (db : Db) (event_id : string) : option EventRow :=
  head (filter (fun e => ev_event_id e = event_id) (events db)).

Definition prepared_row (event : PreparedEvent) (seq_num : Z) (prev_hash : string)
  : EventRow :=
  {| ev_event_id := pe_event_id event; ev_principal_id := pe_principal_id event;
     ev_namespace_key := pe_namespace_key event; ev_run_id := pe_run_id event;
     ev_event_type := pe_event_type event; ev_payload_json := pe_payload_json event;
     ev_signature_hex := pe_signature_hex event; ev_created_at := pe_created_at event;
     ev_parent_event_id := pe_parent_event_id event;
     ev_seq_num := seq_num; ev_prev_hash := prev_hash |}.

(** [append_prepared_event_in_transaction]; the boolean says whether a row was
    inserted.  [append_prepared_event] is the same in a transaction of its own. *)
Definition append_prepared_event (db : Db) (event : PreparedEvent)
    (existing_policy : ExistingEventPolicy) : result LedgerError (bool * Db) :=
  match find_event db (pe_event_id event) with
  | Some existing =>
      let equivalent :=
        match existing_policy with
        | Reject => false
        | MatchAll => stored_matches existing event true
        | MatchIgnoringCreatedAt => stored_matches existing event false
        end in
      guard? equivalent else EventIdConflict (pe_event_id event) in
      Ok (false, db)
  | None =>
      let? (seq_num, prev_hash) := next_chain_position db (pe_principal_id event) in
      let? db' := ledger_sqlite (insert_event db (prepared_row event seq_num prev_hash)) in
      Ok (true, db')
  end.

(** ** Database identity *)

Definition read_database_instance_id (db : Db) : result LedgerError string :=
  match identity_rows db with
  | [(singleton, instance_id)] =>
      guard? bool_decide (singleton = 1)
        else InvalidDatabaseInstanceIdentity "database identity singleton key is invalid" in
      let? printed := ok_or (uuid_reprint instance_id)
        (InvalidDatabaseInstanceIdentity "database identity is not a canonical UUID") in
      guard? bool_decide (printed = instance_id)
        else InvalidDatabaseInstanceIdentity "database identity is not a canonical UUID" in
      Ok instance_id
  | _ => Err (InvalidDatabaseInstanceIdentity
                "database identity table must contain exactly one row")
  end.

Definition validated_database_instance_id (db : Db) : result LedgerError string :=
  guard? bool_decide (DATABASE_IDENTITY_MIGRATION ∈ ledger_migrations db)
    else InvalidDatabaseInstanceIdentity "database identity migration marker is missing" in
  let? _ := match validate_identity_schema (sqlite_master db) with
            | Ok _ => Ok tt
            | Err reason => Err (InvalidDatabaseInstanceIdentity reason)
            end in
  read_database_instance_id db.

(** [EventLedger::with_conn] on a connection that is open and whose schema is
    ensured: the live identity is compared with the one observed first. *)
Definition with_conn {A} (self : EventLedger) (db : Db) (f : result LedgerError A)
  : result LedgerError A :=
  let? live := read_database_instance_id db in
  match el_instance_id self with
  | Some expected =>
      guard? bool_decide (expected = live)
        else DatabaseInstanceIdentityDrift expected live in f
  | None => f
  end.

(** [EventLedger::database_instance_id] *)
Definition database_instance_id (self : EventLedger) (db : Db) : result LedgerError string :=
  with_conn self db
    (let? live := read_database_instance_id db in
     Ok (default live (el_instance_id self))).

(** ** The appending operations *)

(** [append_event_with_parent]: [fresh_id] is the new [evt-<uuid>]. *)
Definition append_event_with_parent (self : EventLedger) (db : Db)
    (fresh_id created_at principal namespace_key event_type : string) (payload : Value)
    (run_id signature parent_event_id : option string)
  : result LedgerError (string * Db) :=
  with_conn self db
    (let? (_, db') := append_prepared_event db
       {| pe_event_id := fresh_id; pe_principal_id := principal;
          pe_namespace_key := namespace_key; pe_run_id := run_id;
          pe_event_type := event_type; pe_payload_json := json_to_string payload;
          pe_signature_hex := hex_encode <$> signature; pe_created_at := created_at;
          pe_parent_event_id := parent_event_id |} Reject in
     Ok (fresh_id, db')).

Definition append_event (self : EventLedger) (db : Db)
    (fresh_id created_at principal namespace_key event_type : string) (payload : Value)
    (run_id signature : option string) : result LedgerError (string * Db) :=
  append_event_with_parent self db fresh_id created_at principal namespace_key
    event_type payload run_id signature None.

Definition append_signed_event_with_parent (self : EventLedger) (db : Db)
    (fresh_id created_at : string) (keypair : ZaionKeypair)
    (namespace_key event_type : string) (payload : Value)
    (run_id parent_event_id : option string) : result LedgerError (string * Db) :=
  let principal := principal_id keypair in
  let sig := sign_event_envelope keypair principal namespace_key run_id event_type
               payload parent_event_id in
  append_event_with_parent self db fresh_id created_at principal namespace_key
    event_type payload run_id (Some sig) parent_event_id.

Definition ledger_idempotency_key_ok (idempotency_key : string) : bool :=
  bool_decide (8 <= str_len idempotency_key <= MAX_IDEMPOTENCY_KEY_BYTES)
  && bool_decide (str_trim idempotency_key = idempotency_key)
  && str_all (fun b => is_ascii_alphanumeric b || byte_in "._:-@" b) idempotency_key.

Definition ledger_validate_idempotency_key (idempotency_key : string)
  : result LedgerError unit :=
  if ledger_idempotency_key_ok idempotency_key then Ok tt
  else Err LedgerInvalidIdempotencyKey.

Definition deterministic_idempotent_event_id (principal idempotency_key : string)
  : string :=
  "evt-idem-" +:+ str_prefix 40 (hash_parts [principal; idempotency_key]).

Definition append_signed_idempotent_event_with_parent (self : EventLedger) (db : Db)
    (created_at : string) (keypair : ZaionKeypair) (namespace_key event_type : string)
    (payload : Value) (run_id parent_event_id : option string)
    (idempotency_key : string) : result LedgerError (string * Db) :=
  let? _ := ledger_validate_idempotency_key idempotency_key in
  let principal := principal_id keypair in
  let event_id := deterministic_idempotent_event_id principal idempotency_key in
  let signature := sign_event_envelope keypair principal namespace_key run_id
                     event_type payload parent_event_id in
  with_conn self db
    (let? (_, db') := append_prepared_event db
       {| pe_event_id := event_id; pe_principal_id := principal;
          pe_namespace_key := namespace_key; pe_run_id := run_id;
          pe_event_type := event_type; pe_payload_json := json_to_string payload;
          pe_signature_hex := Some (hex_encode signature); pe_created_at := created_at;
          pe_parent_event_id := parent_event_id |} MatchIgnoringCreatedAt in
     Ok (event_id, db')).

Definition append_signed_idempotent_event (self : EventLedger) (db : Db)
    (created_at : string) (keypair : ZaionKeypair) (namespace_key event_type : string)
    (payload : Value) (run_id : option string) (idempotency_key : string)
  : result LedgerError (string * Db) :=
  append_signed_idempotent_event_with_parent self db created_at keypair namespace_key
    event_type payload run_id None idempotency_key.

Definition event_prepared (event : LedgerEvent) : PreparedEvent :=
  {| pe_event_id := le_event_id event; pe_principal_id := le_principal_id event;
     pe_namespace_key := le_namespace_key event; pe_run_id := le_run_id event;
     pe_event_type := le_event_type event;
     pe_payload_json := json_to_string (le_payload event);
     pe_signature_hex := hex_encode <$> le_signature event;
     pe_created_at := le_created_at event;
     pe_parent_event_id := le_parent_event_id event |}.

Definition disposition (inserted : bool) : EventInsertDisposition :=
  if inserted then Inserted else Existing.

(** [insert_event_with_id_and_parent_disposition], with its arguments as the
    event they describe. *)
Definition insert_event_with_id (self : EventLedger) (db : Db) (event : LedgerEvent)
  : result LedgerError (EventInsertDisposition * Db) :=
  with_conn self db
    (let? (inserted, db') := append_prepared_event db (event_prepared event) MatchAll in
     Ok (disposition inserted, db')).

(** The loop of [insert_events_with_ids_atomic] in its transaction. *)
Fixpoint insert_events_loop (db : Db) (dispositions : list EventInsertDisposition)
    (evs : list LedgerEvent) : result LedgerError (list EventInsertDisposition * Db) :=
  match evs with
  | [] => Ok (dispositions, db)
  | event :: evs' =>
      let? (inserted, db') := append_prepared_event db (event_prepared event) MatchAll in
      insert_events_loop db' (dispositions ++ [disposition inserted]) evs'
  end.

Definition insert_events_with_ids_atomic (self : EventLedger) (db : Db)
    (evs : list LedgerEvent) : result LedgerError (list EventInsertDisposition * Db) :=
  with_conn self db (insert_events_loop db [] evs).

(** ** Verification *)

(** The loop of [verify_chain]: verified so far, expected hash and sequence. *)
Fixpoint verify_loop (principal : string) (n : nat) (verified_ : nat)
    (expected_prev : string) (expected_seq : Z) (rows : list EventRow)
  : result LedgerError ChainVerifyResult :=
  match rows with
  | [] => Ok {| total := n; cv_verified := verified_; broken_at := None |}
  | e :: rows' =>
      if negb (bool_decide (ev_seq_num e = expected_seq))
         || negb (bool_decide (ev_prev_hash e = expected_prev))
      then Ok {| total := n; cv_verified := verified_; broken_at := Some (ev_seq_num e) |}
      else
        let? next := ok_or (i64_checked_add expected_seq 1)
                       (CorruptChain "event sequence exhausted i64") in
        verify_loop principal n (S verified_)
          (event_hash (ev_event_id e) principal (ev_event_type e) (ev_payload_json e)
             (ev_created_at e) (ev_seq_num e)) next rows'
  end.

Definition verify_chain (self : EventLedger) (db : Db) (principal : string)
  : result LedgerError ChainVerifyResult :=
  with_conn self db
    (let rows := principal_events db principal in
     verify_loop principal (length rows) 0 GENESIS_HASH 0 rows).

(** [get_event_from_connection], [EventLedger::get_event] *)
Definition get_event_from_connection (db : Db) (event_id : string)
  : result LedgerError (option LedgerEvent) :=
  transpose_map (fun e => ledger_sqlite (row_to_event e)) (find_event db event_id).

Definition get_event (self : EventLedger) (db : Db) (event_id : string)
  : result LedgerError (option LedgerEvent) :=
  with_conn self db (get_event_from_connection db event_id).

Definition event_id_exists (self : EventLedger) (db : Db) (event_id : string)
  : result LedgerError bool :=
  with_conn self db
    (Ok (bool_decide (0 < length (filter (fun e => ev_event_id e = event_id)
                                    (events db)))%nat)).

End Ledger.
