(* ===== verification/LedgerChain.v ===== *)
(** * The ledger's chain: well-formedness, appends, verification

    [ledger_wf] says every principal's events form a chain from the genesis hash
    and event identifiers are unique.  Every append keeps it, [verify_chain]
    decides it, retries are no-ops, a batch is all or nothing; and, because the
    hash of an event does not cover its own [prev_hash], what [verify_chain] can
    and cannot detect. *)

From stdpp Require Import prelude gmap strings list sorting.
From S2P Require Import Prelude.
From S2P Require Import Json.
From S2P Require Import TurnState.
From S2P Require Import TurnKernel.
From S2P Require Import Env.
From S2P Require Import Concrete.
From S2P Require Import Schema.
From S2P Require Import Database.
From S2P Require Import Samples.
From S2P Require Import Ledger.
Local Open Scope res_scope.
Local Open Scope Z_scope.

Section Chain.
Context `{Env}.

(** The rows of one principal, in order: consecutive sequence numbers from
    [seq], each with the hash of its predecessor. *)
Fixpoint chain_from (prev : string) (seq : Z) (rows : list EventRow) : Prop :=
  match rows with
  | [] => True
  | e :: rows' =>
      ev_seq_num e = seq /\ ev_prev_hash e = prev /\
      chain_from (row_hash e) (seq + 1) rows'
  end.

Definition of_principal (p : string) (evs : list EventRow) : list EventRow :=
  filter (fun e => ev_principal_id e = p) evs.

Record ledger_wf (db : Db) : Prop := {
  wf_chain p : chain_from GENESIS_HASH 0 (of_principal p (events db));
  wf_ids : NoDup (map ev_event_id (events db));
  wf_seq : Forall (fun e => ev_seq_num e <= i64_max) (events db)
}.

(** ** Lemmas on chains *)

Lemma chain_from_sorted prev seq rows :
  chain_from prev seq rows ->
  StronglySorted (fun x y => ev_seq_num x <= ev_seq_num y) rows /\
  Forall (fun e => seq <= ev_seq_num e) rows.
Proof.
  revert prev seq; induction rows as [|e rows IH]; intros prev seq Hc.
  { repeat constructor. }
  destruct Hc as (Hs & _ & Hc). apply IH in Hc as [Hsort Hall]. split.
  - constructor; [done|]. eapply Forall_impl; [exact Hall|]. simpl; lia.
  - constructor; [lia|]. eapply Forall_impl; [exact Hall|]. simpl; lia.
Qed.

Lemma chain_principal_events db p :
  chain_from GENESIS_HASH 0 (of_principal p (events db)) ->
  principal_events db p = of_principal p (events db).
Proof. intros Hc. apply order_by_key_id, (chain_from_sorted _ _ _ Hc). Qed.

(** The expected link after a list of rows. *)
Fixpoint chain_end (prev : string) (seq : Z) (rows : list EventRow) : string * Z :=
  match rows with
  | [] => (prev, seq)
  | e :: rows' => chain_end (row_hash e) (seq + 1) rows'
  end.

Lemma chain_from_app prev seq l1 l2 :
  chain_from prev seq (l1 ++ l2) <->
  chain_from prev seq l1 /\
  chain_from (chain_end prev seq l1).1 (chain_end prev seq l1).2 l2.
Proof.
  revert prev seq; induction l1 as [|e l1 IH]; intros; simpl; [naive_solver|].
  rewrite IH. naive_solver.
Qed.

Lemma chain_end_seq prev seq l : (chain_end prev seq l).2 = seq + Z.of_nat (length l).
Proof.
  revert prev seq; induction l as [|e l IH]; intros; simpl; [lia|].
  rewrite IH. lia.
Qed.

Lemma chain_end_last prev seq l e :
  last l = Some e -> (chain_end prev seq l).1 = row_hash e.
Proof.
  revert prev seq; induction l as [|x l IH]; intros prev seq Hl; [done|].
  destruct l as [|y l]; [by simplify_eq/=|].
  simpl. apply (IH (row_hash x) (seq + 1)). done.
Qed.

Lemma chain_last_seq prev seq l e :
  chain_from prev seq l -> last l = Some e ->
  ev_seq_num e = seq + Z.of_nat (length l) - 1.
Proof.
  revert prev seq; induction l as [|x l IH]; intros prev seq Hc Hl; [done|].
  destruct Hc as (Hs & _ & Hc). destruct l as [|y l].
  - simplify_eq/=. lia.
  - rewrite (IH _ _ Hc Hl). simpl. lia.
Qed.

Lemma chain_bounds prev seq l :
  chain_from prev seq l ->
  Forall (fun e => ev_seq_num e < seq + Z.of_nat (length l)) l.
Proof.
  revert prev seq; induction l as [|x l IH]; intros prev seq Hc; [constructor|].
  destruct Hc as (Hs & _ & Hc). constructor; [simpl; lia|].
  eapply Forall_impl; [apply (IH _ _ Hc)|]. simpl. lia.
Qed.

Lemma row_hash_principal p e :
  ev_principal_id e = p ->
  event_hash (ev_event_id e) p (ev_event_type e) (ev_payload_json e)
    (ev_created_at e) (ev_seq_num e) = row_hash e.
Proof. by intros <-. Qed.

Lemma next_chain_position_end db p seq prev :
  chain_from GENESIS_HASH 0 (principal_events db p) ->
  next_chain_position db p = Ok (seq, prev) ->
  (prev, seq) = chain_end GENESIS_HASH 0 (principal_events db p) /\
  (seq = 0 \/ seq <= i64_max).
Proof.
  intros Hc. unfold next_chain_position.
  destruct (last (principal_events db p)) as [e|] eqn:El.
  - assert (Hp : ev_principal_id e = p).
    { apply last_Some_elem_of in El. apply elem_of_order_by, list_elem_of_filter in El.
      tauto. }
    unfold i64_checked_add. destruct (in_i64 (ev_seq_num e + 1)) eqn:Ei; [|done].
    simpl. intros [= <- <-]. unfold in_i64 in Ei. bool_props.
    split; [|lia]. rewrite (row_hash_principal _ _ Hp).
    rewrite (surjective_pairing (chain_end _ _ _)).
    rewrite (chain_end_last _ _ _ _ El), chain_end_seq,
      (chain_last_seq _ _ _ _ Hc El).
    f_equal; lia.
  - apply last_None in El. rewrite El. simpl. intros [= <- <-]. auto.
Qed.

Lemma next_chain_position_ok db p seq prev :
  chain_from GENESIS_HASH 0 (of_principal p (events db)) ->
  next_chain_position db p = Ok (seq, prev) ->
  (prev, seq) = chain_end GENESIS_HASH 0 (of_principal p (events db)) /\
  (seq = 0 \/ seq <= i64_max).
Proof.
  intros Hc. rewrite <- (chain_principal_events _ _ Hc) in Hc |- *.
  by apply next_chain_position_end.
Qed.

Lemma find_event_None db id :
  find_event db id = None <-> Forall (fun e => ev_event_id e <> id) (events db).
Proof.
  unfold find_event. rewrite Forall_forall.
  destruct (filter (fun e => ev_event_id e = id) (events db)) as [|e l] eqn:Ef; simpl.
  - split; [|done]. intros _ e He Hid.
    assert (Hin : e ∈ filter (fun e => ev_event_id e = id) (events db)).
    { apply list_elem_of_filter. auto. }
    rewrite Ef in Hin. set_solver.
  - split; [done|]. intros Hall. exfalso.
    assert (Hin : e ∈ filter (fun e => ev_event_id e = id) (events db)).
    { rewrite Ef. set_solver. }
    apply list_elem_of_filter in Hin as [Hid Hin]. by apply (Hall e).
Qed.

Lemma find_event_Some db id e :
  find_event db id = Some e -> e ∈ events db /\ ev_event_id e = id.
Proof.
  unfold find_event. intros Hh.
  assert (Hin : e ∈ filter (fun e => ev_event_id e = id) (events db)).
  { destruct (filter _ _); simplify_eq/=. set_solver. }
  apply list_elem_of_filter in Hin. tauto.
Qed.

(** What an inserting append does. *)
Lemma append_inserted db ev pol db' :
  append_prepared_event db ev pol = Ok (true, db') ->
  exists seq prev,
    find_event db (pe_event_id ev) = None /\
    next_chain_position db (pe_principal_id ev) = Ok (seq, prev) /\
    db' = with_events db (events db ++ [prepared_row ev seq prev]).
Proof.
  unfold append_prepared_event. intros Ha.
  destruct (find_event db (pe_event_id ev)) as [e|]; [by ok_inv Ha|].
  destruct (next_chain_position db (pe_principal_id ev)) as [[seq prev]|]; [|done].
  unfold insert_event, ledger_sqlite in Ha.
  destruct (_ && _); simplify_eq. eauto.
Qed.

Lemma append_existing db ev pol db' :
  append_prepared_event db ev pol = Ok (false, db') ->
  db' = db /\ exists e, find_event db (pe_event_id ev) = Some e /\
  stored_matches e ev (match pol with MatchAll => true | _ => false end) = true /\
  pol <> Reject.
Proof.
  unfold append_prepared_event. intros Ha.
  destruct (find_event db (pe_event_id ev)) as [e|].
  - destruct pol; simpl in Ha; ok_inv Ha; simplify_eq; eauto.
  - destruct (next_chain_position db (pe_principal_id ev)) as [[seq prev]|]; [|done].
    destruct (ledger_sqlite _); simplify_eq.
Qed.

Lemma append_wf db ev pol ins db' :
  ledger_wf db -> append_prepared_event db ev pol = Ok (ins, db') -> ledger_wf db'.
Proof.
  intros [Hc Hi Hs] Ha. destruct ins.
  - apply append_inserted in Ha as (seq & prev & Hf & Hn & ->).
    apply next_chain_position_ok in Hn as [He Hle]; [|apply Hc].
    split; simpl.
    + intros p. unfold of_principal. rewrite filter_app.
      destruct (decide (pe_principal_id ev = p)) as [<-|Hne].
      * rewrite filter_cons_True, filter_nil by done. apply chain_from_app.
        split; [apply Hc|]. unfold of_principal in He. rewrite <- He. simpl. auto.
      * rewrite filter_cons_False, filter_nil, app_nil_r by done. apply Hc.
    + rewrite map_app. apply NoDup_app. split; [done|]. split.
      * intros x Hx Hx'. simpl in Hx'. apply list_elem_of_singleton in Hx' as ->.
        apply find_event_None in Hf. rewrite Forall_forall in Hf.
        apply list_elem_of_fmap in Hx as (e & Hid & Hin). by apply (Hf e).
      * apply NoDup_singleton.
    + apply Forall_app. split; [done|]. constructor; [|done]. simpl.
      unfold i64_max in *. lia.
  - apply append_existing in Ha as [-> _]. by split.
Qed.

(** A fresh event of a well formed ledger is inserted. *)
Lemma append_fresh db ev pol :
  ledger_wf db -> find_event db (pe_event_id ev) = None ->
  Z.of_nat (length (of_principal (pe_principal_id ev) (events db))) <= i64_max ->
  exists db', append_prepared_event db ev pol = Ok (true, db').
Proof.
  intros Hwf Hf Hlen. unfold append_prepared_event. rewrite Hf.
  set (p := pe_principal_id ev). pose proof (wf_chain _ Hwf p) as Hc.
  fold p in Hlen.
  assert (exists seq prev, next_chain_position db p = Ok (seq, prev) /\
            (forall e, e ∈ of_principal p (events db) -> ev_seq_num e < seq))
    as (seq & prev & Hn & Hlt).
  { unfold next_chain_position. rewrite chain_principal_events by done.
    destruct (last (of_principal p (events db))) as [e|] eqn:El.
    - pose proof (chain_last_seq _ _ _ _ Hc El) as Hs.
      assert (Hne : (0 < length (of_principal p (events db)))%nat)
        by (destruct (of_principal p (events db)); [done|simpl; lia]).
      unfold i64_checked_add, in_i64. rewrite bool_decide_eq_true_2
        by (unfold i64_min, i64_max in *; lia).
      simpl. do 2 eexists. split; [done|]. intros x Hx.
      pose proof (chain_bounds _ _ _ Hc) as Hb. rewrite Forall_forall in Hb.
      specialize (Hb x Hx). lia.
    - apply last_None in El. rewrite El. do 2 eexists. split; [done|]. set_solver. }
  fold p. rewrite Hn. unfold insert_event. simpl.
  rewrite (bool_decide_eq_true_2 (Forall _ _)) by (by apply find_event_None in Hf).
  rewrite bool_decide_eq_true_2; [simpl; eauto|].
  apply Forall_forall. intros e He [Hpe Hse].
  assert (Hin : e ∈ of_principal p (events db)) by (apply list_elem_of_filter; auto).
  specialize (Hlt e Hin). lia.
Qed.

(** ** Verification decides the chain *)

(** What a run of [verify_loop] over [rows] reports: the longest intact prefix. *)
Definition loop_report (prev : string) (seq : Z) (v : nat) (rows : list EventRow)
    (r : ChainVerifyResult) : Prop :=
  exists k, cv_verified r = (v + k)%nat /\ (k <= length rows)%nat /\
    chain_from prev seq (take k rows) /\
    match broken_at r with
    | None => k = length rows
    | Some s => exists e, rows !! k = Some e /\ ev_seq_num e = s /\
                ~ chain_from prev seq (take (S k) rows)
    end.

Lemma verify_loop_spec p n v prev seq rows :
  Forall (fun e => ev_principal_id e = p) rows -> 0 <= seq <= i64_max ->
  match verify_loop p n v prev seq rows with
  | Ok r => total r = n /\ loop_report prev seq v rows r
  | Err _ => i64_max < seq + Z.of_nat (length rows)
  end.
Proof.
  intros Hp; revert v prev seq; induction Hp as [|e rows Hpe _ IH];
    intros v prev seq Hseq; simpl.
  { split; [done|]. exists 0%nat. simpl. repeat split; lia. }
  destruct (negb (bool_decide (ev_seq_num e = seq))
            || negb (bool_decide (ev_prev_hash e = prev))) eqn:Eb.
  { split; [done|]. exists 0%nat. simpl. split; [lia|]. split; [lia|].
    split; [done|]. exists e. split; [done|]. split; [done|].
    intros (Hs & Hh & _). rewrite !bool_decide_eq_true_2 in Eb by done. done. }
  bool_props. unfold i64_checked_add.
  destruct (in_i64 (seq + 1)) eqn:Ei; unfold in_i64, i64_min in Ei; bool_props; simpl;
    [|lia].
  specialize (IH (S v) (row_hash e) (seq + 1) ltac:(lia)).
  rewrite (row_hash_principal _ _ Hpe).
  destruct (verify_loop p n (S v) (row_hash e) (seq + 1) rows) as [r|]; [|lia].
  destruct IH as [Ht (k & Hv & Hk & Hc & Hb)]. split; [done|].
  exists (S k). split; [lia|]. split; [simpl; lia|]. split; [done|].
  destruct (broken_at r); [|by rewrite Hb].
  destruct Hb as (f & Hf & Hfs & Hnot). exists f. split; [done|]. split; [done|].
  intros (_ & _ & Hrest). by apply Hnot.
Qed.

(** The handle [self] accepts the database: [with_conn] goes through. *)
Definition handle_ok (self : EventLedger) (db : Db) : Prop :=
  exists id, read_database_instance_id db = Ok id /\
             (el_instance_id self = None \/ el_instance_id self = Some id).

Lemma validated_read db id :
  validated_database_instance_id db = Ok id -> read_database_instance_id db = Ok id.
Proof.
  unfold validated_database_instance_id. intros Hv.
  destruct (bool_decide _); [|done].
  destruct (validate_identity_schema (sqlite_master db)); done.
Qed.

Lemma with_conn_ok {A} self db (f : result LedgerError A) :
  handle_ok self db -> with_conn self db f = f.
Proof.
  intros (id & Hr & Hi). unfold with_conn. rewrite Hr.
  destruct Hi as [-> | ->]; [done|]. by rewrite bool_decide_eq_true_2.
Qed.

Lemma with_conn_inv {A} self db (f : result LedgerError A) a :
  with_conn self db f = Ok a -> f = Ok a /\ handle_ok self db.
Proof.
  unfold with_conn, handle_ok. intros Hw.
  destruct (read_database_instance_id db) as [id|]; [|done].
  destruct (el_instance_id self) as [x|]; [|eauto].
  destruct (bool_decide (x = id)) eqn:E; [|done]. bool_props. subst. eauto.
Qed.

Lemma principal_events_of db p :
  Forall (fun e => ev_principal_id e = p) (principal_events db p).
Proof.
  unfold principal_events, order_by_key. rewrite order_by_perm, Forall_forall.
  intros e He. apply list_elem_of_filter in He. tauto.
Qed.

(**  [verify_chain] reports exactly the longest intact prefix of a
    principal's events: the rows it counts as verified form a chain from the
    genesis hash, it reports no break only if all of them do, and a reported
    break is at the first row that does not continue the chain.  It fails only
    on more events than an [i64] can number. *)
Theorem verify_chain_spec self db p :
  handle_ok self db ->
  match verify_chain self db p with
  | Ok r => total r = length (principal_events db p) /\
            loop_report GENESIS_HASH 0 0 (principal_events db p) r
  | Err _ => i64_max < Z.of_nat (length (principal_events db p))
  end.
Proof.
  intros Hh. unfold verify_chain. rewrite with_conn_ok by done.
  pose proof (verify_loop_spec p (length (principal_events db p)) 0 GENESIS_HASH 0
    (principal_events db p) (principal_events_of db p)
    ltac:(unfold i64_max; lia)) as Hl.
  destruct (verify_loop _ _ _ _ _ _); [done|lia].
Qed.

(** Every append keeps the ledger well formed: on a database whose
    principals' events form intact chains with unique identifiers, an append
    either finds an equal event and changes nothing, or adds one row at the end
    of its principal's chain and touches no other row. *)
Theorem append_keeps_chain db ev pol ins db' :
  ledger_wf db -> append_prepared_event db ev pol = Ok (ins, db') ->
  ledger_wf db' /\
  (if ins
   then exists row, events db' = events db ++ [row] /\
          ev_event_id row = pe_event_id ev /\
          ev_seq_num row =
            Z.of_nat (length (of_principal (pe_principal_id ev) (events db)))
   else db' = db).
Proof.
  intros Hwf Ha. split; [by eapply append_wf|]. destruct ins.
  - apply append_inserted in Ha as (seq & prev & _ & Hn & ->). simpl.
    eexists; split; [done|]. split; [done|]. simpl.
    apply next_chain_position_ok in Hn as [He _]; [|apply Hwf].
    apply (f_equal snd) in He. rewrite chain_end_seq in He. simpl in He. lia.
  - by apply append_existing in Ha as [-> _].
Qed.

(** ** Retries *)

(** An event is stored: a later exact insertion finds it. *)
Definition stored (db : Db) (ev : PreparedEvent) : Prop :=
  exists e, find_event db (pe_event_id ev) = Some e /\ stored_matches e ev true = true.

Lemma find_event_app db row id e :
  find_event db id = Some e ->
  find_event (with_events db (events db ++ [row])) id = Some e.
Proof.
  unfold find_event. simpl. rewrite filter_app. destruct (filter _ (events db)); done.
Qed.

Lemma stored_matches_refl ev seq prev :
  stored_matches (prepared_row ev seq prev) ev true = true.
Proof. unfold stored_matches. simpl. by rewrite !bool_decide_eq_true_2. Qed.

Lemma find_event_new db ev seq prev :
  find_event db (pe_event_id ev) = None ->
  find_event (with_events db (events db ++ [prepared_row ev seq prev]))
    (pe_event_id ev) = Some (prepared_row ev seq prev).
Proof.
  unfold find_event. simpl. rewrite filter_app. intros Hn.
  destruct (filter _ (events db)); [|done].
  by rewrite filter_cons_True.
Qed.

Lemma stored_mono db ev ev' pol ins db' :
  stored db ev -> append_prepared_event db ev' pol = Ok (ins, db') -> stored db' ev.
Proof.
  intros (e & Hf & Hm) Ha. destruct ins.
  - apply append_inserted in Ha as (seq & prev & _ & _ & ->).
    exists e. split; [by apply find_event_app|done].
  - by apply append_existing in Ha as [-> _]; exists e.
Qed.

Lemma append_stores db ev ins db' :
  append_prepared_event db ev MatchAll = Ok (ins, db') -> stored db' ev.
Proof.
  intros Ha. destruct ins.
  - apply append_inserted in Ha as (seq & prev & Hn & _ & ->).
    eexists. split; [by apply find_event_new|apply stored_matches_refl].
  - apply append_existing in Ha as (-> & e & Hf & Hm & _). by exists e.
Qed.

Lemma stored_append db ev :
  stored db ev -> append_prepared_event db ev MatchAll = Ok (false, db).
Proof.
  intros (e & Hf & Hm). unfold append_prepared_event. by rewrite Hf, Hm.
Qed.

Lemma insert_loop_mono db ds evs out db' ev :
  stored db ev -> insert_events_loop db ds evs = Ok (out, db') -> stored db' ev.
Proof.
  revert db ds; induction evs as [|e evs IH]; intros db ds Hs Hl; simpl in Hl.
  { by simplify_eq. }
  destruct (append_prepared_event db (event_prepared e) MatchAll) as [[ins db1]|] eqn:Ea;
    [|done].
  eapply IH; [|exact Hl]. by eapply stored_mono.
Qed.

Lemma insert_loop_stored db ds evs out db' :
  insert_events_loop db ds evs = Ok (out, db') ->
  Forall (fun e => stored db' (event_prepared e)) evs /\
  length out = (length ds + length evs)%nat /\
  (ledger_wf db -> ledger_wf db').
Proof.
  revert db ds; induction evs as [|e evs IH]; intros db ds Hl; simpl in Hl.
  { simplify_eq. split; [constructor|]. simpl. split; [lia|done]. }
  destruct (append_prepared_event db (event_prepared e) MatchAll) as [[ins db1]|] eqn:Ea;
    [|done].
  destruct (IH _ _ Hl) as (Hs & Hlen & Hw). split; [|split].
  - constructor; [|done].
    eapply insert_loop_mono; [by eapply append_stores|exact Hl].
  - rewrite Hlen, length_app. simpl. lia.
  - intros Hwf. apply Hw. by eapply append_wf.
Qed.

Lemma insert_loop_again db ds evs :
  Forall (fun e => stored db (event_prepared e)) evs ->
  insert_events_loop db ds evs = Ok (ds ++ replicate (length evs) Existing, db).
Proof.
  intros Hs; revert ds; induction Hs as [|e evs He _ IH]; intros ds; simpl.
  { by rewrite app_nil_r. }
  rewrite (stored_append _ _ He), IH. simpl. by rewrite <- app_assoc.
Qed.

(** An atomic batch import reports one disposition per event, keeps the
    ledger well formed, and is idempotent: importing the same batch again
    reports every event as existing and leaves the database as it is. *)
Theorem batch_import_idempotent self db evs out db' :
  ledger_wf db -> insert_events_with_ids_atomic self db evs = Ok (out, db') ->
  ledger_wf db' /\ length out = length evs /\
  (handle_ok self db' ->
   insert_events_with_ids_atomic self db' evs
   = Ok (replicate (length evs) Existing, db')).
Proof.
  intros Hwf Hi. apply with_conn_inv in Hi as [Hi _].
  destruct (insert_loop_stored _ _ _ _ _ Hi) as (Hs & Hlen & Hw).
  split; [by apply Hw|]. split; [done|].
  intros Hh. unfold insert_events_with_ids_atomic. rewrite with_conn_ok by done.
  by apply insert_loop_again.
Qed.

(** Two events agree on all immutable content: everything but the identifier
    and the creation time. *)
Definition same_content (ev ev' : PreparedEvent) : bool :=
  bool_decide (pe_principal_id ev = pe_principal_id ev')
  && bool_decide (pe_namespace_key ev = pe_namespace_key ev')
  && bool_decide (pe_run_id ev = pe_run_id ev')
  && bool_decide (pe_event_type ev = pe_event_type ev')
  && bool_decide (pe_payload_json ev = pe_payload_json ev')
  && bool_decide (pe_signature_hex ev = pe_signature_hex ev')
  && bool_decide (pe_parent_event_id ev = pe_parent_event_id ev').

Lemma stored_matches_same e ev ev' :
  stored_matches e ev false = true ->
  stored_matches e ev' false = same_content ev ev'.
Proof.
  unfold stored_matches, same_content. simpl. intros Hm. bool_props.
  rewrite andb_true_r.
  repeat match goal with He : _ e = _ |- _ => rewrite He; clear He end. done.
Qed.

Lemma append_retry db ev ins db' ev' :
  append_prepared_event db ev MatchIgnoringCreatedAt = Ok (ins, db') ->
  pe_event_id ev' = pe_event_id ev ->
  append_prepared_event db' ev' MatchIgnoringCreatedAt
  = (if same_content ev ev' then Ok (false, db')
     else Err (EventIdConflict (pe_event_id ev'))).
Proof.
  intros Ha Hid.
  assert (exists e, find_event db' (pe_event_id ev) = Some e /\
                    stored_matches e ev false = true) as (e & Hf & Hm).
  { destruct ins.
    - apply append_inserted in Ha as (seq & prev & Hn & _ & ->).
      eexists. split; [by apply find_event_new|].
      unfold stored_matches. simpl. by rewrite !bool_decide_eq_true_2.
    - apply append_existing in Ha as (-> & e & Hf & Hm & _). eauto. }
  unfold append_prepared_event. rewrite Hid, Hf.
  by rewrite (stored_matches_same _ _ _ Hm).
Qed.

(** The caller-owned idempotency key: once an event was appended under a
    key, a second append under the same key and principal returns the same
    event identifier and changes nothing if namespace, run, type, payload text,
    signature and parent are the same, whatever the clock says; with any other
    content it fails with [EventIdConflict] and changes nothing. *)
Theorem idempotent_append_retry self db created keypair ns ty payload run parent key id db'
    created' ns' ty' payload' run' parent' :
  append_signed_idempotent_event_with_parent self db created keypair ns ty payload run
    parent key = Ok (id, db') ->
  handle_ok self db' ->
  let sig := sign_event_envelope keypair (principal_id keypair) in
  append_signed_idempotent_event_with_parent self db' created' keypair ns' ty' payload'
    run' parent' key
  = if bool_decide (ns = ns') && bool_decide (run = run') && bool_decide (ty = ty')
       && bool_decide (json_to_string payload = json_to_string payload')
       && bool_decide (Some (hex_encode (sig ns run ty payload parent))
                       = Some (hex_encode (sig ns' run' ty' payload' parent')))
       && bool_decide (parent = parent')
    then Ok (id, db') else Err (EventIdConflict id).
Proof.
  intros Ha Hh. unfold append_signed_idempotent_event_with_parent in *.
  destruct (ledger_validate_idempotency_key key); [|done].
  apply with_conn_inv in Ha as [Ha _]. rewrite with_conn_ok by done.
  destruct (append_prepared_event db _ _) as [[ins db1]|] eqn:Ea in Ha; [|done].
  injection Ha as <- <-.
  rewrite (append_retry _ _ _ _ _ Ea) by done.
  unfold same_content. cbn [pe_principal_id pe_namespace_key pe_run_id pe_event_type
    pe_payload_json pe_signature_hex pe_parent_event_id pe_event_id].
  rewrite (bool_decide_eq_true_2 (principal_id keypair = principal_id keypair)) by done.
  cbn [andb]. by destruct (_ && _).
Qed.

(** ** What the chain does not bind *)

(** The row [f] with its link replaced. *)
Definition relink (f : EventRow) (prev : string) : EventRow :=
  {| ev_event_id := ev_event_id f; ev_principal_id := ev_principal_id f;
     ev_namespace_key := ev_namespace_key f; ev_run_id := ev_run_id f;
     ev_event_type := ev_event_type f; ev_payload_json := ev_payload_json f;
     ev_signature_hex := ev_signature_hex f; ev_created_at := ev_created_at f;
     ev_parent_event_id := ev_parent_event_id f;
     ev_seq_num := ev_seq_num f; ev_prev_hash := prev |}.

Lemma relink_hash f prev : row_hash (relink f prev) = row_hash f.
Proof. done. Qed.

(** The chain is not cumulative: [event_hash] does not cover [prev_hash],
    so the history of a principal can be rewritten in the middle by replacing
    one event (same sequence number and link, any other content) and only the
    stored link of its immediate successor; all later rows keep their links and
    [verify_chain]'s loop still reports the whole chain as verified. *)
Theorem rewriting_one_event_undetected p n pre e f post e' :
  Forall (fun x => ev_principal_id x = p) (pre ++ e :: f :: post) ->
  chain_from GENESIS_HASH 0 (pre ++ e :: f :: post) ->
  Z.of_nat (length (pre ++ e :: f :: post)) <= i64_max ->
  ev_principal_id e' = p -> ev_seq_num e' = ev_seq_num e ->
  ev_prev_hash e' = ev_prev_hash e ->
  exists r, verify_loop p n 0 GENESIS_HASH 0
              (pre ++ e' :: relink f (row_hash e') :: post) = Ok r /\
    broken_at r = None /\ cv_verified r = length (pre ++ e :: f :: post).
Proof.
  intros Hp Hc Hlen Hpe' Hseq Hprev.
  set (rows' := pre ++ e' :: relink f (row_hash e') :: post).
  assert (Hlen' : length rows' = length (pre ++ e :: f :: post)).
  { unfold rows'. rewrite !length_app. done. }
  assert (Hp' : Forall (fun x => ev_principal_id x = p) rows').
  { unfold rows'. rewrite Forall_app, !Forall_cons in *. tauto. }
  assert (Hc' : chain_from GENESIS_HASH 0 rows').
  { unfold rows'. apply chain_from_app in Hc as [Hpre Hc]. apply chain_from_app.
    split; [done|]. destruct Hc as (Hs & Hh & Hs' & Hh' & Hpost). simpl.
    rewrite Hseq, Hprev. auto. }
  pose proof (verify_loop_spec p n 0 GENESIS_HASH 0 rows' Hp'
    ltac:(unfold i64_max; lia)) as Hv.
  destruct (verify_loop p n 0 GENESIS_HASH 0 rows') as [r|]; [|lia].
  destruct Hv as [_ (k & Hk & Hkl & _ & Hb)]. exists r. split; [done|].
  destruct (broken_at r) as [s|]; [|split; [done|lia]].
  destruct Hb as (x & _ & _ & Hnot). exfalso. apply Hnot.
  rewrite <- (take_drop (S k) rows') in Hc'. by apply chain_from_app in Hc' as [? _].
Qed.

(** The hashed text of an event is ambiguous, because its fields are
    joined with bars that the fields themselves may contain: two events that
    differ in type, payload and creation time have the same hash in every
    environment. *)
Theorem event_hash_ambiguous id p seq :
  event_hash id p "task|{}" "1" "t" seq = event_hash id p "task" "{}" "1|t" seq /\
  ("task|{}", "1", "t") <> ("task", "{}", "1|t").
Proof.
  split; [|done]. unfold event_hash, event_hash_preimage. do 2 f_equal.
Qed.

End Chain.

(** ** Worked instances *)

Definition sample_handle : EventLedger := {| el_instance_id := Some sample_instance |}.

Definition sample_event (id ty : string) : LedgerEvent :=
  {| le_event_id := id; le_principal_id := "p"; le_namespace_key := "s";
     le_run_id := None; le_event_type := ty; le_payload := VNull;
     le_signature := None; le_created_at := "t"; le_parent_event_id := None |}.

(** Two and three events of one principal. *)
Definition sample_import (evs : list LedgerEvent) : Db :=
  match insert_events_with_ids_atomic sample_handle sample_db evs with
  | Ok (_, db) => db
  | Err _ => sample_db
  end.

Definition sample_batch : list LedgerEvent :=
  [sample_event "e1" "a"; sample_event "e2" "b"; sample_event "e3" "c"].

Lemma sample_handle_ok evs : handle_ok sample_handle (with_events sample_db evs).
Proof. exists sample_instance. split; [reflexivity|by right]. Qed.

Lemma sample_db_wf : ledger_wf sample_db.
Proof. split; [done|apply NoDup_nil_2|constructor]. Qed.

Lemma verify_chain_spec_witness :
  exists r, verify_chain sample_handle (sample_import sample_batch) "p" = Ok r /\
            cv_verified r = 3%nat /\ broken_at r = None /\
            loop_report GENESIS_HASH 0 0
              (principal_events (sample_import sample_batch) "p") r.
Proof.
  assert (Hh : handle_ok sample_handle (sample_import sample_batch)).
  { exists sample_instance. split; [vm_compute; reflexivity|by right]. }
  pose proof (verify_chain_spec sample_handle (sample_import sample_batch) "p" Hh) as Hv.
  destruct (verify_chain sample_handle (sample_import sample_batch) "p") as [r|] eqn:E.
  - exists r. split; [reflexivity|]. destruct Hv as [_ Hv].
    vm_compute in E. injection E as <-. split; [reflexivity|]. split; [reflexivity|exact Hv].
  - vm_compute in E. discriminate E.
Defined.

Lemma append_keeps_chain_witness :
  ledger_wf (sample_import [sample_event "e1" "a"]).
Proof.
  apply (append_keeps_chain sample_db (event_prepared (sample_event "e1" "a")) MatchAll
           true (sample_import [sample_event "e1" "a"])).
  - exact sample_db_wf.
  - vm_compute. reflexivity.
Defined.

Lemma batch_import_idempotent_witness :
  insert_events_with_ids_atomic sample_handle (sample_import sample_batch) sample_batch
  = Ok ([Existing; Existing; Existing], sample_import sample_batch).
Proof.
  apply (batch_import_idempotent sample_handle sample_db sample_batch
           [Inserted; Inserted; Inserted] (sample_import sample_batch)).
  - exact sample_db_wf.
  - vm_compute. reflexivity.
  - exists sample_instance. split; [vm_compute; reflexivity|by right].
Defined.

Definition sample_keypair : string := "0123456789abcdef0123456789abcdef".

Definition sample_append (created ty : string) (db : Db) : result LedgerError (string * Db) :=
  append_signed_idempotent_event_with_parent sample_handle db created sample_keypair
    "session" ty VNull None None "outbox-0001".

Definition sample_appended : Db :=
  match sample_append "t0" "turn.state.accepted" sample_db with
  | Ok (_, db) => db
  | Err _ => sample_db
  end.

Lemma idempotent_append_retry_witness :
  exists id, sample_append "t1" "turn.state.accepted" sample_appended
             = Ok (id, sample_appended) /\
             sample_append "t1" "turn.state.routed" sample_appended
             = Err (EventIdConflict id).
Proof.
  pose (id := deterministic_idempotent_event_id (principal_id sample_keypair)
                "outbox-0001").
  assert (Ha : sample_append "t0" "turn.state.accepted" sample_db
               = Ok (id, sample_appended)) by (vm_compute; reflexivity).
  assert (Hh : handle_ok sample_handle sample_appended).
  { exists sample_instance. split; [vm_compute; reflexivity|by right]. }
  exists id. split.
  - unfold sample_append.
    rewrite (idempotent_append_retry _ _ _ _ _ _ _ _ _ _ _ _ "t1" "session"
      "turn.state.accepted" VNull None None Ha Hh).
    vm_compute. reflexivity.
  - unfold sample_append.
    rewrite (idempotent_append_retry _ _ _ _ _ _ _ _ _ _ _ _ "t1" "session"
      "turn.state.routed" VNull None None Ha Hh).
    vm_compute. reflexivity.
Defined.

Definition sample_row (id ty : string) (seq : Z) (prev : string) : EventRow :=
  prepared_row (event_prepared (sample_event id ty)) seq prev.
Definition sample_e1 : EventRow := sample_row "e1" "a" 0 GENESIS_HASH.
Definition sample_e2 : EventRow := sample_row "e2" "b" 1 (row_hash sample_e1).
Definition sample_e3 : EventRow := sample_row "e3" "c" 2 (row_hash sample_e2).
Definition sample_forged : EventRow := sample_row "e1" "forged" 0 GENESIS_HASH.

Lemma rewriting_one_event_undetected_witness :
  exists r, verify_loop "p" 3 0 GENESIS_HASH 0
    ([] ++ sample_forged :: relink sample_e2 (row_hash sample_forged) :: [sample_e3])
    = Ok r /\ broken_at r = None /\
    cv_verified r = length ([] ++ sample_e1 :: sample_e2 :: [sample_e3]).
Proof.
  apply (rewriting_one_event_undetected "p" 3 [] sample_e1 sample_e2 [sample_e3]
           sample_forged).
  - by repeat constructor.
  - repeat split.
  - unfold i64_max. simpl. lia.
  - reflexivity.
  - reflexivity.
  - reflexivity.
Defined.
