(* ===== verification/ChainMigration.v ===== *)
(** * Opening the ledger: creation, migration and validation of the chain

    [EventLedger::ensure_schema] and what it calls
    ([crates/zaion-ledger/src/ledger.rs], [crates/zaion-ledger/src/schema.rs]): the
    tables, the identity of the database, the columns that older files lack, the
    repair of a legacy chain and the validation of an existing one.

    A [LedgerFile] is the database together with what only this code looks at: the
    columns of [events], the index under the name [ux_events_principal_seq], the log
    of chain migrations and the full-text index.  Rows of [events] are in rowid
    order and a row is named by its position; nothing reads a rowid but to order
    rows or to find one again.  The indexes that only speed up queries are left
    out.  The eight oldest columns are taken to be there. *)

From stdpp Require Import prelude gmap strings list.
From S2P Require Import Prelude.
From S2P Require Import Env.
From S2P Require Import Schema.
From S2P Require Import Database.
From S2P Require Import Ledger.
Local Open Scope res_scope.
Local Open Scope Z_scope.

Definition UNIQUE_SEQUENCE_INDEX : string := "ux_events_principal_seq".
Definition FTS_REBUILD_MIGRATION : string := "events_fts_rebuild_v1".

(** ** The file *)

(** An index on [events] under the name [UNIQUE_SEQUENCE_INDEX]:
    [pragma_index_list] and [pragma_index_xinfo] of it, and, when its shape is not
    the expected one, the rows it admits. *)
Record SequenceIndex : Type := {
  si_unique : Z;
  si_partial : Z;
  si_columns : list (option string * Z * option string);
  si_admits : list EventRow -> bool
}.

(** [ledger_chain_migrations] *)
Record ChainMigration : Type := {
  cm_migration_id : string;
  cm_migration_kind : string;
  cm_before_hash : string;
  cm_after_hash : string;
  cm_event_count : Z;
  cm_applied_at : string
}.

Record LedgerFile : Type := {
  lf_db : Db;
  lf_event_columns : option (list string);
  lf_sequence_index : option SequenceIndex;
  lf_chain_migrations : list ChainMigration;
  lf_fts : list (nat * (string * string * string))
}.

Definition with_db (f : LedgerFile) (db : Db) : LedgerFile :=
  {| lf_db := db; lf_event_columns := lf_event_columns f;
     lf_sequence_index := lf_sequence_index f;
     lf_chain_migrations := lf_chain_migrations f; lf_fts := lf_fts f |}.

Definition with_columns (f : LedgerFile) (columns : list string) : LedgerFile :=
  {| lf_db := lf_db f; lf_event_columns := Some columns;
     lf_sequence_index := lf_sequence_index f;
     lf_chain_migrations := lf_chain_migrations f; lf_fts := lf_fts f |}.

(** The identity objects, the schema log and the rows of the identity table. *)
Definition with_identity (db : Db) (migrations : list string)
    (rows : list (Z * string)) (master : list SchemaObject) : Db :=
  {| actors := actors db; turns := turns db; outbox := outbox db;
     commit_order := commit_order db; order_sequence := order_sequence db;
     verified := verified db; quarantine := quarantine db; events := events db;
     ledger_migrations := migrations; identity_rows := rows;
     sqlite_master := master; main_file := main_file db |}.

Definition file_events (f : LedgerFile) : list EventRow := events (lf_db f).

(** ** Tables and columns *)

Definition base_event_columns : list string :=
  ["event_id"; "principal_id"; "namespace_key"; "run_id"; "event_type"; "payload_json";
   "signature_hex"; "created_at"; "parent_event_id"; "seq_num"; "prev_hash"].

(** [CREATE TABLE IF NOT EXISTS events (...)] of [CREATE_TABLES_BASE]. *)
Definition create_tables_base (f : LedgerFile) : LedgerFile :=
  match lf_event_columns f with
  | Some _ => f
  | None => with_columns (with_db f (with_events (lf_db f) [])) base_event_columns
  end.

(** [SELECT COUNT( * ) FROM pragma_table_info('events') WHERE name = ..] [> 0] *)
Definition has_column (f : LedgerFile) (name : string) : bool :=
  bool_decide (name ∈ default [] (lf_event_columns f)).

Definition set_chain (seq_num : Z) (prev_hash : string) (e : EventRow) : EventRow :=
  {| ev_event_id := ev_event_id e; ev_principal_id := ev_principal_id e;
     ev_namespace_key := ev_namespace_key e; ev_run_id := ev_run_id e;
     ev_event_type := ev_event_type e; ev_payload_json := ev_payload_json e;
     ev_signature_hex := ev_signature_hex e; ev_created_at := ev_created_at e;
     ev_parent_event_id := ev_parent_event_id e;
     ev_seq_num := seq_num; ev_prev_hash := prev_hash |}.

Definition no_parent (e : EventRow) : EventRow :=
  {| ev_event_id := ev_event_id e; ev_principal_id := ev_principal_id e;
     ev_namespace_key := ev_namespace_key e; ev_run_id := ev_run_id e;
     ev_event_type := ev_event_type e; ev_payload_json := ev_payload_json e;
     ev_signature_hex := ev_signature_hex e; ev_created_at := ev_created_at e;
     ev_parent_event_id := None;
     ev_seq_num := ev_seq_num e; ev_prev_hash := ev_prev_hash e |}.

(** [ALTER TABLE events ADD COLUMN ..]: every row gets the default. *)
Definition add_column (f : LedgerFile) (name : string) (default_value : EventRow -> EventRow)
  : LedgerFile :=
  with_columns (with_db f (with_events (lf_db f) (map default_value (file_events f))))
    (default [] (lf_event_columns f) ++ [name]).

Definition ensure_column (f : LedgerFile) (name : string)
    (default_value : EventRow -> EventRow) : LedgerFile :=
  if has_column f name then f else add_column f name default_value.

Definition default_seq_num (e : EventRow) : EventRow := set_chain 0 (ev_prev_hash e) e.
Definition default_prev_hash (e : EventRow) : EventRow :=
  set_chain (ev_seq_num e) GENESIS_HASH e.

(** ** The unique index on [(principal_id, seq_num)] *)

Definition expected_index_columns : list (option string * Z * option string) :=
  [(Some "principal_id", 0, Some "BINARY"); (Some "seq_num", 0, Some "BINARY")].

Definition index_has_expected_shape (i : SequenceIndex) : bool :=
  bool_decide (si_unique i = 1) && bool_decide (si_partial i = 0)
  && bool_decide (si_columns i = expected_index_columns).

Definition sequence_index_has_expected_shape (f : LedgerFile) : bool :=
  is_some_and index_has_expected_shape (lf_sequence_index f).

Definition event_position (e : EventRow) : string * Z := (ev_principal_id e, ev_seq_num e).

(** Whether the index, if there is one, admits the rows. *)
Definition index_admits (i : option SequenceIndex) (rows : list EventRow) : bool :=
  match i with
  | None => true
  | Some i =>
      if index_has_expected_shape i then bool_decide (NoDup (map event_position rows))
      else si_admits i rows
  end.

Definition created_index : SequenceIndex :=
  {| si_unique := 1; si_partial := 0; si_columns := expected_index_columns;
     si_admits := fun _ => true |}.

Definition with_created_index (f : LedgerFile) : LedgerFile :=
  {| lf_db := lf_db f; lf_event_columns := lf_event_columns f;
     lf_sequence_index := Some created_index;
     lf_chain_migrations := lf_chain_migrations f; lf_fts := lf_fts f |}.

(** [DROP INDEX IF EXISTS; CREATE UNIQUE INDEX] *)
Definition recreate_sequence_index (f : LedgerFile) : result LedgerError LedgerFile :=
  guard? index_admits (Some created_index) (file_events f) else LedgerSqlite Constraint in
  Ok (with_created_index f).

(** ** Orders of the queries *)

(** The next sort key decides when the first ones are equal. *)
Definition then_by (c : comparison) (next : bool) : bool :=
  match c with Lt => true | Eq => next | Gt => false end.

(** [ORDER BY principal_id, seq_num, event_id] *)
Definition validate_le (x y : EventRow) : bool :=
  then_by (String.compare (ev_principal_id x) (ev_principal_id y))
    (then_by (Z.compare (ev_seq_num x) (ev_seq_num y))
       (String.leb (ev_event_id x) (ev_event_id y))).

(** [ORDER BY principal_id, seq_num, rowid] *)
Definition rebuild_le (x y : nat * EventRow) : bool :=
  then_by (String.compare (ev_principal_id x.2) (ev_principal_id y.2))
    (then_by (Z.compare (ev_seq_num x.2) (ev_seq_num y.2)) (Nat.leb x.1 y.1)).

(** [ORDER BY principal_id, rowid] *)
Definition digest_le (x y : nat * EventRow) : bool :=
  then_by (String.compare (ev_principal_id x.2) (ev_principal_id y.2)) (Nat.leb x.1 y.1).

(** The rows with their rowids. *)
Definition numbered (rows : list EventRow) : list (nat * EventRow) := imap pair rows.

Section Migration.
Context `{Env}.

(** ** Validation *)

Definition corrupt_link (principal : string) (expected_seq : Z) (expected_prev : string)
    (e : EventRow) : LedgerError :=
  CorruptChain ("principal " +:+ principal +:+ " expected seq " +:+ z_to_string expected_seq
    +:+ " with prev " +:+ expected_prev +:+ ", found seq " +:+ z_to_string (ev_seq_num e)
    +:+ " with prev " +:+ ev_prev_hash e).

(** Where the loops stand before a row: they start over at a new principal. *)
Definition loop_position (active : string) (seq : Z) (prev : string) (principal : string)
  : Z * string :=
  if bool_decide (principal = active) then (seq, prev) else (0, GENESIS_HASH).

Fixpoint validate_loop (active_principal : string) (expected_seq : Z)
    (expected_prev : string) (rows : list EventRow) : result LedgerError unit :=
  match rows with
  | [] => Ok tt
  | e :: rows' =>
      let '(seq, prev) :=
        loop_position active_principal expected_seq expected_prev (ev_principal_id e) in
      guard? bool_decide (ev_seq_num e = seq) && bool_decide (ev_prev_hash e = prev)
        else corrupt_link (ev_principal_id e) seq prev e in
      let? next := ok_or (i64_checked_add seq 1)
                     (CorruptChain "event sequence exhausted i64") in
      validate_loop (ev_principal_id e) next (row_hash e) rows'
  end.

Definition validate_chain_metadata (rows : list EventRow) : result LedgerError unit :=
  validate_loop EmptyString 0 GENESIS_HASH (order_by validate_le rows).

(** ** Repair of a legacy chain *)

Definition chain_metadata_is_all_defaults (rows : list EventRow) : bool :=
  bool_decide (length (filter (fun e => ev_seq_num e <> 0 \/ ev_prev_hash e <> GENESIS_HASH)
                         rows) = 0%nat).

(** [UPDATE events SET seq_num = ?2, prev_hash = ?3 WHERE rowid = ?1] under the
    unique index. *)
Definition update_chain (index : option SequenceIndex) (rows : list EventRow) (row_id : nat)
    (seq_num : Z) (prev_hash : string) : result LedgerError (list EventRow) :=
  let rows' := alter (set_chain seq_num prev_hash) row_id rows in
  guard? index_admits index rows' else LedgerSqlite Constraint in
  Ok rows'.

(** The loop over the selected rows; [todo] holds the rows as they were selected. *)
Fixpoint rebuild_loop (index : option SequenceIndex) (active_principal : string)
    (seq_num : Z) (prev_hash : string) (todo : list (nat * EventRow))
    (rows : list EventRow) : result LedgerError (list EventRow) :=
  match todo with
  | [] => Ok rows
  | (row_id, e) :: todo' =>
      let '(seq, prev) := loop_position active_principal seq_num prev_hash
                            (ev_principal_id e) in
      let? rows' := update_chain index rows row_id seq prev in
      let? next := ok_or (i64_checked_add seq 1)
                     (CorruptChain "event sequence exhausted i64") in
      rebuild_loop index (ev_principal_id e) next
        (event_hash (ev_event_id e) (ev_principal_id e) (ev_event_type e)
           (ev_payload_json e) (ev_created_at e) seq) todo' rows'
  end.

Definition rebuild_event_chain_metadata (index : option SequenceIndex)
    (rows : list EventRow) : result LedgerError (list EventRow) :=
  rebuild_loop index EmptyString 0 GENESIS_HASH (order_by rebuild_le (numbered rows)) rows.

(** ** The log of migrations *)

Definition chain_metadata_bytes (e : EventRow) : string :=
  parts_bytes [ev_event_id e; ev_principal_id e; ev_prev_hash e]
    +:+ le_bytes 8 (ev_seq_num e).

Definition chain_metadata_digest (rows : list EventRow) : nat * string :=
  let sorted := order_by digest_le (numbered rows) in
  (length sorted,
   "sha256:" +:+ hex_encode (sha256
     (foldr (fun x acc => chain_metadata_bytes x.2 +:+ acc) EmptyString sorted))).

Definition record_chain_migration (log : list ChainMigration)
    (applied_at migration_kind before_hash after_hash : string) (event_count : nat)
  : result LedgerError (list ChainMigration) :=
  let migration_id := "ledger-chain-migration-" +:+
    str_prefix 40 (hash_parts [migration_kind; before_hash; after_hash]) in
  guard? in_i64 (Z.of_nat event_count)
    else CorruptChain "chain migration event count exceeds i64" in
  guard? bool_decide (migration_id ∉ map cm_migration_id log) else LedgerSqlite Constraint in
  Ok (log ++ [{| cm_migration_id := migration_id; cm_migration_kind := migration_kind;
                 cm_before_hash := before_hash; cm_after_hash := after_hash;
                 cm_event_count := Z.of_nat event_count; cm_applied_at := applied_at |}]).

Definition migrate_event_chain (applied_at migration_kind : string) (f : LedgerFile)
  : result LedgerError LedgerFile :=
  let rows := file_events f in
  let '(event_count, before_hash) := chain_metadata_digest rows in
  let? rows' := rebuild_event_chain_metadata (lf_sequence_index f) rows in
  let? _ := validate_chain_metadata rows' in
  let '(after_count, after_hash) := chain_metadata_digest rows' in
  guard? bool_decide (after_count = event_count)
    else CorruptChain "chain migration changed event cardinality" in
  let? log := record_chain_migration (lf_chain_migrations f) applied_at migration_kind
                before_hash after_hash event_count in
  Ok {| lf_db := with_events (lf_db f) rows'; lf_event_columns := lf_event_columns f;
        lf_sequence_index := lf_sequence_index f; lf_chain_migrations := log;
        lf_fts := lf_fts f |}.

Definition migrate_or_validate_event_chain (applied_at : string)
    (chain_columns_added : bool) (f : LedgerFile) : result LedgerError LedgerFile :=
  match validate_chain_metadata (file_events f) with
  | Ok _ => Ok f
  | Err error =>
      if chain_columns_added || chain_metadata_is_all_defaults (file_events f) then
        migrate_event_chain applied_at
          (if chain_columns_added then "legacy_chain_columns_v1"
           else "legacy_default_chain_repair_v1") f
      else Err error
  end.

(** ** The identity of the database *)

Definition has_object (db : Db) (object_type name : string) : bool :=
  opt_is_some (schema_object_sql (sqlite_master db) object_type name).

(** [CREATE TABLE] and [CREATE TRIGGER]: tables, views and indexes share their
    names, triggers have names of their own. *)
Definition name_taken (master : list SchemaObject) (object_type name : string) : bool :=
  let rivals := if bool_decide (object_type = "trigger") then ["trigger"]
                else ["table"; "view"; "index"] in
  bool_decide (Exists (fun o => so_name o = name /\ so_type o ∈ rivals) master).

Fixpoint create_objects (master objects : list SchemaObject)
  : result SqliteError (list SchemaObject) :=
  match objects with
  | [] => Ok master
  | o :: objects' =>
      guard? negb (name_taken master (so_type o) (so_name o))
        else OtherSqlite ("object already exists: " +:+ so_name o) in
      create_objects (master ++ [o]) objects'
  end.

Definition identity_objects : list SchemaObject :=
  [{| so_type := "table"; so_name := DATABASE_IDENTITY_TABLE;
      so_tbl_name := DATABASE_IDENTITY_TABLE; so_sql := CREATE_DATABASE_IDENTITY_TABLE |};
   trigger_object DATABASE_IDENTITY_NO_INSERT_TRIGGER DATABASE_IDENTITY_TABLE
     CREATE_DATABASE_IDENTITY_NO_INSERT_TRIGGER;
   trigger_object DATABASE_IDENTITY_NO_UPDATE_TRIGGER DATABASE_IDENTITY_TABLE
     CREATE_DATABASE_IDENTITY_NO_UPDATE_TRIGGER;
   trigger_object DATABASE_IDENTITY_NO_DELETE_TRIGGER DATABASE_IDENTITY_TABLE
     CREATE_DATABASE_IDENTITY_NO_DELETE_TRIGGER].

(** [instance_id] is the fresh UUID.  The row is inserted between the creation of
    the table and of its triggers. *)
Definition ensure_database_instance_identity (instance_id : string) (db : Db)
  : result LedgerError Db :=
  let marker_exists := bool_decide (DATABASE_IDENTITY_MIGRATION ∈ ledger_migrations db) in
  let exist := map (fun o => has_object db (so_type o) (so_name o)) identity_objects in
  let any_object_exists := existsb id exist in
  let every_object_exists := forallb id exist in
  let? db' :=
    (if marker_exists then
       if every_object_exists then Ok db
       else Err (InvalidDatabaseInstanceIdentity
         "database identity migration marker exists but a required object is missing")
     else if any_object_exists then Err (InvalidDatabaseInstanceIdentity
         "database identity objects exist without their migration marker")
     else
       let? master := ledger_sqlite (create_objects (sqlite_master db) identity_objects) in
       Ok (with_identity db (ledger_migrations db ++ [DATABASE_IDENTITY_MIGRATION])
             [(1, instance_id)] master)) in
  let? _ := validated_database_instance_id db' in
  Ok db'.

(** ** Full-text search *)

(** [INSERT INTO events_fts(events_fts) VALUES('rebuild')] *)
Definition fts_rebuild (rows : list EventRow) : list (nat * (string * string * string)) :=
  map (fun x => (x.1, (ev_event_id x.2, ev_event_type x.2, ev_payload_json x.2)))
    (numbered rows).

Definition ensure_fts (f : LedgerFile) : LedgerFile :=
  let db := lf_db f in
  if bool_decide (FTS_REBUILD_MIGRATION ∈ ledger_migrations db) then f
  else {| lf_db := with_identity db (ledger_migrations db ++ [FTS_REBUILD_MIGRATION])
                     (identity_rows db) (sqlite_master db);
          lf_event_columns := lf_event_columns f;
          lf_sequence_index := lf_sequence_index f;
          lf_chain_migrations := lf_chain_migrations f;
          lf_fts := fts_rebuild (events db) |}.

(** ** [EventLedger::ensure_schema], in one transaction *)

Definition ensure_schema (instance_id applied_at : string) (file : LedgerFile)
  : result LedgerError LedgerFile :=
  let f := create_tables_base file in
  let? db := ensure_database_instance_identity instance_id (lf_db f) in
  let f := with_db f db in
  let has_seq := has_column f "seq_num" in
  let f := ensure_column f "seq_num" default_seq_num in
  let has_prev_hash := has_column f "prev_hash" in
  let f := ensure_column f "prev_hash" default_prev_hash in
  let f := ensure_column f "parent_event_id" no_parent in
  let sequence_index_is_valid := sequence_index_has_expected_shape f in
  let? f := migrate_or_validate_event_chain applied_at (negb has_seq || negb has_prev_hash) f in
  let? f := if sequence_index_is_valid then Ok f else recreate_sequence_index f in
  Ok (ensure_fts f).

(** ** Using the file *)

(** The connection half of [EventLedger::with_conn]: the schema is ensured once,
    then the live identity is compared with the one observed first.  A schema that
    was ensured stays so when the identity is refused. *)
Definition connect (instance_id applied_at : string) (tables_ensured : bool)
    (self : EventLedger) (file : LedgerFile) : LedgerFile * result LedgerError EventLedger :=
  match (if tables_ensured then Ok file else ensure_schema instance_id applied_at file) with
  | Err e => (file, Err e)
  | Ok f =>
      (f, let? live := read_database_instance_id (lf_db f) in
          match el_instance_id self with
          | Some expected =>
              guard? bool_decide (expected = live)
                else DatabaseInstanceIdentityDrift expected live in Ok self
          | None => Ok {| el_instance_id := Some live |}
          end)
  end.

(** [append_prepared_event] on the file: the trigger [events_fts_insert] indexes an
    inserted row. *)
Definition file_append (f : LedgerFile) (event : PreparedEvent) (policy : ExistingEventPolicy)
  : result LedgerError (bool * LedgerFile) :=
  let? (inserted, db) := append_prepared_event (lf_db f) event policy in
  Ok (inserted,
      if inserted then
        {| lf_db := db; lf_event_columns := lf_event_columns f;
           lf_sequence_index := lf_sequence_index f;
           lf_chain_migrations := lf_chain_migrations f;
           lf_fts := lf_fts f ++ [(length (file_events f),
             (pe_event_id event, pe_event_type event, pe_payload_json event))] |}
      else with_db f db).

End Migration.
