(* ===== verification/ChainMigrationLemmas.v ===== *)
(** * Lemmas on the repair and the validation of chains

    The orders of the queries, what [validate_chain_metadata] accepts, and the rows
    [rebuild_event_chain_metadata] leaves. *)

From stdpp Require Import prelude gmap strings list sorting.
From S2P Require Import Prelude.
From S2P Require Import Env.
From S2P Require Import Database.
From S2P Require Import Ledger.
From S2P Require Import LedgerChain.
From S2P Require Import ChainMigration.
Local Open Scope res_scope.
Local Open Scope Z_scope.

(** ** The orders *)

Lemma str_lt_total s t : str_lt s t \/ s = t \/ str_lt t s.
Proof.
  destruct (String.compare s t) eqn:E.
  - right; left. by apply String.compare_eq_iff.
  - by left.
  - do 2 right. by apply str_compare_Gt.
Qed.

Lemma then_by_str p q k :
  then_by (String.compare p q) k = true <-> str_lt p q \/ (p = q /\ k = true).
Proof.
  destruct (String.compare p q) eqn:E; simpl.
  - apply String.compare_eq_iff in E as ->. split; [by right|].
    intros [Hl|[_ ?]]; [by apply str_lt_irrefl in Hl|done].
  - split; [by left|done].
  - apply str_compare_Gt in E. split; [done|].
    intros [Hl|[-> _]]; [|by apply str_lt_irrefl in E].
    by apply (str_lt_trans _ _ _ Hl), str_lt_irrefl in E.
Qed.

Lemma then_by_Z a b k : then_by (Z.compare a b) k = true <-> a < b \/ (a = b /\ k = true).
Proof.
  unfold Z.lt. destruct (Z.compare a b) eqn:E; simpl.
  - apply Z.compare_eq_iff in E as ->. naive_solver.
  - naive_solver.
  - split; [done|]. intros [?|[-> _]]; [congruence|].
    by rewrite Z.compare_refl in E.
Qed.

(** [(principal_id, seq_num)] in the order of the index. *)
Definition pos_lt (x y : EventRow) : Prop :=
  str_lt (ev_principal_id x) (ev_principal_id y) \/
  (ev_principal_id x = ev_principal_id y /\ ev_seq_num x < ev_seq_num y).

Definition principal_le (x y : EventRow) : Prop :=
  str_lt (ev_principal_id x) (ev_principal_id y) \/ ev_principal_id x = ev_principal_id y.

Lemma leb_true s t : String.leb s t = true <-> str_lt s t \/ s = t.
Proof.
  unfold String.leb, str_lt. destruct (String.compare s t) eqn:E.
  - apply String.compare_eq_iff in E. naive_solver.
  - naive_solver.
  - split; [done|]. intros [?| ->]; [done|].
    by apply str_compare_Gt, str_lt_irrefl in E.
Qed.

Lemma validate_le_spec x y :
  validate_le x y = true <->
  pos_lt x y \/ (event_position x = event_position y /\
                 String.leb (ev_event_id x) (ev_event_id y) = true).
Proof.
  unfold validate_le, pos_lt, event_position. rewrite then_by_str, then_by_Z.
  split; [naive_solver congruence|]. intros [?|[[= ? ?] ?]]; naive_solver.
Qed.

Lemma rebuild_le_spec x y :
  rebuild_le x y = true <->
  pos_lt x.2 y.2 \/ (event_position x.2 = event_position y.2 /\ (x.1 <= y.1)%nat).
Proof.
  unfold rebuild_le, pos_lt, event_position. rewrite then_by_str, then_by_Z, Nat.leb_le.
  split; [naive_solver congruence|]. intros [?|[[= ? ?] ?]]; naive_solver.
Qed.

Lemma pos_lt_trans x y z : pos_lt x y -> pos_lt y z -> pos_lt x z.
Proof.
  unfold pos_lt. intros [H1|[E1 H1]] [H2|[E2 H2]].
  - left. by eapply str_lt_trans.
  - left. by rewrite <- E2.
  - left. by rewrite E1.
  - right. split; [congruence|lia].
Qed.

Lemma pos_lt_irrefl x : ~ pos_lt x x.
Proof. intros [H|[_ H]]; [by apply str_lt_irrefl in H|lia]. Qed.

Lemma pos_lt_total x y :
  pos_lt x y \/ event_position x = event_position y \/ pos_lt y x.
Proof.
  unfold pos_lt, event_position.
  destruct (str_lt_total (ev_principal_id x) (ev_principal_id y)) as [?|[E|?]]; auto.
  destruct (Z.lt_total (ev_seq_num x) (ev_seq_num y)) as [?|[?|?]]; auto.
  right; left. congruence.
Qed.

Lemma pos_lt_position x y z :
  event_position x = event_position y -> pos_lt z x -> pos_lt z y.
Proof. unfold pos_lt, event_position. intros [= -> ->]. done. Qed.

Lemma pos_lt_position_l x y z :
  event_position x = event_position y -> pos_lt x z -> pos_lt y z.
Proof. unfold pos_lt, event_position. intros [= -> ->]. done. Qed.

(** A lexicographic order by position and then by [tie] is a total preorder. *)
Section Lexicographic.
Context {A : Type} (row : A -> EventRow) (tie : A -> A -> Prop) (le : A -> A -> bool).
Context (le_spec : forall x y, le x y = true <->
           pos_lt (row x) (row y) \/
           (event_position (row x) = event_position (row y) /\ tie x y)).
Context (tie_total : forall x y, tie x y \/ tie y x)
        (tie_trans : forall x y z, tie x y -> tie y z -> tie x z).

Lemma lex_total x y : le x y = false -> le y x = true.
Proof.
  intros Hf. apply not_true_iff_false in Hf. rewrite le_spec in Hf. apply le_spec.
  destruct (pos_lt_total (row x) (row y)) as [?|[E|?]];
    [exfalso; auto| |by left].
  right. split; [done|]. destruct (tie_total x y); [exfalso; auto|done].
Qed.

Lemma lex_trans x y z : le x y = true -> le y z = true -> le x z = true.
Proof.
  rewrite !le_spec. intros [H1|[E1 H1]] [H2|[E2 H2]].
  - left. by eapply pos_lt_trans.
  - left. by eapply pos_lt_position.
  - left. by eapply pos_lt_position_l.
  - right. split; [congruence|eauto].
Qed.

Lemma lex_sorted l : StronglySorted (fun x y => le x y = true) (order_by le l).
Proof. apply order_by_sorted; [apply lex_total|apply lex_trans]. Qed.
End Lexicographic.

Lemma validate_sorted rows :
  StronglySorted (fun x y => validate_le x y = true) (order_by validate_le rows).
Proof.
  apply (lex_sorted (fun e => e)
    (fun x y => String.leb (ev_event_id x) (ev_event_id y) = true)).
  - intros x y. apply validate_le_spec.
  - intros x y. rewrite !leb_true.
    destruct (str_lt_total (ev_event_id x) (ev_event_id y)) as [?|[?|?]]; auto.
  - intros x y z. rewrite !leb_true. intros [H1|E1] [H2|E2].
    + left. by eapply str_lt_trans.
    + left. by rewrite <- E2.
    + left. by rewrite E1.
    + right. congruence.
Qed.

Lemma rebuild_sorted rows :
  StronglySorted (fun x y => rebuild_le x y = true) (order_by rebuild_le rows).
Proof.
  apply (lex_sorted snd (fun x y => (x.1 <= y.1)%nat)); [apply rebuild_le_spec|lia..].
Qed.

(** Rows in strictly increasing position are the sorted form of their table. *)
Lemma validate_order_unique rows sorted :
  StronglySorted pos_lt sorted -> sorted ≡ₚ rows -> order_by validate_le rows = sorted.
Proof.
  intros Hs Hp.
  assert (Hs' : StronglySorted (fun x y => validate_le x y = true) sorted).
  { revert Hs. apply StronglySorted_weaken. intros x y ?. apply validate_le_spec. by left. }
  apply (StronglySorted_unique_strong (fun x y => validate_le x y = true));
    [|apply validate_sorted|done|by rewrite order_by_perm].
  intros x y Hx Hy. rewrite order_by_perm, <- Hp in Hx.
  rewrite !validate_le_spec. intros H1 H2.
  assert (Hpos : event_position x = event_position y).
  { destruct H1 as [H1|[E _]]; [|done]. destruct H2 as [H2|[E _]]; [|done].
    by apply (pos_lt_trans _ _ _ H1), pos_lt_irrefl in H2. }
  clear H1 H2 Hp Hs'. induction Hs as [|a l _ IH Ha]; [by apply not_elem_of_nil in Hx|].
  rewrite Forall_forall in Ha.
  apply elem_of_cons in Hx as [->|Hx], Hy as [->|Hy]; auto.
  - apply Ha in Hy. apply (pos_lt_position_l _ _ _ Hpos), pos_lt_irrefl in Hy. done.
  - apply Ha in Hx. apply (pos_lt_position _ _ _ Hpos), pos_lt_irrefl in Hx. done.
Qed.

Section Rebuild.
Context `{Env}.

(** ** What validation accepts *)

(** Every principal's rows, in the order of their sequence numbers, form a chain. *)
Definition chains_intact (rows : list EventRow) : Prop :=
  forall p, chain_from GENESIS_HASH 0 (order_by_key ev_seq_num (of_principal p rows)).

Lemma of_principal_cons_eq p e rows :
  ev_principal_id e = p -> of_principal p (e :: rows) = e :: of_principal p rows.
Proof. intros. unfold of_principal. by rewrite filter_cons_True. Qed.

Lemma of_principal_cons_ne p e rows :
  ev_principal_id e <> p -> of_principal p (e :: rows) = of_principal p rows.
Proof. intros. unfold of_principal. by rewrite filter_cons_False. Qed.

(** No row of a principal below the active one is left. *)
Lemma of_principal_passed p q rows :
  str_lt p q -> Forall (fun e => str_lt q (ev_principal_id e) \/ q = ev_principal_id e) rows ->
  of_principal p rows = [].
Proof.
  intros Hlt Hall. induction Hall as [|e rows He _ IH]; [done|].
  rewrite of_principal_cons_ne; [done|]. intros <-.
  destruct He as [He|He].
  - by apply (str_lt_trans _ _ _ Hlt), str_lt_irrefl in He.
  - subst q. by apply str_lt_irrefl in Hlt.
Qed.

(** The chains of a table sorted by principal, from inside its loop. *)
Definition loop_chains (active : string) (seq : Z) (prev : string) (rows : list EventRow)
  : Prop :=
  chain_from prev seq (of_principal active rows) /\
  forall p, p <> active -> chain_from GENESIS_HASH 0 (of_principal p rows).

Definition above (active : string) (rows : list EventRow) : Prop :=
  Forall (fun e => str_lt active (ev_principal_id e) \/ active = ev_principal_id e) rows.

Lemma loop_chains_cons active seq prev e rows :
  above active (e :: rows) -> above (ev_principal_id e) rows ->
  loop_chains active seq prev (e :: rows) <->
  (let '(s, h) := loop_position active seq prev (ev_principal_id e) in
   ev_seq_num e = s /\ ev_prev_hash e = h /\
   loop_chains (ev_principal_id e) (s + 1) (row_hash e) rows).
Proof.
  intros Ha Hb. apply Forall_cons in Ha as [Ha _]. unfold loop_position, loop_chains.
  case_bool_decide as Hp.
  - subst active. rewrite of_principal_cons_eq by done. simpl.
    split.
    + intros [(?&?&?) Hr]. repeat split; [done..|]. intros p Hne. specialize (Hr p Hne).
      by rewrite of_principal_cons_ne in Hr.
    + intros (?&?&?&Hr). repeat split; [done..|]. intros p Hne.
      rewrite of_principal_cons_ne by done. auto.
  - assert (Hlt : str_lt active (ev_principal_id e)) by (destruct Ha; congruence).
    assert (Hnil : of_principal active rows = []) by (by eapply of_principal_passed).
    rewrite (of_principal_cons_ne active), Hnil by congruence. split.
    + intros [_ Hr]. pose proof (Hr _ Hp) as He.
      rewrite of_principal_cons_eq in He by done. destruct He as (?&?&?).
      repeat split; [done..|]. intros p Hne. destruct (decide (p = active)) as [->|Hna].
      { by rewrite Hnil. }
      specialize (Hr p Hna). by rewrite of_principal_cons_ne in Hr.
    + intros (?&?&?&Hr). split; [done|]. intros p Hne.
      destruct (decide (ev_principal_id e = p)) as [<-|Hne'].
      * by rewrite of_principal_cons_eq.
      * rewrite of_principal_cons_ne by done. auto.
Qed.

Lemma loop_position_bounds active seq prev p s h n :
  0 <= seq -> seq + n <= i64_max -> 0 <= n ->
  loop_position active seq prev p = (s, h) -> 0 <= s /\ s + n <= i64_max.
Proof.
  unfold loop_position, i64_max. intros. case_bool_decide; simplify_eq; lia.
Qed.

Lemma i64_next s : 0 <= s -> s + 1 <= i64_max -> i64_checked_add s 1 = Some (s + 1).
Proof.
  intros. unfold i64_checked_add, in_i64, i64_min.
  by rewrite bool_decide_eq_true_2 by lia.
Qed.

Lemma validate_loop_sound active seq prev rows :
  StronglySorted principal_le rows -> above active rows ->
  validate_loop active seq prev rows = Ok tt -> loop_chains active seq prev rows.
Proof.
  intros Hs; revert active seq prev; induction Hs as [|e rows _ IH He];
    intros active seq prev Ha Hv; [done|].
  apply loop_chains_cons; [done|done|]. simpl in Hv.
  destruct (loop_position active seq prev (ev_principal_id e)) as [s h].
  destruct (_ && _) eqn:Eg in Hv; [|done]. bool_props. simpl in Hv.
  unfold i64_checked_add in Hv. destruct (in_i64 _) in Hv; [|done]. simpl in Hv. auto.
Qed.

Lemma validate_loop_complete active seq prev rows :
  StronglySorted principal_le rows -> above active rows ->
  0 <= seq -> seq + Z.of_nat (length rows) <= i64_max ->
  loop_chains active seq prev rows -> validate_loop active seq prev rows = Ok tt.
Proof.
  intros Hs; revert active seq prev; induction Hs as [|e rows _ IH He];
    intros active seq prev Ha H0 Hlen Hc; [done|].
  apply loop_chains_cons in Hc; [|done|done]. simpl in *.
  destruct (loop_position active seq prev (ev_principal_id e)) as [s h] eqn:El.
  destruct Hc as (-> & -> & Hc).
  apply (loop_position_bounds _ _ _ _ _ _ (Z.of_nat (S (length rows)))) in El
    as [Hs0 Hs1]; [|lia..].
  rewrite !bool_decide_eq_true_2 by done. simpl. rewrite i64_next by lia. simpl.
  apply IH; [done|lia|lia|done].
Qed.

Lemma above_empty rows : above EmptyString rows.
Proof.
  apply Forall_forall. intros e _. unfold str_lt.
  destruct (ev_principal_id e); [by right|by left].
Qed.

Lemma validate_order_by_principal rows :
  StronglySorted principal_le (order_by validate_le rows).
Proof.
  generalize (validate_sorted rows). apply StronglySorted_weaken. intros x y.
  rewrite validate_le_spec. unfold pos_lt, principal_le, event_position. naive_solver congruence.
Qed.

Lemma validate_order_by_seq p rows :
  StronglySorted (fun x y => ev_seq_num x <= ev_seq_num y)
    (of_principal p (order_by validate_le rows)).
Proof.
  generalize (validate_sorted rows). generalize (order_by validate_le rows) as l.
  induction 1 as [|e l _ IH He]; [constructor|].
  destruct (decide (ev_principal_id e = p)) as [Hp|Hp];
    [rewrite of_principal_cons_eq by done|by rewrite of_principal_cons_ne].
  constructor; [done|]. apply Forall_forall. intros x [Hx Hin]%list_elem_of_filter.
  rewrite Forall_forall in He. specialize (He x Hin). rewrite validate_le_spec in He.
  unfold pos_lt, event_position in He.
  destruct He as [[Hl|[_ Hl]]|[[= _ ->] _]]; [|lia|lia].
  rewrite Hp, Hx in Hl. by apply str_lt_irrefl in Hl.
Qed.

Lemma chain_from_strict prev seq rows :
  chain_from prev seq rows ->
  StronglySorted (fun x y => ev_seq_num x < ev_seq_num y) rows.
Proof.
  revert prev seq; induction rows as [|e rows IH]; intros prev seq; [constructor|].
  intros (Hs & _ & Hc). constructor; [by eapply IH|].
  eapply Forall_impl; [apply (chain_from_sorted _ _ _ Hc)|]. simpl. lia.
Qed.

(** The order of the validation query gives each principal's rows in the order of
    [verify_chain]. *)
Lemma loop_chains_intact rows :
  loop_chains EmptyString 0 GENESIS_HASH (order_by validate_le rows) <->
  chains_intact rows.
Proof.
  assert (Hperm : forall p, of_principal p (order_by validate_le rows)
                            ≡ₚ of_principal p rows).
  { intros p. unfold of_principal. by rewrite order_by_perm. }
  assert (Heq : forall p, chain_from GENESIS_HASH 0 (of_principal p (order_by validate_le rows))
    <-> chain_from GENESIS_HASH 0 (order_by_key ev_seq_num (of_principal p rows))).
  { intros p. split; intros Hc.
    - by rewrite (order_by_key_perm ev_seq_num _ _ (chain_from_strict _ _ _ Hc)
                    (symmetry (Hperm p))).
    - rewrite (strictly_sorted_unique ev_seq_num _ _ (chain_from_strict _ _ _ Hc)
        (validate_order_by_seq p rows)); [done|].
      unfold order_by_key. rewrite (order_by_perm _ (of_principal p rows)). apply Hperm. }
  unfold loop_chains, chains_intact. split.
  - intros [H1 H2] p. apply Heq. destruct (decide (p = EmptyString)) as [->|]; auto.
  - intros Hi. split; [by apply Heq|]. intros p _. by apply Heq.
Qed.

Lemma validate_sound rows : validate_chain_metadata rows = Ok tt -> chains_intact rows.
Proof.
  intros Hv. apply loop_chains_intact, validate_loop_sound;
    [apply validate_order_by_principal|apply above_empty|done].
Qed.

Lemma validate_complete rows :
  Z.of_nat (length rows) <= i64_max -> chains_intact rows ->
  validate_chain_metadata rows = Ok tt.
Proof.
  intros Hlen Hi. apply validate_loop_complete;
    [apply validate_order_by_principal|apply above_empty|done| |by apply loop_chains_intact].
  by rewrite length_order_by.
Qed.

(** ** What the rebuild writes *)

(** The selected rows with the links the loop gives them. *)
Fixpoint relinked (active : string) (seq : Z) (prev : string) (todo : list (nat * EventRow))
  : list (nat * EventRow) :=
  match todo with
  | [] => []
  | (i, e) :: todo' =>
      let '(s, h) := loop_position active seq prev (ev_principal_id e) in
      (i, set_chain s h e)
        :: relinked (ev_principal_id e) (s + 1) (row_hash (set_chain s h e)) todo'
  end.

Lemma relinked_fst active seq prev todo : (relinked active seq prev todo).*1 = todo.*1.
Proof.
  revert active seq prev; induction todo as [|[i e] todo IH]; intros; [done|]. simpl.
  destruct (loop_position _ _ _ _) as [s h]. simpl. by rewrite IH.
Qed.

Lemma rebuild_loop_ok active seq prev todo rows :
  NoDup todo.*1 -> Forall (fun x => rows !! x.1 = Some x.2) todo ->
  0 <= seq -> seq + Z.of_nat (length todo) <= i64_max ->
  exists rows', rebuild_loop None active seq prev todo rows = Ok rows' /\
    length rows' = length rows /\
    Forall (fun x => rows' !! x.1 = Some x.2) (relinked active seq prev todo) /\
    forall i, i ∉ todo.*1 -> rows' !! i = rows !! i.
Proof.
  revert active seq prev rows; induction todo as [|[i e] todo IH];
    intros active seq prev rows Hnd Hat H0 Hlen.
  { exists rows. by repeat constructor. }
  simpl in *. apply NoDup_cons in Hnd as [Hi Hnd]. apply Forall_cons in Hat as [He Hat].
  destruct (loop_position active seq prev (ev_principal_id e)) as [s h] eqn:El.
  apply (loop_position_bounds _ _ _ _ _ _ (Z.of_nat (S (length todo)))) in El
    as [Hs0 Hs1]; [|lia..].
  unfold update_chain. simpl. rewrite i64_next by lia. simpl in *.
  destruct (IH (ev_principal_id e) (s + 1) (row_hash (set_chain s h e))
    (alter (set_chain s h) i rows)) as (rows' & Hr & Hl & Hre & Hout); [done| |lia|lia|].
  { rewrite !Forall_forall in *. intros [j f] Hj. simpl.
    rewrite list_lookup_alter_ne; [by apply (Hat (j, f))|].
    intros ->. apply Hi, list_elem_of_fmap. by exists (j, f). }
  exists rows'. split; [exact Hr|]. split; [by rewrite Hl, length_alter|]. split.
  - constructor; [|done]. simpl. rewrite Hout by done.
    rewrite list_lookup_alter_eq, He. done.
  - intros j Hj. rewrite Hout by set_solver. apply list_lookup_alter_ne. set_solver.
Qed.

Lemma elem_of_numbered i e rows : (i, e) ∈ numbered rows <-> rows !! i = Some e.
Proof.
  unfold numbered. rewrite elem_of_lookup_imap. split.
  - by intros (j & f & [= -> ->] & Hl).
  - intros Hl. by exists i, e.
Qed.

Lemma numbered_fst rows : (numbered rows).*1 = seq 0 (length rows).
Proof.
  apply list_eq. intros i. unfold numbered. rewrite list_lookup_fmap, list_lookup_imap.
  destruct (rows !! i) as [e|] eqn:E; simpl.
  - symmetry. apply lookup_seq. split; [done|by apply lookup_lt_Some in E].
  - symmetry. apply lookup_seq_ge. by apply lookup_ge_None in E.
Qed.

Lemma numbered_snd rows : (numbered rows).*2 = rows.
Proof.
  apply list_eq. intros i. unfold numbered. rewrite list_lookup_fmap, list_lookup_imap.
  by destruct (rows !! i).
Qed.

Lemma rebuild_permutes active seq prev todo rows rows' :
  todo ≡ₚ numbered rows -> length rows' = length rows ->
  Forall (fun x => rows' !! x.1 = Some x.2) (relinked active seq prev todo) ->
  relinked active seq prev todo ≡ₚ numbered rows'.
Proof.
  intros Hp Hl Hall.
  assert (Hlen : length (relinked active seq prev todo) = length rows').
  { rewrite <- (length_fmap fst), relinked_fst, length_fmap, Hp, Hl.
    unfold numbered. by rewrite length_imap. }
  apply submseteq_length_Permutation.
  - apply NoDup_submseteq.
    + apply (NoDup_fmap_1 fst). rewrite relinked_fst, Hp, numbered_fst. apply NoDup_seq.
    + intros [i e] Hin. rewrite Forall_forall in Hall. apply elem_of_numbered.
      apply (Hall _ Hin).
  - rewrite Hlen. unfold numbered. by rewrite length_imap.
Qed.

(** The rebuilt rows are in strictly increasing position. *)
Lemma relinked_sorted active seq prev todo :
  StronglySorted principal_le todo.*2 -> above active todo.*2 ->
  let l := (relinked active seq prev todo).*2 in
  StronglySorted pos_lt l /\
  Forall (fun e => str_lt active (ev_principal_id e) \/
                   (ev_principal_id e = active /\ seq <= ev_seq_num e)) l.
Proof.
  revert active seq prev; induction todo as [|[i e] todo IH];
    intros active seq prev Hs Ha; [by repeat constructor|].
  simpl in *. apply StronglySorted_cons in Hs as [He Hs]. apply Forall_cons in Ha as [Ha _].
  destruct (loop_position active seq prev (ev_principal_id e)) as [s h] eqn:El.
  destruct (IH (ev_principal_id e) (s + 1) (row_hash (set_chain s h e)) Hs He) as [Hsl Hal].
  simpl. split.
  - constructor; [done|]. eapply Forall_impl; [exact Hal|]. intros x Hx. unfold pos_lt. simpl.
    destruct Hx as [Hx|[-> Hx]]; [by left|right]. split; [done|lia].
  - unfold loop_position in El. case_bool_decide as Hp; simplify_eq; simpl.
    + constructor; [right; simpl; split; [done|lia]|].
      eapply Forall_impl; [exact Hal|]. intros x [?|[? ?]]; [by left|right; split; [done|lia]].
    + assert (Hlt : str_lt active (ev_principal_id e)) by (destruct Ha; congruence).
      constructor; [by left|]. eapply Forall_impl; [exact Hal|]. simpl.
      intros x [?|[-> _]]; left; [by eapply str_lt_trans|done].
Qed.

Lemma relinked_validates active seq prev todo :
  0 <= seq -> seq + Z.of_nat (length todo) <= i64_max ->
  validate_loop active seq prev (relinked active seq prev todo).*2 = Ok tt.
Proof.
  revert active seq prev; induction todo as [|[i e] todo IH];
    intros active seq prev H0 Hlen; [done|]. simpl in *.
  destruct (loop_position active seq prev (ev_principal_id e)) as [s h] eqn:El.
  pose proof El as El'.
  apply (loop_position_bounds _ _ _ _ _ _ (Z.of_nat (S (length todo)))) in El
    as [Hs0 Hs1]; [|lia..].
  simpl. rewrite El'. simpl. rewrite !bool_decide_eq_true_2 by done. simpl.
  rewrite i64_next by lia. simpl. apply IH; lia.
Qed.

Lemma rebuild_order_by_principal rows :
  StronglySorted principal_le (order_by rebuild_le (numbered rows)).*2.
Proof.
  generalize (rebuild_sorted (numbered rows)).
  induction 1 as [|x l _ IH Hx]; [constructor|]. simpl. constructor; [done|].
  apply Forall_fmap. eapply Forall_impl; [exact Hx|]. intros y. simpl.
  rewrite rebuild_le_spec. unfold pos_lt, principal_le, event_position.
  intros [[?|[? _]]|[[= ? _] _]]; auto.
Qed.

Definition rebuild_plan (rows : list EventRow) : list (nat * EventRow) :=
  relinked EmptyString 0 GENESIS_HASH (order_by rebuild_le (numbered rows)).

(** Without a unique index in the way a rebuild succeeds, and what it leaves is the
    plan, a table that validates. *)
Lemma rebuild_ok rows :
  Z.of_nat (length rows) <= i64_max ->
  exists rows', rebuild_event_chain_metadata None rows = Ok rows' /\
    length rows' = length rows /\ rebuild_plan rows ≡ₚ numbered rows' /\
    validate_chain_metadata rows' = Ok tt.
Proof.
  intros Hlen. set (todo := order_by rebuild_le (numbered rows)).
  assert (Hp : todo ≡ₚ numbered rows) by apply order_by_perm.
  assert (Hl : length todo = length rows).
  { rewrite Hp. unfold numbered. by rewrite length_imap. }
  destruct (rebuild_loop_ok EmptyString 0 GENESIS_HASH todo rows)
    as (rows' & Hr & Hl' & Hre & _); [| |done|by rewrite Hl|].
  { rewrite Hp, numbered_fst. apply NoDup_seq. }
  { apply Forall_forall. intros [i e] Hin. rewrite Hp in Hin. by apply elem_of_numbered. }
  pose proof (rebuild_permutes _ _ _ _ _ _ Hp Hl' Hre) as Hperm.
  exists rows'. split; [exact Hr|]. split; [done|]. split; [exact Hperm|].
  unfold validate_chain_metadata.
  rewrite (validate_order_unique rows' (rebuild_plan rows).*2).
  - apply relinked_validates; [done|]. by fold todo; rewrite Hl.
  - apply relinked_sorted; [apply rebuild_order_by_principal|apply above_empty].
  - unfold rebuild_plan. fold todo. by rewrite Hperm, numbered_snd.
Qed.

(** ** A legacy table is numbered in the order of its rows *)

Definition chain_defaults (rows : list EventRow) : Prop :=
  Forall (fun e => ev_seq_num e = 0) rows.

Lemma numbered_increasing rows :
  StronglySorted (fun x y => Z.of_nat x.1 < Z.of_nat y.1) (numbered rows).
Proof.
  unfold numbered.
  assert (Hgen : forall k, StronglySorted (fun x y => Z.of_nat x.1 < Z.of_nat y.1)
                             (imap (fun i e => (k + i, e)%nat) rows)).
  { induction rows as [|e rows IH]; intros k; [constructor|]. simpl. constructor.
    - rewrite (imap_ext _ (fun i e => (S k + i, e)%nat)); [apply IH|].
      intros i x _. simpl. f_equal. lia.
    - apply Forall_forall. intros x (i & y & -> & _)%elem_of_lookup_imap. simpl. lia. }
  exact (Hgen 0%nat).
Qed.

Lemma sorted_filter {A} (R : A -> A -> Prop) (P : A -> Prop) `{forall x, Decision (P x)} l :
  StronglySorted R l -> StronglySorted R (filter P l).
Proof.
  induction 1 as [|x l _ IH Hx]; [constructor|].
  destruct (decide (P x)); [rewrite filter_cons_True by done|by rewrite filter_cons_False].
  constructor; [done|]. apply Forall_forall. intros y [_ Hy]%list_elem_of_filter.
  rewrite Forall_forall in Hx. auto.
Qed.

Lemma relinked_filter_order active seq prev todo p :
  StronglySorted (fun x y => Z.of_nat x.1 < Z.of_nat y.1)
    (filter (fun x => ev_principal_id x.2 = p) todo) ->
  StronglySorted (fun x y => Z.of_nat x.1 < Z.of_nat y.1)
    (filter (fun x => ev_principal_id x.2 = p) (relinked active seq prev todo)).
Proof.
  assert (Hfst : (filter (fun x => ev_principal_id x.2 = p)
                    (relinked active seq prev todo)).*1
                 = (filter (fun x => ev_principal_id x.2 = p) todo).*1).
  { revert active seq prev; induction todo as [|[i e] todo IH]; intros; [done|]. simpl.
    destruct (loop_position _ _ _ _) as [s h].
    destruct (decide (ev_principal_id e = p)).
    - rewrite !filter_cons_True by done. simpl. by rewrite IH.
    - rewrite !filter_cons_False by done. apply IH. }
  revert Hfst. generalize (filter (fun x => ev_principal_id x.2 = p) todo) as l1.
  generalize (filter (fun x => ev_principal_id x.2 = p) (relinked active seq prev todo)) as l2.
  intros l2 l1 Hfst Hs. revert l2 Hfst.
  induction Hs as [|x l1 _ IH Hx]; intros [|y l2] Hfst; try done; [constructor|].
  injection Hfst as Hxy Hfst. change (l2.*1 = l1.*1) in Hfst.
  constructor; [by apply IH|].
  apply Forall_forall. intros z Hz. rewrite Forall_forall in Hx.
  assert (Hz1 : z.1 ∈ l1.*1).
  { rewrite <- Hfst. apply list_elem_of_fmap. eauto. }
  apply list_elem_of_fmap in Hz1 as (x' & Hzx & Hx'). rewrite Hxy, Hzx. by apply Hx.
Qed.

Lemma legacy_order rows p :
  chain_defaults rows ->
  StronglySorted (fun x y => Z.of_nat x.1 < Z.of_nat y.1)
    (filter (fun x => ev_principal_id x.2 = p) (order_by rebuild_le (numbered rows))).
Proof.
  intros Hd.
  assert (Hle : StronglySorted (fun x y => Z.of_nat x.1 <= Z.of_nat y.1)
    (filter (fun x => ev_principal_id x.2 = p) (order_by rebuild_le (numbered rows)))).
  { pose proof (rebuild_sorted (numbered rows)) as Hs.
    assert (Hd' : Forall (fun x => ev_seq_num x.2 = 0) (order_by rebuild_le (numbered rows))).
    { rewrite order_by_perm. apply Forall_forall. intros [i e] Hin%elem_of_numbered.
      unfold chain_defaults in Hd. rewrite Forall_forall in Hd.
      eapply Hd, list_elem_of_lookup_2, Hin. }
    induction Hs as [|x l _ IH Hx]; [constructor|]. apply Forall_cons in Hd' as [Hd0 Hd'].
    destruct (decide (ev_principal_id x.2 = p)) as [Hp|];
      [rewrite filter_cons_True by done|rewrite filter_cons_False by done; by apply IH].
    constructor; [by apply IH|]. apply Forall_forall. intros y [Hy Hin]%list_elem_of_filter.
    rewrite Forall_forall in Hx, Hd'. specialize (Hx _ Hin). specialize (Hd' _ Hin).
    apply rebuild_le_spec in Hx as [[Hl|[_ Hl]]|[_ ?]]; [|lia|lia].
    rewrite Hp, Hy in Hl. by apply str_lt_irrefl in Hl. }
  assert (Hi : filter (fun x => ev_principal_id x.2 = p) (order_by rebuild_le (numbered rows))
    = filter (fun x => ev_principal_id x.2 = p) (numbered rows)).
  { apply (strictly_sorted_unique (fun x => Z.of_nat x.1));
      [apply sorted_filter, numbered_increasing|done|by rewrite order_by_perm]. }
  rewrite Hi. apply sorted_filter, numbered_increasing.
Qed.

Lemma of_principal_snd p (l : list (nat * EventRow)) :
  of_principal p l.*2 = (filter (fun x => ev_principal_id x.2 = p) l).*2.
Proof.
  induction l as [|[i e] l IH]; [done|]. simpl. destruct (decide (ev_principal_id e = p)).
  - rewrite of_principal_cons_eq, filter_cons_True by done. cbn. f_equal. exact IH.
  - rewrite of_principal_cons_ne, filter_cons_False by done. exact IH.
Qed.

(** The repaired rows of a principal are in the order of the table. *)
Lemma legacy_rebuilt_chain rows rows' p :
  chain_defaults rows -> rebuild_plan rows ≡ₚ numbered rows' ->
  chains_intact rows' -> chain_from GENESIS_HASH 0 (of_principal p rows').
Proof.
  intros Hd Hp Hi.
  assert (Heq : filter (fun x => ev_principal_id x.2 = p) (rebuild_plan rows)
                = filter (fun x => ev_principal_id x.2 = p) (numbered rows')).
  { apply (strictly_sorted_unique (fun x => Z.of_nat x.1));
      [apply sorted_filter, numbered_increasing| |by rewrite Hp].
    eapply StronglySorted_weaken;
      [|apply relinked_filter_order, legacy_order, Hd]. simpl. lia. }
  assert (Hs : StronglySorted (fun x y => ev_seq_num x <= ev_seq_num y) (of_principal p rows')).
  { rewrite <- (numbered_snd rows'), of_principal_snd, <- Heq, <- of_principal_snd.
    destruct (relinked_sorted EmptyString 0 GENESIS_HASH (order_by rebuild_le (numbered rows))
      (rebuild_order_by_principal rows) (above_empty _)) as [Hpos _].
    fold (rebuild_plan rows) in Hpos. clear -Hpos.
    induction Hpos as [|e l _ IH He]; [constructor|].
    destruct (decide (ev_principal_id e = p)) as [Hp|];
      [rewrite of_principal_cons_eq by done|by rewrite of_principal_cons_ne].
    constructor; [done|]. apply Forall_forall. intros y [Hy Hin]%list_elem_of_filter.
    rewrite Forall_forall in He. destruct (He _ Hin) as [Hl|[_ ?]]; [|lia].
    rewrite Hp, Hy in Hl. by apply str_lt_irrefl in Hl. }
  specialize (Hi p). by rewrite order_by_key_id in Hi.
Qed.

End Rebuild.
