(* ===== verification/ChainMigrationTheorems.v ===== *)
(** * What opening a ledger ensures

    A ledger that opens has intact chains for every principal, and only the chain
    columns of its rows may have changed; a legacy ledger is upgraded, a broken one
    is refused, and opening again changes nothing. *)

From stdpp Require Import prelude gmap strings list sorting.
From S2P Require Import Prelude.
From S2P Require Import Json.
From S2P Require Import Env.
From S2P Require Import Concrete.
From S2P Require Import Schema.
From S2P Require Import Database.
From S2P Require Import Samples.
From S2P Require Import Ledger.
From S2P Require Import LedgerChain.
From S2P Require Import ChainMigration.
From S2P Require Import ChainMigrationLemmas.
Local Open Scope res_scope.
Local Open Scope Z_scope.

Section Theorems.
Context `{Env}.

(** ** The identity *)

Lemma validated_identity_frame db db' i :
  sqlite_master db' = sqlite_master db -> identity_rows db' = identity_rows db ->
  (DATABASE_IDENTITY_MIGRATION ∈ ledger_migrations db ->
   DATABASE_IDENTITY_MIGRATION ∈ ledger_migrations db') ->
  validated_database_instance_id db = Ok i -> validated_database_instance_id db' = Ok i.
Proof.
  unfold validated_database_instance_id, read_database_instance_id.
  intros -> -> Hm Hv. destruct (bool_decide _) eqn:E in Hv; [|done]. bool_props.
  by rewrite bool_decide_eq_true_2 by auto.
Qed.

Lemma validate_object_exists master ty name sql u :
  validate_database_schema_object master ty name sql = Ok u ->
  opt_is_some (schema_object_sql master ty name) = true.
Proof. unfold validate_database_schema_object. by destruct (schema_object_sql _ _ _). Qed.

Lemma identity_schema_complete master u :
  validate_identity_schema master = Ok u ->
  Forall (fun o => opt_is_some (schema_object_sql master (so_type o) (so_name o)) = true)
    identity_objects.
Proof.
  unfold validate_identity_schema. intros Hv.
  repeat match type of Hv with context [validate_database_schema_object ?m ?t ?n ?s] =>
    let E := fresh "E" in
    destruct (validate_database_schema_object m t n s) eqn:E; [|done];
    apply validate_object_exists in E; simpl in Hv end.
  by repeat constructor.
Qed.

Lemma ensure_identity_stable fresh db i :
  validated_database_instance_id db = Ok i ->
  ensure_database_instance_identity fresh db = Ok db.
Proof.
  intros Hv. unfold ensure_database_instance_identity. pose proof Hv as Hv'.
  unfold validated_database_instance_id in Hv.
  destruct (bool_decide (DATABASE_IDENTITY_MIGRATION ∈ _)); [|done]. simpl in Hv.
  destruct (validate_identity_schema (sqlite_master db)) as [u|] eqn:Es; [|done].
  apply identity_schema_complete in Es.
  assert (Hall : forallb id (map (fun o => has_object db (so_type o) (so_name o))
                   identity_objects) = true).
  { revert Es. generalize identity_objects as l.
    induction 1 as [|o l Ho _ IH]; [done|]. cbn. unfold has_object. by rewrite Ho. }
  rewrite Hall. cbv beta iota. by rewrite Hv'.
Qed.

Lemma ensure_identity_valid fresh db db' :
  ensure_database_instance_identity fresh db = Ok db' ->
  (exists i, validated_database_instance_id db' = Ok i) /\ events db' = events db /\
  incl (ledger_migrations db) (ledger_migrations db').
Proof.
  unfold ensure_database_instance_identity. intros He. cbv zeta in He.
  destruct (bool_decide _) in He.
  - destruct (forallb _ _) in He; [|done]. cbv beta iota in He.
    destruct (validated_database_instance_id db) eqn:Ev; [|done]. simplify_eq.
    split; [eauto|]. split; [done|apply incl_refl].
  - destruct (existsb _ _) in He; [done|].
    destruct (create_objects _ _) as [master|]; [|done]. cbv beta iota delta [ledger_sqlite] in He.
    destruct (validated_database_instance_id (with_identity _ _ _ _)) eqn:Ev; [|done].
    simplify_eq. split; [eauto|]. split; [done|]. simpl. apply incl_appl, incl_refl.
Qed.

(** ** What opening establishes *)

Record file_open (f : LedgerFile) : Prop := {
  fo_columns : Forall (fun c => has_column f c = true)
                 ["seq_num"; "prev_hash"; "parent_event_id"];
  fo_identity : exists i, validated_database_instance_id (lf_db f) = Ok i;
  fo_chain : validate_chain_metadata (file_events f) = Ok tt;
  fo_index : sequence_index_has_expected_shape f = true;
  fo_fts : FTS_REBUILD_MIGRATION ∈ ledger_migrations (lf_db f)
}.

Lemma with_db_eta f : with_db f (lf_db f) = f.
Proof. by destruct f. Qed.

Lemma ensure_column_present f name d : has_column f name = true -> ensure_column f name d = f.
Proof. unfold ensure_column. by intros ->. Qed.

Lemma file_open_ensure fresh at_ f : file_open f -> ensure_schema fresh at_ f = Ok f.
Proof.
  intros [Hc [i Hi] Hv Hx Hf]. rewrite !Forall_cons in Hc.
  destruct Hc as (Hseq & Hprev & Hpar & _). unfold ensure_schema.
  assert (Hb : create_tables_base f = f).
  { unfold create_tables_base. destruct (lf_event_columns f) eqn:E; [done|].
    unfold has_column in Hseq. by rewrite E in Hseq. }
  rewrite Hb, (ensure_identity_stable _ _ _ Hi), with_db_eta.
  rewrite Hseq, (ensure_column_present _ _ _ Hseq), Hprev,
    (ensure_column_present _ _ _ Hprev), (ensure_column_present _ _ _ Hpar), Hx.
  unfold migrate_or_validate_event_chain. rewrite Hv. unfold ensure_fts.
  by rewrite bool_decide_eq_true_2.
Qed.

Lemma has_column_ensured f name d : has_column (ensure_column f name d) name = true.
Proof.
  unfold ensure_column. destruct (has_column f name) eqn:E; [done|].
  unfold has_column, add_column. simpl. apply bool_decide_eq_true_2. set_solver.
Qed.

Lemma has_column_kept f name d c :
  has_column f c = true -> has_column (ensure_column f name d) c = true.
Proof.
  unfold ensure_column. destruct (has_column f name); [done|].
  unfold has_column, add_column. simpl. intros Hc. bool_props.
  apply bool_decide_eq_true_2. set_solver.
Qed.

(** What a successful chain step leaves. *)
Lemma migrate_result at_ added f f' :
  migrate_or_validate_event_chain at_ added f = Ok f' ->
  validate_chain_metadata (file_events f') = Ok tt /\
  (f' = f \/ exists rows log,
     rebuild_event_chain_metadata (lf_sequence_index f) (file_events f) = Ok rows /\
     (added || chain_metadata_is_all_defaults (file_events f)) = true /\
     f' = {| lf_db := with_events (lf_db f) rows; lf_event_columns := lf_event_columns f;
             lf_sequence_index := lf_sequence_index f; lf_chain_migrations := log;
             lf_fts := lf_fts f |}).
Proof.
  unfold migrate_or_validate_event_chain. intros Hm.
  destruct (validate_chain_metadata (file_events f)) as [[]|] eqn:Ev; [simplify_eq; auto|].
  destruct (added || _) eqn:Ea; [|done]. unfold migrate_event_chain in Hm. cbv zeta in Hm.
  destruct (chain_metadata_digest (file_events f)) as [n before].
  destruct (rebuild_event_chain_metadata _ _) as [rows|] eqn:Er; [|done].
  destruct (validate_chain_metadata rows) as [[]|] eqn:Ev'; [|done].
  destruct (chain_metadata_digest rows) as [n' after].
  destruct (bool_decide (n' = n)); [|done].
  destruct (record_chain_migration _ _ _ _ _ _) as [log|]; [|done]. simplify_eq.
  split; [done|]. right. eauto.
Qed.

(** The columns, the identity and the rows the chain step starts from. *)
Definition columns_ensured (f : LedgerFile) : LedgerFile :=
  ensure_column (ensure_column (ensure_column f "seq_num" default_seq_num)
                   "prev_hash" default_prev_hash) "parent_event_id" no_parent.

Definition finish_index (f : LedgerFile) : result LedgerError LedgerFile :=
  if sequence_index_has_expected_shape f then Ok f else recreate_sequence_index f.

(** [ensure_schema] as its three fallible steps. *)
Lemma ensure_schema_eq fresh at_ f :
  let f0 := create_tables_base f in
  ensure_schema fresh at_ f =
    (let? db := ensure_database_instance_identity fresh (lf_db f0) in
     let? f2 := migrate_or_validate_event_chain at_
        (negb (has_column f0 "seq_num") || negb (has_column f0 "prev_hash"))
        (columns_ensured (with_db f0 db)) in
     let? f3 := finish_index f2 in
     Ok (ensure_fts f3)).
Proof.
  unfold ensure_schema. cbv zeta.
  destruct (ensure_database_instance_identity _ _) as [db|]; [|done].
  fold (columns_ensured (with_db (create_tables_base f) db)).
  assert (Hp : has_column (ensure_column (with_db (create_tables_base f) db) "seq_num"
                             default_seq_num) "prev_hash"
               = has_column (create_tables_base f) "prev_hash").
  { unfold ensure_column. destruct (has_column _ "seq_num"); [done|].
    unfold has_column, add_column. simpl. apply bool_decide_ext. set_solver. }
  rewrite Hp. change (has_column (with_db (create_tables_base f) db) "seq_num")
    with (has_column (create_tables_base f) "seq_num").
  destruct (migrate_or_validate_event_chain _ _ _) as [f2|] eqn:Em; [|done].
  unfold finish_index. cbv beta iota.
  replace (sequence_index_has_expected_shape f2) with
    (sequence_index_has_expected_shape (columns_ensured (with_db (create_tables_base f) db)));
    [done|].
  apply migrate_result in Em as [_ [->|(? & ? & _ & _ & ->)]]; done.
Qed.

Lemma ensure_schema_inv fresh at_ f f' :
  ensure_schema fresh at_ f = Ok f' ->
  let f0 := create_tables_base f in
  exists db f2 f3,
    ensure_database_instance_identity fresh (lf_db f0) = Ok db /\
    migrate_or_validate_event_chain at_
      (negb (has_column f0 "seq_num") || negb (has_column f0 "prev_hash"))
      (columns_ensured (with_db f0 db)) = Ok f2 /\
    finish_index f2 = Ok f3 /\ f' = ensure_fts f3.
Proof.
  rewrite ensure_schema_eq. intros He. cbv zeta in *.
  destruct (ensure_database_instance_identity _ _) as [db|]; [|done].
  destruct (migrate_or_validate_event_chain _ _ _) as [f2|] eqn:Em; [|done].
  destruct (finish_index f2) as [f3|] eqn:Ef; [|done]. simplify_eq. by exists db, f2, f3.
Qed.

Lemma columns_ensured_has f c :
  c ∈ ["seq_num"; "prev_hash"; "parent_event_id"] ->
  has_column (columns_ensured f) c = true.
Proof.
  unfold columns_ensured. rewrite !elem_of_cons, elem_of_nil.
  intros [->|[->|[->|[]]]]; auto using has_column_kept, has_column_ensured.
Qed.

Lemma ensure_column_db f name d :
  exists evs, lf_db (ensure_column f name d) = with_events (lf_db f) evs.
Proof.
  unfold ensure_column. destruct (has_column f name); [|simpl; eauto].
  exists (file_events f). unfold file_events. by destruct (lf_db f).
Qed.

Lemma columns_ensured_db f : exists evs, lf_db (columns_ensured f) = with_events (lf_db f) evs.
Proof.
  unfold columns_ensured.
  destruct (ensure_column_db f "seq_num" default_seq_num) as [e1 E1].
  destruct (ensure_column_db (ensure_column f "seq_num" default_seq_num) "prev_hash"
              default_prev_hash) as [e2 E2].
  destruct (ensure_column_db (ensure_column (ensure_column f "seq_num" default_seq_num)
              "prev_hash" default_prev_hash) "parent_event_id" no_parent) as [e3 E3].
  exists e3. rewrite E3, E2, E1. done.
Qed.

Lemma ensure_fts_facts f :
  sqlite_master (lf_db (ensure_fts f)) = sqlite_master (lf_db f) /\
  identity_rows (lf_db (ensure_fts f)) = identity_rows (lf_db f) /\
  incl (ledger_migrations (lf_db f)) (ledger_migrations (lf_db (ensure_fts f))) /\
  file_events (ensure_fts f) = file_events f /\
  lf_event_columns (ensure_fts f) = lf_event_columns f /\
  lf_sequence_index (ensure_fts f) = lf_sequence_index f /\
  FTS_REBUILD_MIGRATION ∈ ledger_migrations (lf_db (ensure_fts f)).
Proof.
  unfold ensure_fts. case_bool_decide; simpl.
  - repeat split; [apply incl_refl|done].
  - repeat split; [apply incl_appl, incl_refl|set_solver].
Qed.

(** The chain and index steps change the rows, the log and the index only. *)
Lemma chain_steps_frame at_ added f1 f2 f3 :
  migrate_or_validate_event_chain at_ added f1 = Ok f2 -> finish_index f2 = Ok f3 ->
  lf_event_columns f3 = lf_event_columns f1 /\ file_events f3 = file_events f2 /\
  (exists evs, lf_db f3 = with_events (lf_db f1) evs) /\
  sequence_index_has_expected_shape f3 = true /\
  lf_chain_migrations f3 = lf_chain_migrations f2.
Proof.
  intros [_ Hm]%migrate_result Hx. unfold finish_index in Hx.
  assert (lf_event_columns f2 = lf_event_columns f1 /\
          exists evs, lf_db f2 = with_events (lf_db f1) evs) as (Hc & evs & Hdb).
  { destruct Hm as [->|(rows & log & _ & _ & ->)]; simpl; [|by eauto].
    split; [done|]. exists (file_events f1). unfold file_events. by destruct (lf_db f1). }
  destruct (sequence_index_has_expected_shape f2) eqn:Es; [simplify_eq; by eauto 10|].
  unfold recreate_sequence_index in Hx. destruct (index_admits _ _); [|done].
  simplify_eq. simpl. split; [done|]. split; [done|]. split; [eauto|].
  by vm_compute.
Qed.

(** The identity that was validated is the identity of the result. *)
Lemma ensure_schema_identity fresh at_ f f' db i :
  ensure_schema fresh at_ f = Ok f' ->
  ensure_database_instance_identity fresh (lf_db (create_tables_base f)) = Ok db ->
  validated_database_instance_id db = Ok i ->
  validated_database_instance_id (lf_db f') = Ok i.
Proof.
  intros He Hi Hv. apply ensure_schema_inv in He as (db' & f2 & f3 & Hi' & Hm & Hx & ->).
  assert (db' = db) as -> by congruence.
  pose proof (chain_steps_frame _ _ _ _ _ Hm Hx) as (_ & _ & [evs Hdb] & _).
  destruct (columns_ensured_db (with_db (create_tables_base f) db)) as [evs' Hdb'].
  simpl in Hdb'. rewrite Hdb' in Hdb.
  destruct (ensure_fts_facts f3) as (F1 & F2 & F3 & _).
  eapply (validated_identity_frame db); [by rewrite F1, Hdb|by rewrite F2, Hdb| |done].
  intros Hin. apply list_elem_of_In, F3. rewrite Hdb. by apply list_elem_of_In.
Qed.

Lemma ensure_schema_open fresh at_ f f' : ensure_schema fresh at_ f = Ok f' -> file_open f'.
Proof.
  intros He. pose proof (fun db i => ensure_schema_identity _ _ _ _ db i He) as Hid.
  apply ensure_schema_inv in He as (db & f2 & f3 & Hi & Hm & Hx & ->).
  destruct (ensure_identity_valid _ _ _ Hi) as ([i Hv] & _ & _).
  pose proof (chain_steps_frame _ _ _ _ _ Hm Hx) as (Hc & Hev & _ & Hshape & _).
  destruct (ensure_fts_facts f3) as (_ & _ & _ & F4 & F5 & F6 & F7).
  split; [|by exists i; eauto| | |done].
  - apply Forall_forall. intros c Hcol. unfold has_column. rewrite F5, Hc.
    by apply (columns_ensured_has (with_db (create_tables_base f) db)).
  - rewrite F4, Hev. by apply migrate_result in Hm as [? _].
  - unfold sequence_index_has_expected_shape in *. by rewrite F6.
Qed.

(** ** Only the chain columns change *)

(** A row without its chain columns. *)
Definition event_content (e : EventRow) : EventRow := set_chain 0 EmptyString e.

Lemma alter_content i s h rows :
  map event_content (alter (set_chain s h) i rows) = map event_content rows.
Proof.
  revert i; induction rows as [|e rows IH]; intros [|i]; [done..|]. simpl. f_equal. apply IH.
Qed.

Lemma rebuild_loop_content index active seq prev todo rows rows' :
  rebuild_loop index active seq prev todo rows = Ok rows' ->
  map event_content rows' = map event_content rows.
Proof.
  revert active seq prev rows; induction todo as [|[i e] todo IH];
    intros active seq prev rows Hr; simpl in Hr; [by simplify_eq|].
  destruct (loop_position _ _ _ _) as [s h]. unfold update_chain in Hr.
  destruct (index_admits _ _); [|done]. cbv beta iota in Hr.
  destruct (ok_or _ _); [|done]. apply IH in Hr. by rewrite Hr, alter_content.
Qed.

Lemma migrate_content at_ added f f' :
  migrate_or_validate_event_chain at_ added f = Ok f' ->
  map event_content (file_events f') = map event_content (file_events f).
Proof.
  intros Hm. apply migrate_result in Hm as [_ [->|(rows & log & Hr & _ & ->)]]; [done|].
  by apply rebuild_loop_content in Hr.
Qed.

(** The rows as a reader of the old file saw them: without the parent column
    there is no parent. *)
Definition legacy_content (f : LedgerFile) (e : EventRow) : EventRow :=
  event_content (if has_column f "parent_event_id" then e else no_parent e).

Lemma columns_ensured_content f :
  map event_content (file_events (columns_ensured f)) = map (legacy_content f) (file_events f).
Proof.
  assert (Hp : forall g n d, n <> "parent_event_id" ->
            has_column (ensure_column g n d) "parent_event_id" = has_column g "parent_event_id").
  { intros g n d Hn. unfold ensure_column. destruct (has_column g n); [done|].
    unfold has_column, add_column. simpl. apply bool_decide_ext. set_solver. }
  assert (He : forall g n d, (forall e, event_content (d e) = event_content e) ->
            (forall e, event_content (no_parent (d e)) = event_content (no_parent e)) ->
            map event_content (file_events (ensure_column g n d))
            = map event_content (file_events g) /\
            map (fun e => event_content (no_parent e)) (file_events (ensure_column g n d))
            = map (fun e => event_content (no_parent e)) (file_events g)).
  { intros g n d Hd Hd'. unfold ensure_column. destruct (has_column g n); [done|].
    unfold add_column, file_events. simpl. rewrite !map_map.
    split; apply map_ext; auto. }
  unfold columns_ensured, legacy_content.
  set (f1 := ensure_column f "seq_num" default_seq_num).
  set (f2 := ensure_column f1 "prev_hash" default_prev_hash).
  destruct (He f "seq_num" default_seq_num) as [E1 E1']; [done|done|].
  destruct (He f1 "prev_hash" default_prev_hash) as [E2 E2']; [done|done|].
  unfold ensure_column at 1. unfold f2, f1 at 1.
  rewrite !Hp by done. destruct (has_column f "parent_event_id").
  - fold f1. rewrite E2. unfold f1. rewrite E1. done.
  - etrans; [|exact E1']. etrans; [|exact E2'].
    unfold add_column, file_events. simpl. by rewrite map_map.
Qed.

Lemma create_tables_content f f' :
  create_tables_base f = f' -> (lf_event_columns f = None -> file_events f = []) ->
  file_events f' = file_events f.
Proof.
  intros <- Hn. unfold create_tables_base. destruct (lf_event_columns f); [done|].
  simpl. unfold file_events in *. simpl. symmetry. auto.
Qed.

(** ** Appends to an open ledger *)

Lemma strict_NoDup {A} (key : A -> Z) l :
  StronglySorted (fun x y => key x < key y) l -> NoDup (map key l).
Proof.
  induction 1 as [|x l _ IH Hx]; simpl; constructor; [|done].
  rewrite Forall_forall in Hx. intros (y & Hk & Hy)%list_elem_of_fmap.
  specialize (Hx y Hy). lia.
Qed.

Lemma intact_positions rows : chains_intact rows -> NoDup (map event_position rows).
Proof.
  intros Hi.
  assert (Hnd : forall p, NoDup (map ev_seq_num (of_principal p rows))).
  { intros p. pose proof (strict_NoDup _ _ (chain_from_strict _ _ _ (Hi p))) as Hn.
    unfold order_by_key in Hn. by rewrite order_by_perm in Hn. }
  clear Hi. induction rows as [|e rows IH]; simpl; constructor.
  - intros (x & Hx & Hin)%list_elem_of_fmap. specialize (Hnd (ev_principal_id e)).
    rewrite of_principal_cons_eq in Hnd by done. apply NoDup_cons in Hnd as [Hnot _].
    apply Hnot. apply list_elem_of_fmap. exists x. unfold event_position in Hx.
    injection Hx as Hp ->. split; [done|]. by apply list_elem_of_filter.
  - apply IH. intros p. specialize (Hnd p).
    destruct (decide (ev_principal_id e = p)) as [Hp|Hp].
    + rewrite of_principal_cons_eq in Hnd by done. by apply NoDup_cons in Hnd as [_ ?].
    + by rewrite of_principal_cons_ne in Hnd.
Qed.

Lemma append_intact db ev pol ins db' :
  chains_intact (events db) -> append_prepared_event db ev pol = Ok (ins, db') ->
  chains_intact (events db').
Proof.
  intros Hi Ha. destruct ins; [|by apply append_existing in Ha as [-> _]].
  apply append_inserted in Ha as (seq & prev & _ & Hn & ->). intros p. simpl.
  apply next_chain_position_end in Hn as [He _]; [|apply Hi].
  unfold of_principal. rewrite filter_app.
  destruct (decide (pe_principal_id ev = p)) as [<-|Hne].
  - rewrite filter_cons_True, filter_nil by done.
    assert (Hc : chain_from GENESIS_HASH 0
      (principal_events db (pe_principal_id ev) ++ [prepared_row ev seq prev])).
    { apply chain_from_app. split; [apply Hi|]. rewrite <- He. done. }
    rewrite (order_by_key_perm ev_seq_num _ _ (chain_from_strict _ _ _ Hc)); [done|].
    unfold principal_events, order_by_key. by rewrite order_by_perm.
  - rewrite filter_cons_False, filter_nil, app_nil_r by done. apply Hi.
Qed.

Definition file_step (f g : LedgerFile) : Prop :=
  exists ev pol ins, file_append f ev pol = Ok (ins, g).

Lemma file_append_inv f ev pol ins g :
  file_append f ev pol = Ok (ins, g) ->
  append_prepared_event (lf_db f) ev pol = Ok (ins, lf_db g) /\
  lf_event_columns g = lf_event_columns f /\ lf_sequence_index g = lf_sequence_index f.
Proof.
  unfold file_append. intros Ha.
  destruct (append_prepared_event (lf_db f) ev pol) as [[i db]|]; [|done].
  destruct i; by simplify_eq/=.
Qed.

Lemma append_frame db ev pol ins db' :
  append_prepared_event db ev pol = Ok (ins, db') ->
  exists evs, db' = with_events db evs /\ (length (events db) <= length evs)%nat.
Proof.
  intros Ha. destruct ins.
  - apply append_inserted in Ha as (seq & prev & _ & _ & ->). eexists. split; [done|].
    rewrite length_app. lia.
  - apply append_existing in Ha as [-> _]. exists (events db). by destruct db.
Qed.

Lemma file_step_open f g :
  file_step f g -> Z.of_nat (length (file_events g)) <= i64_max -> file_open f -> file_open g.
Proof.
  intros (ev & pol & ins & (Ha & Hc & Hx)%file_append_inv) Hlen [F1 [i F2] F3 F4 F5].
  destruct (append_frame _ _ _ _ _ Ha) as (evs & Hdb & _). split.
  - unfold has_column in *. by rewrite Hc.
  - exists i. by apply (validated_identity_frame (lf_db f)); rewrite ?Hdb.
  - apply validate_complete; [done|]. eapply append_intact; [|exact Ha].
    by apply validate_sound.
  - unfold sequence_index_has_expected_shape in *. by rewrite Hx.
  - by rewrite Hdb.
Qed.

Lemma file_step_length f g :
  file_step f g -> (length (file_events f) <= length (file_events g))%nat.
Proof.
  intros (ev & pol & ins & (Ha & _ & _)%file_append_inv).
  destruct (append_frame _ _ _ _ _ Ha) as (evs & Hdb & Hl). unfold file_events.
  by rewrite Hdb.
Qed.

Lemma file_steps_open f g :
  rtc file_step f g -> Z.of_nat (length (file_events g)) <= i64_max ->
  file_open f -> file_open g.
Proof.
  intros Hs. induction Hs as [|f f1 g Hf Hs IH]; [done|]. intros Hlen Ho.
  apply IH; [done|]. eapply file_step_open; [done| |done].
  assert (length (file_events f1) <= length (file_events g))%nat; [|lia].
  clear -Hs. induction Hs as [|a b c Hab _ IH]; [done|]. apply file_step_length in Hab. lia.
Qed.

Lemma intact_verifies db p :
  (exists i, read_database_instance_id db = Ok i) ->
  chains_intact (events db) -> Z.of_nat (length (events db)) <= i64_max ->
  let n := length (of_principal p (events db)) in
  verify_chain {| el_instance_id := None |} db p
  = Ok {| total := n; cv_verified := n; broken_at := None |}.
Proof.
  intros [i Hr] Hi Hlen n. unfold verify_chain.
  rewrite with_conn_ok by (exists i; auto).
  assert (Hn : length (principal_events db p) = n) by apply length_order_by.
  assert (Hle : (n <= length (events db))%nat) by apply length_filter.
  pose proof (verify_loop_spec p (length (principal_events db p)) 0 GENESIS_HASH 0
    (principal_events db p) (principal_events_of db p) ltac:(unfold i64_max; lia)) as Hl.
  destruct (verify_loop _ _ _ _ _ _) as [r|]; [|lia].
  destruct Hl as [Ht (k & Hk & Hkl & _ & Hb)]. destruct r as [t v b]. simpl in *.
  destruct b as [s|]; [|f_equal; f_equal; lia].
  destruct Hb as (x & _ & _ & Hnot). exfalso. apply Hnot. specialize (Hi p).
  fold (principal_events db p) in Hi. rewrite <- (take_drop (S k)) in Hi.
  by apply chain_from_app in Hi as [? _].
Qed.

(** C13.  Opening a ledger is sound: when [ensure_schema] succeeds on a file, every
    principal's events form an intact chain, and the rows differ from what the file
    held in the chain columns only; if the file already had all columns and any
    chain data of its own, not even those are touched and nothing is logged, so a
    chain that is broken is refused and never repaired.  After any number of appends
    the ledger still verifies in full for every principal, and opening it again
    succeeds and changes nothing. *)
Theorem opened_ledger_stays_intact fresh at_ f f' g :
  ensure_schema fresh at_ f = Ok f' ->
  (lf_event_columns f = None -> file_events f = []) ->
  rtc file_step f' g -> Z.of_nat (length (file_events g)) <= i64_max ->
  map event_content (file_events f') = map (legacy_content (create_tables_base f)) (file_events f) /\
  (Forall (fun c => has_column f c = true) ["seq_num"; "prev_hash"; "parent_event_id"] ->
   chain_metadata_is_all_defaults (file_events f) = false ->
   file_events f' = file_events f /\ lf_chain_migrations f' = lf_chain_migrations f) /\
  (forall p, let n := length (of_principal p (file_events g)) in
     verify_chain {| el_instance_id := None |} (lf_db g) p
     = Ok {| total := n; cv_verified := n; broken_at := None |}) /\
  forall fresh' at_', ensure_schema fresh' at_' g = Ok g.
Proof.
  intros He Hnone Hsteps Hlen.
  pose proof (file_steps_open _ _ Hsteps Hlen (ensure_schema_open _ _ _ _ He)) as Ho.
  pose proof He as Hinv.
  apply ensure_schema_inv in Hinv as (db & f2 & f3 & Hi & Hm & Hx & ->).
  apply ensure_identity_valid in Hi as (_ & Hev & _).
  pose proof (chain_steps_frame _ _ _ _ _ Hm Hx) as (_ & Hev3 & _ & _ & Hlog3).
  destruct (ensure_fts_facts f3) as (_ & _ & _ & F4 & _).
  split; [|split; [|split]].
  - rewrite F4, Hev3, (migrate_content _ _ _ _ Hm), columns_ensured_content.
    unfold file_events at 1. simpl. rewrite Hev. fold (file_events (create_tables_base f)).
    by rewrite (create_tables_content f _ eq_refl Hnone).
  - intros Hcols Hdef. rewrite !Forall_cons in Hcols. destruct Hcols as (C1 & C2 & C3 & _).
    assert (Hb : create_tables_base f = f).
    { unfold create_tables_base. destruct (lf_event_columns f) eqn:E; [done|].
      unfold has_column in C1. by rewrite E in C1. }
    rewrite Hb in *.
    assert (Hce : columns_ensured (with_db f db) = with_db f db).
    { unfold columns_ensured.
      rewrite (ensure_column_present (with_db f db) "seq_num" _ C1),
        (ensure_column_present (with_db f db) "prev_hash" _ C2).
      exact (ensure_column_present (with_db f db) "parent_event_id" _ C3). }
    rewrite Hce, C1, C2 in Hm. simpl in Hm.
    assert (Hfe : file_events (with_db f db) = file_events f) by exact Hev.
    apply migrate_result in Hm as [_ [->|(rows & log & _ & Hor & _)]];
      [|rewrite Hfe, Hdef in Hor; done].
    rewrite F4, Hev3. split; [done|].
    etrans; [|exact Hlog3]. unfold ensure_fts. by case_bool_decide.
  - intros p. destruct Ho as [_ [i Hid] Hv _ _]. apply intact_verifies; [|by apply validate_sound|done].
    exists i. by apply validated_read.
  - intros fresh' at_'. by apply file_open_ensure.
Qed.

(** ** A legacy file *)

Lemma schema_object_fresh master objects ty name :
  Forall (fun o => so_name o <> name) master ->
  schema_object_sql (master ++ objects) ty name = schema_object_sql objects ty name.
Proof.
  intros Hm. unfold schema_object_sql. rewrite filter_app.
  replace (filter (fun o => so_type o = ty /\ so_name o = name) master)
    with ([] : list SchemaObject);
    [done|].
  symmetry. induction Hm as [|o m Ho _ IH]; [done|]. rewrite filter_cons_False; [done|tauto].
Qed.

Definition identity_names : list string := map so_name identity_objects.

(** A file from before databases had identities. *)
Record no_identity (db : Db) : Prop := {
  ni_marker : DATABASE_IDENTITY_MIGRATION ∉ ledger_migrations db;
  ni_objects : Forall (fun o => (so_name o ∉ identity_names) /\
                                so_tbl_name o <> DATABASE_IDENTITY_TABLE) (sqlite_master db)
}.

Lemma name_fresh master name ty :
  Forall (fun o => so_name o <> name) master -> name_taken master ty name = false.
Proof.
  intros Hm. unfold name_taken. apply bool_decide_eq_false_2.
  rewrite Exists_exists. rewrite Forall_forall in Hm. naive_solver.
Qed.

Lemma create_objects_ok objects : forall master,
  Forall (fun o => so_name o ∉ map so_name objects) master ->
  NoDup (map so_name objects) -> create_objects master objects = Ok (master ++ objects).
Proof.
  induction objects as [|o objects IH]; intros master Hm Hnd; simpl.
  { by rewrite app_nil_r. }
  rewrite name_fresh; cycle 1.
  { eapply Forall_impl; [exact Hm|]. simpl. set_solver. }
  simpl in Hnd. apply NoDup_cons in Hnd as [Ho Hnd]. simpl. rewrite IH; [|..|done].
  - by rewrite <- app_assoc.
  - apply Forall_app. split; [|constructor; [done|constructor]].
    eapply Forall_impl; [exact Hm|]. simpl. set_solver.
Qed.

Lemma identity_object_installed master o :
  o ∈ identity_objects -> Forall (fun x => so_name x ∉ identity_names) master ->
  validate_database_schema_object (master ++ identity_objects) (so_type o) (so_name o)
    (so_sql o) = Ok tt.
Proof.
  intros Ho Hm. unfold validate_database_schema_object. rewrite schema_object_fresh.
  - assert (Hs : schema_object_sql identity_objects (so_type o) (so_name o) = Some (so_sql o)).
    { unfold identity_objects in Ho. rewrite !elem_of_cons, elem_of_nil in Ho.
      destruct Ho as [->|[->|[->|[->|[]]]]]; reflexivity. }
    rewrite Hs. simpl. by rewrite bool_decide_eq_true_2.
  - eapply Forall_impl; [exact Hm|]. intros x Hx Heq. apply Hx. rewrite Heq.
    by apply list_elem_of_fmap_2.
Qed.

Lemma fresh_identity_schema master :
  Forall (fun o => (so_name o ∉ identity_names) /\ so_tbl_name o <> DATABASE_IDENTITY_TABLE)
    master ->
  validate_identity_schema (master ++ identity_objects) = Ok tt.
Proof.
  intros Hm.
  assert (Hn : Forall (fun x => so_name x ∉ identity_names) master).
  { eapply Forall_impl; [exact Hm|]. by intros x [? _]. }
  assert (Hall : Forall (fun o => validate_database_schema_object (master ++ identity_objects)
                   (so_type o) (so_name o) (so_sql o) = Ok tt) identity_objects).
  { apply Forall_forall. intros o Ho. by apply identity_object_installed. }
  remember (master ++ identity_objects) as m eqn:Em. unfold identity_objects in Hall.
  rewrite !Forall_cons in Hall. unfold trigger_object in Hall.
  cbn [so_type so_name so_sql] in Hall. destruct Hall as (V1 & V2 & V3 & V4 & _).
  unfold validate_identity_schema.
  rewrite V1; cbv beta iota. rewrite V2; cbv beta iota.
  rewrite V3; cbv beta iota. rewrite V4; cbv beta iota. subst m.
  unfold first_extra_trigger. rewrite filter_app.
  replace (filter _ master) with ([] : list SchemaObject); [by vm_compute|].
  symmetry. clear -Hm. induction Hm as [|o m [_ Ho] _ IH]; [done|].
  rewrite filter_cons_False; [apply IH|].
  intros (_ & Ht & _). set_solver.
Qed.

Definition identified (fresh : string) (db : Db) : Db :=
  with_identity db (ledger_migrations db ++ [DATABASE_IDENTITY_MIGRATION])
    [(1, fresh)] (sqlite_master db ++ identity_objects).

Lemma identified_valid fresh db :
  no_identity db -> uuid_reprint fresh = Some fresh ->
  validated_database_instance_id (identified fresh db) = Ok fresh.
Proof.
  intros [_ Ho] Hu. unfold validated_database_instance_id. simpl ledger_migrations.
  rewrite bool_decide_eq_true_2 by set_solver. cbv beta iota. simpl sqlite_master.
  rewrite (fresh_identity_schema _ Ho). cbv beta iota.
  unfold read_database_instance_id. simpl identity_rows. cbv beta iota.
  rewrite bool_decide_eq_true_2 by done. rewrite Hu. simpl.
  by rewrite bool_decide_eq_true_2.
Qed.

Lemma fresh_identity fresh db :
  no_identity db -> uuid_reprint fresh = Some fresh ->
  ensure_database_instance_identity fresh db
  = Ok (identified fresh db).
Proof.
  intros Hni Hu. pose proof (identified_valid _ _ Hni Hu) as Hv. destruct Hni as [Hm Ho].
  assert (Hn : Forall (fun x => so_name x ∉ identity_names) (sqlite_master db)).
  { eapply Forall_impl; [exact Ho|]. by intros x [? _]. }
  assert (Hnone : existsb (fun b : bool => b) (map (fun o => has_object db (so_type o) (so_name o))
                    identity_objects) = false).
  { apply not_true_iff_false. rewrite existsb_exists. intros (b & Hin & ->).
    apply in_map_iff in Hin as (o & Hb & Hin). apply list_elem_of_In in Hin.
    unfold has_object in Hb. rewrite <- (app_nil_r (sqlite_master db)) in Hb.
    rewrite schema_object_fresh in Hb; [done|].
    eapply Forall_impl; [exact Hn|]. intros x Hx Heq. apply Hx. rewrite Heq.
    by apply list_elem_of_fmap_2. }
  unfold ensure_database_instance_identity. cbv zeta.
  rewrite (bool_decide_eq_false_2 _ Hm).
  change (existsb id) with (existsb (fun b : bool => b)). rewrite Hnone.
  rewrite create_objects_ok; [|exact Hn|apply (bool_decide_eq_true_1 _); by vm_compute].
  cbv beta iota delta [ledger_sqlite]. fold (identified fresh db). by rewrite Hv.
Qed.

(** A file whose rows carry no chain: from before the sequence column, or with
    nothing but defaults. *)
Definition legacy_chain (f : LedgerFile) : Prop :=
  exists columns, lf_event_columns f = Some columns /\
    ("seq_num" ∉ columns \/
     chain_defaults (file_events f) /\
     Forall (fun e => ev_prev_hash e = GENESIS_HASH) (file_events f)).

Lemma ensure_column_forall (P : EventRow -> Prop) f name d :
  (forall e, P e -> P (d e)) -> Forall P (file_events f) ->
  Forall P (file_events (ensure_column f name d)).
Proof.
  intros Hd Hf. unfold ensure_column. destruct (has_column f name); [done|].
  unfold add_column, file_events. simpl. apply Forall_fmap. eapply Forall_impl; [exact Hf|].
  intros e He. by apply Hd.
Qed.

(** What the chain step needs of a legacy file: all sequence numbers are zero, and
    it is allowed to repair. *)
Lemma legacy_columns f :
  legacy_chain f ->
  chain_defaults (file_events (columns_ensured f)) /\
  (negb (has_column f "seq_num") || negb (has_column f "prev_hash")
   || chain_metadata_is_all_defaults (file_events (columns_ensured f))) = true.
Proof.
  intros (columns & Hc & Hcase). unfold chain_defaults, columns_ensured.
  destruct Hcase as [Hno|[Hd Hp]].
  - assert (Hs : has_column f "seq_num" = false).
    { unfold has_column. rewrite Hc. by apply bool_decide_eq_false_2. }
    rewrite Hs. split; [|done].
    apply ensure_column_forall; [done|]. apply ensure_column_forall; [done|].
    unfold ensure_column. rewrite Hs. unfold add_column, file_events. simpl.
    apply Forall_fmap, Forall_true. done.
  - split.
    { by repeat (apply ensure_column_forall; [done|]). }
    apply orb_true_iff. right. unfold chain_metadata_is_all_defaults.
    apply bool_decide_eq_true_2.
    assert (Hall : Forall (fun e => ev_seq_num e = 0 /\ ev_prev_hash e = GENESIS_HASH)
                     (file_events (columns_ensured f))).
    { unfold columns_ensured. repeat (apply ensure_column_forall; [naive_solver|]).
      apply Forall_and. done. }
    unfold columns_ensured in Hall. clear -Hall.
    induction Hall as [|e l [He He'] _ IH]; [done|]. rewrite filter_cons_False; [done|tauto].
Qed.

Lemma digest_count rows : (chain_metadata_digest rows).1 = length rows.
Proof.
  unfold chain_metadata_digest. simpl. rewrite length_order_by. unfold numbered.
  by rewrite length_imap.
Qed.

(** The chain step on a legacy table without an index or a log. *)
Lemma legacy_migrates at_ added f :
  chain_defaults (file_events f) ->
  (added || chain_metadata_is_all_defaults (file_events f)) = true ->
  lf_sequence_index f = None -> lf_chain_migrations f = [] ->
  Z.of_nat (length (file_events f)) <= i64_max ->
  exists f', migrate_or_validate_event_chain at_ added f = Ok f' /\
    lf_sequence_index f' = None /\
    forall p, chain_from GENESIS_HASH 0 (of_principal p (file_events f')).
Proof.
  intros Hd Ha Hx Hl Hlen. unfold migrate_or_validate_event_chain.
  destruct (validate_chain_metadata (file_events f)) as [[]|] eqn:Ev.
  - exists f. split; [done|]. split; [done|]. intros p.
    pose proof (validate_sound _ Ev p) as Hc. rewrite order_by_key_id in Hc; [done|].
    assert (Hz : Forall (fun e => ev_seq_num e = 0) (of_principal p (file_events f))).
    { apply Forall_forall. intros e [_ He]%list_elem_of_filter.
      unfold chain_defaults in Hd. rewrite Forall_forall in Hd. auto. }
    clear -Hz. induction Hz as [|e l He Hz IH]; constructor; [done|].
    eapply Forall_impl; [exact Hz|]. simpl. lia.
  - rewrite Ha. unfold migrate_event_chain. cbv zeta. rewrite Hx.
    destruct (rebuild_ok _ Hlen) as (rows & Hr & Hrl & Hp & Hv).
    rewrite Hr, Hv. rewrite (surjective_pairing (chain_metadata_digest (file_events f))).
    rewrite (surjective_pairing (chain_metadata_digest rows)). rewrite !digest_count.
    rewrite bool_decide_eq_true_2 by done. unfold record_chain_migration. rewrite Hl.
    unfold in_i64. rewrite bool_decide_eq_true_2 by (unfold i64_min; lia).
    rewrite bool_decide_eq_true_2 by set_solver. eexists. split; [reflexivity|].
    split; [done|]. intros p. eapply legacy_rebuilt_chain; [exact Hd|exact Hp|].
    by apply validate_sound.
Qed.

Lemma intact_admits_created rows :
  chains_intact rows -> index_admits (Some created_index) rows = true.
Proof. intros Hi. simpl. apply bool_decide_eq_true_2. by apply intact_positions. Qed.

Lemma chains_in_order rows :
  (forall p, chain_from GENESIS_HASH 0 (of_principal p rows)) -> chains_intact rows.
Proof.
  intros Hc p. rewrite order_by_key_id; [done|]. apply (chain_from_sorted _ _ _ (Hc p)).
Qed.

Lemma chain_rows_bounded rows :
  (forall p, chain_from GENESIS_HASH 0 (of_principal p rows)) ->
  Z.of_nat (length rows) <= i64_max -> Forall (fun e => ev_seq_num e <= i64_max) rows.
Proof.
  intros Hc Hlen. apply Forall_forall. intros e He.
  pose proof (chain_bounds _ _ _ (Hc (ev_principal_id e))) as Hb.
  rewrite Forall_forall in Hb.
  assert (Hin : e ∈ of_principal (ev_principal_id e) rows) by (by apply list_elem_of_filter).
  specialize (Hb e Hin).
  pose proof (length_filter (fun x => ev_principal_id x = ev_principal_id e) rows).
  unfold of_principal in Hb. lia.
Qed.

Lemma columns_ensured_ids f :
  map ev_event_id (file_events (columns_ensured f)) = map ev_event_id (file_events f).
Proof.
  pose proof (columns_ensured_content f) as Hc. apply (f_equal (map ev_event_id)) in Hc.
  rewrite !map_map in Hc. etrans; [exact Hc|]. apply map_ext. intros e.
  unfold legacy_content. by destruct (has_column f "parent_event_id").
Qed.

Lemma columns_ensured_index f :
  lf_sequence_index (columns_ensured f) = lf_sequence_index f /\
  lf_chain_migrations (columns_ensured f) = lf_chain_migrations f.
Proof.
  assert (He : forall g n d, lf_sequence_index (ensure_column g n d) = lf_sequence_index g /\
                lf_chain_migrations (ensure_column g n d) = lf_chain_migrations g).
  { intros g n d. unfold ensure_column. by destruct (has_column g n). }
  unfold columns_ensured. split; by rewrite !(proj1 (He _ _ _)) || by rewrite !(proj2 (He _ _ _)).
Qed.


(** ** The handle and the full-text index *)

Lemma file_step_frame f g :
  file_step f g -> exists evs, lf_db g = with_events (lf_db f) evs.
Proof.
  intros (ev & pol & ins & (Ha & _ & _)%file_append_inv).
  destruct (append_frame _ _ _ _ _ Ha) as (evs & Hdb & _). eauto.
Qed.

Lemma file_steps_read f g :
  rtc file_step f g -> read_database_instance_id (lf_db g) = read_database_instance_id (lf_db f).
Proof.
  induction 1 as [|a b c [evs Hdb]%file_step_frame _ IH]; [done|].
  rewrite IH. unfold read_database_instance_id. by rewrite Hdb.
Qed.

(** The first connection of a handle observes the identity of the file, and
    every later operation of the handle on that file finds the same identity,
    whatever has been appended. *)
Theorem connected_handle_ok fresh at_ self f f' self' g :
  connect fresh at_ false self f = (f', Ok self') -> rtc file_step f' g ->
  file_open f' /\ handle_ok self' (lf_db g) /\
  (forall x, el_instance_id self = Some x -> self' = self).
Proof.
  unfold connect. intros Hc Hs.
  destruct (ensure_schema fresh at_ f) as [f1|] eqn:Ee; [|done].
  injection Hc as <- Hc. split; [by eapply ensure_schema_open|].
  rewrite <- (file_steps_read _ _ Hs) in Hc.
  unfold handle_ok.
  destruct (read_database_instance_id (lf_db g)) as [live|]; [|done].
  destruct (el_instance_id self) as [x|] eqn:Ex.
  - destruct (bool_decide (x = live)) eqn:Eb; [|done]. bool_props. simplify_eq.
    split; [|done]. exists live. rewrite Ex. auto.
  - simplify_eq. split; [|done]. exists live. simpl. auto.
Qed.

(** The full-text index of a file that was opened for the first time covers
    exactly the rows of the table, and keeps doing so as events are appended. *)
Theorem full_text_in_sync fresh at_ f f' g :
  ensure_schema fresh at_ f = Ok f' ->
  FTS_REBUILD_MIGRATION ∉ ledger_migrations (lf_db f) ->
  rtc file_step f' g -> lf_fts g = fts_rebuild (file_events g).
Proof.
  intros He Hm Hs.
  assert (H0 : lf_fts f' = fts_rebuild (file_events f')).
  { apply ensure_schema_inv in He as (db & f2 & f3 & Hi & Hmig & Hx & ->).
    pose proof (chain_steps_frame _ _ _ _ _ Hmig Hx) as (_ & _ & [evs Hdb] & _).
    destruct (columns_ensured_db (with_db (create_tables_base f) db)) as [evs' Hdb'].
    simpl in Hdb'. unfold ensure_fts. rewrite bool_decide_eq_false_2; [done|].
    rewrite Hdb, Hdb'. simpl.
    unfold ensure_database_instance_identity in Hi. cbv zeta in Hi.
    assert (Hl : ledger_migrations (lf_db (create_tables_base f)) = ledger_migrations (lf_db f)).
    { unfold create_tables_base. by destruct (lf_event_columns f). }
    destruct (bool_decide _) in Hi.
    - destruct (forallb _ _) in Hi; [|done]. cbv beta iota in Hi.
      destruct (validated_database_instance_id _) in Hi; [|done]. simplify_eq. by rewrite Hl.
    - destruct (existsb _ _) in Hi; [done|]. destruct (create_objects _ _) in Hi; [|done].
      cbv beta iota delta [ledger_sqlite] in Hi. destruct (validated_database_instance_id _) in Hi; [|done].
      simplify_eq. simpl. rewrite Hl. set_solver. }
  clear He Hm. induction Hs as [|a b c (ev & pol & ins & Hab) _ IH]; [done|]. apply IH.
  unfold file_append in Hab.
  destruct (append_prepared_event (lf_db a) ev pol) as [[i db]|] eqn:Ea; [|done].
  destruct i; simplify_eq.
  - apply append_inserted in Ea as (seq & prev & _ & _ & ->).
    unfold file_events, fts_rebuild, numbered in *. simpl.
    rewrite H0, imap_app, map_app. simpl. by rewrite Nat.add_0_r.
  - apply append_existing in Ea as [-> _]. by rewrite with_db_eta.
Qed.
End Theorems.

(** ** Worked instances *)

(** A file from before the chain: no chain columns, no identity, no logs; three
    events of two principals. *)
Definition legacy_row (id principal : string) : EventRow :=
  {| ev_event_id := id; ev_principal_id := principal; ev_namespace_key := "s";
     ev_run_id := None; ev_event_type := "task.started"; ev_payload_json := "null";
     ev_signature_hex := None; ev_created_at := "t"; ev_parent_event_id := None;
     ev_seq_num := 0; ev_prev_hash := EmptyString |}.

Definition legacy_db : Db :=
  with_identity (with_events sample_db [legacy_row "e1" "p"; legacy_row "e2" "q";
                                        legacy_row "e3" "p"]) [] [] [].

Definition legacy_file : LedgerFile :=
  {| lf_db := legacy_db;
     lf_event_columns := Some (take 8 base_event_columns);
     lf_sequence_index := None; lf_chain_migrations := []; lf_fts := [] |}.

Definition or_file {A} (r : result LedgerError A) (f : A) : A :=
  match r with Ok g => g | Err _ => f end.

Definition upgraded_file : LedgerFile :=
  or_file (ensure_schema sample_instance "t" legacy_file) legacy_file.

Definition extended_file : LedgerFile :=
  (or_file (file_append upgraded_file (event_prepared (sample_event "e4" "a")) MatchAll)
     (false, upgraded_file)).2.

(** The upgrade numbers the events of each principal. *)
Example upgraded_positions :
  map event_position (file_events extended_file)
  = [("p", 0); ("q", 0); ("p", 1); ("p", 2)] /\
  map cm_migration_kind (lf_chain_migrations upgraded_file) = ["legacy_chain_columns_v1"] /\
  ensure_schema "x" "t2" extended_file = Ok extended_file.
Proof. vm_compute. done. Qed.

Lemma legacy_opens : ensure_schema sample_instance "t" legacy_file = Ok upgraded_file.
Proof. vm_compute. reflexivity. Qed.

Lemma extended_steps : rtc file_step upgraded_file extended_file.
Proof.
  apply rtc_once. exists (event_prepared (sample_event "e4" "a")), MatchAll, true.
  vm_compute. reflexivity.
Qed.

Lemma opened_ledger_stays_intact_witness :
  verify_chain {| el_instance_id := None |} (lf_db extended_file) "p"
  = Ok {| total := 3; cv_verified := 3; broken_at := None |} /\
  map event_content (file_events upgraded_file)
  = map (legacy_content legacy_file) (file_events legacy_file).
Proof.
  destruct (opened_ledger_stays_intact sample_instance "t" legacy_file upgraded_file
    extended_file legacy_opens ltac:(discriminate) extended_steps
    ltac:(apply (bool_decide_eq_true_1 _); vm_compute; reflexivity))
    as (Hcont & _ & Hv & _).
  split; [exact (Hv "p")|exact Hcont].
Defined.


Lemma connected_handle_ok_witness :
  handle_ok {| el_instance_id := Some sample_instance |} (lf_db extended_file).
Proof.
  apply (connected_handle_ok sample_instance "t" {| el_instance_id := None |} legacy_file
           upgraded_file).
  - vm_compute. reflexivity.
  - exact extended_steps.
Defined.

Lemma full_text_in_sync_witness :
  lf_fts extended_file = fts_rebuild (file_events extended_file).
Proof.
  apply (full_text_in_sync sample_instance "t" legacy_file upgraded_file).
  - exact legacy_opens.
  - apply not_elem_of_nil.
  - exact extended_steps.
Defined.
