(* ===== verification/StoreOpen.v ===== *)
(** * Opening the turn store: creation, migration and validation of its schema

    [DurableTurnStore::open] and what it calls ([crates/zaion-runtime/src/turn_store.rs],
    [crates/zaion-runtime/src/turn_store/dispatcher/persistence.rs]): the tables and
    triggers of the commit order, of quarantine and of verified commits, the markers of
    their migrations, the backfill of the order of an older outbox, and the checks
    that accept an existing database.

    A [StoreFile] is the ledger's file with the table of markers and the rowids of
    the outbox, which only the backfill reads.  The tables of [CREATE_SCHEMA] are
    created if they are missing; a missing table is an empty one in [Database.Db], so
    that statement changes nothing here.  The texts of objects in [sqlite_master] are
    those of their [CREATE] statements; names are compared as they are written. *)

From stdpp Require Import prelude gmap strings list.
From S2P Require Import Prelude.
From S2P Require Import Env.
From S2P Require Import Schema.
From S2P Require Import Database.
From S2P Require Import Ledger.
From S2P Require Import ChainMigration.
Local Open Scope res_scope.
Local Open Scope Z_scope.

(** ** Names and texts *)

Definition OUTBOX_ORDER_MIGRATION_ID : string := "turn_outbox_commit_order_v1".
Definition OUTBOX_ORDER_MIGRATION_KIND : string := "legacy_outbox_rowid_order_v1".
Definition OUTBOX_ORDER_GUARD_MIGRATION_ID : string := "turn_outbox_commit_order_immutability_v1".
Definition OUTBOX_ORDER_GUARD_MIGRATION_KIND : string := "commit_order_immutability_v1".
Definition OUTBOX_ORDER_TABLE : string := "turn_outbox_commit_order_v2".
Definition OUTBOX_ORDER_INDEX : string := "idx_turn_outbox_commit_order_v2_tenant".
Definition OUTBOX_REVISION_INDEX : string := "ux_turn_outbox_v2_turn_revision".
Definition OUTBOX_VERIFIED_COMMIT_MIGRATION_ID : string := "turn_outbox_verified_commit_v1".
Definition OUTBOX_VERIFIED_COMMIT_MIGRATION_KIND : string := "verified_event_commit_evidence_v1".
Definition OUTBOX_VERIFIED_COMMIT_TABLE : string := "turn_outbox_verified_commit_v2".
Definition OUTBOX_QUARANTINE_MIGRATION_ID : string := "turn_outbox_quarantine_v1".
Definition OUTBOX_QUARANTINE_MIGRATION_KIND : string := "immutable_dispatch_quarantine_v1".
Definition OUTBOX_QUARANTINE_TABLE : string := "turn_outbox_quarantine_v2".
Definition MIGRATION_TABLE : string := "turn_store_schema_migrations_v2".

Definition EXPECTED_ORDER_MIGRATION_TABLE : string := "
CREATE TABLE turn_store_schema_migrations_v2 (
    migration_id TEXT PRIMARY KEY,
    migration_kind TEXT NOT NULL,
    source_row_count INTEGER NOT NULL CHECK (source_row_count >= 0),
    source_max_rowid INTEGER NOT NULL CHECK (source_max_rowid >= 0),
    source_digest TEXT NOT NULL,
    applied_at_ms INTEGER NOT NULL
);
".

Definition CREATE_ORDER_TABLE : string := "
CREATE TABLE turn_outbox_commit_order_v2 (
    commit_ordinal INTEGER PRIMARY KEY AUTOINCREMENT,
    tenant_id TEXT NOT NULL,
    outbox_id TEXT NOT NULL,
    order_origin TEXT NOT NULL CHECK (
        order_origin IN ('legacy_rowid_backfill', 'transactional')
    ),
    legacy_source_rowid INTEGER,
    UNIQUE (tenant_id, outbox_id),
    FOREIGN KEY (tenant_id, outbox_id)
        REFERENCES turn_outbox_v2(tenant_id, outbox_id)
        ON DELETE RESTRICT,
    CHECK (
        (order_origin = 'legacy_rowid_backfill' AND legacy_source_rowid > 0)
        OR
        (order_origin = 'transactional' AND legacy_source_rowid IS NULL)
    )
);
".

Definition CREATE_ORDER_INDEX : string := "
CREATE INDEX idx_turn_outbox_commit_order_v2_tenant
    ON turn_outbox_commit_order_v2(tenant_id, commit_ordinal);
".

Definition CREATE_REVISION_INDEX : string := "
CREATE UNIQUE INDEX ux_turn_outbox_v2_turn_revision
    ON turn_outbox_v2(tenant_id, turn_id, revision);
".

Definition CREATE_VERIFIED_COMMIT_TABLE : string := "
CREATE TABLE turn_outbox_verified_commit_v2 (
    tenant_id TEXT NOT NULL,
    outbox_id TEXT NOT NULL,
    ledger_event_id TEXT NOT NULL CHECK (length(ledger_event_id) > 0),
    signer_public_key BLOB NOT NULL CHECK (
        typeof(signer_public_key) = 'blob' AND length(signer_public_key) = 32
    ),
    database_instance_id TEXT NOT NULL CHECK (length(database_instance_id) > 0),
    PRIMARY KEY (tenant_id, outbox_id),
    FOREIGN KEY (tenant_id, outbox_id)
        REFERENCES turn_outbox_v2(tenant_id, outbox_id)
        ON DELETE RESTRICT
);
".

Definition CREATE_OUTBOX_QUARANTINE_TABLE : string := "
CREATE TABLE turn_outbox_quarantine_v2 (
    tenant_id TEXT NOT NULL,
    outbox_id TEXT NOT NULL,
    commit_ordinal INTEGER NOT NULL CHECK (commit_ordinal > 0),
    principal_id TEXT NOT NULL CHECK (length(principal_id) > 0),
    failure_class TEXT NOT NULL CHECK (
        failure_class IN ('permanent', 'retry_exhausted')
    ),
    failure_code TEXT NOT NULL CHECK (
        length(failure_code) > 0
        AND length(CAST(failure_code AS BLOB)) <= 128
    ),
    failure_phase TEXT NOT NULL CHECK (
        failure_phase IN (
            'claim', 'resolve_signer', 'revalidate', 'append', 'complete',
            'retry_persist', 'quarantine_persist'
        )
    ),
    error_message TEXT NOT NULL CHECK (
        length(error_message) > 0
        AND length(CAST(error_message AS BLOB)) <= 4096
    ),
    attempts INTEGER NOT NULL CHECK (attempts > 0),
    lease_owner TEXT NOT NULL,
    lease_token TEXT NOT NULL,
    payload_hash TEXT NOT NULL,
    quarantined_at_ms INTEGER NOT NULL,
    PRIMARY KEY (tenant_id, outbox_id),
    UNIQUE (commit_ordinal),
    FOREIGN KEY (tenant_id, outbox_id)
        REFERENCES turn_outbox_v2(tenant_id, outbox_id)
        ON DELETE RESTRICT
);
".

Definition table_object (name sql : string) : SchemaObject :=
  {| so_type := "table"; so_name := name; so_tbl_name := name; so_sql := sql |}.
Definition index_object (name tbl sql : string) : SchemaObject :=
  {| so_type := "index"; so_name := name; so_tbl_name := tbl; so_sql := sql |}.

Definition order_table_object : SchemaObject :=
  table_object OUTBOX_ORDER_TABLE CREATE_ORDER_TABLE.
Definition order_index_object : SchemaObject :=
  index_object OUTBOX_ORDER_INDEX OUTBOX_ORDER_TABLE CREATE_ORDER_INDEX.
Definition revision_index_object : SchemaObject :=
  index_object OUTBOX_REVISION_INDEX "turn_outbox_v2" CREATE_REVISION_INDEX.
Definition order_trigger_object : SchemaObject :=
  trigger_object OUTBOX_ORDER_TRIGGER "turn_outbox_v2" CREATE_ORDER_TRIGGER.

Definition order_guard_objects : list SchemaObject :=
  [trigger_object OUTBOX_ORDER_UPDATE_GUARD OUTBOX_ORDER_TABLE CREATE_ORDER_UPDATE_GUARD;
   trigger_object OUTBOX_ORDER_DELETE_GUARD OUTBOX_ORDER_TABLE CREATE_ORDER_DELETE_GUARD].

Definition verified_commit_objects : list SchemaObject :=
  [table_object OUTBOX_VERIFIED_COMMIT_TABLE CREATE_VERIFIED_COMMIT_TABLE;
   trigger_object OUTBOX_VERIFIED_COMMIT_INSERT_GUARD OUTBOX_VERIFIED_COMMIT_TABLE
     CREATE_VERIFIED_COMMIT_INSERT_GUARD;
   trigger_object OUTBOX_VERIFIED_COMMIT_UPDATE_GUARD OUTBOX_VERIFIED_COMMIT_TABLE
     CREATE_VERIFIED_COMMIT_UPDATE_GUARD;
   trigger_object OUTBOX_VERIFIED_COMMIT_DELETE_GUARD OUTBOX_VERIFIED_COMMIT_TABLE
     CREATE_VERIFIED_COMMIT_DELETE_GUARD;
   trigger_object OUTBOX_VERIFIED_DELIVERY_GUARD "turn_outbox_v2"
     CREATE_VERIFIED_DELIVERY_GUARD].

Definition quarantine_objects : list SchemaObject :=
  [table_object OUTBOX_QUARANTINE_TABLE CREATE_OUTBOX_QUARANTINE_TABLE;
   trigger_object OUTBOX_QUARANTINE_INSERT_GUARD OUTBOX_QUARANTINE_TABLE
     CREATE_OUTBOX_QUARANTINE_INSERT_GUARD;
   trigger_object OUTBOX_QUARANTINE_UPDATE_GUARD OUTBOX_QUARANTINE_TABLE
     CREATE_OUTBOX_QUARANTINE_UPDATE_GUARD;
   trigger_object OUTBOX_QUARANTINE_DELETE_GUARD OUTBOX_QUARANTINE_TABLE
     CREATE_OUTBOX_QUARANTINE_DELETE_GUARD].

(** ** The file *)

(** [OutboxOrderManifest]: what a marker says of the rows it was taken over. *)
Record OutboxOrderManifest : Type := {
  source_row_count : Z;
  source_max_rowid : Z;
  source_digest : string
}.

(** A row of [turn_store_schema_migrations_v2]. *)
Record MarkerRow : Type := {
  mk_migration_id : string;
  mk_migration_kind : string;
  mk_manifest : OutboxOrderManifest;
  mk_applied_at_ms : Z
}.

Record StoreFile : Type := {
  sf_ledger : LedgerFile;
  sf_markers : list MarkerRow;
  sf_outbox_rowids : gmap Key Z
}.

Definition sf_db (f : StoreFile) : Db := lf_db (sf_ledger f).

Definition with_store_db (f : StoreFile) (db : Db) : StoreFile :=
  {| sf_ledger := with_db (sf_ledger f) db; sf_markers := sf_markers f;
     sf_outbox_rowids := sf_outbox_rowids f |}.

Definition with_marker (f : StoreFile) (marker : MarkerRow) : StoreFile :=
  {| sf_ledger := sf_ledger f; sf_markers := sf_markers f ++ [marker];
     sf_outbox_rowids := sf_outbox_rowids f |}.

Definition with_master (db : Db) (master : list SchemaObject) : Db :=
  with_identity db (ledger_migrations db) (identity_rows db) master.

(** Whether an object of that type and name is in [sqlite_master]. *)
Definition existed (f : StoreFile) (o : SchemaObject) : bool :=
  opt_is_some (schema_object_sql (sqlite_master (sf_db f)) (so_type o) (so_name o)).

(** [tx.execute_batch(CREATE ..)] *)
Definition create (f : StoreFile) (objects : list SchemaObject)
  : result TurnStoreError StoreFile :=
  let? master := from_sqlite (create_objects (sqlite_master (sf_db f)) objects) in
  Ok (with_store_db f (with_master (sf_db f) master)).

(** [CREATE_ORDER_MIGRATION_TABLE], with [IF NOT EXISTS]. *)
Definition create_migration_table (f : StoreFile) : result TurnStoreError StoreFile :=
  let o := table_object MIGRATION_TABLE EXPECTED_ORDER_MIGRATION_TABLE in
  if existed f o then Ok f else create f [o].

Definition validate_object (f : StoreFile) (o : SchemaObject) : result TurnStoreError unit :=
  from_schema (validate_schema_object (sqlite_master (sf_db f)) (so_type o) (so_name o)
                 (so_sql o)).

Fixpoint validate_objects (f : StoreFile) (objects : list SchemaObject)
  : result TurnStoreError unit :=
  match objects with
  | [] => Ok tt
  | o :: objects' => let? _ := validate_object f o in validate_objects f objects'
  end.

(** ** Markers *)

(** The three loaders differ in the identifier, the kind and the message. *)
Definition load_marker (migration_id migration_kind message : string) (f : StoreFile)
  : result TurnStoreError (option OutboxOrderManifest) :=
  match find (fun m => bool_decide (mk_migration_id m = migration_id)) (sf_markers f) with
  | None => Ok None
  | Some m =>
      let manifest := mk_manifest m in
      guard? bool_decide (mk_migration_kind m = migration_kind)
             && bool_decide (0 <= source_row_count manifest)
             && bool_decide (0 <= source_max_rowid manifest)
             && starts_with "sha256:" (source_digest manifest)
        else SchemaIntegrity message in
      Ok (Some manifest)
  end.

Definition load_outbox_order_manifest : StoreFile -> result TurnStoreError (option OutboxOrderManifest) :=
  load_marker OUTBOX_ORDER_MIGRATION_ID OUTBOX_ORDER_MIGRATION_KIND
    "outbox order migration marker is malformed".
Definition load_order_guard_marker : StoreFile -> result TurnStoreError (option OutboxOrderManifest) :=
  load_marker OUTBOX_ORDER_GUARD_MIGRATION_ID OUTBOX_ORDER_GUARD_MIGRATION_KIND
    "outbox order guard migration marker is malformed".
Definition load_verified_commit_marker : StoreFile -> result TurnStoreError (option OutboxOrderManifest) :=
  load_marker OUTBOX_VERIFIED_COMMIT_MIGRATION_ID OUTBOX_VERIFIED_COMMIT_MIGRATION_KIND
    "verified outbox commit migration marker is malformed".
Definition load_quarantine_migration_marker : StoreFile -> result TurnStoreError (option OutboxOrderManifest) :=
  load_marker OUTBOX_QUARANTINE_MIGRATION_ID OUTBOX_QUARANTINE_MIGRATION_KIND
    "outbox quarantine migration marker is malformed".

(** [INSERT INTO turn_store_schema_migrations_v2]: primary key and checks. *)
Definition insert_marker (f : StoreFile) (marker : MarkerRow) : result TurnStoreError StoreFile :=
  guard? bool_decide (mk_migration_id marker ∉ map mk_migration_id (sf_markers f))
         && bool_decide (0 <= source_row_count (mk_manifest marker))
         && bool_decide (0 <= source_max_rowid (mk_manifest marker))
    else Sqlite Constraint in
  Ok (with_marker f marker).

Section Open.
Context `{Env}.

(** ** Evidence over a prefix of the commit order *)

(** The joined rows with an ordinal up to [maximum_ordinal], in commit order. *)
Definition prefix_rows (db : Db) (maximum_ordinal : option Z) : list (OrderRow * OutboxRow) :=
  filter (fun co => is_none_or (fun m => bool_decide (co_ordinal co.1 <= m)) maximum_ordinal = true)
    (outbox_join db).

Definition prefix_row_bytes (co : OrderRow * OutboxRow) : string :=
  le_bytes 8 (co_ordinal co.1)
    +:+ le_bytes 8 (default (-1) (co_legacy_source_rowid co.1))
    +:+ parts_bytes [co_tenant_id co.1; co_outbox_id co.1; co_order_origin co.1;
                     or_payload_hash co.2].

Definition rows_digest {A} (bytes : A -> string) (rows : list A) : string :=
  "sha256:" +:+ hex_encode (sha256 (foldr (fun r acc => bytes r +:+ acc) EmptyString rows)).

Definition order_guard_prefix_evidence (db : Db) (maximum_ordinal : option Z)
  : result TurnStoreError OutboxOrderManifest :=
  let rows := prefix_rows db maximum_ordinal in
  guard? in_i64 (Z.of_nat (length rows))
    else SchemaIntegrity "outbox order guard prefix exceeds the SQLite integer range" in
  Ok {| source_row_count := Z.of_nat (length rows);
        source_max_rowid := default 0 ((fun co => co_ordinal co.1) <$> last rows);
        source_digest := rows_digest prefix_row_bytes rows |}.

Definition manifest_eqb (a b : OutboxOrderManifest) : bool :=
  bool_decide (source_row_count a = source_row_count b)
  && bool_decide (source_max_rowid a = source_max_rowid b)
  && bool_decide (source_digest a = source_digest b).

(** A marker over the whole order, taken now. *)
Definition take_marker (f : StoreFile) (migration_id migration_kind : string) (applied_at : Z)
  : result TurnStoreError StoreFile :=
  let? evidence := order_guard_prefix_evidence (sf_db f) None in
  insert_marker f {| mk_migration_id := migration_id; mk_migration_kind := migration_kind;
                     mk_manifest := evidence; mk_applied_at_ms := timestamp_millis applied_at |}.

(** The rows a marker was taken over are the same today. *)
Definition validate_marker_prefix (f : StoreFile) (marker : OutboxOrderManifest) (message : string)
  : result TurnStoreError unit :=
  let? evidence := order_guard_prefix_evidence (sf_db f) (Some (source_max_rowid marker)) in
  guard? manifest_eqb evidence marker else SchemaIntegrity message in
  Ok tt.

Definition validate_order_guard_marker (f : StoreFile) : result TurnStoreError unit :=
  let? found := load_order_guard_marker f in
  let? marker := ok_or found (SchemaIntegrity "outbox order guard migration marker is missing") in
  validate_marker_prefix f marker
    "outbox order guard migration evidence does not match its prefix".

Definition validate_verified_commit_marker (f : StoreFile) (marker : OutboxOrderManifest)
  : result TurnStoreError unit :=
  validate_marker_prefix f marker
    "verified outbox commit migration evidence does not match its prefix".

Definition validate_quarantine_migration_marker (f : StoreFile) (marker : OutboxOrderManifest)
  : result TurnStoreError unit :=
  validate_marker_prefix f marker
    "outbox quarantine migration evidence does not match its prefix".

(** ** The order of an older outbox *)

Record LegacyOutboxOrderRow : Type := {
  source_rowid : Z;
  lo_tenant_id : string;
  lo_outbox_id : string;
  lo_payload_hash : string
}.

(** [SELECT rowid, .. FROM turn_outbox_v2 ORDER BY rowid] *)
Definition legacy_outbox_order_rows (f : StoreFile)
  : result TurnStoreError (list LegacyOutboxOrderRow) :=
  let rows := order_by_key source_rowid
    (map (fun ko => {| source_rowid := default 0 (sf_outbox_rowids f !! ko.1);
                       lo_tenant_id := ko.1.1; lo_outbox_id := ko.1.2;
                       lo_payload_hash := or_payload_hash ko.2 |})
       (map_to_list (outbox (sf_db f)))) in
  guard? bool_decide (Forall (fun r => 0 < source_rowid r) rows)
    else SchemaIntegrity "legacy outbox contains a non-positive rowid" in
  Ok rows.

Definition legacy_row_bytes (r : LegacyOutboxOrderRow) : string :=
  parts_bytes [z_to_string (source_rowid r); lo_tenant_id r; lo_outbox_id r; lo_payload_hash r].

Definition legacy_outbox_order_digest (rows : list LegacyOutboxOrderRow) : string :=
  rows_digest legacy_row_bytes rows.

(** [CREATE TABLE turn_outbox_commit_order_v2] leaves it empty, without an entry
    in [sqlite_sequence]. *)
Definition create_order_table (f : StoreFile) : result TurnStoreError StoreFile :=
  let? f := create f [order_table_object] in
  Ok (with_store_db f (with_order (sf_db f) [] None)).

(** [INSERT INTO turn_outbox_commit_order_v2 ..]: [AUTOINCREMENT], the unique key,
    the reference to the outbox and the check of the origin. *)
Definition insert_legacy_order (db : Db) (r : LegacyOutboxOrderRow) : result SqliteError Db :=
  let last := Z.max (default 0 (order_sequence db)) (default 0 (max_ordinal db)) in
  let k := (lo_tenant_id r, lo_outbox_id r) in
  guard? bool_decide (last < i64_max) else Full in
  guard? opt_is_none (order_of db k) && opt_is_some (outbox db !! k)
         && bool_decide (0 < source_rowid r) else Constraint in
  Ok (with_order db
        (commit_order db ++
           [{| co_ordinal := last + 1; co_tenant_id := lo_tenant_id r;
               co_outbox_id := lo_outbox_id r; co_order_origin := "legacy_rowid_backfill";
               co_legacy_source_rowid := Some (source_rowid r) |}])
        (Some (last + 1))).

Fixpoint backfill_order (db : Db) (rows : list LegacyOutboxOrderRow) : result SqliteError Db :=
  match rows with
  | [] => Ok db
  | r :: rows' => let? db' := insert_legacy_order db r in backfill_order db' rows'
  end.

Definition revision_key (ko : Key * OutboxRow) : string * string * Z :=
  (ko.1.1, or_turn_id ko.2, or_revision ko.2).

(** [CREATE UNIQUE INDEX] fails on rows that are not unique. *)
Definition create_revision_index (f : StoreFile) : result TurnStoreError StoreFile :=
  guard? bool_decide (NoDup (map revision_key (map_to_list (outbox (sf_db f)))))
    else Sqlite Constraint in
  create f [revision_index_object].

Definition migrate_outbox_order (f : StoreFile) (applied_at : Z)
  : result TurnStoreError StoreFile :=
  let? f := create_order_table f in
  let? source_rows := legacy_outbox_order_rows f in
  let? db := from_sqlite (backfill_order (sf_db f) source_rows) in
  let f := with_store_db f db in
  guard? in_i64 (Z.of_nat (length source_rows))
    else SchemaIntegrity "legacy outbox row count exceeds SQLite integer range" in
  let? f := insert_marker f
    {| mk_migration_id := OUTBOX_ORDER_MIGRATION_ID;
       mk_migration_kind := OUTBOX_ORDER_MIGRATION_KIND;
       mk_manifest := {| source_row_count := Z.of_nat (length source_rows);
                         source_max_rowid := default 0 (source_rowid <$> last source_rows);
                         source_digest := legacy_outbox_order_digest source_rows |};
       mk_applied_at_ms := timestamp_millis applied_at |} in
  let? f := create f [order_index_object] in
  let? f := create_revision_index f in
  create f [order_trigger_object].

(** ** The mapping between the outbox and its order *)

Definition legacy_join (db : Db) : list (OrderRow * OutboxRow) :=
  filter (fun co => co_order_origin co.1 = "legacy_rowid_backfill") (outbox_join db).

(** [row.get(0)?] of a [NULL] rowid fails. *)
Definition legacy_row_of (co : OrderRow * OutboxRow) : result TurnStoreError LegacyOutboxOrderRow :=
  let? rowid := ok_or (co_legacy_source_rowid co.1) (Sqlite FromSqlConversionFailure) in
  Ok {| source_rowid := rowid; lo_tenant_id := co_tenant_id co.1;
        lo_outbox_id := co_outbox_id co.1; lo_payload_hash := or_payload_hash co.2 |}.

Definition order_covers (db : Db) : bool :=
  bool_decide (map_Forall (fun k _ => order_of db k <> None) (outbox db))
  && bool_decide (Forall (fun c => outbox db !! co_key c <> None) (commit_order db)).

(** [PRAGMA foreign_key_check]: turns refer to actors, outbox rows to turns, and
    the rows of the other three tables to outbox rows. *)
Definition foreign_keys_ok (db : Db) : bool :=
  bool_decide (map_Forall (fun k r => actors db !! (k.1, tr_actor_key r) <> None) (turns db))
  && bool_decide (map_Forall (fun k o => turns db !! (k.1, or_turn_id o) <> None) (outbox db))
  && bool_decide (Forall (fun c => outbox db !! co_key c <> None) (commit_order db))
  && bool_decide (map_Forall (fun k _ => outbox db !! k <> None) (verified db))
  && bool_decide (map_Forall (fun k _ => outbox db !! k <> None) (quarantine db)).

(** [LAG(commit_ordinal) OVER (ORDER BY revision)]: no row at or before its
    predecessor. *)
Fixpoint ordinals_increase (previous : option Z) (rows : list (OrderRow * OutboxRow)) : bool :=
  match rows with
  | [] => true
  | co :: rows' =>
      negb (is_some_and (fun p => bool_decide (co_ordinal co.1 <= p)) previous)
      && ordinals_increase (Some (co_ordinal co.1)) rows'
  end.

(** The partition of a turn, [ORDER BY revision]. *)
Definition turn_partition (db : Db) (tenant_id turn_id : string) : list (OrderRow * OutboxRow) :=
  order_by_key (fun co => or_revision co.2)
    (filter (fun co => co_tenant_id co.1 = tenant_id /\ or_turn_id co.2 = turn_id)
       (outbox_join db)).

Definition revisions_follow_order (db : Db) : bool :=
  forallb (fun co => ordinals_increase None
                       (turn_partition db (co_tenant_id co.1) (or_turn_id co.2)))
    (outbox_join db).

(** A tenant with an undelivered row before its last delivered one. *)
Definition delivered_hole (db : Db) (tenant_id : string) : bool :=
  match first_undelivered db tenant_id, last_delivered db tenant_id with
  | Some first, Some last => bool_decide (first < last)
  | _, _ => false
  end.

(** The revisions of the outbox rows of a turn. *)
Definition turn_revisions (db : Db) (tenant_id turn_id : string) : list Z :=
  map (fun ko => or_revision ko.2)
    (filter (fun ko => ko.1.1 = tenant_id /\ or_turn_id ko.2 = turn_id)
       (map_to_list (outbox db))).

Definition history_is_complete (db : Db) (k : Key) (row : TurnRow) : bool :=
  let revisions := turn_revisions db k.1 k.2 in
  negb (bool_decide (length revisions = 0%nat))
  && bool_decide (sql_min revisions = Some 0)
  && bool_decide (sql_max revisions = Some (tr_revision row))
  && bool_decide (Z.of_nat (length revisions) - 1 = tr_revision row).

Definition validate_outbox_order_mapping (db : Db) (manifest : OutboxOrderManifest)
  : result TurnStoreError unit :=
  guard? order_covers db
    else SchemaIntegrity "outbox commit-order mapping is incomplete or orphaned" in
  guard? foreign_keys_ok db
    else SchemaIntegrity "turn store contains a foreign-key violation" in
  let? legacy_rows := collect_map legacy_row_of (legacy_join db) in
  let legacy_count := Z.of_nat (length legacy_rows) in
  guard? in_i64 legacy_count
    else SchemaIntegrity "legacy outbox mapping count exceeds SQLite integer range" in
  guard? bool_decide (legacy_count = source_row_count manifest)
         && bool_decide (default 0 (source_rowid <$> last legacy_rows) = source_max_rowid manifest)
         && bool_decide (legacy_outbox_order_digest legacy_rows = source_digest manifest)
    else SchemaIntegrity "legacy outbox order manifest does not match its mapping" in
  let legacy_ordinals := map co_ordinal
    (filter (fun c => co_order_origin c = "legacy_rowid_backfill") (commit_order db)) in
  guard? negb (bool_decide (0 < legacy_count)
               && negb (bool_decide (sql_min legacy_ordinals = Some 1
                                     /\ sql_max legacy_ordinals = Some legacy_count)))
    else SchemaIntegrity "legacy outbox order is not the initial contiguous prefix" in
  guard? bool_decide (order_sequence db = max_ordinal db)
    else SchemaIntegrity "outbox commit-order sequence does not match the persisted maximum" in
  guard? negb (is_some_and (fun m => bool_decide (m <= 0))
                 (sql_min (map co_ordinal (commit_order db))))
    else SchemaIntegrity "outbox commit ordinals must be strictly positive" in
  guard? revisions_follow_order db
    else SchemaIntegrity "turn revisions do not follow commit order" in
  let first_transactional_ordinal := sql_min (map co_ordinal
    (filter (fun c => co_order_origin c = "transactional") (commit_order db))) in
  guard? negb (is_some_and (fun o => bool_decide (o <= legacy_count)) first_transactional_ordinal)
    else SchemaIntegrity "transactional outbox order overlaps the legacy prefix" in
  guard? forallb (fun co => negb (delivered_hole db (co_tenant_id co.1))) (outbox_join db)
    else SchemaIntegrity "tenant outbox delivery history contains a committed-order hole" in
  guard? bool_decide (map_Forall (fun k row => history_is_complete db k row = true) (turns db))
    else SchemaIntegrity "turn outbox revision history is incomplete" in
  Ok tt.

(** ** The three parts of the schema *)

Definition ensure_order_guards (f : StoreFile) (applied_at : Z)
    (update_guard_existed delete_guard_existed : bool) : result TurnStoreError StoreFile :=
  let? guard_marker := load_order_guard_marker f in
  match opt_is_some guard_marker, update_guard_existed, delete_guard_existed with
  | false, false, false =>
      let? f := create f order_guard_objects in
      take_marker f OUTBOX_ORDER_GUARD_MIGRATION_ID OUTBOX_ORDER_GUARD_MIGRATION_KIND applied_at
  | false, _, _ => Err (SchemaIntegrity
      "outbox order guard objects exist without their migration marker")
  | true, true, true => Ok f
  | true, _, _ => Err (SchemaIntegrity
      "outbox order guard migration marker exists but a guard is missing")
  end.

(** The checks at the end of [ensure_outbox_commit_order_schema]. *)
Definition validate_order_schema (f : StoreFile) : result TurnStoreError unit :=
  let? _ := validate_objects f
    ([order_table_object; table_object MIGRATION_TABLE EXPECTED_ORDER_MIGRATION_TABLE;
      order_index_object; revision_index_object; order_trigger_object]
     ++ order_guard_objects) in
  let? _ := from_schema (validate_order_trigger_schema (sqlite_master (sf_db f))) in
  let? _ := from_schema (validate_outbox_trigger_allowlist (sqlite_master (sf_db f))) in
  let? _ := validate_order_guard_marker f in
  let? found := load_outbox_order_manifest f in
  let? manifest := ok_or found (SchemaIntegrity "outbox order migration marker disappeared") in
  validate_outbox_order_mapping (sf_db f) manifest.

Definition ensure_outbox_commit_order_schema (f : StoreFile) (applied_at : Z)
  : result TurnStoreError StoreFile :=
  let order_existed := map (existed f)
    [order_table_object; order_index_object; revision_index_object; order_trigger_object] in
  let guards_existed := map (existed f) order_guard_objects in
  let? f := create_migration_table f in
  let? manifest := load_outbox_order_manifest f in
  let? f :=
    match manifest with
    | None =>
        guard? negb (existsb id (order_existed ++ guards_existed))
          else SchemaIntegrity "outbox order objects exist without their migration marker" in
        migrate_outbox_order f applied_at
    | Some _ =>
        guard? forallb id order_existed
          else SchemaIntegrity
            "outbox order migration marker exists but a required schema object is missing" in
        Ok f
    end in
  let? f := ensure_order_guards f applied_at (nth 0 guards_existed false)
              (nth 1 guards_existed false) in
  let? _ := validate_order_schema f in
  Ok f.

(** Creation of a part with its objects and marker, or the check that it is whole;
    [no_marker] and [no_object] are the messages. *)
Definition ensure_part (f : StoreFile) (applied_at : Z) (objects : list SchemaObject)
    (marker : result TurnStoreError (option OutboxOrderManifest))
    (migration_id migration_kind no_marker no_object : string)
  : result TurnStoreError StoreFile :=
  let? marker := marker in
  match marker with
  | None =>
      guard? negb (existsb (existed f) objects) else SchemaIntegrity no_marker in
      let? f := create f objects in
      take_marker f migration_id migration_kind applied_at
  | Some _ =>
      guard? forallb (existed f) objects else SchemaIntegrity no_object in
      Ok f
  end.

Definition quarantine_row_ok (db : Db) (k : Key) (q : QuarantineRow) : bool :=
  match outbox db !! k, order_of db k with
  | Some o, Some c =>
      match turns db !! (k.1, or_turn_id o) with
      | Some s =>
          negb (bool_decide (or_status o = "delivered"))
          && bool_decide (co_ordinal c = qr_commit_ordinal q)
          && bool_decide (or_payload_hash o = qr_payload_hash q)
          && bool_decide (qr_attempts q <= or_attempts o)
          && bool_decide (tr_principal_id s = qr_principal_id q)
      | None => false
      end
  | _, _ => false
  end.

Definition validate_quarantine_rows (db : Db) : result TurnStoreError unit :=
  guard? bool_decide (map_Forall (fun k q => quarantine_row_ok db k q = true) (quarantine db))
    else SchemaIntegrity "outbox quarantine evidence is orphaned or mismatched" in
  Ok tt.

Definition ensure_outbox_dispatcher_schema (f : StoreFile) (applied_at : Z)
  : result TurnStoreError StoreFile :=
  let? f := ensure_part f applied_at quarantine_objects (load_quarantine_migration_marker f)
    OUTBOX_QUARANTINE_MIGRATION_ID OUTBOX_QUARANTINE_MIGRATION_KIND
    "outbox quarantine objects exist without their migration marker"
    "outbox quarantine migration marker exists but a required object is missing" in
  let? _ := validate_object f (table_object OUTBOX_QUARANTINE_TABLE CREATE_OUTBOX_QUARANTINE_TABLE) in
  let? _ := from_schema (validate_outbox_dispatcher_triggers (sqlite_master (sf_db f))) in
  let? found := load_quarantine_migration_marker f in
  let? marker := ok_or found
    (SchemaIntegrity "outbox quarantine migration marker disappeared") in
  let? _ := validate_quarantine_migration_marker f marker in
  let? _ := validate_quarantine_rows (sf_db f) in
  Ok f.

(** A comparison with a missing [ledger_event_id] is [NULL], not true. *)
Definition evidence_ok (db : Db) (database_instance_id : string) (k : Key) (v : VerifiedRow)
  : bool :=
  match outbox db !! k with
  | Some o =>
      bool_decide (or_status o = "delivered")
      && is_none_or (fun e => bool_decide (e = vr_ledger_event_id v)) (or_ledger_event_id o)
      && bool_decide (vr_database_instance_id v = database_instance_id)
  | None => false
  end.

Definition unverified_new_deliveries (db : Db) (maximum : Z) : list (OrderRow * OutboxRow) :=
  filter (fun co => or_status co.2 = "delivered" /\ verified db !! co_key co.1 = None
                    /\ maximum < co_ordinal co.1) (outbox_join db).

Definition validate_verified_commit_rows (db : Db) (marker : OutboxOrderManifest)
  : result TurnStoreError unit :=
  let? database_instance_id := from_ledger (validated_database_instance_id db) in
  guard? bool_decide (map_Forall (fun k v => evidence_ok db database_instance_id k v = true)
                        (verified db))
    else SchemaIntegrity "verified outbox commit evidence is orphaned or mismatched" in
  guard? bool_decide (length (unverified_new_deliveries db (source_max_rowid marker)) = 0%nat)
    else SchemaIntegrity "post-migration delivered outbox row lacks verified commit evidence" in
  Ok tt.

Definition ensure_outbox_verified_commit_schema (f : StoreFile) (applied_at : Z)
  : result TurnStoreError StoreFile :=
  let? f := ensure_part f applied_at verified_commit_objects (load_verified_commit_marker f)
    OUTBOX_VERIFIED_COMMIT_MIGRATION_ID OUTBOX_VERIFIED_COMMIT_MIGRATION_KIND
    "verified outbox commit objects exist without their migration marker"
    "verified outbox commit migration marker exists but a required object is missing" in
  let? _ := validate_objects f verified_commit_objects in
  let? _ := from_schema (validate_no_extra_outbox_triggers (sqlite_master (sf_db f))) in
  let? found := load_verified_commit_marker f in
  let? marker := ok_or found
    (SchemaIntegrity "verified outbox commit migration marker disappeared") in
  let? _ := validate_verified_commit_marker f marker in
  let? _ := validate_verified_commit_rows (sf_db f) marker in
  Ok f.

(** ** [DurableTurnStore::open] *)

(** The transaction on the store's own connection. *)
Definition open_transaction (f : StoreFile) (now1 now2 now3 : Z) (database_instance_id : string)
  : result TurnStoreError StoreFile :=
  let? f := ensure_outbox_commit_order_schema f now1 in
  let? f := ensure_outbox_dispatcher_schema f now2 in
  let? f := ensure_outbox_verified_commit_schema f now3 in
  let? live := from_ledger (validated_database_instance_id (sf_db f)) in
  guard? bool_decide (live = database_instance_id) else OutboxLedgerInstanceMismatch in
  Ok f.

(** The ledger is opened first, in a transaction of its own that stays when the
    store's fails.  The result is the identity of the database. *)
Definition open (instance_id applied_at : string) (now1 now2 now3 : Z) (file : StoreFile)
  : StoreFile * result TurnStoreError string :=
  let '(ledger, connected) :=
    connect instance_id applied_at false {| el_instance_id := None |} (sf_ledger file) in
  let f := {| sf_ledger := ledger; sf_markers := sf_markers file;
              sf_outbox_rowids := sf_outbox_rowids file |} in
  match from_ledger (let? self := connected in
                     database_instance_id self (lf_db ledger)) with
  | Err e => (f, Err e)
  | Ok live =>
      match open_transaction f now1 now2 now3 live with
      | Ok f' => (f', Ok live)
      | Err e => (f, Err e)
      end
  end.
End Open.
