(* ===== verification/Binding.v ===== *)
(** * Verified idempotent events ([crates/zaion-ledger/src/binding.rs])

    A binding is the exact immutable event a caller expects under its
    idempotency key; a [VerifiedEventCommit] is the evidence that the ledger
    holds it with a canonical-envelope signature.  The theorems: what a
    successful verification establishes of the stored row, and that appending a
    binding succeeds, is verified by what it returns, and can be repeated. *)

From stdpp Require Import prelude gmap strings list.
From S2P Require Import Prelude.
From S2P Require Import Json.
From S2P Require Import TurnState.
From S2P Require Import TurnKernel.
From S2P Require Import Env.
From S2P Require Import Concrete.
From S2P Require Import Schema.
From S2P Require Import Database.
From S2P Require Import Samples.
From S2P Require Import Ledger.
From S2P Require Import LedgerChain.
Local Open Scope res_scope.
Local Open Scope Z_scope.

Definition BINDING_DIGEST_SCHEMA : string := "zaion.ledger.verified_event_binding.v2".

Record IdempotentEventBinding : Type := {
  b_idempotency_key : string;
  b_principal_id : string;
  b_namespace_key : string;
  b_run_id : option string;
  b_event_type : string;
  b_payload : Value;
  b_parent_event_id : option string
}.

#[export] Instance IdempotentEventBinding_eq_dec : EqDecision IdempotentEventBinding.
Proof. solve_decision. Defined.

Record VerifiedEventCommit : Type := {
  vc_event_id : string;
  vc_canonical_ledger_path : string;
  vc_database_instance_id : string;
  vc_binding_digest : string;
  vc_public_key_bytes : string
}.

#[export] Instance VerifiedEventCommit_eq_dec : EqDecision VerifiedEventCommit.
Proof. solve_decision. Defined.

Section Binding.
Context `{Env}.

(** [IdempotentEventBinding::new] *)
Definition binding_new (idempotency_key principal namespace_key : string)
    (run_id : option string) (event_type : string) (payload : Value)
    (parent_event_id : option string) : result LedgerError IdempotentEventBinding :=
  let? _ := ledger_validate_idempotency_key idempotency_key in
  guard? negb (bool_decide (str_trim event_type = EmptyString)
               || negb (bool_decide (str_trim event_type = event_type)))
    else EventBindingMismatch "event_type" in
  Ok {| b_idempotency_key := idempotency_key; b_principal_id := principal;
        b_namespace_key := namespace_key; b_run_id := run_id;
        b_event_type := event_type; b_payload := payload;
        b_parent_event_id := parent_event_id |}.

Definition expected_event_id (b : IdempotentEventBinding) : string :=
  deterministic_idempotent_event_id (b_principal_id b) (b_idempotency_key b).

Definition validated_database_path (db : Db) : result LedgerError string :=
  match main_file db with
  | Ok path => Ok path
  | Err reason => Err (EventBindingUnsupportedLedgerPath reason)
  end.

Definition binding_digest (path instance_id event_id : string)
    (b : IdempotentEventBinding) : string :=
  "sha256:" +:+ hex_encode (sha256 (json_to_string
    (VObject [("schema", VString BINDING_DIGEST_SCHEMA);
              ("canonical_ledger_path_bytes", VString (hex_encode path));
              ("database_instance_id", VString instance_id);
              ("event_id", VString event_id);
              ("idempotency_key", VString (b_idempotency_key b));
              ("principal_id", VString (b_principal_id b));
              ("namespace_key", VString (b_namespace_key b));
              ("run_id", opt_string (b_run_id b));
              ("event_type", VString (b_event_type b));
              ("payload", b_payload b);
              ("parent_event_id", opt_string (b_parent_event_id b));
              ("signature_mode", VString "canonical_envelope_v2")]))).

Definition verify_principal_binding (expected derived : string)
  : result LedgerError unit :=
  if bool_decide (expected = derived) then Ok tt
  else Err (EventBindingPrincipalMismatch expected derived).

Definition verify_text (field actual expected : string) : result LedgerError unit :=
  if bool_decide (actual = expected) then Ok tt else Err (EventBindingMismatch field).

Definition verify_optional_text (field : string) (actual expected : option string)
  : result LedgerError unit :=
  if bool_decide (actual = expected) then Ok tt else Err (EventBindingMismatch field).

Definition verify_existing_idempotent_event_in_connection (db : Db)
    (public_key : string) (b : IdempotentEventBinding)
  : result LedgerError VerifiedEventCommit :=
  let derived := principal_id_from_public_key public_key in
  let? _ := verify_principal_binding (b_principal_id b) derived in
  let expected := expected_event_id b in
  let? found := get_event_from_connection db expected in
  let? event := ok_or found (NotFound expected) in
  let? _ := verify_text "event_id" (le_event_id event) expected in
  let? _ := verify_text "principal_id" (le_principal_id event) (b_principal_id b) in
  let? _ := verify_text "namespace_key" (le_namespace_key event) (b_namespace_key b) in
  let? _ := verify_optional_text "run_id" (le_run_id event) (b_run_id b) in
  let? _ := verify_text "event_type" (le_event_type event) (b_event_type b) in
  guard? bool_decide (le_payload event = b_payload b)
    else EventBindingMismatch "payload" in
  let? _ := verify_optional_text "parent_event_id" (le_parent_event_id event)
              (b_parent_event_id b) in
  let? _ := match verify_event_signature public_key event with
            | Ok CanonicalEnvelope => Ok tt
            | Ok LegacyPayloadOnly => Err EventBindingNonCanonicalSignature
            | Err _ => Err EventBindingSignatureInvalid
            end in
  let? path := validated_database_path db in
  let? instance_id := validated_database_instance_id db in
  Ok {| vc_event_id := expected; vc_canonical_ledger_path := path;
        vc_database_instance_id := instance_id;
        vc_binding_digest := binding_digest path instance_id expected b;
        vc_public_key_bytes := public_key |}.

(** [EventLedger::canonical_database_path] *)
Definition canonical_database_path (self : EventLedger) (db : Db)
  : result LedgerError string := with_conn self db (validated_database_path db).

Definition verify_existing_idempotent_event (self : EventLedger) (db : Db)
    (public_key : string) (b : IdempotentEventBinding)
  : result LedgerError VerifiedEventCommit :=
  with_conn self db (verify_existing_idempotent_event_in_connection db public_key b).

Definition append_verified_idempotent_event (self : EventLedger) (db : Db)
    (created_at : string) (keypair : ZaionKeypair) (b : IdempotentEventBinding)
  : result LedgerError (VerifiedEventCommit * Db) :=
  let? _ := verify_principal_binding (b_principal_id b) (principal_id keypair) in
  let? expected_path := canonical_database_path self db in
  let? expected_instance_id := database_instance_id self db in
  let? (event_id, db') := append_signed_idempotent_event_with_parent self db created_at
    keypair (b_namespace_key b) (b_event_type b) (b_payload b) (b_run_id b)
    (b_parent_event_id b) (b_idempotency_key b) in
  guard? bool_decide (event_id = expected_event_id b)
    else EventBindingMismatch "event_id" in
  let? committed := verify_existing_idempotent_event self db' (public_key_bytes keypair) b in
  guard? bool_decide (vc_canonical_ledger_path committed = expected_path)
    else EventBindingMismatch "canonical_ledger_path" in
  guard? bool_decide (vc_database_instance_id committed = expected_instance_id)
    else EventBindingMismatch "database_instance_id" in
  Ok (committed, db').

(** [VerifiedEventCommit::matches_binding] *)
Definition matches_binding (commit : VerifiedEventCommit) (ledger : EventLedger)
    (db : Db) (b : IdempotentEventBinding) : result LedgerError bool :=
  let? path := canonical_database_path ledger db in
  let? instance_id := database_instance_id ledger db in
  let event_id := expected_event_id b in
  if negb (bool_decide (vc_event_id commit = event_id)
           && bool_decide (vc_canonical_ledger_path commit = path)
           && bool_decide (vc_database_instance_id commit = instance_id)
           && bool_decide (vc_binding_digest commit
                           = binding_digest path instance_id event_id b))
  then Ok false
  else
    let? verified := verify_existing_idempotent_event ledger db
                       (vc_public_key_bytes commit) b in
    Ok (bool_decide (commit = verified)).

Definition matches_binding_in_connection (commit : VerifiedEventCommit) (db : Db)
    (b : IdempotentEventBinding) : result LedgerError bool :=
  let? verified := verify_existing_idempotent_event_in_connection db
                     (vc_public_key_bytes commit) b in
  Ok (bool_decide (commit = verified)).

(** ** Soundness of the evidence *)

(** The row is the event the binding describes, signed over the canonical
    envelope by the holder of [public_key]. *)
Definition row_proves (row : EventRow) (public_key : string)
    (b : IdempotentEventBinding) : Prop :=
  ev_event_id row = expected_event_id b /\ ev_principal_id row = b_principal_id b /\
  ev_namespace_key row = b_namespace_key b /\ ev_run_id row = b_run_id b /\
  ev_event_type row = b_event_type b /\
  json_from_str (ev_payload_json row) = Some (b_payload b) /\
  ev_parent_event_id row = b_parent_event_id b /\
  exists sig, ev_signature_hex row <> None /\
    (forall h, ev_signature_hex row = Some h -> hex_decode h = Some sig) /\
    verify_signature public_key
      (event_envelope_signing_bytes (b_principal_id b) (b_namespace_key b) (b_run_id b)
         (b_event_type b) (b_payload b) (b_parent_event_id b)) sig = Ok tt.

Lemma verify_text_ok field a e : verify_text field a e = Ok tt -> a = e.
Proof. unfold verify_text. case_bool_decide; [done|discriminate]. Qed.

Lemma verify_optional_text_ok field a e : verify_optional_text field a e = Ok tt -> a = e.
Proof. unfold verify_optional_text. case_bool_decide; [done|discriminate]. Qed.

Lemma canonical_signature pk ev :
  verify_event_signature pk ev = Ok CanonicalEnvelope ->
  exists sig, le_signature ev = Some sig /\
    verify_signature pk
      (event_envelope_signing_bytes (le_principal_id ev) (le_namespace_key ev)
         (le_run_id ev) (le_event_type ev) (le_payload ev) (le_parent_event_id ev)) sig
    = Ok tt.
Proof.
  unfold verify_event_signature. destruct (le_signature ev) as [sig|]; [|done].
  destruct (verify_signature pk (event_envelope_signing_bytes _ _ _ _ _ _) sig)
    as [[]|] eqn:E; [eauto|].
  destruct (verify_signature pk (json_to_string _) sig); discriminate.
Qed.

Lemma row_to_event_ok row ev :
  row_to_event row = Ok ev ->
  json_from_str (ev_payload_json row) = Some (le_payload ev) /\
  le_event_id ev = ev_event_id row /\ le_principal_id ev = ev_principal_id row /\
  le_namespace_key ev = ev_namespace_key row /\ le_run_id ev = ev_run_id row /\
  le_event_type ev = ev_event_type row /\
  le_parent_event_id ev = ev_parent_event_id row /\
  (forall sig, le_signature ev = Some sig ->
     ev_signature_hex row <> None /\
     forall h, ev_signature_hex row = Some h -> hex_decode h = Some sig).
Proof.
  unfold row_to_event, transpose_map, ok_or. intros Hr.
  destruct (json_from_str (ev_payload_json row)) as [v|]; [|done].
  destruct (ev_signature_hex row) as [h|].
  - destruct (hex_decode h) as [s|] eqn:Eh; simplify_eq/=.
    repeat split; intros; simplify_eq; done.
  - simplify_eq/=. repeat split; intros; simplify_eq.
Qed.

(** Inverting a successful verification. *)
Lemma verify_existing_inv db pk b c :
  verify_existing_idempotent_event_in_connection db pk b = Ok c ->
  b_principal_id b = principal_id_from_public_key pk /\
  (exists row, find_event db (expected_event_id b) = Some row /\ row_proves row pk b) /\
  validated_database_path db = Ok (vc_canonical_ledger_path c) /\
  validated_database_instance_id db = Ok (vc_database_instance_id c) /\
  c = {| vc_event_id := expected_event_id b;
         vc_canonical_ledger_path := vc_canonical_ledger_path c;
         vc_database_instance_id := vc_database_instance_id c;
         vc_binding_digest := binding_digest (vc_canonical_ledger_path c)
           (vc_database_instance_id c) (expected_event_id b) b;
         vc_public_key_bytes := pk |}.
Proof.
  unfold verify_existing_idempotent_event_in_connection, get_event_from_connection,
    verify_principal_binding.
  case_bool_decide as Hp; [|done].
  destruct (find_event db (expected_event_id b)) as [row|] eqn:Ef; [|done]. simpl.
  destruct (row_to_event row) as [ev|] eqn:Er; [|done]. simpl. intros Hc.
  apply row_to_event_ok in Er as (Hj & Hi & Hpr & Hn & Hr & Ht & Hpa & Hs).
  repeat (match type of Hc with
          | match ?e with Ok _ => _ | Err _ => _ end = _ =>
              let E := fresh "E" in destruct e as [[]|] eqn:E; [|discriminate Hc]
          | (if bool_decide ?P then _ else _) = _ =>
              let E := fresh "E" in destruct (bool_decide P) eqn:E; [|discriminate Hc]
          end).
  destruct (verify_event_signature pk ev) as [[]|] eqn:Esig; try discriminate.
  apply canonical_signature in Esig as (sig & Hsig & Hv). specialize (Hs _ Hsig).
  destruct (validated_database_path db) as [path|]; [|done].
  destruct (validated_database_instance_id db) as [inst|]; [|done].
  injection Hc as <-. simpl.
  repeat match goal with
         | E : verify_text _ _ _ = Ok tt |- _ => apply verify_text_ok in E
         | E : verify_optional_text _ _ _ = Ok tt |- _ => apply verify_optional_text_ok in E
         end. bool_props.
  split; [done|]. split; [|done]. exists row. split; [done|].
  unfold row_proves. repeat (split; [congruence|]). exists sig.
  split; [tauto|]. split; [tauto|]. congruence.
Qed.

(** A verified commit is evidence: when verification of a binding
    succeeds, the ledger holds a row under the binding's identifier with exactly
    the binding's principal, namespace, run, type, payload and parent, whose
    signature verifies under the given key over the canonical envelope; the key
    derives the principal, and the token names the live file and instance. *)
Theorem verified_commit_sound self db pk b c :
  verify_existing_idempotent_event self db pk b = Ok c ->
  b_principal_id b = principal_id_from_public_key pk /\
  (exists row, find_event db (expected_event_id b) = Some row /\ row_proves row pk b) /\
  vc_event_id c = expected_event_id b /\ vc_public_key_bytes c = pk /\
  validated_database_path db = Ok (vc_canonical_ledger_path c) /\
  validated_database_instance_id db = Ok (vc_database_instance_id c).
Proof.
  intros Hv. apply with_conn_inv in Hv as [Hv _].
  apply verify_existing_inv in Hv as (Hp & Hrow & Hpath & Hinst & Hc).
  split; [done|]. split; [done|]. split; [by rewrite Hc|]. split; [by rewrite Hc|done].
Qed.

(** ** Appending a binding *)

Context `{!EnvLaws}.

Lemma verify_signed keypair m :
  verify_signature (public_key_bytes keypair) m (sign keypair m) = Ok tt.
Proof.
  unfold verify_signature, public_key_bytes, sign.
  rewrite !bool_decide_eq_true_2 by eauto using verifying_key_length, sign_length.
  by rewrite verifying_key_ok, sign_verifies.
Qed.

(** The prepared event of a binding. *)
Definition binding_event (keypair created_at : string) (b : IdempotentEventBinding)
  : PreparedEvent :=
  {| pe_event_id := expected_event_id b; pe_principal_id := principal_id keypair;
     pe_namespace_key := b_namespace_key b; pe_run_id := b_run_id b;
     pe_event_type := b_event_type b; pe_payload_json := json_to_string (b_payload b);
     pe_signature_hex := Some (hex_encode (sign_event_envelope keypair
       (principal_id keypair) (b_namespace_key b) (b_run_id b) (b_event_type b)
       (b_payload b) (b_parent_event_id b)));
     pe_created_at := created_at; pe_parent_event_id := b_parent_event_id b |}.

(** What the callers of the ledger keep true of a database and a binding. *)
Record bindable (self : EventLedger) (db : Db) (keypair : ZaionKeypair)
    (b : IdempotentEventBinding) : Prop := {
  bd_handle : exists id, validated_database_instance_id db = Ok id /\
                (el_instance_id self = None \/ el_instance_id self = Some id);
  bd_file : exists path, main_file db = Ok path;
  bd_principal : b_principal_id b = principal_id keypair;
  bd_key : ledger_idempotency_key_ok (b_idempotency_key b) = true;
  bd_payload : exact_json (b_payload b) = true /\
               (json_depth (b_payload b) <= max_json_depth)%nat
}.

Lemma bindable_handle self db keypair b : bindable self db keypair b -> handle_ok self db.
Proof.
  intros [(id & Hv & Hi) _ _ _ _]. exists id. split; [by apply validated_read|done].
Qed.

Lemma bindable_events self db keypair b evs :
  bindable self (with_events db evs) keypair b <-> bindable self db keypair b.
Proof. split; intros [? ? ? ? ?]; by split. Qed.

(** A stored copy of the binding's event verifies. *)
Lemma stored_binding_verifies self db keypair created b row :
  bindable self db keypair b ->
  find_event db (expected_event_id b) = Some row ->
  stored_matches row (binding_event keypair created b) false = true ->
  exists c, verify_existing_idempotent_event self db (public_key_bytes keypair) b = Ok c /\
    validated_database_path db = Ok (vc_canonical_ledger_path c) /\
    database_instance_id self db = Ok (vc_database_instance_id c).
Proof.
  intros Hb Hf Hm. pose proof (bindable_handle _ _ _ _ Hb) as Hh.
  destruct Hb as [(id & Hv & Hi) [path Hpath] Hp Hk [Hex Hd]].
  unfold verify_existing_idempotent_event, database_instance_id.
  rewrite !with_conn_ok by done. rewrite (validated_read _ _ Hv).
  unfold verify_existing_idempotent_event_in_connection, verify_principal_binding,
    get_event_from_connection.
  rewrite (bool_decide_eq_true_2 (b_principal_id b = _)) by exact Hp.
  rewrite Hf. unfold stored_matches, binding_event in Hm. simpl in Hm. bool_props.
  simpl. unfold row_to_event.
  repeat match goal with E : _ row = _ |- _ => rewrite E; clear E end.
  rewrite json_exact_roundtrip by done. simpl. rewrite hex_roundtrip. simpl.
  unfold verify_text, verify_optional_text. simpl.
  rewrite (bool_decide_eq_true_2 (ev_event_id row = _))
    by (apply find_event_Some in Hf; tauto).
  rewrite Hp, !bool_decide_eq_true_2 by done.
  unfold verify_event_signature. simpl. unfold sign_event_envelope.
  rewrite verify_signed. unfold validated_database_path. rewrite Hpath, Hv.
  eexists. split; [done|]. split; [done|]. simpl.
  by destruct Hi as [-> | ->].
Qed.

Lemma append_of_binding self db keypair created b :
  bindable self db keypair b ->
  append_signed_idempotent_event_with_parent self db created keypair
    (b_namespace_key b) (b_event_type b) (b_payload b) (b_run_id b)
    (b_parent_event_id b) (b_idempotency_key b)
  = let? (_, db') := append_prepared_event db (binding_event keypair created b)
                       MatchIgnoringCreatedAt in
    Ok (expected_event_id b, db').
Proof.
  intros Hb. pose proof (bindable_handle _ _ _ _ Hb) as Hh.
  unfold append_signed_idempotent_event_with_parent, ledger_validate_idempotency_key.
  rewrite (bd_key _ _ _ _ Hb), with_conn_ok by done.
  unfold binding_event, expected_event_id. by rewrite (bd_principal _ _ _ _ Hb).
Qed.

(** An append that leaves a database in which the binding verifies returns the
    verified commit. *)
Lemma append_returns_commit self d db' keypair created b c ins :
  bindable self d keypair b ->
  main_file d = main_file db' -> database_instance_id self d = database_instance_id self db' ->
  append_prepared_event d (binding_event keypair created b) MatchIgnoringCreatedAt
  = Ok (ins, db') ->
  verify_existing_idempotent_event self db' (public_key_bytes keypair) b = Ok c ->
  validated_database_path db' = Ok (vc_canonical_ledger_path c) ->
  database_instance_id self db' = Ok (vc_database_instance_id c) ->
  append_verified_idempotent_event self d created keypair b = Ok (c, db').
Proof.
  intros Hbd Hm Hi Hap Hver Hpath Hinst. unfold append_verified_idempotent_event.
  unfold verify_principal_binding.
  rewrite (bool_decide_eq_true_2 (b_principal_id b = _)) by apply Hbd.
  unfold canonical_database_path.
  rewrite with_conn_ok by (by eapply bindable_handle).
  unfold validated_database_path in *. rewrite Hm, Hpath, Hi, Hinst.
  rewrite append_of_binding, Hap by done.
  rewrite Hver, !bool_decide_eq_true_2 by done. done.
Qed.

(** A commit matches the binding it was verified for. *)
Lemma verified_matches_binding self db keypair b c :
  bindable self db keypair b ->
  verify_existing_idempotent_event self db (public_key_bytes keypair) b = Ok c ->
  validated_database_path db = Ok (vc_canonical_ledger_path c) ->
  database_instance_id self db = Ok (vc_database_instance_id c) ->
  matches_binding c self db b = Ok true.
Proof.
  intros Hb Hver Hpath Hinst.
  pose proof (with_conn_inv _ _ _ _ Hver) as [Hver' _].
  apply verify_existing_inv in Hver' as (_ & _ & _ & _ & Hc).
  unfold matches_binding, canonical_database_path.
  rewrite with_conn_ok by (by eapply bindable_handle). rewrite Hpath, Hinst.
  apply (f_equal vc_event_id) in Hc as Hid. apply (f_equal vc_binding_digest) in Hc as Hdg.
  apply (f_equal vc_public_key_bytes) in Hc as Hpk.
  cbn [vc_event_id vc_binding_digest vc_public_key_bytes] in Hid, Hdg, Hpk.
  rewrite Hid, Hdg, Hpk, !bool_decide_eq_true_2 by done. cbn [andb negb].
  by rewrite Hver, bool_decide_eq_true_2.
Qed.

(**  Appending a binding works and can be repeated: on a well formed,
    file-backed ledger, an event that was not there yet is appended and its
    verified commit returned; verification then returns the same commit and the
    commit matches the binding; appending again, at any later time, returns the
    same commit and leaves the ledger as it is. *)
Theorem append_verified_roundtrip self db keypair created b :
  ledger_wf db -> bindable self db keypair b ->
  find_event db (expected_event_id b) = None ->
  Z.of_nat (length (events db)) <= i64_max ->
  exists c db', append_verified_idempotent_event self db created keypair b = Ok (c, db') /\
    ledger_wf db' /\
    verify_existing_idempotent_event self db' (public_key_bytes keypair) b = Ok c /\
    matches_binding c self db' b = Ok true /\
    forall created', append_verified_idempotent_event self db' created' keypair b
                     = Ok (c, db').
Proof.
  intros Hwf Hb Hf Hlen.
  destruct (append_fresh db (binding_event keypair created b) MatchIgnoringCreatedAt Hwf Hf)
    as [db' Ha]; [etrans; [apply Nat2Z.inj_le, length_filter|exact Hlen]|].
  pose proof (append_wf _ _ _ _ _ Hwf Ha) as Hwf'.
  pose proof Ha as Hins. apply append_inserted in Hins as (seq & prev & _ & _ & Hdb').
  assert (Hb' : bindable self db' keypair b) by (subst db'; by apply bindable_events).
  assert (Hfind : find_event db' (expected_event_id b)
                  = Some (prepared_row (binding_event keypair created b) seq prev)).
  { subst db'. by apply find_event_new. }
  assert (Hmatch : forall created', stored_matches
    (prepared_row (binding_event keypair created b) seq prev)
    (binding_event keypair created' b) false = true).
  { intros. unfold stored_matches. simpl. by rewrite !bool_decide_eq_true_2. }
  destruct (stored_binding_verifies _ _ _ _ _ _ Hb' Hfind (Hmatch created))
    as (c & Hver & Hpath & Hinst).
  exists c, db'. split; [|split; [done|split; [done|split]]].
  - eapply append_returns_commit; subst db'; eauto.
  - by eapply verified_matches_binding.
  - intros created'. eapply (append_returns_commit _ _ _ _ _ _ _ false); try done.
    unfold append_prepared_event. simpl. rewrite Hfind. by rewrite Hmatch.
Qed.

End Binding.

(** ** Worked instances *)

Definition sample_binding : IdempotentEventBinding :=
  {| b_idempotency_key := "outbox-0001"; b_principal_id := principal_id sample_keypair;
     b_namespace_key := "session"; b_run_id := Some "turn-1";
     b_event_type := "turn.state.accepted"; b_payload := VNull;
     b_parent_event_id := None |}.

Lemma sample_bindable : bindable sample_handle sample_db sample_keypair sample_binding.
Proof.
  split.
  - exists sample_instance. split; [vm_compute; reflexivity|by right].
  - by eexists.
  - reflexivity.
  - vm_compute. reflexivity.
  - split; [reflexivity|unfold max_json_depth; simpl; lia].
Qed.

Lemma append_verified_roundtrip_witness :
  exists c db', append_verified_idempotent_event sample_handle sample_db "t0"
                  sample_keypair sample_binding = Ok (c, db') /\
    append_verified_idempotent_event sample_handle db' "t1" sample_keypair sample_binding
    = Ok (c, db').
Proof.
  destruct (append_verified_roundtrip sample_handle sample_db sample_keypair "t0"
              sample_binding sample_db_wf sample_bindable) as (c & db' & Ha & _ & _ & _ & Hr).
  - reflexivity.
  - unfold i64_max. simpl. lia.
  - exists c, db'. split; [exact Ha|exact (Hr "t1")].
Defined.

Definition sample_committed : Db :=
  match append_verified_idempotent_event sample_handle sample_db "t0" sample_keypair
          sample_binding with
  | Ok (_, db) => db
  | Err _ => sample_db
  end.

Definition sample_commit : VerifiedEventCommit :=
  {| vc_event_id := expected_event_id sample_binding;
     vc_canonical_ledger_path := "/var/lib/zaion/ledger.db";
     vc_database_instance_id := sample_instance;
     vc_binding_digest := binding_digest "/var/lib/zaion/ledger.db" sample_instance
       (expected_event_id sample_binding) sample_binding;
     vc_public_key_bytes := public_key_bytes sample_keypair |}.

Lemma verified_commit_sound_witness :
  exists row, find_event sample_committed (expected_event_id sample_binding) = Some row /\
              row_proves row (public_key_bytes sample_keypair) sample_binding.
Proof.
  apply (verified_commit_sound sample_handle sample_committed
           (public_key_bytes sample_keypair) sample_binding sample_commit).
  vm_compute. reflexivity.
Defined.
