(* ===== verification/TurnRecords.v ===== *)
(** * Turn store records: identifiers, row validation, loads
    ([crates/zaion-runtime/src/turn_store.rs])

    Deterministic identifiers, the names of states and statuses, the records the
    store returns, and the functions that materialise a row: each checks the
    stored hashes, the bindings between columns and JSON, and the shape of the
    row before it yields a record. *)

From stdpp Require Import prelude gmap strings list.
From S2P Require Import Prelude.
From S2P Require Import Json.
From S2P Require Import TurnState.
From S2P Require Import TurnKernel.
From S2P Require Import Env.
From S2P Require Import Ingress.
From S2P Require Import Schema.
From S2P Require Import Database.
Local Open Scope res_scope.
Local Open Scope Z_scope.

Definition TURN_OUTBOX_SCHEMA : string := "zaion.turn_state_outbox.v2".
Definition MAX_ACTOR_COMPONENT_BYTES : Z := 1024.
Definition MAX_LEASE_OWNER_BYTES : Z := 256.
Definition MAX_OUTBOX_ERROR_BYTES : Z := 4096.
Definition MAX_OUTBOX_LEASE_SECONDS : Z := 5 * 60.

(** ** Names *)

Definition state_name (state : TurnState) : string :=
  match state with
  | Accepted => "accepted"
  | Routed => "routed"
  | Running => "running"
  | WaitingApproval => "waiting_approval"
  | ToolRunning => "tool_running"
  | Completed => "completed"
  | Degraded => "degraded"
  | Aborted => "aborted"
  | Quarantined => "quarantined"
  end.

Definition state_event_type (state : TurnState) : string :=
  "turn.state." +:+ state_name state.

Definition outbox_event_type_matches (event_type state : string) : bool :=
  bool_decide (event_type = "turn.state." +:+ state)
  || bool_decide (event_type = "turn." +:+ state).

Definition parse_state (value : string) : result TurnStoreError TurnState :=
  if bool_decide (value = "accepted") then Ok Accepted
  else if bool_decide (value = "routed") then Ok Routed
  else if bool_decide (value = "running") then Ok Running
  else if bool_decide (value = "waiting_approval") then Ok WaitingApproval
  else if bool_decide (value = "tool_running") then Ok ToolRunning
  else if bool_decide (value = "completed") then Ok Completed
  else if bool_decide (value = "degraded") then Ok Degraded
  else if bool_decide (value = "aborted") then Ok Aborted
  else if bool_decide (value = "quarantined") then Ok Quarantined
  else Err (CorruptState value).

Inductive TurnOutboxStatus : Type := Pending | Leased | Delivered.

#[export] Instance TurnOutboxStatus_eq_dec : EqDecision TurnOutboxStatus.
Proof. solve_decision. Defined.

Definition parse_outbox_status (value : string)
  : result TurnStoreError TurnOutboxStatus :=
  if bool_decide (value = "pending") then Ok Pending
  else if bool_decide (value = "leased") then Ok Leased
  else if bool_decide (value = "delivered") then Ok Delivered
  else Err (CorruptOutboxStatus value).

Definition parse_order_origin (value : string) : result TurnStoreError string :=
  if bool_decide (value = "legacy_rowid_backfill") then Ok "legacy_rowid_backfill"
  else if bool_decide (value = "transactional") then Ok "transactional"
  else Err (SchemaIntegrity ("outbox row has unknown order origin: " +:+ value)).

(** ** Validators *)

Definition validate_actor_component (field value : string)
  : result TurnStoreError unit :=
  if negb (bool_decide (str_trim value = EmptyString))
     && bool_decide (str_len value <= MAX_ACTOR_COMPONENT_BYTES)
  then Ok tt else Err (InvalidActorComponent field).

Definition lease_identity_ok (value : string) : bool :=
  non_empty value && bool_decide (str_len value <= MAX_LEASE_OWNER_BYTES)
  && is_trimmed value
  && str_all (fun b => is_ascii_alphanumeric b || byte_in "._:-@" b) value.

Definition validate_lease_identity (field value : string) : result TurnStoreError unit :=
  if lease_identity_ok value then Ok tt else Err (InvalidLeaseIdentity field).

Definition checked_u64 (value : Z) : result TurnStoreError Z :=
  ok_or (u64_try_from value) (CorruptRevision value).

Definition revision_to_i64 (revision : Z) : result TurnStoreError Z :=
  ok_or (i64_try_from revision) (Transition RevisionExhausted).

(** [bounded_limit] of a [usize]. *)
Definition bounded_limit (limit : nat) : nat := Nat.min (Nat.max limit 1) 1000.

Section Records.
Context `{Env}.

Definition parse_timestamp (field : string) (value : Z) : result TurnStoreError Z :=
  ok_or (timestamp_millis_opt value) (CorruptTimestamp field value).

Definition verify_stored_hash (field json stored_hash : string)
  : result TurnStoreError unit :=
  if bool_decide (sha256_text json = stored_hash) then Ok tt
  else Err (HashMismatch field).

Definition parse_json (text : string) : result TurnStoreError Value :=
  ok_or (json_from_str text) Json.

Definition verify_json_text_binding (value : Value) (path : list string)
    (actual field : string) : result TurnStoreError unit :=
  if bool_decide (pointer_str path value = Some actual) then Ok tt
  else Err (RecordBindingMismatch field).

(** ** Identifiers *)

Definition deterministic_actor_key (parts : list string) : string :=
  "actor-" +:+ str_prefix 40 (hash_parts parts).

Definition deterministic_turn_id (tenant_id idempotency_key request_hash : string)
  : string :=
  "turn-" +:+ str_prefix 40 (hash_parts [tenant_id; idempotency_key; request_hash]).

Definition deterministic_outbox_id (tenant_id turn_id : string) (revision : Z)
    (event_type : string) : string :=
  "outbox-" +:+
    str_prefix 40 (hash_parts [tenant_id; turn_id; z_to_string revision; event_type]).

(** ** Actor identity and admission *)

Record TurnActorIdentity : Type := {
  ai_tenant_id : string;
  ai_actor_key : string;
  ai_principal_id : string;
  ai_workspace_id : string;
  ai_profile_id : string;
  ai_channel_id : string;
  ai_thread_id : string
}.

(** [TurnActorIdentity::for_ingress] *)
Definition for_ingress (ingress : AuthenticatedIngress) (channel_id thread_id : string)
  : result TurnStoreError TurnActorIdentity :=
  let? _ := validate_actor_component "channel_id" channel_id in
  let? _ := validate_actor_component "thread_id" thread_id in
  Ok {| ai_tenant_id := ing_tenant_id ingress;
        ai_actor_key := deterministic_actor_key
          [ing_tenant_id ingress; ing_principal_id ingress; ing_workspace_id ingress;
           ing_profile_id ingress; channel_id; thread_id];
        ai_principal_id := ing_principal_id ingress;
        ai_workspace_id := ing_workspace_id ingress;
        ai_profile_id := ing_profile_id ingress;
        ai_channel_id := channel_id;
        ai_thread_id := thread_id |}.

Record DurableTurnAdmission : Type := {
  ad_actor : TurnActorIdentity;
  ad_request : Value;
  ad_lease_owner : string;
  ad_approval_required : bool
}.

(** [DurableTurnAdmission::new], [with_approval_required] *)
Definition admission_new (actor : TurnActorIdentity) (request : Value)
    (lease_owner : string) : result TurnStoreError DurableTurnAdmission :=
  let? _ := validate_lease_identity "lease_owner" lease_owner in
  Ok {| ad_actor := actor; ad_request := request; ad_lease_owner := lease_owner;
        ad_approval_required := false |}.

Definition with_approval_required (a : DurableTurnAdmission) (required : bool)
  : DurableTurnAdmission :=
  {| ad_actor := ad_actor a; ad_request := ad_request a;
     ad_lease_owner := ad_lease_owner a; ad_approval_required := required |}.

Definition validate_actor_authority (ingress : AuthenticatedIngress)
    (actor : TurnActorIdentity) : result TurnStoreError unit :=
  if bool_decide (ing_tenant_id ingress = ai_tenant_id actor)
     && bool_decide (ing_principal_id ingress = ai_principal_id actor)
     && bool_decide (ing_workspace_id ingress = ai_workspace_id actor)
     && bool_decide (ing_profile_id ingress = ai_profile_id actor)
  then Ok tt else Err ActorAuthorityMismatch.

(** ** Records *)

Record DurableTurnRecord : Type := {
  t_tenant_id : string;
  t_turn_id : string;
  t_actor_key : string;
  t_subject_id : string;
  t_principal_id : string;
  t_workspace_id : string;
  t_profile_id : string;
  t_session_id : string;
  t_source_surface : string;
  t_source_id : string;
  t_idempotency_key : string;
  t_request : Value;
  t_request_hash : string;
  t_authority : Value;
  t_authority_hash : string;
  t_deadline : Z;
  t_state : VersionedTurnState;
  t_terminal_result : option Value;
  t_terminal_result_hash : option string;
  t_created_at : Z;
  t_updated_at : Z
}.

Record TurnActorRecord : Type := {
  a_tenant_id : string;
  a_actor_key : string;
  a_principal_id : string;
  a_workspace_id : string;
  a_profile_id : string;
  a_channel_id : string;
  a_thread_id : string;
  a_revision : Z;
  a_active_turn_id : option string;
  a_lease_owner : option string;
  a_lease_until : option Z;
  a_created_at : Z;
  a_updated_at : Z
}.

Record TurnOutboxRecord : Type := {
  o_tenant_id : string;
  o_outbox_id : string;
  o_commit_ordinal : Z;
  o_order_origin : string;
  o_turn_id : string;
  o_revision : Z;
  o_event_type : string;
  o_effect_kind : string;
  o_idempotency_mode : string;
  o_payload : Value;
  o_payload_hash : string;
  o_status : TurnOutboxStatus;
  o_attempts : Z;
  o_available_at : Z;
  o_lease_owner : option string;
  o_lease_token : option string;
  o_lease_until : option Z;
  o_delivered_at : option Z;
  o_ledger_event_id : option string;
  o_verified_ledger_event_id : option string;
  o_verified_signer_public_key : option string;
  o_verified_database_instance_id : option string;
  o_last_error : option string;
  o_created_at : Z;
  o_updated_at : Z
}.

(** ** Turns *)

Definition verify_turn_bindings (k : Key) (raw : TurnRow) (authority : Value)
  : result TurnStoreError unit :=
  let? _ := verify_json_text_binding authority ["tenant_id"] k.1 "tenant_id" in
  let? _ := verify_json_text_binding authority ["subject_id"] (tr_subject_id raw)
              "subject_id" in
  let? _ := verify_json_text_binding authority ["principal_id"] (tr_principal_id raw)
              "principal_id" in
  let? _ := verify_json_text_binding authority ["workspace_id"] (tr_workspace_id raw)
              "workspace_id" in
  let? _ := verify_json_text_binding authority ["profile_id"] (tr_profile_id raw)
              "profile_id" in
  let? _ := verify_json_text_binding authority ["session_id"] (tr_session_id raw)
              "session_id" in
  let? _ := verify_json_text_binding authority ["source"; "surface"]
              (tr_source_surface raw) "source_surface" in
  let? _ := verify_json_text_binding authority ["source"; "source_id"]
              (tr_source_id raw) "source_id" in
  let? _ := verify_json_text_binding authority ["idempotency_key"]
              (tr_idempotency_key raw) "idempotency_key" in
  let? authority_deadline :=
    ok_or (match pointer_str ["deadline"] authority with
           | Some text => parse_from_rfc3339 text
           | None => None
           end) (RecordBindingMismatch "deadline_ms") in
  guard? bool_decide (timestamp_millis authority_deadline = tr_deadline_ms raw)
    else RecordBindingMismatch "deadline_ms" in
  guard? bool_decide
      (deterministic_turn_id k.1 (tr_idempotency_key raw) (tr_request_hash raw) = k.2)
    else RecordBindingMismatch "turn_id" in
  Ok tt.

Definition validate_persisted_terminal (state : TurnState) (terminal_result : option Value)
  : result TurnStoreError unit :=
  match is_terminal state, terminal_result with
  | false, None => Ok tt
  | false, Some _ => Err NonTerminalResult
  | true, None => Err MissingTerminalResult
  | true, Some v =>
      let? execution := ok_or (execution_from_value v) Json in
      let actual := terminal_state execution in
      guard? bool_decide (actual = state) else TerminalOutcomeMismatch state actual in
      Ok tt
  end.

Definition materialize_turn (k : Key) (raw : TurnRow)
  : result TurnStoreError DurableTurnRecord :=
  let? _ := verify_stored_hash "request_hash" (tr_request_json raw)
              (tr_request_hash raw) in
  let? _ := verify_stored_hash "authority_hash" (tr_authority_json raw)
              (tr_authority_hash raw) in
  let? _ := match tr_terminal_json raw, tr_terminal_hash raw with
            | Some json, Some hash => verify_stored_hash "terminal_result_hash" json hash
            | None, None => Ok tt
            | _, _ => Err (HashMismatch "terminal_result_hash")
            end in
  let? request := parse_json (tr_request_json raw) in
  let? authority := parse_json (tr_authority_json raw) in
  let? _ := verify_turn_bindings k raw authority in
  let? state := parse_state (tr_state raw) in
  let? revision := checked_u64 (tr_revision raw) in
  let? terminal_result := transpose_map parse_json (tr_terminal_json raw) in
  let? _ := validate_persisted_terminal state terminal_result in
  let? deadline := parse_timestamp "deadline_ms" (tr_deadline_ms raw) in
  let? created_at := parse_timestamp "created_at_ms" (tr_created_at_ms raw) in
  let? updated_at := parse_timestamp "updated_at_ms" (tr_updated_at_ms raw) in
  Ok {| t_tenant_id := k.1; t_turn_id := k.2; t_actor_key := tr_actor_key raw;
        t_subject_id := tr_subject_id raw; t_principal_id := tr_principal_id raw;
        t_workspace_id := tr_workspace_id raw; t_profile_id := tr_profile_id raw;
        t_session_id := tr_session_id raw; t_source_surface := tr_source_surface raw;
        t_source_id := tr_source_id raw; t_idempotency_key := tr_idempotency_key raw;
        t_request := request; t_request_hash := tr_request_hash raw;
        t_authority := authority; t_authority_hash := tr_authority_hash raw;
        t_deadline := deadline; t_state := restore state revision;
        t_terminal_result := terminal_result;
        t_terminal_result_hash := tr_terminal_hash raw;
        t_created_at := created_at; t_updated_at := updated_at |}.

Definition load_turn (db : Db) (tenant_id turn_id : string)
  : result TurnStoreError (option DurableTurnRecord) :=
  transpose_map (materialize_turn (tenant_id, turn_id)) (turns db !! (tenant_id, turn_id)).

(** The row [WHERE tenant_id = ?1 AND idempotency_key = ?2]; the unique
    constraint leaves at most one. *)
Definition find_by_idempotency (db : Db) (tenant_id idempotency_key : string)
  : option (Key * TurnRow) :=
  head (filter (fun kr => kr.1.1 = tenant_id /\ tr_idempotency_key kr.2 = idempotency_key)
          (map_to_list (turns db))).

Definition load_by_idempotency (db : Db) (tenant_id idempotency_key : string)
  : result TurnStoreError (option DurableTurnRecord) :=
  transpose_map (fun kr => materialize_turn kr.1 kr.2)
    (find_by_idempotency db tenant_id idempotency_key).

(** ** Actors *)

(** [to_sql_conversion_error] *)
Definition to_sql_conversion_error {A} (r : result TurnStoreError A)
  : result TurnStoreError A :=
  match r with Ok a => Ok a | Err _ => Err (Sqlite FromSqlConversionFailure) end.

(** A revision that left the [i64] range is stored as a real number, which
    [row.get] does not convert. *)
Definition row_to_actor (k : Key) (row : ActorRow) : result TurnStoreError TurnActorRecord :=
  guard? in_i64 (ar_revision row) else Sqlite FromSqlConversionFailure in
  let? revision := to_sql_conversion_error (checked_u64 (ar_revision row)) in
  let? lease_until := to_sql_conversion_error
    (transpose_map (parse_timestamp "lease_until_ms") (ar_lease_until_ms row)) in
  let? created_at := to_sql_conversion_error
    (parse_timestamp "created_at_ms" (ar_created_at_ms row)) in
  let? updated_at := to_sql_conversion_error
    (parse_timestamp "updated_at_ms" (ar_updated_at_ms row)) in
  Ok {| a_tenant_id := k.1; a_actor_key := k.2; a_principal_id := ar_principal_id row;
        a_workspace_id := ar_workspace_id row; a_profile_id := ar_profile_id row;
        a_channel_id := ar_channel_id row; a_thread_id := ar_thread_id row;
        a_revision := revision; a_active_turn_id := ar_active_turn_id row;
        a_lease_owner := ar_lease_owner row; a_lease_until := lease_until;
        a_created_at := created_at; a_updated_at := updated_at |}.

Definition load_actor (db : Db) (tenant_id actor_key : string)
  : result TurnStoreError (option TurnActorRecord) :=
  transpose_map (row_to_actor (tenant_id, actor_key)) (actors db !! (tenant_id, actor_key)).

(** ** Outbox rows *)

(** A row of [OUTBOX_SELECT]. *)
Record RawOutboxRow : Type := {
  ro_key : Key;
  ro_order : OrderRow;
  ro_row : OutboxRow;
  ro_verified : option VerifiedRow
}.

Definition outbox_select (db : Db) : list RawOutboxRow :=
  map (fun co => {| ro_key := co_key co.1; ro_order := co.1; ro_row := co.2;
                    ro_verified := verified db !! co_key co.1 |}) (outbox_join db).

Definition validate_outbox_status_bindings (raw : RawOutboxRow) (status : TurnOutboxStatus)
  : result TurnStoreError unit :=
  let r := ro_row raw in
  let shape_matches :=
    match status with
    | Pending =>
        opt_is_none (or_lease_owner r) && opt_is_none (or_lease_token r)
        && opt_is_none (or_lease_until_ms r) && opt_is_none (or_delivered_at_ms r)
        && opt_is_none (or_ledger_event_id r)
    | Leased =>
        opt_is_some (or_lease_owner r) && opt_is_some (or_lease_token r)
        && opt_is_some (or_lease_until_ms r) && opt_is_none (or_delivered_at_ms r)
        && opt_is_none (or_ledger_event_id r)
    | Delivered =>
        opt_is_none (or_lease_owner r) && opt_is_none (or_lease_token r)
        && opt_is_none (or_lease_until_ms r) && opt_is_some (or_delivered_at_ms r)
        && opt_is_some (or_ledger_event_id r)
    end in
  guard? shape_matches else RecordBindingMismatch "outbox.status_fields" in
  let evidence_shape_matches :=
    match ro_verified raw with
    | None => true
    | Some v =>
        bool_decide (status = Delivered)
        && bool_decide (String.length (vr_signer_public_key v) = 32%nat)
        && non_empty (vr_database_instance_id v)
        && bool_decide (or_ledger_event_id r = Some (vr_ledger_event_id v))
    end in
  guard? negb (negb evidence_shape_matches
               || (negb (bool_decide (status = Delivered))
                   && opt_is_some (ro_verified raw)))
    else RecordBindingMismatch "outbox.verified_commit" in
  guard? negb (bool_decide (or_available_at_ms r < or_created_at_ms r)
               || bool_decide (or_updated_at_ms r < or_created_at_ms r)
               || is_some_and (fun ts => bool_decide (ts < or_created_at_ms r))
                    (or_lease_until_ms r)
               || is_some_and (fun ts => bool_decide (ts < or_created_at_ms r))
                    (or_delivered_at_ms r))
    else RecordBindingMismatch "outbox.timestamps" in
  Ok tt.

Definition verify_outbox_bindings (raw : RawOutboxRow) (payload : Value) (revision : Z)
  : result TurnStoreError unit :=
  let r := ro_row raw in
  let k := ro_key raw in
  let? _ := verify_json_text_binding payload ["schema"] TURN_OUTBOX_SCHEMA
              "outbox.schema" in
  let? _ := verify_json_text_binding payload ["outbox_id"] k.2 "outbox.outbox_id" in
  let? _ := verify_json_text_binding payload ["tenant_id"] k.1 "outbox.tenant_id" in
  let? _ := verify_json_text_binding payload ["turn_id"] (or_turn_id r)
              "outbox.turn_id" in
  guard? bool_decide (match pointer ["revision"] payload with
                      | Some v => as_u64 v
                      | None => None
                      end = Some revision)
    else RecordBindingMismatch "outbox.revision" in
  let? state := ok_or (pointer_str ["state"] payload)
                  (RecordBindingMismatch "outbox.event_type") in
  guard? outbox_event_type_matches (or_event_type r) state
    else RecordBindingMismatch "outbox.event_type" in
  guard? bool_decide (or_effect_kind r = "ledger_turn_state")
    else RecordBindingMismatch "outbox.effect_kind" in
  guard? bool_decide (or_idempotency_mode r = "key_required")
    else RecordBindingMismatch "outbox.idempotency_mode" in
  guard? bool_decide
      (deterministic_outbox_id k.1 (or_turn_id r) revision (or_event_type r) = k.2)
    else RecordBindingMismatch "outbox.outbox_id" in
  Ok tt.

Definition materialize_outbox (raw : RawOutboxRow)
  : result TurnStoreError TurnOutboxRecord :=
  let r := ro_row raw in
  let? _ := verify_stored_hash "outbox_payload_hash" (or_payload_json r)
              (or_payload_hash r) in
  let? payload := parse_json (or_payload_json r) in
  let? revision := checked_u64 (or_revision r) in
  let? _ := verify_outbox_bindings raw payload revision in
  let? commit_ordinal := checked_u64 (co_ordinal (ro_order raw)) in
  guard? negb (bool_decide (commit_ordinal = 0))
    else SchemaIntegrity "outbox commit ordinal must be positive" in
  let? status := parse_outbox_status (or_status r) in
  let? _ := validate_outbox_status_bindings raw status in
  let? order_origin := parse_order_origin (co_order_origin (ro_order raw)) in
  let? attempts := checked_u64 (or_attempts r) in
  let? available_at := parse_timestamp "available_at_ms" (or_available_at_ms r) in
  let? lease_until := transpose_map (parse_timestamp "lease_until_ms")
                        (or_lease_until_ms r) in
  let? delivered_at := transpose_map (parse_timestamp "delivered_at_ms")
                         (or_delivered_at_ms r) in
  let? created_at := parse_timestamp "created_at_ms" (or_created_at_ms r) in
  let? updated_at := parse_timestamp "updated_at_ms" (or_updated_at_ms r) in
  Ok {| o_tenant_id := (ro_key raw).1; o_outbox_id := (ro_key raw).2;
        o_commit_ordinal := commit_ordinal; o_order_origin := order_origin;
        o_turn_id := or_turn_id r; o_revision := revision;
        o_event_type := or_event_type r; o_effect_kind := or_effect_kind r;
        o_idempotency_mode := or_idempotency_mode r; o_payload := payload;
        o_payload_hash := or_payload_hash r; o_status := status; o_attempts := attempts;
        o_available_at := available_at; o_lease_owner := or_lease_owner r;
        o_lease_token := or_lease_token r; o_lease_until := lease_until;
        o_delivered_at := delivered_at; o_ledger_event_id := or_ledger_event_id r;
        o_verified_ledger_event_id := vr_ledger_event_id <$> ro_verified raw;
        o_verified_signer_public_key := vr_signer_public_key <$> ro_verified raw;
        o_verified_database_instance_id := vr_database_instance_id <$> ro_verified raw;
        o_last_error := or_last_error r; o_created_at := created_at;
        o_updated_at := updated_at |}.

(** [OUTBOX_SELECT WHERE o.tenant_id = ?1 AND o.outbox_id = ?2] *)
Definition load_outbox (db : Db) (tenant_id outbox_id : string)
  : result TurnStoreError (option TurnOutboxRecord) :=
  transpose_map materialize_outbox
    (head (filter (fun raw => ro_key raw = (tenant_id, outbox_id)) (outbox_select db))).

End Records.
