(* ===== verification/TurnStore.v ===== *)
(** * The durable turn store: admission, transitions, recovery
    ([crates/zaion-runtime/src/turn_store.rs], and [approve_turn] of
    [crates/zaion-runtime/src/session_actor.rs])

    Every operation is a function of the database: [Ok] with the result and the
    database after the commit, or the error, on which the transaction was rolled
    back.  Each state change of a turn writes, in the same transaction, the
    actor's lease and one outbox row with the next commit ordinal. *)

From stdpp Require Import prelude gmap strings list.
From S2P Require Import Prelude.
From S2P Require Import Json.
From S2P Require Import TurnState.
From S2P Require Import TurnKernel.
From S2P Require Import Env.
From S2P Require Import Ingress.
From S2P Require Import Schema.
From S2P Require Import Database.
From S2P Require Import TurnRecords.
Local Open Scope res_scope.
Local Open Scope Z_scope.

Inductive BeginTurnResult : Type :=
| Created (record : DurableTurnRecord)
| ExistingTurn (record : DurableTurnRecord).

(** [BeginTurnResult::record], [is_created] *)
Definition begin_record (r : BeginTurnResult) : DurableTurnRecord :=
  match r with Created record | ExistingTurn record => record end.

Definition is_created (r : BeginTurnResult) : bool :=
  match r with Created _ => true | ExistingTurn _ => false end.

Section Store.
Context `{Env}.

(** ** The outbox queue *)

Definition tenant_outbox_head (db : Db) (tenant_id : string)
  : result TurnStoreError (option string) :=
  guard? bool_decide (map_Forall (fun k _ =>
           k.1 = tenant_id -> order_of db k <> None) (outbox db))
    else SchemaIntegrity "tenant outbox contains a record without commit order" in
  guard? bool_decide (Forall (fun c =>
           co_tenant_id c = tenant_id -> outbox db !! co_key c <> None) (commit_order db))
    else SchemaIntegrity "tenant commit order contains a record without an outbox row" in
  guard? negb (match first_undelivered db tenant_id, last_delivered db tenant_id with
               | Some first, Some last => bool_decide (first < last)
               | _, _ => false
               end)
    else SchemaIntegrity "tenant outbox delivery history contains a committed-order hole" in
  match first_undelivered db tenant_id with
  | None => Ok None
  | Some first =>
      Ok (match filter (fun co => co_ordinal co.1 = first /\ or_status co.2 <> "delivered")
                  (tenant_join db tenant_id) with
          | co :: _ => Some (co_outbox_id co.1)
          | [] => None
          end)
  end.

Definition next_commit_ordinal (db : Db) : result TurnStoreError Z :=
  let maximum := max_ordinal db in
  guard? bool_decide (order_sequence db = maximum)
    else SchemaIntegrity "outbox commit-order sequence does not match its maximum" in
  ok_or (i64_checked_add (default 0 maximum) 1) CommitOrdinalExhausted.

(** The JSON document of one state change. *)
Definition outbox_payload (record : DurableTurnRecord) (outbox_id : string)
    (previous_state : option TurnState) (terminal_result_hash : option string)
    (occurred_at : Z) : Value :=
  VObject
    [("schema", VString TURN_OUTBOX_SCHEMA);
     ("outbox_id", VString outbox_id);
     ("tenant_id", VString (t_tenant_id record));
     ("turn_id", VString (t_turn_id record));
     ("actor_key", VString (t_actor_key record));
     ("subject_id", VString (t_subject_id record));
     ("principal_id", VString (t_principal_id record));
     ("workspace_id", VString (t_workspace_id record));
     ("profile_id", VString (t_profile_id record));
     ("session_id", VString (t_session_id record));
     ("source", VObject [("surface", VString (t_source_surface record));
                         ("source_id", VString (t_source_id record))]);
     ("idempotency_key", VString (t_idempotency_key record));
     ("request_hash", VString (t_request_hash record));
     ("authority_hash", VString (t_authority_hash record));
     ("previous_state", opt_string (state_name <$> previous_state));
     ("state", VString (state_name (state (t_state record))));
     ("revision", VNumber (revision (t_state record)));
     ("terminal", VBool (is_terminal (state (t_state record))));
     ("terminal_result_hash", opt_string terminal_result_hash);
     ("occurred_at", VString (to_rfc3339_millis occurred_at))].

(** The row [insert_outbox] writes, before the database sees it. *)
Definition outbox_row (record : DurableTurnRecord) (outbox_id : string) (payload : Value)
    (rev now_ms : Z) : OutboxRow :=
  let payload_json := canonical_json payload in
  {| or_turn_id := t_turn_id record; or_revision := rev;
     or_event_type := state_event_type (state (t_state record));
     or_effect_kind := "ledger_turn_state"; or_idempotency_mode := "key_required";
     or_payload_json := payload_json; or_payload_hash := sha256_text payload_json;
     or_status := "pending"; or_attempts := 0; or_available_at_ms := now_ms;
     or_lease_owner := None; or_lease_token := None; or_lease_until_ms := None;
     or_delivered_at_ms := None; or_ledger_event_id := None; or_last_error := None;
     or_created_at_ms := now_ms; or_updated_at_ms := now_ms |}.

Definition insert_outbox (db : Db) (record : DurableTurnRecord)
    (previous_state : option TurnState) (terminal_result_hash : option string) (now : Z)
  : result TurnStoreError Db :=
  let? _ := from_schema (validate_no_extra_outbox_triggers (sqlite_master db)) in
  let? expected_commit_ordinal := next_commit_ordinal db in
  let outbox_id := deterministic_outbox_id (t_tenant_id record) (t_turn_id record)
    (revision (t_state record)) (state_event_type (state (t_state record))) in
  let now_ms := timestamp_millis now in
  let? occurred_at := parse_timestamp "outbox_created_at_ms" now_ms in
  let payload := outbox_payload record outbox_id previous_state terminal_result_hash
                   occurred_at in
  let? rev := revision_to_i64 (revision (t_state record)) in
  let k := (t_tenant_id record, outbox_id) in
  let? db' := from_sqlite (insert_outbox_row db k
                             (outbox_row record outbox_id payload rev now_ms)) in
  guard? is_some_and (fun c => bool_decide (co_ordinal c = expected_commit_ordinal)
                               && bool_decide (co_order_origin c = "transactional")
                               && bool_decide (co_legacy_source_rowid c = None))
           (order_of db' k)
    else SchemaIntegrity "outbox trigger did not assign the expected transactional order" in
  Ok db'.

(** ** Actors *)

Definition fresh_actor (actor : TurnActorIdentity) (now : Z) : ActorRow :=
  {| ar_principal_id := ai_principal_id actor; ar_workspace_id := ai_workspace_id actor;
     ar_profile_id := ai_profile_id actor; ar_channel_id := ai_channel_id actor;
     ar_thread_id := ai_thread_id actor; ar_revision := 0;
     ar_active_turn_id := None; ar_lease_owner := None; ar_lease_until_ms := None;
     ar_created_at_ms := timestamp_millis now; ar_updated_at_ms := timestamp_millis now |}.

Definition ensure_actor_row (db : Db) (actor : TurnActorIdentity) (now : Z)
  : result TurnStoreError Db :=
  let? db' := from_sqlite (insert_actor db (ai_tenant_id actor, ai_actor_key actor)
                             (fresh_actor actor now)) in
  let? found := load_actor db' (ai_tenant_id actor) (ai_actor_key actor) in
  let? persisted := ok_or found ActorAuthorityMismatch in
  guard? bool_decide (a_principal_id persisted = ai_principal_id actor)
         && bool_decide (a_workspace_id persisted = ai_workspace_id actor)
         && bool_decide (a_profile_id persisted = ai_profile_id actor)
         && bool_decide (a_channel_id persisted = ai_channel_id actor)
         && bool_decide (a_thread_id persisted = ai_thread_id actor)
    else ActorAuthorityMismatch in
  Ok db'.

(** [SET active_turn_id, lease_owner, lease_until_ms, revision = revision + 1,
    updated_at_ms] *)
Definition set_lease (turn_id owner : option string) (until : option Z) (now : Z)
    (r : ActorRow) : ActorRow :=
  {| ar_principal_id := ar_principal_id r; ar_workspace_id := ar_workspace_id r;
     ar_profile_id := ar_profile_id r; ar_channel_id := ar_channel_id r;
     ar_thread_id := ar_thread_id r; ar_revision := ar_revision r + 1;
     ar_active_turn_id := turn_id; ar_lease_owner := owner; ar_lease_until_ms := until;
     ar_created_at_ms := ar_created_at_ms r; ar_updated_at_ms := timestamp_millis now |}.

Definition clear_actor (db : Db) (record : DurableTurnRecord) (now : Z)
  : result TurnStoreError Db :=
  let? (changed, db') := from_sqlite
    (update_actor db (t_tenant_id record, t_actor_key record)
       (fun r => bool_decide (ar_active_turn_id r = Some (t_turn_id record)))
       (set_lease None None None now)) in
  guard? bool_decide (changed = 1%nat) else CasLost in
  Ok db'.

Definition verify_actor_lease (db : Db) (record : DurableTurnRecord)
    (lease_owner : string) (now : Z) : result TurnStoreError unit :=
  let? found := load_actor db (t_tenant_id record) (t_actor_key record) in
  let? actor := ok_or found (ActorLeaseLost lease_owner) in
  guard? negb (negb (bool_decide (a_active_turn_id actor = Some (t_turn_id record)))
               || negb (bool_decide (a_lease_owner actor = Some lease_owner))
               || is_none_or (fun deadline => bool_decide (deadline <= now))
                    (a_lease_until actor))
    else ActorLeaseLost lease_owner in
  Ok tt.

Definition update_actor_after_transition (db : Db) (record : DurableTurnRecord)
    (lease_owner : string) (next : TurnState) (now : Z) : result TurnStoreError Db :=
  let set := if is_terminal next then set_lease None None None now
             else set_lease (Some (t_turn_id record)) (Some lease_owner)
                    (Some (timestamp_millis (t_deadline record))) now in
  let? (changed, db') := from_sqlite
    (update_actor db (t_tenant_id record, t_actor_key record)
       (fun r => bool_decide (ar_active_turn_id r = Some (t_turn_id record))
                 && bool_decide (ar_lease_owner r = Some lease_owner)) set) in
  guard? bool_decide (changed = 1%nat) else ActorLeaseLost lease_owner in
  Ok db'.

(** ** Turn rows *)

(** [SET state, revision, terminal_result_json, terminal_result_hash,
    updated_at_ms] *)
Definition set_turn (next : TurnState) (rev : Z) (terminal_json terminal_hash : option string)
    (now : Z) (r : TurnRow) : TurnRow :=
  {| tr_actor_key := tr_actor_key r; tr_subject_id := tr_subject_id r;
     tr_principal_id := tr_principal_id r; tr_workspace_id := tr_workspace_id r;
     tr_profile_id := tr_profile_id r; tr_session_id := tr_session_id r;
     tr_source_surface := tr_source_surface r; tr_source_id := tr_source_id r;
     tr_idempotency_key := tr_idempotency_key r; tr_request_json := tr_request_json r;
     tr_request_hash := tr_request_hash r; tr_authority_json := tr_authority_json r;
     tr_authority_hash := tr_authority_hash r; tr_deadline_ms := tr_deadline_ms r;
     tr_state := state_name next; tr_revision := rev;
     tr_terminal_json := terminal_json; tr_terminal_hash := terminal_hash;
     tr_created_at_ms := tr_created_at_ms r; tr_updated_at_ms := timestamp_millis now |}.

(** [UPDATE turn_state_v2 ... WHERE ... AND state = ? AND revision = ?] *)
Definition cas_turn (db : Db) (k : Key) (expected_state : TurnState) (expected_rev : Z)
    (set : TurnRow -> TurnRow) : result TurnStoreError Db :=
  let? (changed, db') := from_sqlite
    (update_turn db k
       (fun r => bool_decide (tr_state r = state_name expected_state)
                 && bool_decide (tr_revision r = expected_rev)) set) in
  guard? bool_decide (changed = 1%nat) else CasLost in
  Ok db'.

Definition load_existing (db : Db) (tenant_id turn_id : string)
  : result TurnStoreError DurableTurnRecord :=
  let? found := load_turn db tenant_id turn_id in
  ok_or found (MissingTurn tenant_id turn_id).

(** ** Recovery of expired leases *)

(** The terminal result of recovery: nothing external can have happened before
    the turn ran; a running turn may have had effects and is quarantined. *)
Definition recovery_result (s : TurnState) : TurnExecution :=
  match s with
  | Running | ToolRunning =>
      Finished None (OutcomeQuarantined
        {| level := 3;
           qe_reason_code := "expired_actor_lease_with_uncertain_external_effect";
           diagnostic_scope := "durable_turn_recovery" |})
  | _ =>
      aborted {| te_reason_code := "expired_actor_lease_before_uncertain_effect";
                 te_message :=
                   "durable turn lease expired before a recoverable continuation existed" |}
              {| appended_event_ids := []; last_safe_parent_event_id := None |}
  end.

Definition recovery_state (s : TurnState) : TurnState :=
  match s with Running | ToolRunning => Quarantined | _ => Aborted end.

Definition recover_turn_in_tx (db : Db) (record : DurableTurnRecord) (now : Z)
  : result TurnStoreError (DurableTurnRecord * Db) :=
  guard? negb (bool_decide (now < t_updated_at record)) else NonMonotonicTimestamp in
  let s := state (t_state record) in
  if is_terminal s then
    let? db' := clear_actor db record now in Ok (record, db')
  else
    let? next := match compare_and_transition (t_state record) s
                         (revision (t_state record)) (recovery_state s) with
                 | Ok v => Ok v
                 | Err e => Err (Transition e)
                 end in
    let terminal_json := canonical_json (execution_to_value (recovery_result s)) in
    let terminal_hash := sha256_text terminal_json in
    let? rev' := revision_to_i64 (revision next) in
    let? rev := revision_to_i64 (revision (t_state record)) in
    let? db1 := cas_turn db (t_tenant_id record, t_turn_id record) s rev
      (set_turn (recovery_state s) rev' (Some terminal_json) (Some terminal_hash) now) in
    let? db2 := clear_actor db1 record now in
    let? recovered := load_existing db2 (t_tenant_id record) (t_turn_id record) in
    let? db3 := insert_outbox db2 recovered (Some s) (Some terminal_hash) now in
    Ok (recovered, db3).

Definition recover_actor_for_admission (db : Db) (actor : TurnActorIdentity) (now : Z)
  : result TurnStoreError Db :=
  let? found := load_actor db (ai_tenant_id actor) (ai_actor_key actor) in
  let? actor_record := ok_or found ActorAuthorityMismatch in
  match a_active_turn_id actor_record with
  | None => Ok db
  | Some active_turn_id =>
      let? lease_until := ok_or (a_lease_until actor_record) (ActorLeaseLost "missing") in
      guard? bool_decide (lease_until <= now)
        else ActorBusy (ai_actor_key actor) active_turn_id lease_until in
      let? active := load_existing db (ai_tenant_id actor) active_turn_id in
      let? (_, db') := recover_turn_in_tx db active now in
      Ok db'
  end.

Definition recover_duplicate_if_expired (db : Db) (record : DurableTurnRecord) (now : Z)
  : result TurnStoreError (DurableTurnRecord * Db) :=
  if is_terminal (state (t_state record)) then Ok (record, db)
  else
    let? found := load_actor db (t_tenant_id record) (t_actor_key record) in
    let? actor := ok_or found (ActorLeaseLost "missing") in
    guard? bool_decide (a_active_turn_id actor = Some (t_turn_id record))
      else ActorLeaseLost (default "missing" (a_lease_owner actor)) in
    if is_some_and (fun lease_until => bool_decide (lease_until <= now))
         (a_lease_until actor)
    then recover_turn_in_tx db record now
    else Ok (record, db).

(** ** Admission *)

Definition initial_state (admission : DurableTurnAdmission) : TurnState :=
  if ad_approval_required admission then WaitingApproval else Accepted.

Definition new_turn_row (ingress : AuthenticatedIngress) (admission : DurableTurnAdmission)
    (now : Z) : TurnRow :=
  let request_json := canonical_json (ad_request admission) in
  let authority_json := canonical_json (ingress_to_value ingress) in
  {| tr_actor_key := ai_actor_key (ad_actor admission);
     tr_subject_id := ing_subject_id ingress; tr_principal_id := ing_principal_id ingress;
     tr_workspace_id := ing_workspace_id ingress; tr_profile_id := ing_profile_id ingress;
     tr_session_id := ing_session_id ingress;
     tr_source_surface := surface (ing_source ingress);
     tr_source_id := source_id (ing_source ingress);
     tr_idempotency_key := ing_idempotency_key ingress;
     tr_request_json := request_json; tr_request_hash := sha256_text request_json;
     tr_authority_json := authority_json; tr_authority_hash := sha256_text authority_json;
     tr_deadline_ms := timestamp_millis (ing_deadline ingress);
     tr_state := state_name (initial_state admission); tr_revision := 0;
     tr_terminal_json := None; tr_terminal_hash := None;
     tr_created_at_ms := timestamp_millis now; tr_updated_at_ms := timestamp_millis now |}.

(** The admission of a new turn, after the idempotency and deadline checks. *)
Definition create_turn (db : Db) (ingress : AuthenticatedIngress)
    (admission : DurableTurnAdmission) (now : Z)
  : result TurnStoreError (BeginTurnResult * Db) :=
  let tenant := ing_tenant_id ingress in
  let actor := ad_actor admission in
  let request_hash := sha256_text (canonical_json (ad_request admission)) in
  let? db1 := ensure_actor_row db actor now in
  let? db2 := recover_actor_for_admission db1 actor now in
  let turn_id := deterministic_turn_id tenant (ing_idempotency_key ingress) request_hash in
  let? db3 := from_sqlite (insert_turn db2 (tenant, turn_id)
                             (new_turn_row ingress admission now)) in
  let? (changed, db4) := from_sqlite
    (update_actor db3 (tenant, ai_actor_key actor)
       (fun r => opt_is_none (ar_active_turn_id r))
       (set_lease (Some turn_id) (Some (ad_lease_owner admission))
          (Some (timestamp_millis (ing_deadline ingress))) now)) in
  guard? bool_decide (changed = 1%nat) else CasLost in
  let? record := load_existing db4 tenant turn_id in
  let? db5 := insert_outbox db4 record None None now in
  Ok (Created record, db5).

Definition begin_turn (db : Db) (ingress : AuthenticatedIngress)
    (admission : DurableTurnAdmission) (now : Z)
  : result TurnStoreError (BeginTurnResult * Db) :=
  let? _ := validate_actor_authority ingress (ad_actor admission) in
  let request_hash := sha256_text (canonical_json (ad_request admission)) in
  let authority_hash := sha256_text (canonical_json (ingress_to_value ingress)) in
  let? existing := load_by_idempotency db (ing_tenant_id ingress)
                     (ing_idempotency_key ingress) in
  match existing with
  | Some existing =>
      guard? bool_decide (t_actor_key existing = ai_actor_key (ad_actor admission))
             && bool_decide (t_request_hash existing = request_hash)
             && bool_decide (t_authority_hash existing = authority_hash)
        else IdempotencyConflict in
      let? (record, db') := recover_duplicate_if_expired db existing now in
      Ok (ExistingTurn record, db')
  | None =>
      guard? negb (bool_decide (ing_deadline ingress <= now)) else DeadlineExpired in
      create_turn db ingress admission now
  end.

(** ** Transitions *)

Definition transition_inner (db : Db) (tenant_id turn_id lease_owner : string)
    (expected_state : TurnState) (expected_revision : Z) (next : TurnState)
    (terminal_result : option TurnExecution) (now : Z)
  : result TurnStoreError (DurableTurnRecord * Db) :=
  let? _ := validate_lease_identity "lease_owner" lease_owner in
  let? current := load_existing db tenant_id turn_id in
  guard? negb (bool_decide (now < t_updated_at current)) else NonMonotonicTimestamp in
  let? _ := verify_actor_lease db current lease_owner now in
  let? next_state := match compare_and_transition (t_state current) expected_state
                             expected_revision next with
                     | Ok v => Ok v
                     | Err e => Err (Transition e)
                     end in
  let terminal_json := (fun e => canonical_json (execution_to_value e)) <$> terminal_result in
  let terminal_hash := sha256_text <$> terminal_json in
  let? rev := revision_to_i64 expected_revision in
  let? rev' := revision_to_i64 (revision next_state) in
  let? db1 := cas_turn db (tenant_id, turn_id) expected_state rev
                (set_turn next rev' terminal_json terminal_hash now) in
  let? db2 := update_actor_after_transition db1 current lease_owner next now in
  let? record := load_existing db2 tenant_id turn_id in
  let? db3 := insert_outbox db2 record (Some expected_state) terminal_hash now in
  Ok (record, db3).

(** [DurableTurnStore::compare_and_transition] *)
Definition store_compare_and_transition (db : Db) (tenant_id turn_id lease_owner : string)
    (expected_state : TurnState) (expected_revision : Z) (next : TurnState) (now : Z)
  : result TurnStoreError (DurableTurnRecord * Db) :=
  guard? negb (is_terminal next) else MissingTerminalResult in
  transition_inner db tenant_id turn_id lease_owner expected_state expected_revision
    next None now.

Definition compare_and_transition_with_result (db : Db)
    (tenant_id turn_id lease_owner : string) (expected_state : TurnState)
    (expected_revision : Z) (next : TurnState) (terminal_result : TurnExecution) (now : Z)
  : result TurnStoreError (DurableTurnRecord * Db) :=
  guard? is_terminal next else NonTerminalResult in
  let actual := terminal_state terminal_result in
  guard? bool_decide (actual = next) else TerminalOutcomeMismatch next actual in
  transition_inner db tenant_id turn_id lease_owner expected_state expected_revision
    next (Some terminal_result) now.

(** ** Scans *)

(** [ORDER BY updated_at_ms, key] *)
Definition by_time_then_key (x y : Z * string) : bool :=
  bool_decide (x.1 < y.1) || (bool_decide (x.1 = y.1) && String.leb x.2 y.2).

Definition incomplete_turns (db : Db) (tenant_id : string) (limit : nat)
  : result TurnStoreError (list DurableTurnRecord) :=
  let rows := filter (fun kr => kr.1.1 = tenant_id /\
    (tr_state kr.2 ∉ ["completed"; "degraded"; "aborted"; "quarantined"]))
    (map_to_list (turns db)) in
  let ordered := order_by (fun a b =>
    by_time_then_key (tr_updated_at_ms a.2, a.1.2) (tr_updated_at_ms b.2, b.1.2)) rows in
  collect_map (fun kr => materialize_turn kr.1 kr.2) (take (bounded_limit limit) ordered).

(** The actors whose lease is over, oldest first: [(actor_key, active_turn_id)]. *)
Definition expired_actors (db : Db) (tenant_id : string) (now : Z) (limit : nat)
  : list (string * string) :=
  let rows := filter (fun kr : Key * ActorRow => kr.1.1 = tenant_id /\
    ar_active_turn_id kr.2 <> None /\
    is_none_or (fun until => bool_decide (until <= timestamp_millis now))
      (ar_lease_until_ms kr.2) = true) (map_to_list (actors db)) in
  let ordered := order_by (fun a b =>
    by_time_then_key (ar_updated_at_ms a.2, a.1.2) (ar_updated_at_ms b.2, b.1.2)) rows in
  omap (fun kr => match ar_active_turn_id kr.2 with
                  | Some t => Some (kr.1.2, t)
                  | None => None
                  end) (take (bounded_limit limit) ordered).

Fixpoint recover_loop (db : Db) (tenant_id : string) (now : Z)
    (actor_turns : list (string * string)) (recovered : list DurableTurnRecord)
  : result TurnStoreError (list DurableTurnRecord * Db) :=
  match actor_turns with
  | [] => Ok (recovered, db)
  | (actor_key, turn_id) :: rest =>
      let? record := load_existing db tenant_id turn_id in
      guard? bool_decide (t_actor_key record = actor_key) else ActorAuthorityMismatch in
      let? (r, db') := recover_turn_in_tx db record now in
      recover_loop db' tenant_id now rest (recovered ++ [r])
  end.

Definition recover_expired_actor_leases (db : Db) (tenant_id : string) (now : Z)
    (limit : nat) : result TurnStoreError (list DurableTurnRecord * Db) :=
  recover_loop db tenant_id now (expired_actors db tenant_id now limit) [].

(** ** Session actor *)

(** [SessionActor::approve_turn] *)
Definition approve_turn (db : Db) (tenant_id turn_id : string) (now : Z)
  : result TurnStoreError (DurableTurnRecord * Db) :=
  let? found := load_turn db tenant_id turn_id in
  let? record := ok_or found (UnknownTurn turn_id) in
  guard? bool_decide (state (t_state record) = WaitingApproval)
    else NotWaitingApproval turn_id in
  let? found := load_actor db tenant_id (t_actor_key record) in
  let? actor := ok_or found (ActorLeaseLost "missing") in
  let? lease_owner := ok_or (a_lease_owner actor) (ActorLeaseLost "none") in
  store_compare_and_transition db tenant_id turn_id lease_owner WaitingApproval
    (revision (t_state record)) ToolRunning now.

End Store.
