(* ===== verification/StoreLemmas.v ===== *)
(** * What a successful statement or helper did

    Inversion lemmas for the statements of [Database] and the helpers of
    [TurnStore]: from a success to the row it met and the database it left.
    They carry the proofs about the operations. *)

From stdpp Require Import prelude gmap strings list.
From S2P Require Import Prelude.
From S2P Require Import Json.
From S2P Require Import TurnState.
From S2P Require Import TurnKernel.
From S2P Require Import Env.
From S2P Require Import Ingress.
From S2P Require Import Schema.
From S2P Require Import Database.
From S2P Require Import TurnRecords.
From S2P Require Import TurnStore.
Local Open Scope res_scope.
Local Open Scope Z_scope.

(** ** Statements *)

Lemma from_sqlite_Ok {A} (r : result SqliteError A) a :
  from_sqlite r = Ok a <-> r = Ok a.
Proof. destruct r; simpl; split; intros; simplify_eq; done. Qed.

Lemma from_schema_Ok {A} (r : result string A) a : from_schema r = Ok a <-> r = Ok a.
Proof. destruct r; simpl; split; intros; simplify_eq; done. Qed.

Lemma from_ledger_Ok {A} (r : result LedgerError A) a : from_ledger r = Ok a <-> r = Ok a.
Proof. destruct r; simpl; split; intros; simplify_eq; done. Qed.

Lemma ok_or_Ok {E A} (o : option A) (e : E) a : ok_or o e = Ok a <-> o = Some a.
Proof. destruct o; simpl; split; intros; simplify_eq; done. Qed.

Lemma update_actor_1 db k cond set db' :
  update_actor db k cond set = Ok (1%nat, db') ->
  exists r, actors db !! k = Some r /\ cond r = true /\
            db' = with_actors db (<[k := set r]> (actors db)).
Proof.
  unfold update_actor. intros Hu. destruct (actors db !! k) as [r|] eqn:E; [|done].
  destruct (cond r) eqn:Ec; [|done]. destruct (actor_check _); simplify_eq. eauto.
Qed.

Lemma update_turn_1 db k cond set db' :
  update_turn db k cond set = Ok (1%nat, db') ->
  exists r, turns db !! k = Some r /\ cond r = true /\
            db' = with_turns db (<[k := set r]> (turns db)).
Proof.
  unfold update_turn. intros Hu. destruct (turns db !! k) as [r|] eqn:E; [|done].
  destruct (cond r) eqn:Ec; [|done]. destruct (turn_check _); simplify_eq. eauto.
Qed.

Lemma update_outbox_1 db k cond set db' :
  update_outbox db k cond set = Ok (1%nat, db') ->
  exists r, outbox db !! k = Some r /\ cond r = true /\
            delivery_guard_aborts db k r (set r) = false /\
            outbox_check (set r) = true /\
            db' = with_outbox db (<[k := set r]> (outbox db)).
Proof.
  unfold update_outbox. intros Hu. destruct (outbox db !! k) as [r|] eqn:E; [|done].
  destruct (cond r) eqn:Ec; [|done].
  destruct (delivery_guard_aborts db k r (set r)) eqn:Eg; [done|].
  destruct (outbox_check _) eqn:Eo; simplify_eq. eauto 6.
Qed.

Lemma insert_turn_Ok db k r db' :
  insert_turn db k r = Ok db' ->
  turns db !! k = None /\ actors db !! (k.1, tr_actor_key r) <> None /\
  (forall k' r', turns db !! k' = Some r' -> k'.1 = k.1 ->
     tr_idempotency_key r' <> tr_idempotency_key r) /\
  db' = with_turns db (<[k := r]> (turns db)).
Proof.
  unfold insert_turn. intros Hi. destruct (_ && _) eqn:E; [|done].
  bool_props. simplify_eq. split; [by destruct (turns db !! k)|].
  split; [by destruct (actors db !! _)|]. split; [|done].
  intros k' r' Hk Ht He. by eapply (H1 k' r').
Qed.

Lemma insert_outbox_row_Ok db k r db' :
  insert_outbox_row db k r = Ok db' ->
  let n := Z.max (default 0 (order_sequence db)) (default 0 (max_ordinal db)) + 1 in
  outbox db !! k = None /\
  (forall k' r', outbox db !! k' = Some r' -> k'.1 = k.1 ->
     or_turn_id r' = or_turn_id r -> or_revision r' <> or_revision r) /\
  order_of db k = None /\
  db' = with_order (with_outbox db (<[k := r]> (outbox db)))
          (commit_order db ++
             [{| co_ordinal := n; co_tenant_id := k.1; co_outbox_id := k.2;
                 co_order_origin := "transactional"; co_legacy_source_rowid := None |}])
          (Some n).
Proof.
  unfold insert_outbox_row, assign_commit_order. intros Hi.
  destruct (outbox_check r && _ && _ && _) eqn:E; [|done]. bool_props.
  destruct (bool_decide _); [|done].
  destruct (opt_is_none (order_of _ k)) eqn:Eo in Hi; [|done]. simplify_eq.
  split; [by destruct (outbox db !! k)|]. split.
  - intros k' r' Hk Ht Hu Hr. by eapply (H1 k' r').
  - split; [|done]. change (opt_is_none (order_of db k) = true) in Eo.
    by destruct (order_of db k).
Qed.

(** ** Names and integers *)

Lemma parse_state_name s : parse_state (state_name s) = Ok s.
Proof. by destruct s. Qed.

Lemma parse_state_Ok v s : parse_state v = Ok s -> v = state_name s.
Proof.
  unfold parse_state. intros Hp.
  repeat (case_bool_decide; [by simplify_eq|]). done.
Qed.

#[export] Instance state_name_inj : Inj (=) (=) state_name.
Proof.
  intros s s' E. apply (f_equal parse_state) in E. rewrite !parse_state_name in E.
  by simplify_eq.
Qed.

Lemma checked_u64_Ok z n : checked_u64 z = Ok n <-> n = z /\ 0 <= z <= u64_max.
Proof.
  unfold checked_u64, u64_try_from. rewrite ok_or_Ok.
  destruct (in_u64 z) eqn:E; rewrite <- in_u64_spec, E; naive_solver.
Qed.

Lemma revision_to_i64_Ok z n :
  revision_to_i64 z = Ok n <-> n = z /\ i64_min <= z <= i64_max.
Proof.
  unfold revision_to_i64, i64_try_from, in_i64. rewrite ok_or_Ok.
  case_bool_decide; naive_solver.
Qed.

Section Lemmas.
Context `{Env}.

(** ** Materialised turns *)

(** The columns of the row, as the record of it shows them. *)
Record turn_record_of (k : Key) (row : TurnRow) (rec : DurableTurnRecord) : Prop := {
  tro_key : (t_tenant_id rec, t_turn_id rec) = k;
  tro_actor : t_actor_key rec = tr_actor_key row;
  tro_state : state_name (state (t_state rec)) = tr_state row;
  tro_revision : revision (t_state rec) = tr_revision row;
  tro_principal : t_principal_id rec = tr_principal_id row;
  tro_hashes : t_request_hash rec = tr_request_hash row /\
               t_authority_hash rec = tr_authority_hash row /\
               t_terminal_result_hash rec = tr_terminal_hash row;
  tro_updated : timestamp_millis_opt (tr_updated_at_ms row) = Some (t_updated_at rec);
  tro_deadline : timestamp_millis_opt (tr_deadline_ms row) = Some (t_deadline rec);
  tro_terminal : is_terminal (state (t_state rec)) = true <-> tr_terminal_json row <> None
}.

Lemma validate_persisted_terminal_Ok s v :
  validate_persisted_terminal s v = Ok tt -> is_terminal s = true <-> v <> None.
Proof. unfold validate_persisted_terminal. destruct (is_terminal s), v; done. Qed.

Lemma materialize_turn_Ok k row rec :
  materialize_turn k row = Ok rec -> turn_record_of k row rec.
Proof.
  unfold materialize_turn, parse_timestamp. intros Hm.
  repeat (match type of Hm with
          | match ?e with Ok _ => _ | Err _ => _ end = _ =>
              let E := fresh "E" in destruct e eqn:E; [|discriminate Hm]
          end).
  injection Hm as <-.
  repeat match goal with
         | E : parse_state _ = Ok _ |- _ => apply parse_state_Ok in E
         | E : checked_u64 _ = Ok _ |- _ => apply checked_u64_Ok in E as [-> ?]
         | E : ok_or _ _ = Ok _ |- _ => apply ok_or_Ok in E
         | u : unit |- _ => destruct u
         end.
  split; simpl; try done.
  - by destruct k.
  - match goal with E : validate_persisted_terminal _ _ = Ok _ |- _ =>
      rewrite (validate_persisted_terminal_Ok _ _ E) end.
    match goal with E : transpose_map _ ?o = Ok ?t |- _ => clear -E; destruct o; simpl in E end.
    + destruct (parse_json _); simplify_eq. split; done.
    + by simplify_eq.
Qed.

Lemma load_existing_Ok db tenant turn rec :
  load_existing db tenant turn = Ok rec ->
  exists row, turns db !! (tenant, turn) = Some row /\
              turn_record_of (tenant, turn) row rec /\
              materialize_turn (tenant, turn) row = Ok rec.
Proof.
  unfold load_existing, load_turn, transpose_map. intros Hl.
  destruct (turns db !! (tenant, turn)) as [row|]; [|done]. exists row.
  destruct (materialize_turn (tenant, turn) row) as [r|] eqn:Em; [|done].
  simplify_eq/=. split; [done|]. split; [by apply materialize_turn_Ok|done].
Qed.

(** ** Materialised actors *)

Lemma load_actor_Ok db tenant key found :
  load_actor db tenant key = Ok (Some found) ->
  exists row, actors db !! (tenant, key) = Some row /\
    a_active_turn_id found = ar_active_turn_id row /\
    a_lease_owner found = ar_lease_owner row /\
    transpose_map (parse_timestamp "lease_until_ms") (ar_lease_until_ms row)
    = Ok (a_lease_until found).
Proof.
  unfold load_actor. intros Hl.
  destruct (actors db !! (tenant, key)) as [row|]; [|done]. exists row.
  split; [done|]. simpl in Hl.
  destruct (row_to_actor (tenant, key) row) as [r|] eqn:Er; [|done]. injection Hl as ->.
  unfold row_to_actor in Er. destruct (in_i64 _); [|done].
  destruct (to_sql_conversion_error (checked_u64 _)); [|done].
  destruct (transpose_map (parse_timestamp "lease_until_ms") (ar_lease_until_ms row))
    as [u|]; [|done]. simpl in Er.
  do 2 (destruct (to_sql_conversion_error (parse_timestamp _ _)); [|done]).
  injection Er as <-. done.
Qed.

(** ** Helpers of the operations *)

Lemma clear_actor_Ok db rec now db' :
  clear_actor db rec now = Ok db' ->
  exists a, actors db !! (t_tenant_id rec, t_actor_key rec) = Some a /\
    ar_active_turn_id a = Some (t_turn_id rec) /\
    db' = with_actors db (<[(t_tenant_id rec, t_actor_key rec) :=
                              set_lease None None None now a]> (actors db)).
Proof.
  unfold clear_actor. intros Hc.
  destruct (from_sqlite _) as [[n d]|] eqn:E; [|done].
  case_bool_decide; [|done]. subst. simplify_eq.
  apply from_sqlite_Ok, update_actor_1 in E as (a & Ha & Hcond & ->).
  bool_props. eauto.
Qed.

(** The lease after a transition to [next]. *)
Definition next_lease (rec : DurableTurnRecord) (owner : string) (next : TurnState)
    (now : Z) (a : ActorRow) : ActorRow :=
  if is_terminal next then set_lease None None None now a
  else set_lease (Some (t_turn_id rec)) (Some owner)
         (Some (timestamp_millis (t_deadline rec))) now a.

Lemma update_actor_after_transition_Ok db rec owner next now db' :
  update_actor_after_transition db rec owner next now = Ok db' ->
  exists a, actors db !! (t_tenant_id rec, t_actor_key rec) = Some a /\
    ar_active_turn_id a = Some (t_turn_id rec) /\ ar_lease_owner a = Some owner /\
    db' = with_actors db (<[(t_tenant_id rec, t_actor_key rec) :=
                              next_lease rec owner next now a]> (actors db)).
Proof.
  unfold update_actor_after_transition. intros Hc.
  destruct (from_sqlite _) as [[n d]|] eqn:E; [|done].
  case_bool_decide; [|done]. subst. simplify_eq.
  apply from_sqlite_Ok, update_actor_1 in E as (a & Ha & Hcond & ->).
  bool_props. exists a. split; [done|]. split; [done|]. split; [done|].
  unfold next_lease. by destruct (is_terminal next).
Qed.

Lemma cas_turn_Ok db k s rev set db' :
  cas_turn db k s rev set = Ok db' ->
  exists r, turns db !! k = Some r /\ tr_state r = state_name s /\ tr_revision r = rev /\
    db' = with_turns db (<[k := set r]> (turns db)).
Proof.
  unfold cas_turn. intros Hc. destruct (from_sqlite _) as [[n d]|] eqn:E; [|done].
  case_bool_decide; [|done]. subst. simplify_eq.
  apply from_sqlite_Ok, update_turn_1 in E as (r & Hr & Hcond & ->).
  bool_props. eauto 6.
Qed.

Lemma verify_actor_lease_Ok db rec owner now :
  verify_actor_lease db rec owner now = Ok tt ->
  exists a until, actors db !! (t_tenant_id rec, t_actor_key rec) = Some a /\
    ar_active_turn_id a = Some (t_turn_id rec) /\ ar_lease_owner a = Some owner /\
    transpose_map (parse_timestamp "lease_until_ms") (ar_lease_until_ms a)
    = Ok (Some until) /\ now < until.
Proof.
  unfold verify_actor_lease. intros Hv.
  destruct (load_actor db _ _) as [[found|]|] eqn:El; try done. simpl in Hv.
  destruct (negb _) eqn:E in Hv; [|done]. bool_props.
  apply load_actor_Ok in El as (a & Ha & Hact & Hown & Hunt).
  destruct (a_lease_until found) as [u|] eqn:Eu; [|done]. simpl in *. bool_props.
  exists a, u. rewrite <- Hact, <- Hown. repeat split; auto. lia.
Qed.

Lemma next_commit_ordinal_Ok db n :
  next_commit_ordinal db = Ok n ->
  order_sequence db = max_ordinal db /\ n = default 0 (max_ordinal db) + 1.
Proof.
  unfold next_commit_ordinal, i64_checked_add. intros Hn.
  destruct (bool_decide _) eqn:E; [|done]. bool_props.
  destruct (in_i64 _); simplify_eq/=. done.
Qed.

(** The order row the insert trigger writes. *)
Definition order_row (n : Z) (k : Key) : OrderRow :=
  {| co_ordinal := n; co_tenant_id := k.1; co_outbox_id := k.2;
     co_order_origin := "transactional"; co_legacy_source_rowid := None |}.

(** The key and the payload of the outbox row of a record. *)
Definition outbox_key (rec : DurableTurnRecord) : Key :=
  (t_tenant_id rec, deterministic_outbox_id (t_tenant_id rec) (t_turn_id rec)
     (revision (t_state rec)) (state_event_type (state (t_state rec)))).

(** What a successful [insert_outbox] did. *)
Record outbox_inserted (db : Db) (rec : DurableTurnRecord) (prev : option TurnState)
    (th : option string) (now : Z) (db' : Db) : Prop := {
  oi_sequence : order_sequence db = max_ordinal db;
  oi_fresh : outbox db !! outbox_key rec = None;
  oi_no_order : order_of db (outbox_key rec) = None;
  oi_revision : forall k' r', outbox db !! k' = Some r' -> k'.1 = t_tenant_id rec ->
    or_turn_id r' = t_turn_id rec -> or_revision r' <> revision (t_state rec);
  oi_schema : validate_no_extra_outbox_triggers (sqlite_master db) = Ok tt;
  oi_db : exists occurred,
    timestamp_millis_opt (timestamp_millis now) = Some occurred /\
    db' = with_order
      (with_outbox db
         (<[outbox_key rec := outbox_row rec (outbox_key rec).2
              (outbox_payload rec (outbox_key rec).2 prev th occurred)
              (revision (t_state rec)) (timestamp_millis now)]> (outbox db)))
      (commit_order db ++ [order_row (default 0 (max_ordinal db) + 1) (outbox_key rec)])
      (Some (default 0 (max_ordinal db) + 1))
}.

Lemma insert_outbox_Ok db rec prev th now db' :
  insert_outbox db rec prev th now = Ok db' -> outbox_inserted db rec prev th now db'.
Proof.
  unfold insert_outbox, parse_timestamp. intros Hi.
  destruct (from_schema _) as [[]|] eqn:Es; [|done]. apply from_schema_Ok in Es.
  destruct (next_commit_ordinal db) as [n|] eqn:En; [|done].
  apply next_commit_ordinal_Ok in En as [Hseq ->].
  destruct (timestamp_millis_opt _) as [occ|] eqn:Eo; [|done]. simpl in Hi.
  destruct (revision_to_i64 _) as [rev|] eqn:Er; [|done].
  apply revision_to_i64_Ok in Er as [-> _].
  destruct (from_sqlite _) as [d|] eqn:Ed; [|done].
  destruct (is_some_and _ _); simplify_eq.
  apply from_sqlite_Ok, insert_outbox_row_Ok in Ed as (Hf & Hr & Ho & Hdb).
  split; [done..|].
  exists occ. split; [done|]. rewrite Hdb, Hseq, Z.max_id. done.
Qed.

End Lemmas.
