(* ===== verification/Outbox.v ===== *)
(** * The outbox queue: claims, fencing leases, quarantine
    ([claim_next_outbox], [release_outbox], [undelivered_outbox] of
    [crates/zaion-runtime/src/turn_store.rs] and
    [crates/zaion-runtime/src/turn_store/dispatcher/persistence.rs])

    A tenant's undelivered rows are served strictly in commit order: only the
    head can be claimed, and every later write of a claimed row presents the
    lease owner and the lease token of the claim (a fresh UUID, an argument
    here). *)

From stdpp Require Import prelude gmap strings list.
From S2P Require Import Prelude.
From S2P Require Import Json.
From S2P Require Import TurnState.
From S2P Require Import TurnKernel.
From S2P Require Import Env.
From S2P Require Import Ingress.
From S2P Require Import Schema.
From S2P Require Import Database.
From S2P Require Import TurnRecords.
From S2P Require Import TurnStore.
Local Open Scope res_scope.
Local Open Scope Z_scope.

(** ** Failures ([crates/zaion-runtime/src/turn_store/dispatcher.rs]) *)

Inductive OutboxDispatchPhase : Type :=
| PClaim | PResolveSigner | PRevalidate | PAppend | PComplete | PRetryPersist
| PQuarantinePersist.

Definition phase_str (p : OutboxDispatchPhase) : string :=
  match p with
  | PClaim => "claim"
  | PResolveSigner => "resolve_signer"
  | PRevalidate => "revalidate"
  | PAppend => "append"
  | PComplete => "complete"
  | PRetryPersist => "retry_persist"
  | PQuarantinePersist => "quarantine_persist"
  end.

Inductive OutboxDispatchFailureClass : Type := Retryable | Permanent | LeaseLostClass | Fatal.

#[export] Instance OutboxDispatchFailureClass_eq_dec :
  EqDecision OutboxDispatchFailureClass.
Proof. solve_decision. Defined.

Inductive OutboxDispatchFailureCode : Type :=
| SignerMissing | SignerUnavailable | SignerInvalid | SignerMismatch
| StoreBusy | StoreIo | StoreIntegrity | LedgerBusy | LedgerIoCode | LedgerIntegrity
| LeaseLostCode | LeaseBudgetExhausted | ShutdownTimeout | InfrastructureFailure.

#[export] Instance OutboxDispatchFailureCode_eq_dec : EqDecision OutboxDispatchFailureCode.
Proof. solve_decision. Defined.

Definition code_str (c : OutboxDispatchFailureCode) : string :=
  match c with
  | SignerMissing => "signer_missing"
  | SignerUnavailable => "signer_unavailable"
  | SignerInvalid => "signer_invalid"
  | SignerMismatch => "signer_mismatch"
  | StoreBusy => "store_busy"
  | StoreIo => "store_io"
  | StoreIntegrity => "store_integrity"
  | LedgerBusy => "ledger_busy"
  | LedgerIoCode => "ledger_io"
  | LedgerIntegrity => "ledger_integrity"
  | LeaseLostCode => "lease_lost"
  | LeaseBudgetExhausted => "lease_budget_exhausted"
  | ShutdownTimeout => "shutdown_timeout"
  | InfrastructureFailure => "infrastructure_failure"
  end.

Record OutboxDispatchFailure : Type := {
  f_phase : OutboxDispatchPhase;
  f_class : OutboxDispatchFailureClass;
  f_code : OutboxDispatchFailureCode;
  f_message : string
}.

Record OutboxQuarantineRecord : Type := {
  q_tenant_id : string;
  q_outbox_id : string;
  q_commit_ordinal : Z;
  q_principal_id : string;
  q_failure_class : string;
  q_failure_code : string;
  q_failure_phase : string;
  q_error_message : string;
  q_attempts : Z;
  q_lease_owner : string;
  q_lease_token : string;
  q_payload_hash : string;
  q_quarantined_at : Z
}.

Section Outbox.
Context `{Env}.

Definition load_outbox_existing (db : Db) (tenant_id outbox_id : string)
  : result TurnStoreError TurnOutboxRecord :=
  let? found := load_outbox db tenant_id outbox_id in
  ok_or found (MissingOutbox tenant_id outbox_id).

Definition outbox_is_quarantined (db : Db) (tenant_id outbox_id : string) : bool :=
  opt_is_some (quarantine db !! (tenant_id, outbox_id)).

Definition lease_duration_ok (lease_duration : Z) : bool :=
  bool_decide (nanos_per_second <= lease_duration)
  && bool_decide (lease_duration <= MAX_OUTBOX_LEASE_SECONDS * nanos_per_second).

(** ** Updates *)

(** [SET status = 'leased', lease_owner, lease_token, lease_until_ms,
    attempts = attempts + 1, last_error = NULL, updated_at_ms] *)
Definition set_leased (owner token : string) (until now : Z) (r : OutboxRow) : OutboxRow :=
  {| or_turn_id := or_turn_id r; or_revision := or_revision r;
     or_event_type := or_event_type r; or_effect_kind := or_effect_kind r;
     or_idempotency_mode := or_idempotency_mode r; or_payload_json := or_payload_json r;
     or_payload_hash := or_payload_hash r; or_status := "leased";
     or_attempts := or_attempts r + 1; or_available_at_ms := or_available_at_ms r;
     or_lease_owner := Some owner; or_lease_token := Some token;
     or_lease_until_ms := Some (timestamp_millis until);
     or_delivered_at_ms := or_delivered_at_ms r;
     or_ledger_event_id := or_ledger_event_id r; or_last_error := None;
     or_created_at_ms := or_created_at_ms r; or_updated_at_ms := timestamp_millis now |}.

(** [SET status = 'pending', lease fields NULL, available_at_ms, last_error,
    updated_at_ms] *)
Definition set_pending (available now : Z) (error : string) (r : OutboxRow) : OutboxRow :=
  {| or_turn_id := or_turn_id r; or_revision := or_revision r;
     or_event_type := or_event_type r; or_effect_kind := or_effect_kind r;
     or_idempotency_mode := or_idempotency_mode r; or_payload_json := or_payload_json r;
     or_payload_hash := or_payload_hash r; or_status := "pending";
     or_attempts := or_attempts r; or_available_at_ms := timestamp_millis available;
     or_lease_owner := None; or_lease_token := None; or_lease_until_ms := None;
     or_delivered_at_ms := or_delivered_at_ms r;
     or_ledger_event_id := or_ledger_event_id r; or_last_error := Some error;
     or_created_at_ms := or_created_at_ms r; or_updated_at_ms := timestamp_millis now |}.

(** [SET lease_until_ms, updated_at_ms] *)
Definition set_renewed (until now : Z) (r : OutboxRow) : OutboxRow :=
  {| or_turn_id := or_turn_id r; or_revision := or_revision r;
     or_event_type := or_event_type r; or_effect_kind := or_effect_kind r;
     or_idempotency_mode := or_idempotency_mode r; or_payload_json := or_payload_json r;
     or_payload_hash := or_payload_hash r; or_status := or_status r;
     or_attempts := or_attempts r; or_available_at_ms := or_available_at_ms r;
     or_lease_owner := or_lease_owner r; or_lease_token := or_lease_token r;
     or_lease_until_ms := Some (timestamp_millis until);
     or_delivered_at_ms := or_delivered_at_ms r;
     or_ledger_event_id := or_ledger_event_id r; or_last_error := or_last_error r;
     or_created_at_ms := or_created_at_ms r; or_updated_at_ms := timestamp_millis now |}.

(** [SET status = 'delivered', lease fields NULL, delivered_at_ms,
    ledger_event_id, updated_at_ms] *)
Definition set_delivered (event_id : string) (now : Z) (r : OutboxRow) : OutboxRow :=
  {| or_turn_id := or_turn_id r; or_revision := or_revision r;
     or_event_type := or_event_type r; or_effect_kind := or_effect_kind r;
     or_idempotency_mode := or_idempotency_mode r; or_payload_json := or_payload_json r;
     or_payload_hash := or_payload_hash r; or_status := "delivered";
     or_attempts := or_attempts r; or_available_at_ms := or_available_at_ms r;
     or_lease_owner := None; or_lease_token := None; or_lease_until_ms := None;
     or_delivered_at_ms := Some (timestamp_millis now);
     or_ledger_event_id := Some event_id; or_last_error := or_last_error r;
     or_created_at_ms := or_created_at_ms r; or_updated_at_ms := timestamp_millis now |}.

(** [WHERE status = 'leased' AND lease_owner AND lease_token AND
    lease_until_ms > now] *)
Definition holds_lease (owner token : string) (now : Z) (r : OutboxRow) : bool :=
  bool_decide (or_status r = "leased")
  && bool_decide (or_lease_owner r = Some owner)
  && bool_decide (or_lease_token r = Some token)
  && is_some_and (fun u => bool_decide (timestamp_millis now < u)) (or_lease_until_ms r).

(** ** Reading the queue *)

Definition undelivered_outbox (db : Db) (tenant_id : string) (limit : nat)
  : result TurnStoreError (list TurnOutboxRecord) :=
  let? _ := tenant_outbox_head db tenant_id in
  collect_map materialize_outbox
    (take (bounded_limit limit)
       (filter (fun raw => (ro_key raw).1 = tenant_id
                           /\ or_status (ro_row raw) <> "delivered") (outbox_select db))).

(** ** Claiming *)

Definition ready (current : TurnOutboxRecord) (now : Z) : bool :=
  bool_decide (o_available_at current <= now)
  && match o_status current with
     | Pending => true
     | Leased => is_some_and (fun u => bool_decide (u <= now)) (o_lease_until current)
     | Delivered => false
     end.

(** [claim_next_outbox]; [fresh_uuid] is the UUID of the new lease token. *)
Definition claim_next_outbox (db : Db) (fresh_uuid tenant_id lease_owner : string)
    (now lease_duration : Z) : result TurnStoreError (option TurnOutboxRecord * Db) :=
  let? _ := validate_lease_identity "lease_owner" lease_owner in
  guard? lease_duration_ok lease_duration else InvalidOutboxLeaseDuration in
  let? _ := from_schema (validate_no_extra_outbox_triggers (sqlite_master db)) in
  let? candidate := tenant_outbox_head db tenant_id in
  match candidate with
  | None => Ok (None, db)
  | Some outbox_id =>
      let? current := load_outbox_existing db tenant_id outbox_id in
      if outbox_is_quarantined db tenant_id outbox_id then Ok (None, db)
      else if negb (ready current now) then Ok (None, db)
      else
        guard? negb (bool_decide (i64_max <= o_attempts current))
          else OutboxAttemptsExhausted in
        let? lease_until := ok_or (checked_add_signed now lease_duration)
                              OutboxLeaseTimeOverflow in
        let lease_token := "outbox-lease-" +:+ fresh_uuid in
        let? (changed, db') := from_sqlite
          (update_outbox db (tenant_id, outbox_id)
             (fun r => bool_decide (or_status r = "pending")
                       || (bool_decide (or_status r = "leased")
                           && is_some_and (fun u => bool_decide (u <= timestamp_millis now))
                                (or_lease_until_ms r)))
             (set_leased lease_owner lease_token lease_until now)) in
        guard? bool_decide (changed = 1%nat) else CasLost in
        let? record := load_outbox_existing db' tenant_id outbox_id in
        guard? bool_decide (o_status record = Leased)
               && bool_decide (o_lease_owner record = Some lease_owner)
               && bool_decide (o_lease_token record = Some lease_token)
               && bool_decide (timestamp_millis <$> o_lease_until record
                               = Some (timestamp_millis lease_until))
               && bool_decide (o_attempts record = o_attempts current + 1)
               && bool_decide (timestamp_millis (o_updated_at record)
                               = timestamp_millis now)
          else SchemaIntegrity
                 "outbox claim was modified by unexpected database behavior" in
        let? head := tenant_outbox_head db' tenant_id in
        guard? bool_decide (head = Some outbox_id)
          else SchemaIntegrity
                 "outbox claim was modified by unexpected database behavior" in
        Ok (Some record, db')
  end.

(** The common fence of the writes of a claimed row: it is the tenant's head, it
    is leased to this owner under this token, and the lease is not over. *)
Definition fence (current : TurnOutboxRecord) (outbox_id lease_owner lease_token : string)
    (now : Z) : result TurnStoreError unit :=
  guard? negb (bool_decide (now < o_updated_at current)) else NonMonotonicTimestamp in
  guard? bool_decide (o_status current = Leased)
         && bool_decide (o_lease_owner current = Some lease_owner)
         && bool_decide (o_lease_token current = Some lease_token)
    else OutboxLeaseLost outbox_id lease_owner in
  guard? negb (is_none_or (fun u => bool_decide (u <= now)) (o_lease_until current))
    else OutboxLeaseExpired outbox_id in
  Ok tt.

Definition is_head (db : Db) (tenant_id outbox_id : string) : result TurnStoreError unit :=
  let? head := tenant_outbox_head db tenant_id in
  guard? bool_decide (head = Some outbox_id) else OutboxOrderConflict outbox_id in
  Ok tt.

Definition release_outbox (db : Db) (tenant_id outbox_id lease_owner lease_token : string)
    (now available_at : Z) (error : string) : result TurnStoreError Db :=
  let? _ := validate_lease_identity "lease_owner" lease_owner in
  let? _ := validate_lease_identity "lease_token" lease_token in
  guard? bool_decide (str_len error <= MAX_OUTBOX_ERROR_BYTES) else OutboxErrorTooLong in
  guard? negb (bool_decide (available_at < now)) else OutboxRetryTimeInvalid in
  let? _ := from_schema (validate_no_extra_outbox_triggers (sqlite_master db)) in
  let? _ := is_head db tenant_id outbox_id in
  let? current := load_outbox_existing db tenant_id outbox_id in
  let? _ := fence current outbox_id lease_owner lease_token now in
  let? (changed, db') := from_sqlite
    (update_outbox db (tenant_id, outbox_id) (holds_lease lease_owner lease_token now)
       (set_pending available_at now error)) in
  guard? bool_decide (changed = 1%nat) else OutboxLeaseLost outbox_id lease_owner in
  let? released := load_outbox_existing db' tenant_id outbox_id in
  guard? bool_decide (o_status released = Pending)
         && bool_decide (timestamp_millis (o_available_at released)
                         = timestamp_millis available_at)
         && bool_decide (timestamp_millis (o_updated_at released) = timestamp_millis now)
         && bool_decide (o_last_error released = Some error)
    else SchemaIntegrity "outbox release was modified by unexpected database behavior" in
  let? head := tenant_outbox_head db' tenant_id in
  guard? bool_decide (head = Some outbox_id)
    else SchemaIntegrity "outbox release was modified by unexpected database behavior" in
  Ok db'.

Definition renew_outbox_lease (db : Db)
    (tenant_id outbox_id lease_owner lease_token : string) (now lease_duration : Z)
  : result TurnStoreError (TurnOutboxRecord * Db) :=
  let? _ := validate_lease_identity "lease_owner" lease_owner in
  let? _ := validate_lease_identity "lease_token" lease_token in
  guard? lease_duration_ok lease_duration else InvalidOutboxLeaseDuration in
  let? lease_until := ok_or (checked_add_signed now lease_duration)
                        OutboxLeaseTimeOverflow in
  let? _ := from_schema (validate_no_extra_outbox_triggers (sqlite_master db)) in
  let? _ := is_head db tenant_id outbox_id in
  guard? negb (outbox_is_quarantined db tenant_id outbox_id)
    else OutboxLeaseLost outbox_id lease_owner in
  let? current := load_outbox_existing db tenant_id outbox_id in
  let? _ := fence current outbox_id lease_owner lease_token now in
  let? (changed, db') := from_sqlite
    (update_outbox db (tenant_id, outbox_id) (holds_lease lease_owner lease_token now)
       (set_renewed lease_until now)) in
  guard? bool_decide (changed = 1%nat) else OutboxLeaseLost outbox_id lease_owner in
  let? renewed := load_outbox_existing db' tenant_id outbox_id in
  guard? bool_decide (timestamp_millis <$> o_lease_until renewed
                      = Some (timestamp_millis lease_until))
         && bool_decide (timestamp_millis (o_updated_at renewed) = timestamp_millis now)
         && bool_decide (o_attempts renewed = o_attempts current)
    else SchemaIntegrity
           "outbox lease renewal was modified by unexpected database behavior" in
  Ok (renewed, db').

(** ** Quarantine *)

Definition checked_nonnegative_u64 (field : string) (value : Z)
  : result TurnStoreError Z :=
  ok_or (u64_try_from value)
    (SchemaIntegrity ("outbox dispatcher metric " +:+ field +:+ " is negative")).

Definition checked_positive_u64 (field : string) (value : Z) : result TurnStoreError Z :=
  let? value' := checked_nonnegative_u64 field value in
  guard? negb (bool_decide (value' = 0))
    else SchemaIntegrity ("outbox quarantine field " +:+ field +:+ " must be positive") in
  Ok value'.

Definition materialize_quarantine (k : Key) (raw : QuarantineRow)
  : result TurnStoreError OutboxQuarantineRecord :=
  guard? bool_decide (qr_failure_class raw ∈ ["permanent"; "retry_exhausted"])
         && non_empty (qr_failure_code raw) && non_empty (qr_failure_phase raw)
         && non_empty (qr_error_message raw) && non_empty (qr_principal_id raw)
    else SchemaIntegrity "outbox quarantine row contains an invalid classification" in
  let? commit_ordinal := checked_positive_u64 "commit_ordinal" (qr_commit_ordinal raw) in
  let? attempts := checked_positive_u64 "attempts" (qr_attempts raw) in
  let? quarantined_at := parse_timestamp "quarantined_at_ms" (qr_quarantined_at_ms raw) in
  Ok {| q_tenant_id := k.1; q_outbox_id := k.2; q_commit_ordinal := commit_ordinal;
        q_principal_id := qr_principal_id raw; q_failure_class := qr_failure_class raw;
        q_failure_code := qr_failure_code raw; q_failure_phase := qr_failure_phase raw;
        q_error_message := qr_error_message raw; q_attempts := attempts;
        q_lease_owner := qr_lease_owner raw; q_lease_token := qr_lease_token raw;
        q_payload_hash := qr_payload_hash raw; q_quarantined_at := quarantined_at |}.

(** [load_quarantine_record], [load_outbox_quarantine] *)
Definition load_quarantine_record (db : Db) (tenant_id outbox_id : string)
  : result TurnStoreError (option OutboxQuarantineRecord) :=
  transpose_map (materialize_quarantine (tenant_id, outbox_id))
    (quarantine db !! (tenant_id, outbox_id)).

Definition list_outbox_quarantines (db : Db) (limit : nat)
  : result TurnStoreError (list OutboxQuarantineRecord) :=
  collect_map (fun kr => materialize_quarantine kr.1 kr.2)
    (take (bounded_limit limit)
       (order_by_key (fun kr => qr_commit_ordinal kr.2) (map_to_list (quarantine db)))).

Definition claimed_principal_id (claim : TurnOutboxRecord) : result TurnStoreError string :=
  match pointer_str ["principal_id"] (o_payload claim) with
  | Some value => if non_empty value then Ok value
                  else Err (RecordBindingMismatch "outbox.principal_id")
  | None => Err (RecordBindingMismatch "outbox.principal_id")
  end.

Definition quarantine_outbox (db : Db) (claim : TurnOutboxRecord)
    (failure : OutboxDispatchFailure) (exhausted : bool) (now : Z)
  : result TurnStoreError (OutboxQuarantineRecord * Db) :=
  let tenant := o_tenant_id claim in
  let id := o_outbox_id claim in
  let? lease_owner := ok_or (o_lease_owner claim) (OutboxLeaseLost id "missing") in
  let? lease_token := ok_or (o_lease_token claim) (OutboxLeaseLost id lease_owner) in
  let? principal := claimed_principal_id claim in
  let? _ := from_schema (validate_no_extra_outbox_triggers (sqlite_master db)) in
  let? _ := is_head db tenant id in
  let? current := load_outbox_existing db tenant id in
  let? _ := fence current id lease_owner lease_token now in
  let? ordinal := ok_or (i64_try_from (o_commit_ordinal current)) CommitOrdinalExhausted in
  let? attempts := ok_or (i64_try_from (o_attempts current)) OutboxAttemptsExhausted in
  let? db1 := from_sqlite (insert_quarantine db (o_tenant_id current, o_outbox_id current)
    {| qr_commit_ordinal := ordinal; qr_principal_id := principal;
       qr_failure_class := if exhausted then "retry_exhausted" else "permanent";
       qr_failure_code := code_str (f_code failure);
       qr_failure_phase := phase_str (f_phase failure);
       qr_error_message := f_message failure; qr_attempts := attempts;
       qr_lease_owner := lease_owner; qr_lease_token := lease_token;
       qr_payload_hash := o_payload_hash current;
       qr_quarantined_at_ms := timestamp_millis now |}) in
  let? (changed, db2) := from_sqlite
    (update_outbox db1 (tenant, id) (holds_lease lease_owner lease_token now)
       (set_pending now now (f_message failure))) in
  guard? bool_decide (changed = 1%nat) else OutboxLeaseLost id lease_owner in
  let? found := load_quarantine_record db2 tenant id in
  let? quarantined := ok_or found
    (SchemaIntegrity "outbox quarantine evidence disappeared before commit") in
  let? released := load_outbox_existing db2 tenant id in
  guard? bool_decide (o_status released = Pending)
         && opt_is_none (o_lease_owner released) && opt_is_none (o_lease_token released)
         && opt_is_none (o_lease_until released)
         && bool_decide (o_last_error released = Some (f_message failure))
         && outbox_is_quarantined db2 tenant id
    else SchemaIntegrity "outbox quarantine did not atomically fence future claims" in
  Ok (quarantined, db2).

(** ** The dispatcher's view of the queue *)

Record QueueSnapshot : Type := {
  ready_tenants : list string;
  queue_depth : Z;
  leased_count : Z;
  oldest_created_at : option Z;
  dead_letters : Z
}.

(** Whether a joined row is the head of its tenant: the [tenant_heads] common
    table expression. *)
Definition is_tenant_head (db : Db) (co : OrderRow * OutboxRow) : bool :=
  bool_decide (first_undelivered db (co_tenant_id co.1) = Some (co_ordinal co.1)).

Definition head_is_ready (db : Db) (now_ms : Z) (co : OrderRow * OutboxRow) : bool :=
  opt_is_none (quarantine db !! co_key co.1)
  && bool_decide (or_available_at_ms co.2 <= now_ms)
  && (bool_decide (or_status co.2 = "pending")
      || (bool_decide (or_status co.2 = "leased")
          && is_some_and (fun u => bool_decide (u <= now_ms)) (or_lease_until_ms co.2))).

Definition dispatch_queue_snapshot (db : Db) (now : Z) (tenant_limit : nat)
  : result TurnStoreError QueueSnapshot :=
  let now_ms := timestamp_millis now in
  let heads := filter (fun co => is_tenant_head db co = true
                                 /\ head_is_ready db now_ms co = true) (outbox_join db) in
  let live := filter (fun kr : Key * OutboxRow => or_status kr.2 <> "delivered"
                                /\ quarantine db !! kr.1 = None)
                (map_to_list (outbox db)) in
  let? oldest := transpose_map (parse_timestamp "created_at_ms")
    (sql_min (map (fun kr : Key * OutboxRow => or_created_at_ms kr.2) live)) in
  Ok {| ready_tenants :=
          take (bounded_limit tenant_limit) (map (fun co => co_tenant_id co.1) heads);
        queue_depth := Z.of_nat (length live);
        leased_count := Z.of_nat (length
          (filter (fun kr : Key * OutboxRow => or_status kr.2 = "leased") live));
        oldest_created_at := oldest;
        dead_letters := Z.of_nat (size (quarantine db)) |}.

End Outbox.
