(* ===== verification/OutboxLemmas.v ===== *)
(** * What a successful outbox read or write did

    Inversion lemmas for the queue head, the materialised outbox rows and the
    lease fence. *)

From stdpp Require Import prelude gmap strings list.
From S2P Require Import Prelude.
From S2P Require Import Json.
From S2P Require Import TurnState.
From S2P Require Import TurnKernel.
From S2P Require Import Env.
From S2P Require Import Ingress.
From S2P Require Import Schema.
From S2P Require Import Database.
From S2P Require Import TurnRecords.
From S2P Require Import TurnStore.
From S2P Require Import StoreLemmas.
From S2P Require Import Outbox.
Local Open Scope res_scope.
Local Open Scope Z_scope.

(** ** Joins *)

Lemma elem_of_outbox_join db c o :
  (c, o) ∈ outbox_join db <-> c ∈ commit_order db /\ outbox db !! co_key c = Some o.
Proof.
  unfold outbox_join. rewrite list_elem_of_omap. split.
  - intros (c' & Hc & E). destruct (outbox db !! co_key c') eqn:Eo; by simplify_eq.
  - intros [Hc Ho]. exists c. by rewrite Ho.
Qed.

Lemma elem_of_tenant_join db tn c o :
  (c, o) ∈ tenant_join db tn <->
  c ∈ commit_order db /\ outbox db !! co_key c = Some o /\ co_tenant_id c = tn.
Proof.
  unfold tenant_join. rewrite list_elem_of_filter, elem_of_outbox_join. naive_solver.
Qed.

Lemma order_of_Some db k c : order_of db k = Some c -> c ∈ commit_order db /\ co_key c = k.
Proof.
  unfold order_of. intros Hh. destruct (filter _ _) as [|x l] eqn:E; [done|].
  simpl in Hh. simplify_eq. assert (Hin : c ∈ c :: l) by set_solver.
  rewrite <- E in Hin. apply list_elem_of_filter in Hin. naive_solver.
Qed.

Lemma order_of_None db k : order_of db k = None <-> forall c, c ∈ commit_order db -> co_key c <> k.
Proof.
  unfold order_of. destruct (filter _ _) as [|x l] eqn:E; simpl.
  - split; [|done]. intros _ c Hc Hk.
    assert (Hin : c ∈ filter (fun c => co_key c = k) (commit_order db))
      by by apply list_elem_of_filter.
    rewrite E in Hin. set_solver.
  - split; [done|]. intros Hn. assert (Hin : x ∈ x :: l) by set_solver.
    rewrite <- E in Hin. apply list_elem_of_filter in Hin as [Hk Hx]. by destruct (Hn x).
Qed.

(** ** The head of a tenant's queue *)

(** The row [k] is the first undelivered row of its tenant, in commit order. *)
Record queue_head (db : Db) (k : Key) (c : OrderRow) (o : OutboxRow) : Prop := {
  qh_order : c ∈ commit_order db;
  qh_key : co_key c = k;
  qh_row : outbox db !! k = Some o;
  qh_undelivered : or_status o <> "delivered";
  qh_first : forall c' o', c' ∈ commit_order db -> outbox db !! co_key c' = Some o' ->
    co_tenant_id c' = k.1 -> or_status o' <> "delivered" -> co_ordinal c <= co_ordinal c';
  qh_no_hole : forall c' o', c' ∈ commit_order db -> outbox db !! co_key c' = Some o' ->
    co_tenant_id c' = k.1 -> or_status o' = "delivered" -> co_ordinal c' <= co_ordinal c
}.

Lemma first_undelivered_None db tn c o :
  first_undelivered db tn = None -> c ∈ commit_order db ->
  outbox db !! co_key c = Some o -> co_tenant_id c = tn -> or_status o = "delivered".
Proof.
  unfold first_undelivered. intros Hn Hc Ho Ht.
  pose proof (sql_min_spec (map (fun co => co_ordinal co.1)
    (filter (fun co : OrderRow * OutboxRow => or_status co.2 <> "delivered")
       (tenant_join db tn)))) as Hs.
  rewrite Hn in Hs. apply map_eq_nil in Hs. destruct (decide (or_status o = "delivered"));
    [done|]. assert (Hin : (c, o) ∈ filter (fun co : OrderRow * OutboxRow =>
      or_status co.2 <> "delivered") (tenant_join db tn))
      by by apply list_elem_of_filter; split; [|apply elem_of_tenant_join].
  rewrite Hs in Hin. set_solver.
Qed.

Lemma first_undelivered_Some db tn n :
  first_undelivered db tn = Some n ->
  (exists c o, c ∈ commit_order db /\ outbox db !! co_key c = Some o /\
     co_tenant_id c = tn /\ or_status o <> "delivered" /\ co_ordinal c = n) /\
  (forall c o, c ∈ commit_order db -> outbox db !! co_key c = Some o ->
     co_tenant_id c = tn -> or_status o <> "delivered" -> n <= co_ordinal c).
Proof.
  unfold first_undelivered. intros Hn.
  pose proof (sql_min_spec (map (fun co => co_ordinal co.1)
    (filter (fun co : OrderRow * OutboxRow => or_status co.2 <> "delivered")
       (tenant_join db tn)))) as Hs.
  rewrite Hn in Hs. destruct Hs as [Hin Hall]. split.
  - apply list_elem_of_fmap in Hin as ([c o] & -> & Hco).
    apply list_elem_of_filter in Hco as [Hst Hj].
    apply elem_of_tenant_join in Hj as (? & ? & ?). eauto 10.
  - intros c o Hc Ho Ht Hst. rewrite Forall_forall in Hall.
    apply (Hall (co_ordinal c)). apply list_elem_of_fmap. exists (c, o).
    split; [done|]. apply list_elem_of_filter. split; [done|]. by apply elem_of_tenant_join.
Qed.

Lemma last_delivered_upper db tn c o n :
  last_delivered db tn = n -> c ∈ commit_order db -> outbox db !! co_key c = Some o ->
  co_tenant_id c = tn -> or_status o = "delivered" ->
  exists m, n = Some m /\ co_ordinal c <= m.
Proof.
  unfold last_delivered. intros Hn Hc Ho Ht Hst.
  pose proof (sql_max_spec (map (fun co => co_ordinal co.1)
    (filter (fun co : OrderRow * OutboxRow => or_status co.2 = "delivered")
       (tenant_join db tn)))) as Hs.
  assert (Hin : co_ordinal c ∈ map (fun co => co_ordinal co.1)
    (filter (fun co : OrderRow * OutboxRow => or_status co.2 = "delivered")
       (tenant_join db tn))).
  { apply list_elem_of_fmap. exists (c, o). split; [done|]. apply list_elem_of_filter.
    split; [done|]. by apply elem_of_tenant_join. }
  rewrite Hn in Hs. destruct n as [m|].
  - exists m. split; [done|]. destruct Hs as [_ Hall].
    rewrite Forall_forall in Hall. by apply Hall.
  - rewrite Hs in Hin. set_solver.
Qed.

Lemma tenant_outbox_head_Some db tn oid :
  tenant_outbox_head db tn = Ok (Some oid) ->
  exists c o, queue_head db (tn, oid) c o.
Proof.
  unfold tenant_outbox_head. intros Hh.
  destruct (bool_decide (map_Forall _ _)); [|done].
  destruct (bool_decide (Forall _ _)); [|done].
  destruct (negb _) eqn:Ehole in Hh; [|done].
  destruct (first_undelivered db tn) as [n|] eqn:Ef; [|done].
  destruct (filter _ _) as [|[c o] l] eqn:E; [done|]. simpl in Hh. simplify_eq.
  assert (Hin : (c, o) ∈ (c, o) :: l) by set_solver. rewrite <- E in Hin.
  apply list_elem_of_filter in Hin as [[Hn Hst] Hj]. simpl in *.
  apply elem_of_tenant_join in Hj as (Hc & Ho & Ht).
  assert (Hk : co_key c = (tn, co_outbox_id c)) by (unfold co_key; by rewrite Ht).
  exists c, o. split; try done; try by rewrite <- Hk.
  - intros c' o' Hc' Ho' Ht' Hst'. rewrite Hn. by eapply first_undelivered_Some.
  - intros c' o' Hc' Ho' Ht' Hst'.
    destruct (last_delivered_upper _ _ _ _ _ eq_refl Hc' Ho' Ht' Hst') as (m & Hm & Hle).
    simpl in Hm. rewrite Hm in Ehole. bool_props. lia.
Qed.

(** No delivered row comes after an undelivered one of its tenant. *)
Definition no_hole (db : Db) (tn : string) : Prop :=
  forall c o c' o', c ∈ commit_order db -> outbox db !! co_key c = Some o ->
    c' ∈ commit_order db -> outbox db !! co_key c' = Some o' ->
    co_tenant_id c = tn -> co_tenant_id c' = tn ->
    or_status o <> "delivered" -> or_status o' = "delivered" ->
    co_ordinal c' <= co_ordinal c.

Lemma tenant_outbox_head_no_hole db tn h :
  tenant_outbox_head db tn = Ok h -> no_hole db tn.
Proof.
  unfold tenant_outbox_head. intros Hh c o c' o' Hc Ho Hc' Ho' Ht Ht' Hst Hst'.
  destruct (bool_decide (map_Forall _ _)); [|done].
  destruct (bool_decide (Forall _ _)); [|done].
  destruct (negb _) eqn:Ehole in Hh; [|done]. clear Hh. bool_props.
  destruct (last_delivered_upper _ _ _ _ _ eq_refl Hc' Ho' Ht' Hst') as (m & Hm & Hle).
  destruct (first_undelivered db tn) as [n|] eqn:Ef.
  - rewrite Hm in Ehole. bool_props.
    pose proof (proj2 (first_undelivered_Some _ _ _ Ef) _ _ Hc Ho Ht Hst). lia.
  - by pose proof (first_undelivered_None _ _ _ _ Ef Hc Ho Ht).
Qed.

Section Lemmas.
Context `{Env}.

(** ** Materialised outbox rows *)

Lemma parse_outbox_status_Ok v s :
  parse_outbox_status v = Ok s ->
  v = match s with Pending => "pending" | Leased => "leased" | Delivered => "delivered" end.
Proof.
  unfold parse_outbox_status. intros Hp. repeat (case_bool_decide; [by simplify_eq|]). done.
Qed.

(** The columns of the row, as the record of it shows them. *)
Record outbox_record_of (k : Key) (c : OrderRow) (o : OutboxRow) (v : option VerifiedRow)
    (rec : TurnOutboxRecord) : Prop := {
  oro_key : (o_tenant_id rec, o_outbox_id rec) = k;
  oro_ordinal : o_commit_ordinal rec = co_ordinal c;
  oro_turn : o_turn_id rec = or_turn_id o;
  oro_revision : o_revision rec = or_revision o;
  oro_event_type : o_event_type rec = or_event_type o;
  oro_status : parse_outbox_status (or_status o) = Ok (o_status rec);
  oro_attempts : o_attempts rec = or_attempts o;
  oro_lease : o_lease_owner rec = or_lease_owner o /\ o_lease_token rec = or_lease_token o;
  oro_until : transpose_map (parse_timestamp "lease_until_ms") (or_lease_until_ms o)
              = Ok (o_lease_until rec);
  oro_available : timestamp_millis_opt (or_available_at_ms o) = Some (o_available_at rec);
  oro_created : timestamp_millis_opt (or_created_at_ms o) = Some (o_created_at rec);
  oro_updated : timestamp_millis_opt (or_updated_at_ms o) = Some (o_updated_at rec);
  oro_event : o_ledger_event_id rec = or_ledger_event_id o;
  oro_error : o_last_error rec = or_last_error o;
  oro_payload : parse_json (or_payload_json o) = Ok (o_payload rec);
  oro_payload_hash : o_payload_hash rec = or_payload_hash o;
  oro_verified : o_verified_ledger_event_id rec = vr_ledger_event_id <$> v /\
    o_verified_signer_public_key rec = vr_signer_public_key <$> v /\
    o_verified_database_instance_id rec = vr_database_instance_id <$> v;
  oro_evidence : v <> None -> o_status rec = Delivered;
  oro_state : exists st, pointer_str ["state"] (o_payload rec) = Some st /\
    outbox_event_type_matches (or_event_type o) st = true
}.

Lemma status_bindings_evidence raw s :
  validate_outbox_status_bindings raw s = Ok tt -> ro_verified raw <> None -> s = Delivered.
Proof.
  unfold validate_outbox_status_bindings. intros Hv Hn.
  destruct (match s with Pending => _ | Leased => _ | Delivered => _ end); [|done].
  destruct (ro_verified raw); [|done]. destruct (decide (s = Delivered)) as [|Hs]; [done|].
  rewrite (bool_decide_eq_false_2 (s = Delivered)) in Hv by done. done.
Qed.

Lemma outbox_bindings_state raw payload rev :
  verify_outbox_bindings raw payload rev = Ok tt ->
  exists st, pointer_str ["state"] payload = Some st /\
    outbox_event_type_matches (or_event_type (ro_row raw)) st = true.
Proof.
  unfold verify_outbox_bindings. intros Hv. cbv zeta in Hv.
  do 4 (destruct (verify_json_text_binding _ _ _ _) as [[]|]; [|done]).
  destruct (bool_decide _); [|done].
  destruct (pointer_str ["state"] payload) as [st|]; [|done]. simpl in Hv.
  destruct (outbox_event_type_matches _ st) eqn:E; [eauto|done].
Qed.

Lemma materialize_outbox_Ok raw rec :
  materialize_outbox raw = Ok rec ->
  outbox_record_of (ro_key raw) (ro_order raw) (ro_row raw) (ro_verified raw) rec.
Proof.
  unfold materialize_outbox. intros Hm. cbv zeta in Hm.
  destruct (verify_stored_hash _ _ _); [|done].
  destruct (parse_json _) eqn:Ep; [|done].
  destruct (checked_u64 (or_revision _)) eqn:Er; [|done].
  destruct (verify_outbox_bindings _ _ _) as [[]|] eqn:Evb; [|done].
  destruct (checked_u64 (co_ordinal _)) eqn:Ec; [|done].
  destruct (negb _); [|done].
  destruct (parse_outbox_status _) eqn:Es; [|done].
  destruct (validate_outbox_status_bindings _ _) as [[]|] eqn:Eb; [|done].
  destruct (parse_order_origin _); [|done].
  destruct (checked_u64 (or_attempts _)) eqn:Ea; [|done].
  destruct (parse_timestamp _ (or_available_at_ms _)) eqn:Eav; [|done].
  destruct (transpose_map _ (or_lease_until_ms _)) eqn:El; [|done].
  destruct (transpose_map _ (or_delivered_at_ms _)) eqn:Ed; [|done].
  destruct (parse_timestamp _ (or_created_at_ms _)) eqn:Ecr; [|done].
  destruct (parse_timestamp _ (or_updated_at_ms _)) eqn:Eu; [|done].
  injection Hm as <-. unfold parse_timestamp in *.
  rewrite ok_or_Ok in Eav, Ecr, Eu. apply checked_u64_Ok in Er as [-> _], Ec as [-> _],
    Ea as [-> _].
  split; cbn [o_tenant_id o_outbox_id o_commit_ordinal o_turn_id o_revision o_event_type
    o_status o_attempts o_lease_owner o_lease_token o_lease_until o_available_at
    o_created_at o_updated_at o_ledger_event_id o_last_error o_payload o_payload_hash
    o_verified_ledger_event_id o_verified_signer_public_key
    o_verified_database_instance_id]; try done.
  - by destruct (ro_key raw).
  - intros Hv. by eapply status_bindings_evidence.
  - by eapply outbox_bindings_state.
Qed.

Lemma load_outbox_Ok db tn oid rec :
  load_outbox db tn oid = Ok (Some rec) ->
  exists c o, c ∈ commit_order db /\ co_key c = (tn, oid) /\
    outbox db !! (tn, oid) = Some o /\
    outbox_record_of (tn, oid) c o (verified db !! (tn, oid)) rec.
Proof.
  unfold load_outbox. intros Hl. destruct (filter _ _) as [|raw l] eqn:E; [done|].
  simpl in Hl. destruct (materialize_outbox raw) as [r|] eqn:Em; simplify_eq/=.
  assert (Hin : raw ∈ raw :: l) by set_solver. rewrite <- E in Hin.
  apply list_elem_of_filter in Hin as [Hk Hin]. unfold outbox_select in Hin.
  apply list_elem_of_fmap in Hin as ([c o] & -> & Hj). simpl in Hk.
  apply elem_of_outbox_join in Hj as [Hc Ho]. rewrite Hk in Ho.
  apply materialize_outbox_Ok in Em. simpl in Em. rewrite Hk in Em. eauto 8.
Qed.

Lemma load_outbox_existing_Ok db tn oid rec :
  load_outbox_existing db tn oid = Ok rec ->
  exists c o, c ∈ commit_order db /\ co_key c = (tn, oid) /\
    outbox db !! (tn, oid) = Some o /\
    outbox_record_of (tn, oid) c o (verified db !! (tn, oid)) rec.
Proof.
  unfold load_outbox_existing. intros Hl.
  destruct (load_outbox db tn oid) as [[r|]|] eqn:E; simplify_eq/=. by apply load_outbox_Ok.
Qed.

(** ** The fence *)

Lemma fence_Ok rec oid owner token now :
  fence rec oid owner token now = Ok tt ->
  o_updated_at rec <= now /\ o_status rec = Leased /\ o_lease_owner rec = Some owner /\
  o_lease_token rec = Some token /\ exists u, o_lease_until rec = Some u /\ now < u.
Proof.
  unfold fence. intros Hf. destruct (negb _) eqn:E1 in Hf; [|done].
  destruct (_ && _) eqn:E2 in Hf; [|done]. destruct (negb _) eqn:E3 in Hf; [|done].
  bool_props. destruct (o_lease_until rec) as [u|]; [|done]. simpl in E3. bool_props.
  split; [lia|]. split; [done|]. split; [done|]. split; [done|].
  exists u. split; [done|lia].
Qed.

Lemma is_head_Ok db tn oid :
  is_head db tn oid = Ok tt ->
  tenant_outbox_head db tn = Ok (Some oid) /\ exists c o, queue_head db (tn, oid) c o.
Proof.
  unfold is_head. intros Hh. destruct (tenant_outbox_head db tn) as [h|] eqn:E; [|done].
  case_bool_decide; [|done]. subst. split; [done|]. by eapply tenant_outbox_head_Some.
Qed.

End Lemmas.
