(* ===== verification/Dispatch.v ===== *)
(** * Verified dispatch of outbox rows
    ([crates/zaion-runtime/src/turn_store/dispatch.rs])

    Before an outbox row is signed, and again before it is marked delivered, the
    whole durable history of its turn is revalidated, together with every row of
    the tenant that was delivered before it. *)

From stdpp Require Import prelude gmap strings list.
From S2P Require Import Prelude.
From S2P Require Import Json.
From S2P Require Import TurnState.
From S2P Require Import TurnKernel.
From S2P Require Import Env.
From S2P Require Import Ingress.
From S2P Require Import Schema.
From S2P Require Import Database.
From S2P Require Import Ledger.
From S2P Require Import Binding.
From S2P Require Import TurnRecords.
From S2P Require Import TurnStore.
From S2P Require Import Outbox.
Local Open Scope res_scope.
Local Open Scope Z_scope.

Record SigningValidatedOutbox : Type := {
  sv_outbox : TurnOutboxRecord;
  sv_binding : IdempotentEventBinding
}.

Inductive OutboxCompletion : Type := CompletionDelivered | AlreadyDelivered.

Record ValidatedHistoryEntry : Type := {
  h_outbox : TurnOutboxRecord;
  h_state : TurnState;
  h_binding : IdempotentEventBinding
}.

Record VerifiedPrefixEntry : Type := {
  p_revision : Z;
  p_binding : IdempotentEventBinding;
  p_ledger_event_id : string;
  p_public_key : string
}.

#[export] Instance VerifiedPrefixEntry_eq_dec : EqDecision VerifiedPrefixEntry.
Proof. solve_decision. Defined.

(** [target] is [history[target_index]]. *)
Record DispatchSnapshot : Type := {
  ds_history : list ValidatedHistoryEntry;
  ds_target : ValidatedHistoryEntry;
  ds_tenant_prefix : list VerifiedPrefixEntry;
  ds_database_path : string;
  ds_database_instance_id : string
}.

Section Dispatch.
Context `{Env}.

(** ** One history entry *)

Definition TOP_LEVEL_FIELDS : list string :=
  ["schema"; "outbox_id"; "tenant_id"; "turn_id"; "actor_key"; "subject_id";
   "principal_id"; "workspace_id"; "profile_id"; "session_id"; "source";
   "idempotency_key"; "request_hash"; "authority_hash"; "previous_state"; "state";
   "revision"; "terminal"; "terminal_result_hash"; "occurred_at"].

Definition validate_outbox_payload_shape (payload : Value) : result TurnStoreError unit :=
  let? object := ok_or (as_object payload)
                   (RecordBindingMismatch "outbox.payload_shape") in
  guard? bool_decide (length object = length TOP_LEVEL_FIELDS)
         && forallb (fun field => contains_key field object) TOP_LEVEL_FIELDS
    else RecordBindingMismatch "outbox.payload_shape" in
  let? source := ok_or (match members_get "source" object with
                        | Some v => as_object v
                        | None => None
                        end) (RecordBindingMismatch "outbox.source_shape") in
  guard? bool_decide (length source = 2%nat) && contains_key "surface" source
         && contains_key "source_id" source
    else RecordBindingMismatch "outbox.source_shape" in
  Ok tt.

Definition validate_outbox_identity (record : TurnOutboxRecord) (turn : DurableTurnRecord)
  : result TurnStoreError unit :=
  let payload := o_payload record in
  let? _ := validate_outbox_payload_shape payload in
  let? _ := verify_json_text_binding payload ["actor_key"] (t_actor_key turn)
              "outbox.actor_key" in
  let? _ := verify_json_text_binding payload ["subject_id"] (t_subject_id turn)
              "outbox.subject_id" in
  let? _ := verify_json_text_binding payload ["principal_id"] (t_principal_id turn)
              "outbox.principal_id" in
  let? _ := verify_json_text_binding payload ["workspace_id"] (t_workspace_id turn)
              "outbox.workspace_id" in
  let? _ := verify_json_text_binding payload ["profile_id"] (t_profile_id turn)
              "outbox.profile_id" in
  let? _ := verify_json_text_binding payload ["session_id"] (t_session_id turn)
              "outbox.session_id" in
  let? _ := verify_json_text_binding payload ["source"; "surface"]
              (t_source_surface turn) "outbox.source_surface" in
  let? _ := verify_json_text_binding payload ["source"; "source_id"]
              (t_source_id turn) "outbox.source_id" in
  let? _ := verify_json_text_binding payload ["idempotency_key"]
              (t_idempotency_key turn) "outbox.idempotency_key" in
  let? _ := verify_json_text_binding payload ["request_hash"] (t_request_hash turn)
              "outbox.request_hash" in
  let? _ := verify_json_text_binding payload ["authority_hash"] (t_authority_hash turn)
              "outbox.authority_hash" in
  guard? bool_decide (o_effect_kind record = "ledger_turn_state")
    else RecordBindingMismatch "outbox.effect_kind" in
  guard? bool_decide (o_idempotency_mode record = "key_required")
    else RecordBindingMismatch "outbox.idempotency_mode" in
  let? occurred_at_text := ok_or (pointer_str ["occurred_at"] payload)
                             (RecordBindingMismatch "outbox.occurred_at") in
  let? occurred_at := ok_or (parse_from_rfc3339 occurred_at_text)
                        (RecordBindingMismatch "outbox.occurred_at") in
  guard? bool_decide (timestamp_millis occurred_at = timestamp_millis (o_created_at record))
    else RecordBindingMismatch "outbox.occurred_at" in
  guard? negb (starts_with "turn.state." (o_event_type record)
               && negb (bool_decide (occurred_at_text
                                     = to_rfc3339_millis (o_created_at record))))
    else RecordBindingMismatch "outbox.occurred_at" in
  Ok tt.

Definition outbox_payload_state (record : TurnOutboxRecord)
  : result TurnStoreError TurnState :=
  let? s := ok_or (pointer_str ["state"] (o_payload record))
              (RecordBindingMismatch "outbox.state") in
  parse_state s.

Definition validate_history_transition (record : TurnOutboxRecord) (s : TurnState)
    (previous : option ValidatedHistoryEntry) : result TurnStoreError unit :=
  match previous with
  | None =>
      guard? bool_decide (o_revision record = 0) && bool_decide (s = Accepted)
        else OutboxHistoryGenesis (o_revision record) in
      guard? bool_decide (value_get "previous_state" (o_payload record) = Some VNull)
        else OutboxHistoryPreviousState (o_revision record) in
      Ok tt
  | Some previous =>
      guard? bool_decide (pointer_str ["previous_state"] (o_payload record)
                          = Some (state_name (h_state previous)))
        else OutboxHistoryPreviousState (o_revision record) in
      guard? can_transition_to (h_state previous) s
        else OutboxHistoryIllegalTransition (o_revision record) (h_state previous) s in
      Ok tt
  end.

Definition validate_terminal_binding (record : TurnOutboxRecord) (s : TurnState)
    (turn : DurableTurnRecord) : result TurnStoreError unit :=
  guard? bool_decide (match pointer ["terminal"] (o_payload record) with
                      | Some v => as_bool v
                      | None => None
                      end = Some (is_terminal s))
    else RecordBindingMismatch "outbox.terminal" in
  let? terminal_hash := ok_or (value_get "terminal_result_hash" (o_payload record))
                          (RecordBindingMismatch "outbox.terminal_result_hash") in
  if is_terminal s then
    guard? bool_decide (o_revision record = revision (t_state turn))
           && bool_decide (as_str terminal_hash = t_terminal_result_hash turn)
      else RecordBindingMismatch "outbox.terminal_result_hash" in
    Ok tt
  else
    guard? bool_decide (terminal_hash = VNull)
      else RecordBindingMismatch "outbox.terminal_result_hash" in
    Ok tt.

(** ** The whole history of a turn *)

(** The body of the validation loop for the record at [index], after the
    entries [validated] (in order) with [undelivered_seen]. *)
Definition history_step (turn : DurableTurnRecord) (index : nat)
    (validated : list ValidatedHistoryEntry) (undelivered_seen : bool)
    (record : TurnOutboxRecord)
  : result TurnStoreError (ValidatedHistoryEntry * bool) :=
  guard? bool_decide (o_revision record = Z.of_nat index)
    else OutboxHistoryRevision (Z.of_nat index) (o_revision record) in
  let? _ := match last validated with
            | Some previous =>
                guard? bool_decide (o_commit_ordinal (h_outbox previous)
                                    < o_commit_ordinal record)
                  else OutboxHistoryIncomplete (t_turn_id turn) in
                guard? bool_decide (o_created_at (h_outbox previous)
                                    <= o_created_at record)
                  else NonMonotonicTimestamp in
                Ok tt
            | None => Ok tt
            end in
  let? _ := validate_outbox_identity record turn in
  let? s := outbox_payload_state record in
  let? _ := validate_history_transition record s (last validated) in
  let? _ := validate_terminal_binding record s turn in
  let parent_event_id :=
    match last validated with
    | Some previous => Some (expected_event_id (h_binding previous))
    | None => None
    end in
  let? binding := from_ledger (binding_new (o_outbox_id record) (t_principal_id turn)
    (t_session_id turn) (Some (t_turn_id turn)) (o_event_type record) (o_payload record)
    parent_event_id) in
  let entry := {| h_outbox := record; h_state := s; h_binding := binding |} in
  match o_status record with
  | Delivered =>
      guard? negb undelivered_seen else OutboxDeliveredPrefix (o_revision record) in
      guard? bool_decide (o_ledger_event_id record = Some (expected_event_id binding))
        else OutboxLedgerEventMismatch (o_revision record) in
      Ok (entry, undelivered_seen)
  | Pending | Leased => Ok (entry, true)
  end.

Fixpoint history_loop (turn : DurableTurnRecord) (index : nat)
    (validated : list ValidatedHistoryEntry) (undelivered_seen : bool)
    (records : list TurnOutboxRecord)
  : result TurnStoreError (list ValidatedHistoryEntry) :=
  match records with
  | [] => Ok validated
  | record :: records' =>
      let? (entry, seen) := history_step turn index validated undelivered_seen record in
      history_loop turn (S index) (validated ++ [entry]) seen records'
  end.

(** [OUTBOX_SELECT WHERE o.tenant_id = ?1 AND o.turn_id = ?2 ORDER BY o.revision] *)
Definition turn_rows (db : Db) (tenant_id turn_id : string) : list RawOutboxRow :=
  order_by_key (fun raw => or_revision (ro_row raw))
    (filter (fun raw => (ro_key raw).1 = tenant_id /\ or_turn_id (ro_row raw) = turn_id)
       (outbox_select db)).

Definition validate_turn_history (db : Db) (turn : DurableTurnRecord)
  : result TurnStoreError (list ValidatedHistoryEntry) :=
  let incomplete := OutboxHistoryIncomplete (t_turn_id turn) in
  let? records := collect_map materialize_outbox
                    (turn_rows db (t_tenant_id turn) (t_turn_id turn)) in
  let? expected_count := ok_or (u64_checked_add (revision (t_state turn)) 1) incomplete in
  guard? bool_decide (Z.of_nat (length records) = expected_count) else incomplete in
  let? validated := history_loop turn 0 [] false records in
  let? first := ok_or (head validated) incomplete in
  let? last := ok_or (last validated) incomplete in
  guard? bool_decide (h_state first = Accepted)
         && bool_decide (o_created_at (h_outbox first) = t_created_at turn)
         && bool_decide (h_state last = state (t_state turn))
         && bool_decide (o_revision (h_outbox last) = revision (t_state turn))
         && bool_decide (o_created_at (h_outbox last) = t_updated_at turn)
    else OutboxHistoryCurrentTurn (t_turn_id turn) in
  Ok validated.

(** ** The delivered prefix of the tenant *)

Definition validate_active_lease (target : TurnOutboxRecord)
    (lease_owner lease_token : string) (now : Z) : result TurnStoreError unit :=
  fence target (o_outbox_id target) lease_owner lease_token now.

Definition prefix_entry (turn : DurableTurnRecord) (instance_id : string)
    (entry : ValidatedHistoryEntry) : result TurnStoreError VerifiedPrefixEntry :=
  let o := h_outbox entry in
  let? ledger_event_id := ok_or (o_ledger_event_id o)
                            (OutboxDeliveredPrefix (o_revision o)) in
  let? public_key := ok_or (o_verified_signer_public_key o)
                       (OutboxSignerEvidenceMissing (o_outbox_id o)) in
  guard? bool_decide (o_verified_ledger_event_id o = Some ledger_event_id)
    else OutboxLedgerEventMismatch (o_revision o) in
  guard? bool_decide (o_verified_database_instance_id o = Some instance_id)
    else OutboxLedgerInstanceMismatch in
  guard? bool_decide (principal_id_from_public_key public_key = t_principal_id turn)
    else OutboxPrincipalMismatch in
  Ok {| p_revision := o_revision o; p_binding := h_binding entry;
        p_ledger_event_id := ledger_event_id; p_public_key := public_key |}.

(** [SELECT DISTINCT o.turn_id ... WHERE c.commit_ordinal < ?2 AND
    o.status = 'delivered' ORDER BY o.turn_id] *)
Definition delivered_turns (db : Db) (tenant_id : string) (target_ordinal : Z)
  : list string :=
  order_by String.leb (remove_dups (map (fun co => or_turn_id co.2)
    (filter (fun co => co_ordinal co.1 < target_ordinal /\ or_status co.2 = "delivered")
       (tenant_join db tenant_id)))).

Fixpoint prefix_loop (db : Db) (tenant_id : string) (target_ordinal : Z)
    (target_turn_id : string) (target_history : list ValidatedHistoryEntry)
    (instance_id : string) (turn_ids : list string) (prefix : list VerifiedPrefixEntry)
  : result TurnStoreError (list VerifiedPrefixEntry) :=
  match turn_ids with
  | [] => Ok prefix
  | turn_id :: rest =>
      let? turn := load_existing db tenant_id turn_id in
      let? history := if bool_decide (turn_id = target_turn_id) then Ok target_history
                      else validate_turn_history db turn in
      let? entries := collect_map (prefix_entry turn instance_id)
        (filter (fun e => o_commit_ordinal (h_outbox e) < target_ordinal
                          /\ o_status (h_outbox e) = Delivered) history) in
      prefix_loop db tenant_id target_ordinal target_turn_id target_history instance_id
        rest (prefix ++ entries)
  end.

Definition load_tenant_verified_prefix (db : Db) (tenant_id : string) (target_ordinal : Z)
    (target_turn_id : string) (target_history : list ValidatedHistoryEntry)
    (instance_id : string) : result TurnStoreError (list VerifiedPrefixEntry) :=
  guard? in_i64 target_ordinal
    else SchemaIntegrity "outbox commit ordinal exceeds the SQLite integer range" in
  let? prefix := prefix_loop db tenant_id target_ordinal target_turn_id target_history
    instance_id (delivered_turns db tenant_id target_ordinal) [] in
  Ok (order_by (fun a b => String.leb (expected_event_id (p_binding a))
                                      (expected_event_id (p_binding b))) prefix).

(** ** Snapshots *)

Definition load_dispatch_snapshot (db : Db)
    (tenant_id outbox_id lease_owner lease_token : string) (now : Z)
    (allow_delivered : bool) : result TurnStoreError DispatchSnapshot :=
  let? loaded := load_outbox_existing db tenant_id outbox_id in
  let? turn := load_existing db tenant_id (o_turn_id loaded) in
  let? history := validate_turn_history db turn in
  let? entry := ok_or
    (head (filter (fun e => o_outbox_id (h_outbox e) = outbox_id) history))
    (OutboxHistoryIncomplete (t_turn_id turn)) in
  let target := h_outbox entry in
  let? tenant_head := tenant_outbox_head db tenant_id in
  let? _ := if negb (bool_decide (o_status target = Delivered)) then
              guard? bool_decide (tenant_head = Some outbox_id)
                else OutboxOrderConflict outbox_id in
              validate_active_lease target lease_owner lease_token now
            else if negb allow_delivered then Err (OutboxLeaseLost outbox_id lease_owner)
            else Ok tt in
  let? path := from_ledger (validated_database_path db) in
  let? instance_id := from_ledger (validated_database_instance_id db) in
  let? prefix := load_tenant_verified_prefix db tenant_id (o_commit_ordinal target)
                   (t_turn_id turn) history instance_id in
  Ok {| ds_history := history; ds_target := entry; ds_tenant_prefix := prefix;
        ds_database_path := path; ds_database_instance_id := instance_id |}.

(** [DurableTurnStore::dispatch_snapshot]; [store_instance] is the identifier the
    store observed when it was opened. *)
Definition dispatch_snapshot (store_instance : string) (db : Db)
    (tenant_id outbox_id lease_owner lease_token : string) (now : Z)
    (allow_delivered : bool) : result TurnStoreError DispatchSnapshot :=
  let? _ := from_schema (validate_no_extra_outbox_triggers (sqlite_master db)) in
  let? snapshot := load_dispatch_snapshot db tenant_id outbox_id lease_owner lease_token
                     now allow_delivered in
  guard? bool_decide (ds_database_instance_id snapshot = store_instance)
    else OutboxLedgerInstanceMismatch in
  Ok snapshot.

Definition verify_ledger_scope (db : Db) (snapshot : DispatchSnapshot)
    (ledger : EventLedger) (public_key : string) : result TurnStoreError unit :=
  let? path := from_ledger (canonical_database_path ledger db) in
  guard? bool_decide (path = ds_database_path snapshot) else OutboxLedgerPathMismatch in
  let? instance_id := from_ledger (database_instance_id ledger db) in
  guard? bool_decide (instance_id = ds_database_instance_id snapshot)
    else OutboxLedgerInstanceMismatch in
  guard? bool_decide (principal_id_from_public_key public_key
                      = b_principal_id (h_binding (ds_target snapshot)))
    else OutboxPrincipalMismatch in
  Ok tt.

(** One entry of [verify_tenant_prefix] and its in-connection variant. *)
Definition check_prefix_entry (snapshot : DispatchSnapshot)
    (verify : string -> IdempotentEventBinding -> result LedgerError VerifiedEventCommit)
    (entry : VerifiedPrefixEntry) : result TurnStoreError unit :=
  let? v := from_ledger (verify (p_public_key entry) (p_binding entry)) in
  guard? bool_decide (vc_event_id v = p_ledger_event_id entry)
         && bool_decide (vc_canonical_ledger_path v = ds_database_path snapshot)
         && bool_decide (vc_database_instance_id v = ds_database_instance_id snapshot)
    else OutboxLedgerEventMismatch (p_revision entry) in
  Ok tt.

Definition verify_tenant_prefix (db : Db) (snapshot : DispatchSnapshot)
    (ledger : EventLedger) : result TurnStoreError (list unit) :=
  collect_map (check_prefix_entry snapshot (verify_existing_idempotent_event ledger db))
    (ds_tenant_prefix snapshot).

Definition verify_tenant_prefix_in_connection (db : Db) (snapshot : DispatchSnapshot)
  : result TurnStoreError (list unit) :=
  collect_map
    (check_prefix_entry snapshot (verify_existing_idempotent_event_in_connection db))
    (ds_tenant_prefix snapshot).

(** ** Signing *)

Definition revalidate_outbox_for_signing (store_instance : string) (db : Db)
    (tenant_id outbox_id lease_owner lease_token : string) (now : Z)
    (ledger : EventLedger) (public_key : string)
  : result TurnStoreError SigningValidatedOutbox :=
  let? _ := validate_lease_identity "lease_owner" lease_owner in
  let? _ := validate_lease_identity "lease_token" lease_token in
  let? snapshot := dispatch_snapshot store_instance db tenant_id outbox_id lease_owner
                     lease_token now false in
  let? _ := verify_ledger_scope db snapshot ledger public_key in
  let? _ := verify_tenant_prefix db snapshot ledger in
  Ok {| sv_outbox := h_outbox (ds_target snapshot);
        sv_binding := h_binding (ds_target snapshot) |}.

(** ** Completion *)

Definition bindings_match (left right : IdempotentEventBinding) : bool :=
  bool_decide (b_idempotency_key left = b_idempotency_key right)
  && bool_decide (b_principal_id left = b_principal_id right)
  && bool_decide (b_namespace_key left = b_namespace_key right)
  && bool_decide (b_run_id left = b_run_id right)
  && bool_decide (b_event_type left = b_event_type right)
  && bool_decide (b_payload left = b_payload right)
  && bool_decide (b_parent_event_id left = b_parent_event_id right).

Definition prefixes_match (left right : list VerifiedPrefixEntry) : bool :=
  bool_decide (length left = length right)
  && forallb (fun lr => bool_decide (p_revision lr.1 = p_revision lr.2)
                        && bool_decide (p_ledger_event_id lr.1 = p_ledger_event_id lr.2)
                        && bool_decide (p_public_key lr.1 = p_public_key lr.2)
                        && bindings_match (p_binding lr.1) (p_binding lr.2))
       (zip left right).

Definition ensure_verified_commit_evidence (db : Db) (o : TurnOutboxRecord)
    (commit : VerifiedEventCommit) (public_key : string) : result TurnStoreError Db :=
  match o_verified_ledger_event_id o, o_verified_signer_public_key o,
        o_verified_database_instance_id o with
  | None, None, None =>
      from_sqlite (insert_verified db (o_tenant_id o, o_outbox_id o)
        {| vr_ledger_event_id := vc_event_id commit; vr_signer_public_key := public_key;
           vr_database_instance_id := vc_database_instance_id commit |})
  | Some event_id, Some stored_key, Some instance_id =>
      guard? bool_decide (event_id = vc_event_id commit)
             && bool_decide (stored_key = public_key)
             && bool_decide (instance_id = vc_database_instance_id commit)
        else OutboxCommitMismatch (o_outbox_id o) in
      Ok db
  | _, _, _ => Err (OutboxCommitMismatch (o_outbox_id o))
  end.

Definition verify_outbox_commit_evidence (o : TurnOutboxRecord)
    (commit : VerifiedEventCommit) (public_key : string) : result TurnStoreError unit :=
  guard? bool_decide (o_verified_ledger_event_id o = Some (vc_event_id commit))
         && bool_decide (o_verified_signer_public_key o = Some public_key)
         && bool_decide (o_verified_database_instance_id o
                         = Some (vc_database_instance_id commit))
    else OutboxCommitMismatch (o_outbox_id o) in
  Ok tt.

(** The transaction of [complete_outbox], after the snapshot outside it was
    taken and verified. *)
Definition complete_in_tx (db : Db) (snapshot : DispatchSnapshot)
    (tenant_id outbox_id lease_owner lease_token : string) (commit : VerifiedEventCommit)
    (now : Z) : result TurnStoreError (OutboxCompletion * Db) :=
  let pk := vc_public_key_bytes commit in
  let? _ := from_schema (validate_no_extra_outbox_triggers (sqlite_master db)) in
  let? current := load_dispatch_snapshot db tenant_id outbox_id lease_owner lease_token
                    now true in
  let? _ := verify_tenant_prefix_in_connection db current in
  let? commit_matches := from_ledger
    (matches_binding_in_connection commit db (h_binding (ds_target current))) in
  guard? bool_decide (ds_database_path current = ds_database_path snapshot)
         && bool_decide (ds_database_path current = vc_canonical_ledger_path commit)
         && bool_decide (ds_database_instance_id current = ds_database_instance_id snapshot)
         && bool_decide (ds_database_instance_id current = vc_database_instance_id commit)
         && bindings_match (h_binding (ds_target snapshot)) (h_binding (ds_target current))
         && prefixes_match (ds_tenant_prefix snapshot) (ds_tenant_prefix current)
         && commit_matches
    else OutboxCommitMismatch outbox_id in
  let target := h_outbox (ds_target current) in
  let? db1 := ensure_verified_commit_evidence db target commit pk in
  if bool_decide (o_status target = Delivered) then
    guard? bool_decide (o_ledger_event_id target = Some (vc_event_id commit))
      else OutboxCommitMismatch outbox_id in
    let? repaired := load_outbox_existing db1 tenant_id outbox_id in
    let? _ := verify_outbox_commit_evidence repaired commit pk in
    Ok (AlreadyDelivered, db1)
  else
    guard? negb (bool_decide (now < o_updated_at target))
      else OutboxCompletionTimeInvalid in
    let? (changed, db2) := from_sqlite
      (update_outbox db1 (tenant_id, outbox_id) (holds_lease lease_owner lease_token now)
         (set_delivered (vc_event_id commit) now)) in
    guard? bool_decide (changed = 1%nat) else OutboxLeaseLost outbox_id lease_owner in
    let? delivered := load_outbox_existing db2 tenant_id outbox_id in
    guard? bool_decide (o_status delivered = Delivered)
           && bool_decide (o_ledger_event_id delivered = Some (vc_event_id commit))
           && bool_decide (timestamp_millis <$> o_delivered_at delivered
                           = Some (timestamp_millis now))
           && bool_decide (timestamp_millis (o_updated_at delivered)
                           = timestamp_millis now)
           && opt_is_none (o_last_error delivered)
      else SchemaIntegrity
             "verified outbox completion was modified by unexpected database behavior" in
    let? _ := verify_outbox_commit_evidence delivered commit pk in
    let? _ := tenant_outbox_head db2 tenant_id in
    Ok (CompletionDelivered, db2).

(** [complete_outbox].  Its snapshot and its completing transaction are two
    transactions: the first sees [before], the second whatever the database is by
    then, [db]. *)
Definition complete_outbox (store_instance : string) (before db : Db)
    (tenant_id outbox_id lease_owner lease_token : string) (commit : VerifiedEventCommit)
    (now : Z) (ledger : EventLedger) : result TurnStoreError (OutboxCompletion * Db) :=
  let pk := vc_public_key_bytes commit in
  let? _ := validate_lease_identity "lease_owner" lease_owner in
  let? _ := validate_lease_identity "lease_token" lease_token in
  let? snapshot := dispatch_snapshot store_instance before tenant_id outbox_id lease_owner
                     lease_token now true in
  let? _ := verify_ledger_scope before snapshot ledger pk in
  let? _ := verify_tenant_prefix before snapshot ledger in
  let? matches := from_ledger
    (matches_binding commit ledger before (h_binding (ds_target snapshot))) in
  guard? matches else OutboxCommitMismatch outbox_id in
  complete_in_tx db snapshot tenant_id outbox_id lease_owner lease_token commit now.

End Dispatch.
