(* ===== verification/DispatchLemmas.v ===== *)
(** * What a validated history and a completed delivery establish

    [history_ok] is the specification of a turn's durable history: it is a run of
    the turn state machine with one outbox row per revision, in commit order,
    whose delivered rows are a prefix, each with its ledger binding.
    [validate_turn_history] establishes it; [complete_outbox] acts on it. *)

From stdpp Require Import prelude gmap strings list.
From S2P Require Import Prelude.
From S2P Require Import Json.
From S2P Require Import TurnState.
From S2P Require Import TurnKernel.
From S2P Require Import Env.
From S2P Require Import Ingress.
From S2P Require Import Schema.
From S2P Require Import Database.
From S2P Require Import Ledger.
From S2P Require Import Binding.
From S2P Require Import TurnRecords.
From S2P Require Import TurnStore.
From S2P Require Import StoreLemmas.
From S2P Require Import Outbox.
From S2P Require Import OutboxLemmas.
From S2P Require Import Dispatch.
Local Open Scope res_scope.
Local Open Scope Z_scope.

Section Lemmas.
Context `{Env}.

(** The ledger binding of a history entry, with the identifier of its parent. *)
Definition entry_binding (turn : DurableTurnRecord) (record : TurnOutboxRecord)
    (parent : option string) : IdempotentEventBinding :=
  {| b_idempotency_key := o_outbox_id record; b_principal_id := t_principal_id turn;
     b_namespace_key := t_session_id turn; b_run_id := Some (t_turn_id turn);
     b_event_type := o_event_type record; b_payload := o_payload record;
     b_parent_event_id := parent |}.

Lemma binding_new_Ok k p ns run ty v parent b :
  binding_new k p ns run ty v parent = Ok b ->
  b = {| b_idempotency_key := k; b_principal_id := p; b_namespace_key := ns;
         b_run_id := run; b_event_type := ty; b_payload := v; b_parent_event_id := parent |}.
Proof.
  unfold binding_new. destruct (ledger_validate_idempotency_key k); [|done].
  destruct (negb _); [|done]. intros Hb. by injection Hb.
Qed.

(** Two consecutive entries. *)
Record follows (e e' : ValidatedHistoryEntry) : Prop := {
  fl_table : can_transition_to (h_state e) (h_state e') = true;
  fl_ordinal : o_commit_ordinal (h_outbox e) < o_commit_ordinal (h_outbox e');
  fl_created : o_created_at (h_outbox e) <= o_created_at (h_outbox e');
  fl_parent : b_parent_event_id (h_binding e') = Some (expected_event_id (h_binding e))
}.

Record history_ok (turn : DurableTurnRecord) (h : list ValidatedHistoryEntry) : Prop := {
  ho_revision : forall i e, h !! i = Some e -> o_revision (h_outbox e) = Z.of_nat i;
  ho_genesis : forall e, h !! 0%nat = Some e ->
    h_state e = Accepted /\ b_parent_event_id (h_binding e) = None;
  ho_follows : forall i e e', h !! i = Some e -> h !! S i = Some e' -> follows e e';
  ho_binding : forall e, e ∈ h -> exists parent,
    h_binding e = entry_binding turn (h_outbox e) parent;
  ho_state : forall e, e ∈ h -> outbox_payload_state (h_outbox e) = Ok (h_state e);
  ho_delivered : forall e, e ∈ h -> o_status (h_outbox e) = Delivered ->
    o_ledger_event_id (h_outbox e) = Some (expected_event_id (h_binding e));
  ho_prefix : forall i j e e', (i < j)%nat -> h !! i = Some e -> h !! j = Some e' ->
    o_status (h_outbox e') = Delivered -> o_status (h_outbox e) = Delivered
}.

Lemma history_ok_nil turn : history_ok turn [].
Proof. split; intros; rewrite ?lookup_nil in *; try done; set_solver. Qed.

(** What one step of the loop checks. *)
Record step_checked (turn : DurableTurnRecord) (index : nat) (prev : option ValidatedHistoryEntry)
    (seen : bool) (record : TurnOutboxRecord) (e : ValidatedHistoryEntry) (seen' : bool)
  : Prop := {
  sc_outbox : h_outbox e = record;
  sc_revision : o_revision record = Z.of_nat index;
  sc_genesis : prev = None ->
    h_state e = Accepted /\ b_parent_event_id (h_binding e) = None;
  sc_follows : forall p, prev = Some p -> follows p e;
  sc_binding : exists parent, h_binding e = entry_binding turn record parent;
  sc_state : outbox_payload_state record = Ok (h_state e);
  sc_delivered : o_status record = Delivered ->
    seen = false /\ o_ledger_event_id record = Some (expected_event_id (h_binding e));
  sc_seen : seen' = seen || negb (bool_decide (o_status record = Delivered))
}.

Lemma history_step_Ok turn index validated seen record e seen' :
  history_step turn index validated seen record = Ok (e, seen') ->
  step_checked turn index (last validated) seen record e seen'.
Proof.
  unfold history_step. intros Hs. case_bool_decide as Hrev; [|done].
  destruct (match last validated with Some _ => _ | None => _ end) as [[]|] eqn:Eprev
    in Hs; [|done].
  destruct (validate_outbox_identity _ _) as [[]|]; [|done].
  destruct (outbox_payload_state _) as [s|] eqn:Est; [|done].
  destruct (validate_history_transition _ _ _) as [[]|] eqn:Etr; [|done].
  destruct (validate_terminal_binding _ _ _) as [[]|]; [|done]. cbv zeta in Hs.
  destruct (from_ledger _) as [b|] eqn:Eb; [|done].
  apply from_ledger_Ok, binding_new_Ok in Eb.
  assert (He : e = {| h_outbox := record; h_state := s; h_binding := b |} /\
    seen' = seen || negb (bool_decide (o_status record = Delivered)) /\
    (o_status record = Delivered -> seen = false /\
       o_ledger_event_id record = Some (expected_event_id b))).
  { destruct (o_status record) in Hs |- *; [by simplify_eq; rewrite orb_true_r..|].
    destruct (negb seen) eqn:En; [|done]. case_bool_decide; [|done]. bool_props.
    simplify_eq. by rewrite orb_false_r. }
  clear Hs. destruct He as (-> & Hseen & Hdel). split; cbn [h_outbox h_state h_binding]; try done.
  - intros Hn. rewrite Hn in Etr, Eb. simpl in Etr.
    destruct (_ && _) eqn:E in Etr; [|done]. bool_props. by subst.
  - intros p Hp. rewrite Hp in Etr, Eb, Eprev. simpl in Etr.
    clear Hseen Hdel. repeat case_bool_decide; try done.
    destruct (can_transition_to _ _) eqn:Et in Etr; [|done]. by split; subst.
  - subst b. eauto.
Qed.

Lemma history_snoc turn h e seen seen' :
  history_ok turn h ->
  (seen = false -> forall e, e ∈ h -> o_status (h_outbox e) = Delivered) ->
  step_checked turn (length h) (last h) seen (h_outbox e) e seen' ->
  history_ok turn (h ++ [e]) /\
  (seen' = false -> forall e', e' ∈ h ++ [e] -> o_status (h_outbox e') = Delivered).
Proof.
  intros Hok Hseen Hc.
  assert (Hlast : forall i e', (h ++ [e]) !! i = Some e' ->
    h !! i = Some e' \/ (i = length h /\ e' = e)).
  { intros i e' Hi. apply lookup_app_Some in Hi as [?|[? Hi]]; [by left|right].
    apply list_lookup_singleton_Some in Hi as [? ?]. split; [lia|done]. }
  split; [split|].
  - intros i e' Hi. apply Hlast in Hi as [Hi|[-> ->]]; [by eapply ho_revision|].
    by eapply sc_revision.
  - intros e' Hi. apply Hlast in Hi as [Hi|[Hl ->]]; [by eapply ho_genesis|].
    eapply sc_genesis; [done|]. by destruct h.
  - intros i e1 e2 H1 H2. apply Hlast in H2 as [H2|[Hl ->]].
    + apply Hlast in H1 as [H1|[-> ->]]; [by eapply ho_follows|].
      apply lookup_lt_Some in H2. lia.
    + eapply sc_follows; [done|]. apply Hlast in H1 as [H1|[-> ->]]; [|lia].
      rewrite last_lookup, <- Hl. done.
  - intros e' Hin. apply elem_of_app in Hin as [Hin|Hin%list_elem_of_singleton];
      [by eapply ho_binding|subst]. by eapply sc_binding.
  - intros e' Hin. apply elem_of_app in Hin as [Hin|Hin%list_elem_of_singleton];
      [by eapply ho_state|subst]. by eapply sc_state.
  - intros e' Hin Hd. apply elem_of_app in Hin as [Hin|Hin%list_elem_of_singleton];
      [by eapply ho_delivered|subst]. by eapply sc_delivered.
  - intros i j e1 e2 Hij H1 H2 Hd. apply Hlast in H2 as [H2|[-> ->]].
    + apply Hlast in H1 as [H1|[-> _]]; [by eapply (ho_prefix _ _ Hok i j)|].
      apply lookup_lt_Some in H2. lia.
    + apply Hlast in H1 as [H1|[-> _]]; [|lia].
      apply Hseen; [by eapply sc_delivered|]. by eapply list_elem_of_lookup_2.
  - rewrite (sc_seen _ _ _ _ _ _ _ Hc). intros Hf e' Hin. bool_props.
    apply elem_of_app in Hin as [Hin|Hin%list_elem_of_singleton]; [by apply Hseen|by subst].
Qed.

Lemma history_loop_Ok turn records : forall h seen out,
  history_loop turn (length h) h seen records = Ok out -> history_ok turn h ->
  (seen = false -> forall e, e ∈ h -> o_status (h_outbox e) = Delivered) ->
  history_ok turn out /\ map h_outbox out = map h_outbox h ++ records.
Proof.
  induction records as [|r records IH]; intros h seen out Hl Hok Hseen; simpl in Hl.
  - simplify_eq. by rewrite app_nil_r.
  - destruct (history_step _ _ _ _ _) as [[e seen']|] eqn:Es; [|done].
    apply history_step_Ok in Es. pose proof (sc_outbox _ _ _ _ _ _ _ Es) as Ho. subst r.
    destruct (history_snoc _ _ _ _ _ Hok Hseen Es) as [Hok' Hseen'].
    replace (S (length h)) with (length (h ++ [e])) in Hl by (rewrite length_app; simpl; lia).
    destruct (IH _ _ _ Hl Hok' Hseen') as [Hout ->]. split; [done|].
    by rewrite map_app, <- app_assoc.
Qed.

(** A validated history covers the rows of the turn, from [Accepted] to the
    turn's current state and revision. *)
Record history_complete (db : Db) (turn : DurableTurnRecord)
    (h : list ValidatedHistoryEntry) : Prop := {
  hc_ok : history_ok turn h;
  hc_rows : collect_map materialize_outbox (turn_rows db (t_tenant_id turn) (t_turn_id turn))
            = Ok (map h_outbox h);
  hc_bound : revision (t_state turn) + 1 <= u64_max;
  hc_length : Z.of_nat (length h) = revision (t_state turn) + 1;
  hc_last : exists e, last h = Some e /\ h_state e = state (t_state turn)
}.

Lemma validate_turn_history_Ok db turn h :
  validate_turn_history db turn = Ok h -> history_complete db turn h.
Proof.
  unfold validate_turn_history. intros Hv. cbv zeta in Hv.
  destruct (collect_map _ _) as [records|] eqn:Er; [|done].
  destruct (ok_or (u64_checked_add _ _) _) as [n|] eqn:En; [|done].
  apply ok_or_Ok, u64_checked_add_Some in En as [-> Hbound].
  case_bool_decide as Hlen; [|done].
  destruct (history_loop turn 0 [] false records) as [out|] eqn:El; [|done].
  destruct (ok_or (head out) _) as [first|]; [|done].
  destruct (ok_or (last out) _) as [lst|] eqn:Elast; [|done]. apply ok_or_Ok in Elast.
  destruct (_ && _) eqn:E in Hv; [|done]. bool_props. simplify_eq.
  destruct (history_loop_Ok turn records [] false h El (history_ok_nil turn)) as [Hok Hm];
    [set_solver|]. simpl in Hm. split; [done| |lia| |eauto].
  - by rewrite Er, Hm.
  - by rewrite <- Hlen, <- Hm, length_map.
Qed.

(** Every entry of a validated history is a row of the database. *)
Lemma history_row db turn h e :
  history_complete db turn h -> e ∈ h ->
  exists c o, let k := (t_tenant_id turn, o_outbox_id (h_outbox e)) in
    c ∈ commit_order db /\ co_key c = k /\ outbox db !! k = Some o /\
    or_turn_id o = t_turn_id turn /\
    outbox_record_of k c o (verified db !! k) (h_outbox e).
Proof.
  intros [_ Hrows _ _ _] He. apply collect_map_ok in Hrows.
  assert (Hin : h_outbox e ∈ map h_outbox h) by (apply list_elem_of_fmap; eauto).
  apply list_elem_of_lookup in Hin as [i Hi].
  destruct (Forall2_lookup_r _ _ _ _ _ Hrows Hi) as (raw & Hraw & Hm).
  apply list_elem_of_lookup_2 in Hraw. unfold turn_rows, order_by_key in Hraw.
  rewrite elem_of_order_by, list_elem_of_filter in Hraw.
  destruct Hraw as [[Ht Hturn] Hsel]. unfold outbox_select in Hsel.
  apply list_elem_of_fmap in Hsel as ([c o] & -> & Hj).
  apply elem_of_outbox_join in Hj as [Hc Ho]. apply materialize_outbox_Ok in Hm.
  cbn [ro_key ro_order ro_row ro_verified fst snd] in *.
  pose proof (oro_key _ _ _ _ _ Hm) as Hk. rewrite <- Hk in Ht. simpl in Ht.
  rewrite Ht in Hk. rewrite <- Hk in Ho, Hm. eauto 10.
Qed.

(** The state of an entry is the one its row's event type names. *)
Lemma history_state db turn h e k c o v :
  history_complete db turn h -> e ∈ h -> outbox_record_of k c o v (h_outbox e) ->
  outbox_event_type_matches (or_event_type o) (state_name (h_state e)) = true.
Proof.
  intros Hh He Hof. destruct (oro_state _ _ _ _ _ Hof) as (st & Hst & Hm).
  pose proof (ho_state _ _ (hc_ok _ _ _ Hh) _ He) as Hs. unfold outbox_payload_state in Hs.
  rewrite Hst in Hs. simpl in Hs. apply parse_state_Ok in Hs. by subst.
Qed.

(** A validated history starts with an accepted turn. *)
Lemma history_genesis db turn h :
  history_complete db turn h ->
  exists oid o, outbox db !! (t_tenant_id turn, oid) = Some o /\
    or_turn_id o = t_turn_id turn /\ or_revision o = 0 /\
    outbox_event_type_matches (or_event_type o) "accepted" = true.
Proof.
  intros Hh. destruct (h !! 0%nat) as [e|] eqn:E.
  - pose proof (list_elem_of_lookup_2 _ _ _ E) as He.
    destruct (history_row _ _ _ _ Hh He) as (c & o & _ & _ & Ho & Ht & Hof).
    exists (o_outbox_id (h_outbox e)), o. split; [done|]. split; [done|]. split.
    + rewrite <- (oro_revision _ _ _ _ _ Hof). by apply (ho_revision _ _ (hc_ok _ _ _ Hh) 0%nat).
    + destruct (ho_genesis _ _ (hc_ok _ _ _ Hh) _ E) as [Hs _].
      pose proof (history_state _ _ _ _ _ _ _ _ Hh He Hof) as Hm. by rewrite Hs in Hm.
  - destruct (hc_last _ _ _ Hh) as (e & He & _). by destruct h.
Qed.

(** ** Snapshots *)

Record snapshot_ok (db : Db) (tn oid : string) (s : DispatchSnapshot) : Prop := {
  sn_turn : exists turn, load_existing db tn (o_turn_id (h_outbox (ds_target s))) = Ok turn /\
    history_complete db turn (ds_history s) /\ t_tenant_id turn = tn /\
    t_turn_id turn = o_turn_id (h_outbox (ds_target s));
  sn_target : ds_target s ∈ ds_history s;
  sn_id : o_outbox_id (h_outbox (ds_target s)) = oid;
  sn_path : validated_database_path db = Ok (ds_database_path s);
  sn_instance : validated_database_instance_id db = Ok (ds_database_instance_id s)
}.

Lemma load_dispatch_snapshot_Ok db tn oid owner token now allow s :
  load_dispatch_snapshot db tn oid owner token now allow = Ok s ->
  snapshot_ok db tn oid s /\
  (o_status (h_outbox (ds_target s)) <> Delivered ->
   tenant_outbox_head db tn = Ok (Some oid) /\
   fence (h_outbox (ds_target s)) oid owner token now = Ok tt).
Proof.
  unfold load_dispatch_snapshot. intros Hl.
  destruct (load_outbox_existing db tn oid) as [loaded|] eqn:Eo; [|done].
  destruct (load_existing _ _ _) as [turn|] eqn:Et; [|done].
  destruct (validate_turn_history _ _) as [h|] eqn:Eh; [|done].
  apply validate_turn_history_Ok in Eh.
  destruct (ok_or _ _) as [entry|] eqn:Ee in Hl; [|done]. apply ok_or_Ok in Ee.
  destruct (tenant_outbox_head db tn) as [hd|] eqn:Ehd; [|done]. cbv zeta in Hl.
  destruct (if negb _ then _ else _) as [[]|] eqn:Eg in Hl; [|done].
  destruct (from_ledger (validated_database_path db)) as [path|] eqn:Ep; [|done].
  destruct (from_ledger (validated_database_instance_id db)) as [inst|] eqn:Ei; [|done].
  apply from_ledger_Ok in Ep, Ei.
  destruct (load_tenant_verified_prefix _ _ _ _ _ _) as [pre|]; [|done].
  injection Hl as <-. cbn [ds_target ds_history ds_database_path ds_database_instance_id].
  assert (Hin : entry ∈ filter (fun e => o_outbox_id (h_outbox e) = oid) h).
  { destruct (filter _ h); [done|]. simpl in Ee. simplify_eq. set_solver. }
  apply list_elem_of_filter in Hin as [Hid Hin].
  destruct (history_row _ _ _ _ Eh Hin) as (c & o & Hc & Hk & Ho & Hturn & Hof).
  pose proof (oro_turn _ _ _ _ _ Hof) as Hot.
  apply load_outbox_existing_Ok in Eo as (c' & o' & Hc' & Hk' & Ho' & Hof').
  pose proof Et as Et'. apply load_existing_Ok in Et' as (row & Hrow & Hrec & _).
  pose proof (tro_key _ _ _ Hrec) as Hkey. injection Hkey as Hkt Hku.
  assert (Hsame : o_turn_id (h_outbox entry) = o_turn_id loaded) by congruence.
  split.
  - split; try done. exists turn. cbn [ds_target ds_history]. rewrite Hsame. done.
  - intros Hnd. rewrite (bool_decide_eq_false_2 _ Hnd) in Eg. simpl in Eg.
    case_bool_decide; [|done]. subst. split; [done|]. exact Eg.
Qed.

Lemma matches_in_connection_true commit db b :
  matches_binding_in_connection commit db b = Ok true ->
  verify_existing_idempotent_event_in_connection db (vc_public_key_bytes commit) b
  = Ok commit.
Proof.
  unfold matches_binding_in_connection. intros Hm.
  destruct (verify_existing_idempotent_event_in_connection _ _ _) as [v|]; [|done].
  injection Hm as Hm. bool_props. by subst.
Qed.

(** A row that passes revalidation has a complete history. *)
Lemma revalidate_history inst db tn oid owner token now ledger pk sv :
  revalidate_outbox_for_signing inst db tn oid owner token now ledger pk = Ok sv ->
  exists turn h o, outbox db !! (tn, oid) = Some o /\ history_complete db turn h /\
    t_tenant_id turn = tn /\ t_turn_id turn = or_turn_id o.
Proof.
  unfold revalidate_outbox_for_signing, dispatch_snapshot. intros Hr.
  do 2 (destruct (validate_lease_identity _ _) as [[]|]; [|done]).
  destruct (from_schema _) as [[]|]; [|done].
  destruct (load_dispatch_snapshot _ _ _ _ _ _ _) as [s|] eqn:Es; [|done].
  apply load_dispatch_snapshot_Ok in Es as [[(turn & _ & Hh & Htn & Ht) Htgt Hid _ _] _].
  destruct (history_row _ _ _ _ Hh Htgt) as (c & o & _ & _ & Ho & Hto & _).
  rewrite Htn, Hid in Ho. exists turn, (ds_history s), o. by rewrite Hto.
Qed.

End Lemmas.
