(* ===== verification/Dispatcher.v ===== *)
(** * The outbox dispatcher: configuration, back-off, failure handling
    ([crates/zaion-runtime/src/turn_store/dispatcher.rs])

    What a worker does when a claimed row cannot be delivered: the class of the
    failure, the bounded message that is persisted, the back-off of a retry, and
    the decision between retry, quarantine and stopping the dispatcher; the
    shared health state with its append admission and shutdown request.  The
    text of an error ([error.to_string()]) and clock readings are arguments. *)

From stdpp Require Import prelude gmap strings list.
From S2P Require Import Prelude.
From S2P Require Import Json.
From S2P Require Import TurnState.
From S2P Require Import TurnKernel.
From S2P Require Import Env.
From S2P Require Import Ingress.
From S2P Require Import Schema.
From S2P Require Import Database.
From S2P Require Import TurnRecords.
From S2P Require Import TurnStore.
From S2P Require Import Outbox.
Local Open Scope res_scope.
Local Open Scope Z_scope.

(** ** Bounded messages *)

Definition is_continuation_byte (a : Ascii.ascii) : bool :=
  in_range 128 191 (Ascii.N_of_ascii a).

(** [str::is_char_boundary] on UTF-8 bytes. *)
Definition is_char_boundary (s : string) (i : nat) : bool :=
  match String.get i s with
  | Some a => negb (is_continuation_byte a)
  | None => bool_decide (i = String.length s)
  end.

(** [while !message.is_char_boundary(end) { end -= 1; }] *)
Fixpoint boundary_before (s : string) (i : nat) : nat :=
  if is_char_boundary s i then i
  else match i with
       | O => O
       | S i' => boundary_before s i'
       end.

Lemma boundary_before_spec s i :
  (boundary_before s i <= i)%nat /\
  (is_char_boundary s (boundary_before s i) = true \/ boundary_before s i = O) /\
  forall j, (boundary_before s i < j <= i)%nat -> is_char_boundary s j = false.
Proof.
  induction i as [|i IH]; simpl.
  - destruct (is_char_boundary s 0) eqn:E; (split; [lia|]; split; [tauto|intros; lia]).
  - destruct (is_char_boundary s (S i)) eqn:E.
    + split; [lia|]. split; [tauto|]. intros; lia.
    + destruct IH as (H1 & H2 & H3). split; [lia|]. split; [done|].
      intros j Hj. destruct (decide (j = S i)) as [->|]; [done|]. apply H3. lia.
Qed.

Definition bounded_error_message (message : string) : string :=
  if bool_decide (str_len message <= MAX_OUTBOX_ERROR_BYTES) then
    if bool_decide (message = EmptyString)
    then "unspecified outbox dispatcher failure" else message
  else str_prefix (boundary_before message (Z.to_nat MAX_OUTBOX_ERROR_BYTES)) message.

(** [OutboxDispatchFailure::new] *)
Definition failure_new (phase : OutboxDispatchPhase) (class : OutboxDispatchFailureClass)
    (code : OutboxDispatchFailureCode) (message : string) : OutboxDispatchFailure :=
  {| f_phase := phase; f_class := class; f_code := code;
     f_message := bounded_error_message message |}.

(** ** Configuration *)

(** Durations are nanoseconds; the percentage is a [u8]. *)
Record OutboxDispatcherConfig : Type := {
  worker_count : Z;
  tenant_scan_limit : Z;
  lease_duration : Z;
  poll_interval : Z;
  initial_retry_delay : Z;
  maximum_retry_delay : Z;
  minimum_commit_window : Z;
  shutdown_timeout : Z;
  retry_jitter_percent : Z;
  maximum_attempts : Z
}.

Definition default_config : OutboxDispatcherConfig :=
  {| worker_count := 2; tenant_scan_limit := 128;
     lease_duration := 30 * nanos_per_second;
     poll_interval := 100 * nanos_per_milli;
     initial_retry_delay := 250 * nanos_per_milli;
     maximum_retry_delay := 30 * nanos_per_second;
     minimum_commit_window := 12 * nanos_per_second;
     shutdown_timeout := 15 * nanos_per_second;
     retry_jitter_percent := 20; maximum_attempts := 8 |}.

(** [OutboxDispatcherConfig::validate]: the error is the message of
    [InvalidConfig]. *)
Definition config_validate (c : OutboxDispatcherConfig) : result string unit :=
  guard? bool_decide (1 <= worker_count c <= 32)
    else "worker_count must be between 1 and 32" in
  guard? negb (bool_decide (tenant_scan_limit c = 0)
               || bool_decide (10000 < tenant_scan_limit c))
    else "tenant_scan_limit must be between 1 and 10000" in
  guard? bool_decide (nanos_per_second <= lease_duration c
                      <= MAX_OUTBOX_LEASE_SECONDS * nanos_per_second)
    else "lease_duration is outside the TurnStore lease boundary" in
  guard? negb (bool_decide (poll_interval c = 0)) else "poll_interval must be non-zero" in
  guard? negb (bool_decide (initial_retry_delay c = 0)
               || bool_decide (maximum_retry_delay c < initial_retry_delay c))
    else "retry delays must be non-zero and monotonically bounded" in
  guard? negb (bool_decide (minimum_commit_window c = 0)
               || bool_decide (lease_duration c <= minimum_commit_window c))
    else "minimum_commit_window must be non-zero and shorter than lease_duration" in
  guard? negb (bool_decide (shutdown_timeout c = 0)
               || bool_decide (30 * nanos_per_second < shutdown_timeout c))
    else "shutdown_timeout must be between 1 nanosecond and 30 seconds" in
  guard? bool_decide (retry_jitter_percent c <= 100)
    else "retry_jitter_percent must not exceed 100" in
  guard? negb (bool_decide (maximum_attempts c = 0)
               || bool_decide (10000 < maximum_attempts c))
    else "maximum_attempts must be between 1 and 10000" in
  Ok tt.

(** ** Back-off *)

Definition u128_max : Z := 340282366920938463463374607431768211455.
Definition u128_saturating_mul (a b : Z) : Z := Z.min (a * b) u128_max.
Definition u128_saturating_add (a b : Z) : Z := Z.min (a + b) u128_max.

(** [Duration::as_millis] *)
Definition as_millis (nanos : Z) : Z := nanos / nanos_per_milli.

(** [uN::from_le_bytes] *)
Fixpoint from_le_bytes (s : string) : Z :=
  match s with
  | EmptyString => 0
  | String a s' => Z.of_N (Ascii.N_of_ascii a) + 256 * from_le_bytes s'
  end.

Section Dispatcher.
Context `{Env}.

Definition base_ms (config : OutboxDispatcherConfig) (attempts : Z) : Z :=
  let exponent := Z.min (Z.max (attempts - 1) 0) 31 in
  let multiplier := Z.shiftl 1 exponent in
  Z.min (u128_saturating_mul (as_millis (initial_retry_delay config)) multiplier)
        (as_millis (maximum_retry_delay config)).

Definition jitter_limit (config : OutboxDispatcherConfig) (base : Z) : Z :=
  u128_saturating_mul base (retry_jitter_percent config) / 100.

Definition jitter (claim : TurnOutboxRecord) (limit : Z) : Z :=
  if bool_decide (limit = 0) then 0
  else
    let digest := sha256 (o_outbox_id claim +:+ le_bytes 8 (o_attempts claim)) in
    from_le_bytes (str_prefix 8 digest) mod (limit + 1).

(** [retry_delay], in milliseconds. *)
Definition retry_delay (config : OutboxDispatcherConfig) (claim : TurnOutboxRecord) : Z :=
  let base := base_ms config (o_attempts claim) in
  let j := jitter claim (jitter_limit config base) in
  Z.min (u128_saturating_add base j) u64_max.

(** When a retry becomes available: [now + Duration::from_std(retry_delay(..))
    .expect(..)].  The conversion fails above [i64::MAX] milliseconds and the
    addition when it leaves the calendar; [None] is the panic. *)
Definition retry_at (config : OutboxDispatcherConfig) (claim : TurnOutboxRecord) (now : Z)
  : option Z :=
  if bool_decide (retry_delay config claim <= i64_max)
  then checked_add_signed now (retry_delay config claim * nanos_per_milli)
  else None.

(** ** Classification *)

Definition classify_sqlite_error (phase : OutboxDispatchPhase) (error : SqliteError)
    (busy_code fatal_code : OutboxDispatchFailureCode) (text : string)
  : OutboxDispatchFailure :=
  let busy := match error with DatabaseBusy | DatabaseLocked => true | _ => false end in
  failure_new phase (if busy then Retryable else Fatal)
    (if busy then busy_code else fatal_code) text.

Definition classify_io_error (phase : OutboxDispatchPhase) (kind : IoErrorKind)
    (code : OutboxDispatchFailureCode) (text : string) : OutboxDispatchFailure :=
  let retryable := match kind with
                   | Interrupted | WouldBlock | TimedOut => true
                   | OtherIo => false
                   end in
  failure_new phase (if retryable then Retryable else Fatal) code text.

Definition classify_ledger_error (phase : OutboxDispatchPhase) (error : LedgerError)
    (text : string) : OutboxDispatchFailure :=
  match error with
  | LedgerSqlite e => classify_sqlite_error phase e LedgerBusy InfrastructureFailure text
  | LedgerIo kind => classify_io_error phase kind LedgerIoCode text
  | NotFound _ | CorruptPayload _ | Serialization | LedgerInvalidIdempotencyKey
  | EventIdConflict _ | EventBindingPrincipalMismatch _ _ | EventBindingMismatch _
  | EventBindingSignatureInvalid | EventBindingNonCanonicalSignature =>
      failure_new phase Permanent LedgerIntegrity text
  | EventBindingUnsupportedLedgerPath _ | InvalidDatabaseInstanceIdentity _
  | DatabaseInstanceIdentityDrift _ _ | CorruptChain _ =>
      failure_new phase Fatal InfrastructureFailure text
  end.

Definition classify_turn_store_error (phase : OutboxDispatchPhase)
    (error : TurnStoreError) (text : string) : OutboxDispatchFailure :=
  match error with
  | Sqlite e => classify_sqlite_error phase e StoreBusy InfrastructureFailure text
  | Io kind => classify_io_error phase kind StoreIo text
  | Ledger e => classify_ledger_error phase e text
  | OutboxLeaseLost _ _ | OutboxLeaseExpired _ | OutboxOrderConflict _ | CasLost =>
      failure_new phase LeaseLostClass LeaseLostCode text
  | HashMismatch _ | RecordBindingMismatch _ | CorruptState _ | CorruptOutboxStatus _
  | CorruptRevision _ | CorruptTimestamp _ _ | Json | OutboxHistoryIncomplete _
  | OutboxHistoryRevision _ _ | OutboxHistoryGenesis _ | OutboxHistoryPreviousState _
  | OutboxHistoryIllegalTransition _ _ _ | OutboxHistoryCurrentTurn _
  | OutboxDeliveredPrefix _ | OutboxLedgerEventMismatch _ | OutboxCommitMismatch _
  | OutboxPrincipalMismatch | OutboxSignerEvidenceMissing _ =>
      failure_new phase Permanent StoreIntegrity text
  | MutexPoisoned | SchemaIntegrity _ | OutboxLedgerPathMismatch
  | OutboxLedgerInstanceMismatch | InvalidOutboxLeaseDuration | OutboxErrorTooLong
  | OutboxRetryTimeInvalid | OutboxAttemptsExhausted | OutboxLeaseTimeOverflow
  | CommitOrdinalExhausted | OutboxCompletionTimeInvalid | NonMonotonicTimestamp =>
      failure_new phase Fatal InfrastructureFailure text
  | _ => failure_new phase Fatal StoreIntegrity text
  end.

Inductive OutboxSignerResolveError : Type :=
| Missing (principal : string)
| Unavailable (reason : string)
| Invalid (reason : string).

Definition classify_signer_error (error : OutboxSignerResolveError) (text : string)
  : OutboxDispatchFailure :=
  match error with
  | Missing _ => failure_new PResolveSigner Retryable SignerMissing text
  | Unavailable _ => failure_new PResolveSigner Retryable SignerUnavailable text
  | Invalid _ => failure_new PResolveSigner Permanent SignerInvalid text
  end.

(** ** Shared state *)

Inductive OutboxDispatcherLifecycle : Type := LRunning | LStopping | LStopped | LFailed.

#[export] Instance OutboxDispatcherLifecycle_eq_dec :
  EqDecision OutboxDispatcherLifecycle.
Proof. solve_decision. Defined.

Record OutboxDispatcherLastError : Type := {
  l_tenant_id : option string;
  l_outbox_id : option string;
  l_occurred_at : Z;
  l_failure : OutboxDispatchFailure
}.

(** [RuntimeHealth], the shutdown flag and [AppendAdmissionState]. *)
Record DispatcherShared : Type := {
  lifecycle : OutboxDispatcherLifecycle;
  running_workers : Z;
  successes : Z;
  retries : Z;
  h_dead_letters : Z;
  last_error : option OutboxDispatcherLastError;
  shutdown : bool;
  accepting : bool;
  in_flight : Z
}.

Definition u64_saturating_add (a b : Z) : Z := Z.min (a + b) u64_max.

(** The state [OutboxDispatcher::start] creates. *)
Definition initial_shared : DispatcherShared :=
  {| lifecycle := LRunning; running_workers := 0; successes := 0; retries := 0;
     h_dead_letters := 0; last_error := None; shutdown := false; accepting := true;
     in_flight := 0 |}.

(** A worker counts itself in at the start of [worker_loop]. *)
Definition worker_started (s : DispatcherShared) : DispatcherShared :=
  {| lifecycle := lifecycle s;
     running_workers := u64_saturating_add (running_workers s) 1;
     successes := successes s; retries := retries s; h_dead_letters := h_dead_letters s;
     last_error := last_error s; shutdown := shutdown s; accepting := accepting s;
     in_flight := in_flight s |}.

(** The end of [dispatch_claim] after a completed row. *)
Definition count_success (s : DispatcherShared) : DispatcherShared :=
  {| lifecycle := lifecycle s; running_workers := running_workers s;
     successes := u64_saturating_add (successes s) 1; retries := retries s;
     h_dead_letters := h_dead_letters s; last_error := last_error s;
     shutdown := shutdown s; accepting := accepting s; in_flight := in_flight s |}.

Definition set_last_error (s : DispatcherShared) (e : OutboxDispatcherLastError)
  : DispatcherShared :=
  {| lifecycle := lifecycle s; running_workers := running_workers s;
     successes := successes s; retries := retries s; h_dead_letters := h_dead_letters s;
     last_error := Some e; shutdown := shutdown s; accepting := accepting s;
     in_flight := in_flight s |}.

Definition last_error_of (claim : TurnOutboxRecord) (now : Z)
    (failure : OutboxDispatchFailure) : OutboxDispatcherLastError :=
  {| l_tenant_id := Some (o_tenant_id claim); l_outbox_id := Some (o_outbox_id claim);
     l_occurred_at := now; l_failure := failure |}.

Definition record_failure (s : DispatcherShared) (tenant_id outbox_id : option string)
    (now : Z) (failure : OutboxDispatchFailure) : DispatcherShared :=
  set_last_error s {| l_tenant_id := tenant_id; l_outbox_id := outbox_id;
                      l_occurred_at := now; l_failure := failure |}.

(** The health part of [fail_dispatcher], then its flag. *)
Definition fail_health (s : DispatcherShared) (e : OutboxDispatcherLastError)
  : DispatcherShared :=
  {| lifecycle := LFailed; running_workers := running_workers s;
     successes := successes s; retries := retries s; h_dead_letters := h_dead_letters s;
     last_error := Some e; shutdown := shutdown s; accepting := accepting s;
     in_flight := in_flight s |}.

Definition set_shutdown (s : DispatcherShared) : DispatcherShared :=
  {| lifecycle := lifecycle s; running_workers := running_workers s;
     successes := successes s; retries := retries s; h_dead_letters := h_dead_letters s;
     last_error := last_error s; shutdown := true; accepting := accepting s;
     in_flight := in_flight s |}.

Definition fail_dispatcher (s : DispatcherShared) (tenant_id outbox_id : option string)
    (now : Z) (failure : OutboxDispatchFailure) : DispatcherShared :=
  set_shutdown (fail_health s {| l_tenant_id := tenant_id; l_outbox_id := outbox_id;
                                 l_occurred_at := now; l_failure := failure |}).

Definition worker_stopped (s : DispatcherShared) (now : Z) : DispatcherShared :=
  let n := Z.max (running_workers s - 1) 0 in
  let stopped :=
    {| lifecycle := lifecycle s; running_workers := n; successes := successes s;
       retries := retries s; h_dead_letters := h_dead_letters s;
       last_error := last_error s; shutdown := shutdown s; accepting := accepting s;
       in_flight := in_flight s |} in
  if bool_decide (n = 0) && bool_decide (lifecycle s = LRunning) then
    {| lifecycle := LFailed; running_workers := n; successes := successes s;
       retries := retries s; h_dead_letters := h_dead_letters s;
       last_error := Some {| l_tenant_id := None; l_outbox_id := None;
         l_occurred_at := now;
         l_failure := failure_new PClaim Fatal InfrastructureFailure
           "all outbox dispatcher workers exited without a shutdown request" |};
       shutdown := shutdown s; accepting := accepting s; in_flight := in_flight s |}
  else stopped.

(** [admit_append]: [None] when appends are no longer admitted. *)
Definition admit_append (s : DispatcherShared) : option DispatcherShared :=
  if negb (accepting s) || shutdown s then None
  else Some {| lifecycle := lifecycle s; running_workers := running_workers s;
               successes := successes s; retries := retries s;
               h_dead_letters := h_dead_letters s; last_error := last_error s;
               shutdown := shutdown s; accepting := accepting s;
               in_flight := u64_saturating_add (in_flight s) 1 |}.

(** Dropping an [AppendPermit]. *)
Definition drop_permit (s : DispatcherShared) : DispatcherShared :=
  {| lifecycle := lifecycle s; running_workers := running_workers s;
     successes := successes s; retries := retries s; h_dead_letters := h_dead_letters s;
     last_error := last_error s; shutdown := shutdown s; accepting := accepting s;
     in_flight := Z.max (in_flight s - 1) 0 |}.

Definition request_shutdown (s : DispatcherShared) : DispatcherShared :=
  let first_request := negb (shutdown s) in
  {| lifecycle := if first_request && bool_decide (lifecycle s = LRunning)
                  then LStopping else lifecycle s;
     running_workers := running_workers s; successes := successes s;
     retries := retries s; h_dead_letters := h_dead_letters s;
     last_error := last_error s; shutdown := true; accepting := false;
     in_flight := in_flight s |}.

(** ** The end of [shutdown_before] *)

Inductive OutboxDispatcherError : Type :=
| InvalidConfig (message : string)
| WorkerPanicked
| WorkerFailed (message : string)
| ShutdownTimedOut (remaining_workers : nat).

Definition with_health (s : DispatcherShared) (l : OutboxDispatcherLifecycle)
    (e : option OutboxDispatcherLastError) : DispatcherShared :=
  {| lifecycle := l; running_workers := running_workers s; successes := successes s;
     retries := retries s; h_dead_letters := h_dead_letters s; last_error := e;
     shutdown := shutdown s; accepting := accepting s; in_flight := in_flight s |}.

Definition timed_out_error (e : OutboxDispatcherLastError) : bool :=
  bool_decide (f_code (l_failure e) = ShutdownTimeout).

(** The health record after the last reap, and the result; [text] is the message
    of a time-out. *)
Definition close_health (s : DispatcherShared) (panicked : bool) (remaining : nat)
    (now : Z) (text : nat -> string) : DispatcherShared :=
  if panicked || bool_decide (0 < remaining)%nat then
    with_health s LFailed
      (if bool_decide (0 < remaining)%nat
          && match last_error s with None => true | Some e => timed_out_error e end
       then Some {| l_tenant_id := None; l_outbox_id := None; l_occurred_at := now;
                    l_failure := failure_new PResolveSigner Fatal ShutdownTimeout
                                   (text remaining) |}
       else last_error s)
  else if negb (bool_decide (lifecycle s = LFailed))
          || is_some_and timed_out_error (last_error s)
  then with_health s LStopped (last_error s)
  else s.

Definition shutdown_result (s : DispatcherShared) (panicked : bool) (remaining : nat)
  : result OutboxDispatcherError unit :=
  if panicked then Err WorkerPanicked
  else if bool_decide (0 < remaining)%nat then Err (ShutdownTimedOut remaining)
  else if bool_decide (lifecycle s = LFailed) then
    Err (WorkerFailed (match last_error s with
                       | Some e => f_message (l_failure e)
                       | None => "worker pool failed without structured detail"
                       end))
  else Ok tt.

(** ** Handling a failed claim *)

Definition monotonic_now (claim : TurnOutboxRecord) (now : Z) : Z :=
  Z.max now (o_updated_at claim).

(** After a failed persist: a fatal one stops the dispatcher. *)
Definition persist_failed (s : DispatcherShared) (claim : TurnOutboxRecord) (now : Z)
    (failure : OutboxDispatchFailure) : DispatcherShared :=
  if bool_decide (f_class failure = Fatal)
  then fail_dispatcher s (Some (o_tenant_id claim)) (Some (o_outbox_id claim)) now failure
  else record_failure s (Some (o_tenant_id claim)) (Some (o_outbox_id claim)) now failure.

Definition count_dead_letter (s : DispatcherShared) (e : OutboxDispatcherLastError)
  : DispatcherShared :=
  {| lifecycle := lifecycle s; running_workers := running_workers s;
     successes := successes s; retries := retries s;
     h_dead_letters := u64_saturating_add (h_dead_letters s) 1; last_error := Some e;
     shutdown := shutdown s; accepting := accepting s; in_flight := in_flight s |}.

Definition count_retry (s : DispatcherShared) (e : OutboxDispatcherLastError)
  : DispatcherShared :=
  {| lifecycle := lifecycle s; running_workers := running_workers s;
     successes := successes s; retries := u64_saturating_add (retries s) 1;
     h_dead_letters := h_dead_letters s; last_error := Some e;
     shutdown := shutdown s; accepting := accepting s; in_flight := in_flight s |}.

(** [handle_claim_failure]: [text] renders an error of the store; a failed store
    operation leaves the database as it was; [None] is a panic of the worker. *)
Definition handle_claim_failure (config : OutboxDispatcherConfig) (s : DispatcherShared)
    (db : Db) (claim : TurnOutboxRecord) (now : Z) (failure : OutboxDispatchFailure)
    (text : TurnStoreError -> string) : option (DispatcherShared * Db) :=
  let at_ := monotonic_now claim now in
  let tenant := Some (o_tenant_id claim) in
  let id := Some (o_outbox_id claim) in
  let quarantine_ exhausted :=
    match quarantine_outbox db claim failure exhausted at_ with
    | Ok (_, db') => (count_dead_letter s (last_error_of claim at_ failure), db')
    | Err e => (persist_failed s claim now
                  (classify_turn_store_error PQuarantinePersist e (text e)), db)
    end in
  match f_class failure with
  | Fatal => Some (fail_dispatcher s tenant id now failure, db)
  | LeaseLostClass => Some (record_failure s tenant id now failure, db)
  | Permanent => Some (quarantine_ false)
  | Retryable =>
      if bool_decide (maximum_attempts config <= o_attempts claim)
      then Some (quarantine_ true)
      else
        match retry_at config claim at_ with
        | None => None
        | Some available_at =>
            Some match release_outbox db (o_tenant_id claim) (o_outbox_id claim)
                         (default "missing" (o_lease_owner claim))
                         (default "missing" (o_lease_token claim)) at_ available_at
                         (f_message failure) with
                 | Ok db' => (count_retry s (last_error_of claim at_ failure), db')
                 | Err e => (persist_failed s claim now
                               (classify_turn_store_error PRetryPersist e (text e)), db)
                 end
        end
  end.

(** [handle_post_append_failure] *)
Definition handle_post_append_failure (config : OutboxDispatcherConfig)
    (s : DispatcherShared) (db : Db) (claim : TurnOutboxRecord) (now : Z)
    (failure : OutboxDispatchFailure) (text : TurnStoreError -> string)
  : option (DispatcherShared * Db) :=
  if shutdown s && bool_decide (f_class failure = Retryable)
  then Some (fail_dispatcher s (Some (o_tenant_id claim)) (Some (o_outbox_id claim)) now
               failure, db)
  else handle_claim_failure config s db claim now failure text.

(** [defer_for_shutdown] *)
Definition defer_for_shutdown (s : DispatcherShared) (db : Db) (claim : TurnOutboxRecord)
    (now : Z) (text : TurnStoreError -> string) : DispatcherShared * Db :=
  let at_ := monotonic_now claim now in
  match o_lease_owner claim, o_lease_token claim with
  | Some lease_owner, Some lease_token =>
      match release_outbox db (o_tenant_id claim) (o_outbox_id claim) lease_owner
              lease_token at_ at_ "dispatcher shutdown before signed append" with
      | Ok db' => (s, db')
      | Err e =>
          let failure := classify_turn_store_error PRetryPersist e (text e) in
          (if bool_decide (f_class failure = LeaseLostClass) then s
           else record_failure s (Some (o_tenant_id claim)) (Some (o_outbox_id claim))
                  now failure, db)
      end
  | _, _ => (s, db)
  end.

End Dispatcher.
