(* ===== verification/StoreSteps.v ===== *)
(** * The operations as sequences of small database steps

    [micro] is the step relation of the durable state: a new actor row, an
    admitted turn, a changed turn (each with its outbox row and commit ordinal), a
    cleared actor, an updated outbox row, verified evidence, quarantine evidence,
    ledger events.  Every successful operation of the store, the outbox and the
    dispatcher's persistence is a sequence of such steps; the invariants of the
    database are proved on the steps. *)

From stdpp Require Import prelude gmap strings list relations.
From S2P Require Import Prelude.
From S2P Require Import Json.
From S2P Require Import TurnState.
From S2P Require Import TurnKernel.
From S2P Require Import Env.
From S2P Require Import Ingress.
From S2P Require Import Schema.
From S2P Require Import Database.
From S2P Require Import Ledger.
From S2P Require Import LedgerChain.
From S2P Require Import Binding.
From S2P Require Import TurnRecords.
From S2P Require Import TurnStore.
From S2P Require Import StoreLemmas.
From S2P Require Import Outbox.
From S2P Require Import OutboxLemmas.
From S2P Require Import Dispatch.
From S2P Require Import DispatchLemmas.
Local Open Scope res_scope.
Local Open Scope Z_scope.

(** The columns of an outbox row no operation rewrites. *)
Definition same_entry (o o' : OutboxRow) : Prop :=
  or_turn_id o' = or_turn_id o /\ or_revision o' = or_revision o /\
  or_event_type o' = or_event_type o /\ or_payload_json o' = or_payload_json o /\
  or_payload_hash o' = or_payload_hash o /\ or_created_at_ms o' = or_created_at_ms o.

Section Steps.
Context `{Env}.

(** The signed ledger event behind a delivered row: it is in the ledger under the
    identifier the row and its evidence name, and proves, under the recorded key,
    the row's type and payload for the principal, session and turn of its turn. *)
Definition ledger_proof (db : Db) (k : Key) (v : VerifiedRow) (o : OutboxRow) : Prop :=
  or_ledger_event_id o = Some (vr_ledger_event_id v) /\
  exists e b row, e ∈ events db /\ ev_event_id e = vr_ledger_event_id v /\
    row_proves e (vr_signer_public_key v) b /\
    b_principal_id b = principal_id_from_public_key (vr_signer_public_key v) /\
    b_idempotency_key b = k.2 /\ b_event_type b = or_event_type o /\
    b_run_id b = Some (or_turn_id o) /\
    json_from_str (or_payload_json o) = Some (b_payload b) /\
    turns db !! (k.1, or_turn_id o) = Some row /\
    b_principal_id b = tr_principal_id row /\ b_namespace_key b = tr_session_id row.

(** The turn of the row entered the log accepted. *)
Definition genesis_accepted (db : Db) (tn t : string) : Prop :=
  exists oid o, outbox db !! (tn, oid) = Some o /\ or_turn_id o = t /\ or_revision o = 0 /\
    outbox_event_type_matches (or_event_type o) "accepted" = true.

(** The database with a turn row and an actor row replaced. *)
Definition with_turn_actor (db : Db) (kt : Key) (row : TurnRow) (ka : Key) (a : ActorRow)
  : Db :=
  with_actors (with_turns db (<[kt := row]> (turns db))) (<[ka := a]> (actors db)).

(** A turn was admitted under a free actor. *)
Record admitted (db : Db) (tn t : string) (row : TurnRow) (a a' : ActorRow)
    (s : TurnState) (rec : DurableTurnRecord) (now : Z) (db' : Db) : Prop := {
  adm_fresh : turns db !! (tn, t) = None;
  adm_key : forall k' r', turns db !! k' = Some r' -> k'.1 = tn ->
    tr_idempotency_key r' <> tr_idempotency_key row;
  adm_state : tr_state row = state_name s;
  adm_initial : s = Accepted \/ s = WaitingApproval;
  adm_revision : tr_revision row = 0;
  adm_actor : actors db !! (tn, tr_actor_key row) = Some a;
  adm_free : ar_active_turn_id a = None;
  adm_busy : ar_active_turn_id a' = Some t;
  adm_record : turn_record_of (tn, t) row rec;
  adm_outbox : outbox_inserted
    (with_turn_actor db (tn, t) row (tn, tr_actor_key row) a') rec None None now db'
}.

(** The active turn of an actor changed its state. *)
Record changed (db : Db) (tn t : string) (row : TurnRow) (a a' : ActorRow)
    (s s' : TurnState) (tj th : option string) (rec : DurableTurnRecord) (now : Z)
    (db' : Db) : Prop := {
  chg_row : turns db !! (tn, t) = Some row;
  chg_from : tr_state row = state_name s;
  chg_table : can_transition_to s s' = true;
  chg_actor : actors db !! (tn, tr_actor_key row) = Some a;
  chg_active : ar_active_turn_id a = Some t;
  chg_lease : ar_active_turn_id a' = if is_terminal s' then None else Some t;
  chg_record : turn_record_of (tn, t)
    (set_turn s' (tr_revision row + 1) tj th now row) rec;
  chg_outbox : outbox_inserted
    (with_turn_actor db (tn, t) (set_turn s' (tr_revision row + 1) tj th now row)
       (tn, tr_actor_key row) a') rec (Some s) th now db'
}.

(** An outbox row reads back. *)
Definition reads (db : Db) (k : Key) : Prop :=
  exists rec, load_outbox_existing db k.1 k.2 = Ok rec.

(** The validation behind a delivery: the whole history of the row's turn was
    accepted, and the ledger event of the row's binding verified under the recorded
    key, in the recorded instance. *)
Definition delivery_checked (db : Db) (k : Key) (o : OutboxRow) (v : VerifiedRow) : Prop :=
  exists turn h e commit,
    load_existing db k.1 (or_turn_id o) = Ok turn /\ history_complete db turn h /\
    e ∈ h /\ o_outbox_id (h_outbox e) = k.2 /\
    verify_existing_idempotent_event_in_connection db (vr_signer_public_key v) (h_binding e)
    = Ok commit /\
    vc_event_id commit = vr_ledger_event_id v /\
    vc_database_instance_id commit = vr_database_instance_id v.

(** The clock did not go back behind the stored time. *)
Definition not_before (ms now : Z) : Prop :=
  exists t, timestamp_millis_opt ms = Some t /\ t <= now.

Inductive micro (db : Db) : Db -> Prop :=
| m_actor k a :
    actors db !! k = None -> ar_active_turn_id a = None ->
    micro db (with_actors db (<[k := a]> (actors db)))
| m_admit tn t row a a' s rec now db' :
    admitted db tn t row a a' s rec now db' ->
    materialize_turn (tn, t) row = Ok rec ->
    tr_created_at_ms row = timestamp_millis now /\ tr_updated_at_ms row = timestamp_millis now ->
    micro db db'
| m_change tn t row a a' s s' tj th rec now db' :
    changed db tn t row a a' s s' tj th rec now db' ->
    materialize_turn (tn, t) (set_turn s' (tr_revision row + 1) tj th now row) = Ok rec ->
    not_before (tr_updated_at_ms row) now -> micro db db'
| m_clear k a a' t row s :
    actors db !! k = Some a -> ar_active_turn_id a = Some t ->
    turns db !! (k.1, t) = Some row -> tr_state row = state_name s ->
    is_terminal s = true -> ar_active_turn_id a' = None ->
    micro db (with_actors db (<[k := a']> (actors db)))
| m_outbox k c o o' :
    queue_head db k c o -> same_entry o o' -> or_status o' <> "delivered" ->
    quarantine db !! k = None \/ or_status o = "leased" ->
    reads (with_outbox db (<[k := o']> (outbox db))) k ->
    micro db (with_outbox db (<[k := o']> (outbox db)))
| m_deliver k c o v now :
    queue_head db k c o -> or_status o = "leased" -> verified db !! k = None ->
    ledger_proof db k v (set_delivered (vr_ledger_event_id v) now o) ->
    genesis_accepted db k.1 (or_turn_id o) -> delivery_checked db k o v ->
    reads (with_outbox (with_verified db (<[k := v]> (verified db)))
             (<[k := set_delivered (vr_ledger_event_id v) now o]> (outbox db))) k ->
    micro db (with_outbox (with_verified db (<[k := v]> (verified db)))
                (<[k := set_delivered (vr_ledger_event_id v) now o]> (outbox db)))
| m_verified k v o :
    verified db !! k = None -> outbox db !! k = Some o -> or_status o = "delivered" ->
    or_ledger_event_id o = Some (vr_ledger_event_id v) ->
    micro db (with_verified db (<[k := v]> (verified db)))
| m_quarantine k c o q now err :
    queue_head db k c o -> quarantine db !! k = None ->
    reads (with_outbox (with_quarantine db (<[k := q]> (quarantine db)))
             (<[k := set_pending now now err o]> (outbox db))) k ->
    quarantine_guard_ok db k q = true ->
    micro db (with_outbox (with_quarantine db (<[k := q]> (quarantine db)))
                (<[k := set_pending now now err o]> (outbox db)))
| m_event ev policy db' :
    append_prepared_event db ev policy = Ok (true, db') -> micro db db'.

Lemma m_event_shape db ev policy db' :
  append_prepared_event db ev policy = Ok (true, db') ->
  exists row, db' = with_events db (events db ++ [row]).
Proof. intros Ha. apply append_inserted in Ha as (seq & prev & _ & _ & ->). by eexists. Qed.

Definition micros : Db -> Db -> Prop := rtc micro.

Lemma micros_trans db1 db2 db3 : micros db1 db2 -> micros db2 db3 -> micros db1 db3.
Proof. unfold micros. intros. by etrans. Qed.

(** ** Admission and transitions *)

Lemma ensure_actor_row_Ok db actor now db' :
  ensure_actor_row db actor now = Ok db' -> micros db db'.
Proof.
  unfold ensure_actor_row. intros He. destruct (from_sqlite _) as [d|] eqn:Ed; [|done].
  apply from_sqlite_Ok in Ed. ok_inv He. subst. unfold insert_actor in Ed.
  destruct (actors db !! _) eqn:Ea; [by simplify_eq|].
  destruct (actor_check _); simplify_eq. apply rtc_once. by apply m_actor.
Qed.

(** The lease of an actor row is not over. *)
Definition lease_live (a : ActorRow) (now : Z) : Prop :=
  exists ms until, ar_lease_until_ms a = Some ms /\ timestamp_millis_opt ms = Some until /\
    now < until.

Lemma lease_until_Ok a now until :
  transpose_map (parse_timestamp "lease_until_ms") (ar_lease_until_ms a) = Ok (Some until) ->
  now < until -> lease_live a now.
Proof.
  unfold lease_live. destruct (ar_lease_until_ms a) as [ms|]; [|done]. simpl. unfold parse_timestamp.
  destruct (timestamp_millis_opt ms) eqn:E; intros; simplify_eq/=. eauto.
Qed.

Lemma transition_inner_Ok db tn t owner es er next tres now rec db' :
  transition_inner db tn t owner es er next tres now = Ok (rec, db') ->
  exists row a, let tj := (fun e => canonical_json (execution_to_value e)) <$> tres in
    changed db tn t row a
      (set_lease (if is_terminal next then None else Some t)
         (if is_terminal next then None else Some owner)
         (if is_terminal next then None else Some (timestamp_millis (t_deadline rec))) now a)
      es next tj (sha256_text <$> tj) rec now db' /\
    tr_revision row = er /\ ar_lease_owner a = Some owner /\ lease_live a now /\
    materialize_turn (tn, t) (set_turn next (tr_revision row + 1) tj (sha256_text <$> tj) now row)
    = Ok rec /\ not_before (tr_updated_at_ms row) now.
Proof.
  unfold transition_inner. intros Ht. cbv zeta in Ht.
  destruct (validate_lease_identity _ _) as [[]|]; [|done].
  destruct (load_existing db tn t) as [cur|] eqn:El; [|done].
  apply load_existing_Ok in El as (row & Hrow & Hof & _).
  destruct (negb _) eqn:Enow in Ht; [|done]. destruct (verify_actor_lease _ _ _ _) as [[]|] eqn:Elease; [|done].
  apply verify_actor_lease_Ok in Elease as (a0 & until & Ha0 & _ & _ & Hu & Hlt).
  destruct (compare_and_transition _ _ _ _) as [v'|] eqn:Ec; [|done].
  apply compare_and_transition_ok in Ec as (Hrev & Hst & Htab & Hr & ->).
  destruct (revision_to_i64 er) as [z1|] eqn:E1; [|done]. apply revision_to_i64_Ok in E1 as [-> _].
  destruct (revision_to_i64 _) as [z2|] eqn:E2 in Ht; [|done].
  apply revision_to_i64_Ok in E2 as [-> _]. simpl in Ht.
  destruct (cas_turn _ _ _ _ _) as [db1|] eqn:E3; [|done].
  apply cas_turn_Ok in E3 as (row1 & Hrow1 & Hs1 & Hr1 & ->).
  rewrite Hrow in Hrow1. injection Hrow1 as <-.
  destruct (update_actor_after_transition _ _ _ _ _) as [db2|] eqn:E4; [|done].
  apply update_actor_after_transition_Ok in E4 as (a & Ha & Hact & Hown & ->).
  pose proof (tro_key _ _ _ Hof) as Hkey. injection Hkey as Hk1 Hk2.
  destruct (load_existing _ tn t) as [rec'|] eqn:E5; [|done].
  destruct (insert_outbox _ _ _ _ _) as [db3|] eqn:E6; [|done]. simplify_eq.
  apply load_existing_Ok in E5 as (row2 & Hrow2 & Hof2 & Hmat).
  cbn [turns with_actors with_turns] in Hrow2. rewrite lookup_insert_eq in Hrow2.
  injection Hrow2 as <-. apply insert_outbox_Ok in E6.
  rewrite (tro_actor _ _ _ Hof) in Ha, Ha0, E6. cbn [actors with_turns] in Ha, E6.
  rewrite Ha in Ha0. injection Ha0 as <-.
  assert (Hd : t_deadline rec = t_deadline cur).
  { pose proof (tro_deadline _ _ _ Hof). pose proof (tro_deadline _ _ _ Hof2).
    simpl in *. congruence. }
  rewrite <- Hr1 in Hof2, E6, Hmat. exists row, a.
  split; [|split; [done|split; [done|split; [by eapply lease_until_Ok|split; [done|]]]]];
    [split; try done|exists (t_updated_at cur); bool_props; split; [|lia];
       by apply (tro_updated _ _ _ Hof)].
  unfold with_turn_actor. revert E6. unfold next_lease. rewrite Hd.
  by destruct (is_terminal next).
Qed.

Lemma clear_terminal_actor db rec now db' row s :
  clear_actor db rec now = Ok db' ->
  turns db !! (t_tenant_id rec, t_turn_id rec) = Some row ->
  tr_state row = state_name s -> is_terminal s = true -> micro db db'.
Proof.
  intros Hc Hrow Hs Ht. apply clear_actor_Ok in Hc as (a & Ha & Hact & ->).
  by eapply m_clear.
Qed.

Lemma recovery_table s : is_terminal s = false -> can_transition_to s (recovery_state s) = true.
Proof. by destruct s. Qed.

Lemma recovery_terminal s : is_terminal (recovery_state s) = true.
Proof. by destruct s. Qed.

Lemma recover_turn_Ok db rec now rec' db' :
  recover_turn_in_tx db rec now = Ok (rec', db') ->
  load_existing db (t_tenant_id rec) (t_turn_id rec) = Ok rec ->
  (is_terminal (state (t_state rec)) = true /\ rec' = rec /\ micro db db') \/
  (is_terminal (state (t_state rec)) = false /\
   exists row a, let s := state (t_state rec) in
     let tj := canonical_json (execution_to_value (recovery_result s)) in
     changed db (t_tenant_id rec) (t_turn_id rec) row a (set_lease None None None now a)
       s (recovery_state s) (Some tj) (Some (sha256_text tj)) rec' now db' /\
     materialize_turn (t_tenant_id rec, t_turn_id rec)
       (set_turn (recovery_state s) (tr_revision row + 1) (Some tj) (Some (sha256_text tj))
          now row) = Ok rec' /\
     not_before (tr_updated_at_ms row) now).
Proof.
  unfold recover_turn_in_tx. intros Ht Hl.
  apply load_existing_Ok in Hl as (row & Hrow & Hof & _).
  destruct (negb _) eqn:Enow in Ht; [|done]. cbv zeta in Ht.
  destruct (is_terminal (state (t_state rec))) eqn:Eterm.
  { left. destruct (clear_actor _ _ _) eqn:Ec; simplify_eq. split; [done|].
    split; [done|]. eapply clear_terminal_actor; [done..| |done].
    by rewrite (tro_state _ _ _ Hof). }
  right. split; [done|].
  destruct (compare_and_transition _ _ _ _) as [v'|] eqn:Ec; [|done].
  apply compare_and_transition_ok in Ec as (Hrev & Hst & Htab & Hr & ->).
  destruct (revision_to_i64 _) as [z1|] eqn:E1 in Ht; [|done]. apply revision_to_i64_Ok in E1 as [-> _].
  destruct (revision_to_i64 _) as [z2|] eqn:E2 in Ht; [|done].
  apply revision_to_i64_Ok in E2 as [-> _]. simpl in Ht.
  destruct (cas_turn _ _ _ _ _) as [db1|] eqn:E3; [|done].
  apply cas_turn_Ok in E3 as (row1 & Hrow1 & Hs1 & Hr1 & ->).
  rewrite Hrow in Hrow1. injection Hrow1 as <-.
  destruct (clear_actor _ _ _) as [db2|] eqn:E4; [|done].
  apply clear_actor_Ok in E4 as (a & Ha & Hact & ->).
  destruct (load_existing _ _ _) as [rec2|] eqn:E5; [|done].
  destruct (insert_outbox _ _ _ _ _) as [db3|] eqn:E6; [|done]. simplify_eq.
  apply load_existing_Ok in E5 as (row2 & Hrow2 & Hof2 & Hmat).
  cbn [turns with_actors with_turns] in Hrow2. rewrite lookup_insert_eq in Hrow2.
  injection Hrow2 as <-. apply insert_outbox_Ok in E6.
  rewrite (tro_actor _ _ _ Hof) in Ha, E6. cbn [actors with_turns] in Ha, E6.
  rewrite <- Hr1 in Hof2, E6, Hmat. exists row, a. split; [split; try done|split; [done|]].
  - by rewrite recovery_terminal.
  - exists (t_updated_at rec). bool_props. split; [|lia]. by apply (tro_updated _ _ _ Hof).
Qed.

Lemma recover_turn_micros db rec now rec' db' :
  recover_turn_in_tx db rec now = Ok (rec', db') ->
  load_existing db (t_tenant_id rec) (t_turn_id rec) = Ok rec -> micros db db'.
Proof.
  intros Hr Hl. destruct (recover_turn_Ok _ _ _ _ _ Hr Hl) as [(_ & _ & Hm)|(_ & ? & ? & Hc & Hmat & Hnb)];
    apply rtc_once; [done|by eapply m_change].
Qed.

Lemma load_existing_self db tn t rec :
  load_existing db tn t = Ok rec ->
  load_existing db (t_tenant_id rec) (t_turn_id rec) = Ok rec.
Proof.
  intros Hl. pose proof Hl as Hl'. apply load_existing_Ok in Hl' as (? & _ & Hof & _).
  pose proof (tro_key _ _ _ Hof) as Hk. by injection Hk as -> ->.
Qed.

Lemma recover_actor_for_admission_micros db actor now db' :
  recover_actor_for_admission db actor now = Ok db' -> micros db db'.
Proof.
  unfold recover_actor_for_admission. intros Hr.
  destruct (load_actor _ _ _) as [[found|]|]; try done. simpl in Hr.
  destruct (a_active_turn_id found) as [t|]; [|by simplify_eq].
  destruct (a_lease_until found); [|done]. simpl in Hr. case_bool_decide; [|done].
  destruct (load_existing _ _ _) as [rec|] eqn:El; [|done].
  destruct (recover_turn_in_tx _ _ _) as [[r d]|] eqn:Er; simplify_eq.
  eapply recover_turn_micros; [done|]. by eapply load_existing_self.
Qed.

Lemma create_turn_Ok db i ad now res db' :
  create_turn db i ad now = Ok (res, db') ->
  exists db2 a rec, micros db db2 /\
    admitted db2 (ing_tenant_id i) (t_turn_id rec) (new_turn_row i ad now) a
      (set_lease (Some (t_turn_id rec)) (Some (ad_lease_owner ad))
         (Some (timestamp_millis (ing_deadline i))) now a) (initial_state ad) rec now db' /\
    res = Created rec /\
    materialize_turn (ing_tenant_id i, t_turn_id rec) (new_turn_row i ad now) = Ok rec.
Proof.
  unfold create_turn. intros Hc. cbv zeta in Hc.
  destruct (ensure_actor_row _ _ _) as [d1|] eqn:E1; [|done].
  destruct (recover_actor_for_admission _ _ _) as [d2|] eqn:E2; [|done].
  destruct (from_sqlite (insert_turn _ _ _)) as [d3|] eqn:E3; [|done].
  apply from_sqlite_Ok, insert_turn_Ok in E3 as (Hf & Hex & Hkey & ->).
  destruct (from_sqlite (update_actor _ _ _ _)) as [[n d4]|] eqn:E4; [|done].
  case_bool_decide; [|done]. subst.
  apply from_sqlite_Ok, update_actor_1 in E4 as (a & Ha & Hfree & ->).
  destruct (load_existing _ _ _) as [rec|] eqn:E5; [|done].
  destruct (insert_outbox _ _ _ _ _) as [d5|] eqn:E6; [|done]. simplify_eq.
  apply load_existing_Ok in E5 as (row & Hrow & Hof & Hmat).
  cbn [turns with_actors with_turns] in Hrow. rewrite lookup_insert_eq in Hrow.
  injection Hrow as <-. apply insert_outbox_Ok in E6.
  pose proof (tro_key _ _ _ Hof) as Hk. injection Hk as Hk1 Hk2.
  exists d2, a, rec. split.
  { eapply micros_trans; [by eapply ensure_actor_row_Ok|].
    by eapply recover_actor_for_admission_micros. }
  rewrite Hk2. split; [split; try done|done].
  - unfold initial_state. destruct (ad_approval_required ad); auto.
  - by destruct (ar_active_turn_id a).
Qed.

Lemma load_by_idempotency_Ok db tn key rec :
  load_by_idempotency db tn key = Ok (Some rec) ->
  load_existing db (t_tenant_id rec) (t_turn_id rec) = Ok rec /\ t_tenant_id rec = tn /\
  exists row, turns db !! (t_tenant_id rec, t_turn_id rec) = Some row /\
    tr_idempotency_key row = key.
Proof.
  unfold load_by_idempotency, find_by_idempotency. intros Hl.
  destruct (filter _ _) as [|[k row] l] eqn:E; [done|]. simpl in Hl.
  destruct (materialize_turn k row) as [r|] eqn:Em; simplify_eq/=.
  assert (Hin : (k, row) ∈ (k, row) :: l) by set_solver. rewrite <- E in Hin.
  apply list_elem_of_filter in Hin as [[Ht Hk] Hin]. apply elem_of_map_to_list in Hin.
  pose proof (materialize_turn_Ok _ _ _ Em) as Hof. pose proof (tro_key _ _ _ Hof) as Hkey.
  simpl in *. destruct k as [k1 k2]. injection Hkey as -> ->. split; [|eauto].
  unfold load_existing, load_turn. rewrite Hin. simpl. by rewrite Em.
Qed.

Lemma begin_turn_micros db i ad now res db' :
  begin_turn db i ad now = Ok (res, db') -> micros db db'.
Proof.
  unfold begin_turn. intros Hb. destruct (validate_actor_authority _ _) as [[]|]; [|done].
  cbv zeta in Hb.
  destruct (load_by_idempotency _ _ _) as [[ex|]|] eqn:El; [| |done].
  - destruct (_ && _); [|done].
    destruct (recover_duplicate_if_expired _ _ _) as [[r d]|] eqn:Er; simplify_eq.
    unfold recover_duplicate_if_expired in Er.
    destruct (is_terminal _); [by simplify_eq|].
    destruct (load_actor _ _ _) as [[found|]|]; try done. simpl in Er.
    case_bool_decide; [|done]. destruct (is_some_and _ _); [|by simplify_eq].
    eapply recover_turn_micros; [done|]. by apply load_by_idempotency_Ok in El as [? _].
  - destruct (negb _); [|done].
    apply create_turn_Ok in Hb as (d2 & a & rec & Hm & Hadm & _ & Hmat).
    eapply micros_trans; [done|]. apply rtc_once. by eapply m_admit.
Qed.

Lemma transition_micros db tn t owner es er next tres now rec db' :
  transition_inner db tn t owner es er next tres now = Ok (rec, db') -> micros db db'.
Proof.
  intros Ht. apply transition_inner_Ok in Ht as (row & a & Hc & _ & _ & _ & Hmat & Hnb).
  apply rtc_once. by eapply m_change.
Qed.

Lemma recover_loop_micros l db tn now acc recs db' :
  recover_loop db tn now l acc = Ok (recs, db') -> micros db db'.
Proof.
  revert db acc. induction l as [|[ak t] l IH]; intros db acc Hr; simpl in Hr.
  - by simplify_eq.
  - destruct (load_existing _ _ _) as [rec|] eqn:El; [|done].
    case_bool_decide; [|done].
    destruct (recover_turn_in_tx _ _ _) as [[r d]|] eqn:Er; [|done].
    eapply micros_trans; [|by eapply IH].
    eapply recover_turn_micros; [done|]. by eapply load_existing_self.
Qed.

(** ** The outbox *)

Lemma queue_head_ext db db' k c o :
  commit_order db' = commit_order db -> outbox db' = outbox db ->
  queue_head db k c o -> queue_head db' k c o.
Proof. intros Hc Ho [? ? ? ? ? ?]. split; rewrite ?Hc, ?Ho; done. Qed.

(** A claim leases the head of the queue, when it is free to lease. *)
Record claimed (db : Db) (fresh tn owner : string) (now dur : Z) (rec : TurnOutboxRecord)
    (db' : Db) (c : OrderRow) (o : OutboxRow) (until : Z) : Prop := {
  cl_is_head : tenant_outbox_head db tn = Ok (Some (o_outbox_id rec));
  cl_head : queue_head db (tn, o_outbox_id rec) c o;
  cl_head_after : tenant_outbox_head db' tn = Ok (Some (o_outbox_id rec));
  cl_live : quarantine db !! (tn, o_outbox_id rec) = None;
  cl_free : or_status o = "pending" \/
    (or_status o = "leased" /\ exists u, or_lease_until_ms o = Some u /\ u <= timestamp_millis now);
  cl_until : checked_add_signed now dur = Some until;
  cl_record : o_tenant_id rec = tn /\ o_status rec = Leased /\
    o_lease_owner rec = Some owner /\ o_lease_token rec = Some ("outbox-lease-" +:+ fresh);
  cl_db : db' = with_outbox db
    (<[(tn, o_outbox_id rec) := set_leased owner ("outbox-lease-" +:+ fresh) until now o]>
       (outbox db))
}.

Lemma claim_next_outbox_Ok db fresh tn owner now dur res db' :
  claim_next_outbox db fresh tn owner now dur = Ok (res, db') ->
  match res with
  | None => db' = db
  | Some rec => exists c o until, claimed db fresh tn owner now dur rec db' c o until /\
      load_outbox_existing db' tn (o_outbox_id rec) = Ok rec
  end.
Proof.
  unfold claim_next_outbox. intros Hc.
  destruct (validate_lease_identity _ _) as [[]|]; [|done].
  destruct (lease_duration_ok _); [|done]. destruct (from_schema _) as [[]|]; [|done].
  destruct (tenant_outbox_head db tn) as [[oid|]|] eqn:Eh; [| by simplify_eq|done].
  destruct (tenant_outbox_head_Some _ _ _ Eh) as (c & o & Hh).
  destruct (load_outbox_existing db tn oid) as [cur|]; [|done].
  destruct (outbox_is_quarantined _ _ _) eqn:Eq; [by simplify_eq|].
  destruct (negb (ready cur now)); [by simplify_eq|]. destruct (negb _); [|done].
  destruct (checked_add_signed now dur) as [until|] eqn:Eu; [|done]. simpl in Hc.
  destruct (from_sqlite _) as [[n d]|] eqn:Ed; [|done]. case_bool_decide; [|done]. subst n.
  apply from_sqlite_Ok, update_outbox_1 in Ed as (o' & Ho' & Hcond & _ & _ & ->).
  rewrite (qh_row _ _ _ _ Hh) in Ho'. injection Ho' as <-.
  destruct (load_outbox_existing _ _ _) as [rec|] eqn:Er; [|done].
  destruct (_ && _) eqn:E in Hc; [|done]. bool_props.
  destruct (tenant_outbox_head _ _) as [hd|] eqn:Ehd in Hc; [|done].
  destruct (bool_decide (hd = _)) eqn:Ehd'; [|done]. bool_props. simplify_eq.
  pose proof Er as Er'. apply load_outbox_existing_Ok in Er as (c' & o' & _ & _ & _ & Hof).
  pose proof (oro_key _ _ _ _ _ Hof) as Hk. injection Hk as Hk1 Hk2. simpl in Hk1, Hk2.
  exists c, o, until. rewrite Hk2. split; [|exact Er']. split; rewrite ?Hk2; try done.
  - unfold outbox_is_quarantined in Eq. by destruct (quarantine db !! _).
  - apply orb_true_iff in Hcond as [Hp|Hp]; bool_props; [by left|right].
    destruct (or_lease_until_ms o) as [u|]; [|done]. simpl in *. bool_props. eauto.
Qed.

(** The columns [holds_lease] demands. *)
Lemma holds_lease_true owner token now o :
  holds_lease owner token now o = true ->
  or_status o = "leased" /\ or_lease_owner o = Some owner /\ or_lease_token o = Some token /\
  exists u, or_lease_until_ms o = Some u /\ timestamp_millis now < u.
Proof.
  unfold holds_lease. intros Hh. bool_props. destruct (or_lease_until_ms o); [|done].
  simpl in *. bool_props. eauto 6.
Qed.

(** A fenced write of the head of the queue. *)
Lemma fenced_update db k c o owner token now set n db' :
  queue_head db k c o ->
  from_sqlite (update_outbox db k (holds_lease owner token now) set) = Ok (n, db') ->
  n = 1%nat ->
  holds_lease owner token now o = true /\
  db' = with_outbox db (<[k := set o]> (outbox db)).
Proof.
  intros Hh Hu ->. apply from_sqlite_Ok, update_outbox_1 in Hu as (o' & Ho' & Hc & _ & _ & ->).
  rewrite (qh_row _ _ _ _ Hh) in Ho'. by injection Ho' as <-.
Qed.

Lemma release_outbox_Ok db tn oid owner token now avail err db' :
  release_outbox db tn oid owner token now avail err = Ok db' ->
  tenant_outbox_head db tn = Ok (Some oid) /\
  exists c o, queue_head db (tn, oid) c o /\ holds_lease owner token now o = true /\
    now <= avail /\
    db' = with_outbox db (<[(tn, oid) := set_pending avail now err o]> (outbox db)) /\
    reads db' (tn, oid).
Proof.
  unfold release_outbox. intros Hr.
  do 2 (destruct (validate_lease_identity _ _) as [[]|]; [|done]).
  case_bool_decide; [|done]. destruct (negb _) eqn:En in Hr; [|done]. bool_props.
  destruct (from_schema _) as [[]|]; [|done].
  destruct (is_head db tn oid) as [[]|] eqn:Eh; [|done].
  apply is_head_Ok in Eh as (Hth & c & o & Hh).
  destruct (load_outbox_existing db tn oid) as [cur|]; [|done].
  destruct (fence _ _ _ _ _) as [[]|]; [|done].
  destruct (from_sqlite _) as [[n d]|] eqn:Ed; [|done]. case_bool_decide; [|done].
  destruct (fenced_update _ _ _ _ _ _ _ _ _ _ Hh Ed) as [Hl ->]; [done|].
  ok_inv Hr. subst. split; [done|]. exists c, o. split; [done|].
  split; [done|]. split; [lia|]. split; [done|]. by eexists.
Qed.

Lemma renew_outbox_lease_Ok db tn oid owner token now dur rec db' :
  renew_outbox_lease db tn oid owner token now dur = Ok (rec, db') ->
  tenant_outbox_head db tn = Ok (Some oid) /\
  exists c o until, queue_head db (tn, oid) c o /\ quarantine db !! (tn, oid) = None /\
    holds_lease owner token now o = true /\ checked_add_signed now dur = Some until /\
    db' = with_outbox db (<[(tn, oid) := set_renewed until now o]> (outbox db)) /\
    load_outbox_existing db' tn oid = Ok rec.
Proof.
  unfold renew_outbox_lease. intros Hr.
  do 2 (destruct (validate_lease_identity _ _) as [[]|]; [|done]).
  destruct (lease_duration_ok dur); [|done].
  destruct (checked_add_signed now dur) as [until|]; [|done]. simpl in Hr.
  destruct (from_schema _) as [[]|]; [|done].
  destruct (is_head db tn oid) as [[]|] eqn:Eh; [|done].
  apply is_head_Ok in Eh as (Hth & c & o & Hh).
  destruct (negb (outbox_is_quarantined _ _ _)) eqn:Eq; [|done].
  destruct (load_outbox_existing db tn oid) as [cur|]; [|done].
  destruct (fence _ _ _ _ _) as [[]|]; [|done].
  destruct (from_sqlite _) as [[n d]|] eqn:Ed; [|done]. case_bool_decide; [|done].
  destruct (fenced_update _ _ _ _ _ _ _ _ _ _ Hh Ed) as [Hl ->]; [done|].
  ok_inv Hr. simplify_eq. split; [done|]. exists c, o, until. bool_props.
  unfold outbox_is_quarantined in Eq. by destruct (quarantine db !! _).
Qed.

Lemma quarantine_outbox_Ok db claim failure ex now q db' :
  quarantine_outbox db claim failure ex now = Ok (q, db') ->
  let k := (o_tenant_id claim, o_outbox_id claim) in
  tenant_outbox_head db k.1 = Ok (Some k.2) /\
  exists c o qr owner token, queue_head db k c o /\ quarantine db !! k = None /\
    o_lease_owner claim = Some owner /\ o_lease_token claim = Some token /\
    holds_lease owner token now o = true /\
    db' = with_outbox (with_quarantine db (<[k := qr]> (quarantine db)))
            (<[k := set_pending now now (f_message failure) o]> (outbox db)) /\
    reads db' k /\ quarantine_guard_ok db k qr = true.
Proof.
  unfold quarantine_outbox. intros Hq. cbv zeta in Hq.
  destruct (o_lease_owner claim) as [owner|]; [|done]. simpl in Hq.
  destruct (o_lease_token claim) as [token|]; [|done]. simpl in Hq.
  destruct (claimed_principal_id claim) as [p|]; [|done].
  destruct (from_schema _) as [[]|]; [|done].
  destruct (is_head db _ _) as [[]|] eqn:Eh; [|done].
  apply is_head_Ok in Eh as (Hth & c & o & Hh).
  destruct (load_outbox_existing _ _ _) as [cur|] eqn:El; [|done].
  destruct (fence _ _ _ _ _) as [[]|]; [|done].
  destruct (ok_or _ CommitOrdinalExhausted) as [n|]; [|done].
  destruct (ok_or _ OutboxAttemptsExhausted) as [m|]; [|done].
  destruct (from_sqlite (insert_quarantine _ _ _)) as [d1|] eqn:E1; [|done].
  apply from_sqlite_Ok in E1. unfold insert_quarantine in E1.
  destruct (_ && _) eqn:E in E1; [|done]. injection E1 as <-. bool_props.
  apply load_outbox_existing_Ok in El as (c1 & o1 & _ & _ & _ & Hof).
  pose proof (oro_key _ _ _ _ _ Hof) as Hk. rewrite Hk in *.
  destruct (from_sqlite _) as [[k' d]|] eqn:Ed; [|done]. case_bool_decide; [|done].
  match type of Ed with from_sqlite (update_outbox ?d1 _ _ _) = _ =>
    assert (Hh1 : queue_head d1 (o_tenant_id claim, o_outbox_id claim) c o)
      by by eapply queue_head_ext; [| |exact Hh] end.
  destruct (fenced_update _ _ _ _ _ _ _ _ _ _ Hh1 Ed) as [Hl ->]; [done|].
  ok_inv Hq. simplify_eq. split; [done|]. exists c, o. eexists _, owner, token. split; [done|].
  split; [by destruct (quarantine db !! _)|]. split; [done|]. split; [done|].
  split; [done|]. split; [reflexivity|]. split; [by eexists|done].
Qed.

(** ** Completion *)

Lemma ensure_evidence_Ok db o commit pk db' :
  ensure_verified_commit_evidence db o commit pk = Ok db' ->
  (o_verified_ledger_event_id o = None /\
   let v := {| vr_ledger_event_id := vc_event_id commit; vr_signer_public_key := pk;
               vr_database_instance_id := vc_database_instance_id commit |} in
   verified db !! (o_tenant_id o, o_outbox_id o) = None /\
   db' = with_verified db (<[(o_tenant_id o, o_outbox_id o) := v]> (verified db))) \/
  (o_verified_ledger_event_id o <> None /\ db' = db).
Proof.
  unfold ensure_verified_commit_evidence. intros He.
  destruct (o_verified_ledger_event_id o), (o_verified_signer_public_key o),
    (o_verified_database_instance_id o); try done.
  - right. ok_inv He. by subst.
  - left. apply from_sqlite_Ok in He. unfold insert_verified in He.
    destruct (_ && _) eqn:E in He; [|done]. injection He as <-. bool_props.
    split; [done|]. by destruct (verified db !! _).
Qed.

(** The snapshot and the commit together prove the target row. *)
Lemma snapshot_proof db tn oid s commit o c now :
  snapshot_ok db tn oid s -> co_key c = (tn, oid) -> outbox db !! (tn, oid) = Some o ->
  matches_binding_in_connection commit db (h_binding (ds_target s)) = Ok true ->
  ledger_proof db (tn, oid)
    {| vr_ledger_event_id := vc_event_id commit;
       vr_signer_public_key := vc_public_key_bytes commit;
       vr_database_instance_id := vc_database_instance_id commit |}
    (set_delivered (vc_event_id commit) now o).
Proof.
  intros [(turn & Hload & Hhist & Htn & Hturn) Htgt Hid _ _] Hk Ho Hm.
  apply matches_in_connection_true, verify_existing_inv in Hm
    as (Hp & (e & He & Hproves) & _ & _ & Hcommit).
  apply find_event_Some in He as [He Hei].
  destruct (ho_binding _ _ (hc_ok _ _ _ Hhist) _ Htgt) as [parent Hb].
  destruct (history_row _ _ _ _ Hhist Htgt) as (c' & o' & Hc' & Hk' & Ho' & Ht' & Hof).
  rewrite Htn, Hid in Ho', Hof. rewrite Ho in Ho'. injection Ho' as <-.
  apply load_existing_Ok in Hload as (row & Hrow & Hrec & Hmat).
  assert (Hsess : t_session_id turn = tr_session_id row).
  { unfold materialize_turn in Hmat.
    repeat (match type of Hmat with
            | match ?x with Ok _ => _ | Err _ => _ end = _ => destruct x; [|discriminate Hmat]
            end). by injection Hmat as <-. }
  split; [done|]. exists e, (h_binding (ds_target s)), row. cbn [fst snd].
  rewrite Hb in *. cbn [b_principal_id b_idempotency_key b_event_type b_run_id b_payload
    b_namespace_key entry_binding or_event_type or_turn_id or_payload_json set_delivered
    vr_ledger_event_id vr_signer_public_key] in *.
  assert (Hid' : vc_event_id commit = expected_event_id
    (entry_binding turn (h_outbox (ds_target s)) parent)) by (by rewrite Hcommit).
  split; [done|]. split; [by rewrite Hei, Hid'|]. split; [done|]. split; [done|].
  split; [done|]. split; [by apply (oro_event_type _ _ _ _ _ Hof)|].
  split; [by rewrite Ht'|].
  split; [apply (ok_or_Ok _ Json), (oro_payload _ _ _ _ _ Hof)|].
  split; [rewrite Ht', Hturn; exact Hrow|].
  split; [exact (tro_principal _ _ _ Hrec)|done].
Qed.

(** What a completing transaction did. *)
Record delivered_now (db : Db) (tn oid owner token : string) (commit : VerifiedEventCommit)
    (now : Z) (db' : Db) (c : OrderRow) (o : OutboxRow) (v : VerifiedRow) : Prop := {
  dn_is_head : tenant_outbox_head db tn = Ok (Some oid);
  dn_head : queue_head db (tn, oid) c o;
  dn_lease : holds_lease owner token now o = true;
  dn_fresh : verified db !! (tn, oid) = None;
  dn_evidence : vr_ledger_event_id v = vc_event_id commit;
  dn_proof : ledger_proof db (tn, oid) v (set_delivered (vr_ledger_event_id v) now o);
  dn_genesis : genesis_accepted db tn (or_turn_id o);
  dn_db : db' = with_outbox (with_verified db (<[(tn, oid) := v]> (verified db)))
                  (<[(tn, oid) := set_delivered (vr_ledger_event_id v) now o]> (outbox db));
  dn_checked : delivery_checked db (tn, oid) o v;
  dn_reads : reads db' (tn, oid)
}.

Lemma evidence_None db tn oid c o rec :
  outbox_record_of (tn, oid) c o (verified db !! (tn, oid)) rec -> o_status rec <> Delivered ->
  verified db !! (tn, oid) = None /\ o_verified_ledger_event_id rec = None.
Proof.
  intros Hof Hs. destruct (oro_verified _ _ _ _ _ Hof) as [-> _].
  pose proof (oro_evidence _ _ _ _ _ Hof) as He.
  destruct (verified db !! (tn, oid)); [|done]. exfalso. by apply Hs, He.
Qed.

Lemma complete_in_tx_Ok db s0 tn oid owner token commit now res db' :
  complete_in_tx db s0 tn oid owner token commit now = Ok (res, db') ->
  match res with
  | CompletionDelivered =>
      exists c o v, delivered_now db tn oid owner token commit now db' c o v
  | AlreadyDelivered =>
      exists o, outbox db !! (tn, oid) = Some o /\ or_status o = "delivered" /\
        or_ledger_event_id o = Some (vc_event_id commit) /\
        (db' = db \/ exists v, verified db !! (tn, oid) = None /\
           vr_ledger_event_id v = vc_event_id commit /\
           db' = with_verified db (<[(tn, oid) := v]> (verified db)))
  end.
Proof.
  unfold complete_in_tx. intros Hc. cbv zeta in Hc.
  destruct (from_schema _) as [[]|]; [|done].
  destruct (load_dispatch_snapshot _ _ _ _ _ _ _) as [s|] eqn:Es; [|done].
  apply load_dispatch_snapshot_Ok in Es as [Hs Hlive].
  destruct (verify_tenant_prefix_in_connection _ _); [|done].
  destruct (from_ledger _) as [m|] eqn:Em; [|done]. apply from_ledger_Ok in Em.
  destruct (_ && m) eqn:E in Hc; [|done]. bool_props. subst m.
  destruct (sn_turn _ _ _ _ Hs) as (turn & Hload & Hhist & Htn & Htu).
  destruct (history_row _ _ _ _ Hhist (sn_target _ _ _ _ Hs)) as (c & o & Hco & Hk & Ho & Hturn & Hof).
  rewrite Htn, (sn_id _ _ _ _ Hs) in Hk, Ho, Hof.
  pose proof (oro_key _ _ _ _ _ Hof) as Hkey. injection Hkey as Hk1 Hk2.
  destruct (ensure_verified_commit_evidence _ _ _ _) as [db1|] eqn:Ee; [|done].
  apply ensure_evidence_Ok in Ee. rewrite Hk1, Hk2 in Ee.
  case_bool_decide as Hd.
  - destruct (bool_decide (o_ledger_event_id _ = _)) eqn:Eid; [|done]. bool_props.
    ok_inv Hc. simplify_eq. exists o. split; [done|].
    pose proof (oro_status _ _ _ _ _ Hof) as Hst. rewrite Hd in Hst.
    apply parse_outbox_status_Ok in Hst. split; [done|].
    split; [by rewrite <- (oro_event _ _ _ _ _ Hof)|].
    destruct Ee as [(_ & Hnone & ->)|[_ ->]]; [|by left]. right. eexists. split; [done|]. split; [|reflexivity]. done.
  - destruct (Hlive Hd) as [Hhead _].
    destruct (tenant_outbox_head_Some _ _ _ Hhead) as (c0 & o0 & Hh).
    pose proof (qh_row _ _ _ _ Hh) as Ho0. rewrite Ho in Ho0. injection Ho0 as <-.
    destruct (evidence_None _ _ _ _ _ _ Hof Hd) as [Hnone Hnv].
    destruct Ee as [(_ & _ & ->)|[Hsome _]]; [|done].
    destruct (negb _); [|done]. destruct (from_sqlite _) as [[n d]|] eqn:Ed; [|done].
    case_bool_decide; [|done].
    match type of Ed with from_sqlite (update_outbox ?d1 _ _ _) = _ =>
      assert (Hh1 : queue_head d1 (tn, oid) c0 o) by by eapply queue_head_ext; [| |exact Hh]
    end.
    destruct (fenced_update _ _ _ _ _ _ _ _ _ _ Hh1 Ed) as [Hl ->]; [done|].
    ok_inv Hc. simplify_eq. exists c0, o,
      {| vr_ledger_event_id := vc_event_id commit;
         vr_signer_public_key := vc_public_key_bytes commit;
         vr_database_instance_id := vc_database_instance_id commit |}.
    split; try done.
    + by eapply snapshot_proof.
    + unfold genesis_accepted. rewrite Hturn. by eapply history_genesis.
    + apply matches_in_connection_true in Em.
      exists turn, (ds_history s), (ds_target s), commit. cbn [fst snd].
      rewrite Hturn, Htu. split; [done|]. split; [done|]. split; [by apply Hs|].
      split; [by apply Hs|done].
    + by eexists.
Qed.

Lemma complete_outbox_Ok inst before db tn oid owner token commit now ledger res db' :
  complete_outbox inst before db tn oid owner token commit now ledger = Ok (res, db') ->
  exists s0, complete_in_tx db s0 tn oid owner token commit now = Ok (res, db').
Proof.
  unfold complete_outbox. intros Hc. cbv zeta in Hc.
  do 2 (destruct (validate_lease_identity _ _) as [[]|]; [|done]).
  destruct (dispatch_snapshot _ _ _ _ _ _ _ _) as [s0|]; [|done].
  destruct (verify_ledger_scope _ _ _ _); [|done].
  destruct (verify_tenant_prefix _ _ _); [|done].
  destruct (from_ledger _) as [[]|]; [|done..]. eauto.
Qed.

End Steps.
