(* ===== verification/Machine.v ===== *)
(** * The durable turn subsystem as a state machine

    [step] lets any operation run next, with any arguments: every interleaving of
    the transactions of the workers, the sessions and the ledger is a run of it.
    (The two transactions of [complete_outbox] may have other steps between them:
    its first argument database is unconstrained, and its completing transaction is
    also a step of its own, after whatever snapshot.)  Every step is a sequence of
    [micro] steps. *)

From stdpp Require Import prelude gmap strings list relations.
From S2P Require Import Prelude.
From S2P Require Import Json.
From S2P Require Import TurnState.
From S2P Require Import TurnKernel.
From S2P Require Import Env.
From S2P Require Import Ingress.
From S2P Require Import Schema.
From S2P Require Import Database.
From S2P Require Import Ledger.
From S2P Require Import LedgerChain.
From S2P Require Import Binding.
From S2P Require Import TurnRecords.
From S2P Require Import TurnStore.
From S2P Require Import StoreLemmas.
From S2P Require Import Outbox.
From S2P Require Import OutboxLemmas.
From S2P Require Import Dispatch.
From S2P Require Import DispatchLemmas.
From S2P Require Import StoreSteps.
Local Open Scope res_scope.
Local Open Scope Z_scope.

Section Machine.
Context `{Env}.

Inductive step (db : Db) : Db -> Prop :=
| st_begin i ad now res db' :
    begin_turn db i ad now = Ok (res, db') -> step db db'
| st_transition tn t owner es er next now rec db' :
    store_compare_and_transition db tn t owner es er next now = Ok (rec, db') -> step db db'
| st_finish tn t owner es er next result now rec db' :
    compare_and_transition_with_result db tn t owner es er next result now = Ok (rec, db') ->
    step db db'
| st_approve tn t now rec db' :
    approve_turn db tn t now = Ok (rec, db') -> step db db'
| st_recover tn now limit recs db' :
    recover_expired_actor_leases db tn now limit = Ok (recs, db') -> step db db'
| st_claim fresh tn owner now dur res db' :
    claim_next_outbox db fresh tn owner now dur = Ok (res, db') -> step db db'
| st_release tn oid owner token now avail err db' :
    release_outbox db tn oid owner token now avail err = Ok db' -> step db db'
| st_renew tn oid owner token now dur rec db' :
    renew_outbox_lease db tn oid owner token now dur = Ok (rec, db') -> step db db'
| st_quarantine claim failure ex now q db' :
    quarantine_outbox db claim failure ex now = Ok (q, db') -> step db db'
| st_complete inst before tn oid owner token commit now ledger res db' :
    complete_outbox inst before db tn oid owner token commit now ledger = Ok (res, db') ->
    step db db'
| st_complete_tx s0 tn oid owner token commit now res db' :
    complete_in_tx db s0 tn oid owner token commit now = Ok (res, db') -> step db db'
| st_append ev policy inserted db' :
    append_prepared_event db ev policy = Ok (inserted, db') -> step db db'.

Definition steps : Db -> Db -> Prop := rtc step.

Lemma steps_trans db1 db2 db3 : steps db1 db2 -> steps db2 db3 -> steps db1 db3.
Proof. unfold steps. intros. by etrans. Qed.

Lemma micros_outbox db k c o o' :
  queue_head db k c o -> same_entry o o' -> or_status o' <> "delivered" ->
  quarantine db !! k = None \/ or_status o = "leased" ->
  reads (with_outbox db (<[k := o']> (outbox db))) k ->
  micros db (with_outbox db (<[k := o']> (outbox db))).
Proof. intros. apply rtc_once. by eapply m_outbox. Qed.

Lemma complete_micros db s0 tn oid owner token commit now res db' :
  complete_in_tx db s0 tn oid owner token commit now = Ok (res, db') -> micros db db'.
Proof.
  intros Hs. apply complete_in_tx_Ok in Hs. destruct res.
  - destruct Hs as (c & o & v & [_ Hh Hl Hf _ Hp Hg -> Hck Hrd]).
    apply holds_lease_true in Hl as [Hl _]. apply rtc_once. by eapply m_deliver.
  - destruct Hs as (o & Ho & Hd & Hid & [->|(v & Hn & Hv & ->)]); [done|].
    apply rtc_once. eapply m_verified; [done..|]. by rewrite Hv.
Qed.

Lemma step_micros db db' : step db db' -> micros db db'.
Proof.
  destruct 1 as [i ad now res db' Hs|tn t owner es er next now rec db' Hs
    |tn t owner es er next r now rec db' Hs|tn t now rec db' Hs|tn now limit recs db' Hs
    |fresh tn owner now dur res db' Hs|tn oid owner token now avail err db' Hs
    |tn oid owner token now dur rec db' Hs|claim failure ex now q db' Hs
    |inst before tn oid owner token commit now ledger res db' Hs
    |s0 tn oid owner token commit now res db' Hs|ev policy ins db' Hs].
  - by eapply begin_turn_micros.
  - unfold store_compare_and_transition in Hs. destruct (negb _); [|done].
    by eapply transition_micros.
  - unfold compare_and_transition_with_result in Hs. destruct (is_terminal next); [|done].
    cbv zeta in Hs. destruct (bool_decide _); [|done]. by eapply transition_micros.
  - unfold approve_turn in Hs. ok_inv Hs. unfold store_compare_and_transition in Hs.
    simpl in Hs. by eapply transition_micros.
  - by eapply recover_loop_micros.
  - apply claim_next_outbox_Ok in Hs. destruct res as [rec|]; [|by subst].
    destruct Hs as (c & o & u & [_ Hh _ Hq _ _ _ ->] & Hrd).
    eapply micros_outbox; [exact Hh|done|done|by left|by eexists].
  - apply release_outbox_Ok in Hs as (_ & c & o & Hh & Hl & _ & -> & Hrd).
    apply holds_lease_true in Hl as [Hl _].
    eapply micros_outbox; [exact Hh|done|done|by right|done].
  - apply renew_outbox_lease_Ok in Hs as (_ & c & o & u & Hh & Hq & Hl & _ & -> & Hrd).
    apply holds_lease_true in Hl as [Hl _].
    eapply micros_outbox; [exact Hh|done| |by right|by eexists]. simpl. by rewrite Hl.
  - apply quarantine_outbox_Ok in Hs as (_ & c & o & qr & ow & tk & Hh & Hq & _ & _ & _ & -> & Hrd & Hg).
    apply rtc_once. by eapply m_quarantine.
  - apply complete_outbox_Ok in Hs as [s0 Hs]. by eapply complete_micros.
  - by eapply complete_micros.
  - destruct ins.
    + apply rtc_once. by eapply m_event.
    + by apply append_existing in Hs as [-> _].
Qed.

Lemma steps_micros db db' : steps db db' -> micros db db'.
Proof.
  induction 1 as [|x y z Hs _ IH]; [done|]. eapply micros_trans; [by apply step_micros|done].
Qed.

End Machine.
