(* ===== verification/StoreInv.v ===== *)
(** * Invariants of the durable turn subsystem

    Four invariants over the tables, each preserved by every [micro] step, hence
    by every operation: the actors and their active turns ([actor_inv]), the
    global commit order ([order_inv]), the outbox rows as the log of the turns
    ([entry_inv]), and delivery with its evidence ([delivery_inv]). *)

From stdpp Require Import prelude gmap strings list relations sorting.
From S2P Require Import Prelude.
From S2P Require Import Json.
From S2P Require Import TurnState.
From S2P Require Import TurnKernel.
From S2P Require Import Env.
From S2P Require Import Ingress.
From S2P Require Import Schema.
From S2P Require Import Database.
From S2P Require Import Samples.
From S2P Require Import Ledger.
From S2P Require Import LedgerChain.
From S2P Require Import Binding.
From S2P Require Import TurnRecords.
From S2P Require Import TurnStore.
From S2P Require Import StoreLemmas.
From S2P Require Import Outbox.
From S2P Require Import OutboxLemmas.
From S2P Require Import Dispatch.
From S2P Require Import DispatchLemmas.
From S2P Require Import StoreSteps.
From S2P Require Import Machine.
Local Open Scope res_scope.
Local Open Scope Z_scope.

Definition live (row : TurnRow) : Prop :=
  exists s, tr_state row = state_name s /\ is_terminal s = false.

(** An actor's active turn is live and its own, and every live turn is the active
    turn of its actor. *)
Record actor_inv (A : gmap Key ActorRow) (T : gmap Key TurnRow) : Prop := {
  ai_active : forall tn ak a t, A !! (tn, ak) = Some a -> ar_active_turn_id a = Some t ->
    exists row, T !! (tn, t) = Some row /\ tr_actor_key row = ak /\ live row;
  ai_live : forall tn t row, T !! (tn, t) = Some row -> live row ->
    exists a, A !! (tn, tr_actor_key row) = Some a /\ ar_active_turn_id a = Some t;
  ai_keys : forall tn t t' row row', T !! (tn, t) = Some row -> T !! (tn, t') = Some row' ->
    tr_idempotency_key row = tr_idempotency_key row' -> t = t'
}.

(** Ordinals are positive and strictly increase in commit order, the sequence is
    their maximum, and the ordered keys are exactly the outbox rows, once each. *)
Record order_inv (co : list OrderRow) (seq : option Z) (O : gmap Key OutboxRow) : Prop := {
  oi_sorted : StronglySorted (fun c c' => co_ordinal c < co_ordinal c') co;
  oi_positive : Forall (fun c => 0 < co_ordinal c) co;
  oi_seq : seq = sql_max (map co_ordinal co);
  oi_nodup : NoDup (map co_key co);
  oi_rows : forall k, opt_is_some (O !! k) = true <-> k ∈ map co_key co
}.

(** The outbox is the log of the turns: the rows of a turn are exactly its
    revisions, one row each, committed in revision order, and the last one names
    the turn's state. *)
Record entry_inv (T : gmap Key TurnRow) (O : gmap Key OutboxRow) (co : list OrderRow)
  : Prop := {
  ei_nonneg : forall k row, T !! k = Some row -> 0 <= tr_revision row;
  ei_turn : forall k o, O !! k = Some o -> exists row, T !! (k.1, or_turn_id o) = Some row /\
    0 <= or_revision o <= tr_revision row /\
    (or_revision o = tr_revision row -> or_event_type o = "turn.state." +:+ tr_state row);
  ei_all : forall tn t row n, T !! (tn, t) = Some row -> 0 <= n <= tr_revision row ->
    exists oid o, O !! (tn, oid) = Some o /\ or_turn_id o = t /\ or_revision o = n;
  ei_once : forall k k' o o', O !! k = Some o -> O !! k' = Some o' -> k.1 = k'.1 ->
    or_turn_id o = or_turn_id o' -> or_revision o = or_revision o' -> k = k';
  ei_order : forall c c' o o', c ∈ co -> c' ∈ co -> O !! co_key c = Some o ->
    O !! co_key c' = Some o' -> co_tenant_id c = co_tenant_id c' ->
    or_turn_id o = or_turn_id o' -> or_revision o < or_revision o' ->
    co_ordinal c < co_ordinal c'
}.

(** ** Shapes of the changes *)

Section Inv.
Context `{Env}.

(** What every step with a new outbox row does to the log. *)
Record appended (db : Db) (tn t : string) (rev : Z) (s : TurnState) (k : Key) (o : OutboxRow)
    (db' : Db) : Prop := {
  ap_tenant : k.1 = tn;
  ap_row : or_turn_id o = t /\ or_revision o = rev /\ or_event_type o = state_event_type s /\
           or_status o = "pending";
  ap_fresh : outbox db !! k = None;
  ap_unique : forall k' o', outbox db !! k' = Some o' -> k'.1 = tn -> or_turn_id o' = t ->
    or_revision o' <> rev;
  ap_outbox : outbox db' = <[k := o]> (outbox db);
  ap_order : commit_order db'
             = commit_order db ++ [order_row (default 0 (max_ordinal db) + 1) k];
  ap_sequence : order_sequence db' = Some (default 0 (max_ordinal db) + 1)
}.

Lemma outbox_inserted_appended db0 db rec prev th now db' tn t row s :
  outbox_inserted db0 rec prev th now db' -> turn_record_of (tn, t) row rec ->
  tr_state row = state_name s -> outbox db0 = outbox db -> commit_order db0 = commit_order db ->
  appended db tn t (tr_revision row) s (outbox_key rec)
    (default (outbox_row rec "" VNull 0 0) (outbox db' !! outbox_key rec)) db'.
Proof.
  intros [_ Hf _ Hu _ (occ & _ & ->)] Hrec Hs Ho Hc.
  pose proof (tro_key _ _ _ Hrec) as Hk. injection Hk as Hk1 Hk2.
  pose proof (tro_state _ _ _ Hrec) as Hst. rewrite Hs in Hst. apply state_name_inj in Hst.
  pose proof (tro_revision _ _ _ Hrec) as Hrv. unfold max_ordinal.
  cbn [outbox commit_order order_sequence with_order with_outbox].
  rewrite Ho, Hc, lookup_insert_eq in *. unfold max_ordinal in *. rewrite ?Hc in *.
  split; try done.
  - cbn. rewrite Hk2, Hrv, Hst. done.
  - rewrite <- Hrv, <- Hk1, <- Hk2. done.
Qed.

(** ** The actors *)

Lemma live_set_turn s rev tj th now row :
  live (set_turn s rev tj th now row) <-> is_terminal s = false.
Proof.
  unfold live. simpl. split; [|by exists s].
  intros (s' & Hs & Ht). apply state_name_inj in Hs. by subst.
Qed.

Lemma actor_inv_admit A T tn t row a a' :
  actor_inv A T -> T !! (tn, t) = None ->
  (forall k' r', T !! k' = Some r' -> k'.1 = tn ->
     tr_idempotency_key r' <> tr_idempotency_key row) ->
  live row -> A !! (tn, tr_actor_key row) = Some a -> ar_active_turn_id a = None ->
  ar_active_turn_id a' = Some t ->
  actor_inv (<[(tn, tr_actor_key row) := a']> A) (<[(tn, t) := row]> T).
Proof.
  intros [Hact Hlive Hkeys] Hnew Hfresh Hrow Ha Hfree Hbusy. split.
  - intros tn1 ak a1 t1 Ha1 Ht1. apply lookup_insert_Some in Ha1 as [[[= <- <-] <-]|[Hne Ha1]].
    + rewrite Hbusy in Ht1. injection Ht1 as <-. exists row. by rewrite lookup_insert_eq.
    + destruct (Hact _ _ _ _ Ha1 Ht1) as (r & Hr & Hak & Hl). exists r.
      rewrite lookup_insert_ne by congruence. done.
  - intros tn1 t1 r Hr Hl. apply lookup_insert_Some in Hr as [[[= <- <-] <-]|[Hne Hr]].
    + exists a'. by rewrite lookup_insert_eq.
    + destruct (Hlive _ _ _ Hr Hl) as (a1 & Ha1 & Ht1). exists a1.
      rewrite lookup_insert_ne; [done|]. congruence.
  - intros tn1 t1 t2 r1 r2 H1 H2 Hk.
    apply lookup_insert_Some in H1 as [[[= <- <-] <-]|[? H1]];
      apply lookup_insert_Some in H2 as [[[= <-] <-]|[? H2]]; simplify_eq; eauto.
    + by destruct (Hfresh _ _ H2).
    + by destruct (Hfresh _ _ H1).
Qed.

Lemma actor_inv_change A T tn t row row' a a' :
  actor_inv A T -> T !! (tn, t) = Some row -> tr_actor_key row' = tr_actor_key row ->
  tr_idempotency_key row' = tr_idempotency_key row ->
  A !! (tn, tr_actor_key row) = Some a -> ar_active_turn_id a = Some t ->
  (live row' /\ ar_active_turn_id a' = Some t \/ ~ live row' /\ ar_active_turn_id a' = None) ->
  actor_inv (<[(tn, tr_actor_key row) := a']> A) (<[(tn, t) := row']> T).
Proof.
  intros [Hact Hlive Hkeys] Hrow Hak Hik Ha Ht Hcase. split.
  - intros tn1 ak a1 t1 Ha1 Ht1. apply lookup_insert_Some in Ha1 as [[[= <- <-] <-]|[Hne Ha1]].
    + destruct Hcase as [[Hl Hb]|[_ Hb]]; simplify_eq. exists row'. by rewrite lookup_insert_eq.
    + destruct (Hact _ _ _ _ Ha1 Ht1) as (r & Hr & Hk & Hl). exists r.
      rewrite lookup_insert_ne; [done|]. congruence.
  - intros tn1 t1 r Hr Hl. apply lookup_insert_Some in Hr as [[[= <- <-] <-]|[Hne Hr]].
    + exists a'. rewrite Hak, lookup_insert_eq. destruct Hcase as [[? ?]|[? ?]]; done.
    + destruct (Hlive _ _ _ Hr Hl) as (a1 & Ha1 & Ht1). exists a1.
      rewrite lookup_insert_ne; [done|]. congruence.
  - intros tn1 t1 t2 r1 r2 H1 H2 Hk.
    apply lookup_insert_Some in H1 as [[[= <- <-] <-]|[? H1]];
      apply lookup_insert_Some in H2 as [[[= <-] <-]|[? H2]]; simplify_eq; eauto;
      rewrite ?Hik in Hk; eauto.
Qed.

Lemma micro_actor_inv db db' :
  micro db db' -> actor_inv (actors db) (turns db) -> actor_inv (actors db') (turns db').
Proof.
  intros Hm Hi. destruct Hm as [k a Hn Hf|tn t row a a' s rec now db' Ha
    |tn t row a a' s s' tj th rec now db' Hc|k a a' t row s Ha Ht Hr Hs Hterm Hn
    |k c o o'|k c o v now|k v o|k c o q now err|ev pol db' Hev]; try done.
  5: { by apply m_event_shape in Hev as [row ->]. }
  - destruct Hi as [Hact Hlive Hkeys]. cbn [actors turns with_actors]. split; [| |done].
    + intros tn ak a1 t Ha1 Ht. apply lookup_insert_Some in Ha1 as [[_ <-]|[_ Ha1]];
        [congruence|eauto].
    + intros tn t row Hr Hl. destruct (Hlive _ _ _ Hr Hl) as (a1 & Ha1 & Ht). exists a1.
      rewrite lookup_insert_ne; [done|]. congruence.
  - destruct Ha as [Hf Hk Hs Hini _ Ha Hfree Hbusy _ [_ _ _ _ _ (occ & _ & ->)]].
    eapply actor_inv_admit; eauto. exists s. split; [done|]. by destruct Hini as [->| ->].
  - destruct Hc as [Hr Hf Ht Ha Hact Hl _ [_ _ _ _ _ (occ & _ & ->)]].
    eapply actor_inv_change; eauto; try done. rewrite live_set_turn.
    destruct (is_terminal s'); [by right|by left].
  - exfalso. destruct k as [tn ak]. destruct (ai_active _ _ Hi _ _ _ _ Ha Ht) as (r & Hr' & _ & Hl).
    simpl in Hr. rewrite Hr in Hr'. injection Hr' as <-. destruct Hl as (s' & Hs' & Ht').
    rewrite Hs in Hs'. apply state_name_inj in Hs'. congruence.
Qed.

(** ** The commit order *)

Lemma sql_max_snoc l z :
  Forall (fun x => x < z) l -> sql_max (l ++ [z]) = Some z.
Proof.
  induction 1 as [|x l Hx _ IH]; simpl; [done|]. rewrite IH. f_equal. lia.
Qed.

Lemma ordinals_below co : Forall (fun x => x < default 0 (sql_max co) + 1) co.
Proof.
  pose proof (sql_max_spec co) as Hs. destruct (sql_max co) as [m|]; [|by subst].
  destruct Hs as [_ Hall]. eapply Forall_impl; [exact Hall|]. simpl. lia.
Qed.

Lemma sql_max_nonneg co : Forall (fun x => 0 < x) co -> 0 <= default 0 (sql_max co).
Proof.
  intros Hp. pose proof (sql_max_spec co) as Hs. destruct (sql_max co) as [m|]; [|done].
  destruct Hs as [Hin _]. rewrite Forall_forall in Hp. apply Hp in Hin. simpl. lia.
Qed.

Lemma StronglySorted_snoc {A} (R : A -> A -> Prop) l x :
  StronglySorted R l -> Forall (fun y => R y x) l -> StronglySorted R (l ++ [x]).
Proof.
  induction 1 as [|y l _ IH Hy]; intros Hx; simpl; [repeat constructor|].
  inversion Hx; subst. constructor; [by apply IH|]. apply Forall_app. split; [done|]. auto.
Qed.

Lemma order_inv_update co seq O k o o' :
  order_inv co seq O -> O !! k = Some o -> order_inv co seq (<[k := o']> O).
Proof.
  intros [? ? ? ? Hr] Ho. split; try done. intros k'. rewrite <- Hr.
  destruct (decide (k = k')) as [<-|]; [by rewrite lookup_insert_eq, Ho|].
  by rewrite lookup_insert_ne.
Qed.

Lemma order_row_key n k : co_key (order_row n k) = k.
Proof. by destruct k. Qed.

Lemma order_inv_append db tn t rev s k o db' :
  order_inv (commit_order db) (order_sequence db) (outbox db) ->
  appended db tn t rev s k o db' ->
  order_inv (commit_order db') (order_sequence db') (outbox db').
Proof.
  intros [Hs Hp Hq Hn Hr] [_ _ Hf _ Ho Hc Hsq]. rewrite Ho, Hc, Hsq. unfold max_ordinal.
  pose proof (ordinals_below (map co_ordinal (commit_order db))) as Hb. split.
  - apply StronglySorted_snoc; [done|]. simpl. by apply Forall_map in Hb.
  - apply Forall_app. split; [done|]. repeat constructor. simpl.
    pose proof (sql_max_nonneg (map co_ordinal (commit_order db)) (proj2 (Forall_map _ _ _) Hp)).
    lia.
  - rewrite map_app. simpl. by rewrite sql_max_snoc.
  - rewrite map_app. simpl. rewrite order_row_key. apply NoDup_app. split; [done|].
    split; [|apply NoDup_singleton].
    intros k' Hin%Hr Hk%list_elem_of_singleton. subst k'. by rewrite Hf in Hin.
  - intros k'. rewrite map_app, elem_of_app, <- Hr. simpl.
    rewrite order_row_key, list_elem_of_singleton.
    destruct (decide (k = k')) as [<-|Hne]; [rewrite lookup_insert_eq; naive_solver|].
    rewrite lookup_insert_ne by done. naive_solver.
Qed.

Lemma admitted_appended db tn t row a a' s rec now db' :
  admitted db tn t row a a' s rec now db' ->
  exists k o, appended db tn t 0 s k o db' /\ turns db' = <[(tn, t) := row]> (turns db) /\
    verified db' = verified db /\ quarantine db' = quarantine db /\ events db' = events db.
Proof.
  intros [_ _ Hs _ Hrev _ _ _ Hrec Hout]. rewrite <- Hrev. eexists _, _.
  split; [by eapply outbox_inserted_appended|].
  by destruct Hout as [_ _ _ _ _ (occ & _ & ->)].
Qed.

Lemma changed_appended db tn t row a a' s s' tj th rec now db' :
  changed db tn t row a a' s s' tj th rec now db' ->
  exists k o, appended db tn t (tr_revision row + 1) s' k o db' /\
    turns db' = <[(tn, t) := set_turn s' (tr_revision row + 1) tj th now row]> (turns db) /\
    verified db' = verified db /\ quarantine db' = quarantine db /\ events db' = events db.
Proof.
  intros [_ _ _ _ _ _ Hrec Hout]. eexists _, _.
  split; [by eapply (outbox_inserted_appended _ _ _ _ _ _ _ _ _ _ _ Hout Hrec)|].
  by destruct Hout as [_ _ _ _ _ (occ & _ & ->)].
Qed.

Lemma micro_order_inv db db' :
  micro db db' -> order_inv (commit_order db) (order_sequence db) (outbox db) ->
  order_inv (commit_order db') (order_sequence db') (outbox db').
Proof.
  intros Hm Hi. destruct Hm as [| | | |k c o o' Hh|k c o v now Hh| |k c o q now err Hh
    |ev pol db' Hev]; try done; try (eapply order_inv_update; [done|exact (qh_row _ _ _ _ Hh)]).
  - destruct (admitted_appended _ _ _ _ _ _ _ _ _ _ H0) as (k & o & Ha & _).
    by eapply order_inv_append.
  - destruct (changed_appended _ _ _ _ _ _ _ _ _ _ _ _ _ H0) as (k & o & Ha & _).
    by eapply order_inv_append.
  - by apply m_event_shape in Hev as [row ->].
Qed.

(** ** The log of the turns *)

Lemma entry_inv_update T O co k o o' :
  entry_inv T O co -> O !! k = Some o -> same_entry o o' -> entry_inv T (<[k := o']> O) co.
Proof.
  intros [Hz Ht Ha H1 Ho] Hk (E1 & E2 & E3 & _).
  assert (Hback : forall k1 o1, <[k := o']> O !! k1 = Some o1 -> exists o2, O !! k1 = Some o2 /\
    or_turn_id o1 = or_turn_id o2 /\ or_revision o1 = or_revision o2 /\
    or_event_type o1 = or_event_type o2).
  { intros k1 o1 Hl. apply lookup_insert_Some in Hl as [[<- <-]|[_ Hl]]; eauto. }
  split; [done|..].
  - intros k1 o1 Hl. destruct (Hback _ _ Hl) as (o2 & Hl2 & -> & -> & ->). eauto.
  - intros tn t row n Hr Hn. destruct (Ha _ _ _ _ Hr Hn) as (oid & o1 & Hl & Hx & Hy).
    destruct (decide (k = (tn, oid))) as [->|Hne].
    + exists oid, o'. rewrite lookup_insert_eq. rewrite Hk in Hl. injection Hl as <-.
      by rewrite E1, E2.
    + exists oid, o1. by rewrite lookup_insert_ne.
  - intros k1 k2 o1 o2 Hl1 Hl2. destruct (Hback _ _ Hl1) as (o3 & Hl3 & -> & -> & _).
    destruct (Hback _ _ Hl2) as (o4 & Hl4 & -> & -> & _). eauto.
  - intros c c' o1 o2 Hc Hc' Hl1 Hl2. destruct (Hback _ _ Hl1) as (o3 & Hl3 & -> & -> & _).
    destruct (Hback _ _ Hl2) as (o4 & Hl4 & -> & -> & _). eauto.
Qed.

(** A new row of turn [(tn, t)] at the revision after its earlier rows. *)
Lemma order_row_old db k :
  order_inv (commit_order db) (order_sequence db) (outbox db) -> outbox db !! k = None ->
  forall c, c ∈ commit_order db ->
    co_key c <> k /\ co_ordinal c < default 0 (max_ordinal db) + 1.
Proof.
  intros Hoi Hf c Hc. split.
  - intros Hck. assert (Hin : k ∈ map co_key (commit_order db))
      by (apply list_elem_of_fmap; eauto).
    apply (oi_rows _ _ _ Hoi) in Hin. by rewrite Hf in Hin.
  - pose proof (ordinals_below (map co_ordinal (commit_order db))) as Hb.
    rewrite Forall_forall in Hb. apply Hb, list_elem_of_fmap. eauto.
Qed.

Lemma entry_inv_append db tn t rev s k o db' row :
  order_inv (commit_order db) (order_sequence db) (outbox db) ->
  entry_inv (turns db) (outbox db) (commit_order db) ->
  appended db tn t rev s k o db' -> turns db' = <[(tn, t) := row]> (turns db) ->
  tr_revision row = rev -> tr_state row = state_name s -> 0 <= rev ->
  (forall n, 0 <= n < rev <-> exists oid o', outbox db !! (tn, oid) = Some o' /\
     or_turn_id o' = t /\ or_revision o' = n) ->
  entry_inv (turns db') (outbox db') (commit_order db').
Proof.
  intros Hoi [Hz Ht Ha H1 Ho] [Hk (E1 & E2 & E3 & _) Hf Hu Hout Hord _] HT Hrev Hst Hpos Hlog.
  rewrite HT, Hout, Hord. split.
  - intros k1 r1 Hr. apply lookup_insert_Some in Hr as [[_ <-]|[_ Hr]]; [lia|eauto].
  - intros k1 o1 Hl. apply lookup_insert_Some in Hl as [[<- <-]|[Hne Hl]].
    + exists row. rewrite Hk, E1, lookup_insert_eq, E3, Hst. split; [done|].
      split; [lia|done].
    + destruct (Ht _ _ Hl) as (row1 & Hr1 & Hb & He).
      destruct (decide ((k1.1, or_turn_id o1) = (tn, t))) as [Heq|Hne'].
      * injection Heq as Hk1 Ht1. exists row. rewrite Hk1, Ht1, lookup_insert_eq.
        assert (0 <= or_revision o1 < rev).
        { apply Hlog. exists k1.2, o1. rewrite <- Hk1. by destruct k1. }
        split; [done|]. split; [lia|]. intros; lia.
      * exists row1. by rewrite lookup_insert_ne.
  - intros tn1 t1 row1 n Hr Hn. apply lookup_insert_Some in Hr as [[[= <- <-] <-]|[Hne Hr]].
    + destruct (decide (n = rev)) as [->|].
      * exists k.2, o. rewrite <- Hk. destruct k. by rewrite lookup_insert_eq.
      * destruct (proj1 (Hlog n)) as (oid & o1 & Hl & Hx & Hy); [lia|]. exists oid, o1.
        rewrite lookup_insert_ne; [done|]. congruence.
    + destruct (Ha _ _ _ _ Hr Hn) as (oid & o1 & Hl & Hx & Hy). exists oid, o1.
      rewrite lookup_insert_ne; [done|]. congruence.
  - intros k1 k2 o1 o2 Hl1 Hl2 Hkk Htt Hrr.
    apply lookup_insert_Some in Hl1 as [[<- <-]|[? Hl1]];
      apply lookup_insert_Some in Hl2 as [[<- <-]|[? Hl2]]; eauto.
    + exfalso. apply (Hu k2 o2); congruence.
    + exfalso. apply (Hu k1 o1); congruence.
  - pose proof (order_row_old _ _ Hoi Hf) as Hold.
    intros c c' o1 o2 Hc Hc' Hl1 Hl2 Htn Htt Hrr.
    apply elem_of_app in Hc as [Hc|Hc%list_elem_of_singleton];
      apply elem_of_app in Hc' as [Hc'|Hc'%list_elem_of_singleton]; subst;
      rewrite ?order_row_key, ?lookup_insert_eq in *; simplify_eq.
    + rewrite lookup_insert_ne in Hl1, Hl2 by (apply not_eq_sym; by apply Hold). eauto.
    + apply Hold in Hc as [_ ?]. done.
    + rewrite lookup_insert_ne in Hl2 by (apply not_eq_sym; by apply Hold).
      assert (0 <= or_revision o2 < or_revision o1); [|lia]. apply Hlog.
      exists (co_outbox_id c'), o2. simpl in Htn. by rewrite Htn.
    + lia.
Qed.

Lemma micro_entry_inv db db' :
  micro db db' -> order_inv (commit_order db) (order_sequence db) (outbox db) ->
  entry_inv (turns db) (outbox db) (commit_order db) ->
  entry_inv (turns db') (outbox db') (commit_order db').
Proof.
  intros Hm Hoi Hi.
  destruct Hm as [|tn t row a a' s rec now db' Ha|tn t row a a' s s' tj th rec now db' Hc
    | |k c o o' Hh Hsame|k c o v now Hh| |k c o q now err Hh|ev pol db' Hev]; try done;
    try (eapply entry_inv_update; [done|exact (qh_row _ _ _ _ Hh)|done]).
  - destruct (admitted_appended _ _ _ _ _ _ _ _ _ _ Ha) as (k & o & Hap & HT & _).
    destruct Ha as [Hf _ Hs _ Hrev _ _ _ _ _]. eapply entry_inv_append; eauto; [lia|].
    intros n. split; [lia|]. intros (oid & o' & Hl & Ht & _).
    destruct (ei_turn _ _ _ Hi _ _ Hl) as (r & Hr & _). simpl in Hr. congruence.
  - destruct (changed_appended _ _ _ _ _ _ _ _ _ _ _ _ _ Hc) as (k & o & Hap & HT & _).
    destruct Hc as [Hr _ _ _ _ _ _ _].
    pose proof (ei_nonneg _ _ _ Hi _ _ Hr) as Hpos.
    eapply entry_inv_append; eauto; [lia|].
    intros n. split.
    + intros Hn. destruct (ei_all _ _ _ Hi _ _ _ n Hr) as (oid & o' & Hl & Ht & Hn');
        [lia|eauto].
    + intros (oid & o' & Hl & Ht & <-). destruct (ei_turn _ _ _ Hi _ _ Hl) as (r & Hr' & Hb & _).
      simpl in Hr'. rewrite Ht, Hr in Hr'. injection Hr' as <-. lia.
  - by apply m_event_shape in Hev as [row ->].
Qed.

(** ** What never changes *)

(** The columns of a turn row no operation rewrites. *)
Definition same_turn (r r' : TurnRow) : Prop :=
  tr_actor_key r' = tr_actor_key r /\ tr_subject_id r' = tr_subject_id r /\
  tr_principal_id r' = tr_principal_id r /\ tr_session_id r' = tr_session_id r /\
  tr_idempotency_key r' = tr_idempotency_key r /\ tr_request_json r' = tr_request_json r /\
  tr_authority_json r' = tr_authority_json r /\ tr_deadline_ms r' = tr_deadline_ms r /\
  tr_workspace_id r' = tr_workspace_id r /\ tr_profile_id r' = tr_profile_id r /\
  tr_source_surface r' = tr_source_surface r /\ tr_source_id r' = tr_source_id r /\
  tr_request_hash r' = tr_request_hash r /\ tr_authority_hash r' = tr_authority_hash r /\
  tr_created_at_ms r' = tr_created_at_ms r.

(** [db'] is a later database than [db]: the commit order and the ledger only grew,
    evidence and quarantine rows stay, a delivered outbox row is frozen and any
    other keeps its entry, a terminal turn is frozen and any other keeps its
    identity and does not go back in revision. *)
Record persists (db db' : Db) : Prop := {
  ps_order : commit_order db `prefix_of` commit_order db';
  ps_events : events db `prefix_of` events db';
  ps_verified : verified db ⊆ verified db';
  ps_quarantine : quarantine db ⊆ quarantine db';
  ps_outbox : forall k o, outbox db !! k = Some o -> exists o', outbox db' !! k = Some o' /\
    same_entry o o' /\ (or_status o = "delivered" -> o' = o);
  ps_turns : forall k r, turns db !! k = Some r -> exists r', turns db' !! k = Some r' /\
    same_turn r r' /\ tr_revision r <= tr_revision r' /\
    (forall s, tr_state r = state_name s -> is_terminal s = true -> r' = r)
}.

#[export] Instance persists_preorder : PreOrder persists.
Proof.
  split.
  - intros db. split; try done; intros k x Hx; exists x; repeat split; done.
  - intros db1 db2 db3 [P1 P2 P3 P4 P5 P6] [Q1 Q2 Q3 Q4 Q5 Q6].
    split; [by etrans|by etrans|by etrans|by etrans|..].
    + intros k o Ho. destruct (P5 _ _ Ho) as (o2 & Ho2 & S2 & D2).
      destruct (Q5 _ _ Ho2) as (o3 & Ho3 & S3 & D3). exists o3. split; [done|]. split.
      * unfold same_entry in *. intuition congruence.
      * intros Hd. specialize (D2 Hd). subst. auto.
    + intros k r Hr. destruct (P6 _ _ Hr) as (r2 & Hr2 & S2 & L2 & T2).
      destruct (Q6 _ _ Hr2) as (r3 & Hr3 & S3 & L3 & T3). exists r3. split; [done|].
      split; [unfold same_turn in *; intuition congruence|]. split; [lia|].
      intros s Hs Ht. specialize (T2 _ Hs Ht). subst. eauto.
Qed.

Lemma outbox_frame (O O' : gmap Key OutboxRow) :
  O ⊆ O' -> forall k o, O !! k = Some o -> exists o', O' !! k = Some o' /\
    same_entry o o' /\ (or_status o = "delivered" -> o' = o).
Proof. intros Hsub k o Ho. exists o. split; [by eapply lookup_weaken|done]. Qed.

Lemma outbox_update_frame (O : gmap Key OutboxRow) k o o' :
  O !! k = Some o -> same_entry o o' -> or_status o <> "delivered" ->
  forall k1 o1, O !! k1 = Some o1 -> exists o2, <[k := o']> O !! k1 = Some o2 /\
    same_entry o1 o2 /\ (or_status o1 = "delivered" -> o2 = o1).
Proof.
  intros Ho Hs Hd k1 o1 Ho1. destruct (decide (k = k1)) as [<-|Hne].
  - exists o'. rewrite lookup_insert_eq. rewrite Ho in Ho1. by injection Ho1 as <-.
  - exists o1. by rewrite lookup_insert_ne.
Qed.

Lemma turns_frame (T T' : gmap Key TurnRow) :
  T ⊆ T' -> forall k r, T !! k = Some r -> exists r', T' !! k = Some r' /\ same_turn r r' /\
    tr_revision r <= tr_revision r' /\
    (forall s, tr_state r = state_name s -> is_terminal s = true -> r' = r).
Proof. intros Hsub k r Hr. exists r. split; [by eapply lookup_weaken|]. done. Qed.

Lemma appended_persists db tn t rev s k o db' :
  appended db tn t rev s k o db' -> verified db' = verified db ->
  quarantine db' = quarantine db -> events db' = events db ->
  (forall k r, turns db !! k = Some r -> exists r', turns db' !! k = Some r' /\
     same_turn r r' /\ tr_revision r <= tr_revision r' /\
     (forall s, tr_state r = state_name s -> is_terminal s = true -> r' = r)) ->
  persists db db'.
Proof.
  intros [_ _ Hf _ Ho Hc _] Hv Hq He Ht. split; rewrite ?Hv, ?Hq, ?He; try done.
  - rewrite Hc. by eexists.
  - rewrite Ho. apply outbox_frame. by apply insert_subseteq.
Qed.

Lemma micro_persists db db' : micro db db' -> persists db db'.
Proof.
  destruct 1 as [k a Hn Hf|tn t row a a' s rec now db' Ha
    |tn t row a a' s s' tj th rec now db' Hc|k a a' t row s Ha Ht Hr Hs Hterm Hn
    |k c o o' Hh Hsame|k c o v now Hh _ Hv|k v o Hv|k c o q now err Hh Hq
    |ev pol db' Hev];
    try (split; try done; [by apply outbox_frame|by apply turns_frame]).
  - destruct (admitted_appended _ _ _ _ _ _ _ _ _ _ Ha) as (k & o & Hap & HT & Hv & Hq & He).
    eapply appended_persists; eauto. rewrite HT. apply turns_frame, insert_subseteq.
    apply Ha.
  - destruct (changed_appended _ _ _ _ _ _ _ _ _ _ _ _ _ Hc)
      as (k & o & Hap & HT & Hv & Hq & He).
    eapply appended_persists; eauto. rewrite HT. destruct Hc as [Hr Hs Htab _ _ _ _ _].
    intros k1 r1 Hr1. destruct (decide ((tn, t) = k1)) as [<-|Hne].
    + rewrite lookup_insert_eq. rewrite Hr in Hr1. injection Hr1 as <-. eexists.
      split; [done|]. split; [done|]. simpl. split; [lia|]. intros s1 Hs1 Ht1.
      rewrite Hs in Hs1. apply state_name_inj in Hs1. subst s1.
      by rewrite terminal_no_transition in Htab.
    + exists r1. by rewrite lookup_insert_ne.
  - split; try done; [|by apply turns_frame].
    apply (outbox_update_frame _ _ _ _ (qh_row _ _ _ _ Hh) Hsame (qh_undelivered _ _ _ _ Hh)).
  - split; try done; [by apply insert_subseteq| |by apply turns_frame].
    by apply (outbox_update_frame _ _ _ _ (qh_row _ _ _ _ Hh)); [|apply Hh].
  - split; try done; [by apply insert_subseteq|by apply outbox_frame|by apply turns_frame].
  - split; try done; [by apply insert_subseteq| |by apply turns_frame].
    by apply (outbox_update_frame _ _ _ _ (qh_row _ _ _ _ Hh)); [|apply Hh].
  - apply m_event_shape in Hev as [row ->].
    split; try done; [by eexists|by apply outbox_frame|by apply turns_frame].
Qed.

(** ** Delivery *)

(** Rows are delivered strictly in commit order per tenant, a delivered row has
    its signed ledger event and its evidence, evidence exists for delivered rows
    only, and a quarantined row stays pending. *)
Record delivery_inv (db : Db) : Prop := {
  di_no_hole : forall tn, no_hole db tn;
  di_evidence : forall k o, outbox db !! k = Some o -> or_status o = "delivered" ->
    exists v, verified db !! k = Some v /\ ledger_proof db k v o /\
      genesis_accepted db k.1 (or_turn_id o);
  di_delivered : forall k v, verified db !! k = Some v ->
    exists o, outbox db !! k = Some o /\ or_status o = "delivered";
  di_quarantine : forall k q, quarantine db !! k = Some q ->
    exists o, outbox db !! k = Some o /\ or_status o = "pending"
}.

Lemma ledger_proof_persists db db' k v o :
  persists db db' -> ledger_proof db k v o -> ledger_proof db' k v o.
Proof.
  intros Hp [Hid (e & b & row & He & Hei & Hpr & Hb1 & Hb2 & Hb3 & Hb4 & Hb5 & Hr & Hb6 & Hb7)].
  split; [done|]. destruct (ps_turns _ _ Hp _ _ Hr) as (row' & Hr' & Hsame & _).
  destruct Hsame as (_ & _ & S1 & S2 & _). exists e, b, row'.
  destruct (ps_events _ _ Hp) as [l ->]. rewrite S1, S2.
  split; [set_solver|]. repeat (split; [done|]). done.
Qed.

Lemma genesis_persists db db' tn t :
  persists db db' -> genesis_accepted db tn t -> genesis_accepted db' tn t.
Proof.
  intros Hp (oid & o & Ho & Ht & Hr & Hs).
  destruct (ps_outbox _ _ Hp _ _ Ho) as (o' & Ho' & (E1 & E2 & E3 & _) & _).
  exists oid, o'. by rewrite E1, E2, E3.
Qed.

#[local] Hint Resolve ledger_proof_persists genesis_persists : zaion.

Lemma delivery_inv_append db tn t rev s k o db' :
  order_inv (commit_order db) (order_sequence db) (outbox db) -> delivery_inv db ->
  appended db tn t rev s k o db' -> persists db db' -> verified db' = verified db ->
  quarantine db' = quarantine db -> delivery_inv db'.
Proof.
  intros Hoi [Hn He Hd Hq] [_ (_ & _ & _ & Hst) Hf _ Ho Hc _] Hp Hv Hqq.
  pose proof (order_row_old _ _ Hoi Hf) as Hold.
  assert (Hkeep : forall k1 o1, outbox db !! k1 = Some o1 -> outbox db' !! k1 = Some o1)
    by (intros k1 o1 H1; rewrite Ho, lookup_insert_ne; [done|congruence]).
  split; rewrite ?Hv, ?Hqq.
  - intros tn1 c o1 c' o2 Hin1 Hl1 Hin2 Hl2 Ht1 Ht2 Hu1 Hd2. rewrite Ho in Hl1, Hl2.
    rewrite Hc in Hin1, Hin2.
    apply elem_of_app in Hin2 as [Hin2|Hin2%list_elem_of_singleton]; [|subst c'].
    2: { rewrite order_row_key, lookup_insert_eq in Hl2. congruence. }
    rewrite lookup_insert_ne in Hl2 by (apply not_eq_sym; by apply Hold).
    apply elem_of_app in Hin1 as [Hin1|Hin1%list_elem_of_singleton]; [|subst c].
    + rewrite lookup_insert_ne in Hl1 by (apply not_eq_sym; by apply Hold).
      by eapply (Hn tn1 c o1 c' o2).
    + apply Hold in Hin2 as [_ Hlt]. simpl. lia.
  - intros k1 o1 Hl Hst1. rewrite Ho in Hl.
    apply lookup_insert_Some in Hl as [[_ <-]|[_ Hl]]; [congruence|].
    destruct (He _ _ Hl Hst1) as (v & Hv1 & Hpr & Hg). exists v. eauto with zaion.
  - intros k1 v Hv1. destruct (Hd _ _ Hv1) as (o1 & Hl & Hs1). eauto.
  - intros k1 q Hq1. destruct (Hq _ _ Hq1) as (o1 & Hl & Hs1). eauto.
Qed.

Lemma sorted_lookup co seq O i j c c' :
  order_inv co seq O -> co !! i = Some c -> co !! j = Some c' -> (i < j)%nat ->
  co_ordinal c < co_ordinal c'.
Proof.
  intros [Hs _ _ _ _]. revert i j. induction Hs as [|x l _ IH Hx]; [done|].
  intros [|i] [|j] Hi Hj Hij; simpl in *; try lia.
  - simplify_eq. rewrite Forall_forall in Hx. apply Hx. by eapply list_elem_of_lookup_2.
  - eapply IH; [done..|lia].
Qed.

Lemma order_key_inj co seq O c c' :
  order_inv co seq O -> c ∈ co -> c' ∈ co -> co_key c = co_key c' -> c = c'.
Proof.
  intros Hoi Hc Hc' Hk. apply list_elem_of_lookup in Hc as [i Hi], Hc' as [j Hj].
  assert (i = j) as ->; [|congruence].
  eapply (NoDup_lookup (map co_key co) _ _ (co_key c)); [apply Hoi|..];
    rewrite list_lookup_fmap; [by rewrite Hi|by rewrite Hj, Hk].
Qed.

(** The head is rewritten without being delivered. *)
Lemma delivery_inv_update db db' k c o o' :
  delivery_inv db -> queue_head db k c o -> or_status o' <> "delivered" ->
  outbox db' = <[k := o']> (outbox db) -> commit_order db' = commit_order db ->
  verified db' = verified db -> persists db db' ->
  (forall k1 q, quarantine db' !! k1 = Some q -> k1 = k /\ or_status o' = "pending" \/
     k1 <> k /\ quarantine db !! k1 = Some q) ->
  delivery_inv db'.
Proof.
  intros [Hn He Hd Hq] Hh Hnd Ho Hc Hv Hp Hqq.
  pose proof (qh_row _ _ _ _ Hh) as Hk. pose proof (qh_undelivered _ _ _ _ Hh) as Hu.
  assert (Hsame : forall k1 o1, outbox db !! k1 = Some o1 -> or_status o1 = "delivered" ->
    outbox db' !! k1 = Some o1).
  { intros k1 o1 Hl Hs. rewrite Ho, lookup_insert_ne; [done|]. congruence. }
  split; rewrite ?Hv.
  - intros tn c1 o1 c2 o2 Hin1 Hl1 Hin2 Hl2 Ht1 Ht2 Hu1 Hd2.
    rewrite Hc in Hin1, Hin2. rewrite Ho in Hl1, Hl2.
    apply lookup_insert_Some in Hl2 as [[_ <-]|[_ Hl2]]; [done|].
    apply lookup_insert_Some in Hl1 as [[Hk1 <-]|[_ Hl1]].
    + by eapply (Hn tn c1 o c2 o2); rewrite <- ?Hk1.
    + by eapply (Hn tn c1 o1 c2 o2).
  - intros k1 o1 Hl Hs. rewrite Ho in Hl.
    apply lookup_insert_Some in Hl as [[_ <-]|[_ Hl]]; [done|].
    destruct (He _ _ Hl Hs) as (v & Hv1 & Hpr & Hg). exists v. eauto with zaion.
  - intros k1 v Hv1. destruct (Hd _ _ Hv1) as (o1 & Hl & Hs). eauto.
  - intros k1 q Hq1. destruct (Hqq _ _ Hq1) as [[-> Hs]|[Hne Hq2]].
    + exists o'. by rewrite Ho, lookup_insert_eq.
    + destruct (Hq _ _ Hq2) as (o1 & Hl & Hs). exists o1.
      by rewrite Ho, lookup_insert_ne.
Qed.

(** The head is delivered, with its evidence. *)
Lemma delivery_inv_deliver db k c o v now :
  let o' := set_delivered (vr_ledger_event_id v) now o in
  let db' := with_outbox (with_verified db (<[k := v]> (verified db)))
               (<[k := o']> (outbox db)) in
  order_inv (commit_order db) (order_sequence db) (outbox db) ->
  delivery_inv db -> queue_head db k c o -> or_status o = "leased" ->
  ledger_proof db k v o' -> genesis_accepted db k.1 (or_turn_id o) -> persists db db' ->
  delivery_inv db'.
Proof.
  intros o' db' Hoi [Hn He Hd Hq] Hh Hl Hproof Hgen Hp. pose proof (qh_row _ _ _ _ Hh) as Hk.
  split; cbn [outbox commit_order verified quarantine db' with_outbox with_verified].
  - intros tn c1 o1 c2 o2 Hin1 Hl1 Hin2 Hl2 Ht1 Ht2 Hu1 Hd2. cbn in Hin1, Hin2, Hl1, Hl2.
    apply lookup_insert_Some in Hl1 as [[_ <-]|[Hne1 Hl1]]; [done|].
    apply lookup_insert_Some in Hl2 as [[Hk2 <-]|[_ Hl2]].
    + assert (c2 = c) as ->.
      { eapply order_key_inj; [exact Hoi|done|apply Hh|]. by rewrite (qh_key _ _ _ _ Hh). }
      eapply (qh_first _ _ _ _ Hh); [done|exact Hl1| |done].
      rewrite Hk2. simpl. congruence.
    + by eapply (Hn tn c1 o1 c2 o2).
  - intros k1 o1 Hl1 Hs1. apply lookup_insert_Some in Hl1 as [[<- <-]|[Hne Hl1]].
    + exists v. rewrite lookup_insert_eq. eauto with zaion.
    + destruct (He _ _ Hl1 Hs1) as (v1 & Hv1 & Hpr & Hg). exists v1.
      rewrite lookup_insert_ne by done. eauto with zaion.
  - intros k1 v1 Hv1. apply lookup_insert_Some in Hv1 as [[<- _]|[Hne Hv1]].
    + exists o'. by rewrite lookup_insert_eq.
    + destruct (Hd _ _ Hv1) as (o1 & Hl1 & Hs1). exists o1. by rewrite lookup_insert_ne.
  - intros k1 q Hq1. destruct (Hq _ _ Hq1) as (o1 & Hl1 & Hs1). exists o1.
    rewrite lookup_insert_ne; [done|]. congruence.
Qed.

Lemma delivery_inv_frame db db' :
  delivery_inv db -> outbox db' = outbox db -> commit_order db' = commit_order db ->
  verified db' = verified db -> quarantine db' = quarantine db -> persists db db' ->
  delivery_inv db'.
Proof.
  intros [Hn He Hd Hq] Ho Hc Hv Hqq Hp. split; rewrite ?Ho, ?Hv, ?Hqq; try done.
  - intros tn. unfold no_hole. rewrite Ho, Hc. apply Hn.
  - intros k o Hl Hs. destruct (He _ _ Hl Hs) as (v & Hv1 & Hpr & Hg). exists v. eauto with zaion.
Qed.

Lemma micro_delivery_inv db db' :
  micro db db' -> order_inv (commit_order db) (order_sequence db) (outbox db) ->
  delivery_inv db -> delivery_inv db'.
Proof.
  intros Hm Hoi Hi. pose proof (micro_persists _ _ Hm) as Hp.
  destruct Hm as [| tn t row a a' s rec now db' Ha|tn t row a a' s s' tj th rec now db' Hc
    | |k c o o' Hh Hsame Hnd Hqo|k c o v now Hh Hl Hv Hpr Hg|k v o Hv Ho Hs|k c o q now err Hh Hq
    |ev pol db' Hev]; try (by apply (delivery_inv_frame db)).
  - destruct (admitted_appended _ _ _ _ _ _ _ _ _ _ Ha) as (k & o & Hap & _ & Hv & Hq & _).
    by eapply delivery_inv_append.
  - destruct (changed_appended _ _ _ _ _ _ _ _ _ _ _ _ _ Hc) as (k & o & Hap & _ & Hv & Hq & _).
    by eapply delivery_inv_append.
  - eapply delivery_inv_update; eauto. intros k1 q Hq1. right. split; [|done].
    intros ->. destruct (di_quarantine _ Hi _ _ Hq1) as (o1 & Ho1 & Hs1).
    rewrite (qh_row _ _ _ _ Hh) in Ho1. injection Ho1 as <-.
    destruct Hqo as [Hno|Hle]; cbn in Hq1; congruence.
  - by eapply delivery_inv_deliver.
  - exfalso. destruct (di_evidence _ Hi _ _ Ho Hs) as (v1 & Hv1 & _). congruence.
  - eapply (delivery_inv_update db); eauto; try done. intros k1 q1 Hq1. cbn in Hq1.
    apply lookup_insert_Some in Hq1 as [[<- _]|[Hne Hq1]]; [by left|right; auto].
  - apply m_event_shape in Hev as [row ->]. by apply (delivery_inv_frame db).
Qed.

(** ** All together *)

Record store_inv (db : Db) : Prop := {
  si_actors : actor_inv (actors db) (turns db);
  si_order : order_inv (commit_order db) (order_sequence db) (outbox db);
  si_entries : entry_inv (turns db) (outbox db) (commit_order db);
  si_delivery : delivery_inv db
}.

Lemma micro_store_inv db db' : micro db db' -> store_inv db -> store_inv db'.
Proof.
  intros Hm [? ? ? ?]. split; [by eapply micro_actor_inv|by eapply micro_order_inv
    |by eapply micro_entry_inv|by eapply micro_delivery_inv].
Qed.

Lemma micros_inv db db' : micros db db' -> store_inv db -> store_inv db' /\ persists db db'.
Proof.
  induction 1 as [db|db1 db2 db3 Hm _ IH]; intros Hi; [by split|].
  destruct (IH (micro_store_inv _ _ Hm Hi)) as [Hi' Hp]. split; [done|].
  etrans; [by apply micro_persists|done].
Qed.

Lemma steps_inv db db' : steps db db' -> store_inv db -> store_inv db' /\ persists db db'.
Proof. intros Hs. by apply micros_inv, steps_micros. Qed.

(** A database without turns, actors, outbox rows and evidence, as a new file has
    them; the ledger may hold events. *)
Definition fresh (db : Db) : Prop :=
  actors db = ∅ /\ turns db = ∅ /\ outbox db = ∅ /\ commit_order db = [] /\
  order_sequence db = None /\ verified db = ∅ /\ quarantine db = ∅.

Lemma fresh_inv db : fresh db -> store_inv db.
Proof.
  intros (Ha & Ht & Ho & Hc & Hs & Hv & Hq). split; [split|split|split|split];
    unfold no_hole; rewrite ?Ha, ?Ht, ?Ho, ?Hc, ?Hs, ?Hv, ?Hq; try (intros; by simplify_map_eq);
    try set_solver.
  - constructor.
  - constructor.
Qed.

Lemma reachable_inv db db' : fresh db -> steps db db' -> store_inv db'.
Proof. intros Hf Hs. by destruct (steps_inv _ _ Hs (fresh_inv _ Hf)). Qed.

End Inv.
