(* ===== verification/Scenario.v ===== *)
(** * A worked run over the concrete environment

    One turn of one session, from admission to a delivered ledger event, and a
    turn admitted under approval: the databases the worked examples of the
    properties start from. *)

From stdpp Require Import prelude gmap strings list relations.
From S2P Require Import Prelude.
From S2P Require Import Json.
From S2P Require Import TurnState.
From S2P Require Import TurnKernel.
From S2P Require Import Env.
From S2P Require Import Concrete.
From S2P Require Import Ingress.
From S2P Require Import Schema.
From S2P Require Import Database.
From S2P Require Import Samples.
From S2P Require Import Ledger.
From S2P Require Import LedgerChain.
From S2P Require Import Binding.
From S2P Require Import TurnRecords.
From S2P Require Import TurnStore.
From S2P Require Import StoreLemmas.
From S2P Require Import Outbox.
From S2P Require Import Dispatch.
From S2P Require Import StoreSteps.
From S2P Require Import Machine.
From S2P Require Import StoreInv.
Local Open Scope res_scope.
Local Open Scope Z_scope.

(** The database an operation leaves: on an error the one it had. *)
Definition db_after {E A} (db : Db) (r : result E (A * Db)) : Db :=
  match r with Ok (_, db') => db' | Err _ => db end.

(** What an operation returned, as [f] shows it. *)
Definition returned {E A B} (f : A -> B) (d : B) (r : result E (A * Db)) : B :=
  match r with Ok (a, _) => f a | Err _ => d end.

Definition and_then {E E' A B} (f : A -> result E' B) (e : E') (r : result E A)
  : result E' B :=
  match r with Ok a => f a | Err _ => Err e end.

Definition at_second (n : Z) : Z := n * nanos_per_second.

Definition sc_ingress : AuthenticatedIngress :=
  {| ing_tenant_id := "tenant-1"; ing_subject_id := "subject-1";
     ing_principal_id := principal_id sample_keypair; ing_workspace_id := "workspace-1";
     ing_profile_id := "default"; ing_session_id := "session-1";
     ing_source := {| surface := "cli"; source_id := "msg-1" |};
     ing_deadline := at_second 300; ing_scopes := ["turn:submit"];
     ing_idempotency_key := "request-0001"; ing_attachments := [] |}.

Definition sc_actor : TurnActorIdentity :=
  {| ai_tenant_id := "tenant-1"; ai_actor_key := "actor-1";
     ai_principal_id := principal_id sample_keypair; ai_workspace_id := "workspace-1";
     ai_profile_id := "default"; ai_channel_id := "cli"; ai_thread_id := "main" |}.

Definition sc_admission (approval : bool) : DurableTurnAdmission :=
  {| ad_actor := sc_actor; ad_request := VObject [("prompt", VString "hi")];
     ad_lease_owner := "owner-1"; ad_approval_required := approval |}.

(** Admission at second 1. *)
Definition sc_begin (approval : bool) : result TurnStoreError (BeginTurnResult * Db) :=
  begin_turn sample_db sc_ingress (sc_admission approval) (at_second 1).

Definition sc_db1 : Db := db_after sample_db (sc_begin false).
Definition sc_dba : Db := db_after sample_db (sc_begin true).
Definition sc_turn : string :=
  returned (fun b => t_turn_id (begin_record b)) "" (sc_begin false).

(** The transition to [Routed] at second 2. *)
Definition sc_route : result TurnStoreError (DurableTurnRecord * Db) :=
  store_compare_and_transition sc_db1 "tenant-1" sc_turn "owner-1" Accepted 0 Routed
    (at_second 2).

Definition sc_db2 : Db := db_after sc_db1 sc_route.

(** A worker claims the head at second 3 and appends its event. *)
Definition sc_claim : result TurnStoreError (option TurnOutboxRecord * Db) :=
  claim_next_outbox sc_db1 "u-1" "tenant-1" "worker-1" (at_second 3) (at_second 30).

Definition sc_db3 : Db := db_after sc_db1 sc_claim.
Definition sc_id : string :=
  returned (fun o => default "" (o_outbox_id <$> o)) "" sc_claim.

Definition sc_validated : result TurnStoreError SigningValidatedOutbox :=
  revalidate_outbox_for_signing sample_instance sc_db3 "tenant-1" sc_id "worker-1"
    "outbox-lease-u-1" (at_second 4) sample_handle (public_key_bytes sample_keypair).

Definition sc_append : result LedgerError (VerifiedEventCommit * Db) :=
  and_then (fun v => append_verified_idempotent_event sample_handle sc_db3 "now"
                       sample_keypair (sv_binding v)) Serialization sc_validated.

Definition sc_db4 : Db := db_after sc_db3 sc_append.

Definition sc_complete : result TurnStoreError (OutboxCompletion * Db) :=
  and_then (fun cd => complete_outbox sample_instance sc_db4 sc_db4 "tenant-1" sc_id
                        "worker-1" "outbox-lease-u-1" cd.1 (at_second 5) sample_handle)
    Json sc_append.

Definition sc_db5 : Db := db_after sc_db4 sc_complete.

Lemma sample_fresh : fresh sample_db.
Proof. by repeat split. Qed.

(** ** The runs *)

Lemma db_after_ok {E A} (db : Db) (r : result E (A * Db)) :
  is_ok r = true -> exists a, r = Ok (a, db_after db r).
Proof. destruct r as [[a d]|]; [by exists a|done]. Qed.

Lemma sc_begin_ok : is_ok (sc_begin false) = true.
Proof. vm_compute. reflexivity. Qed.

Lemma sc_begin_approval_ok : is_ok (sc_begin true) = true.
Proof. vm_compute. reflexivity. Qed.

Lemma sc_route_ok : is_ok sc_route = true.
Proof. vm_compute. reflexivity. Qed.

Lemma sc_claim_ok : is_ok sc_claim = true.
Proof. vm_compute. reflexivity. Qed.

Lemma sc_steps1 : steps sample_db sc_db1.
Proof.
  apply rtc_once. destruct (db_after_ok sample_db _ sc_begin_ok) as [r Hr].
  exact (st_begin _ _ _ _ _ _ Hr).
Qed.

Lemma sc_stepsa : steps sample_db sc_dba.
Proof.
  apply rtc_once. destruct (db_after_ok sample_db _ sc_begin_approval_ok) as [r Hr].
  exact (st_begin _ _ _ _ _ _ Hr).
Qed.

Lemma sc_steps2 : steps sample_db sc_db2.
Proof.
  eapply rtc_r; [exact sc_steps1|].
  destruct (db_after_ok sc_db1 _ sc_route_ok) as [r Hr].
  exact (st_transition _ _ _ _ _ _ _ _ _ _ Hr).
Qed.

Lemma sc_steps3 : steps sample_db sc_db3.
Proof.
  eapply rtc_r; [exact sc_steps1|].
  destruct (db_after_ok sc_db1 _ sc_claim_ok) as [r Hr].
  exact (st_claim _ _ _ _ _ _ _ _ Hr).
Qed.

Lemma append_verified_step `{Env} self db created kp b c db' :
  append_verified_idempotent_event self db created kp b = Ok (c, db') -> step db db'.
Proof.
  unfold append_verified_idempotent_event, append_signed_idempotent_event_with_parent.
  intros Ha. destruct (verify_principal_binding _ _); [|done].
  destruct (canonical_database_path _ _); [|done].
  destruct (database_instance_id _ _); [|done]. cbv zeta in Ha.
  destruct (ledger_validate_idempotency_key _); [|done].
  destruct (with_conn _ _ _) as [[id d]|] eqn:E; [|done].
  apply with_conn_inv in E as [E _].
  destruct (append_prepared_event _ _ _) as [[ins d']|] eqn:Ep; [|done]. simplify_eq.
  destruct (bool_decide _); [|done]. ok_inv Ha. simplify_eq. by eapply st_append.
Qed.

Lemma sc_append_ok : is_ok sc_append = true.
Proof. vm_compute. reflexivity. Qed.

Lemma sc_complete_ok : is_ok sc_complete = true.
Proof. vm_compute. reflexivity. Qed.

(** A step whose arguments come from an earlier result. *)
Lemma and_then_step {E E' A B} (db : Db) (f : A -> result E' (B * Db)) (e : E')
    (r : result E A) :
  (forall a b db', f a = Ok (b, db') -> step db db') ->
  is_ok (and_then f e r) = true -> step db (db_after db (and_then f e r)).
Proof.
  intros Hf Hok. destruct (db_after_ok db _ Hok) as [b Hb]. destruct r as [a|]; [|done].
  simpl in *. by eapply Hf.
Qed.

Lemma sc_steps4 : steps sample_db sc_db4.
Proof.
  eapply rtc_r; [exact sc_steps3|]. refine (and_then_step _ _ _ _ _ sc_append_ok).
  intros v c db'. apply append_verified_step.
Qed.

Lemma sc_steps5 : steps sample_db sc_db5.
Proof.
  eapply rtc_r; [exact sc_steps4|]. refine (and_then_step _ _ _ _ _ sc_complete_ok).
  intros cd c db'. apply st_complete.
Qed.
