(* ===== verification/Spec.v ===== *)
(** * The abstract specification: a log of turn state changes

    What the durable turn subsystem promises, without tables, leases and hashes:
    one global append-only log of state changes.  A turn enters the log accepted
    (or waiting for approval) when its actor has no unfinished turn, every later
    entry of it is one legal transition at the next revision, and the entries of a
    tenant are delivered one after the other, in log order.

    [rep] relates a database to its log, and [store_refines_log] is the
    refinement: every run of the operations on the tables is a run of the log. *)

From stdpp Require Import prelude gmap strings list relations sorting.
From S2P Require Import Prelude.
From S2P Require Import Json.
From S2P Require Import TurnState.
From S2P Require Import TurnKernel.
From S2P Require Import Env.
From S2P Require Import Ingress.
From S2P Require Import Schema.
From S2P Require Import Database.
From S2P Require Import Samples.
From S2P Require Import Ledger.
From S2P Require Import LedgerChain.
From S2P Require Import Binding.
From S2P Require Import TurnRecords.
From S2P Require Import TurnStore.
From S2P Require Import StoreLemmas.
From S2P Require Import Outbox.
From S2P Require Import OutboxLemmas.
From S2P Require Import Dispatch.
From S2P Require Import DispatchLemmas.
From S2P Require Import StoreSteps.
From S2P Require Import Machine.
From S2P Require Import StoreInv.
From S2P Require Import Concrete.
From S2P Require Import Scenario.
Local Open Scope res_scope.
Local Open Scope Z_scope.

Record Entry : Type := {
  e_tenant : string;
  e_actor : string;
  e_turn : string;
  e_revision : Z;
  e_state : TurnState;
  e_delivered : bool
}.

(** The last entry of a turn. *)
Definition current (log : list Entry) (tn t : string) : option Entry :=
  last (filter (fun e => e_tenant e = tn /\ e_turn e = t) log).

Definition mark (e : Entry) : Entry :=
  {| e_tenant := e_tenant e; e_actor := e_actor e; e_turn := e_turn e;
     e_revision := e_revision e; e_state := e_state e; e_delivered := true |}.

Inductive spec_step (log : list Entry) : list Entry -> Prop :=
| sp_admit e :
    current log (e_tenant e) (e_turn e) = None ->
    e_revision e = 0 -> e_state e = Accepted \/ e_state e = WaitingApproval ->
    e_delivered e = false ->
    (forall t e', current log (e_tenant e) t = Some e' -> e_actor e' = e_actor e ->
       is_terminal (e_state e') = true) ->
    spec_step log (log ++ [e])
| sp_change e e0 :
    current log (e_tenant e) (e_turn e) = Some e0 ->
    can_transition_to (e_state e0) (e_state e) = true ->
    e_revision e = e_revision e0 + 1 -> e_actor e = e_actor e0 -> e_delivered e = false ->
    spec_step log (log ++ [e])
| sp_deliver i e :
    log !! i = Some e -> e_delivered e = false ->
    (forall j e', (j < i)%nat -> log !! j = Some e' -> e_tenant e' = e_tenant e ->
       e_delivered e' = true) ->
    spec_step log (<[i := mark e]> log).

(** ** The log of a database *)

(** One committed outbox row as a log entry. *)
Definition entry_of (db : Db) (c : OrderRow) (e : Entry) : Prop :=
  exists o row s, outbox db !! co_key c = Some o /\
    turns db !! (co_tenant_id c, or_turn_id o) = Some row /\
    or_event_type o = state_event_type s /\
    e = {| e_tenant := co_tenant_id c; e_actor := tr_actor_key row; e_turn := or_turn_id o;
           e_revision := or_revision o; e_state := s;
           e_delivered := bool_decide (or_status o = "delivered") |}.

Definition rep (db : Db) (log : list Entry) : Prop :=
  Forall2 (entry_of db) (commit_order db) log.

Lemma last_filter {A} (P : A -> Prop) `{!forall x, Decision (P x)} l i x :
  l !! i = Some x -> P x -> (forall j y, (i < j)%nat -> l !! j = Some y -> ~ P y) ->
  last (filter P l) = Some x.
Proof.
  intros Hi Hx Hlater. rewrite <- (take_drop_middle l i x Hi), filter_app, filter_cons_True
    by done.
  assert (filter P (drop (S i) l) = []) as ->; [|by rewrite last_snoc].
  destruct (filter P (drop (S i) l)) as [|y r] eqn:E; [done|exfalso].
  assert (Hy : y ∈ filter P (drop (S i) l)) by (rewrite E; set_solver).
  apply list_elem_of_filter in Hy as [HP Hy]. apply list_elem_of_lookup in Hy as [j Hj].
  rewrite lookup_drop in Hj. eapply Hlater; [|exact Hj|done]. lia.
Qed.

Lemma state_event_type_inj s s' : state_event_type s = state_event_type s' -> s = s'.
Proof. unfold state_event_type. intros E. apply (inj _) in E. by apply state_name_inj. Qed.

Section Spec.
Context `{Env}.

Lemma rep_nil db : commit_order db = [] -> rep db [].
Proof. intros Hc. unfold rep. rewrite Hc. constructor. Qed.

(** The last log entry of a turn shows its row. *)
Lemma current_row db log tn t row :
  store_inv db -> rep db log -> turns db !! (tn, t) = Some row ->
  exists e, current log tn t = Some e /\ e_revision e = tr_revision row /\
    state_name (e_state e) = tr_state row /\ e_actor e = tr_actor_key row.
Proof.
  intros [_ Hoi Hei _] Hrep Hrow.
  destruct (ei_all _ _ _ Hei _ _ _ (tr_revision row) Hrow) as (oid & o & Ho & Ht & Hr).
  { pose proof (ei_nonneg _ _ _ Hei _ _ Hrow). lia. }
  assert (Hin : (tn, oid) ∈ map co_key (commit_order db))
    by (apply (oi_rows _ _ _ Hoi); by rewrite Ho).
  apply list_elem_of_fmap in Hin as (c & Hk & Hc). apply list_elem_of_lookup in Hc as [i Hi].
  destruct (Forall2_lookup_l _ _ _ _ _ Hrep Hi) as (e & He & (o' & row' & s & Ho' & Hrow' & Hs & Hdef)).
  rewrite <- Hk, Ho in Ho'. injection Ho' as <-.
  assert (Htn : co_tenant_id c = tn) by (by injection Hk).
  rewrite Htn, Ht, Hrow in Hrow'. injection Hrow' as <-.
  exists e. rewrite Htn, Ht in Hdef.
  split; [|subst e; cbn [e_revision e_state e_actor]; split; [done|split; [|done]]].
  - eapply last_filter; [exact He|by subst e|]. intros j e' Hij He' [Htn' Ht'].
    destruct (Forall2_lookup_r _ _ _ _ _ Hrep He') as (c' & Hc' & (o1 & row1 & s1 & Ho1 & Hr1 & _ & ->)).
    simpl in Htn', Ht'. rewrite Htn', Ht', Hrow in Hr1. injection Hr1 as <-.
    destruct (ei_turn _ _ _ Hei _ _ Ho1) as (row2 & Hrow2 & Hb & _).
    simpl in Hrow2. rewrite Htn', Ht', Hrow in Hrow2. injection Hrow2 as <-.
    pose proof (sorted_lookup _ _ _ _ _ _ _ Hoi Hi Hc' Hij) as Hlt.
    destruct (decide (or_revision o1 = or_revision o)) as [Heq|Hne].
    + assert (co_key c' = co_key c) as Hkk.
      { rewrite <- Hk. by eapply (ei_once _ _ _ Hei _ _ _ _ Ho1 Ho); [|congruence|]. }
      assert (c' = c) as ->; [|lia].
      eapply order_key_inj; [exact Hoi|by eapply list_elem_of_lookup_2..|done].
    + assert (co_ordinal c' < co_ordinal c); [|lia]. rewrite Hk in Ho.
      eapply (ei_order _ _ _ Hei c' c o1 o); try by eapply list_elem_of_lookup_2.
      all: try done; try congruence; lia.
  - destruct (ei_turn _ _ _ Hei _ _ Ho) as (row2 & Hrow2 & _ & Hty). simpl in Hrow2.
    rewrite Ht, Hrow in Hrow2. injection Hrow2 as <-. specialize (Hty Hr).
    rewrite Hs in Hty. unfold state_event_type in Hty. by apply (inj _) in Hty.
Qed.

Lemma current_elem log tn t e :
  current log tn t = Some e -> e ∈ log /\ e_tenant e = tn /\ e_turn e = t.
Proof.
  unfold current. intros Hl. apply last_Some_elem_of, list_elem_of_filter in Hl. tauto.
Qed.

Lemma current_turn db log tn t e :
  rep db log -> current log tn t = Some e -> exists row, turns db !! (tn, t) = Some row.
Proof.
  intros Hrep Hc. apply current_elem in Hc as (Hin & <- & <-).
  apply list_elem_of_lookup in Hin as [i Hi].
  destruct (Forall2_lookup_r _ _ _ _ _ Hrep Hi) as (c & _ & (o & row & s & _ & Hr & _ & ->)).
  by exists row.
Qed.

(** Rows that keep their entry and their delivery keep the log. *)
Lemma rep_frame db db' log :
  rep db log -> commit_order db' = commit_order db -> persists db db' ->
  (forall k o o', outbox db !! k = Some o -> outbox db' !! k = Some o' ->
     (or_status o = "delivered" <-> or_status o' = "delivered")) ->
  rep db' log.
Proof.
  intros Hrep Hc Hp Hd. unfold rep. rewrite Hc. eapply Forall2_impl; [exact Hrep|].
  intros c e (o & row & s & Ho & Hr & Hs & ->).
  destruct (ps_outbox _ _ Hp _ _ Ho) as (o' & Ho' & (E1 & E2 & E3 & _) & _).
  destruct (ps_turns _ _ Hp _ _ Hr) as (row' & Hr' & (E4 & _) & _).
  exists o', row', s. rewrite E1, E2, E3, E4. do 3 (split; [done|]). f_equal.
  apply bool_decide_ext. by eapply Hd.
Qed.

Lemma rep_append db db' log tn t rev s k o row :
  order_inv (commit_order db) (order_sequence db) (outbox db) ->
  rep db log -> appended db tn t rev s k o db' -> persists db db' ->
  turns db' !! (tn, t) = Some row ->
  rep db' (log ++ [{| e_tenant := tn; e_actor := tr_actor_key row; e_turn := t;
                      e_revision := rev; e_state := s; e_delivered := false |}]).
Proof.
  intros Hoi Hrep [Hk (E1 & E2 & E3 & E4) Hf _ Ho Hc _] Hp Hrow. unfold rep. rewrite Hc.
  apply Forall2_app.
  - eapply Forall2_impl; [exact Hrep|]. intros c e (o1 & row1 & s1 & Ho1 & Hr1 & Hs1 & ->).
    destruct (ps_turns _ _ Hp _ _ Hr1) as (row' & Hr' & (E5 & _) & _).
    exists o1, row', s1. rewrite Ho, lookup_insert_ne by congruence. by rewrite E5.
  - constructor; [|constructor]. exists o, row, s.
    rewrite Ho, order_row_key, lookup_insert_eq. simpl. rewrite Hk, E1, E2.
    split; [done|]. split; [done|]. split; [done|]. f_equal. by rewrite E4.
Qed.

Lemma refines_admit db log tn t row a a' s rec now db' :
  store_inv db -> rep db log -> admitted db tn t row a a' s rec now db' -> persists db db' ->
  exists log', spec_step log log' /\ rep db' log'.
Proof.
  intros Hi Hrep Ha Hp.
  destruct (admitted_appended _ _ _ _ _ _ _ _ _ _ Ha) as (k & o & Hap & HT & _).
  destruct Ha as [Hf _ _ Hini _ Hact Hfree _ _ _].
  eexists. split; [|eapply (rep_append _ _ _ _ _ _ _ _ _ row (si_order _ Hi) Hrep Hap Hp);
    by rewrite HT, lookup_insert_eq].
  apply sp_admit; cbn [e_tenant e_turn e_revision e_state e_delivered e_actor]; try done.
  - destruct (current log tn t) as [e|] eqn:Ec; [|done].
    destruct (current_turn _ _ _ _ _ Hrep Ec) as [row' Hr']. congruence.
  - intros t' e' Hc Hact'. destruct (current_turn _ _ _ _ _ Hrep Hc) as [row' Hr'].
    destruct (current_row _ _ _ _ _ Hi Hrep Hr') as (e1 & Hc1 & _ & Hst & Hak).
    rewrite Hc in Hc1. injection Hc1 as <-. destruct (is_terminal (e_state e')) eqn:Et; [done|].
    destruct (ai_live _ _ (si_actors _ Hi) _ _ _ Hr') as (a1 & Ha1 & Ht1).
    { exists (e_state e'). by rewrite Hst. }
    rewrite <- Hak, Hact' in Ha1. congruence.
Qed.

Lemma refines_change db log tn t row a a' s s' tj th rec now db' :
  store_inv db -> rep db log -> changed db tn t row a a' s s' tj th rec now db' ->
  persists db db' -> exists log', spec_step log log' /\ rep db' log'.
Proof.
  intros Hi Hrep Hc Hp.
  destruct (changed_appended _ _ _ _ _ _ _ _ _ _ _ _ _ Hc) as (k & o & Hap & HT & _).
  destruct Hc as [Hr Hs Htab _ _ _ _ _].
  destruct (current_row _ _ _ _ _ Hi Hrep Hr) as (e0 & Hcur & Hrev & Hst & Hak).
  eexists. split; [|eapply (rep_append _ _ _ _ _ _ _ _ _ _ (si_order _ Hi) Hrep Hap Hp);
    by rewrite HT, lookup_insert_eq].
  eapply sp_change; cbn [e_tenant e_turn e_revision e_state e_delivered e_actor];
    [exact Hcur| |by rewrite Hrev|by rewrite Hak|done].
  rewrite Hs in Hst. apply state_name_inj in Hst. by rewrite Hst.
Qed.

(** A key occurs at one place of the commit order. *)
Lemma order_lookup_inj db i j c c' :
  store_inv db -> commit_order db !! i = Some c -> commit_order db !! j = Some c' ->
  co_key c' = co_key c -> j = i.
Proof.
  intros Hi Hc Hc' Hk. assert (c' = c) as ->.
  { eapply order_key_inj; [apply Hi|by eapply list_elem_of_lookup_2..|done]. }
  destruct (decide (j = i)) as [|Hne]; [done|exfalso].
  assert (j < i \/ i < j)%nat as [Hlt|Hlt] by lia;
    [pose proof (sorted_lookup _ _ _ _ _ _ _ (si_order _ Hi) Hc' Hc Hlt)
    |pose proof (sorted_lookup _ _ _ _ _ _ _ (si_order _ Hi) Hc Hc' Hlt)]; lia.
Qed.

Lemma rep_deliver db log i k c o v now row s :
  store_inv db -> rep db log -> commit_order db !! i = Some c -> co_key c = k ->
  turns db !! (co_tenant_id c, or_turn_id o) = Some row ->
  or_event_type o = state_event_type s ->
  rep (with_outbox (with_verified db (<[k := v]> (verified db)))
         (<[k := set_delivered (vr_ledger_event_id v) now o]> (outbox db)))
    (<[i := mark {| e_tenant := co_tenant_id c; e_actor := tr_actor_key row;
       e_turn := or_turn_id o; e_revision := or_revision o; e_state := s;
       e_delivered := bool_decide (or_status o = "delivered") |}]> log).
Proof.
  intros Hi Hrep Hc <- Hr Hs. unfold rep. cbn [commit_order with_outbox with_verified].
  apply Forall2_same_length_lookup_2.
  { rewrite length_insert. by eapply Forall2_length. }
  pose proof (Forall2_length _ _ _ Hrep) as Hlen.
  intros j c' e' Hc' He'. destruct (decide (j = i)) as [->|Hne].
  - rewrite Hc in Hc'. injection Hc' as <-.
    rewrite list_lookup_insert_eq in He'
      by (rewrite <- Hlen; by eapply lookup_lt_Some).
    injection He' as <-. exists (set_delivered (vr_ledger_event_id v) now o), row, s.
    cbn [outbox turns with_outbox with_verified]. rewrite lookup_insert_eq. done.
  - rewrite list_lookup_insert_ne in He' by done.
    destruct (Forall2_lookup_lr _ _ _ _ _ _ Hrep Hc' He')
      as (o' & row' & s' & Ho' & Hr' & Hs' & ->).
    exists o', row', s'. cbn [outbox turns with_outbox with_verified].
    rewrite lookup_insert_ne; [done|]. intros Hk. apply Hne. by eapply order_lookup_inj.
Qed.

Lemma refines_deliver db log k c o v now :
  let db' := with_outbox (with_verified db (<[k := v]> (verified db)))
               (<[k := set_delivered (vr_ledger_event_id v) now o]> (outbox db)) in
  store_inv db -> rep db log -> queue_head db k c o ->
  exists log', spec_step log log' /\ rep db' log'.
Proof.
  intros db' Hi Hrep Hh. pose proof (qh_order _ _ _ _ Hh) as Hc.
  apply list_elem_of_lookup in Hc as [i Hc].
  destruct (Forall2_lookup_l _ _ _ _ _ Hrep Hc) as (e & He & Hof).
  pose proof Hof as (o1 & row & s & Ho1 & Hr & Hs & ->).
  rewrite (qh_key _ _ _ _ Hh), (qh_row _ _ _ _ Hh) in Ho1. injection Ho1 as <-.
  exists (<[i := mark {| e_tenant := co_tenant_id c; e_actor := tr_actor_key row;
    e_turn := or_turn_id o; e_revision := or_revision o; e_state := s;
    e_delivered := bool_decide (or_status o = "delivered") |}]> log). split.
  - apply sp_deliver; [done| |].
    + simpl. apply bool_decide_eq_false, Hh.
    + intros j e' Hij He' Ht.
      destruct (Forall2_lookup_r _ _ _ _ _ Hrep He') as (c' & Hc' & (o' & row' & s' & Ho' & _ & _ & ->)).
      simpl in *. apply bool_decide_eq_true.
      destruct (decide (or_status o' = "delivered")) as [|Hnd]; [done|exfalso].
      pose proof (sorted_lookup _ _ _ _ _ _ _ (si_order _ Hi) Hc' Hc Hij).
      assert (co_ordinal c <= co_ordinal c'); [|lia].
      eapply (qh_first _ _ _ _ Hh); [by eapply list_elem_of_lookup_2|exact Ho'| |done].
      rewrite <- (qh_key _ _ _ _ Hh). by simpl.
  - subst db'. eapply rep_deliver; [done..| |done|done]. apply (qh_key _ _ _ _ Hh).
Qed.

Lemma micro_refines db db' log :
  micro db db' -> store_inv db -> rep db log ->
  exists log', rtc spec_step log log' /\ rep db' log'.
Proof.
  intros Hm Hi Hrep. pose proof (micro_persists _ _ Hm) as Hp.
  assert (Hone : (exists log', spec_step log log' /\ rep db' log') ->
    exists log', rtc spec_step log log' /\ rep db' log').
  { intros (log' & Hs & Hr). exists log'. split; [by apply rtc_once|done]. }
  assert (Hsame : outbox db' = outbox db -> commit_order db' = commit_order db ->
    exists log', rtc spec_step log log' /\ rep db' log').
  { intros Ho Hc. exists log. split; [done|]. eapply rep_frame; eauto.
    rewrite Ho. intros k o o' E1 E2. rewrite E1 in E2. by injection E2 as <-. }
  assert (Hundel : forall k c o o', queue_head db k c o -> or_status o' <> "delivered" ->
    outbox db' = <[k := o']> (outbox db) -> commit_order db' = commit_order db ->
    exists log', rtc spec_step log log' /\ rep db' log').
  { intros k c o o' Hh Hnd Ho Hc. exists log. split; [done|]. eapply rep_frame; eauto.
    rewrite Ho. intros k1 o1 o2 E1 E2.
    apply lookup_insert_Some in E2 as [[<- <-]|[_ E2]]; [|by rewrite E1 in E2; injection E2 as <-].
    rewrite (qh_row _ _ _ _ Hh) in E1. injection E1 as <-.
    pose proof (qh_undelivered _ _ _ _ Hh). tauto. }
  destruct Hm as [|tn t row a a' s rec now db' Ha|tn t row a a' s s' tj th rec now db' Hc
    | |k c o o' Hh Hsm Hnd|k c o v now Hh| |k c o q now err Hh
    |ev pol db' Hev]; try (by apply Hsame).
  - by eapply Hone, refines_admit.
  - by eapply Hone, refines_change.
  - by apply (Hundel k c o o').
  - by eapply Hone, refines_deliver.
  - by apply (Hundel k c o (set_pending now now err o)).
  - apply m_event_shape in Hev as [row ->]. by apply Hsame.
Qed.

Lemma micros_refine db db' log :
  micros db db' -> store_inv db -> rep db log ->
  exists log', rtc spec_step log log' /\ rep db' log'.
Proof.
  intros Hms. revert log.
  induction Hms as [db|db1 db2 db3 Hm _ IH]; intros log Hi Hr; [by exists log|].
  destruct (micro_refines _ _ _ Hm Hi Hr) as (log1 & Hs1 & Hr1).
  destruct (IH log1 (micro_store_inv _ _ Hm Hi) Hr1) as (log2 & Hs2 & Hr2).
  exists log2. split; [by etrans|done].
Qed.

(** C1.  Refinement.  Whatever sequence of operations (admissions, transitions,
    approvals, recoveries, claims, releases, renewals, quarantines, completions
    and ledger appends, with any arguments and in any interleaving) runs on a new
    database, the outbox in commit order is a log the abstract specification can
    produce: turns start accepted or waiting for approval under an idle actor,
    each later entry is one legal transition of the turn's last entry, and entries
    are delivered tenant by tenant in log order. *)
Theorem store_refines_log db db' :
  fresh db -> steps db db' ->
  exists log, rtc spec_step [] log /\ rep db' log.
Proof.
  intros Hf Hs. eapply micros_refine; [by apply steps_micros|by apply fresh_inv|].
  apply rep_nil. apply Hf.
Qed.

End Spec.

Lemma store_refines_log_witness :
  exists log, rtc spec_step [] log /\ rep sc_db2 log.
Proof.
  apply (store_refines_log sample_db sc_db2); [exact sample_fresh|exact sc_steps2].
Defined.
