(* ===== verification/StoreOpenLemmas.v ===== *)
(** * Lemmas on reopening a turn store

    What [open] checks of an existing database, as an invariant of the operations:
    the identity and the schema never change, every turn has its actor, the commit
    order holds transactional rows only, and quarantine and verified-commit evidence
    keep matching the rows they are about. *)

From stdpp Require Import prelude gmap strings list relations sorting.
From S2P Require Import Prelude.
From S2P Require Import Env.
From S2P Require Import Schema.
From S2P Require Import Database.
From S2P Require Import Ledger.
From S2P Require Import LedgerChain.
From S2P Require Import Binding.
From S2P Require Import TurnRecords.
From S2P Require Import TurnStore.
From S2P Require Import StoreLemmas.
From S2P Require Import Outbox.
From S2P Require Import OutboxLemmas.
From S2P Require Import Dispatch.
From S2P Require Import StoreSteps.
From S2P Require Import Machine.
From S2P Require Import StoreInv.
From S2P Require Import ChainMigration.
From S2P Require Import ChainMigrationLemmas.
From S2P Require Import ChainMigrationTheorems.
From S2P Require Import StoreOpen.
Local Open Scope res_scope.
Local Open Scope Z_scope.

Section Reopen.
Context `{Env}.

(** ** What no operation changes *)

Definition static (db db' : Db) : Prop :=
  sqlite_master db' = sqlite_master db /\ identity_rows db' = identity_rows db /\
  ledger_migrations db' = ledger_migrations db.

Lemma micro_static db db' : micro db db' -> static db db'.
Proof.
  destruct 1 as [|tn t row a a' s rec now db' Ha|tn t row a a' s s' tj th rec now db' Hc
    | | | | | |ev pol db' Hev]; try done.
  - by destruct (adm_outbox _ _ _ _ _ _ _ _ _ _ Ha) as [_ _ _ _ _ (occ & _ & ->)].
  - by destruct (chg_outbox _ _ _ _ _ _ _ _ _ _ _ _ _ Hc) as [_ _ _ _ _ (occ & _ & ->)].
  - by apply m_event_shape in Hev as [row ->].
Qed.

Lemma static_validated db db' :
  static db db' -> validated_database_instance_id db' = validated_database_instance_id db.
Proof.
  intros (Hm & Hi & Hl). unfold validated_database_instance_id, read_database_instance_id.
  by rewrite Hm, Hi, Hl.
Qed.

(** ** The invariant *)

Record reopen_inv (db : Db) : Prop := {
  ro_actor : forall k r, turns db !! k = Some r -> actors db !! (k.1, tr_actor_key r) <> None;
  ro_origin : Forall (fun c => co_order_origin c = "transactional") (commit_order db);
  ro_quarantine : forall k q, quarantine db !! k = Some q -> quarantine_row_ok db k q = true;
  ro_instance : forall k v, verified db !! k = Some v ->
    validated_database_instance_id db = Ok (vr_database_instance_id v);
  ro_chains : chains_intact (events db)
}.

Lemma fresh_reopen db : fresh db -> chains_intact (events db) -> reopen_inv db.
Proof.
  intros (Ha & Ht & Ho & Hc & Hs & Hv & Hq) Hch.
  split; rewrite ?Ht, ?Hc, ?Hq, ?Hv; intros; by simplify_map_eq.
Qed.

Lemma order_of_app db db' k c :
  order_of db k = Some c -> commit_order db `prefix_of` commit_order db' ->
  order_of db' k = Some c.
Proof.
  unfold order_of. intros Hf [l ->]. rewrite filter_app.
  by destruct (filter _ (commit_order db)).
Qed.

(** A quarantined row stays as it was quarantined. *)
Lemma quarantine_row_persists db db' k q :
  persists db db' ->
  (forall o, outbox db !! k = Some o -> outbox db' !! k = Some o) ->
  quarantine_row_ok db k q = true -> quarantine_row_ok db' k q = true.
Proof.
  intros Hp Ho. unfold quarantine_row_ok.
  destruct (outbox db !! k) as [o|] eqn:Eo; [|done]. rewrite (Ho o eq_refl).
  destruct (order_of db k) as [c|] eqn:Ec; [|done].
  rewrite (order_of_app _ _ _ _ Ec (ps_order _ _ Hp)).
  destruct (turns db !! (k.1, or_turn_id o)) as [r|] eqn:Er; [|done].
  destruct (ps_turns _ _ Hp _ _ Er) as (r' & -> & (_ & _ & Hpr & _) & _). by rewrite Hpr.
Qed.

Lemma guard_row_ok db k q c o now err :
  queue_head db k c o -> quarantine_guard_ok db k q = true ->
  quarantine_row_ok (with_outbox (with_quarantine db (<[k := q]> (quarantine db)))
                       (<[k := set_pending now now err o]> (outbox db))) k q = true.
Proof.
  intros Hh. unfold quarantine_guard_ok, quarantine_row_ok. cbn [outbox turns with_outbox
    with_quarantine]. rewrite lookup_insert_eq, (qh_row _ _ _ _ Hh).
  change (order_of (with_outbox _ _) k) with (order_of db k).
  destruct (order_of db k) as [c'|]; [|done]. simpl.
  destruct (turns db !! (k.1, or_turn_id o)) as [r|]; [|done].
  intros Hg. bool_props. rewrite !andb_true_iff. repeat split.
  - by apply bool_decide_eq_true_2.
  - by apply bool_decide_eq_true_2.
  - apply bool_decide_eq_true_2. lia.
  - by apply bool_decide_eq_true_2.
Qed.

(** The rows that are in quarantine are not the ones an operation updates. *)
Lemma quarantined_row_fixed db db' k q o :
  micro db db' -> store_inv db -> quarantine db !! k = Some q ->
  outbox db !! k = Some o -> outbox db' !! k = Some o.
Proof.
  intros Hm Hi Hq Ho. destruct (di_quarantine _ (si_delivery _ Hi) _ _ Hq) as (o1 & Ho1 & Hs1).
  rewrite Ho in Ho1. injection Ho1 as <-.
  destruct Hm as [| tn t row a a' s rec now db' Ha|tn t row a a' s s' tj th rec now db' Hc
    | |k1 c o1 o' Hh Hsame Hnd Hqo|k1 c o1 v now Hh Hl|k1 v o1|k1 c o1 q1 now err Hh Hq1
    |ev pol db' Hev]; try done.
  - destruct (admitted_appended _ _ _ _ _ _ _ _ _ _ Ha) as (k1 & o1 & Hap & _).
    rewrite (ap_outbox _ _ _ _ _ _ _ _ Hap), lookup_insert_ne; [done|].
    pose proof (ap_fresh _ _ _ _ _ _ _ _ Hap). congruence.
  - destruct (changed_appended _ _ _ _ _ _ _ _ _ _ _ _ _ Hc) as (k1 & o1 & Hap & _).
    rewrite (ap_outbox _ _ _ _ _ _ _ _ Hap), lookup_insert_ne; [done|].
    pose proof (ap_fresh _ _ _ _ _ _ _ _ Hap). congruence.
  - simpl. rewrite lookup_insert_ne; [done|]. intros ->.
    pose proof (qh_row _ _ _ _ Hh) as Hr. rewrite Ho in Hr. injection Hr as <-.
    destruct Hqo; congruence.
  - simpl. rewrite lookup_insert_ne; [done|]. intros ->.
    pose proof (qh_row _ _ _ _ Hh) as Hr. rewrite Ho in Hr. congruence.
  - simpl. rewrite lookup_insert_ne; [done|]. congruence.
  - apply m_event_shape in Hev as [row ->]. done.
Qed.

(** The identity the evidence of a delivery names is the one of the database. *)
Lemma delivery_checked_instance db k o v :
  delivery_checked db k o v ->
  validated_database_instance_id db = Ok (vr_database_instance_id v).
Proof.
  intros (turn & h & e & commit & _ & _ & _ & _ & Hv & _ & <-).
  unfold verify_existing_idempotent_event_in_connection in Hv. cbv zeta in Hv.
  ok_inv Hv. simplify_eq. done.
Qed.

Lemma appended_origin db tn t rev s k o db' :
  appended db tn t rev s k o db' ->
  Forall (fun c => co_order_origin c = "transactional") (commit_order db) ->
  Forall (fun c => co_order_origin c = "transactional") (commit_order db').
Proof.
  intros Ha Hf. rewrite (ap_order _ _ _ _ _ _ _ _ Ha). apply Forall_app. split; [done|].
  by repeat constructor.
Qed.

Lemma micro_origin db db' :
  micro db db' -> Forall (fun c => co_order_origin c = "transactional") (commit_order db) ->
  Forall (fun c => co_order_origin c = "transactional") (commit_order db').
Proof.
  destruct 1 as [|tn t row a a' s rec now db' Ha|tn t row a a' s s' tj th rec now db' Hc
    | | | | | |ev pol db' Hev]; try done.
  - destruct (admitted_appended _ _ _ _ _ _ _ _ _ _ Ha) as (k & o & Hap & _).
    by eapply appended_origin.
  - destruct (changed_appended _ _ _ _ _ _ _ _ _ _ _ _ _ Hc) as (k & o & Hap & _).
    by eapply appended_origin.
  - by apply m_event_shape in Hev as [row ->].
Qed.

Lemma actors_keep db db' :
  micro db db' -> forall k, actors db !! k <> None -> actors db' !! k <> None.
Proof.
  intros Hm k Hk. destruct Hm as [|tn t row a a' s rec now db' Ha|tn t row a a' s s' tj th rec now db' Hc
    | | | | | |ev pol db' Hev]; try done.
  - simpl. rewrite lookup_insert_None. naive_solver.
  - destruct (adm_outbox _ _ _ _ _ _ _ _ _ _ Ha) as [_ _ _ _ _ (occ & _ & ->)].
    simpl. rewrite lookup_insert_None. naive_solver.
  - destruct (chg_outbox _ _ _ _ _ _ _ _ _ _ _ _ _ Hc) as [_ _ _ _ _ (occ & _ & ->)].
    simpl. rewrite lookup_insert_None. naive_solver.
  - simpl. rewrite lookup_insert_None. naive_solver.
  - by apply m_event_shape in Hev as [row ->].
Qed.

Definition actors_exist (db : Db) : Prop :=
  forall k r, turns db !! k = Some r -> actors db !! (k.1, tr_actor_key r) <> None.

Lemma micro_actors_exist db db' : micro db db' -> actors_exist db -> actors_exist db'.
Proof.
  intros Hm Hi k r Hr. pose proof (actors_keep _ _ Hm) as Hk. revert Hr.
  destruct Hm as [|tn t row a a' s rec now db' Ha|tn t row a a' s s' tj th rec now db' Hc
    | | | | | |ev pol db' Hev]; intros Hr; try (apply Hk; by apply (Hi k r)).
  - pose proof (adm_actor _ _ _ _ _ _ _ _ _ _ Ha) as Hrow.
    destruct (adm_outbox _ _ _ _ _ _ _ _ _ _ Ha) as [_ _ _ _ _ (occ & _ & ->)].
    apply Hk. cbn [turns with_order with_outbox with_turn_actor with_actors with_turns] in Hr.
    apply lookup_insert_Some in Hr as [[<- <-]|[_ Hr]]; [simpl; congruence|by apply (Hi k r)].
  - pose proof (chg_actor _ _ _ _ _ _ _ _ _ _ _ _ _ Hc) as Hrow.
    destruct (chg_outbox _ _ _ _ _ _ _ _ _ _ _ _ _ Hc) as [_ _ _ _ _ (occ & _ & ->)].
    apply Hk. cbn [turns with_order with_outbox with_turn_actor with_actors with_turns] in Hr.
    apply lookup_insert_Some in Hr as [[<- <-]|[_ Hr]]; [simpl; congruence|by apply (Hi k r)].
  - apply Hk. apply m_event_shape in Hev as [row ->]. by apply (Hi k r).
Qed.

Lemma micro_quarantine_ok db db' :
  micro db db' -> store_inv db ->
  (forall k q, quarantine db !! k = Some q -> quarantine_row_ok db k q = true) ->
  forall k q, quarantine db' !! k = Some q -> quarantine_row_ok db' k q = true.
Proof.
  intros Hm Hi Hq k q Hkq. pose proof (micro_persists _ _ Hm) as Hp.
  assert (Hold : quarantine db !! k = Some q -> quarantine_row_ok db' k q = true).
  { intros Hk. eapply quarantine_row_persists; [done| |by apply Hq].
    intros o Ho. by eapply quarantined_row_fixed. }
  destruct Hm as [|tn t row a a' s rec now db' Ha|tn t row a a' s s' tj th rec now db' Hc
    | | | | |k1 c o q1 now err Hh Hn Hrd Hg|ev pol db' Hev]; auto.
  - destruct (adm_outbox _ _ _ _ _ _ _ _ _ _ Ha) as [_ _ _ _ _ (occ & _ & ->)]. auto.
  - destruct (chg_outbox _ _ _ _ _ _ _ _ _ _ _ _ _ Hc) as [_ _ _ _ _ (occ & _ & ->)]. auto.
  - cbn [quarantine with_outbox with_quarantine] in Hkq.
    apply lookup_insert_Some in Hkq as [[<- <-]|[_ Hkq]]; [|auto]. by eapply guard_row_ok.
  - apply Hold. apply m_event_shape in Hev as [row ->]. done.
Qed.

Lemma micro_instance db db' :
  micro db db' -> store_inv db ->
  (forall k v, verified db !! k = Some v ->
     validated_database_instance_id db = Ok (vr_database_instance_id v)) ->
  forall k v, verified db' !! k = Some v ->
     validated_database_instance_id db' = Ok (vr_database_instance_id v).
Proof.
  intros Hm Hi Hv k v Hkv. rewrite (static_validated _ _ (micro_static _ _ Hm)).
  destruct Hm as [|tn t row a a' s rec now db' Ha|tn t row a a' s s' tj th rec now db' Hc
    | | |k1 c o v1 now Hh Hl Hn Hpr Hg Hck|k1 v1 o Hn Ho Hs| |ev pol db' Hev]; eauto.
  - destruct (adm_outbox _ _ _ _ _ _ _ _ _ _ Ha) as [_ _ _ _ _ (occ & _ & ->)]. eauto.
  - destruct (chg_outbox _ _ _ _ _ _ _ _ _ _ _ _ _ Hc) as [_ _ _ _ _ (occ & _ & ->)]. eauto.
  - cbn [verified with_outbox with_verified] in Hkv.
    apply lookup_insert_Some in Hkv as [[<- <-]|[_ Hkv]]; [|eauto].
    by eapply delivery_checked_instance.
  - exfalso. destruct (di_evidence _ (si_delivery _ Hi) _ _ Ho Hs) as (v2 & Hv2 & _).
    congruence.
  - apply m_event_shape in Hev as [row ->]. eauto.
Qed.

Lemma micro_chains db db' : micro db db' -> chains_intact (events db) -> chains_intact (events db').
Proof.
  destruct 1 as [|tn t row a a' s rec now db' Ha|tn t row a a' s s' tj th rec now db' Hc
    | | | | | |ev pol db' Hev]; try done.
  - by destruct (adm_outbox _ _ _ _ _ _ _ _ _ _ Ha) as [_ _ _ _ _ (occ & _ & ->)].
  - by destruct (chg_outbox _ _ _ _ _ _ _ _ _ _ _ _ _ Hc) as [_ _ _ _ _ (occ & _ & ->)].
  - intros Hi. by eapply append_intact.
Qed.

Lemma micro_reopen db db' : micro db db' -> store_inv db -> reopen_inv db -> reopen_inv db'.
Proof.
  intros Hm Hi [R1 R2 R3 R4 R5]. split.
  - by apply (micro_actors_exist db).
  - by eapply micro_origin.
  - by eapply micro_quarantine_ok.
  - by eapply micro_instance.
  - by eapply micro_chains.
Qed.

Lemma steps_reopen db db' :
  steps db db' -> store_inv db -> reopen_inv db ->
  store_inv db' /\ reopen_inv db' /\ static db db' /\ persists db db'.
Proof.
  intros Hs. apply steps_micros in Hs.
  induction Hs as [db|db1 db2 db3 Hm _ IH]; intros Hi Hr; [done|].
  destruct IH as (Hi3 & Hr3 & (S1 & S2 & S3) & Hp);
    [by eapply micro_store_inv|by eapply micro_reopen|].
  destruct (micro_static _ _ Hm) as (M1 & M2 & M3). split; [done|]. split; [done|].
  split; [unfold static; rewrite S1, S2, S3; done|].
  etrans; [by apply micro_persists|done].
Qed.

(** ** The checks of the mapping hold *)

Lemma order_of_elem db k : order_of db k <> None <-> k ∈ map co_key (commit_order db).
Proof.
  unfold order_of. rewrite list_elem_of_fmap. split.
  - destruct (filter (fun c => co_key c = k) (commit_order db)) as [|c l] eqn:E; [done|].
    intros _. exists c. assert (Hin : c ∈ filter (fun c => co_key c = k) (commit_order db))
      by (rewrite E; set_solver).
    apply list_elem_of_filter in Hin as [<- Hin]. done.
  - intros (c & -> & Hin).
    assert (Hf : c ∈ filter (fun c' => co_key c' = co_key c) (commit_order db))
      by (by apply list_elem_of_filter).
    destruct (filter _ _); [set_solver|done].
Qed.

Lemma order_key_outbox db c :
  order_inv (commit_order db) (order_sequence db) (outbox db) -> c ∈ commit_order db ->
  exists o, outbox db !! co_key c = Some o.
Proof.
  intros Hi Hc. assert (Hk : co_key c ∈ map co_key (commit_order db))
    by (by apply list_elem_of_fmap_2).
  apply (oi_rows _ _ _ Hi) in Hk. destruct (outbox db !! co_key c); [eauto|done].
Qed.

Lemma order_covers_ok db :
  order_inv (commit_order db) (order_sequence db) (outbox db) -> order_covers db = true.
Proof.
  intros Hi. unfold order_covers. apply andb_true_iff. split; apply bool_decide_eq_true_2.
  - intros k o Hk. apply order_of_elem, (oi_rows _ _ _ Hi). by rewrite Hk.
  - apply Forall_forall. intros c Hc. destruct (order_key_outbox _ _ Hi Hc) as [o ->]. done.
Qed.

Lemma foreign_keys_hold db : store_inv db -> reopen_inv db -> foreign_keys_ok db = true.
Proof.
  intros [_ Ho He Hd] Hr. unfold foreign_keys_ok. rewrite !andb_true_iff.
  repeat split; apply bool_decide_eq_true_2.
  - intros k r Hk. by apply (ro_actor _ Hr).
  - intros k o Hk. destruct (ei_turn _ _ _ He _ _ Hk) as (r & -> & _). done.
  - apply Forall_forall. intros c Hc. destruct (order_key_outbox _ _ Ho Hc) as [o ->]. done.
  - intros k v Hk. destruct (di_delivered _ Hd _ _ Hk) as (o & -> & _). done.
  - intros k q Hk. destruct (di_quarantine _ Hd _ _ Hk) as (o & -> & _). done.
Qed.

Lemma elem_of_join db c o :
  (c, o) ∈ outbox_join db <-> c ∈ commit_order db /\ outbox db !! co_key c = Some o.
Proof.
  unfold outbox_join. rewrite list_elem_of_omap. split.
  - intros (c' & Hc & Hm). destruct (outbox db !! co_key c') eqn:E; simplify_eq. done.
  - intros [Hc Ho]. exists c. by rewrite Ho.
Qed.

Lemma join_NoDup db :
  order_inv (commit_order db) (order_sequence db) (outbox db) -> NoDup (outbox_join db).
Proof.
  intros Hi. pose proof (NoDup_fmap_1 _ _ (oi_nodup _ _ _ Hi)) as Hn. revert Hn.
  unfold outbox_join. generalize (commit_order db) as l.
  induction l as [|c l IH]; simpl; [constructor|]. intros [Hc Hl]%NoDup_cons.
  destruct (outbox db !! co_key c) as [o|]; [|auto]. constructor; [|auto].
  intros (c' & Hc' & Hm)%list_elem_of_omap.
  destruct (outbox db !! co_key c'); simplify_eq. done.
Qed.

Lemma join_transactional db :
  reopen_inv db -> legacy_join db = [] /\
  filter (fun c => co_order_origin c = "legacy_rowid_backfill") (commit_order db) = [] /\
  filter (fun c => co_order_origin c = "transactional") (commit_order db) = commit_order db.
Proof.
  intros Hr. pose proof (ro_origin _ Hr) as Hall. repeat split.
  - unfold legacy_join. apply filter_none. intros [c o] Hin Ho.
    apply elem_of_join in Hin as [Hc _]. rewrite Forall_forall in Hall.
    specialize (Hall c Hc). simpl in Ho. congruence.
  - apply filter_none. intros c Hin Ho. rewrite Forall_forall in Hall.
    specialize (Hall c Hin). simpl in Ho. congruence.
  - apply filter_every. by apply Forall_forall.
Qed.

(** *** Revisions follow the order *)

Lemma sorted_strict {A} (R S : A -> A -> Prop) l :
  StronglySorted R l -> NoDup l ->
  (forall x y, x ∈ l -> y ∈ l -> R x y -> x <> y -> S x y) -> StronglySorted S l.
Proof.
  induction 1 as [|x l _ IH Hx]; intros Hn Hs; [constructor|].
  apply NoDup_cons in Hn as [Hnx Hn]. constructor.
  - apply IH; [done|]. intros y z Hy Hz. apply Hs; set_solver.
  - apply Forall_forall. intros y Hy. rewrite Forall_forall in Hx.
    apply Hs; [set_solver|set_solver|auto|congruence].
Qed.

Lemma ordinals_increase_sorted previous rows :
  StronglySorted (fun x y => co_ordinal x.1 < co_ordinal y.1) rows ->
  Forall (fun x => forall p, previous = Some p -> p < co_ordinal x.1) rows ->
  ordinals_increase previous rows = true.
Proof.
  intros Hs; revert previous; induction Hs as [|x rows _ IH Hx]; intros previous Hp; [done|].
  apply Forall_cons in Hp as [Hp _]. simpl. apply andb_true_iff. split.
  - destruct previous as [p|]; [|done]. simpl. rewrite bool_decide_eq_false_2; [done|].
    specialize (Hp p eq_refl). lia.
  - apply IH. eapply Forall_impl; [exact Hx|]. simpl. intros y Hy p [= <-]. lia.
Qed.

Lemma turn_partition_increases db tn t :
  store_inv db -> ordinals_increase None (turn_partition db tn t) = true.
Proof.
  intros [_ Ho He _]. apply ordinals_increase_sorted; [|by apply Forall_forall].
  assert (Hperm : turn_partition db tn t ≡ₚ
    filter (fun co => co_tenant_id co.1 = tn /\ or_turn_id co.2 = t) (outbox_join db))
    by apply order_by_perm.
  eapply (sorted_strict (fun x y => or_revision x.2 <= or_revision y.2)).
  - apply order_by_key_sorted.
  - rewrite Hperm. apply NoDup_filter. by apply join_NoDup.
  - intros [c o] [c' o']. rewrite !Hperm, !list_elem_of_filter, !elem_of_join. simpl.
    intros ([Htn Ht] & Hc & Hko) ([Htn' Ht'] & Hc' & Hko') Hle Hne.
    destruct (decide (or_revision o = or_revision o')) as [Heq|Hlt].
    + exfalso. apply Hne. assert (Hk : co_key c = co_key c').
      { eapply (ei_once _ _ _ He); [exact Hko|exact Hko'| |congruence|done]. simpl. congruence. }
      assert (c = c') as -> by (by eapply order_key_inj). congruence.
    + eapply (ei_order _ _ _ He); [exact Hc|exact Hc'|exact Hko|exact Hko'|congruence..|lia].
Qed.

Lemma revisions_follow_order_ok db : store_inv db -> revisions_follow_order db = true.
Proof.
  intros Hi. apply forallb_forall. intros co _. by apply turn_partition_increases.
Qed.

(** *** No hole *)

Lemma elem_of_tenant_ordinals db tn (P : OrderRow * OutboxRow -> Prop)
    `{forall x, Decision (P x)} z :
  z ∈ map (fun co => co_ordinal co.1) (filter P (tenant_join db tn)) ->
  exists c o, z = co_ordinal c /\ c ∈ commit_order db /\ outbox db !! co_key c = Some o /\
    co_tenant_id c = tn /\ P (c, o).
Proof.
  intros ([c o] & -> & [HP Hin]%list_elem_of_filter)%list_elem_of_fmap.
  unfold tenant_join in Hin. apply list_elem_of_filter in Hin as [Htn Hin].
  apply elem_of_join in Hin as [Hc Ho]. by exists c, o.
Qed.

Lemma no_delivered_hole db tn : no_hole db tn -> delivered_hole db tn = false.
Proof.
  intros Hn. unfold delivered_hole, first_undelivered, last_delivered.
  match goal with |- context [sql_min ?l] => pose proof (sql_min_spec l) as H1;
    destruct (sql_min l) as [m|]; [|done] end.
  match goal with |- context [sql_max ?l] => pose proof (sql_max_spec l) as H2;
    destruct (sql_max l) as [M|]; [|done] end.
  apply bool_decide_eq_false_2.
  destruct H1 as [H1 _], H2 as [H2 _].
  apply elem_of_tenant_ordinals in H1 as (c & o & -> & Hc & Ho & Ht & Hu).
  apply elem_of_tenant_ordinals in H2 as (c' & o' & -> & Hc' & Ho' & Ht' & Hd).
  pose proof (Hn c o c' o' Hc Ho Hc' Ho' Ht Ht' Hu Hd). lia.
Qed.

(** *** Complete histories *)

Lemma elem_of_turn_revisions db tn t z :
  z ∈ turn_revisions db tn t <->
  exists oid o, outbox db !! (tn, oid) = Some o /\ or_turn_id o = t /\ or_revision o = z.
Proof.
  unfold turn_revisions. rewrite list_elem_of_fmap. split.
  - intros ([[tn' oid] o] & -> & [[Htn Ht] Hin]%list_elem_of_filter). simpl in *. subst tn'.
    apply elem_of_map_to_list in Hin. by exists oid, o.
  - intros (oid & o & Ho & Ht & <-). exists ((tn, oid), o). split; [done|].
    apply list_elem_of_filter. split; [done|]. by apply elem_of_map_to_list.
Qed.

Lemma turn_revisions_NoDup db tn t :
  store_inv db -> NoDup (turn_revisions db tn t).
Proof.
  intros Hi. unfold turn_revisions. apply NoDup_fmap_2_strong; cycle 1.
  { apply NoDup_filter, NoDup_map_to_list. }
  intros [k o] [k' o'] [[Htn Ht] Hin]%list_elem_of_filter [[Htn' Ht'] Hin']%list_elem_of_filter.
  simpl in *. apply elem_of_map_to_list in Hin, Hin'. intros Hrev.
  assert (k = k') as <-.
  { eapply (ei_once _ _ _ (si_entries _ Hi)); [exact Hin|exact Hin'|congruence..|done]. }
  congruence.
Qed.

Lemma turn_revisions_perm db tn t row :
  store_inv db -> turns db !! (tn, t) = Some row ->
  turn_revisions db tn t ≡ₚ seqZ 0 (tr_revision row + 1).
Proof.
  intros Hi Hr. pose proof (si_entries _ Hi) as He. pose proof (ei_nonneg _ _ _ He _ _ Hr) as Hnn.
  apply NoDup_Permutation; [by apply turn_revisions_NoDup|apply NoDup_seqZ|].
  intros z. rewrite elem_of_turn_revisions, elem_of_seqZ. split.
  - intros (oid & o & Ho & Ht & <-).
    destruct (ei_turn _ _ _ He _ _ Ho) as (row' & Hr' & Hb & _). simpl in Hr'.
    rewrite Ht, Hr in Hr'. injection Hr' as <-. lia.
  - intros Hz. destruct (ei_all _ _ _ He _ _ _ z Hr ltac:(lia)) as (oid & o & Ho & Ht & Hrev). eauto.
Qed.

Lemma sql_min_is l m : m ∈ l -> Forall (fun z => m <= z) l -> sql_min l = Some m.
Proof.
  intros Hin Hall. pose proof (sql_min_spec l) as Hs. destruct (sql_min l) as [x|].
  - destruct Hs as [Hx Hle]. rewrite Forall_forall in Hall, Hle.
    specialize (Hall _ Hx). specialize (Hle _ Hin). f_equal. simpl in *. lia.
  - subst. set_solver.
Qed.

Lemma sql_max_is l m : m ∈ l -> Forall (fun z => z <= m) l -> sql_max l = Some m.
Proof.
  intros Hin Hall. pose proof (sql_max_spec l) as Hs. destruct (sql_max l) as [x|].
  - destruct Hs as [Hx Hle]. rewrite Forall_forall in Hall, Hle.
    specialize (Hall _ Hx). specialize (Hle _ Hin). f_equal. simpl in *. lia.
  - subst. set_solver.
Qed.

Lemma history_complete_ok db k row :
  store_inv db -> turns db !! k = Some row -> history_is_complete db k row = true.
Proof.
  intros Hi Hr. destruct k as [tn t]. pose proof (turn_revisions_perm _ _ _ _ Hi Hr) as Hp.
  pose proof (ei_nonneg _ _ _ (si_entries _ Hi) _ _ Hr) as Hnn.
  assert (Hlen : length (turn_revisions db tn t) = Z.to_nat (tr_revision row + 1)).
  { by rewrite Hp, length_seqZ. }
  assert (Hin : forall z, z ∈ turn_revisions db tn t <-> 0 <= z <= tr_revision row).
  { intros z. rewrite Hp, elem_of_seqZ. lia. }
  unfold history_is_complete. cbv zeta. simpl fst. simpl snd. rewrite !andb_true_iff.
  repeat split.
  - rewrite bool_decide_eq_false_2 by lia. done.
  - apply bool_decide_eq_true_2, sql_min_is; [apply Hin; lia|].
    apply Forall_forall. intros z Hz. apply Hin in Hz. lia.
  - apply bool_decide_eq_true_2, sql_max_is; [apply Hin; lia|].
    apply Forall_forall. intros z Hz. apply Hin in Hz. lia.
  - apply bool_decide_eq_true_2. lia.
Qed.

(** *** The markers of a new store *)

(** What every marker taken over an empty outbox says. *)
Definition empty_prefix : OutboxOrderManifest :=
  {| source_row_count := 0; source_max_rowid := 0;
     source_digest := rows_digest prefix_row_bytes [] |}.

Definition empty_backfill : OutboxOrderManifest :=
  {| source_row_count := 0; source_max_rowid := 0;
     source_digest := legacy_outbox_order_digest [] |}.

Lemma mapping_ok db :
  store_inv db -> reopen_inv db ->
  validate_outbox_order_mapping db empty_backfill = Ok tt.
Proof.
  intros Hi Hr. pose proof (si_order _ Hi) as Ho.
  destruct (join_transactional _ Hr) as (J1 & J2 & J3).
  unfold validate_outbox_order_mapping. rewrite (order_covers_ok _ Ho). cbv beta iota.
  rewrite (foreign_keys_hold _ Hi Hr). cbv beta iota.
  rewrite J1. simpl collect_map. cbv beta iota zeta.
  rewrite (bool_decide_eq_true_2 (Z.of_nat (length []) = _)) by done. simpl.
  rewrite (bool_decide_eq_true_2 (legacy_outbox_order_digest [] = _)) by done.
  rewrite (bool_decide_eq_true_2 (order_sequence db = _)) by apply (oi_seq _ _ _ Ho).
  assert (Hpos : forall m, sql_min (map co_ordinal (commit_order db)) = Some m -> 0 < m).
  { intros m Hm. pose proof (sql_min_spec (map co_ordinal (commit_order db))) as Hs.
    rewrite Hm in Hs. destruct Hs as [Hin _]. apply list_elem_of_fmap in Hin as (c & -> & Hc).
    pose proof (oi_positive _ _ _ Ho) as Hp. rewrite Forall_forall in Hp. auto. }
  assert (Hmin : is_some_and (fun m => bool_decide (m <= 0))
            (sql_min (map co_ordinal (commit_order db))) = false).
  { destruct (sql_min _) as [m|]; [|done]. simpl. apply bool_decide_eq_false_2.
    specialize (Hpos m eq_refl). lia. }
  rewrite J3, Hmin. simpl. rewrite (revisions_follow_order_ok _ Hi).
  replace (forallb _ (outbox_join db)) with true; cycle 1.
  { symmetry. apply forallb_forall. intros co _.
    rewrite no_delivered_hole; [done|]. apply (di_no_hole _ (si_delivery _ Hi)). }
  change (Z.of_nat 0) with 0. rewrite Hmin. simpl.
  rewrite bool_decide_eq_true_2; [done|].
  intros k row Hk. by apply history_complete_ok.
Qed.

Lemma empty_evidence db :
  order_inv (commit_order db) (order_sequence db) (outbox db) ->
  order_guard_prefix_evidence db (Some 0) = Ok empty_prefix.
Proof.
  intros Ho. unfold order_guard_prefix_evidence.
  assert (Hn : prefix_rows db (Some 0) = []).
  { apply filter_none. intros [c o] [Hc _]%elem_of_join Hle. simpl in Hle. bool_props.
    pose proof (oi_positive _ _ _ Ho) as Hp. rewrite Forall_forall in Hp.
    specialize (Hp c Hc). lia. }
  by rewrite Hn.
Qed.

Lemma manifest_eqb_refl m : manifest_eqb m m = true.
Proof. unfold manifest_eqb. by rewrite !bool_decide_eq_true_2. Qed.

Lemma empty_prefix_valid f message :
  order_inv (commit_order (sf_db f)) (order_sequence (sf_db f)) (outbox (sf_db f)) ->
  validate_marker_prefix f empty_prefix message = Ok tt.
Proof.
  intros Ho. unfold validate_marker_prefix. simpl source_max_rowid.
  rewrite (empty_evidence _ Ho). cbv beta iota. by rewrite manifest_eqb_refl.
Qed.

(** ** A file that was opened as a new store *)

Definition order_objects : list SchemaObject :=
  [order_table_object; table_object MIGRATION_TABLE EXPECTED_ORDER_MIGRATION_TABLE;
   order_index_object; revision_index_object; order_trigger_object] ++ order_guard_objects.

(** The schema half of what [open] checks. *)
Record master_ready (master : list SchemaObject) : Prop := {
  mr_objects : Forall (fun o => validate_schema_object master (so_type o) (so_name o) (so_sql o)
                                = Ok tt)
                 (order_objects ++ quarantine_objects ++ verified_commit_objects);
  mr_allowed : validate_outbox_trigger_allowlist master = Ok tt
}.

Record store_ready (f : StoreFile) : Prop := {
  sr_ledger : file_open (sf_ledger f);
  sr_master : master_ready (sqlite_master (sf_db f));
  sr_order : load_outbox_order_manifest f = Ok (Some empty_backfill);
  sr_guard : load_order_guard_marker f = Ok (Some empty_prefix);
  sr_quarantine : load_quarantine_migration_marker f = Ok (Some empty_prefix);
  sr_verified : load_verified_commit_marker f = Ok (Some empty_prefix)
}.

Lemma validated_existed f o :
  validate_schema_object (sqlite_master (sf_db f)) (so_type o) (so_name o) (so_sql o) = Ok tt ->
  existed f o = true.
Proof.
  unfold validate_schema_object, existed. by destruct (schema_object_sql _ _ _).
Qed.

Lemma validate_objects_ok f objects :
  Forall (fun o => validate_schema_object (sqlite_master (sf_db f)) (so_type o) (so_name o)
                     (so_sql o) = Ok tt) objects ->
  validate_objects f objects = Ok tt.
Proof.
  induction 1 as [|o l Ho _ IH]; [done|]. simpl. unfold validate_object. by rewrite Ho.
Qed.

Lemma existed_all f objects :
  Forall (fun o => validate_schema_object (sqlite_master (sf_db f)) (so_type o) (so_name o)
                     (so_sql o) = Ok tt) objects ->
  forallb (existed f) objects = true.
Proof.
  induction 1 as [|o l Ho _ IH]; [done|]. simpl. by rewrite (validated_existed _ _ Ho).
Qed.

(** The type, name and text of the installed objects. *)
Ltac object_fields H :=
  cbn [so_type so_name so_sql order_trigger_object trigger_object table_object index_object
       order_table_object order_index_object revision_index_object] in H.

Definition all_valid (master objects : list SchemaObject) : Prop :=
  Forall (fun o => validate_schema_object master (so_type o) (so_name o) (so_sql o) = Ok tt)
    objects.

Lemma order_triggers_valid master :
  all_valid master order_objects -> validate_order_trigger_schema master = Ok tt.
Proof.
  unfold all_valid. intros Ho. unfold order_objects in Ho. rewrite Forall_app in Ho. destruct Ho as [H1 H2].
  rewrite !Forall_cons in H1. destruct H1 as (_ & _ & _ & _ & H1 & _).
  unfold order_guard_objects in H2. rewrite !Forall_cons in H2. destruct H2 as (H2 & H3 & _).
  object_fields H1. object_fields H2. object_fields H3.
  unfold validate_order_trigger_schema. rewrite H1. cbv beta iota. rewrite H2. exact H3.
Qed.

Lemma order_triggers_ready master :
  master_ready master -> validate_order_trigger_schema master = Ok tt.
Proof.
  intros [Hm _]. rewrite !Forall_app in Hm. destruct Hm as [Ho _].
  by apply order_triggers_valid.
Qed.

Lemma dispatcher_triggers_valid master :
  all_valid master quarantine_objects -> validate_outbox_dispatcher_triggers master = Ok tt.
Proof.
  unfold all_valid. intros Hq. unfold quarantine_objects in Hq. rewrite !Forall_cons in Hq.
  destruct Hq as (_ & H1 & H2 & H3 & _).
  object_fields H1. object_fields H2. object_fields H3.
  unfold validate_outbox_dispatcher_triggers. rewrite H1. cbv beta iota. rewrite H2. exact H3.
Qed.

Lemma dispatcher_triggers_ready master :
  master_ready master -> validate_outbox_dispatcher_triggers master = Ok tt.
Proof.
  intros [Hm _]. rewrite !Forall_app in Hm. destruct Hm as (_ & Hq & _).
  by apply dispatcher_triggers_valid.
Qed.

Lemma no_extra_ready master :
  master_ready master -> validate_no_extra_outbox_triggers master = Ok tt.
Proof.
  intros Hr. pose proof (order_triggers_ready _ Hr) as Ho.
  pose proof (dispatcher_triggers_ready _ Hr) as Hd. destruct Hr as [Hm Ha].
  rewrite !Forall_app in Hm. destruct Hm as (_ & _ & Hv).
  unfold verified_commit_objects in Hv. rewrite !Forall_cons in Hv.
  destruct Hv as (_ & H1 & H2 & H3 & H4 & _).
  object_fields H1. object_fields H2. object_fields H3. object_fields H4.
  unfold validate_no_extra_outbox_triggers. rewrite Ho. cbv beta iota. rewrite H1.
  cbv beta iota. rewrite H2. cbv beta iota. rewrite H3. cbv beta iota. rewrite H4.
  cbv beta iota. rewrite Hd. exact Ha.
Qed.
End Reopen.
