(* ===== verification/StoreOpenTheorems.v ===== *)
(** * What opening a turn store ensures

    A new file becomes an empty store, a store that was used can always be opened
    again and is left as it is, an accepted database has a sound commit order, and an
    older outbox gets its order from its rowids. *)

From stdpp Require Import prelude gmap strings list relations sorting.
From S2P Require Import Prelude.
From S2P Require Import Json.
From S2P Require Import TurnState.
From S2P Require Import TurnKernel.
From S2P Require Import Env.
From S2P Require Import Concrete.
From S2P Require Import Schema.
From S2P Require Import Database.
From S2P Require Import Samples.
From S2P Require Import Ledger.
From S2P Require Import LedgerChain.
From S2P Require Import ChainMigration.
From S2P Require Import ChainMigrationLemmas.
From S2P Require Import ChainMigrationTheorems.
From S2P Require Import TurnRecords.
From S2P Require Import TurnStore.
From S2P Require Import OutboxLemmas.
From S2P Require Import Machine.
From S2P Require Import StoreInv.
From S2P Require Import StoreOpen.
From S2P Require Import StoreOpenLemmas.
From S2P Require Import Scenario.
Local Open Scope res_scope.
Local Open Scope Z_scope.

Section Theorems.
Context `{Env}.

(** ** Opening again *)

Lemma ready_order f now :
  store_ready f -> store_inv (sf_db f) -> reopen_inv (sf_db f) ->
  ensure_outbox_commit_order_schema f now = Ok f.
Proof.
  intros [_ Hm Ho Hg _ _] Hi Hr. unfold ensure_outbox_commit_order_schema. cbv zeta.
  pose proof (mr_objects _ Hm) as Hall. rewrite !Forall_app in Hall. destruct Hall as [Hobj _].
  assert (Hmig : create_migration_table f = Ok f).
  { unfold create_migration_table. cbv zeta. rewrite validated_existed; [done|].
    unfold order_objects in Hobj. rewrite Forall_app, !Forall_cons in Hobj.
    by destruct Hobj as [(_ & ? & _) _]. }
  rewrite Hmig. cbv beta iota. rewrite Ho. cbv beta iota.
  assert (Hex : forallb id (map (existed f) [order_table_object; order_index_object;
                  revision_index_object; order_trigger_object]) = true).
  { unfold order_objects in Hobj. rewrite Forall_app, !Forall_cons in Hobj.
    destruct Hobj as [(H1 & _ & H2 & H3 & H4 & _) _]. simpl.
    by rewrite (validated_existed _ _ H1), (validated_existed _ _ H2),
      (validated_existed _ _ H3), (validated_existed _ _ H4). }
  rewrite Hex. cbv beta iota. unfold ensure_order_guards. rewrite Hg. cbv beta iota.
  assert (Hgx : Forall (fun o => existed f o = true) order_guard_objects).
  { unfold order_objects in Hobj. rewrite Forall_app in Hobj. destruct Hobj as [_ Hgo].
    eapply Forall_impl; [exact Hgo|]. intros o. apply validated_existed. }
  unfold order_guard_objects in Hgx |- *. rewrite !Forall_cons in Hgx.
  destruct Hgx as (G1 & G2 & _). cbn [map nth]. rewrite G1, G2. simpl opt_is_some. cbv beta iota.
  unfold validate_order_schema. fold order_objects.
  rewrite (validate_objects_ok _ _ Hobj). cbv beta iota.
  rewrite (order_triggers_ready _ Hm). cbv beta iota delta [from_schema].
  rewrite (mr_allowed _ Hm). cbv beta iota.
  unfold validate_order_guard_marker. rewrite Hg. simpl ok_or. cbv beta iota.
  rewrite (empty_prefix_valid _ _ (si_order _ Hi)). cbv beta iota. rewrite Ho.
  simpl ok_or. cbv beta iota. by rewrite (mapping_ok _ Hi Hr).
Qed.

Lemma ready_part f now objects marker m id kind e1 e2 :
  Forall (fun o => validate_schema_object (sqlite_master (sf_db f)) (so_type o) (so_name o)
                     (so_sql o) = Ok tt) objects ->
  marker = Ok (Some m) -> ensure_part f now objects marker id kind e1 e2 = Ok f.
Proof. intros Ho ->. unfold ensure_part. by rewrite (existed_all _ _ Ho). Qed.

Lemma ready_dispatcher f now :
  store_ready f -> store_inv (sf_db f) -> reopen_inv (sf_db f) ->
  ensure_outbox_dispatcher_schema f now = Ok f.
Proof.
  intros [_ Hm _ _ Hq _] Hi Hr. unfold ensure_outbox_dispatcher_schema.
  pose proof (mr_objects _ Hm) as Hall. rewrite !Forall_app in Hall.
  destruct Hall as (_ & Hobj & _).
  rewrite (ready_part _ _ _ _ _ _ _ _ _ Hobj Hq). cbv beta iota.
  unfold quarantine_objects in Hobj. rewrite !Forall_cons in Hobj.
  destruct Hobj as (H1 & _). unfold validate_object. rewrite H1. cbv beta iota delta [from_schema].
  rewrite (dispatcher_triggers_ready _ Hm). cbv beta iota. rewrite Hq. simpl ok_or.
  cbv beta iota. unfold validate_quarantine_migration_marker.
  rewrite (empty_prefix_valid _ _ (si_order _ Hi)). cbv beta iota.
  unfold validate_quarantine_rows. rewrite bool_decide_eq_true_2; [done|].
  intros k q Hk. by apply (ro_quarantine _ Hr).
Qed.

Lemma evidence_all_ok db i :
  store_inv db -> reopen_inv db -> validated_database_instance_id db = Ok i ->
  map_Forall (fun k v => evidence_ok db i k v = true) (verified db).
Proof.
  intros Hi Hr Hv k v Hk. pose proof (si_delivery _ Hi) as Hd.
  destruct (di_delivered _ Hd _ _ Hk) as (o & Ho & Hs).
  destruct (di_evidence _ Hd _ _ Ho Hs) as (v' & Hv' & [Hid _] & _).
  assert (v' = v) as -> by congruence.
  pose proof (ro_instance _ Hr _ _ Hk) as Hinst. unfold evidence_ok. rewrite Ho, Hid. simpl.
  rewrite !bool_decide_eq_true_2; [done|congruence|done|done].
Qed.

Lemma deliveries_verified db :
  store_inv db -> unverified_new_deliveries db 0 = [].
Proof.
  intros Hi. apply filter_none. intros [c o] [_ Ho]%elem_of_join (Hs & Hn & _). simpl in *.
  destruct (di_evidence _ (si_delivery _ Hi) _ _ Ho Hs) as (v & Hv & _). congruence.
Qed.

Lemma ready_verified f now i :
  store_ready f -> store_inv (sf_db f) -> reopen_inv (sf_db f) ->
  validated_database_instance_id (sf_db f) = Ok i ->
  ensure_outbox_verified_commit_schema f now = Ok f.
Proof.
  intros [_ Hm _ _ _ Hv] Hi Hr Hid. unfold ensure_outbox_verified_commit_schema.
  pose proof (mr_objects _ Hm) as Hall. rewrite !Forall_app in Hall.
  destruct Hall as (_ & _ & Hobj).
  rewrite (ready_part _ _ _ _ _ _ _ _ _ Hobj Hv). cbv beta iota.
  rewrite (validate_objects_ok _ _ Hobj). cbv beta iota.
  rewrite (no_extra_ready _ Hm). cbv beta iota delta [from_schema]. rewrite Hv. simpl ok_or.
  cbv beta iota. unfold validate_verified_commit_marker.
  rewrite (empty_prefix_valid _ _ (si_order _ Hi)). cbv beta iota.
  unfold validate_verified_commit_rows. rewrite Hid. cbv beta iota delta [from_ledger].
  rewrite bool_decide_eq_true_2 by (by apply evidence_all_ok).
  simpl source_max_rowid. rewrite (deliveries_verified _ Hi). done.
Qed.

Lemma ready_opens fresh at_ n1 n2 n3 f i :
  store_ready f -> store_inv (sf_db f) -> reopen_inv (sf_db f) ->
  validated_database_instance_id (sf_db f) = Ok i ->
  open fresh at_ n1 n2 n3 f = (f, Ok i).
Proof.
  intros Hf Hi Hr Hid. unfold open, connect.
  rewrite (file_open_ensure _ _ _ (sr_ledger _ Hf)). cbv beta iota.
  pose proof (validated_read _ _ Hid) as Hread. unfold sf_db in Hread. rewrite Hread.
  simpl el_instance_id. cbv beta iota.
  replace {| sf_ledger := sf_ledger f; sf_markers := sf_markers f;
             sf_outbox_rowids := sf_outbox_rowids f |} with f by (by destruct f).
  unfold database_instance_id, with_conn. rewrite Hread. simpl el_instance_id. cbv beta iota.
  rewrite bool_decide_eq_true_2 by done. simpl. unfold open_transaction.
  rewrite (ready_order _ _ Hf Hi Hr). cbv beta iota.
  rewrite (ready_dispatcher _ _ Hf Hi Hr). cbv beta iota.
  rewrite (ready_verified _ _ _ Hf Hi Hr Hid). cbv beta iota. rewrite Hid.
  cbv beta iota delta [from_ledger]. by rewrite bool_decide_eq_true_2.
Qed.

(** ** Opening a file without a store *)

(** Finding a marker by its identifier. *)
Lemma find_marker_here id m ms :
  mk_migration_id m = id ->
  find (fun m => bool_decide (mk_migration_id m = id)) (m :: ms) = Some m.
Proof. intros Hm. simpl. by rewrite bool_decide_eq_true_2. Qed.

Lemma find_marker_skip id m ms :
  bool_decide (mk_migration_id m = id) = false ->
  find (fun m => bool_decide (mk_migration_id m = id)) (m :: ms)
  = find (fun m => bool_decide (mk_migration_id m = id)) ms.
Proof. simpl. by intros ->. Qed.

Ltac find_marker :=
  cbn;
  repeat (rewrite find_marker_skip by reflexivity);
  first [apply find_marker_here; reflexivity | reflexivity].

(** A marker over no rows is well formed. *)
Lemma load_marker_found id kind message f m :
  find (fun m => bool_decide (mk_migration_id m = id)) (sf_markers f) = Some m ->
  mk_migration_kind m = kind ->
  mk_manifest m = empty_prefix \/ mk_manifest m = empty_backfill ->
  load_marker id kind message f = Ok (Some (mk_manifest m)).
Proof.
  intros Hf Hk Hm. unfold load_marker. rewrite Hf. cbv zeta.
  rewrite (bool_decide_eq_true_2 (mk_migration_kind m = kind)) by done.
  destruct Hm as [-> | ->]; simpl; unfold legacy_outbox_order_digest, rows_digest;
    by rewrite starts_with_own.
Qed.

Definition store_objects : list SchemaObject :=
  order_objects ++ quarantine_objects ++ verified_commit_objects.
Definition store_names : list string := map so_name store_objects.
Definition store_tables : list string :=
  ["turn_actor_v2"; "turn_state_v2"; "turn_outbox_v2"; "turn_outbox_commit_order_v2";
   "turn_outbox_verified_commit_v2"; "turn_outbox_quarantine_v2";
   "turn_store_schema_migrations_v2"].

(** No object of the store, and no trigger on its tables. *)
Definition store_absent (master : list SchemaObject) : Prop :=
  Forall (fun o => (so_name o ∉ store_names) /\ (so_tbl_name o ∉ store_tables)) master.

(** The file [f0] after some objects were created and some markers inserted. *)
Definition stage (f0 : StoreFile) (d : list SchemaObject) (ms : list MarkerRow) : StoreFile :=
  {| sf_ledger := with_db (sf_ledger f0)
                    (with_master (sf_db f0) (sqlite_master (sf_db f0) ++ d));
     sf_markers := ms; sf_outbox_rowids := sf_outbox_rowids f0 |}.

Section Stage.
Context (f0 : StoreFile) (Hfresh : StoreInv.fresh (sf_db f0))
        (Habs : store_absent (sqlite_master (sf_db f0))) (Hmarks : sf_markers f0 = []).

Lemma stage_nil : stage f0 [] [] = f0.
Proof.
  destruct f0 as [l ms rs]. simpl in Hmarks. subst ms. unfold stage. f_equal.
  unfold sf_db. simpl. rewrite app_nil_r. destruct l as [db cs ix log fts]. by destruct db.
Qed.

Lemma stage_object d ms ty name :
  name ∈ store_names ->
  schema_object_sql (sqlite_master (sf_db (stage f0 d ms))) ty name = schema_object_sql d ty name.
Proof.
  intros Hn. apply schema_object_fresh. eapply Forall_impl; [exact Habs|].
  intros o [Ho _] <-. done.
Qed.

Lemma stage_existed d ms o :
  so_name o ∈ store_names ->
  existed (stage f0 d ms) o = opt_is_some (schema_object_sql d (so_type o) (so_name o)).
Proof. intros Hn. unfold existed. by rewrite stage_object. Qed.

Lemma create_objects_app objects : forall m d,
  Forall (fun o => so_name o ∉ map so_name objects) m ->
  NoDup (map so_name (d ++ objects)) ->
  create_objects (m ++ d) objects = Ok (m ++ d ++ objects).
Proof.
  intros m d Hm Hnd. rewrite create_objects_ok.
  - by rewrite <- app_assoc.
  - apply Forall_app. split; [done|]. apply Forall_forall. intros o Ho Hin.
    rewrite map_app in Hnd. apply NoDup_app in Hnd as (_ & Hd & _).
    apply (Hd (so_name o)); [by apply list_elem_of_fmap_2|done].
  - rewrite map_app in Hnd. by apply NoDup_app in Hnd as (_ & _ & ?).
Qed.

Lemma stage_create d ms objects :
  map so_name objects ⊆ store_names -> NoDup (map so_name (d ++ objects)) ->
  create (stage f0 d ms) objects = Ok (stage f0 (d ++ objects) ms).
Proof.
  intros Hsub Hnd. unfold create.
  change (sqlite_master (sf_db (stage f0 d ms))) with (sqlite_master (sf_db f0) ++ d).
  rewrite create_objects_app; [done| |done].
  eapply Forall_impl; [exact Habs|]. intros o [Ho _] Hin. apply Ho. set_solver.
Qed.

Lemma stage_empty d ms :
  outbox_join (sf_db (stage f0 d ms)) = [] /\
  with_store_db (stage f0 d ms) (with_order (sf_db (stage f0 d ms)) [] None) = stage f0 d ms.
Proof.
  destruct Hfresh as (_ & _ & _ & Hc & Hs & _). split.
  - unfold outbox_join. by rewrite (Hc : commit_order (sf_db (stage f0 d ms)) = []).
  - unfold with_store_db, stage. f_equal. unfold sf_db in *. simpl.
    destruct (sf_ledger f0) as [db cs ix log fts]. simpl in *. f_equal.
    destruct db. simpl in *. by subst.
Qed.

Lemma stage_take d ms id kind now :
  id ∉ map mk_migration_id ms ->
  take_marker (stage f0 d ms) id kind now
  = Ok (stage f0 d (ms ++ [{| mk_migration_id := id; mk_migration_kind := kind;
                               mk_manifest := empty_prefix;
                               mk_applied_at_ms := timestamp_millis now |}])).
Proof.
  intros Hid. unfold take_marker, order_guard_prefix_evidence, prefix_rows.
  rewrite (proj1 (stage_empty d ms)). simpl. unfold insert_marker. simpl.
  rewrite bool_decide_eq_true_2 by done. done.
Qed.

Lemma stage_valid d ms o :
  so_name o ∈ store_names -> schema_object_sql d (so_type o) (so_name o) = Some (so_sql o) ->
  validate_schema_object (sqlite_master (sf_db (stage f0 d ms))) (so_type o) (so_name o) (so_sql o)
  = Ok tt.
Proof.
  intros Hn Hd. unfold validate_schema_object. rewrite stage_object, Hd by done. simpl.
  by rewrite bool_decide_eq_true_2.
Qed.

Lemma stage_valid_all d ms objects :
  Forall (fun o => so_name o ∈ store_names /\
                   schema_object_sql d (so_type o) (so_name o) = Some (so_sql o)) objects ->
  Forall (fun o => validate_schema_object (sqlite_master (sf_db (stage f0 d ms))) (so_type o)
                     (so_name o) (so_sql o) = Ok tt) objects.
Proof. intros Hf. eapply Forall_impl; [exact Hf|]. intros o [H1 H2]. by apply stage_valid. Qed.

Lemma stage_allowed d ms :
  validate_outbox_trigger_allowlist d = Ok tt ->
  validate_outbox_trigger_allowlist (sqlite_master (sf_db (stage f0 d ms))) = Ok tt.
Proof.
  unfold validate_outbox_trigger_allowlist, first_extra_trigger.
  change (sqlite_master (sf_db (stage f0 d ms))) with (sqlite_master (sf_db f0) ++ d).
  rewrite filter_app. rewrite (filter_none _ (sqlite_master (sf_db f0))); [done|].
  intros o Ho (_ & Ht & _). unfold store_absent in Habs. rewrite Forall_forall in Habs.
  by destruct (Habs o Ho).
Qed.

Lemma stage_inv d ms : store_inv (sf_db (stage f0 d ms)).
Proof. apply fresh_inv. exact Hfresh. Qed.

Lemma stage_reopen d ms :
  chains_intact (events (sf_db f0)) -> reopen_inv (sf_db (stage f0 d ms)).
Proof. intros Hc. apply fresh_reopen; [exact Hfresh|exact Hc]. Qed.

(** *** The order *)

Definition order_marker (now : Z) : MarkerRow :=
  {| mk_migration_id := OUTBOX_ORDER_MIGRATION_ID;
     mk_migration_kind := OUTBOX_ORDER_MIGRATION_KIND; mk_manifest := empty_backfill;
     mk_applied_at_ms := timestamp_millis now |}.
Definition prefix_marker (id kind : string) (now : Z) : MarkerRow :=
  {| mk_migration_id := id; mk_migration_kind := kind; mk_manifest := empty_prefix;
     mk_applied_at_ms := timestamp_millis now |}.

Definition migration_table_object : SchemaObject :=
  table_object MIGRATION_TABLE EXPECTED_ORDER_MIGRATION_TABLE.

(** The objects of the order in the order in which they are created. *)
Definition created_order : list SchemaObject :=
  [migration_table_object; order_table_object; order_index_object; revision_index_object;
   order_trigger_object].

Lemma stage_migrate now :
  migrate_outbox_order (stage f0 [migration_table_object] []) now
  = Ok (stage f0 created_order [order_marker now]).
Proof.
  unfold migrate_outbox_order, create_order_table.
  rewrite stage_create by (apply (bool_decide_eq_true_1 _); vm_compute; reflexivity).
  cbv beta iota. rewrite (proj2 (stage_empty _ _)). cbv beta iota.
  unfold legacy_outbox_order_rows.
  destruct Hfresh as (_ & _ & Ho & _).
  rewrite (Ho : outbox (sf_db (stage f0 _ [])) = ∅), map_to_list_empty. simpl. cbv beta iota.
  replace (with_store_db _ _) with (stage f0 [migration_table_object; order_table_object] []);
    [|reflexivity].
  unfold insert_marker. simpl. cbv beta iota.
  change (with_marker (stage f0 [migration_table_object; order_table_object] []) _)
    with (stage f0 [migration_table_object; order_table_object] [order_marker now]).
  rewrite stage_create by (apply (bool_decide_eq_true_1 _); vm_compute; reflexivity).
  cbv beta iota. unfold create_revision_index.
  rewrite (Ho : outbox (sf_db (stage f0 _ [order_marker now])) = ∅), map_to_list_empty.
  rewrite bool_decide_eq_true_2 by constructor. cbv beta iota.
  rewrite stage_create by (apply (bool_decide_eq_true_1 _); vm_compute; reflexivity).
  cbv beta iota.
  by rewrite stage_create by (apply (bool_decide_eq_true_1 _); vm_compute; reflexivity).
Qed.

Definition order_markers (now : Z) : list MarkerRow :=
  [order_marker now;
   prefix_marker OUTBOX_ORDER_GUARD_MIGRATION_ID OUTBOX_ORDER_GUARD_MIGRATION_KIND now].

Lemma store_object_names objects :
  bool_decide (map so_name objects ⊆ store_names) = true ->
  forall o, o ∈ objects -> so_name o ∈ store_names.
Proof. intros Hs%bool_decide_eq_true o Ho. by apply Hs, list_elem_of_fmap_2. Qed.

Lemma absent_before objects ms :
  bool_decide (map so_name objects ⊆ store_names) = true ->
  map (existed (stage f0 [] ms)) objects = map (fun _ => false) objects.
Proof.
  intros Hs. apply map_ext_in. intros o Ho. rewrite stage_existed; [done|].
  eapply store_object_names; [exact Hs|]. by apply list_elem_of_In.
Qed.

(** What the objects created so far validate to. *)
Definition installs (d objects : list SchemaObject) : bool :=
  forallb (fun o => bool_decide (so_name o ∈ store_names)
                    && bool_decide (schema_object_sql d (so_type o) (so_name o) = Some (so_sql o)))
    objects.

Lemma installs_valid d ms objects :
  installs d objects = true ->
  Forall (fun o => validate_schema_object (sqlite_master (sf_db (stage f0 d ms))) (so_type o)
                     (so_name o) (so_sql o) = Ok tt) objects.
Proof.
  intros Hi. apply stage_valid_all, Forall_forall. intros o Ho.
  unfold installs in Hi. rewrite forallb_forall in Hi.
  apply list_elem_of_In in Ho. specialize (Hi o Ho). by bool_props.
Qed.

Lemma stage_no_marker d ms id kind message :
  find (fun m => bool_decide (mk_migration_id m = id)) ms = None ->
  load_marker id kind message (stage f0 d ms) = Ok None.
Proof. unfold load_marker. simpl. by intros ->. Qed.

Lemma stage_guards now :
  ensure_order_guards (stage f0 created_order [order_marker now]) now false false
  = Ok (stage f0 (created_order ++ order_guard_objects) (order_markers now)).
Proof.
  unfold ensure_order_guards, load_order_guard_marker.
  rewrite stage_no_marker by find_marker. cbn [opt_is_some].
  rewrite stage_create by (apply (bool_decide_eq_true_1 _); vm_compute; reflexivity).
  by rewrite stage_take by (apply (bool_decide_eq_true_1 _); vm_compute; reflexivity).
Qed.

Lemma stage_order_valid d ms now :
  chains_intact (events (sf_db f0)) -> installs d order_objects = true ->
  validate_outbox_trigger_allowlist d = Ok tt ->
  validate_order_schema (stage f0 d (order_markers now ++ ms)) = Ok tt.
Proof.
  intros Hch Hin Hal. unfold validate_order_schema. fold migration_table_object.
  pose proof (installs_valid d (order_markers now ++ ms) _ Hin) as Hmr.
  change ([order_table_object; migration_table_object; order_index_object; revision_index_object;
     order_trigger_object] ++ order_guard_objects) with order_objects.
  rewrite (validate_objects_ok _ _ Hmr). cbv beta iota.
  assert (Htr : validate_order_trigger_schema
            (sqlite_master (sf_db (stage f0 d (order_markers now ++ ms)))) = Ok tt).
  { by apply order_triggers_valid. }
  rewrite Htr. cbv beta iota delta [from_schema].
  rewrite (stage_allowed _ _ Hal). cbv beta iota.
  unfold validate_order_guard_marker, load_order_guard_marker.
  rewrite (load_marker_found _ _ _ _
    (prefix_marker OUTBOX_ORDER_GUARD_MIGRATION_ID OUTBOX_ORDER_GUARD_MIGRATION_KIND now));
    [|find_marker|reflexivity|by left].
  cbn [ok_or mk_manifest prefix_marker].
  rewrite (empty_prefix_valid _ _ (si_order _ (stage_inv _ _))). cbv beta iota.
  unfold load_outbox_order_manifest.
  rewrite (load_marker_found _ _ _ _ (order_marker now)); [|find_marker|reflexivity|by right].
  cbn [ok_or mk_manifest order_marker].
  apply mapping_ok; [apply stage_inv|by apply stage_reopen].
Qed.

Lemma stage_order now :
  chains_intact (events (sf_db f0)) ->
  ensure_outbox_commit_order_schema (stage f0 [] []) now
  = Ok (stage f0 (created_order ++ order_guard_objects) (order_markers now)).
Proof.
  intros Hch. unfold ensure_outbox_commit_order_schema. cbv zeta.
  rewrite !absent_before by (vm_compute; reflexivity).
  unfold create_migration_table. cbv zeta. fold migration_table_object.
  rewrite stage_existed by (apply (bool_decide_eq_true_1 _); vm_compute; reflexivity).
  cbn [schema_object_sql filter opt_is_some].
  change (opt_is_some (schema_object_sql [] (so_type migration_table_object)
            (so_name migration_table_object))) with false. cbv beta iota.
  rewrite stage_create by (apply (bool_decide_eq_true_1 _); vm_compute; reflexivity).
  cbv beta iota. unfold load_outbox_order_manifest.
  rewrite stage_no_marker by find_marker. cbv beta iota.
  change (negb (existsb id _)) with true. cbv beta iota.
  change ([] ++ [migration_table_object]) with [migration_table_object].
  rewrite stage_migrate. cbv beta iota.
  change (nth 0 (map _ order_guard_objects) false) with false.
  change (nth 1 (map _ order_guard_objects) false) with false.
  rewrite stage_guards. cbv beta iota.
  rewrite <- (app_nil_r (order_markers now)).
  by rewrite stage_order_valid by (done || vm_compute; reflexivity).
Qed.

(** *** Quarantine and verified commits *)

Lemma stage_part d ms objects marker id kind e1 e2 now :
  marker = Ok None -> existsb (existed (stage f0 d ms)) objects = false ->
  map so_name objects ⊆ store_names -> NoDup (map so_name (d ++ objects)) ->
  id ∉ map mk_migration_id ms ->
  ensure_part (stage f0 d ms) now objects marker id kind e1 e2
  = Ok (stage f0 (d ++ objects) (ms ++ [prefix_marker id kind now])).
Proof.
  intros -> Hx Hn Hd Hid. unfold ensure_part. rewrite Hx. simpl negb. cbv beta iota.
  rewrite stage_create by done. cbv beta iota. by rewrite stage_take.
Qed.

Lemma none_existed d ms objects :
  forallb (fun o => bool_decide (so_name o ∈ store_names)
                    && negb (opt_is_some (schema_object_sql d (so_type o) (so_name o)))) objects
  = true ->
  existsb (existed (stage f0 d ms)) objects = false.
Proof.
  intros Hf. apply not_true_iff_false. rewrite existsb_exists. intros (o & Hin & He).
  rewrite forallb_forall in Hf. specialize (Hf o Hin). bool_props.
  rewrite stage_existed in He by done. congruence.
Qed.

Definition quarantine_stage : list SchemaObject :=
  (created_order ++ order_guard_objects) ++ quarantine_objects.
Definition quarantine_markers (n1 n2 : Z) : list MarkerRow :=
  order_markers n1 ++
  [prefix_marker OUTBOX_QUARANTINE_MIGRATION_ID OUTBOX_QUARANTINE_MIGRATION_KIND n2].

Lemma stage_dispatcher n1 n2 :
  ensure_outbox_dispatcher_schema
    (stage f0 (created_order ++ order_guard_objects) (order_markers n1)) n2
  = Ok (stage f0 quarantine_stage (quarantine_markers n1 n2)).
Proof.
  unfold ensure_outbox_dispatcher_schema, load_quarantine_migration_marker.
  rewrite stage_part; [|by apply stage_no_marker; find_marker
    |apply none_existed; vm_compute; reflexivity
    |apply (bool_decide_eq_true_1 _); vm_compute; reflexivity..].
  cbv beta iota. fold quarantine_stage. fold (quarantine_markers n1 n2).
  assert (Hv : all_valid (sqlite_master (sf_db (stage f0 quarantine_stage
                 (quarantine_markers n1 n2)))) quarantine_objects).
  { apply installs_valid. vm_compute. reflexivity. }
  pose proof (dispatcher_triggers_valid _ Hv) as Ht.
  unfold all_valid, quarantine_objects in Hv. rewrite !Forall_cons in Hv.
  destruct Hv as (Hv & _). unfold validate_object. rewrite Hv. cbv beta iota delta [from_schema].
  rewrite Ht. cbv beta iota.
  rewrite (load_marker_found _ _ _ _ (prefix_marker OUTBOX_QUARANTINE_MIGRATION_ID
    OUTBOX_QUARANTINE_MIGRATION_KIND n2)); [|find_marker|reflexivity|by left].
  cbn [ok_or mk_manifest prefix_marker]. unfold validate_quarantine_migration_marker.
  rewrite (empty_prefix_valid _ _ (si_order _ (stage_inv _ _))). cbv beta iota.
  unfold validate_quarantine_rows. destruct Hfresh as (_ & _ & _ & _ & _ & _ & Hq).
  rewrite bool_decide_eq_true_2; [done|].
  rewrite (Hq : quarantine (sf_db (stage f0 _ _)) = ∅). apply map_Forall_empty.
Qed.

Definition full_stage : list SchemaObject := quarantine_stage ++ verified_commit_objects.
Definition full_markers (n1 n2 n3 : Z) : list MarkerRow :=
  quarantine_markers n1 n2 ++
  [prefix_marker OUTBOX_VERIFIED_COMMIT_MIGRATION_ID OUTBOX_VERIFIED_COMMIT_MIGRATION_KIND n3].

Lemma full_master_ready ms : master_ready (sqlite_master (sf_db (stage f0 full_stage ms))).
Proof.
  split.
  - apply installs_valid. vm_compute. reflexivity.
  - apply stage_allowed. vm_compute. reflexivity.
Qed.

Lemma stage_verified n1 n2 n3 i :
  validated_database_instance_id (sf_db (stage f0 full_stage (full_markers n1 n2 n3))) = Ok i ->
  ensure_outbox_verified_commit_schema
    (stage f0 quarantine_stage (quarantine_markers n1 n2)) n3
  = Ok (stage f0 full_stage (full_markers n1 n2 n3)).
Proof.
  intros Hid. unfold ensure_outbox_verified_commit_schema, load_verified_commit_marker.
  rewrite stage_part; [|by apply stage_no_marker; find_marker
    |apply none_existed; vm_compute; reflexivity
    |apply (bool_decide_eq_true_1 _); vm_compute; reflexivity..].
  cbv beta iota. fold full_stage. fold (full_markers n1 n2 n3).
  pose proof (full_master_ready (full_markers n1 n2 n3)) as Hm.
  pose proof (mr_objects _ Hm) as Hall. rewrite !Forall_app in Hall. destruct Hall as (_ & _ & Hv).
  rewrite (validate_objects_ok _ _ Hv). cbv beta iota.
  rewrite (no_extra_ready _ Hm). cbv beta iota delta [from_schema].
  rewrite (load_marker_found _ _ _ _ (prefix_marker OUTBOX_VERIFIED_COMMIT_MIGRATION_ID
    OUTBOX_VERIFIED_COMMIT_MIGRATION_KIND n3)); [|find_marker|reflexivity|by left].
  cbn [ok_or mk_manifest prefix_marker]. unfold validate_verified_commit_marker.
  rewrite (empty_prefix_valid _ _ (si_order _ (stage_inv _ _))). cbv beta iota.
  unfold validate_verified_commit_rows. rewrite Hid. cbv beta iota delta [from_ledger].
  rewrite bool_decide_eq_true_2; cycle 1.
  { destruct Hfresh as (_ & _ & _ & _ & _ & Hv0 & _).
    rewrite (Hv0 : verified (sf_db (stage f0 _ _)) = ∅). apply map_Forall_empty. }
  simpl source_max_rowid. by rewrite (deliveries_verified _ (stage_inv _ _)).
Qed.

Lemma stage_ready n1 n2 n3 :
  file_open (sf_ledger f0) ->
  (exists i, validated_database_instance_id (sf_db (stage f0 full_stage (full_markers n1 n2 n3)))
             = Ok i) ->
  store_ready (stage f0 full_stage (full_markers n1 n2 n3)).
Proof.
  intros [F1 _ F3 F4 F5] Hid. split.
  - split; [exact F1|exact Hid|exact F3|exact F4|exact F5].
  - apply full_master_ready.
  - unfold load_outbox_order_manifest.
    rewrite (load_marker_found _ _ _ _ (order_marker n1)); [done|find_marker|reflexivity|by right].
  - unfold load_order_guard_marker.
    rewrite (load_marker_found _ _ _ _ (prefix_marker OUTBOX_ORDER_GUARD_MIGRATION_ID
      OUTBOX_ORDER_GUARD_MIGRATION_KIND n1)); [done|find_marker|reflexivity|by left].
  - unfold load_quarantine_migration_marker.
    rewrite (load_marker_found _ _ _ _ (prefix_marker OUTBOX_QUARANTINE_MIGRATION_ID
      OUTBOX_QUARANTINE_MIGRATION_KIND n2)); [done|find_marker|reflexivity|by left].
  - unfold load_verified_commit_marker.
    rewrite (load_marker_found _ _ _ _ (prefix_marker OUTBOX_VERIFIED_COMMIT_MIGRATION_ID
      OUTBOX_VERIFIED_COMMIT_MIGRATION_KIND n3)); [done|find_marker|reflexivity|by left].
Qed.
End Stage.

(** *** The ledger underneath *)

Lemma schema_object_kept m d ty name sql :
  schema_object_sql m ty name = Some sql -> schema_object_sql (m ++ d) ty name = Some sql.
Proof. unfold schema_object_sql. rewrite filter_app. by destruct (filter _ m). Qed.

Lemma identity_object_kept m d ty name sql :
  validate_database_schema_object m ty name sql = Ok tt ->
  validate_database_schema_object (m ++ d) ty name sql = Ok tt.
Proof.
  unfold validate_database_schema_object.
  destruct (schema_object_sql m ty name) as [x|] eqn:E; [|done].
  by rewrite (schema_object_kept _ d _ _ _ E).
Qed.

Lemma identity_schema_kept m d :
  Forall (fun o => so_tbl_name o <> DATABASE_IDENTITY_TABLE) d ->
  validate_identity_schema m = Ok tt -> validate_identity_schema (m ++ d) = Ok tt.
Proof.
  intros Hd. unfold validate_identity_schema. intros Hv.
  repeat match type of Hv with context [validate_database_schema_object m ?t ?n ?s] =>
    let E := fresh "E" in
    destruct (validate_database_schema_object m t n s) as [[]|] eqn:E; [|done];
    rewrite (identity_object_kept _ d _ _ _ E); cbv beta iota in Hv |- * end.
  unfold first_extra_trigger in *. rewrite filter_app, (filter_none _ d), app_nil_r; [done|].
  intros o Ho (_ & Ht & _). rewrite Forall_forall in Hd. specialize (Hd o Ho). set_solver.
Qed.

Lemma stage_identity f0 ms i :
  validated_database_instance_id (sf_db f0) = Ok i ->
  validated_database_instance_id (sf_db (stage f0 full_stage ms)) = Ok i.
Proof.
  unfold validated_database_instance_id, read_database_instance_id.
  change (ledger_migrations (sf_db (stage f0 full_stage ms))) with (ledger_migrations (sf_db f0)).
  change (identity_rows (sf_db (stage f0 full_stage ms))) with (identity_rows (sf_db f0)).
  change (sqlite_master (sf_db (stage f0 full_stage ms)))
    with (sqlite_master (sf_db f0) ++ full_stage).
  destruct (bool_decide _); [|done]. cbv beta iota.
  destruct (validate_identity_schema (sqlite_master (sf_db f0))) as [[]|] eqn:E; [|done].
  rewrite identity_schema_kept; [done| |done].
  apply (bool_decide_eq_true_1 _). vm_compute. reflexivity.
Qed.

Lemma create_objects_master objects : forall m m',
  create_objects m objects = Ok m' -> m' = m ++ objects.
Proof.
  induction objects as [|o objects IH]; intros m m' Hc; simpl in Hc.
  { simplify_eq. by rewrite app_nil_r. }
  destruct (negb _); [|done]. apply IH in Hc as ->. by rewrite <- app_assoc.
Qed.

(** The tables of the store. *)
Definition same_tables (db db' : Db) : Prop :=
  actors db' = actors db /\ turns db' = turns db /\ outbox db' = outbox db /\
  commit_order db' = commit_order db /\ order_sequence db' = order_sequence db /\
  verified db' = verified db /\ quarantine db' = quarantine db.

Lemma same_tables_fresh db db' : same_tables db db' -> StoreInv.fresh db -> StoreInv.fresh db'.
Proof.
  unfold same_tables, StoreInv.fresh. intros (-> & -> & -> & -> & -> & -> & ->). done.
Qed.

(** Opening the ledger leaves the tables of the store alone. *)
Lemma ensure_schema_store fresh at_ f f' :
  ensure_schema fresh at_ f = Ok f' ->
  same_tables (lf_db f) (lf_db f') /\
  (sqlite_master (lf_db f') = sqlite_master (lf_db f) \/
   sqlite_master (lf_db f') = sqlite_master (lf_db f) ++ identity_objects).
Proof.
  intros He. apply ensure_schema_inv in He as (db & f2 & f3 & Hi & Hm & Hx & ->).
  destruct (chain_steps_frame _ _ _ _ _ Hm Hx) as (_ & _ & [evs Hdb] & _).
  destruct (columns_ensured_db (with_db (create_tables_base f) db)) as [evs' Hdb'].
  simpl in Hdb'. rewrite Hdb' in Hdb.
  assert (Hid : same_tables (lf_db f) db /\
    (sqlite_master db = sqlite_master (lf_db f) \/
     sqlite_master db = sqlite_master (lf_db f) ++ identity_objects)).
  { assert (Hb : same_tables (lf_db f) (lf_db (create_tables_base f)) /\
              sqlite_master (lf_db (create_tables_base f)) = sqlite_master (lf_db f)).
    { unfold create_tables_base. by destruct (lf_event_columns f). }
    destruct Hb as [Hb1 Hb2]. unfold ensure_database_instance_identity in Hi. cbv zeta in Hi.
    destruct (bool_decide _) in Hi.
    - destruct (forallb _ _) in Hi; [|done]. cbv beta iota in Hi.
      destruct (validated_database_instance_id _) in Hi; [|done]. simplify_eq.
      rewrite Hb2. auto.
    - destruct (existsb _ _) in Hi; [done|].
      destruct (create_objects _ _) as [m|] eqn:Ec in Hi; [|done].
      cbv beta iota delta [ledger_sqlite] in Hi. apply create_objects_master in Ec.
      destruct (validated_database_instance_id _) in Hi; [|done]. simplify_eq.
      rewrite <- Hb2. split; [exact Hb1|by right]. }
  destruct (ensure_fts_facts f3) as (F1 & _). rewrite F1, Hdb. simpl.
  split; [|apply Hid]. apply proj1 in Hid.
  unfold ensure_fts. case_bool_decide; simpl; rewrite Hdb; exact Hid.
Qed.

(** A file without a store: the ledger of the file may be in use. *)
Record no_store (f : StoreFile) : Prop := {
  ns_tables : StoreInv.fresh (sf_db f);
  ns_objects : store_absent (sqlite_master (sf_db f));
  ns_markers : sf_markers f = []
}.

Lemma open_no_store fresh at_ n1 n2 n3 file ledger :
  no_store file -> ensure_schema fresh at_ (sf_ledger file) = Ok ledger ->
  let f0 := {| sf_ledger := ledger; sf_markers := []; sf_outbox_rowids := sf_outbox_rowids file |} in
  let f1 := stage f0 full_stage (full_markers n1 n2 n3) in
  exists i, open fresh at_ n1 n2 n3 file = (f1, Ok i) /\
    store_ready f1 /\ StoreInv.fresh (sf_db f1) /\
    chains_intact (events (sf_db f1)) /\ validated_database_instance_id (sf_db f1) = Ok i.
Proof.
  intros [Hf Ha Hm] He f0 f1.
  destruct (ensure_schema_store _ _ _ _ He) as [Hf' Hmaster].
  pose proof (ensure_schema_open _ _ _ _ He) as Ho.
  assert (Hf0 : StoreInv.fresh (sf_db f0)) by (by eapply same_tables_fresh).
  assert (Ha0 : store_absent (sqlite_master (sf_db f0))).
  { unfold sf_db. simpl. destruct Hmaster as [-> | ->]; [done|].
    apply Forall_app. split; [done|]. apply (bool_decide_eq_true_1 _). vm_compute. reflexivity. }
  assert (Hch : chains_intact (events (sf_db f0))) by (apply validate_sound, Ho).
  destruct (fo_identity _ Ho) as [i Hi]. pose proof (stage_identity f0 (full_markers n1 n2 n3) i Hi)
    as Hi1. exists i.
  assert (Htx : open_transaction f0 n1 n2 n3 i = Ok f1).
  { unfold open_transaction. rewrite <- (stage_nil f0) at 1 by done.
    rewrite stage_order by done. cbv beta iota. rewrite stage_dispatcher by done. cbv beta iota.
    rewrite (stage_verified f0 Hf0 Ha0 eq_refl n1 n2 n3 i Hi1). cbv beta iota. fold f1. unfold f1.
    rewrite Hi1. cbv beta iota delta [from_ledger]. by rewrite bool_decide_eq_true_2. }
  split.
  - unfold open, connect. rewrite He. cbv beta iota. rewrite Hm.
    pose proof (validated_read _ _ Hi) as Hread. unfold sf_db in Hread. simpl in Hread.
    rewrite Hread. simpl el_instance_id. cbv beta iota.
    unfold database_instance_id, with_conn. rewrite Hread. simpl el_instance_id. cbv beta iota.
    rewrite bool_decide_eq_true_2 by done. simpl default. cbv beta iota delta [from_ledger].
    fold f0. by rewrite Htx.
  - split; [apply stage_ready; eauto|]. split; [exact Hf0|]. split; [exact Hch|exact Hi1].
Qed.

(** ** A new store can always be opened again *)

(** The file after the operations of the store: the database has moved on, the
    full-text table with the events and the rowids with the outbox. *)
Definition used (f : StoreFile) (db : Db)
    (fts : list (nat * (string * string * string))) (rowids : gmap Key Z) : StoreFile :=
  {| sf_ledger := {| lf_db := db; lf_event_columns := lf_event_columns (sf_ledger f);
                     lf_sequence_index := lf_sequence_index (sf_ledger f);
                     lf_chain_migrations := lf_chain_migrations (sf_ledger f); lf_fts := fts |};
     sf_markers := sf_markers f; sf_outbox_rowids := rowids |}.

Lemma used_ready f db fts rowids :
  store_ready f -> static (sf_db f) db -> chains_intact (events db) ->
  Z.of_nat (length (events db)) <= i64_max -> store_ready (used f db fts rowids).
Proof.
  intros [[F1 [i F2] _ F4 F5] M R1 R2 R3 R4] (S1 & S2 & S3) Hch Hlen. split.
  - split; [exact F1| | |exact F4|].
    + exists i. rewrite <- F2. by apply static_validated.
    + by apply validate_complete.
    + simpl. by rewrite S3.
  - unfold sf_db. simpl. by rewrite S1.
  - exact R1.
  - exact R2.
  - exact R3.
  - exact R4.
Qed.

(** C11. Opening a file that holds no store creates one whose tables are empty, and
    whatever the store's operations then do to it, opening the file again succeeds,
    reports the same identity and changes nothing: every check of [open] holds of
    every database the operations can reach. *)
Theorem new_store_reopens fresh at_ n1 n2 n3 file ledger :
  no_store file -> ensure_schema fresh at_ (sf_ledger file) = Ok ledger ->
  exists f1 i, open fresh at_ n1 n2 n3 file = (f1, Ok i) /\ StoreInv.fresh (sf_db f1) /\
    forall db fts rowids fresh' at_' m1 m2 m3,
      steps (sf_db f1) db -> Z.of_nat (length (events db)) <= i64_max ->
      open fresh' at_' m1 m2 m3 (used f1 db fts rowids) = (used f1 db fts rowids, Ok i).
Proof.
  intros Hn He. destruct (open_no_store _ _ n1 n2 n3 _ _ Hn He) as (i & Ho & Hr & Hf & Hch & Hi).
  eexists _, i. split; [exact Ho|]. split; [exact Hf|].
  intros db fts rowids fresh' at_' m1 m2 m3 Hs Hlen.
  destruct (steps_reopen _ _ Hs (fresh_inv _ Hf) (fresh_reopen _ Hf Hch)) as (Hinv & Hro & Hst & _).
  apply ready_opens; [|exact Hinv|exact Hro|].
  - apply used_ready; [exact Hr|exact Hst|apply Hro|exact Hlen].
  - rewrite <- Hi. by apply static_validated.
Qed.
End Theorems.

(** ** Examples *)

(** A file with no table at all. *)
Definition new_file : StoreFile :=
  {| sf_ledger :=
       {| lf_db := {| actors := ∅; turns := ∅; outbox := ∅; commit_order := [];
                      order_sequence := None; verified := ∅; quarantine := ∅; events := [];
                      ledger_migrations := []; identity_rows := []; sqlite_master := [];
                      main_file := Ok "/var/lib/zaion/ledger.db" |};
          lf_event_columns := None; lf_sequence_index := None; lf_chain_migrations := [];
          lf_fts := [] |};
     sf_markers := []; sf_outbox_rowids := ∅ |}.

Definition new_store : StoreFile := (open sample_instance "t" 1 2 3 new_file).1.

(** One turn admitted into the new store. *)
Definition new_store_begin : result TurnStoreError (BeginTurnResult * Db) :=
  begin_turn (sf_db new_store) sc_ingress (sc_admission false) (at_second 1).
Definition new_store_db : Db := db_after (sf_db new_store) new_store_begin.

Lemma new_store_steps : steps (sf_db new_store) new_store_db.
Proof.
  assert (Hok : is_ok new_store_begin = true) by (vm_compute; reflexivity).
  apply rtc_once. destruct (db_after_ok (sf_db new_store) _ Hok) as [r Hr].
  exact (st_begin _ _ _ _ _ _ Hr).
Qed.

Lemma new_file_empty : no_store new_file.
Proof. repeat split. by constructor. Qed.

Lemma new_store_reopens_witness :
  size (outbox new_store_db) = 1%nat /\
  open "x" "t2" 4 5 6 (used new_store new_store_db [] ∅)
  = (used new_store new_store_db [] ∅, Ok sample_instance).
Proof.
  split; [vm_compute; reflexivity|].
  destruct (ensure_schema sample_instance "t" (sf_ledger new_file)) as [ledger|] eqn:He;
    [|exfalso; revert He; vm_compute; discriminate].
  destruct (new_store_reopens sample_instance "t" 1 2 3 new_file ledger new_file_empty He)
    as (f1 & i & Ho & _ & Hre).
  assert (f1 = new_store) as -> by (unfold new_store; by rewrite Ho).
  assert (i = sample_instance) as ->.
  { assert (Hs : (open sample_instance "t" 1 2 3 new_file).2 = Ok sample_instance)
      by (vm_compute; reflexivity).
    rewrite Ho in Hs. simpl in Hs. congruence. }
  apply Hre; [exact new_store_steps|]. vm_compute. discriminate.
Defined.
