(* ===== verification/StoreOpenSound.v ===== *)
(** * What [DurableTurnStore::open] accepts

    A database on which [open] succeeds has a commit order that covers its outbox,
    follows the revisions of every turn and has no hole, complete histories, intact
    chains and matching evidence; and the order of an older outbox is its rowids
    renumbered. *)

From stdpp Require Import prelude gmap strings list relations sorting.
From S2P Require Import Prelude.
From S2P Require Import Json.
From S2P Require Import TurnState.
From S2P Require Import TurnKernel.
From S2P Require Import Env.
From S2P Require Import Concrete.
From S2P Require Import Schema.
From S2P Require Import Database.
From S2P Require Import Samples.
From S2P Require Import Ledger.
From S2P Require Import LedgerChain.
From S2P Require Import ChainMigration.
From S2P Require Import ChainMigrationLemmas.
From S2P Require Import ChainMigrationTheorems.
From S2P Require Import TurnRecords.
From S2P Require Import TurnStore.
From S2P Require Import OutboxLemmas.
From S2P Require Import Machine.
From S2P Require Import StoreInv.
From S2P Require Import StoreOpen.
From S2P Require Import StoreOpenLemmas.
From S2P Require Import Scenario.
From S2P Require Import StoreOpenTheorems.
Local Open Scope res_scope.
Local Open Scope Z_scope.

(** Case analysis on the guards and the fallible steps of a hypothesis. *)
Ltac ok_cases H :=
  repeat (match type of H with
    | context [match ?r with Ok _ => _ | Err _ => _ end] =>
        let E := fresh "E" in destruct r eqn:E; [|discriminate H]
    | context [if ?b then _ else _] =>
        let E := fresh "E" in destruct b eqn:E; [|discriminate H]
    end; cbv beta iota in H).

Section Sound.
Context `{Env}.

(** ** What the checks of the mapping mean *)

Lemma order_covers_sound db k :
  order_covers db = true -> (outbox db !! k <> None <-> order_of db k <> None).
Proof.
  unfold order_covers. intros Hc. bool_props. split.
  - intros Hk. destruct (outbox db !! k) as [o|] eqn:E; [|done]. eauto.
  - rewrite order_of_elem. intros (c & -> & Hin)%list_elem_of_fmap.
    match goal with Hf : Forall _ (commit_order db) |- _ => rewrite Forall_forall in Hf; auto end.
Qed.

Lemma ordinals_increase_sound previous rows :
  ordinals_increase previous rows = true ->
  StronglySorted (fun x y => co_ordinal x.1 < co_ordinal y.1) rows /\
  Forall (fun x => forall p, previous = Some p -> p < co_ordinal x.1) rows.
Proof.
  revert previous. induction rows as [|x rows IH]; intros previous Hr; simpl in Hr.
  { split; constructor. }
  apply andb_true_iff in Hr as [Hp Hr]. destruct (IH _ Hr) as [Hs Ha].
  assert (Hx : forall p, previous = Some p -> p < co_ordinal x.1).
  { intros p ->. simpl in Hp. apply negb_true_iff, bool_decide_eq_false_1 in Hp. lia. }
  split; constructor; [done| |done|].
  - eapply Forall_impl; [exact Ha|]. simpl. auto.
  - eapply Forall_impl; [exact Ha|]. simpl. intros y Hy p Hpp.
    specialize (Hy _ eq_refl). specialize (Hx p Hpp). lia.
Qed.

(** Two elements of a list sorted for two relations are ordered the same way. *)
Lemma sorted_both {A} (R S : A -> A -> Prop) l x y :
  StronglySorted R l -> StronglySorted S l -> x ∈ l -> y ∈ l ->
  x = y \/ (R x y /\ S x y) \/ (R y x /\ S y x).
Proof.
  induction 1 as [|z l _ IH Hz]; intros Hs Hx Hy; [by apply elem_of_nil in Hx|].
  inversion_clear Hs as [|? ? Hs' Hz']. rewrite Forall_forall in Hz, Hz'.
  apply elem_of_cons in Hx as [->|Hx], Hy as [->|Hy]; auto 6.
Qed.

Lemma revisions_follow_sound db c o c' o' :
  revisions_follow_order db = true ->
  c ∈ commit_order db -> outbox db !! co_key c = Some o ->
  c' ∈ commit_order db -> outbox db !! co_key c' = Some o' ->
  co_tenant_id c = co_tenant_id c' -> or_turn_id o = or_turn_id o' ->
  or_revision o < or_revision o' -> co_ordinal c < co_ordinal c'.
Proof.
  intros Hf Hc Ho Hc' Ho' Htn Ht Hlt. unfold revisions_follow_order in Hf.
  rewrite forallb_forall in Hf.
  assert (Hin : (c, o) ∈ outbox_join db) by (by apply elem_of_join).
  assert (Hin' : (c', o') ∈ outbox_join db) by (by apply elem_of_join).
  specialize (Hf _ (proj1 (list_elem_of_In _ _) Hin)). simpl in Hf.
  destruct (ordinals_increase_sound _ _ Hf) as [Hs _].
  assert (Hmem : forall co, co ∈ turn_partition db (co_tenant_id c) (or_turn_id o) <->
    (co_tenant_id co.1 = co_tenant_id c /\ or_turn_id co.2 = or_turn_id o) /\ co ∈ outbox_join db).
  { intros co. unfold turn_partition, order_by_key. rewrite order_by_perm.
    by rewrite list_elem_of_filter. }
  destruct (sorted_both (fun x y => or_revision x.2 <= or_revision y.2) _ _ (c, o) (c', o')
    (order_by_key_sorted _ _) Hs) as [Heq|[[_ Hlt']|[Hle _]]].
  - by apply Hmem.
  - apply Hmem. split; [|done]. simpl. by rewrite Htn, Ht.
  - simplify_eq. lia.
  - exact Hlt'.
  - simpl in Hle. lia.
Qed.

Lemma delivered_hole_sound db tn : delivered_hole db tn = false -> no_hole db tn.
Proof.
  unfold delivered_hole, first_undelivered, last_delivered.
  intros Hh c o c' o' Hc Ho Hc' Ho' Ht Ht' Hu Hd.
  assert (Hin : forall P (HP : forall x, Decision (P x)) d r, d ∈ commit_order db ->
    outbox db !! co_key d = Some r -> co_tenant_id d = tn -> P (d, r) ->
    co_ordinal d ∈ map (fun co => co_ordinal co.1) (filter P (tenant_join db tn))).
  { intros P HP d r Hdin Hr Hdt HPd. apply list_elem_of_fmap. exists (d, r). split; [done|].
    apply list_elem_of_filter. split; [done|]. apply list_elem_of_filter. split; [done|].
    by apply elem_of_join. }
  pose proof (Hin (fun co => or_status co.2 <> "delivered") _ c o Hc Ho Ht Hu) as H1.
  pose proof (Hin (fun co => or_status co.2 = "delivered") _ c' o' Hc' Ho' Ht' Hd) as H2.
  match type of H1 with _ ∈ ?l => pose proof (sql_min_spec l) as M1;
    destruct (sql_min l) as [a|]; [|rewrite M1 in H1; by apply elem_of_nil in H1] end.
  match type of H2 with _ ∈ ?l => pose proof (sql_max_spec l) as M2;
    destruct (sql_max l) as [b|]; [|rewrite M2 in H2; by apply elem_of_nil in H2] end.
  destruct M1 as [_ M1], M2 as [_ M2]. rewrite Forall_forall in M1, M2.
  specialize (M1 _ H1). specialize (M2 _ H2). apply bool_decide_eq_false_1 in Hh.
  simpl in *. lia.
Qed.

(** A repetition-free list of [n + 1] numbers from [0] to [n] has them all. *)
Lemma pigeonhole_seqZ (l : list Z) n :
  NoDup l -> Forall (fun z => 0 <= z <= n) l -> Z.of_nat (length l) = n + 1 ->
  l ≡ₚ seqZ 0 (n + 1).
Proof.
  intros Hn Hb Hlen. apply submseteq_length_Permutation.
  - apply NoDup_submseteq; [done|]. intros z Hz. rewrite Forall_forall in Hb.
    specialize (Hb z Hz). apply elem_of_seqZ. lia.
  - rewrite length_seqZ. lia.
Qed.

Lemma history_sound db k row :
  history_is_complete db k row = true -> NoDup (turn_revisions db k.1 k.2) ->
  turn_revisions db k.1 k.2 ≡ₚ seqZ 0 (tr_revision row + 1).
Proof.
  unfold history_is_complete. cbv zeta. intros Hh Hn. bool_props.
  apply pigeonhole_seqZ; [done| |lia].
  pose proof (sql_min_spec (turn_revisions db k.1 k.2)) as Mn.
  pose proof (sql_max_spec (turn_revisions db k.1 k.2)) as Mx.
  repeat match goal with He : sql_min _ = Some _ |- _ => rewrite He in Mn; clear He
    | He : sql_max _ = Some _ |- _ => rewrite He in Mx; clear He end.
  destruct Mn as [_ Mn], Mx as [_ Mx]. rewrite Forall_forall in *. simpl in *.
  intros z Hz. specialize (Mn z Hz). specialize (Mx z Hz). lia.
Qed.

(** ** A sound database *)

(** What an accepted database satisfies; [maximum] is the last ordinal that was
    there when verified commits were introduced. *)
Record sound_store (db : Db) (instance : string) (maximum : Z) : Prop := {
  ss_covers : forall k, outbox db !! k <> None <-> order_of db k <> None;
  ss_ordinals : forall c, c ∈ commit_order db ->
    0 < co_ordinal c <= default 0 (order_sequence db);
  ss_turns : forall k r, turns db !! k = Some r -> actors db !! (k.1, tr_actor_key r) <> None;
  ss_entries : forall k o, outbox db !! k = Some o -> turns db !! (k.1, or_turn_id o) <> None;
  ss_revisions : forall c o c' o',
    c ∈ commit_order db -> outbox db !! co_key c = Some o ->
    c' ∈ commit_order db -> outbox db !! co_key c' = Some o' ->
    co_tenant_id c = co_tenant_id c' -> or_turn_id o = or_turn_id o' ->
    or_revision o < or_revision o' -> co_ordinal c < co_ordinal c';
  ss_no_hole : forall tn, no_hole db tn;
  ss_history : forall tn t row, turns db !! (tn, t) = Some row ->
    NoDup (turn_revisions db tn t) -> turn_revisions db tn t ≡ₚ seqZ 0 (tr_revision row + 1);
  ss_quarantine : forall k q, quarantine db !! k = Some q ->
    exists o c, outbox db !! k = Some o /\ order_of db k = Some c /\
      or_status o <> "delivered" /\ co_ordinal c = qr_commit_ordinal q /\
      or_payload_hash o = qr_payload_hash q;
  ss_verified : forall k v, verified db !! k = Some v ->
    exists o, outbox db !! k = Some o /\ or_status o = "delivered" /\
      vr_database_instance_id v = instance;
  ss_evidence : forall c o, c ∈ commit_order db -> outbox db !! co_key c = Some o ->
    or_status o = "delivered" -> maximum < co_ordinal c -> verified db !! co_key c <> None;
  ss_chains : chains_intact (events db)
}.

(** The order half. *)
Definition order_sound (db : Db) : Prop :=
  (forall k, outbox db !! k <> None <-> order_of db k <> None) /\
  (forall c, c ∈ commit_order db -> 0 < co_ordinal c <= default 0 (order_sequence db)) /\
  foreign_keys_ok db = true /\ revisions_follow_order db = true /\
  (forall tn, no_hole db tn) /\
  map_Forall (fun k row => history_is_complete db k row = true) (turns db).

Lemma no_holes_sound db :
  forallb (fun co => negb (delivered_hole db (co_tenant_id co.1))) (outbox_join db) = true ->
  forall tn, no_hole db tn.
Proof.
  intros Hf tn c o c' o' Hc Ho Hc' Ho' Ht Ht' Hu Hd. rewrite forallb_forall in Hf.
  assert (Hin : In (c, o) (outbox_join db)) by (by apply list_elem_of_In, elem_of_join).
  specialize (Hf _ Hin). apply negb_true_iff, delivered_hole_sound in Hf. simpl in Hf.
  rewrite Ht in Hf. by eapply Hf.
Qed.

Lemma ordinals_sound db :
  order_sequence db = max_ordinal db ->
  is_some_and (fun m => bool_decide (m <= 0)) (sql_min (map co_ordinal (commit_order db))) = false ->
  forall c, c ∈ commit_order db -> 0 < co_ordinal c <= default 0 (order_sequence db).
Proof.
  intros Hmax Hmin c Hc.
  assert (Hin : co_ordinal c ∈ map co_ordinal (commit_order db)).
  { apply list_elem_of_fmap. by exists c. }
  pose proof (sql_min_spec (map co_ordinal (commit_order db))) as H1.
  pose proof (sql_max_spec (map co_ordinal (commit_order db))) as H2.
  rewrite Hmax. unfold max_ordinal.
  destruct (sql_min _) as [a|]; [|rewrite H1 in Hin; by apply elem_of_nil in Hin].
  destruct (sql_max _) as [b|]; [|rewrite H2 in Hin; by apply elem_of_nil in Hin].
  destruct H1 as [_ H1], H2 as [_ H2]. rewrite Forall_forall in H1, H2.
  specialize (H1 _ Hin). specialize (H2 _ Hin). simpl in Hmin.
  apply bool_decide_eq_false_1 in Hmin. simpl in *. lia.
Qed.

Lemma mapping_sound db manifest :
  validate_outbox_order_mapping db manifest = Ok tt -> order_sound db.
Proof.
  unfold validate_outbox_order_mapping. intros Hv. ok_cases Hv. bool_props.
  split; [by intros k; apply order_covers_sound|].
  split; [by apply ordinals_sound|]. split; [done|]. split; [done|].
  split; [by apply no_holes_sound|done].
Qed.

(** ** What each part of [open] leaves alone *)

(** Only [sqlite_master] of the database may differ. *)
Definition rows_kept (f f' : StoreFile) : Prop :=
  sf_db f' = with_master (sf_db f) (sqlite_master (sf_db f')).

#[global] Instance rows_kept_preorder : PreOrder rows_kept.
Proof.
  unfold rows_kept. split.
  - intros f. by destruct (sf_db f).
  - intros f g h Hg Hh. rewrite Hh, Hg. reflexivity.
Qed.

Lemma create_kept f objects f' :
  create f objects = Ok f' -> rows_kept f f' /\ sf_markers f' = sf_markers f /\
    sf_outbox_rowids f' = sf_outbox_rowids f.
Proof. unfold create. intros Hc. ok_cases Hc. simplify_eq. done. Qed.

Lemma insert_marker_kept f m f' :
  insert_marker f m = Ok f' -> f' = with_marker f m.
Proof. unfold insert_marker. intros Hc. ok_cases Hc. by simplify_eq. Qed.

Lemma take_marker_kept f id kind now f' :
  take_marker f id kind now = Ok f' -> rows_kept f f'.
Proof.
  unfold take_marker. intros Ht. ok_cases Ht. apply insert_marker_kept in Ht as ->.
  exact (reflexivity (R := rows_kept) f).
Qed.

Lemma ensure_part_kept f now objects marker id kind e1 e2 f' :
  ensure_part f now objects marker id kind e1 e2 = Ok f' -> rows_kept f f'.
Proof.
  unfold ensure_part. intros Hp. ok_cases Hp.
  match type of Hp with context [match ?o with Some _ => _ | None => _ end] =>
    destruct o end; ok_cases Hp; [by simplify_eq|].
  match goal with Hc : create f objects = _ |- _ => apply create_kept in Hc as [Hc _] end.
  etrans; [eassumption|by eapply take_marker_kept].
Qed.

Lemma order_schema_sound f now f' :
  ensure_outbox_commit_order_schema f now = Ok f' -> order_sound (sf_db f').
Proof.
  unfold ensure_outbox_commit_order_schema. cbv zeta. intros He. ok_cases He. simplify_eq.
  match goal with Hv : validate_order_schema _ = Ok _ |- _ =>
    unfold validate_order_schema in Hv; ok_cases Hv end.
  match goal with Hv : validate_outbox_order_mapping _ _ = Ok ?u |- _ =>
    destruct u; by apply mapping_sound in Hv end.
Qed.

(** The migration of the order writes the order. *)
Definition other_rows_kept (f f' : StoreFile) : Prop :=
  sf_db f' = with_master (with_order (sf_db f) (commit_order (sf_db f')) (order_sequence (sf_db f')))
               (sqlite_master (sf_db f')).

#[global] Instance other_rows_kept_preorder : PreOrder other_rows_kept.
Proof.
  unfold other_rows_kept. split.
  - intros f. by destruct (sf_db f).
  - intros f g h Hg Hh. rewrite Hh, Hg. reflexivity.
Qed.

Lemma rows_kept_other f f' : rows_kept f f' -> other_rows_kept f f'.
Proof. unfold rows_kept, other_rows_kept. intros ->. by destruct (sf_db f). Qed.

(** *** The backfill *)

(** The order rows of legacy rows, numbered_order from [n + 1]. *)
Fixpoint numbered_order (n : Z) (rows : list LegacyOutboxOrderRow) : list OrderRow :=
  match rows with
  | [] => []
  | r :: rows' =>
      {| co_ordinal := n + 1; co_tenant_id := lo_tenant_id r; co_outbox_id := lo_outbox_id r;
         co_order_origin := "legacy_rowid_backfill";
         co_legacy_source_rowid := Some (source_rowid r) |} :: numbered_order (n + 1) rows'
  end.

Definition last_ordinal (db : Db) : Z :=
  Z.max (default 0 (order_sequence db)) (default 0 (max_ordinal db)).

Lemma insert_legacy_result db r db' :
  insert_legacy_order db r = Ok db' ->
  db' = with_order db (commit_order db ++ numbered_order (last_ordinal db) [r])
          (Some (last_ordinal db + 1)).
Proof. unfold insert_legacy_order. cbv zeta. intros Hi. ok_cases Hi. by simplify_eq. Qed.

Lemma last_ordinal_next db r :
  last_ordinal (with_order db (commit_order db ++ numbered_order (last_ordinal db) [r])
                  (Some (last_ordinal db + 1))) = last_ordinal db + 1.
Proof.
  unfold last_ordinal at 1. simpl order_sequence. unfold max_ordinal at 1. simpl commit_order.
  rewrite map_app. simpl map.
  assert (Hb : Forall (fun z => z <= last_ordinal db) (map co_ordinal (commit_order db))).
  { pose proof (sql_max_spec (map co_ordinal (commit_order db))) as Hs.
    unfold last_ordinal, max_ordinal. destruct (sql_max _) as [m|].
    - destruct Hs as [_ Hs]. eapply Forall_impl; [exact Hs|]. simpl. lia.
    - rewrite Hs. constructor. }
  rewrite (sql_max_is _ (last_ordinal db + 1)); [simpl; lia|set_solver|].
  apply Forall_app. split; [|repeat constructor; lia].
  eapply Forall_impl; [exact Hb|]. simpl. lia.
Qed.

Lemma backfill_numbered rows : forall db db',
  backfill_order db rows = Ok db' ->
  db' = with_order db (commit_order db ++ numbered_order (last_ordinal db) rows)
          (if decide (rows = []) then order_sequence db
           else Some (last_ordinal db + Z.of_nat (length rows))).
Proof.
  induction rows as [|r rows IH]; intros db db' Hb; simpl in Hb.
  { simplify_eq. simpl. rewrite app_nil_r. by destruct db'. }
  ok_cases Hb. apply IH in Hb. rewrite Hb.
  match goal with Hi : insert_legacy_order _ _ = _ |- _ => apply insert_legacy_result in Hi as -> end.
  rewrite last_ordinal_next. simpl commit_order. rewrite <- app_assoc. simpl numbered_order.
  simpl order_sequence.
  rewrite (decide_False (P := r :: rows = [])) by done. rewrite length_cons.
  replace (if decide (rows = []) then Some (last_ordinal db + 1)
           else Some (last_ordinal db + 1 + Z.of_nat (length rows)))
    with (Some (last_ordinal db + Z.of_nat (S (length rows)))); [reflexivity|].
  destruct (decide (rows = [])) as [-> |]; f_equal; simpl length; lia.
Qed.

Lemma legacy_rows_kept f f' :
  outbox (sf_db f') = outbox (sf_db f) -> sf_outbox_rowids f' = sf_outbox_rowids f ->
  legacy_outbox_order_rows f' = legacy_outbox_order_rows f.
Proof. unfold legacy_outbox_order_rows. by intros -> ->. Qed.

Definition backfilled (f f' : StoreFile) (rows : list LegacyOutboxOrderRow) : Prop :=
  legacy_outbox_order_rows f = Ok rows /\ other_rows_kept f f' /\
  commit_order (sf_db f') = numbered_order 0 rows /\
  order_sequence (sf_db f') = if decide (rows = []) then None else Some (Z.of_nat (length rows)).

Lemma create_order_table_kept f f' :
  create_order_table f = Ok f' ->
  other_rows_kept f f' /\ commit_order (sf_db f') = [] /\ order_sequence (sf_db f') = None /\
  sf_outbox_rowids f' = sf_outbox_rowids f.
Proof.
  unfold create_order_table. intros Hc. ok_cases Hc. simplify_eq.
  match goal with He : create _ _ = Ok _ |- _ => apply create_kept in He as (Hk & _ & ?) end.
  split; [|done]. unfold other_rows_kept, sf_db at 1. simpl. fold (sf_db a). rewrite Hk. reflexivity.
Qed.

Lemma create_revision_index_kept f f' : create_revision_index f = Ok f' -> rows_kept f f'.
Proof. unfold create_revision_index. intros Hc. ok_cases Hc. by apply create_kept in Hc as [? _]. Qed.

Lemma migrate_backfilled f now f' :
  migrate_outbox_order f now = Ok f' -> exists rows, backfilled f f' rows.
Proof.
  unfold migrate_outbox_order. intros Hm. ok_cases Hm. rename a into f1, a0 into rows, a1 into db.
  exists rows.
  repeat match goal with He : create _ _ = Ok _ |- _ => apply create_kept in He as (? & _ & _) end.
  match goal with He : create_revision_index _ = _ |- _ => apply create_revision_index_kept in He end.
  match goal with He : insert_marker _ _ = _ |- _ => apply insert_marker_kept in He as -> end.
  match goal with He : create_order_table _ = _ |- _ =>
    apply create_order_table_kept in He as (K & C & S & R) end.
  assert (Hb : backfill_order (sf_db f1) rows = Ok db).
  { destruct (backfill_order _ _); simpl in *; congruence. }
  apply backfill_numbered in Hb. unfold last_ordinal, max_ordinal in Hb.
  rewrite S, C in Hb. simpl in Hb.
  assert (Hk : rows_kept (with_store_db f1 db) f').
  { etrans; [|eassumption]. etrans; [|eassumption]. eassumption. }
  unfold rows_kept, sf_db at 2 in Hk. simpl in Hk.
  split; [|split; [|split]].
  - rewrite <- E0. symmetry. apply legacy_rows_kept; [by rewrite K|done].
  - unfold other_rows_kept. rewrite Hk, Hb, K. reflexivity.
  - by rewrite Hk, Hb.
  - rewrite Hk, Hb. simpl. done.
Qed.

Lemma create_migration_table_kept f f' :
  create_migration_table f = Ok f' -> rows_kept f f' /\ sf_markers f' = sf_markers f /\
    sf_outbox_rowids f' = sf_outbox_rowids f.
Proof.
  unfold create_migration_table. cbv zeta. destruct (existed _ _); [by intros [= ->]|].
  apply create_kept.
Qed.

Lemma order_guards_kept f now b1 b2 f' : ensure_order_guards f now b1 b2 = Ok f' -> rows_kept f f'.
Proof.
  unfold ensure_order_guards. intros Hg. ok_cases Hg.
  match type of Hg with context [opt_is_some ?o] => destruct (opt_is_some o), b1, b2 end;
    try discriminate Hg; [by simplify_eq|]. ok_cases Hg.
  match goal with He : create _ _ = Ok _ |- _ => apply create_kept in He as (? & _ & _) end.
  etrans; [eassumption|by eapply take_marker_kept].
Qed.

(** Without its marker the order is backfilled, with it the rows stay. *)
Lemma order_schema_rows f now f' :
  ensure_outbox_commit_order_schema f now = Ok f' ->
  other_rows_kept f f' /\
  (load_outbox_order_manifest f = Ok None -> exists rows, backfilled f f' rows).
Proof.
  unfold ensure_outbox_commit_order_schema. cbv zeta. intros He. ok_cases He. simplify_eq.
  match goal with Hc : create_migration_table _ = _ |- _ =>
    apply create_migration_table_kept in Hc as (K0 & M0 & R0) end.
  match goal with Hc : ensure_order_guards _ _ _ _ = _ |- _ => apply order_guards_kept in Hc as K2 end.
  match goal with Hl : load_outbox_order_manifest ?g = Ok ?o |- _ =>
    assert (Hm : load_outbox_order_manifest f = Ok o)
      by (rewrite <- Hl; unfold load_outbox_order_manifest, load_marker; by rewrite M0);
    destruct o end.
  - match goal with Hc : (guard? _ else _ in Ok ?x) = Ok ?y |- _ => ok_cases Hc; simplify_eq end.
    split; [|congruence]. apply rows_kept_other. by etrans.
  - match goal with Hc : (guard? _ else _ in migrate_outbox_order _ _) = Ok ?y |- _ =>
      ok_cases Hc; apply migrate_backfilled in Hc as (rows & B1 & B2 & B3 & B4) end.
    split.
    + etrans; [by apply rows_kept_other|]. etrans; [exact B2|]. by apply rows_kept_other.
    + intros _. exists rows. split; [|split; [|split]].
      * rewrite <- B1. symmetry. apply legacy_rows_kept; [by rewrite K0|done].
      * etrans; [by apply rows_kept_other|]. etrans; [exact B2|]. by apply rows_kept_other.
      * by rewrite K2.
      * by rewrite K2.
Qed.

Lemma dispatcher_schema_sound f now f' :
  ensure_outbox_dispatcher_schema f now = Ok f' ->
  rows_kept f f' /\
  map_Forall (fun k q => quarantine_row_ok (sf_db f') k q = true) (quarantine (sf_db f')).
Proof.
  unfold ensure_outbox_dispatcher_schema. intros He. ok_cases He. simplify_eq.
  match goal with Hp : ensure_part _ _ _ _ _ _ _ _ = _ |- _ =>
    split; [by eapply ensure_part_kept|] end.
  match goal with Hv : validate_quarantine_rows _ = _ |- _ =>
    unfold validate_quarantine_rows in Hv; ok_cases Hv end.
  bool_props. done.
Qed.

Lemma verified_schema_sound f now f' :
  ensure_outbox_verified_commit_schema f now = Ok f' ->
  rows_kept f f' /\ exists marker i, load_verified_commit_marker f' = Ok (Some marker) /\
    validated_database_instance_id (sf_db f') = Ok i /\
    map_Forall (fun k v => evidence_ok (sf_db f') i k v = true) (verified (sf_db f')) /\
    unverified_new_deliveries (sf_db f') (source_max_rowid marker) = [].
Proof.
  unfold ensure_outbox_verified_commit_schema. intros He. ok_cases He. simplify_eq.
  match goal with Hp : ensure_part _ _ _ _ _ _ _ _ = _ |- _ =>
    split; [by eapply ensure_part_kept|] end.
  match goal with Hm : ok_or ?o _ = Ok ?m |- _ => exists m; destruct o; simpl in Hm; simplify_eq end.
  match goal with Hv : validate_verified_commit_rows _ _ = _ |- _ =>
    unfold validate_verified_commit_rows in Hv; ok_cases Hv end.
  match goal with Hi : from_ledger ?v = Ok ?i |- _ => exists i; destruct v; simpl in Hi; simplify_eq end.
  bool_props. split; [done|]. split; [done|]. split; [done|]. by apply nil_length_inv.
Qed.

Lemma open_inv fresh at_ n1 n2 n3 file f i :
  open fresh at_ n1 n2 n3 file = (f, Ok i) ->
  exists ledger f0 f1 f2, file_open ledger /\ sf_ledger f0 = ledger /\
    ensure_schema fresh at_ (sf_ledger file) = Ok ledger /\
    sf_markers f0 = sf_markers file /\ sf_outbox_rowids f0 = sf_outbox_rowids file /\
    ensure_outbox_commit_order_schema f0 n1 = Ok f1 /\
    ensure_outbox_dispatcher_schema f1 n2 = Ok f2 /\
    ensure_outbox_verified_commit_schema f2 n3 = Ok f /\
    validated_database_instance_id (sf_db f) = Ok i.
Proof.
  unfold open, connect. intros Ho.
  destruct (ensure_schema fresh at_ (sf_ledger file)) as [ledger|] eqn:He; [|done].
  cbv beta iota in Ho. destruct (from_ledger _) as [live|] in Ho; [|done].
  destruct (open_transaction _ _ _ _ _) as [f'|] eqn:Ht in Ho; [|done]. simplify_eq.
  unfold open_transaction in Ht. ok_cases Ht. simplify_eq.
  match goal with Hi : from_ledger ?v = Ok ?j |- _ => destruct v eqn:Ev; simpl in Hi; simplify_eq end.
  bool_props. subst. eexists ledger, _, _, _. split; [by eapply ensure_schema_open|].
  split; [|split; [|split; [|split; [|split; [|split; [|split; [|reflexivity]]]]]]]; try eassumption;
    reflexivity.
Qed.

Lemma quarantine_row_sound db k q :
  quarantine_row_ok db k q = true ->
  exists o c, outbox db !! k = Some o /\ order_of db k = Some c /\
    or_status o <> "delivered" /\ co_ordinal c = qr_commit_ordinal q /\
    or_payload_hash o = qr_payload_hash q.
Proof.
  unfold quarantine_row_ok. destruct (outbox db !! k) as [o|]; [|done].
  destruct (order_of db k) as [c|]; [|done]. destruct (turns db !! _); [|done].
  intros Hq. bool_props. exists o, c. done.
Qed.

Lemma evidence_sound db i k v :
  evidence_ok db i k v = true ->
  exists o, outbox db !! k = Some o /\ or_status o = "delivered" /\ vr_database_instance_id v = i.
Proof.
  unfold evidence_ok. destruct (outbox db !! k) as [o|]; [|done]. intros He. bool_props. by exists o.
Qed.


(** ** The order of an older outbox *)

Definition legacy_key (r : LegacyOutboxOrderRow) : Key := (lo_tenant_id r, lo_outbox_id r).

Lemma legacy_rows_spec f rows :
  legacy_outbox_order_rows f = Ok rows ->
  map legacy_key rows ≡ₚ (map_to_list (outbox (sf_db f))).*1 /\
  StronglySorted (fun a b => source_rowid a <= source_rowid b) rows /\
  Forall (fun r => sf_outbox_rowids f !! legacy_key r = Some (source_rowid r)
                   /\ 0 < source_rowid r) rows.
Proof.
  unfold legacy_outbox_order_rows. cbv zeta. intros Hr. ok_cases Hr. bool_props. simplify_eq.
  split; [|split].
  - unfold order_by_key. rewrite order_by_perm, map_map. simpl.
    apply reflexive_eq. apply map_ext. by intros [[tn oid] o].
  - apply order_by_key_sorted.
  - rewrite Forall_forall in *. intros r Hin. pose proof (E r Hin) as Hpos. split; [|done].
    unfold order_by_key in Hin. rewrite order_by_perm in Hin.
    apply list_elem_of_fmap in Hin as ([[tn oid] o] & -> & _). simpl in *.
    unfold legacy_key. simpl. destruct (sf_outbox_rowids f !! (tn, oid)) eqn:Ek; simpl in *; [done|lia].
Qed.

(** Opening a file whose outbox is older than the commit order numbers its rows
    1, 2, 3, ... in the order of their rowids, every row once, leaves the sequence at
    their number, and changes no other row of the store. *)
Theorem legacy_order_backfilled fresh at_ n1 n2 n3 file f i :
  open fresh at_ n1 n2 n3 file = (f, Ok i) -> load_outbox_order_manifest file = Ok None ->
  exists rows, commit_order (sf_db f) = numbered_order 0 rows /\
    order_sequence (sf_db f) = (if decide (rows = []) then None else Some (Z.of_nat (length rows))) /\
    map legacy_key rows ≡ₚ (map_to_list (outbox (sf_db file))).*1 /\
    StronglySorted (fun a b => source_rowid a <= source_rowid b) rows /\
    Forall (fun r => sf_outbox_rowids file !! legacy_key r = Some (source_rowid r)
                     /\ 0 < source_rowid r) rows /\
    actors (sf_db f) = actors (sf_db file) /\ turns (sf_db f) = turns (sf_db file) /\
    outbox (sf_db f) = outbox (sf_db file) /\ verified (sf_db f) = verified (sf_db file) /\
    quarantine (sf_db f) = quarantine (sf_db file).
Proof.
  intros Ho Hnone.
  apply open_inv in Ho as (ledger & f0 & f1 & f2 & _ & <- & He & M0 & R0 & H1 & H2 & H3 & _).
  destruct (ensure_schema_store _ _ _ _ He) as [(T1 & T2 & T3 & _ & _ & T6 & T7) _].
  apply dispatcher_schema_sound in H2 as [K2 _]. apply verified_schema_sound in H3 as (K3 & _).
  apply order_schema_rows in H1 as [_ H1].
  destruct H1 as (rows & B1 & B2 & B3 & B4).
  { revert Hnone. unfold load_outbox_order_manifest, load_marker. by rewrite M0. }
  apply legacy_rows_spec in B1 as (L1 & L2 & L3). rewrite R0 in L3.
  unfold sf_db in L1. rewrite T3 in L1.
  exists rows. rewrite K3, K2. simpl. rewrite B3, B4, B2. simpl.
  repeat (split; [done|]). done.
Qed.
End Sound.

(** ** Examples *)

(** An older store: one turn with two entries, and no order, marker, object or
    identity.  The rows of the outbox have rowids 4 and 9. *)
Definition old_db : Db :=
  let db := db_after new_store_db
    (store_compare_and_transition new_store_db "tenant-1"
       (returned (fun b => t_turn_id (begin_record b)) "" new_store_begin)
       "owner-1" Accepted 0 Routed (at_second 2)) in
  with_identity (with_order db [] None) [] [] [].
Definition old_file : StoreFile :=
  {| sf_ledger := with_db (sf_ledger new_file) old_db; sf_markers := [];
     sf_outbox_rowids := (fun o => 4 + 5 * or_revision o) <$> outbox old_db |}.

Definition migrated_store : StoreFile := (open sample_instance "t" 1 2 3 old_file).1.

Example migrated_order :
  map (fun c => (co_ordinal c, co_order_origin c, co_legacy_source_rowid c))
    (commit_order (sf_db migrated_store))
  = [(1, "legacy_rowid_backfill", Some 4); (2, "legacy_rowid_backfill", Some 9)] /\
  order_sequence (sf_db migrated_store) = Some 2.
Proof. vm_compute. done. Qed.

Lemma old_file_opens : open sample_instance "t" 1 2 3 old_file = (migrated_store, Ok sample_instance).
Proof.
  assert (Hi : (open sample_instance "t" 1 2 3 old_file).2 = Ok sample_instance)
    by (vm_compute; reflexivity).
  unfold migrated_store. rewrite <- Hi. apply surjective_pairing.
Qed.


Lemma legacy_order_backfilled_witness :
  exists rows, commit_order (sf_db migrated_store) = numbered_order 0 rows /\ length rows = 2%nat.
Proof.
  destruct (legacy_order_backfilled sample_instance "t" 1 2 3 old_file migrated_store
    sample_instance old_file_opens) as (rows & Hc & _ & Hp & _).
  { vm_compute. reflexivity. }
  exists rows. split; [exact Hc|].
  rewrite <- (length_map legacy_key), Hp. vm_compute. reflexivity.
Defined.
