(* ===== verification/StoreTheorems.v ===== *)
(** * Theorems about the durable turn store

    Consequences of the invariants for every reachable database, and the
    behaviour of the store's operations: transitions, retries, recovery. *)

From stdpp Require Import prelude gmap strings list relations sorting.
From S2P Require Import Prelude.
From S2P Require Import Json.
From S2P Require Import TurnState.
From S2P Require Import TurnKernel.
From S2P Require Import Env.
From S2P Require Import Concrete.
From S2P Require Import Ingress.
From S2P Require Import Schema.
From S2P Require Import Database.
From S2P Require Import Samples.
From S2P Require Import Ledger.
From S2P Require Import LedgerChain.
From S2P Require Import Binding.
From S2P Require Import TurnRecords.
From S2P Require Import TurnStore.
From S2P Require Import StoreLemmas.
From S2P Require Import Outbox.
From S2P Require Import OutboxLemmas.
From S2P Require Import Dispatch.
From S2P Require Import DispatchLemmas.
From S2P Require Import StoreSteps.
From S2P Require Import Machine.
From S2P Require Import StoreInv.
From S2P Require Import Scenario.
Local Open Scope res_scope.
Local Open Scope Z_scope.

Section Theorems.
Context `{Env}.

(** ** Reachable databases *)

(** C4.  One turn at a time.  In every reachable database two turns of the same
    tenant and actor that are both unfinished are the same turn, and it is the one
    the actor row names as active. *)
Theorem one_live_turn_per_actor db db' tn t t' row row' :
  fresh db -> steps db db' ->
  turns db' !! (tn, t) = Some row -> turns db' !! (tn, t') = Some row' ->
  live row -> live row' -> tr_actor_key row = tr_actor_key row' ->
  t = t' /\ exists a, actors db' !! (tn, tr_actor_key row) = Some a /\
                      ar_active_turn_id a = Some t.
Proof.
  intros Hf Hs Hr Hr' Hl Hl' Hk. destruct (reachable_inv _ _ Hf Hs) as [Ha _ _ _].
  destruct (ai_live _ _ Ha _ _ _ Hr Hl) as (a & Hact & Ht).
  destruct (ai_live _ _ Ha _ _ _ Hr' Hl') as (a' & Hact' & Ht').
  rewrite <- Hk, Hact in Hact'. split; [congruence|eauto].
Qed.

(** C5.  The outbox is complete.  In every reachable database a turn at revision
    [r] has exactly one outbox row for each revision from 0 to [r] and no other,
    the row of revision [r] names the turn's state, and the rows of a turn were
    committed in revision order. *)
Theorem outbox_logs_every_revision db db' tn t row :
  fresh db -> steps db db' -> turns db' !! (tn, t) = Some row ->
  (forall n, 0 <= n <= tr_revision row <->
     exists oid o, outbox db' !! (tn, oid) = Some o /\ or_turn_id o = t /\ or_revision o = n) /\
  (forall oid oid' o o', outbox db' !! (tn, oid) = Some o ->
     outbox db' !! (tn, oid') = Some o' -> or_turn_id o = t -> or_turn_id o' = t ->
     (or_revision o = or_revision o' -> oid = oid') /\
     (or_revision o = tr_revision row -> or_event_type o = "turn.state." +:+ tr_state row) /\
     forall c c', c ∈ commit_order db' -> c' ∈ commit_order db' -> co_key c = (tn, oid) ->
       co_key c' = (tn, oid') -> or_revision o < or_revision o' ->
       co_ordinal c < co_ordinal c').
Proof.
  intros Hf Hs Hr. destruct (reachable_inv _ _ Hf Hs) as [_ _ He _]. split.
  - intros n. split; [by apply (ei_all _ _ _ He)|]. intros (oid & o & Ho & Ht & <-).
    destruct (ei_turn _ _ _ He _ _ Ho) as (row' & Hr' & Hb & _). simpl in Hr'.
    rewrite Ht, Hr in Hr'. by injection Hr' as <-.
  - intros oid oid' o o' Ho Ho' Ht Ht'. split; [|split].
    + intros Hn. assert ((tn, oid) = (tn, oid')) as E; [|by injection E].
      eapply (ei_once _ _ _ He); [exact Ho|exact Ho'|done|congruence|done].
    + intros Hn. destruct (ei_turn _ _ _ He _ _ Ho) as (row' & Hr' & _ & Hty). simpl in Hr'.
      rewrite Ht, Hr in Hr'. injection Hr' as <-. by apply Hty.
    + intros c c' Hc Hc' Hk Hk' Hlt. rewrite <- Hk in Ho. rewrite <- Hk' in Ho'.
      eapply (ei_order _ _ _ He c c' o o'); try done; [|congruence].
      injection Hk as -> _. by injection Hk' as -> _.
Qed.

Lemma last_delivered_Some db tn n :
  last_delivered db tn = Some n ->
  exists c o, c ∈ commit_order db /\ outbox db !! co_key c = Some o /\
    co_tenant_id c = tn /\ or_status o = "delivered" /\ co_ordinal c = n.
Proof.
  unfold last_delivered. intros Hn.
  pose proof (sql_max_spec (map (fun co => co_ordinal co.1)
    (filter (fun co : OrderRow * OutboxRow => or_status co.2 = "delivered")
       (tenant_join db tn)))) as Hs.
  rewrite Hn in Hs. destruct Hs as [Hin _].
  apply list_elem_of_fmap in Hin as ([c o] & -> & Hco).
  apply list_elem_of_filter in Hco as [Hst Hj].
  apply elem_of_tenant_join in Hj as (? & ? & ?). eauto 10.
Qed.

Lemma head_ok db tn :
  store_inv db ->
  tenant_outbox_head db tn =
  Ok (match first_undelivered db tn with
      | None => None
      | Some first =>
          match filter (fun co => co_ordinal co.1 = first /\ or_status co.2 <> "delivered")
                  (tenant_join db tn) with
          | co :: _ => Some (co_outbox_id co.1)
          | [] => None
          end
      end).
Proof.
  intros [_ Ho _ Hd]. unfold tenant_outbox_head. rewrite (bool_decide_eq_true_2 (map_Forall _ _)).
  2: { intros k o Hk _ Hn. assert (Hin : k ∈ map co_key (commit_order db))
         by (apply (oi_rows _ _ _ Ho); by rewrite Hk).
       apply list_elem_of_fmap in Hin as (c & -> & Hc). by apply (proj1 (order_of_None _ _) Hn c). }
  rewrite (bool_decide_eq_true_2 (Forall _ _)).
  2: { apply Forall_forall. intros c Hc _ Hn.
       assert (opt_is_some (outbox db !! co_key c) = true); [|by rewrite Hn in H0].
       apply (oi_rows _ _ _ Ho), list_elem_of_fmap. eauto. }
  destruct (first_undelivered db tn) as [n|] eqn:Ef; [|done].
  destruct (last_delivered db tn) as [m|] eqn:El; [|done].
  apply first_undelivered_Some in Ef as [(c & o & Hc & Hco & Ht & Hs & <-) _].
  apply last_delivered_Some in El as (c' & o' & Hc' & Hco' & Ht' & Hs' & <-).
  rewrite bool_decide_eq_false_2; [done|]. apply Z.nlt_ge.
  by eapply (di_no_hole _ Hd tn c o c' o').
Qed.

(** C16.  The queue never looks corrupt.  In every reachable database reading the
    head of a tenant succeeds: it yields the first undelivered row in commit
    order, or nothing when every row of the tenant is delivered; and the next
    commit ordinal is one above the largest, unless that leaves the 64-bit range. *)
Theorem queue_reads_succeed db db' tn :
  fresh db -> steps db db' ->
  ((exists oid c o, tenant_outbox_head db' tn = Ok (Some oid) /\
      queue_head db' (tn, oid) c o) \/
   (tenant_outbox_head db' tn = Ok None /\
    forall oid o, outbox db' !! (tn, oid) = Some o -> or_status o = "delivered")) /\
  (next_commit_ordinal db' = Ok (default 0 (max_ordinal db') + 1) \/
   next_commit_ordinal db' = Err CommitOrdinalExhausted /\
   i64_max <= default 0 (max_ordinal db')).
Proof.
  intros Hf Hs. pose proof (reachable_inv _ _ Hf Hs) as Hi. split.
  - pose proof (head_ok _ tn Hi) as Hh. destruct (first_undelivered db' tn) as [n|] eqn:Ef.
    + left. pose proof Ef as Ef'. apply first_undelivered_Some in Ef' as [(c & o & Hc & Hco & Ht & Hst & Hn) _].
      destruct (filter _ _) as [|co l] eqn:E.
      { exfalso. assert (Hin : (c, o) ∈ filter (fun co : OrderRow * OutboxRow =>
          co_ordinal co.1 = n /\ or_status co.2 <> "delivered") (tenant_join db' tn)).
        { apply list_elem_of_filter. split; [done|]. by apply elem_of_tenant_join. }
        rewrite E in Hin. set_solver. }
      exists (co_outbox_id co.1). destruct (tenant_outbox_head_Some _ _ _ Hh) as (c1 & o1 & Hq).
      eauto.
    + right. split; [done|]. intros oid o Ho.
      assert (Hin : (tn, oid) ∈ map co_key (commit_order db'))
        by (apply (oi_rows _ _ _ (si_order _ Hi)); by rewrite Ho).
      apply list_elem_of_fmap in Hin as (c & Hk & Hc).
      eapply first_undelivered_None; [exact Ef|exact Hc|by rewrite <- Hk|by injection Hk].
  - unfold next_commit_ordinal. cbv zeta. rewrite bool_decide_eq_true_2 by apply Hi.
    unfold i64_checked_add, in_i64. case_bool_decide as Hb; simpl; [by left|right].
    split; [done|]. pose proof (sql_max_nonneg _ (proj2 (Forall_map _ _ _) (oi_positive _ _ _ (si_order _ Hi)))).
    unfold max_ordinal in *. unfold i64_min, i64_max in *. lia.
Qed.

(** C2.  Delivery is ordered and proved.  In every reachable database a delivered
    outbox row has evidence, and the ledger holds a signed event under the
    identifier both name, whose signature verifies under the recorded key, whose
    key derives the turn's principal and whose type, payload, session and run are
    the row's; every row of the tenant committed before it is delivered too. *)
Theorem delivered_rows_are_proved db db' tn oid o c :
  fresh db -> steps db db' -> outbox db' !! (tn, oid) = Some o ->
  or_status o = "delivered" -> c ∈ commit_order db' -> co_key c = (tn, oid) ->
  (exists v, verified db' !! (tn, oid) = Some v /\ ledger_proof db' (tn, oid) v o) /\
  (forall c' o', c' ∈ commit_order db' -> outbox db' !! co_key c' = Some o' ->
     co_tenant_id c' = tn -> co_ordinal c' < co_ordinal c -> or_status o' = "delivered").
Proof.
  intros Hf Hs Ho Hd Hc Hk. destruct (reachable_inv _ _ Hf Hs) as [_ _ _ Hdi]. split.
  - destruct (di_evidence _ Hdi _ _ Ho Hd) as (v & Hv & Hp & _). eauto.
  - intros c' o' Hc' Ho' Ht Hlt.
    destruct (decide (or_status o' = "delivered")) as [|Hnd]; [done|exfalso].
    rewrite <- Hk in Ho. assert (co_ordinal c <= co_ordinal c'); [|lia].
    eapply (di_no_hole _ Hdi tn c' o' c o); try done. by injection Hk.
Qed.

Lemma steps_persist db db' : steps db db' -> persists db db'.
Proof.
  intros Hs. apply steps_micros in Hs. induction Hs as [db|db1 db2 db3 Hm _ IH]; [done|].
  etrans; [by apply micro_persists|done].
Qed.

(** C10.  History is immutable.  From any database, no sequence of operations
    removes or reorders a committed row or a ledger event, removes evidence or
    quarantine evidence, changes the identity, payload or type of an outbox row or
    anything of a delivered one, changes the identity of a turn, lowers its
    revision, or changes anything of a finished turn. *)
Theorem history_is_immutable db db' : steps db db' -> persists db db'.
Proof. apply steps_persist. Qed.

End Theorems.

(** ** Worked instances *)

Definition sc_key : Key := ("tenant-1", sc_turn).
Definition sc_row1 : TurnRow := default (new_turn_row sc_ingress (sc_admission false) 0)
                                  (turns sc_db1 !! sc_key).

Lemma sc_row1_ok : turns sc_db1 !! sc_key = Some sc_row1 /\ live sc_row1.
Proof.
  unfold sc_row1. destruct (turns sc_db1 !! sc_key) as [r|] eqn:E.
  - split; [done|]. exists Accepted. split; [|done].
    assert (Hs : tr_state <$> (turns sc_db1 !! sc_key) = Some (state_name Accepted))
      by (vm_compute; reflexivity).
    rewrite E in Hs. by injection Hs.
  - exfalso. assert (Hs : opt_is_some (turns sc_db1 !! sc_key) = true)
      by (vm_compute; reflexivity). by rewrite E in Hs.
Qed.

Lemma one_live_turn_per_actor_witness :
  exists a, actors sc_db1 !! ("tenant-1", tr_actor_key sc_row1) = Some a /\
            ar_active_turn_id a = Some sc_turn.
Proof.
  destruct sc_row1_ok as [Hr Hl].
  exact (proj2 (one_live_turn_per_actor sample_db sc_db1 "tenant-1" sc_turn sc_turn
    sc_row1 sc_row1 sample_fresh sc_steps1 Hr Hr Hl Hl eq_refl)).
Defined.

Lemma outbox_logs_every_revision_witness :
  tr_revision sc_row1 = 0 /\
  exists oid o, outbox sc_db1 !! ("tenant-1", oid) = Some o /\ or_turn_id o = sc_turn /\
    or_revision o = 0.
Proof.
  split; [vm_compute; reflexivity|].
  apply (proj1 (outbox_logs_every_revision sample_db sc_db1 "tenant-1" sc_turn sc_row1
    sample_fresh sc_steps1 (proj1 sc_row1_ok))).
  vm_compute. split; discriminate.
Defined.

Lemma queue_reads_succeed_witness :
  next_commit_ordinal sc_db2 = Ok (default 0 (max_ordinal sc_db2) + 1) \/
  next_commit_ordinal sc_db2 = Err CommitOrdinalExhausted /\
  i64_max <= default 0 (max_ordinal sc_db2).
Proof.
  exact (proj2 (queue_reads_succeed sample_db sc_db2 "tenant-1" sample_fresh sc_steps2)).
Defined.

Lemma history_is_immutable_witness : persists sample_db sc_db3.
Proof. exact (history_is_immutable sample_db sc_db3 sc_steps3). Defined.
