(* ===== verification/StoreOps.v ===== *)
(** * Behaviour of the turn store's operations

    What a successful transition, admission or recovery does to the tables, and
    why a stale or repeated request cannot do it again. *)

From stdpp Require Import prelude gmap strings list relations sorting.
From S2P Require Import Prelude.
From S2P Require Import Json.
From S2P Require Import TurnState.
From S2P Require Import TurnKernel.
From S2P Require Import Env.
From S2P Require Import Concrete.
From S2P Require Import Ingress.
From S2P Require Import Schema.
From S2P Require Import Database.
From S2P Require Import Samples.
From S2P Require Import Ledger.
From S2P Require Import LedgerChain.
From S2P Require Import Binding.
From S2P Require Import TurnRecords.
From S2P Require Import TurnStore.
From S2P Require Import StoreLemmas.
From S2P Require Import Outbox.
From S2P Require Import OutboxLemmas.
From S2P Require Import Dispatch.
From S2P Require Import DispatchLemmas.
From S2P Require Import StoreSteps.
From S2P Require Import Machine.
From S2P Require Import StoreInv.
From S2P Require Import Scenario.
From S2P Require Import StoreTheorems.
Local Open Scope res_scope.
Local Open Scope Z_scope.

Section Ops.
Context `{Env}.

(** ** Transitions *)

(** The log row a state change adds, and the tables it leaves alone. *)
Definition logged (db : Db) (tn t : string) (rev : Z) (s : TurnState) (db' : Db) : Prop :=
  exists k o, k.1 = tn /\ outbox db !! k = None /\ outbox db' = <[k := o]> (outbox db) /\
    or_turn_id o = t /\ or_revision o = rev /\ or_event_type o = state_event_type s /\
    or_status o = "pending" /\
    commit_order db' = commit_order db ++ [order_row (default 0 (max_ordinal db) + 1) k] /\
    verified db' = verified db /\ quarantine db' = quarantine db /\ events db' = events db.

(** A compare-and-set of a turn row by the holder of its actor's lease. *)
Definition transitioned (db : Db) (tn t owner : string) (es : TurnState) (er : Z)
    (next : TurnState) (tj th : option string) (now : Z) (rec : DurableTurnRecord) (db' : Db)
  : Prop :=
  can_transition_to es next = true /\ t_state rec = restore next (er + 1) /\
  exists row a a', turns db !! (tn, t) = Some row /\ tr_state row = state_name es /\
    tr_revision row = er /\
    actors db !! (tn, tr_actor_key row) = Some a /\ ar_active_turn_id a = Some t /\
    ar_lease_owner a = Some owner /\ lease_live a now /\
    turns db' = <[(tn, t) := set_turn next (er + 1) tj th now row]> (turns db) /\
    actors db' = <[(tn, tr_actor_key row) := a']> (actors db) /\
    ar_active_turn_id a' = (if is_terminal next then None else Some t) /\
    ar_lease_owner a' = (if is_terminal next then None else Some owner).

Lemma changed_logged db tn t row a a' s s' tj th rec now db' :
  changed db tn t row a a' s s' tj th rec now db' ->
  logged db tn t (tr_revision row + 1) s' db' /\
  actors db' = <[(tn, tr_actor_key row) := a']> (actors db) /\
  turns db' = <[(tn, t) := set_turn s' (tr_revision row + 1) tj th now row]> (turns db) /\
  t_state rec = restore s' (tr_revision row + 1).
Proof.
  intros Hc. destruct (changed_appended _ _ _ _ _ _ _ _ _ _ _ _ _ Hc)
    as (k & o & [Hk (E1 & E2 & E3 & E4) Hf _ Ho Hco _] & HT & Hv & Hq & He).
  split; [exists k, o; repeat (split; [done|]); done|].
  destruct Hc as [_ _ _ _ _ _ Hrec Hout]. destruct Hout as [_ _ _ _ _ (occ & _ & ->)].
  split; [done|]. split; [done|].
  pose proof (tro_state _ _ _ Hrec) as Hs. simpl in Hs. apply state_name_inj in Hs.
  pose proof (tro_revision _ _ _ Hrec) as Hr. simpl in Hr.
  destruct (t_state rec); simpl in *. by subst.
Qed.

Lemma transition_inner_spec db tn t owner es er next tres now rec db' :
  transition_inner db tn t owner es er next tres now = Ok (rec, db') ->
  let tj := (fun e => canonical_json (execution_to_value e)) <$> tres in
  transitioned db tn t owner es er next tj (sha256_text <$> tj) now rec db' /\
  logged db tn t (er + 1) next db'.
Proof.
  intros Ht. apply transition_inner_Ok in Ht as (row & a & Hc & <- & Hown & Hlive & _).
  destruct (changed_logged _ _ _ _ _ _ _ _ _ _ _ _ _ Hc) as (Hl & HA & HT & Hrec).
  split; [|done]. destruct Hc as [Hr Hs Htab Ha Hact Hle _ _].
  split; [done|]. split; [done|]. eexists row, a, _. repeat (split; [done|]). done.
Qed.

(** A transition to a non-terminal state.  When it succeeds, the stored row
    had exactly the expected state and revision, the caller held the actor's live
    lease for this turn, the move is in the transition table; the row, the lease
    and the returned record advance by one revision, no terminal result is
    written, and exactly one pending outbox row with the next commit ordinal is
    added. *)
Theorem transition_effect db tn t owner es er next now rec db' :
  store_compare_and_transition db tn t owner es er next now = Ok (rec, db') ->
  is_terminal next = false /\
  transitioned db tn t owner es er next None None now rec db' /\
  logged db tn t (er + 1) next db'.
Proof.
  unfold store_compare_and_transition. intros Ht.
  destruct (is_terminal next); [done|]. simpl in Ht. split; [done|].
  by apply transition_inner_spec in Ht.
Qed.

(** A transition with a result.  It succeeds only to the terminal state the
    result itself stands for; the result is stored with its digest, the actor's
    lease is given up in the same transaction, and exactly one outbox row is
    added. *)
Theorem finish_effect db tn t owner es er next result now rec db' :
  compare_and_transition_with_result db tn t owner es er next result now = Ok (rec, db') ->
  let tj := canonical_json (execution_to_value result) in
  is_terminal next = true /\ terminal_state result = next /\
  transitioned db tn t owner es er next (Some tj) (Some (sha256_text tj)) now rec db' /\
  logged db tn t (er + 1) next db'.
Proof.
  unfold compare_and_transition_with_result. intros Ht.
  destruct (is_terminal next); [|done]. simpl in Ht. case_bool_decide; [|done].
  split; [done|]. split; [done|]. by apply transition_inner_spec in Ht.
Qed.

Lemma transition_revision db tn t owner es er next tres now rec db' :
  transition_inner db tn t owner es er next tres now = Ok (rec, db') ->
  exists row, turns db !! (tn, t) = Some row /\ tr_revision row = er.
Proof.
  intros Ht. apply transition_inner_Ok in Ht as (row & a & [Hr _ _ _ _ _ _ _] & Hrev & _).
  eauto.
Qed.

(** At most one writer per revision.  After a transition from revision [er]
    succeeded, and after any further operations, every transition of that turn
    that still expects revision [er] fails, whatever state, owner or result it
    brings. *)
Theorem stale_transition_loses db tn t owner es er next now rec db1 db2 :
  store_compare_and_transition db tn t owner es er next now = Ok (rec, db1) ->
  steps db1 db2 ->
  forall owner' es' next' now' result,
    is_ok (store_compare_and_transition db2 tn t owner' es' er next' now') = false /\
    is_ok (compare_and_transition_with_result db2 tn t owner' es' er next' result now')
    = false.
Proof.
  unfold store_compare_and_transition. intros Ht Hs owner' es' next' now' result.
  destruct (negb (is_terminal next)); [|done].
  apply transition_inner_spec in Ht as [(_ & _ & row & a & a' & _ & _ & _ & _ & _ & _ & _ & HT & _) _].
  apply steps_persist in Hs.
  destruct (ps_turns _ _ Hs (tn, t) (set_turn next (er + 1) None None now row))
    as (row' & Hr' & _ & Hle & _); [by rewrite HT, lookup_insert_eq|]. simpl in Hle.
  assert (Hno : forall tres, is_ok (transition_inner db2 tn t owner' es' er next' tres now') = false).
  { intros tres. destruct (transition_inner _ _ _ _ _ _ _ _ _) as [[r d]|] eqn:E; [|done].
    apply transition_revision in E as (row2 & Hr2 & He). rewrite Hr' in Hr2.
    injection Hr2 as <-. lia. }
  split.
  - destruct (negb _); [apply Hno|done].
  - unfold compare_and_transition_with_result. destruct (is_terminal next'); [|done]. simpl.
    destruct (bool_decide _); [apply Hno|done].
Qed.

(** ** Admission *)

Lemma recover_duplicate_id db rec now rec' db' :
  recover_duplicate_if_expired db rec now = Ok (rec', db') ->
  load_existing db (t_tenant_id rec) (t_turn_id rec) = Ok rec ->
  t_turn_id rec' = t_turn_id rec /\ t_tenant_id rec' = t_tenant_id rec.
Proof.
  unfold recover_duplicate_if_expired. intros Hr Hl.
  destruct (is_terminal _); [by simplify_eq|].
  destruct (load_actor _ _ _) as [[found|]|]; try done. simpl in Hr.
  destruct (bool_decide _); [|done]. destruct (is_some_and _ _); [|by simplify_eq].
  destruct (recover_turn_Ok _ _ _ _ _ Hr Hl) as [(_ & -> & _)|(_ & row & a & Hc & _)]; [done|].
  destruct Hc as [_ _ _ _ _ _ Hrec _]. pose proof (tro_key _ _ _ Hrec) as Hk.
  by injection Hk as -> ->.
Qed.

Lemma find_by_idempotency_Some db tn key t row :
  turns db !! (tn, t) = Some row -> tr_idempotency_key row = key ->
  exists kr, find_by_idempotency db tn key = Some kr.
Proof.
  intros Hr Hk. unfold find_by_idempotency. destruct (filter _ _) as [|kr l] eqn:E; [|eauto].
  exfalso. assert (Hin : ((tn, t), row) ∈ filter (fun kr : Key * TurnRow => kr.1.1 = tn /\
    tr_idempotency_key kr.2 = key) (map_to_list (turns db))).
  { apply list_elem_of_filter. split; [done|]. by apply elem_of_map_to_list. }
  rewrite E in Hin. set_solver.
Qed.

(** A created turn was admitted. *)
Lemma begin_created db i ad now rec db1 :
  begin_turn db i ad now = Ok (Created rec, db1) ->
  exists db' a, admitted db' (ing_tenant_id i) (t_turn_id rec)
    (new_turn_row i ad now) a (set_lease (Some (t_turn_id rec)) (Some (ad_lease_owner ad))
      (Some (timestamp_millis (ing_deadline i))) now a) (initial_state ad) rec now db1.
Proof.
  unfold begin_turn. intros Hb. destruct (validate_actor_authority _ _) as [[]|]; [|done].
  cbv zeta in Hb. destruct (load_by_idempotency _ _ _) as [[ex|]|]; [| |done].
  - destruct (_ && _); [|done]. by destruct (recover_duplicate_if_expired _ _ _) as [[]|].
  - destruct (negb _); [|done].
    apply create_turn_Ok in Hb as (d & a & rec0 & _ & Ha & E & _). injection E as <-. eauto.
Qed.


(** ** Recovery *)

(** The live turn of an actor that still names it active. *)
Definition active_turn (db : Db) (tn ak t : string) (s : TurnState) : Prop :=
  exists row a, turns db !! (tn, t) = Some row /\ tr_actor_key row = ak /\
    tr_state row = state_name s /\ is_terminal s = false /\
    actors db !! (tn, ak) = Some a /\ ar_active_turn_id a = Some t.

(** It was ended by recovery, and its actor is free. *)
Definition recovered_turn (db' : Db) (tn ak t : string) (s : TurnState) : Prop :=
  exists row' a', turns db' !! (tn, t) = Some row' /\
    tr_state row' = state_name (recovery_state s) /\
    actors db' !! (tn, ak) = Some a' /\ ar_active_turn_id a' = None.

Lemma recover_one db tn ak t s now rec rec' db' :
  active_turn db tn ak t s -> load_existing db tn t = Ok rec ->
  recover_turn_in_tx db rec now = Ok (rec', db') ->
  recovered_turn db' tn ak t s /\
  (forall k, k <> (tn, t) -> turns db' !! k = turns db !! k) /\
  (forall k, k <> (tn, ak) -> actors db' !! k = actors db !! k).
Proof.
  intros (row & a & Hr & Hak & Hs & Hlive & Ha & Hact) Hl Hrec.
  pose proof Hl as Hl'. apply load_existing_Ok in Hl' as (row1 & Hr1 & Hof & _).
  rewrite Hr in Hr1. injection Hr1 as <-.
  pose proof (tro_key _ _ _ Hof) as Hk. injection Hk as Hk1 Hk2.
  pose proof (tro_state _ _ _ Hof) as Hst. rewrite Hs in Hst. apply state_name_inj in Hst.
  apply load_existing_self in Hl.
  destruct (recover_turn_Ok _ _ _ _ _ Hrec Hl) as [(Ht & _)|(_ & row1 & a1 & Hc & _)].
  { rewrite Hst in Ht. congruence. }
  cbv zeta in Hc. rewrite Hk1, Hk2, Hst in Hc.
  destruct (changed_logged _ _ _ _ _ _ _ _ _ _ _ _ _ Hc) as (_ & HA & HT & _).
  destruct Hc as [Hr1 _ _ _ _ _ _ _]. rewrite Hr in Hr1. injection Hr1 as <-.
  rewrite Hak in HA. split; [|split].
  - eexists _, _. rewrite HT, HA, !lookup_insert_eq. done.
  - intros k Hne. by rewrite HT, lookup_insert_ne.
  - intros k Hne. by rewrite HA, lookup_insert_ne.
Qed.

Lemma recover_loop_spec tn now l : forall db acc recs db',
  recover_loop db tn now l acc = Ok (recs, db') -> NoDup (map snd l) ->
  (forall ak t, (ak, t) ∈ l -> exists s, active_turn db tn ak t s) ->
  (forall ak t s, (ak, t) ∈ l -> active_turn db tn ak t s -> recovered_turn db' tn ak t s) /\
  (forall k, (forall ak t, (ak, t) ∈ l -> k <> (tn, t)) -> turns db' !! k = turns db !! k) /\
  (forall k, (forall ak t, (ak, t) ∈ l -> k <> (tn, ak)) -> actors db' !! k = actors db !! k) /\
  length recs = (length acc + length l)%nat.
Proof.
  induction l as [|[ak t] l IH]; intros db acc recs db' Hl Hnd Hall; simpl in Hl.
  { simplify_eq. split; [set_solver|]. split; [done|]. split; [done|]. simpl. lia. }
  destruct (load_existing db tn t) as [rec|] eqn:Eload; [|done].
  case_bool_decide; [|done].
  destruct (recover_turn_in_tx _ _ _) as [[r d]|] eqn:Er; [|done].
  apply NoDup_cons in Hnd as [Hnew Hnd].
  destruct (Hall ak t) as [s Hs]; [set_solver|].
  destruct (recover_one _ _ _ _ _ _ _ _ _ Hs Eload Er) as (Hrec & HT & HA).
  assert (Hfree : forall ak' t', (ak', t') ∈ l -> t' <> t /\ ak' <> ak).
  { intros ak' t' Hin. split.
    - intros ->. apply Hnew, list_elem_of_fmap. by exists (ak', t).
    - intros ->. destruct (Hall ak t') as [s1 (row1 & a1 & _ & _ & _ & _ & Ha1 & Ht1)]; [set_solver|].
      destruct Hs as (row2 & a2 & _ & _ & _ & _ & Ha2 & Ht2).
      apply Hnew, list_elem_of_fmap. exists (ak, t'). split; [|done]. simpl. congruence. }
  assert (Hother : forall ak' t' s', (ak', t') ∈ l ->
    (active_turn db tn ak' t' s' <-> active_turn d tn ak' t' s')).
  { intros ak' t' s' Hin. destruct (Hfree _ _ Hin). unfold active_turn.
    by rewrite HT, HA by congruence. }
  destruct (IH _ _ _ _ Hl Hnd) as (H1 & H2 & H3 & H4).
  { intros ak' t' Hin. destruct (Hall ak' t') as [s' Hs']; [set_solver|].
    exists s'. by apply Hother. }
  split; [|split; [|split]].
  - intros ak' t' s' Hin Hact. apply elem_of_cons in Hin as [[= -> ->]|Hin].
    + assert (s' = s) as ->.
      { destruct Hact as (? & ? & Hx & _ & Hy & _), Hs as (? & ? & Hx' & _ & Hy' & _).
        apply state_name_inj. congruence. }
      destruct Hrec as (row' & a' & Hr' & Hs' & Ha' & Hf'). exists row', a'.
      rewrite H2, H3; [done|..]; intros ak' t' Hin; destruct (Hfree _ _ Hin); congruence.
    + apply H1; [done|]. by apply Hother.
  - intros k Hk. rewrite H2 by (intros; by eapply Hk, list_elem_of_further). apply HT.
    by eapply Hk, list_elem_of_here.
  - intros k Hk. rewrite H3 by (intros; by eapply Hk, list_elem_of_further). apply HA.
    by eapply Hk, list_elem_of_here.
  - rewrite H4, length_app. simpl. lia.
Qed.

(** The scanned actors: each of them names its turn and its lease is over. *)
Lemma expired_actors_elem db tn now limit ak t :
  (ak, t) ∈ expired_actors db tn now limit ->
  exists a, actors db !! (tn, ak) = Some a /\ ar_active_turn_id a = Some t /\
    forall u, ar_lease_until_ms a = Some u -> u <= timestamp_millis now.
Proof.
  unfold expired_actors. intros Hin. apply list_elem_of_omap in Hin as ([[tn' ak'] a] & Hin & E).
  apply elem_of_take in Hin as (i & Hi & _). apply list_elem_of_lookup_2 in Hi.
  rewrite elem_of_order_by, list_elem_of_filter in Hi. destruct Hi as [(Ht & Hact & Hu) Hm].
  apply elem_of_map_to_list in Hm. simpl in *. subst tn'.
  destruct (ar_active_turn_id a) as [t'|] eqn:Ea; simplify_eq. exists a.
  split; [done|]. split; [done|]. intros u Eu. rewrite Eu in Hu. simpl in Hu. by bool_props.
Qed.

Lemma NoDup_omap_snd {A} (f : A -> option (string * string)) l :
  NoDup l -> (forall x y k k' t, x ∈ l -> y ∈ l -> f x = Some (k, t) -> f y = Some (k', t) ->
    x = y) -> NoDup (map snd (omap f l)).
Proof.
  induction 1 as [|x l Hx _ IH]; intros Hinj; simpl; [constructor|].
  assert (Hl : NoDup (map snd (omap f l))) by (apply IH; intros; eapply Hinj; set_solver).
  destruct (f x) as [[k t]|] eqn:E; [|done]. simpl. constructor; [|done].
  intros Hin. apply list_elem_of_fmap in Hin as ([k' t'] & Ht & Hin). simpl in Ht. subst t'.
  apply list_elem_of_omap in Hin as (y & Hy & Ey). apply Hx.
  rewrite (Hinj x y k k' t); [done|set_solver..|done|done].
Qed.

Lemma expired_actors_nodup db tn now limit :
  store_inv db -> NoDup (map snd (expired_actors db tn now limit)).
Proof.
  intros Hi. unfold expired_actors. apply NoDup_omap_snd.
  - eapply sublist_NoDup; [|apply sublist_take]. rewrite order_by_perm.
    apply NoDup_filter, NoDup_map_to_list.
  - assert (Hel : forall x : Key * ActorRow, x ∈ take (bounded_limit limit) (order_by (fun a b =>
        by_time_then_key (ar_updated_at_ms a.2, a.1.2) (ar_updated_at_ms b.2, b.1.2))
        (filter (fun kr : Key * ActorRow => kr.1.1 = tn /\ ar_active_turn_id kr.2 <> None /\
          is_none_or (fun until => bool_decide (until <= timestamp_millis now))
            (ar_lease_until_ms kr.2) = true) (map_to_list (actors db)))) ->
      actors db !! x.1 = Some x.2 /\ x.1.1 = tn).
    { intros [k a] Hx. apply elem_of_take in Hx as (i & Hx & _).
      apply list_elem_of_lookup_2 in Hx.
      rewrite elem_of_order_by, list_elem_of_filter in Hx. destruct Hx as [(Ht & _) Hm].
      apply elem_of_map_to_list in Hm. done. }
    intros [[tn1 k1] a1] [[tn2 k2] a2] x y t Hx Hy E1 E2.
    apply Hel in Hx as [Hx Hx'], Hy as [Hy Hy']. simpl in *. subst.
    destruct (ar_active_turn_id a1) eqn:A1, (ar_active_turn_id a2) eqn:A2; simplify_eq.
    destruct (ai_active _ _ (si_actors _ Hi) _ _ _ _ Hx A1) as (r1 & Hr1 & Hk1 & _).
    destruct (ai_active _ _ (si_actors _ Hi) _ _ _ _ Hy A2) as (r2 & Hr2 & Hk2 & _).
    assert (x = y) as -> by congruence. congruence.
Qed.


End Ops.

(** ** Worked instances *)

Lemma transition_effect_witness :
  exists rec, is_terminal Routed = false /\
    transitioned sc_db1 "tenant-1" sc_turn "owner-1" Accepted 0 Routed None None
      (at_second 2) rec sc_db2 /\
    logged sc_db1 "tenant-1" sc_turn 1 Routed sc_db2.
Proof.
  destruct (db_after_ok sc_db1 _ sc_route_ok) as [rec Hr]. exists rec.
  exact (transition_effect _ _ _ _ _ _ _ _ _ _ Hr).
Defined.

Definition sc_abort : TurnExecution :=
  aborted {| te_reason_code := "operator_cancelled"; te_message := "cancelled" |}
    {| appended_event_ids := []; last_safe_parent_event_id := None |}.

Definition sc_finish : result TurnStoreError (DurableTurnRecord * Db) :=
  compare_and_transition_with_result sc_db1 "tenant-1" sc_turn "owner-1" Accepted 0 Aborted
    sc_abort (at_second 2).

Lemma sc_finish_ok : is_ok sc_finish = true.
Proof. vm_compute. reflexivity. Qed.

Lemma finish_effect_witness :
  exists rec, let tj := canonical_json (execution_to_value sc_abort) in
    is_terminal Aborted = true /\ terminal_state sc_abort = Aborted /\
    transitioned sc_db1 "tenant-1" sc_turn "owner-1" Accepted 0 Aborted (Some tj)
      (Some (sha256_text tj)) (at_second 2) rec (db_after sc_db1 sc_finish) /\
    logged sc_db1 "tenant-1" sc_turn 1 Aborted (db_after sc_db1 sc_finish).
Proof.
  destruct (db_after_ok sc_db1 _ sc_finish_ok) as [rec Hr]. exists rec.
  exact (finish_effect _ _ _ _ _ _ _ _ _ _ _ Hr).
Defined.

Lemma stale_transition_loses_witness :
  is_ok (store_compare_and_transition sc_db2 "tenant-1" sc_turn "owner-1" Accepted 0 Routed
           (at_second 3)) = false.
Proof.
  destruct (db_after_ok sc_db1 _ sc_route_ok) as [rec Hr].
  exact (proj1 (stale_transition_loses _ _ _ _ _ _ _ _ _ _ sc_db2 Hr (rtc_refl _ _)
    "owner-1" Accepted Routed (at_second 3) sc_abort)).
Defined.

(** The same request again, at second 3. *)
Definition sc_retry : result TurnStoreError (BeginTurnResult * Db) :=
  begin_turn sc_db2 sc_ingress (sc_admission false) (at_second 3).

Lemma sc_retry_ok : is_ok sc_retry = true.
Proof. vm_compute. reflexivity. Qed.

Lemma sc_begin_created : exists rec, sc_begin false = Ok (Created rec, sc_db1).
Proof.
  destruct (db_after_ok sample_db _ sc_begin_ok) as [[rec|rec] Hr]; [exists rec; exact Hr|].
  exfalso. assert (Hc : returned is_created false (sc_begin false) = true)
    by (vm_compute; reflexivity). by rewrite Hr in Hc.
Qed.


(** Recovery at second 400, after the deadline at second 300. *)
Definition sc_recover : result TurnStoreError (list DurableTurnRecord * Db) :=
  recover_expired_actor_leases sc_db2 "tenant-1" (at_second 400) 10.

Lemma sc_recover_ok : is_ok sc_recover = true.
Proof. vm_compute. reflexivity. Qed.

