(* ===== verification/OutboxTheorems.v ===== *)
(** * Theorems about delivery: claims, fencing, quarantine, completion *)

From stdpp Require Import prelude gmap strings list relations sorting.
From S2P Require Import Prelude.
From S2P Require Import Json.
From S2P Require Import TurnState.
From S2P Require Import TurnKernel.
From S2P Require Import Env.
From S2P Require Import Concrete.
From S2P Require Import Ingress.
From S2P Require Import Schema.
From S2P Require Import Database.
From S2P Require Import Samples.
From S2P Require Import Ledger.
From S2P Require Import LedgerChain.
From S2P Require Import Binding.
From S2P Require Import TurnRecords.
From S2P Require Import TurnStore.
From S2P Require Import StoreLemmas.
From S2P Require Import Outbox.
From S2P Require Import OutboxLemmas.
From S2P Require Import Dispatch.
From S2P Require Import DispatchLemmas.
From S2P Require Import StoreSteps.
From S2P Require Import Machine.
From S2P Require Import StoreInv.
From S2P Require Import Scenario.
From S2P Require Import StoreTheorems.
From S2P Require Import StoreOps.
Local Open Scope res_scope.
Local Open Scope Z_scope.

Section Theorems.
Context `{Env}.

(** ** Leases *)

Lemma holds_set_leased owner token until now o ow tk now2 :
  holds_lease ow tk now2 (set_leased owner token until now o) = true ->
  ow = owner /\ tk = token /\ timestamp_millis now2 < timestamp_millis until.
Proof.
  intros Hh. apply holds_lease_true in Hh as (_ & Ho & Ht & u & Hu & Hlt). simpl in *.
  by simplify_eq.
Qed.

(** The row under a lease just taken, when an operation meets it as the head. *)
Lemma claimed_row db fresh tn owner now dur rec db1 c o until oid c2 o2 :
  claimed db fresh tn owner now dur rec db1 c o until ->
  tenant_outbox_head db1 tn = Ok (Some oid) -> queue_head db1 (tn, oid) c2 o2 ->
  o2 = set_leased owner ("outbox-lease-" +:+ fresh) until now o.
Proof.
  intros [_ _ Hh _ _ _ _ ->] Hh' Hq. rewrite Hh in Hh'. injection Hh' as <-.
  pose proof (qh_row _ _ _ _ Hq) as Ho. cbn [outbox with_outbox] in Ho.
  rewrite lookup_insert_eq in Ho. by injection Ho as <-.
Qed.


(** ** Quarantine *)

Lemma order_total db c c' :
  order_inv (commit_order db) (order_sequence db) (outbox db) ->
  c ∈ commit_order db -> c' ∈ commit_order db -> co_key c <> co_key c' ->
  co_ordinal c <= co_ordinal c' -> co_ordinal c < co_ordinal c'.
Proof.
  intros Hoi Hc Hc' Hne Hle. apply list_elem_of_lookup in Hc as [i Hi], Hc' as [j Hj].
  destruct (Nat.lt_trichotomy i j) as [Hij|[->|Hij]].
  - by eapply sorted_lookup.
  - congruence.
  - pose proof (sorted_lookup _ _ _ _ _ _ _ Hoi Hj Hi Hij). lia.
Qed.

(** C19.  Quarantine blocks the tenant.  Once a row is quarantined, then after any
    further operations it is still pending, no row of the tenant committed with or
    after it is delivered, and a claim of the tenant can only return rows
    committed before it. *)
Theorem quarantined_row_blocks_tenant db db1 db2 tn oid q c :
  fresh db -> steps db db1 -> quarantine db1 !! (tn, oid) = Some q -> steps db1 db2 ->
  c ∈ commit_order db2 -> co_key c = (tn, oid) ->
  (exists o, outbox db2 !! (tn, oid) = Some o /\ or_status o = "pending") /\
  (forall c' o', c' ∈ commit_order db2 -> outbox db2 !! co_key c' = Some o' ->
     co_tenant_id c' = tn -> co_ordinal c <= co_ordinal c' -> or_status o' <> "delivered") /\
  (forall f owner now dur rec db3 c',
     claim_next_outbox db2 f tn owner now dur = Ok (Some rec, db3) ->
     c' ∈ commit_order db2 -> co_key c' = (tn, o_outbox_id rec) ->
     co_ordinal c' < co_ordinal c).
Proof.
  intros Hf Hs Hq Hs2 Hc Hk. pose proof (reachable_inv _ _ Hf (steps_trans _ _ _ Hs Hs2)) as Hi.
  pose proof (lookup_weaken _ _ _ _ Hq (ps_quarantine _ _ (steps_persist _ _ Hs2))) as Hq2.
  destruct (di_quarantine _ (si_delivery _ Hi) _ _ Hq2) as (o & Ho & Hst).
  assert (Htn : co_tenant_id c = tn) by (by injection Hk).
  split; [eauto|]. split.
  - intros c' o' Hc' Ho' Ht' Hle Hd. pose proof Ho as Ho1. rewrite <- Hk in Ho1.
    pose proof (di_no_hole _ (si_delivery _ Hi) tn c o c' o' Hc Ho1 Hc' Ho' Htn Ht') as Hle'.
    assert (Hge : co_ordinal c' <= co_ordinal c) by (apply Hle'; congruence).
    assert (Hne : co_key c' <> co_key c) by (intros E; rewrite E in Ho'; congruence).
    pose proof (order_total _ _ _ (si_order _ Hi) Hc' Hc Hne Hge). lia.
  - intros f owner now dur rec db3 c' Hcl Hc' Hk'.
    apply claim_next_outbox_Ok in Hcl as (c2 & o2 & u & [_ Hh _ Hlive _ _ _ _] & _).
    assert (c' = c2) as ->.
    { eapply order_key_inj; [apply Hi|done|apply Hh|]. by rewrite (qh_key _ _ _ _ Hh). }
    apply (order_total _ _ _ (si_order _ Hi) Hc' Hc).
    + rewrite Hk, Hk'. congruence.
    + eapply (qh_first _ _ _ _ Hh); [done|by rewrite Hk|done|congruence].
Qed.

(** ** Completion *)

(** C7.  Completion is sound.  [complete_outbox] reports a delivery only when the
    row is the head of its tenant's queue, the caller holds its live lease, and
    the ledger of the same database holds the signed event that proves the row;
    it then marks exactly this row delivered and records exactly this evidence.
    It reports an earlier delivery only for a row already delivered under the same
    event, which it leaves alone. *)
Theorem completion_sound inst before db tn oid owner token commit now ledger res db' :
  complete_outbox inst before db tn oid owner token commit now ledger = Ok (res, db') ->
  match res with
  | CompletionDelivered =>
      tenant_outbox_head db tn = Ok (Some oid) /\
      exists o v, outbox db !! (tn, oid) = Some o /\ holds_lease owner token now o = true /\
        vr_ledger_event_id v = vc_event_id commit /\
        ledger_proof db (tn, oid) v (set_delivered (vc_event_id commit) now o) /\
        db' = with_outbox (with_verified db (<[(tn, oid) := v]> (verified db)))
                (<[(tn, oid) := set_delivered (vc_event_id commit) now o]> (outbox db))
  | AlreadyDelivered =>
      exists o, outbox db !! (tn, oid) = Some o /\ or_status o = "delivered" /\
        or_ledger_event_id o = Some (vc_event_id commit) /\ outbox db' = outbox db
  end.
Proof.
  intros Hc. apply complete_outbox_Ok in Hc as [s0 Hc]. apply complete_in_tx_Ok in Hc.
  destruct res.
  - destruct Hc as (c & o & v & [Hth Hh Hl _ Hid Hp _ ->]). split; [done|]. exists o, v.
    rewrite Hid in Hp. rewrite Hid. split; [apply Hh|]. done.
  - destruct Hc as (o & Ho & Hs & Hid & [->|(v & _ & _ & ->)]); eauto.
Qed.

(** ** Histories *)

Lemma history_run turn h :
  history_ok turn h -> Z.of_nat (length h) <= u64_max ->
  forall n e, h !! n = Some e -> nsteps cas_step n accepted (restore (h_state e) (Z.of_nat n)).
Proof.
  intros Hok Hb n. induction n as [|n IH]; intros e He.
  - destruct (ho_genesis _ _ Hok _ He) as [-> _]. apply nsteps_O.
  - destruct (h !! n) as [e0|] eqn:E0.
    + eapply nsteps_r; [by apply IH|].
      pose proof (fl_table _ _ (ho_follows _ _ Hok _ _ _ E0 He)) as Htab.
      apply (cas_ok _ (h_state e0) (Z.of_nat n) (h_state e)).
      apply compare_and_transition_ok. simpl. split; [done|]. split; [done|]. split; [done|].
      apply lookup_lt_Some in He. split; [lia|]. f_equal. lia.
    + apply lookup_ge_None in E0. apply lookup_lt_Some in He. lia.
Qed.

(**  A validated history is a run.  When [validate_turn_history] accepts a
    turn, the entries are the turn's outbox rows in revision order, they trace a
    run of the state machine from the accepted state to the turn's current state
    and revision, in strictly increasing commit order, each bound to the ledger
    event of its predecessor, and the delivered ones are a prefix. *)
Theorem validated_history_is_a_run db turn h :
  validate_turn_history db turn = Ok h ->
  (exists n, length h = S n /\ nsteps cas_step n accepted (t_state turn)) /\
  history_ok turn h /\
  collect_map materialize_outbox (turn_rows db (t_tenant_id turn) (t_turn_id turn))
  = Ok (map h_outbox h).
Proof.
  intros Hv. apply validate_turn_history_Ok in Hv as [Hok Hrows Hb Hlen (e & Hlast & Hst)].
  split; [|done]. destruct h as [|e0 h'] eqn:Eh; [done|]. exists (length h').
  split; [done|]. rewrite last_lookup in Hlast. simpl in Hlast, Hlen.
  assert (t_state turn = restore (h_state e) (Z.of_nat (length h'))) as ->.
  { rewrite Hst. destruct (t_state turn) as [s r]. simpl in *. f_equal. lia. }
  eapply history_run; [exact Hok|simpl; lia|exact Hlast].
Qed.

(** ** Turns admitted under approval *)

Lemma accepted_not_waiting ty :
  ty = state_event_type WaitingApproval -> outbox_event_type_matches ty "accepted" = false.
Proof. intros ->. reflexivity. Qed.

(** The genesis row of a turn admitted under approval stays what it was. *)
Lemma approval_genesis db0 db i ad now rec db1 db2 :
  fresh db0 -> steps db0 db -> begin_turn db i ad now = Ok (Created rec, db1) ->
  ad_approval_required ad = true -> steps db1 db2 ->
  store_inv db2 /\ ~ genesis_accepted db2 (ing_tenant_id i) (t_turn_id rec) /\
  exists oid o, outbox db2 !! (ing_tenant_id i, oid) = Some o /\
    or_turn_id o = t_turn_id rec /\ or_revision o = 0.
Proof.
  intros Hf Hs Hb Hap Hs2. assert (Hi2 : store_inv db2).
  { eapply (reachable_inv db0); [done|]. eapply steps_trans; [exact Hs|].
    eapply rtc_l; [by eapply st_begin|done]. }
  destruct (begin_created _ _ _ _ _ _ Hb) as (db' & a & Ha).
  destruct (admitted_appended _ _ _ _ _ _ _ _ _ _ Ha)
    as (k & o & [Hk (E1 & E2 & E3 & _) _ _ Ho _ _] & _).
  unfold initial_state in E3. rewrite Hap in E3.
  destruct (ps_outbox _ _ (steps_persist _ _ Hs2) k o) as (o' & Ho' & (S1 & S2 & S3 & _) & _);
    [by rewrite Ho, lookup_insert_eq|].
  destruct k as [tn oid]. simpl in Hk. subst tn. split; [done|]. split.
  - intros (oid1 & o1 & Ho1 & Ht1 & Hr1 & Hm).
    assert ((ing_tenant_id i, oid1) = (ing_tenant_id i, oid)) as E.
    { eapply (ei_once _ _ _ (si_entries _ Hi2)); [exact Ho1|exact Ho'|done|congruence|congruence]. }
    rewrite E, Ho' in Ho1. injection Ho1 as <-.
    rewrite accepted_not_waiting in Hm; [done|congruence].
  - exists oid, o'. split; [done|]. split; congruence.
Qed.

(**  A turn admitted under approval is never delivered, and stops its tenant.
    Because history validation demands that a turn entered accepted, no row of
    such a turn passes validation for signing or becomes delivered after any
    operations, and neither does any row of the tenant committed after the turn's
    first row. *)
Theorem approval_turn_blocks_tenant db0 db i ad now rec db1 db2 :
  fresh db0 -> steps db0 db -> begin_turn db i ad now = Ok (Created rec, db1) ->
  ad_approval_required ad = true -> steps db1 db2 ->
  let tn := ing_tenant_id i in
  (forall oid o, outbox db2 !! (tn, oid) = Some o -> or_turn_id o = t_turn_id rec ->
     or_status o <> "delivered" /\
     forall inst owner token t ledger pk,
       is_ok (revalidate_outbox_for_signing inst db2 tn oid owner token t ledger pk) = false) /\
  exists c0, c0 ∈ commit_order db2 /\ co_tenant_id c0 = tn /\
    forall c o, c ∈ commit_order db2 -> outbox db2 !! co_key c = Some o ->
      co_tenant_id c = tn -> co_ordinal c0 < co_ordinal c -> or_status o <> "delivered".
Proof.
  intros Hf Hs Hb Hap Hs2. cbv zeta.
  destruct (approval_genesis _ _ _ _ _ _ _ _ Hf Hs Hb Hap Hs2) as (Hi & Hng & oid0 & o0 & Ho0 & Ht0 & _).
  assert (Hnd : forall oid o, outbox db2 !! ((ing_tenant_id i), oid) = Some o -> or_turn_id o = t_turn_id rec ->
    or_status o <> "delivered").
  { intros oid o Ho Ht Hd. destruct (di_evidence _ (si_delivery _ Hi) _ _ Ho Hd) as (v & _ & _ & Hg).
    rewrite Ht in Hg. done. }
  split.
  - intros oid o Ho Ht. split; [by eapply Hnd|]. intros inst owner token t ledger pk.
    destruct (revalidate_outbox_for_signing _ _ _ _ _ _ _ _ _) as [sv|] eqn:E; [|done].
    exfalso. apply revalidate_history in E as (turn & h & o1 & Ho1 & Hh & Htn & Htt).
    rewrite Ho in Ho1. injection Ho1 as <-. apply history_genesis in Hh.
    rewrite Htn, Htt, Ht in Hh. done.
  - assert (Hin : ((ing_tenant_id i), oid0) ∈ map co_key (commit_order db2))
      by (apply (oi_rows _ _ _ (si_order _ Hi)); by rewrite Ho0).
    apply list_elem_of_fmap in Hin as (c0 & Hk0 & Hc0). exists c0.
    assert (Ht : co_tenant_id c0 = (ing_tenant_id i)) by (by injection Hk0).
    split; [done|]. split; [done|]. intros c o Hc Ho Htc Hlt Hd. pose proof Ho0 as Ho1.
    rewrite Hk0 in Ho1.
    pose proof (di_no_hole _ (si_delivery _ Hi) (ing_tenant_id i) c0 o0 c o Hc0 Ho1 Hc Ho Ht Htc (Hnd _ _ Ho0 Ht0) Hd).
    lia.
Qed.

End Theorems.

(** ** Worked instances *)

Definition sc_row_key : Key := ("tenant-1", sc_id).

(** The first order row of a database. *)
Definition first_order (db : Db) : OrderRow :=
  default {| co_ordinal := 0; co_tenant_id := ""; co_outbox_id := ""; co_order_origin := "";
             co_legacy_source_rowid := None |} (head (commit_order db)).

Definition row_of (db : Db) (k : Key) : OutboxRow :=
  default (outbox_row {| t_tenant_id := ""; t_turn_id := ""; t_actor_key := "";
    t_subject_id := ""; t_principal_id := ""; t_workspace_id := ""; t_profile_id := "";
    t_session_id := ""; t_source_surface := ""; t_source_id := ""; t_idempotency_key := "";
    t_request := VNull; t_request_hash := ""; t_authority := VNull; t_authority_hash := "";
    t_deadline := 0; t_state := accepted; t_terminal_result := None;
    t_terminal_result_hash := None; t_created_at := 0; t_updated_at := 0 |} "" VNull 0 0)
    (outbox db !! k).

Lemma row_of_ok db k st :
  or_status <$> (outbox db !! k) = Some st ->
  outbox db !! k = Some (row_of db k) /\ or_status (row_of db k) = st.
Proof. unfold row_of. destruct (outbox db !! k); simpl; intros E; by simplify_eq. Qed.

Lemma first_order_ok db k :
  co_key <$> head (commit_order db) = Some k ->
  first_order db ∈ commit_order db /\ co_key (first_order db) = k.
Proof.
  unfold first_order. destruct (commit_order db) as [|c l]; simpl; intros E; simplify_eq.
  split; [left|done].
Qed.

Lemma sc_delivered : or_status <$> (outbox sc_db5 !! sc_row_key) = Some "delivered".
Proof. vm_compute. reflexivity. Qed.

Lemma sc_order5 : co_key <$> head (commit_order sc_db5) = Some sc_row_key.
Proof. vm_compute. reflexivity. Qed.

Lemma delivered_rows_are_proved_witness :
  exists v, verified sc_db5 !! sc_row_key = Some v /\
            ledger_proof sc_db5 sc_row_key v (row_of sc_db5 sc_row_key).
Proof.
  destruct (row_of_ok _ _ _ sc_delivered) as [Ho Hd].
  destruct (first_order_ok _ _ sc_order5) as [Hc Hk].
  exact (proj1 (delivered_rows_are_proved sample_db sc_db5 "tenant-1" sc_id
    (row_of sc_db5 sc_row_key) (first_order sc_db5) sample_fresh sc_steps5 Ho Hd Hc Hk)).
Defined.

Lemma sc_claim_some : exists rec, sc_claim = Ok (Some rec, sc_db3).
Proof.
  destruct (db_after_ok sc_db1 _ sc_claim_ok) as [[rec|] Hr]; [exists rec; exact Hr|].
  exfalso. assert (Hc : returned opt_is_some false sc_claim = true)
    by (vm_compute; reflexivity). by rewrite Hr in Hc.
Qed.


(** The claimed row is quarantined at second 4. *)
Definition sc_failure : OutboxDispatchFailure :=
  {| f_phase := PRevalidate; f_class := Permanent; f_code := StoreIntegrity;
     f_message := "stored hash mismatch" |}.

Definition sc_quarantine : result TurnStoreError (OutboxQuarantineRecord * Db) :=
  and_then (fun rd => match rd.1 with
                      | Some claim => quarantine_outbox sc_db3 claim sc_failure false (at_second 4)
                      | None => Err Json
                      end) Json sc_claim.

Definition sc_dbq : Db := db_after sc_db3 sc_quarantine.

Lemma sc_quarantine_ok : is_ok sc_quarantine = true.
Proof. vm_compute. reflexivity. Qed.

Lemma sc_stepsq : steps sample_db sc_dbq.
Proof.
  eapply rtc_r; [exact sc_steps3|]. refine (and_then_step _ _ _ _ _ sc_quarantine_ok).
  intros [[claim|] d] q db'; simpl; [apply st_quarantine|discriminate].
Qed.

Lemma sc_quarantined : opt_is_some (quarantine sc_dbq !! sc_row_key) = true.
Proof. vm_compute. reflexivity. Qed.

Lemma sc_orderq : co_key <$> head (commit_order sc_dbq) = Some sc_row_key.
Proof. vm_compute. reflexivity. Qed.

Lemma quarantined_row_blocks_tenant_witness :
  exists o, outbox sc_dbq !! sc_row_key = Some o /\ or_status o = "pending".
Proof.
  destruct (first_order_ok _ _ sc_orderq) as [Hc Hk].
  destruct (quarantine sc_dbq !! sc_row_key) as [q|] eqn:Eq.
  - exact (proj1 (quarantined_row_blocks_tenant sample_db sc_dbq sc_dbq "tenant-1" sc_id q
      (first_order sc_dbq) sample_fresh sc_stepsq Eq (rtc_refl _ _) Hc Hk)).
  - exfalso. pose proof sc_quarantined as Hq. by rewrite Eq in Hq.
Defined.

Lemma sc_complete_delivered :
  exists commit, complete_outbox sample_instance sc_db4 sc_db4 "tenant-1" sc_id "worker-1"
    "outbox-lease-u-1" commit (at_second 5) sample_handle = Ok (CompletionDelivered, sc_db5).
Proof.
  destruct (db_after_ok sc_db4 _ sc_complete_ok) as [res Hr].
  change (db_after sc_db4 sc_complete) with sc_db5 in Hr.
  assert (Hc : returned (fun x => match x with CompletionDelivered => true | _ => false end)
    false sc_complete = true) by (vm_compute; reflexivity).
  rewrite Hr in Hc. simpl in Hc. destruct res; [|done].
  unfold sc_complete, and_then in Hr. destruct sc_append as [cd|]; [|discriminate Hr].
  exists cd.1. exact Hr.
Qed.

Lemma completion_sound_witness :
  exists o v, outbox sc_db4 !! sc_row_key = Some o /\
    holds_lease "worker-1" "outbox-lease-u-1" (at_second 5) o = true /\
    ledger_proof sc_db4 sc_row_key v (set_delivered (vr_ledger_event_id v) (at_second 5) o).
Proof.
  destruct sc_complete_delivered as [commit Hc].
  destruct (completion_sound sample_instance sc_db4 sc_db4 "tenant-1" sc_id "worker-1"
    "outbox-lease-u-1" commit (at_second 5) sample_handle CompletionDelivered sc_db5 Hc)
    as (_ & o & v & Ho & Hl & Hid & Hp & _).
  exists o, v. rewrite Hid. split; [exact Ho|]. split; [exact Hl|exact Hp].
Defined.

(** The history of the turn after two transitions. *)
Definition sc_history : result TurnStoreError (list ValidatedHistoryEntry) :=
  and_then (fun rd => validate_turn_history sc_db2 rd.1) Json sc_route.

Lemma sc_history_ok : is_ok sc_history = true.
Proof. vm_compute. reflexivity. Qed.

Lemma validated_history_is_a_run_witness :
  exists turn h, validate_turn_history sc_db2 turn = Ok h /\
    exists n, length h = S n /\ nsteps cas_step n accepted (t_state turn).
Proof.
  pose proof sc_history_ok as Hh. unfold sc_history, and_then in Hh.
  destruct sc_route as [rd|]; [|discriminate Hh].
  destruct (validate_turn_history sc_db2 rd.1) as [h|] eqn:E; [|discriminate Hh].
  exists rd.1, h. split; [exact E|].
  exact (proj1 (validated_history_is_a_run sc_db2 rd.1 h E)).
Defined.

Lemma sc_approval_created : exists rec, sc_begin true = Ok (Created rec, sc_dba).
Proof.
  destruct (db_after_ok sample_db _ sc_begin_approval_ok) as [[rec|rec] Hr];
    [exists rec; exact Hr|].
  exfalso. assert (Hc : returned is_created false (sc_begin true) = true)
    by (vm_compute; reflexivity). by rewrite Hr in Hc.
Qed.

Lemma approval_turn_blocks_tenant_witness :
  exists rec c0, sc_begin true = Ok (Created rec, sc_dba) /\ c0 ∈ commit_order sc_dba /\
    forall c o, c ∈ commit_order sc_dba -> outbox sc_dba !! co_key c = Some o ->
      co_tenant_id c = "tenant-1" -> co_ordinal c0 < co_ordinal c ->
      or_status o <> "delivered".
Proof.
  destruct sc_approval_created as [rec Hrec]. pose proof Hrec as Hrec'.
  unfold sc_begin in Hrec'.
  destruct (approval_turn_blocks_tenant sample_db sample_db sc_ingress (sc_admission true)
    (at_second 1) rec sc_dba sc_dba sample_fresh (rtc_refl _ _) Hrec' eq_refl (rtc_refl _ _))
    as (_ & c0 & Hc0 & _ & Hall).
  exists rec, c0. split; [exact Hrec|]. split; [exact Hc0|exact Hall].
Defined.
