(* ===== verification/DispatcherTheorems.v ===== *)
(** * Theorems about the dispatcher: back-off, classification, failure handling,
    shutdown *)

From stdpp Require Import prelude gmap strings list relations.
From S2P Require Import Prelude.
From S2P Require Import Json.
From S2P Require Import TurnState.
From S2P Require Import TurnKernel.
From S2P Require Import Env.
From S2P Require Import Concrete.
From S2P Require Import Ingress.
From S2P Require Import Schema.
From S2P Require Import Database.
From S2P Require Import Samples.
From S2P Require Import Ledger.
From S2P Require Import LedgerChain.
From S2P Require Import Binding.
From S2P Require Import TurnRecords.
From S2P Require Import TurnStore.
From S2P Require Import StoreLemmas.
From S2P Require Import Outbox.
From S2P Require Import OutboxLemmas.
From S2P Require Import Dispatch.
From S2P Require Import DispatchLemmas.
From S2P Require Import Dispatcher.
From S2P Require Import StoreSteps.
From S2P Require Import Scenario.
From S2P Require Import OutboxTheorems.
Local Open Scope res_scope.
Local Open Scope Z_scope.

(** ** Bounded messages *)

(** Between two character boundaries of UTF-8 text there are at most three
    continuation bytes. *)
Definition utf8_spaced (s : string) : Prop :=
  forall i, (3 <= i <= String.length s)%nat ->
    exists j, (i - 3 <= j <= i)%nat /\ is_char_boundary s j = true.

(** The persisted error text.  On UTF-8 text [bounded_error_message] is never
    empty and never longer than the store accepts; it keeps a short non-empty
    message as it is, and cuts a longer one at a character boundary, at most three
    bytes below the limit. *)
Theorem bounded_error_message_spec message :
  utf8_spaced message ->
  let r := bounded_error_message message in
  0 < str_len r <= MAX_OUTBOX_ERROR_BYTES /\
  (0 < str_len message <= MAX_OUTBOX_ERROR_BYTES -> r = message) /\
  (MAX_OUTBOX_ERROR_BYTES < str_len message ->
   MAX_OUTBOX_ERROR_BYTES - 3 <= str_len r /\
   is_char_boundary message (String.length r) = true /\ exists rest, message = r +:+ rest).
Proof.
  intros Hu. unfold bounded_error_message, str_len, MAX_OUTBOX_ERROR_BYTES in *. cbv zeta.
  case_bool_decide as Hlen.
  - case_bool_decide as He; [subst; split; [simpl; lia|split; simpl; lia]|].
    assert (0 < String.length message)%nat by (destruct message; simpl; [done|lia]).
    split; [lia|]. split; [done|lia].
  - destruct (boundary_before_spec message (Z.to_nat 4096)) as (H1 & H2 & H3).
    destruct (Hu (Z.to_nat 4096)) as (j & Hj & Hb); [lia|].
    assert (Hge : (j <= boundary_before message (Z.to_nat 4096))%nat).
    { destruct (decide (j <= boundary_before message (Z.to_nat 4096))%nat); [done|].
      rewrite H3 in Hb; [done|lia]. }
    rewrite prefix_length by lia. split; [lia|]. split; [lia|]. intros _.
    split; [lia|]. split; [destruct H2; [done|lia]|]. apply prefix_split.
Qed.

(** ** Back-off *)

(** A [std::time::Duration] in nanoseconds. *)
Definition duration_ok (d : Z) : Prop := 0 <= d < (u64_max + 1) * nanos_per_second.

Section Backoff.
Context `{Env}.

Lemma from_le_bytes_nonneg s : 0 <= from_le_bytes s.
Proof. induction s; simpl; lia. Qed.

Lemma jitter_bounds claim limit : 0 <= limit -> 0 <= jitter claim limit <= limit.
Proof.
  intros Hl. unfold jitter. case_bool_decide; [lia|].
  pose proof (Z.mod_pos_bound (from_le_bytes (str_prefix 8
    (sha256 (o_outbox_id claim +:+ le_bytes 8 (o_attempts claim))))) (limit + 1)). lia.
Qed.

Lemma as_millis_bounds d : duration_ok d -> 0 <= as_millis d < (u64_max + 1) * 1000.
Proof.
  unfold duration_ok, as_millis, nanos_per_second, nanos_per_milli, u64_max. zdiv_lia.
Qed.

(** The base delay does not saturate. *)
Lemma base_ms_eq c n :
  duration_ok (initial_retry_delay c) ->
  base_ms c n = Z.min (as_millis (initial_retry_delay c) * 2 ^ Z.min (Z.max (n - 1) 0) 31)
                  (as_millis (maximum_retry_delay c)).
Proof.
  intros Hi. unfold base_ms, u128_saturating_mul. cbv zeta. rewrite Z.shiftl_1_l.
  apply as_millis_bounds in Hi. rewrite (Z.min_l _ u128_max); [done|].
  assert (2 ^ Z.min (Z.max (n - 1) 0) 31 <= 2 ^ 31) by (apply Z.pow_le_mono_r; lia).
  assert (0 < 2 ^ Z.min (Z.max (n - 1) 0) 31) by (apply Z.pow_pos_nonneg; lia).
  change (2 ^ 31) with 2147483648 in *. unfold u128_max, u64_max in *. nia.
Qed.

(**  The retry delay.  Under a validated configuration the delay of attempt
    [n] is the initial delay doubled [n - 1] times and capped at the maximum, plus
    at most the configured percentage of that as jitter: no intermediate result
    saturates, the base does not decrease with the attempts, and the whole delay
    is at most twice the maximum.  With an initial delay below one millisecond
    there is no delay at all. *)
Theorem retry_delay_bounds c claim :
  config_validate c = Ok tt -> 0 <= retry_jitter_percent c ->
  duration_ok (initial_retry_delay c) -> duration_ok (maximum_retry_delay c) ->
  let initial := as_millis (initial_retry_delay c) in
  let maximum := as_millis (maximum_retry_delay c) in
  let base := Z.min (initial * 2 ^ Z.min (Z.max (o_attempts claim - 1) 0) 31) maximum in
  base_ms c (o_attempts claim) = base /\
  (forall m, m <= o_attempts claim -> base_ms c m <= base) /\
  Z.min base u64_max <= retry_delay c claim
    <= base + base * retry_jitter_percent c / 100 /\
  retry_delay c claim <= 2 * maximum /\
  (initial = 0 -> retry_delay c claim = 0).
Proof.
  intros Hv Hp Hi Hm initial maximum base. pose proof (base_ms_eq c (o_attempts claim) Hi) as Hb.
  assert (Hpc : retry_jitter_percent c <= 100).
  { unfold config_validate in Hv. ok_inv Hv. bool_props. lia. }
  pose proof (as_millis_bounds _ Hi) as Bi. pose proof (as_millis_bounds _ Hm) as Bm.
  assert (Hpow : 0 < 2 ^ Z.min (Z.max (o_attempts claim - 1) 0) 31)
    by (apply Z.pow_pos_nonneg; lia).
  assert (Hbase : 0 <= base <= maximum) by (unfold base, initial, maximum in *; nia).
  split; [done|]. split.
  { intros m Hle. rewrite base_ms_eq by done. unfold base.
    assert (2 ^ Z.min (Z.max (m - 1) 0) 31 <= 2 ^ Z.min (Z.max (o_attempts claim - 1) 0) 31)
      by (apply Z.pow_le_mono_r; lia).
    unfold initial, maximum in *. apply Z.min_le_compat_r. nia. }
  assert (Hlim : jitter_limit c (base_ms c (o_attempts claim)) = base * retry_jitter_percent c / 100).
  { unfold jitter_limit, u128_saturating_mul. rewrite Hb. fold initial maximum base.
    rewrite Z.min_l; [done|]. unfold u128_max, u64_max, maximum in *. nia. }
  assert (Hj : 0 <= base * retry_jitter_percent c / 100 <= base) by zdiv_nia.
  pose proof (jitter_bounds claim (jitter_limit c (base_ms c (o_attempts claim)))) as Hjit.
  rewrite Hlim in Hjit. specialize (Hjit (proj1 Hj)).
  unfold retry_delay. cbv zeta. rewrite Hlim, Hb. fold initial maximum base.
  unfold u128_saturating_add, u128_max.
  assert (Hsum : base + jitter claim (base * retry_jitter_percent c / 100) <= 2 * maximum) by lia.
  split; [unfold u64_max in *; lia|]. split; [lia|]. intros H0.
  assert (base = 0) as Hz by (unfold base; rewrite H0; lia).
  rewrite Hz in *. replace (0 * retry_jitter_percent c / 100) with 0 in * by (by rewrite Z.mul_0_l).
  unfold u64_max. lia.
Qed.

(** A configuration whose delays exceed [i64::MAX] milliseconds. *)
Definition huge_retry_config : OutboxDispatcherConfig :=
  {| worker_count := 2; tenant_scan_limit := 128;
     lease_duration := 30 * nanos_per_second; poll_interval := 100 * nanos_per_milli;
     initial_retry_delay := (i64_max + 1) * nanos_per_milli;
     maximum_retry_delay := (i64_max + 1) * nanos_per_milli;
     minimum_commit_window := 12 * nanos_per_second;
     shutdown_timeout := 15 * nanos_per_second;
     retry_jitter_percent := 20; maximum_attempts := 8 |}.

(** Validation does not bound the retry delays.  A configuration with retry
    delays above [i64::MAX] milliseconds is accepted, and under it every retryable
    failure below the attempt limit panics the worker instead of releasing the
    row. *)
Theorem accepted_config_panics s db claim now failure text :
  config_validate huge_retry_config = Ok tt /\
  duration_ok (initial_retry_delay huge_retry_config) /\
  (f_class failure = Retryable -> o_attempts claim < 8 ->
   handle_claim_failure huge_retry_config s db claim now failure text = None).
Proof.
  split; [reflexivity|]. split; [unfold duration_ok; vm_compute; done|]. intros Hc Ha.
  unfold handle_claim_failure. rewrite Hc. rewrite bool_decide_eq_false_2 by (simpl; lia).
  unfold retry_at. rewrite bool_decide_eq_false_2; [done|].
  destruct (retry_delay_bounds huge_retry_config claim) as (_ & _ & (Hlo & _) & _);
    [reflexivity|done|unfold duration_ok; vm_compute; done..|].
  revert Hlo. unfold huge_retry_config. cbn [initial_retry_delay maximum_retry_delay].
  set (e := Z.min (Z.max (o_attempts claim - 1) 0) 31).
  assert (0 < 2 ^ e) by (apply Z.pow_pos_nonneg; lia).
  unfold as_millis, nanos_per_milli. rewrite Z.div_mul by done. unfold u64_max, i64_max. nia.
Qed.

End Backoff.

(** ** Classification *)

(** Contention and interruption: the failures that may pass. *)
Definition transient_sqlite (e : SqliteError) : bool :=
  match e with DatabaseBusy | DatabaseLocked => true | _ => false end.

Definition transient_io (k : IoErrorKind) : bool :=
  match k with Interrupted | WouldBlock | TimedOut => true | OtherIo => false end.

Definition transient_error (e : TurnStoreError) : bool :=
  match e with
  | Sqlite e | Ledger (LedgerSqlite e) => transient_sqlite e
  | Io k | Ledger (LedgerIo k) => transient_io k
  | _ => false
  end.

(** The lease of the claim is no longer the caller's. *)
Definition lease_error (e : TurnStoreError) : bool :=
  match e with
  | OutboxLeaseLost _ _ | OutboxLeaseExpired _ | OutboxOrderConflict _ | CasLost => true
  | _ => false
  end.

(** Classification fails closed.  An error of the store is retried exactly
    when it is contention or an interrupted I/O operation of the store or of the
    ledger, and treated as a lost lease exactly when the fence rejected the
    caller; every other error quarantines the row or stops the dispatcher.  The
    rejection of a turn's history is among those that quarantine. *)
Theorem classification_fails_closed phase e text :
  let f := classify_turn_store_error phase e text in
  f_phase f = phase /\
  (f_class f = Retryable <-> transient_error e = true) /\
  (f_class f = LeaseLostClass <-> lease_error e = true) /\
  (transient_error e = false -> lease_error e = false ->
   f_class f = Permanent \/ f_class f = Fatal) /\
  (forall r, e = OutboxHistoryGenesis r -> f_class f = Permanent).
Proof.
  destruct e as [k|se| | | | | | | | | | | | | | | | | | | | | | | | | | | | | | | | | | | | | |
    | | | | | | | | | | |le| ]; simpl; try (repeat split; naive_solver);
    [destruct k|destruct se|destruct le as [se| |k| | | | | | | | | | | | ];
       [destruct se| |destruct k|..]]; simpl; repeat split; naive_solver.
Qed.

(** ** Handling a failed claim *)

Section Handling.
Context `{Env}.

(** The tables a failure handler may not touch. *)
Definition same_log (db db' : Db) : Prop :=
  turns db' = turns db /\ actors db' = actors db /\ commit_order db' = commit_order db /\
  verified db' = verified db /\ events db' = events db.

(** What handling did to the claimed row. *)
Inductive handled (db : Db) (claim : TurnOutboxRecord) (failure : OutboxDispatchFailure)
    (at_ : Z) : Db -> Prop :=
| h_kept : handled db claim failure at_ db
| h_released o owner token available :
    outbox db !! (o_tenant_id claim, o_outbox_id claim) = Some o ->
    holds_lease owner token at_ o = true -> at_ <= available ->
    handled db claim failure at_
      (with_outbox db (<[(o_tenant_id claim, o_outbox_id claim) :=
                           set_pending available at_ (f_message failure) o]> (outbox db)))
| h_quarantined o owner token q :
    outbox db !! (o_tenant_id claim, o_outbox_id claim) = Some o ->
    holds_lease owner token at_ o = true ->
    quarantine db !! (o_tenant_id claim, o_outbox_id claim) = None ->
    handled db claim failure at_
      (with_outbox
         (with_quarantine db (<[(o_tenant_id claim, o_outbox_id claim) := q]> (quarantine db)))
         (<[(o_tenant_id claim, o_outbox_id claim) :=
              set_pending at_ at_ (f_message failure) o]> (outbox db))).

(** The contract of failure handling: which tables change, and when the dispatcher
    stops. *)
Record handling (config : OutboxDispatcherConfig) (s : DispatcherShared) (db : Db)
    (claim : TurnOutboxRecord) (failure : OutboxDispatchFailure) (at_ : Z)
    (s' : DispatcherShared) (db' : Db) : Prop := {
  hd_row : handled db claim failure at_ db';
  hd_log : same_log db db';
  hd_fatal : f_class failure = Fatal ->
    db' = db /\ lifecycle s' = LFailed /\ shutdown s' = true;
  hd_lost : f_class failure = LeaseLostClass ->
    db' = db /\ lifecycle s' = lifecycle s /\ shutdown s' = shutdown s;
  hd_changed : db' <> db -> lifecycle s' = lifecycle s /\ shutdown s' = shutdown s /\
    (f_class failure = Permanent \/
     f_class failure = Retryable /\ maximum_attempts config <= o_attempts claim <->
     quarantine db' <> quarantine db)
}.

Lemma handling_quarantine config s db claim failure at_ ex s' db' now text :
  f_class failure = Permanent \/
  f_class failure = Retryable /\ maximum_attempts config <= o_attempts claim ->
  match quarantine_outbox db claim failure ex at_ with
  | Ok (_, db2) => (count_dead_letter s (last_error_of claim at_ failure), db2)
  | Err e => (persist_failed s claim now
                (classify_turn_store_error PQuarantinePersist e (text e)), db)
  end = (s', db') ->
  handling config s db claim failure at_ s' db'.
Proof.
  intros Hcls Hm.
  assert (Hn : f_class failure <> Fatal /\ f_class failure <> LeaseLostClass)
    by (destruct Hcls as [->|[-> _]]; done). destruct Hn as [Hn1 Hn2].
  destruct (quarantine_outbox _ _ _ _ _) as [[q d]|e] eqn:Eq.
  - inversion Hm; subst.
    apply quarantine_outbox_Ok in Eq as (_ & c & o & qr & ow & tk & Hhd & Hno & _ & _ & Hl & -> & _).
    split; [eapply h_quarantined; [apply Hhd|exact Hl|exact Hno]|done|done|done|].
    intros _. split; [done|]. split; [done|]. split; [|done].
    intros _ E. cbn [quarantine with_outbox with_quarantine] in E.
    rewrite <- E, lookup_insert_eq in Hno. done.
  - inversion Hm; subst. split; [constructor|done..].
Qed.

(**  Failure handling is contained.  Whatever the failure, when the worker
    does not panic only the claimed row can change, and only back to pending under
    the caller's live lease, with quarantine evidence or without: a fatal failure
    and a lost lease touch no table, and when a table changes the row is
    quarantined exactly for a permanent failure or an exhausted retry.  A fatal
    failure stops the dispatcher; a lost lease, a release and a quarantine do
    not. *)
Theorem failure_handling config s db claim now failure text s' db' :
  handle_claim_failure config s db claim now failure text = Some (s', db') ->
  handling config s db claim failure (monotonic_now claim now) s' db'.
Proof.
  unfold handle_claim_failure. intros Hh. destruct (f_class failure) eqn:Ec.
  - case_bool_decide as Hmax.
    + injection Hh as Hh. eapply handling_quarantine; [by right|exact Hh].
    + destruct (retry_at _ _ _) as [av|]; [|done]. injection Hh as Hh.
      destruct (release_outbox _ _ _ _ _ _ _ _) as [d|e] eqn:Er; inversion Hh; subst.
      * apply release_outbox_Ok in Er as (_ & c & o & Hhd & Hl & Hle & -> & _).
        split; [eapply h_released; [apply Hhd|exact Hl|done]|done|by rewrite Ec..|].
        intros _. split; [done|]. split; [done|]. rewrite Ec. split; [|done].
        intros [?|[_ ?]]; [done|lia].
      * split; [constructor|done|by rewrite Ec..|done].
  - injection Hh as Hh. eapply handling_quarantine; [by left|exact Hh].
  - inversion Hh; subst. split; [constructor|done|by rewrite Ec|done|done].
  - inversion Hh; subst. split; [constructor|done|done|by rewrite Ec|done].
Qed.

End Handling.

(** ** Shutdown *)

(** The changes of the dispatcher's shared state, in any order, by any number of
    workers. *)
Inductive shared_step (s : DispatcherShared) : DispatcherShared -> Prop :=
| ss_started : shared_step s (worker_started s)
| ss_admit s' : admit_append s = Some s' -> shared_step s s'
| ss_drop : shared_step s (drop_permit s)
| ss_shutdown : shared_step s (request_shutdown s)
| ss_fail e : shared_step s (fail_health s e)
| ss_flag : lifecycle s <> LRunning -> shared_step s (set_shutdown s)
| ss_close panicked remaining now text : shutdown s = true ->
    shared_step s (close_health s panicked remaining now text)
| ss_record tenant id now f : shared_step s (record_failure s tenant id now f)
| ss_success : shared_step s (count_success s)
| ss_retry e : shared_step s (count_retry s e)
| ss_dead_letter e : shared_step s (count_dead_letter s e)
| ss_stopped now : shared_step s (worker_stopped s now).

(** A dispatcher that is told to stop does not report running, and a gate that is
    closed belongs to one that is told to stop. *)
Record shared_inv (s : DispatcherShared) : Prop := {
  sh_stopping : shutdown s = true -> lifecycle s <> LRunning;
  sh_gate : accepting s = false -> shutdown s = true;
  sh_flight : 0 <= in_flight s
}.

Lemma worker_stopped_frame s now :
  let s' := worker_stopped s now in
  shutdown s' = shutdown s /\ accepting s' = accepting s /\ in_flight s' = in_flight s /\
  (lifecycle s' = lifecycle s \/ lifecycle s' = LFailed).
Proof. unfold worker_stopped. destruct (_ && _); simpl; auto. Qed.

Lemma close_health_frame s panicked n now text :
  let s' := close_health s panicked n now text in
  shutdown s' = shutdown s /\ accepting s' = accepting s /\ in_flight s' = in_flight s /\
  (lifecycle s <> LRunning -> lifecycle s' <> LRunning).
Proof.
  unfold close_health. destruct (_ || _); [done|]. destruct (_ || _); done.
Qed.

Lemma admit_append_Some s s' :
  admit_append s = Some s' ->
  accepting s = true /\ shutdown s = false /\ shutdown s' = false /\ accepting s' = true /\
  lifecycle s' = lifecycle s /\ in_flight s' = u64_saturating_add (in_flight s) 1.
Proof.
  unfold admit_append. destruct (accepting s) eqn:Ea, (shutdown s) eqn:Es; simpl; try done.
  by intros [= <-].
Qed.

Lemma shared_step_inv s s' : shared_step s s' -> shared_inv s -> shared_inv s'.
Proof.
  intros Hs [H1 H2 H3].
  destruct Hs as [|s' Ha| | | | |panicked n now text Hsd| | | | |now];
    try (split; simpl; auto; done).
  - apply admit_append_Some in Ha as (_ & _ & A & B & C & D).
    split; rewrite ?A, ?B, ?C, ?D; try done. unfold u64_saturating_add, u64_max. lia.
  - split; simpl; auto. lia.
  - split; simpl; auto. intros _. destruct (shutdown s) eqn:Es; simpl; [auto|].
    case_bool_decide; done.
  - destruct (close_health_frame s panicked n now text) as (A & B & C & D).
    split; rewrite ?A, ?B, ?C; auto.
  - destruct (worker_stopped_frame s now) as (A & B & C & D).
    split; rewrite ?A, ?B, ?C; auto. intros Hsd. destruct D as [->| ->]; auto.
Qed.

Lemma shutdown_step s s' :
  shared_step s s' -> shutdown s = true -> lifecycle s <> LRunning ->
  shutdown s' = true /\ lifecycle s' <> LRunning /\ in_flight s' <= Z.max (in_flight s) 0.
Proof.
  intros Hs Hsd Hl. destruct Hs as [|s' Ha| | | | |panicked n now text| | | | |now]; simpl;
    try (split; [done|]; split; [done|lia]).
  - apply admit_append_Some in Ha as (_ & Hf & _). congruence.
  - rewrite Hsd. simpl. split; [done|]. split; [done|lia].
  - destruct (close_health_frame s panicked n now text) as (A & _ & C & D). rewrite A, C.
    split; [done|]. split; [auto|lia].
  - destruct (worker_stopped_frame s now) as (A & _ & C & D). rewrite A, C.
    split; [done|]. split; [|lia]. destruct D as [->| ->]; done.
Qed.

Lemma shutdown_stays s s' :
  rtc shared_step s s' -> shutdown s = true -> lifecycle s <> LRunning ->
  shutdown s' = true /\ lifecycle s' <> LRunning /\ in_flight s' <= Z.max (in_flight s) 0.
Proof.
  induction 1 as [s|s1 s2 s3 Hs _ IH]; intros Hsd Hl; [split; [done|]; split; [done|lia]|].
  destruct (shutdown_step _ _ Hs Hsd Hl) as (A & B & C). destruct (IH A B) as (A' & B' & C').
  split; [done|]. split; [done|lia].
Qed.

(** Shutdown closes the gate.  In every run of the dispatcher's shared state
    from its start, once a shutdown was requested or the dispatcher failed, no
    append is admitted any more, the number of appends in flight does not grow,
    and the dispatcher never reports running again. *)
Theorem shutdown_closes_appends s s1 s' :
  rtc shared_step initial_shared s ->
  s1 = request_shutdown s \/ (exists t i n f, s1 = fail_dispatcher s t i n f) ->
  rtc shared_step s1 s' ->
  shutdown s' = true /\ admit_append s' = None /\ lifecycle s' <> LRunning /\
  in_flight s' <= in_flight s.
Proof.
  intros Hr Hc Hs.
  assert (Hi : shared_inv s).
  { clear Hc Hs. assert (H0 : shared_inv initial_shared) by (split; simpl; done).
    revert H0. induction Hr as [|x y z Hxy _ IH]; [done|].
    intros Hx. by eapply IH, shared_step_inv. }
  assert (Hone : shutdown s1 = true /\ lifecycle s1 <> LRunning /\ in_flight s1 = in_flight s).
  { destruct Hc as [->|(t & i & n & f & ->)]; [|done]. simpl. split; [done|]. split; [|done].
    destruct (shutdown s) eqn:Es; simpl; [by apply (sh_stopping _ Hi)|].
    case_bool_decide; done. }
  destruct Hone as (A & B & C). destruct (shutdown_stays _ _ Hs A B) as (A' & B' & C').
  split; [done|]. split; [unfold admit_append; by rewrite A', orb_true_r|].
  split; [done|]. pose proof (sh_flight _ Hi). lia.
Qed.

(** ** Worked instances *)

Lemma bounded_error_message_spec_witness :
  utf8_spaced "disk full" /\ bounded_error_message "disk full" = "disk full".
Proof.
  assert (Hu : utf8_spaced "disk full").
  { intros i Hi. exists i. split; [lia|].
    do 10 (destruct i as [|i]; [reflexivity|]). simpl in Hi. lia. }
  split; [exact Hu|].
  destruct (bounded_error_message_spec "disk full" Hu) as (_ & Hkeep & _).
  apply Hkeep. unfold str_len, MAX_OUTBOX_ERROR_BYTES. simpl. lia.
Defined.

Definition sc_claimed : TurnOutboxRecord :=
  {| o_tenant_id := "tenant-1"; o_outbox_id := "outbox-1"; o_commit_ordinal := 1;
     o_order_origin := "transactional"; o_turn_id := "turn-1"; o_revision := 0;
     o_event_type := "turn.state.accepted"; o_effect_kind := "ledger_turn_state";
     o_idempotency_mode := "key_required"; o_payload := VNull; o_payload_hash := "";
     o_status := Leased; o_attempts := 3; o_available_at := 0;
     o_lease_owner := Some "worker-1"; o_lease_token := Some "token-1";
     o_lease_until := Some (at_second 30); o_delivered_at := None;
     o_ledger_event_id := None; o_verified_ledger_event_id := None;
     o_verified_signer_public_key := None; o_verified_database_instance_id := None;
     o_last_error := None; o_created_at := 0; o_updated_at := 0 |}.

Lemma retry_delay_bounds_witness :
  base_ms default_config 3 = 1000 /\ retry_delay default_config sc_claimed <= 60000.
Proof.
  destruct (retry_delay_bounds default_config sc_claimed) as (Hb & _ & _ & Hm & _);
    [reflexivity|done|unfold duration_ok; vm_compute; done..|].
  split; [exact Hb|exact Hm].
Defined.

Lemma accepted_config_panics_witness :
  config_validate huge_retry_config = Ok tt /\
  handle_claim_failure huge_retry_config initial_shared sample_db sc_claimed 0
    (failure_new PClaim Retryable StoreBusy "busy") (fun _ => "") = None.
Proof.
  destruct (accepted_config_panics initial_shared sample_db sc_claimed 0
    (failure_new PClaim Retryable StoreBusy "busy") (fun _ => "")) as (Hv & _ & Hp).
  split; [exact Hv|]. apply Hp; [reflexivity|]. unfold sc_claimed. cbn [o_attempts]. lia.
Defined.

Lemma failure_handling_witness :
  handling default_config initial_shared sample_db sc_claimed
    (failure_new PClaim Fatal StoreIntegrity "corrupt") 0
    (fail_dispatcher initial_shared (Some "tenant-1") (Some "outbox-1") 0
       (failure_new PClaim Fatal StoreIntegrity "corrupt")) sample_db.
Proof.
  exact (failure_handling default_config initial_shared sample_db sc_claimed 0
    (failure_new PClaim Fatal StoreIntegrity "corrupt") (fun _ => "") _ _ eq_refl).
Defined.

Lemma shutdown_closes_appends_witness :
  admit_append (drop_permit (request_shutdown initial_shared)) = None.
Proof.
  destruct (shutdown_closes_appends initial_shared (request_shutdown initial_shared)
    (drop_permit (request_shutdown initial_shared)) (rtc_refl _ _) (or_introl eq_refl)
    (rtc_once _ _ (ss_drop _))) as (_ & Ha & _).
  exact Ha.
Defined.
