(* ===== verification/Worker.v ===== *)
(** * The workers of the outbox dispatcher
    ([crates/zaion-runtime/src/turn_store/dispatcher.rs], [worker_loop] and
    [dispatch_claim])

    A worker is a program over atomic actions: a clock reading, a load of the
    shutdown flag, an update of the health record under its lock, one transaction
    of the store, one operation of the ledger, one call of the signer resolver.
    Between two actions of a worker anything else may happen: the other workers,
    the sessions, a shutdown request.  A store or ledger call may also fail for
    reasons outside the model (a busy database, an I/O error), before or after its
    transaction committed.  Clock readings, fresh identifiers and such failures
    come with the [Input] of an action. *)

From stdpp Require Import prelude gmap strings list.
From S2P Require Import Prelude.
From S2P Require Import Json.
From S2P Require Import TurnState.
From S2P Require Import TurnKernel.
From S2P Require Import Env.
From S2P Require Import Ingress.
From S2P Require Import Schema.
From S2P Require Import Database.
From S2P Require Import Ledger.
From S2P Require Import Binding.
From S2P Require Import TurnRecords.
From S2P Require Import TurnStore.
From S2P Require Import Outbox.
From S2P Require Import Dispatch.
From S2P Require Import Dispatcher.
Local Open Scope res_scope.
Local Open Scope Z_scope.

(** ** Programs *)

(** An early [return] of [dispatch_claim], and a panic. *)
Inductive exn : Type := Returned | Panicked.

Section Prog.
Context {I S : Type}.

(** What is left of a thread: a value, an exception, or an atomic action and the
    rest. *)
Inductive prog (A : Type) : Type :=
| Ret (a : A)
| Throw (x : exn)
| Act {B : Type} (f : I -> S -> B * S) (k : B -> prog A).
#[global] Arguments Ret {A} a.
#[global] Arguments Throw {A} x.
#[global] Arguments Act {A B} f k.

Fixpoint bind {A B} (p : prog A) (k : A -> prog B) : prog B :=
  match p with
  | Ret a => k a
  | Throw x => Throw x
  | Act f c => Act f (fun b => bind (c b) k)
  end.

(** The scope of a guard: the action runs when the scope is left, by whatever
    way. *)
Fixpoint finally {A} (p : prog A) (drop : I -> S -> unit * S) : prog A :=
  match p with
  | Ret a => Act drop (fun _ => Ret a)
  | Throw x => Act drop (fun _ => Throw x)
  | Act f c => Act f (fun b => finally (c b) drop)
  end.

(** The call of a function that may return early. *)
Fixpoint call (p : prog unit) : prog unit :=
  match p with
  | Ret a => Ret a
  | Throw Returned => Ret tt
  | Throw Panicked => Throw Panicked
  | Act f c => Act f (fun b => call (c b))
  end.

(** The program run alone, action [n] with input [inp n]. *)
Fixpoint run {A} (inp : nat -> I) (n : nat) (p : prog A) (s : S) : (A + exn) * S * nat :=
  match p with
  | Ret a => (inl a, s, n)
  | Throw x => (inr x, s, n)
  | Act f c => let '(b, s') := f (inp n) s in run inp (Datatypes.S n) (c b) s'
  end.

(** Every action of the program changes the state as [R] allows. *)
Fixpoint only {A} (R : S -> S -> Prop) (p : prog A) : Prop :=
  match p with
  | Ret _ | Throw _ => True
  | Act f c => (forall i s, R s (f i s).2) /\ forall b, only R (c b)
  end.

End Prog.

#[global] Arguments prog : clear implicits.

Declare Scope prog_scope.
Delimit Scope prog_scope with prog.
Notation "'let!' x := p 'in' q" := (bind p (fun x => q))
  (at level 10, x binder, p at level 100, q at level 200) : prog_scope.
Notation "p ;; q" := (bind p (fun _ => q))
  (at level 100, q at level 200, right associativity) : prog_scope.
Local Open Scope prog_scope.

(** ** The signer resolver *)

(** The trait [OutboxSignerResolver] on a resolver in state [R]. *)
Class OutboxSignerResolver `{Env} (R : Type) : Type := {
  resolve : R -> string -> result OutboxSignerResolveError ZaionKeypair;
  resolve_public_key : R -> string -> result OutboxSignerResolveError string
}.

(** The trait's default [resolve_public_key]. *)
Definition default_resolve_public_key `{Env} {R}
    (resolve : R -> string -> result OutboxSignerResolveError ZaionKeypair)
    (r : R) (principal : string) : result OutboxSignerResolveError string :=
  match resolve r principal with
  | Ok keypair => Ok (public_key_bytes keypair)
  | Err e => Err e
  end.

Record InMemoryOutboxSignerResolver `{Env} : Type := {
  signers : gmap string ZaionKeypair;
  public_keys : gmap string string
}.

Section InMemory.
Context `{Env}.

(** [InMemoryOutboxSignerResolver::insert] *)
Definition resolver_insert (r : InMemoryOutboxSignerResolver) (keypair : ZaionKeypair)
  : option ZaionKeypair * InMemoryOutboxSignerResolver :=
  let p := principal_id keypair in
  (signers r !! p,
   {| signers := <[p := keypair]> (signers r);
      public_keys := <[p := public_key_bytes keypair]> (public_keys r) |}).

(** [InMemoryOutboxSignerResolver::new] *)
Definition resolver_new (keypairs : list ZaionKeypair) : InMemoryOutboxSignerResolver :=
  fold_left (fun r keypair => (resolver_insert r keypair).2) keypairs
    {| signers := ∅; public_keys := ∅ |}.

(** [InMemoryOutboxSignerResolver::remove]: the verification key stays. *)
Definition resolver_remove (r : InMemoryOutboxSignerResolver) (principal : string)
  : option ZaionKeypair * InMemoryOutboxSignerResolver :=
  (signers r !! principal,
   {| signers := delete principal (signers r); public_keys := public_keys r |}).

Definition in_memory_resolve (r : InMemoryOutboxSignerResolver) (principal : string)
  : result OutboxSignerResolveError ZaionKeypair :=
  match signers r !! principal with Some k => Ok k | None => Err (Missing principal) end.

Definition in_memory_resolve_public_key (r : InMemoryOutboxSignerResolver)
    (principal : string) : result OutboxSignerResolveError string :=
  match public_keys r !! principal with Some k => Ok k | None => Err (Missing principal) end.

#[export] Instance in_memory_resolver : OutboxSignerResolver InMemoryOutboxSignerResolver :=
  {| resolve := in_memory_resolve; resolve_public_key := in_memory_resolve_public_key |}.

End InMemory.

(** ** Actions *)

(** The [Display] texts of the errors. *)
Class ErrorText : Type := {
  store_text : TurnStoreError -> string;
  ledger_text : LedgerError -> string;
  signer_text : OutboxSignerResolveError -> string
}.

(** What an action receives from outside: the clock, a fresh UUID, the time text of
    an appended event, what opening the store returned, and whether the call fails
    ([true]: after its transaction committed). *)
Record Input : Type := {
  i_now : Z;
  i_fresh : string;
  i_created_at : string;
  i_open : result TurnStoreError string;
  i_store_fault : option (bool * TurnStoreError);
  i_ledger_fault : option (bool * LedgerError)
}.

(** What the worker shares: the database, the dispatcher's state, the resolver. *)
Record World (R : Type) : Type := {
  w_db : Db;
  w_shared : DispatcherShared;
  w_resolver : R
}.
#[global] Arguments w_db {R} _.
#[global] Arguments w_shared {R} _.
#[global] Arguments w_resolver {R} _.

Definition with_db {R} (w : World R) (db : Db) : World R :=
  {| w_db := db; w_shared := w_shared w; w_resolver := w_resolver w |}.
Definition with_shared {R} (w : World R) (s : DispatcherShared) : World R :=
  {| w_db := w_db w; w_shared := s; w_resolver := w_resolver w |}.

Section Worker.
Context `{Env} `{ErrorText} {R : Type} `{!OutboxSignerResolver R}.

(** A worker's state: its ledger handle and the world. *)
Definition Local_ : Type := EventLedger * World R.
Definition Prog : Type -> Type := prog Input Local_.

(** The handle remembers the first instance identifier it reads. *)
Definition observe (self : EventLedger) (db : Db) : EventLedger :=
  match el_instance_id self, read_database_instance_id db with
  | None, Ok live => {| el_instance_id := Some live |}
  | _, _ => self
  end.

Definition clock : Prog Z := Act (fun i s => (i_now i, s)) Ret.

Definition load_shutdown : Prog bool := Act (fun _ s => (shutdown (w_shared s.2), s)) Ret.

(** An update of the health record, the admission state or the flag. *)
Definition share (f : DispatcherShared -> DispatcherShared) : Prog unit :=
  Act (fun _ s => (tt, (s.1, with_shared s.2 (f (w_shared s.2))))) Ret.

(** One transaction of the store. *)
Definition store_tx {A} (f : Input -> Db -> result TurnStoreError (A * Db))
  : Prog (result TurnStoreError A) :=
  Act (fun i s =>
    match i_store_fault i, f i (w_db s.2) with
    | Some (false, e), _ => (Err e, s)
    | Some (true, e), Ok (_, db') => (Err e, (s.1, with_db s.2 db'))
    | Some (true, e), Err _ => (Err e, s)
    | None, Ok (a, db') => (Ok a, (s.1, with_db s.2 db'))
    | None, Err e => (Err e, s)
    end) Ret.

(** A read of the store. *)
Definition store_read {A} (f : Db -> result TurnStoreError A)
  : Prog (result TurnStoreError A) :=
  store_tx (fun _ db => match f db with Ok a => Ok (a, db) | Err e => Err e end).

(** One operation of the ledger, through the worker's handle. *)
Definition ledger_tx {A} (f : Input -> EventLedger -> Db -> result LedgerError (A * Db))
  : Prog (result LedgerError A) :=
  Act (fun i s =>
    let l := observe s.1 (w_db s.2) in
    match i_ledger_fault i, f i s.1 (w_db s.2) with
    | Some (false, e), _ => (Err e, s)
    | Some (true, e), Ok (_, db') => (Err e, (l, with_db s.2 db'))
    | Some (true, e), Err _ => (Err e, (l, s.2))
    | None, Ok (a, db') => (Ok a, (l, with_db s.2 db'))
    | None, Err e => (Err e, (l, s.2))
    end) Ret.

Definition ledger_read {A} (f : EventLedger -> Db -> result LedgerError A)
  : Prog (result LedgerError A) :=
  ledger_tx (fun _ l db => match f l db with Ok a => Ok (a, db) | Err e => Err e end).

Definition ask {A} (f : R -> A) : Prog A := Act (fun _ s => (f (w_resolver s.2), s)) Ret.

(** ** Failures *)

Definition fail_dispatcher_p (tenant_id outbox_id : option string)
    (failure : OutboxDispatchFailure) : Prog unit :=
  let! occurred_at := clock in
  share (fun s => fail_health s
    {| l_tenant_id := tenant_id; l_outbox_id := outbox_id; l_occurred_at := occurred_at;
       l_failure := failure |});;
  share set_shutdown.

Definition record_failure_p (tenant_id outbox_id : option string)
    (failure : OutboxDispatchFailure) : Prog unit :=
  let! now := clock in share (fun s => record_failure s tenant_id outbox_id now failure).

Definition persist_failed_p (claim : TurnOutboxRecord) (failure : OutboxDispatchFailure)
  : Prog unit :=
  if bool_decide (f_class failure = Fatal)
  then fail_dispatcher_p (Some (o_tenant_id claim)) (Some (o_outbox_id claim)) failure
  else record_failure_p (Some (o_tenant_id claim)) (Some (o_outbox_id claim)) failure.

Definition quarantine_p (claim : TurnOutboxRecord) (failure : OutboxDispatchFailure)
    (exhausted : bool) : Prog unit :=
  let! now := clock in
  let at_ := monotonic_now claim now in
  let! r := store_tx (fun _ db => quarantine_outbox db claim failure exhausted at_) in
  match r with
  | Ok _ => share (fun s => count_dead_letter s (last_error_of claim at_ failure))
  | Err e => persist_failed_p claim (classify_turn_store_error PQuarantinePersist e (store_text e))
  end.

Definition release_p (config : OutboxDispatcherConfig) (claim : TurnOutboxRecord)
    (failure : OutboxDispatchFailure) : Prog unit :=
  let! now := clock in
  let at_ := monotonic_now claim now in
  match retry_at config claim at_ with
  | None => Throw Panicked
  | Some available_at =>
      let! r := store_tx (fun _ db =>
        match release_outbox db (o_tenant_id claim) (o_outbox_id claim)
                (default "missing" (o_lease_owner claim))
                (default "missing" (o_lease_token claim)) at_ available_at
                (f_message failure) with
        | Ok db' => Ok (tt, db') | Err e => Err e
        end) in
      match r with
      | Ok _ => share (fun s => count_retry s (last_error_of claim at_ failure))
      | Err e => persist_failed_p claim (classify_turn_store_error PRetryPersist e (store_text e))
      end
  end.

(** [handle_claim_failure] *)
Definition handle_claim_failure_p (config : OutboxDispatcherConfig)
    (claim : TurnOutboxRecord) (failure : OutboxDispatchFailure) : Prog unit :=
  match f_class failure with
  | Fatal =>
      fail_dispatcher_p (Some (o_tenant_id claim)) (Some (o_outbox_id claim)) failure
  | LeaseLostClass =>
      record_failure_p (Some (o_tenant_id claim)) (Some (o_outbox_id claim)) failure
  | Permanent => quarantine_p claim failure false
  | Retryable =>
      if bool_decide (maximum_attempts config <= o_attempts claim)
      then quarantine_p claim failure true
      else release_p config claim failure
  end.

(** [handle_post_append_failure] *)
Definition handle_post_append_failure_p (config : OutboxDispatcherConfig)
    (claim : TurnOutboxRecord) (failure : OutboxDispatchFailure) : Prog unit :=
  let! stopping := load_shutdown in
  if stopping && bool_decide (f_class failure = Retryable)
  then fail_dispatcher_p (Some (o_tenant_id claim)) (Some (o_outbox_id claim)) failure
  else handle_claim_failure_p config claim failure.

(** [defer_for_shutdown] *)
Definition defer_for_shutdown_p (claim : TurnOutboxRecord) : Prog unit :=
  let! now := clock in
  let at_ := monotonic_now claim now in
  match o_lease_owner claim, o_lease_token claim with
  | Some lease_owner, Some lease_token =>
      let! r := store_tx (fun _ db =>
        match release_outbox db (o_tenant_id claim) (o_outbox_id claim) lease_owner
                lease_token at_ at_ "dispatcher shutdown before signed append" with
        | Ok db' => Ok (tt, db') | Err e => Err e
        end) in
      match r with
      | Ok _ => Ret tt
      | Err e =>
          let failure := classify_turn_store_error PRetryPersist e (store_text e) in
          if bool_decide (f_class failure = LeaseLostClass) then Ret tt
          else record_failure_p (Some (o_tenant_id claim)) (Some (o_outbox_id claim)) failure
      end
  | _, _ => Ret tt
  end.

(** Handle the failure and return from [dispatch_claim]. *)
Definition fail_with {A} (p : Prog unit) : Prog A := p;; Throw Returned.

(** ** The operations that are several transactions *)

Definition seq_results {E A B} (p : Prog (result E A)) (k : A -> Prog (result E B))
  : Prog (result E B) :=
  let! r := p in match r with Ok a => k a | Err e => Ret (Err e) end.

(** [verify_tenant_prefix]: one read of the ledger per entry. *)
Fixpoint verify_prefix_p (snapshot : DispatchSnapshot) (entries : list VerifiedPrefixEntry)
  : Prog (result TurnStoreError unit) :=
  match entries with
  | [] => Ret (Ok tt)
  | entry :: entries' =>
      let! r := ledger_read (fun l db =>
             verify_existing_idempotent_event l db (p_public_key entry) (p_binding entry)) in
      match check_prefix_entry snapshot (fun _ _ => r) entry with
      | Ok _ => verify_prefix_p snapshot entries'
      | Err e => Ret (Err e)
      end
  end.

(** [verify_ledger_scope] *)
Definition verify_ledger_scope_p (snapshot : DispatchSnapshot) (public_key : string)
  : Prog (result TurnStoreError unit) :=
  let! path := ledger_read canonical_database_path in
  match from_ledger path with
  | Err e => Ret (Err e)
  | Ok path =>
      if negb (bool_decide (path = ds_database_path snapshot))
      then Ret (Err OutboxLedgerPathMismatch)
      else
        let! instance_id := ledger_read database_instance_id in
        Ret (let? instance_id := from_ledger instance_id in
             guard? bool_decide (instance_id = ds_database_instance_id snapshot)
               else OutboxLedgerInstanceMismatch in
             guard? bool_decide (principal_id_from_public_key public_key
                                 = b_principal_id (h_binding (ds_target snapshot)))
               else OutboxPrincipalMismatch in
             Ok tt)
  end.

(** [revalidate_outbox_for_signing] *)
Definition revalidate_p (store_instance tenant_id outbox_id lease_owner lease_token : string)
    (now : Z) (public_key : string) : Prog (result TurnStoreError SigningValidatedOutbox) :=
  match validate_lease_identity "lease_owner" lease_owner,
        validate_lease_identity "lease_token" lease_token with
  | Err e, _ | _, Err e => Ret (Err e)
  | Ok _, Ok _ =>
      seq_results (store_read (fun db => dispatch_snapshot store_instance db tenant_id
        outbox_id lease_owner lease_token now false)) (fun snapshot =>
      seq_results (verify_ledger_scope_p snapshot public_key) (fun _ =>
      seq_results (verify_prefix_p snapshot (ds_tenant_prefix snapshot)) (fun _ =>
      Ret (Ok {| sv_outbox := h_outbox (ds_target snapshot);
                 sv_binding := h_binding (ds_target snapshot) |}))))
  end.

(** [append_verified_idempotent_event] *)
Definition append_verified_p (keypair : ZaionKeypair) (b : IdempotentEventBinding)
  : Prog (result LedgerError VerifiedEventCommit) :=
  match verify_principal_binding (b_principal_id b) (principal_id keypair) with
  | Err e => Ret (Err e)
  | Ok _ =>
      seq_results (ledger_read canonical_database_path) (fun expected_path =>
      seq_results (ledger_read database_instance_id) (fun expected_instance_id =>
      seq_results (ledger_tx (fun i l db => append_signed_idempotent_event_with_parent l db
        (i_created_at i) keypair (b_namespace_key b) (b_event_type b) (b_payload b)
        (b_run_id b) (b_parent_event_id b) (b_idempotency_key b))) (fun event_id =>
      if negb (bool_decide (event_id = expected_event_id b))
      then Ret (Err (EventBindingMismatch "event_id"))
      else
        seq_results (ledger_read (fun l db =>
          verify_existing_idempotent_event l db (public_key_bytes keypair) b))
          (fun committed =>
        Ret (guard? bool_decide (vc_canonical_ledger_path committed = expected_path)
               else EventBindingMismatch "canonical_ledger_path" in
             guard? bool_decide (vc_database_instance_id committed = expected_instance_id)
               else EventBindingMismatch "database_instance_id" in
             Ok committed)))))
  end.

(** [matches_binding]: two reads, then the event itself. *)
Definition matches_binding_p (commit : VerifiedEventCommit) (b : IdempotentEventBinding)
  : Prog (result LedgerError bool) :=
  seq_results (ledger_read canonical_database_path) (fun path =>
  seq_results (ledger_read database_instance_id) (fun instance_id =>
  let event_id := expected_event_id b in
  if negb (bool_decide (vc_event_id commit = event_id)
           && bool_decide (vc_canonical_ledger_path commit = path)
           && bool_decide (vc_database_instance_id commit = instance_id)
           && bool_decide (vc_binding_digest commit
                           = binding_digest path instance_id event_id b))
  then Ret (Ok false)
  else
    seq_results (ledger_read (fun l db =>
      verify_existing_idempotent_event l db (vc_public_key_bytes commit) b)) (fun verified =>
    Ret (Ok (bool_decide (commit = verified)))))).

(** [complete_outbox] *)
Definition complete_p (store_instance tenant_id outbox_id lease_owner lease_token : string)
    (commit : VerifiedEventCommit) (now : Z)
  : Prog (result TurnStoreError OutboxCompletion) :=
  match validate_lease_identity "lease_owner" lease_owner,
        validate_lease_identity "lease_token" lease_token with
  | Err e, _ | _, Err e => Ret (Err e)
  | Ok _, Ok _ =>
      seq_results (store_read (fun db => dispatch_snapshot store_instance db tenant_id
        outbox_id lease_owner lease_token now true)) (fun snapshot =>
      seq_results (verify_ledger_scope_p snapshot (vc_public_key_bytes commit)) (fun _ =>
      seq_results (verify_prefix_p snapshot (ds_tenant_prefix snapshot)) (fun _ =>
      let! matches := matches_binding_p commit (h_binding (ds_target snapshot)) in
      match from_ledger matches with
      | Err e => Ret (Err e)
      | Ok false => Ret (Err (OutboxCommitMismatch outbox_id))
      | Ok true =>
          store_tx (fun _ db => complete_in_tx db snapshot tenant_id outbox_id lease_owner
                      lease_token commit now)
      end)))
  end.

(** ** [dispatch_claim] *)

Definition has_commit_window (claim : TurnOutboxRecord) (minimum now : Z) : bool :=
  bool_decide (as_millis minimum <= i64_max)
  && is_some_and (fun lease_until => bool_decide (minimum <= lease_until - now))
       (o_lease_until claim).

Context (config : OutboxDispatcherConfig) (store_instance worker_id : string).

Definition commit_window (claim : TurnOutboxRecord) : Prog bool :=
  let! now := clock in Ret (has_commit_window claim (minimum_commit_window config) now).

Definition revalidate_failed {A} (claim : TurnOutboxRecord) (e : TurnStoreError) : Prog A :=
  fail_with (handle_claim_failure_p config claim
    (classify_turn_store_error PRevalidate e (store_text e))).

(** Renew the lease, then validate for signing: [dispatch_claim] does it up to
    three times. *)
Definition renew_and_revalidate (claim : TurnOutboxRecord)
    (lease_owner lease_token public_key : string) : Prog SigningValidatedOutbox :=
  let! now := clock in
  let! renewed := store_tx (fun _ db => renew_outbox_lease db (o_tenant_id claim)
    (o_outbox_id claim) lease_owner lease_token (monotonic_now claim now)
    (lease_duration config)) in
  match renewed with
  | Err e => revalidate_failed claim e
  | Ok claim =>
      let! now := clock in
      let! validated := revalidate_p store_instance (o_tenant_id claim) (o_outbox_id claim)
        lease_owner lease_token (monotonic_now claim now) public_key in
      match validated with
      | Err e => revalidate_failed claim e
      | Ok validated => Ret validated
      end
  end.

Definition defer_if_stopping (claim : TurnOutboxRecord) : Prog unit :=
  let! stopping := load_shutdown in
  if stopping then fail_with (defer_for_shutdown_p claim) else Ret tt.

Definition budget_exhausted (claim : TurnOutboxRecord) (message : string) : Prog unit :=
  let! window := commit_window claim in
  if window then Ret tt
  else fail_with (handle_claim_failure_p config claim
         (failure_new PRevalidate Retryable LeaseBudgetExhausted message)).

Definition signer_mismatch (claim : TurnOutboxRecord) (message : string) : Prog unit :=
  fail_with (handle_claim_failure_p config claim
    (failure_new PResolveSigner Permanent SignerMismatch message)).

Definition append_failed {A} (claim : TurnOutboxRecord) (e : LedgerError) : Prog A :=
  fail_with (handle_post_append_failure_p config claim
    (classify_ledger_error PAppend e (ledger_text e))).

(** [admit_append] as an action. *)
Definition admit_append_p : Prog bool :=
  Act (fun _ s => match admit_append (w_shared s.2) with
                  | Some sh => (true, (s.1, with_shared s.2 sh))
                  | None => (false, s)
                  end) Ret.

Definition drop_permit_a (_ : Input) (s : Local_) : unit * Local_ :=
  (tt, (s.1, with_shared s.2 (drop_permit (w_shared s.2)))).

(** The append, under an admission permit that is dropped when the scope ends. *)
Definition append_under_permit (claim : TurnOutboxRecord) (public_key : string)
    (keypair : ZaionKeypair) (b : IdempotentEventBinding) : Prog VerifiedEventCommit :=
  let! admitted := admit_append_p in
  if negb admitted then fail_with (defer_for_shutdown_p claim)
  else
    finally
      (let! appended := append_verified_p keypair b in
       match appended with
       | Ok commit => Ret commit
       | Err append_error =>
           let! existing := ledger_read (fun l db =>
             verify_existing_idempotent_event l db public_key b) in
           match existing with
           | Ok commit => Ret commit
           | Err (NotFound _) => append_failed claim append_error
           | Err verify_error => append_failed claim verify_error
           end
       end) drop_permit_a.

(** The event is not in the ledger yet: resolve the private key, take the fence
    and validate again, and append. *)
Definition sign_and_append (claim : TurnOutboxRecord)
    (principal lease_owner lease_token public_key : string)
  : Prog (TurnOutboxRecord * VerifiedEventCommit) :=
  let! resolved := ask (fun r => resolve r principal) in
  match resolved with
  | Err e => fail_with (handle_claim_failure_p config claim
               (classify_signer_error e (signer_text e)))
  | Ok keypair =>
      defer_if_stopping claim;;
      (if bool_decide (principal_id keypair = principal)
          && bool_decide (public_key_bytes keypair = public_key) then Ret tt
       else signer_mismatch claim
              "resolved signing key does not match the verified principal key");;
      let! validated := renew_and_revalidate claim lease_owner lease_token public_key in
      let claim := sv_outbox validated in
      budget_exhausted claim
        "private signer resolution exhausted the append/complete lease window";;
      let! existing := ledger_read (fun l db =>
        verify_existing_idempotent_event l db public_key (sv_binding validated)) in
      match existing with
      | Ok commit => Ret (claim, commit)
      | Err (NotFound _) =>
          let! commit := append_under_permit claim public_key keypair (sv_binding validated) in
          Ret (claim, commit)
      | Err e => append_failed claim e
      end
  end.

Definition finish_claim (claim : TurnOutboxRecord) (lease_owner lease_token : string)
    (commit : VerifiedEventCommit) : Prog unit :=
  let! now := clock in
  let! completed := complete_p store_instance (o_tenant_id claim) (o_outbox_id claim)
    lease_owner lease_token commit (monotonic_now claim now) in
  match completed with
  | Ok _ => share count_success
  | Err e => handle_post_append_failure_p config claim
               (classify_turn_store_error PComplete e (store_text e))
  end.

(** The lease is fresh enough to append and complete, or is renewed once more. *)
Definition ensure_commit_window (validated : SigningValidatedOutbox)
    (lease_owner lease_token public_key : string) : Prog SigningValidatedOutbox :=
  let! window := commit_window (sv_outbox validated) in
  if window then Ret validated
  else renew_and_revalidate (sv_outbox validated) lease_owner lease_token public_key.

Definition dispatch_claim (claim : TurnOutboxRecord) : Prog unit :=
  defer_if_stopping claim;;
  match claimed_principal_id claim with
  | Err e => fail_with (handle_claim_failure_p config claim
               (classify_turn_store_error PResolveSigner e (store_text e)))
  | Ok principal =>
      let! resolved := ask (fun r => resolve_public_key r principal) in
      match resolved with
      | Err e => fail_with (handle_claim_failure_p config claim
                   (classify_signer_error e (signer_text e)))
      | Ok public_key =>
          (if bool_decide (principal_id_from_public_key public_key = principal) then Ret tt
           else signer_mismatch claim
                  "resolved verification key does not derive the requested PrincipalId");;
          defer_if_stopping claim;;
          match o_lease_owner claim, o_lease_token claim with
          | Some lease_owner, Some lease_token =>
              let! validated := renew_and_revalidate claim lease_owner lease_token public_key in
              defer_if_stopping (sv_outbox validated);;
              let! validated := ensure_commit_window validated lease_owner lease_token public_key in
              let claim := sv_outbox validated in
              budget_exhausted claim
                "verified outbox does not retain the configured append/complete lease window";;
              let! existing := ledger_read (fun l db =>
                verify_existing_idempotent_event l db public_key (sv_binding validated)) in
              match existing with
              | Ok commit => finish_claim claim lease_owner lease_token commit
              | Err (NotFound _) =>
                  let! signed := sign_and_append claim principal lease_owner lease_token public_key in
                  finish_claim signed.1 lease_owner lease_token signed.2
              | Err e => append_failed claim e
              end
          | _, _ => Throw Panicked
          end
      end
  end.

(** ** [worker_loop] *)

(** [wait_for_work]: until the poll interval is over, a wake-up or a shutdown. *)
Definition wait_for_work : Prog unit := Act (fun _ s => (tt, s)) Ret.

(** The [for] over the ready tenants; the result is [claimed_any]. *)
Fixpoint for_tenants (tenants : list string) (claimed_any : bool) : Prog bool :=
  match tenants with
  | [] => Ret claimed_any
  | tenant_id :: rest =>
      let! stopping := load_shutdown in
      if stopping then Ret claimed_any
      else
        let! now := clock in
        let! claimed := store_tx (fun i db => claim_next_outbox db (i_fresh i) tenant_id worker_id
                     now (lease_duration config)) in
        match claimed with
        | Ok (Some claim) => call (dispatch_claim claim);; for_tenants rest true
        | Ok None => for_tenants rest claimed_any
        | Err e =>
            let failure := classify_turn_store_error PClaim e (store_text e) in
            if bool_decide (f_class failure = Fatal)
            then fail_dispatcher_p (Some tenant_id) None failure;; Ret claimed_any
            else record_failure_p (Some tenant_id) None failure;; for_tenants rest claimed_any
        end
  end.

(** One pass of the [while]; [false] when the loop is left. *)
Definition iteration : Prog bool :=
  let! stopping := load_shutdown in
  if stopping then Ret false
  else
    let! now := clock in
    let! snapshot := store_read (fun db =>
      dispatch_queue_snapshot db now (Z.to_nat (tenant_scan_limit config))) in
    match snapshot with
    | Err e =>
        let failure := classify_turn_store_error PClaim e (store_text e) in
        if bool_decide (f_class failure = Fatal)
        then fail_dispatcher_p None None failure;; Ret false
        else record_failure_p None None failure;; wait_for_work;; Ret true
    | Ok snapshot =>
        match ready_tenants snapshot with
        | [] => wait_for_work;; Ret true
        | tenants =>
            let! claimed_any := for_tenants tenants false in
            if claimed_any : bool then Ret true else wait_for_work;; Ret true
        end
    end.

End Worker.
