(* ===== verification/Pool.v ===== *)
(** * The dispatcher's pool of workers
    ([crates/zaion-runtime/src/turn_store/dispatcher.rs], [worker_loop], [start],
    [shutdown_before], [reap_finished_workers], [health])

    A worker thread from its spawn to its end, and the pool as a state machine:
    the workers take turns, action by action, with each other, with every other
    user of the database and of the signer resolver, and with the thread that shuts
    the dispatcher down. *)

From stdpp Require Import prelude gmap strings list relations.
From S2P Require Import Prelude.
From S2P Require Import Json.
From S2P Require Import TurnState.
From S2P Require Import TurnKernel.
From S2P Require Import Env.
From S2P Require Import Ingress.
From S2P Require Import Schema.
From S2P Require Import Database.
From S2P Require Import Ledger.
From S2P Require Import Binding.
From S2P Require Import TurnRecords.
From S2P Require Import TurnStore.
From S2P Require Import Outbox.
From S2P Require Import Dispatch.
From S2P Require Import Dispatcher.
From S2P Require Import Machine.
From S2P Require Import Worker.
Local Open Scope prog_scope.
Local Open Scope Z_scope.

(** [Vec::swap_remove]: the last element takes the place of the removed one. *)
Definition swap_remove {A} (l : list A) (index : nat) : list A :=
  match last l with
  | Some x => take (length l - 1) (<[index := x]> l)
  | None => l
  end.

(** The loop of [reap_finished_workers]; [finished] tells whether a thread is over
    and whether it panicked.  Every pass removes a handle or moves on. *)
Fixpoint reap_loop {A} (finished : A -> option bool) (fuel index : nat) (workers : list A)
    (panicked : bool) : list A * bool :=
  match fuel with
  | O => (workers, panicked)
  | S fuel' =>
      match workers !! index with
      | None => (workers, panicked)
      | Some w =>
          match finished w with
          | Some p => reap_loop finished fuel' index (swap_remove workers index) (panicked || p)
          | None => reap_loop finished fuel' (S index) workers panicked
          end
      end
  end.

Definition reap_finished_workers {A} (finished : A -> option bool) (workers : list A)
    (panicked : bool) : list A * bool :=
  reap_loop finished (length workers) 0 workers panicked.

Record OutboxDispatcherHealth : Type := {
  oh_lifecycle : OutboxDispatcherLifecycle;
  oh_configured_workers : Z;
  oh_running_workers : Z;
  oh_queue_depth : option Z;
  oh_leased_count : option Z;
  oh_oldest_queued_age_ms : option Z;
  oh_persistent_dead_letters : option Z;
  oh_successes : Z;
  oh_retries : Z;
  oh_dead_letters : Z;
  oh_last_error : option OutboxDispatcherLastError;
  oh_metrics_error : option string
}.

(** [Duration::num_milliseconds] rounds towards zero. *)
Definition num_milliseconds (d : Z) : Z := Z.quot d nanos_per_milli.

Section Pool.
Context `{Env} `{ErrorText} {R : Type} `{!OutboxSignerResolver R}.

(** ** A worker thread *)

(** What a thread is at: spawned, at the start-up barrier, opening its store, in
    its loop (with the next pass and what is left of this one), dropping its
    lifecycle guard, or over. *)
Inductive wstate : Type :=
| WSpawned
| WBarrier
| WOpening (p : Prog (R := R) (option (string * string)))
| WRunning (next p : Prog (R := R) bool) (l : EventLedger)
| WLeaving (p : Prog (R := R) unit) (panicked : bool)
| WDone (panicked : bool).

Definition new_ledger : EventLedger := {| el_instance_id := None |}.

(** [DurableTurnStore::open] and the worker's identifier.  Opening is taken as its
    result: the database already has its schema. *)
Definition open_store : Prog (R := R) (option (string * string)) :=
  let! opened := Act (fun i s => ((i_open i, i_fresh i), s)) Ret in
  match opened with
  | (Ok store_instance, fresh) => Ret (Some (store_instance, "dispatcher-" +:+ fresh))
  | (Err e, _) =>
      fail_dispatcher_p None None (classify_turn_store_error PClaim e (store_text e));; Ret None
  end.

(** [WorkerLifecycleGuard::drop] *)
Definition guard_drop (panicking : bool) : Prog (R := R) unit :=
  (if panicking then
     fail_dispatcher_p None None (failure_new PClaim Fatal InfrastructureFailure
       "outbox dispatcher worker panicked")
   else Ret tt);;
  let! now := clock in
  share (fun s => worker_stopped s now).

(** One action of a worker; [released] opens the start-up barrier. *)
Definition wstep (config : OutboxDispatcherConfig) (released : bool) (i : Input)
    (st : wstate) (w : World R) : wstate * World R :=
  match st with
  | WSpawned => (WBarrier, with_shared w (worker_started (w_shared w)))
  | WBarrier =>
      if shutdown (w_shared w) then (WLeaving (guard_drop false) false, w)
      else if released then (WOpening open_store, w) else (WBarrier, w)
  | WOpening p =>
      match p with
      | Ret (Some (store_instance, worker_id)) =>
          let next := iteration config store_instance worker_id in
          (WRunning next next new_ledger, w)
      | Ret None => (WLeaving (guard_drop false) false, w)
      | Throw _ => (WLeaving (guard_drop true) true, w)
      | Act f k => let r := f i (new_ledger, w) in (WOpening (k r.1), r.2.2)
      end
  | WRunning next p l =>
      match p with
      | Ret true => (WRunning next next l, w)
      | Ret false => (WLeaving (guard_drop false) false, w)
      | Throw _ => (WLeaving (guard_drop true) true, w)
      | Act f k => let r := f i (l, w) in (WRunning next (k r.1) r.2.1, r.2.2)
      end
  | WLeaving p panicked =>
      match p with
      | Ret _ | Throw _ => (WDone panicked, w)
      | Act f k => let r := f i (new_ledger, w) in (WLeaving (k r.1) panicked, r.2.2)
      end
  | WDone _ => (st, w)
  end.

Definition finished (st : wstate) : option bool :=
  match st with WDone panicked => Some panicked | _ => None end.

(** ** The pool *)

(** The thread in [shutdown_before]: not in it, polling its workers until the
    deadline, past its loop, or back with a result. *)
Inductive main_state : Type :=
| MIdle
| MPolling (deadline : Z)
| MClosing
| MReturned (r : result OutboxDispatcherError unit).

Record Pool : Type := {
  po_world : World R;
  po_released : bool;
  po_threads : list wstate;
  po_handles : list nat;
  po_panicked : bool;
  po_main : main_state
}.

(** The pool [OutboxDispatcher::start] creates. *)
Definition started_pool (config : OutboxDispatcherConfig) (db : Db) (r : R) : Pool :=
  {| po_world := {| w_db := db; w_shared := initial_shared; w_resolver := r |};
     po_released := false;
     po_threads := replicate (Z.to_nat (worker_count config)) WSpawned;
     po_handles := seq 0 (Z.to_nat (worker_count config));
     po_panicked := false; po_main := MIdle |}.

Definition with_world (po : Pool) (w : World R) : Pool :=
  {| po_world := w; po_released := po_released po; po_threads := po_threads po;
     po_handles := po_handles po; po_panicked := po_panicked po; po_main := po_main po |}.

Definition reap (po : Pool) : list nat * bool :=
  reap_finished_workers (fun j => po_threads po !! j ≫= finished) (po_handles po)
    (po_panicked po).

(** The poll of [shutdown_before]: reap the finished workers. *)
Definition poll (po : Pool) : Pool :=
  {| po_world := po_world po; po_released := po_released po; po_threads := po_threads po;
     po_handles := (reap po).1; po_panicked := (reap po).2; po_main := po_main po |}.

(** Its end: reap once more, settle the health record, return. *)
Definition close (po : Pool) (now : Z) (text : nat -> string) : Pool :=
  let '(handles, panicked) := reap po in
  let s := close_health (w_shared (po_world po)) panicked (length handles) now text in
  {| po_world := with_shared (po_world po) s; po_released := po_released po;
     po_threads := po_threads po; po_handles := handles; po_panicked := panicked;
     po_main := MReturned (shutdown_result s panicked (length handles)) |}.

Definition set_main (po : Pool) (m : main_state) : Pool :=
  {| po_world := po_world po; po_released := po_released po; po_threads := po_threads po;
     po_handles := po_handles po; po_panicked := po_panicked po; po_main := m |}.

Definition release (po : Pool) : Pool :=
  {| po_world := po_world po; po_released := true; po_threads := po_threads po;
     po_handles := po_handles po; po_panicked := po_panicked po; po_main := po_main po |}.

Definition shut (w : World R) : World R := with_shared w (request_shutdown (w_shared w)).

Inductive pool_step (config : OutboxDispatcherConfig) (po : Pool) : Pool -> Prop :=
| ps_worker j i st :
    po_threads po !! j = Some st ->
    pool_step config po
      (let r := wstep config (po_released po) i st (po_world po) in
       {| po_world := r.2; po_released := po_released po;
          po_threads := <[j := r.1]> (po_threads po); po_handles := po_handles po;
          po_panicked := po_panicked po; po_main := po_main po |})
| ps_release : WSpawned ∉ po_threads po -> pool_step config po (release po)
| ps_store db' :
    step (w_db (po_world po)) db' ->
    pool_step config po (with_world po (with_db (po_world po) db'))
| ps_resolver r :
    pool_step config po (with_world po
      {| w_db := w_db (po_world po); w_shared := w_shared (po_world po); w_resolver := r |})
| ps_request : pool_step config po (with_world po (shut (po_world po)))
| ps_shutdown deadline :
    po_released po = true -> match po_main po with MIdle | MReturned _ => True | _ => False end ->
    pool_step config po (set_main (with_world po (shut (po_world po))) (MPolling deadline))
| ps_poll deadline now :
    po_main po = MPolling deadline -> (reap po).1 <> [] -> now < deadline ->
    pool_step config po (poll po)
| ps_exit deadline now :
    po_main po = MPolling deadline -> (reap po).1 = [] \/ deadline <= now ->
    pool_step config po (set_main (poll po) MClosing)
| ps_close now text :
    po_main po = MClosing -> pool_step config po (close po now text).

Definition pool_steps (config : OutboxDispatcherConfig) : Pool -> Pool -> Prop :=
  rtc (pool_step config).

(** ** Health *)

(** [OutboxDispatcher::health]; [text] renders an error. *)
Definition health (config : OutboxDispatcherConfig) (runtime : DispatcherShared) (db : Db)
    (now : Z) : OutboxDispatcherHealth :=
  let base depth leased age dead error :=
    {| oh_lifecycle := lifecycle runtime; oh_configured_workers := worker_count config;
       oh_running_workers := running_workers runtime; oh_queue_depth := depth;
       oh_leased_count := leased; oh_oldest_queued_age_ms := age;
       oh_persistent_dead_letters := dead; oh_successes := successes runtime;
       oh_retries := retries runtime; oh_dead_letters := h_dead_letters runtime;
       oh_last_error := last_error runtime; oh_metrics_error := error |} in
  match dispatch_queue_snapshot db now (Z.to_nat (tenant_scan_limit config)) with
  | Ok queue =>
      base (Some (queue_depth queue)) (Some (leased_count queue))
        ((fun created_at => Z.max (num_milliseconds (now - created_at)) 0)
           <$> oldest_created_at queue)
        (Some (dead_letters queue)) None
  | Err e => base None None None None (Some (bounded_error_message (store_text e)))
  end.

End Pool.
