(* ===== verification/PoolLemmas.v ===== *)
(** * Lemmas about the dispatcher's workers

    Each worker's program is checked once, against every state an interleaving can
    show it ([ok]): what its actions may do to the database and to the shared state,
    and that it gives back every append permit it takes.  The theorems of
    [PoolTheorems] follow for all interleavings. *)

From stdpp Require Import prelude gmap strings list relations.
From S2P Require Import Prelude.
From S2P Require Import Json.
From S2P Require Import TurnState.
From S2P Require Import TurnKernel.
From S2P Require Import Env.
From S2P Require Import Concrete.
From S2P Require Import Ingress.
From S2P Require Import Schema.
From S2P Require Import Database.
From S2P Require Import Samples.
From S2P Require Import Ledger.
From S2P Require Import LedgerChain.
From S2P Require Import Binding.
From S2P Require Import TurnRecords.
From S2P Require Import TurnStore.
From S2P Require Import Outbox.
From S2P Require Import Dispatch.
From S2P Require Import Dispatcher.
From S2P Require Import Machine.
From S2P Require Import StoreInv.
From S2P Require Import DispatcherTheorems.
From S2P Require Import Worker.
From S2P Require Import Pool.
Local Open Scope prog_scope.
Local Open Scope Z_scope.

(** A dispatcher that does not report running never does again. *)
Lemma not_running_step s s' :
  shared_step s s' -> lifecycle s <> LRunning -> lifecycle s' <> LRunning.
Proof.
  intros Hs Hl. destruct Hs as [|s' Ha| | | | |p n now text| | | | |now]; simpl; try done.
  - apply admit_append_Some in Ha as (_ & _ & _ & _ & -> & _). done.
  - destruct (_ && _); done.
  - by apply (close_health_frame s p n now text).
  - destruct (worker_stopped_frame s now) as (_ & _ & _ & [->| ->]); done.
Qed.

Lemma not_running_steps s s' :
  rtc shared_step s s' -> lifecycle s <> LRunning -> lifecycle s' <> LRunning.
Proof. induction 1; eauto using not_running_step. Qed.

Section Ok.
Context `{Env} `{ErrorText} {R : Type} `{!OutboxSignerResolver R}.
Implicit Types (w : World R) (s : Local_ (R := R)).

(** What an action may do to the world: store operations and shared steps. *)
Definition guarantee w w' : Prop :=
  steps (w_db w) (w_db w') /\ rtc shared_step (w_shared w) (w_shared w').

(** What a worker owns of the counters: an append permit, and its place among the
    running workers. *)
Definition Owned : Type := bool * bool.

(** Taking and dropping the permit, and counting out; no other action changes the
    counters. *)
Definition owned_change (g g' : Owned) (sh sh' : DispatcherShared) : Prop :=
  match g, g' with
  | (false, true), (true, true) => admit_append sh = Some sh'
  | (true, true), (false, true) => sh' = drop_permit sh
  | (false, true), (false, false) => exists now, sh' = worker_stopped sh now
  | _, _ => g' = g /\ running_workers sh' = running_workers sh /\ in_flight sh' = in_flight sh
  end.

(** [failed]: the dispatcher is known not to run any more; [g]: what the worker owns
    now, [e]: what it owns at the end. *)
Fixpoint ok {A} (failed : bool) (g e : Owned) (p : Prog (R := R) A) : Prop :=
  match p with
  | Ret _ | Throw _ => g = e
  | Act f k => forall i s, (failed = true -> lifecycle (w_shared s.2) <> LRunning) ->
      exists failed' g', guarantee s.2 (f i s).2.2 /\
        (failed' = true -> lifecycle (w_shared (f i s).2.2) <> LRunning) /\
        owned_change g g' (w_shared s.2) (w_shared (f i s).2.2) /\
        ok failed' g' e (k (f i s).1)
  end.

Lemma guarantee_refl w : guarantee w w.
Proof. by split. Qed.

Lemma owned_same g sh sh' :
  running_workers sh' = running_workers sh -> in_flight sh' = in_flight sh ->
  owned_change g g sh sh'.
Proof. by destruct g as [[] []]. Qed.

Lemma owned_refl g sh : owned_change g g sh sh.
Proof. by apply owned_same. Qed.

Lemma ok_weaken {A} (p : Prog A) failed h e : ok false h e p -> ok failed h e p.
Proof.
  destruct p as [|x|B f k]; simpl; try done. intros Hp i s _. apply Hp. done.
Qed.

Lemma ok_bind {A B} (p : Prog A) (k : A -> Prog B) failed h e :
  ok failed h e p -> (forall a, ok false e e (k a)) -> ok failed h e (bind p k).
Proof.
  intros Hp Hk. revert failed h Hp. induction p as [a|x|C f c IH]; intros failed h Hp; simpl in *.
  - subst. apply ok_weaken, Hk.
  - done.
  - intros i s Hf. destruct (Hp i s Hf) as (f' & h' & Hg & Hf' & Hc & Hr).
    exists f', h'. eauto.
Qed.

Lemma drop_guarantee i s : guarantee s.2 (drop_permit_a i s).2.2.
Proof. split; [done|]. apply rtc_once, ss_drop. Qed.

Lemma ok_finally {A} (p : Prog A) failed h :
  ok failed h (true, true) p -> ok failed h (false, true) (finally p drop_permit_a).
Proof.
  revert failed h. induction p as [a|x|C f c IH]; intros failed h Hp; simpl in *.
  1, 2: subst; intros i s _; exists false, (false, true); split; [by apply (drop_guarantee i)|done].
  intros i s Hf. destruct (Hp i s Hf) as (f' & h' & Hg & Hf' & Hc & Hr). exists f', h'. eauto.
Qed.

Lemma ok_call (p : Prog unit) failed h e : ok failed h e p -> ok failed h e (call p).
Proof.
  revert failed h. induction p as [a|[]|C f c IH]; intros failed h Hp; simpl in *; try done.
  intros i s Hf. destruct (Hp i s Hf) as (f' & h' & Hg & Hf' & Hc & Hr). exists f', h'. eauto.
Qed.

(** ** The primitive actions *)

Lemma ok_read {A} (f : Input -> Local_ (R := R) -> A) failed h :
  ok failed h h (Act (fun i s => (f i s, s)) Ret).
Proof.
  intros i s Hf. exists false, h. split; [apply guarantee_refl|]. split; [done|].
  split; [apply owned_refl|done].
Qed.

Lemma ok_share f failed h :
  (forall sh, rtc shared_step sh (f sh)) ->
  (forall sh, running_workers (f sh) = running_workers sh /\ in_flight (f sh) = in_flight sh) ->
  ok failed h h (share (R := R) f).
Proof.
  intros Hs Hc i s _. exists false, h. split; [by split|]. split; [done|].
  split; [|done]. destruct (Hc (w_shared s.2)) as [Hr Hi]. by apply owned_same.
Qed.

Lemma ok_store_tx {A} (f : Input -> Db -> result TurnStoreError (A * Db)) failed h :
  (forall i db a db', f i db = Ok (a, db') -> steps db db') ->
  ok failed h h (store_tx (R := R) f).
Proof.
  intros Hs i s _. exists false, h.
  destruct (i_store_fault i) as [[[] e]|], (f i (w_db s.2)) as [[a db']|] eqn:E; simpl;
    (split; [split; simpl; eauto; done|split; [done|split; [apply owned_refl|done]]]).
Qed.

Lemma ok_ledger_tx {A} (f : Input -> EventLedger -> Db -> result LedgerError (A * Db)) failed h :
  (forall i l db a db', f i l db = Ok (a, db') -> steps db db') ->
  ok failed h h (ledger_tx (R := R) f).
Proof.
  intros Hs i s _. exists false, h.
  destruct (i_ledger_fault i) as [[[] e]|], (f i s.1 (w_db s.2)) as [[a db']|] eqn:E; simpl;
    (split; [split; simpl; eauto; done|split; [done|split; [apply owned_refl|done]]]).
Qed.

Lemma ok_store_read {A} (f : Db -> result TurnStoreError A) failed h :
  ok failed h h (store_read (R := R) f).
Proof. apply ok_store_tx. intros i db a db'. destruct (f db); intros; by simplify_eq. Qed.

Lemma ok_ledger_read {A} (f : EventLedger -> Db -> result LedgerError A) failed h :
  ok failed h h (ledger_read (R := R) f).
Proof. apply ok_ledger_tx. intros i l db a db'. destruct (f l db); intros; by simplify_eq. Qed.

Lemma ok_clock failed h : ok failed h h (clock (R := R)).
Proof. apply ok_read. Qed.

Lemma ok_load_shutdown failed h : ok failed h h (load_shutdown (R := R)).
Proof. apply (ok_read (fun _ s => shutdown (w_shared s.2))). Qed.

Lemma ok_ask {A} (f : R -> A) failed h : ok failed h h (ask f).
Proof. apply (ok_read (fun _ s => f (w_resolver s.2))). Qed.

(** [fail_dispatcher] raises the flag of a dispatcher it has marked as failed. *)
Lemma ok_fail_dispatcher t o f failed h : ok failed h h (fail_dispatcher_p (R := R) t o f).
Proof.
  unfold fail_dispatcher_p. apply ok_bind; [apply ok_clock|]. intros now.
  intros i s _. exists true, h.
  split; [split; [done|apply rtc_once, ss_fail]|]. split; [done|]. split; [by apply owned_same|].
  intros i' s' Hf. exists false, h. split; [split; [done|apply rtc_once, ss_flag; auto]|].
  split; [done|]. split; [by apply owned_same|done].
Qed.

Lemma ok_record_failure t o f failed h : ok failed h h (record_failure_p (R := R) t o f).
Proof.
  unfold record_failure_p. apply ok_bind; [apply ok_clock|]. intros now.
  apply ok_share; [intros; apply rtc_once, ss_record|done].
Qed.

Lemma ok_ret {A} (a : A) failed h : ok failed h h (Ret (I := Input) (S := Local_ (R := R)) a).
Proof. done. Qed.

Lemma ok_throw {A} x failed h : ok failed h h (Throw (I := Input) (S := Local_ (R := R)) (A := A) x).
Proof. done. Qed.

End Ok.

Create HintDb prog.
#[export] Hint Resolve ok_ret ok_throw ok_clock ok_load_shutdown ok_ask ok_store_read ok_ledger_read
  ok_fail_dispatcher ok_record_failure ok_call : prog.

(** Walk a program: its binds, its branches, its known parts. *)
Ltac prog_ok :=
  repeat first
    [ solve [auto with prog]
    | progress intros
    | apply ok_bind
    | match goal with
      | |- ok _ _ _ (match ?x with _ => _ end) => destruct x eqn:?
      | |- ok _ _ _ (if ?x then _ else _) => destruct x eqn:?
      end ].

(** ** The programs of a worker *)

Section Programs.
Context `{Env} `{ErrorText} {R : Type} `{!OutboxSignerResolver R}.
Context (config : OutboxDispatcherConfig) (store_instance worker_id : string).

Lemma ok_persist_failed claim f failed h : ok failed h h (persist_failed_p (R := R) claim f).
Proof. unfold persist_failed_p. prog_ok. Qed.

#[local] Hint Resolve ok_persist_failed : prog.

Lemma ok_quarantine claim f ex failed h : ok failed h h (quarantine_p (R := R) claim f ex).
Proof.
  unfold quarantine_p. prog_ok.
  - apply ok_store_tx. intros. apply rtc_once. by eapply st_quarantine.
  - apply ok_share; [intros; apply rtc_once, ss_dead_letter|done].
Qed.

Lemma release_steps db tn oid ow tk at_ av err (r : unit * Db) :
  match release_outbox db tn oid ow tk at_ av err with
  | Ok db' => Ok (tt, db') | Err e => Err e end = Ok r -> steps db r.2.
Proof.
  destruct (release_outbox _ _ _ _ _ _ _ _) eqn:E; intros; simplify_eq/=.
  apply rtc_once. by eapply st_release.
Qed.

Lemma ok_release claim f failed h : ok failed h h (release_p (R := R) config claim f).
Proof.
  unfold release_p. prog_ok.
  - apply ok_store_tx. intros i' db x d Hr. exact (release_steps _ _ _ _ _ _ _ _ (x, d) Hr).
  - apply ok_share; [intros; apply rtc_once, ss_retry|done].
Qed.

#[local] Hint Resolve ok_quarantine ok_release : prog.

Lemma ok_handle claim f failed h : ok failed h h (handle_claim_failure_p (R := R) config claim f).
Proof. unfold handle_claim_failure_p. prog_ok. Qed.

#[local] Hint Resolve ok_handle : prog.

Lemma ok_post_append claim f failed h :
  ok failed h h (handle_post_append_failure_p (R := R) config claim f).
Proof. unfold handle_post_append_failure_p. prog_ok. Qed.

Lemma ok_defer claim failed h : ok failed h h (defer_for_shutdown_p (R := R) claim).
Proof.
  unfold defer_for_shutdown_p. prog_ok.
  apply ok_store_tx. intros i' db x d Hr. exact (release_steps _ _ _ _ _ _ _ _ (x, d) Hr).
Qed.

Lemma ok_fail_with {A} (p : Prog (R := R) unit) failed h :
  ok failed h h p -> ok failed h h (fail_with (A := A) p).
Proof. unfold fail_with. intros. prog_ok. Qed.

#[local] Hint Resolve ok_post_append ok_defer ok_fail_with : prog.

Lemma ok_verify_prefix snapshot entries failed h :
  ok failed h h (verify_prefix_p (R := R) snapshot entries).
Proof.
  revert failed. induction entries as [|x l IH]; intros failed; cbn [verify_prefix_p]; [done|].
  prog_ok.
Qed.

Lemma ok_scope snapshot pk failed h : ok failed h h (verify_ledger_scope_p (R := R) snapshot pk).
Proof. unfold verify_ledger_scope_p. prog_ok. Qed.

#[local] Hint Resolve ok_verify_prefix ok_scope : prog.

Lemma ok_revalidate tn oid ow tk now pk failed h :
  ok failed h h (revalidate_p (R := R) store_instance tn oid ow tk now pk).
Proof. unfold revalidate_p. prog_ok. Qed.

Lemma append_signed_steps l db created kp ns et payload run parent key id db' :
  append_signed_idempotent_event_with_parent l db created kp ns et payload run parent key
  = Ok (id, db') -> steps db db'.
Proof.
  unfold append_signed_idempotent_event_with_parent, with_conn. intros Ha.
  destruct (ledger_validate_idempotency_key _); [|done].
  destruct (read_database_instance_id _); [|done].
  destruct (el_instance_id l); [case_bool_decide; [|done]|];
    (destruct (append_prepared_event _ _ _) as [[ins d]|] eqn:E; simplify_eq;
     apply rtc_once; by eapply st_append).
Qed.

Lemma ok_append_verified kp b failed h : ok failed h h (append_verified_p (R := R) kp b).
Proof.
  unfold append_verified_p. prog_ok. apply ok_ledger_tx. intros. by eapply append_signed_steps.
Qed.

Lemma ok_matches commit b failed h : ok failed h h (matches_binding_p (R := R) commit b).
Proof. unfold matches_binding_p. prog_ok. Qed.

#[local] Hint Resolve ok_revalidate ok_append_verified ok_matches : prog.

Lemma complete_in_tx_steps db s tn oid ow tk commit now res db' :
  complete_in_tx db s tn oid ow tk commit now = Ok (res, db') -> steps db db'.
Proof. intros. apply rtc_once. by eapply st_complete_tx. Qed.

Lemma ok_complete tn oid ow tk commit now failed h :
  ok failed h h (complete_p (R := R) store_instance tn oid ow tk commit now).
Proof.
  unfold complete_p. prog_ok. apply ok_store_tx. intros. by eapply complete_in_tx_steps.
Qed.

#[local] Hint Resolve ok_complete : prog.

Lemma ok_renew_and_revalidate claim ow tk pk failed h :
  ok failed h h (renew_and_revalidate (R := R) config store_instance claim ow tk pk).
Proof.
  unfold renew_and_revalidate, revalidate_failed. prog_ok.
  apply ok_store_tx. intros. apply rtc_once. by eapply st_renew.
Qed.

Lemma ok_defer_if_stopping claim failed h : ok failed h h (defer_if_stopping (R := R) claim).
Proof. unfold defer_if_stopping. prog_ok. Qed.

Lemma ok_budget claim m failed h : ok failed h h (budget_exhausted (R := R) config claim m).
Proof. unfold budget_exhausted, commit_window. prog_ok. Qed.

Lemma ok_mismatch claim m failed h : ok failed h h (signer_mismatch (R := R) config claim m).
Proof. unfold signer_mismatch. prog_ok. Qed.

Lemma ok_append_failed {A} claim e failed h :
  ok failed h h (append_failed (R := R) config (A := A) claim e).
Proof. unfold append_failed. prog_ok. Qed.

#[local] Hint Resolve ok_renew_and_revalidate ok_defer_if_stopping ok_budget ok_mismatch
  ok_append_failed : prog.

(** The permit is taken here, and given back however the scope is left. *)
Lemma ok_append_under_permit claim pk kp b failed :
  ok failed (false, true) (false, true) (append_under_permit (R := R) config claim pk kp b).
Proof.
  unfold append_under_permit, admit_append_p. cbn [bind]. intros i s _. cbn [fst snd].
  destruct (admit_append (w_shared s.2)) as [sh|] eqn:Ea; cbn [fst snd negb].
  - exists false, (true, true). split; [split; [done|]; apply rtc_once; by apply ss_admit|].
    split; [done|]. split; [done|]. apply ok_finally. prog_ok.
  - exists false, (false, true). split; [apply guarantee_refl|]. split; [done|].
    split; [apply owned_refl|]. prog_ok.
Qed.

#[local] Hint Resolve ok_append_under_permit : prog.

Lemma ok_sign_and_append claim p ow tk pk failed :
  ok failed (false, true) (false, true) (sign_and_append (R := R) config store_instance claim p ow tk pk).
Proof. unfold sign_and_append. prog_ok. Qed.

Lemma ok_finish claim ow tk commit failed h :
  ok failed h h (finish_claim (R := R) config store_instance claim ow tk commit).
Proof.
  unfold finish_claim. prog_ok. apply ok_share; [intros; apply rtc_once, ss_success|done].
Qed.

Lemma ok_ensure_window v ow tk pk failed h :
  ok failed h h (ensure_commit_window (R := R) config store_instance v ow tk pk).
Proof. unfold ensure_commit_window, commit_window. prog_ok. Qed.

#[local] Hint Resolve ok_sign_and_append ok_finish ok_ensure_window : prog.

Lemma ok_dispatch_claim claim failed :
  ok failed (false, true) (false, true) (dispatch_claim (R := R) config store_instance claim).
Proof. unfold dispatch_claim. prog_ok. Qed.

#[local] Hint Resolve ok_dispatch_claim : prog.

Lemma ok_for_tenants tenants : forall claimed failed,
  ok failed (false, true) (false, true) (for_tenants (R := R) config store_instance worker_id tenants claimed).
Proof.
  induction tenants as [|t l IH]; intros claimed failed; cbn [for_tenants]; [done|].
  prog_ok. apply ok_store_tx. intros. apply rtc_once. by eapply st_claim.
Qed.

Lemma ok_wait failed h : ok failed h h (wait_for_work (R := R)).
Proof. apply (ok_read (fun _ _ => tt)). Qed.

#[local] Hint Resolve ok_for_tenants ok_wait : prog.

Lemma ok_iteration failed :
  ok failed (false, true) (false, true) (iteration (R := R) config store_instance worker_id).
Proof. unfold iteration. prog_ok. Qed.

End Programs.

#[export] Hint Resolve ok_iteration : prog.

(** ** Reaping *)

Lemma swap_remove_split {A} (l1 l2 : list A) x :
  exists l2', swap_remove (l1 ++ x :: l2) (length l1) = l1 ++ l2' /\ l2' ≡ₚ l2.
Proof.
  unfold swap_remove. rewrite last_app_cons, length_app. simpl.
  replace (length l1 + S (length l2) - 1)%nat with (length l1 + length l2)%nat by lia.
  destruct (last l2) as [y|] eqn:El.
  - apply last_Some in El as [l3 ->]. rewrite last_cons, last_snoc.
    exists (y :: l3). rewrite length_app. simpl. split; [|by rewrite Permutation_app_comm].
    rewrite insert_app_r_alt, Nat.sub_diag by lia. simpl.
    replace (length l1 + (length l3 + 1))%nat with (length l1 + length (y :: l3))%nat
      by (simpl; lia).
    rewrite take_app_add. simpl. by rewrite take_app_length.
  - apply last_None in El as ->. simpl. exists [].
    rewrite insert_app_r_alt, Nat.sub_diag, Nat.add_0_r by lia. simpl.
    by rewrite take_app_length, app_nil_r.
Qed.

(** The loop over the handles behind [l1], which are known not to be finished. *)
Lemma reap_loop_spec {A} (fin : A -> option bool) fuel : forall l1 l2 panicked,
  (length l2 <= fuel)%nat ->
  let r := reap_loop fin fuel (length l1) (l1 ++ l2) panicked in
  r.1 ≡ₚ l1 ++ filter (fun w => fin w = None) l2 /\
  (r.2 = true <-> panicked = true \/ exists w, w ∈ l2 /\ fin w = Some true).
Proof.
  induction fuel as [|fuel IH]; intros l1 l2 panicked Hf; simpl.
  { destruct l2; [|simpl in Hf; lia]. split; [done|]. split; [auto|].
    intros [?|(w & Hw & _)]; [done|]. by apply not_elem_of_nil in Hw. }
  destruct l2 as [|x l2].
  { rewrite app_nil_r, lookup_ge_None_2 by lia. split; [by rewrite app_nil_r|].
    split; [auto|]. intros [?|(w & Hw & _)]; [done|]. by apply not_elem_of_nil in Hw. }
  rewrite list_lookup_middle by done. simpl in Hf. destruct (fin x) as [p|] eqn:Ex.
  - destruct (swap_remove_split l1 l2 x) as (l2' & -> & Hp).
    destruct (IH l1 l2' (panicked || p)) as [H1 H2];
      [rewrite (Permutation_length Hp); lia|]. cbv zeta in *. split.
    + rewrite filter_cons_False, H1 by congruence. by rewrite Hp.
    + rewrite H2, orb_true_iff. setoid_rewrite Hp. setoid_rewrite elem_of_cons. split.
      * intros [[?| ->]|(w & Hw & Hfw)]; [by left|right; exists x; auto|right; eauto].
      * intros [?|(w & [-> |Hw] & Hfw)]; [auto| |right; eauto].
        rewrite Ex in Hfw. injection Hfw as ->. auto.
  - replace (S (length l1)) with (length (l1 ++ [x])) by (rewrite length_app; simpl; lia).
    replace (l1 ++ x :: l2) with ((l1 ++ [x]) ++ l2) by (by rewrite <- app_assoc).
    destruct (IH (l1 ++ [x]) l2 panicked) as [H1 H2]; [lia|]. cbv zeta in *. split.
    + rewrite filter_cons_True, H1 by done. by rewrite <- app_assoc.
    + rewrite H2. setoid_rewrite elem_of_cons. split.
      * intros [?|(w & Hw & Hfw)]; eauto.
      * intros [?|(w & [-> |Hw] & Hfw)]; [auto|congruence|eauto].
Qed.

Lemma reap_spec {A} (fin : A -> option bool) l panicked :
  let r := reap_finished_workers fin l panicked in
  r.1 ≡ₚ filter (fun w => fin w = None) l /\
  (r.2 = true <-> panicked = true \/ exists w, w ∈ l /\ fin w = Some true).
Proof. apply (reap_loop_spec fin (length l) [] l panicked). lia. Qed.

(** ** Counting what the workers own *)

Definition total (f : Owned -> bool) (gs : list Owned) : Z :=
  foldr (fun g n => Z.b2z (f g) + n) 0 gs.

Lemma total_insert f gs j g g' :
  gs !! j = Some g -> total f (<[j := g']> gs) = total f gs - Z.b2z (f g) + Z.b2z (f g').
Proof.
  revert j. induction gs as [|x gs IH]; intros [|j] Hj; simplify_eq/=; [lia|].
  rewrite (IH j Hj). lia.
Qed.

Lemma total_bounds f gs : 0 <= total f gs <= Z.of_nat (length gs).
Proof. induction gs as [|x gs IH]; simpl; [lia|]. destruct (f x); simpl; lia. Qed.

Lemma total_one f gs j g : gs !! j = Some g -> Z.b2z (f g) <= total f gs.
Proof.
  revert j. induction gs as [|x gs IH]; intros [|j] Hj; simplify_eq/=.
  - pose proof (total_bounds f gs). lia.
  - specialize (IH j Hj). destruct (f x); simpl; lia.
Qed.

Lemma total_room f gs j g :
  gs !! j = Some g -> f g = false -> total f gs < Z.of_nat (length gs).
Proof.
  intros Hj Hf. revert j Hj. induction gs as [|x gs IH]; intros [|j] Hj; simplify_eq/=.
  - pose proof (total_bounds f gs). rewrite Hf. simpl. lia.
  - specialize (IH j Hj). destruct (f x); simpl; lia.
Qed.

Lemma total_mono f f' gs :
  (forall g, g ∈ gs -> f g = true -> f' g = true) -> total f gs <= total f' gs.
Proof.
  induction gs as [|x gs IH]; intros Hi; simpl; [lia|].
  assert (total f gs <= total f' gs) by (apply IH; set_solver).
  specialize (Hi x). destruct (f x); [rewrite Hi by set_solver|]; simpl; [lia|].
  destruct (f' x); simpl; lia.
Qed.

Section PoolInv.
Context `{Env} `{ErrorText} {R : Type} `{!OutboxSignerResolver R}.
Context (config : OutboxDispatcherConfig).
Implicit Types (w : World R) (po : Pool (R := R)).

(** ** One worker *)

(** What a thread owns, and that it will give it back. *)
Definition thread_ok (g : Owned) (sh : DispatcherShared) (st : wstate (R := R)) : Prop :=
  let rest {A} e (p : Prog A) := exists failed,
    (failed = true -> lifecycle sh <> LRunning) /\ ok failed g e p in
  match st with
  | WSpawned | WDone _ => g = (false, false)
  | WBarrier => g = (false, true)
  | WOpening p => rest (false, true) p
  | WRunning next p _ =>
      (exists inst wid, next = iteration config inst wid) /\ rest (false, true) p
  | WLeaving p _ => rest (false, false) p
  end.

Lemma thread_ok_stable g sh sh' st :
  rtc shared_step sh sh' -> thread_ok g sh st -> thread_ok g sh' st.
Proof.
  intros Hs Ht. destruct st; simpl in *; try done.
  - destruct Ht as (b & Hb & Hp). exists b. split; [|done]. eauto using not_running_steps.
  - destruct Ht as [Hn (b & Hb & Hp)]. split; [done|]. exists b. split; [|done].
    eauto using not_running_steps.
  - destruct Ht as (b & Hb & Hp). exists b. split; [|done]. eauto using not_running_steps.
Qed.

Lemma ok_guard_drop panicking failed :
  ok failed (false, true) (false, false) (guard_drop (R := R) panicking).
Proof.
  assert (Hs : forall failed, ok failed (false, true) (false, false)
    (let! now := clock (R := R) in share (fun s => worker_stopped s now))).
  { intros b i s _. exists false, (false, true). split; [apply guarantee_refl|].
    split; [done|]. split; [apply owned_refl|]. intros i' s' _. exists false, (false, false).
    split; [split; [done|apply rtc_once, ss_stopped]|]. split; [done|]. split; [|done].
    by eexists. }
  unfold guard_drop. destruct panicking; [|apply Hs].
  unfold fail_dispatcher_p. cbn [bind].
  intros i s _. exists false, (false, true). split; [apply guarantee_refl|].
  split; [done|]. split; [apply owned_refl|].
  intros i1 s1 _. exists true, (false, true).
  split; [split; [done|apply rtc_once, ss_fail]|]. split; [done|]. split; [by apply owned_same|].
  intros i2 s2 Hf. exists false, (false, true).
  split; [split; [done|apply rtc_once, ss_flag; auto]|]. split; [done|].
  split; [by apply owned_same|]. apply Hs.
Qed.

Lemma ok_open_store failed : ok failed (false, true) (false, true) (open_store (R := R)).
Proof.
  unfold open_store. prog_ok. apply (ok_read (fun i _ => (i_open i, i_fresh i))).
Qed.

(** The outcome of a worker's action. *)
Definition moved (g : Owned) w (st' : wstate (R := R)) w' : Prop :=
  exists g', thread_ok g' (w_shared w') st' /\ guarantee w w' /\
    (owned_change g g' (w_shared w) (w_shared w') \/
     g = (false, false) /\ g' = (false, true) /\ w_shared w' = worker_started (w_shared w)).

Lemma moved_stay g w st' : thread_ok g (w_shared w) st' -> moved g w st' w.
Proof.
  intros Ht. exists g. split; [done|]. split; [apply guarantee_refl|left; apply owned_refl].
Qed.

Lemma moved_leaving panicking b w :
  moved (false, true) w (WLeaving (guard_drop panicking) b) w.
Proof. apply moved_stay. exists false. split; [done|apply ok_guard_drop]. Qed.

Lemma moved_act g w (st' : wstate (R := R)) w' :
  (exists g', thread_ok g' (w_shared w') st' /\ guarantee w w' /\
     owned_change g g' (w_shared w) (w_shared w')) -> moved g w st' w'.
Proof. intros (g' & Ht & Hg & Hc). exists g'. auto. Qed.

Lemma thread_step g released i st w :
  thread_ok g (w_shared w) st ->
  let r := wstep config released i st w in moved g w r.1 r.2.
Proof.
  intros Ht. destruct st as [| |p|next p l|p pan|pan]; simpl in *.
  - exists (false, true). split; [done|]. split; [split; [done|apply rtc_once, ss_started]|auto].
  - subst g. destruct (shutdown _); [apply moved_leaving|].
    destruct released; apply moved_stay; [|done]. exists false. split; [done|apply ok_open_store].
  - destruct Ht as (b & Hb & Hp). destruct p as [[[inst wid]|]|x|B f k]; simpl in *;
      [subst g..|]; [|apply moved_leaving|apply moved_leaving|].
    + apply moved_stay. split; [by eexists _, _|]. exists false. split; [done|apply ok_iteration].
    + destruct (Hp i (new_ledger, w) Hb) as (b' & g' & Hg & Hb' & Hc & Hk).
      apply moved_act. exists g'. split; [by exists b'|done].
  - destruct Ht as [Hn (b & Hb & Hp)]. destruct p as [[]|x|B f k]; simpl in *;
      [subst g..|]; [|apply moved_leaving|apply moved_leaving|].
    + apply moved_stay. split; [done|]. destruct Hn as (inst & wid & ->). exists false.
      split; [done|apply ok_iteration].
    + destruct (Hp i (l, w) Hb) as (b' & g' & Hg & Hb' & Hc & Hk).
      apply moved_act. exists g'. split; [split; [done|by exists b']|done].
  - destruct Ht as (b & Hb & Hp). destruct p as [[]|x|B f k]; simpl in *;
      [by apply moved_stay..|].
    destruct (Hp i (new_ledger, w) Hb) as (b' & g' & Hg & Hb' & Hc & Hk).
    apply moved_act. exists g'. split; [by exists b'|done].
  - by apply moved_stay.
Qed.

End PoolInv.
