(* ===== verification/PoolTheorems.v ===== *)
(** * Theorems about the dispatcher's pool

    Whatever the interleaving: the pool's effect on the database is a run of the
    store's machine and its effect on the shared state a run of [shared_step]; the
    counters count the workers; a successful shutdown leaves no worker behind; and a
    worker that is told to stop stops. *)

From stdpp Require Import prelude gmap strings list relations.
From S2P Require Import Prelude.
From S2P Require Import Json.
From S2P Require Import TurnState.
From S2P Require Import TurnKernel.
From S2P Require Import Env.
From S2P Require Import Concrete.
From S2P Require Import Ingress.
From S2P Require Import Schema.
From S2P Require Import Database.
From S2P Require Import Samples.
From S2P Require Import Ledger.
From S2P Require Import LedgerChain.
From S2P Require Import Binding.
From S2P Require Import TurnRecords.
From S2P Require Import TurnStore.
From S2P Require Import Outbox.
From S2P Require Import Dispatch.
From S2P Require Import Dispatcher.
From S2P Require Import Machine.
From S2P Require Import StoreInv.
From S2P Require Import Scenario.
From S2P Require Import DispatcherTheorems.
From S2P Require Import OutboxTheorems.
From S2P Require Import Worker.
From S2P Require Import Pool.
From S2P Require Import PoolLemmas.
Local Open Scope prog_scope.
Local Open Scope Z_scope.

Lemma shutdown_sticky s s' : shared_step s s' -> shutdown s = true -> shutdown s' = true.
Proof.
  intros Hs Hd. destruct Hs as [|s' Ha| | | | |p n now text| | | | |now]; simpl; try done.
  - apply admit_append_Some in Ha as (_ & Hf & _). congruence.
  - by rewrite (proj1 (close_health_frame s p n now text)).
  - by rewrite (proj1 (worker_stopped_frame s now)).
Qed.

Lemma rtc_shutdown s s' : rtc shared_step s s' -> shutdown s = true -> shutdown s' = true.
Proof. induction 1; eauto using shutdown_sticky. Qed.

Section PoolInv.
Context `{Env} `{ErrorText} {R : Type} `{!OutboxSignerResolver R}.
Context (config : OutboxDispatcherConfig).
Implicit Types (w : World R) (po : Pool (R := R)).

(** The counters count what the threads own; every thread still has its handle or
    was reaped; what a return of [shutdown_before] stands for. *)
Record pool_inv po : Prop := {
  pi_owned : exists gs,
    Forall2 (fun g st => thread_ok config g (w_shared (po_world po)) st) gs (po_threads po) /\
    in_flight (w_shared (po_world po)) = total fst gs /\
    running_workers (w_shared (po_world po)) = total snd gs /\
    Forall (fun g => g.1 = true -> g.2 = true) gs;
  pi_small : Z.of_nat (length (po_threads po)) < u64_max;
  pi_handles : forall j st, po_threads po !! j = Some st -> j ∈ po_handles po \/
    exists b, st = WDone b /\ (b = true -> po_panicked po = true);
  pi_main : match po_main po with
            | MPolling _ | MClosing => shutdown (w_shared (po_world po)) = true
            | MReturned (Ok _) => (forall st, st ∈ po_threads po -> st = WDone false) /\
                                  lifecycle (w_shared (po_world po)) = LStopped
            | _ => True
            end
}.

Lemma owned_counts gs j g g' sh sh' :
  gs !! j = Some g -> Z.of_nat (length gs) < u64_max ->
  in_flight sh = total fst gs -> running_workers sh = total snd gs ->
  owned_change g g' sh sh' \/
  g = (false, false) /\ g' = (false, true) /\ sh' = worker_started sh ->
  in_flight sh' = total fst (<[j := g']> gs) /\
  running_workers sh' = total snd (<[j := g']> gs) /\
  ((g.1 = true -> g.2 = true) -> g'.1 = true -> g'.2 = true).
Proof.
  intros Hj Hlen Hf Hr Hc.
  cut ((in_flight sh' = total fst (<[j := g']> gs) /\
        running_workers sh' = total snd (<[j := g']> gs)) /\
       ((g.1 = true -> g.2 = true) -> g'.1 = true -> g'.2 = true)); [tauto|]. split.
  2: { destruct Hc as [Hc|(-> & -> & _)]; [|done].
       by destruct g as [[] []], g' as [[] []]; simpl in *; try destruct Hc. } rewrite !(total_insert _ _ _ _ g' Hj), <- Hf, <- Hr.
  pose proof (total_one fst _ _ _ Hj). pose proof (total_one snd _ _ _ Hj).
  pose proof (total_bounds fst gs). pose proof (total_bounds snd gs).
  destruct Hc as [Hc|(-> & -> & ->)].
  2: { pose proof (total_room snd _ _ _ Hj eq_refl). simpl.
       unfold u64_saturating_add. simpl. lia. }
  destruct g as [[] []], g' as [[] []]; simpl in *;
    try (destruct Hc as (E & ? & ?); (discriminate E || (simpl; lia))).
  - subst sh'. simpl. lia.
  - pose proof (total_room fst _ _ _ Hj eq_refl).
    unfold admit_append in Hc. destruct (_ || _); [done|]. injection Hc as <-. simpl.
    unfold u64_saturating_add. simpl. lia.
  - destruct Hc as [now ->]. unfold worker_stopped. destruct (_ && _); simpl; lia.
Qed.

Lemma threads_stable gs sh sh' (threads : list wstate) :
  rtc shared_step sh sh' ->
  Forall2 (fun g st => thread_ok config g sh st) gs threads ->
  Forall2 (fun g st => thread_ok config g sh' st) gs threads.
Proof.
  intros Hs Hf. eapply Forall2_impl; [exact Hf|]. intros g st. by apply thread_ok_stable.
Qed.

Lemma reap_lemma po j st :
  pool_inv po -> po_threads po !! j = Some st ->
  j ∈ (reap po).1 \/ exists b, st = WDone b /\ (b = true -> (reap po).2 = true).
Proof.
  intros Hi Hj. destruct (reap_spec (fun j => po_threads po !! j ≫= finished) (po_handles po)
    (po_panicked po)) as [H1 H2]. fold (reap po) in H1, H2.
  destruct (pi_handles _ Hi _ _ Hj) as [Hin|(b & -> & Hb)].
  - destruct (finished st) as [b|] eqn:Ef.
    + right. destruct st; simplify_eq/=. eexists. split; [done|]. intros ->.
      apply H2. right. exists j. by rewrite Hj.
    + left. rewrite H1. apply list_elem_of_filter. by rewrite Hj.
  - right. exists b. split; [done|]. intros E. apply H2. auto.
Qed.

(** A change of the shared state by another thread. *)
Lemma pool_inv_shared po w' main :
  pool_inv po -> rtc shared_step (w_shared (po_world po)) (w_shared w') ->
  in_flight (w_shared w') = in_flight (w_shared (po_world po)) ->
  running_workers (w_shared w') = running_workers (w_shared (po_world po)) ->
  match main with
  | MPolling _ | MClosing => shutdown (w_shared w') = true
  | MReturned (Ok _) => (forall st, st ∈ po_threads po -> st = WDone false) /\
                        lifecycle (w_shared w') = LStopped
  | _ => True
  end -> pool_inv (set_main (with_world po w') main).
Proof.
  intros [(gs & Hgs & Hf & Hr & Hp) Hl Hh Hm] Hs Ef Er Hmain. split; simpl; try done.
  exists gs. rewrite Ef, Er. split; [by eapply threads_stable|done].
Qed.

Lemma pool_inv_poll po : pool_inv po -> pool_inv (poll po).
Proof.
  intros Hi. pose proof (reap_lemma po) as Hreap. split; [apply Hi|apply Hi| |apply Hi].
  simpl. intros j st Hj. by apply Hreap.
Qed.

Lemma pool_inv_close po now text : pool_inv po -> po_main po = MClosing -> pool_inv (close po now text).
Proof.
  intros Hi Hm. pose proof (pi_main _ Hi) as Hsd. rewrite Hm in Hsd.
  pose proof (reap_lemma po) as Hreap. unfold close.
  destruct (reap po) as [hs pan] eqn:Er. cbn [fst snd] in Hreap.
  assert (Hcl := close_health_frame (w_shared (po_world po)) pan (length hs) now text).
  assert (Hrun : running_workers (close_health (w_shared (po_world po)) pan (length hs) now text)
    = running_workers (w_shared (po_world po))).
  { unfold close_health. destruct (_ || _); [done|]. by destruct (_ || _). }
  destruct Hcl as (_ & _ & Hfl & _). pose proof Hi as [(gs & Hgs & Hf & Hr & Hp) Hl Hh Hmn].
  split; cbn [po_world po_threads po_handles po_panicked po_main w_shared with_shared].
  - exists gs. rewrite Hfl, Hrun. split; [|done]. eapply threads_stable; [|done].
    apply rtc_once, ss_close. done.
  - done.
  - intros j st Hj. by eapply Hreap.
  - unfold shutdown_result. destruct pan; [done|]. case_bool_decide as Hn; [done|].
    case_bool_decide as Hf'; [done|]. destruct hs; [|simpl in Hn; lia]. split.
    + intros st [j Hj]%list_elem_of_lookup.
      destruct (Hreap j st Hi Hj) as [Hin|(b & -> & Hb)];
        [by apply not_elem_of_nil in Hin|].
      destruct b; [by specialize (Hb eq_refl)|done].
    + unfold close_health in *. simpl in *. destruct (_ || _) eqn:E; [done|].
      apply orb_false_iff in E as [E _]. apply negb_false_iff, bool_decide_eq_true in E. done.
Qed.

Lemma pool_inv_worker po j i st :
  pool_inv po -> po_threads po !! j = Some st ->
  let r := wstep config (po_released po) i st (po_world po) in
  pool_inv {| po_world := r.2; po_released := po_released po;
              po_threads := <[j := r.1]> (po_threads po); po_handles := po_handles po;
              po_panicked := po_panicked po; po_main := po_main po |} /\
  guarantee (po_world po) r.2.
Proof.
  intros [(gs & Hgs & Hf & Hr & Hp) Hl Hh Hm] Hj r.
  destruct (Forall2_lookup_r _ _ _ _ _ Hgs Hj) as (g & Hg & Ht).
  destruct (thread_step config g (po_released po) i st (po_world po) Ht)
    as (g' & Ht' & Hgu & Hc). fold r in Ht', Hgu, Hc. split; [|done].
  split; cbn [po_world po_threads po_handles po_panicked po_main].
  - exists (<[j := g']> gs). split.
    + apply Forall2_insert; [|done]. eapply threads_stable; [apply Hgu|done].
    + destruct (owned_counts gs j g g' (w_shared (po_world po)) (w_shared r.2) Hg) as (A & B & C); try done.
      { by rewrite (Forall2_length _ _ _ Hgs). }
      split; [done|]. split; [done|]. apply Forall_insert; [done|].
      apply C. rewrite Forall_forall in Hp. apply Hp. by eapply list_elem_of_lookup_2.
  - by rewrite length_insert.
  - intros j' st' Hj'. apply list_lookup_insert_Some in Hj' as [(<- & <- & _)|[Hne Hj']].
    + destruct (Hh _ _ Hj) as [?|(b & -> & Hb)]; [by left|right]. exists b. done.
    + eauto.
  - destruct (po_main po) as [|d| |[u|e]] eqn:Em; try done.
    + eapply rtc_shutdown; [apply Hgu|done].
    + eapply rtc_shutdown; [apply Hgu|done].
    + destruct Hm as [Hall Hlc].
      assert (st = WDone false) as -> by (apply Hall; by eapply list_elem_of_lookup_2).
      unfold r. simpl. split; [|done]. intros st' [j' Hj']%list_elem_of_lookup.
      apply list_lookup_insert_Some in Hj' as [(_ & <- & _)|[_ Hj']]; [done|].
      apply Hall. by eapply list_elem_of_lookup_2.
Qed.

(** Every step of the pool keeps the invariant, moves the database along the
    store's machine and the shared state along its own. *)
Lemma pool_step_ok po po' :
  pool_step config po po' -> pool_inv po ->
  pool_inv po' /\ guarantee (po_world po) (po_world po').
Proof.
  intros Hs Hi. pose proof (pi_main _ Hi) as Hm.
  destruct Hs as [j i st Hj|Hrel|db' Hst|r| |d Hr Hmn|d now Hp Hne Hlt|d now Hp Hx|now text Hp].
  - by apply pool_inv_worker.
  - split; [by destruct Hi|apply guarantee_refl].
  - split; [by destruct Hi|]. split; [by apply rtc_once|done].
  - split; [by destruct Hi|by split].
  - assert (Hsh : rtc shared_step (w_shared (po_world po)) (request_shutdown (w_shared (po_world po))))
      by (apply rtc_once, ss_shutdown).
    split; [|by split]. apply (pool_inv_shared po (shut (po_world po)) (po_main po)); try done.
    destruct (po_main po) as [|d| |[u|e]]; try done. destruct Hm as [Ha Hl]. split; [done|].
    simpl. rewrite Hl. by destruct (negb _).
  - split; [|split; [done|apply rtc_once, ss_shutdown]].
    by apply (pool_inv_shared po (shut (po_world po)) (MPolling d));
      [|apply rtc_once, ss_shutdown|..].
  - split; [by apply pool_inv_poll|apply guarantee_refl].
  - split; [|apply guarantee_refl]. rewrite Hp in Hm. destruct (pool_inv_poll _ Hi). by split.
  - split; [by apply pool_inv_close|]. unfold close. destruct (reap po). split; [done|].
    apply rtc_once, ss_close. by rewrite Hp in Hm.
Qed.

Lemma pool_steps_ok po po' :
  pool_steps config po po' -> pool_inv po ->
  pool_inv po' /\ guarantee (po_world po) (po_world po').
Proof.
  induction 1 as [po|po1 po2 po3 Hs _ IH]; intros Hi; [split; [done|apply guarantee_refl]|].
  destruct (pool_step_ok _ _ Hs Hi) as [Hi2 [G1 G2]]. destruct (IH Hi2) as [Hi3 [G3 G4]].
  split; [done|]. split; [by eapply steps_trans|by etrans].
Qed.

Lemma started_inv db r : config_validate config = Ok tt -> pool_inv (started_pool config db r).
Proof.
  intros Hc. unfold config_validate in Hc. case_bool_decide as Hn; [|done].
  split; simpl; [| | |done].
  - exists (replicate (Z.to_nat (worker_count config)) (false, false)). split; [|split].
    + apply Forall2_replicate. done.
    + by induction (Z.to_nat _).
    + split; [by induction (Z.to_nat _)|]. apply Forall_forall.
      intros g Hg%elem_of_replicate. by destruct Hg as [-> _].
  - rewrite length_replicate. unfold u64_max. lia.
  - intros j st Hj. left. apply elem_of_seq. apply lookup_lt_Some in Hj.
    rewrite length_replicate in Hj. lia.
Qed.

Lemma reachable_pool db r po :
  config_validate config = Ok tt -> pool_steps config (started_pool config db r) po ->
  pool_inv po /\ steps db (w_db (po_world po)) /\
  rtc shared_step initial_shared (w_shared (po_world po)).
Proof.
  intros Hc Hs. destruct (pool_steps_ok _ _ Hs (started_inv db r Hc)) as [Hi [Hg Hg']]. done.
Qed.


(** The threads that are not over. *)
Definition unfinished po : list (wstate (R := R)) :=
  filter (fun st => finished st = None) (po_threads po).

Lemma running_unfinished gs sh threads :
  Forall2 (fun g st => thread_ok config g sh st) gs threads ->
  total snd gs <= Z.of_nat (length (filter (fun st => finished st = None) threads)).
Proof.
  induction 1 as [|g st gs threads Hg _ IH]; [simpl; lia|].
  destruct (decide (finished st = None)) as [Hn|Hn].
  - rewrite filter_cons_True by done. simpl. destruct g as [[] []]; simpl; lia.
  - rewrite filter_cons_False by done. destruct st; try done. simpl in Hg. subst g. simpl. lia.
Qed.

Lemma pool_step_length po po' :
  pool_step config po po' -> length (po_threads po') = length (po_threads po).
Proof.
  destruct 1; try done; simpl; [by rewrite length_insert|]. unfold close. by destruct (reap po).
Qed.

Lemma pool_steps_length po po' :
  pool_steps config po po' -> length (po_threads po') = length (po_threads po).
Proof.
  induction 1 as [|a b c Hs _ IH]; [done|]. rewrite IH. by apply pool_step_length.
Qed.

Lemma counters_bounded db r po :
  config_validate config = Ok tt -> pool_steps config (started_pool config db r) po ->
  0 <= in_flight (w_shared (po_world po)) <= running_workers (w_shared (po_world po)) /\
  running_workers (w_shared (po_world po)) <= Z.of_nat (length (unfinished po)) <= worker_count config.
Proof.
  intros Hc Hs. destruct (reachable_pool db r po Hc Hs) as [Hi _].
  destruct (pi_owned _ Hi) as (gs & Hgs & -> & -> & Hp).
  pose proof (total_bounds fst gs). pose proof (running_unfinished _ _ _ Hgs).
  assert (total fst gs <= total snd gs)
    by (apply total_mono; rewrite Forall_forall in Hp; auto).
  assert (Hlen : length (po_threads po) = Z.to_nat (worker_count config)).
  { rewrite (pool_steps_length _ _ Hs). simpl. by rewrite length_replicate. }
  pose proof (length_filter (fun st : wstate => finished st = None) (po_threads po)).
  unfold unfinished. unfold config_validate in Hc. case_bool_decide as Hn; [|done]. lia.
Qed.

(**  The counters of the pool.  In every state of a running dispatcher the
    appends in flight are at most the running workers, these at most the threads
    that are not over, and these at most the configured ones: a permit is given
    back on every path out of the append, a panic included, and a worker is
    counted out exactly once. *)
Theorem pool_counters db r po :
  config_validate config = Ok tt -> pool_steps config (started_pool config db r) po ->
  0 <= in_flight (w_shared (po_world po)) <= running_workers (w_shared (po_world po)) /\
  running_workers (w_shared (po_world po)) <= Z.of_nat (length (unfinished po)) <= worker_count config.
Proof. apply counters_bounded. Qed.

(** C17.  A successful shutdown is quiescent.  Once [shutdown_before] has returned
    [Ok], every worker thread is over without a panic, no append is in flight, no
    worker is counted as running, the dispatcher reports stopped, and no later
    action of a worker changes anything. *)
Theorem shutdown_ok_quiescent db r po :
  config_validate config = Ok tt -> pool_steps config (started_pool config db r) po ->
  po_main po = MReturned (Ok tt) ->
  Forall (fun st => st = WDone false) (po_threads po) /\
  in_flight (w_shared (po_world po)) = 0 /\ running_workers (w_shared (po_world po)) = 0 /\
  lifecycle (w_shared (po_world po)) = LStopped /\
  forall j st i, po_threads po !! j = Some st ->
    wstep config (po_released po) i st (po_world po) = (st, po_world po).
Proof.
  intros Hc Hs Hm. destruct (counters_bounded db r po Hc Hs) as [Hf Hr].
  destruct (reachable_pool db r po Hc Hs) as [Hi _]. pose proof (pi_main _ Hi) as Hq.
  rewrite Hm in Hq. destruct Hq as [Hall Hl].
  assert (Hu : unfinished po = []).
  { unfold unfinished. destruct (filter _ _) as [|st l] eqn:E; [done|].
    assert (Hst : st ∈ filter (fun st : wstate => finished st = None) (po_threads po))
      by (rewrite E; set_solver).
    apply list_elem_of_filter in Hst as [Hn Hst]. by rewrite (Hall _ Hst) in Hn. }
  rewrite Hu in Hr. simpl in Hr. split; [by apply Forall_forall|]. split; [lia|].
  split; [lia|]. split; [done|]. intros j st i Hj.
  by rewrite (Hall st) by (by eapply list_elem_of_lookup_2).
Qed.

(** ** Workers stop *)

(** A worker that acts while the rest of the world does what it wants. *)
Fixpoint worker_run (released : bool) (ins : nat -> Input) (ws : nat -> World R) (n : nat)
    (st : wstate) : wstate :=
  match n with
  | O => st
  | S n' => worker_run released (fun m => ins (S m)) (fun m => ws (S m)) n'
              (wstep config released (ins O) st (ws O)).1
  end.

Definition stops (st : wstate (R := R)) : Prop := forall released ins ws,
  (forall n, shutdown (w_shared (ws n)) = true) ->
  exists n panicked, worker_run released ins ws n st = WDone panicked.

Lemma stops_step st :
  (forall released i w, shutdown (w_shared w) = true ->
     stops (wstep config released i st w).1) -> stops st.
Proof.
  intros Hn released ins ws Hs. destruct (Hn released (ins O) (ws O) (Hs O) released
    (fun m => ins (S m)) (fun m => ws (S m))) as (n & b & Hr); [intros; apply Hs|].
  exists (S n), b. done.
Qed.

Lemma stops_done b : stops (WDone b).
Proof. intros released ins ws _. by exists O, b. Qed.

Lemma stops_leaving p b : stops (WLeaving p b).
Proof.
  induction p as [a|x|B f k IH]; apply stops_step; intros; simpl; [apply stops_done..|apply IH].
Qed.

(** The next pass of the loop sees the flag. *)
Lemma stops_iteration inst wid l :
  let next := iteration config inst wid in stops (WRunning next next l).
Proof.
  intros next. apply stops_step. intros released i w Hs. subst next.
  unfold iteration at 2, load_shutdown. cbn [bind wstep fst snd]. rewrite Hs. cbn [fst].
  apply stops_step. intros. simpl. apply stops_leaving.
Qed.

Lemma stops_running inst wid p l : stops (WRunning (iteration config inst wid) p l).
Proof.
  revert l. induction p as [a|x|B f k IH]; intros l; apply stops_step; intros released i w Hs.
  - destruct a; simpl; [apply stops_iteration|apply stops_leaving].
  - apply stops_leaving.
  - apply IH.
Qed.

Lemma stops_opening p : stops (WOpening p).
Proof.
  induction p as [[[inst wid]|]|x|B f k IH]; apply stops_step; intros; simpl;
    [apply stops_running|apply stops_leaving..|apply IH].
Qed.

(** C18.  A worker told to stop stops.  From any state of any worker of a running
    dispatcher that has passed the start-up barrier, once the shutdown flag is up
    the worker's thread is over after finitely many of its own actions, whatever
    the database, the resolver and the other workers do between them and whichever
    of its calls fail. *)
Theorem worker_stops db r po j st :
  config_validate config = Ok tt -> pool_steps config (started_pool config db r) po ->
  po_threads po !! j = Some st -> st <> WSpawned -> st <> WBarrier ->
  forall released ins ws, (forall n, shutdown (w_shared (ws n)) = true) ->
  exists n panicked, worker_run released ins ws n st = WDone panicked.
Proof.
  intros Hc Hs Hj H1 H2. destruct (reachable_pool db r po Hc Hs) as [Hi _].
  destruct (pi_owned _ Hi) as (gs & Hgs & _).
  destruct (Forall2_lookup_r _ _ _ _ _ Hgs Hj) as (g & _ & Ht).
  destruct st as [| |p|next p l|p b|b]; try done.
  - apply stops_opening.
  - destruct Ht as [(inst & wid & ->) _]. apply stops_running.
  - apply stops_leaving.
  - apply stops_done.
Qed.

End PoolInv.

(** ** Worked instances *)

(** Worker [0] acts [n] times, with the inputs [ins]. *)
Section Drive.
Context `{Env} `{ErrorText} {R : Type} `{!OutboxSignerResolver R}.

Fixpoint drive (config : OutboxDispatcherConfig) (ins : nat -> Input) (n : nat)
    (po : Pool (R := R)) : Pool (R := R) :=
  match n with
  | O => po
  | S n' =>
      match po_threads po !! O with
      | None => po
      | Some st =>
          drive config (fun m => ins (S m)) n'
            (let r := wstep config (po_released po) (ins O) st (po_world po) in
             {| po_world := r.2; po_released := po_released po;
                po_threads := <[O := r.1]> (po_threads po); po_handles := po_handles po;
                po_panicked := po_panicked po; po_main := po_main po |})
      end
  end.

Lemma drive_steps config n : forall ins po, pool_steps config po (drive config ins n po).
Proof.
  induction n as [|n IH]; intros ins po; simpl; [done|].
  destruct (po_threads po !! O) as [st|] eqn:E; [|done].
  eapply rtc_l; [exact (ps_worker config po O (ins O) st E)|]. apply IH.
Qed.

Lemma drive_frame config n : forall ins po,
  po_main (drive config ins n po) = po_main po /\
  po_released (drive config ins n po) = po_released po.
Proof.
  induction n as [|n IH]; intros ins po; simpl; [done|].
  destruct (po_threads po !! O) as [st|]; [|done]. split;
    [by rewrite (proj1 (IH _ _))|by rewrite (proj2 (IH _ _))].
Qed.

End Drive.

#[local] Instance sc_text : ErrorText :=
  {| store_text := fun _ => "store error"; ledger_text := fun _ => "ledger error";
     signer_text := fun _ => "signer error" |}.

Definition sc_config : OutboxDispatcherConfig :=
  {| worker_count := 1; tenant_scan_limit := 128;
     lease_duration := lease_duration default_config;
     poll_interval := poll_interval default_config;
     initial_retry_delay := initial_retry_delay default_config;
     maximum_retry_delay := maximum_retry_delay default_config;
     minimum_commit_window := minimum_commit_window default_config;
     shutdown_timeout := shutdown_timeout default_config;
     retry_jitter_percent := 20; maximum_attempts := 8 |}.

(** The clock stands at second 3, and no call fails. *)
Definition sc_input (_ : nat) : Input :=
  {| i_now := at_second 3; i_fresh := "u-1"; i_created_at := "now";
     i_open := Ok sample_instance; i_store_fault := None; i_ledger_fault := None |}.

Definition sc_resolver : InMemoryOutboxSignerResolver := resolver_new [sample_keypair].

(** The admitted turn's row is waiting; the worker starts, passes the barrier, and
    works for sixty actions. *)
Definition sc_pool0 : Pool := started_pool sc_config sc_db1 sc_resolver.
Definition sc_pool1 : Pool := release (drive sc_config sc_input 1 sc_pool0).
Definition sc_pool2 : Pool := drive sc_config sc_input 60 sc_pool1.

(** Shutdown: the worker ends, the thread is reaped. *)
Definition sc_pool3 : Pool := set_main (with_world sc_pool2 (shut (po_world sc_pool2))) (MPolling 0).
Definition sc_pool4 : Pool := drive sc_config sc_input 20 sc_pool3.
Definition sc_pool5 : Pool := close (set_main (poll sc_pool4) MClosing) 0 (fun _ => "").

Lemma sc_pool1_steps : pool_steps sc_config sc_pool0 sc_pool1.
Proof.
  eapply rtc_r; [apply drive_steps|]. apply ps_release.
  assert (E : po_threads (drive sc_config sc_input 1 sc_pool0) = [WBarrier]) by reflexivity.
  rewrite E. intros Hin. by apply list_elem_of_singleton in Hin.
Qed.

Lemma sc_pool2_steps : pool_steps sc_config sc_pool0 sc_pool2.
Proof. etrans; [exact sc_pool1_steps|apply drive_steps]. Qed.

Lemma sc_pool2_facts :
  successes (w_shared (po_world sc_pool2)) = 1 /\
  (or_status <$> outbox (w_db (po_world sc_pool2)) !! ("tenant-1", sc_id)) = Some "delivered".
Proof. vm_compute. auto. Qed.


Lemma pool_counters_witness :
  running_workers (w_shared (po_world sc_pool2)) = 1 /\
  0 <= in_flight (w_shared (po_world sc_pool2)) <= 1.
Proof.
  destruct (pool_counters sc_config sc_db1 sc_resolver sc_pool2 eq_refl sc_pool2_steps)
    as [Hf _].
  assert (Hr : running_workers (w_shared (po_world sc_pool2)) = 1)
    by (vm_compute; reflexivity).
  split; [exact Hr|]. rewrite Hr in Hf. exact Hf.
Defined.

Lemma sc_pool4_steps : pool_steps sc_config sc_pool0 sc_pool4.
Proof.
  etrans; [|apply drive_steps]. eapply rtc_r; [exact sc_pool2_steps|].
  destruct (drive_frame sc_config 60 sc_input sc_pool1) as [Hm Hr].
  apply ps_shutdown; [exact Hr|]. unfold sc_pool2. rewrite Hm.
  unfold sc_pool1, release. cbn [po_main].
  rewrite (proj1 (drive_frame sc_config 1 sc_input sc_pool0)). exact I.
Qed.

Lemma sc_pool5_steps : pool_steps sc_config sc_pool0 sc_pool5.
Proof.
  eapply rtc_r; [|apply ps_close; reflexivity]. eapply rtc_r; [exact sc_pool4_steps|].
  apply (ps_exit sc_config sc_pool4 0 1); [|right; lia].
  exact (proj1 (drive_frame sc_config 20 sc_input sc_pool3)).
Qed.

Lemma shutdown_ok_quiescent_witness :
  po_main sc_pool5 = MReturned (Ok tt) /\ in_flight (w_shared (po_world sc_pool5)) = 0.
Proof.
  assert (Hm : po_main sc_pool5 = MReturned (Ok tt)) by (vm_compute; reflexivity).
  split; [exact Hm|].
  exact (proj1 (proj2 (shutdown_ok_quiescent sc_config sc_db1 sc_resolver sc_pool5 eq_refl
                         sc_pool5_steps Hm))).
Defined.

(** The worker of [sc_pool1], past the barrier, opening its store. *)
Definition sc_pool1' : Pool := drive sc_config sc_input 1 sc_pool1.

Lemma worker_stops_witness :
  exists n panicked, worker_run (R := InMemoryOutboxSignerResolver) sc_config true sc_input
    (fun _ => shut (po_world sc_pool1')) n (WOpening open_store) = WDone panicked.
Proof.
  refine (worker_stops sc_config sc_db1 sc_resolver sc_pool1' 0 (WOpening open_store) eq_refl
    _ eq_refl _ _ true sc_input (fun _ => shut (po_world sc_pool1')) _).
  - etrans; [exact sc_pool1_steps|apply drive_steps].
  - discriminate.
  - discriminate.
  - reflexivity.
Defined.
