(* ===== verification/Startup.v ===== *)
(** * The start-up barrier of the dispatcher
    ([crates/zaion-runtime/src/turn_store/dispatcher.rs], [OutboxDispatcher::start]
    and the head of [worker_loop])

    The threads of a start, at the granularity of the mutex
    [startup_ready_workers], the condition variable [startup_ready_condvar] and the
    flags: taking and releasing the lock, testing the predicate of [wait_while],
    falling asleep (which gives up the lock), waking, storing the released flag, and
    [notify_all], which wakes the threads that are asleep at that moment.  A
    condition variable that wakes a thread without a notification is not assumed. *)

From stdpp Require Import prelude list relations.
From S2P Require Import Prelude.
Local Open Scope nat_scope.

(** What a worker is at in its barrier block. *)
Inductive bpc : Type :=
| BLock      (* [startup_ready_workers.lock()] *)
| BReady     (* [*ready += 1; notify_all()] *)
| BTest      (* the predicate of [wait_while] *)
| BSleep     (* about to wait, still holding the lock *)
| BAsleep
| BWoken     (* about to take the lock again *)
| BUnlock    (* [drop(guard)] *)
| BDone.

(** What [start] is at, after it spawned the workers. *)
Inductive mpc : Type :=
| MLock | MTest | MSleep | MAsleep | MWoken | MUnlock
| MStore     (* [startup_released.store(true)] *)
| MNotify    (* [startup_ready_condvar.notify_all()] *)
| MStarted.  (* [Ok(Self { .. })] *)

#[export] Instance bpc_eq_dec : EqDecision bpc.
Proof. solve_decision. Defined.
#[export] Instance mpc_eq_dec : EqDecision mpc.
Proof. solve_decision. Defined.

Record Barrier : Type := {
  b_locked : bool;
  b_ready : nat;
  b_released : bool;
  b_shutdown : bool;
  b_workers : list bpc;
  b_main : mpc
}.

Definition barrier_init (n : nat) : Barrier :=
  {| b_locked := false; b_ready := 0; b_released := false; b_shutdown := false;
     b_workers := replicate n BLock; b_main := MLock |}.

Definition wake (p : bpc) : bpc := match p with BAsleep => BWoken | _ => p end.
Definition wake_main (p : mpc) : mpc := match p with MAsleep => MWoken | _ => p end.

(** One action of worker [j]; [None] when it has to wait. *)
Definition act_worker (j : nat) (s : Barrier) : option Barrier :=
  let go locked p := Some
    {| b_locked := locked; b_ready := b_ready s; b_released := b_released s;
       b_shutdown := b_shutdown s; b_workers := <[j := p]> (b_workers s);
       b_main := b_main s |} in
  match b_workers s !! j with
  | Some BLock => if b_locked s then None else go true BReady
  | Some BReady => Some
      {| b_locked := true; b_ready := S (b_ready s); b_released := b_released s;
         b_shutdown := b_shutdown s; b_workers := <[j := BTest]> (wake <$> b_workers s);
         b_main := wake_main (b_main s) |}
  | Some BTest =>
      go true (if negb (b_released s) && negb (b_shutdown s) then BSleep else BUnlock)
  | Some BSleep => go false BAsleep
  | Some BWoken => if b_locked s then None else go true BTest
  | Some BUnlock => go false BDone
  | Some BAsleep | Some BDone | None => None
  end.

(** One action of [start], with [n] configured workers. *)
Definition act_main (n : nat) (s : Barrier) : option Barrier :=
  let go locked p := Some
    {| b_locked := locked; b_ready := b_ready s; b_released := b_released s;
       b_shutdown := b_shutdown s; b_workers := b_workers s; b_main := p |} in
  match b_main s with
  | MLock | MWoken => if b_locked s then None else go true MTest
  | MTest => go true (if bool_decide (b_ready s < n) then MSleep else MUnlock)
  | MSleep => go false MAsleep
  | MUnlock => go false MStore
  | MStore => Some
      {| b_locked := b_locked s; b_ready := b_ready s; b_released := true;
         b_shutdown := b_shutdown s; b_workers := b_workers s; b_main := MNotify |}
  | MNotify => Some
      {| b_locked := b_locked s; b_ready := b_ready s; b_released := b_released s;
         b_shutdown := b_shutdown s; b_workers := wake <$> b_workers s; b_main := MStarted |}
  | MAsleep | MStarted => None
  end.

(** [request_shutdown] of a started dispatcher: it raises the flag and notifies
    another condition variable, [wake_condvar]. *)
Definition request_stop (s : Barrier) : Barrier :=
  {| b_locked := b_locked s; b_ready := b_ready s; b_released := b_released s;
     b_shutdown := true; b_workers := b_workers s; b_main := b_main s |}.

Inductive bstep (n : nat) (s : Barrier) : Barrier -> Prop :=
| bs_worker j s' : act_worker j s = Some s' -> bstep n s s'
| bs_main s' : act_main n s = Some s' -> bstep n s s'
| bs_stop : b_main s = MStarted -> bstep n s (request_stop s).

Definition bsteps (n : nat) : Barrier -> Barrier -> Prop := rtc (bstep n).

(** A schedule: [None] is [start], [Some j] worker [j]. *)
Fixpoint schedule (n : nat) (tids : list (option nat)) (s : Barrier) : option Barrier :=
  match tids with
  | [] => Some s
  | t :: tids' =>
      match (match t with None => act_main n s | Some j => act_worker j s end) with
      | Some s' => schedule n tids' s'
      | None => None
      end
  end.

Lemma schedule_steps n tids : forall s s', schedule n tids s = Some s' -> bsteps n s s'.
Proof.
  induction tids as [|t l IH]; intros s s' Hs; simpl in Hs; [by simplify_eq|].
  destruct t as [j|].
  - destruct (act_worker j s) as [s1|] eqn:E; [|done].
    eapply rtc_l; [by eapply bs_worker|by apply IH].
  - destruct (act_main n s) as [s1|] eqn:E; [|done].
    eapply rtc_l; [by eapply bs_main|by apply IH].
Qed.

(** ** The barrier holds *)

Definition before_ready (p : bpc) : bool := match p with BLock | BReady => true | _ => false end.
Definition past_wait (p : bpc) : bool := match p with BUnlock | BDone => true | _ => false end.
Definition passed (m : mpc) : bool :=
  match m with MUnlock | MStore | MNotify | MStarted => true | _ => false end.

(** The workers that are ready are counted; the count of a passed barrier is
    complete; who is past the wait was let go. *)
Record barrier_inv (n : nat) (s : Barrier) : Prop := {
  bi_count : b_ready s + length (filter (fun p => before_ready p = true) (b_workers s)) = n;
  bi_passed : passed (b_main s) = true -> n <= b_ready s;
  bi_released : b_released s = true -> passed (b_main s) = true;
  bi_past : forall p, p ∈ b_workers s -> past_wait p = true ->
    b_released s = true \/ b_shutdown s = true;
  bi_stop : b_shutdown s = true -> b_main s = MStarted
}.

Lemma filter_wake (l : list bpc) :
  length (filter (fun p => before_ready p = true) (wake <$> l))
  = length (filter (fun p => before_ready p = true) l).
Proof.
  induction l as [|p l IH]; [done|]. rewrite fmap_cons, !filter_cons.
  destruct p; simpl; rewrite ?IH; done.
Qed.

Lemma filter_insert_same (l : list bpc) j p q :
  l !! j = Some p -> before_ready p = before_ready q ->
  length (filter (fun p => before_ready p = true) (<[j := q]> l))
  = length (filter (fun p => before_ready p = true) l).
Proof.
  revert j. induction l as [|x l IH]; intros [|j] Hj Hb; simplify_eq/=.
  - rewrite !filter_cons, Hb. by destruct (decide _).
  - rewrite !filter_cons. specialize (IH j Hj Hb). destruct (decide _); simpl; lia.
Qed.

Lemma filter_insert_ready (l : list bpc) j q :
  l !! j = Some BReady -> before_ready q = false ->
  S (length (filter (fun p => before_ready p = true) (<[j := q]> l)))
  = length (filter (fun p => before_ready p = true) l).
Proof.
  revert j. induction l as [|x l IH]; intros [|j] Hj Hb; simplify_eq/=.
  - rewrite !filter_cons. by destruct q.
  - rewrite !filter_cons. specialize (IH j Hj Hb). destruct (decide _); simpl; lia.
Qed.

(** A worker's move within the block. *)
Lemma barrier_inv_move n s j p q locked :
  barrier_inv n s -> b_workers s !! j = Some p -> before_ready p = before_ready q ->
  (past_wait q = true -> past_wait p = true \/ b_released s = true \/ b_shutdown s = true) ->
  barrier_inv n {| b_locked := locked; b_ready := b_ready s; b_released := b_released s;
                   b_shutdown := b_shutdown s; b_workers := <[j := q]> (b_workers s);
                   b_main := b_main s |}.
Proof.
  intros [Hc Hp Hr Hw Hs] Hj Hb Hq. split; simpl; try done.
  - by rewrite (filter_insert_same _ _ _ _ Hj Hb).
  - intros p' [i Hi]%list_elem_of_lookup Hpast.
    apply list_lookup_insert_Some in Hi as [(_ & <- & _)|[_ Hi]].
    + destruct (Hq Hpast) as [H1|H1]; [|done]. eapply Hw; [by eapply list_elem_of_lookup_2|done].
    + eapply Hw; [by eapply list_elem_of_lookup_2|done].
Qed.

Lemma barrier_inv_worker n s j s' :
  act_worker j s = Some s' -> barrier_inv n s -> barrier_inv n s'.
Proof.
  unfold act_worker. intros Ha Hi. destruct (b_workers s !! j) as [p|] eqn:Hj; [|done].
  destruct p; try done.
  - destruct (b_locked s); [done|]. injection Ha as <-. by eapply barrier_inv_move.
  - injection Ha as <-. destruct Hi as [Hc Hp Hr Hw Hs]. split; simpl.
    + assert (Hj' : (wake <$> b_workers s) !! j = Some BReady)
        by (by rewrite list_lookup_fmap, Hj).
      pose proof (filter_insert_ready _ _ BTest Hj' eq_refl) as Hf. rewrite filter_wake in Hf.
      lia.
    + intros Hm. enough (n <= b_ready s) by lia. apply Hp. by destruct (b_main s).
    + intros Hrel. specialize (Hr Hrel). by destruct (b_main s).
    + intros p [i Hpi]%list_elem_of_lookup Hpast.
      apply list_lookup_insert_Some in Hpi as [(_ & <- & _)|[_ Hpi]]; [done|].
      rewrite list_lookup_fmap in Hpi. destruct (b_workers s !! i) as [p0|] eqn:E0; [|done].
      injection Hpi as <-. apply (Hw p0); [by eapply list_elem_of_lookup_2|]. by destruct p0.
    + intros Hsd. specialize (Hs Hsd). by rewrite Hs.
  - injection Ha as <-. eapply barrier_inv_move; [done..| |].
    + by destruct (_ && _).
    + destruct (b_released s); [auto|]. destruct (b_shutdown s); [auto|]. done.
  - injection Ha as <-. by eapply barrier_inv_move.
  - destruct (b_locked s); [done|]. injection Ha as <-. by eapply barrier_inv_move.
  - injection Ha as <-. eapply barrier_inv_move; eauto.
Qed.

Lemma barrier_inv_main n s s' : act_main n s = Some s' -> barrier_inv n s -> barrier_inv n s'.
Proof.
  unfold act_main. intros Ha [Hc Hp Hr Hw Hs].
  assert (Hns : b_main s <> MStarted -> b_shutdown s = false)
    by (intros; destruct (b_shutdown s); [tauto|done]).
  destruct (b_main s) eqn:Em; try done;
    rewrite ?(Hns ltac:(done)) in *; simpl in *;
    try (destruct (b_locked s); [done|]); injection Ha as <-;
    (split; simpl; rewrite ?filter_wake; try done).
  - case_bool_decide; [done|]. intros _. lia.
  - intros Hrel. by specialize (Hr Hrel).
  - intros p Hp' Hpast. destruct (Hw p Hp' Hpast); auto.
  - intros p [i Hi]%list_elem_of_lookup Hpast. rewrite list_lookup_fmap in Hi.
    destruct (b_workers s !! i) as [p0|] eqn:E0; [|done]. injection Hi as <-.
    apply (Hw p0); [by eapply list_elem_of_lookup_2|]. by destruct p0.
Qed.

Lemma barrier_inv_step n s s' : bstep n s s' -> barrier_inv n s -> barrier_inv n s'.
Proof.
  destruct 1 as [j s' Ha|s' Ha|Hm]; [by eapply barrier_inv_worker|by eapply barrier_inv_main|].
  intros [Hc Hp Hr Hw Hs]. split; simpl; auto.
Qed.

Lemma barrier_inv_init n : barrier_inv n (barrier_init n).
Proof.
  split; simpl; try done.
  - induction n; [done|]. simpl replicate. rewrite filter_cons_True by done. simpl. lia.
  - intros p [-> _]%elem_of_replicate. done.
Qed.

Lemma barrier_inv_reach n s : bsteps n (barrier_init n) s -> barrier_inv n s.
Proof.
  intros Hs. assert (Hi := barrier_inv_init n). revert Hi.
  induction Hs as [|a b c Hab _ IH]; eauto using barrier_inv_step.
Qed.

(** The start-up barrier.  [start] returns, and any worker goes on to open its
    store, only when every configured worker has reported ready (or, for a worker
    of a dispatcher that is already told to stop, when [start] has returned). *)
Theorem startup_barrier n s :
  bsteps n (barrier_init n) s ->
  (b_main s = MStarted \/ exists j, b_workers s !! j = Some BDone) ->
  b_ready s = n /\ Forall (fun p => before_ready p = false) (b_workers s).
Proof.
  intros Hs Hgo. destruct (barrier_inv_reach _ _ Hs) as [Hc Hp Hr Hw Hst].
  assert (Hn : n <= b_ready s).
  { destruct Hgo as [Hm|[j Hj]]; [apply Hp; by rewrite Hm|].
    apply list_elem_of_lookup_2 in Hj. destruct (Hw _ Hj eq_refl) as [Hrel|Hsd]; [auto|].
    apply Hp. by rewrite (Hst Hsd). }
  assert (Hz : length (filter (fun p => before_ready p = true) (b_workers s)) = 0) by lia.
  split; [lia|]. apply Forall_forall. intros p Hin. destruct (before_ready p) eqn:E; [|done].
  exfalso. assert (Hf : p ∈ filter (fun p => before_ready p = true) (b_workers s))
    by (by apply list_elem_of_filter). destruct (filter _ _); [|done].
  by apply not_elem_of_nil in Hf.
Qed.

(** ** The lost wake-up *)

(** The released flag is stored, and its notification sent, without the lock under
    which the workers test it.  Worker [0] is woken by worker [1]'s notification,
    tests the flag, and is about to sleep again when [start] stores and notifies. *)
Definition lost_schedule : list (option nat) :=
  [Some 0; Some 0; Some 0; Some 0;           (* worker 0 reports ready and sleeps *)
   None; None; None;                         (* [start] sees one ready worker, sleeps *)
   Some 1; Some 1; Some 1; Some 1;           (* worker 1 reports ready, wakes both, sleeps *)
   None; None; None;                         (* [start] sees two ready workers, unlocks *)
   Some 0; Some 0;                           (* worker 0 finds the flag down *)
   None; None;                               (* [start] stores the flag, notifies, returns *)
   Some 0;                                   (* worker 0 sleeps *)
   Some 1; Some 1; Some 1].                  (* worker 1 goes on *)

Definition lost : Barrier := default (barrier_init 2) (schedule 2 lost_schedule (barrier_init 2)).

(** [start] has returned and nobody is left to notify. *)
Definition abandoned (s : Barrier) : Prop :=
  b_main s = MStarted /\ b_workers s = [BAsleep; BDone].

Lemma abandoned_step s s' : bstep 2 s s' -> abandoned s -> abandoned s'.
Proof.
  intros Hs [Hm Hw]. destruct Hs as [j s' Ha|s' Ha|_].
  - unfold act_worker in Ha. rewrite Hw in Ha. by destruct j as [|[|j]].
  - unfold act_main in Ha. by rewrite Hm in Ha.
  - done.
Qed.

(** C40.  A worker can be lost at start-up.  With two workers (the default) there is
    an interleaving after which [start] has returned successfully with the barrier
    released, while one worker sleeps in the barrier, and nothing that the
    dispatcher does afterwards, a shutdown included, ever wakes it. *)
Theorem startup_lost_wakeup :
  bsteps 2 (barrier_init 2) lost /\ b_main lost = MStarted /\ b_released lost = true /\
  forall s, bsteps 2 lost s -> b_workers s !! 0 = Some BAsleep.
Proof.
  split; [by apply (schedule_steps 2 lost_schedule)|]. split; [done|]. split; [done|].
  intros s Hs. assert (Hl : abandoned lost) by done. revert Hl.
  induction Hs as [s|a b c Hab _ IH]; intros Hl; [by rewrite (proj2 Hl)|].
  eapply IH, abandoned_step; done.
Qed.

Lemma startup_barrier_witness : b_ready lost = 2 /\ b_main lost = MStarted.
Proof.
  split; [|reflexivity].
  refine (proj1 (startup_barrier 2 lost _ (or_introl eq_refl))).
  exact (schedule_steps 2 lost_schedule (barrier_init 2) lost eq_refl).
Defined.
