(* ===== verification/TurnProof.v ===== *)
(** * Evidence graphs and turn proofs
    ([crates/zaion-runtime/src/evidence_graph.rs],
    [crates/zaion-runtime/src/turn_proof.rs])

    The answer-local evidence graph with its canonical order and hash, and the turn
    proof with its lineage and hash.  The derived serde encoders of the proof and
    the decoders of both are the fields of [ProofCodec]; the JSON objects the code
    writes out with [json!] are written out here.  A float is its bits. *)

From stdpp Require Import prelude strings list sorting.
From S2P Require Import Prelude.
From S2P Require Import Json.
From S2P Require Import TurnKernel.
From S2P Require Import Env.
From S2P Require Import Concrete.
Local Open Scope Z_scope.

(** ** Evidence graphs *)

Inductive EvidenceNodeKind : Type :=
| ProviderTrace | ContextPack | MemoryAtom | ToolReceipt | LedgerEventNode | AnswerTraceSpan.

Record EvidenceNode : Type := {
  en_id : string;
  en_kind : EvidenceNodeKind;
  en_evidence_hash : string
}.

Inductive EvidenceEdgeKind : Type := UsedBy | DerivedFrom.

Record EvidenceEdge : Type := {
  ee_from : string;
  ee_to : string;
  ee_kind : EvidenceEdgeKind
}.

#[export] Instance EvidenceNodeKind_eq_dec : EqDecision EvidenceNodeKind.
Proof. solve_decision. Defined.
#[export] Instance EvidenceNode_eq_dec : EqDecision EvidenceNode.
Proof. solve_decision. Defined.
#[export] Instance EvidenceEdgeKind_eq_dec : EqDecision EvidenceEdgeKind.
Proof. solve_decision. Defined.
#[export] Instance EvidenceEdge_eq_dec : EqDecision EvidenceEdge.
Proof. solve_decision. Defined.

Record EvidenceSubgraph : Type := {
  eg_schema : string;
  eg_answer_id : string;
  eg_nodes : list EvidenceNode;
  eg_edges : list EvidenceEdge;
  eg_graph_hash : string
}.

(** The derived orders: variants in declaration order, fields left to right. *)
Definition node_kind_rank (k : EvidenceNodeKind) : Z :=
  match k with
  | ProviderTrace => 0 | ContextPack => 1 | MemoryAtom => 2 | ToolReceipt => 3
  | LedgerEventNode => 4 | AnswerTraceSpan => 5
  end.

Definition edge_kind_rank (k : EvidenceEdgeKind) : Z :=
  match k with UsedBy => 0 | DerivedFrom => 1 end.

Definition then_compare (c d : comparison) : comparison :=
  match c with Eq => d | _ => c end.

Definition node_compare (a b : EvidenceNode) : comparison :=
  then_compare (String.compare (en_id a) (en_id b))
    (then_compare (Z.compare (node_kind_rank (en_kind a)) (node_kind_rank (en_kind b)))
       (String.compare (en_evidence_hash a) (en_evidence_hash b))).

Definition edge_compare (a b : EvidenceEdge) : comparison :=
  then_compare (String.compare (ee_from a) (ee_from b))
    (then_compare (String.compare (ee_to a) (ee_to b))
       (Z.compare (edge_kind_rank (ee_kind a)) (edge_kind_rank (ee_kind b)))).

Definition le_of {A} (cmp : A -> A -> comparison) (a b : A) : bool :=
  match cmp a b with Gt => false | _ => true end.

(** [Vec::dedup]: of equal neighbours only the first stays. *)
Fixpoint dedup {A} `{EqDecision A} (l : list A) : list A :=
  match l with
  | x :: (y :: _) as l' => if bool_decide (x = y) then dedup l' else x :: dedup l'
  | _ => l
  end.

Definition sort_dedup {A} `{EqDecision A} (cmp : A -> A -> comparison) (l : list A)
  : list A := dedup (order_by (le_of cmp) l).

Definition node_kind_str (k : EvidenceNodeKind) : string :=
  match k with
  | ProviderTrace => "provider_trace" | ContextPack => "context_pack"
  | MemoryAtom => "memory_atom" | ToolReceipt => "tool_receipt"
  | LedgerEventNode => "ledger_event" | AnswerTraceSpan => "answer_trace_span"
  end.

Definition edge_kind_str (k : EvidenceEdgeKind) : string :=
  match k with UsedBy => "used_by" | DerivedFrom => "derived_from" end.

Definition node_value (n : EvidenceNode) : Value :=
  VObject [("id", VString (en_id n)); ("kind", VString (node_kind_str (en_kind n)));
           ("evidence_hash", VString (en_evidence_hash n))].

Definition edge_value (e : EvidenceEdge) : Value :=
  VObject [("from", VString (ee_from e)); ("to", VString (ee_to e));
           ("kind", VString (edge_kind_str (ee_kind e)))].

(** ** Turn proofs *)

Record TurnContextLayer : Type := {
  cl_layer : Z;
  cl_label : string;
  cl_token_estimate : Z
}.

Record TurnCompressionEvidence : Type := {
  ce_schema : string;
  ce_compression_requested : bool;
  ce_was_compressed : bool;
  ce_original_turns : Z;
  ce_compressed_turns : Z;
  ce_turns_pruned : Z;
  ce_original_tokens : Z;
  ce_compressed_tokens : Z;
  ce_token_budget : Z;
  ce_trigger_threshold : Z;
  ce_summary_hash : string;
  ce_summary_strategy : string;
  ce_pruned_tool_outputs : Z;
  ce_protected_head_turns : Z;
  ce_protected_tail_turns : Z;
  ce_protected_tail_tokens : Z;
  ce_summary_budget_tokens : Z;
  ce_evidence_hash : string
}.

Record TurnCanonicalUsageEvidence : Type := {
  us_input_tokens : Z;
  us_output_tokens : Z;
  us_cache_read_tokens : Z;
  us_cache_write_tokens : Z;
  us_reasoning_tokens : Z;
  us_request_count : Z
}.

Record TurnCostEvidence : Type := {
  co_schema : string;
  co_provider : string;
  co_model : string;
  co_billing_provider : string;
  co_billing_mode : string;
  co_usage : TurnCanonicalUsageEvidence;
  co_cost_status : string;
  co_cost_source : string;
  co_estimated_cost_usd : option Z;
  co_actual_cost_usd : option Z;
  co_session_estimated_cost_usd : Z;
  co_session_actual_cost_usd : option Z;
  co_pricing_version : option string;
  co_rollup_event_id : option string;
  co_notes : list string;
  co_evidence_hash : string
}.

Record TurnRuntimeMemoryEvidence : Type := {
  rm_schema : string;
  rm_memory_enabled : bool;
  rm_memory_context_bytes : Z;
  rm_memory_context_hash : string;
  rm_fenced_context : bool;
  rm_evidence_hash : string
}.

Record TurnCapabilityManifest : Type := {
  cm_provider : string;
  cm_model : string;
  cm_max_tokens : option Z;
  cm_temperature : option Z;
  cm_memory_enabled : bool;
  cm_mcp_enabled : bool;
  cm_cache_enabled : bool;
  cm_smart_route_enabled : bool;
  cm_compression_requested : bool;
  cm_tools_requested : list string;
  cm_boundaries : list string
}.

Record TurnProofInput : Type := {
  pi_principal_id : string;
  pi_workspace_id : string;
  pi_project_id : string;
  pi_channel_id : string;
  pi_thread_id : string;
  pi_namespace_key : string;
  pi_user_event_id : string;
  pi_output_event_id : string;
  pi_omni_route_event_id : option string;
  pi_omni_route_authority_hash : option string;
  pi_namespace_transition_event_id : option string;
  pi_identity_contract : string;
  pi_capability_manifest : TurnCapabilityManifest;
  pi_context_pack_id : option string;
  pi_context_layers : list TurnContextLayer;
  pi_memory_atom_ids : list string;
  pi_compression_evidence : option TurnCompressionEvidence;
  pi_cost_evidence : option TurnCostEvidence;
  pi_runtime_memory_evidence : option TurnRuntimeMemoryEvidence;
  pi_evidence_graph_hash : option string;
  pi_tokens_in : Z;
  pi_tokens_out : Z;
  pi_tool_call_count : Z;
  pi_tool_receipt_ids : list string
}.

Record TurnProof : Type := {
  tp_schema_version : Z;
  tp_proof_id : string;
  tp_principal_id : string;
  tp_workspace_id : string;
  tp_project_id : string;
  tp_channel_id : string;
  tp_thread_id : string;
  tp_namespace_key : string;
  tp_user_event_id : string;
  tp_output_event_id : string;
  tp_omni_route_event_id : option string;
  tp_omni_route_authority_hash : option string;
  tp_namespace_transition_event_id : option string;
  tp_event_lineage : list string;
  tp_identity_contract_hash : string;
  tp_capability_manifest_hash : string;
  tp_context_pack_id : option string;
  tp_context_digest : string;
  tp_context_layers : list TurnContextLayer;
  tp_memory_atom_ids : list string;
  tp_compression_evidence : option TurnCompressionEvidence;
  tp_compression_evidence_hash : option string;
  tp_cost_evidence : option TurnCostEvidence;
  tp_cost_evidence_hash : option string;
  tp_runtime_memory_evidence : option TurnRuntimeMemoryEvidence;
  tp_runtime_memory_evidence_hash : option string;
  tp_evidence_graph_hash : option string;
  tp_capability_manifest : TurnCapabilityManifest;
  tp_tokens_in : Z;
  tp_tokens_out : Z;
  tp_tool_call_count : Z;
  tp_tool_receipt_ids : list string;
  tp_tool_receipt_count : Z;
  tp_proof_hash : string
}.

(** The serde code derived for these types, as JSON values and texts. *)
Class ProofCodec : Type := {
  (** [serde_json::from_value]; an error is its text. *)
  evidence_graph_from_value : Value -> option EvidenceSubgraph;
  turn_proof_from_value : Value -> result string TurnProof;
  (** [serde_json::to_value] of the evidence structs inside [json!] *)
  layers_value : list TurnContextLayer -> Value;
  compression_value : option TurnCompressionEvidence -> Value;
  cost_value : option TurnCostEvidence -> Value;
  runtime_memory_value : option TurnRuntimeMemoryEvidence -> Value;
  (** [serde_json::to_vec] *)
  manifest_bytes : TurnCapabilityManifest -> string;
  turn_proof_bytes : TurnProof -> string
}.

Section Proofs.
Context `{Env}.

Definition stable_hash_bytes (bytes : string) : string := hex_encode (sha256 bytes).

(** [stable_hash_json] of a JSON value. *)
Definition stable_hash_json (v : Value) : string := stable_hash_bytes (json_to_string v).

Definition with_hash (kind : EvidenceNodeKind) (id evidence_hash : string) : EvidenceNode :=
  {| en_id := id; en_kind := kind; en_evidence_hash := evidence_hash |}.

Definition reference (kind : EvidenceNodeKind) (id : string) : EvidenceNode :=
  with_hash kind id (stable_hash_json
    (VObject [("kind", VString (node_kind_str kind)); ("id", VString id)])).

(** [EvidenceSubgraph::expected_hash] *)
Definition expected_hash (schema answer_id : string) (nodes : list EvidenceNode)
    (edges : list EvidenceEdge) : string :=
  stable_hash_json (VObject [("schema", VString schema); ("answer_id", VString answer_id);
                             ("nodes", VArray (map node_value nodes));
                             ("edges", VArray (map edge_value edges))]).

Definition verify_hash (g : EvidenceSubgraph) : bool :=
  negb (bool_decide (eg_graph_hash g = ""))
  && bool_decide (eg_graph_hash g
       = expected_hash (eg_schema g) (eg_answer_id g) (eg_nodes g) (eg_edges g)).

(** [EvidenceSubgraph::new] *)
Definition subgraph_new (answer_id : string) (nodes : list EvidenceNode)
    (edges : list EvidenceEdge) : EvidenceSubgraph :=
  let nodes := sort_dedup node_compare nodes in
  let edges := sort_dedup edge_compare edges in
  let schema := "zaion.evidence_subgraph.v1" in
  {| eg_schema := schema; eg_answer_id := answer_id; eg_nodes := nodes; eg_edges := edges;
     eg_graph_hash := expected_hash schema answer_id nodes edges |}.

Record AnswerEvidenceInput : Type := {
  ae_response_hash : string;
  ae_context_pack_id : option string;
  ae_memory_atom_ids : list string;
  ae_tool_receipt_ids : list string;
  ae_source_ledger_event_ids : list string;
  ae_output_ledger_event_id : string;
  ae_answer_trace_span_hashes : list string
}.

(** The references [add_input_reference] adds, as kinds and node identifiers. *)
Definition input_references (input : AnswerEvidenceInput) : list (EvidenceNodeKind * string) :=
  map (fun id => (ContextPack, "context-pack:" +:+ id)) (option_list (ae_context_pack_id input))
  ++ map (fun id => (MemoryAtom, "memory-atom:" +:+ id)) (ae_memory_atom_ids input)
  ++ map (fun id => (ToolReceipt, "tool-receipt:" +:+ id)) (ae_tool_receipt_ids input)
  ++ map (fun id => (LedgerEventNode, "ledger-event:" +:+ id)) (ae_source_ledger_event_ids input).

Definition build_answer_evidence_subgraph (input : AnswerEvidenceInput) : EvidenceSubgraph :=
  let response := "provider-response:" +:+ ae_response_hash input in
  let refs := input_references input in
  let output := if bool_decide (ae_output_ledger_event_id input = "") then []
                else ["ledger-event:" +:+ ae_output_ledger_event_id input] in
  let spans := ae_answer_trace_span_hashes input in
  subgraph_new response
    ([with_hash ProviderTrace response (ae_response_hash input)]
     ++ map (fun r => reference r.1 r.2) refs
     ++ map (reference LedgerEventNode) output
     ++ map (fun h => with_hash AnswerTraceSpan ("answer-span:" +:+ h) h) spans)
    (map (fun r => {| ee_from := r.2; ee_to := response; ee_kind := UsedBy |}) refs
     ++ map (fun id => {| ee_from := id; ee_to := response; ee_kind := DerivedFrom |}) output
     ++ map (fun h => {| ee_from := "answer-span:" +:+ h; ee_to := response;
                         ee_kind := DerivedFrom |}) spans).

(** [runtime_memory_evidence_hash] *)
Definition runtime_memory_evidence_hash (schema : string) (memory_enabled : bool)
    (memory_context_bytes : Z) (memory_context_hash : string) (fenced_context : bool)
  : string :=
  stable_hash_json (VObject [("schema", VString schema);
    ("memory_enabled", VBool memory_enabled);
    ("memory_context_bytes", VNumber memory_context_bytes);
    ("memory_context_hash", VString memory_context_hash);
    ("fenced_context", VBool fenced_context)]).

(** [TurnRuntimeMemoryEvidence::from_context] *)
Definition from_context (memory_enabled : bool) (memory_context : string)
  : option TurnRuntimeMemoryEvidence :=
  if negb memory_enabled || bool_decide (memory_context = "") then None
  else
    let schema := "zaion.runtime_memory_evidence.v1" in
    let bytes := str_len memory_context in
    let hash := stable_hash_bytes memory_context in
    let fenced := str_contains "<memory-context>" memory_context
                  && str_contains "</memory-context>" memory_context in
    Some {| rm_schema := schema; rm_memory_enabled := memory_enabled;
            rm_memory_context_bytes := bytes; rm_memory_context_hash := hash;
            rm_fenced_context := fenced;
            rm_evidence_hash := runtime_memory_evidence_hash schema memory_enabled bytes hash
                                  fenced |}.

Context `{ProofCodec}.

(** The lineage a proof declares. *)
Definition lineage (user : string) (route transition : option string) (output : string)
    (receipts : list string) : list string :=
  [user] ++ option_list route ++ option_list transition ++ [output] ++ receipts.

Definition with_proof_hash (p : TurnProof) (h : string) : TurnProof :=
  {| tp_schema_version := tp_schema_version p; tp_proof_id := tp_proof_id p;
     tp_principal_id := tp_principal_id p; tp_workspace_id := tp_workspace_id p;
     tp_project_id := tp_project_id p; tp_channel_id := tp_channel_id p;
     tp_thread_id := tp_thread_id p; tp_namespace_key := tp_namespace_key p;
     tp_user_event_id := tp_user_event_id p; tp_output_event_id := tp_output_event_id p;
     tp_omni_route_event_id := tp_omni_route_event_id p;
     tp_omni_route_authority_hash := tp_omni_route_authority_hash p;
     tp_namespace_transition_event_id := tp_namespace_transition_event_id p;
     tp_event_lineage := tp_event_lineage p;
     tp_identity_contract_hash := tp_identity_contract_hash p;
     tp_capability_manifest_hash := tp_capability_manifest_hash p;
     tp_context_pack_id := tp_context_pack_id p; tp_context_digest := tp_context_digest p;
     tp_context_layers := tp_context_layers p; tp_memory_atom_ids := tp_memory_atom_ids p;
     tp_compression_evidence := tp_compression_evidence p;
     tp_compression_evidence_hash := tp_compression_evidence_hash p;
     tp_cost_evidence := tp_cost_evidence p; tp_cost_evidence_hash := tp_cost_evidence_hash p;
     tp_runtime_memory_evidence := tp_runtime_memory_evidence p;
     tp_runtime_memory_evidence_hash := tp_runtime_memory_evidence_hash p;
     tp_evidence_graph_hash := tp_evidence_graph_hash p;
     tp_capability_manifest := tp_capability_manifest p; tp_tokens_in := tp_tokens_in p;
     tp_tokens_out := tp_tokens_out p; tp_tool_call_count := tp_tool_call_count p;
     tp_tool_receipt_ids := tp_tool_receipt_ids p;
     tp_tool_receipt_count := tp_tool_receipt_count p; tp_proof_hash := h |}.

(** [stable_hash_json(&proof)] *)
Definition proof_hash_of (p : TurnProof) : string := stable_hash_bytes (turn_proof_bytes p).

Definition build_turn_proof (input : TurnProofInput) : TurnProof :=
  let context_digest := stable_hash_json (VObject
    [("context_layers", layers_value (pi_context_layers input));
     ("memory_atom_ids", VArray (map VString (pi_memory_atom_ids input)));
     ("compression_evidence", compression_value (pi_compression_evidence input));
     ("cost_evidence", cost_value (pi_cost_evidence input));
     ("runtime_memory_evidence", runtime_memory_value (pi_runtime_memory_evidence input))]) in
  let proof_seed := pi_principal_id input +:+ ":" +:+ pi_namespace_key input +:+ ":"
    +:+ pi_user_event_id input +:+ ":" +:+ pi_output_event_id input in
  let proof :=
    {| tp_schema_version := 1;
       tp_proof_id := "turn-proof-" +:+ str_prefix 16 (stable_hash_bytes proof_seed);
       tp_principal_id := pi_principal_id input; tp_workspace_id := pi_workspace_id input;
       tp_project_id := pi_project_id input; tp_channel_id := pi_channel_id input;
       tp_thread_id := pi_thread_id input; tp_namespace_key := pi_namespace_key input;
       tp_user_event_id := pi_user_event_id input;
       tp_output_event_id := pi_output_event_id input;
       tp_omni_route_event_id := pi_omni_route_event_id input;
       tp_omni_route_authority_hash := pi_omni_route_authority_hash input;
       tp_namespace_transition_event_id := pi_namespace_transition_event_id input;
       tp_event_lineage := lineage (pi_user_event_id input) (pi_omni_route_event_id input)
         (pi_namespace_transition_event_id input) (pi_output_event_id input)
         (pi_tool_receipt_ids input);
       tp_identity_contract_hash := stable_hash_bytes (pi_identity_contract input);
       tp_capability_manifest_hash :=
         stable_hash_bytes (manifest_bytes (pi_capability_manifest input));
       tp_context_pack_id := pi_context_pack_id input; tp_context_digest := context_digest;
       tp_context_layers := pi_context_layers input;
       tp_memory_atom_ids := pi_memory_atom_ids input;
       tp_compression_evidence := pi_compression_evidence input;
       tp_compression_evidence_hash := ce_evidence_hash <$> pi_compression_evidence input;
       tp_cost_evidence := pi_cost_evidence input;
       tp_cost_evidence_hash := co_evidence_hash <$> pi_cost_evidence input;
       tp_runtime_memory_evidence := pi_runtime_memory_evidence input;
       tp_runtime_memory_evidence_hash := rm_evidence_hash <$> pi_runtime_memory_evidence input;
       tp_evidence_graph_hash := pi_evidence_graph_hash input;
       tp_capability_manifest := pi_capability_manifest input;
       tp_tokens_in := pi_tokens_in input; tp_tokens_out := pi_tokens_out input;
       tp_tool_call_count := pi_tool_call_count input;
       tp_tool_receipt_ids := pi_tool_receipt_ids input;
       tp_tool_receipt_count := Z.of_nat (length (pi_tool_receipt_ids input));
       tp_proof_hash := "" |} in
  with_proof_hash proof (proof_hash_of proof).

Definition verify_turn_proof_hash (p : TurnProof) : bool :=
  negb (bool_decide (tp_proof_hash p = ""))
  && bool_decide (proof_hash_of (with_proof_hash p "") = tp_proof_hash p).

End Proofs.

(** * Theorems about evidence graphs and turn proofs *)

(** ** Canonical order *)

(** A comparison of a total preorder. *)
Record cmp_laws {A} (cmp : A -> A -> comparison) : Prop := {
  cmp_anti : forall a b, cmp b a = CompOpp (cmp a b);
  cmp_trans : forall a b c, cmp a b = Lt -> cmp b c = Lt -> cmp a c = Lt;
  cmp_eq : forall a b c, cmp a b = Eq -> cmp a c = cmp b c
}.

Lemma string_cmp_laws {A} (f : A -> string) :
  cmp_laws (fun a b => String.compare (f a) (f b)).
Proof.
  split.
  - intros a b. apply String.compare_antisym.
  - intros a b c. apply str_lt_trans.
  - intros a b c Hab. apply String.compare_eq_iff in Hab. by rewrite Hab.
Qed.

Lemma Z_cmp_laws {A} (f : A -> Z) : cmp_laws (fun a b => Z.compare (f a) (f b)).
Proof.
  split.
  - intros a b. apply Z.compare_antisym.
  - intros a b c. rewrite !Z.compare_lt_iff. lia.
  - intros a b c. rewrite Z.compare_eq_iff. by intros ->.
Qed.

Lemma then_cmp_laws {A} (f g : A -> A -> comparison) :
  cmp_laws f -> cmp_laws g -> cmp_laws (fun a b => then_compare (f a b) (g a b)).
Proof.
  intros [Fa Ft Fe] [Ga Gt_ Ge]. split; unfold then_compare.
  - intros a b. rewrite (Fa a b), (Ga a b). by destruct (f a b).
  - intros a b c H1 H2. destruct (f a b) eqn:E1; try done.
    + rewrite (Fe _ _ c E1). destruct (f b c); try done. by eapply Gt_.
    + destruct (f b c) eqn:E2; try done.
      * assert (E3 : f c b = Eq) by (by rewrite (Fa b c), E2).
        assert (E4 : f b a = Gt) by (by rewrite (Fa a b), E1).
        rewrite <- (Fe _ _ a E3) in E4. by rewrite (Fa c a), E4.
      * by rewrite (Ft _ _ _ E1 E2).
  - intros a b c H1. destruct (f a b) eqn:E1; try done.
    rewrite (Fe _ _ c E1). destruct (f b c); try done. by apply Ge.
Qed.

Lemma node_cmp_laws : cmp_laws node_compare.
Proof.
  apply then_cmp_laws; [apply (string_cmp_laws en_id)|].
  apply then_cmp_laws; [apply (Z_cmp_laws (fun n => node_kind_rank (en_kind n)))|].
  apply (string_cmp_laws en_evidence_hash).
Qed.

Lemma edge_cmp_laws : cmp_laws edge_compare.
Proof.
  apply then_cmp_laws; [apply (string_cmp_laws ee_from)|].
  apply then_cmp_laws; [apply (string_cmp_laws ee_to)|].
  apply (Z_cmp_laws (fun e => edge_kind_rank (ee_kind e))).
Qed.

Lemma node_compare_eq a b : node_compare a b = Eq -> a = b.
Proof.
  unfold node_compare, then_compare. destruct a as [i k h], b as [i' k' h']. simpl.
  destruct (String.compare i i') eqn:E1; try done. apply String.compare_eq_iff in E1 as ->.
  destruct (Z.compare _ _) eqn:E2; try done. apply Z.compare_eq_iff in E2.
  intros E3%String.compare_eq_iff. subst. f_equal. by destruct k, k'.
Qed.

Lemma edge_compare_eq a b : edge_compare a b = Eq -> a = b.
Proof.
  unfold edge_compare, then_compare. destruct a as [i k h], b as [i' k' h']. simpl.
  destruct (String.compare i i') eqn:E1; try done. apply String.compare_eq_iff in E1 as ->.
  destruct (String.compare k k') eqn:E2; try done. apply String.compare_eq_iff in E2 as ->.
  intros E3%Z.compare_eq_iff. f_equal. by destruct h, h'.
Qed.

Section Canonical.
Context {A : Type} `{EqDecision A} (cmp : A -> A -> comparison).
Context (Hcmp : cmp_laws cmp) (Heq : forall a b, cmp a b = Eq -> a = b).
Implicit Types (x y z a b : A) (l : list A).

Lemma cmp_refl a : cmp a a = Eq.
Proof. pose proof (cmp_anti _ Hcmp a a). by destruct (cmp a a). Qed.

Lemma elem_of_dedup x l : x ∈ dedup l <-> x ∈ l.
Proof.
  induction l as [|a l IH]; [done|]. destruct l as [|b l]; [done|].
  change (dedup (a :: b :: l)) with
    (if bool_decide (a = b) then dedup (b :: l) else a :: dedup (b :: l)).
  case_bool_decide as Hab.
  - subst. rewrite IH. set_solver.
  - rewrite !elem_of_cons, IH, elem_of_cons. done.
Qed.

(** Sorted without equal neighbours is strictly sorted. *)
Lemma dedup_strict l :
  StronglySorted (fun x y => le_of cmp x y = true) l ->
  StronglySorted (fun x y => cmp x y = Lt) (dedup l).
Proof.
  induction l as [|a l IH]; intros Hs; [constructor|].
  inversion Hs as [|? ? Hl Ha]; subst. destruct l as [|b l]; [repeat constructor|].
  change (dedup (a :: b :: l)) with
    (if bool_decide (a = b) then dedup (b :: l) else a :: dedup (b :: l)).
  case_bool_decide as Hab; [by apply IH|]. constructor; [by apply IH|].
  apply Forall_forall. intros x Hx. apply (proj1 (elem_of_dedup _ _)) in Hx.
  inversion Hl as [|? ? _ Hb]; subst. rewrite Forall_forall in Ha, Hb.
  assert (Hlt : cmp a b = Lt).
  { specialize (Ha b ltac:(set_solver)). unfold le_of in Ha.
    destruct (cmp a b) eqn:E; [by apply Heq in E|done|done]. }
  apply elem_of_cons in Hx as [->|Hx]; [done|]. specialize (Hb x Hx). unfold le_of in Hb.
  destruct (cmp b x) eqn:E; [apply Heq in E; by subst|by eapply cmp_trans|done].
Qed.

Lemma strict_unique l1 : forall l2,
  StronglySorted (fun x y => cmp x y = Lt) l1 -> StronglySorted (fun x y => cmp x y = Lt) l2 ->
  (forall x, x ∈ l1 <-> x ∈ l2) -> l1 = l2.
Proof.
  induction l1 as [|a l1 IH]; intros l2 H1 H2 Hx.
  - destruct l2 as [|b l2]; [done|]. specialize (Hx b). set_solver.
  - inversion H1 as [|? ? S1 F1]; subst. destruct l2 as [|b l2]; [specialize (Hx a); set_solver|].
    inversion H2 as [|? ? S2 F2]; subst. rewrite Forall_forall in F1, F2.
    assert (Hno : forall x y, cmp x y = Lt -> cmp y x = Lt -> False).
    { intros x y E1 E2. rewrite (cmp_anti _ Hcmp x y), E1 in E2. done. }
    assert (a = b) as ->.
    { pose proof (proj1 (Hx a) ltac:(set_solver)) as Ha.
      pose proof (proj2 (Hx b) ltac:(set_solver)) as Hb.
      apply elem_of_cons in Ha as [->|Ha]; [done|]. apply elem_of_cons in Hb as [->|Hb]; [done|].
      exfalso. eapply Hno; eauto. }
    assert (Hself : cmp b b <> Lt) by (by rewrite cmp_refl).
    f_equal. apply IH; [done..|]. intros x. specialize (Hx x). rewrite !elem_of_cons in Hx.
    split; intros Hin.
    + destruct (proj1 Hx ltac:(auto)) as [->|?]; [|done]. by destruct Hself; apply F1.
    + destruct (proj2 Hx ltac:(auto)) as [->|?]; [|done]. by destruct Hself; apply F2.
Qed.

Lemma le_of_total x y : le_of cmp x y = false -> le_of cmp y x = true.
Proof. unfold le_of. rewrite (cmp_anti _ Hcmp x y). by destruct (cmp x y). Qed.

Lemma le_of_trans x y z : le_of cmp x y = true -> le_of cmp y z = true -> le_of cmp x z = true.
Proof.
  unfold le_of. intros H1 H2. destruct (cmp x y) eqn:E1; [|destruct (cmp y z) eqn:E2|]; try done.
  - by rewrite (cmp_eq _ Hcmp _ _ z E1).
  - apply Heq in E2. subst. by rewrite E1.
  - by rewrite (cmp_trans _ Hcmp _ _ _ E1 E2).
Qed.

(** Sorting and removing duplicates depends on the set of elements only. *)
Lemma sort_dedup_canonical l1 l2 :
  (forall x, x ∈ l1 <-> x ∈ l2) -> sort_dedup cmp l1 = sort_dedup cmp l2.
Proof.
  intros Hx. apply strict_unique.
  1, 2: apply dedup_strict, order_by_sorted; eauto using le_of_total, le_of_trans.
  intros x. unfold sort_dedup. by rewrite !elem_of_dedup, !elem_of_order_by.
Qed.

Lemma elem_of_sort_dedup x l : x ∈ sort_dedup cmp l <-> x ∈ l.
Proof. unfold sort_dedup. by rewrite elem_of_dedup, elem_of_order_by. Qed.

End Canonical.

(** ** The evidence graph *)

(** The same evidence, in whatever order and however often it was listed. *)
Record same_evidence (i j : AnswerEvidenceInput) : Prop := {
  se_response : ae_response_hash i = ae_response_hash j;
  se_context : ae_context_pack_id i = ae_context_pack_id j;
  se_output : ae_output_ledger_event_id i = ae_output_ledger_event_id j;
  se_memory : forall x, x ∈ ae_memory_atom_ids i <-> x ∈ ae_memory_atom_ids j;
  se_receipts : forall x, x ∈ ae_tool_receipt_ids i <-> x ∈ ae_tool_receipt_ids j;
  se_sources : forall x, x ∈ ae_source_ledger_event_ids i <-> x ∈ ae_source_ledger_event_ids j;
  se_spans : forall x, x ∈ ae_answer_trace_span_hashes i <-> x ∈ ae_answer_trace_span_hashes j
}.

Lemma map_same {A B} (f : A -> B) l1 l2 :
  (forall x, x ∈ l1 <-> x ∈ l2) -> forall y, y ∈ map f l1 <-> y ∈ map f l2.
Proof.
  intros Hx y. rewrite !list_elem_of_fmap. split; intros (x & -> & Hin); exists x; split;
    auto; by apply Hx.
Qed.

Lemma references_same i j :
  same_evidence i j -> forall r, r ∈ input_references i <-> r ∈ input_references j.
Proof.
  intros [_ Hc _ Hm Hr Hs _] r. unfold input_references. rewrite Hc, !elem_of_app.
  by rewrite (map_same _ _ _ Hm), (map_same _ _ _ Hr), (map_same _ _ _ Hs).
Qed.

Section Graph.
Context `{Env} `{!EnvLaws}.

Lemma hash_nonempty s : stable_hash_bytes s <> "".
Proof.
  intros E. apply (f_equal String.length) in E. unfold stable_hash_bytes in E.
  rewrite hex_encode_length, sha256_length in E. done.
Qed.

Lemma subgraph_new_canonical id nodes nodes' edges edges' :
  (forall x, x ∈ nodes <-> x ∈ nodes') -> (forall x, x ∈ edges <-> x ∈ edges') ->
  subgraph_new id nodes edges = subgraph_new id nodes' edges'.
Proof.
  intros Hn He. unfold subgraph_new.
  rewrite (sort_dedup_canonical node_compare node_cmp_laws node_compare_eq _ _ Hn).
  by rewrite (sort_dedup_canonical edge_compare edge_cmp_laws edge_compare_eq _ _ He).
Qed.

(** Evidence graphs are canonical.  The graph of an answer verifies its own
    hash, depends only on the set of the evidence and not on the order or the
    repetition in which it was collected, and has the node of every piece of
    evidence, under the name by which a proof closure asks for it. *)
Theorem evidence_graph_canonical i j :
  same_evidence i j ->
  let g := build_answer_evidence_subgraph i in
  verify_hash g = true /\ build_answer_evidence_subgraph j = g /\
  forall kind id, (kind, id) ∈ input_references i -> exists n, n ∈ eg_nodes g /\ en_id n = id.
Proof.
  intros Hs g. split; [|split].
  - unfold verify_hash. simpl. rewrite bool_decide_eq_false_2 by apply hash_nonempty.
    by rewrite bool_decide_eq_true_2.
  - unfold g, build_answer_evidence_subgraph. pose proof (references_same _ _ Hs) as Hr.
    destruct Hs as [E1 E2 E3 _ _ _ Hsp]. rewrite <- E1, <- E3.
    apply subgraph_new_canonical; intros x; rewrite !elem_of_app;
      by rewrite (map_same _ _ _ Hr), (map_same _ _ _ Hsp).
  - intros kind id Hin. exists (reference kind id). split; [|done].
    unfold g, build_answer_evidence_subgraph, subgraph_new. cbn [eg_nodes].
    rewrite (elem_of_sort_dedup node_compare node_cmp_laws node_compare_eq), !elem_of_app. right. left.
    apply list_elem_of_fmap. by exists (kind, id).
Qed.

Context `{ProofCodec}.

Lemma built_proof_verifies input : verify_turn_proof_hash (build_turn_proof input) = true.
Proof.
  unfold verify_turn_proof_hash. simpl. rewrite bool_decide_eq_false_2 by apply hash_nonempty.
  by rewrite bool_decide_eq_true_2.
Qed.

End Graph.

(** ** A worked graph *)

Definition ex_evidence (memory receipts : list string) : AnswerEvidenceInput :=
  {| ae_response_hash := "response"; ae_context_pack_id := Some "pack";
     ae_memory_atom_ids := memory; ae_tool_receipt_ids := receipts;
     ae_source_ledger_event_ids := ["user-1"]; ae_output_ledger_event_id := "sent-1";
     ae_answer_trace_span_hashes := ["span"] |}.

Lemma ex_same_evidence :
  same_evidence (ex_evidence ["m1"; "m2"] ["r1"]) (ex_evidence ["m2"; "m1"; "m2"] ["r1"; "r1"]).
Proof. split; simpl; try done; set_solver. Qed.

Lemma evidence_graph_canonical_witness :
  build_answer_evidence_subgraph (ex_evidence ["m2"; "m1"; "m2"] ["r1"; "r1"])
  = build_answer_evidence_subgraph (ex_evidence ["m1"; "m2"] ["r1"]) /\
  length (eg_nodes (build_answer_evidence_subgraph (ex_evidence ["m1"; "m2"] ["r1"]))) = 8%nat.
Proof.
  split; [|vm_compute; reflexivity].
  apply (evidence_graph_canonical _ _ ex_same_evidence).
Defined.
