(* ===== verification/Approval.v ===== *)
(** * The approval chain ([crates/zaion-runtime/src/approval_chain.rs])

    A thread that wants to run a dangerous command calls [request_approval] and
    blocks until a user answers or its timeout is over.  The four maps of the chain
    are behind mutexes of their own: every use of one is an atomic action, and the
    threads, the answering users and the clock interleave freely.  A thread has the
    receiving end of its own channel; its inbox is what has been sent to it.
    [w_answers] records what users answered to which request; no action reads it. *)

From stdpp Require Import prelude gmap strings list relations.
From S2P Require Import Prelude.
Local Open Scope Z_scope.

Inductive ApprovalScope : Type := Once | Session | PermanentScope.
Inductive ApprovalDecision : Type := Approved | Denied | Timeout.

#[export] Instance ApprovalScope_eq_dec : EqDecision ApprovalScope.
Proof. solve_decision. Defined.
#[export] Instance ApprovalDecision_eq_dec : EqDecision ApprovalDecision.
Proof. solve_decision. Defined.

Record ApprovalRequest : Type := {
  rq_request_id : string;
  rq_session_key : string;
  rq_command : string;
  rq_reason : string;
  rq_created_at : Z;
  rq_timeout_secs : Z
}.

(** [ApprovalRequest::new]; [now] and [uuid] (eight hex digits) are its inputs. *)
Definition request_new (session_key command reason : string) (now : Z) (uuid : string)
  : ApprovalRequest :=
  {| rq_request_id := "approval_" +:+ z_to_string now +:+ "_" +:+ uuid;
     rq_session_key := session_key; rq_command := command; rq_reason := reason;
     rq_created_at := now; rq_timeout_secs := 300 |}.

Definition with_timeout (r : ApprovalRequest) (timeout_secs : Z) : ApprovalRequest :=
  {| rq_request_id := rq_request_id r; rq_session_key := rq_session_key r;
     rq_command := rq_command r; rq_reason := rq_reason r; rq_created_at := rq_created_at r;
     rq_timeout_secs := timeout_secs |}.

(** [is_expired]; the subtraction of [u64]s panics, [None], when the clock went
    back. *)
Definition is_expired (r : ApprovalRequest) (now : Z) : option bool :=
  if bool_decide (rq_created_at r <= now)
  then Some (bool_decide (rq_timeout_secs r < now - rq_created_at r)) else None.

Record ApprovalResponse : Type := {
  rs_request_id : string;
  rs_decision : ApprovalDecision;
  rs_scope : ApprovalScope;
  rs_responded_at : Z
}.

(** [response_tx] is the channel of the thread with that index. *)
Record ApprovalEntry : Type := {
  ae_request : ApprovalRequest;
  ae_response_tx : nat
}.

Record ApprovalChain : Type := {
  pending : gmap string (list ApprovalEntry);
  session_approvals : gmap string (gmap string bool);
  permanent_approvals : gmap string bool;
  history : gmap string (list ApprovalResponse)
}.

Definition chain_new : ApprovalChain :=
  {| pending := ∅; session_approvals := ∅; permanent_approvals := ∅; history := ∅ |}.

Definition with_pending (c : ApprovalChain) (p : gmap string (list ApprovalEntry)) : ApprovalChain :=
  {| pending := p; session_approvals := session_approvals c;
     permanent_approvals := permanent_approvals c; history := history c |}.

(** ** The operations on one map *)

Definition permanently_approved (c : ApprovalChain) (command : string) : bool :=
  default false (permanent_approvals c !! command).

Definition session_approved (c : ApprovalChain) (session_key command : string) : bool :=
  match session_approvals c !! session_key with
  | Some session_map => default false (session_map !! command)
  | None => false
  end.

(** [is_pre_approved], when nothing happens between its two reads. *)
Definition is_pre_approved (c : ApprovalChain) (session_key command : string) : bool :=
  permanently_approved c command || session_approved c session_key command.

(** [pending.entry(session_key).or_default().push_back(entry)] *)
Definition push_pending (c : ApprovalChain) (e : ApprovalEntry) : ApprovalChain :=
  let key := rq_session_key (ae_request e) in
  with_pending c (<[key := default [] (pending c !! key) ++ [e]]> (pending c)).

(** [remove_pending_request] *)
Definition remove_pending_request (c : ApprovalChain) (session_key request_id : string)
  : ApprovalChain :=
  match pending c !! session_key with
  | Some queue =>
      with_pending c (<[session_key :=
        filter (fun e => rq_request_id (ae_request e) <> request_id) queue]> (pending c))
  | None => c
  end.

(** [apply_approval_scope] *)
Definition apply_approval_scope (c : ApprovalChain) (session_key command : string)
    (response : ApprovalResponse) : ApprovalChain :=
  if bool_decide (rs_decision response = Approved) then
    match rs_scope response with
    | Once => c
    | Session =>
        {| pending := pending c;
           session_approvals :=
             <[session_key := <[command := true]> (default ∅ (session_approvals c !! session_key))]>
               (session_approvals c);
           permanent_approvals := permanent_approvals c; history := history c |}
    | PermanentScope =>
        {| pending := pending c; session_approvals := session_approvals c;
           permanent_approvals := <[command := true]> (permanent_approvals c);
           history := history c |}
    end
  else c.

(** [while session_history.len() > 100 { pop_front() }] *)
Definition keep_last (n : nat) {A} (l : list A) : list A := drop (length l - n) l.

(** [add_to_history] *)
Definition add_to_history (c : ApprovalChain) (session_key : string)
    (response : ApprovalResponse) : ApprovalChain :=
  {| pending := pending c; session_approvals := session_approvals c;
     permanent_approvals := permanent_approvals c;
     history := <[session_key :=
       keep_last 100 (default [] (history c !! session_key) ++ [response])]> (history c) |}.

Definition pending_count (c : ApprovalChain) (session_key : string) : Z :=
  match pending c !! session_key with Some q => Z.of_nat (length q) | None => 0 end.

Definition list_pending (c : ApprovalChain) (session_key : string) : list ApprovalRequest :=
  match pending c !! session_key with Some q => map ae_request q | None => [] end.

Definition get_history (c : ApprovalChain) (session_key : string) (limit : Z)
  : list ApprovalResponse :=
  match history c !! session_key with
  | Some h => take (Z.to_nat limit) (reverse h) | None => [] end.

Definition clear_session_approvals (c : ApprovalChain) (session_key : string) : ApprovalChain :=
  {| pending := pending c; session_approvals := delete session_key (session_approvals c);
     permanent_approvals := permanent_approvals c; history := history c |}.

(** ** Answers *)

(** The entries of the queue that are answered, and what is left of it. *)
Definition take_entries (resolve_all : bool) (queue : list ApprovalEntry)
  : list ApprovalEntry * list ApprovalEntry :=
  if resolve_all then (queue, [])
  else match queue with e :: queue' => ([e], queue') | [] => ([], []) end.

Definition answer (decision : ApprovalDecision) (scope : ApprovalScope) (now : Z)
    (e : ApprovalEntry) : nat * ApprovalResponse :=
  (ae_response_tx e,
   {| rs_request_id := rq_request_id (ae_request e); rs_decision := decision;
      rs_scope := scope; rs_responded_at := now |}).

(** [resolve_approval]: the count, the chain, and the entries it answers. *)
Definition resolve_approval (c : ApprovalChain) (session_key : string) (resolve_all : bool)
  : Z * ApprovalChain * list ApprovalEntry :=
  match pending c !! session_key with
  | None => (0, c, [])
  | Some queue =>
      let '(popped, rest) := take_entries resolve_all queue in
      (Z.of_nat (length popped), with_pending c (<[session_key := rest]> (pending c)), popped)
  end.

(** [clear_session]: every pending request is denied. *)
Definition clear_session (c : ApprovalChain) (session_key : string)
  : Z * ApprovalChain * list ApprovalEntry :=
  match pending c !! session_key with
  | None => (0, c, [])
  | Some queue =>
      (Z.of_nat (length queue), with_pending c (delete session_key (pending c)), queue)
  end.

(** ** Threads in [request_approval] *)

Inductive pc : Type :=
| AtPermanent                          (* the first read of [is_pre_approved] *)
| AtSession                            (* its second read *)
| AtEnqueue
| AtReceive                            (* [rx.recv_timeout] *)
| AtApply (r : ApprovalResponse)       (* [apply_approval_scope] *)
| AtRecord (r : ApprovalResponse)      (* [add_to_history] of an answer *)
| AtRemove                             (* [remove_pending_request] after a timeout *)
| AtTimeout                            (* [add_to_history] of the timeout *)
| Done (r : result string ApprovalResponse).

Record Thread : Type := {
  t_request : ApprovalRequest;
  t_pc : pc;
  t_inbox : list ApprovalResponse
}.

Record World : Type := {
  w_chain : ApprovalChain;
  w_threads : list Thread;
  w_answers : list (ApprovalRequest * ApprovalDecision * ApprovalScope)
}.

Definition world_new : World := {| w_chain := chain_new; w_threads := []; w_answers := [] |}.

Definition at_pc (t : Thread) (p : pc) : Thread :=
  {| t_request := t_request t; t_pc := p; t_inbox := t_inbox t |}.

(** One action of thread [j] at time [now]; [None] where it has to wait. *)
Definition act (j : nat) (now : Z) (c : ApprovalChain) (t : Thread)
  : option (Thread * ApprovalChain) :=
  let q := t_request t in
  let pre_approved :=
    {| rs_request_id := rq_request_id q; rs_decision := Approved; rs_scope := Session;
       rs_responded_at := now |} in
  match t_pc t with
  | AtPermanent =>
      Some (at_pc t (if permanently_approved c (rq_command q) then Done (Ok pre_approved)
                     else AtSession), c)
  | AtSession =>
      Some (at_pc t (if session_approved c (rq_session_key q) (rq_command q)
                     then Done (Ok pre_approved) else AtEnqueue), c)
  | AtEnqueue =>
      Some (at_pc t AtReceive, push_pending c {| ae_request := q; ae_response_tx := j |})
  | AtReceive =>
      match t_inbox t with
      | [] => None
      | r :: inbox =>
          Some ({| t_request := q; t_pc := AtApply r; t_inbox := inbox |}, c)
      end
  | AtApply r =>
      Some (at_pc t (AtRecord r), apply_approval_scope c (rq_session_key q) (rq_command q) r)
  | AtRecord r => Some (at_pc t (Done (Ok r)), add_to_history c (rq_session_key q) r)
  | AtRemove =>
      Some (at_pc t AtTimeout, remove_pending_request c (rq_session_key q) (rq_request_id q))
  | AtTimeout =>
      Some (at_pc t (Done (Err "Approval request timed out")),
            add_to_history c (rq_session_key q)
              {| rs_request_id := rq_request_id q; rs_decision := Timeout; rs_scope := Once;
                 rs_responded_at := now |})
  | Done _ => None
  end.

(** [Sender::send]: into the inbox of the thread, if it is still there. *)
Definition receive (r : ApprovalResponse) (t : Thread) : Thread :=
  match t_pc t with
  | Done _ => t
  | _ => {| t_request := t_request t; t_pc := t_pc t; t_inbox := t_inbox t ++ [r] |}
  end.

Definition send (ts : list Thread) (m : nat * ApprovalResponse) : list Thread :=
  alter (receive m.2) m.1 ts.

(** The answers to [popped], sent one after the other; [now] is the clock. *)
Definition deliver (w : World) (c : ApprovalChain) (decision : ApprovalDecision)
    (scope : ApprovalScope) (now : nat -> Z) (popped : list ApprovalEntry) : World :=
  {| w_chain := c;
     w_threads := foldl send (w_threads w) (imap (fun i => answer decision scope (now i)) popped);
     w_answers := w_answers w ++ map (fun e => (ae_request e, decision, scope)) popped |}.

Inductive astep (w : World) : World -> Prop :=
| as_request q :
    q.(rq_request_id) ∉ map (fun t => rq_request_id (t_request t)) (w_threads w) ->
    astep w {| w_chain := w_chain w;
               w_threads := w_threads w ++ [{| t_request := q; t_pc := AtPermanent; t_inbox := [] |}];
               w_answers := w_answers w |}
| as_thread j now t t' c' :
    w_threads w !! j = Some t -> act j now (w_chain w) t = Some (t', c') ->
    astep w {| w_chain := c'; w_threads := <[j := t']> (w_threads w); w_answers := w_answers w |}
| as_timeout j t :
    w_threads w !! j = Some t -> t_pc t = AtReceive -> t_inbox t = [] ->
    astep w {| w_chain := w_chain w; w_threads := <[j := at_pc t AtRemove]> (w_threads w);
               w_answers := w_answers w |}
| as_resolve session_key decision scope resolve_all now :
    astep w (let '(_, c, popped) :=
               resolve_approval (w_chain w) session_key resolve_all in
             deliver w c decision scope now popped)
| as_clear session_key now :
    astep w (let '(_, c, popped) := clear_session (w_chain w) session_key in
             deliver w c Denied Once now popped)
| as_clear_approvals session_key :
    astep w {| w_chain := clear_session_approvals (w_chain w) session_key;
               w_threads := w_threads w; w_answers := w_answers w |}.

Definition asteps : World -> World -> Prop := rtc astep.

(** * Theorems about the approval chain *)

(** ** What holds of every reachable world *)

(** The user answered the request that way. *)
Definition answered (w : World) (q : ApprovalRequest) (r : ApprovalResponse) : Prop :=
  (q, rs_decision r, rs_scope r) ∈ w_answers w /\ rs_request_id r = rq_request_id q.

(** A user approved the request itself, or its command for its session, or its
    command for good. *)
Definition granted (w : World) (q : ApprovalRequest) : Prop :=
  (exists scope, (q, Approved, scope) ∈ w_answers w) \/
  (exists q', (q', Approved, Session) ∈ w_answers w /\
     rq_session_key q' = rq_session_key q /\ rq_command q' = rq_command q) \/
  (exists q', (q', Approved, PermanentScope) ∈ w_answers w /\ rq_command q' = rq_command q).

Definition is_pending (c : ApprovalChain) (j : nat) : Prop :=
  exists s queue e, pending c !! s = Some queue /\ e ∈ queue /\ ae_response_tx e = j.

(** Where the request of a thread is: before it is queued and after it was answered
    or given up it is not pending; in between it is pending, or one answer is in its
    inbox. *)
Definition placed (c : ApprovalChain) (j : nat) (t : Thread) : Prop :=
  match t_pc t with
  | AtPermanent | AtSession | AtEnqueue | AtApply _ | AtRecord _ =>
      ~ is_pending c j /\ t_inbox t = []
  | AtReceive | AtRemove =>
      (is_pending c j /\ t_inbox t = []) \/ (~ is_pending c j /\ exists r, t_inbox t = [r])
  | AtTimeout | Done _ => ~ is_pending c j
  end.

Definition justified (w : World) (t : Thread) : Prop :=
  (forall r, r ∈ t_inbox t -> answered w (t_request t) r) /\
  match t_pc t with
  | AtApply r | AtRecord r => answered w (t_request t) r
  | Done (Ok r) => rs_decision r = Approved -> granted w (t_request t)
  | _ => True
  end.

Record inv (w : World) : Prop := {
  iv_ids : NoDup (map (fun t => rq_request_id (t_request t)) (w_threads w));
  iv_queue s queue : pending (w_chain w) !! s = Some queue ->
    NoDup (map ae_response_tx queue) /\
    forall e, e ∈ queue -> rq_session_key (ae_request e) = s /\
      exists t, w_threads w !! ae_response_tx e = Some t /\ t_request t = ae_request e;
  iv_placed j t : w_threads w !! j = Some t -> placed (w_chain w) j t;
  iv_justified j t : w_threads w !! j = Some t -> justified w t;
  iv_session s m command : session_approvals (w_chain w) !! s = Some m ->
    m !! command = Some true -> exists q, (q, Approved, Session) ∈ w_answers w /\
      rq_session_key q = s /\ rq_command q = command;
  iv_permanent command : permanent_approvals (w_chain w) !! command = Some true ->
    exists q, (q, Approved, PermanentScope) ∈ w_answers w /\ rq_command q = command;
  iv_history s h : history (w_chain w) !! s = Some h ->
    (length h <= 100)%nat /\ forall r, r ∈ h -> exists t, t ∈ w_threads w /\
      rq_session_key (t_request t) = s /\ rq_request_id (t_request t) = rs_request_id r
}.

Lemma inv_new : inv world_new.
Proof. split; simpl; try done; constructor. Qed.

(** ** Steps of a thread *)

(** The queues are in order. *)
Definition queues_ok (c : ApprovalChain) (ts : list Thread) : Prop :=
  forall s queue, pending c !! s = Some queue ->
  NoDup (map ae_response_tx queue) /\
  forall e, e ∈ queue -> rq_session_key (ae_request e) = s /\
    exists t, ts !! ae_response_tx e = Some t /\ t_request t = ae_request e.

(** Thread [j] goes from [t] to [t'] and the chain to [c'], where nothing else is
    queued or removed. *)
Lemma inv_thread w j t t' c' :
  inv w -> w_threads w !! j = Some t -> t_request t' = t_request t ->
  queues_ok c' (w_threads w) ->
  (forall k, k <> j -> is_pending c' k <-> is_pending (w_chain w) k) ->
  placed c' j t' -> justified w t' ->
  (forall s m command, session_approvals c' !! s = Some m -> m !! command = Some true ->
     exists q, (q, Approved, Session) ∈ w_answers w /\ rq_session_key q = s /\
       rq_command q = command) ->
  (forall command, permanent_approvals c' !! command = Some true ->
     exists q, (q, Approved, PermanentScope) ∈ w_answers w /\ rq_command q = command) ->
  (forall s h, history c' !! s = Some h -> (length h <= 100)%nat /\ forall r, r ∈ h ->
     exists t, t ∈ w_threads w /\ rq_session_key (t_request t) = s /\
       rq_request_id (t_request t) = rs_request_id r) ->
  inv {| w_chain := c'; w_threads := <[j := t']> (w_threads w); w_answers := w_answers w |}.
Proof.
  intros Hi Hj Hq Hqu Hp Hpl Hju Hs Hpm Hh.
  assert (Hreq : map t_request (<[j := t']> (w_threads w)) = map t_request (w_threads w)).
  { change (t_request <$> <[j := t']> (w_threads w) = t_request <$> w_threads w).
    rewrite list_fmap_insert, Hq. apply list_insert_id. by rewrite list_lookup_fmap, Hj. }
  split; simpl.
  - rewrite <- (map_map t_request rq_request_id), Hreq, map_map. apply Hi.
  - intros s queue Hsq. destruct (Hqu _ _ Hsq) as [Hn He].
    split; [done|]. intros e Hin. destruct (He e Hin) as (Hk & x & Hx & Hr). split; [done|].
    destruct (decide (ae_response_tx e = j)) as [Hej|Hne].
    + exists t'. rewrite Hej, list_lookup_insert_eq by (by eapply lookup_lt_Some).
      split; [done|]. rewrite Hq. rewrite Hej, Hj in Hx. by simplify_eq.
    + exists x. by rewrite list_lookup_insert_ne.
  - intros k x Hk. destruct (decide (k = j)) as [->|Hne].
    + rewrite list_lookup_insert_eq in Hk by (by eapply lookup_lt_Some). by simplify_eq.
    + rewrite list_lookup_insert_ne in Hk by done. pose proof (iv_placed _ Hi _ _ Hk) as Hpx.
      unfold placed in *. destruct (t_pc x); rewrite (Hp k Hne); exact Hpx.
  - intros k x Hk. destruct (decide (k = j)) as [->|Hne].
    + rewrite list_lookup_insert_eq in Hk by (by eapply lookup_lt_Some). by simplify_eq.
    + rewrite list_lookup_insert_ne in Hk by done. exact (iv_justified _ Hi _ _ Hk).
  - exact Hs.
  - exact Hpm.
  - intros s h Hsh. destruct (Hh _ _ Hsh) as [Hl Hr]. split; [done|]. intros r Hin.
    destruct (Hr r Hin) as (x & Hx & Hk & Hid).
    assert (Hxq : t_request x ∈ map t_request (<[j := t']> (w_threads w)))
      by (rewrite Hreq; by apply list_elem_of_fmap_2).
    apply list_elem_of_fmap in Hxq as (y & Hy & Hin'). exists y. by rewrite <- Hy.
Qed.

Lemma inv_thread_same w j t p inbox c' :
  inv w -> w_threads w !! j = Some t ->
  pending c' = pending (w_chain w) ->
  session_approvals c' = session_approvals (w_chain w) ->
  permanent_approvals c' = permanent_approvals (w_chain w) ->
  (forall s h, history c' !! s = Some h -> (length h <= 100)%nat /\ forall r, r ∈ h ->
     exists t, t ∈ w_threads w /\ rq_session_key (t_request t) = s /\
       rq_request_id (t_request t) = rs_request_id r) ->
  let t' := {| t_request := t_request t; t_pc := p; t_inbox := inbox |} in
  placed (w_chain w) j t' -> justified w t' ->
  inv {| w_chain := c'; w_threads := <[j := t']> (w_threads w); w_answers := w_answers w |}.
Proof.
  intros Hi Hj Hp Hs Hpm Hh t' Hpl Hju. eapply inv_thread; eauto.
  - unfold queues_ok. rewrite Hp. apply Hi.
  - intros k _. unfold is_pending. by rewrite Hp.
  - unfold placed, is_pending in *. by rewrite Hp.
  - rewrite Hs. apply Hi.
  - rewrite Hpm. apply Hi.
Qed.

Lemma history_added w j t r :
  inv w -> w_threads w !! j = Some t -> rs_request_id r = rq_request_id (t_request t) ->
  forall s h, history (add_to_history (w_chain w) (rq_session_key (t_request t)) r) !! s = Some h ->
  (length h <= 100)%nat /\ forall r, r ∈ h -> exists t, t ∈ w_threads w /\
    rq_session_key (t_request t) = s /\ rq_request_id (t_request t) = rs_request_id r.
Proof.
  intros Hi Hj Hr s h Hh. simpl in Hh. destruct (decide (s = rq_session_key (t_request t))) as [->|Hne].
  - rewrite lookup_insert_eq in Hh. simplify_eq. unfold keep_last. split; [rewrite length_drop; lia|].
    intros x Hx. assert (Hx' : x ∈ default [] (history (w_chain w) !! rq_session_key (t_request t)) ++ [r]).
    { rewrite <- (take_drop (length (default [] (history (w_chain w) !! rq_session_key (t_request t)) ++ [r]) - 100)).
      set_solver. }
    apply elem_of_app in Hx' as [Hx'|Hx'].
    + destruct (history (w_chain w) !! _) as [h'|] eqn:Eh; simpl in Hx'; [|set_solver].
      by apply (iv_history _ Hi _ _ Eh).
    + apply list_elem_of_singleton in Hx' as ->. exists t. split; [by eapply list_elem_of_lookup_2|done].
  - rewrite lookup_insert_ne in Hh by done. by apply (iv_history _ Hi).
Qed.

(** ** Queueing and giving up *)

Lemma not_pending_tx w j s queue :
  ~ is_pending (w_chain w) j -> pending (w_chain w) !! s = Some queue ->
  j ∉ map ae_response_tx queue.
Proof. intros Hn Hs Hin. apply Hn. apply list_elem_of_fmap in Hin as (e & -> & He). exists s. eauto. Qed.

Lemma pushed_pending c e k :
  is_pending (push_pending c e) k <-> is_pending c k \/ k = ae_response_tx e.
Proof.
  unfold is_pending, push_pending. simpl. set (key := rq_session_key (ae_request e)). split.
  - intros (s & queue & x & Hs & Hx & Hk). destruct (decide (s = key)) as [->|Hne].
    + rewrite lookup_insert_eq in Hs. simplify_eq. apply elem_of_app in Hx as [Hx|Hx].
      * left. destruct (pending c !! key) as [q|] eqn:Eq; [|set_solver]. eauto 10.
      * right. by apply list_elem_of_singleton in Hx as ->.
    + rewrite lookup_insert_ne in Hs by done. left. eauto 10.
  - intros [(s & queue & x & Hs & Hx & Hk)| ->].
    + destruct (decide (s = key)) as [->|Hne].
      * eexists _, _, x. rewrite lookup_insert_eq, Hs. split; [done|]. simpl. set_solver.
      * exists s, queue, x. by rewrite lookup_insert_ne.
    + eexists _, _, e. rewrite lookup_insert_eq. split; [done|]. set_solver.
Qed.

Lemma inv_enqueue w j t :
  inv w -> w_threads w !! j = Some t -> t_pc t = AtEnqueue ->
  inv {| w_chain := push_pending (w_chain w) {| ae_request := t_request t; ae_response_tx := j |};
         w_threads := <[j := at_pc t AtReceive]> (w_threads w); w_answers := w_answers w |}.
Proof.
  intros Hi Hj Hpc. pose proof (iv_placed _ Hi _ _ Hj) as Hpl. unfold placed in Hpl.
  rewrite Hpc in Hpl. destruct Hpl as [Hnp Hin].
  eapply inv_thread; try done; try apply Hi.
  - intros s queue Hs. simpl in Hs. destruct (decide (s = rq_session_key (t_request t))) as [->|Hne].
    + rewrite lookup_insert_eq in Hs. simplify_eq.
      destruct (pending (w_chain w) !! rq_session_key (t_request t)) as [q|] eqn:Eq; simpl.
      * destruct (iv_queue _ Hi _ _ Eq) as [Hn He]. split.
        -- rewrite map_app. apply NoDup_app. split; [done|]. split; [|apply NoDup_singleton].
           intros x Hx Hx'. apply list_elem_of_singleton in Hx' as ->.
           by apply (not_pending_tx _ _ _ _ Hnp Eq).
        -- intros e [Hx| ->%list_elem_of_singleton]%elem_of_app; [by apply He|]. eauto.
      * split; [apply NoDup_singleton|]. intros e ->%list_elem_of_singleton. eauto.
    + rewrite lookup_insert_ne in Hs by done. by apply (iv_queue _ Hi).
  - intros k Hk. rewrite pushed_pending. simpl. naive_solver.
  - left. rewrite pushed_pending. auto.
  - pose proof (iv_justified _ Hi _ _ Hj) as [Hb _]. split; [exact Hb|done].
Qed.

Lemma removed_queue c s id s' queue :
  pending (remove_pending_request c s id) !! s' = Some queue ->
  exists queue', pending c !! s' = Some queue' /\
    queue = (if decide (s' = s) then filter (fun e => rq_request_id (ae_request e) <> id) queue'
             else queue').
Proof.
  unfold remove_pending_request. destruct (pending c !! s) as [q|] eqn:Es; simpl.
  - destruct (decide (s' = s)) as [->|Hne].
    + rewrite lookup_insert_eq. intros [= <-]. eauto.
    + rewrite lookup_insert_ne by done. eauto.
  - intros Hs. destruct (decide (s' = s)) as [->|Hne]; [by rewrite Es in Hs|eauto].
Qed.

Lemma same_thread w j k t x :
  inv w -> w_threads w !! j = Some t -> w_threads w !! k = Some x ->
  rq_request_id (t_request x) = rq_request_id (t_request t) -> k = j.
Proof.
  intros Hi Hj Hk Hid. eapply NoDup_lookup; [apply (iv_ids _ Hi)|..];
    rewrite list_lookup_fmap, ?Hj, ?Hk; simpl; [done|]. by rewrite Hid.
Qed.

Lemma removed_pending w j t k :
  inv w -> w_threads w !! j = Some t ->
  is_pending (remove_pending_request (w_chain w) (rq_session_key (t_request t))
                (rq_request_id (t_request t))) k <-> is_pending (w_chain w) k /\ k <> j.
Proof.
  intros Hi Hj. split.
  - intros (s & queue & e & Hs & He & Hk). apply removed_queue in Hs as (q' & Hs & ->).
    assert (Hin : e ∈ q').
    { destruct (decide _); [|done]. by apply list_elem_of_filter in He as [_ He]. }
    split; [by exists s, q', e|]. intros ->.
    destruct (iv_queue _ Hi _ _ Hs) as [_ Hq]. destruct (Hq e Hin) as (Hkey & x & Hx & Hr).
    rewrite Hk, Hj in Hx. simplify_eq.
    destruct (decide _) as [_|Hne]; [|by rewrite Hr in *].
    apply list_elem_of_filter in He as [He _]. by rewrite Hr in He.
  - intros [(s & queue & e & Hs & He & Hk) Hne].
    destruct (iv_queue _ Hi _ _ Hs) as [_ Hq]. destruct (Hq e He) as (Hkey & x & Hx & Hr).
    unfold is_pending, remove_pending_request.
    destruct (pending (w_chain w) !! rq_session_key (t_request t)) as [q|] eqn:Eq; simpl;
      [|by exists s, queue, e].
    destruct (decide (s = rq_session_key (t_request t))) as [->|Hns].
    + eexists _, _, e. rewrite lookup_insert_eq. split; [done|]. split; [|done].
      rewrite Hs in Eq. simplify_eq. apply list_elem_of_filter. split; [|done].
      intros Hid. apply Hne. rewrite <- Hr in Hid. by eapply same_thread.
    + exists s, queue, e. by rewrite lookup_insert_ne.
Qed.

Lemma inv_remove w j t :
  inv w -> w_threads w !! j = Some t -> t_pc t = AtRemove ->
  inv {| w_chain := remove_pending_request (w_chain w) (rq_session_key (t_request t))
                      (rq_request_id (t_request t));
         w_threads := <[j := at_pc t AtTimeout]> (w_threads w); w_answers := w_answers w |}.
Proof.
  intros Hi Hj Hpc.
  assert (Hm : forall c s id, session_approvals (remove_pending_request c s id) = session_approvals c /\
            permanent_approvals (remove_pending_request c s id) = permanent_approvals c /\
            history (remove_pending_request c s id) = history c).
  { intros c s id. unfold remove_pending_request. by destruct (pending c !! s). }
  destruct (Hm (w_chain w) (rq_session_key (t_request t)) (rq_request_id (t_request t)))
    as (E1 & E2 & E3).
  eapply inv_thread; rewrite ?E1, ?E2, ?E3; try done; try apply Hi.
  - intros s queue Hs. apply removed_queue in Hs as (q' & Hs & ->).
    destruct (iv_queue _ Hi _ _ Hs) as [Hn He]. destruct (decide _) as [_|_]; [|done]. split.
    + eapply sublist_NoDup; [exact Hn|]. apply (fmap_sublist ae_response_tx), sublist_filter.
    + intros e [_ Hin]%list_elem_of_filter. by apply He.
  - intros k Hk. rewrite (removed_pending _ _ _ _ Hi Hj). naive_solver.
  - unfold placed. simpl. rewrite (removed_pending _ _ _ _ Hi Hj). naive_solver.
  - pose proof (iv_justified _ Hi _ _ Hj) as [Hb _]. split; [exact Hb|done].
Qed.

(** ** A thread acts *)

Lemma apply_scope_frame c s command r :
  pending (apply_approval_scope c s command r) = pending c /\
  history (apply_approval_scope c s command r) = history c.
Proof. unfold apply_approval_scope. case_bool_decide; [|done]. by destruct (rs_scope r). Qed.

Lemma apply_scope_session w q r :
  inv w -> answered w q r -> forall s m command,
  session_approvals (apply_approval_scope (w_chain w) (rq_session_key q) (rq_command q) r) !! s = Some m ->
  m !! command = Some true -> exists q, (q, Approved, Session) ∈ w_answers w /\
    rq_session_key q = s /\ rq_command q = command.
Proof.
  intros Hi [Ha _] s m command Hs Hm. unfold apply_approval_scope in Hs.
  case_bool_decide as Hd; [|by eapply (iv_session _ Hi)].
  destruct (rs_scope r); [by eapply (iv_session _ Hi)| |by eapply (iv_session _ Hi)]. simpl in Hs.
  destruct (decide (s = rq_session_key q)) as [->|Hne];
    [|rewrite lookup_insert_ne in Hs by done; by eapply (iv_session _ Hi)].
  rewrite lookup_insert_eq in Hs. simplify_eq.
  destruct (decide (command = rq_command q)) as [->|Hne].
  - exists q. by rewrite Hd in Ha.
  - rewrite lookup_insert_ne in Hm by done.
    destruct (session_approvals (w_chain w) !! rq_session_key q) as [m'|] eqn:E; [|done].
    by eapply (iv_session _ Hi).
Qed.

Lemma apply_scope_permanent w q r :
  inv w -> answered w q r -> forall command,
  permanent_approvals (apply_approval_scope (w_chain w) (rq_session_key q) (rq_command q) r)
    !! command = Some true ->
  exists q, (q, Approved, PermanentScope) ∈ w_answers w /\ rq_command q = command.
Proof.
  intros Hi [Ha _] command Hm. unfold apply_approval_scope in Hm.
  case_bool_decide as Hd; [|by eapply (iv_permanent _ Hi)].
  destruct (rs_scope r); [by eapply (iv_permanent _ Hi)..|]. simpl in Hm.
  destruct (decide (command = rq_command q)) as [->|Hne].
  - exists q. by rewrite Hd in Ha.
  - rewrite lookup_insert_ne in Hm by done. by eapply (iv_permanent _ Hi).
Qed.

Lemma pre_approved_granted w q :
  inv w -> permanently_approved (w_chain w) (rq_command q) = true \/
           session_approved (w_chain w) (rq_session_key q) (rq_command q) = true -> granted w q.
Proof.
  unfold permanently_approved, session_approved, granted. intros Hi [Hp|Hs].
  - destruct (permanent_approvals _ !! _) as [b|] eqn:E; [|done]. simpl in Hp. subst.
    right. right. by apply (iv_permanent _ Hi).
  - destruct (session_approvals _ !! _) as [m|] eqn:E; [|done].
    destruct (m !! rq_command q) as [b|] eqn:Em; [|done]. simpl in Hs. subst.
    right. left. by eapply (iv_session _ Hi).
Qed.

Lemma inv_act w j now t t' c' :
  inv w -> w_threads w !! j = Some t -> act j now (w_chain w) t = Some (t', c') ->
  inv {| w_chain := c'; w_threads := <[j := t']> (w_threads w); w_answers := w_answers w |}.
Proof.
  intros Hi Hj Ha. pose proof (iv_placed _ Hi _ _ Hj) as Hpl.
  pose proof (iv_justified _ Hi _ _ Hj) as [Hb Hju]. unfold act in Ha. unfold placed in Hpl.
  destruct (t_pc t) as [| | | |r|r| | |] eqn:Hpc; simplify_eq; try done.
  - apply inv_thread_same; try done; [apply Hi|..].
    + unfold placed. destruct (permanently_approved _ _); simpl; tauto.
    + split; [done|]. destruct (permanently_approved _ _) eqn:E; [|done].
      intros _. apply pre_approved_granted; auto.
  - apply inv_thread_same; try done; [apply Hi|..].
    + unfold placed. destruct (session_approved _ _ _); simpl; tauto.
    + split; [done|]. destruct (session_approved _ _ _) eqn:E; [|done].
      intros _. apply pre_approved_granted; auto.
  - by apply inv_enqueue.
  - destruct (t_inbox t) as [|r inbox] eqn:Ei; simplify_eq.
    destruct Hpl as [[_ ?]|[Hn [r' ?]]]; simplify_eq.
    apply inv_thread_same; try done; [apply Hi|]. split; [set_solver|]. apply Hb. set_solver.
  - destruct (apply_scope_frame (w_chain w) (rq_session_key (t_request t))
      (rq_command (t_request t)) r) as [E1 E2].
    eapply inv_thread; try done.
    + unfold queues_ok. rewrite E1. apply Hi.
    + intros k _. unfold is_pending. by rewrite E1.
    + unfold placed, is_pending in *. simpl. by rewrite E1.
    + by apply apply_scope_session.
    + by apply apply_scope_permanent.
    + rewrite E2. apply Hi.
  - apply inv_thread_same; try done.
    + eapply history_added; [done..|apply Hju].
    + unfold placed. simpl. tauto.
    + split; [done|]. simpl. intros Hd. left. destruct Hju as [Hin _]. rewrite Hd in Hin. eauto.
  - by apply inv_remove.
  - apply inv_thread_same; try done. by eapply history_added.
Qed.

(** ** Answers *)

Lemma receive_request r t : t_request (receive r t) = t_request t.
Proof. unfold receive. by destruct (t_pc t). Qed.

Lemma send_requests ms : forall ts, map t_request (foldl send ts ms) = map t_request ts.
Proof.
  induction ms as [|m ms IH]; intros ts; [done|]. simpl. rewrite IH. unfold send.
  change (t_request <$> alter (receive m.2) m.1 ts = t_request <$> ts).
  apply list_eq. intros i. rewrite !list_lookup_fmap. destruct (decide (i = m.1)) as [->|Hne].
  - rewrite list_lookup_alter_eq. destruct (ts !! m.1); simpl; [|done]. by rewrite receive_request.
  - by rewrite list_lookup_alter_ne.
Qed.

Lemma send_notin ms j : forall ts, j ∉ map fst ms -> foldl send ts ms !! j = ts !! j.
Proof.
  induction ms as [|m ms IH]; intros ts Hj; [done|]. simpl in *. rewrite IH by set_solver.
  unfold send. apply list_lookup_alter_ne. set_solver.
Qed.

Lemma send_in ms j r : forall ts,
  NoDup (map fst ms) -> (j, r) ∈ ms -> foldl send ts ms !! j = receive r <$> ts !! j.
Proof.
  induction ms as [|m ms IH]; intros ts Hn Hin; [set_solver|]. simpl in *.
  apply NoDup_cons in Hn as [Hm Hn]. apply elem_of_cons in Hin as [<-|Hin].
  - rewrite send_notin by done. apply list_lookup_alter_eq.
  - rewrite (IH _ Hn Hin). unfold send. rewrite list_lookup_alter_ne; [done|].
    intros Hj. apply Hm. rewrite Hj. apply (list_elem_of_fmap_2 fst _ _ Hin).
Qed.

Lemma answers_tx d sc now popped :
  map fst (imap (fun i => answer d sc (now i)) popped) = map ae_response_tx popped.
Proof.
  apply list_eq. intros i. change (map ?f ?l) with (f <$> l).
  rewrite !list_lookup_fmap, list_lookup_imap. by destruct (popped !! i).
Qed.

Section Deliver.
Context (w : World) (s : string) (popped rest : list ApprovalEntry) (c' : ApprovalChain).
Context (d : ApprovalDecision) (sc : ApprovalScope) (now : nat -> Z).
Context (Hi : inv w) (Hs : pending (w_chain w) !! s = Some (popped ++ rest)).
Context (Hother : forall s', s' <> s -> pending c' !! s' = pending (w_chain w) !! s').
Context (Hrest : pending c' !! s = Some rest \/ (pending c' !! s = None /\ rest = [])).
Context (E1 : session_approvals c' = session_approvals (w_chain w)).
Context (E2 : permanent_approvals c' = permanent_approvals (w_chain w)).
Context (E3 : history c' = history (w_chain w)).

Let w' := deliver w c' d sc now popped.

Lemma deliver_queue s' queue :
  pending c' !! s' = Some queue -> exists queue', pending (w_chain w) !! s' = Some queue' /\
    (s' <> s /\ queue = queue' \/ s' = s /\ queue = rest /\ queue' = popped ++ rest).
Proof.
  intros Hq. destruct (decide (s' = s)) as [->|Hne].
  - exists (popped ++ rest). split; [done|]. right. destruct Hrest as [E|[E _]]; rewrite E in Hq; [|done].
    by simplify_eq.
  - rewrite Hother in Hq by done. eauto.
Qed.

Lemma deliver_pending k :
  is_pending c' k <-> is_pending (w_chain w) k /\ k ∉ map ae_response_tx popped.
Proof.
  destruct (iv_queue _ Hi _ _ Hs) as [Hn He]. rewrite map_app in Hn. apply NoDup_app in Hn as (_ & Hd & _).
  split.
  - intros (s' & queue & e & Hq & Hin & Hk). destruct (deliver_queue _ _ Hq) as (q' & Hq' & [[Hne ->]|(-> & -> & ->)]).
    + split; [by exists s', q', e|]. intros Hp. apply list_elem_of_fmap in Hp as (e2 & Hk2 & He2).
      destruct (iv_queue _ Hi _ _ Hq') as [_ Hq2]. destruct (Hq2 e Hin) as (Hs1 & t1 & Ht1 & Hr1).
      destruct (He e2 ltac:(set_solver)) as (Hs2 & t2 & Ht2 & Hr2).
      rewrite Hk, Hk2, Ht2 in Ht1. simplify_eq. congruence.
    + split; [exists s, (popped ++ rest), e; set_solver|]. intros Hp. apply (Hd k Hp).
      rewrite <- Hk. by apply list_elem_of_fmap_2.
  - intros [(s' & queue & e & Hq & Hin & Hk) Hp]. destruct (decide (s' = s)) as [->|Hne].
    + rewrite Hs in Hq. simplify_eq. apply elem_of_app in Hin as [Hin|Hin].
      * destruct Hp. by apply list_elem_of_fmap_2.
      * destruct Hrest as [E|[_ ->]]; [|set_solver]. by exists s, rest, e.
    + exists s', queue, e. by rewrite Hother.
Qed.

Lemma deliver_thread k t' :
  w_threads w' !! k = Some t' ->
  exists t, w_threads w !! k = Some t /\
    (((k ∉ map ae_response_tx popped) /\ t' = t) \/
     exists i e, e ∈ popped /\ ae_response_tx e = k /\ t_request t = ae_request e /\
       t' = receive (answer d sc (now i) e).2 t).
Proof.
  destruct (iv_queue _ Hi _ _ Hs) as [Hn He]. rewrite map_app in Hn. apply NoDup_app in Hn as (Hn & _ & _).
  intros Hk. simpl in Hk. destruct (decide (k ∈ map ae_response_tx popped)) as [Hin|Hnin].
  - apply list_elem_of_fmap in Hin as (e & -> & Hin). pose proof Hin as Hin'.
    apply list_elem_of_lookup in Hin' as [i Hil].
    destruct (He e ltac:(set_solver)) as (_ & t & Ht & Hr).
    rewrite (send_in _ (ae_response_tx e) (answer d sc (now i) e).2) in Hk.
    + rewrite Ht in Hk. simpl in Hk. injection Hk as <-. exists t. split; [done|]. right.
      by exists i, e.
    + by rewrite answers_tx.
    + apply list_elem_of_lookup. exists i. by rewrite list_lookup_imap, Hil.
  - rewrite send_notin in Hk by (by rewrite answers_tx). eauto.
Qed.

Lemma answered_mono q r : answered w q r -> answered w' q r.
Proof. intros [Ha Hid]. split; [|done]. simpl. set_solver. Qed.

Lemma granted_mono q : granted w q -> granted w' q.
Proof. unfold granted. simpl. intros [(x & Hx)|[(x & Hx & ?)|(x & Hx & ?)]]; [left|right;left|right;right]; exists x; set_solver. Qed.

Lemma justified_mono t : justified w t -> justified w' t.
Proof.
  intros [Hb Hj]. split; [intros r Hr; apply answered_mono; auto|].
  destruct (t_pc t) as [| | | |r|r| | |[r|]]; auto using answered_mono, granted_mono.
Qed.

Lemma inv_deliver : inv w'.
Proof.
  assert (Hreq : map t_request (w_threads w') = map t_request (w_threads w)) by apply send_requests.
  destruct (iv_queue _ Hi _ _ Hs) as [Hn He]. split.
  - rewrite <- (map_map t_request rq_request_id), Hreq, map_map. apply Hi.
  - intros s' queue Hq. simpl in Hq. destruct (deliver_queue _ _ Hq) as (q' & Hq' & Hcase).
    destruct (iv_queue _ Hi _ _ Hq') as [Hn' He'].
    assert (Hsub : queue `sublist_of` q').
    { destruct Hcase as [[_ ->]|(_ & -> & ->)]; [done|]. by apply sublist_inserts_l. }
    split; [eapply sublist_NoDup; [exact Hn'|by apply (fmap_sublist ae_response_tx)]|].
    intros e Hin. destruct (He' e) as (Hk & t & Ht & Hr).
    { eapply elem_of_submseteq; [exact Hin|by apply sublist_submseteq]. }
    split; [done|].
    assert (Hl : map t_request (w_threads w') !! ae_response_tx e = Some (ae_request e)).
    { rewrite Hreq. change (map ?f ?l) with (f <$> l). by rewrite list_lookup_fmap, Ht, <- Hr. }
    change (map ?f ?l) with (f <$> l) in Hl. rewrite list_lookup_fmap in Hl.
    destruct (w_threads w' !! ae_response_tx e) as [t'|]; simplify_eq/=. eauto.
  - intros k t' Hk. apply deliver_thread in Hk as (t & Ht & [[Hnin ->]|(i & e & Hin & Htx & Hr & ->)]).
    + pose proof (iv_placed _ Hi _ _ Ht) as Hp. unfold placed in *. simpl.
      destruct (t_pc t); rewrite deliver_pending; tauto.
    + assert (Hpend : is_pending (w_chain w) k) by (exists s, (popped ++ rest), e; set_solver).
      assert (Hnot : ~ is_pending c' k).
      { rewrite deliver_pending. intros [_ Hx]. apply Hx. rewrite <- Htx. by apply list_elem_of_fmap_2. }
      pose proof (iv_placed _ Hi _ _ Ht) as Hp. unfold placed, receive in *.
      destruct (t_pc t) eqn:Epc; simpl; rewrite ?Epc; simpl; try tauto;
        (destruct Hp as [[_ ->]|[? _]]; [|done]); right; (split; [done|]); by eexists.
  - intros k t' Hk. apply deliver_thread in Hk as (t & Ht & [[Hnin ->]|(i & e & Hin & Htx & Hr & ->)]);
      pose proof (justified_mono _ (iv_justified _ Hi _ _ Ht)) as [Hb Hj]; [done|].
    assert (Ha : answered w' (t_request t) (answer d sc (now i) e).2).
    { split; [|simpl; by rewrite Hr]. simpl. rewrite Hr. apply elem_of_app. right.
      apply list_elem_of_fmap. by exists e. }
    unfold justified, receive. destruct (t_pc t) eqn:Epc; simpl; rewrite ?Epc;
      (split; [|done]); try done; intros x [Hx| ->%list_elem_of_singleton]%elem_of_app; auto.
  - simpl. rewrite E1. intros s' m command Hm Hc.
    destruct (iv_session _ Hi _ _ _ Hm Hc) as (q & Hq & ?). exists q. split; [set_solver|done].
  - simpl. rewrite E2. intros command Hc.
    destruct (iv_permanent _ Hi _ Hc) as (q & Hq & ?). exists q. split; [set_solver|done].
  - intros s' h Hh. simpl in Hh. rewrite E3 in Hh. destruct (iv_history _ Hi _ _ Hh) as [Hl Hr].
    split; [done|]. intros r Hin. destruct (Hr r Hin) as (t & Ht & Hk & Hid).
    assert (Htq : t_request t ∈ map t_request (w_threads w'))
      by (rewrite Hreq; by apply list_elem_of_fmap_2).
    apply list_elem_of_fmap in Htq as (y & Hy & Hyin). exists y. by rewrite <- Hy.
Qed.

End Deliver.

(** ** Every reachable world *)

Lemma inv_request w q :
  inv w -> rq_request_id q ∉ map (fun t => rq_request_id (t_request t)) (w_threads w) ->
  inv {| w_chain := w_chain w;
         w_threads := w_threads w ++ [{| t_request := q; t_pc := AtPermanent; t_inbox := [] |}];
         w_answers := w_answers w |}.
Proof.
  intros Hi Hq.
  assert (Hnew : forall k x, (w_threads w ++ [{| t_request := q; t_pc := AtPermanent; t_inbox := [] |}]) !! k
            = Some x -> w_threads w !! k = Some x \/
              (k = length (w_threads w) /\ x = {| t_request := q; t_pc := AtPermanent; t_inbox := [] |})).
  { intros k x Hk. apply lookup_app_Some in Hk as [Hk|[Hle Hk]]; [auto|]. right.
    apply list_lookup_singleton_Some in Hk as [E <-]. split; [lia|done]. }
  split; simpl.
  - rewrite map_app. apply NoDup_app. split; [apply Hi|]. split; [|apply NoDup_singleton].
    intros x Hx Hx'. simpl in Hx'. apply list_elem_of_singleton in Hx' as ->. done.
  - intros s queue Hs. destruct (iv_queue _ Hi _ _ Hs) as [Hn He]. split; [done|]. intros e Hin.
    destruct (He e Hin) as (Hk & t & Ht & Hr). split; [done|]. exists t.
    split; [by apply lookup_app_l_Some|done].
  - intros k x Hk. apply Hnew in Hk as [Hk|[-> ->]]; [by apply (iv_placed _ Hi)|].
    split; [|done]. intros (s & queue & e & Hs & Hin & Hk).
    destruct (iv_queue _ Hi _ _ Hs) as [_ He]. destruct (He e Hin) as (_ & t & Ht & _).
    apply lookup_lt_Some in Ht. lia.
  - intros k x Hk. apply Hnew in Hk as [Hk|[-> ->]]; [by apply (iv_justified _ Hi k)|].
    split; [set_solver|done].
  - apply Hi.
  - apply Hi.
  - intros s h Hh. destruct (iv_history _ Hi _ _ Hh) as [Hl Hr]. split; [done|]. intros r Hin.
    destruct (Hr r Hin) as (t & Ht & ?). exists t. split; [set_solver|done].
Qed.

Lemma inv_step w w' : astep w w' -> inv w -> inv w'.
Proof.
  intros Hs Hi. destruct Hs as [q Hq|j now t t' c' Hj Ha|j t Hj Hpc Hin|s d sc all now|s now|s].
  - by apply inv_request.
  - by eapply inv_act.
  - apply inv_thread_same; try done; [apply Hi|..].
    + pose proof (iv_placed _ Hi _ _ Hj) as Hp. unfold placed in *. by rewrite Hpc in Hp.
    + pose proof (iv_justified _ Hi _ _ Hj) as [Hb _]. by split.
  - unfold resolve_approval. destruct (pending (w_chain w) !! s) as [queue|] eqn:Es.
    + assert (Hcut : queue = (take_entries all queue).1 ++ (take_entries all queue).2).
      { unfold take_entries. destruct all; [by rewrite app_nil_r|]. by destruct queue. }
      destruct (take_entries all queue) as [popped rest]. simpl in Hcut. subst queue.
      eapply inv_deliver; try done; simpl.
      * intros s' Hne. by rewrite lookup_insert_ne.
      * left. apply lookup_insert_eq.
    + unfold deliver. simpl. rewrite app_nil_r. by destruct w.
  - unfold clear_session. destruct (pending (w_chain w) !! s) as [queue|] eqn:Es.
    + eapply (inv_deliver w s queue []); try done; simpl.
      * by rewrite app_nil_r.
      * intros s' Hne. by rewrite lookup_delete_ne.
      * right. split; [apply lookup_delete_eq|done].
    + unfold deliver. simpl. rewrite app_nil_r. by destruct w.
  - split; simpl; try apply Hi. intros s' m command Hs.
    apply lookup_delete_Some in Hs as [_ Hs]. by apply (iv_session _ Hi).
Qed.

Lemma inv_reach w : asteps world_new w -> inv w.
Proof.
  intros Hs. assert (Hi := inv_new). revert Hi.
  induction Hs as [|a b c Hab _ IH]; eauto using inv_step.
Qed.

(** C29.  No command runs unapproved.  However requests, answers, timeouts and
    revocations interleave, a call of [request_approval] returns an approval only when
    a user approved that very request, or approved the same command in the same session
    for the session, or approved the command permanently. *)
Theorem approved_was_granted w j t r :
  asteps world_new w -> w_threads w !! j = Some t -> t_pc t = Done (Ok r) ->
  rs_decision r = Approved -> granted w (t_request t).
Proof.
  intros Hs Hj Hd Hr. pose proof (iv_justified _ (inv_reach _ Hs) _ _ Hj) as [_ Hju].
  rewrite Hd in Hju. auto.
Qed.

(** Requests are answered once.  In every reachable world a request that waits is
    either pending in the queue of its session or has exactly one answer in its channel;
    a request that has not been queued, has been answered or has returned is not pending;
    and a history holds at most a hundred responses, all to requests of its session. *)
Theorem requests_answered_once w :
  asteps world_new w ->
  (forall j t, w_threads w !! j = Some t -> placed (w_chain w) j t) /\
  (forall s queue e, pending (w_chain w) !! s = Some queue -> e ∈ queue ->
     rq_session_key (ae_request e) = s /\ exists t, w_threads w !! ae_response_tx e = Some t /\
       t_request t = ae_request e /\ (t_pc t = AtReceive \/ t_pc t = AtRemove)) /\
  (forall s h, history (w_chain w) !! s = Some h -> (length h <= 100)%nat /\
     forall r, r ∈ h -> exists t, t ∈ w_threads w /\ rq_session_key (t_request t) = s /\
       rq_request_id (t_request t) = rs_request_id r).
Proof.
  intros Hs%inv_reach. split; [apply Hs|]. split; [|apply Hs].
  intros s queue e Hq Hin. destruct (iv_queue _ Hs _ _ Hq) as [_ He].
  destruct (He e Hin) as (Hk & t & Ht & Hr). split; [done|]. exists t. do 2 (split; [done|]).
  pose proof (iv_placed _ Hs _ _ Ht) as Hp. unfold placed in Hp.
  assert (is_pending (w_chain w) (ae_response_tx e)) by (by exists s, queue, e).
  destruct (t_pc t); tauto.
Qed.

(** ** Every request returns *)

(** An upper bound on the actions a call still has before it. *)
Definition rank (p : pc) : nat :=
  match p with
  | AtPermanent => 8 | AtSession => 7 | AtEnqueue => 6 | AtReceive => 5
  | AtApply _ | AtRemove => 4 | AtRecord _ | AtTimeout => 3 | Done _ => 0
  end.

Lemma send_rank ms j : forall ts t,
  ts !! j = Some t -> exists t', foldl send ts ms !! j = Some t' /\ t_pc t' = t_pc t.
Proof.
  induction ms as [|m ms IH]; intros ts t Hj; [eauto|]. simpl.
  destruct (decide (m.1 = j)) as [<-|Hne].
  - destruct (IH (send ts m) (receive m.2 t)) as (t' & Ht' & Hp).
    { unfold send. by rewrite list_lookup_alter_eq, Hj. }
    exists t'. split; [done|]. rewrite Hp. unfold receive. destruct (t_pc t) eqn:E; simpl; by rewrite ?E.
  - apply IH. unfold send. by rewrite list_lookup_alter_ne.
Qed.

Lemma act_rank j now c t t' c' : act j now c t = Some (t', c') -> (rank (t_pc t') < rank (t_pc t))%nat.
Proof.
  unfold act. destruct (t_pc t); intros Ha; simplify_eq; simpl; try lia.
  - destruct (permanently_approved _ _); simpl; lia.
  - destruct (session_approved _ _ _); simpl; lia.
  - destruct (t_inbox t); simplify_eq. simpl. lia.
Qed.

(**  Every request returns.  A call that has not returned can always go on, by an
    action of its own or by its timeout, each of which brings it nearer to its end, and
    nothing that other threads, users or clocks do takes it further away: after at most
    eight of its own actions it has returned. *)
Theorem request_terminates w j t :
  w_threads w !! j = Some t ->
  (rank (t_pc t) <= 8)%nat /\
  ((exists r, t_pc t = Done r) \/
   exists w' t', astep w w' /\ w_threads w' !! j = Some t' /\ (rank (t_pc t') < rank (t_pc t))%nat) /\
  forall w', astep w w' -> exists t', w_threads w' !! j = Some t' /\
    (rank (t_pc t') <= rank (t_pc t))%nat.
Proof.
  intros Hj. pose proof (lookup_lt_Some _ _ _ Hj) as Hlt. split; [destruct (t_pc t); simpl; lia|]. split.
  - destruct (act j 0 (w_chain w) t) as [[t' c']|] eqn:Ea.
    + right. eexists _, t'. split; [by eapply as_thread|]. simpl.
      rewrite list_lookup_insert_eq by done. split; [done|]. by eapply act_rank.
    + unfold act in Ea. destruct (t_pc t) as [| | | | | | | |r] eqn:Hpc; try done; [|eauto].
      destruct (t_inbox t) eqn:Hin; [|done]. right. eexists _, (at_pc t AtRemove).
      split; [by eapply as_timeout|]. simpl. rewrite list_lookup_insert_eq by done. split; [done|].
      simpl. lia.
  - intros w' Hs. destruct Hs as [q Hq|k now x x' c' Hk Ha|k x Hk Hpc Hin|s d sc all now|s now|s].
    + exists t. simpl. split; [by apply lookup_app_l_Some|done].
    + simpl. destruct (decide (k = j)) as [->|Hne].
      * exists x'. rewrite list_lookup_insert_eq by done. split; [done|].
        rewrite Hj in Hk. simplify_eq. apply act_rank in Ha. lia.
      * exists t. by rewrite list_lookup_insert_ne.
    + simpl. destruct (decide (k = j)) as [->|Hne].
      * rewrite Hj in Hk. simplify_eq. eexists. rewrite list_lookup_insert_eq by done.
        split; [done|]. rewrite Hpc. simpl. lia.
      * exists t. by rewrite list_lookup_insert_ne.
    + destruct (resolve_approval _ _ _) as [[n c] popped]. simpl.
      destruct (send_rank (imap (fun i => answer d sc (now i)) popped) j _ _ Hj) as (t' & Ht' & Hp).
      exists t'. by rewrite Hp.
    + destruct (clear_session _ _) as [[n c] popped]. simpl.
      destruct (send_rank (imap (fun i => answer Denied Once (now i)) popped) j _ _ Hj) as (t' & Ht' & Hp).
      exists t'. by rewrite Hp.
    + exists t. done.
Qed.

(** ** Worked runs *)

Inductive label : Type :=
| LRequest (q : ApprovalRequest)
| LAct (j : nat) (now : Z)
| LTimeout (j : nat)
| LResolve (s : string) (d : ApprovalDecision) (sc : ApprovalScope) (all : bool) (now : Z)
| LClear (s : string) (now : Z).

Definition exec (l : label) (w : World) : option World :=
  match l with
  | LRequest q =>
      if bool_decide (rq_request_id q ∉ map (fun t => rq_request_id (t_request t)) (w_threads w))
      then Some {| w_chain := w_chain w;
                   w_threads := w_threads w ++ [{| t_request := q; t_pc := AtPermanent; t_inbox := [] |}];
                   w_answers := w_answers w |}
      else None
  | LAct j now =>
      match w_threads w !! j with
      | Some t =>
          match act j now (w_chain w) t with
          | Some (t', c') => Some {| w_chain := c'; w_threads := <[j := t']> (w_threads w);
                                     w_answers := w_answers w |}
          | None => None
          end
      | None => None
      end
  | LTimeout j =>
      match w_threads w !! j with
      | Some t =>
          match t_pc t, t_inbox t with
          | AtReceive, [] =>
              Some {| w_chain := w_chain w; w_threads := <[j := at_pc t AtRemove]> (w_threads w);
                      w_answers := w_answers w |}
          | _, _ => None
          end
      | None => None
      end
  | LResolve s d sc all now =>
      Some (let '(_, c, popped) := resolve_approval (w_chain w) s all in
            deliver w c d sc (fun _ => now) popped)
  | LClear s now =>
      Some (let '(_, c, popped) := clear_session (w_chain w) s in
            deliver w c Denied Once (fun _ => now) popped)
  end.

Fixpoint exec_all (ls : list label) (w : World) : option World :=
  match ls with [] => Some w | l :: ls' => exec l w ≫= exec_all ls' end.

Lemma exec_steps ls : forall w w', exec_all ls w = Some w' -> asteps w w'.
Proof.
  induction ls as [|l ls IH]; intros w w' He; simpl in He; [by simplify_eq|].
  destruct (exec l w) as [w1|] eqn:El; [|done]. simpl in He.
  eapply rtc_l; [|by apply IH]. destruct l as [q|j now|j|s d sc all now|s now]; simpl in El.
  - case_bool_decide; simplify_eq. by apply as_request.
  - destruct (w_threads w !! j) as [t|] eqn:Ej; [|done].
    destruct (act j now (w_chain w) t) as [[t' c']|] eqn:Ea; simplify_eq. by eapply as_thread.
  - destruct (w_threads w !! j) as [t|] eqn:Ej; [|done].
    destruct (t_pc t) eqn:Ep; try done. destruct (t_inbox t) eqn:Ei; simplify_eq.
    by eapply as_timeout.
  - simplify_eq. apply as_resolve.
  - simplify_eq. apply as_clear.
Qed.

Definition ex_request (id : string) : ApprovalRequest :=
  {| rq_request_id := id; rq_session_key := "s"; rq_command := "rm"; rq_reason := "";
     rq_created_at := 0; rq_timeout_secs := 300 |}.

(** Two requests for the same command; the first is approved for the session, and
    the second, not queued before, finds the command approved. *)
Definition ex_labels : list label :=
  [LRequest (ex_request "r1"); LRequest (ex_request "r2"); LAct 0 1; LAct 0 1; LAct 0 1;
   LResolve "s" Approved Session false 2; LAct 0 3; LAct 0 3; LAct 1 4; LAct 1 4; LAct 0 5].

Definition ex_run : World := default world_new (exec_all ex_labels world_new).

Lemma ex_run_reachable : asteps world_new ex_run.
Proof.
  unfold ex_run. destruct (exec_all ex_labels world_new) as [w|] eqn:E; simpl; [|done].
  by apply exec_steps in E.
Qed.

Definition ex_thread (j : nat) : Thread :=
  default {| t_request := ex_request ""; t_pc := AtPermanent; t_inbox := [] |} (w_threads ex_run !! j).

Lemma ex_thread_lookup j : (j < length (w_threads ex_run))%nat ->
  w_threads ex_run !! j = Some (ex_thread j).
Proof. intros [t Ht]%lookup_lt_is_Some_2. unfold ex_thread. by rewrite Ht. Qed.

Definition ex_response : ApprovalResponse :=
  {| rs_request_id := "r2"; rs_decision := Approved; rs_scope := Session; rs_responded_at := 4 |}.

Lemma approved_was_granted_witness : granted ex_run (t_request (ex_thread 1)).
Proof.
  apply (approved_was_granted ex_run 1 (ex_thread 1) ex_response ex_run_reachable).
  - apply ex_thread_lookup. vm_compute. lia.
  - vm_compute. reflexivity.
  - reflexivity.
Defined.

Lemma requests_answered_once_witness : placed (w_chain ex_run) 0 (ex_thread 0).
Proof.
  apply (requests_answered_once ex_run ex_run_reachable). apply ex_thread_lookup.
  vm_compute. lia.
Defined.

Lemma request_terminates_witness : (rank (t_pc (ex_thread 0)) <= 8)%nat.
Proof.
  apply (request_terminates ex_run 0 (ex_thread 0)). apply ex_thread_lookup. vm_compute. lia.
Defined.

(** An approval can be lost: the user's answer arrives between the timeout and the
    removal of the request, [resolve_approval] counts one answered request, and the
    call returns the timeout. *)
Example approval_lost_in_timeout :
  (fun w => t_pc <$> w_threads w !! 0%nat) <$>
    exec_all [LRequest (ex_request "r1"); LAct 0 1; LAct 0 1; LAct 0 1; LTimeout 0;
              LResolve "s" Approved PermanentScope false 2; LAct 0 3; LAct 0 3] world_new
  = Some (Some (Done (Err "Approval request timed out"))).
Proof. vm_compute. reflexivity. Qed.
