(* ===== verification/LedgerQueries.v ===== *)
(** * The ledger's queries ([crates/zaion-ledger/src/ledger.rs])

    The listing queries of [EventLedger].  SQLite leaves the order of rows with
    equal sort keys open: [visit] is the order in which it meets the rows of the
    table, any permutation of them, and the sort is stable.  Full-text search is not
    modelled. *)

From stdpp Require Import prelude gmap strings list sorting.
From S2P Require Import Prelude.
From S2P Require Import Json.
From S2P Require Import Env.
From S2P Require Import Concrete.
From S2P Require Import Database.
From S2P Require Import Samples.
From S2P Require Import Ledger.
From S2P Require Import LedgerChain.
Local Open Scope res_scope.
Local Open Scope Z_scope.

(** [zaion_types::event::EventType] *)
Inductive EventType : Type :=
| ProcessCreated | ProcessMigrated | ChannelReceived | ChannelSent | TaskStarted
| TaskCompleted | TaskFailed | ToolCalled | ToolResult | ProviderInvoked
| ProviderResponded | SkillDistilled | RuleApplied | CheckpointWritten
| CheckpointRestored | IdentityVerified | OmniRoute | AnswerTrace | TurnProofType
| ToolReceiptType | ToolReceiptProofJoin | OperationEvent
| Custom (s : string).

Definition event_type_str (t : EventType) : string :=
  match t with
  | ProcessCreated => "process.created" | ProcessMigrated => "process.migrated"
  | ChannelReceived => "channel.received" | ChannelSent => "channel.sent"
  | TaskStarted => "task.started" | TaskCompleted => "task.completed"
  | TaskFailed => "task.failed" | ToolCalled => "tool.called"
  | ToolResult => "tool.result" | ProviderInvoked => "provider.invoked"
  | ProviderResponded => "provider.responded" | SkillDistilled => "skill.distilled"
  | RuleApplied => "rule.applied" | CheckpointWritten => "checkpoint.written"
  | CheckpointRestored => "checkpoint.restored" | IdentityVerified => "identity.verified"
  | OmniRoute => "omni.route" | AnswerTrace => "answer.trace"
  | TurnProofType => "turn.proof" | ToolReceiptType => "tool.receipt"
  | ToolReceiptProofJoin => "tool.receipt.proof_join" | OperationEvent => "operation.event"
  | Custom s => s
  end.

(** ** Appends by type *)

Section TypedAppends.
Context `{Env}.

Definition append_typed_event (self : EventLedger) (db : Db)
    (fresh_id created_at principal namespace_key : string) (event_type : EventType)
    (payload : Value) (run_id signature : option string) : result LedgerError (string * Db) :=
  append_event self db fresh_id created_at principal namespace_key
    (event_type_str event_type) payload run_id signature.

Definition append_typed_event_with_parent (self : EventLedger) (db : Db)
    (fresh_id created_at principal namespace_key : string) (event_type : EventType)
    (payload : Value) (run_id signature parent_event_id : option string)
  : result LedgerError (string * Db) :=
  append_event_with_parent self db fresh_id created_at principal namespace_key
    (event_type_str event_type) payload run_id signature parent_event_id.

Definition append_signed_event (self : EventLedger) (db : Db) (fresh_id created_at : string)
    (keypair : ZaionKeypair) (namespace_key event_type : string) (payload : Value)
    (run_id : option string) : result LedgerError (string * Db) :=
  append_signed_event_with_parent self db fresh_id created_at keypair namespace_key
    event_type payload run_id None.

Definition append_signed_typed_event (self : EventLedger) (db : Db)
    (fresh_id created_at : string) (keypair : ZaionKeypair) (namespace_key : string)
    (event_type : EventType) (payload : Value) (run_id : option string)
  : result LedgerError (string * Db) :=
  append_signed_event self db fresh_id created_at keypair namespace_key
    (event_type_str event_type) payload run_id.

Definition append_signed_typed_event_with_parent (self : EventLedger) (db : Db)
    (fresh_id created_at : string) (keypair : ZaionKeypair) (namespace_key : string)
    (event_type : EventType) (payload : Value) (run_id parent_event_id : option string)
  : result LedgerError (string * Db) :=
  append_signed_event_with_parent self db fresh_id created_at keypair namespace_key
    (event_type_str event_type) payload run_id parent_event_id.

(** The event that the arguments of the inserting wrappers describe. *)
Definition event_of (event_id principal namespace_key event_type : string) (payload : Value)
    (run_id signature : option string) (created_at : string)
    (parent_event_id : option string) : LedgerEvent :=
  {| le_event_id := event_id; le_principal_id := principal;
     le_namespace_key := namespace_key; le_run_id := run_id; le_event_type := event_type;
     le_payload := payload; le_signature := signature; le_created_at := created_at;
     le_parent_event_id := parent_event_id |}.

Definition insert_event_with_id_and_parent (self : EventLedger) (db : Db)
    (event_id principal namespace_key event_type : string) (payload : Value)
    (run_id signature : option string) (created_at : string)
    (parent_event_id : option string) : result LedgerError Db :=
  let? (_, db') := insert_event_with_id self db
    (event_of event_id principal namespace_key event_type payload run_id signature
       created_at parent_event_id) in
  Ok db'.

(** [EventLedger::insert_event_with_id] *)
Definition insert_event_without_parent (self : EventLedger) (db : Db)
    (event_id principal namespace_key event_type : string) (payload : Value)
    (run_id signature : option string) (created_at : string) : result LedgerError Db :=
  insert_event_with_id_and_parent self db event_id principal namespace_key event_type
    payload run_id signature created_at None.

End TypedAppends.

(** [n as i64] of an unsigned 64-bit integer. *)
Definition as_i64 (n : Z) : Z := if bool_decide (n <= i64_max) then n else n - 2 ^ 64.

(** [LIMIT ?]: a negative limit is none. *)
Definition sql_limit {A} (limit : Z) (l : list A) : list A :=
  if bool_decide (limit < 0) then l else take (Z.to_nat limit) l.

Section Queries.
Context `{Env} (visit : list EventRow -> list EventRow).

(** [SELECT .. WHERE sel ORDER BY seq_num DESC] *)
Definition rows_desc (sel : EventRow -> bool) (db : Db) : list EventRow :=
  order_by_key (fun e => - ev_seq_num e) (filter (fun e => sel e = true) (visit (events db))).

(** [query_map(.., row_to_event)?.collect()] *)
Definition decode_rows (rows : list EventRow) : result LedgerError (list LedgerEvent) :=
  collect_map (fun e => ledger_sqlite (row_to_event e)) rows.

Definition list_events (self : EventLedger) (db : Db) (session_key : string)
    (event_type : option string) (limit : Z) : result LedgerError (list LedgerEvent) :=
  let sel e := bool_decide (ev_namespace_key e = session_key)
               && is_none_or (fun et => bool_decide (ev_event_type e = et)) event_type in
  with_conn self db (decode_rows (sql_limit (as_i64 limit) (rows_desc sel db))).

Definition list_typed_events (self : EventLedger) (db : Db) (session_key : string)
    (event_type : option EventType) (limit : Z) : result LedgerError (list LedgerEvent) :=
  list_events self db session_key (event_type_str <$> event_type) limit.

(** The loop of the payload queries: rows are decoded until [limit] of them match. *)
Fixpoint scan_loop (keep : LedgerEvent -> bool) (limit : Z) (matches : list LedgerEvent)
    (rows : list EventRow) : result LedgerError (list LedgerEvent) :=
  match rows with
  | [] => Ok matches
  | row :: rows' =>
      let? event := ledger_sqlite (row_to_event row) in
      if keep event then
        let matches := matches ++ [event] in
        if bool_decide (limit <= Z.of_nat (length matches)) then Ok matches
        else scan_loop keep limit matches rows'
      else scan_loop keep limit matches rows'
  end.

Definition payload_query (keep : LedgerEvent -> bool) (self : EventLedger) (db : Db)
    (session_key event_type : string) (limit : Z) : result LedgerError (list LedgerEvent) :=
  if bool_decide (limit = 0) then Ok []
  else
    let sel e := bool_decide (ev_namespace_key e = session_key)
                 && bool_decide (ev_event_type e = event_type) in
    with_conn self db (scan_loop keep limit [] (rows_desc sel db)).

Definition payload_is (payload_key payload_value : string) (event : LedgerEvent) : bool :=
  bool_decide (pointer_str [payload_key] (le_payload event) = Some payload_value).

Definition list_events_by_payload_string (self : EventLedger) (db : Db)
    (session_key event_type payload_key payload_value : string) (limit : Z)
  : result LedgerError (list LedgerEvent) :=
  payload_query (payload_is payload_key payload_value) self db session_key event_type limit.

Definition payload_has (payload_key payload_value : string) (event : LedgerEvent) : bool :=
  match value_get payload_key (le_payload event) with
  | Some (VArray values) =>
      existsb (fun v => bool_decide (as_str v = Some payload_value)) values
  | _ => false
  end.

Definition list_events_by_payload_string_array_contains (self : EventLedger) (db : Db)
    (session_key event_type payload_key payload_value : string) (limit : Z)
  : result LedgerError (list LedgerEvent) :=
  payload_query (payload_has payload_key payload_value) self db session_key event_type limit.

Definition list_global_events (self : EventLedger) (db : Db) (limit : Z)
  : result LedgerError (list LedgerEvent) :=
  with_conn self db (decode_rows (sql_limit (as_i64 limit) (rows_desc (fun _ => true) db))).

Definition list_principal_events (self : EventLedger) (db : Db) (principal : string) (limit : Z)
  : result LedgerError (list LedgerEvent) :=
  with_conn self db (decode_rows (sql_limit (as_i64 limit)
    (rows_desc (fun e => bool_decide (ev_principal_id e = principal)) db))).

(** [.. WHERE principal_id = ?1 AND seq_num >= ?2 ORDER BY seq_num ASC] *)
Definition list_events_from_seq (self : EventLedger) (db : Db) (principal : string)
    (from_seq : Z) : result LedgerError (list LedgerEvent) :=
  with_conn self db (decode_rows (order_by_key ev_seq_num
    (filter (fun e => ev_principal_id e = principal /\ as_i64 from_seq <= ev_seq_num e)
       (visit (events db))))).

Definition event_stats (self : EventLedger) (db : Db) (principal : string)
  : result LedgerError (nat * option string) :=
  with_conn self db
    (let rows := rows_desc (fun e => bool_decide (ev_principal_id e = principal)) db in
     Ok (length rows, ev_created_at <$> head rows)).

End Queries.
