(* ===== verification/Sync.v ===== *)
(** * Replication between ledgers ([crates/zaion-sync/src])

    Bundles of a principal's events ([export.rs], [import.rs]), the difference of two
    sets of event identifiers ([diff.rs]) and the relay's handlers ([relay.rs]).
    [ledger_text] and [chrono_text] render errors.  Reading and writing bundle files,
    the HTTP transport and the join errors of blocking tasks are not modelled. *)

From stdpp Require Import prelude gmap strings list sorting.
From S2P Require Import Prelude.
From S2P Require Import Json.
From S2P Require Import Env.
From S2P Require Import Database.
From S2P Require Import Ledger.
From S2P Require Import LedgerQueries.
Local Open Scope res_scope.
Local Open Scope Z_scope.

Inductive SyncError : Type :=
| SyncIo (e : string)
| SyncJson (e : string)
| SyncLedger (message : string)
| HashMismatch (expected actual : string)
| NoEvents
| InvalidBundle (message : string)
| Relay (message : string).

Record SyncProofArtifact : Type := {
  sa_kind : string;
  sa_id : string;
  sa_relative_path : string;
  sa_content_hash : string;
  sa_content : string
}.

Record SyncBundle : Type := {
  sb_principal_id : string;
  sb_from_seq : Z;
  sb_events : list Value;
  sb_exported_at : string;
  sb_bundle_hash : string;
  sb_proof_artifacts : list SyncProofArtifact
}.

Record ImportResult : Type := {
  ir_imported : Z;
  ir_skipped_duplicates : Z;
  ir_principal_id : string
}.

#[export] Instance EventInsertDisposition_eq_dec : EqDecision EventInsertDisposition.
Proof. solve_decision. Defined.

(** ** [SyncDiff::compute] *)

Record SyncDiff : Type := {
  sd_local_count : Z;
  sd_remote_count : Z;
  sd_missing_locally : list string;
  sd_missing_remotely : list string
}.

Definition compute (local_ids remote_ids : list string) : SyncDiff :=
  let local_set : gset string := list_to_set local_ids in
  let remote_set : gset string := list_to_set remote_ids in
  {| sd_local_count := Z.of_nat (length local_ids);
     sd_remote_count := Z.of_nat (length remote_ids);
     sd_missing_locally := filter (fun id => id ∉ local_set) remote_ids;
     sd_missing_remotely := filter (fun id => id ∉ remote_set) local_ids |}.

(** ** Canonical JSON *)

(** [BTreeMap::insert]: entries in key order, a later value replaces an earlier. *)
Fixpoint btree_insert {A} (k : string) (a : A) (l : list (string * A)) : list (string * A) :=
  match l with
  | [] => [(k, a)]
  | (k', a') :: l' =>
      match String.compare k k' with
      | Lt => (k, a) :: l
      | Eq => (k, a) :: l'
      | Gt => (k', a') :: btree_insert k a l'
      end
  end.

Definition btree_of {A} (l : list (string * A)) : list (string * A) :=
  foldl (fun t m => btree_insert m.1 m.2 t) [] l.

Section Sync.
Context `{Env} (visit : list EventRow -> list EventRow).
Context (ledger_text : LedgerError -> string) (chrono_text : string -> string).

(** [export.rs]'s [canonical_json] *)
Fixpoint sync_canonical_json (value : Value) : string :=
  match value with
  | VNull => "null"
  | VBool v => if v then "true" else "false"
  | VNumber _ | VFloat _ | VString _ => json_to_string value
  | VArray items => "[" +:+ String.concat "," (map sync_canonical_json items) +:+ "]"
  | VObject members =>
      let sorted := btree_of (map (fun m => (m.1, sync_canonical_json m.2)) members) in
      "{" +:+ String.concat ","
                (map (fun kt => json_to_string (VString kt.1) +:+ ":" +:+ kt.2) sorted) +:+ "}"
  end.

(** What [compute_bundle_hash] feeds to the hasher. *)
Definition bundle_preimage (events : list Value) : string :=
  foldr (fun event acc =>
           let canonical := sync_canonical_json event in
           le_bytes 8 (str_len canonical) +:+ canonical +:+ acc) EmptyString events.

Definition compute_bundle_hash (events : list Value) : string :=
  hex_encode (sha256 (bundle_preimage events)).

(** ** Export *)

(** [SignatureBytes]: an array of byte values. *)
Fixpoint bytes_value (s : string) : list Value :=
  match s with
  | EmptyString => []
  | String a s' => VNumber (Z.of_N (Ascii.N_of_ascii a)) :: bytes_value s'
  end.

(** [serde_json::to_value] of a [LedgerEvent]; an absent parent is skipped. *)
Definition event_value (e : LedgerEvent) : Value :=
  VObject ([("event_id", VString (le_event_id e));
            ("principal_id", VString (le_principal_id e));
            ("namespace_key", VString (le_namespace_key e));
            ("run_id", opt_string (le_run_id e));
            ("event_type", VString (le_event_type e));
            ("payload", le_payload e);
            ("signature", match le_signature e with
                          | Some s => VArray (bytes_value s) | None => VNull end);
            ("created_at", VString (le_created_at e))]
           ++ match le_parent_event_id e with
              | Some p => [("parent_event_id", VString p)] | None => [] end).

Definition sync_ledger {A} (r : result LedgerError A) : result SyncError A :=
  match r with Ok a => Ok a | Err e => Err (SyncLedger (ledger_text e)) end.

(** [SyncBundle::export]; [exported_at] is the clock. *)
Definition export (ledger : EventLedger) (db : Db) (principal : string) (from_seq : Z)
    (exported_at : string) : result SyncError SyncBundle :=
  let? raw_events := sync_ledger (list_events_from_seq visit ledger db principal from_seq) in
  guard? negb (bool_decide (raw_events = [])) else NoEvents in
  let events := map event_value raw_events in
  Ok {| sb_principal_id := principal; sb_from_seq := from_seq; sb_events := events;
        sb_exported_at := exported_at; sb_bundle_hash := compute_bundle_hash events;
        sb_proof_artifacts := [] |}.

(** ** Import *)

(** The bytes of [decode_signature]'s loop. *)
Fixpoint decode_bytes (arr : list Value) : result SyncError string :=
  match arr with
  | [] => Ok EmptyString
  | item :: arr' =>
      let? n := ok_or (as_u64 item) (InvalidBundle "signature byte is not an integer") in
      guard? bool_decide (n <= 255)
        else InvalidBundle ("signature byte " +:+ z_to_string n +:+ " is outside 0..=255") in
      let? rest := decode_bytes arr' in
      Ok (String (Ascii.ascii_of_N (Z.to_N n)) rest)
  end.

Definition decode_signature (value : Value) : result SyncError string :=
  match value with
  | VArray arr => decode_bytes arr
  | _ => Err (InvalidBundle "signature must be an array of bytes")
  end.

(** A field that must be a non-empty string. *)
Definition required_str (obj : list (string * Value)) (field : string)
  : result SyncError string :=
  let missing := InvalidBundle ("event missing required field '" +:+ field +:+ "'") in
  let? s := ok_or (members_get field obj ≫= as_str) missing in
  guard? negb (bool_decide (s = "")) else missing in
  Ok s.

(** A field that may be a non-empty string. *)
Definition optional_str (obj : list (string * Value)) (field : string) : option string :=
  match members_get field obj ≫= as_str with
  | Some s => if bool_decide (s = "") then None else Some s
  | None => None
  end.

Definition decode_bundle_event (event_json : Value) (bundle_principal_id : string)
  : result SyncError LedgerEvent :=
  let? obj := ok_or (as_object event_json)
                (InvalidBundle "event entry must be a JSON object") in
  let? event_id := required_str obj "event_id" in
  let? principal := required_str obj "principal_id" in
  guard? bool_decide (principal = bundle_principal_id)
    else InvalidBundle ("event principal '" +:+ principal
           +:+ "' does not match bundle principal '" +:+ bundle_principal_id +:+ "'") in
  let? namespace_key := required_str obj "namespace_key" in
  let? event_type := required_str obj "event_type" in
  let? created_at := required_str obj "created_at" in
  let? _ := ok_or (parse_from_rfc3339 created_at)
              (InvalidBundle ("invalid created_at '" +:+ created_at +:+ "': "
                 +:+ chrono_text created_at)) in
  let? payload := ok_or (members_get "payload" obj)
                    (InvalidBundle "event missing required field 'payload'") in
  let? signature := match members_get "signature" obj with
                    | None | Some VNull => Ok None
                    | Some value => let? bytes := decode_signature value in Ok (Some bytes)
                    end in
  Ok {| le_event_id := event_id; le_principal_id := principal;
        le_namespace_key := namespace_key; le_run_id := optional_str obj "run_id";
        le_event_type := event_type; le_payload := payload; le_signature := signature;
        le_created_at := created_at;
        le_parent_event_id := optional_str obj "parent_event_id" |}.

(** The counting loop of [import]. *)
Definition count_disposition (d : EventInsertDisposition) (ds : list EventInsertDisposition) : Z :=
  Z.of_nat (length (filter (fun x => x = d) ds)).

(** [ImportResult::import] *)
Definition import (ledger : EventLedger) (db : Db) (bundle : SyncBundle)
  : result SyncError (ImportResult * Db) :=
  let actual_hash := compute_bundle_hash (sb_events bundle) in
  guard? bool_decide (actual_hash = sb_bundle_hash bundle)
    else HashMismatch (sb_bundle_hash bundle) actual_hash in
  let? events := collect_map (fun event => decode_bundle_event event (sb_principal_id bundle))
                   (sb_events bundle) in
  let? (dispositions, db') := sync_ledger (insert_events_with_ids_atomic ledger db events) in
  Ok ({| ir_imported := count_disposition Inserted dispositions;
         ir_skipped_duplicates := count_disposition Existing dispositions;
         ir_principal_id := sb_principal_id bundle |}, db').

(** ** The relay *)

Record RelayState : Type := {
  rs_ledger : EventLedger;
  rs_principal_id : string;
  rs_peers : gset string;
  rs_auth_token : option string
}.

(** The two headers [require_auth] reads, where they are valid text. *)
Record Headers : Type := {
  hd_authorization : option string;
  hd_relay_token : option string
}.

Inductive Request : Type :=
| GetStatus
| GetExport (from : Z)
| PostImport (bundle : SyncBundle)
| GetPeers
| PostPeers (addr : string).

Inductive Body : Type :=
| StatusResponse (principal : string) (event_count : Z) (addr : string)
| BundleResponse (bundle : SyncBundle)
| ImportResponse (r : ImportResult)
| PeersResponse (peers : list string)
| ErrorBody (error : string).

Record Response : Type := { rp_status : Z; rp_body : Body }.

Definition ok_response (b : Body) : Response := {| rp_status := 200; rp_body := b |}.

(** [str::strip_prefix] *)
Fixpoint strip_prefix (p s : string) : option string :=
  match p, s with
  | EmptyString, _ => Some s
  | String a p', String b s' => if Ascii.eqb a b then strip_prefix p' s' else None
  | String _ _, EmptyString => None
  end.

(** [require_auth]: a response when the request is refused. *)
Definition require_auth (state : RelayState) (headers : Headers) : option Response :=
  match rs_auth_token state with
  | None => None
  | Some expected =>
      let bearer := hd_authorization headers ≫= strip_prefix "Bearer " in
      if bool_decide (bearer = Some expected) || bool_decide (hd_relay_token headers = Some expected)
      then None
      else Some {| rp_status := 401; rp_body := ErrorBody "missing or invalid relay token" |}
  end.

(** [let mut sorted = peers.iter().cloned().collect(); sorted.sort()] *)
Definition sorted_peers (peers : gset string) : list string :=
  order_by (fun a b => match String.compare a b with Gt => false | _ => true end)
    (elements peers).

Variable sync_text : SyncError -> string.

Definition handle_status (state : RelayState) (db : Db) : Response :=
  match event_stats visit (rs_ledger state) db (rs_principal_id state) with
  | Ok (event_count, _) =>
      ok_response (StatusResponse (rs_principal_id state) (Z.of_nat event_count) "")
  | Err e => {| rp_status := 500; rp_body := ErrorBody (ledger_text e) |}
  end.

Definition handle_export (state : RelayState) (db : Db) (headers : Headers) (from : Z)
    (exported_at : string) : Response :=
  match require_auth state headers with
  | Some response => response
  | None =>
      match export (rs_ledger state) db (rs_principal_id state) from exported_at with
      | Ok b => ok_response (BundleResponse b)
      | Err NoEvents =>
          {| rp_status := 204; rp_body := ErrorBody "no events from requested seq" |}
      | Err e => {| rp_status := 500; rp_body := ErrorBody (sync_text e) |}
      end
  end.

Definition handle_import (state : RelayState) (db : Db) (headers : Headers)
    (bundle : SyncBundle) : Response * Db :=
  match require_auth state headers with
  | Some response => (response, db)
  | None =>
      match import (rs_ledger state) db bundle with
      | Ok (r, db') => (ok_response (ImportResponse r), db')
      | Err e => ({| rp_status := 400; rp_body := ErrorBody (sync_text e) |}, db)
      end
  end.

Definition handle_peers_get (state : RelayState) : Response :=
  ok_response (PeersResponse (sorted_peers (rs_peers state))).

Definition with_peers (state : RelayState) (peers : gset string) : RelayState :=
  {| rs_ledger := rs_ledger state; rs_principal_id := rs_principal_id state;
     rs_peers := peers; rs_auth_token := rs_auth_token state |}.

Definition handle_peers_post (state : RelayState) (headers : Headers) (addr : string)
  : Response * RelayState :=
  match require_auth state headers with
  | Some response => (response, state)
  | None =>
      let state := with_peers state ({[ addr ]} ∪ rs_peers state) in
      (ok_response (PeersResponse (sorted_peers (rs_peers state))), state)
  end.

(** [build_router]: the handler of a request. *)
Definition route (state : RelayState) (db : Db) (headers : Headers) (exported_at : string)
    (r : Request) : Response * RelayState * Db :=
  match r with
  | GetStatus => (handle_status state db, state, db)
  | GetExport from => (handle_export state db headers from exported_at, state, db)
  | PostImport bundle =>
      let '(response, db') := handle_import state db headers bundle in (response, state, db')
  | GetPeers => (handle_peers_get state, state, db)
  | PostPeers addr =>
      let '(response, state') := handle_peers_post state headers addr in (response, state', db)
  end.

End Sync.
