(* ===== verification/SyncTheorems.v ===== *)
(** * Theorems about queries and replication *)

From stdpp Require Import prelude gmap strings list sorting.
From S2P Require Import Prelude.
From S2P Require Import Json.
From S2P Require Import Env.
From S2P Require Import Concrete.
From S2P Require Import Database.
From S2P Require Import Samples.
From S2P Require Import Ledger.
From S2P Require Import LedgerChain.
From S2P Require Import LedgerQueries.
From S2P Require Import Sync.
Local Open Scope res_scope.
Local Open Scope Z_scope.

(** ** Lists *)

Lemma filter_filter {A} (P Q : A -> Prop) `{forall x, Decision (P x)} `{forall x, Decision (Q x)}
    (l : list A) : filter (fun x => P x /\ Q x) l = filter Q (filter P l).
Proof.
  induction l as [|x l IH]; [done|]. destruct (decide (P x)) as [Hp|Hp].
  - rewrite (filter_cons_True P) by done. destruct (decide (Q x)).
    + by rewrite !filter_cons_True, IH by done.
    + rewrite !filter_cons_False, IH by naive_solver. done.
  - rewrite (filter_cons_False P), filter_cons_False, IH by naive_solver. done.
Qed.

Lemma sorted_drop {A} (R : A -> A -> Prop) n (l : list A) :
  StronglySorted R l -> StronglySorted R (drop n l).
Proof.
  revert n; induction l as [|x l IH]; intros n Hs; [by rewrite drop_nil|].
  destruct n; [done|]. inversion Hs; subst. simpl. by apply IH.
Qed.

Lemma nodup_key {A B} (f : A -> B) l x y :
  NoDup (map f l) -> x ∈ l -> y ∈ l -> f x = f y -> x = y.
Proof.
  induction l as [|a l IH]; intros Hn Hx Hy E; [set_solver|].
  simpl in Hn. apply NoDup_cons in Hn as [Hni Hn].
  apply elem_of_cons in Hx as [->|Hx], Hy as [->|Hy]; [done|..|by apply IH];
    destruct Hni; [rewrite E|rewrite <- E]; by apply list_elem_of_fmap_2.
Qed.

Lemma Forall2_drop {A B} (R : A -> B -> Prop) n l l' :
  Forall2 R l l' -> Forall2 R (drop n l) (drop n l').
Proof. intros HR. revert n. induction HR; intros [|n]; simpl; auto. Qed.

Lemma elem_of_drop {A} (x : A) n l : x ∈ drop n l -> x ∈ l.
Proof. intros Hx. rewrite <- (take_drop n l). set_solver. Qed.

Lemma filter_all {A} (P : A -> Prop) `{forall x, Decision (P x)} (l : list A) :
  Forall P l -> filter P l = l.
Proof. induction 1 as [|x l Hx _ IH]; [done|]. by rewrite filter_cons_True, IH. Qed.

Lemma collect_length {E A B} (f : A -> result E B) l out :
  collect_map f l = Ok out -> length out = length l.
Proof. intros Hc. apply collect_map_ok, Forall2_length in Hc. done. Qed.

(** ** Member order *)

Lemma btree_insert_perm {A} k (a : A) l :
  k ∉ map fst l -> btree_insert k a l ≡ₚ (k, a) :: l.
Proof.
  induction l as [|[k' a'] l IH]; intros Hk; [done|]. simpl in *.
  destruct (String.compare k k') eqn:E; [|done|].
  - apply String.compare_eq_iff in E. set_solver.
  - rewrite IH by set_solver. apply Permutation_swap.
Qed.

Lemma btree_insert_ordered {A} k (a : A) l :
  k ∉ map fst l -> StronglySorted (fun x y => str_lt x.1 y.1) l ->
  StronglySorted (fun x y => str_lt x.1 y.1) (btree_insert k a l).
Proof.
  intros Hk Hs. induction Hs as [|[k' a'] l Hs IH Hf]; [repeat constructor|]. simpl in *.
  destruct (String.compare k k') eqn:E.
  - apply String.compare_eq_iff in E. set_solver.
  - constructor; [by constructor|]. constructor; [done|].
    eapply Forall_impl; [exact Hf|]. simpl. intros x. by apply str_lt_trans.
  - constructor; [apply IH; set_solver|]. rewrite btree_insert_perm by set_solver.
    constructor; [by apply str_compare_Gt|done].
Qed.

Lemma btree_of_spec {A} (l : list (string * A)) :
  NoDup (map fst l) ->
  btree_of l ≡ₚ l /\ StronglySorted (fun x y => str_lt x.1 y.1) (btree_of l).
Proof.
  unfold btree_of. intros Hn.
  assert (G : forall t, StronglySorted (fun x y => str_lt x.1 y.1) t ->
            NoDup (map fst (t ++ l)) ->
            foldl (fun t m => btree_insert m.1 m.2 t) t l ≡ₚ t ++ l /\
            StronglySorted (fun x y => str_lt x.1 y.1)
              (foldl (fun t m => btree_insert m.1 m.2 t) t l)).
  { clear Hn. induction l as [|[k a] l IH]; intros t Ht Hn; simpl.
    - by rewrite app_nil_r.
    - rewrite map_app in Hn. simpl in Hn. apply NoDup_app in Hn as (Hn1 & Hd & Hn2).
      apply NoDup_cons in Hn2 as [Hk Hn2].
      assert (Hkt : k ∉ map fst t) by (intros Hin; apply (Hd k Hin); set_solver).
      destruct (IH (btree_insert k a t)) as [Hp Hs]; [by apply btree_insert_ordered|..].
      + rewrite btree_insert_perm by done. simpl. apply NoDup_cons. split.
        * rewrite map_app, elem_of_app. tauto.
        * rewrite map_app. apply NoDup_app. split; [done|]. split; [|done].
          intros x Hx. specialize (Hd x Hx). set_solver.
      + split; [|done]. rewrite Hp, btree_insert_perm by done. simpl.
        by rewrite Permutation_middle. }
  destruct (G [] ltac:(constructor) Hn) as [Hp Hs]. done.
Qed.

Lemma btree_of_perm {A} (l l' : list (string * A)) :
  NoDup (map fst l) -> l ≡ₚ l' -> btree_of l = btree_of l'.
Proof.
  intros Hn Hp. destruct (btree_of_spec l Hn) as [P1 S1].
  assert (Hn' : NoDup (map fst l')) by by rewrite <- Hp.
  destruct (btree_of_spec l' Hn') as [P2 S2].
  eapply StronglySorted_unique_strong; [|exact S1|exact S2|by rewrite P1, P2].
  intros x y _ _ H1 H2. destruct (str_lt_irrefl x.1 (str_lt_trans _ _ _ H1 H2)).
Qed.

Section Queries.
Context `{Env} (visit : list EventRow -> list EventRow).

(** ** Queries *)

Lemma scan_loop_spec keep limit rows : forall evs matches,
  decode_rows rows = Ok evs -> Z.of_nat (length matches) < limit ->
  scan_loop keep limit matches rows
  = Ok (matches ++ take (Z.to_nat limit - length matches) (filter (fun e => keep e = true) evs)).
Proof.
  induction rows as [|row rows IH]; intros evs matches Hd Hl; cbn [scan_loop].
  { unfold decode_rows in Hd. simpl in Hd. simplify_eq. by rewrite filter_nil, take_nil, app_nil_r. }
  unfold decode_rows in Hd. simpl in Hd.
  destruct (ledger_sqlite (row_to_event row)) as [e|]; [|done].
  destruct (collect_map _ rows) as [evs'|] eqn:Ed; [|done]. simplify_eq.
  destruct (keep e) eqn:Ek.
  - rewrite filter_cons_True by done.
    replace (Z.to_nat limit - length matches)%nat
      with (S (Z.to_nat limit - length (matches ++ [e])))
      by (rewrite length_app; simpl; lia).
    case_bool_decide as Hb; rewrite length_app in Hb; simpl in Hb.
    + rewrite firstn_cons. replace (Z.to_nat limit - length (matches ++ [e]))%nat with 0%nat
        by (rewrite length_app; simpl; lia). by rewrite take_0.
    + rewrite (IH evs') by (done || rewrite length_app; simpl; lia).
      rewrite firstn_cons, <- app_assoc. done.
  - rewrite filter_cons_False by congruence. by apply IH.
Qed.

(** Queries by payload.  When the candidate rows can be read, a query for a
    payload string or for a member of a payload array returns exactly the first
    [limit] matching events in the order of the listing query, however many
    candidates there are; a limit of zero reads nothing. *)
Theorem payload_query_spec keep self db key ty limit evs :
  handle_ok self db -> 0 <= limit ->
  list_events visit self db key (Some ty) (2 ^ 64 - 1) = Ok evs ->
  payload_query visit keep self db key ty limit
  = Ok (take (Z.to_nat limit) (filter (fun e => keep e = true) evs)).
Proof.
  intros Hh Hl Hq. unfold list_events in Hq. rewrite with_conn_ok in Hq by done. simpl in Hq.
  unfold payload_query. case_bool_decide as H0; [by subst|]. rewrite with_conn_ok by done.
  rewrite (scan_loop_spec _ _ _ evs) by (done || simpl; lia). simpl.
  by rewrite Nat.sub_0_r.
Qed.

(** ** Rows of a principal *)

Lemma chain_strict prev seq rows :
  chain_from prev seq rows -> StronglySorted (fun x y => ev_seq_num x < ev_seq_num y) rows.
Proof.
  revert prev seq; induction rows as [|e rows IH]; intros prev seq Hc; [constructor|].
  destruct Hc as (Hs & _ & Hc). constructor; [by eapply IH|].
  apply chain_from_sorted in Hc as [_ Hall]. eapply Forall_impl; [exact Hall|].
  simpl. lia.
Qed.

(** In a chain that starts at [seq], the rows from [from] on. *)
Lemma chain_tail prev seq rows from :
  chain_from prev seq rows ->
  filter (fun e => from <= ev_seq_num e) rows = drop (Z.to_nat (from - seq)) rows.
Proof.
  revert prev seq; induction rows as [|e rows IH]; intros prev seq Hc; [by rewrite drop_nil|].
  destruct Hc as (Hs & _ & Hc). destruct (decide (from <= ev_seq_num e)) as [Hle|Hgt].
  - rewrite filter_cons_True, (IH _ _ Hc) by done.
    replace (Z.to_nat (from - seq)) with 0%nat by lia.
    replace (Z.to_nat (from - (seq + 1))) with 0%nat by lia. done.
  - rewrite filter_cons_False, (IH _ _ Hc) by lia.
    replace (Z.to_nat (from - seq)) with (S (Z.to_nat (from - (seq + 1)))) by lia. done.
Qed.

Lemma tail_rows db p from :
  (forall l, visit l ≡ₚ l) -> ledger_wf db -> 0 <= from <= i64_max ->
  order_by_key ev_seq_num (filter (fun e => ev_principal_id e = p /\ as_i64 from <= ev_seq_num e)
    (visit (events db))) = drop (Z.to_nat from) (of_principal p (events db)).
Proof.
  intros Hv Hwf Hf. unfold as_i64. rewrite bool_decide_eq_true_2 by lia.
  pose proof (wf_chain _ Hwf p) as Hc.
  assert (E : filter (fun e => ev_principal_id e = p /\ from <= ev_seq_num e) (events db)
              = drop (Z.to_nat from) (of_principal p (events db))).
  { rewrite filter_filter. change (filter (fun e => ev_principal_id e = p) (events db))
      with (of_principal p (events db)). rewrite (chain_tail _ _ _ _ Hc). f_equal. lia. }
  apply order_by_key_perm.
  - apply sorted_drop. by eapply chain_strict.
  - by rewrite <- E, Hv.
Qed.

End Queries.

Section Importing.
Context `{Env} `{!EnvLaws}.
Context (ledger_text : LedgerError -> string) (chrono_text : string -> string).

(** ** One event, there and back *)

(** An event that a bundle can carry: the required fields are not empty, the
    optional ones are absent or not empty, the time is RFC 3339 and the payload
    survives its text. *)
Record importable (e : LedgerEvent) : Prop := {
  im_id : le_event_id e <> "";
  im_principal : le_principal_id e <> "";
  im_namespace : le_namespace_key e <> "";
  im_type : le_event_type e <> "";
  im_created : le_created_at e <> "";
  im_time : is_Some (parse_from_rfc3339 (le_created_at e));
  im_run : le_run_id e <> Some "";
  im_parent : le_parent_event_id e <> Some "";
  im_exact : exact_json (le_payload e) = true;
  im_depth : (json_depth (le_payload e) <= max_json_depth)%nat
}.

(** The row was written from the event. *)
Definition written (row : EventRow) (e : LedgerEvent) : Prop :=
  importable e /\ row = prepared_row (event_prepared e) (ev_seq_num row) (ev_prev_hash row).

Lemma written_reads row e : written row e -> ledger_sqlite (row_to_event row) = Ok e.
Proof.
  intros [He ->]. unfold row_to_event. simpl.
  rewrite json_exact_roundtrip by apply He. simpl.
  destruct e as [i p n r t pay sig c par]. simpl.
  destruct sig as [s|]; simpl; [|done]. by rewrite hex_roundtrip.
Qed.

Lemma decode_bytes_value s : decode_bytes (bytes_value s) = Ok s.
Proof.
  induction s as [|a s IH]; [done|]. simpl. pose proof (Ascii.N_ascii_bounded a) as Hb.
  unfold u64_try_from. destruct (in_u64 _) eqn:E.
  - simpl. rewrite bool_decide_eq_true_2 by lia. rewrite IH.
    by rewrite N2Z.id, Ascii.ascii_N_embedding.
  - exfalso. unfold in_u64, u64_max in E. bool_props. lia.
Qed.

Lemma decode_event_value e :
  importable e -> decode_bundle_event chrono_text (event_value e) (le_principal_id e) = Ok e.
Proof.
  intros [H1 H2 H3 H4 H5 [t H6] H7 H8 _ _]. unfold decode_bundle_event, event_value, required_str,
    optional_str. destruct e as [i p n r ty pay sig c par]. simpl in *.
  rewrite !bool_decide_eq_false_2 by done. simpl. rewrite bool_decide_eq_true_2, H6 by done. simpl.
  assert (Hr : match opt_string r with VString s => Some s | _ => None end = r) by by destruct r.
  unfold as_str. rewrite Hr.
  destruct par as [q|], r as [r|], sig as [s|]; simpl;
    rewrite ?decode_bytes_value, ?bool_decide_eq_false_2 by congruence; done.
Qed.

(** ** Batches *)

Lemma insert_loop_app db ds a b :
  insert_events_loop db ds (a ++ b)
  = (let? (out, db1) := insert_events_loop db ds a in insert_events_loop db1 out b).
Proof.
  revert db ds; induction a as [|e a IH]; intros db ds; [done|]. simpl.
  destruct (append_prepared_event db (event_prepared e) MatchAll) as [[ins db1]|]; [|done].
  apply IH.
Qed.

Lemma with_events_twice db a b : with_events (with_events db a) b = with_events db b.
Proof. done. Qed.

Lemma chain_end_snoc prev seq l e :
  chain_end prev seq (l ++ [e]) = (row_hash e, seq + Z.of_nat (length l) + 1).
Proof.
  revert prev seq; induction l as [|x l IH]; intros prev seq; simpl; [f_equal; lia|].
  rewrite IH. f_equal. lia.
Qed.

Lemma find_event_snoc db row id :
  find_event db id = None -> ev_event_id row <> id ->
  find_event (with_events db (events db ++ [row])) id = None.
Proof. rewrite !find_event_None. simpl. rewrite Forall_app, Forall_singleton. done. Qed.

(** Rows that continue the chain of their principal are inserted as they are. *)
Lemma insert_loop_new p rows : forall evs db ds,
  Forall2 written rows evs -> ledger_wf db ->
  Forall (fun row => ev_principal_id row = p /\ ev_seq_num row <= i64_max) rows ->
  chain_from (chain_end GENESIS_HASH 0 (of_principal p (events db))).1
    (chain_end GENESIS_HASH 0 (of_principal p (events db))).2 rows ->
  NoDup (map ev_event_id rows) ->
  (forall row, row ∈ rows -> find_event db (ev_event_id row) = None) ->
  insert_events_loop db ds evs
  = Ok (ds ++ replicate (length rows) Inserted, with_events db (events db ++ rows)).
Proof.
  induction rows as [|row rows IH]; intros evs db ds Hw Hwf Hp Hc Hn Hf.
  { inversion Hw; subst. simpl. rewrite !app_nil_r. by destruct db. }
  inversion Hw as [|? e ? evs' [He Hrow] Hw']; subst.
  inversion Hp as [|? ? [Hpr Hmax] Hp']; subst. destruct Hc as (Hseq & Hprev & Hc).
  assert (Hpe : pe_principal_id (event_prepared e) = ev_principal_id row) by by rewrite Hrow.
  assert (Hfe : find_event db (pe_event_id (event_prepared e)) = None).
  { change (pe_event_id (event_prepared e)) with (ev_event_id (prepared_row (event_prepared e)
      (ev_seq_num row) (ev_prev_hash row))). rewrite <- Hrow. apply Hf. set_solver. }
  rewrite chain_end_seq in Hseq.
  destruct (append_fresh db (event_prepared e) MatchAll Hwf Hfe) as [db1 Ha].
  { rewrite Hpe. simpl in *. lia. }
  pose proof (append_wf _ _ _ _ _ Hwf Ha) as Hwf1. cbn [insert_events_loop]. rewrite Ha.
  apply append_inserted in Ha as (seq & prev & _ & Hpos & ->).
  apply next_chain_position_ok in Hpos as [Hend _]; [|apply Hwf]. rewrite Hpe in Hend.
  rewrite <- Hend in Hprev. simpl in Hprev.
  assert (seq = ev_seq_num row) as ->.
  { apply (f_equal snd) in Hend. rewrite chain_end_seq in Hend. simpl in *. lia. }
  subst prev. rewrite <- Hrow in *. simpl in Hn. apply NoDup_cons in Hn as [Hni Hn].
  change (disposition true) with Inserted.
  rewrite (IH evs' (with_events db (events db ++ [row])) (ds ++ [Inserted])); try done.
  - rewrite with_events_twice. simpl. by rewrite <- !app_assoc.
  - unfold of_principal. cbn [events with_events].
    rewrite filter_app, filter_cons_True, filter_nil by done.
    rewrite chain_end_snoc. cbn [fst snd]. unfold of_principal in Hseq, Hc.
    rewrite chain_end_seq in Hc. by rewrite <- Hseq in *.
  - intros r Hr. apply find_event_snoc; [apply Hf; set_solver|].
    intros E. apply Hni. rewrite E. by apply list_elem_of_fmap_2.
Qed.

(** A row that is in the ledger makes its event known. *)
Lemma written_stored db row e :
  ledger_wf db -> row ∈ events db -> written row e -> stored db (event_prepared e).
Proof.
  intros Hwf Hin [_ Hrow]. exists row. split; [|rewrite Hrow; apply stored_matches_refl].
  destruct (find_event db (pe_event_id (event_prepared e))) as [r|] eqn:Ef.
  - apply find_event_Some in Ef as [Hr Hid]. f_equal.
    assert (Hids : ev_event_id r = ev_event_id row) by by rewrite Hid, Hrow.
    by eapply (nodup_key ev_event_id); [exact (wf_ids _ Hwf)|..].
  - apply find_event_None in Ef. rewrite Forall_forall in Ef. by destruct (Ef row Hin); rewrite Hrow.
Qed.

Lemma decode_rows_written rows evs : Forall2 written rows evs -> decode_rows rows = Ok evs.
Proof.
  intros Hw. apply collect_map_ok. eapply Forall2_impl; [exact Hw|]. apply written_reads.
Qed.

Lemma decode_events_written p rows evs :
  Forall2 written rows evs -> Forall (fun row => ev_principal_id row = p) rows ->
  collect_map (fun v => decode_bundle_event chrono_text v p) (map event_value evs) = Ok evs.
Proof.
  intros Hw Hp. apply collect_map_ok. induction Hw as [|row e rows evs [He Hrow] _ IH]; [constructor|].
  inversion Hp as [|? ? Hpr Hp']; subst. constructor; [|by apply IH].
  replace (ev_principal_id row) with (le_principal_id e) by by rewrite Hrow.
  by apply decode_event_value.
Qed.

Lemma count_app d a b :
  count_disposition d (a ++ b) = count_disposition d a + count_disposition d b.
Proof. unfold count_disposition. rewrite filter_app, length_app. lia. Qed.

Lemma count_replicate d n d' :
  count_disposition d (replicate n d') = if decide (d' = d) then Z.of_nat n else 0.
Proof.
  unfold count_disposition. induction n as [|n IH]; simpl; [by destruct (decide _)|].
  destruct (decide (d' = d)) as [->|Hne].
  - rewrite filter_cons_True by done. simpl. lia.
  - by rewrite filter_cons_False.
Qed.

(** The relation of two ledgers between which a principal's events are replicated:
    the destination has the first [k] events of the source. *)
Record replica (src dst : Db) (p : string) (k : nat) (evs : list LedgerEvent) : Prop := {
  rp_src : ledger_wf src;
  rp_dst : ledger_wf dst;
  rp_written : Forall2 written (of_principal p (events src)) evs;
  rp_prefix : of_principal p (events dst) = take k (of_principal p (events src));
  rp_length : (k <= length (of_principal p (events src)))%nat;
  rp_fresh : forall row, row ∈ drop k (of_principal p (events src)) ->
             find_event dst (ev_event_id row) = None
}.

Lemma import_tail src dst p k evs from ds :
  replica src dst p k evs -> (from <= k)%nat ->
  insert_events_loop dst ds (drop from evs)
  = Ok (ds ++ replicate (k - from) Existing
           ++ replicate (length (of_principal p (events src)) - k) Inserted,
        with_events dst (events dst ++ drop k (of_principal p (events src)))).
Proof.
  intros [Hs Hd Hw Hp Hl Hf] Hk. set (rows := of_principal p (events src)) in *.
  pose proof (Forall2_length _ _ _ Hw) as Hlen.
  assert (Hcut : drop from evs = take (k - from) (drop from evs) ++ drop k evs).
  { rewrite <- (take_drop (k - from) (drop from evs)) at 1. rewrite drop_drop. do 2 f_equal. lia. }
  rewrite Hcut, insert_loop_app.
  assert (Hst : Forall (fun e => stored dst (event_prepared e)) (take (k - from) (drop from evs))).
  { apply Forall_forall. intros e He.
    assert (Hr : Forall2 written (take (k - from) (drop from rows)) (take (k - from) (drop from evs)))
      by by apply Forall2_take, Forall2_drop.
    apply list_elem_of_lookup in He as [i Hi].
    destruct (Forall2_lookup_r _ _ _ _ _ Hr Hi) as (row & Hrow & Hwr).
    apply (written_stored dst row); [done| |done].
    assert (Hin : row ∈ of_principal p (events dst)).
    { rewrite Hp. apply list_elem_of_lookup. exists (from + i)%nat.
      apply lookup_take_Some in Hrow as [Hrow Hi']. rewrite lookup_drop in Hrow.
      apply lookup_take_Some. split; [done|lia]. }
    by apply list_elem_of_filter in Hin as [_ Hin]. }
  rewrite (insert_loop_again _ _ _ Hst), length_take, length_drop.
  replace (Nat.min (k - from) (length evs - from)) with (k - from)%nat by lia.
  rewrite (insert_loop_new p (drop k rows)); try done.
  - by rewrite length_drop, <- app_assoc.
  - by apply Forall2_drop.
  - apply Forall_forall. intros row Hrow. apply elem_of_drop in Hrow.
    apply list_elem_of_filter in Hrow as [Hpr Hin]. split; [done|].
    pose proof (wf_seq _ Hs) as Hseq. rewrite Forall_forall in Hseq. by apply Hseq.
  - rewrite Hp. pose proof (wf_chain _ Hs p) as Hc. fold rows in Hc.
    rewrite <- (take_drop k rows) in Hc at 1. by apply chain_from_app in Hc as [_ Hc].
  - eapply sublist_NoDup; [exact (wf_ids _ Hs)|]. apply (fmap_sublist ev_event_id).
    etrans; [apply sublist_drop|apply sublist_filter].
Qed.

Lemma of_principal_app p a b : of_principal p (a ++ b) = of_principal p a ++ of_principal p b.
Proof. apply filter_app. Qed.

Lemma of_principal_forall p evs : Forall (fun e => ev_principal_id e = p) (of_principal p evs).
Proof. apply Forall_forall. intros e He. by apply list_elem_of_filter in He as [? _]. Qed.

Lemma compute_same l : sd_missing_locally (compute l l) = [].
Proof.
  simpl. apply filter_none. intros id Hid Hn. apply Hn.
  by apply elem_of_list_to_set.
Qed.

Lemma import_written db dl p rows evs from exported_at out db' :
  Forall2 written rows evs -> Forall (fun row => ev_principal_id row = p) rows ->
  handle_ok dl db -> insert_events_loop db [] evs = Ok (out, db') ->
  import ledger_text chrono_text dl db
    {| sb_principal_id := p; sb_from_seq := from; sb_events := map event_value evs;
       sb_exported_at := exported_at;
       sb_bundle_hash := compute_bundle_hash (map event_value evs); sb_proof_artifacts := [] |}
  = Ok ({| ir_imported := count_disposition Inserted out;
           ir_skipped_duplicates := count_disposition Existing out; ir_principal_id := p |}, db').
Proof.
  intros Hw Hp Hh Hi. unfold import. cbn [sb_events sb_bundle_hash sb_principal_id].
  rewrite bool_decide_eq_true_2, (decode_events_written p rows evs) by done.
  unfold insert_events_with_ids_atomic. by rewrite with_conn_ok, Hi.
Qed.

(** ** What an import does *)

Lemma count_cons d x l :
  count_disposition d (x :: l) = (if decide (x = d) then 1 else 0) + count_disposition d l.
Proof.
  unfold count_disposition. destruct (decide (x = d)).
  - rewrite filter_cons_True by done. simpl. lia.
  - by rewrite filter_cons_False.
Qed.

Lemma insert_loop_shape evs : forall db ds out db',
  insert_events_loop db ds evs = Ok (out, db') ->
  exists new ds', db' = with_events db (events db ++ new) /\ out = ds ++ ds' /\
    count_disposition Inserted ds' = Z.of_nat (length new) /\
    count_disposition Inserted ds' + count_disposition Existing ds' = Z.of_nat (length evs) /\
    Forall (fun row => exists e, e ∈ evs /\ ev_principal_id row = le_principal_id e) new.
Proof.
  induction evs as [|e evs IH]; intros db ds out db' Hl; simpl in Hl.
  { simplify_eq. exists [], []. rewrite !app_nil_r. by destruct db'. }
  destruct (append_prepared_event db (event_prepared e) MatchAll) as [[ins db1]|] eqn:Ea; [|done].
  apply IH in Hl as (new & ds' & -> & -> & Hn & Hc & Hf).
  assert (Hf' : Forall (fun row => exists x, x ∈ e :: evs /\ ev_principal_id row = le_principal_id x) new).
  { eapply Forall_impl; [exact Hf|]. simpl. intros row (x & Hx & Hp). exists x. set_solver. }
  destruct ins.
  - apply append_inserted in Ea as (seq & prev & _ & _ & ->).
    exists (prepared_row (event_prepared e) seq prev :: new), (Inserted :: ds').
    rewrite with_events_twice. cbn [events with_events]. rewrite !count_cons, <- !app_assoc.
    do 2 (split; [done|]). split; [simpl; lia|]. split; [simpl; lia|].
    constructor; [exists e; split; [set_solver|done]|done].
  - apply append_existing in Ea as [-> _]. exists new, (Existing :: ds').
    rewrite !count_cons, <- !app_assoc. do 2 (split; [done|]). split; [simpl; lia|].
    split; [simpl; lia|done].
Qed.

Lemma decode_principal v p e : decode_bundle_event chrono_text v p = Ok e -> le_principal_id e = p.
Proof. unfold decode_bundle_event. intros Hd. ok_inv Hd. subst. by bool_props. Qed.

(** Imports are atomic, scoped and idempotent.  An import succeeds only for a
    bundle with the right hash whose events all belong to its principal; it keeps the
    ledger well formed, only appends rows of that principal, and counts every event of
    the bundle once, as imported (a new row) or as a duplicate; importing the bundle
    again changes nothing and reports only duplicates. *)
Theorem import_spec dl db b r db' :
  ledger_wf db -> import ledger_text chrono_text dl db b = Ok (r, db') ->
  compute_bundle_hash (sb_events b) = sb_bundle_hash b /\ ledger_wf db' /\
  (exists new, db' = with_events db (events db ++ new) /\
     Forall (fun row => ev_principal_id row = sb_principal_id b) new /\
     ir_imported r = Z.of_nat (length new) /\
     ir_imported r + ir_skipped_duplicates r = Z.of_nat (length (sb_events b))) /\
  import ledger_text chrono_text dl db' b
  = Ok ({| ir_imported := 0; ir_skipped_duplicates := Z.of_nat (length (sb_events b));
           ir_principal_id := sb_principal_id b |}, db').
Proof.
  intros Hwf Hi. unfold import in *. case_bool_decide as Hh; [|done].
  destruct (collect_map _ (sb_events b)) as [evs|] eqn:Ec; [|done].
  destruct (insert_events_with_ids_atomic dl db evs) as [[out db1]|] eqn:Eb; [|done].
  simpl in Hi. simplify_eq. apply with_conn_inv in Eb as [Eb (id & Hid & Hself)].
  destruct (insert_loop_stored _ _ _ _ _ Eb) as (Hst & _ & Hw).
  apply insert_loop_shape in Eb as (new & ds' & -> & -> & Hn & Hc & Hf). rewrite app_nil_l.
  pose proof (collect_length _ _ _ Ec) as Hlen. split; [done|]. split; [by apply Hw|]. split.
  - exists new. split; [done|]. simpl. rewrite <- Hlen. split; [|lia].
    eapply Forall_impl; [exact Hf|]. simpl. intros row (e & He & ->).
    apply collect_map_ok in Ec. apply list_elem_of_lookup in He as [i Hi].
    destruct (Forall2_lookup_r _ _ _ _ _ Ec Hi) as (v & _ & Hv). by eapply decode_principal.
  - unfold insert_events_with_ids_atomic.
    rewrite with_conn_ok by (exists id; split; [exact Hid|exact Hself]).
    rewrite (insert_loop_again _ [] evs Hst). simpl. rewrite !count_replicate, <- Hlen.
    rewrite (decide_True (P := Existing = Existing)), (decide_False (P := Existing = Inserted)) by done.
    done.
Qed.

End Importing.

Section Hash.
Context `{Env}.

(** ** What the bundle hash covers *)

Lemma framed_inj p q x y :
  str_len p < 2 ^ 64 -> str_len q < 2 ^ 64 ->
  le_bytes 8 (str_len p) +:+ p +:+ x = le_bytes 8 (str_len q) +:+ q +:+ y -> p = q /\ x = y.
Proof.
  intros Hp Hq E. apply append_inv_length in E as [El E]; [|by rewrite !le_bytes_length].
  apply le_bytes_inj in El; [|unfold str_len in *; simpl; lia..].
  apply append_inv_length in E; [done|]. unfold str_len in *. lia.
Qed.

Lemma bundle_preimage_inj evs1 : forall evs2,
  Forall (fun e => str_len (sync_canonical_json e) < 2 ^ 64) evs1 ->
  Forall (fun e => str_len (sync_canonical_json e) < 2 ^ 64) evs2 ->
  bundle_preimage evs1 = bundle_preimage evs2 ->
  map sync_canonical_json evs1 = map sync_canonical_json evs2.
Proof.
  induction evs1 as [|e evs1 IH]; intros [|e2 evs2] H1 H2 E; [done..|].
  inversion H1; inversion H2; subst. cbn [bundle_preimage foldr] in E.
  apply framed_inj in E as [Ee E]; [|done..]. simpl. rewrite Ee. f_equal. by apply IH.
Qed.

Lemma bundle_preimage_map evs1 evs2 :
  map sync_canonical_json evs1 = map sync_canonical_json evs2 ->
  bundle_preimage evs1 = bundle_preimage evs2.
Proof.
  revert evs2; induction evs1 as [|e evs1 IH]; intros [|e2 evs2] E; try done.
  injection E as Ee E. cbn [bundle_preimage foldr]. rewrite Ee. do 2 f_equal. by apply IH.
Qed.

(** What the bundle hash covers.  Two bundles feed the same bytes to SHA-256
    exactly when their events have the same canonical texts, one by one (so no
    boundary between events can be moved), and the canonical text of an object does
    not depend on the order of its members. *)
Theorem bundle_hash_canonical evs1 evs2 ms ms' :
  Forall (fun e => str_len (sync_canonical_json e) < 2 ^ 64) evs1 ->
  Forall (fun e => str_len (sync_canonical_json e) < 2 ^ 64) evs2 ->
  NoDup (map fst ms) -> ms ≡ₚ ms' ->
  (bundle_preimage evs1 = bundle_preimage evs2 <->
   map sync_canonical_json evs1 = map sync_canonical_json evs2) /\
  sync_canonical_json (VObject ms) = sync_canonical_json (VObject ms').
Proof.
  intros H1 H2 Hn Hp. split; [split; [by apply bundle_preimage_inj|apply bundle_preimage_map]|].
  cbn [sync_canonical_json].
  rewrite (btree_of_perm _ (map (fun m => (m.1, sync_canonical_json m.2)) ms')); [done|..].
  - by rewrite map_map.
  - by rewrite Hp.
Qed.

End Hash.

Section Replication.
Context `{Env} `{!EnvLaws} (visit : list EventRow -> list EventRow).
Context (ledger_text : LedgerError -> string) (chrono_text : string -> string).

(** ** Replication *)

Lemma export_tail src sl p rows evs from exported_at :
  (forall l, visit l ≡ₚ l) -> ledger_wf src -> handle_ok sl src ->
  of_principal p (events src) = rows ->
  Forall2 written rows evs -> 0 <= from < Z.of_nat (length evs) ->
  export visit ledger_text sl src p from exported_at
  = Ok (let tail := map event_value (drop (Z.to_nat from) evs) in
        {| sb_principal_id := p; sb_from_seq := from; sb_events := tail;
           sb_exported_at := exported_at; sb_bundle_hash := compute_bundle_hash tail;
           sb_proof_artifacts := [] |}).
Proof.
  intros Hv Hs Hh <- Hw Hf. pose proof (Forall2_length _ _ _ Hw) as Hlen.
  assert (Hmax : Z.of_nat (length evs) - 1 <= i64_max).
  { pose proof (wf_chain _ Hs p) as Hc. destruct (last (of_principal p (events src))) as [e|] eqn:El.
    - pose proof (chain_last_seq _ _ _ _ Hc El). apply last_Some_elem_of in El.
      apply list_elem_of_filter in El as [_ Hin]. pose proof (wf_seq _ Hs) as Hq.
      rewrite Forall_forall in Hq. specialize (Hq e Hin). simpl in *. lia.
    - apply last_None in El. rewrite El in Hlen. simpl in Hlen. lia. }
  unfold export, list_events_from_seq. rewrite with_conn_ok, tail_rows by (done || lia).
  rewrite (decode_rows_written _ (drop (Z.to_nat from) evs)) by by apply Forall2_drop.
  cbn [sync_ledger]. rewrite bool_decide_eq_false_2; [done|].
  intros E. apply (f_equal length) in E. rewrite length_drop in E. simpl in E. lia.
Qed.


(** ** The relay *)

(** The request carries the token. *)
Definition bears (token : string) (headers : Headers) : Prop :=
  hd_authorization headers ≫= strip_prefix "Bearer " = Some token \/
  hd_relay_token headers = Some token.

(** The relay's token.  On a relay with a token, a request without it is
    refused with 401 and changes nothing, unless it reads the status or the peer list;
    so nobody else can export events, import them or register peers.  On any relay a
    request changes the ledger only by a successful import. *)
Theorem relay_requires_token sync_text state db headers t r :
  let '(response, state', db') :=
    route visit ledger_text chrono_text sync_text state db headers t r in
  (forall token, rs_auth_token state = Some token -> ~ bears token headers ->
     (rp_status response = 401 \/ r = GetStatus \/ r = GetPeers) /\ state' = state /\ db' = db) /\
  (db' <> db -> exists bundle res, r = PostImport bundle /\ rp_status response = 200 /\
     import ledger_text chrono_text (rs_ledger state) db bundle = Ok (res, db')).
Proof.
  assert (Hauth : forall token, rs_auth_token state = Some token -> ~ bears token headers ->
            require_auth state headers
            = Some {| rp_status := 401; rp_body := ErrorBody "missing or invalid relay token" |}).
  { intros token Ht Hb. unfold require_auth. rewrite Ht, !bool_decide_eq_false_2; [done|..];
      unfold bears in Hb; tauto. }
  destruct r as [|from|bundle| |addr]; simpl.
  - split; [|done]. auto.
  - unfold handle_export. split; [|done]. intros token Ht Hb.
    rewrite (Hauth _ Ht Hb). auto.
  - destruct (handle_import _ _ _ _ _ _ _) as [response db'] eqn:E. unfold handle_import in E.
    split.
    + intros token Ht Hb. rewrite (Hauth _ Ht Hb) in E. simplify_eq. auto.
    + intros Hne. destruct (require_auth state headers); [by simplify_eq|].
      destruct (import _ _ _ _ _) as [[res db1]|] eqn:Ei; simplify_eq. eauto 10.
  - split; [|done]. auto.
  - destruct (handle_peers_post _ _ _) as [response state'] eqn:E. unfold handle_peers_post in E.
    split; [|done]. intros token Ht Hb. rewrite (Hauth _ Ht Hb) in E. simplify_eq. auto.
Qed.

End Replication.

(** ** A worked replication *)

Definition sy_event (id : string) (parent : option string) : LedgerEvent :=
  {| le_event_id := id; le_principal_id := "p"; le_namespace_key := "ns"; le_run_id := Some "run";
     le_event_type := "channel.sent"; le_payload := VObject [("text", VString id)];
     le_signature := Some "sig"; le_created_at := "0"; le_parent_event_id := parent |}.

Definition sy_events : list LedgerEvent :=
  [sy_event "e1" None; sy_event "e2" (Some "e1"); sy_event "e3" (Some "e2")].

Definition sy_src : Db := sample_import sy_events.
Definition sy_dst : Db := sample_import (take 1 sy_events).

Definition sy_bundle : result SyncError SyncBundle :=
  export id (fun _ => "ledger") sample_handle sy_src "p" 0 "now".

Definition sy_import (db : Db) : result SyncError (ImportResult * Db) :=
  match sy_bundle with
  | Ok b => import (fun _ => "ledger") (fun _ => "time") sample_handle db b
  | Err e => Err e
  end.

Lemma sy_importable i parent : i <> "" -> parent <> Some "" -> importable (sy_event i parent).
Proof. intros Hi Hp. split; simpl; try done; first [by eexists|unfold max_json_depth; lia]. Qed.

Lemma sample_import_wf evs : ledger_wf (sample_import evs).
Proof.
  unfold sample_import. destruct (insert_events_with_ids_atomic _ _ _) as [[out db]|] eqn:E;
    [|apply sample_db_wf].
  apply with_conn_inv in E as [E _].
  destruct (insert_loop_stored _ _ _ _ _ E) as (_ & _ & Hw). apply Hw, sample_db_wf.
Qed.

Lemma sy_handle evs : sample_import evs = with_events sample_db (events (sample_import evs)) ->
  handle_ok sample_handle (sample_import evs).
Proof. intros ->. apply sample_handle_ok. Qed.

Lemma sy_replica : replica sy_src sy_dst "p" 1 sy_events.
Proof.
  split; [apply sample_import_wf|apply sample_import_wf|..].
  - replace (of_principal "p" (events sy_src)) with (events sy_src) by (vm_compute; reflexivity).
    unfold sy_events. vm_compute (events sy_src).
    repeat (constructor; [split; [by apply sy_importable|reflexivity]|]). constructor.
  - vm_compute. reflexivity.
  - vm_compute. lia.
  - apply Forall_forall. vm_compute. repeat constructor.
Qed.


Definition sy_b : SyncBundle :=
  match sy_bundle with
  | Ok b => b
  | Err _ => {| sb_principal_id := ""; sb_from_seq := 0; sb_events := []; sb_exported_at := "";
                sb_bundle_hash := ""; sb_proof_artifacts := [] |}
  end.

Lemma import_spec_witness :
  exists db', import (fun _ => "ledger") (fun _ => "time") sample_handle db' sy_b
    = Ok ({| ir_imported := 0; ir_skipped_duplicates := 3; ir_principal_id := "p" |}, db') /\
    length (events db') = 3%nat.
Proof.
  destruct (import (fun _ => "ledger") (fun _ => "time") sample_handle sy_dst sy_b)
    as [[r db']|] eqn:Ei; [|exfalso; revert Ei; vm_compute; discriminate].
  exists db'.
  pose proof (import_spec (fun _ => "ledger") (fun _ => "time") sample_handle sy_dst sy_b r db'
    (sample_import_wf _) Ei) as (_ & _ & _ & Hagain).
  assert (Hn : Z.of_nat (length (sb_events sy_b)) = 3) by (vm_compute; reflexivity).
  assert (Hp : sb_principal_id sy_b = "p") by (vm_compute; reflexivity).
  rewrite Hn, Hp in Hagain. split; [exact Hagain|].
  revert Ei. vm_compute. intros [= _ <-]. reflexivity.
Defined.

Lemma payload_query_spec_witness :
  payload_query id (payload_is "text" "e2") sample_handle sy_src "ns" "channel.sent" 1
  = Ok [sy_event "e2" (Some "e1")].
Proof.
  apply (payload_query_spec id (payload_is "text" "e2") sample_handle sy_src "ns" "channel.sent" 1
    (reverse sy_events)); [by apply sy_handle; vm_compute|lia|vm_compute; reflexivity].
Defined.

Lemma bundle_hash_canonical_witness :
  sync_canonical_json (VObject [("a", VNull); ("b", VBool true)])
  = sync_canonical_json (VObject [("b", VBool true); ("a", VNull)]).
Proof.
  apply (bundle_hash_canonical [VNull] [VNull] [("a", VNull); ("b", VBool true)]
    [("b", VBool true); ("a", VNull)]); [by repeat constructor..| |apply Permutation_swap].
  repeat constructor; set_solver.
Defined.

(** A negative wrap-around: [from] values above [i64::MAX] export everything. *)
Example export_from_wraps :
  sb_events <$> (match export id (fun _ => "ledger") sample_handle sy_src "p" (2 ^ 64 - 1) "now" with
                 | Ok b => Some b | Err _ => None end)
  = Some (map event_value sy_events).
Proof. vm_compute. reflexivity. Qed.
