(* ===== verification/Sessions.v ===== *)
(** * Conversation sessions and their branches

    The table of sessions ([crates/zaion-ledger/src/session_store.rs]), the forking of a
    session ([crates/zaion-runtime/src/session_branch.rs]) against the trait
    [SessionStore], and the adapter that implements the trait over the table and the
    event ledger ([crates/zaion-runtime/src/session_store_adapter.rs]).

    The table is a finite map by [session_id] with the unique column [session_key].  A
    call that fails may have changed the store before, so the operations of the trait
    return the store with their result.  Clock readings and random identifiers are
    arguments; [estimated_cost_usd] is the bits of the float. *)

From stdpp Require Import prelude gmap strings list pretty.
From S2P Require Import Prelude.
From S2P Require Import Json.
From S2P Require Import Env.
From S2P Require Import Ingress.
From S2P Require Import Database.
From S2P Require Import Ledger.
From S2P Require Import LedgerQueries.
Local Open Scope res_scope.
Local Open Scope Z_scope.

(** ** The table *)

Record SessionEntry : Type := {
  se_session_id : string;
  se_principal_id : string;
  se_platform : string;
  se_chat_id : string;
  se_user_id : option string;
  se_thread_id : option string;
  se_session_key : string;
  se_created_at : string;
  se_updated_at : string;
  se_message_count : Z;
  se_tool_call_count : Z;
  se_estimated_cost_usd : Z;
  se_memory_flushed : bool;
  se_was_auto_reset : bool;
  se_auto_reset_reason : option string;
  se_parent_session_id : option string;
  se_end_reason : option string
}.

Notation SessionTable := (gmap string SessionEntry).

Inductive SessionKeyStrategy : Type := Dm | GroupPerUser | GroupShared.

Definition generate_session_key (platform chat_id : string) (user_id thread_id : option string)
    (strategy : SessionKeyStrategy) : string :=
  match strategy with
  | Dm =>
      match thread_id with
      | Some tid => platform +:+ ":dm:" +:+ chat_id +:+ ":" +:+ tid
      | None => platform +:+ ":dm:" +:+ chat_id
      end
  | GroupPerUser =>
      let uid := default "unknown" user_id in
      match thread_id with
      | Some tid => platform +:+ ":group:" +:+ chat_id +:+ ":" +:+ uid +:+ ":" +:+ tid
      | None => platform +:+ ":group:" +:+ chat_id +:+ ":" +:+ uid
      end
  | GroupShared =>
      match thread_id with
      | Some tid => platform +:+ ":group:" +:+ chat_id +:+ ":" +:+ tid
      | None => platform +:+ ":group:" +:+ chat_id
      end
  end.

(** Whether a row other than [session_id]'s has the key. *)
Definition key_taken (t : SessionTable) (session_id session_key : string) : bool :=
  bool_decide (Exists (fun kr => kr.1 <> session_id /\ se_session_key kr.2 = session_key)
                 (map_to_list t)).

Definition coalesce {A} (new old : option A) : option A :=
  match new with Some _ => new | None => old end.

(** The columns that [ON CONFLICT(session_id) DO UPDATE] sets. *)
Definition updated_entry (old entry : SessionEntry) : SessionEntry :=
  {| se_session_id := se_session_id old; se_principal_id := se_principal_id old;
     se_platform := se_platform old; se_chat_id := se_chat_id old;
     se_user_id := se_user_id old; se_thread_id := se_thread_id old;
     se_session_key := se_session_key entry; se_created_at := se_created_at old;
     se_updated_at := se_updated_at entry; se_message_count := se_message_count entry;
     se_tool_call_count := se_tool_call_count entry;
     se_estimated_cost_usd := se_estimated_cost_usd entry;
     se_memory_flushed := se_memory_flushed entry; se_was_auto_reset := se_was_auto_reset old;
     se_auto_reset_reason := se_auto_reset_reason old;
     se_parent_session_id := coalesce (se_parent_session_id entry) (se_parent_session_id old);
     se_end_reason := coalesce (se_end_reason entry) (se_end_reason old) |}.

Definition upsert_session (t : SessionTable) (entry : SessionEntry)
  : result LedgerError SessionTable :=
  guard? negb (key_taken t (se_session_id entry) (se_session_key entry))
    else LedgerSqlite Constraint in
  Ok (<[se_session_id entry :=
        match t !! se_session_id entry with
        | Some old => updated_entry old entry
        | None => entry
        end]> t).

Definition find_key (t : SessionTable) (session_key : string) : option (string * SessionEntry) :=
  find (fun kr => bool_decide (se_session_key kr.2 = session_key)) (map_to_list t).

Definition get_by_key (t : SessionTable) (session_key : string)
  : result LedgerError (option SessionEntry) := Ok (snd <$> find_key t session_key).

(** [DELETE .. WHERE sel], with the number of rows. *)
Definition delete_where (t : SessionTable) (sel : SessionEntry -> bool) : nat * SessionTable :=
  let kept := filter (fun kr => sel kr.2 = false) t in
  ((size t - size kept)%nat, kept).

Definition delete_by_key (t : SessionTable) (session_key : string)
  : result LedgerError (bool * SessionTable) :=
  let '(affected, t') := delete_where t (fun e => bool_decide (se_session_key e = session_key)) in
  Ok (bool_decide (0 < affected)%nat, t').

Definition set_key (session_key now : string) (e : SessionEntry) : SessionEntry :=
  {| se_session_id := se_session_id e; se_principal_id := se_principal_id e;
     se_platform := se_platform e; se_chat_id := se_chat_id e; se_user_id := se_user_id e;
     se_thread_id := se_thread_id e; se_session_key := session_key;
     se_created_at := se_created_at e; se_updated_at := now;
     se_message_count := se_message_count e; se_tool_call_count := se_tool_call_count e;
     se_estimated_cost_usd := se_estimated_cost_usd e;
     se_memory_flushed := se_memory_flushed e; se_was_auto_reset := se_was_auto_reset e;
     se_auto_reset_reason := se_auto_reset_reason e;
     se_parent_session_id := se_parent_session_id e; se_end_reason := se_end_reason e |}.

(** [UPDATE sessions SET session_key = .. WHERE session_id = ..] *)
Definition update_key (t : SessionTable) (session_id session_key now : string)
  : result LedgerError (bool * SessionTable) :=
  match t !! session_id with
  | None => Ok (false, t)
  | Some e =>
      guard? negb (key_taken t session_id session_key) else LedgerSqlite Constraint in
      Ok (true, <[session_id := set_key session_key now e]> t)
  end.

Definition rename_session_key (t : SessionTable) (old_key new_key now : string)
  : result LedgerError (bool * SessionTable) :=
  match find_key t old_key with
  | None => Ok (false, t)
  | Some (session_id, _) => update_key t session_id new_key now
  end.

Definition older_than (before : string) (e : SessionEntry) : bool :=
  String.ltb (se_updated_at e) before.

Definition prune_older_than (t : SessionTable) (updated_before : string)
  : result LedgerError (nat * SessionTable) := Ok (delete_where t (older_than updated_before)).

Definition prune_older_than_with_source (t : SessionTable) (updated_before : string)
    (source : option string) : result LedgerError (nat * SessionTable) :=
  match source with
  | Some s =>
      Ok (delete_where t (fun e => older_than updated_before e && bool_decide (se_platform e = s)))
  | None => prune_older_than t updated_before
  end.

(** [ORDER BY updated_at DESC LIMIT ..] *)
Definition list_by_principal (t : SessionTable) (principal_id : string) (limit : Z)
  : result LedgerError (list SessionEntry) :=
  Ok (sql_limit (as_i64 limit)
        (order_by (fun a b => negb (String.ltb (se_updated_at a) (se_updated_at b)))
           (filter (fun e => se_principal_id e = principal_id) (map snd (map_to_list t))))).

Definition get_session_entry (t : SessionTable) (session_id : string)
  : result LedgerError (option SessionEntry) := Ok (t !! session_id).

Definition get_session_title (t : SessionTable) (session_id : string)
  : result LedgerError (option string) := Ok (se_session_key <$> t !! session_id).

Definition set_session_title (t : SessionTable) (session_id title now : string)
  : result LedgerError SessionTable :=
  let? (_, t') := update_key t session_id title now in
  Ok t'.

(** ** The trait *)

Record SessionMetadata : Type := {
  sm_principal_id : string;
  sm_session_id : string;
  sm_parent_session_id : option string;
  sm_title : option string;
  sm_model : string;
  sm_source : string;
  sm_chat_id : option string;
  sm_user_id : option string;
  sm_thread_id : option string;
  sm_end_reason : option string;
  sm_created_at : string;
  sm_ended_at : option string
}.

(** The [String] errors: a message of the code, or the text of a ledger error. *)
Inductive SessionError : Type :=
| Message (text : string)
| StoreFailed (e : LedgerError).

(** What [copy_history] draws per event: an identifier and a time. *)
Notation Draws := (nat -> string * string).

Class SessionStore (S : Type) : Type := {
  get_session : S -> string -> result SessionError (option SessionMetadata);
  create_session : S -> SessionMetadata -> S * result SessionError unit;
  update_session : S -> string -> SessionMetadata -> S * result SessionError unit;
  get_title : S -> string -> result SessionError (option string);
  set_title : S -> string -> string -> string -> S * result SessionError unit;
  copy_history : S -> Draws -> string -> string -> S * result SessionError nat
}.

(** ** Branching *)

Record BranchTurn : Type := { bt_role : string; bt_content : string }.

Record BranchRequest : Type := {
  br_parent_session_id : string;
  br_branch_name : option string;
  br_history : list BranchTurn
}.

Record BranchResult : Type := {
  res_new_session_id : string;
  res_new_title : string;
  res_parent_session_id : string;
  res_turns_copied : nat
}.

(** [is_unsafe_principal] ([crates/zaion-types/src/envelope.rs]) *)
Definition is_unsafe_principal (principal : string) : bool :=
  bool_decide (to_ascii_lowercase (str_trim principal) ∈
    ["default"; "default_principal"; "unbound"; "unbound-principal"; "anonymous"; "ephemeral";
     "principal_placeholder"]).

Definition digit_value (a : Ascii.ascii) : option Z :=
  let n := Ascii.N_of_ascii a in
  if in_range 48 57 n then Some (Z.of_N n - 48) else None.

Fixpoint digits_value (acc : Z) (s : string) : option Z :=
  match s with
  | EmptyString => Some acc
  | String a s' =>
      match digit_value a with
      | Some d => digits_value (10 * acc + d) s'
      | None => None
      end
  end.

Definition u32_max : Z := 4294967295.

(** [number_part.parse::<u32>()]: digits, with an optional plus sign. *)
Definition parse_u32 (s : string) : option Z :=
  let digits := match s with
                | String a s' => if byte_in "+" a then s' else s
                | EmptyString => s
                end in
  if bool_decide (digits = EmptyString) then None else
  match digits_value 0 digits with
  | Some n => if bool_decide (n <= u32_max) then Some n else None
  | None => None
  end.

(** [s.rfind(" #")], as the text before and after its last occurrence. *)
Fixpoint split_last_mark (s : string) : option (string * string) :=
  match s with
  | EmptyString => None
  | String a s' =>
      match split_last_mark s' with
      | Some (base, rest) => Some (String a base, rest)
      | None => match strip_prefix " #" s with Some rest => Some (EmptyString, rest) | None => None end
      end
  end.

(** [num + 1] wraps around in a release build. *)
Definition generate_lineage_title (parent_title : string) : string :=
  match split_last_mark parent_title with
  | Some (base, number_part) =>
      match parse_u32 number_part with
      | Some num => base +:+ " #" +:+ z_to_string ((num + 1) mod (u32_max + 1))
      | None => parent_title +:+ " #2"
      end
  | None => parent_title +:+ " #2"
  end.

(** The identifier, times and draws that one branching takes. *)
Record BranchDraws : Type := {
  bd_new_session_id : string;
  bd_created_at : string;
  bd_titled_at : string;
  bd_ended_at : string;
  bd_copies : Draws
}.

Definition branch_metadata (parent : SessionMetadata) (request : BranchRequest) (new_title : string)
    (d : BranchDraws) : SessionMetadata :=
  {| sm_principal_id := sm_principal_id parent; sm_session_id := bd_new_session_id d;
     sm_parent_session_id := Some (br_parent_session_id request); sm_title := Some new_title;
     sm_model := sm_model parent; sm_source := sm_source parent; sm_chat_id := sm_chat_id parent;
     sm_user_id := sm_user_id parent; sm_thread_id := sm_thread_id parent;
     sm_end_reason := None; sm_created_at := bd_created_at d; sm_ended_at := None |}.

Definition ended (parent : SessionMetadata) (reason ended_at : string) : SessionMetadata :=
  {| sm_principal_id := sm_principal_id parent; sm_session_id := sm_session_id parent;
     sm_parent_session_id := sm_parent_session_id parent; sm_title := sm_title parent;
     sm_model := sm_model parent; sm_source := sm_source parent; sm_chat_id := sm_chat_id parent;
     sm_user_id := sm_user_id parent; sm_thread_id := sm_thread_id parent;
     sm_end_reason := Some reason; sm_created_at := sm_created_at parent;
     sm_ended_at := Some ended_at |}.

Section Branch.
Context {S : Type} `{SessionStore S}.

(** A step that may change the store and fail: the rest runs on the store it left. *)
Definition and_then_in {A B} (r : S * result SessionError A) (k : S -> A -> S * result SessionError B)
  : S * result SessionError B :=
  match r with
  | (s, Ok a) => k s a
  | (s, Err e) => (s, Err e)
  end.

(** The checks before anything is written: the parent and the new title. *)
Definition branch_checks (s : S) (request : BranchRequest) (parent_end_reason : string)
  : result SessionError (SessionMetadata * string) :=
  guard? negb (bool_decide (str_trim parent_end_reason = EmptyString))
    else Message "parent end reason cannot be empty" in
  let? found := get_session s (br_parent_session_id request) in
  let? parent := ok_or found
    (Message ("Parent session not found: " +:+ br_parent_session_id request)) in
  guard? negb (is_unsafe_principal (sm_principal_id parent))
    else Message ("Parent session has non-production principal: " +:+ sm_principal_id parent) in
  guard? negb (bool_decide (length (br_history request) = 0%nat))
    else Message "Cannot branch empty conversation" in
  let? title := get_title s (br_parent_session_id request) in
  let parent_title := default "Session" title in
  Ok (parent, match br_branch_name request with
              | Some custom_name => custom_name
              | None => generate_lineage_title parent_title
              end).

Definition branch_with_parent_end_reason (s : S) (d : BranchDraws) (request : BranchRequest)
    (parent_end_reason : string) : S * result SessionError BranchResult :=
  match branch_checks s request parent_end_reason with
  | Err e => (s, Err e)
  | Ok (parent, new_title) =>
      let new_session_id := bd_new_session_id d in
      and_then_in (create_session s (branch_metadata parent request new_title d)) (fun s _ =>
      and_then_in (set_title s new_session_id new_title (bd_titled_at d)) (fun s _ =>
      and_then_in (copy_history s (bd_copies d) (br_parent_session_id request) new_session_id)
        (fun s turns_copied =>
      and_then_in (update_session s (br_parent_session_id request)
                     (ended parent parent_end_reason (bd_ended_at d))) (fun s _ =>
      (s, Ok {| res_new_session_id := new_session_id; res_new_title := new_title;
                res_parent_session_id := br_parent_session_id request;
                res_turns_copied := turns_copied |})))))
  end.

Definition branch (s : S) (d : BranchDraws) (request : BranchRequest)
  : S * result SessionError BranchResult :=
  branch_with_parent_end_reason s d request "branched".
End Branch.

(** ** The adapter *)

(** [SessionStoreAdapter] with the table and the ledger it works on; [EventLedger] and the
    keypair are given together or not at all. *)
Record SessionStoreAdapter : Type := {
  sa_table : SessionTable;
  sa_db : Db;
  sa_ledger : option (EventLedger * ZaionKeypair);
  sa_principal_id : string
}.

Section Adapter.
Context `{Env} (visit : list EventRow -> list EventRow).

Definition validate_adapter_principal (principal_id : string) : result SessionError string :=
  guard? negb (is_unsafe_principal principal_id)
    else Message ("SessionStoreAdapter requires a production-safe principal, got " +:+ principal_id) in
  Ok principal_id.

Definition adapter_new (t : SessionTable) (db : Db) (principal : string)
  : result SessionError SessionStoreAdapter :=
  let? p := validate_adapter_principal principal in
  Ok {| sa_table := t; sa_db := db; sa_ledger := None; sa_principal_id := p |}.

Definition new_with_ledger (t : SessionTable) (db : Db) (ledger : EventLedger)
    (keypair : ZaionKeypair) : result SessionError SessionStoreAdapter :=
  let? p := validate_adapter_principal (principal_id keypair) in
  Ok {| sa_table := t; sa_db := db; sa_ledger := Some (ledger, keypair); sa_principal_id := p |}.

Definition with_table (a : SessionStoreAdapter) (t : SessionTable) : SessionStoreAdapter :=
  {| sa_table := t; sa_db := sa_db a; sa_ledger := sa_ledger a;
     sa_principal_id := sa_principal_id a |}.
Definition with_ledger_db (a : SessionStoreAdapter) (db : Db) : SessionStoreAdapter :=
  {| sa_table := sa_table a; sa_db := db; sa_ledger := sa_ledger a;
     sa_principal_id := sa_principal_id a |}.

Definition store_error {A} (r : result LedgerError A) : result SessionError A :=
  match r with Ok a => Ok a | Err e => Err (StoreFailed e) end.

Definition principal_for_metadata (a : SessionStoreAdapter) (m : SessionMetadata)
  : result SessionError string :=
  let principal := if bool_decide (str_trim (sm_principal_id m) = EmptyString)
                   then sa_principal_id a else sm_principal_id m in
  guard? negb (is_unsafe_principal principal)
    else Message ("session metadata principal is not production-safe: " +:+ principal) in
  Ok principal.

(** The entry that [create_session] and [update_session] write under an identifier. *)
Definition entry_of_metadata (session_id principal : string) (m : SessionMetadata) : SessionEntry :=
  {| se_session_id := session_id; se_principal_id := principal; se_platform := sm_source m;
     se_chat_id := default "default" (sm_chat_id m); se_user_id := sm_user_id m;
     se_thread_id := sm_thread_id m; se_session_key := default session_id (sm_title m);
     se_created_at := sm_created_at m; se_updated_at := sm_created_at m;
     se_message_count := 0; se_tool_call_count := 0; se_estimated_cost_usd := 0;
     se_memory_flushed := false; se_was_auto_reset := false; se_auto_reset_reason := None;
     se_parent_session_id := sm_parent_session_id m; se_end_reason := sm_end_reason m |}.

Definition metadata_of_entry (e : SessionEntry) : SessionMetadata :=
  {| sm_principal_id := se_principal_id e; sm_session_id := se_session_id e;
     sm_parent_session_id := se_parent_session_id e; sm_title := Some (se_session_key e);
     sm_model := "unknown"; sm_source := se_platform e; sm_chat_id := Some (se_chat_id e);
     sm_user_id := se_user_id e; sm_thread_id := se_thread_id e;
     sm_end_reason := se_end_reason e; sm_created_at := se_created_at e; sm_ended_at := None |}.

Definition write_entry (a : SessionStoreAdapter) (session_id : string) (m : SessionMetadata)
  : SessionStoreAdapter * result SessionError unit :=
  match (let? p := principal_for_metadata a m in
         store_error (upsert_session (sa_table a) (entry_of_metadata session_id p m))) with
  | Ok t => (with_table a t, Ok tt)
  | Err e => (a, Err e)
  end.

Definition opt_value (o : option string) : Value :=
  match o with Some s => VString s | None => VNull end.

(** The payload of a copied event. *)
Definition copy_payload (from_session to_session : string) (source : LedgerEvent) : Value :=
  VObject [("schema", VString "zaion.session_history_copy.v1");
           ("from_session", VString from_session); ("to_session", VString to_session);
           ("source_event_id", VString (le_event_id source));
           ("source_event_type", VString (le_event_type source));
           ("source_namespace_key", VString (le_namespace_key source));
           ("source_run_id", opt_value (le_run_id source));
           ("source_parent_event_id", opt_value (le_parent_event_id source));
           ("source_created_at", VString (le_created_at source));
           ("source_signature_present", VBool (opt_is_some (le_signature source)));
           ("source_payload", le_payload source); ("copy_policy", VString "lineage_pointer")].

(** The loop; the events that were appended before a failure stay. *)
Fixpoint copy_loop (ledger : EventLedger) (keypair : ZaionKeypair) (draws : Draws)
    (from_session to_session : string) (copied : nat) (db : Db) (sources : list LedgerEvent)
  : Db * result LedgerError nat :=
  match sources with
  | [] => (db, Ok copied)
  | source :: sources' =>
      match append_signed_event_with_parent ledger db (draws copied).1 (draws copied).2 keypair
              to_session "session.history.copied" (copy_payload from_session to_session source)
              (le_run_id source) (Some (le_event_id source)) with
      | Ok (_, db') =>
          copy_loop ledger keypair draws from_session to_session (S copied) db' sources'
      | Err e => (db, Err e)
      end
  end.

Definition COPY_LIMIT : Z := 10000.

Definition adapter_copy_history (a : SessionStoreAdapter) (draws : Draws)
    (from_session to_session : string) : SessionStoreAdapter * result SessionError nat :=
  match sa_ledger a with
  | None => (a, Err (Message "SessionStoreAdapter::copy_history requires EventLedger for proof-preserving session history copy"))
  | Some (ledger, keypair) =>
      if bool_decide (str_trim from_session = EmptyString)
         || bool_decide (str_trim to_session = EmptyString)
      then (a, Err (Message "copy_history requires non-empty source and target session ids")) else
      match list_events visit ledger (sa_db a) from_session None COPY_LIMIT with
      | Err e => (a, Err (StoreFailed e))
      | Ok events =>
          let '(db, r) := copy_loop ledger keypair draws from_session to_session 0 (sa_db a)
                            (rev events) in
          (with_ledger_db a db, store_error r)
      end
  end.

#[global] Instance adapter_store : SessionStore SessionStoreAdapter := {
  get_session a session_id :=
    let? found := store_error (get_session_entry (sa_table a) session_id) in
    Ok (metadata_of_entry <$> found);
  create_session a m := write_entry a (sm_session_id m) m;
  update_session a session_id m := write_entry a session_id m;
  get_title a session_id := store_error (get_session_title (sa_table a) session_id);
  set_title a session_id title now :=
    match store_error (set_session_title (sa_table a) session_id title now) with
    | Ok t => (with_table a t, Ok tt)
    | Err e => (a, Err e)
    end;
  copy_history := adapter_copy_history
}.
End Adapter.
