(* ===== verification/SessionTheorems.v ===== *)
(** * Sessions: unique keys, titles and branches

    The table keeps its keys unique under every operation; the title of a branch counts
    on from its parent's; a successful branch writes exactly the new session, the end of
    the parent and signed pointers to the parent's history; and two defects: a second
    branch of a session under a default title is refused, and branching forgets the
    counters of the parent. *)

From Stdlib Require Import Ascii.
From stdpp Require Import prelude gmap strings list pretty relations.
From S2P Require Import Prelude.
From S2P Require Import Json.
From S2P Require Import Env.
From S2P Require Import Concrete.
From S2P Require Import Ingress.
From S2P Require Import Schema.
From S2P Require Import Database.
From S2P Require Import Samples.
From S2P Require Import Ledger.
From S2P Require Import LedgerChain.
From S2P Require Import LedgerQueries.
From S2P Require Import Sessions.
Local Open Scope res_scope.
Local Open Scope Z_scope.

(** ** The table *)

Record table_wf (t : SessionTable) : Prop := {
  tw_id : forall id e, t !! id = Some e -> se_session_id e = id;
  tw_key : forall id id' e e', t !! id = Some e -> t !! id' = Some e' ->
    se_session_key e = se_session_key e' -> id = id'
}.

Lemma key_taken_false t id k :
  key_taken t id k = false <->
  forall id' e', t !! id' = Some e' -> se_session_key e' = k -> id' = id.
Proof.
  unfold key_taken. rewrite bool_decide_eq_false, Exists_exists. split.
  - intros Hn id' e' He Hk. destruct (decide (id' = id)) as [|Hne]; [done|]. exfalso. apply Hn.
    exists (id', e'). by rewrite elem_of_map_to_list.
  - intros Hall ([id' e'] & Hin & Hne & Hk). apply elem_of_map_to_list in Hin. eauto.
Qed.

Lemma key_taken_true t id k :
  key_taken t id k = true <->
  exists id' e', t !! id' = Some e' /\ se_session_key e' = k /\ id' <> id.
Proof.
  unfold key_taken. rewrite bool_decide_eq_true, Exists_exists. split.
  - intros ([id' e'] & Hin & Hne & Hk). apply elem_of_map_to_list in Hin. eauto.
  - intros (id' & e' & He & Hk & Hne). exists (id', e'). by rewrite elem_of_map_to_list.
Qed.

Lemma table_wf_insert t id e :
  table_wf t -> se_session_id e = id -> key_taken t id (se_session_key e) = false ->
  table_wf (<[id := e]> t).
Proof.
  intros [Hid Hkey] He Hk. rewrite key_taken_false in Hk. split.
  - intros id' e' [[<- <-]|[Hne Hl]]%lookup_insert_Some; eauto.
  - intros i j ei ej [[<- <-]|[Hni Hi]]%lookup_insert_Some [[<- <-]|[Hnj Hj]]%lookup_insert_Some Hs.
    + done.
    + symmetry. by eapply Hk.
    + by eapply Hk.
    + by eapply Hkey.
Qed.

Lemma table_wf_filter t (P : string * SessionEntry -> Prop) `{forall x, Decision (P x)} :
  table_wf t -> table_wf (filter P t).
Proof.
  intros [Hid Hkey]. split.
  - intros id e [He _]%map_lookup_filter_Some. eauto.
  - intros id id' e e' [He _]%map_lookup_filter_Some [He' _]%map_lookup_filter_Some. eauto.
Qed.

Lemma update_key_result t id key now r :
  update_key t id key now = Ok r ->
  r = (false, t) \/ exists e, t !! id = Some e /\ key_taken t id key = false /\
                       r = (true, <[id := set_key key now e]> t).
Proof.
  unfold update_key. destruct (t !! id) as [e|]; [|by intros [= <-]; left].
  destruct (negb _) eqn:Ek; [|done]. intros [= <-]. right. exists e. bool_props. done.
Qed.

Lemma update_key_wf t id key now b t' :
  table_wf t -> update_key t id key now = Ok (b, t') -> table_wf t'.
Proof.
  intros Hwf [[= -> ->]|(e & He & Hk & [= -> ->])]%update_key_result; [done|].
  apply table_wf_insert; [done|exact (tw_id _ Hwf _ _ He)|done].
Qed.

Lemma find_key_spec t k id e :
  table_wf t -> find_key t k = Some (id, e) <-> t !! id = Some e /\ se_session_key e = k.
Proof.
  intros Hwf. unfold find_key. split.
  - intros Hf. apply find_some in Hf as [Hin%list_elem_of_In Hk]. apply bool_decide_eq_true_1 in Hk.
    by apply elem_of_map_to_list in Hin.
  - intros [He Hk]. destruct (find _ _) as [[id' e']|] eqn:Ef.
    + apply find_some in Ef as [Hin%list_elem_of_In Hk']. apply bool_decide_eq_true_1 in Hk'.
      apply elem_of_map_to_list in Hin. simpl in Hk'.
      assert (id' = id) as -> by (eapply (tw_key _ Hwf); [exact Hin|exact He|congruence]).
      congruence.
    + exfalso. apply elem_of_map_to_list, list_elem_of_In in He. apply (find_none _ _ Ef) in He.
      by apply bool_decide_eq_false_1 in He.
Qed.

(** One operation of [SessionStore] that changes the table. *)
Inductive table_step (t : SessionTable) : SessionTable -> Prop :=
| ts_upsert entry t' : upsert_session t entry = Ok t' -> table_step t t'
| ts_delete key b t' : delete_by_key t key = Ok (b, t') -> table_step t t'
| ts_rename old new now b t' : rename_session_key t old new now = Ok (b, t') -> table_step t t'
| ts_prune before source n t' :
    prune_older_than_with_source t before source = Ok (n, t') -> table_step t t'
| ts_title id title now t' : set_session_title t id title now = Ok t' -> table_step t t'.

Lemma upsert_wf t entry t' : table_wf t -> upsert_session t entry = Ok t' -> table_wf t'.
Proof.
  intros Hwf. unfold upsert_session. destruct (negb _) eqn:Ek; [|done]. intros [= <-]. bool_props.
  apply table_wf_insert; [done| |].
  - destruct (t !! se_session_id entry) as [old|] eqn:E; [exact (tw_id _ Hwf _ _ E)|done].
  - by destruct (t !! se_session_id entry).
Qed.

Lemma table_step_wf t t' : table_step t t' -> table_wf t -> table_wf t'.
Proof.
  intros Hs Hwf.
  destruct Hs as [entry t' Hu|key b t' Hd|old new now b t' Hr|before source n t' Hp|id title now t' Ht].
  - by eapply upsert_wf.
  - unfold delete_by_key, delete_where in Hd. simplify_eq. by apply table_wf_filter.
  - unfold rename_session_key in Hr. destruct (find_key t old) as [[id e]|]; [|by simplify_eq].
    by eapply update_key_wf.
  - unfold prune_older_than_with_source, prune_older_than, delete_where in Hp.
    destruct source; simplify_eq; by apply table_wf_filter.
  - unfold set_session_title in Ht. destruct (update_key t id title now) as [[b t1]|] eqn:E; [|done].
    simplify_eq. by eapply update_key_wf.
Qed.

(** The keys of sessions are unique whatever the table went through, so a session is
    found by its key and by its identifier alike. *)
Theorem session_keys_unique t :
  rtc table_step ∅ t -> table_wf t /\
  forall id e, t !! id = Some e -> get_by_key t (se_session_key e) = Ok (Some e).
Proof.
  intros Hs. assert (Hwf : table_wf t).
  { assert (H0 : table_wf ∅) by (split; intros; by simplify_map_eq). revert H0.
    induction Hs as [|t1 t2 t3 H1 _ IH]; [done|]. intros Hw. by eapply IH, table_step_wf. }
  split; [done|]. intros id e He. unfold get_by_key. by rewrite (proj2 (find_key_spec t _ id e Hwf)).
Qed.

(** ** Titles *)

Lemma digit_value_char n : (n < 10)%N -> digit_value (pretty_N_char n) = Some (Z.of_N n).
Proof.
  intros Hn. destruct n as [|p]; [vm_compute; reflexivity|].
  do 4 (try destruct p as [p|p|]); try (vm_compute; reflexivity); lia.
Qed.

(** The digits of a number are read back on top of what is already there. *)
Lemma digits_value_pretty x : forall s, digits_value 0 (pretty_N_go x s) = digits_value (Z.of_N x) s.
Proof.
  induction (N.lt_wf_0 x) as [x _ IH]. intros s.
  destruct (decide (x = 0%N)) as [-> |Hx]; [by rewrite pretty_N_go_0|].
  rewrite pretty_N_go_step by lia. rewrite IH by (apply N.div_lt; lia). simpl.
  rewrite digit_value_char by (apply N.mod_lt; lia). f_equal.
  pose proof (N.div_mod' x 10). lia.
Qed.

Lemma digits_value_text z : 0 <= z -> digits_value 0 (z_to_string z) = Some z.
Proof.
  intros Hz. unfold z_to_string. destruct z as [|p|p]; [done| |lia].
  change (pretty (Z.pos p)) with (pretty (N.pos p)). unfold pretty, pretty_N.
  rewrite decide_False by done. by rewrite digits_value_pretty.
Qed.

Definition plain_digits (s : string) : Prop := str_all (fun a => opt_is_some (digit_value a)) s = true.

Lemma digits_plain s acc v : digits_value acc s = Some v -> plain_digits s.
Proof.
  unfold plain_digits, str_all. revert acc. induction s as [|a s IH]; intros acc; simpl; [done|].
  destruct (digit_value a); [|done]. intros Hs. simpl. by eapply IH.
Qed.

Lemma digits_no_mark s : plain_digits s -> split_last_mark s = None.
Proof.
  unfold plain_digits, str_all. induction s as [|a s IH]; simpl; [done|].
  intros [Ha Hs]%andb_true_iff. rewrite IH by done.
  destruct (strip_prefix " #" (String a s)) eqn:E; [|done].
  apply strip_prefix_Some in E. injection E as -> _. done.
Qed.

Lemma split_mark_app base rest :
  split_last_mark rest = None -> split_last_mark (base +:+ " #" +:+ rest) = Some (base, rest).
Proof.
  intros Hr. induction base as [|a base IH].
  - assert (Hm : split_last_mark (String "035"%char rest) = None).
    { simpl. rewrite Hr. destruct (strip_prefix " #" (String "035"%char rest)) eqn:E; [|done].
      apply strip_prefix_Some in E. discriminate E. }
    change ("" +:+ " #" +:+ rest) with (String "032"%char (String "035"%char rest)).
    cbn [split_last_mark]. cbn [split_last_mark] in Hm. rewrite Hm.
    by rewrite (proj2 (strip_prefix_Some " #" _ rest)).
  - change (String a base +:+ " #" +:+ rest) with (String a (base +:+ " #" +:+ rest)).
    cbn [split_last_mark]. by rewrite IH.
Qed.

Lemma parse_text z : 0 <= z <= u32_max -> parse_u32 (z_to_string z) = Some z.
Proof.
  intros Hz. pose proof (digits_value_text z ltac:(lia)) as Hd.
  pose proof (digits_plain _ _ _ Hd) as Hp. unfold parse_u32.
  destruct (z_to_string z) as [|a s] eqn:Es.
  { exfalso. unfold z_to_string in Es. destruct z as [|p|p]; [done| |lia].
    change (pretty (Z.pos p)) with (pretty (N.pos p)) in Es.
    pose proof (digits_value_text (Z.pos p) ltac:(lia)) as He. unfold z_to_string in He.
    change (pretty (Z.pos p)) with (pretty (N.pos p)) in He. rewrite Es in He. done. }
  assert (Hplus : byte_in "+" a = false).
  { unfold plain_digits, str_all in Hp. simpl in Hp. apply andb_true_iff in Hp as [Ha _].
    destruct (byte_in "+" a) eqn:E; [|done]. unfold byte_in in E. simpl in E.
    rewrite orb_false_r in E. apply Ascii.eqb_eq in E as ->. done. }
  rewrite Hplus. rewrite bool_decide_eq_false_2 by done. rewrite Hd.
  by rewrite bool_decide_eq_true_2 by lia.
Qed.

(** The title a numbered one is followed by. *)
Lemma lineage_next base n :
  0 <= n < u32_max ->
  generate_lineage_title (base +:+ " #" +:+ z_to_string n) = base +:+ " #" +:+ z_to_string (n + 1).
Proof.
  intros Hn. unfold generate_lineage_title.
  rewrite split_mark_app by (eapply digits_no_mark, digits_plain, digits_value_text; lia).
  rewrite parse_text by lia. rewrite Z.mod_small; [done|]. unfold u32_max in *. lia.
Qed.

Definition unnumbered (title : string) : Prop :=
  forall base rest, split_last_mark title = Some (base, rest) -> parse_u32 rest = None.

(** The [n]-th generation of branches of a session is titled with the number [n + 1]. *)
Theorem lineage_titles_count title n :
  unnumbered title -> Z.of_nat n + 2 <= u32_max ->
  Nat.iter (S n) generate_lineage_title title
  = title +:+ " #" +:+ z_to_string (Z.of_nat n + 2).
Proof.
  intros Hu Hn. induction n as [|n IH].
  - simpl. unfold generate_lineage_title.
    destruct (split_last_mark title) as [[base rest]|] eqn:E; [|done].
    by rewrite (Hu _ _ E).
  - change (Nat.iter (S (S n)) generate_lineage_title title)
      with (generate_lineage_title (Nat.iter (S n) generate_lineage_title title)).
    rewrite IH by lia. rewrite lineage_next by (unfold u32_max in *; lia).
    do 3 f_equal. lia.
Qed.

(** ** Branches through the adapter *)

Section Branches.
Context `{Env} (visit : list EventRow -> list EventRow).
#[local] Existing Instance adapter_store.

(** The row that stands for a source event in the new session. *)
Definition copied_row (keypair : ZaionKeypair) (from_session to_session : string)
    (source : LedgerEvent) (row : EventRow) : Prop :=
  ev_namespace_key row = to_session /\ ev_event_type row = "session.history.copied" /\
  ev_principal_id row = principal_id keypair /\
  ev_parent_event_id row = Some (le_event_id source) /\ ev_run_id row = le_run_id source /\
  ev_payload_json row = json_to_string (copy_payload from_session to_session source) /\
  ev_signature_hex row = Some (hex_encode (sign_event_envelope keypair (principal_id keypair)
    to_session (le_run_id source) "session.history.copied"
    (copy_payload from_session to_session source) (Some (le_event_id source)))).

Lemma copy_loop_rows ledger keypair draws from_s to_s sources : forall copied db db' r,
  ledger_wf db ->
  copy_loop ledger keypair draws from_s to_s copied db sources = (db', r) ->
  ledger_wf db' /\ exists rows, db' = with_events db (events db ++ rows) /\
    match r with
    | Ok n => n = (copied + length sources)%nat /\
              Forall2 (copied_row keypair from_s to_s) sources rows
    | Err _ => exists done_ rest, sources = done_ ++ rest /\
                 Forall2 (copied_row keypair from_s to_s) done_ rows
    end.
Proof.
  induction sources as [|source sources IH]; intros copied db db' r Hwf Hc; simpl in Hc.
  { simplify_eq. split; [done|]. exists []. rewrite app_nil_r. split; [by destruct db'|].
    split; [simpl; lia|constructor]. }
  destruct (append_signed_event_with_parent _ _ _ _ _ _ _ _ _ _) as [[id db1]|e] eqn:Ea.
  - unfold append_signed_event_with_parent, append_event_with_parent in Ea. cbv zeta in Ea.
    apply with_conn_inv in Ea as [Ea _].
    destruct (append_prepared_event _ _ _) as [[ins db2]|] eqn:Ep in Ea; [|done].
    injection Ea as <- <-. pose proof (append_wf _ _ _ _ _ Hwf Ep) as Hwf1.
    destruct ins; [|by apply append_existing in Ep as (_ & ? & _ & _ & ?)].
    apply append_inserted in Ep as (seq & prev & _ & _ & ->).
    destruct (IH _ _ _ _ Hwf1 Hc) as (Hwf' & rows & -> & Hr). split; [done|].
    eexists (_ :: rows). simpl events. rewrite <- app_assoc. split; [reflexivity|].
    assert (Hrow : copied_row keypair from_s to_s source (prepared_row
      {| pe_event_id := (draws copied).1; pe_principal_id := principal_id keypair;
         pe_namespace_key := to_s; pe_run_id := le_run_id source;
         pe_event_type := "session.history.copied";
         pe_payload_json := json_to_string (copy_payload from_s to_s source);
         pe_signature_hex := hex_encode <$> Some (sign_event_envelope keypair (principal_id keypair)
           to_s (le_run_id source) "session.history.copied" (copy_payload from_s to_s source)
           (Some (le_event_id source)));
         pe_created_at := (draws copied).2; pe_parent_event_id := Some (le_event_id source) |}
      seq prev)) by (by repeat split).
    destruct r as [n|e].
    + destruct Hr as [-> Hr]. split; [simpl; lia|]. by constructor.
    + destruct Hr as (done_ & rest & -> & Hr). exists (source :: done_), rest.
      split; [done|]. by constructor.
  - simplify_eq. split; [done|]. exists []. rewrite app_nil_r. split; [by destruct db'|].
    exists [], (source :: sources). split; [done|constructor].
Qed.

Lemma write_entry_result a id m a' r :
  write_entry a id m = (a', r) ->
  match r with
  | Ok _ => exists p t, principal_for_metadata a m = Ok p /\
              upsert_session (sa_table a) (entry_of_metadata id p m) = Ok t /\ a' = with_table a t
  | Err _ => a' = a
  end.
Proof.
  unfold write_entry. destruct (principal_for_metadata a m) as [p|]; [|by intros [= <- <-]].
  cbv beta iota. destruct (upsert_session _ _) as [t|] eqn:Eu; intros [= <- <-]; [|done]. eauto.
Qed.

Lemma principal_for_result a m p :
  principal_for_metadata a m = Ok p ->
  is_unsafe_principal p = false /\ (str_trim (sm_principal_id m) <> "" -> p = sm_principal_id m).
Proof.
  unfold principal_for_metadata. cbv zeta. destruct (negb _) eqn:E; [|done]. intros [= <-]. bool_props.
  split; [done|]. intros Hne. by rewrite bool_decide_eq_false_2.
Qed.

Lemma upsert_result t e t' :
  upsert_session t e = Ok t' ->
  key_taken t (se_session_id e) (se_session_key e) = false /\
  t' = <[se_session_id e := match t !! se_session_id e with
                            | Some old => updated_entry old e | None => e end]> t.
Proof. unfold upsert_session. destruct (negb _) eqn:E; [|done]. intros [= <-]. by bool_props. Qed.

(** What the checks before the first write establish. *)
Lemma branch_checks_result a req reason parent title :
  branch_checks (H := adapter_store visit) a req reason = Ok (parent, title) ->
  exists pe, sa_table a !! br_parent_session_id req = Some pe /\ parent = metadata_of_entry pe /\
    is_unsafe_principal (se_principal_id pe) = false /\
    title = match br_branch_name req with
            | Some name => name
            | None => generate_lineage_title (se_session_key pe)
            end.
Proof.
  unfold branch_checks. simpl. intros Hc. destruct (negb _) in Hc; [|done].
  destruct (sa_table a !! br_parent_session_id req) as [pe|] eqn:E; [|done]. simpl in Hc.
  destruct (negb _) eqn:Eu in Hc; [|done]. destruct (negb _) in Hc; [|done]. simplify_eq.
  bool_props. by exists pe.
Qed.

(** The four writes of a branch, one by one. *)
Lemma branch_inv a d req reason a' r :
  branch_with_parent_end_reason (H := adapter_store visit) a d req reason = (a', Ok r) ->
  exists parent title a1 a2 a3 n,
    branch_checks (H := adapter_store visit) a req reason = Ok (parent, title) /\
    write_entry a (bd_new_session_id d) (branch_metadata parent req title d) = (a1, Ok tt) /\
    set_session_title (sa_table a1) (bd_new_session_id d) title (bd_titled_at d) = Ok (sa_table a2) /\
    a2 = with_table a1 (sa_table a2) /\
    adapter_copy_history visit a2 (bd_copies d) (br_parent_session_id req) (bd_new_session_id d)
    = (a3, Ok n) /\
    write_entry a3 (br_parent_session_id req) (ended parent reason (bd_ended_at d)) = (a', Ok tt) /\
    r = {| res_new_session_id := bd_new_session_id d; res_new_title := title;
           res_parent_session_id := br_parent_session_id req; res_turns_copied := n |}.
Proof.
  unfold branch_with_parent_end_reason. intros Hb.
  destruct (branch_checks a req reason) as [[parent title]|] eqn:Ec; [|done].
  cbv zeta in Hb. unfold and_then_in in Hb.
  cbn [create_session set_title copy_history update_session adapter_store sm_session_id
       branch_metadata] in Hb.
  destruct (write_entry a _ _) as [a1 [[]|]] eqn:E1 in Hb; [|done].
  destruct (set_session_title _ _ _ _) as [t2|] eqn:E2 in Hb; [|done].
  cbn [store_error] in Hb.
  destruct (adapter_copy_history _ _ _ _ _) as [a3 [n|]] eqn:E3 in Hb; [|done].
  destruct (write_entry a3 _ _) as [a4 [[]|]] eqn:E4 in Hb; [|done]. simplify_eq.
  exists parent, title, a1, (with_table a1 t2), a3, n. done.
Qed.

(** The rows of the table after a branch. *)
Definition branch_entry (pe : SessionEntry) (p parent_id title : string) (d : BranchDraws)
  : SessionEntry :=
  {| se_session_id := bd_new_session_id d; se_principal_id := p; se_platform := se_platform pe;
     se_chat_id := se_chat_id pe; se_user_id := se_user_id pe; se_thread_id := se_thread_id pe;
     se_session_key := title; se_created_at := bd_created_at d; se_updated_at := bd_titled_at d;
     se_message_count := 0; se_tool_call_count := 0; se_estimated_cost_usd := 0;
     se_memory_flushed := false; se_was_auto_reset := false; se_auto_reset_reason := None;
     se_parent_session_id := Some parent_id; se_end_reason := None |}.

Definition ended_entry (pe : SessionEntry) (reason : string) : SessionEntry :=
  {| se_session_id := se_session_id pe; se_principal_id := se_principal_id pe;
     se_platform := se_platform pe; se_chat_id := se_chat_id pe; se_user_id := se_user_id pe;
     se_thread_id := se_thread_id pe; se_session_key := se_session_key pe;
     se_created_at := se_created_at pe; se_updated_at := se_created_at pe;
     se_message_count := 0; se_tool_call_count := 0; se_estimated_cost_usd := 0;
     se_memory_flushed := false; se_was_auto_reset := se_was_auto_reset pe;
     se_auto_reset_reason := se_auto_reset_reason pe;
     se_parent_session_id := se_parent_session_id pe; se_end_reason := Some reason |}.

(** The table after the first two writes holds the new session. *)
Lemma branch_created a d req parent title pe a1 a2 :
  sa_table a !! bd_new_session_id d = None -> parent = metadata_of_entry pe ->
  write_entry a (bd_new_session_id d) (branch_metadata parent req title d) = (a1, Ok tt) ->
  set_session_title (sa_table a1) (bd_new_session_id d) title (bd_titled_at d) = Ok (sa_table a2) ->
  a2 = with_table a1 (sa_table a2) ->
  exists p, is_unsafe_principal p = false /\
    (str_trim (se_principal_id pe) <> "" -> p = se_principal_id pe) /\
    a2 = with_table a (<[bd_new_session_id d :=
           branch_entry pe p (br_parent_session_id req) title d]> (sa_table a)).
Proof.
  intros Hnew -> Hw Ht Ha2. apply write_entry_result in Hw as (p & t & Hp & Hu & ->).
  apply principal_for_result in Hp as [Hs Hp]. exists p. split; [done|]. split; [exact Hp|].
  apply upsert_result in Hu as [_ Hu].
  cbn [se_session_id entry_of_metadata] in Hu. rewrite Hnew in Hu. rewrite Ha2. unfold with_table.
  cbn [sa_table sa_db sa_ledger sa_principal_id with_table] in *. f_equal.
  unfold set_session_title in Ht.
  destruct (update_key t _ title _) as [[b t']|] eqn:Ek in Ht; [|done]. injection Ht as Ht.
  rewrite <- Ht. pose proof (update_key_result _ _ _ _ _ Ek) as [[= -> ->]|(e & He & _ & [= -> ->])].
  - exfalso. revert Ek. unfold update_key. rewrite Hu, lookup_insert_eq.
    destruct (negb _); discriminate.
  - rewrite Hu, lookup_insert_eq in He. injection He as <-. rewrite Hu, insert_insert_eq. reflexivity.
Qed.

Lemma branch_result a d req reason a' r :
  ledger_wf (sa_db a) -> table_wf (sa_table a) -> sa_table a !! bd_new_session_id d = None ->
  branch_with_parent_end_reason (H := adapter_store visit) a d req reason = (a', Ok r) ->
  exists pe p ledger keypair sources rows,
    sa_table a !! br_parent_session_id req = Some pe /\ sa_ledger a = Some (ledger, keypair) /\
    list_events visit ledger (sa_db a) (br_parent_session_id req) None COPY_LIMIT = Ok sources /\
    sa_table a' = <[br_parent_session_id req := ended_entry pe reason]>
                    (<[bd_new_session_id d := branch_entry pe p (br_parent_session_id req)
                         (res_new_title r) d]> (sa_table a)) /\
    is_unsafe_principal p = false /\
    (str_trim (se_principal_id pe) <> "" -> p = se_principal_id pe) /\
    sa_db a' = with_events (sa_db a) (events (sa_db a) ++ rows) /\
    Forall2 (copied_row keypair (br_parent_session_id req) (bd_new_session_id d)) (rev sources) rows /\
    res_turns_copied r = length rows /\ ledger_wf (sa_db a') /\ table_wf (sa_table a').
Proof.
  intros Hwf Ht Hnew Hb.
  apply branch_inv in Hb as (parent & title & a1 & a2 & a3 & n & Hc & H1 & H2 & H2' & H3 & H4 & ->).
  apply branch_checks_result in Hc as (pe & Hpe & -> & _ & _).
  destruct (branch_created _ _ _ _ _ pe _ _ Hnew eq_refl H1 H2 H2') as (p & Hsafe & Hp & Ha2).
  assert (Hne : bd_new_session_id d <> br_parent_session_id req) by congruence.
  unfold adapter_copy_history in H3. rewrite Ha2 in H3.
  cbn [sa_ledger with_table sa_db] in H3.
  destruct (sa_ledger a) as [[ledger keypair]|] eqn:El; [|done].
  destruct (_ || _) in H3; [done|].
  destruct (list_events _ _ _ _ _ _) as [sources|] eqn:Es in H3; [|done].
  destruct (copy_loop _ _ _ _ _ _ _ _) as [db res] eqn:Ecl in H3.
  apply copy_loop_rows in Ecl as (Hwf' & rows & Hdb & Hr); [|done].
  destruct res as [k|]; [|done]. injection H3 as <- <-. destruct Hr as [Hk Hr].
  apply write_entry_result in H4 as (p' & t & Hp' & Hu & ->).
  assert (Htab2 : table_wf (sa_table a2)).
  { apply write_entry_result in H1 as (? & ? & _ & Hu1 & ->). eapply table_step_wf; [by eapply ts_title|].
    by eapply upsert_wf. }
  rewrite Ha2 in Htab2. cbn [sa_table with_table] in Htab2.
  exists pe, p, ledger, keypair, sources, rows. cbn [res_new_title res_turns_copied].
  cbn [sa_table with_table with_ledger_db sa_db] in *.
  pose proof (upsert_wf _ _ _ Htab2 Hu) as Htab'.
  apply upsert_result in Hu as [_ Hu]. cbn [se_session_id entry_of_metadata] in Hu.
  rewrite lookup_insert_ne, Hpe in Hu by done.
  split; [done|]. split; [done|]. split; [done|]. split; [|].
  { rewrite Hu. unfold updated_entry, ended_entry.
    cbn [entry_of_metadata ended metadata_of_entry sm_title sm_created_at sm_parent_session_id
         sm_end_reason se_session_key se_updated_at se_message_count se_tool_call_count
         se_estimated_cost_usd se_memory_flushed se_parent_session_id se_end_reason coalesce default].
    by destruct (se_parent_session_id pe). }
  split; [done|]. split; [done|]. split; [exact Hdb|]. split; [exact Hr|].
  split; [|split; [done|exact Htab']]. rewrite Hk. apply Forall2_length in Hr. simpl. lia.
Qed.


(** Branching a session a second time under its default title fails and changes nothing,
    whatever it was told: the title is the one the first branch took, and titles are the
    unique keys of the table.  Nothing of the first branch prevents the request. *)
Theorem second_default_branch_refused a d req reason a' r d2 req2 reason2 :
  ledger_wf (sa_db a) -> table_wf (sa_table a) -> sa_table a !! bd_new_session_id d = None ->
  br_branch_name req = None ->
  branch_with_parent_end_reason (H := adapter_store visit) a d req reason = (a', Ok r) ->
  br_parent_session_id req2 = br_parent_session_id req -> br_branch_name req2 = None ->
  sa_table a' !! bd_new_session_id d2 = None ->
  exists e, branch_with_parent_end_reason (H := adapter_store visit) a' d2 req2 reason2 = (a', Err e).
Proof.
  intros Hwf Ht Hnew Hnone Hb Hpar Hnone2 Hnew2.
  assert (Htitle : exists pe, sa_table a !! br_parent_session_id req = Some pe /\
    res_new_title r = generate_lineage_title (se_session_key pe)).
  { pose proof Hb as Hi.
    apply branch_inv in Hi as (parent & title & ? & ? & ? & ? & Hc & _ & _ & _ & _ & _ & ->).
    apply branch_checks_result in Hc as (pe & Hpe & _ & _ & ->). exists pe. by rewrite Hnone. }
  destruct Htitle as (pe & Hpe & Hti).
  destruct (branch_result _ _ _ _ _ _ Hwf Ht Hnew Hb)
    as (pe' & p & ? & ? & ? & ? & Hpe' & _ & _ & Htab & _). simplify_eq.
  assert (Hne : bd_new_session_id d <> br_parent_session_id req) by congruence.
  unfold branch_with_parent_end_reason.
  destruct (branch_checks a' req2 reason2) as [[parent title]|e] eqn:Ec; [|by exists e].
  apply branch_checks_result in Ec as (pe2 & Hpe2 & -> & _ & ->).
  rewrite Hpar, Htab, lookup_insert_eq in Hpe2. injection Hpe2 as <-. rewrite Hnone2.
  cbv zeta. cbn [create_session adapter_store sm_session_id branch_metadata].
  destruct (write_entry a' _ _) as [a2 [[]|e]] eqn:Ew.
  - exfalso. apply write_entry_result in Ew as (p2 & t & _ & Hu & _).
    apply upsert_result in Hu as [Hk _]. rewrite key_taken_false in Hk.
    cbn [se_session_key entry_of_metadata sm_title branch_metadata default se_session_id
         ended_entry] in Hk.
    assert (bd_new_session_id d = bd_new_session_id d2) as Heq.
    { eapply Hk; [by rewrite Htab, lookup_insert_ne, lookup_insert_eq|]. simpl. exact Hti. }
    rewrite <- Heq, Htab, lookup_insert_ne, lookup_insert_eq in Hnew2 by done. done.
  - apply write_entry_result in Ew as ->. by exists e.
Qed.
End Branches.

(** ** Examples *)

Definition ex_entry (id key : string) : SessionEntry :=
  {| se_session_id := id; se_principal_id := principal_id sample_keypair; se_platform := "cli";
     se_chat_id := "main"; se_user_id := None; se_thread_id := None; se_session_key := key;
     se_created_at := "2026-04-17T00:00:00Z"; se_updated_at := "2026-04-18T00:00:00Z";
     se_message_count := 12; se_tool_call_count := 3; se_estimated_cost_usd := 7;
     se_memory_flushed := true; se_was_auto_reset := false; se_auto_reset_reason := None;
     se_parent_session_id := None; se_end_reason := None |}.

(** A session with two events in the ledger. *)
Definition ex_add (db : Db) (id : string) : Db :=
  match append_signed_event_with_parent sample_handle db id "now" sample_keypair "s-1"
          "turn.message" (VString id) None None with
  | Ok (_, db') => db'
  | Err _ => db
  end.
Definition ex_history : Db := ex_add (ex_add sample_db "evt-1") "evt-2".

Definition ex_adapter : SessionStoreAdapter :=
  {| sa_table := {["s-1" := ex_entry "s-1" "Work"]}; sa_db := ex_history;
     sa_ledger := Some (sample_handle, sample_keypair);
     sa_principal_id := principal_id sample_keypair |}.

Definition ex_draws (id : string) : BranchDraws :=
  {| bd_new_session_id := id; bd_created_at := "2026-05-01T00:00:00Z";
     bd_titled_at := "2026-05-01T00:00:01Z"; bd_ended_at := "2026-05-01T00:00:02Z";
     bd_copies := fun n => (id +:+ "-copy-" +:+ z_to_string (Z.of_nat n), "now") |}.

Definition ex_request : BranchRequest :=
  {| br_parent_session_id := "s-1"; br_branch_name := None;
     br_history := [{| bt_role := "user"; bt_content := "hi" |}] |}.

Definition ex_branch : SessionStoreAdapter * result SessionError BranchResult :=
  branch (H := adapter_store id) ex_adapter (ex_draws "s-2") ex_request.
Definition ex_branched : SessionStoreAdapter := ex_branch.1.

Example ex_branch_runs :
  ex_branch.2 = Ok {| res_new_session_id := "s-2"; res_new_title := "Work #2";
                      res_parent_session_id := "s-1"; res_turns_copied := 2 |} /\
  map (fun e => (ev_event_id e, ev_parent_event_id e)) (events (sa_db ex_branched))
  = [("evt-1", None); ("evt-2", None); ("s-2-copy-0", Some "evt-1"); ("s-2-copy-1", Some "evt-2")].
Proof. vm_compute. done. Qed.

(** The parent loses its counters and looks as old as its creation. *)
Example branch_forgets_counters :
  (se_message_count <$> sa_table ex_adapter !! "s-1") = Some 12 /\
  (se_message_count <$> sa_table ex_branched !! "s-1") = Some 0 /\
  (se_updated_at <$> sa_table ex_branched !! "s-1") = Some "2026-04-17T00:00:00Z".
Proof. vm_compute. done. Qed.

(** A user of a group and a thread of the group can get the same session key. *)
Example session_keys_collide :
  generate_session_key "telegram" "42" (Some "7") None GroupPerUser
  = generate_session_key "telegram" "42" None (Some "7") GroupShared.
Proof. vm_compute. reflexivity. Qed.

(** Without a ledger the branch fails after the session was created, and the title stays
    taken: no later attempt under it succeeds. *)
Example failed_branch_blocks_title :
  let a := {| sa_table := sa_table ex_adapter; sa_db := ex_history; sa_ledger := None;
              sa_principal_id := sa_principal_id ex_adapter |} in
  let a1 := branch (H := adapter_store id) a (ex_draws "s-2") ex_request in
  is_ok a1.2 = false /\ (se_session_key <$> sa_table a1.1 !! "s-2") = Some "Work #2" /\
  (branch (H := adapter_store id)
     {| sa_table := sa_table a1.1; sa_db := ex_history; sa_ledger := sa_ledger ex_adapter;
        sa_principal_id := sa_principal_id ex_adapter |} (ex_draws "s-3") ex_request).2
  = Err (StoreFailed (LedgerSqlite Constraint)).
Proof. vm_compute. done. Qed.

(** The number after the last one of 32 bits is zero. *)
Example lineage_wraps : generate_lineage_title "Work #4294967295" = "Work #0".
Proof. vm_compute. reflexivity. Qed.

Lemma ex_table_wf : table_wf (sa_table ex_adapter).
Proof.
  split.
  - intros i e. simpl. by intros [<- <-]%lookup_singleton_Some.
  - simpl. intros i j e e' [<- _]%lookup_singleton_Some [<- _]%lookup_singleton_Some _. done.
Qed.

Lemma ex_add_wf db id : ledger_wf db -> ledger_wf (ex_add db id).
Proof.
  intros Hwf. unfold ex_add, append_signed_event_with_parent, append_event_with_parent. cbv zeta.
  destruct (with_conn _ _ _) as [[i db']|] eqn:E; [|done]. apply with_conn_inv in E as [E _].
  destruct (append_prepared_event _ _ _) as [[b db1]|] eqn:Ea; [|done]. simplify_eq.
  by eapply append_wf.
Qed.

Lemma ex_history_wf : ledger_wf ex_history.
Proof. apply ex_add_wf, ex_add_wf, sample_db_wf. Qed.

Lemma ex_branch_ok : branch_with_parent_end_reason (H := adapter_store id) ex_adapter (ex_draws "s-2")
  ex_request "branched" = (ex_branched, Ok {| res_new_session_id := "s-2"; res_new_title := "Work #2";
                             res_parent_session_id := "s-1"; res_turns_copied := 2 |}).
Proof.
  change (branch_with_parent_end_reason _ _ _ _) with ex_branch. unfold ex_branched.
  rewrite <- (proj1 ex_branch_runs). apply surjective_pairing.
Qed.


Lemma second_default_branch_refused_witness :
  exists e, branch_with_parent_end_reason (H := adapter_store id) ex_branched (ex_draws "s-3")
              ex_request "branched" = (ex_branched, Err e).
Proof.
  apply (second_default_branch_refused id ex_adapter (ex_draws "s-2") ex_request "branched"
    ex_branched _ (ex_draws "s-3") ex_request "branched" ex_history_wf ex_table_wf
    ltac:(vm_compute; reflexivity) eq_refl ex_branch_ok eq_refl eq_refl).
  vm_compute. reflexivity.
Defined.

Lemma lineage_titles_count_witness :
  Nat.iter 3 generate_lineage_title "Work" = "Work #4".
Proof.
  apply (lineage_titles_count "Work" 2); [|vm_compute; discriminate].
  intros base rest Hs. vm_compute in Hs. discriminate.
Defined.

Lemma session_keys_unique_witness :
  exists t, upsert_session ∅ (ex_entry "s-1" "Work") = Ok t /\
    get_by_key t "Work" = Ok (Some (ex_entry "s-1" "Work")).
Proof.
  exists {["s-1" := ex_entry "s-1" "Work"]}. split; [vm_compute; reflexivity|].
  refine (proj2 (session_keys_unique _ (rtc_once _ _ (ts_upsert ∅ (ex_entry "s-1" "Work") _ _)))
            "s-1" (ex_entry "s-1" "Work") _); vm_compute; reflexivity.
Defined.
