(* ===== verification/OmniSession.v ===== *)
(** * One session per principal across all channels
      ([crates/zaion-runtime/src/omni_session.rs])

    Channels are attached to the session of a principal; messages of all channels are kept
    in one list with a layer each; a session that grew too large is archived and continued
    by a child; the sessions can be rebuilt from the signed route events of the ledger; and a
    context is put together from the messages within a token budget.

    The maps are finite maps.  Clock readings and new identifiers are arguments, one per
    reading.  [importance] is a binary32 float, a count of tokens a [Z] (all the counted text
    is in memory, so the sums do not leave [usize]). *)

From Stdlib Require Import SpecFloat.
From stdpp Require Import prelude gmap strings list countable.
From S2P Require Import Prelude.
From S2P Require Import Json.
From S2P Require Import Env.
From S2P Require Import Text.
From S2P Require Import Database.
From S2P Require Import Ledger.
From S2P Require Import LedgerQueries.
From S2P Require Import Envelope.
Local Open Scope res_scope.
Local Open Scope Z_scope.

Definition MAX_INHERITED_L1_MESSAGES : nat := 20.

(** ** Channels *)

Inductive ChannelType : Type :=
| Cli | Telegram | Discord | Feishu | DingTalk | Slack | Matrix | ApiServer | Mcp | Acp
| Webhook | Email.

#[export] Instance channel_type_eq_dec : EqDecision ChannelType.
Proof. solve_decision. Defined.

Definition channel_as_str (c : ChannelType) : string :=
  match c with
  | Cli => "cli"
  | Telegram => "telegram"
  | Discord => "discord"
  | Feishu => "feishu"
  | DingTalk => "dingtalk"
  | Slack => "slack"
  | Matrix => "matrix"
  | ApiServer => "api-server"
  | Mcp => "mcp"
  | Acp => "acp"
  | Webhook => "webhook"
  | Email => "email"
  end.

(** A name in a table of [match] arms, tried in order. *)
Fixpoint lookup_name {A} (s : string) (table : list (string * A)) : option A :=
  match table with
  | [] => None
  | (name, a) :: table' => if bool_decide (s = name) then Some a else lookup_name s table'
  end.

Definition normalized (s : string) : string := to_ascii_lowercase (str_trim s).

Definition from_ingress (source channel_id : string) : ChannelType :=
  let source := normalized source in
  let channel_id := normalized channel_id in
  let api := if str_contains "webhook" channel_id then Webhook else ApiServer in
  match lookup_name source
    [("telegram", Telegram); ("discord", Discord); ("feishu", Feishu); ("lark", Feishu);
     ("dingtalk", DingTalk); ("slack", Slack); ("matrix", Matrix); ("mcp", Mcp);
     ("acp", Acp); ("webhook", Webhook); ("email", Email); ("http", api); ("api", api);
     ("api-server", api); ("cli", Cli); ("terminal", Cli); ("tui", Cli);
     ("internal-queue", Cli)] with
  | Some c => c
  | None =>
      default Cli (lookup_name channel_id
        [("telegram", Telegram); ("mcp", Mcp); ("acp", Acp); ("webhook", Webhook);
         ("http-webhook", Webhook); ("api", ApiServer); ("http", ApiServer); ("tui", Cli);
         ("terminal", Cli); ("cli", Cli)])
  end.

Definition from_authority_value (value channel_id : string) : ChannelType :=
  default (from_ingress value channel_id) (lookup_name (normalized value)
    [("cli", Cli); ("telegram", Telegram); ("discord", Discord); ("feishu", Feishu);
     ("lark", Feishu); ("dingtalk", DingTalk); ("slack", Slack); ("matrix", Matrix);
     ("api-server", ApiServer); ("api", ApiServer); ("http", ApiServer); ("mcp", Mcp);
     ("acp", Acp); ("webhook", Webhook); ("email", Email)]).

Record DisplayCapabilities : Type := {
  supports_markdown : bool;
  supports_html : bool;
  supports_ansi_colors : bool;
  supports_images : bool;
  supports_interactive : bool;
  max_message_length : option Z
}.

Record MediaCapabilities : Type := {
  supports_file_upload : bool;
  supports_file_download : bool;
  supports_voice : bool;
  supports_video : bool;
  max_file_size_mb : option Z
}.

Definition default_display_caps (c : ChannelType) : DisplayCapabilities :=
  match c with
  | Cli => Build_DisplayCapabilities true false true false true None
  | Telegram => Build_DisplayCapabilities true true false true true (Some 4096)
  | Discord => Build_DisplayCapabilities true false false true true (Some 2000)
  | Feishu | DingTalk => Build_DisplayCapabilities true false false true true (Some 5000)
  | Slack => Build_DisplayCapabilities true false false true true (Some 4000)
  | Matrix => Build_DisplayCapabilities true true false true false (Some 65536)
  | ApiServer | Mcp | Acp | Webhook =>
      Build_DisplayCapabilities false false false false false None
  | Email => Build_DisplayCapabilities false true false true false None
  end.

Definition default_media_caps (c : ChannelType) : MediaCapabilities :=
  match c with
  | Cli => Build_MediaCapabilities true true false false None
  | Telegram => Build_MediaCapabilities true true true true (Some 2000)
  | Discord => Build_MediaCapabilities true true true true (Some 25)
  | Feishu | DingTalk => Build_MediaCapabilities true true true true (Some 200)
  | Slack => Build_MediaCapabilities true true false false (Some 1000)
  | Matrix => Build_MediaCapabilities true true true true (Some 100)
  | ApiServer | Mcp | Acp | Webhook => Build_MediaCapabilities false false false false None
  | Email => Build_MediaCapabilities true true false false (Some 25)
  end.

Record ChannelAttachment : Type := {
  ca_channel_type : ChannelType;
  ca_channel_id : string;
  ca_display_caps : DisplayCapabilities;
  ca_media_caps : MediaCapabilities;
  ca_attached_at : Z;
  ca_last_active_at : Z
}.

Definition attachment_new (now : Z) (channel_type : ChannelType) (channel_id : string)
  : ChannelAttachment :=
  {| ca_channel_type := channel_type; ca_channel_id := channel_id;
     ca_display_caps := default_display_caps channel_type;
     ca_media_caps := default_media_caps channel_type; ca_attached_at := now;
     ca_last_active_at := now |}.

Definition touch (now : Z) (a : ChannelAttachment) : ChannelAttachment :=
  {| ca_channel_type := ca_channel_type a; ca_channel_id := ca_channel_id a;
     ca_display_caps := ca_display_caps a; ca_media_caps := ca_media_caps a;
     ca_attached_at := ca_attached_at a; ca_last_active_at := now |}.

(** [ChannelKey] *)
Abbreviation ChannelKey := (ChannelType * string)%type.

Definition attachment_key (a : ChannelAttachment) : ChannelKey :=
  (ca_channel_type a, ca_channel_id a).

(** ** Layers *)

Inductive ContextLayer : Type :=
| L0Critical | L1Recent | L2Important | L3Background | L4Archive.

#[export] Instance context_layer_eq_dec : EqDecision ContextLayer.
Proof. solve_decision. Defined.

Definition priority (l : ContextLayer) : nat :=
  match l with
  | L0Critical => 0
  | L1Recent => 1
  | L2Important => 2
  | L3Background => 3
  | L4Archive => 4
  end.

(** The serde form of a layer: the name of its variant. *)
Definition layer_name (l : ContextLayer) : string :=
  match l with
  | L0Critical => "L0Critical"
  | L1Recent => "L1Recent"
  | L2Important => "L2Important"
  | L3Background => "L3Background"
  | L4Archive => "L4Archive"
  end.

(** Binary32: conversion of a [usize], quotient, and comparison. *)
Definition f32 : Type := spec_float.
Definition usize_as_f32 (n : Z) : f32 := binary_normalize 24 128 n 0 false.
Definition f32_div : f32 -> f32 -> f32 := SFdiv 24 128.
Definition f32_ge (a b : f32) : bool := SFleb b a.
Definition f32_literal (p q : Z) : f32 := f32_div (usize_as_f32 p) (usize_as_f32 q).

Definition from_importance (importance : f32) (is_recent : bool) : ContextLayer :=
  if f32_ge importance (f32_literal 9 10) then L0Critical
  else if is_recent then L1Recent
  else if f32_ge importance (f32_literal 7 10) then L2Important
  else if f32_ge importance (f32_literal 4 10) then L3Background
  else L4Archive.

(** ** Sessions *)

(** [TurnSignature] of [unified_agent_runtime.rs] *)
Record TurnSignature : Type := {
  sig_scheme : string;
  sig_signature : string;
  sig_signing_key_id : string;
  sig_schema_version : Z
}.

Record UnifiedMessage : Type := {
  um_message_id : string;
  um_source_channel : ChannelType;
  um_source_channel_id : string;
  um_role : string;
  um_content : string;
  um_signature : option TurnSignature;
  um_timestamp : Z;
  um_importance : f32;
  um_layer : ContextLayer
}.

Record OmniSession : Type := {
  os_session_id : string;
  os_principal_id : string;
  os_messages : list UnifiedMessage;
  os_attachments : list ChannelAttachment;
  os_created_at : Z;
  os_last_active_at : Z;
  os_parent_session_id : option string;
  os_child_session_ids : list string;
  os_total_tokens : Z;
  os_max_tokens : Z
}.

(** [OmniSession::new]: [uuid] is the new identifier. *)
Definition session_new (uuid : string) (now : Z) (principal_id : string) (max_tokens : Z)
  : OmniSession :=
  {| os_session_id := uuid; os_principal_id := principal_id; os_messages := [];
     os_attachments := []; os_created_at := now; os_last_active_at := now;
     os_parent_session_id := None; os_child_session_ids := []; os_total_tokens := 0;
     os_max_tokens := max_tokens |}.

(** Four bytes are a token. *)
Definition estimate_tokens (s : string) : Z := str_len s / 4.

Definition add_message (now : Z) (message : UnifiedMessage) (s : OmniSession) : OmniSession :=
  {| os_session_id := os_session_id s; os_principal_id := os_principal_id s;
     os_messages := os_messages s ++ [message]; os_attachments := os_attachments s;
     os_created_at := os_created_at s; os_last_active_at := now;
     os_parent_session_id := os_parent_session_id s;
     os_child_session_ids := os_child_session_ids s;
     os_total_tokens := os_total_tokens s + estimate_tokens (um_content message);
     os_max_tokens := os_max_tokens s |}.

Definition is_attached (key : ChannelKey) (s : OmniSession) : bool :=
  existsb (fun a => bool_decide (attachment_key a = key)) (os_attachments s).

Definition attach_channel (attachment : ChannelAttachment) (s : OmniSession) : OmniSession :=
  if is_attached (attachment_key attachment) s then s
  else
    {| os_session_id := os_session_id s; os_principal_id := os_principal_id s;
       os_messages := os_messages s; os_attachments := os_attachments s ++ [attachment];
       os_created_at := os_created_at s; os_last_active_at := os_last_active_at s;
       os_parent_session_id := os_parent_session_id s;
       os_child_session_ids := os_child_session_ids s;
       os_total_tokens := os_total_tokens s; os_max_tokens := os_max_tokens s |}.

Definition messages_by_layer (layer : ContextLayer) (s : OmniSession) : list UnifiedMessage :=
  filter (fun m => um_layer m = layer) (os_messages s).

Definition needs_split (s : OmniSession) : bool :=
  bool_decide (os_max_tokens s <= os_total_tokens s).

Definition nanos_per_day : Z := 24 * 3600 * 1000000000.

Definition active_channels (now : Z) (s : OmniSession) : list ChannelAttachment :=
  filter (fun a => now - nanos_per_day < ca_last_active_at a) (os_attachments s).

(** ** The context pyramid *)

Record ContextPyramid : Type := {
  cp_layers : list (list string);
  cp_token_budget : Z;
  cp_tokens_used : Z
}.

Definition pyramid_new (token_budget : Z) : ContextPyramid :=
  {| cp_layers := [[]; []; []; []; []]; cp_token_budget := token_budget; cp_tokens_used := 0 |}.

(** The pyramid after the call, and what it returns. *)
Definition add_to_layer (layer : ContextLayer) (content : string) (p : ContextPyramid)
  : ContextPyramid * bool :=
  let tokens := estimate_tokens content in
  if bool_decide (cp_token_budget p < cp_tokens_used p + tokens) then (p, false)
  else
    ({| cp_layers := alter (fun l => l ++ [content]) (priority layer) (cp_layers p);
        cp_token_budget := cp_token_budget p;
        cp_tokens_used := cp_tokens_used p + tokens |}, true).

Definition assemble (p : ContextPyramid) : string := join_lines (concat (cp_layers p)).

Definition pyramid_entry (m : UnifiedMessage) : string :=
  "[" +:+ um_source_channel_id m +:+ "] " +:+ um_role m +:+ ": " +:+ um_content m.

(** The loop stops at the first message that does not fit. *)
Fixpoint build_loop (p : ContextPyramid) (messages : list UnifiedMessage) : ContextPyramid :=
  match messages with
  | [] => p
  | m :: messages' =>
      let '(p', added) := add_to_layer (um_layer m) (pyramid_entry m) p in
      if added then build_loop p' messages' else p'
  end.

Definition build_from_session (s : OmniSession) (token_budget : Z) : ContextPyramid :=
  build_loop (pyramid_new token_budget) (os_messages s).

Definition sum_tokens (l : list string) : Z := foldr (fun s acc => estimate_tokens s + acc) 0 l.

Definition layer_token_count (layer : ContextLayer) (p : ContextPyramid) : Z :=
  sum_tokens (default [] (cp_layers p !! priority layer)).

Definition utilization (p : ContextPyramid) : f32 :=
  if bool_decide (cp_token_budget p = 0) then S754_zero false
  else f32_div (usize_as_f32 (cp_tokens_used p)) (usize_as_f32 (cp_token_budget p)).

(** ** The manager *)

#[export] Instance channel_type_countable : Countable ChannelType.
Proof.
  refine (inj_countable' channel_as_str (fun s => from_ingress s EmptyString) _).
  by intros [].
Defined.

Record OmniSessionManager : Type := {
  om_sessions : gmap string OmniSession;
  om_archived_sessions : gmap string OmniSession;
  om_channel_map : gmap ChannelKey string;
  om_default_max_tokens : Z
}.

(** The part of [RuntimeError] that the manager returns. *)
Inductive RuntimeError : Type :=
| Internal (text : string)
| LedgerFailed (e : LedgerError).

Definition manager_new (default_max_tokens : Z) : OmniSessionManager :=
  {| om_sessions := ∅; om_archived_sessions := ∅; om_channel_map := ∅;
     om_default_max_tokens := default_max_tokens |}.

Definition set_sessions (m : OmniSessionManager) (sessions : gmap string OmniSession)
  : OmniSessionManager :=
  {| om_sessions := sessions; om_archived_sessions := om_archived_sessions m;
     om_channel_map := om_channel_map m; om_default_max_tokens := om_default_max_tokens m |}.

(** [sessions.entry(principal_id).or_insert_with(..)] *)
Definition session_entry (m : OmniSessionManager) (uuid : string) (now : Z)
    (principal_id : string) : OmniSession :=
  default (session_new uuid now principal_id (om_default_max_tokens m))
    (om_sessions m !! principal_id).

(** The session is returned by reference: a caller changes it in place with [modify_session]. *)
Definition get_or_create_session (m : OmniSessionManager) (uuid : string) (now : Z)
    (principal_id : string) : OmniSessionManager :=
  set_sessions m (<[principal_id := session_entry m uuid now principal_id]> (om_sessions m)).

Definition get_session (m : OmniSessionManager) (principal_id : string) : option OmniSession :=
  om_sessions m !! principal_id.

Definition modify_session (m : OmniSessionManager) (principal_id : string)
    (f : OmniSession -> OmniSession) : OmniSessionManager :=
  set_sessions m (alter f principal_id (om_sessions m)).

Definition map_channel (m : OmniSessionManager) (key : ChannelKey) (principal_id : string)
  : OmniSessionManager :=
  {| om_sessions := om_sessions m; om_archived_sessions := om_archived_sessions m;
     om_channel_map := <[key := principal_id]> (om_channel_map m);
     om_default_max_tokens := om_default_max_tokens m |}.

(** What routing reads from outside: an identifier and clock readings. *)
Record Readings : Type := {
  rd_uuid : string;
  rd_created : Z;
  rd_attached : Z;
  rd_active : Z;
  rd_time : Z;
  rd_message_time : Z
}.

(** [route_message] cannot fail. *)
Definition route_message (m : OmniSessionManager) (rd : Readings) (channel_type : ChannelType)
    (channel_id principal_id : string) (message : UnifiedMessage) : OmniSessionManager :=
  let m := map_channel m (channel_type, channel_id) principal_id in
  let m := get_or_create_session m (rd_uuid rd) (rd_created rd) principal_id in
  modify_session m principal_id (fun s =>
    add_message (rd_active rd) message
      (attach_channel (attachment_new (rd_attached rd) channel_type channel_id) s)).

Record OmniRouteAuthority : Type := {
  ra_authority : string;
  ra_authority_schema : string;
  ra_session_id : string;
  ra_omni_session_id : string;
  ra_principal_id : string;
  ra_channel_type : string;
  ra_channel_id : string;
  ra_thread_id : string;
  ra_message_id : string;
  ra_envelope_id : string;
  ra_source_hash : string;
  ra_route : string;
  ra_channel_attached : bool;
  ra_message_count : Z;
  ra_attachment_count : Z;
  ra_session_graph_hash : string
}.

Record OmniSessionGraphReplay : Type := {
  gr_schema : string;
  gr_principal_id : string;
  gr_active_omni_session_id : string;
  gr_route_event_count : Z;
  gr_verified_route_event_count : Z;
  gr_message_count : Z;
  gr_attachment_count : Z;
  gr_channel_count : Z;
  gr_last_route_event_id : option string;
  gr_last_authority_hash : option string;
  gr_replay_hash : string
}.

(** ** The session graph *)

Definition graph_message (m : UnifiedMessage) : Value :=
  VObject [("message_id", VString (um_message_id m));
           ("source_channel", VString (channel_as_str (um_source_channel m)));
           ("source_channel_id", VString (um_source_channel_id m));
           ("role", VString (um_role m)); ("layer", VString (layer_name (um_layer m)))].

Definition graph_attachment (a : ChannelAttachment) : Value :=
  VObject [("channel_type", VString (channel_as_str (ca_channel_type a)));
           ("channel_id", VString (ca_channel_id a))].

Definition message_le (a b : UnifiedMessage) : bool :=
  String.leb (um_message_id a) (um_message_id b).

(** [a.channel_type.cmp(b.channel_type).then(a.channel_id.cmp(b.channel_id))] is not [Greater]. *)
Definition attachment_le (a b : ChannelAttachment) : bool :=
  match String.compare (channel_as_str (ca_channel_type a)) (channel_as_str (ca_channel_type b)) with
  | Lt => true
  | Gt => false
  | Eq => String.leb (ca_channel_id a) (ca_channel_id b)
  end.

Definition graph_basis (s : OmniSession) : Value :=
  VObject
    [("schema", VString "zaion.omni_session_graph_hash.v1");
     ("principal_id", VString (os_principal_id s));
     ("active_omni_session_id", VString (os_session_id s));
     ("parent_session_id", opt_string (os_parent_session_id s));
     ("child_session_ids", VArray (map VString (os_child_session_ids s)));
     ("messages", VArray (map graph_message (order_by message_le (os_messages s))));
     ("attachments", VArray (map graph_attachment (order_by attachment_le (os_attachments s))))].

Section Manager.
Context `{Env}.

Definition hash_value (v : Value) : string := hex_encode (sha256 (json_to_string v)).

Definition session_graph_hash (s : OmniSession) : string := hash_value (graph_basis s).

Definition authority_hash (a : OmniRouteAuthority) : string :=
  hash_value (VObject
    [("authority", VString (ra_authority a));
     ("authority_schema", VString (ra_authority_schema a));
     ("session_id", VString (ra_session_id a));
     ("omni_session_id", VString (ra_omni_session_id a));
     ("principal_id", VString (ra_principal_id a));
     ("channel_type", VString (ra_channel_type a)); ("channel_id", VString (ra_channel_id a));
     ("thread_id", VString (ra_thread_id a)); ("message_id", VString (ra_message_id a));
     ("envelope_id", VString (ra_envelope_id a)); ("source_hash", VString (ra_source_hash a));
     ("route", VString (ra_route a)); ("channel_attached", VBool (ra_channel_attached a));
     ("message_count", VNumber (ra_message_count a));
     ("attachment_count", VNumber (ra_attachment_count a));
     ("session_graph_hash", VString (ra_session_graph_hash a))]).

Definition to_ledger_payload (a : OmniRouteAuthority) (parent_received_event_id : string) : Value :=
  VObject
    [("schema", VString "zaion.omni_route.v1"); ("authority", VString (ra_authority a));
     ("authority_schema", VString (ra_authority_schema a));
     ("authority_hash", VString (authority_hash a));
     ("principal_id", VString (ra_principal_id a));
     ("channel_type", VString (ra_channel_type a)); ("channel_id", VString (ra_channel_id a));
     ("thread_id", VString (ra_thread_id a)); ("session_id", VString (ra_session_id a));
     ("omni_session_id", VString (ra_omni_session_id a));
     ("message_id", VString (ra_message_id a)); ("envelope_id", VString (ra_envelope_id a));
     ("route", VString (ra_route a)); ("channel_attached", VBool (ra_channel_attached a));
     ("message_count", VNumber (ra_message_count a));
     ("attachment_count", VNumber (ra_attachment_count a));
     ("session_graph_hash", VString (ra_session_graph_hash a));
     ("source_hash", VString (ra_source_hash a));
     ("parent_received_event_id", VString parent_received_event_id)].

(** The message of a route: [content] differs between routing and replay. *)
Definition route_unified_message (channel_type : ChannelType)
    (message_id channel_id content : string) (timestamp : Z) : UnifiedMessage :=
  {| um_message_id := message_id; um_source_channel := channel_type;
     um_source_channel_id := channel_id; um_role := "user"; um_content := content;
     um_signature := None; um_timestamp := timestamp; um_importance := f32_literal 6 10;
     um_layer := L1Recent |}.

Definition route_text : string :=
  "CanonicalEnvelope -> OmniSessionManager -> principal session graph".

(** The authority that is returned for the session the envelope was routed to. *)
Definition route_authority (e : CanonicalEnvelope) (channel_type : ChannelType)
    (session : OmniSession) (id : string) : OmniRouteAuthority :=
  {| ra_authority := "OmniSessionManager";
     ra_authority_schema := "zaion.omni_session_authority.v1";
     ra_session_id := session_id e; ra_omni_session_id := os_session_id session;
     ra_principal_id := ce_principal e; ra_channel_type := channel_as_str channel_type;
     ra_channel_id := ce_channel e; ra_thread_id := ce_thread e;
     ra_message_id := ce_message_id e; ra_envelope_id := id;
     ra_source_hash := ce_source_hash e; ra_route := route_text;
     ra_channel_attached := is_attached (channel_type, ce_channel e) session;
     ra_message_count := Z.of_nat (length (os_messages session));
     ra_attachment_count := Z.of_nat (length (os_attachments session));
     ra_session_graph_hash := session_graph_hash session |}.

(** The manager after the call with the result; [None] is the panic of [envelope_id]. *)
Definition route_envelope (m : OmniSessionManager) (rd : Readings) (e : CanonicalEnvelope)
  : OmniSessionManager * option (result RuntimeError OmniRouteAuthority) :=
  let channel_type := from_ingress (ce_source e) (ce_channel e) in
  let timestamp := default (rd_time rd) (parse_from_rfc3339 (ce_received_at e)) in
  let message := route_unified_message channel_type (ce_message_id e) (ce_channel e)
                   (ce_body e) timestamp in
  let m := route_message m rd channel_type (ce_channel e) (ce_principal e) message in
  (m,
   match get_session m (ce_principal e) with
   | None => Some (Err (Internal "OmniSessionManager authority missing routed session"))
   | Some session =>
       id ← envelope_id e;
       Some (Ok (route_authority e channel_type session id))
   end).

(** ** Replay *)

Definition payload_str (key : string) (event : LedgerEvent) : option string :=
  value_get key (le_payload event) ≫= as_str.

Definition is_route_event (principal_filter : option string) (event : LedgerEvent) : bool :=
  bool_decide (le_event_type event = "omni.route")
  && opt_is_some (le_signature event)
  && bool_decide (payload_str "authority" event = Some "OmniSessionManager")
  && bool_decide (payload_str "authority_schema" event = Some "zaion.omni_session_authority.v1")
  && is_none_or (fun p => bool_decide (payload_str "principal_id" event = Some p))
       principal_filter.

Definition event_le (a b : LedgerEvent) : bool :=
  String.leb (le_created_at a) (le_created_at b).

(** The events that are replayed, oldest first. *)
Definition route_events (principal_filter : option string) (events : list LedgerEvent)
  : list LedgerEvent :=
  order_by event_le (filter (fun e => is_route_event principal_filter e = true) events).

Definition required_payload_str (event : LedgerEvent) (key : string)
  : result RuntimeError string :=
  match payload_str key event with
  | Some value =>
      if blank value then
        Err (Internal ("omni.route replay missing required payload field `" +:+ key +:+ "`"))
      else Ok value
  | None => Err (Internal ("omni.route replay missing required payload field `" +:+ key +:+ "`"))
  end.

(** The fields of a route event, in the order in which they are read. *)
Record RouteFields : Type := {
  rf_principal : string;
  rf_omni_session_id : string;
  rf_channel_id : string;
  rf_message_id : string;
  rf_source_hash : string;
  rf_authority_hash : string;
  rf_channel_type : ChannelType
}.

Definition route_fields (event : LedgerEvent) : result RuntimeError RouteFields :=
  let? principal := required_payload_str event "principal_id" in
  let? omni_session_id := required_payload_str event "omni_session_id" in
  let? channel_id := required_payload_str event "channel_id" in
  let? _ := required_payload_str event "thread_id" in
  let? message_id := required_payload_str event "message_id" in
  let? source_hash := required_payload_str event "source_hash" in
  let? authority_hash := required_payload_str event "authority_hash" in
  Ok {| rf_principal := principal; rf_omni_session_id := omni_session_id;
        rf_channel_id := channel_id; rf_message_id := message_id;
        rf_source_hash := source_hash; rf_authority_hash := authority_hash;
        rf_channel_type :=
          from_authority_value (default EmptyString (payload_str "channel_type" event))
            channel_id |}.

Definition parse_event_time (now : Z) (value : string) : Z :=
  default now (parse_from_rfc3339 value).

(** [session.session_id = ..; session.last_active_at = ..] *)
Definition rename_session (id : string) (active : Z) (s : OmniSession) : OmniSession :=
  {| os_session_id := id; os_principal_id := os_principal_id s; os_messages := os_messages s;
     os_attachments := os_attachments s; os_created_at := os_created_at s;
     os_last_active_at := active; os_parent_session_id := os_parent_session_id s;
     os_child_session_ids := os_child_session_ids s; os_total_tokens := os_total_tokens s;
     os_max_tokens := os_max_tokens s |}.

Definition has_message (message_id : string) (s : OmniSession) : bool :=
  existsb (fun m => bool_decide (um_message_id m = message_id)) (os_messages s).

(** What one route event does to the session of its principal. *)
Definition replay_session (rd : Readings) (event : LedgerEvent) (f : RouteFields)
    (s : OmniSession) : OmniSession :=
  let s := rename_session (rf_omni_session_id f)
             (parse_event_time (rd_time rd) (le_created_at event)) s in
  let s := attach_channel (attachment_new (rd_attached rd) (rf_channel_type f) (rf_channel_id f)) s in
  if has_message (rf_message_id f) s then s
  else add_message (rd_active rd)
         (route_unified_message (rf_channel_type f) (rf_message_id f) (rf_channel_id f)
            ("source_hash:" +:+ rf_source_hash f)
            (parse_event_time (rd_message_time rd) (le_created_at event))) s.

Definition replay_route (m : OmniSessionManager) (rd : Readings) (event : LedgerEvent)
    (f : RouteFields) : OmniSessionManager :=
  let m := get_or_create_session m (rd_uuid rd) (rd_created rd) (rf_principal f) in
  let m := modify_session m (rf_principal f) (replay_session rd event f) in
  map_channel m (rf_channel_type f, rf_channel_id f) (rf_principal f).

(** The loop with the fields of the last event and its identifier; [?] keeps what was done. *)
Fixpoint replay_loop (m : OmniSessionManager) (rds : nat -> Readings) (i : nat)
    (last : option (RouteFields * string)) (events : list LedgerEvent)
  : OmniSessionManager * result RuntimeError (option (RouteFields * string)) :=
  match events with
  | [] => (m, Ok last)
  | event :: events' =>
      match route_fields event with
      | Err e => (m, Err e)
      | Ok f =>
          replay_loop (replay_route m (rds i) event f) rds (S i) (Some (f, le_event_id event))
            events'
      end
  end.

Definition cleared (m : OmniSessionManager) : OmniSessionManager :=
  manager_new (om_default_max_tokens m).

Definition replay_signed_route_events (m : OmniSessionManager) (rds : nat -> Readings)
    (events : list LedgerEvent) (principal_filter : option string)
  : OmniSessionManager * result RuntimeError OmniSessionGraphReplay :=
  let routes := route_events principal_filter events in
  match routes with
  | [] => (m, Err (Internal "no signed OmniSessionManager route events available for replay"))
  | _ :: _ =>
      let '(m, r) := replay_loop (cleared m) rds 0 None routes in
      (m,
       let? last := r in
       let principal := default EmptyString (rf_principal ∘ fst <$> last) in
       match get_session m principal with
       | None => Err (Internal "OmniSession graph replay produced no active session")
       | Some session =>
           Ok {| gr_schema := "zaion.omni_session_graph_replay.v1";
                 gr_principal_id := principal;
                 gr_active_omni_session_id :=
                   default EmptyString (rf_omni_session_id ∘ fst <$> last);
                 gr_route_event_count := Z.of_nat (length routes);
                 gr_verified_route_event_count := Z.of_nat (length routes);
                 gr_message_count := Z.of_nat (length (os_messages session));
                 gr_attachment_count := Z.of_nat (length (os_attachments session));
                 gr_channel_count := Z.of_nat (size (om_channel_map m));
                 gr_last_route_event_id := snd <$> last;
                 gr_last_authority_hash := rf_authority_hash ∘ fst <$> last;
                 gr_replay_hash := session_graph_hash session |}
       end)
  end.

Definition replay_from_ledger (visit : list EventRow -> list EventRow) (m : OmniSessionManager)
    (rds : nat -> Readings) (ledger : EventLedger) (db : Db) (principal_filter : option string)
    (limit : Z) : OmniSessionManager * result RuntimeError OmniSessionGraphReplay :=
  match list_global_events visit ledger db limit with
  | Err e => (m, Err (LedgerFailed e))
  | Ok events => replay_signed_route_events m rds events principal_filter
  end.

End Manager.

Definition get_principal_by_channel (m : OmniSessionManager) (channel_type : ChannelType)
    (channel_id : string) : option string := om_channel_map m !! (channel_type, channel_id).

(** ** Splitting *)

Definition inherited_messages (s : OmniSession) : list UnifiedMessage :=
  messages_by_layer L0Critical s
  ++ rev (take MAX_INHERITED_L1_MESSAGES (rev (messages_by_layer L1Recent s))).

Definition message_tokens (ms : list UnifiedMessage) : Z :=
  foldr (fun m acc => estimate_tokens (um_content m) + acc) 0 ms.

Definition child_session (uuid : string) (now : Z) (max_tokens : Z) (s : OmniSession)
    (principal_id : string) : OmniSession :=
  {| os_session_id := uuid; os_principal_id := principal_id;
     os_messages := inherited_messages s; os_attachments := os_attachments s;
     os_created_at := now; os_last_active_at := now;
     os_parent_session_id := Some (os_session_id s); os_child_session_ids := [];
     os_total_tokens := message_tokens (inherited_messages s); os_max_tokens := max_tokens |}.

Definition add_child (id : string) (s : OmniSession) : OmniSession :=
  {| os_session_id := os_session_id s; os_principal_id := os_principal_id s;
     os_messages := os_messages s; os_attachments := os_attachments s;
     os_created_at := os_created_at s; os_last_active_at := os_last_active_at s;
     os_parent_session_id := os_parent_session_id s;
     os_child_session_ids := os_child_session_ids s ++ [id];
     os_total_tokens := os_total_tokens s; os_max_tokens := os_max_tokens s |}.

Definition split_session (m : OmniSessionManager) (uuid : string) (now : Z)
    (principal_id : string) : OmniSessionManager * result RuntimeError string :=
  match om_sessions m !! principal_id with
  | None => (m, Err (Internal "Session not found"))
  | Some session =>
      ({| om_sessions :=
            <[principal_id :=
                child_session uuid now (om_default_max_tokens m) session principal_id]>
              (om_sessions m);
          om_archived_sessions :=
            <[os_session_id session := add_child uuid session]> (om_archived_sessions m);
          om_channel_map := om_channel_map m;
          om_default_max_tokens := om_default_max_tokens m |}, Ok uuid)
  end.

Definition get_archived_session (m : OmniSessionManager) (session_id : string)
  : option OmniSession := om_archived_sessions m !! session_id.

Definition archived_session_count (m : OmniSessionManager) : nat := size (om_archived_sessions m).
Definition session_count (m : OmniSessionManager) : nat := size (om_sessions m).
Definition channel_count (m : OmniSessionManager) : nat := size (om_channel_map m).
