(* ===== verification/OmniSessionTheorems.v ===== *)
(** * Sessions across channels: theorems

    Replaying the route events of the ledger restores the sessions that routing built, with
    the same graph hash; sessions stay well formed under every operation; what a split hands
    over and archives; and what the context pyramid holds.  Defects shown: replay does not
    look at signatures or hashes, a failed replay has already dropped the sessions, a repeated
    message breaks the agreement of the hashes, a split need not make a session smaller, and
    critical messages are left out of a context behind one that does not fit. *)

From stdpp Require Import prelude gmap strings list sorting.
From S2P Require Import Prelude.
From S2P Require Import Json.
From S2P Require Import Env.
From S2P Require Import Concrete.
From S2P Require Import Text.
From S2P Require Import Ledger.
From S2P Require Import Envelope.
From S2P Require Import OmniSession.
Local Open Scope res_scope.
Local Open Scope Z_scope.

(** ** Names of channels *)

Lemma from_authority_as_str c channel_id : from_authority_value (channel_as_str c) channel_id = c.
Proof. by destruct c. Qed.

Lemma channel_as_str_inj c1 c2 : channel_as_str c1 = channel_as_str c2 -> c1 = c2.
Proof.
  intros E. rewrite <- (from_authority_as_str c1 EmptyString), E. apply from_authority_as_str.
Qed.

(** ** The graph of a session *)

(** What the graph hash sees of a message, and of a session. *)
Definition message_view (m : UnifiedMessage) : string * ChannelType * string * string * ContextLayer :=
  (um_message_id m, um_source_channel m, um_source_channel_id m, um_role m, um_layer m).

Definition session_view (s : OmniSession) :=
  (os_session_id s, os_principal_id s, os_parent_session_id s, os_child_session_ids s,
   map message_view (os_messages s), map attachment_key (os_attachments s)).

Lemma sort_insert_map {A B} (f : A -> B) (leA : A -> A -> bool) (leB : B -> B -> bool)
    (Hle : forall x y, leB (f x) (f y) = leA x y) x l :
  map f (sort_insert leA x l) = sort_insert leB (f x) (map f l).
Proof.
  induction l as [|y l IH]; simpl; [done|]. rewrite Hle. destruct (leA x y); simpl; [done|].
  by rewrite IH.
Qed.

Lemma order_by_map {A B} (f : A -> B) (leA : A -> A -> bool) (leB : B -> B -> bool)
    (Hle : forall x y, leB (f x) (f y) = leA x y) l :
  map f (order_by leA l) = order_by leB (map f l).
Proof.
  induction l as [|x l IH]; simpl; [done|]. by rewrite (sort_insert_map f leA leB Hle), IH.
Qed.

Definition view_le (a b : string * ChannelType * string * string * ContextLayer) : bool :=
  String.leb a.1.1.1.1 b.1.1.1.1.

Definition key_le (a b : ChannelKey) : bool :=
  match String.compare (channel_as_str a.1) (channel_as_str b.1) with
  | Lt => true
  | Gt => false
  | Eq => String.leb a.2 b.2
  end.

Definition view_value (v : string * ChannelType * string * string * ContextLayer) : Value :=
  let '(id, src, cid, role, layer) := v in
  VObject [("message_id", VString id); ("source_channel", VString (channel_as_str src));
           ("source_channel_id", VString cid); ("role", VString role);
           ("layer", VString (layer_name layer))].

Definition key_value (k : ChannelKey) : Value :=
  VObject [("channel_type", VString (channel_as_str k.1)); ("channel_id", VString k.2)].

Lemma graph_messages_view l :
  map graph_message (order_by message_le l) =
  map view_value (order_by view_le (map message_view l)).
Proof.
  rewrite <- (order_by_map message_view message_le view_le) by done. by rewrite map_map.
Qed.

Lemma graph_attachments_view l :
  map graph_attachment (order_by attachment_le l) =
  map key_value (order_by key_le (map attachment_key l)).
Proof.
  rewrite <- (order_by_map attachment_key attachment_le key_le) by done. by rewrite map_map.
Qed.

(** Sessions with the same view have the same graph, and so the same hash. *)
Lemma graph_basis_view s1 s2 : session_view s1 = session_view s2 -> graph_basis s1 = graph_basis s2.
Proof.
  unfold session_view. intros [= E1 E2 E3 E4 E5 E6]. unfold graph_basis.
  by rewrite !graph_messages_view, !graph_attachments_view, E1, E2, E3, E4, E5, E6.
Qed.

(** ** The operations on views *)

Abbreviation View := (string * string * option string * list string
                  * list (string * ChannelType * string * string * ContextLayer)
                  * list ChannelKey)%type.

Definition view_rename (id : string) (v : View) : View :=
  let '(_, p, par, ch, ms, atts) := v in (id, p, par, ch, ms, atts).

Definition view_attach (k : ChannelKey) (v : View) : View :=
  let '(id, p, par, ch, ms, atts) := v in
  (id, p, par, ch, ms, if bool_decide (k ∈ atts) then atts else atts ++ [k]).

Definition view_add (mv : string * ChannelType * string * string * ContextLayer) (v : View) : View :=
  let '(id, p, par, ch, ms, atts) := v in (id, p, par, ch, ms ++ [mv], atts).

Definition view_ids (v : View) : list string := map (fun mv => mv.1.1.1.1) v.1.2.

Lemma is_attached_true k s : is_attached k s = true <-> k ∈ map attachment_key (os_attachments s).
Proof.
  unfold is_attached. rewrite existsb_exists, list_elem_of_In, in_map_iff.
  split; intros (a & Ha & Hb); exists a; [apply bool_decide_eq_true in Hb; done|].
  split; [done|]. by apply bool_decide_eq_true.
Qed.

Lemma is_attached_view k s : is_attached k s = bool_decide (k ∈ map attachment_key (os_attachments s)).
Proof.
  case_bool_decide as Hk; [by apply is_attached_true|].
  apply not_true_is_false. by rewrite is_attached_true.
Qed.

Lemma attach_channel_view a s :
  session_view (attach_channel a s) = view_attach (attachment_key a) (session_view s).
Proof.
  unfold attach_channel. rewrite is_attached_view. simpl. case_bool_decide; [done|].
  unfold session_view. simpl. by rewrite map_app.
Qed.

Lemma add_message_view now m s :
  session_view (add_message now m s) = view_add (message_view m) (session_view s).
Proof. unfold session_view. simpl. by rewrite map_app. Qed.

Lemma rename_session_view id now s :
  session_view (rename_session id now s) = view_rename id (session_view s).
Proof. done. Qed.

Lemma has_message_view id s : has_message id s = bool_decide (id ∈ view_ids (session_view s)).
Proof.
  unfold has_message, view_ids, session_view. simpl. rewrite map_map. simpl.
  case_bool_decide as Hi; rewrite list_elem_of_In, in_map_iff in Hi.
  - destruct Hi as (m & <- & Hm). apply existsb_exists. exists m. split; [done|].
    by apply bool_decide_eq_true.
  - apply not_true_is_false. rewrite existsb_exists. intros (m & Hm & Hb).
    apply bool_decide_eq_true in Hb. eauto.
Qed.

Lemma view_ids_attach k v : view_ids (view_attach k v) = view_ids v.
Proof. by destruct v as [[[[[]]]]]. Qed.
Lemma view_ids_rename id v : view_ids (view_rename id v) = view_ids v.
Proof. by destruct v as [[[[[]]]]]. Qed.
Lemma view_ids_add mv v : view_ids (view_add mv v) = view_ids v ++ [mv.1.1.1.1].
Proof. destruct v as [[[[[]]]]]. unfold view_ids. simpl. by rewrite map_app. Qed.

(** A list in strictly increasing order is what any permutation of it sorts to. *)
Lemma strict_sorted_unique {A} (lt le : A -> A -> Prop) (Hlt : forall x y, lt x y -> ~ le y x) l1 :
  forall l2, StronglySorted lt l1 -> StronglySorted le l2 -> l2 ≡ₚ l1 -> l2 = l1.
Proof.
  induction l1 as [|a l1 IH]; intros l2 H1 H2 Hp.
  - by apply Permutation_nil_r in Hp.
  - apply StronglySorted_inv in H1 as [S1 F1]. rewrite Forall_forall in F1.
    destruct l2 as [|b l2]; [by apply Permutation_nil_l in Hp|].
    apply StronglySorted_inv in H2 as [S2 F2]. rewrite Forall_forall in F2.
    assert (a = b) as <-.
    { assert (Ha : a ∈ b :: l2) by (rewrite Hp; left). assert (Hb : b ∈ a :: l1) by (rewrite <- Hp; left).
      apply elem_of_cons in Ha as [|Ha]; [done|]. apply elem_of_cons in Hb as [|Hb]; [done|].
      exfalso. eapply Hlt; [by apply F1|by apply F2]. }
    apply Permutation_cons_inv in Hp. by rewrite (IH l2).
Qed.

Definition created_before (a b : LedgerEvent) : Prop := str_lt (le_created_at a) (le_created_at b).

(** Events with increasing times are replayed in that order, however they are listed. *)
Lemma route_events_order pf events evs :
  filter (fun e => is_route_event pf e = true) events ≡ₚ evs ->
  StronglySorted created_before evs -> route_events pf events = evs.
Proof.
  intros Hp Hs. unfold route_events.
  apply (strict_sorted_unique created_before (fun x y => event_le x y = true)).
  - intros x y Hlt Hle. unfold created_before, event_le, str_lt in *.
    apply str_lt_strict in Hlt as [Hle' Hne]. apply Hne.
    apply (anti_symm String.le); [done|]. unfold String.le. by rewrite Hle.
  - done.
  - apply order_by_sorted.
    + intros x y. unfold event_le. intros Hf.
      destruct (String.leb_total (le_created_at x) (le_created_at y)); congruence.
    + intros x y z Hxy Hyz. unfold event_le in *.
      assert (Ht : String.le (le_created_at x) (le_created_at z)).
      { transitivity (le_created_at y); unfold String.le; [by rewrite Hxy|by rewrite Hyz]. }
      unfold String.le in Ht. by apply Is_true_true in Ht.
  - by rewrite order_by_perm.
Qed.

(** ** Replay restores what routing built *)

Section Replay.
Context `{Env}.

(** [hex::encode] writes hexadecimal digits, two for a byte. *)
Hypothesis hex_digits : forall s, str_all is_ascii_hexdigit_byte (hex_encode s) = true.
Context `{!EnvLaws}.

(** Envelopes routed one after the other, with the authorities returned; [None] when a call
    panics or fails. *)
Fixpoint route_all (m : OmniSessionManager) (inputs : list (Readings * CanonicalEnvelope))
  : option (OmniSessionManager * list OmniRouteAuthority) :=
  match inputs with
  | [] => Some (m, [])
  | (rd, e) :: inputs' =>
      match route_envelope m rd e with
      | (m1, Some (Ok a)) =>
          '(m2, auths) ← route_all m1 inputs'; Some (m2, a :: auths)
      | _ => None
      end
  end.

(** The signed ledger event that records an authority. *)
Definition records (a : OmniRouteAuthority) (ev : LedgerEvent) : Prop :=
  le_event_type ev = "omni.route" /\ is_Some (le_signature ev) /\
  exists parent, le_payload ev = to_ledger_payload a parent.

(** The sessions that a principal has in two managers look the same, and so do the channels. *)
Definition same_graphs (m m' : OmniSessionManager) : Prop :=
  (forall p, session_view <$> om_sessions m !! p = session_view <$> om_sessions m' !! p) /\
  om_channel_map m = om_channel_map m'.

(** What [route_envelope] does to the session of the principal. *)
Definition routed_session (rd : Readings) (e : CanonicalEnvelope) (s : OmniSession) : OmniSession :=
  let c := from_ingress (ce_source e) (ce_channel e) in
  add_message (rd_active rd)
    (route_unified_message c (ce_message_id e) (ce_channel e) (ce_body e)
       (default (rd_time rd) (parse_from_rfc3339 (ce_received_at e))))
    (attach_channel (attachment_new (rd_attached rd) c (ce_channel e)) s).

Lemma route_envelope_spec m rd e :
  let s := routed_session rd e (session_entry m (rd_uuid rd) (rd_created rd) (ce_principal e)) in
  let c := from_ingress (ce_source e) (ce_channel e) in
  exists m1, route_envelope m rd e =
    (m1, id ← envelope_id e;
         Some (Ok (route_authority e c s id))) /\
    om_sessions m1 = <[ce_principal e := s]> (om_sessions m) /\
    om_channel_map m1 = <[(c, ce_channel e) := ce_principal e]> (om_channel_map m) /\
    om_archived_sessions m1 = om_archived_sessions m /\
    om_default_max_tokens m1 = om_default_max_tokens m.
Proof.
  intros s c. unfold route_envelope, get_session. cbv zeta.
  assert (Hs : om_sessions (route_message m rd c (ce_channel e) (ce_principal e)
    (route_unified_message c (ce_message_id e) (ce_channel e) (ce_body e)
       (default (rd_time rd) (parse_from_rfc3339 (ce_received_at e))))) =
    <[ce_principal e := s]> (om_sessions m)).
  { unfold route_message. simpl. rewrite alter_insert_eq. done. }
  fold c. rewrite Hs, lookup_insert_eq. eexists; split; [done|]. rewrite Hs. done.
Qed.

Lemma payload_field a ev parent key v :
  le_payload ev = to_ledger_payload a parent ->
  value_get key (to_ledger_payload a parent) = Some (VString v) ->
  payload_str key ev = Some v.
Proof. intros E Hm. unfold payload_str. by rewrite E, Hm. Qed.

Lemma required_field ev key v :
  payload_str key ev = Some v -> str_trim v <> EmptyString -> required_payload_str ev key = Ok v.
Proof.
  intros E Hv. unfold required_payload_str, blank. rewrite E.
  by rewrite bool_decide_eq_false_2.
Qed.

Lemma hash_value_nonblank v : str_trim (hash_value v) <> EmptyString.
Proof.
  unfold hash_value. rewrite str_trim_hex by apply hex_digits. intros E.
  apply (f_equal String.length) in E. rewrite hex_encode_length, sha256_length in E. done.
Qed.

Definition recorded (a : OmniRouteAuthority) (c : ChannelType) : RouteFields :=
  {| rf_principal := ra_principal_id a; rf_omni_session_id := ra_omni_session_id a;
     rf_channel_id := ra_channel_id a; rf_message_id := ra_message_id a;
     rf_source_hash := ra_source_hash a; rf_authority_hash := authority_hash a;
     rf_channel_type := c |}.

(** The recorded event of a routed, checked envelope gives back its fields. *)
Lemma recorded_fields a ev parent c :
  le_payload ev = to_ledger_payload a parent ->
  ra_channel_type a = channel_as_str c ->
  Forall (fun s => str_trim s <> EmptyString)
    [ra_principal_id a; ra_omni_session_id a; ra_channel_id a; ra_thread_id a;
     ra_message_id a; ra_source_hash a] ->
  route_fields ev = Ok (recorded a c).
Proof.
  intros E Ec Hf. rewrite !Forall_cons in Hf.
  destruct Hf as (H1 & H2 & H3 & H4 & H5 & H6 & _). unfold route_fields.
  do 6 (erewrite required_field by (try eapply payload_field; done); cbv iota).
  erewrite required_field by (try (eapply payload_field; done); apply hash_value_nonblank).
  cbv iota. erewrite payload_field by done. simpl. by rewrite Ec, from_authority_as_str.
Qed.

Lemma routed_session_view rd e s :
  session_view (routed_session rd e s) =
  view_add (ce_message_id e, from_ingress (ce_source e) (ce_channel e), ce_channel e, "user", L1Recent)
    (view_attach (from_ingress (ce_source e) (ce_channel e), ce_channel e) (session_view s)).
Proof. unfold routed_session. cbv zeta. by rewrite add_message_view, attach_channel_view. Qed.

Lemma replay_session_view rd ev f s :
  rf_message_id f ∉ view_ids (session_view s) ->
  session_view (replay_session rd ev f s) =
  view_add (rf_message_id f, rf_channel_type f, rf_channel_id f, "user", L1Recent)
    (view_attach (rf_channel_type f, rf_channel_id f)
       (view_rename (rf_omni_session_id f) (session_view s))).
Proof.
  intros Hm. unfold replay_session. cbv zeta.
  rewrite has_message_view, attach_channel_view, rename_session_view, view_ids_attach,
    view_ids_rename, bool_decide_eq_false_2 by done.
  by rewrite add_message_view, attach_channel_view, rename_session_view.
Qed.

Lemma os_session_id_routed rd e s : os_session_id (routed_session rd e s) = os_session_id s.
Proof. unfold routed_session, attach_channel. simpl. by destruct (is_attached _ _). Qed.

(** No session of the principal has the message yet. *)
Definition fresh_message (m : OmniSessionManager) (p mid : string) : Prop :=
  forall s, om_sessions m !! p = Some s -> mid ∉ view_ids (session_view s).

Lemma entry_view m m' rd rd' p :
  same_graphs m m' ->
  view_rename (os_session_id (session_entry m (rd_uuid rd) (rd_created rd) p))
    (session_view (session_entry m' (rd_uuid rd') (rd_created rd') p)) =
  session_view (session_entry m (rd_uuid rd) (rd_created rd) p).
Proof.
  intros [Hs _]. specialize (Hs p). unfold session_entry.
  destruct (om_sessions m !! p) as [s|], (om_sessions m' !! p) as [s'|]; simpl in Hs; try done.
  assert (E : session_view s' = session_view s) by congruence.
  transitivity (view_rename (os_session_id s) (session_view s')); [done|]. by rewrite E.
Qed.

Lemma entry_fresh m rd p mid :
  fresh_message m p mid ->
  mid ∉ view_ids (session_view (session_entry m (rd_uuid rd) (rd_created rd) p)).
Proof.
  intros Hf. unfold session_entry. destruct (om_sessions m !! p) as [s|] eqn:E; simpl; [by apply Hf|].
  unfold view_ids. simpl. by apply not_elem_of_nil.
Qed.

(** The authority describes the session as it is after the envelope. *)
Definition authority_for (a : OmniRouteAuthority) (s : OmniSession) : Prop :=
  ra_session_graph_hash a = session_graph_hash s /\ ra_omni_session_id a = os_session_id s /\
  ra_message_count a = Z.of_nat (length (os_messages s)) /\
  ra_attachment_count a = Z.of_nat (length (os_attachments s)).

Lemma authority_for_view a s s' :
  session_view s' = session_view s -> authority_for a s -> authority_for a s'.
Proof.
  intros Hv (H1 & H2 & H3 & H4). pose proof (graph_basis_view _ _ Hv) as Hb.
  unfold session_view in Hv. injection Hv as E1 _ _ _ E5 E6.
  apply (f_equal length) in E5, E6. rewrite !length_map in E5, E6.
  unfold authority_for, session_graph_hash. rewrite Hb, E1, E5, E6. done.
Qed.

(** One envelope and its event, on both sides. *)
Lemma replay_step m m' rd rd' e m1 a ev :
  same_graphs m m' -> route_envelope m rd e = (m1, Some (Ok a)) ->
  well_formed_envelope e -> records a ev -> fresh_message m (ce_principal e) (ce_message_id e) ->
  str_trim (os_session_id (session_entry m (rd_uuid rd) (rd_created rd) (ce_principal e)))
    <> EmptyString ->
  exists c s', route_fields ev = Ok (recorded a c) /\ ra_principal_id a = ce_principal e /\
    same_graphs m1 (replay_route m' rd' ev (recorded a c)) /\
    om_sessions (replay_route m' rd' ev (recorded a c)) !! ra_principal_id a = Some s' /\
    authority_for a s'.
Proof.
  intros Hg Hr Hw (Et & Hsig & parent & Ep) Hfr Hid.
  destruct (route_envelope_spec m rd e) as (m1' & Er & Hs & Hc & _). rewrite Er in Hr.
  assert (m1' = m1) as -> by congruence. rewrite checked_envelope_id in Hr by done.
  apply (f_equal snd) in Hr. cbn [snd mbind option_bind] in Hr.
  set (s := routed_session rd e _) in *.
  set (c := from_ingress (ce_source e) (ce_channel e)) in *.
  assert (a = route_authority e c s (String.substring 0 16 (ce_source_hash e))) as -> by congruence.
  clear Hr. pose proof (recorded_fields _ _ _ c Ep eq_refl) as Hf.
  set (fl := recorded _ c) in Hf. exists c. fold fl.
  pose (s0 := session_entry m' (rd_uuid rd') (rd_created rd') (ce_principal e)).
  exists (replay_session rd' ev fl s0).
  split. { apply Hf. repeat constructor; try apply Hw.
    cbn [route_authority ra_omni_session_id]. subst s. by rewrite os_session_id_routed. }
  split; [done|]. clear Hf Ep.
  assert (Hs' : om_sessions (replay_route m' rd' ev fl) =
                <[ce_principal e := replay_session rd' ev fl s0]> (om_sessions m')).
  { unfold replay_route. simpl. by rewrite alter_insert_eq. }
  assert (Hv : session_view (replay_session rd' ev fl s0) = session_view s).
  { assert (Hm0 : ce_message_id e ∉ view_ids (session_view s0)).
    { pose proof (entry_fresh m rd _ _ Hfr) as Hx.
      rewrite <- (entry_view m m' rd rd' _ Hg), view_ids_rename in Hx. done. }
    rewrite replay_session_view by done. subst fl. cbn [recorded rf_message_id rf_channel_type
      rf_channel_id rf_omni_session_id route_authority ra_omni_session_id ra_message_id
      ra_channel_id]. subst s. rewrite os_session_id_routed.
    subst s0. rewrite entry_view by done. by rewrite routed_session_view. }
  split; [|split].
  - destruct Hg as [Hg1 Hg2]. split.
    + intros p. rewrite Hs, Hs'. destruct (decide (p = ce_principal e)) as [->|Hne].
      * rewrite !lookup_insert_eq. cbn [fmap option_fmap option_map]. by rewrite Hv.
      * rewrite !lookup_insert_ne by done. apply Hg1.
    + rewrite Hc. unfold replay_route. simpl. by rewrite Hg2.
  - rewrite Hs'. apply lookup_insert_eq.
  - by apply (authority_for_view _ s).
Qed.

Lemma replay_loop_archived evs : forall m rds i lst m' r,
  replay_loop m rds i lst evs = (m', r) -> om_archived_sessions m' = om_archived_sessions m.
Proof.
  induction evs as [|ev evs IH]; intros m rds i lst m' r; simpl; [by intros [= <- _]|].
  destruct (route_fields ev); [|by intros [= <- _]]. intros Hl. rewrite (IH _ _ _ _ _ _ Hl). reflexivity.
Qed.

Lemma route_all_length inputs : forall m m' auths,
  route_all m inputs = Some (m', auths) -> length auths = length inputs.
Proof.
  induction inputs as [|[rd e] inputs IH]; intros m m' auths; cbn [route_all];
    [by intros [= _ <-]|].
  destruct (route_envelope m rd e) as [m1 [[a|]|]]; try done.
  intros Hr. apply bind_Some in Hr as ([m2 as'] & E & Hr). injection Hr as _ <-.
  simpl. f_equal. by eapply IH.
Qed.

Definition input_key (i : Readings * CanonicalEnvelope) : string * string :=
  (ce_principal i.2, ce_message_id i.2).

(** The sessions have identifiers that are not blank. *)
Definition named_sessions (m : OmniSessionManager) : Prop :=
  forall p s, om_sessions m !! p = Some s -> str_trim (os_session_id s) <> EmptyString.

Lemma entry_named m uuid now p :
  named_sessions m -> str_trim uuid <> EmptyString ->
  str_trim (os_session_id (session_entry m uuid now p)) <> EmptyString.
Proof.
  intros Hn Hu. unfold session_entry.
  destruct (om_sessions m !! p) as [s|] eqn:E; simpl; [by apply (Hn p)|done].
Qed.

Lemma route_named m rd e m1 r :
  named_sessions m -> str_trim (rd_uuid rd) <> EmptyString ->
  route_envelope m rd e = (m1, r) -> named_sessions m1.
Proof.
  intros Hn Hu Hr. destruct (route_envelope_spec m rd e) as (m1' & Er & Hs & _).
  assert (m1' = m1) as -> by congruence. intros p s. rewrite Hs, lookup_insert_Some.
  intros [[<- <-]|[_ Hp]]; [|by apply (Hn p)].
  rewrite os_session_id_routed. by apply entry_named.
Qed.

Lemma route_fresh m rd e m1 r p mid :
  fresh_message m p mid -> (p, mid) <> (ce_principal e, ce_message_id e) ->
  route_envelope m rd e = (m1, r) -> fresh_message m1 p mid.
Proof.
  intros Hf Hne Hr. destruct (route_envelope_spec m rd e) as (m1' & Er & Hs & _).
  assert (m1' = m1) as -> by congruence. intros s. rewrite Hs, lookup_insert_Some.
  intros [[<- <-]|[_ Hp]]; [|by apply Hf].
  rewrite routed_session_view, view_ids_add, view_ids_attach. simpl.
  rewrite elem_of_app, list_elem_of_singleton. intros [Hi| ->]; [|done].
  by apply entry_fresh in Hi.
Qed.

Lemma replay_loop_routed inputs : forall m m' rds i lst m2 auths evs,
  same_graphs m m' -> named_sessions m ->
  Forall (fun x => well_formed_envelope x.2 /\ str_trim (rd_uuid x.1) <> EmptyString) inputs ->
  NoDup (map input_key inputs) ->
  Forall (fun x => fresh_message m (ce_principal x.2) (ce_message_id x.2)) inputs ->
  route_all m inputs = Some (m2, auths) -> Forall2 records auths evs ->
  exists m2' lst', replay_loop m' rds i lst evs = (m2', Ok lst') /\ same_graphs m2 m2' /\
    match last auths with
    | None => lst' = lst
    | Some a => exists c id s', lst' = Some (recorded a c, id) /\
        om_sessions m2' !! ra_principal_id a = Some s' /\ authority_for a s'
    end.
Proof.
  induction inputs as [|[rd e] inputs IH];
    intros m m' rds i lst m2 auths evs Hg Hn Hw Hnd Hfr Hr Hev.
  - injection Hr as <- <-. inversion Hev; subst. by exists m', lst.
  - cbn [route_all] in Hr. destruct (route_envelope m rd e) as [m1 [[a|]|]] eqn:Er; try done.
    destruct (route_all m1 inputs) as [[m3 auths']|] eqn:Ea; [|done].
    assert (m3 = m2 /\ a :: auths' = auths) as [-> <-] by (simpl in Hr; naive_solver). clear Hr.
    inversion Hev as [|? ev ? evs' Hrec Hev']; subst.
    apply Forall_cons in Hw as [[Hwe Hu] Hw]. apply Forall_cons in Hfr as [Hf1 Hfr].
    apply NoDup_cons in Hnd as [Hni Hnd]. cbn [fst snd] in *.
    destruct (replay_step m m' rd (rds i) e m1 a ev) as (c & s' & Hfl & Hp & Hg1 & Hs' & Haf);
      try done; [by apply entry_named|].
    destruct (IH m1 (replay_route m' (rds i) ev (recorded a c)) rds (S i) (Some (recorded a c, le_event_id ev)) m2 auths' evs')
      as (m2' & lst' & Hl & Hg2 & Hlast); [exact Hg1|by eapply route_named|done|done| |done|done|].
    { apply Forall_forall. intros x Hx. rewrite Forall_forall in Hfr.
      eapply route_fresh; [by apply Hfr| |done]. intros E. apply Hni.
      apply list_elem_of_fmap. exists x. split; [|done]. unfold input_key. by rewrite E. }
    exists m2', lst'. cbn [replay_loop]. rewrite Hfl. split; [done|]. split; [done|].
    destruct auths' as [|a' auths'].
    2: { rewrite last_cons_cons. destruct (last (a' :: auths')) eqn:El; [done|].
         by apply last_None in El. }
    simpl. simpl in Hlast. subst lst'.
    inversion Hev'; subst. simpl in Hl.
    assert (m2' = replay_route m' (rds i) ev (recorded a c)) as -> by congruence.
    by exists c, (le_event_id ev), s'.
Qed.


End Replay.

Section ReplayDefects.
Context `{Env}.

Definition resign (sig : string) (ev : LedgerEvent) : LedgerEvent :=
  {| le_event_id := le_event_id ev; le_principal_id := le_principal_id ev;
     le_namespace_key := le_namespace_key ev; le_run_id := le_run_id ev;
     le_event_type := le_event_type ev; le_payload := le_payload ev;
     le_signature := Some sig; le_created_at := le_created_at ev;
     le_parent_event_id := le_parent_event_id ev |}.

(** The count of verified events counts every event: replay looks at no signature and at no
    hash, so an event with any bytes for a signature is reported as verified. *)
Lemma replay_counts_unverified m rds ev f sig :
  is_route_event None ev = true -> route_fields ev = Ok f ->
  exists m' r, replay_signed_route_events m rds [resign sig ev] None = (m', Ok r) /\
    gr_verified_route_event_count r = 1.
Proof.
  intros Hi Hf. unfold replay_signed_route_events, route_events.
  assert (Hi' : is_route_event None (resign sig ev) = true).
  { unfold is_route_event in *. bool_props. by rewrite !andb_true_iff, !bool_decide_eq_true. }
  rewrite filter_cons_True by done. simpl.
  change (route_fields (resign sig ev)) with (route_fields ev). rewrite Hf. simpl.
  unfold get_session, replay_route. simpl. rewrite alter_insert_eq, lookup_insert_eq. eauto.
Qed.

(** A replay that finds route events but fails at the first of them has dropped the active
    sessions, the archive and the channels. *)
Lemma failed_replay_drops_sessions m rds events pf ev evs e :
  route_events pf events = ev :: evs -> route_fields ev = Err e ->
  replay_signed_route_events m rds events pf = (manager_new (om_default_max_tokens m), Err e).
Proof.
  intros Hr Hf. unfold replay_signed_route_events. rewrite Hr. simpl. by rewrite Hf.
Qed.

End ReplayDefects.

(** ** Sessions stay well formed *)

Record session_wf (max : Z) (p : string) (s : OmniSession) : Prop := {
  sw_principal : os_principal_id s = p;
  sw_tokens : os_total_tokens s = message_tokens (os_messages s);
  sw_channels : NoDup (map attachment_key (os_attachments s));
  sw_max : os_max_tokens s = max
}.

Record manager_wf (m : OmniSessionManager) : Prop := {
  mw_sessions : map_Forall (session_wf (om_default_max_tokens m)) (om_sessions m);
  mw_archived : map_Forall (fun id s => os_session_id s = id /\
    session_wf (om_default_max_tokens m) (os_principal_id s) s /\ os_child_session_ids s <> [])
    (om_archived_sessions m);
  (** Every known channel is attached to the session of its principal. *)
  mw_channels : map_Forall (fun k p => exists s, om_sessions m !! p = Some s /\
    is_attached k s = true) (om_channel_map m)
}.

Lemma message_tokens_app l1 l2 : message_tokens (l1 ++ l2) = message_tokens l1 + message_tokens l2.
Proof. induction l1 as [|m l1 IH]; simpl; [done|]. rewrite IH. lia. Qed.

Lemma session_new_wf uuid now p max : session_wf max p (session_new uuid now p max).
Proof. split; try done. constructor. Qed.

Lemma add_message_wf max p now m s : session_wf max p s -> session_wf max p (add_message now m s).
Proof.
  intros []. split; try done. simpl. rewrite message_tokens_app, sw_tokens0. simpl. lia.
Qed.

Lemma attach_channel_wf max p a s : session_wf max p s -> session_wf max p (attach_channel a s).
Proof.
  intros Hs. unfold attach_channel. rewrite is_attached_view. case_bool_decide as Ha; [done|].
  destruct Hs. split; try done. simpl. rewrite map_app. apply NoDup_app.
  split; [done|]. split; [|apply NoDup_singleton].
  intros k Hk Hk'. apply list_elem_of_singleton in Hk' as ->. done.
Qed.

Lemma attach_channel_attached a s : is_attached (attachment_key a) (attach_channel a s) = true.
Proof.
  unfold attach_channel. destruct (is_attached _ s) eqn:E; [done|].
  apply is_attached_true. simpl. rewrite map_app, elem_of_app. right. by apply list_elem_of_singleton.
Qed.

Lemma attach_channel_keeps a k s : is_attached k s = true -> is_attached k (attach_channel a s) = true.
Proof.
  unfold attach_channel. destruct (is_attached (attachment_key a) s); [done|].
  rewrite !is_attached_true. simpl. rewrite map_app, elem_of_app. by left.
Qed.

Lemma rename_session_wf max p id now s : session_wf max p s -> session_wf max p (rename_session id now s).
Proof. by intros []; split. Qed.

#[local] Hint Resolve session_new_wf add_message_wf attach_channel_wf rename_session_wf : zaion.

Lemma entry_wf m uuid now p :
  manager_wf m -> session_wf (om_default_max_tokens m) p (session_entry m uuid now p).
Proof.
  intros Hm. unfold session_entry. destruct (om_sessions m !! p) as [s|] eqn:E; simpl;
    [by apply (mw_sessions _ Hm)|auto with zaion].
Qed.

Lemma entry_attached m uuid now p k :
  manager_wf m -> om_channel_map m !! k = Some p -> is_attached k (session_entry m uuid now p) = true.
Proof.
  intros Hm Hk. destruct (mw_channels _ Hm _ _ Hk) as (s & Hs & Ha).
  unfold session_entry. by rewrite Hs.
Qed.

(** Every change of a manager but replay and splitting: the session of a principal is entered
    and changed by a function that keeps sessions well formed and attached, and then perhaps a
    channel that is attached is mapped to it. *)
Lemma enter_wf m uuid now p f :
  manager_wf m ->
  (forall s, session_wf (om_default_max_tokens m) p s -> session_wf (om_default_max_tokens m) p (f s)) ->
  (forall k s, is_attached k s = true -> is_attached k (f s) = true) ->
  manager_wf (modify_session (get_or_create_session m uuid now p) p f).
Proof.
  intros Hm Hw Ha. unfold modify_session, get_or_create_session. simpl. rewrite alter_insert_eq.
  split; simpl.
  - apply map_Forall_insert_2; [by apply Hw, entry_wf|apply Hm].
  - apply Hm.
  - intros k q Hk. destruct (mw_channels _ Hm _ _ Hk) as (s & Hs & Hk').
    destruct (decide (q = p)) as [->|Hne].
    + rewrite lookup_insert_eq. eexists. split; [done|]. apply Ha. by apply entry_attached.
    + rewrite lookup_insert_ne by done. eauto.
Qed.

Lemma map_channel_wf m k p s :
  manager_wf m -> om_sessions m !! p = Some s -> is_attached k s = true ->
  manager_wf (map_channel m k p).
Proof.
  intros Hm Hs Ha. split; simpl; [apply Hm|apply Hm|].
  apply map_Forall_insert_2; [by exists s|apply Hm].
Qed.

(** [map_channel] first or last makes no difference. *)
Lemma route_message_swap m rd c cid p msg :
  route_message m rd c cid p msg =
  map_channel (modify_session (get_or_create_session m (rd_uuid rd) (rd_created rd) p) p
    (fun s => add_message (rd_active rd) msg
       (attach_channel (attachment_new (rd_attached rd) c cid) s))) (c, cid) p.
Proof. done. Qed.

Lemma route_message_wf m rd c cid p msg : manager_wf m -> manager_wf (route_message m rd c cid p msg).
Proof.
  intros Hm. rewrite route_message_swap. eapply map_channel_wf.
  - apply enter_wf; [done|auto with zaion|]. intros k s. apply attach_channel_keeps.
  - simpl. by rewrite alter_insert_eq, lookup_insert_eq.
  - exact (attach_channel_attached (attachment_new (rd_attached rd) c cid) _).
Qed.

Lemma replay_session_wf `{Env} max p rd ev f s :
  session_wf max p s -> session_wf max p (replay_session rd ev f s).
Proof.
  intros Hs. unfold replay_session. cbv zeta. destruct (has_message _ _); auto with zaion.
Qed.

Lemma replay_session_attached `{Env} rd ev f k s :
  is_attached k s = true \/ k = (rf_channel_type f, rf_channel_id f) ->
  is_attached k (replay_session rd ev f s) = true.
Proof.
  intros Hk. unfold replay_session. cbv zeta.
  assert (Ha : is_attached k (attach_channel (attachment_new (rd_attached rd) (rf_channel_type f)
    (rf_channel_id f)) (rename_session (rf_omni_session_id f)
      (parse_event_time (rd_time rd) (le_created_at ev)) s)) = true).
  { destruct Hk as [Hk| ->]; [by apply attach_channel_keeps|].
    exact (attach_channel_attached (attachment_new _ (rf_channel_type f) (rf_channel_id f)) _). }
  by destruct (has_message _ _).
Qed.

Lemma replay_route_wf `{Env} m rd ev f : manager_wf m -> manager_wf (replay_route m rd ev f).
Proof.
  intros Hm. unfold replay_route. eapply map_channel_wf.
  - apply enter_wf; [done| |]; intros; [by apply replay_session_wf|].
    by apply replay_session_attached; left.
  - simpl. by rewrite alter_insert_eq, lookup_insert_eq.
  - by apply replay_session_attached; right.
Qed.

Lemma manager_new_wf n : manager_wf (manager_new n).
Proof. split; apply map_Forall_empty. Qed.

Lemma replay_loop_wf `{Env} evs : forall m rds i lst m' r,
  manager_wf m -> replay_loop m rds i lst evs = (m', r) -> manager_wf m'.
Proof.
  induction evs as [|ev evs IH]; intros m rds i lst m' r Hm; cbn [replay_loop];
    [by intros [= <- _]|].
  destruct (route_fields ev); [|by intros [= <- _]]. apply IH. by apply replay_route_wf.
Qed.

(** ** Splitting *)

Lemma split_wf m uuid now p m' r : manager_wf m -> split_session m uuid now p = (m', r) -> manager_wf m'.
Proof.
  intros Hm. unfold split_session. destruct (om_sessions m !! p) as [s|] eqn:Es;
    [|by intros [= <- _]]. intros [= <- _].
  pose proof (mw_sessions _ Hm _ _ Es) as Hs. split; simpl.
  - apply map_Forall_insert_2; [|apply Hm]. split; try done. apply Hs.
  - apply map_Forall_insert_2; [|apply Hm]. split; [done|]. split; [by destruct Hs; split|].
    simpl. by destruct (os_child_session_ids s).
  - intros k q Hk. destruct (mw_channels _ Hm _ _ Hk) as (s' & Hs' & Ha).
    destruct (decide (q = p)) as [->|Hne].
    + rewrite lookup_insert_eq. simplify_eq. eauto.
    + rewrite lookup_insert_ne by done. eauto.
Qed.

(** Every operation, with any arguments and readings, whether it fails or not.  [Change] is a
    caller that adds a message to or attaches a channel to the session it got by reference. *)
Inductive omni_step `{Env} : OmniSessionManager -> OmniSessionManager -> Prop :=
| SRoute m rd c cid p msg : omni_step m (route_message m rd c cid p msg)
| SEnvelope m rd e m' r : route_envelope m rd e = (m', r) -> omni_step m m'
| SEnter m uuid now p : omni_step m (get_or_create_session m uuid now p)
| SMessage m p now msg : omni_step m (modify_session m p (add_message now msg))
| SAttach m p a : omni_step m (modify_session m p (attach_channel a))
| SReplay m rds events pf m' r :
    replay_signed_route_events m rds events pf = (m', r) -> omni_step m m'
| SSplit m uuid now p m' r : split_session m uuid now p = (m', r) -> omni_step m m'.

Lemma modify_wf m p f :
  manager_wf m ->
  (forall s, session_wf (om_default_max_tokens m) p s -> session_wf (om_default_max_tokens m) p (f s)) ->
  (forall k s, is_attached k s = true -> is_attached k (f s) = true) ->
  manager_wf (modify_session m p f).
Proof.
  intros Hm Hw Ha. split; simpl; [|apply Hm|].
  - intros q s. rewrite lookup_alter_Some. intros [(-> & s0 & Hs & ->)|[_ Hs]];
      [apply Hw|]; by apply (mw_sessions _ Hm).
  - intros k q Hk. destruct (mw_channels _ Hm _ _ Hk) as (s & Hs & Hk').
    destruct (decide (p = q)) as [->|Hne].
    + rewrite lookup_alter_eq, Hs. simpl. eauto.
    + rewrite lookup_alter_ne by done. eauto.
Qed.

Theorem sessions_stay_well_formed `{Env} n m :
  rtc omni_step (manager_new n) m -> manager_wf m.
Proof.
  intros Hr. apply (rtc_ind_r manager_wf (manager_new n)) in Hr; [done|apply manager_new_wf|].
  clear. intros m1 m2 _ Hs Hm. destruct Hs as [m1 rd c cid p msg|m1 rd e m2 r E|m1 uuid now p
    |m1 p now msg|m1 p a|m1 rds events pf m2 r E|m1 uuid now p m2 r E].
  - by apply route_message_wf.
  - unfold route_envelope in E. cbv zeta in E. apply (f_equal fst) in E. simpl in E. subst m2.
    by apply route_message_wf.
  - replace (get_or_create_session m1 uuid now p) with
      (modify_session (get_or_create_session m1 uuid now p) p (fun s => s));
      [by apply enter_wf|]. unfold modify_session, get_or_create_session, set_sessions. simpl.
    by rewrite alter_insert_eq.
  - apply modify_wf; auto with zaion.
  - apply modify_wf; auto with zaion. intros k s. apply attach_channel_keeps.
  - unfold replay_signed_route_events in E. destruct (route_events pf events) as [|ev evs];
      [by injection E as <- _|].
    destruct (replay_loop _ _ _ _ _) as [m3 r3] eqn:El. apply (f_equal fst) in E. simpl in E.
    subst m2. eapply replay_loop_wf; [|exact El]. apply manager_new_wf.
  - by eapply split_wf.
Qed.

(** When the critical messages alone reach the limit, the child of a split needs splitting at
    once, and so does every further child. *)
Lemma split_not_smaller m uuid now p s m' r :
  om_sessions m !! p = Some s -> split_session m uuid now p = (m', r) ->
  om_default_max_tokens m <= message_tokens (messages_by_layer L0Critical s) ->
  exists s', om_sessions m' !! p = Some s' /\ needs_split s' = true /\
    messages_by_layer L0Critical s' = messages_by_layer L0Critical s.
Proof.
  intros Hs. unfold split_session. rewrite Hs. intros [= <- _] Ht. simpl.
  rewrite lookup_insert_eq. eexists. split; [done|]. split.
  - unfold needs_split. apply bool_decide_eq_true. simpl. unfold inherited_messages.
    rewrite message_tokens_app.
    assert (forall l, 0 <= message_tokens l) as Hpos; [|specialize (Hpos
      (rev (take MAX_INHERITED_L1_MESSAGES (rev (messages_by_layer L1Recent s))))); lia].
    induction l as [|x l IH]; simpl; [done|]. unfold estimate_tokens, str_len. zdiv_lia.
  - unfold messages_by_layer at 1. cbn [child_session os_messages]. unfold inherited_messages.
    rewrite filter_app.
    assert (filter (fun x => um_layer x = L0Critical)
      (rev (take MAX_INHERITED_L1_MESSAGES (rev (messages_by_layer L1Recent s)))) = []) as ->.
    { apply elem_of_nil_inv. intros x Hx. apply list_elem_of_filter in Hx as [Hl Hx].
      rewrite list_elem_of_In, <- in_rev, <- list_elem_of_In in Hx.
      apply elem_of_take in Hx as (i & Hx & _). apply list_elem_of_lookup_2 in Hx.
      rewrite list_elem_of_In, <- in_rev, <- list_elem_of_In in Hx.
      apply list_elem_of_filter in Hx as [Hl' _]. congruence. }
    rewrite app_nil_r. unfold messages_by_layer. rewrite list_filter_filter.
    apply list_filter_iff. intros x. tauto.
Qed.

(** A message of a session or of the sessions it continues. *)
Inductive in_history (archive : gmap string OmniSession) (msg : UnifiedMessage)
  : OmniSession -> Prop :=
| ih_here s : msg ∈ os_messages s -> in_history archive msg s
| ih_up s id s' : os_parent_session_id s = Some id -> archive !! id = Some s' ->
    in_history archive msg s' -> in_history archive msg s.

(** Identifiers in use. *)
Definition used_id (m : OmniSessionManager) (id : string) : Prop :=
  is_Some (om_archived_sessions m !! id) \/
  exists p s, om_sessions m !! p = Some s /\ os_session_id s = id.

(** Messages are routed and sessions are split, with new identifiers: the log of the messages
    with their principals. *)
Inductive routed_run (n : Z) : list (string * UnifiedMessage) -> OmniSessionManager -> Prop :=
| rr_new : routed_run n [] (manager_new n)
| rr_route log m rd c cid p msg : routed_run n log m -> ~ used_id m (rd_uuid rd) ->
    routed_run n (log ++ [(p, msg)]) (route_message m rd c cid p msg)
| rr_split log m uuid now p m' r : routed_run n log m -> ~ used_id m uuid ->
    split_session m uuid now p = (m', r) -> routed_run n log m'.

(** Active sessions have different identifiers, none of them archived. *)
Record ids_distinct (m : OmniSessionManager) : Prop := {
  id_active p q s t : om_sessions m !! p = Some s -> om_sessions m !! q = Some t ->
    os_session_id s = os_session_id t -> p = q;
  id_archived p s : om_sessions m !! p = Some s -> om_archived_sessions m !! os_session_id s = None
}.

Lemma attach_channel_frame a s :
  os_session_id (attach_channel a s) = os_session_id s /\
  os_parent_session_id (attach_channel a s) = os_parent_session_id s /\
  os_messages (attach_channel a s) = os_messages s.
Proof. unfold attach_channel. by destruct (is_attached _ _). Qed.

Lemma route_message_session m rd c cid p msg :
  exists s', om_sessions (route_message m rd c cid p msg) = <[p := s']> (om_sessions m) /\
    os_session_id s' = os_session_id (session_entry m (rd_uuid rd) (rd_created rd) p) /\
    os_parent_session_id s' =
      os_parent_session_id (session_entry m (rd_uuid rd) (rd_created rd) p) /\
    os_messages s' = os_messages (session_entry m (rd_uuid rd) (rd_created rd) p) ++ [msg].
Proof.
  unfold route_message. simpl. rewrite alter_insert_eq. eexists. split; [done|]. simpl.
  destruct (attach_channel_frame (attachment_new (rd_attached rd) c cid)
    (session_entry m (rd_uuid rd) (rd_created rd) p)) as (E1 & E2 & E3).
  rewrite <- E1, <- E2, <- E3. done.
Qed.

Lemma in_history_mono archive archive' msg s :
  archive ⊆ archive' -> in_history archive msg s -> in_history archive' msg s.
Proof.
  intros Hsub. induction 1 as [s Hm|s id s' Hp Hl Hh IH]; [by constructor|].
  eapply ih_up; [done|by eapply lookup_weaken|done].
Qed.

Lemma route_ids_distinct m rd c cid p msg :
  ids_distinct m -> ~ used_id m (rd_uuid rd) -> ids_distinct (route_message m rd c cid p msg).
Proof.
  intros [Ha Hb] Hu. destruct (route_message_session m rd c cid p msg) as (s' & Es & Ei & _).
  assert (Hid : forall q t, om_sessions m !! q = Some t -> os_session_id s' = os_session_id t -> p = q).
  { intros q t Ht E. rewrite Ei in E. unfold session_entry in E.
    destruct (om_sessions m !! p) as [s|] eqn:Ep; [by eapply Ha|].
    exfalso. apply Hu. right. eauto. }
  split.
  - intros q1 q2 s t. rewrite Es, !lookup_insert_Some.
    intros [[<- <-]|[Hn1 H1]] [[<- <-]|[Hn2 H2]] E; [done|by eapply Hid| |by eapply Ha].
    symmetry. by eapply Hid.
  - intros q s. rewrite Es, lookup_insert_Some. intros [[<- <-]|[_ Hq]]; [|by eapply Hb].
    change (om_archived_sessions (route_message m rd c cid p msg)) with (om_archived_sessions m).
    rewrite Ei. unfold session_entry. destruct (om_sessions m !! p) as [t|] eqn:Ep; [by eapply Hb|].
    simpl. apply eq_None_not_Some. intros Hsome. apply Hu. by left.
Qed.

Lemma split_ids_distinct m uuid now p m' r :
  ids_distinct m -> ~ used_id m uuid -> split_session m uuid now p = (m', r) -> ids_distinct m'.
Proof.
  intros [Ha Hb] Hu. unfold split_session.
  destruct (om_sessions m !! p) as [s|] eqn:Es; intros [= <- _]; [|done]. split; simpl.
  - intros q1 q2 s1 s2. rewrite !lookup_insert_Some.
    intros [[<- <-]|[Hn1 H1]] [[<- <-]|[Hn2 H2]] E; simpl in *; [done| | |by eapply Ha];
      exfalso; apply Hu; right; eauto.
  - intros q s1. rewrite lookup_insert_Some. intros [[<- <-]|[Hn Hq]]; simpl.
    + rewrite lookup_insert_ne; [apply eq_None_not_Some; intros Hs; apply Hu; by left|].
      intros E. apply Hu. right. eauto.
    + rewrite lookup_insert_ne; [by eapply Hb|]. intros E. apply Hn. symmetry. by eapply Ha.
Qed.

Lemma routed_run_distinct n log m : routed_run n log m -> ids_distinct m.
Proof.
  induction 1; [by split|by apply route_ids_distinct|by eapply split_ids_distinct].
Qed.

(** C22. However messages are routed and sessions are split, every message that was ever routed to a
    principal is in its active session or in an archived one that it continues. *)
Theorem splits_lose_no_message n log m p msg :
  routed_run n log m -> (p, msg) ∈ log ->
  exists s, om_sessions m !! p = Some s /\ in_history (om_archived_sessions m) msg s.
Proof.
  intros Hr. revert p msg.
  induction Hr as [|log m rd c cid q x Hr IH Hu|log m uuid now q m' r Hr IH Hu E]; intros p msg Hin.
  - by apply elem_of_nil in Hin.
  - destruct (route_message_session m rd c cid q x) as (s' & Es & _ & Ep & Em).
    rewrite Es. change (om_archived_sessions (route_message m rd c cid q x))
      with (om_archived_sessions m).
    apply elem_of_app in Hin as [Hin|Hin].
    + destruct (IH _ _ Hin) as (s & Hs & Hh). destruct (decide (p = q)) as [->|Hne].
      * rewrite lookup_insert_eq. exists s'. split; [done|].
        unfold session_entry in Ep, Em. rewrite Hs in Ep, Em. simpl in Ep, Em.
        destruct Hh as [s Hm|s id s0 Hp Hl Hh]; [constructor; rewrite Em; set_solver|].
        eapply ih_up; [by rewrite Ep|done|done].
      * rewrite lookup_insert_ne by done. eauto.
    + apply list_elem_of_singleton in Hin as [= -> ->]. rewrite lookup_insert_eq.
      exists s'. split; [done|]. constructor. rewrite Em. set_solver.
  - pose proof (routed_run_distinct _ _ _ Hr) as Hd. destruct (IH _ _ Hin) as (s & Hs & Hh).
    unfold split_session in E. destruct (om_sessions m !! q) as [t|] eqn:Eq;
      injection E as <- _; [|eauto]. simpl.
    assert (Hsub : om_archived_sessions m ⊆
      <[os_session_id t := add_child uuid t]> (om_archived_sessions m)).
    { apply insert_subseteq. by apply (id_archived _ Hd q). }
    destruct (decide (p = q)) as [->|Hne].
    + rewrite lookup_insert_eq. eexists. split; [done|]. simplify_eq.
      eapply ih_up; [done|by apply lookup_insert_eq|].
      destruct Hh as [s Hm|s id s0 Hp Hl Hh]; [by constructor|].
      eapply ih_up; [done|by eapply lookup_weaken|by eapply in_history_mono].
    + rewrite lookup_insert_ne by done. exists s. split; [done|]. by eapply in_history_mono.
Qed.

(** ** The context pyramid *)

Definition entries_of (l : ContextLayer) (ms : list UnifiedMessage) : list string :=
  map pyramid_entry (filter (fun m => um_layer m = l) ms).

Definition entry_tokens (ms : list UnifiedMessage) : Z := sum_tokens (map pyramid_entry ms).

(** The pyramid that holds the given messages. *)
Definition pyramid_holds (budget : Z) (ms : list UnifiedMessage) (p : ContextPyramid) : Prop :=
  cp_token_budget p = budget /\ cp_tokens_used p = entry_tokens ms /\
  cp_layers p = map (fun l => entries_of l ms)
                  [L0Critical; L1Recent; L2Important; L3Background; L4Archive].

Lemma session_tokens_app l1 l2 : sum_tokens (l1 ++ l2) = sum_tokens l1 + sum_tokens l2.
Proof. induction l1 as [|x l1 IH]; simpl; [done|]. rewrite IH. lia. Qed.

Lemma entries_of_snoc l ms m :
  entries_of l (ms ++ [m]) = if decide (um_layer m = l) then entries_of l ms ++ [pyramid_entry m]
                             else entries_of l ms.
Proof.
  unfold entries_of. rewrite filter_app. destruct (decide (um_layer m = l)).
  - rewrite filter_cons_True by done. by rewrite map_app.
  - rewrite filter_cons_False by done. simpl. by rewrite filter_nil, app_nil_r.
Qed.

Lemma add_to_layer_holds budget ms m p :
  pyramid_holds budget ms p ->
  add_to_layer (um_layer m) (pyramid_entry m) p = (p, false) /\
    budget < entry_tokens (ms ++ [m]) \/
  (exists p', add_to_layer (um_layer m) (pyramid_entry m) p = (p', true)
     /\ pyramid_holds budget (ms ++ [m]) p' /\ entry_tokens (ms ++ [m]) <= budget).
Proof.
  intros (Hb & Hu & Hl). unfold add_to_layer. rewrite Hb, Hu. cbv zeta.
  assert (Et : entry_tokens (ms ++ [m]) = entry_tokens ms + estimate_tokens (pyramid_entry m)).
  { unfold entry_tokens. rewrite map_app, session_tokens_app. simpl. lia. }
  case_bool_decide as Hc; [left; split; [done|lia]|right].
  eexists. split; [done|]. split; [|lia]. split; [done|]. split; [simpl; lia|].
  cbn [cp_layers]. rewrite Hl. cbn [map]. rewrite !entries_of_snoc. by destruct (um_layer m).
Qed.

Lemma build_loop_holds rest : forall budget ms p,
  pyramid_holds budget ms p ->
  exists taken rest', rest = taken ++ rest' /\ pyramid_holds budget (ms ++ taken) (build_loop p rest) /\
    (taken = [] \/ entry_tokens (ms ++ taken) <= budget) /\
    match rest' with
    | [] => True
    | m :: _ => budget < entry_tokens (ms ++ taken ++ [m])
    end.
Proof.
  induction rest as [|m rest IH]; intros budget ms p Hp.
  - exists [], []. rewrite (app_nil_r ms). split; [done|]. split; [done|]. split; [by left|done].
  - cbn [build_loop].
    destruct (add_to_layer_holds budget ms m p Hp) as [[E Hlt]|(p' & E & Hp' & Hle)]; rewrite E.
    + exists [], (m :: rest). rewrite (app_nil_r ms). split; [done|]. split; [done|].
      split; [by left|done].
    + destruct (IH _ _ _ Hp') as (taken & rest' & -> & Hh & Hb & Hn).
      exists (m :: taken), rest'. rewrite <- app_assoc in Hh, Hb. simpl in Hh, Hb.
      split; [done|]. split; [done|]. split.
      * right. destruct Hb as [->|Hb]; [done|done].
      * destruct rest'; [done|]. by rewrite <- app_assoc in Hn.
Qed.

(** A context holds the messages of the session from the first on, in their layers and in
    order, up to the first that no longer fits the budget: it stays within the budget, and
    nothing after that message is in it, whatever its layer. *)
Theorem pyramid_holds_prefix s budget :
  0 <= budget ->
  exists taken rest, os_messages s = taken ++ rest /\
    pyramid_holds budget taken (build_from_session s budget) /\ entry_tokens taken <= budget /\
    match rest with
    | [] => True
    | m :: _ => budget < entry_tokens (taken ++ [m])
    end.
Proof.
  intros Hb. unfold build_from_session.
  destruct (build_loop_holds (os_messages s) budget [] (pyramid_new budget))
    as (taken & rest & E & Hh & Ht & Hr); [done|].
  exists taken, rest. simpl in *. split; [done|]. split; [done|]. split; [|done].
  by destruct Ht as [->|Ht].
Qed.

(** ** Examples *)

Section OmniExamples.

Lemma toy_hex_is_hex s : str_all is_ascii_hexdigit_byte (toy_hex_encode s) = true.
Proof.
  unfold str_all. induction s as [|a s IH]; [done|]. simpl. rewrite IH, andb_true_r.
  clear. destruct a as [[] [] [] [] [] [] [] []]; reflexivity.
Qed.

Definition sample_readings (i : nat) : Readings :=
  {| rd_uuid := "uuid-" +:+ z_to_string (Z.of_nat i); rd_created := 0; rd_attached := 0;
     rd_active := 0; rd_time := 0; rd_message_time := 0 |}.

Definition sample_envelope (source principal channel mid body : string) : CanonicalEnvelope :=
  {| ce_schema_version := 1; ce_source := source; ce_principal := principal;
     ce_channel := channel; ce_thread := "main"; ce_message_id := mid;
     ce_source_hash := compute_source_hash source principal channel "main" mid body;
     ce_body := body; ce_received_at := "2026-01-01T00:00:00Z"; ce_signature := None;
     ce_metadata := ∅ |}.

Definition sample_inputs : list (Readings * CanonicalEnvelope) :=
  [(sample_readings 0, sample_envelope "telegram" "alice" "42" "m1" "hello");
   (sample_readings 1, sample_envelope "cli" "bob" "tty" "m1" "status?");
   (sample_readings 2, sample_envelope "http" "alice" "my-webhook" "m2" "again")].

Definition sample_auths : list OmniRouteAuthority :=
  default [] (snd <$> route_all (manager_new 1000) sample_inputs).

Definition sample_event (created : string) (a : OmniRouteAuthority) : LedgerEvent :=
  {| le_event_id := "evt-" +:+ created; le_principal_id := "node"; le_namespace_key := "ns";
     le_run_id := None; le_event_type := "omni.route";
     le_payload := to_ledger_payload a "received"; le_signature := Some "sig";
     le_created_at := created; le_parent_event_id := None |}.

Definition sample_route_events : list LedgerEvent :=
  zip_with sample_event ["t1"; "t2"; "t3"] sample_auths.

Lemma sample_wf source principal channel mid body :
  validate (sample_envelope source principal channel mid body) = Ok tt ->
  well_formed_envelope (sample_envelope source principal channel mid body).
Proof. apply validate_iff. Qed.

Lemma sample_records auths : forall times,
  length times = length auths -> Forall2 records auths (zip_with sample_event times auths).
Proof.
  induction auths as [|a auths IH]; intros [|t times] Hl; try discriminate Hl; [constructor|].
  cbn [zip_with]. constructor; [|apply IH; simpl in Hl; lia].
  split; [reflexivity|]. split; [by exists "sig"|by exists "received"].
Qed.

Lemma created_sorted l :
  StronglySorted str_lt (map le_created_at l) -> StronglySorted created_before l.
Proof.
  induction l as [|e l IH]; cbn [map]; intros Hs; [constructor|].
  apply StronglySorted_inv in Hs as [Hs Hf]. constructor; [by apply IH|].
  by rewrite Forall_map in Hf.
Qed.


(** The same message twice: routing keeps both, replay one, and the graphs differ. *)
Definition repeated_inputs : list (Readings * CanonicalEnvelope) :=
  [(sample_readings 0, sample_envelope "cli" "alice" "tty" "m1" "hi");
   (sample_readings 1, sample_envelope "cli" "alice" "tty" "m1" "hi")].

Example repeated_message_differs :
  let routed := route_all (manager_new 1000) repeated_inputs in
  let auths := default [] (snd <$> routed) in
  let replayed := replay_signed_route_events (manager_new 1000) sample_readings
                    (zip_with sample_event ["t1"; "t2"] auths) None in
  (length ∘ os_messages <$> (routed ≫= fun r => get_session r.1 "alice")) = Some 2%nat /\
  (length ∘ os_messages <$> get_session replayed.1 "alice") = Some 1%nat.
Proof. vm_compute. done. Qed.

Definition sample_message (mid content : string) (l : ContextLayer) : UnifiedMessage :=
  {| um_message_id := mid; um_source_channel := Cli; um_source_channel_id := "tty";
     um_role := "user"; um_content := content; um_signature := None; um_timestamp := 0;
     um_importance := f32_literal 6 10; um_layer := l |}.

Definition sample_critical : UnifiedMessage := sample_message "m2" "never delete" L0Critical.

Definition sample_session : OmniSession :=
  add_message 0 sample_critical
    (add_message 0 (sample_message "m1" "0123456789012345678901234567890" L4Archive)
       (session_new "s" 0 "alice" 1000)).

(** With a budget of 8 tokens the critical message fits, but the archived one before it does
    not, and the context is empty. *)
Example critical_left_out :
  entry_tokens [sample_critical] <= 8 /\
  build_from_session sample_session 8 = pyramid_new 8.
Proof. vm_compute. done. Qed.

Lemma pyramid_holds_prefix_witness :
  exists taken rest, os_messages sample_session = taken ++ rest /\
    pyramid_holds 12 taken (build_from_session sample_session 12) /\ entry_tokens taken <= 12 /\
    match rest with [] => True | m :: _ => 12 < entry_tokens (taken ++ [m]) end.
Proof. apply (pyramid_holds_prefix sample_session 12). lia. Defined.

(** Two messages with a split before and after the second. *)
Definition sample_routed : OmniSessionManager :=
  route_message (manager_new 10) (sample_readings 0) Cli "tty" "alice"
    (sample_message "m1" "archive me" L4Archive).
Definition sample_split_once : OmniSessionManager := (split_session sample_routed "u1" 0 "alice").1.
Definition sample_routed_twice : OmniSessionManager :=
  route_message sample_split_once (sample_readings 2) Cli "tty" "alice" sample_critical.
Definition sample_split_twice : OmniSessionManager :=
  (split_session sample_routed_twice "u3" 0 "alice").1.

Definition used_idb (m : OmniSessionManager) (id : string) : bool :=
  opt_is_some (om_archived_sessions m !! id)
  || existsb (fun kv => bool_decide (os_session_id kv.2 = id)) (map_to_list (om_sessions m)).

Lemma not_used m id : used_idb m id = false -> ~ used_id m id.
Proof.
  intros Hf. apply orb_false_iff in Hf as [Ha Hb]. intros [[s Hs]|(p & s & Hs & Hid)].
  - by rewrite Hs in Ha.
  - apply not_true_iff_false in Hb. apply Hb, existsb_exists. exists (p, s).
    split; [by apply list_elem_of_In, elem_of_map_to_list|by apply bool_decide_eq_true].
Qed.

Lemma splits_lose_no_message_witness :
  exists s, om_sessions sample_split_twice !! "alice" = Some s /\
    in_history (om_archived_sessions sample_split_twice)
      (sample_message "m1" "archive me" L4Archive) s.
Proof.
  apply (splits_lose_no_message 10
    ([("alice", sample_message "m1" "archive me" L4Archive)] ++ [("alice", sample_critical)])).
  - eapply (rr_split 10 _ sample_routed_twice "u3" 0 "alice");
      [|apply not_used; vm_compute; reflexivity|apply surjective_pairing].
    apply rr_route; [|apply not_used; vm_compute; reflexivity].
    eapply (rr_split 10 _ sample_routed "u1" 0 "alice");
      [|apply not_used; vm_compute; reflexivity|apply surjective_pairing].
    apply (rr_route 10 []); [apply rr_new|apply not_used; vm_compute; reflexivity].
  - left.
Defined.

End OmniExamples.
