(* ===== verification/Watchdog.v ===== *)
(** * The immune memory of the agent: toxic files, anchors, and the repair history
      ([crates/zaion-watchdog/src/toxic.rs], [reality_sync.rs], [history.rs])

    Three SQLite tables.  A table that [ensure] has not created is [None], and a query on it
    fails; other failures of SQLite are not modelled.  Times are the texts of clock readings.
    [visit] is the order in which SQLite visits rows that its [ORDER BY] leaves equal.

    Shown: the toxic table is the set of marked digests; the outcome of a check before an
    action on every branch, and that a check is stable until the file or the anchor changes; a
    drift report sorts every anchor into exactly one class; a signed repair entry verifies
    after it was stored and read back, but its message is ambiguous, and building one panics
    when the trace is cut inside a character. *)

From stdpp Require Import prelude gmap strings list.
From S2P Require Import Prelude.
From S2P Require Import Env.
From S2P Require Import Text.
From S2P Require Import FileSystem.
From S2P Require Import Database.
From S2P Require Import Ledger.
From S2P Require Import LedgerQueries.
From S2P Require Import Concrete.
Local Open Scope res_scope.
Local Open Scope Z_scope.

(** The variants of [WatchdogError] that occur here. *)
Inductive WatchdogError : Type :=
| WIo (text : string)
| WInternal (text : string)
| WSqlite (text : string)
| WOther (text : string).

Definition watchdog_error_text (e : WatchdogError) : string :=
  match e with
  | WIo t => "io error: " +:+ t
  | WInternal t => "internal error: " +:+ t
  | WSqlite t => "sqlite error: " +:+ t
  | WOther t => t
  end.

(** ** Toxic files *)

Inductive ToxicReason : Type := InfiniteLoop | MemoryLeak | Crash | SecurityViolation | Manual.

#[export] Instance toxic_reason_eq_dec : EqDecision ToxicReason.
Proof. solve_decision. Defined.

Definition toxic_reason_str (r : ToxicReason) : string :=
  match r with
  | InfiniteLoop => "infinite_loop"
  | MemoryLeak => "memory_leak"
  | Crash => "crash"
  | SecurityViolation => "security_violation"
  | Manual => "manual"
  end.

(** The parser of the stored reason, and of the reason of a request. *)
Definition toxic_reason_parse (s : string) : ToxicReason :=
  if bool_decide (s = "infinite_loop") then InfiniteLoop
  else if bool_decide (s = "memory_leak") then MemoryLeak
  else if bool_decide (s = "crash") then Crash
  else if bool_decide (s = "security_violation") then SecurityViolation
  else Manual.

(** A row of [toxic_hashes], by [hash]. *)
Record ToxicRow : Type := {
  tx_source_path : option string;
  tx_reason : string;
  tx_note : string;
  tx_marked_at : string
}.

Record ToxicEntry : Type := {
  te_hash : string;
  te_source_path : option string;
  te_reason : ToxicReason;
  te_marked_at : string;
  te_note : string
}.

(** The table, if it was created. *)
Abbreviation ToxicDb := (option (gmap string ToxicRow)).

Section Toxic.
Context `{Env} (err_text : string -> string).

Definition hash_bytes (data : string) : string := hex_encode (sha256 data).

Definition hash_file (d : Disk) (path : string) : result WatchdogError string :=
  match read_bytes d path with
  | Some bytes => Ok (hash_bytes bytes)
  | None => Err (WIo (err_text "read"))
  end.

Definition no_table (table : string) : WatchdogError := WInternal (err_text table).

Definition toxic_ensure (t : ToxicDb) : ToxicDb := Some (default ∅ t).

Definition mark_toxic (t : ToxicDb) (now hash : string) (source_path : option string)
    (reason : ToxicReason) (note : string) : ToxicDb * result WatchdogError unit :=
  match t with
  | None => (t, Err (no_table "toxic_hashes"))
  | Some rows =>
      (Some (<[hash :=
         {| tx_source_path :=
              match rows !! hash with Some old => tx_source_path old | None => source_path end;
            tx_reason := toxic_reason_str reason; tx_note := note; tx_marked_at := now |}]> rows),
       Ok tt)
  end.

Definition mark_file_toxic (d : Disk) (t : ToxicDb) (now path : string) (reason : ToxicReason)
    (note : string) : ToxicDb * result WatchdogError string :=
  match hash_file d path with
  | Err e => (t, Err e)
  | Ok hash =>
      let '(t, r) := mark_toxic t now hash (Some path) reason note in
      (t, let? _ := r in Ok hash)
  end.

Definition is_toxic (t : ToxicDb) (hash : string) : result WatchdogError bool :=
  match t with
  | None => Err (no_table "toxic_hashes")
  | Some rows => Ok (opt_is_some (rows !! hash))
  end.

Definition is_file_toxic (d : Disk) (t : ToxicDb) (path : string) : result WatchdogError bool :=
  let? hash := hash_file d path in
  is_toxic t hash.

Definition detox (t : ToxicDb) (hash : string) : ToxicDb * result WatchdogError bool :=
  match t with
  | None => (t, Err (no_table "toxic_hashes"))
  | Some rows => (Some (delete hash rows), Ok (opt_is_some (rows !! hash)))
  end.

Definition toxic_entry (kr : string * ToxicRow) : ToxicEntry :=
  {| te_hash := kr.1; te_source_path := tx_source_path kr.2;
     te_reason := toxic_reason_parse (tx_reason kr.2); te_marked_at := tx_marked_at kr.2;
     te_note := tx_note kr.2 |}.

(** [ORDER BY marked_at DESC LIMIT ?1] *)
Definition toxic_list (visit : list (string * ToxicRow) -> list (string * ToxicRow))
    (t : ToxicDb) (limit : Z) : result WatchdogError (list ToxicEntry) :=
  match t with
  | None => Err (no_table "toxic_hashes")
  | Some rows =>
      Ok (map toxic_entry (sql_limit (as_i64 limit)
            (order_by (fun a b => String.leb (tx_marked_at b.2) (tx_marked_at a.2))
               (visit (map_to_list rows)))))
  end.

Definition toxic_count (t : ToxicDb) : result WatchdogError nat :=
  match t with None => Err (no_table "toxic_hashes") | Some rows => Ok (size rows) end.

End Toxic.

(** ** Anchors *)

(** A row of [reality_anchors], by [path]. *)
Record AnchorRow : Type := {
  an_expected_hash : string;
  an_anchored_at : string;
  an_source_agent : option string
}.

Record RealityAnchor : Type := {
  rl_path : string;
  rl_expected_hash : string;
  rl_anchored_at : string;
  rl_source_agent : option string
}.

Abbreviation AnchorDb := (option (gmap string AnchorRow)).

Inductive CheckResult : Type :=
| Consistent (path hash : string)
| Diverged (path expected actual : string)
| Missing (path : string)
| NoAnchor (path : string).

Definition is_safe (c : CheckResult) : bool :=
  match c with Consistent _ _ | NoAnchor _ => true | Diverged _ _ _ | Missing _ => false end.

Inductive AnchorStatus : Type :=
| Synchronized
| Drifted (recorded actual : string)
| AnchorMissing.

#[export] Instance anchor_status_eq_dec : EqDecision AnchorStatus.
Proof. solve_decision. Defined.

Record DriftEntry : Type := {
  dr_path : string;
  dr_status : AnchorStatus;
  dr_anchored_at : string
}.

Record DriftReport : Type := {
  dp_total_anchored : nat;
  dp_synchronized : nat;
  dp_drifted : list DriftEntry;
  dp_missing : list DriftEntry;
  dp_checked_at : string
}.

Definition is_clean (r : DriftReport) : bool :=
  match dp_drifted r, dp_missing r with [], [] => true | _, _ => false end.

Section Reality.
Context `{Env} (err_text : string -> string).

Definition anchor_ensure (a : AnchorDb) : AnchorDb := Some (default ∅ a).

Definition set_anchor (a : AnchorDb) (now path hash : string) (source_agent : option string)
  : AnchorDb * result WatchdogError unit :=
  match a with
  | None => (a, Err (no_table err_text "reality_anchors"))
  | Some rows =>
      (Some (<[path := {| an_expected_hash := hash; an_anchored_at := now;
                          an_source_agent := source_agent |}]> rows), Ok tt)
  end.

(** The clock is read twice: for the row and for the anchor that is returned. *)
Definition anchor_file (d : Disk) (a : AnchorDb) (now now2 path : string)
    (source_agent : option string) : AnchorDb * result WatchdogError RealityAnchor :=
  match hash_file err_text d path with
  | Err e => (a, Err e)
  | Ok hash =>
      let '(a, r) := set_anchor a now path hash source_agent in
      (a, let? _ := r in
          Ok {| rl_path := path; rl_expected_hash := hash; rl_anchored_at := now2;
                rl_source_agent := source_agent |})
  end.

Definition row_anchor (path : string) (row : AnchorRow) : RealityAnchor :=
  {| rl_path := path; rl_expected_hash := an_expected_hash row;
     rl_anchored_at := an_anchored_at row; rl_source_agent := an_source_agent row |}.

Definition get_anchor (a : AnchorDb) (path : string)
  : result WatchdogError (option RealityAnchor) :=
  match a with
  | None => Err (no_table err_text "reality_anchors")
  | Some rows => Ok (row_anchor path <$> rows !! path)
  end.

Definition remove_anchor (a : AnchorDb) (path : string) : AnchorDb * result WatchdogError bool :=
  match a with
  | None => (a, Err (no_table err_text "reality_anchors"))
  | Some rows => (Some (delete path rows), Ok (opt_is_some (rows !! path)))
  end.

Definition list_anchors (visit : list (string * AnchorRow) -> list (string * AnchorRow))
    (a : AnchorDb) (limit : Z) : result WatchdogError (list RealityAnchor) :=
  match a with
  | None => Err (no_table err_text "reality_anchors")
  | Some rows =>
      Ok (map (fun kr => row_anchor kr.1 kr.2) (sql_limit (as_i64 limit)
            (order_by (fun x y => String.leb (an_anchored_at y.2) (an_anchored_at x.2))
               (visit (map_to_list rows)))))
  end.

Definition anchor_status (d : Disk) (path recorded : string) : AnchorStatus :=
  if negb (path_exists d path) then AnchorMissing
  else match hash_file err_text d path with
       | Ok actual =>
           if bool_decide (actual = recorded) then Synchronized else Drifted recorded actual
       | Err _ => AnchorMissing
       end.

(** One pass of the loop over the anchors. *)
Definition drift_step (d : Disk) (acc : nat * list DriftEntry * list DriftEntry)
    (kr : string * AnchorRow) : nat * list DriftEntry * list DriftEntry :=
  let '(synchronized, drifted, missing) := acc in
  let status := anchor_status d kr.1 (an_expected_hash kr.2) in
  let entry := {| dr_path := kr.1; dr_status := status; dr_anchored_at := an_anchored_at kr.2 |} in
  match status with
  | Synchronized => (S synchronized, drifted, missing)
  | Drifted _ _ => (synchronized, drifted ++ [entry], missing)
  | AnchorMissing => (synchronized, drifted, missing ++ [entry])
  end.

(** [ORDER BY path] *)
Definition verify_all (d : Disk) (a : AnchorDb) (now : string) : result WatchdogError DriftReport :=
  match a with
  | None => Err (no_table err_text "reality_anchors")
  | Some rows =>
      let sorted := order_by (fun x y => String.leb x.1 y.1) (map_to_list rows) in
      let '(synchronized, drifted, missing) := foldl (drift_step d) (O, [], []) sorted in
      Ok {| dp_total_anchored := length sorted; dp_synchronized := synchronized;
            dp_drifted := drifted; dp_missing := missing; dp_checked_at := now |}
  end.

(** [RealityChecker::check] with its flag [auto_anchor]. *)
Definition check (auto_anchor : bool) (d : Disk) (a : AnchorDb) (now path : string)
  : AnchorDb * result WatchdogError CheckResult :=
  if negb (path_exists d path) then (a, Ok (Missing path))
  else
    match hash_file err_text d path with
    | Err e => (a, Err e)
    | Ok actual =>
        match get_anchor a path with
        | Err e => (a, Err e)
        | Ok None =>
            if auto_anchor then
              let '(a, r) := set_anchor a now path actual (Some "reality-checker") in
              (a, let? _ := r in Ok (NoAnchor path))
            else (a, Ok (NoAnchor path))
        | Ok (Some anchor) =>
            (a, Ok (if bool_decide (rl_expected_hash anchor = actual)
                    then Consistent path actual
                    else Diverged path (rl_expected_hash anchor) actual))
        end
    end.

Definition commit (d : Disk) (a : AnchorDb) (now now2 path : string) (source_agent : option string)
  : AnchorDb * result WatchdogError unit :=
  let '(a, r) := anchor_file d a now now2 path source_agent in
  (a, let? _ := r in Ok tt).

End Reality.

(** ** The repair history *)

Inductive RepairResult : Type := Success | Failure | ManualRequired.

#[export] Instance repair_result_eq_dec : EqDecision RepairResult.
Proof. solve_decision. Defined.

Definition repair_result_str (r : RepairResult) : string :=
  match r with Success => "success" | Failure => "failure" | ManualRequired => "manual_required" end.

Definition repair_result_parse (s : string) : option RepairResult :=
  if bool_decide (s = "success") then Some Success
  else if bool_decide (s = "failure") then Some Failure
  else if bool_decide (s = "manual_required") then Some ManualRequired
  else None.

Record RepairEntry : Type := {
  re_id : option Z;
  re_timestamp : string;
  re_crash_summary : string;
  re_fix_type : string;
  re_fix_content : string;
  re_file_path : option string;
  re_result : RepairResult;
  re_new_pid : option Z;
  re_principal_id : string;
  re_signature_hex : string
}.

(** A row of [repair_history]; its key is the rowid. *)
Record RepairRow : Type := {
  rr_timestamp : string;
  rr_crash_summary : string;
  rr_fix_type : string;
  rr_fix_content : string;
  rr_file_path : option string;
  rr_result : string;
  rr_new_pid : option Z;
  rr_principal_id : string;
  rr_signature_hex : string
}.

(** The rows by their identifier; every connection creates the table. *)
Abbreviation RepairDb := (list (Z * RepairRow)).

Section History.
Context `{Env} (err_text : string -> string).

Definition canonical_msg (timestamp crash_summary fix_type fix_content file_path result_
    principal : string) : string :=
  timestamp +:+ "|" +:+ crash_summary +:+ "|" +:+ fix_type +:+ "|" +:+ fix_content +:+ "|"
    +:+ file_path +:+ "|" +:+ result_ +:+ "|" +:+ principal.

Definition entry_msg (e : RepairEntry) : string :=
  canonical_msg (re_timestamp e) (re_crash_summary e) (re_fix_type e) (re_fix_content e)
    (default EmptyString (re_file_path e)) (repair_result_str (re_result e)) (re_principal_id e).

(** [RepairEntry::new] from the fields of the report and the plan that it reads; [None] is the
    panic of slicing inside a character. *)
Definition repair_entry_new (now stack_trace fix_type fix_content : string)
    (file_path : option string) (result_ : RepairResult) (new_pid : option Z)
    (keypair : ZaionKeypair) : option RepairEntry :=
  crash_summary ← slice_to (Nat.min (String.length stack_trace) 500) stack_trace;
  let principal := principal_id keypair in
  let msg := canonical_msg now crash_summary fix_type fix_content (default EmptyString file_path)
               (repair_result_str result_) principal in
  Some {| re_id := None; re_timestamp := now; re_crash_summary := crash_summary;
          re_fix_type := fix_type; re_fix_content := fix_content; re_file_path := file_path;
          re_result := result_; re_new_pid := new_pid; re_principal_id := principal;
          re_signature_hex := hex_encode (sign keypair msg) |}.

(** [RepairEntry::verify] with the key of a keypair.  [verify] of ed25519-dalek takes a key
    that is already decoded. *)
Definition repair_entry_verify (e : RepairEntry) (keypair : ZaionKeypair)
  : result WatchdogError unit :=
  match hex_decode (re_signature_hex e) with
  | None => Err (WOther ("invalid signature hex: " +:+ err_text "hex"))
  | Some sig =>
      guard? bool_decide (str_len sig = 64) else WOther "signature must be 64 bytes" in
      guard? ed25519_verify (verifying_key keypair) (entry_msg e) sig
        else WOther ("signature verification failed: " +:+ err_text "signature") in
      Ok tt
  end.

Definition repair_row (e : RepairEntry) : RepairRow :=
  {| rr_timestamp := re_timestamp e; rr_crash_summary := re_crash_summary e;
     rr_fix_type := re_fix_type e; rr_fix_content := re_fix_content e;
     rr_file_path := re_file_path e; rr_result := repair_result_str (re_result e);
     rr_new_pid := re_new_pid e; rr_principal_id := re_principal_id e;
     rr_signature_hex := re_signature_hex e |}.

Definition row_entry (id : Z) (row : RepairRow) : RepairEntry :=
  {| re_id := Some id; re_timestamp := rr_timestamp row; re_crash_summary := rr_crash_summary row;
     re_fix_type := rr_fix_type row; re_fix_content := rr_fix_content row;
     re_file_path := rr_file_path row;
     re_result := default Failure (repair_result_parse (rr_result row));
     re_new_pid := rr_new_pid row; re_principal_id := rr_principal_id row;
     re_signature_hex := rr_signature_hex row |}.

(** A new rowid is one above the largest, or 1. *)
Definition next_rowid (db : RepairDb) : Z := default 0 (sql_max (map fst db)) + 1.

Definition history_add (db : RepairDb) (e : RepairEntry) : RepairDb * result WatchdogError Z :=
  let id := next_rowid db in (db ++ [(id, repair_row e)], Ok id).

Definition history_get (db : RepairDb) (id : Z) : result WatchdogError (option RepairEntry) :=
  Ok ((fun kr => row_entry kr.1 kr.2) <$> find (fun kr => bool_decide (kr.1 = id)) db).

(** [ORDER BY timestamp DESC], with [LIMIT n] when there is one. *)
Definition history_list (visit : RepairDb -> RepairDb) (db : RepairDb) (limit : option Z)
  : result WatchdogError (list RepairEntry) :=
  let sorted := order_by (fun a b => String.leb (rr_timestamp b.2) (rr_timestamp a.2)) (visit db) in
  Ok (map (fun kr => row_entry kr.1 kr.2)
        (match limit with Some n => take (Z.to_nat n) sorted | None => sorted end)).

Definition history_count (db : RepairDb) : result WatchdogError nat := Ok (length db).

Definition count_by_result (db : RepairDb) (r : RepairResult) : result WatchdogError nat :=
  Ok (length (filter (fun kr => rr_result kr.2 = repair_result_str r) db)).

Definition history_latest (visit : RepairDb -> RepairDb) (db : RepairDb)
  : result WatchdogError (option RepairEntry) :=
  let? l := history_list visit db (Some 1) in
  Ok (last l).

Definition history_clear (db : RepairDb) : RepairDb * result WatchdogError nat :=
  ([], Ok (length db)).

End History.

(** ** Theorems: the toxic table *)

Lemma toxic_reason_roundtrip r : toxic_reason_parse (toxic_reason_str r) = r.
Proof. by destruct r. Qed.

Section ToxicTheorems.
Context `{Env} (err_text : string -> string).

(** Requests to the table, and the set of digests they stand for. *)
Inductive toxic_op : Type :=
| OpMark (now hash : string) (source : option string) (reason : ToxicReason) (note : string)
| OpDetox (hash : string).

Definition toxic_run (t : ToxicDb) (o : toxic_op) : ToxicDb :=
  match o with
  | OpMark now hash source reason note => (mark_toxic err_text t now hash source reason note).1
  | OpDetox hash => (detox err_text t hash).1
  end.

Definition toxic_spec (s : gset string) (o : toxic_op) : gset string :=
  match o with
  | OpMark _ hash _ _ _ => {[hash]} ∪ s
  | OpDetox hash => s ∖ {[hash]}
  end.

Definition toxic_refines (t : ToxicDb) (s : gset string) : Prop :=
  exists rows, t = Some rows /\ dom rows = s.

Lemma toxic_run_refines t s o :
  toxic_refines t s -> toxic_refines (toxic_run t o) (toxic_spec s o).
Proof.
  intros (rows & -> & <-). destruct o as [now hash source reason note|hash]; simpl;
    eexists; (split; [done|]); [apply dom_insert_L|apply dom_delete_L].
Qed.

(** A created table answers as the set of the digests that were marked and not cleared since. *)
Lemma toxic_table_is_set ops hash :
  let t := foldl toxic_run (toxic_ensure None) ops in
  let s := foldl toxic_spec ∅ ops in
  is_toxic err_text t hash = Ok (bool_decide (hash ∈ s)) /\ toxic_count err_text t = Ok (size s).
Proof.
  intros t s. assert (Hr : toxic_refines t s).
  { subst t s. assert (H0 : toxic_refines (toxic_ensure None) ∅).
    { eexists. split; [done|]. apply dom_empty_L. }
    revert H0. generalize (toxic_ensure None) as t. generalize (∅ : gset string) as s.
    induction ops as [|o ops IH]; intros s t Ht; simpl; [done|]. by apply IH, toxic_run_refines. }
  destruct Hr as (rows & -> & <-). unfold is_toxic, toxic_count. rewrite size_dom. split; [|done].
  f_equal. destruct (rows !! hash) eqn:E; simpl; symmetry.
  - apply bool_decide_eq_true, elem_of_dom. eauto.
  - apply bool_decide_eq_false. rewrite elem_of_dom, E. by intros [].
Qed.

End ToxicTheorems.

(** ** Theorems: anchors *)

Lemma list_filter_all_length {A} (P : A -> Prop) `{!forall x, Decision (P x)} l :
  length (filter P l) = length l -> forall x, x ∈ l -> P x.
Proof.
  induction l as [|y l IH]; intros Hl x Hx; [by apply elem_of_nil in Hx|].
  pose proof (length_filter P l) as Hle. rewrite filter_cons in Hl.
  destruct (decide (P y)); simpl in Hl; [|lia].
  apply elem_of_cons in Hx as [->|Hx]; [done|]. apply IH; [lia|done].
Qed.

Lemma list_filter_all_id {A} (P : A -> Prop) `{!forall x, Decision (P x)} l :
  Forall P l -> filter P l = l.
Proof.
  induction 1 as [|x l Hx _ IH]; [done|]. rewrite filter_cons_True by done. by rewrite IH.
Qed.

Section RealityTheorems.
Context `{Env} (err_text : string -> string).

(** What a check answers for a file with readable content and a created table. *)
Definition check_answer (rows : gmap string AnchorRow) (path content : string) : CheckResult :=
  match rows !! path with
  | None => NoAnchor path
  | Some row =>
      if bool_decide (an_expected_hash row = hash_bytes content)
      then Consistent path (hash_bytes content)
      else Diverged path (an_expected_hash row) (hash_bytes content)
  end.

(** The rows after a check: a path without an anchor gets one. *)
Definition checked_rows (rows : gmap string AnchorRow) (now path content : string)
  : gmap string AnchorRow :=
  match rows !! path with
  | Some _ => rows
  | None => <[path := {| an_expected_hash := hash_bytes content; an_anchored_at := now;
                         an_source_agent := Some "reality-checker" |}]> rows
  end.

Lemma check_file_spec d rows now path content :
  files d !! path = Some content ->
  check err_text true d (Some rows) now path =
    (Some (checked_rows rows now path content), Ok (check_answer rows path content)).
Proof.
  intros Hf. unfold check, path_exists, hash_file, read_bytes, checked_rows, check_answer.
  rewrite Hf. simpl. destruct (rows !! path) as [row|]; simpl; [|done].
  by case_bool_decide.
Qed.

(** A check that let an action through is followed by a consistent one, until the file or its
    anchor changes. *)
Lemma safe_check_repeats d rows now path content now' :
  files d !! path = Some content -> is_safe (check_answer rows path content) = true ->
  check_answer (checked_rows rows now path content) path content
    = Consistent path (hash_bytes content) /\
  check err_text true d (Some (checked_rows rows now path content)) now' path =
    (Some (checked_rows rows now path content), Ok (Consistent path (hash_bytes content))).
Proof.
  intros Hf Hs.
  assert (Ha : check_answer (checked_rows rows now path content) path content
               = Consistent path (hash_bytes content)).
  { unfold check_answer, checked_rows in *. destruct (rows !! path) as [row|] eqn:E.
    - rewrite E. by case_bool_decide.
    - rewrite lookup_insert_eq. simpl. by rewrite bool_decide_eq_true_2. }
  split; [done|]. rewrite (check_file_spec _ _ _ _ _ Hf), Ha.
  unfold checked_rows at 1. unfold checked_rows.
  destruct (rows !! path) eqn:E; [by rewrite E|by rewrite lookup_insert_eq].
Qed.

(** After a commit of one content, a check of another is a divergence, unless the digests are
    equal. *)
Lemma change_is_detected d d' rows now now2 path agent content content' now' :
  files d !! path = Some content -> files d' !! path = Some content' ->
  hash_bytes content <> hash_bytes content' ->
  exists a, commit err_text d (Some rows) now now2 path agent = (a, Ok tt) /\
    (check err_text true d' a now' path).2 =
      Ok (Diverged path (hash_bytes content) (hash_bytes content')).
Proof.
  intros Hf Hf' Hne. unfold commit, anchor_file, hash_file, read_bytes. rewrite Hf. simpl.
  eexists. split; [done|]. rewrite (check_file_spec _ _ _ _ _ Hf'). simpl. f_equal.
  unfold check_answer. rewrite lookup_insert_eq. simpl. by rewrite bool_decide_eq_false_2.
Qed.

Lemma drift_fold d l : forall n drifted missing n' drifted' missing',
  foldl (drift_step err_text d) (n, drifted, missing) l = (n', drifted', missing') ->
  (n' + length drifted' + length missing' = n + length drifted + length missing + length l)%nat /\
  (n' = n + length (filter (fun kr => anchor_status err_text d kr.1 (an_expected_hash kr.2)
                                      = Synchronized) l) )%nat.
Proof.
  induction l as [|kr l IH]; intros n drifted missing n' drifted' missing' Hf.
  - injection Hf as <- <- <-. simpl. lia.
  - cbn [foldl] in Hf. unfold drift_step in Hf at 2.
    destruct (anchor_status err_text d kr.1 (an_expected_hash kr.2)) eqn:Es;
      apply IH in Hf as [H1 H2]; rewrite ?length_app in H1; simpl in H1;
      [rewrite filter_cons_True by done|rewrite filter_cons_False by (by rewrite Es)..];
      simpl; lia.
Qed.

Lemma anchor_status_synchronized d path recorded :
  anchor_status err_text d path recorded = Synchronized <->
  exists content, files d !! path = Some content /\ hash_bytes content = recorded.
Proof.
  unfold anchor_status, path_exists, hash_file, read_bytes.
  destruct (files d !! path) as [c|]; simpl.
  - case_bool_decide; [|naive_solver]. split; [eauto|done].
  - case_bool_decide; simpl; naive_solver.
Qed.

(** The report counts every anchor once, and it is clean exactly when every anchored file is
    there with the recorded digest. *)
Lemma drift_report_spec d rows now :
  exists r, verify_all err_text d (Some rows) now = Ok r /\
    dp_total_anchored r = size rows /\
    (dp_synchronized r + length (dp_drifted r) + length (dp_missing r) = size rows)%nat /\
    (is_clean r = true <-> forall path row, rows !! path = Some row ->
       exists content, files d !! path = Some content /\ hash_bytes content = an_expected_hash row).
Proof.
  unfold verify_all. set (sorted := order_by _ _).
  destruct (foldl (drift_step err_text d) (O, [], []) sorted) as [[n dr] ms] eqn:Ef.
  apply drift_fold in Ef as [H1 H2]. simpl in H1, H2.
  assert (Hl : length sorted = size rows).
  { unfold sorted. rewrite length_order_by. by rewrite length_map_to_list. }
  eexists. split; [done|]. simpl. split; [done|]. split; [lia|].
  assert (Hc : is_clean {| dp_total_anchored := length sorted; dp_synchronized := n;
    dp_drifted := dr; dp_missing := ms; dp_checked_at := now |} = true <-> n = length sorted).
  { unfold is_clean. simpl. destruct dr, ms; simpl in *; split; try done; lia. }
  rewrite Hc, H2. split.
  - intros Hn path row Hr. apply anchor_status_synchronized.
    assert (Hin : (path, row) ∈ sorted).
    { unfold sorted. by apply elem_of_order_by, elem_of_map_to_list. }
    apply (list_filter_all_length _ sorted Hn _ Hin).
  - intros Hall. f_equal. apply list_filter_all_id, Forall_forall. intros [path row] Hin.
    apply anchor_status_synchronized. apply (Hall path row).
    by apply elem_of_map_to_list, (elem_of_order_by (fun x y => String.leb x.1 y.1)).
Qed.

End RealityTheorems.

(** ** Theorems: the repair history *)

Section HistoryTheorems.
Context `{Env} (err_text : string -> string).

Lemma repair_result_roundtrip r : repair_result_parse (repair_result_str r) = Some r.
Proof. by destruct r. Qed.

Definition with_id (id : Z) (e : RepairEntry) : RepairEntry :=
  {| re_id := Some id; re_timestamp := re_timestamp e; re_crash_summary := re_crash_summary e;
     re_fix_type := re_fix_type e; re_fix_content := re_fix_content e;
     re_file_path := re_file_path e; re_result := re_result e; re_new_pid := re_new_pid e;
     re_principal_id := re_principal_id e; re_signature_hex := re_signature_hex e |}.

Lemma row_entry_row id e : row_entry id (repair_row e) = with_id id e.
Proof. unfold row_entry. simpl. by rewrite repair_result_roundtrip. Qed.

Lemma next_rowid_fresh db : Forall (fun kr => kr.1 < next_rowid db) db.
Proof.
  unfold next_rowid. pose proof (sql_max_spec (map fst db)) as Hm.
  destruct (sql_max (map fst db)) as [m|]; simpl.
  - destruct Hm as [_ Hm]. rewrite Forall_map in Hm. eapply Forall_impl; [exact Hm|]. simpl. lia.
  - by apply map_eq_nil in Hm as ->.
Qed.

(** Entries keep different identifiers, and one that was added is read back as it was. *)
Lemma history_add_get db e db' id :
  history_add db e = (db', Ok id) ->
  history_get db' id = Ok (Some (with_id id e)) /\
  (forall k, k <> id -> history_get db' k = history_get db k) /\
  (NoDup (map fst db) -> NoDup (map fst db')).
Proof.
  unfold history_add, history_get. intros [= <- <-]. pose proof (next_rowid_fresh db) as Hf.
  assert (Hnf : forall l, Forall (fun kr : Z * RepairRow => kr.1 < next_rowid db) l ->
    find (fun kr : Z * RepairRow => bool_decide (kr.1 = next_rowid db)) l = None).
  { induction 1 as [|kr l Hk _ IH]; simpl; [done|]. by rewrite bool_decide_eq_false_2 by lia. }
  assert (Happ : forall k (l1 l2 : RepairDb), find (fun kr => bool_decide (kr.1 = k)) (l1 ++ l2) =
    match find (fun kr => bool_decide (kr.1 = k)) l1 with
    | Some x => Some x
    | None => find (fun kr => bool_decide (kr.1 = k)) l2
    end).
  { intros k l1 l2. induction l1 as [|kr l1 IH]; simpl; [done|]. by case_bool_decide. }
  split; [|split].
  - rewrite Happ, Hnf by done. simpl. rewrite bool_decide_eq_true_2 by done. simpl.
    by rewrite row_entry_row.
  - intros k Hk. rewrite Happ. simpl. rewrite (bool_decide_eq_false_2 (next_rowid db = k)) by done.
    by destruct (find _ db).
  - intros Hn. rewrite map_app. simpl. apply NoDup_app. split; [done|].
    split; [|apply NoDup_singleton]. intros x Hx Hx'. apply list_elem_of_singleton in Hx' as ->.
    apply list_elem_of_fmap in Hx as (kr & E & Hkr). rewrite Forall_forall in Hf.
    specialize (Hf _ Hkr). lia.
Qed.

(** An entry that was signed and stored verifies after it was read back. *)
Lemma stored_entry_verifies `{!EnvLaws} db now trace ft fc fp res pid kp e db' id :
  repair_entry_new now trace ft fc fp res pid kp = Some e ->
  history_add db e = (db', Ok id) ->
  exists e', history_get db' id = Ok (Some e') /\ repair_entry_verify err_text e' kp = Ok tt /\
    re_new_pid e' = pid /\ re_principal_id e' = principal_id kp.
Proof.
  unfold repair_entry_new. intros He Ha. apply bind_Some in He as (summary & _ & [= <-]).
  apply history_add_get in Ha as [Hg _]. eexists. split; [done|]. simpl. split; [|done].
  unfold repair_entry_verify. cbn [with_id re_signature_hex]. rewrite hex_roundtrip.
  unfold sign. unfold str_len. rewrite sign_length. cbn [bool_decide]. 
  rewrite bool_decide_eq_true_2 by done.
  unfold entry_msg. cbn [with_id re_timestamp re_crash_summary re_fix_type re_fix_content
    re_file_path re_result re_principal_id]. by rewrite sign_verifies.
Qed.

(** The signature covers neither the process identifier nor the borders of the fields: an
    entry with another process identifier, or with its text cut differently into fields,
    verifies with the same signature. *)
Lemma signature_ambiguous e e' kp :
  entry_msg e = entry_msg e' -> re_signature_hex e = re_signature_hex e' ->
  repair_entry_verify err_text e kp = repair_entry_verify err_text e' kp.
Proof. intros E1 E2. unfold repair_entry_verify. by rewrite E1, E2. Qed.

End HistoryTheorems.

Section HistoryExamples.

Definition sample_entry (summary ft content : string) (pid : option Z) (sig : string) : RepairEntry :=
  {| re_id := None; re_timestamp := "t"; re_crash_summary := summary; re_fix_type := ft;
     re_fix_content := content; re_file_path := None; re_result := Success; re_new_pid := pid;
     re_principal_id := "p"; re_signature_hex := sig |}.

(** One message for a description and for the content of a file. *)
Example fields_are_ambiguous :
  entry_msg (sample_entry "boom" "description" "|file_content|rm -rf" (Some 1) "00") =
  entry_msg (sample_entry "boom|description" "" "file_content|rm -rf" (Some 2) "00").
Proof. reflexivity. Qed.

Fixpoint repeat_a (n : nat) : string :=
  match n with O => EmptyString | S n' => String (Ascii.ascii_of_N 97) (repeat_a n') end.

(** A trace with a character of two bytes over byte 500 panics; one byte less does not. *)
Example trace_cut_inside_character :
  let wide := String (Ascii.ascii_of_N 195) (String (Ascii.ascii_of_N 169) EmptyString) in
  repair_entry_new "t" (repeat_a 499 +:+ wide) "f" "c" None Success None "k" = None /\
  opt_is_some (repair_entry_new "t" (repeat_a 498 +:+ wide) "f" "c" None Success None "k") = true.
Proof. vm_compute. done. Qed.

End HistoryExamples.
