(* ===== verification/SyntaxGate.v ===== *)
(** * The syntax gate ([crates/zaion-aci/src/syntax_gate.rs])

    The check that new file content has to pass: parsers for TOML and JSON, which are
    parameters, and heuristics for Rust, Python, JavaScript, TypeScript and shell.  The
    heuristics only compare characters with ASCII ones, so they are stated on bytes; a count
    of brackets is a [Z] (content has less than [2^31] of them).

    Shown: on text without quotes and comments the bracket count accepts exactly the texts in
    which no kind of bracket is closed before it is opened and all are closed at the end.
    Defects shown: Rust lifetimes are taken for quotes, so correct code is refused; the slash
    of a line comment is carried over to the next line, where a star then hides everything. *)

From Stdlib Require Import Ascii.
From stdpp Require Import prelude gmap strings list.
From S2P Require Import Prelude.
From S2P Require Import Text.
From S2P Require Import FileSystem.
Local Open Scope Z_scope.

Inductive SyntaxLanguage : Type :=
| Rust | Toml | JsonLang | Python | Shell | TypeScript | JavaScript | Unknown.

#[export] Instance syntax_language_eq_dec : EqDecision SyntaxLanguage.
Proof. solve_decision. Defined.

Definition first_match {A} (s : string) (table : list (list string * A)) (otherwise : A) : A :=
  foldr (fun e acc => if bool_decide (s ∈ e.1) then e.2 else acc) otherwise table.

(** [to_lowercase] and the ASCII one give the same answers on these names: no letter outside
    ASCII has one of theirs as its lower case. *)
Definition from_extension (ext : string) : SyntaxLanguage :=
  first_match (to_ascii_lowercase ext)
    [(["rs"], Rust); (["toml"], Toml); (["json"], JsonLang); (["py"], Python);
     (["sh"; "bash"], Shell); (["ts"; "tsx"], TypeScript); (["js"; "jsx"], JavaScript)] Unknown.

Definition parse_name (s : string) : SyntaxLanguage :=
  first_match (to_ascii_lowercase s)
    [(["rust"], Rust); (["toml"], Toml); (["json"], JsonLang); (["python"; "py"], Python);
     (["shell"; "sh"; "bash"], Shell); (["typescript"; "ts"], TypeScript);
     (["javascript"; "js"], JavaScript)] Unknown.

(** [{:?}] *)
Definition language_debug (l : SyntaxLanguage) : string :=
  match l with
  | Rust => "Rust"
  | Toml => "Toml"
  | JsonLang => "Json"
  | Python => "Python"
  | Shell => "Shell"
  | TypeScript => "TypeScript"
  | JavaScript => "JavaScript"
  | Unknown => "Unknown"
  end.

Record SyntaxError : Type := {
  sx_line : option Z;
  sx_col : option Z;
  sx_message : string
}.

Inductive SyntaxCheckResult : Type :=
| Valid
| Invalid (errors : list SyntaxError)
| Skipped (reason : string).

Definition is_valid (r : SyntaxCheckResult) : bool :=
  match r with Valid | Skipped _ => true | Invalid _ => false end.

Definition error_line (e : SyntaxError) : string :=
  match sx_line e, sx_col e with
  | Some l, Some c => "line " +:+ z_to_string l +:+ ":" +:+ z_to_string c +:+ ": " +:+ sx_message e
  | _, _ => sx_message e
  end.

Fixpoint join_with (sep : string) (parts : list string) : string :=
  match parts with
  | [] => EmptyString
  | [x] => x
  | x :: rest => x +:+ sep +:+ join_with sep rest
  end.

(** The language and the message of [AciError::SyntaxError]. *)
Definition to_aci_error (r : SyntaxCheckResult) (language : SyntaxLanguage)
  : option (string * string) :=
  match r with
  | Invalid errors => Some (language_debug language, join_with "; " (map error_line errors))
  | _ => None
  end.

Definition from_errors (errors : list SyntaxError) : SyntaxCheckResult :=
  match errors with [] => Valid | _ => Invalid errors end.

(** ** The bracket count *)

Record BracketState : Type := {
  bs_round : Z;
  bs_curly : Z;
  bs_square : Z;
  bs_double : bool;
  bs_single : bool;
  bs_block : bool;
  bs_prev : Ascii.ascii
}.

Definition bracket_init : BracketState :=
  {| bs_round := 0; bs_curly := 0; bs_square := 0; bs_double := false; bs_single := false;
     bs_block := false; bs_prev := Ascii.zero |}.

Definition set_prev (c : Ascii.ascii) (s : BracketState) : BracketState :=
  {| bs_round := bs_round s; bs_curly := bs_curly s; bs_square := bs_square s;
     bs_double := bs_double s; bs_single := bs_single s; bs_block := bs_block s; bs_prev := c |}.

Definition set_modes (d q b : bool) (s : BracketState) : BracketState :=
  {| bs_round := bs_round s; bs_curly := bs_curly s; bs_square := bs_square s;
     bs_double := d; bs_single := q; bs_block := b; bs_prev := bs_prev s |}.

Definition count_bracket (dr dc ds : Z) (s : BracketState) : BracketState :=
  {| bs_round := bs_round s + dr; bs_curly := bs_curly s + dc; bs_square := bs_square s + ds;
     bs_double := bs_double s; bs_single := bs_single s; bs_block := bs_block s;
     bs_prev := bs_prev s |}.

Definition b_quote : Ascii.ascii := Ascii.ascii_of_N 34.
Definition b_apostrophe : Ascii.ascii := Ascii.ascii_of_N 39.
Definition b_backslash : Ascii.ascii := Ascii.ascii_of_N 92.
Definition b_slash : Ascii.ascii := Ascii.ascii_of_N 47.
Definition b_star : Ascii.ascii := Ascii.ascii_of_N 42.
Definition b_round_open : Ascii.ascii := Ascii.ascii_of_N 40.
Definition b_round_close : Ascii.ascii := Ascii.ascii_of_N 41.
Definition b_curly_open : Ascii.ascii := Ascii.ascii_of_N 123.
Definition b_curly_close : Ascii.ascii := Ascii.ascii_of_N 125.
Definition b_square_open : Ascii.ascii := Ascii.ascii_of_N 91.
Definition b_square_close : Ascii.ascii := Ascii.ascii_of_N 93.

(** The [match ch] on a character outside strings and comments: the state before [prev] is set,
    and whether a line comment starts. *)
Definition plain_char (c : Ascii.ascii) (s : BracketState) : BracketState * bool :=
  if Ascii.eqb c b_quote then (set_modes true (bs_single s) (bs_block s) s, false)
  else if Ascii.eqb c b_apostrophe then (set_modes (bs_double s) true (bs_block s) s, false)
  else if Ascii.eqb c b_slash then (s, Ascii.eqb (bs_prev s) b_slash)
  else if Ascii.eqb c b_star then
    (if Ascii.eqb (bs_prev s) b_slash then set_modes (bs_double s) (bs_single s) true s else s,
     false)
  else if Ascii.eqb c b_round_open then (count_bracket 1 0 0 s, false)
  else if Ascii.eqb c b_round_close then (count_bracket (-1) 0 0 s, false)
  else if Ascii.eqb c b_curly_open then (count_bracket 0 1 0 s, false)
  else if Ascii.eqb c b_curly_close then (count_bracket 0 (-1) 0 s, false)
  else if Ascii.eqb c b_square_open then (count_bracket 0 0 1 s, false)
  else if Ascii.eqb c b_square_close then (count_bracket 0 0 (-1) s, false)
  else (s, false).

Definition negative (s : BracketState) : bool :=
  bool_decide (bs_round s < 0) || bool_decide (bs_curly s < 0) || bool_decide (bs_square s < 0).

(** A line: [inr] is the early return, with the state whose counts are in the message. *)
Fixpoint bracket_line (chars : list Ascii.ascii) (line_comment : bool) (s : BracketState)
  : BracketState + BracketState :=
  match chars with
  | [] => inl s
  | c :: chars' =>
      if bs_block s then
        bracket_line chars' line_comment
          (set_prev c (set_modes (bs_double s) (bs_single s)
             (negb (Ascii.eqb (bs_prev s) b_star && Ascii.eqb c b_slash)) s))
      else if line_comment then inl s
      else if bs_double s then
        bracket_line chars' line_comment
          (set_prev c (set_modes (negb (Ascii.eqb c b_quote && negb (Ascii.eqb (bs_prev s) b_backslash)))
             (bs_single s) (bs_block s) s))
      else if bs_single s then
        bracket_line chars' line_comment
          (set_prev c (set_modes (bs_double s)
             (negb (Ascii.eqb c b_apostrophe && negb (Ascii.eqb (bs_prev s) b_backslash)))
             (bs_block s) s))
      else
        let '(s', comment) := plain_char c s in
        if negative s' then inr s' else bracket_line chars' comment (set_prev c s')
  end.

Definition unmatched_error (line : Z) (s : BracketState) : SyntaxError :=
  {| sx_line := Some line; sx_col := None;
     sx_message := "unmatched closing bracket on line " +:+ z_to_string line +:+ " (round="
       +:+ z_to_string (bs_round s) +:+ ", curly=" +:+ z_to_string (bs_curly s) +:+ ", square="
       +:+ z_to_string (bs_square s) +:+ ")" |}.

Definition unbalanced_error (s : BracketState) : SyntaxError :=
  {| sx_line := None; sx_col := None;
     sx_message := "unbalanced brackets: unclosed ( x" +:+ z_to_string (Z.max (bs_round s) 0)
       +:+ ") { x" +:+ z_to_string (Z.max (bs_curly s) 0) +:+ "} [ x"
       +:+ z_to_string (Z.max (bs_square s) 0) +:+ "]" |}.

Fixpoint bracket_lines (lines : list string) (line : Z) (s : BracketState) : option SyntaxError :=
  match lines with
  | [] =>
      if bool_decide (bs_round s = 0) && bool_decide (bs_curly s = 0) && bool_decide (bs_square s = 0)
      then None else Some (unbalanced_error s)
  | l :: lines' =>
      match bracket_line (String.list_ascii_of_string l) false s with
      | inr s' => Some (unmatched_error line s')
      | inl s' => bracket_lines lines' (line + 1) s'
      end
  end.

Definition check_bracket_balance (content : string) : option SyntaxError :=
  bracket_lines (str_lines content) 1 bracket_init.

(** ** Unclosed strings *)

Fixpoint quote_scan (chars : list Ascii.ascii) (in_double in_single : bool) (prev : Ascii.ascii)
  : bool :=
  match chars with
  | [] => in_double
  | c :: chars' =>
      let escaped := Ascii.eqb prev b_backslash in
      let flip_d := Ascii.eqb c b_quote && negb in_single && negb escaped in
      let flip_s := Ascii.eqb c b_apostrophe && negb in_double && negb escaped in
      quote_scan chars' (xorb in_double flip_d) (xorb in_single flip_s) c
  end.

Fixpoint unclosed_lines (lines : list string) (line : Z) : option SyntaxError :=
  match lines with
  | [] => None
  | l :: lines' =>
      if quote_scan (String.list_ascii_of_string l) false false Ascii.zero then
        Some {| sx_line := Some line; sx_col := None;
                sx_message := "unclosed double-quote string on line " +:+ z_to_string line |}
      else unclosed_lines lines' (line + 1)
  end.

Definition check_unclosed_string_literal (content : string) : option SyntaxError :=
  unclosed_lines (str_lines content) 1.

Definition opt_list {A} (o : option A) : list A := match o with Some a => [a] | None => [] end.

Definition check_rust_heuristic (content : string) : SyntaxCheckResult :=
  from_errors (opt_list (check_bracket_balance content)
               ++ opt_list (check_unclosed_string_literal content)).

Definition check_js_heuristic (content : string) : SyntaxCheckResult :=
  from_errors (opt_list (check_bracket_balance content)
               ++ opt_list (check_unclosed_string_literal content)).

(** ** Python and shell *)

Definition python_keywords : list string :=
  ["def "; "class "; "if "; "elif "; "else"; "for "; "while "; "with "; "try"; "except";
   "finally"].

Definition b_colon : Ascii.ascii := Ascii.ascii_of_N 58.
Definition b_comma : Ascii.ascii := Ascii.ascii_of_N 44.

Definition byte_occurs (c : Ascii.ascii) (s : string) : bool :=
  existsb (Ascii.eqb c) (String.list_ascii_of_string s).

(** The loop over the keywords on one trimmed line: the first that reports, breaks. *)
Fixpoint python_line (keywords : list string) (trimmed : string) (line : Z) : option SyntaxError :=
  match keywords with
  | [] => None
  | keyword :: keywords' =>
      if starts_with keyword trimmed && negb (ends_with_char b_colon trimmed)
         && negb (ends_with_char b_backslash trimmed)
         && negb (bool_decide (trimmed = EmptyString)) then
        if byte_occurs b_colon trimmed then python_line keywords' trimmed line
        else if ends_with_char b_round_open trimmed || ends_with_char b_comma trimmed
        then python_line keywords' trimmed line
        else Some {| sx_line := Some line; sx_col := None;
                     sx_message := "possibly missing colon after '" +:+ keyword +:+ "' block" |}
      else python_line keywords' trimmed line
  end.

Fixpoint python_lines (lines : list string) (line : Z) : list SyntaxError :=
  match lines with
  | [] => []
  | l :: lines' =>
      opt_list (python_line python_keywords (str_trim l) line) ++ python_lines lines' (line + 1)
  end.

Definition check_python_heuristic (content : string) : SyntaxCheckResult :=
  from_errors (python_lines (str_lines content) 1 ++ opt_list (check_bracket_balance content)).

(** [str::trim_start] *)
Definition str_trim_start (s : string) : string :=
  String.string_of_list_ascii (trim_front (String.list_ascii_of_string s)).

Definition check_shell_heuristic (content : string) : SyntaxCheckResult :=
  let lines := str_lines content in
  let opens_if := length (filter (fun l => bool_decide (str_trim l = "if")
                    || starts_with "if " (str_trim_start l) = true) lines) in
  let closes_fi := length (filter (fun l => str_trim l = "fi") lines) in
  from_errors
    (opt_list (check_unclosed_string_literal content)
     ++ (if bool_decide (closes_fi + 2 < opens_if)%nat then
           [{| sx_line := None; sx_col := None;
               sx_message := "possibly missing 'fi' (found "
                 +:+ z_to_string (Z.of_nat opens_if) +:+ " if-blocks, "
                 +:+ z_to_string (Z.of_nat closes_fi) +:+ " fi)" |}]
         else [])).

Section Gate.
(** The errors of the TOML parser (byte where the span starts, text) and of the JSON parser
    (line, column, text); [None] is a document that parses. *)
Context (toml_error : string -> option (option nat * string)).
Context (json_error : string -> option (Z * Z * string)).

(** [content[..start].lines().count()]; the parser's spans are at boundaries of characters. *)
Definition check_toml (content : string) : SyntaxCheckResult :=
  match toml_error content with
  | None => Valid
  | Some (span, text) =>
      Invalid [{| sx_line := (fun start => Z.of_nat (length (str_lines
                                (String.substring 0 start content)))) <$> span;
                  sx_col := None; sx_message := text |}]
  end.

Definition check_json (content : string) : SyntaxCheckResult :=
  match json_error content with
  | None => Valid
  | Some (line, column, text) =>
      Invalid [{| sx_line := Some line; sx_col := Some column; sx_message := text |}]
  end.

(** [SyntaxGate::check] *)
Definition gate_check (content : string) (language : SyntaxLanguage) : SyntaxCheckResult :=
  match language with
  | Toml => check_toml content
  | JsonLang => check_json content
  | Rust => check_rust_heuristic content
  | Python => check_python_heuristic content
  | TypeScript | JavaScript => check_js_heuristic content
  | Shell => check_shell_heuristic content
  | Unknown => Skipped "unknown language — syntax check skipped"
  end.

(** [SyntaxGate::check_file] *)
Definition path_language (path : string) : SyntaxLanguage :=
  match path_extension path with Some ext => from_extension ext | None => Unknown end.

Definition check_file (path content : string) : SyntaxCheckResult :=
  gate_check content (path_language path).

End Gate.

(** ** The bracket count on plain text *)

(** A text that closes what it opens, starting at depth [d]. *)
Fixpoint closes (o c : Ascii.ascii) (l : list Ascii.ascii) (d : Z) : bool :=
  match l with
  | [] => bool_decide (d = 0)
  | a :: l' =>
      let d' := if Ascii.eqb a o then d + 1 else if Ascii.eqb a c then d - 1 else d in
      bool_decide (0 <= d') && closes o c l' d'
  end.

Definition balanced_brackets (l : list Ascii.ascii) : bool :=
  closes b_round_open b_round_close l 0 && closes b_curly_open b_curly_close l 0
  && closes b_square_open b_square_close l 0.

(** No quotes, and no slash that could start a comment. *)
Definition plain_byte (a : Ascii.ascii) : bool :=
  negb (Ascii.eqb a b_quote) && negb (Ascii.eqb a b_apostrophe) && negb (Ascii.eqb a b_slash).

Definition plain_state (s : BracketState) : Prop :=
  bs_double s = false /\ bs_single s = false /\ bs_block s = false /\ bs_prev s <> b_slash /\
  0 <= bs_round s /\ 0 <= bs_curly s /\ 0 <= bs_square s.

Definition closes_all (l : list Ascii.ascii) (s : BracketState) : bool :=
  closes b_round_open b_round_close l (bs_round s)
  && closes b_curly_open b_curly_close l (bs_curly s)
  && closes b_square_open b_square_close l (bs_square s).

Lemma plain_char_step c s rest :
  plain_byte c = true -> plain_state s ->
  let '(s', comment) := plain_char c s in
  comment = false /\
  (negative s' = true -> closes_all (c :: rest) s = false) /\
  (negative s' = false -> plain_state (set_prev c s') /\
     closes_all (c :: rest) s = closes_all rest (set_prev c s')).
Proof.
  unfold plain_byte, plain_state. intros Hp (Hd & Hs & Hb & Hv & H1 & H2 & H3).
  apply andb_true_iff in Hp as [Hp Hp3]. apply andb_true_iff in Hp as [Hp1 Hp2].
  apply negb_true_iff in Hp1, Hp2, Hp3.
  assert (Hc : c <> b_slash) by (intros ->; by rewrite Ascii.eqb_refl in Hp3).
  assert (Hv' : Ascii.eqb (bs_prev s) b_slash = false) by (by apply Ascii.eqb_neq).
  unfold plain_char. rewrite Hp1, Hp2, Hp3, Hv'. unfold negative, closes_all.
  destruct (Ascii.eqb c b_star) eqn:Es; [apply Ascii.eqb_eq in Es as ->|].
  2: destruct (Ascii.eqb c b_round_open) eqn:E1; [apply Ascii.eqb_eq in E1 as ->|].
  3: destruct (Ascii.eqb c b_round_close) eqn:E2; [apply Ascii.eqb_eq in E2 as ->|].
  4: destruct (Ascii.eqb c b_curly_open) eqn:E3; [apply Ascii.eqb_eq in E3 as ->|].
  5: destruct (Ascii.eqb c b_curly_close) eqn:E4; [apply Ascii.eqb_eq in E4 as ->|].
  6: destruct (Ascii.eqb c b_square_open) eqn:E5; [apply Ascii.eqb_eq in E5 as ->|].
  7: destruct (Ascii.eqb c b_square_close) eqn:E6; [apply Ascii.eqb_eq in E6 as ->|].
  all: simpl; rewrite ?E1, ?E2, ?E3, ?E4, ?E5, ?E6; rewrite ?Z.add_0_r.
  all: split; [done|]; split; intros Hn; rewrite ?orb_true_iff, ?orb_false_iff in Hn;
    rewrite ?bool_decide_eq_true, ?bool_decide_eq_false in Hn; [|split].
  all: try (repeat split; first [done|lia]).
  all: repeat (rewrite bool_decide_eq_true_2 by lia); rewrite ?andb_true_l; try done; try lia.
  all: repeat (rewrite bool_decide_eq_false_2 by lia); rewrite ?andb_false_l, ?andb_false_r; done.
Qed.

Lemma bracket_line_plain l : forall s rest,
  Forall (fun c => plain_byte c = true) l -> plain_state s ->
  match bracket_line l false s with
  | inl s' => plain_state s' /\ closes_all (l ++ rest) s = closes_all rest s'
  | inr _ => closes_all (l ++ rest) s = false
  end.
Proof.
  induction l as [|c l IH]; intros s rest Hl Hs; [done|].
  apply Forall_cons in Hl as [Hc Hl]. destruct (Hs) as (Hd & Hq & Hb & _).
  cbn [bracket_line]. rewrite Hd, Hq, Hb.
  pose proof (plain_char_step c s (l ++ rest) Hc Hs) as Hstep.
  destruct (plain_char c s) as [s' comment]. destruct Hstep as (-> & Hneg & Hok).
  destruct (negative s'); [by apply Hneg|]. destruct (Hok eq_refl) as [Hs' Hcl].
  specialize (IH (set_prev c s') rest Hl Hs').
  destruct (bracket_line l false (set_prev c s')) as [s2|s2].
  - destruct IH as [IH1 IH2]. split; [done|]. rewrite <- IH2. exact Hcl.
  - rewrite <- IH. exact Hcl.
Qed.

Definition line_bytes (lines : list string) : list Ascii.ascii :=
  concat (map String.list_ascii_of_string lines).

Lemma bracket_lines_plain lines : forall line s,
  Forall (fun c => plain_byte c = true) (line_bytes lines) -> plain_state s ->
  (bracket_lines lines line s = None <-> closes_all (line_bytes lines) s = true).
Proof.
  induction lines as [|l lines IH]; intros line s Hl Hs; cbn [bracket_lines].
  - unfold closes_all. simpl. rewrite !andb_true_iff.
    destruct (_ && _ && _) eqn:E; [rewrite !andb_true_iff in E; done|].
    split; [done|]. intros Hc. rewrite <- !andb_true_iff in Hc. congruence.
  - unfold line_bytes in *. simpl in *. apply Forall_app in Hl as [Hl1 Hl2].
    pose proof (bracket_line_plain _ s (concat (map String.list_ascii_of_string lines)) Hl1 Hs) as Hb.
    destruct (bracket_line (String.list_ascii_of_string l) false s) as [s'|s'].
    + destruct Hb as [Hs' ->]. by apply IH.
    + rewrite Hb. done.
Qed.

(** Line ends do not matter to the brackets. *)
Lemma closes_skip o c a l d :
  Ascii.eqb a o = false -> Ascii.eqb a c = false -> 0 <= d -> closes o c (a :: l) d = closes o c l d.
Proof. intros H1 H2 Hd. simpl. rewrite H1, H2, bool_decide_eq_true_2 by done. done. Qed.

Definition bracket_byte (a : Ascii.ascii) : bool :=
  byte_in "(){}[]" a.

Lemma closes_filter o c l : forall d,
  bracket_byte o = true -> bracket_byte c = true -> 0 <= d ->
  closes o c l d = closes o c (filter (fun a => bracket_byte a = true) l) d.
Proof.
  induction l as [|a l IH]; intros d Ho Hc Hd; [done|].
  destruct (bracket_byte a) eqn:Ea.
  - rewrite filter_cons_True by done. simpl.
    case_bool_decide; [|done]. f_equal. by apply IH.
  - rewrite filter_cons_False by (by rewrite Ea). rewrite closes_skip; [by apply IH| | |done].
    all: apply Ascii.eqb_neq; intros ->; congruence.
Qed.

Lemma filter_bytes_strip_cr w :
  filter (fun a => bracket_byte a = true) (String.list_ascii_of_string (strip_cr w)) =
  filter (fun a => bracket_byte a = true) (String.list_ascii_of_string w).
Proof.
  induction w as [|a w IH]; [done|]. destruct w as [|b w].
  - simpl. destruct (Ascii.eqb a cr) eqn:E; [|done]. apply Ascii.eqb_eq in E as ->. done.
  - change (strip_cr (String a (String b w))) with (String a (strip_cr (String b w))).
    cbn [String.list_ascii_of_string] in *. rewrite !(filter_cons _ a). by rewrite IH.
Qed.

Lemma filter_bytes_lines content :
  filter (fun a => bracket_byte a = true) (line_bytes (str_lines content)) =
  filter (fun a => bracket_byte a = true) (String.list_ascii_of_string content).
Proof.
  assert (Hl : forall ws, filter (fun a => bracket_byte a = true) (line_bytes (lines_of ws)) =
                          filter (fun a => bracket_byte a = true) (line_bytes ws)).
  { induction ws as [|w ws IH]; [done|]. destruct ws as [|w' ws].
    - simpl. case_bool_decide as E; [by subst|]. done.
    - change (lines_of (w :: w' :: ws)) with (strip_cr w :: lines_of (w' :: ws)).
      unfold line_bytes in *. cbn [map concat] in *.
      rewrite !filter_app, filter_bytes_strip_cr. f_equal. rewrite IH. cbn [map concat].
      by rewrite filter_app. }
  unfold str_lines. rewrite Hl. clear Hl.
  induction content as [|a content IH]; [done|]. cbn [split_lf String.list_ascii_of_string].
  destruct (Ascii.eqb a lf) eqn:E.
  - apply Ascii.eqb_eq in E as ->. unfold line_bytes in *. simpl. rewrite IH. done.
  - destruct (split_lf content) as [|w ws] eqn:Es; unfold line_bytes in *; simpl in *;
      rewrite !(filter_cons _ a); rewrite ?IH; [|done].
    destruct (decide _); simpl; by rewrite <- IH.
Qed.

Lemma plain_lines content :
  str_all plain_byte content = true ->
  Forall (fun c => plain_byte c = true) (line_bytes (str_lines content)).
Proof.
  unfold str_all. intros Ha. rewrite forallb_forall in Ha.
  apply Forall_forall. intros c Hc.
  assert (Hin : c ∈ String.list_ascii_of_string content).
  { apply list_elem_of_In in Hc. apply in_concat in Hc as (bs & Hbs & Hc).
    apply in_map_iff in Hbs as (w & <- & Hw). revert Hw Hc. unfold str_lines.
    assert (H1 : forall ws c w, In w (lines_of ws) -> In c (String.list_ascii_of_string w) ->
      exists w', In w' ws /\ In c (String.list_ascii_of_string w')).
    { clear. induction ws as [|x ws IH]; intros c w Hw Hc; [done|]. destruct ws as [|y ws].
      - simpl in Hw. case_bool_decide; [done|]. destruct Hw as [<-|[]]. exists x. simpl. auto.
      - change (lines_of (x :: y :: ws)) with (strip_cr x :: lines_of (y :: ws)) in Hw.
        destruct Hw as [<-|Hw].
        + exists x. split; [by left|]. revert Hc. clear. induction x as [|a x IH]; [done|].
          destruct x as [|b x]; [simpl; destruct (Ascii.eqb a cr); simpl; tauto|].
          change (strip_cr (String a (String b x))) with (String a (strip_cr (String b x))).
          intros [->|Hc]; [by left|right; by apply IH].
        + destruct (IH c w Hw Hc) as (w' & Hw' & Hc'). exists w'. split; [by right|done]. }
    assert (H2 : forall s c w, In w (split_lf s) -> In c (String.list_ascii_of_string w) ->
      In c (String.list_ascii_of_string s)).
    { clear. induction s as [|a s IH]; intros c w Hw Hc.
      - destruct Hw as [<-|[]]. done.
      - cbn [split_lf] in Hw. destruct (Ascii.eqb a lf).
        + destruct Hw as [<-|Hw]; [done|]. right. by eapply IH.
        + destruct (split_lf s) as [|w0 ws] eqn:Es.
          * destruct Hw as [<-|[]]. destruct Hc as [->|[]]. by left.
          * destruct Hw as [<-|Hw]; [|right; eapply IH; [by right|done]].
            destruct Hc as [->|Hc]; [by left|]. right. eapply IH; [by left|done]. }
    intros Hw Hc. destruct (H1 _ _ _ Hw Hc) as (w' & Hw' & Hc').
    apply list_elem_of_In. by eapply H2. }
  apply Ha. by apply list_elem_of_In.
Qed.

(** On text without quotes and slashes the heuristic is the reference: it accepts exactly when
    no kind of bracket is closed before it is opened and all are closed at the end. *)
Theorem bracket_balance_iff content :
  str_all plain_byte content = true ->
  (check_bracket_balance content = None <->
   balanced_brackets (String.list_ascii_of_string content) = true).
Proof.
  intros Hp. unfold check_bracket_balance.
  rewrite bracket_lines_plain; [|by apply plain_lines|by repeat split].
  unfold closes_all, balanced_brackets. cbn [bracket_init bs_round bs_curly bs_square].
  rewrite !(closes_filter _ _ (line_bytes _)) by done. rewrite filter_bytes_lines.
  by rewrite <- !(closes_filter _ _ (String.list_ascii_of_string content)) by done.
Qed.

(** The kinds are counted apart: crossed brackets pass. *)
Example crossed_brackets_pass : check_bracket_balance "([)]" = None.
Proof. reflexivity. Qed.

(** Correct Rust with two lifetimes before a bracket is refused. *)
Example lifetimes_refused :
  is_valid (check_rust_heuristic "fn f<'a>(x: &'a str) -> &'a str { x }") = false.
Proof. reflexivity. Qed.

(** After a comment line, a line that starts with a star hides all that follows. *)
Example star_after_comment_hides :
  is_valid (check_rust_heuristic "// set
*p = f((1;
}}}") = true.
Proof. reflexivity. Qed.

Lemma bracket_balance_iff_witness :
  check_bracket_balance "f(x) { a[0] }
" = None <-> balanced_brackets (String.list_ascii_of_string "f(x) { a[0] }
") = true.
Proof. apply bracket_balance_iff. reflexivity. Defined.
