(* ===== verification/Aci.v ===== *)
(** * The agent-computer interface ([crates/zaion-aci/src/action.rs], [error.rs], [file_ops.rs],
      [ast_patcher.rs], [dispatcher.rs])

    The actions by which the agent touches files: reading and writing behind three gates
    (toxic registry, reality anchor, syntax), patches of a file, checks and marks.  The state is
    the disk with the two tables of [Watchdog].  Identifiers and durations of operations are
    left out of the results; the texts of system errors are a parameter, and faults of the disk
    are supplied with every call.

    A write that passes the gates stores the content and its anchor, and one that fails leaves
    every file but the temporary one.  Along any sequence of actions and changes from outside,
    a write that succeeds overwrites only a file that is absent or still has the digest that
    the last write gave it.  Patches take no part in this: they ask neither the registry nor
    the anchor, and leave the anchor behind, so that a file that was patched refuses the next
    write. *)

From stdpp Require Import prelude gmap strings list.
From S2P Require Import Prelude.
From S2P Require Import Json.
From S2P Require Import Env.
From S2P Require Import Text.
From S2P Require Import FileSystem.
From S2P Require Import Concrete.
From S2P Require Import Watchdog.
From S2P Require Import SyntaxGate.
Local Open Scope res_scope.
Local Open Scope Z_scope.

Inductive AciError : Type :=
| ASyntaxError (language message : string)
| RealityDiverged (path expected actual : string)
| ToxicBlocked (hash reason : string)
| PatchFailed (text : string)
| FileNotFound (path : string)
| AIo (text : string)
| ALedger (text : string)
| AInternal (text : string).

(** [to_string] *)
Definition aci_error_text (e : AciError) : string :=
  match e with
  | ASyntaxError language message => "syntax error in " +:+ language +:+ ": " +:+ message
  | RealityDiverged path expected actual =>
      "reality diverged: file '" +:+ path +:+ "' was modified externally (expected="
        +:+ expected +:+ ", actual=" +:+ actual +:+ ")"
  | ToxicBlocked hash reason => "toxic plugin blocked: hash=" +:+ hash +:+ ", reason=" +:+ reason
  | PatchFailed t => "ast patch failed: " +:+ t
  | FileNotFound p => "file not found: " +:+ p
  | AIo t => "io error: " +:+ t
  | ALedger t => "ledger error: " +:+ t
  | AInternal t => "internal error: " +:+ t
  end.

Inductive AciAction : Type :=
| ReadFile (path : string)
| WriteFile (path content : string) (update_anchor : bool)
| ReplaceAstNode (path old_text new_text language : string)
| InsertAfterLine (path : string) (line_number : nat) (content language : string)
| DeleteTextBlock (path target_text language : string)
| SyntaxCheck (path language : string)
| RealityCheck (path : string)
| MarkToxic (path reason : string)
| IsToxic (path : string).

Inductive AciStatus : Type :=
| AOk | SSyntaxError | SRealityDiverged | SToxicBlocked | SNotFound | SError.

#[export] Instance aci_status_eq_dec : EqDecision AciStatus.
Proof. solve_decision. Defined.

Record AciResult : Type := {
  ar_status : AciStatus;
  ar_data : option Value;
  ar_error : option string
}.

Definition aci_is_ok (r : AciResult) : bool := bool_decide (ar_status r = AOk).

Definition aci_ok (data : Value) : AciResult :=
  {| ar_status := AOk; ar_data := Some data; ar_error := None |}.
Definition aci_err (status : AciStatus) (text : string) : AciResult :=
  {| ar_status := status; ar_data := None; ar_error := Some text |}.

Record AstPatchResult : Type := {
  ap_offset : nat;
  ap_new_content : string;
  ap_changed : bool
}.

(** The disk and the two databases. *)
Record World : Type := {
  w_disk : Disk;
  w_toxic : ToxicDb;
  w_anchors : AnchorDb
}.

Definition set_disk (w : World) (d : Disk) : World :=
  {| w_disk := d; w_toxic := w_toxic w; w_anchors := w_anchors w |}.
Definition set_toxic (w : World) (t : ToxicDb) : World :=
  {| w_disk := w_disk w; w_toxic := t; w_anchors := w_anchors w |}.
Definition set_anchors (w : World) (a : AnchorDb) : World :=
  {| w_disk := w_disk w; w_toxic := w_toxic w; w_anchors := a |}.

(** Clock readings of one operation. *)
Record Clock : Type := { ck_check : string; ck_row : string; ck_anchor : string; ck_mark : string }.

Section Aci.
Context `{Env} (err_text : string -> string).
Context (toml_error : string -> option (option nat * string)).
Context (json_error : string -> option (Z * Z * string)).
(** [{:?}] of a string, which escapes what does not print. *)
Context (debug_str : string -> string).

(** [map_err(|e| AciError::Internal(e.to_string()))] *)
Definition internal {A} (r : result WatchdogError A) : result AciError A :=
  match r with Ok a => Ok a | Err e => Err (AInternal (watchdog_error_text e)) end.

(** ** The gates *)

(** The toxic gate, with the reason it gives. *)
Definition toxic_gate (w : World) (path reason : string) : result AciError unit :=
  if path_exists (w_disk w) path then
    let? hash := internal (hash_file err_text (w_disk w) path) in
    let? toxic := internal (is_toxic err_text (w_toxic w) hash) in
    guard? negb toxic else ToxicBlocked hash reason in
    Ok tt
  else Ok tt.

Definition safe_read (w : World) (path : string) : result AciError string :=
  let? _ := toxic_gate w path "file content is in toxic registry" in
  ok_or (read_to_string (w_disk w) path) (FileNotFound path).

(** The reality gate creates the table if need be, and an anchor if there is none. *)
Definition reality_gate (w : World) (ck : Clock) (path : string) : World * result AciError unit :=
  if path_exists (w_disk w) path then
    let '(a, r) := check err_text true (w_disk w) (anchor_ensure (w_anchors w)) (ck_check ck) path in
    (set_anchors w a,
     let? c := internal r in
     match c with
     | Diverged p expected actual => Err (RealityDiverged p expected actual)
     | _ => Ok tt
     end)
  else (w, Ok tt).

(** [if !check.is_valid() { if let Some(err) = check.to_aci_error(..) { return Err(err) } }] *)
Definition syntax_gate (content : string) (language : SyntaxLanguage) : result AciError unit :=
  let r := gate_check toml_error json_error content language in
  if is_valid r then Ok tt
  else match to_aci_error r language with
       | Some (l, m) => Err (ASyntaxError l m)
       | None => Ok tt
       end.

Definition io {A} (r : result string A) : result AciError A :=
  match r with Ok a => Ok a | Err e => Err (AIo e) end.

(** The write itself: the directory, the temporary file, the rename. *)
Definition gate_write (fl : Faults) (w : World) (path content : string)
  : World * result AciError unit :=
  let '(d, r) :=
    match path_parent path with
    | Some parent => create_dir_all err_text fl (w_disk w) parent
    | None => (w_disk w, Ok tt)
    end in
  match r with
  | Err e => (set_disk w d, Err (AIo e))
  | Ok _ =>
      let '(d, r) := replace_file err_text fl d (with_extension "_gate_tmp" path) path content in
      (set_disk w d, io r)
  end.

(** The anchor of the new content. *)
Definition gate_anchor (w : World) (ck : Clock) (path : string) (source_agent : option string)
  : World * result AciError unit :=
  let '(a, r) := anchor_file err_text (w_disk w) (anchor_ensure (w_anchors w)) (ck_row ck)
                   (ck_anchor ck) path source_agent in
  (set_anchors w a, let? _ := internal r in Ok tt).

Definition safe_write (fl : Faults) (w : World) (ck : Clock) (path new_content : string)
    (language : SyntaxLanguage) (source_agent : option string) : World * result AciError unit :=
  match toxic_gate w path "file is in toxic registry — write blocked" with
  | Err e => (w, Err e)
  | Ok _ =>
      match reality_gate w ck path with
      | (w, Err e) => (w, Err e)
      | (w, Ok _) =>
          match syntax_gate new_content language with
          | Err e => (w, Err e)
          | Ok _ =>
              match gate_write fl w path new_content with
              | (w, Err e) => (w, Err e)
              | (w, Ok _) => gate_anchor w ck path source_agent
              end
          end
      end
  end.

(** [FileOpsGate::mark_toxic], [FileOpsGate::is_toxic] *)
Definition gate_mark_toxic (w : World) (ck : Clock) (path reason : string)
  : World * result AciError string :=
  let '(t, r) := mark_file_toxic err_text (w_disk w) (w_toxic w) (ck_mark ck) path
                   (toxic_reason_parse reason) reason in
  (set_toxic w t, internal r).

Definition gate_is_toxic (w : World) (path : string) : result AciError bool :=
  if path_exists (w_disk w) path then
    let? hash := internal (hash_file err_text (w_disk w) path) in
    internal (is_toxic err_text (w_toxic w) hash)
  else Ok false.

(** ** Patches *)

(** [AstPatcher::atomic_write] *)
Definition atomic_write (fl : Faults) (w : World) (path content : string)
  : World * result AciError unit :=
  let '(d, r) := replace_file err_text fl (w_disk w) (with_extension "_aci_tmp" path) path content in
  (set_disk w d, io r).

(** The end that the patches share: the syntax gate, and a write when something changed. *)
Definition finish_patch (fl : Faults) (w : World) (path original new_content : string) (offset : nat)
    (language : string) : World * result AciError AstPatchResult :=
  match syntax_gate new_content (parse_name language) with
  | Err e => (w, Err e)
  | Ok _ =>
      let changed := negb (bool_decide (new_content = original)) in
      let patched := {| ap_offset := offset; ap_new_content := new_content; ap_changed := changed |} in
      if changed then
        let '(w, r) := atomic_write fl w path new_content in
        (w, let? _ := r in Ok patched)
      else (w, Ok patched)
  end.

Definition ambiguous_text (occurrences : nat) (path : string) : string :=
  "old_text is ambiguous (" +:+ z_to_string (Z.of_nat occurrences) +:+ " occurrences) in "
    +:+ path +:+ " — please provide more context".

Definition replace_node (fl : Faults) (w : World) (path old_text new_text language : string)
  : World * result AciError AstPatchResult :=
  match read_to_string (w_disk w) path with
  | None => (w, Err (FileNotFound path))
  | Some original =>
      let occurrences := matches_count old_text original in
      if bool_decide (occurrences = 0%nat) then
        (w, Err (PatchFailed ("old_text not found in " +:+ path)))
      else if bool_decide (1 < occurrences)%nat then
        (w, Err (PatchFailed (ambiguous_text occurrences path)))
      else
        finish_patch fl w path original (replace_first old_text new_text original)
          (default O (str_find old_text original)) language
  end.

Definition insert_after_line (fl : Faults) (w : World) (path : string) (line_number : nat)
    (content_to_insert language : string) : World * result AciError AstPatchResult :=
  match read_to_string (w_disk w) path with
  | None => (w, Err (FileNotFound path))
  | Some original =>
      let lines := str_lines original in
      let insert_at := Nat.min line_number (length lines) in
      let new_lines := take insert_at lines ++ str_lines content_to_insert ++ drop insert_at lines in
      let new_content := join_lines new_lines
                         +:+ (if ends_with_char lf original then newline else EmptyString) in
      finish_patch fl w path original new_content insert_at language
  end.

Definition delete_text_block (fl : Faults) (w : World) (path target_text language : string)
  : World * result AciError AstPatchResult :=
  replace_node fl w path target_text EmptyString language.

(** The dry run *)
Definition replace_in_memory (original old_text new_text language : string)
  : result AciError string :=
  let occurrences := matches_count old_text original in
  guard? negb (bool_decide (occurrences = 0%nat)) else PatchFailed "old_text not found" in
  guard? negb (bool_decide (1 < occurrences)%nat)
    else PatchFailed ("old_text is ambiguous (" +:+ z_to_string (Z.of_nat occurrences)
                      +:+ " occurrences)") in
  let new_content := replace_first old_text new_text original in
  let? _ := syntax_gate new_content (parse_name language) in
  Ok new_content.

(** ** The dispatcher *)

(** [format!("{:?}", result)] of a [CheckResult] *)
Definition check_debug (c : CheckResult) : string :=
  match c with
  | Consistent p h => "Consistent { path: " +:+ debug_str p +:+ ", hash: " +:+ debug_str h +:+ " }"
  | Diverged p e a => "Diverged { path: " +:+ debug_str p +:+ ", expected: " +:+ debug_str e
                        +:+ ", actual: " +:+ debug_str a +:+ " }"
  | Missing p => "Missing { path: " +:+ debug_str p +:+ " }"
  | NoAnchor p => "NoAnchor { path: " +:+ debug_str p +:+ " }"
  end.

Definition with_result {A B} (p : World * result AciError A) (f : A -> B)
  : World * result AciError B :=
  let '(w, r) := p in (w, let? a := r in Ok (f a)).

Definition patched_value (path : string) (extra : AstPatchResult -> list (string * Value))
    (r : AstPatchResult) : Value :=
  VObject ([("path", VString path); ("changed", VBool (ap_changed r))] ++ extra r).

Definition execute (fl : Faults) (w : World) (ck : Clock) (action : AciAction)
  : World * result AciError Value :=
  match action with
  | ReadFile path =>
      (w, let? content := safe_read w path in
          Ok (VObject [("path", VString path); ("content", VString content);
                       ("size", VNumber (str_len content))]))
  | WriteFile path content update_anchor =>
      let agent := if update_anchor then Some "aci-dispatcher" else None in
      with_result (safe_write fl w ck path content (path_language path) agent) (fun _ =>
        VObject [("path", VString path); ("written", VBool true);
                 ("size", VNumber (str_len content))])
  | ReplaceAstNode path old_text new_text language =>
      with_result (replace_node fl w path old_text new_text language)
        (patched_value path (fun r => [("offset", VNumber (Z.of_nat (ap_offset r)))]))
  | InsertAfterLine path line_number content language =>
      with_result (insert_after_line fl w path line_number content language)
        (patched_value path (fun _ => [("inserted_at_line", VNumber (Z.of_nat line_number))]))
  | DeleteTextBlock path target_text language =>
      with_result (delete_text_block fl w path target_text language) (patched_value path (fun _ => []))
  | SyntaxCheck path language =>
      (w, let? content := ok_or (read_to_string (w_disk w) path) (FileNotFound path) in
          Ok (VObject [("path", VString path);
                       ("valid", VBool (is_valid (gate_check toml_error json_error content
                                                    (parse_name language))));
                       ("language", VString language)]))
  | RealityCheck path =>
      let '(a, r) := check err_text true (w_disk w) (anchor_ensure (w_anchors w)) (ck_check ck) path in
      (set_anchors w a,
       let? c := internal r in
       Ok (VObject [("path", VString path); ("consistent", VBool (is_safe c));
                    ("status", VString (check_debug c))]))
  | MarkToxic path reason =>
      with_result (gate_mark_toxic w ck path reason) (fun hash =>
        VObject [("path", VString path); ("hash", VString hash); ("reason", VString reason)])
  | IsToxic path =>
      (w, let? toxic := gate_is_toxic w path in
          Ok (VObject [("path", VString path); ("is_toxic", VBool toxic)]))
  end.

Definition error_status (e : AciError) : AciStatus :=
  match e with
  | ASyntaxError _ _ => SSyntaxError
  | RealityDiverged _ _ _ => SRealityDiverged
  | ToxicBlocked _ _ => SToxicBlocked
  | FileNotFound _ => SNotFound
  | _ => SError
  end.

Definition dispatch (fl : Faults) (w : World) (ck : Clock) (action : AciAction)
  : World * AciResult :=
  let '(w, r) := execute fl w ck action in
  (w, match r with
      | Ok data => aci_ok data
      | Err e => aci_err (error_status e) (aci_error_text e)
      end).

End Aci.

(** * Theorems on the agent-computer interface *)

Section Gates.
Context `{Env} (err_text : string -> string).
Context (toml_error : string -> option (option nat * string)).
Context (json_error : string -> option (Z * Z * string)).
Context (debug_str : string -> string).

Local Abbreviation syntax_gate := (syntax_gate toml_error json_error).
Local Abbreviation safe_write := (safe_write err_text toml_error json_error).
Local Abbreviation replace_node := (replace_node err_text toml_error json_error).
Local Abbreviation dispatch := (dispatch err_text toml_error json_error debug_str).

(** The rows of the anchors, a table that was not created having none. *)
Definition anchor_rows (w : World) : gmap string AnchorRow := default ∅ (w_anchors w).

(** The digest that is recorded for a path. *)
Definition anchored (w : World) (path : string) : option string :=
  an_expected_hash <$> anchor_rows w !! path.

(** An existing file may be overwritten: its digest is not marked, and is the recorded one if
    there is one. *)
Definition may_overwrite (w : World) (path : string) : Prop :=
  path_exists (w_disk w) path = true ->
  exists old rows, files (w_disk w) !! path = Some old /\ w_toxic w = Some rows /\
    rows !! hash_bytes old = None /\
    (forall h, anchored w path = Some h -> h = hash_bytes old).

(** Two worlds that agree but for the anchors that a check created, and for [tmp]. *)
Definition same_but (tmp : string) (w w' : World) : Prop :=
  w_toxic w' = w_toxic w /\
  (forall p, p <> tmp -> files (w_disk w') !! p = files (w_disk w) !! p) /\
  (forall p h, anchored w p = Some h -> anchored w' p = Some h).

Lemma toxic_gate_ok w path reason :
  toxic_gate err_text w path reason = Ok tt <->
  (path_exists (w_disk w) path = true ->
   exists old rows, files (w_disk w) !! path = Some old /\ w_toxic w = Some rows /\
     rows !! hash_bytes old = None).
Proof.
  unfold toxic_gate. destruct (path_exists (w_disk w) path); [|naive_solver].
  unfold hash_file, read_bytes, is_toxic. destruct (files (w_disk w) !! path) as [old|]; simpl.
  - destruct (w_toxic w) as [rows|]; simpl; [|naive_solver].
    destruct (rows !! hash_bytes old) eqn:E; simpl; [naive_solver|].
    split; [|done]. intros _ _. eauto.
  - split; [done|]. intros Hx. destruct (Hx eq_refl) as (old & rows & Hf & _). done.
Qed.

(** The gate of the anchor, and that it changes no recorded digest. *)
Lemma reality_gate_spec w ck path w' r :
  reality_gate err_text w ck path = (w', r) ->
  w_disk w' = w_disk w /\ w_toxic w' = w_toxic w /\
  (forall p, p <> path -> anchored w' p = anchored w p) /\
  (forall p h, anchored w p = Some h -> anchored w' p = Some h) /\
  (forall old, files (w_disk w) !! path = Some old ->
   match anchored w path with
   | Some h => r = if bool_decide (h = hash_bytes old) then Ok tt
                   else Err (RealityDiverged path h (hash_bytes old))
   | None => r = Ok tt
   end).
Proof.
  unfold reality_gate, anchored, anchor_rows. intros Hr.
  destruct (path_exists (w_disk w) path) eqn:Ee.
  2:{ injection Hr as <- <-. repeat (split; [done|]). intros old Hf.
      unfold path_exists in Ee. by rewrite Hf in Ee. }
  destruct (files (w_disk w) !! path) as [old|] eqn:Ef.
  - unfold anchor_ensure in Hr. rewrite (check_file_spec _ _ _ _ _ _ Ef) in Hr.
    cbn [internal] in Hr. injection Hr as <- <-. cbn. split; [done|]. split; [done|].
    unfold checked_rows, check_answer.
    destruct (default ∅ (w_anchors w) !! path) as [row|] eqn:El.
    + split; [done|]. split; [done|]. intros ? [= <-]. cbn. by case_bool_decide.
    + split. { intros p Hp. by rewrite lookup_insert_ne. }
      split. { intros p h Hp. rewrite lookup_insert_ne; [done|]. intros ->. by rewrite El in Hp. }
      intros ? [= <-]. done.
  - unfold check in Hr. rewrite Ee in Hr. unfold hash_file, read_bytes in Hr. rewrite Ef in Hr.
    simpl in Hr. injection Hr as <- <-. done.
Qed.

Lemma gate_write_spec fl w path content w' r :
  gate_write err_text fl w path content = (w', r) ->
  w_toxic w' = w_toxic w /\ w_anchors w' = w_anchors w /\
  match r with
  | Ok _ => files (w_disk w')
            = <[path := content]> (delete (with_extension "_gate_tmp" path) (files (w_disk w)))
  | Err _ => forall p, p <> with_extension "_gate_tmp" path ->
             files (w_disk w') !! p = files (w_disk w) !! p
  end.
Proof.
  unfold gate_write. intros Hw.
  destruct (match path_parent path with
            | Some parent => create_dir_all err_text fl (w_disk w) parent
            | None => (w_disk w, Ok tt)
            end) as [d0 r0] eqn:Em.
  assert (Hd : files d0 = files (w_disk w)).
  { destruct (path_parent path); [|by injection Em as <- _].
    by apply create_dir_all_files in Em as [? _]. }
  destruct r0 as [[]|e]; [|injection Hw as <- <-; cbn; by rewrite Hd].
  destruct (replace_file err_text fl d0 _ path content) as [d1 r1] eqn:Er.
  apply replace_file_spec in Er as [_ Hr1]. injection Hw as <- <-. cbn.
  split; [done|]. split; [done|].
  destruct r1; cbn; [destruct Hr1 as [-> _]; by rewrite Hd|].
  intros p Hp. rewrite Hr1 by done. by rewrite Hd.
Qed.

(** Once the file is there its anchor is always recorded. *)
Lemma gate_anchor_spec w ck path agent content :
  files (w_disk w) !! path = Some content ->
  exists w', gate_anchor err_text w ck path agent = (w', Ok tt) /\
    w_disk w' = w_disk w /\ w_toxic w' = w_toxic w /\
    anchored w' path = Some (hash_bytes content) /\
    (forall p, p <> path -> anchored w' p = anchored w p).
Proof.
  intros Hf. unfold gate_anchor, anchor_file, hash_file, read_bytes. rewrite Hf. cbn.
  eexists. split; [done|]. unfold anchored, anchor_rows. cbn. rewrite lookup_insert_eq.
  repeat (split; [done|]). intros p Hp. by rewrite lookup_insert_ne.
Qed.

(** What a write that passes the gates does. *)
Definition written (w w' : World) (path content : string) : Prop :=
  files (w_disk w')
    = <[path := content]> (delete (with_extension "_gate_tmp" path) (files (w_disk w))) /\
  w_toxic w' = w_toxic w /\
  anchored w' path = Some (hash_bytes content) /\
  (forall p, p <> path -> anchored w' p = anchored w p).

(** A write either passes the three gates and stores the content with its digest, or it fails
    and leaves every file but the temporary one, the registry and the recorded digests. *)
Lemma safe_write_spec fl w ck path content language agent w' r :
  safe_write fl w ck path content language agent = (w', r) ->
  match r with
  | Ok _ => may_overwrite w path /\ syntax_gate content language = Ok tt /\
            written w w' path content
  | Err _ => same_but (with_extension "_gate_tmp" path) w w'
  end.
Proof.
  unfold Aci.safe_write. intros Hw.
  destruct (toxic_gate err_text w path _) as [[]|e] eqn:Et.
  2:{ injection Hw as <- <-. done. }
  destruct (reality_gate err_text w ck path) as [w1 [[]|e]] eqn:Er;
    apply reality_gate_spec in Er as (Hd1 & Ht1 & Hp1 & Hm1 & Hr1).
  2:{ injection Hw as <- <-. split; [done|]. split; [|done]. intros p _. by rewrite Hd1. }
  destruct (syntax_gate content language) as [[]|e] eqn:Es.
  2:{ injection Hw as <- <-. split; [done|]. split; [|done]. intros p _. by rewrite Hd1. }
  destruct (gate_write err_text fl w1 path content) as [w2 [[]|e]] eqn:Eg;
    apply gate_write_spec in Eg as (Ht2 & Ha2 & Hf2).
  2:{ injection Hw as <- <-. split; [by rewrite Ht2|]. split.
      - intros p Hp. rewrite Hf2 by done. by rewrite Hd1.
      - intros p h Hp. unfold anchored, anchor_rows. rewrite Ha2. by apply Hm1. }
  destruct (gate_anchor_spec w2 ck path agent content) as (w3 & E3 & Hd3 & Ht3 & Ha3 & Ho3).
  { rewrite Hf2. apply lookup_insert_eq. }
  rewrite E3 in Hw. injection Hw as <- <-. split; [|split; [done|]].
  - intros He. destruct (proj1 (toxic_gate_ok _ _ _) Et He) as (old & rows & Hf & Hx & Hn).
    exists old, rows. repeat (split; [done|]). intros h Hh. specialize (Hr1 old Hf).
    rewrite Hh in Hr1. by case_bool_decide.
  - split; [by rewrite Hd3, Hf2, Hd1|]. split; [congruence|]. split; [done|].
    intros p Hp. rewrite Ho3 by done. unfold anchored at 1, anchor_rows. rewrite Ha2. by apply Hp1.
Qed.

(** ** Patches *)

(** A patch that succeeds and changed the file wrote the result; it left both tables, and every
    other file but its temporary one. *)
Lemma finish_patch_spec fl w path original new_content offset language w' r :
  finish_patch err_text toml_error json_error fl w path original new_content offset language
    = (w', r) ->
  w_toxic w' = w_toxic w /\ w_anchors w' = w_anchors w /\
  (forall p, p <> path -> p <> with_extension "_aci_tmp" path ->
   files (w_disk w') !! p = files (w_disk w) !! p) /\
  forall res, r = Ok res ->
    syntax_gate new_content (parse_name language) = Ok tt /\
    ap_offset res = offset /\ ap_new_content res = new_content /\
    ap_changed res = negb (bool_decide (new_content = original)) /\
    if ap_changed res then files (w_disk w') !! path = Some new_content else w' = w.
Proof.
  unfold finish_patch. intros Hp. destruct (syntax_gate new_content _) as [[]|e] eqn:Es.
  2:{ injection Hp as <- <-. done. }
  case_bool_decide as Hc; cbn in Hp.
  { injection Hp as <- <-. split; [done|]. split; [done|]. split; [done|].
    intros res [= <-]. cbn. done. }
  unfold atomic_write in Hp.
  destruct (replace_file err_text fl (w_disk w) _ path new_content) as [d r1] eqn:Er.
  apply replace_file_spec in Er as [_ Hr1]. injection Hp as <- <-. cbn.
  split; [done|]. split; [done|]. destruct r1 as [u|e]; cbn.
  - destruct Hr1 as [-> _]. split.
    + intros p H1 H2. by rewrite lookup_insert_ne, lookup_delete_ne.
    + intros res [= <-]. cbn. rewrite lookup_insert_eq. done.
  - split; [intros p _ H2; by apply Hr1|done].
Qed.

Lemma count_from_find fuel needle s :
  count_from fuel needle s <> O -> is_Some (str_find needle s).
Proof. destruct fuel; simpl; [done|]. destruct (str_find needle s); [eauto|done]. Qed.

Lemma matches_find needle s : matches_count needle s <> O -> is_Some (str_find needle s).
Proof.
  unfold matches_count. case_bool_decide as Hn; [|apply count_from_find].
  intros _. subst needle. exists O. apply str_find_prefix. by destruct s.
Qed.

(** A replacement that succeeds found the text exactly once (occurrences that overlap count as
    one) and replaced exactly that occurrence. *)
Lemma replace_node_spec fl w path old_text new_text language w' res :
  replace_node fl w path old_text new_text language = (w', Ok res) ->
  exists p q,
    files (w_disk w) !! path = Some (p +:+ old_text +:+ q) /\
    matches_count old_text (p +:+ old_text +:+ q) = 1%nat /\
    ap_offset res = String.length p /\
    ap_new_content res = p +:+ new_text +:+ q /\
    syntax_gate (p +:+ new_text +:+ q) (parse_name language) = Ok tt /\
    w_toxic w' = w_toxic w /\ w_anchors w' = w_anchors w /\
    files (w_disk w') !! path = Some (p +:+ new_text +:+ q).
Proof.
  unfold Aci.replace_node, read_to_string. intros Hr.
  destruct (files (w_disk w) !! path) as [original|] eqn:Ef; [|done]. cbn in Hr.
  destruct (str_utf8 original); [|done].
  case_bool_decide as H0; [done|]. case_bool_decide as H1; [done|].
  destruct (matches_find _ _ H0) as [i Hi].
  destruct (replace_first_spec _ new_text _ _ Hi) as (p & q & -> & Hl & Hrep).
  apply finish_patch_spec in Hr as (Ht & Ha & _ & Hres).
  destruct (Hres res eq_refl) as (Hs & Ho & Hn & Hc & Hw).
  rewrite Hrep in *. exists p, q. rewrite Hi in Ho. cbn in Ho.
  repeat (split; [first [done|lia|congruence]|]).
  rewrite Hc in Hw. case_bool_decide as He; cbn in Hw; [|done].
  subst w'. by rewrite Ef, He.
Qed.

(** Every patch leaves the tables as they are. *)
Lemma patch_tables fl w ck action :
  match action with
  | ReplaceAstNode _ _ _ _ | InsertAfterLine _ _ _ _ | DeleteTextBlock _ _ _ => True
  | _ => False
  end ->
  w_toxic (dispatch fl w ck action).1 = w_toxic w /\
  w_anchors (dispatch fl w ck action).1 = w_anchors w.
Proof.
  assert (Hrep : forall path o n language w' r,
    replace_node fl w path o n language = (w', r) ->
    w_toxic w' = w_toxic w /\ w_anchors w' = w_anchors w).
  { unfold Aci.replace_node. intros path o n language w' r Hr.
    destruct (read_to_string (w_disk w) path); [|by injection Hr as <- _].
    case_bool_decide; [by injection Hr as <- _|]. case_bool_decide; [by injection Hr as <- _|].
    by apply finish_patch_spec in Hr as (? & ? & _). }
  unfold Aci.dispatch, execute, delete_text_block, with_result.
  destruct action as [| |path o n l|path k c l|path t l| | | |]; try done; intros _.
  - destruct (replace_node fl w path o n l) as [w' r] eqn:E. by apply Hrep in E.
  - destruct (insert_after_line err_text toml_error json_error fl w path k c l) as [w' r] eqn:E.
    unfold insert_after_line in E.
    destruct (read_to_string (w_disk w) path); [|by injection E as <- _].
    by apply finish_patch_spec in E as (? & ? & _).
  - destruct (replace_node fl w path t EmptyString l) as [w' r] eqn:E. by apply Hrep in E.
Qed.

(** ** Runs *)

(** An action, or a change of the disk from outside. *)
Inductive happening : Type :=
| Act (fl : Faults) (ck : Clock) (action : AciAction)
| Outside (d : Disk).

(** The world, and for every path the content of the last write that succeeded. *)
Definition observe (s : World * gmap string string) (h : happening) : World * gmap string string :=
  let '(w, last_write) := s in
  match h with
  | Outside d => (set_disk w d, last_write)
  | Act fl ck action =>
      let '(w', r) := dispatch fl w ck action in
      (w', match action with
           | WriteFile path content _ =>
               if aci_is_ok r then <[path := content]> last_write else last_write
           | _ => last_write
           end)
  end.

(** A write of the dispatcher is a write of the gate. *)
Lemma dispatch_write fl w ck path content update_anchor w' r :
  dispatch fl w ck (WriteFile path content update_anchor) = (w', r) ->
  exists agent r0, safe_write fl w ck path content (path_language path) agent = (w', r0) /\
    aci_is_ok r = is_ok r0 /\ (forall e, r0 = Err e -> ar_status r = error_status e).
Proof.
  unfold Aci.dispatch, execute, with_result. intros Hd.
  destruct (safe_write fl w ck path content (path_language path) _) as [w1 r1] eqn:Es.
  injection Hd as <- <-. eexists _, r1. split; [exact Es|].
  destruct r1 as [[]|e]; cbn; [done|]. split; [by destruct e|]. by intros ? [= <-].
Qed.

(** No action but a write that succeeds changes a digest that is recorded. *)
Lemma digest_kept fl w ck action w' r path h :
  dispatch fl w ck action = (w', r) ->
  (forall content u, action = WriteFile path content u -> aci_is_ok r = false) ->
  anchored w path = Some h -> anchored w' path = Some h.
Proof.
  intros Hd Hw Hh.
  assert (Hsame : w_anchors w' = w_anchors w -> anchored w' path = Some h).
  { intros Ea. unfold anchored, anchor_rows. by rewrite Ea. }
  pose proof (patch_tables fl w ck action) as Hp. rewrite Hd in Hp.
  destruct action as [p|p content u| | | |p la|p|p re|p];
    try (apply Hsame; exact (proj2 (Hp I))); try (by injection Hd as <- _).
  - apply dispatch_write in Hd as (agent & r0 & Es & Er & _). apply safe_write_spec in Es.
    destruct r0 as [[]|e]; [|by apply Es].
    destruct Es as (_ & _ & _ & _ & _ & Ho). rewrite Ho; [done|]. intros <-.
    by rewrite (Hw content u eq_refl) in Er.
  - unfold Aci.dispatch, execute in Hd. destruct (path_exists (w_disk w) p) eqn:Ee.
    + destruct (reality_gate err_text w ck p) as [w1 r1] eqn:Eg.
      pose proof Eg as Eg'. apply reality_gate_spec in Eg' as (_ & _ & _ & Hm & _).
      unfold reality_gate in Eg. rewrite Ee in Eg.
      destruct (check err_text true (w_disk w) _ (ck_check ck) p) as [a r2].
      injection Eg as <- _. injection Hd as <- _. by apply Hm.
    + unfold check in Hd. rewrite Ee in Hd. injection Hd as <- _. exact Hh.
  - unfold Aci.dispatch, execute, with_result, gate_mark_toxic in Hd.
    destruct (mark_file_toxic err_text (w_disk w) (w_toxic w) (ck_mark ck) p _ re) as [t r1].
    injection Hd as <- _. exact Hh.
Qed.

(** The recorded digest of a path that was written is that of the last content written. *)
Definition remembers (s : World * gmap string string) : Prop :=
  forall path content, s.2 !! path = Some content -> anchored s.1 path = Some (hash_bytes content).

Lemma observe_remembers s h : remembers s -> remembers (observe s h).
Proof.
  destruct s as [w l]. intros Hi. destruct h as [fl ck action|d]; [|exact Hi].
  cbn [observe]. destruct (dispatch fl w ck action) as [w' r] eqn:Ed.
  assert (Hkeep : forall p c,
    (forall content u, action = WriteFile p content u -> aci_is_ok r = false) ->
    l !! p = Some c -> anchored w' p = Some (hash_bytes c)).
  { intros p c Hn Hl. eapply digest_kept; [exact Ed|exact Hn|by apply Hi]. }
  intros p c Hp. cbn in Hp |- *. destruct action as [|path content u| | | | | | |];
    try (by apply Hkeep).
  destruct (aci_is_ok r) eqn:Er; [|by apply Hkeep].
  apply dispatch_write in Ed as (agent & r0 & Es & Er0 & _). apply safe_write_spec in Es.
  rewrite Er in Er0. destruct r0 as [[]|e]; [|done]. destruct Es as (_ & _ & _ & _ & Ha & Ho).
  destruct (decide (p = path)) as [->|Hne].
  - rewrite lookup_insert_eq in Hp. by injection Hp as <-.
  - rewrite lookup_insert_ne in Hp by done. rewrite Ho by done. by apply Hi.
Qed.


(** A patch after a write changes the file and not its anchor: every later write of the file
    is refused, whatever its content, unless the digests collide. *)
Theorem patched_file_refuses_writes fl w ck path content u w1 r1 o n language w2 r2 fl3 ck3 next u3 :
  dispatch fl w ck (WriteFile path content u) = (w1, r1) -> aci_is_ok r1 = true ->
  replace_node fl w1 path o n language = (w2, Ok r2) ->
  hash_bytes (ap_new_content r2) <> hash_bytes content ->
  w_toxic w <> None ->
  ar_status (dispatch fl3 w2 ck3 (WriteFile path next u3)).2 ∈ [SRealityDiverged; SToxicBlocked].
Proof.
  intros Hd Hok Hr Hne Ht.
  apply dispatch_write in Hd as (agent & r0 & Es & Er & _). apply safe_write_spec in Es.
  rewrite Hok in Er. destruct r0 as [[]|e]; [|done]. destruct Es as (_ & _ & _ & Ht1 & Ha & _).
  apply replace_node_spec in Hr as (p & q & _ & _ & _ & Hn & _ & Ht2 & Ha2 & Hf2).
  destruct (dispatch fl3 w2 ck3 (WriteFile path next u3)) as [w3 r3] eqn:E3.
  apply dispatch_write in E3 as (agent3 & r0 & Es & _ & Hst).
  unfold Aci.safe_write in Es. cbn [snd].
  destruct (w_toxic w) as [rows|] eqn:Ew; [|done].
  unfold toxic_gate, path_exists, hash_file, read_bytes, is_toxic in Es.
  rewrite Hf2, Ht2, Ht1 in Es. cbn in Es.
  destruct (rows !! hash_bytes (p +:+ n +:+ q)) eqn:Etx; cbn in Es.
  { injection Es as <- <-. rewrite (Hst _ eq_refl). cbn. set_solver. }
  destruct (reality_gate err_text w2 ck3 path) as [w4 r4] eqn:Eg.
  apply reality_gate_spec in Eg as (_ & _ & _ & _ & Hr4). specialize (Hr4 _ Hf2).
  assert (Haw : anchored w2 path = Some (hash_bytes content)).
  { unfold anchored, anchor_rows. rewrite Ha2. exact Ha. }
  rewrite Haw in Hr4. rewrite bool_decide_eq_false_2 in Hr4 by congruence. subst r4.
  injection Es as <- <-. rewrite (Hst _ eq_refl). cbn. set_solver.
Qed.

End Gates.

(** ** Concrete runs *)

Definition quiet_clock : Clock :=
  {| ck_check := "t1"; ck_row := "t2"; ck_anchor := "t3"; ck_mark := "t4" |}.
Definition fresh_world : World :=
  {| w_disk := {| files := ∅; dirs := ∅ |}; w_toxic := toxic_ensure None; w_anchors := None |}.
Definition no_toml (_ : string) : option (option nat * string) := None.
Definition no_json (_ : string) : option (Z * Z * string) := None.
Definition toy_text (s : string) : string := s.

Definition toy_dispatch : Faults -> World -> Clock -> AciAction -> World * AciResult :=
  dispatch (H := toy_env) toy_text no_toml no_json toy_text.

(** A write, an edit from outside, and a write that the gate refuses; then the edit is undone
    and the write passes. *)
Definition edited_story : list happening :=
  [Act no_faults quiet_clock (WriteFile "a.txt" "mine" true);
   Outside {| files := {["a.txt" := "theirs"]}; dirs := ∅ |};
   Act no_faults quiet_clock (WriteFile "a.txt" "again" true);
   Outside {| files := {["a.txt" := "mine"]}; dirs := ∅ |}].


(** The refused write of the story. *)
Example edit_blocks_write :
  map (fun n => ar_status (toy_dispatch no_faults
      (foldl (observe (H := toy_env) toy_text no_toml no_json toy_text) (fresh_world, ∅)
         (take n edited_story)).1 quiet_clock (WriteFile "a.txt" "again" true)).2) [0; 1; 2; 3; 4]%nat
  = [AOk; AOk; SRealityDiverged; SRealityDiverged; AOk].
Proof. vm_compute. reflexivity. Qed.

(** After a patch of its own the agent can no longer write the file. *)
Definition patched_story : list happening :=
  [Act no_faults quiet_clock (WriteFile "a.txt" "one two" true);
   Act no_faults quiet_clock (ReplaceAstNode "a.txt" "two" "2" "text")].

Example patch_blocks_write :
  map (fun n => ar_status (toy_dispatch no_faults
      (foldl (observe (H := toy_env) toy_text no_toml no_json toy_text) (fresh_world, ∅)
         (take n patched_story)).1 quiet_clock (WriteFile "a.txt" "three" true)).2) [1; 2]%nat
  = [AOk; SRealityDiverged].
Proof. vm_compute. reflexivity. Qed.

(** Occurrences that overlap count as one: the text to replace is found twice in the file, and
    the patch is not ambiguous. *)
Example overlapping_text_is_unique :
  replace_in_memory no_toml no_json "aaa" "aa" "b" "text" = Ok "ba".
Proof. vm_compute. reflexivity. Qed.
