(* ===== verification/Shadow.v ===== *)
(** * Background tasks ([crates/zaion-shadow/src/task.rs], [lifecycle.rs], [queue.rs],
      [command_spec.rs], [error.rs])

    The task of the background executor, its life cycle, the priority queue with its running
    set, and the allow-list of programs.  Instants are milliseconds (chrono's times are finer;
    only their differences in milliseconds and seconds are read), identifiers their texts.

    The queue refines an office that keeps the waiting tasks in order of arrival and always
    takes the first of those with the highest priority: all answers agree.  The number of
    running tasks is bounded; finished tasks are never forgotten, so that a queue that has
    finished as many tasks as its capacity refuses every later one. *)

From stdpp Require Import prelude gmap strings list sorting.
From S2P Require Import Prelude.
Local Open Scope res_scope.
Local Open Scope Z_scope.

Abbreviation TaskId := string (only parsing).

(** The variants that are raised. *)
Inductive ShadowError : Type :=
| TaskNotFound (id : string)
| ExecutorNotRunning
| QueueFull (max : nat)
| InvalidStateTransition (from to_ : string)
| InvalidIdentity (text : string).

(** ** Tasks *)

Inductive TaskStatus : Type := Queued | Running | Completed | Failed | Cancelled.

#[export] Instance task_status_eq_dec : EqDecision TaskStatus.
Proof. solve_decision. Defined.

Record TaskResult : Type := {
  tr_success : bool;
  tr_output : option string;
  tr_error : option string;
  tr_files_written : list string;
  tr_files_read : list string;
  tr_aci_operations : Z;
  tr_duration_ms : Z
}.

(** [TaskResult::default()] *)
Definition task_result_default : TaskResult :=
  {| tr_success := false; tr_output := None; tr_error := None; tr_files_written := [];
     tr_files_read := []; tr_aci_operations := 0; tr_duration_ms := 0 |}.

Record ShadowTask : Type := {
  st_id : TaskId;
  st_name : string;
  st_command : string;
  st_args : list string;
  st_working_dir : option string;
  st_env_vars : gmap string string;
  st_status : TaskStatus;
  st_created_at : Z;
  st_started_at : option Z;
  st_completed_at : option Z;
  st_result : option TaskResult;
  st_priority : Z;
  st_timeout_seconds : option Z;
  st_retry_count : Z;
  st_max_retries : Z
}.

(** [ShadowTask::new] with the identifier and the time it draws. *)
Definition task_new (id : TaskId) (now : Z) (name command : string) (args : list string)
  : ShadowTask :=
  {| st_id := id; st_name := name; st_command := command; st_args := args;
     st_working_dir := None; st_env_vars := ∅; st_status := Queued; st_created_at := now;
     st_started_at := None; st_completed_at := None; st_result := None; st_priority := 0;
     st_timeout_seconds := None; st_retry_count := 0; st_max_retries := 0 |}.

Definition with_working_dir (t : ShadowTask) (dir : string) : ShadowTask :=
  {| st_id := st_id t; st_name := st_name t; st_command := st_command t; st_args := st_args t;
     st_working_dir := Some dir; st_env_vars := st_env_vars t; st_status := st_status t;
     st_created_at := st_created_at t; st_started_at := st_started_at t;
     st_completed_at := st_completed_at t; st_result := st_result t;
     st_priority := st_priority t; st_timeout_seconds := st_timeout_seconds t;
     st_retry_count := st_retry_count t; st_max_retries := st_max_retries t |}.

Definition with_env (t : ShadowTask) (key value : string) : ShadowTask :=
  {| st_id := st_id t; st_name := st_name t; st_command := st_command t; st_args := st_args t;
     st_working_dir := st_working_dir t; st_env_vars := <[key := value]> (st_env_vars t);
     st_status := st_status t; st_created_at := st_created_at t;
     st_started_at := st_started_at t; st_completed_at := st_completed_at t;
     st_result := st_result t; st_priority := st_priority t;
     st_timeout_seconds := st_timeout_seconds t; st_retry_count := st_retry_count t;
     st_max_retries := st_max_retries t |}.

(** [with_priority], [with_timeout], [with_retries] *)
Definition with_limits (t : ShadowTask) (priority : Z) (timeout : option Z) (max_retries : Z)
  : ShadowTask :=
  {| st_id := st_id t; st_name := st_name t; st_command := st_command t; st_args := st_args t;
     st_working_dir := st_working_dir t; st_env_vars := st_env_vars t; st_status := st_status t;
     st_created_at := st_created_at t; st_started_at := st_started_at t;
     st_completed_at := st_completed_at t; st_result := st_result t; st_priority := priority;
     st_timeout_seconds := timeout; st_retry_count := st_retry_count t;
     st_max_retries := max_retries |}.

Definition with_priority (t : ShadowTask) (priority : Z) : ShadowTask :=
  with_limits t priority (st_timeout_seconds t) (st_max_retries t).
Definition with_timeout (t : ShadowTask) (seconds : Z) : ShadowTask :=
  with_limits t (st_priority t) (Some seconds) (st_max_retries t).
Definition with_retries (t : ShadowTask) (max_retries : Z) : ShadowTask :=
  with_limits t (st_priority t) (st_timeout_seconds t) max_retries.

Definition terminal (s : TaskStatus) : bool :=
  match s with Completed | Failed | Cancelled => true | Queued | Running => false end.

Definition task_is_terminal (t : ShadowTask) : bool := terminal (st_status t).

Definition can_retry (t : ShadowTask) : bool :=
  bool_decide (st_status t = Failed) && bool_decide (st_retry_count t < st_max_retries t).

(** [as u64] of a negative number of milliseconds wraps around. *)
Definition duration_ms (t : ShadowTask) : option Z :=
  match st_started_at t, st_completed_at t with
  | Some start, Some end_ => Some ((end_ - start) mod 2 ^ 64)
  | _, _ => None
  end.

(** The assignments to a task that the queue makes. *)
Definition set_progress (t : ShadowTask) (status : TaskStatus) (started completed : option Z)
    (r : option TaskResult) (retry_count : Z) : ShadowTask :=
  {| st_id := st_id t; st_name := st_name t; st_command := st_command t; st_args := st_args t;
     st_working_dir := st_working_dir t; st_env_vars := st_env_vars t; st_status := status;
     st_created_at := st_created_at t; st_started_at := started; st_completed_at := completed;
     st_result := r; st_priority := st_priority t; st_timeout_seconds := st_timeout_seconds t;
     st_retry_count := retry_count; st_max_retries := st_max_retries t |}.

Definition set_status (t : ShadowTask) (status : TaskStatus) : ShadowTask :=
  set_progress t status (st_started_at t) (st_completed_at t) (st_result t) (st_retry_count t).

(** [status = Running; started_at = Some(now)] *)
Definition mark_running (t : ShadowTask) (now : Z) : ShadowTask :=
  set_progress t Running (Some now) (st_completed_at t) (st_result t) (st_retry_count t).

(** [status = Cancelled; completed_at = Some(now)] *)
Definition mark_cancelled (t : ShadowTask) (now : Z) : ShadowTask :=
  set_progress t Cancelled (st_started_at t) (Some now) (st_result t) (st_retry_count t).

(** The status, the time and the result of the end of a run. *)
Definition mark_ended (t : ShadowTask) (now : Z) (r : TaskResult) : ShadowTask :=
  set_progress t (if tr_success r then Completed else Failed) (st_started_at t) (Some now) (Some r)
    (st_retry_count t).

(** A failed task that goes back to the queue. *)
Definition mark_retried (t : ShadowTask) : ShadowTask :=
  set_progress t Queued None None None (st_retry_count t + 1).

(** ** The life cycle *)

Inductive LifecycleState : Type :=
| LIdle | LStarting | LRunning | LPausing | LPaused | LResuming | LStopping | LStopped | LFailed.

#[export] Instance lifecycle_state_eq_dec : EqDecision LifecycleState.
Proof. solve_decision. Defined.

Inductive LifecycleEvent : Type :=
| EStart
| EPause
| EResume
| EStop
| EFail (reason : string)
| ETaskQueued (task_id : TaskId)
| ETaskStarted (task_id : TaskId)
| ETaskCompleted (task_id : TaskId) (success : bool)
| ETaskCancelled (task_id : TaskId).

Record ShadowLifecycle : Type := {
  lc_state : LifecycleState;
  lc_started_at : option Z;
  lc_last_event : option LifecycleEvent;
  lc_last_event_at : option Z;
  lc_tasks_processed : Z;
  lc_tasks_failed : Z;
  lc_uptime_seconds : Z
}.

(** [ShadowLifecycle::default()] *)
Definition lifecycle_new : ShadowLifecycle :=
  {| lc_state := LIdle; lc_started_at := None; lc_last_event := None; lc_last_event_at := None;
     lc_tasks_processed := 0; lc_tasks_failed := 0; lc_uptime_seconds := 0 |}.

(** [{:?}] of a state *)
Definition lifecycle_state_debug (s : LifecycleState) : string :=
  match s with
  | LIdle => "Idle" | LStarting => "Starting" | LRunning => "Running" | LPausing => "Pausing"
  | LPaused => "Paused" | LResuming => "Resuming" | LStopping => "Stopping"
  | LStopped => "Stopped" | LFailed => "Failed"
  end.

(** The match of [transition], in its order. *)
Definition next_state (s : LifecycleState) (e : LifecycleEvent) : option LifecycleState :=
  match s, e with
  | LIdle, EStart => Some LStarting
  | LStarting, ETaskQueued _ => Some LRunning
  | LRunning, EPause => Some LPausing
  | LPausing, _ => Some LPaused
  | LPaused, EResume => Some LResuming
  | LResuming, _ => Some LRunning
  | LRunning, EStop => Some LStopping
  | LStopping, _ => Some LStopped
  | _, EFail _ => Some LFailed
  | LRunning, ETaskStarted _ => Some LRunning
  | LRunning, ETaskCompleted _ _ => Some LRunning
  | LRunning, ETaskCancelled _ => Some LRunning
  | _, _ => None
  end.

Section Lifecycle.
(** [{:?}] of a string *)
Context (debug_str : string -> string).

Definition lifecycle_event_debug (e : LifecycleEvent) : string :=
  match e with
  | EStart => "Start" | EPause => "Pause" | EResume => "Resume" | EStop => "Stop"
  | EFail reason => "Fail { reason: " +:+ debug_str reason +:+ " }"
  | ETaskQueued id => "TaskQueued { task_id: " +:+ id +:+ " }"
  | ETaskStarted id => "TaskStarted { task_id: " +:+ id +:+ " }"
  | ETaskCompleted id success =>
      "TaskCompleted { task_id: " +:+ id +:+ ", success: "
        +:+ (if success then "true" else "false") +:+ " }"
  | ETaskCancelled id => "TaskCancelled { task_id: " +:+ id +:+ " }"
  end.

(** The clock is read for the event and again for the start.  A counter that passes the range
    of [u64] is left out of account. *)
Definition transition (lc : ShadowLifecycle) (now now2 : Z) (e : LifecycleEvent)
  : ShadowLifecycle * result ShadowError unit :=
  match next_state (lc_state lc) e with
  | None =>
      (lc, Err (InvalidStateTransition (lifecycle_state_debug (lc_state lc))
                  (lifecycle_event_debug e)))
  | Some s =>
      let counted (b : bool) : Z :=
        match lc_state lc, e with
        | LRunning, ETaskCompleted _ success => if Bool.eqb success b then 1 else 0
        | _, _ => 0
        end in
      ({| lc_state := s;
          lc_started_at :=
            match s, lc_started_at lc with
            | LStarting, None => Some now2
            | _, old => old
            end;
          lc_last_event := Some e;
          lc_last_event_at := Some now;
          lc_tasks_processed := lc_tasks_processed lc + counted true;
          lc_tasks_failed := lc_tasks_failed lc + counted false;
          lc_uptime_seconds := lc_uptime_seconds lc |}, Ok tt)
  end.

End Lifecycle.

Definition lifecycle_is_active (lc : ShadowLifecycle) : bool :=
  match lc_state lc with LStarting | LRunning | LPausing | LResuming => true | _ => false end.

Definition can_accept_tasks (lc : ShadowLifecycle) : bool :=
  bool_decide (lc_state lc = LRunning).

(** [num_seconds] truncates toward zero, [as u64] wraps. *)
Definition update_uptime (lc : ShadowLifecycle) (now : Z) : ShadowLifecycle :=
  match lc_started_at lc with
  | None => lc
  | Some started =>
      {| lc_state := lc_state lc; lc_started_at := lc_started_at lc;
         lc_last_event := lc_last_event lc; lc_last_event_at := lc_last_event_at lc;
         lc_tasks_processed := lc_tasks_processed lc; lc_tasks_failed := lc_tasks_failed lc;
         lc_uptime_seconds := Z.quot (now - started) 1000 mod 2 ^ 64 |}
  end.

(** ** The queue *)

Record QueueStats : Type := {
  qs_total_tasks : nat;
  qs_queued : nat;
  qs_running : nat;
  qs_completed : nat;
  qs_failed : nat;
  qs_cancelled : nat;
  qs_max_capacity : nat
}.

Record TaskQueue : Type := {
  q_tasks : gmap TaskId ShadowTask;
  q_queue : list TaskId;
  q_running : gmap TaskId ShadowTask;
  q_max_capacity : nat;
  q_max_concurrent : nat
}.

Definition queue_new (max_capacity max_concurrent : nat) : TaskQueue :=
  {| q_tasks := ∅; q_queue := []; q_running := ∅; q_max_capacity := max_capacity;
     q_max_concurrent := max_concurrent |}.

Definition set_queue (q : TaskQueue) (tasks : gmap TaskId ShadowTask) (queue : list TaskId)
    (running : gmap TaskId ShadowTask) : TaskQueue :=
  {| q_tasks := tasks; q_queue := queue; q_running := running;
     q_max_capacity := q_max_capacity q; q_max_concurrent := q_max_concurrent q |}.

(** [iter().position(p)] *)
Fixpoint position {A} (p : A -> bool) (l : list A) : option nat :=
  match l with
  | [] => None
  | x :: l' => if p x then Some O else S <$> position p l'
  end.

(** [VecDeque::insert] at a position within the deque, [VecDeque::remove] *)
Definition vec_insert {A} (n : nat) (x : A) (l : list A) : list A := take n l ++ x :: drop n l.
Definition vec_remove {A} (n : nat) (l : list A) : list A := take n l ++ drop (S n) l.

(** The position before the first task of lower priority. *)
Definition insert_pos (q : TaskQueue) (priority : Z) : nat :=
  default (length (q_queue q))
    (position (fun id => match q_tasks q !! id with
                         | Some t => bool_decide (st_priority t < priority)
                         | None => false
                         end) (q_queue q)).

Definition enqueue (q : TaskQueue) (task : ShadowTask) : TaskQueue * result ShadowError TaskId :=
  if bool_decide (q_max_capacity q <= size (q_tasks q))%nat then (q, Err (QueueFull (q_max_capacity q)))
  else
    let task := set_status task Queued in
    let task_id := st_id task in
    (set_queue q (<[task_id := task]> (q_tasks q))
       (vec_insert (insert_pos q (st_priority task)) task_id (q_queue q)) (q_running q),
     Ok task_id).

Definition dequeue (q : TaskQueue) (now : Z) : TaskQueue * option ShadowTask :=
  if bool_decide (q_max_concurrent q <= size (q_running q))%nat then (q, None)
  else
    match q_queue q with
    | [] => (q, None)
    | task_id :: rest =>
        match q_tasks q !! task_id with
        | None => (set_queue q (q_tasks q) rest (q_running q), None)
        | Some task =>
            let task := mark_running task now in
            (set_queue q (delete task_id (q_tasks q)) rest (<[task_id := task]> (q_running q)),
             Some task)
        end
    end.

Definition complete_task (q : TaskQueue) (now : Z) (task_id : TaskId) (r : TaskResult)
  : TaskQueue * result ShadowError unit :=
  match q_running q !! task_id with
  | None => (q, Err (TaskNotFound task_id))
  | Some task =>
      let running := delete task_id (q_running q) in
      let task := mark_ended task now r in
      if negb (tr_success r) && can_retry task then
        let task := mark_retried task in
        (set_queue q (<[task_id := task]> (q_tasks q))
           (vec_insert (insert_pos q (st_priority task)) task_id (q_queue q)) running, Ok tt)
      else (set_queue q (<[task_id := task]> (q_tasks q)) (q_queue q) running, Ok tt)
  end.

(** The second part of [cancel_task], for a task that runs. *)
Definition cancel_running (q : TaskQueue) (now : Z) (task_id : TaskId)
  : TaskQueue * result ShadowError unit :=
  match q_running q !! task_id with
  | Some task =>
      (set_queue q (<[task_id := mark_cancelled task now]> (q_tasks q)) (q_queue q)
         (delete task_id (q_running q)), Ok tt)
  | None => (q, Err (TaskNotFound task_id))
  end.

Definition cancel_task (q : TaskQueue) (now : Z) (task_id : TaskId)
  : TaskQueue * result ShadowError unit :=
  match position (fun id => bool_decide (id = task_id)) (q_queue q) with
  | Some pos =>
      let q := set_queue q (q_tasks q) (vec_remove pos (q_queue q)) (q_running q) in
      match q_tasks q !! task_id with
      | Some task =>
          (set_queue q (<[task_id := mark_cancelled task now]> (q_tasks q)) (q_queue q)
             (q_running q), Ok tt)
      | None => cancel_running q now task_id
      end
  | None => cancel_running q now task_id
  end.

Definition get_task (q : TaskQueue) (task_id : TaskId) : option ShadowTask :=
  match q_tasks q !! task_id with Some t => Some t | None => q_running q !! task_id end.

(** [list_tasks], in the order in which the two maps are visited. *)
Definition list_tasks (visit : gmap TaskId ShadowTask -> list ShadowTask) (q : TaskQueue)
  : list ShadowTask := visit (q_tasks q) ++ visit (q_running q).

Definition count_status (q : TaskQueue) (s : TaskStatus) : nat :=
  size (filter (fun kt => st_status kt.2 = s) (q_tasks q)).

Definition stats (q : TaskQueue) : QueueStats :=
  {| qs_total_tasks := size (q_tasks q) + size (q_running q);
     qs_queued := count_status q Queued;
     qs_running := size (q_running q);
     qs_completed := count_status q Completed;
     qs_failed := count_status q Failed;
     qs_cancelled := count_status q Cancelled;
     qs_max_capacity := q_max_capacity q |}.

Definition queue_is_empty (q : TaskQueue) : bool :=
  bool_decide (q_queue q = []) && bool_decide (size (q_running q) = O).

Definition can_accept_more (q : TaskQueue) : bool :=
  bool_decide (size (q_tasks q) + size (q_running q) < q_max_capacity q)%nat.

Definition has_capacity_to_run (q : TaskQueue) : bool :=
  bool_decide (size (q_running q) < q_max_concurrent q)%nat && negb (bool_decide (q_queue q = [])).

(** ** Programs *)

Record CommandSpec : Type := {
  cs_program : string;
  cs_args : list string;
  cs_env : gmap string string;
  cs_cwd : option string
}.

Abbreviation AllowList := (gset string).

(** [AllowList::from_programs], [is_allowed], [allow] *)
Definition from_programs (programs : list string) : AllowList := list_to_set programs.
Definition is_allowed (allow_list : AllowList) (program : string) : bool :=
  bool_decide (program ∈ allow_list).
Definition allow (allow_list : AllowList) (program : string) : AllowList := allow_list ∪ {[program]}.

(** The text of [ProgramNotAllowed]. *)
Definition program_not_allowed (program : string) : string :=
  "program '" +:+ program +:+ "' is not in the allow-list; execution denied".

(** [into_tokio_command]: the command that is given to the system, as its specification. *)
Definition into_tokio_command (spec : CommandSpec) (allow_list : AllowList)
  : result string CommandSpec :=
  if is_allowed allow_list (cs_program spec) then Ok spec
  else Err (program_not_allowed (cs_program spec)).

(** * Theorems on background tasks: the queue and the life cycle *)

(** ** Stable sorting *)

Lemma find_ext_in {A} (f g : A -> bool) l :
  (forall x, In x l -> f x = g x) -> List.find f l = List.find g l.
Proof.
  induction l as [|x l IH]; intros Hfg; simpl; [done|]. rewrite Hfg by (by left).
  destruct (g x); [done|]. apply IH. intros y Hy. apply Hfg. by right.
Qed.

Section Stable.
Context {A : Type} (le : A -> A -> bool).

(** After the elements that are at least as good. *)
Fixpoint insert_last (x : A) (l : list A) : list A :=
  match l with
  | [] => [x]
  | y :: l' => if le y x then y :: insert_last x l' else x :: l
  end.

Lemma vec_insert_last x l :
  vec_insert (default (length l) (position (fun y => negb (le y x)) l)) x l = insert_last x l.
Proof.
  unfold vec_insert. induction l as [|y l IH]; simpl; [done|].
  destruct (le y x); simpl; [|done]. rewrite <- IH.
  destruct (position _ l) as [n|]; simpl; done.
Qed.

Context (le_total : forall x y, le x y = false -> le y x = true)
        (le_trans : forall x y z, le x y = true -> le y z = true -> le x z = true).

Lemma sort_insert_last a x l :
  sort_insert le a (insert_last x l) = insert_last x (sort_insert le a l).
Proof.
  induction l as [|y l IH]; simpl; [by destruct (le a x)|].
  destruct (le y x) eqn:Ey; simpl.
  - destruct (le a y) eqn:Ea; simpl; [|by rewrite Ey, IH].
    by rewrite (le_trans _ _ _ Ea Ey), Ey.
  - destruct (le a x) eqn:Ea.
    + rewrite (le_trans _ _ _ Ea (le_total _ _ Ey)). simpl. by rewrite Ea, Ey.
    + destruct (le a y); simpl; [by rewrite Ea|by rewrite Ey].
Qed.

(** Sorting with a new last element is inserting it after its equals. *)
Lemma order_by_snoc l x : order_by le (l ++ [x]) = insert_last x (order_by le l).
Proof.
  induction l as [|a l IH]; simpl; [done|]. by rewrite IH, sort_insert_last.
Qed.

Lemma sort_insert_filter (P : A -> Prop) `{forall x, Decision (P x)} a l :
  StronglySorted (fun x y => le x y = true) l ->
  filter P (sort_insert le a l)
  = if decide (P a) then sort_insert le a (filter P l) else filter P l.
Proof.
  induction 1 as [|y l Hs IH Hy]; simpl.
  - rewrite filter_cons. by destruct (decide (P a)).
  - destruct (le a y) eqn:Ea.
    + rewrite (filter_cons P a). destruct (decide (P a)); [|done].
      assert (Hall : Forall (fun z => le a z = true) (filter P (y :: l))).
      { apply Forall_forall. intros z Hz. apply list_elem_of_filter in Hz as [_ Hz].
        apply elem_of_cons in Hz as [->|Hz]; [done|]. rewrite Forall_forall in Hy. eauto. }
      destruct Hall as [|z zs Hz _]; simpl; [done|]. by rewrite Hz.
    + rewrite !(filter_cons P y), IH. destruct (decide (P y)), (decide (P a)); simpl; try done.
      by rewrite Ea.
Qed.

Lemma order_by_filter (P : A -> Prop) `{forall x, Decision (P x)} l :
  filter P (order_by le l) = order_by le (filter P l).
Proof.
  induction l as [|a l IH]; [done|]. cbn [order_by foldr].
  rewrite sort_insert_filter by (by apply order_by_sorted).
  fold (order_by le l). rewrite IH, (filter_cons P a). by destruct (decide (P a)).
Qed.

Lemma le_self a : le a a = true.
Proof. destruct (le a a) eqn:E; [done|]. rewrite <- E. auto. Qed.

(** The first element of the sorted list is as good as all. *)
Lemma head_order_by_best l :
  match head (order_by le l) with
  | Some h => In h l /\ forall x, In x l -> le h x = true
  | None => l = []
  end.
Proof.
  induction l as [|a l IH]; [done|]. cbn [order_by foldr]. fold (order_by le l).
  destruct (order_by le l) as [|h t]; simpl in IH |- *.
  - subst l. split; [by left|]. intros x [->|[]]. apply le_self.
  - destruct IH as [Hin IH]. destruct (le a h) eqn:E; simpl.
    + split; [by left|]. intros x [->|Hx]; [apply le_self|]. apply (le_trans _ h); auto.
    + split; [by right|]. intros x [->|Hx]; auto.
Qed.

(** It is the first that is as good as all. *)
Lemma head_order_by l : head (order_by le l) = List.find (fun x => forallb (le x) l) l.
Proof.
  induction l as [|a l IH]; [done|]. pose proof (head_order_by_best l) as Hb.
  cbn [order_by foldr List.find forallb]. fold (order_by le l). rewrite le_self. cbn [andb].
  destruct (order_by le l) as [|h t]; simpl in Hb, IH |- *; [by subst l|].
  destruct Hb as [Hh Hb]. destruct (le a h) eqn:E; simpl.
  - assert (forallb (le a) l = true) as ->; [|done].
    apply forallb_forall. intros x Hx. apply (le_trans _ h); auto.
  - assert (forallb (le a) l = false) as ->.
    { destruct (forallb (le a) l) eqn:Ef; [|done].
      by rewrite (proj1 (forallb_forall _ _) Ef h Hh) in E. }
    rewrite IH. apply find_ext_in. intros x Hx.
    destruct (forallb (le x) l) eqn:Ex; [|by rewrite andb_false_r].
    rewrite andb_true_r. symmetry. apply (le_trans _ h); [|by apply le_total].
    by apply (proj1 (forallb_forall _ _) Ex).
Qed.

End Stable.

(** ** The office *)

(** The waiting tasks in order of arrival, those at work, and those that are finished. *)
Record Office : Type := {
  waiting : list ShadowTask;
  at_work : gmap TaskId ShadowTask;
  finished : gmap TaskId ShadowTask
}.

Definition empty_office : Office := {| waiting := []; at_work := ∅; finished := ∅ |}.

(** [x] is at least as urgent as [y]. *)
Definition urgent (x y : ShadowTask) : bool := bool_decide (st_priority y <= st_priority x).

(** The first to arrive among the most urgent. *)
Definition next_task (l : list ShadowTask) : option ShadowTask :=
  List.find (fun t => forallb (urgent t) l) l.

Definition without (id : TaskId) (l : list ShadowTask) : list ShadowTask :=
  filter (fun t => st_id t <> id) l.

Inductive queue_op : Type :=
| OEnqueue (t : ShadowTask)
| ODequeue (now : Z)
| OComplete (now : Z) (id : TaskId) (r : TaskResult)
| OCancel (now : Z) (id : TaskId).

Inductive answer : Type :=
| AEnqueued (r : result ShadowError TaskId)
| ATaken (t : option ShadowTask)
| ADone (r : result ShadowError unit).

Definition queue_run (q : TaskQueue) (o : queue_op) : TaskQueue * answer :=
  match o with
  | OEnqueue t => let '(q, r) := enqueue q t in (q, AEnqueued r)
  | ODequeue now => let '(q, r) := dequeue q now in (q, ATaken r)
  | OComplete now id r => let '(q, r) := complete_task q now id r in (q, ADone r)
  | OCancel now id => let '(q, r) := cancel_task q now id in (q, ADone r)
  end.

Section Office.
Context (capacity concurrent : nat).

(** A task that ends goes to the finished ones, or waits again if it failed and may retry. *)
Definition office_end (o : Office) (id : TaskId) (t : ShadowTask) : Office :=
  if bool_decide (st_status t = Queued)
  then {| waiting := waiting o ++ [t]; at_work := delete id (at_work o); finished := finished o |}
  else {| waiting := waiting o; at_work := delete id (at_work o);
          finished := <[id := t]> (finished o) |}.

Definition office_run (o : Office) (op : queue_op) : Office * answer :=
  match op with
  | OEnqueue t =>
      if bool_decide (capacity <= length (waiting o) + size (finished o))%nat
      then (o, AEnqueued (Err (QueueFull capacity)))
      else ({| waiting := waiting o ++ [set_status t Queued]; at_work := at_work o;
               finished := finished o |}, AEnqueued (Ok (st_id t)))
  | ODequeue now =>
      if bool_decide (concurrent <= size (at_work o))%nat then (o, ATaken None)
      else match next_task (waiting o) with
           | None => (o, ATaken None)
           | Some t =>
               let t' := mark_running t now in
               ({| waiting := without (st_id t) (waiting o);
                   at_work := <[st_id t := t']> (at_work o); finished := finished o |},
                ATaken (Some t'))
           end
  | OComplete now id r =>
      match at_work o !! id with
      | None => (o, ADone (Err (TaskNotFound id)))
      | Some t =>
          let t := mark_ended t now r in
          (office_end o id (if negb (tr_success r) && can_retry t then mark_retried t else t),
           ADone (Ok tt))
      end
  | OCancel now id =>
      match List.find (fun t => bool_decide (st_id t = id)) (waiting o) with
      | Some t =>
          ({| waiting := without id (waiting o); at_work := at_work o;
              finished := <[id := mark_cancelled t now]> (finished o) |}, ADone (Ok tt))
      | None =>
          match at_work o !! id with
          | Some t => (office_end o id (mark_cancelled t now), ADone (Ok tt))
          | None => (o, ADone (Err (TaskNotFound id)))
          end
      end
  end.

(** ** The relation *)

Definition by_id (l : list ShadowTask) : gmap TaskId ShadowTask :=
  list_to_map ((fun t => (st_id t, t)) <$> l).
#[local] Arguments by_id : simpl never.

Record office_rel (q : TaskQueue) (o : Office) : Prop := {
  rel_capacity : q_max_capacity q = capacity;
  rel_concurrent : q_max_concurrent q = concurrent;
  rel_queue : q_queue q = st_id <$> order_by urgent (waiting o);
  rel_tasks : q_tasks q = by_id (waiting o) ∪ finished o;
  rel_running : q_running q = at_work o;
  rel_nodup : NoDup (st_id <$> waiting o);
  rel_waiting : forall t, t ∈ waiting o -> at_work o !! st_id t = None /\ finished o !! st_id t = None;
  rel_work : forall id t, at_work o !! id = Some t -> st_id t = id /\ finished o !! id = None
}.

Lemma by_id_keys l : ((fun t => (st_id t, t)) <$> l).*1 = st_id <$> l.
Proof. by rewrite <- list_fmap_compose. Qed.

Lemma by_id_None l id : by_id l !! id = None <-> id ∉ st_id <$> l.
Proof. unfold by_id. by rewrite <- not_elem_of_list_to_map, by_id_keys. Qed.

Lemma by_id_Some l id t : NoDup (st_id <$> l) -> by_id l !! id = Some t <-> t ∈ l /\ st_id t = id.
Proof.
  intros Hn. unfold by_id. rewrite <- elem_of_list_to_map by (by rewrite by_id_keys).
  rewrite list_elem_of_fmap. split; [by intros (? & [= -> ->] & ?)|intros [? <-]; eauto].
Qed.

Lemma by_id_cons t l : by_id (t :: l) = <[st_id t := t]> (by_id l).
Proof. done. Qed.

Lemma by_id_snoc l t :
  st_id t ∉ st_id <$> l -> by_id (l ++ [t]) = <[st_id t := t]> (by_id l).
Proof.
  induction l as [|u l IH]; intros Hn; [done|]. cbn in Hn.
  apply not_elem_of_cons in Hn as [Hu Hn].
  cbn [app]. rewrite !by_id_cons, (IH Hn). by apply insert_insert_ne.
Qed.

Lemma by_id_without l id : by_id (without id l) = delete id (by_id l).
Proof.
  unfold without. induction l as [|t l IH]; [symmetry; apply delete_empty|].
  rewrite filter_cons, by_id_cons. case_decide as Hd.
  - by rewrite by_id_cons, IH, delete_insert_ne.
  - subst id. by rewrite IH, delete_insert_eq.
Qed.

Lemma by_id_size l : NoDup (st_id <$> l) -> size (by_id l) = length l.
Proof.
  induction l as [|t l IH]; intros Hn; [done|]. cbn in Hn. apply NoDup_cons in Hn as [Ht Hn].
  rewrite by_id_cons, map_size_insert_None by (by apply by_id_None). simpl. by rewrite IH.
Qed.

Lemma without_fresh l id : id ∉ st_id <$> l -> without id l = l.
Proof.
  intros Hn. apply filter_every. intros t Ht <-. apply Hn. by apply list_elem_of_fmap_2.
Qed.

Lemma without_ids l id : st_id <$> without id l = filter (fun i => i <> id) (st_id <$> l).
Proof.
  unfold without. induction l as [|t l IH]; [done|]. rewrite fmap_cons, !filter_cons.
  case_decide; rewrite ?fmap_cons; by rewrite IH.
Qed.

(** ** Positions *)

Lemma position_fmap {A B} (f : A -> B) p l : position p (f <$> l) = position (fun x => p (f x)) l.
Proof.
  induction l as [|x l IH]; [done|]. rewrite fmap_cons. cbn [position]. by rewrite IH.
Qed.

Lemma position_ext {A} (p r : A -> bool) l :
  (forall x, x ∈ l -> p x = r x) -> position p l = position r l.
Proof.
  induction l as [|x l IH]; intros Hx; [done|]. simpl. rewrite Hx by set_solver.
  destruct (r x); [done|]. f_equal. apply IH. set_solver.
Qed.

Lemma vec_insert_fmap {A B} (f : A -> B) n x l :
  vec_insert n (f x) (f <$> l) = f <$> vec_insert n x l.
Proof. unfold vec_insert. by rewrite fmap_app, fmap_cons, fmap_take, fmap_drop. Qed.

(** Removing the only occurrence of an element. *)
Lemma vec_remove_position id (l : list TaskId) :
  NoDup l ->
  match position (fun i => bool_decide (i = id)) l with
  | Some n => id ∈ l /\ vec_remove n l = filter (fun i => i <> id) l
  | None => id ∉ l
  end.
Proof.
  unfold vec_remove. induction 1 as [|x l Hx Hn IH]; simpl; [set_solver|].
  case_bool_decide as He; simpl.
  - subst x. split; [set_solver|]. rewrite filter_cons_False by tauto.
    symmetry. apply filter_every. intros y Hy ->. done.
  - destruct (position _ l) as [n|]; simpl; [|set_solver].
    destruct IH as [IH1 IH2]. split; [set_solver|]. rewrite filter_cons_True by done.
    by rewrite IH2.
Qed.

(** ** Keeping the relation *)

Lemma urgent_total x y : urgent x y = false -> urgent y x = true.
Proof. unfold urgent. rewrite bool_decide_eq_false, bool_decide_eq_true. lia. Qed.

Lemma urgent_trans x y z : urgent x y = true -> urgent y z = true -> urgent x z = true.
Proof. unfold urgent. rewrite !bool_decide_eq_true. lia. Qed.

Lemma rel_lookup_waiting q o t : office_rel q o -> t ∈ waiting o -> q_tasks q !! st_id t = Some t.
Proof.
  intros Hr Ht. rewrite (rel_tasks _ _ Hr). apply lookup_union_Some_l.
  apply by_id_Some; [apply Hr|done].
Qed.

Lemma rel_disjoint q o : office_rel q o -> by_id (waiting o) ##ₘ finished o.
Proof.
  intros Hr. apply map_disjoint_spec. intros id t u Ht Hu.
  apply by_id_Some in Ht as [Ht <-]; [|apply Hr].
  destruct (rel_waiting _ _ Hr t Ht) as [_ Hf]. congruence.
Qed.

Lemma rel_size q o : office_rel q o -> size (q_tasks q) = (length (waiting o) + size (finished o))%nat.
Proof.
  intros Hr. rewrite (rel_tasks _ _ Hr), map_size_disj_union by (by eapply rel_disjoint).
  by rewrite by_id_size by apply Hr.
Qed.

Lemma rel_queue_nodup q o : office_rel q o -> NoDup (q_queue q).
Proof. intros Hr. rewrite (rel_queue _ _ Hr), (order_by_perm urgent). apply Hr. Qed.

(** The insertion by priority is the end of the order of arrival. *)
Lemma rel_insert q o t :
  office_rel q o ->
  vec_insert (insert_pos q (st_priority t)) (st_id t) (q_queue q)
  = st_id <$> order_by urgent (waiting o ++ [t]).
Proof.
  intros Hr. rewrite order_by_snoc by (apply urgent_total || apply urgent_trans).
  unfold insert_pos. rewrite (rel_queue _ _ Hr), length_fmap, position_fmap.
  rewrite vec_insert_fmap. f_equal. rewrite <- vec_insert_last. do 2 f_equal.
  apply position_ext. intros x Hx. apply elem_of_order_by in Hx.
  rewrite (rel_lookup_waiting _ _ _ Hr Hx). unfold urgent.
  rewrite <- bool_decide_not. apply bool_decide_ext. lia.
Qed.

(** A task that is nowhere joins the waiting ones. *)
Lemma rel_join q o t :
  office_rel q o ->
  st_id t ∉ st_id <$> waiting o -> at_work o !! st_id t = None -> finished o !! st_id t = None ->
  office_rel
    (set_queue q (<[st_id t := t]> (q_tasks q))
       (vec_insert (insert_pos q (st_priority t)) (st_id t) (q_queue q)) (q_running q))
    {| waiting := waiting o ++ [t]; at_work := at_work o; finished := finished o |}.
Proof.
  intros Hr Hw Ha Hf. rewrite (rel_insert _ _ _ Hr).
  destruct Hr as [Hc Hn Hq Ht Hrun Hnd Hwait Hwork]. constructor; cbn; try done.
  - by rewrite Ht, by_id_snoc, insert_union_l.
  - rewrite fmap_app. apply NoDup_app. split; [done|]. split; [|apply NoDup_singleton].
    intros x Hx Hx'. apply list_elem_of_singleton in Hx'. by subst x.
  - intros u Hu. apply elem_of_app in Hu as [Hu|Hu]; [by apply Hwait|].
    apply list_elem_of_singleton in Hu as ->. done.
Qed.

(** A waiting task leaves. *)
Lemma rel_leave q o t :
  office_rel q o -> t ∈ waiting o ->
  office_rel
    (set_queue q (delete (st_id t) (q_tasks q)) (filter (fun i => i <> st_id t) (q_queue q))
       (q_running q))
    {| waiting := without (st_id t) (waiting o); at_work := at_work o; finished := finished o |}.
Proof.
  intros Hr Hin. pose proof (rel_waiting _ _ Hr t Hin) as [_ Hf].
  destruct Hr as [Hc Hn Hq Ht Hrun Hnd Hwait Hwork]. constructor; cbn; try done.
  - rewrite Hq, <- without_ids. unfold without. f_equal.
    apply order_by_filter; [apply urgent_total|apply urgent_trans].
  - rewrite Ht, by_id_without, delete_union. f_equal. by apply delete_id.
  - rewrite without_ids. by apply NoDup_filter.
  - intros u Hu. apply list_elem_of_filter in Hu as [_ Hu]. by apply Hwait.
Qed.

(** A task stops work. *)
Lemma rel_stop q o id :
  office_rel q o ->
  office_rel (set_queue q (q_tasks q) (q_queue q) (delete id (q_running q)))
    {| waiting := waiting o; at_work := delete id (at_work o); finished := finished o |}.
Proof.
  intros [Hc Hn Hq Ht Hrun Hnd Hwait Hwork]. constructor; cbn; try done.
  - by rewrite Hrun.
  - intros u Hu. rewrite lookup_delete_None. naive_solver.
  - intros i t Hi. apply lookup_delete_Some in Hi as [_ Hi]. by apply Hwork.
Qed.

(** A task that is nowhere starts work. *)
Lemma rel_start q o t :
  office_rel q o -> st_id t ∉ st_id <$> waiting o -> finished o !! st_id t = None ->
  office_rel (set_queue q (q_tasks q) (q_queue q) (<[st_id t := t]> (q_running q)))
    {| waiting := waiting o; at_work := <[st_id t := t]> (at_work o); finished := finished o |}.
Proof.
  intros [Hc Hn Hq Ht Hrun Hnd Hwait Hwork] Hw Hf. constructor; cbn; try done.
  - by rewrite Hrun.
  - intros u Hu. rewrite lookup_insert_ne; [by apply Hwait|]. intros He. apply Hw. rewrite He.
    by apply list_elem_of_fmap_2.
  - intros i u Hi. apply lookup_insert_Some in Hi as [[<- <-]|[_ Hi]]; [done|by apply Hwork].
Qed.

(** A task that is nowhere is finished. *)
Lemma rel_finish q o id t :
  office_rel q o -> id ∉ st_id <$> waiting o -> at_work o !! id = None ->
  office_rel (set_queue q (<[id := t]> (q_tasks q)) (q_queue q) (q_running q))
    {| waiting := waiting o; at_work := at_work o; finished := <[id := t]> (finished o) |}.
Proof.
  intros [Hc Hn Hq Ht Hrun Hnd Hwait Hwork] Hw Ha. constructor; cbn; try done.
  - rewrite Ht. apply insert_union_r. by apply by_id_None.
  - intros u Hu. rewrite lookup_insert_ne; [by apply Hwait|]. intros ->. apply Hw.
    by apply list_elem_of_fmap_2.
  - intros i u Hi. rewrite lookup_insert_ne; [by apply Hwork|]. intros ->. congruence.
Qed.

(** The task that the office takes is the head of the queue. *)
Lemma rel_head q o :
  office_rel q o ->
  match q_queue q with
  | [] => next_task (waiting o) = None
  | id :: rest =>
      exists t, next_task (waiting o) = Some t /\ t ∈ waiting o /\ st_id t = id /\
        rest = filter (fun i => i <> id) (q_queue q)
  end.
Proof.
  intros Hr. pose proof (rel_queue_nodup _ _ Hr) as Hn. rewrite (rel_queue _ _ Hr) in Hn |- *.
  unfold next_task. rewrite <- head_order_by by (apply urgent_total || apply urgent_trans).
  destruct (order_by urgent (waiting o)) as [|t l] eqn:Eo; [done|]. rewrite fmap_cons in Hn |- *.
  exists t. split; [done|]. split.
  { apply (elem_of_order_by urgent). rewrite Eo. set_solver. }
  split; [done|]. rewrite filter_cons_False by tauto. apply NoDup_cons in Hn as [Hn _].
  symmetry. apply filter_every. intros y Hy ->. done.
Qed.

Lemma find_waiting q o id :
  office_rel q o ->
  match List.find (fun t => bool_decide (st_id t = id)) (waiting o) with
  | Some t => t ∈ waiting o /\ st_id t = id
  | None => id ∉ st_id <$> waiting o
  end.
Proof.
  intros Hr. destruct (List.find _ (waiting o)) as [t|] eqn:Ef.
  - apply find_some in Ef as [Ht Hid]. rewrite bool_decide_eq_true in Hid.
    split; [by apply list_elem_of_In|done].
  - intros Hid. apply list_elem_of_fmap in Hid as (t & -> & Ht). apply list_elem_of_In in Ht.
    apply (find_none _ _ Ef) in Ht. by rewrite bool_decide_eq_false in Ht.
Qed.

(** A task at work is neither waiting nor finished. *)
Lemma rel_at_work q o id t :
  office_rel q o -> at_work o !! id = Some t ->
  st_id t = id /\ finished o !! id = None /\ id ∉ st_id <$> waiting o.
Proof.
  intros Hr Ht. destruct (rel_work _ _ Hr _ _ Ht) as [<- Hf]. repeat (split; [done|]).
  intros Hw. apply list_elem_of_fmap in Hw as (u & Hu & Hin).
  destruct (rel_waiting _ _ Hr u Hin). congruence.
Qed.

Lemma rel_complete q o now id r :
  office_rel q o ->
  exists q' o' a, queue_run q (OComplete now id r) = (q', a) /\
    office_run o (OComplete now id r) = (o', a) /\ office_rel q' o'.
Proof.
  intros Hr. unfold queue_run, complete_task, office_run. rewrite (rel_running _ _ Hr).
  destruct (at_work o !! id) as [t|] eqn:Ea; [|by eexists _, _, _].
  destruct (rel_at_work _ _ _ _ Hr Ea) as (Hid & Hf & Hw).
  pose proof (rel_stop _ _ id Hr) as Hs. rewrite (rel_running _ _ Hr) in Hs.
  unfold office_end. destruct (negb (tr_success r) && can_retry (mark_ended t now r)).
  - rewrite bool_decide_eq_true_2 by done. eexists _, _, _. split; [done|]. split; [done|].
    subst id. apply (rel_join _ _ (mark_retried (mark_ended t now r)) Hs); cbn; [done| |done].
    apply lookup_delete_eq.
  - rewrite bool_decide_eq_false_2 by (simpl; by destruct (tr_success r)).
    eexists _, _, _. split; [done|]. split; [done|].
    apply (rel_finish _ _ id _ Hs); cbn; [done|]. apply lookup_delete_eq.
Qed.

Lemma rel_cancel_running q o now id :
  office_rel q o -> id ∉ st_id <$> waiting o ->
  exists q' o' r, cancel_running q now id = (q', r) /\
    office_run o (OCancel now id) = (o', ADone r) /\ office_rel q' o'.
Proof.
  intros Hr Hw. unfold office_run. pose proof (find_waiting _ _ id Hr) as Hfind.
  destruct (List.find _ (waiting o)) as [t|].
  { destruct Hfind as [Ht <-]. exfalso. apply Hw. by apply list_elem_of_fmap_2. }
  unfold cancel_running. rewrite (rel_running _ _ Hr).
  destruct (at_work o !! id) as [t|] eqn:Ea; [|by eexists _, _, _].
  eexists _, _, _. split; [done|]. split; [done|].
  pose proof (rel_stop _ _ id Hr) as Hs. rewrite (rel_running _ _ Hr) in Hs.
  apply (rel_finish _ _ id (mark_cancelled t now) Hs); cbn; [done|]. apply lookup_delete_eq.
Qed.

Lemma rel_cancel q o now id :
  office_rel q o ->
  exists q' o' a, queue_run q (OCancel now id) = (q', a) /\
    office_run o (OCancel now id) = (o', a) /\ office_rel q' o'.
Proof.
  intros Hr. unfold queue_run, cancel_task.
  pose proof (vec_remove_position id _ (rel_queue_nodup _ _ Hr)) as Hp.
  assert (Hids : id ∈ q_queue q <-> id ∈ st_id <$> waiting o).
  { by rewrite (rel_queue _ _ Hr), (order_by_perm urgent). }
  destruct (position _ (q_queue q)) as [n|].
  - destruct Hp as [Hin Hrem]. apply Hids in Hin. pose proof (find_waiting _ _ id Hr) as Hfind.
    unfold office_run. destruct (List.find _ (waiting o)) as [t|]; [|done].
    destruct Hfind as [Ht <-]. cbn [q_tasks set_queue].
    rewrite (rel_lookup_waiting _ _ _ Hr Ht). eexists _, _, _. split; [done|]. split; [done|].
    pose proof (rel_finish _ _ (st_id t) (mark_cancelled t now) (rel_leave _ _ t Hr Ht)) as Hs.
    unfold set_queue in *. cbn in *. rewrite insert_delete_eq in Hs. rewrite Hrem. apply Hs.
    + rewrite without_ids, list_elem_of_filter. tauto.
    + by apply (rel_waiting _ _ Hr).
  - destruct (rel_cancel_running _ _ now id Hr) as (q' & o' & r & E1 & E2 & E3).
    { by rewrite <- Hids. }
    rewrite E1. by exists q', o', (ADone r).
Qed.

Lemma rel_enqueue q o t :
  office_rel q o ->
  st_id t ∉ st_id <$> waiting o -> at_work o !! st_id t = None -> finished o !! st_id t = None ->
  exists q' o' a, queue_run q (OEnqueue t) = (q', a) /\
    office_run o (OEnqueue t) = (o', a) /\ office_rel q' o'.
Proof.
  intros Hr Hw Ha Hf. unfold queue_run, enqueue, office_run.
  rewrite (rel_size _ _ Hr), (rel_capacity _ _ Hr). case_bool_decide; [by eexists _, _, _|].
  eexists _, _, _. split; [done|]. split; [done|]. by apply (rel_join _ _ (set_status t Queued) Hr).
Qed.

Lemma rel_dequeue q o now :
  office_rel q o ->
  exists q' o' a, queue_run q (ODequeue now) = (q', a) /\
    office_run o (ODequeue now) = (o', a) /\ office_rel q' o'.
Proof.
  intros Hr. unfold queue_run, dequeue, office_run.
  rewrite (rel_running _ _ Hr), (rel_concurrent _ _ Hr).
  case_bool_decide; [by eexists _, _, _|]. pose proof (rel_head _ _ Hr) as Hh.
  destruct (q_queue q) as [|id rest] eqn:Eq; [rewrite Hh; by eexists _, _, _|].
  destruct Hh as (t & Hn & Ht & <- & Hrest). rewrite Hn, (rel_lookup_waiting _ _ _ Hr Ht).
  eexists _, _, _. split; [done|]. split; [done|].
  pose proof (rel_start _ _ (mark_running t now) (rel_leave _ _ t Hr Ht)) as Hs.
  rewrite Eq, <- Hrest in Hs. unfold set_queue in *. cbn in Hs |- *.
  rewrite (rel_running _ _ Hr) in Hs. apply Hs.
  - rewrite without_ids, list_elem_of_filter. tauto.
  - by apply (rel_waiting _ _ Hr).
Qed.

(** ** Sequences *)

Fixpoint run_all {S} (step : S -> queue_op -> S * answer) (s : S) (ops : list queue_op)
  : S * list answer :=
  match ops with
  | [] => (s, [])
  | op :: ops' =>
      let '(s, a) := step s op in
      let '(s, l) := run_all step s ops' in (s, a :: l)
  end.

(** The identifiers of the tasks that are submitted. *)
Definition submitted (ops : list queue_op) : list TaskId :=
  omap (fun op => match op with OEnqueue t => Some (st_id t) | _ => None end) ops.

(** The identifiers that the office knows. *)
Definition known (o : Office) (id : TaskId) : Prop :=
  id ∈ st_id <$> waiting o \/ is_Some (at_work o !! id) \/ is_Some (finished o !! id).

Lemma known_end o id t i :
  st_id t = id -> known (office_end o id t) i -> i = id \/ known o i.
Proof.
  intros Hid. unfold office_end, known. case_bool_decide; cbn.
  - rewrite fmap_app, elem_of_app. cbn. rewrite list_elem_of_singleton, lookup_delete_is_Some.
    naive_solver.
  - rewrite lookup_delete_is_Some, lookup_insert_is_Some. naive_solver.
Qed.

Lemma known_step q o op i :
  office_rel q o -> known (office_run o op).1 i ->
  known o i \/ exists t, op = OEnqueue t /\ i = st_id t.
Proof.
  intros Hr. destruct op as [t|now|now id r|now id]; cbn [office_run].
  - case_bool_decide; [by left|]. unfold known. cbn.
    rewrite fmap_app, elem_of_app. cbn. rewrite list_elem_of_singleton. naive_solver.
  - case_bool_decide; [by left|]. pose proof (rel_head _ _ Hr) as Hh.
    destruct (next_task (waiting o)) as [t|]; [|by left]. destruct (q_queue q); [done|].
    destruct Hh as (t' & [= <-] & Ht & _). unfold known. cbn.
    rewrite without_ids, list_elem_of_filter, lookup_insert_is_Some.
    apply (list_elem_of_fmap_2 st_id) in Ht. naive_solver.
  - destruct (at_work o !! id) as [t|] eqn:Ea; [|by left].
    destruct (rel_at_work _ _ _ _ Hr Ea) as (Hid & _).
    intros Hk. apply known_end in Hk as [->|Hk]; [left; right; left; eauto|by left|].
    by destruct (negb _ && _).
  - pose proof (find_waiting _ _ id Hr) as Hf. destruct (List.find _ (waiting o)) as [t|].
    + destruct Hf as [Ht <-]. apply (list_elem_of_fmap_2 st_id) in Ht. unfold known. cbn.
      rewrite without_ids, list_elem_of_filter, lookup_insert_is_Some. naive_solver.
    + destruct (at_work o !! id) as [t|] eqn:Ea; [|by left].
      destruct (rel_at_work _ _ _ _ Hr Ea) as (Hid & _).
      intros Hk. apply known_end in Hk as [->|Hk]; [left; right; left; eauto|by left|done].
Qed.

Lemma rel_step q o op :
  office_rel q o -> (forall t, op = OEnqueue t -> ~ known o (st_id t)) ->
  exists q' o' a, queue_run q op = (q', a) /\ office_run o op = (o', a) /\ office_rel q' o'.
Proof.
  intros Hr Hf. destruct op as [t|now|now id r|now id];
    [|by apply rel_dequeue|by apply rel_complete|by apply rel_cancel].
  specialize (Hf t eq_refl). unfold known in Hf.
  apply rel_enqueue; [done|..].
  - tauto.
  - apply eq_None_not_Some. tauto.
  - apply eq_None_not_Some. tauto.
Qed.

(** ** What the office keeps *)

Record office_ok (o : Office) : Prop := {
  ok_waiting : forall t, t ∈ waiting o -> st_status t = Queued;
  ok_work : forall id t, at_work o !! id = Some t -> st_status t = Running;
  ok_finished : forall id t, finished o !! id = Some t -> task_is_terminal t = true;
  ok_concurrent : (size (at_work o) <= concurrent)%nat;
  ok_total : (length (waiting o) + size (finished o) + size (at_work o) <= capacity + concurrent)%nat
}.

Lemma ok_end q o id t u :
  office_rel q o -> office_ok o -> at_work o !! id = Some u ->
  (st_status t = Queued \/ task_is_terminal t = true) -> office_ok (office_end o id t).
Proof.
  intros Hr [Hw Ha Hf Hc Ht] Hu Hs.
  assert (Hsz : size (at_work o) = S (size (delete id (at_work o)))).
  { rewrite map_size_delete_Some by eauto. assert (size (at_work o) <> O); [|lia].
    apply map_size_ne_0_lookup. eauto. }
  destruct (rel_at_work _ _ _ _ Hr Hu) as (_ & Hnf & _).
  unfold office_end. case_bool_decide as Hq; constructor; cbn; try done.
  - intros v Hv. apply elem_of_app in Hv as [Hv|Hv]; [by apply Hw|].
    by apply list_elem_of_singleton in Hv as ->.
  - intros i v Hv. apply lookup_delete_Some in Hv as [_ Hv]. by eapply Ha.
  - lia.
  - rewrite length_app. cbn. lia.
  - intros i v Hv. apply lookup_delete_Some in Hv as [_ Hv]. by eapply Ha.
  - intros i v Hv. apply lookup_insert_Some in Hv as [[_ <-]|[_ Hv]]; [by destruct Hs|by eapply Hf].
  - lia.
  - rewrite map_size_insert_None by done. lia.
Qed.

Lemma length_without l t : NoDup (st_id <$> l) -> t ∈ l -> length l = S (length (without (st_id t) l)).
Proof.
  intros Hn Ht. rewrite <- (by_id_size l Hn), <- (by_id_size (without (st_id t) l)).
  - rewrite by_id_without, map_size_delete_Some.
    + assert (size (by_id l) <> O); [|lia]. apply map_size_ne_0_lookup.
      exists (st_id t), t. by apply by_id_Some.
    + exists t. by apply by_id_Some.
  - rewrite without_ids. by apply NoDup_filter.
Qed.

Lemma ok_step q o op : office_rel q o -> office_ok o -> office_ok (office_run o op).1.
Proof.
  intros Hr Hok. pose proof Hok as [Hw Ha Hf Hc Ht].
  destruct op as [t|now|now id r|now id]; cbn [office_run].
  - case_bool_decide; [done|]. constructor; cbn; try done.
    + intros v Hv. apply elem_of_app in Hv as [Hv|Hv]; [by apply Hw|].
      by apply list_elem_of_singleton in Hv as ->.
    + rewrite length_app. cbn. lia.
  - case_bool_decide; [done|]. pose proof (rel_head _ _ Hr) as Hh.
    destruct (next_task (waiting o)) as [t|]; [|done]. destruct (q_queue q); [done|].
    destruct Hh as (t' & [= <-] & Hin & _). destruct (rel_waiting _ _ Hr t Hin) as [Hnone _].
    pose proof (length_without _ _ (rel_nodup _ _ Hr) Hin).
    constructor; cbn; try done.
    + intros v Hv. apply list_elem_of_filter in Hv as [_ Hv]. by apply Hw.
    + intros i v Hv. apply lookup_insert_Some in Hv as [[_ <-]|[_ Hv]]; [done|by eapply Ha].
    + rewrite map_size_insert_None by done. lia.
    + rewrite map_size_insert_None by done. lia.
  - destruct (at_work o !! id) as [t|] eqn:Ea; [|done]. eapply ok_end; [done..|].
    destruct (negb _ && _); [by left|]. right. unfold task_is_terminal. cbn.
    by destruct (tr_success r).
  - pose proof (find_waiting _ _ id Hr) as Hfw. destruct (List.find _ (waiting o)) as [t|].
    + destruct Hfw as [Hin <-]. destruct (rel_waiting _ _ Hr t Hin) as [_ Hnone].
      pose proof (length_without _ _ (rel_nodup _ _ Hr) Hin). constructor; cbn; try done.
      * intros v Hv. apply list_elem_of_filter in Hv as [_ Hv]. by apply Hw.
      * intros i v Hv. apply lookup_insert_Some in Hv as [[_ <-]|[_ Hv]]; [done|by eapply Hf].
      * rewrite map_size_insert_None by done. lia.
    + destruct (at_work o !! id) as [t|] eqn:Ea; [|done]. eapply ok_end; [done..|]. by right.
Qed.

Lemma run_all_rel ops : forall q o,
  office_rel q o -> office_ok o -> NoDup (submitted ops) ->
  (forall id, id ∈ submitted ops -> ~ known o id) ->
  (run_all queue_run q ops).2 = (run_all office_run o ops).2 /\
  office_rel (run_all queue_run q ops).1 (run_all office_run o ops).1 /\
  office_ok (run_all office_run o ops).1 /\
  (forall id, known (run_all office_run o ops).1 id -> known o id \/ id ∈ submitted ops).
Proof.
  induction ops as [|op ops IH]; intros q o Hr Hok Hn Hk.
  { repeat (split; [done|]). by left. }
  cbn [run_all].
  assert (Hsub : forall id, id ∈ submitted ops -> id ∈ submitted (op :: ops)).
  { intros id Hid. unfold submitted in *. destruct op; cbn; set_solver. }
  destruct (rel_step q o op Hr) as (q' & o' & a & Eq & Eo & Hr').
  { intros t ->. apply Hk. unfold submitted. cbn. set_solver. }
  pose proof (ok_step q o op Hr Hok) as Hok'. rewrite Eo in Hok'. cbn in Hok'.
  assert (Hnew : forall id, known o' id -> known o id \/ exists t, op = OEnqueue t /\ id = st_id t).
  { intros id Hid. apply (known_step q o op id Hr). by rewrite Eo. }
  rewrite Eq, Eo. destruct (IH q' o' Hr' Hok') as (Ha & Hrel & Hend & Hkn).
  - unfold submitted in Hn. destruct op; cbn in Hn; [by apply NoDup_cons in Hn as [_ Hn]|done..].
  - intros id Hid Hkn.
    destruct (Hnew id Hkn) as [Hold|(t & -> & ->)]; [by eapply Hk; [apply Hsub|]|].
    unfold submitted in Hn. cbn in Hn. by apply NoDup_cons in Hn as [Hn _].
  - destruct (run_all queue_run q' ops), (run_all office_run o' ops). cbn in *. rewrite Ha.
    repeat (split; [done|]). intros id Hid. destruct (Hkn id Hid) as [Ho|Hs]; [|auto].
    destruct (Hnew id Ho) as [?|(t' & -> & ->)]; [auto|]. right. unfold submitted. cbn. set_solver.
Qed.

Lemma empty_rel : office_rel (queue_new capacity concurrent) empty_office.
Proof. constructor; cbn; try done. apply NoDup_nil_2. Qed.

Lemma empty_ok : office_ok empty_office.
Proof. constructor; cbn; try done; rewrite ?map_size_empty; lia || (intros; set_solver). Qed.

Lemma empty_unknown id : ~ known empty_office id.
Proof. unfold known. cbn. rewrite !lookup_empty. intros [H|[[]|[]]]; [set_solver|done|done]. Qed.

(** The queue after some requests, and the office. *)
Lemma queue_rel ops :
  NoDup (submitted ops) ->
  let q := (run_all queue_run (queue_new capacity concurrent) ops).1 in
  let o := (run_all office_run empty_office ops).1 in
  office_rel q o /\ office_ok o /\ forall id, known o id -> id ∈ submitted ops.
Proof.
  intros Hn q o.
  destruct (run_all_rel ops _ _ empty_rel empty_ok Hn) as (_ & Hr & Hok & Hk).
  { intros id _. apply empty_unknown. }
  repeat (split; [done|]). intros id Hid. destruct (Hk id Hid) as [He|]; [|done].
  by apply empty_unknown in He.
Qed.

(** C24. The queue of background tasks answers every sequence of requests as an office that
    keeps the waiting tasks in order of arrival: a request to take a task is given the first to
    arrive among the most urgent, unless as many tasks are at work as may be; a task that
    failed with retries left joins the end of the line; a task that waits or works can be
    cancelled.  Submitted tasks have distinct identifiers. *)
Theorem task_queue_refines_office ops :
  NoDup (submitted ops) ->
  (run_all queue_run (queue_new capacity concurrent) ops).2 = (run_all office_run empty_office ops).2.
Proof.
  intros Hn. apply run_all_rel; [apply empty_rel|apply empty_ok|done|].
  intros id _. apply empty_unknown.
Qed.

(** ** Numbers *)

Lemma status_partition (m : gmap TaskId ShadowTask) :
  (forall id t, m !! id = Some t -> st_status t <> Running) ->
  let count s := size (filter (fun kt : TaskId * ShadowTask => st_status kt.2 = s) m) in
  size m = (count Queued + (count Completed + count Failed + count Cancelled))%nat.
Proof.
  intros Hm. induction m as [|id t m Hid IH] using map_ind; [done|]. cbv zeta.
  assert (Hm' : forall i u, m !! i = Some u -> st_status u <> Running).
  { intros i u Hi. apply (Hm i u). rewrite lookup_insert_ne; [done|]. intros ->. congruence. }
  assert (Ht : st_status t <> Running) by (apply (Hm id), lookup_insert_eq).
  specialize (IH Hm'). cbv zeta in IH. rewrite map_size_insert_None by done.
  assert (Hfil : forall s, size (filter (fun kt : TaskId * ShadowTask => st_status kt.2 = s) (<[id:=t]> m))
     = ((if bool_decide (st_status t = s) then 1 else 0)
        + size (filter (fun kt : TaskId * ShadowTask => st_status kt.2 = s) m))%nat).
  { intros s. rewrite map_filter_insert. case_decide as Hs; cbn in Hs.
    - rewrite bool_decide_eq_true_2 by done. rewrite map_size_insert_None; [done|].
      apply map_lookup_filter_None. by left.
    - rewrite bool_decide_eq_false_2 by done. by rewrite delete_id. }
  rewrite !Hfil, IH. destruct (st_status t); try done;
    repeat first [rewrite bool_decide_eq_true_2 by done|rewrite bool_decide_eq_false_2 by done]; lia.
Qed.

Lemma rel_count_queued q o :
  office_rel q o -> office_ok o ->
  count_status q Queued = length (waiting o) /\
  (count_status q Completed + count_status q Failed + count_status q Cancelled)%nat
    = size (finished o).
Proof.
  intros Hr Hok. assert (Hq : count_status q Queued = length (waiting o)).
  { unfold count_status. rewrite <- (by_id_size _ (rel_nodup _ _ Hr)). f_equal.
    rewrite (rel_tasks _ _ Hr). apply map_eq. intros id. apply option_eq. intros t.
    rewrite map_lookup_filter_Some, lookup_union_Some by (by eapply rel_disjoint). cbn. split.
    - intros [[Hl|Hl] Hs]; [done|]. apply (ok_finished _ Hok) in Hl.
      unfold task_is_terminal in Hl. by rewrite Hs in Hl.
    - intros Hl. split; [by left|]. apply by_id_Some in Hl as [Hl _]; [|apply Hr].
      by apply (ok_waiting _ Hok). }
  split; [done|]. pose proof (status_partition (q_tasks q)) as Hp. rewrite (rel_size _ _ Hr) in Hp.
  cbv zeta in Hp. unfold count_status in *. rewrite Hq in Hp. apply (Nat.add_cancel_l _ _ (length (waiting o))).
  symmetry. apply Hp. intros id t. rewrite (rel_tasks _ _ Hr), lookup_union_Some by (by eapply rel_disjoint).
  intros [Hl|Hl] Hs.
  - apply by_id_Some in Hl as [Hl _]; [|apply Hr]. by rewrite (ok_waiting _ Hok _ Hl) in Hs.
  - apply (ok_finished _ Hok) in Hl. unfold task_is_terminal in Hl. by rewrite Hs in Hl.
Qed.

(** The numbers of the queue after any requests: its counters add up, at most [concurrent]
    tasks run, and it holds at most [capacity + concurrent] tasks. *)
Theorem task_queue_numbers ops :
  NoDup (submitted ops) ->
  let q := (run_all queue_run (queue_new capacity concurrent) ops).1 in
  let s := stats q in
  qs_queued s = length (q_queue q) /\
  (qs_queued s + qs_running s + (qs_completed s + qs_failed s + qs_cancelled s))%nat
    = qs_total_tasks s /\
  (qs_running s <= concurrent)%nat /\ (qs_total_tasks s <= capacity + concurrent)%nat.
Proof.
  intros Hn q s. destruct (queue_rel ops Hn) as (Hr & Hok & _). subst s. fold q in Hr.
  destruct (rel_count_queued _ _ Hr Hok) as [H1 H2]. cbn. rewrite H1, H2.
  rewrite (rel_size _ _ Hr), (rel_running _ _ Hr), (rel_queue _ _ Hr), length_fmap, length_order_by.
  pose proof (ok_concurrent _ Hok). pose proof (ok_total _ Hok). lia.
Qed.

(** ** Finished tasks fill the queue *)

Lemma finished_grows o op : (size (finished o) <= size (finished (office_run o op).1))%nat.
Proof.
  assert (Hins : forall id t, (size (finished o) <= size (<[id := t]> (finished o)))%nat).
  { intros k t. rewrite map_size_insert. destruct (finished o !! k); unfold id; lia. }
  assert (Hend : forall id t, (size (finished o) <= size (finished (office_end o id t)))%nat).
  { intros id t. unfold office_end. case_bool_decide; cbn; [lia|apply Hins]. }
  destruct op as [t|now|now id r|now id]; cbn [office_run].
  - case_bool_decide; cbn; lia.
  - case_bool_decide; [cbn; lia|]. destruct (next_task (waiting o)); cbn; lia.
  - destruct (at_work o !! id); [apply Hend|cbn; lia].
  - destruct (List.find _ (waiting o)); [apply Hins|].
    destruct (at_work o !! id); [apply Hend|cbn; lia].
Qed.

Definition accepted (a : answer) : bool := match a with AEnqueued (Ok _) => true | _ => false end.

Lemma full_office_refuses ops : forall o,
  (capacity <= size (finished o))%nat ->
  Forall (fun a => accepted a = false) (run_all office_run o ops).2.
Proof.
  induction ops as [|op ops IH]; intros o Hf; [constructor|]. cbn [run_all].
  pose proof (finished_grows o op) as Hg.
  assert (Ha : accepted (office_run o op).2 = false).
  { destruct op as [t|now|now id r|now id]; cbn [office_run].
    - by rewrite bool_decide_eq_true_2 by lia.
    - case_bool_decide; [done|]. by destruct (next_task (waiting o)).
    - by destruct (at_work o !! id).
    - destruct (List.find _ (waiting o)); [done|]. by destruct (at_work o !! id). }
  destruct (office_run o op) as [o' a]. cbn in Hg, Ha. specialize (IH o' ltac:(lia)).
  destruct (run_all office_run o' ops). by constructor.
Qed.

End Office.

(** A queue that has finished as many tasks as its capacity refuses every later task, although
    nothing waits or runs. *)
Theorem finished_tasks_fill_queue capacity concurrent ops more :
  NoDup (submitted (ops ++ more)) ->
  let q := (run_all queue_run (queue_new capacity concurrent) ops).1 in
  (capacity <= qs_completed (stats q) + qs_failed (stats q) + qs_cancelled (stats q))%nat ->
  Forall (fun a => accepted a = false) (run_all queue_run q more).2.
Proof.
  intros Hn q Hc. unfold submitted in Hn. rewrite omap_app in Hn.
  apply NoDup_app in Hn as (Hn1 & Hd & Hn2).
  destruct (queue_rel capacity concurrent ops Hn1) as (Hr & Hok & Hk). fold q in Hr.
  set (o := (run_all (office_run capacity concurrent) empty_office ops).1) in *.
  destruct (rel_count_queued _ _ _ _ Hr Hok) as [_ Hf]. cbn in Hc.
  destruct (run_all_rel capacity concurrent more q o Hr Hok Hn2) as [-> _].
  - intros id Hid Hkn. by apply (Hd id); [apply Hk|].
  - apply full_office_refuses. lia.
Qed.

(** ** The life cycle *)

Definition is_fail (e : LifecycleEvent) : bool := match e with EFail _ => true | _ => false end.

(** A failure that arrives while the executor pauses, resumes or stops is taken for the event
    that ends the phase; in every other state it leads to the failed state. *)
Lemma fail_reaches_failed s e :
  is_fail e = true ->
  next_state s e = Some (match s with
                         | LPausing => LPaused
                         | LResuming => LRunning
                         | LStopping => LStopped
                         | _ => LFailed
                         end).
Proof. by destruct s, e. Qed.

(** No event but a failure leads out of the stopped and failed states. *)
Lemma ended_stays s e s' :
  s = LStopped \/ s = LFailed -> next_state s e = Some s' -> s' = LFailed.
Proof. intros [-> | ->]; destruct e; simpl; congruence. Qed.

(** ** Examples *)

Definition plain_task (id : string) (priority retries : Z) : ShadowTask :=
  with_retries (with_priority (task_new id 0 "n" "true" []) priority) retries.
Definition failed_result : TaskResult := task_result_default.
Definition good_result : TaskResult :=
  {| tr_success := true; tr_output := None; tr_error := None; tr_files_written := [];
     tr_files_read := []; tr_aci_operations := 0; tr_duration_ms := 0 |}.

(** Four tasks, of which one is retried, one cancelled and one refused for lack of room. *)
Definition busy_day : list queue_op :=
  [OEnqueue (plain_task "a" 0 1); OEnqueue (plain_task "b" 5 0); OEnqueue (plain_task "c" 5 0);
   ODequeue 1; ODequeue 2; ODequeue 3; OComplete 4 "b" failed_result; OCancel 5 "a"; ODequeue 6;
   OEnqueue (plain_task "d" 9 0); OComplete 7 "c" good_result; OEnqueue (plain_task "e" 1 0)].

Lemma task_queue_refines_office_witness :
  (run_all queue_run (queue_new 3 2) busy_day).2
    = (run_all (office_run 3 2) empty_office busy_day).2 /\
  map (fun a => match a with
                | AEnqueued (Ok id) => "queued " +:+ id
                | ATaken (Some t) => "taken " +:+ st_id t
                | ADone (Ok _) => "done"
                | _ => "no"
                end) (run_all queue_run (queue_new 3 2) busy_day).2
  = ["queued a"; "queued b"; "queued c"; "taken b"; "taken c"; "no"; "done"; "done"; "no";
     "queued d"; "done"; "no"].
Proof.
  split; [|vm_compute; reflexivity]. apply task_queue_refines_office.
  vm_compute. apply (bool_decide_eq_true_1 (NoDup ["a"; "b"; "c"; "d"; "e"])). reflexivity.
Defined.

(** A queue for one task is used up by the first. *)
Lemma finished_tasks_fill_queue_witness :
  let ops := [OEnqueue (plain_task "a" 0 0); ODequeue 1; OComplete 2 "a" good_result] in
  let more := [OEnqueue (plain_task "b" 0 0); OEnqueue (plain_task "c" 0 0)] in
  Forall (fun a => accepted a = false)
    (run_all queue_run (run_all queue_run (queue_new 1 1) ops).1 more).2.
Proof.
  apply finished_tasks_fill_queue; [|vm_compute; lia].
  apply (bool_decide_eq_true_1 (NoDup ["a"; "b"; "c"])). reflexivity.
Defined.

(** The two tests of the capacity disagree: the running tasks count for one only. *)
Example capacity_tests_differ :
  let q := (run_all queue_run (queue_new 1 1) [OEnqueue (plain_task "a" 0 0); ODequeue 1]).1 in
  can_accept_more q = false /\ accepted (queue_run q (OEnqueue (plain_task "b" 0 0))).2 = true.
Proof. vm_compute. done. Qed.

(** Two tasks of one identifier: the second is lost without an answer. *)
Example repeated_identifier_is_lost :
  let ops := [OEnqueue (plain_task "a" 0 0); OEnqueue (plain_task "a" 1 0); ODequeue 1; ODequeue 2] in
  map (fun a => match a with ATaken (Some t) => Some (st_priority t) | _ => None end)
    (run_all queue_run (queue_new 4 4) ops).2 = [None; None; Some 1; None].
Proof. vm_compute. reflexivity. Qed.
