(* ===== verification/ShadowExecutor.v ===== *)
(** * The background executor ([crates/zaion-shadow/src/executor.rs])

    One loop serves commands and heartbeats and starts tasks; every started task is a future of
    its own that runs beside the loop, and shares with it the queue, the life cycle, the files
    and the table of handles.  A step of the model is what runs between two acquisitions of a
    lock.  Requests to the ledger and to the broadcast channel are recorded in the order in
    which they are made; their failures are ignored by the code.  [abort] takes effect at the
    next point where the future waits: an aborted future may take further steps before it
    disappears.  The texts and the exit status of a program are supplied with the step, as are
    the readings of the clock.

    Over every interleaving of the loop, the calls and the futures: without retries at most
    [max_concurrent_tasks] tasks execute that are not aborted, each of them is the task that the
    queue shows as running, and its handle is known to the loop.  With retries this fails: the
    end of the first run removes the handle of the second.  Only programs of the allow-list are
    spawned, whatever happens. *)

From stdpp Require Import prelude gmap strings list.
From S2P Require Import Prelude.
From S2P Require Import Json.
From S2P Require Import Env.
From S2P Require Import FileSystem.
From S2P Require Import Concrete.
From S2P Require Import Ingress.
From S2P Require Import Ledger.
From S2P Require Import Watchdog.
From S2P Require Import Aci.
From S2P Require Import Shadow.
Local Open Scope res_scope.
Local Open Scope Z_scope.

Inductive ShadowEvent : Type :=
| TaskSpawned (task_id : TaskId) (name : string)
| TaskStarted (task_id : TaskId) (name : string)
| TaskCompleted (task_id : TaskId) (name : string) (success : bool) (duration : Z)
| TaskCancelled (task_id : TaskId)
| AciOperation (task_id : TaskId) (op : string) (ok : bool)
| ExecutorStarted
| ExecutorStopped.

(** The fields of [ExecutorConfig] that are read after construction. *)
Record ExecutorConfig : Type := {
  max_queue_size : nat;
  max_concurrent_tasks : nat;
  task_timeout_seconds : Z;
  config_principal_id : string;
  allowed_programs : list string
}.

(** [ExecutorConfig::default()] *)
Definition config_default : ExecutorConfig :=
  {| max_queue_size := 1000; max_concurrent_tasks := 4; task_timeout_seconds := 300;
     config_principal_id := "shadow-executor"; allowed_programs := [] |}.

Inductive ExecutorCommand : Type :=
| SubmitTask (task : ShadowTask)
| CancelTask (task_id : TaskId)
| GetTask (task_id : TaskId)
| ListTasks
| GetStats
| Shutdown.

(** What leaves the executor: broadcasts, requests to the ledger, processes, replies. *)
Inductive Effect : Type :=
| Broadcast (e : ShadowEvent)
| Append (kind : string) (data : Value)
| Spawn (spec : CommandSpec)
| ReplyTask (t : option ShadowTask)
| ReplyTasks (l : list ShadowTask)
| ReplyStats (s : QueueStats).

(** How a program ended; its texts are already decoded. *)
Inductive ProcOutcome : Type :=
| Exited (success : bool) (stdout stderr : string)
| SpawnError (text : string).

(** Where a future is: before its command, waiting for a program, before [complete_task], before
    the life cycle, before the report, before the handle is removed. *)
Inductive Stage : Type :=
| AtStart
| InProgram
| HasResult (r : TaskResult)
| Stored (success : bool) (duration : Z)
| Counted (success : bool) (duration : Z)
| Reported.

Record Future : Type := { fut_task : ShadowTask; fut_stage : Stage; fut_aborted : bool }.

(** Where the loop is. *)
Inductive LoopPc : Type :=
| NotStarted
| AtSelect
| Enqueued (task_id : TaskId) (name : string)
| Cancelling (task_id : TaskId)
| Taken (task : ShadowTask)
| Spawned (task_id : TaskId) (handle : nat)
| UptimeDue
| Closing
| Closed.

Record Executor : Type := {
  ex_config : ExecutorConfig;
  ex_queue : TaskQueue;
  ex_lifecycle : ShadowLifecycle;
  ex_world : World;
  ex_handles : gmap TaskId nat;
  ex_futures : gmap nat Future;
  ex_next : nat;
  ex_pc : LoopPc;
  ex_inbox : list ExecutorCommand;
  (** The channel of [command_tx] and the one that the loop receives from. *)
  ex_sender : option nat;
  ex_receiver : option nat;
  ex_effects : list Effect
}.

Definition set_pc (x : Executor) (pc : LoopPc) : Executor :=
  {| ex_config := ex_config x; ex_queue := ex_queue x; ex_lifecycle := ex_lifecycle x;
     ex_world := ex_world x; ex_handles := ex_handles x; ex_futures := ex_futures x;
     ex_next := ex_next x; ex_pc := pc; ex_inbox := ex_inbox x; ex_sender := ex_sender x;
     ex_receiver := ex_receiver x; ex_effects := ex_effects x |}.
Definition set_tasks (x : Executor) (q : TaskQueue) : Executor :=
  {| ex_config := ex_config x; ex_queue := q; ex_lifecycle := ex_lifecycle x;
     ex_world := ex_world x; ex_handles := ex_handles x; ex_futures := ex_futures x;
     ex_next := ex_next x; ex_pc := ex_pc x; ex_inbox := ex_inbox x; ex_sender := ex_sender x;
     ex_receiver := ex_receiver x; ex_effects := ex_effects x |}.
Definition set_lifecycle (x : Executor) (lc : ShadowLifecycle) : Executor :=
  {| ex_config := ex_config x; ex_queue := ex_queue x; ex_lifecycle := lc;
     ex_world := ex_world x; ex_handles := ex_handles x; ex_futures := ex_futures x;
     ex_next := ex_next x; ex_pc := ex_pc x; ex_inbox := ex_inbox x; ex_sender := ex_sender x;
     ex_receiver := ex_receiver x; ex_effects := ex_effects x |}.
Definition set_futures (x : Executor) (handles : gmap TaskId nat) (futures : gmap nat Future)
    (next : nat) : Executor :=
  {| ex_config := ex_config x; ex_queue := ex_queue x; ex_lifecycle := ex_lifecycle x;
     ex_world := ex_world x; ex_handles := handles; ex_futures := futures;
     ex_next := next; ex_pc := ex_pc x; ex_inbox := ex_inbox x; ex_sender := ex_sender x;
     ex_receiver := ex_receiver x; ex_effects := ex_effects x |}.
Definition set_world (x : Executor) (w : World) : Executor :=
  {| ex_config := ex_config x; ex_queue := ex_queue x; ex_lifecycle := ex_lifecycle x;
     ex_world := w; ex_handles := ex_handles x; ex_futures := ex_futures x;
     ex_next := ex_next x; ex_pc := ex_pc x; ex_inbox := ex_inbox x; ex_sender := ex_sender x;
     ex_receiver := ex_receiver x; ex_effects := ex_effects x |}.
Definition set_channel (x : Executor) (inbox : list ExecutorCommand) (sender receiver : option nat)
  : Executor :=
  {| ex_config := ex_config x; ex_queue := ex_queue x; ex_lifecycle := ex_lifecycle x;
     ex_world := ex_world x; ex_handles := ex_handles x; ex_futures := ex_futures x;
     ex_next := ex_next x; ex_pc := ex_pc x; ex_inbox := inbox; ex_sender := sender;
     ex_receiver := receiver; ex_effects := ex_effects x |}.
Definition emit (x : Executor) (l : list Effect) : Executor :=
  {| ex_config := ex_config x; ex_queue := ex_queue x; ex_lifecycle := ex_lifecycle x;
     ex_world := ex_world x; ex_handles := ex_handles x; ex_futures := ex_futures x;
     ex_next := ex_next x; ex_pc := ex_pc x; ex_inbox := ex_inbox x; ex_sender := ex_sender x;
     ex_receiver := ex_receiver x; ex_effects := ex_effects x ++ l |}.

Section Executor.
Context `{Env} (err_text debug_str : string -> string).
Context (toml_error : string -> option (option nat * string)).
Context (json_error : string -> option (Z * Z * string)).
(** The order in which a map of tasks is visited. *)
Context (visit : gmap TaskId ShadowTask -> list ShadowTask).

(** [new_with_key], up to the checks of the identity; the databases are those of the caller. *)
Definition new_with_key (config : ExecutorConfig) (keypair : ZaionKeypair) (disk : Disk)
    (toxic : ToxicDb) (anchors : AnchorDb) : result ShadowError Executor :=
  let signing_principal := principal_id keypair in
  guard? negb (bool_decide (str_trim (config_principal_id config) = EmptyString))
    else InvalidIdentity "shadow executor requires a persisted principal_id" in
  guard? bool_decide (config_principal_id config = signing_principal)
    else InvalidIdentity ("configured principal " +:+ config_principal_id config
                          +:+ " does not match signing key " +:+ signing_principal) in
  Ok {| ex_config := config;
        ex_queue := queue_new (max_queue_size config) (max_concurrent_tasks config);
        ex_lifecycle := lifecycle_new;
        ex_world := {| w_disk := disk; w_toxic := toxic_ensure toxic;
                       w_anchors := anchor_ensure anchors |};
        ex_handles := ∅; ex_futures := ∅; ex_next := O; ex_pc := NotStarted; ex_inbox := [];
        ex_sender := None; ex_receiver := None; ex_effects := [] |}.

(** [let _ = lc.transition(event)] *)
Definition lifecycle_event (x : Executor) (now now2 : Z) (e : LifecycleEvent) : Executor :=
  set_lifecycle x (transition debug_str (ex_lifecycle x) now now2 e).1.

(** [start]: the new channel is installed before the transition can fail. *)
Definition start (x : Executor) (channel : nat) (now now2 : Z) : Executor * result ShadowError unit :=
  let x := set_channel x (ex_inbox x) (Some channel) (ex_receiver x) in
  match transition debug_str (ex_lifecycle x) now now2 EStart with
  | (_, Err e) => (x, Err e)
  | (lc, Ok _) =>
      let x := set_lifecycle x lc in
      let x := emit x [Append "shadow.executor.started"
                         (VObject [("max_concurrent",
                                    VNumber (Z.of_nat (max_concurrent_tasks (ex_config x))))]);
                       Broadcast ExecutorStarted] in
      (set_pc (set_channel x (ex_inbox x) (ex_sender x) (Some channel)) AtSelect, Ok tt)
  end.

(** The calls of the interface: a command reaches the loop when the loop that serves the channel
    still receives. *)
Definition send_command (x : Executor) (c : ExecutorCommand) : Executor * result ShadowError unit :=
  match ex_sender x with
  | None => (x, Err ExecutorNotRunning)
  | Some channel =>
      if bool_decide (ex_receiver x = Some channel)
      then (set_channel x (ex_inbox x ++ [c]) (ex_sender x) (ex_receiver x), Ok tt)
      else (x, Err ExecutorNotRunning)
  end.

(** ** The commands of a task *)

Definition arg (n : nat) (dflt : string) (task : ShadowTask) : string :=
  default dflt (st_args task !! n).

(** A task that is one action: the action, and its description. *)
Definition task_action (task : ShadowTask) : option (AciAction * string) :=
  let cmd := str_trim (st_command task) in
  match strip_prefix "aci:write:" cmd with
  | Some path => Some (WriteFile path (arg 0 EmptyString task) true, "WriteFile " +:+ path)
  | None =>
  match strip_prefix "aci:read:" cmd with
  | Some path => Some (ReadFile path, "ReadFile " +:+ path)
  | None =>
  match strip_prefix "aci:syntax:" cmd with
  | Some path => Some (SyntaxCheck path (arg 0 "rust" task), "SyntaxCheck " +:+ path)
  | None =>
  match strip_prefix "aci:replace:" cmd with
  | Some path =>
      Some (ReplaceAstNode path (arg 0 EmptyString task) (arg 1 EmptyString task) (arg 2 "rust" task),
            "ReplaceAstNode " +:+ path)
  | None =>
  match strip_prefix "aci:reality:" cmd with
  | Some path => Some (RealityCheck path, "RealityCheck " +:+ path)
  | None => None
  end end end end end.

(** Whether the action counts as a success, and the result of the task. *)
Definition action_ok (a : AciAction) (r : AciResult) : bool :=
  match a with
  | SyntaxCheck _ _ =>
      aci_is_ok r && default false ((ar_data r ≫= value_get "valid") ≫= as_bool)
  | _ => aci_is_ok r
  end.

Definition action_result (a : AciAction) (r : AciResult) : TaskResult :=
  let ok := action_ok a r in
  {| tr_success := ok;
     tr_output := match a with
                  | ReadFile _ => (ar_data r ≫= value_get "content") ≫= as_str
                  | _ => json_to_string <$> ar_data r
                  end;
     tr_error := if ok then None
                 else match a with SyntaxCheck _ _ => Some "syntax invalid" | _ => ar_error r end;
     tr_files_written := match a with WriteFile path _ _ => if ok then [path] else [] | _ => [] end;
     tr_files_read := match a with ReadFile path => if ok then [path] else [] | _ => [] end;
     tr_aci_operations := 1;
     tr_duration_ms := 0 |}.

Definition task_spec (task : ShadowTask) : CommandSpec :=
  {| cs_program := st_command task; cs_args := st_args task; cs_env := st_env_vars task;
     cs_cwd := st_working_dir task |}.

Definition newline_stderr : string := String (Ascii.ascii_of_N 10) ("--- stderr ---" +:+
  String (Ascii.ascii_of_N 10) EmptyString).

Definition failed_with (text : string) : TaskResult :=
  {| tr_success := false; tr_output := None; tr_error := Some text; tr_files_written := [];
     tr_files_read := []; tr_aci_operations := 0; tr_duration_ms := 0 |}.

Definition program_result (o : ProcOutcome) : TaskResult :=
  match o with
  | Exited success stdout stderr =>
      {| tr_success := success;
         tr_output := Some (if bool_decide (stderr = EmptyString) then stdout
                            else if success then stdout +:+ newline_stderr +:+ stderr
                            else stdout);
         tr_error := if success then None else Some stderr;
         tr_files_written := []; tr_files_read := []; tr_aci_operations := 0;
         tr_duration_ms := 0 |}
  | SpawnError e => failed_with ("spawn error: " +:+ e)
  end.

Definition with_duration (r : TaskResult) (elapsed : Z) : TaskResult :=
  {| tr_success := tr_success r; tr_output := tr_output r; tr_error := tr_error r;
     tr_files_written := tr_files_written r; tr_files_read := tr_files_read r;
     tr_aci_operations := tr_aci_operations r; tr_duration_ms := elapsed |}.

Definition timed_out (timeout_secs : Z) : TaskResult :=
  failed_with ("timed out after " +:+ z_to_string timeout_secs +:+ "s").

(** ** Futures *)

Definition set_stage (x : Executor) (h : nat) (f : Future) (stage : Stage) : Executor :=
  set_futures x (ex_handles x)
    (<[h := {| fut_task := fut_task f; fut_stage := stage; fut_aborted := fut_aborted f |}]>
       (ex_futures x)) (ex_next x).

(** [execute_inner] up to the first wait: an action runs to its end, a program that is not
    allowed is refused, any other program is spawned. *)
Definition future_begin (x : Executor) (fl : Faults) (ck : Clock) (elapsed : Z) (h : nat) (f : Future)
  : Executor :=
  let task := fut_task f in
  match task_action task with
  | Some (action, op) =>
      let '(w, r) := dispatch err_text toml_error json_error debug_str fl (ex_world x) ck action in
      let x := emit (set_world x w) [Broadcast (AciOperation (st_id task) op (action_ok action r))] in
      set_stage x h f (HasResult (with_duration (action_result action r) elapsed))
  | None =>
      match into_tokio_command (task_spec task) (from_programs (allowed_programs (ex_config x))) with
      | Err e => set_stage x h f (HasResult (with_duration (failed_with e) elapsed))
      | Ok spec => set_stage (emit x [Spawn spec]) h f InProgram
      end
  end.

(** What the environment decides for a step of a future. *)
Inductive FutureInput : Type :=
| Begin (fl : Faults) (ck : Clock) (elapsed : Z)
| Ended (o : ProcOutcome) (elapsed : Z)
| TimeOut (elapsed : Z)
| Go (now now2 : Z).

Definition completed_payload (task : ShadowTask) (success : bool) (duration : Z) : Value :=
  VObject [("task_id", VString (st_id task)); ("name", VString (st_name task));
           ("success", VBool success); ("duration_ms", VNumber duration)].

(** A step of the future of a task; [None] when the input does not fit where it is. *)
Definition future_step (x : Executor) (h : nat) (f : Future) (input : FutureInput) : option Executor :=
  let task := fut_task f in
  match fut_stage f, input with
  | AtStart, Begin fl ck elapsed => Some (future_begin x fl ck elapsed h f)
  | InProgram, Ended o elapsed =>
      Some (set_stage x h f (HasResult (with_duration (program_result o) elapsed)))
  | InProgram, TimeOut elapsed =>
      Some (set_stage x h f
              (HasResult (with_duration (timed_out (task_timeout_seconds (ex_config x))) elapsed)))
  | HasResult r, Go now _ =>
      Some (set_stage (set_tasks x (complete_task (ex_queue x) now (st_id task) r).1) h f
              (Stored (tr_success r) (tr_duration_ms r)))
  | Stored success duration, Go now now2 =>
      Some (set_stage (lifecycle_event x now now2 (ETaskCompleted (st_id task) success)) h f
              (Counted success duration))
  | Counted success duration, Go _ _ =>
      Some (set_stage
              (emit x [Append "shadow.task.completed" (completed_payload task success duration);
                       Broadcast (TaskCompleted (st_id task) (st_name task) success duration)])
              h f Reported)
  | Reported, Go _ _ =>
      Some (set_futures x (delete (st_id task) (ex_handles x)) (delete h (ex_futures x)) (ex_next x))
  | _, _ => None
  end.

(** ** The loop *)

Definition task_payload (task_id : TaskId) (name : string) : Value :=
  VObject [("task_id", VString task_id); ("name", VString name)].

(** [handle.abort()] *)
Definition abort_future (futures : gmap nat Future) (h : nat) : gmap nat Future :=
  alter (fun f => {| fut_task := fut_task f; fut_stage := fut_stage f; fut_aborted := true |}) h
    futures.

(** The first locked part of a command. *)
Definition receive (x : Executor) (now : Z) (c : ExecutorCommand) : Executor :=
  match c with
  | SubmitTask task =>
      match enqueue (ex_queue x) task with
      | (q, Ok _) => set_pc (set_tasks x q) (Enqueued (st_id task) (st_name task))
      | (q, Err _) => set_tasks x q
      end
  | CancelTask task_id =>
      set_pc (set_tasks x (cancel_task (ex_queue x) now task_id).1) (Cancelling task_id)
  | GetTask task_id => emit x [ReplyTask (get_task (ex_queue x) task_id)]
  | ListTasks => emit x [ReplyTasks (list_tasks visit (ex_queue x))]
  | GetStats => emit x [ReplyStats (stats (ex_queue x))]
  | Shutdown => set_pc x Closing
  end.

(** The heartbeat: [drain_queue] takes at most one task. *)
Definition heartbeat (x : Executor) (now : Z) : Executor :=
  if has_capacity_to_run (ex_queue x) then
    let '(q, task) := dequeue (ex_queue x) now in
    let x := set_tasks x q in
    match task with
    | Some task => set_pc x (Taken task)
    | None => set_pc x UptimeDue
    end
  else set_pc x UptimeDue.

(** The rest of a handler, one locked part at a time. *)
Definition loop_continue (x : Executor) (now now2 : Z) : option Executor :=
  match ex_pc x with
  | Enqueued task_id name =>
      let x := lifecycle_event x now now2 (ETaskQueued task_id) in
      Some (set_pc (emit x [Append "shadow.task.queued" (task_payload task_id name);
                            Broadcast (TaskSpawned task_id name)]) AtSelect)
  | Cancelling task_id =>
      let x := match ex_handles x !! task_id with
               | Some h => set_futures x (delete task_id (ex_handles x))
                             (abort_future (ex_futures x) h) (ex_next x)
               | None => x
               end in
      Some (set_pc (emit x [Broadcast (TaskCancelled task_id)]) AtSelect)
  | Taken task =>
      let task_id := st_id task in
      let x := lifecycle_event x now now2 (ETaskStarted task_id) in
      let x := emit x [Broadcast (TaskStarted task_id (st_name task));
                       Append "shadow.task.started" (task_payload task_id (st_name task))] in
      let h := ex_next x in
      let f := {| fut_task := task; fut_stage := AtStart; fut_aborted := false |} in
      Some (set_pc (set_futures x (ex_handles x) (<[h := f]> (ex_futures x)) (S h))
              (Spawned task_id h))
  | Spawned task_id h =>
      Some (set_pc (set_futures x (<[task_id := h]> (ex_handles x)) (ex_futures x) (ex_next x))
              UptimeDue)
  | UptimeDue => Some (set_pc (set_lifecycle x (update_uptime (ex_lifecycle x) now)) AtSelect)
  | Closing =>
      let futures := foldr (fun kh futures => abort_future futures kh.2) (ex_futures x)
                       (map_to_list (ex_handles x)) in
      let x := emit (set_futures x ∅ futures (ex_next x)) [Broadcast ExecutorStopped] in
      Some (set_pc (set_channel x [] (ex_sender x) None) Closed)
  | NotStarted | AtSelect | Closed => None
  end.

(** The steps of the system. *)
Inductive Label : Type :=
| Call (c : ExecutorCommand)
| Receive (now : Z)
| Disconnected
| Tick (now : Z)
| Continue (now now2 : Z)
| FutureGo (h : nat) (input : FutureInput)
| Reap (h : nat).

Definition exec_step (x : Executor) (l : Label) : option Executor :=
  match l with
  | Call c => Some (send_command x c).1
  | Receive now =>
      match ex_pc x, ex_inbox x with
      | AtSelect, c :: inbox =>
          Some (receive (set_channel x inbox (ex_sender x) (ex_receiver x)) now c)
      | _, _ => None
      end
  | Disconnected =>
      match ex_pc x, ex_inbox x with
      | AtSelect, [] => Some (set_pc x Closing)
      | _, _ => None
      end
  | Tick now => match ex_pc x with AtSelect => Some (heartbeat x now) | _ => None end
  | Continue now now2 => loop_continue x now now2
  | FutureGo h input => f ← ex_futures x !! h; future_step x h f input
  | Reap h =>
      f ← ex_futures x !! h;
      if fut_aborted f
      then Some (set_futures x (ex_handles x) (delete h (ex_futures x)) (ex_next x))
      else None
  end.

(** Steps that do not apply are left out. *)
Definition exec_run (x : Executor) (labels : list Label) : Executor :=
  foldl (fun x l => default x (exec_step x l)) x labels.

End Executor.

(** * Theorems on the background executor *)

(** The future of a task whose end the queue has not seen. *)
Definition executing (f : Future) : bool :=
  match fut_stage f with AtStart | InProgram | HasResult _ => true | _ => false end.

Definition active (f : Future) : bool := executing f && negb (fut_aborted f).

Definition fut_id (f : Future) : TaskId := st_id (fut_task f).

(** The tasks that execute and are not aborted. *)
Definition active_ids (futures : gmap nat Future) : list TaskId :=
  (fun hf => fut_id hf.2) <$> filter (fun hf : nat * Future => active hf.2 = true) (map_to_list futures).

Definition no_retry (t : ShadowTask) : Prop := st_max_retries t <= st_retry_count t.

Section Invariant.
Context (concurrent : nat).

(** The futures, the handles and the loop, against the office of the queue. *)
Record fut_inv (o : Office) (handles : gmap TaskId nat) (futures : gmap nat Future) (next : nat)
    (pc : LoopPc) : Prop := {
  fi_known : forall h f, futures !! h = Some f ->
    is_Some (at_work o !! fut_id f) \/ is_Some (finished o !! fut_id f);
  fi_unique : forall h1 f1 h2 f2, futures !! h1 = Some f1 -> futures !! h2 = Some f2 ->
    fut_id f1 = fut_id f2 -> h1 = h2;
  fi_next : forall h, (next <= h)%nat -> futures !! h = None;
  fi_active : forall h f, futures !! h = Some f -> active f = true ->
    is_Some (at_work o !! fut_id f) \/
    (pc = Cancelling (fut_id f) /\ (size (at_work o) < concurrent)%nat);
  fi_registered : forall h f, futures !! h = Some f -> active f = true ->
    handles !! fut_id f = Some h \/ pc = Spawned (fut_id f) h;
  fi_taken : forall t, pc = Taken t ->
    is_Some (at_work o !! st_id t) /\ forall h f, futures !! h = Some f -> fut_id f <> st_id t;
  fi_spawned : forall id h, pc = Spawned id h ->
    forall h' f, futures !! h' = Some f -> fut_id f = id -> h' = h
}.

(** A change of the place of the loop that concerns no task. *)
Definition plain (pc : LoopPc) : bool :=
  match pc with Taken _ | Cancelling _ | Spawned _ _ => false | _ => true end.

Definition harmless (pc : LoopPc) : bool :=
  match pc with Taken _ | Spawned _ _ => false | _ => true end.

Lemma fut_inv_pc o handles futures next pc pc' :
  plain pc = true -> harmless pc' = true ->
  fut_inv o handles futures next pc -> fut_inv o handles futures next pc'.
Proof.
  intros Hp Hp' [H1 H2 H3 H4 H5 H6 H7]. constructor; try done.
  - intros h f Hf Ha. destruct (H4 h f Hf Ha) as [?|[-> _]]; [by left|done].
  - intros h f Hf Ha. destruct (H5 h f Hf Ha) as [?| ->]; [by left|done].
  - by intros t ->.
  - by intros id h ->.
Qed.

(** Futures that change their stage or disappear, and never become active. *)
Lemma fut_inv_shrink o handles futures futures' next pc :
  fut_inv o handles futures next pc ->
  (forall h f', futures' !! h = Some f' ->
     exists f, futures !! h = Some f /\ fut_id f = fut_id f' /\ (active f' = true -> active f = true)) ->
  fut_inv o handles futures' next pc.
Proof.
  intros [H1 H2 H3 H4 H5 H6 H7] Hs. constructor.
  - intros h f' Hf. destruct (Hs h f' Hf) as (f & Hf0 & <- & _). eauto.
  - intros h1 f1 h2 f2 E1 E2 He. destruct (Hs _ _ E1) as (g1 & Eg1 & G1 & _).
    destruct (Hs _ _ E2) as (g2 & Eg2 & G2 & _). apply (H2 h1 g1 h2 g2); congruence.
  - intros h Hh. destruct (futures' !! h) as [f'|] eqn:E; [|done].
    destruct (Hs _ _ E) as (f & Hf & _). by rewrite H3 in Hf.
  - intros h f' Hf Ha. destruct (Hs h f' Hf) as (f & Hf0 & <- & Hact). eauto.
  - intros h f' Hf Ha. destruct (Hs h f' Hf) as (f & Hf0 & <- & Hact). eauto.
  - intros t ->. destruct (H6 t eq_refl) as [? Hn]. split; [done|]. intros h f' Hf.
    destruct (Hs h f' Hf) as (f & Hf0 & <- & _). eauto.
  - intros id h -> h' f' Hf He. destruct (Hs h' f' Hf) as (f & Hf0 & Hid & _).
    apply (H7 id h eq_refl h' f Hf0). congruence.
Qed.

(** A change of the office after which what worked works or is finished. *)
Lemma fut_inv_office o o' handles futures next pc :
  fut_inv o handles futures next pc ->
  (forall id, is_Some (at_work o !! id) -> is_Some (at_work o' !! id) \/ is_Some (finished o' !! id)) ->
  (forall id, is_Some (finished o !! id) -> is_Some (finished o' !! id)) ->
  (forall h f, futures !! h = Some f -> active f = true ->
     is_Some (at_work o !! fut_id f) -> is_Some (at_work o' !! fut_id f)) ->
  (forall t, pc = Taken t -> is_Some (at_work o !! st_id t) -> is_Some (at_work o' !! st_id t)) ->
  (forall id, pc = Cancelling id -> (size (at_work o') <= size (at_work o))%nat) ->
  fut_inv o' handles futures next pc.
Proof.
  intros [H1 H2 H3 H4 H5 H6 H7] Hw Hf Ha Ht Hc. constructor; try done.
  - intros h f Hl. destruct (H1 h f Hl); auto.
  - intros h f Hl Hact. destruct (H4 h f Hl Hact) as [Hin|[Hpc Hsz]]; [left; by eapply Ha|].
    right. split; [done|]. specialize (Hc _ Hpc). lia.
  - intros t Hpc. destruct (H6 t Hpc). auto.
Qed.

(** A handle that is removed together with what makes its future active. *)
Lemma fut_inv_unregister o handles futures next pc id :
  fut_inv o handles futures next pc ->
  (forall h f, futures !! h = Some f -> active f = true -> fut_id f <> id) ->
  fut_inv o (delete id handles) futures next pc.
Proof.
  intros [H1 H2 H3 H4 H5 H6 H7] Hn. constructor; try done.
  intros h f Hf Ha. destruct (H5 h f Hf Ha) as [Hr|Hr]; [left|by right].
  rewrite lookup_delete_ne; [done|]. intros He. by apply (Hn h f Hf Ha).
Qed.

(** The end of a cancellation: no active future of the task is left. *)
Lemma fut_inv_cancelled o handles futures next id :
  fut_inv o handles futures next (Cancelling id) ->
  (forall h f, futures !! h = Some f -> active f = true -> fut_id f <> id) ->
  fut_inv o handles futures next AtSelect.
Proof.
  intros [H1 H2 H3 H4 H5 H6 H7] Hn. constructor; try done.
  - intros h f Hf Ha. destruct (H4 h f Hf Ha) as [?|[[= He] _]]; [by left|].
    by destruct (Hn h f Hf Ha).
  - intros h f Hf Ha. destruct (H5 h f Hf Ha); [by left|done].
Qed.

(** A future is spawned for the task that was taken. *)
Lemma fut_inv_spawn o handles futures next t :
  fut_inv o handles futures next (Taken t) ->
  fut_inv o handles
    (<[next := {| fut_task := t; fut_stage := AtStart; fut_aborted := false |}]> futures) (S next)
    (Spawned (st_id t) next).
Proof.
  intros [H1 H2 H3 H4 H5 H6 H7]. destruct (H6 t eq_refl) as [Hwork Hno].
  set (f0 := {| fut_task := t; fut_stage := AtStart; fut_aborted := false |}).
  assert (Hl : forall h f, <[next := f0]> futures !! h = Some f ->
            (h = next /\ f = f0) \/ (h <> next /\ futures !! h = Some f /\ fut_id f <> st_id t)).
  { intros h f Hf. apply lookup_insert_Some in Hf as [[<- <-]|[Hne Hf]]; [by left|right].
    split; [done|]. split; [done|]. by apply (Hno h). }
  constructor; try done.
  - intros h f Hf. destruct (Hl h f Hf) as [[-> ->]|(_ & Hf' & _)]; [by left|by eapply H1].
  - intros h1 f1 h2 f2 E1 E2 He.
    destruct (Hl _ _ E1) as [[-> ->]|(N1 & F1 & G1)], (Hl _ _ E2) as [[-> ->]|(N2 & F2 & G2)];
      [done|by destruct G2|by destruct G1|by apply (H2 h1 f1 h2 f2)].
  - intros h Hh. rewrite lookup_insert_ne by lia. apply H3. lia.
  - intros h f Hf Ha. destruct (Hl h f Hf) as [[-> ->]|(_ & Hf' & _)]; [by left|].
    destruct (H4 h f Hf' Ha) as [?|[? _]]; [by left|done].
  - intros h f Hf Ha. destruct (Hl h f Hf) as [[-> ->]|(_ & Hf' & _)]; [by right|].
    destruct (H5 h f Hf' Ha); [by left|done].
  - intros id h [= <- <-] h' f Hf He.
    destruct (Hl h' f Hf) as [[-> ->]|(_ & _ & Hne)]; [done|by destruct Hne].
Qed.

(** Its handle is registered. *)
Lemma fut_inv_register o handles futures next id h :
  fut_inv o handles futures next (Spawned id h) ->
  fut_inv o (<[id := h]> handles) futures next UptimeDue.
Proof.
  intros [H1 H2 H3 H4 H5 H6 H7]. constructor; try done.
  - intros h' f Hf Ha. destruct (H4 h' f Hf Ha) as [?|[? _]]; [by left|done].
  - intros h' f Hf Ha. left. destruct (decide (fut_id f = id)) as [He|Hne].
    + rewrite He, lookup_insert_eq. f_equal. symmetry. by apply (H7 id h eq_refl h' f).
    + rewrite lookup_insert_ne by done. destruct (H5 h' f Hf Ha) as [?|[= ? _]]; [done|congruence].
Qed.

Lemma abort_spec futures h h' f' :
  abort_future futures h !! h' = Some f' ->
  exists f, futures !! h' = Some f /\ fut_id f = fut_id f' /\
    (active f' = true -> active f = true /\ h' <> h).
Proof.
  unfold abort_future. intros Hf. apply lookup_alter_Some in Hf as [(-> & f & Hf & ->)|[Hne Hf]].
  - exists f. split; [done|]. split; [done|]. unfold active. cbn. by rewrite andb_false_r.
  - exists f'. naive_solver.
Qed.

(** All handles are aborted. *)
Lemma abort_all_spec l : forall futures h' f',
  foldr (fun (kh : TaskId * nat) futures => abort_future futures kh.2) futures l !! h' = Some f' ->
  exists f, futures !! h' = Some f /\ fut_id f = fut_id f' /\
    (active f' = true -> active f = true /\ h' ∉ l.*2).
Proof.
  induction l as [|[k h] l IH]; intros futures h' f' Hf; [exists f'; set_solver|].
  cbn [foldr snd] in Hf. apply abort_spec in Hf as (f & Hf & <- & Ha).
  apply IH in Hf as (g & Hg & <- & Hb). exists g. split; [done|]. split; [done|]. intros Hact.
  destruct (Ha Hact) as [Hact' Hne]. destruct (Hb Hact') as [? Hnin]. split; [done|].
  rewrite fmap_cons. cbn. set_solver.
Qed.

(** The number of active tasks. *)
Lemma active_ids_nodup o handles futures next pc :
  fut_inv o handles futures next pc -> NoDup (active_ids futures).
Proof.
  intros Hi. unfold active_ids. apply NoDup_fmap_2_strong.
  - intros [h1 f1] [h2 f2] E1 E2 He. apply list_elem_of_filter in E1 as [_ E1], E2 as [_ E2].
    apply elem_of_map_to_list in E1, E2. cbn in He.
    assert (h1 = h2) as <- by (eapply (fi_unique _ _ _ _ _ Hi); eauto). congruence.
  - apply NoDup_filter, NoDup_map_to_list.
Qed.

Lemma elem_of_active_ids futures id :
  id ∈ active_ids futures <-> exists h f, futures !! h = Some f /\ active f = true /\ fut_id f = id.
Proof.
  unfold active_ids. rewrite list_elem_of_fmap. split.
  - intros ([h f] & -> & Hf). apply list_elem_of_filter in Hf as [Ha Hf].
    apply elem_of_map_to_list in Hf. eauto.
  - intros (h & f & Hf & Ha & <-). exists (h, f). split; [done|].
    apply list_elem_of_filter. split; [done|]. by apply elem_of_map_to_list.
Qed.

Lemma active_bound o handles futures next pc :
  fut_inv o handles futures next pc -> (size (at_work o) <= concurrent)%nat ->
  (length (active_ids futures) <= concurrent)%nat.
Proof.
  intros Hi Hc. rewrite <- (size_list_to_set (C := gset TaskId)) by (by eapply active_ids_nodup).
  assert (Hin : forall id, id ∈ active_ids futures -> id ∈ dom (at_work o) \/
            (pc = Cancelling id /\ (size (at_work o) < concurrent)%nat)).
  { intros id Hid. apply elem_of_active_ids in Hid as (h & f & Hf & Ha & <-).
    rewrite elem_of_dom. by eapply (fi_active _ _ _ _ _ Hi). }
  rewrite <- size_dom in Hc, Hin. destruct (decide (size (dom (at_work o)) < concurrent)%nat) as [Hlt|Hge].
  - destruct pc as [| | |cid| | | | |].
    4:{ transitivity (size ({[cid]} ∪ dom (at_work o))).
        - apply subseteq_size. intros id Hid. apply elem_of_list_to_set in Hid.
          destruct (Hin id Hid) as [?|[[= ->] _]]; set_solver.
        - pose proof (size_union_alt {[cid]} (dom (at_work o))) as Hs.
          rewrite size_singleton in Hs.
          pose proof (subseteq_size (dom (at_work o) ∖ {[cid]}) (dom (at_work o)) ltac:(set_solver)).
          lia. }
    all: transitivity (size (dom (at_work o))); [|lia]; apply subseteq_size;
      intros id Hid; apply elem_of_list_to_set in Hid;
      destruct (Hin id Hid) as [?|[Hpc _]]; done.
  - transitivity (size (dom (at_work o))); [|done]. apply subseteq_size. intros id Hid.
    apply elem_of_list_to_set in Hid. destruct (Hin id Hid) as [?|[_ ?]]; [done|lia].
Qed.

End Invariant.

(** ** The office without retries *)

Definition calm (o : Office) : Prop :=
  (forall t, t ∈ waiting o -> no_retry t) /\ (forall id t, at_work o !! id = Some t -> no_retry t).

Lemma no_retry_can t now r : no_retry t -> can_retry (mark_ended t now r) = false.
Proof.
  intros Hn. unfold can_retry. cbn. rewrite (bool_decide_eq_false_2 (_ < _)) by (unfold no_retry in Hn; lia).
  apply andb_false_r.
Qed.

Lemma office_end_cancelled o id t now :
  office_end o id (mark_cancelled t now) =
    {| waiting := waiting o; at_work := delete id (at_work o);
       finished := <[id := mark_cancelled t now]> (finished o) |}.
Proof. done. Qed.

Section Step.
Context (capacity concurrent : nat).
Local Abbreviation office_run := (office_run capacity concurrent).

Lemma calm_complete o now id r t :
  calm o -> at_work o !! id = Some t ->
  office_run o (OComplete now id r) =
    ({| waiting := waiting o; at_work := delete id (at_work o);
        finished := <[id := mark_ended t now r]> (finished o) |}, ADone (Ok tt)).
Proof.
  intros [_ Hc] Ht. cbn [Shadow.office_run]. rewrite Ht.
  rewrite no_retry_can by (by eapply Hc). rewrite andb_false_r. unfold office_end.
  rewrite bool_decide_eq_false_2; [done|]. cbn. by destruct (tr_success r).
Qed.

Lemma calm_step q o op :
  office_rel capacity concurrent q o -> calm o -> (forall t, op = OEnqueue t -> no_retry t) ->
  calm (office_run o op).1.
Proof.
  intros Hr Hcalm Hop. pose proof Hcalm as [Hw Ha]. destruct op as [t|now|now id r|now id].
  - cbn [Shadow.office_run]. case_bool_decide; [done|]. split; [|done]. cbn. intros u Hu.
    apply elem_of_app in Hu as [Hu|Hu]; [by apply Hw|]. apply list_elem_of_singleton in Hu as ->.
    by apply (Hop t).
  - cbn [Shadow.office_run]. case_bool_decide; [done|].
    pose proof (rel_head _ _ _ _ Hr) as Hh.
    destruct (next_task (waiting o)) as [t|]; [|done]. destruct (q_queue q); [done|].
    destruct Hh as (t' & [= <-] & Hin & _). split; cbn.
    + intros u Hu. apply list_elem_of_filter in Hu as [_ Hu]. by apply Hw.
    + intros i u Hu. apply lookup_insert_Some in Hu as [[_ <-]|[_ Hu]]; [by apply (Hw t)|by eapply Ha].
  - destruct (at_work o !! id) as [t|] eqn:Ea.
    + rewrite (calm_complete _ _ _ _ t) by done. split; [done|]. cbn. intros i u Hu.
      apply lookup_delete_Some in Hu as [_ Hu]. by eapply Ha.
    + cbn [Shadow.office_run]. by rewrite Ea.
  - cbn [Shadow.office_run]. destruct (List.find _ (waiting o)) as [t|].
    + split; [|done]. cbn. intros u Hu. apply list_elem_of_filter in Hu as [_ Hu]. by apply Hw.
    + destruct (at_work o !! id) as [t|] eqn:Ea; [|done]. rewrite office_end_cancelled.
      split; [done|]. cbn. intros i u Hu.
      apply lookup_delete_Some in Hu as [_ Hu]. by eapply Ha.
Qed.

(** The queue of the executor takes one of its steps. *)
Record queue_inv (q : TaskQueue) (o : Office) : Prop := {
  qi_rel : office_rel capacity concurrent q o;
  qi_ok : office_ok capacity concurrent o;
  qi_calm : calm o
}.

Lemma queue_inv_step q o op :
  queue_inv q o -> (forall t, op = OEnqueue t -> no_retry t /\ ~ known o (st_id t)) ->
  exists o' a, office_run o op = (o', a) /\ (queue_run q op).2 = a /\
    queue_inv (queue_run q op).1 o' /\
    forall id, known o' id -> known o id \/ exists t, op = OEnqueue t /\ id = st_id t.
Proof.
  intros [Hr Hok Hc] Hop. destruct (rel_step capacity concurrent q o op Hr) as (q' & o' & a & Eq & Eo & Hr').
  { intros t Ht. by apply Hop. }
  exists o', a. rewrite Eq. repeat (split; [done|]). split.
  - constructor; [done|..].
    + pose proof (ok_step capacity concurrent q o op Hr Hok) as Hk. by rewrite Eo in Hk.
    + pose proof (calm_step q o op Hr Hc) as Hk. rewrite Eo in Hk. apply Hk.
      intros t Ht. by apply Hop.
  - intros id Hid. apply (known_step capacity concurrent q o op id Hr). by rewrite Eo.
Qed.

(** ** The executor *)

Definition submitted_task (c : ExecutorCommand) : option ShadowTask :=
  match c with SubmitTask t => Some t | _ => None end.
Definition pending (x : Executor) : list ShadowTask := omap submitted_task (ex_inbox x).

Record exec_inv (past : list TaskId) (x : Executor) (o : Office) : Prop := {
  ei_queue : queue_inv (ex_queue x) o;
  ei_futures : fut_inv concurrent o (ex_handles x) (ex_futures x) (ex_next x) (ex_pc x);
  ei_known : forall id, known o id -> id ∈ past;
  ei_pending : forall t, t ∈ pending x -> st_id t ∈ past /\ no_retry t /\ ~ known o (st_id t);
  ei_nodup : NoDup (st_id <$> pending x)
}.

Lemma exec_inv_call past x o c :
  exec_inv past x o ->
  (forall t, submitted_task c = Some t -> (st_id t ∉ past) /\ no_retry t) ->
  exec_inv (past ++ option_list (st_id <$> submitted_task c)) ((send_command x c).1) o.
Proof.
  intros [Hq Hf Hk Hp Hn] Hc.
  assert (Hmono : exec_inv (past ++ option_list (st_id <$> submitted_task c)) x o).
  { constructor; try done.
    - intros id Hid. apply elem_of_app. left. auto.
    - intros t Ht. destruct (Hp t Ht) as (? & ? & ?). rewrite elem_of_app. auto. }
  unfold send_command. destruct (ex_sender x) as [ch|]; [|exact Hmono].
  case_bool_decide; [|exact Hmono].
  assert (Hpend : pending (set_channel x (ex_inbox x ++ [c]) (Some ch) (ex_receiver x))
                  = pending x ++ option_list (submitted_task c)).
  { unfold pending. cbn. rewrite omap_app. cbn. by destruct (submitted_task c). }
  destruct Hmono as [Mq Mf Mk Mp Mn]. cbn [fst]. constructor; try done; rewrite ?Hpend.
  - intros t Ht. apply elem_of_app in Ht as [Ht|Ht]; [by apply Mp|].
    destruct (submitted_task c) as [u|] eqn:Ec; [|by apply elem_of_nil in Ht].
    apply list_elem_of_singleton in Ht as ->. destruct (Hc u eq_refl) as [Hnew Hnr].
    split; [cbn; set_solver|]. split; [done|]. intros Hkn. by apply Hnew, Hk.
  - rewrite fmap_app. apply NoDup_app. split; [done|].
    destruct (submitted_task c) as [u|] eqn:Ec; cbn; [|split; [set_solver|apply NoDup_nil_2]].
    split; [|apply NoDup_singleton]. intros id Hid Hid'. apply list_elem_of_singleton in Hid' as ->.
    apply list_elem_of_fmap in Hid as (t & He & Ht). destruct (Hc u eq_refl) as [Hnew _].
    apply Hnew. rewrite He. by apply Hp.
Qed.

Section Machine.
Context `{Env} (err_text debug_str : string -> string).
Context (toml_error : string -> option (option nat * string)).
Context (json_error : string -> option (Z * Z * string)).
Context (visit : gmap TaskId ShadowTask -> list ShadowTask).

(** The loop changes its place, and nothing else that matters here. *)
Lemma exec_inv_pc past x x' o :
  exec_inv past x o -> ex_queue x' = ex_queue x -> ex_handles x' = ex_handles x ->
  ex_futures x' = ex_futures x -> ex_next x' = ex_next x -> ex_inbox x' = ex_inbox x ->
  plain (ex_pc x) = true -> harmless (ex_pc x') = true -> exec_inv past x' o.
Proof.
  intros [Hq Hf Hk Hp Hn] Eq Eh Ef En Ei P1 P2. constructor; unfold pending in *;
    rewrite ?Eq, ?Eh, ?Ef, ?En, ?Ei; try done. eapply fut_inv_pc; [exact P1|exact P2|exact Hf].
Qed.

(** The queue takes a step, and the loop goes where the futures allow. *)
Lemma exec_inv_queue past x x' o op o' a :
  exec_inv past x o -> ex_queue x' = (queue_run (ex_queue x) op).1 ->
  ex_inbox x' = ex_inbox x -> (forall t, op <> OEnqueue t) -> office_run o op = (o', a) ->
  fut_inv concurrent o' (ex_handles x') (ex_futures x') (ex_next x') (ex_pc x') ->
  exec_inv past x' o'.
Proof.
  intros [Hq Hf Hk Hp Hn] Eq Ei Hop Eo Hf'.
  destruct (queue_inv_step _ _ op Hq) as (o2 & a2 & Eo2 & _ & Hq' & Hkn).
  { intros t Ht. by apply Hop in Ht. }
  rewrite Eo in Eo2. injection Eo2 as <- <-.
  assert (Hold : forall id, known o' id -> known o id).
  { intros id Hid. destruct (Hkn id Hid) as [?|(t & Ht & _)]; [done|by apply Hop in Ht]. }
  constructor; unfold pending in *; rewrite ?Eq, ?Ei; try done; [by auto|].
  intros t Ht. destruct (Hp t Ht) as (? & ? & Hu). repeat (split; [done|]). auto.
Qed.

(** ** Steps of the loop *)

Lemma inv_submit past x o now inbox t :
  exec_inv past x o -> ex_inbox x = SubmitTask t :: inbox -> ex_pc x = AtSelect ->
  exists o', exec_inv past (receive visit (set_channel x inbox (ex_sender x) (ex_receiver x)) now
                              (SubmitTask t)) o'.
Proof.
  intros [Hq Hf Hk Hp Hn] Ei Epc. unfold pending in Hp, Hn. rewrite Ei in Hp, Hn. cbn in Hp, Hn.
  apply NoDup_cons in Hn as [Hnew Hn].
  destruct (Hp t ltac:(set_solver)) as (Hpast & Hnr & Hu).
  destruct (queue_inv_step _ _ (OEnqueue t) Hq) as (o' & a & Eo & Ea & Hq' & Hkn).
  { by intros ? [= <-]. }
  exists o'.
  assert (Hsame : at_work o' = at_work o /\ finished o' = finished o).
  { cbn [Shadow.office_run] in Eo. case_bool_decide; injection Eo as <- _; done. }
  assert (Hf' : fut_inv concurrent o' (ex_handles x) (ex_futures x) (ex_next x) AtSelect).
  { rewrite Epc in Hf. destruct Hsame as [E1 E2].
    eapply fut_inv_office; [exact Hf|rewrite ?E1, ?E2; auto..]. }
  assert (Hrest : forall y, ex_queue y = (queue_run (ex_queue x) (OEnqueue t)).1 ->
    ex_inbox y = inbox -> ex_handles y = ex_handles x -> ex_futures y = ex_futures x ->
    ex_next y = ex_next x -> harmless (ex_pc y) = true -> exec_inv past y o').
  { intros y E1 E2 E3 E4 E5 E6. constructor; unfold pending; rewrite ?E1, ?E2, ?E3, ?E4, ?E5.
    - done.
    - eapply fut_inv_pc; [|exact E6|exact Hf']. done.
    - intros id Hid. destruct (Hkn id Hid) as [?|(? & [= <-] & ->)]; auto.
    - intros u Hin. destruct (Hp u ltac:(set_solver)) as (? & ? & Hun). repeat (split; [done|]).
      intros Hku. destruct (Hkn _ Hku) as [?|(? & [= <-] & He)]; [done|]. apply Hnew.
      rewrite <- He. by apply list_elem_of_fmap_2.
    - done. }
  unfold receive. cbn [ex_queue set_channel]. unfold queue_run in Hrest.
  destruct (enqueue (ex_queue x) t) as [q [id|e]]; cbn in Hrest; apply Hrest; try done; cbn; by rewrite Epc.
Qed.

Lemma inv_cancel past x o now inbox id :
  exec_inv past x o -> ex_inbox x = CancelTask id :: inbox -> ex_pc x = AtSelect ->
  exists o', exec_inv past (receive visit (set_channel x inbox (ex_sender x) (ex_receiver x)) now
                              (CancelTask id)) o'.
Proof.
  intros Hi Ei Epc. pose proof Hi as [Hq Hf Hk Hp Hn].
  destruct (office_run o (OCancel now id)) as [o' a] eqn:Eo. exists o'.
  assert (Hi0 : exec_inv past (set_channel x inbox (ex_sender x) (ex_receiver x)) o).
  { unfold pending in Hp, Hn. rewrite Ei in Hp, Hn. by constructor. }
  eapply (exec_inv_queue _ _ _ _ (OCancel now id) o' a Hi0); [|done|done|done|].
  { unfold receive, queue_run. cbn. by destruct (cancel_task (ex_queue x) now id). }
  cbn. rewrite Epc in Hf. clear Hi0.
  cbn [Shadow.office_run] in Eo.
  destruct (List.find _ (waiting o)) as [t|]; [|destruct (at_work o !! id) as [t|] eqn:Ea].
  - injection Eo as <- _. eapply fut_inv_pc, fut_inv_office; [| |exact Hf|..]; try done; cbn; [auto|].
    intros i Hx. apply lookup_insert_is_Some. destruct (decide (id = i)); auto.
  - rewrite office_end_cancelled in Eo. injection Eo as <- _.
    assert (Hlt : (size (delete id (at_work o)) < concurrent)%nat).
    { pose proof (ok_concurrent _ _ _ (qi_ok _ _ Hq)) as Hc.
      assert (size (at_work o) <> O) by (apply map_size_ne_0_lookup; eauto).
      rewrite map_size_delete_Some by eauto. lia. }
    assert (Hsplit : forall i, is_Some (at_work o !! i) -> i = id \/ is_Some (delete id (at_work o) !! i)).
    { intros i Hx. rewrite lookup_delete_is_Some. destruct (decide (i = id)); auto. }
    assert (Hfin : forall i, i = id \/ is_Some (finished o !! i) ->
              is_Some (<[id := mark_cancelled t now]> (finished o) !! i)).
    { intros i Hx. apply lookup_insert_is_Some. destruct (decide (id = i)); naive_solver. }
    destruct Hf as [H1 H2 H3 H4 H5 H6 H7]. constructor; cbn; try done.
    + intros h f Hf. destruct (H1 h f Hf) as [Hx|Hx]; [|by auto]. destruct (Hsplit _ Hx); auto.
    + intros h f Hf Hact. destruct (H4 h f Hf Hact) as [Hx|[? _]]; [|done].
      destruct (Hsplit _ Hx) as [<-|]; auto.
    + intros h f Hf Hact. destruct (H5 h f Hf Hact); [auto|done].
  - injection Eo as <- _. by eapply fut_inv_pc; [| |exact Hf].
Qed.

Lemma inv_tick past x o now :
  exec_inv past x o -> ex_pc x = AtSelect -> exists o', exec_inv past (heartbeat x now) o'.
Proof.
  intros Hi Epc. unfold heartbeat.
  assert (Hidle : exec_inv past (set_pc x UptimeDue) o).
  { eapply exec_inv_pc; [exact Hi|done..|by rewrite Epc|done]. }
  destruct (has_capacity_to_run (ex_queue x)); [|by exists o].
  pose proof Hi as [Hq Hf Hk Hp Hn]. destruct (office_run o (ODequeue now)) as [o' a] eqn:Eo.
  destruct (queue_inv_step _ _ (ODequeue now) Hq) as (o2 & a2 & Eo2 & Ea & _); [done|].
  rewrite Eo in Eo2. injection Eo2 as <- <-. unfold queue_run in Ea.
  exists o'.
  eapply (exec_inv_queue _ _ _ _ (ODequeue now) o' a Hi); unfold queue_run; [..|exact Eo|].
  1-3: destruct (dequeue (ex_queue x) now) as [q [t|]]; done.
  assert (Hf' : match a with
                | ATaken (Some t) =>
                    fut_inv concurrent o' (ex_handles x) (ex_futures x) (ex_next x) (Taken t)
                | _ => fut_inv concurrent o' (ex_handles x) (ex_futures x) (ex_next x) UptimeDue
                end).
  { rewrite Epc in Hf. cbn [Shadow.office_run] in Eo.
    case_bool_decide; [injection Eo as <- <-; by eapply fut_inv_pc; [| |exact Hf]|].
    pose proof (rel_head _ _ _ _ (qi_rel _ _ Hq)) as Hh.
    destruct (next_task (waiting o)) as [t|];
      [|injection Eo as <- <-; by eapply fut_inv_pc; [| |exact Hf]].
    destruct (q_queue (ex_queue x)); [done|]. destruct Hh as (t' & [= <-] & Hin & _).
    destruct (rel_waiting _ _ _ _ (qi_rel _ _ Hq) t Hin) as [Hn1 Hn2].
    injection Eo as <- <-. destruct Hf as [H1 H2 H3 H4 H5 H6 H7].
    assert (Hmore : forall i, is_Some (at_work o !! i) ->
              is_Some (<[st_id t := mark_running t now]> (at_work o) !! i)).
    { intros i Hx. apply lookup_insert_is_Some. destruct (decide (st_id t = i)); auto. }
    constructor; cbn; try done.
    - intros h f Hf. destruct (H1 h f Hf); auto.
    - intros h f Hf Hact. destruct (H4 h f Hf Hact) as [?|[? _]]; [auto|done].
    - intros h f Hf Hact. destruct (H5 h f Hf Hact); [auto|done].
    - intros u [= <-]. rewrite lookup_insert_eq. split; [eauto|]. intros h f Hf He. cbn in He.
      destruct (H1 h f Hf) as [[? Hx]|[? Hx]]; rewrite He in Hx; congruence. }
  destruct (dequeue (ex_queue x) now) as [q [t|]]; cbn in Ea; subst a; exact Hf'.
Qed.

(** The futures change, and the queue and the inbox do not. *)
Lemma exec_inv_futures past x x' o :
  exec_inv past x o -> ex_queue x' = ex_queue x -> ex_inbox x' = ex_inbox x \/ ex_inbox x' = [] ->
  fut_inv concurrent o (ex_handles x') (ex_futures x') (ex_next x') (ex_pc x') -> exec_inv past x' o.
Proof.
  intros [Hq Hf Hk Hp Hn] Eq Ei Hf'. constructor; unfold pending in *; rewrite ?Eq; try done;
    destruct Ei as [-> | ->]; try done; cbn; [set_solver|apply NoDup_nil_2].
Qed.

Lemma inv_cancelling past x o id :
  exec_inv past x o -> ex_pc x = Cancelling id ->
  fut_inv concurrent o
    (match ex_handles x !! id with Some h => delete id (ex_handles x) | None => ex_handles x end)
    (match ex_handles x !! id with Some h => abort_future (ex_futures x) h | None => ex_futures x end)
    (ex_next x) AtSelect.
Proof.
  intros [_ Hf _ _ _] Epc. rewrite Epc in Hf.
  destruct (ex_handles x !! id) as [h|] eqn:Eh; apply (fut_inv_cancelled _ _ _ _ _ id).
  - assert (Hs : fut_inv concurrent o (ex_handles x) (abort_future (ex_futures x) h) (ex_next x)
                   (Cancelling id)).
    { eapply fut_inv_shrink; [exact Hf|]. intros h' f' Hl. apply abort_spec in Hl. naive_solver. }
    apply fut_inv_unregister; [done|]. intros h' f' Hl Ha He. apply abort_spec in Hl.
    destruct Hl as (f & Hl & Hid & Hact). destruct (Hact Ha) as [Hact' Hne].
    destruct (fi_registered _ _ _ _ _ _ Hf h' f Hl Hact'); congruence.
  - intros h' f' Hl Ha He. apply abort_spec in Hl.
    destruct Hl as (f & Hl & Hid & Hact). destruct (Hact Ha) as [Hact' Hne].
    destruct (fi_registered _ _ _ _ _ _ Hf h' f Hl Hact'); congruence.
  - exact Hf.
  - intros h f Hl Ha He. destruct (fi_registered _ _ _ _ _ _ Hf h f Hl Ha); congruence.
Qed.

Lemma inv_continue past x o now now2 x' :
  exec_inv past x o -> loop_continue debug_str x now now2 = Some x' -> exec_inv past x' o.
Proof.
  intros Hi Hc. unfold loop_continue in Hc.
  destruct (ex_pc x) as [| |task_id name|id|t|id h| | |] eqn:Epc; try discriminate Hc;
    injection Hc as <-.
  - eapply exec_inv_pc; [exact Hi|done..|by rewrite Epc|done].
  - pose proof (inv_cancelling past x o id Hi Epc) as Hf.
    destruct (ex_handles x !! id); (eapply exec_inv_futures; [exact Hi|done|by left|exact Hf]).
  - eapply exec_inv_futures; [exact Hi|done|by left|]. apply fut_inv_spawn.
    rewrite <- Epc. apply Hi.
  - eapply exec_inv_futures; [exact Hi|done|by left|]. apply fut_inv_register.
    rewrite <- Epc. apply Hi.
  - eapply exec_inv_pc; [exact Hi|done..|by rewrite Epc|done].
  - eapply exec_inv_futures; [exact Hi|done|by right|]. cbn.
    pose proof (ei_futures _ _ _ Hi) as Hf. rewrite Epc in Hf.
    assert (Hnone : forall h f', foldr (fun (kh : TaskId * nat) futures => abort_future futures kh.2)
              (ex_futures x) (map_to_list (ex_handles x)) !! h = Some f' -> active f' = false).
    { intros h f' Hl. apply abort_all_spec in Hl as (f & Hl & _ & Ha).
      destruct (active f') eqn:E; [|done]. destruct (Ha eq_refl) as [Hact Hnin].
      destruct (fi_registered _ _ _ _ _ _ Hf h f Hl Hact) as [Hr|?]; [|done].
      destruct Hnin. apply elem_of_map_to_list in Hr. by apply (list_elem_of_fmap_2 snd) in Hr. }
    eapply fut_inv_shrink in Hf.
    + destruct Hf as [H1 H2 H3 H4 H5 H6 H7]. constructor; [exact H1|exact H2|exact H3|..]; try done.
      * intros h f Hl Ha. by rewrite (Hnone h f Hl) in Ha.
      * intros h f Hl Ha. by rewrite (Hnone h f Hl) in Ha.
    + intros h f' Hl. apply abort_all_spec in Hl. naive_solver.
Qed.

(** ** Steps of a future *)

Lemma fut_inv_stage o handles futures next pc h f stage :
  fut_inv concurrent o handles futures next pc -> futures !! h = Some f ->
  (executing {| fut_task := fut_task f; fut_stage := stage; fut_aborted := fut_aborted f |} = true ->
   executing f = true) ->
  fut_inv concurrent o handles
    (<[h := {| fut_task := fut_task f; fut_stage := stage; fut_aborted := fut_aborted f |}]> futures)
    next pc.
Proof.
  intros Hi Hf Hs. eapply fut_inv_shrink; [exact Hi|]. intros h' f' Hl.
  apply lookup_insert_Some in Hl as [[<- <-]|[_ Hl]]; [|by exists f'].
  exists f. split; [done|]. split; [done|]. unfold active. cbn.
  rewrite !andb_true_iff. intros [He Ha]. auto.
Qed.

Lemma inv_complete past x o now r h f success duration :
  exec_inv past x o -> ex_futures x !! h = Some f -> executing f = true ->
  exists o', exec_inv past
    (set_stage (set_tasks x (complete_task (ex_queue x) now (fut_id f) r).1) h f
       (Stored success duration)) o'.
Proof.
  intros Hi Hl He. pose proof Hi as [Hq Hf _ _ _].
  pose proof (fut_inv_stage _ _ _ _ _ h f (Stored success duration) Hf Hl ltac:(done)) as Hf'.
  destruct (office_run o (OComplete now (fut_id f) r)) as [o' a] eqn:Eo. exists o'.
  eapply (exec_inv_queue _ _ _ _ (OComplete now (fut_id f) r) o' a Hi); [|done|done|exact Eo|].
  { unfold queue_run. cbn. by destruct (complete_task (ex_queue x) now (fut_id f) r). }
  cbn. destruct (at_work o !! fut_id f) as [t|] eqn:Ea.
  2:{ cbn [Shadow.office_run] in Eo. rewrite Ea in Eo. by injection Eo as <- _. }
  rewrite (calm_complete _ _ _ _ t) in Eo by (done || apply Hq). injection Eo as <- _.
  assert (Hkeep : forall i, i <> fut_id f -> is_Some (at_work o !! i) ->
            is_Some (delete (fut_id f) (at_work o) !! i)).
  { intros i Hne Hx. apply lookup_delete_is_Some. auto. }
  eapply fut_inv_office; [exact Hf'|..]; cbn.
  - intros i Hx. destruct (decide (i = fut_id f)) as [->|Hne]; [|left; auto].
    right. rewrite lookup_insert_eq. eauto.
  - intros i Hx. apply lookup_insert_is_Some. destruct (decide (fut_id f = i)); auto.
  - intros h' f' Hl' Ha. apply Hkeep. intros Hid.
    apply lookup_insert_Some in Hl' as [[<- <-]|[Hne Hl']]; [done|]. apply Hne.
    by apply (fi_unique _ _ _ _ _ _ Hf h f h' f').
  - intros u Hpc. apply Hkeep. intros Hid.
    by apply (proj2 (fi_taken _ _ _ _ _ _ Hf u Hpc) h f Hl).
  - intros i _. rewrite map_size_delete, Ea. lia.
Qed.

Lemma inv_future past x o h f input x' :
  exec_inv past x o -> ex_futures x !! h = Some f ->
  future_step err_text debug_str toml_error json_error x h f input = Some x' ->
  exists o', exec_inv past x' o'.
Proof.
  intros Hi Hl Hs.
  assert (Hst : forall y stage, ex_queue y = ex_queue x -> ex_inbox y = ex_inbox x ->
    ex_handles y = ex_handles x -> ex_futures y = ex_futures x -> ex_next y = ex_next x ->
    ex_pc y = ex_pc x ->
    (executing {| fut_task := fut_task f; fut_stage := stage; fut_aborted := fut_aborted f |} = true ->
     executing f = true) ->
    exists o', exec_inv past (set_stage y h f stage) o').
  { intros y stage E1 E2 E3 E4 E5 E6 Hex. exists o.
    eapply exec_inv_futures; [exact Hi|exact E1|left; exact E2|]. cbn. rewrite E3, E4, E5, E6.
    by apply fut_inv_stage; [apply Hi|..]. }
  unfold future_step in Hs. unfold executing in Hst.
  destruct (fut_stage f) eqn:Es, input as [fl ck el|oc el|el|now now2]; try discriminate Hs;
    injection Hs as <-; try (by apply Hst).
  - unfold future_begin. destruct (task_action (fut_task f)) as [[action op]|].
    + destruct (dispatch _ _ _ _ fl (ex_world x) ck action). by apply Hst.
    + destruct (into_tokio_command _ _); by apply Hst.
  - apply inv_complete with (o := o); [done..|]. unfold executing. by rewrite Es.
  - exists o. eapply exec_inv_futures; [exact Hi|done|by left|]. cbn.
    apply fut_inv_unregister.
    + eapply fut_inv_shrink; [apply Hi|]. intros h' f' Hd. apply lookup_delete_Some in Hd as [_ Hd].
      by exists f'.
    + intros h' f' Hd _ Hid. apply lookup_delete_Some in Hd as [Hne Hd]. apply Hne.
      by apply (fi_unique _ _ _ _ _ _ (ei_futures _ _ _ Hi) h f h' f').
Qed.

(** The identifiers that a step brings in, and what is asked of its task. *)
Definition called (l : Label) : option ShadowTask :=
  match l with Call c => submitted_task c | _ => None end.

Lemma executor_inv_step past x o l x' :
  exec_inv past x o ->
  exec_step err_text debug_str toml_error json_error visit x l = Some x' ->
  (forall t, called l = Some t -> (st_id t ∉ past) /\ no_retry t) ->
  exists o', exec_inv (past ++ option_list (st_id <$> called l)) x' o'.
Proof.
  intros Hi Hs Hc. destruct l as [c|now| |now|now now2|h input|h]; cbn [exec_step called] in Hs, Hc |- *;
    cbn [option_map fmap option_fmap option_list]; rewrite ?app_nil_r.
  - injection Hs as <-. exists o. by apply exec_inv_call.
  - destruct (ex_pc x) eqn:Epc; try discriminate Hs.
    destruct (ex_inbox x) as [|c inbox] eqn:Ei; [discriminate Hs|]. injection Hs as <-.
    assert (Hother : exec_inv past (set_channel x inbox (ex_sender x) (ex_receiver x)) o \/
                     exists t, c = SubmitTask t).
    { pose proof Hi as [Hq Hf Hk Hp Hn]. unfold pending in Hp, Hn. rewrite Ei in Hp, Hn.
      destruct c; [right; eauto|left; by constructor..]. }
    destruct c as [t|id|id| | |]; [by eapply inv_submit|by eapply inv_cancel|..];
      (destruct Hother as [Ho|[? ?]]; [|done]); exists o;
      (eapply exec_inv_futures; [exact Ho|done|by left|]); cbn; try apply Hi.
    eapply fut_inv_pc; [| |apply Hi]; [by rewrite Epc|done].
  - destruct (ex_pc x) eqn:Epc, (ex_inbox x); try discriminate Hs. injection Hs as <-. exists o.
    eapply exec_inv_pc; [exact Hi|done..|by rewrite Epc|done].
  - destruct (ex_pc x) eqn:Epc; try discriminate Hs. injection Hs as <-. by eapply inv_tick.
  - exists o. by eapply inv_continue.
  - destruct (ex_futures x !! h) as [f|] eqn:Ef; [|discriminate Hs]. by eapply inv_future.
  - destruct (ex_futures x !! h) as [f|] eqn:Ef; [|discriminate Hs]. cbn in Hs.
    destruct (fut_aborted f); [|discriminate Hs]. injection Hs as <-. exists o.
    eapply exec_inv_futures; [exact Hi|done|by left|]. cbn.
    eapply fut_inv_shrink; [apply Hi|]. intros h' f' Hd. apply lookup_delete_Some in Hd as [_ Hd].
    by exists f'.
Qed.

Local Abbreviation exec_run := (exec_run err_text debug_str toml_error json_error visit).

Lemma inv_run labels : forall past x o,
  exec_inv past x o -> Forall no_retry (omap called labels) ->
  NoDup (past ++ (st_id <$> omap called labels)) ->
  exists past' o', exec_inv past' (exec_run x labels) o'.
Proof.
  induction labels as [|l labels IH]; intros past x o Hi Hr Hn; [by exists past, o|].
  unfold ShadowExecutor.exec_run. cbn [foldl]. fold (exec_run (default x
    (exec_step err_text debug_str toml_error json_error visit x l)) labels).
  assert (Hnext : forall y oy, exec_inv (past ++ option_list (st_id <$> called l)) y oy ->
            exists past' o', exec_inv past' (exec_run y labels) o').
  { intros y oy Hy. apply (IH _ _ _ Hy).
    - cbn in Hr. destruct (called l); [by apply Forall_cons in Hr as [_ Hr]|done].
    - cbn in Hn. destruct (called l); cbn in Hn |- *; rewrite <- app_assoc; done. }
  assert (Hnew : forall t, called l = Some t -> (st_id t ∉ past) /\ no_retry t).
  { intros t Ht. cbn in Hr, Hn. rewrite Ht in Hr, Hn. apply Forall_cons in Hr as [? _].
    split; [|done]. apply NoDup_app in Hn as (_ & Hd & _). intros Hin.
    apply (Hd _ Hin). cbn. set_solver. }
  destruct (exec_step err_text debug_str toml_error json_error visit x l) as [x'|] eqn:Es; cbn.
  - destruct (executor_inv_step past x o l x' Hi Es Hnew) as [o' Hi']. by eapply Hnext.
  - apply (Hnext x o). destruct Hi as [Hq Hf Hk Hp Hnd]. constructor; try done.
    + intros id Hid. apply elem_of_app. auto.
    + intros t Ht. destruct (Hp t Ht) as (? & ? & ?). rewrite elem_of_app. auto.
Qed.

End Machine.
End Step.

(** ** The executor from its start *)

Section Executor.
Context `{Env} (err_text debug_str : string -> string).
Context (toml_error : string -> option (option nat * string)).
Context (json_error : string -> option (Z * Z * string)).
Context (visit : gmap TaskId ShadowTask -> list ShadowTask).
Local Abbreviation exec_run := (exec_run err_text debug_str toml_error json_error visit).

Lemma executor_started_inv config keypair disk toxic anchors x0 channel now now2 :
  new_with_key config keypair disk toxic anchors = Ok x0 ->
  exec_inv (max_queue_size config) (max_concurrent_tasks config) []
    (start debug_str x0 channel now now2).1 empty_office.
Proof.
  unfold new_with_key. intros Hn. destruct (negb _); [|done]. destruct (bool_decide _); [|done].
  injection Hn as <-. cbn. constructor; cbn.
  - constructor; [apply empty_rel|apply empty_ok|]. split; [cbn; set_solver|]. cbn. intros id t Ht.
    by rewrite lookup_empty in Ht.
  - constructor; cbn; try done; intros h f Hf; by rewrite lookup_empty in Hf.
  - intros id Hk. by apply empty_unknown in Hk.
  - unfold pending. cbn. set_solver.
  - apply NoDup_nil_2.
Qed.


(** ** Programs *)

Definition spawns (l : list Effect) : list CommandSpec :=
  omap (fun e => match e with Spawn spec => Some spec | _ => None end) l.

Lemma spawns_app l l' : spawns (l ++ l') = spawns l ++ spawns l'.
Proof. apply omap_app. Qed.

(** A step keeps the configuration, and adds only programs that are allowed. *)
Lemma step_spawns x l x' :
  exec_step err_text debug_str toml_error json_error visit x l = Some x' ->
  ex_config x' = ex_config x /\
  exists l', spawns (ex_effects x') = spawns (ex_effects x) ++ l' /\
    forall spec, spec ∈ l' -> cs_program spec ∈ allowed_programs (ex_config x).
Proof.
  assert (Hnone : forall y, ex_config y = ex_config x -> spawns (ex_effects y) = spawns (ex_effects x) ->
    ex_config y = ex_config x /\ exists l', spawns (ex_effects y) = spawns (ex_effects x) ++ l' /\
      forall spec, spec ∈ l' -> cs_program spec ∈ allowed_programs (ex_config x)).
  { intros y E1 E2. split; [done|]. exists []. rewrite app_nil_r. split; [done|]. set_solver. }
  intros Hs. destruct l as [c|now| |now|now now2|h input|h]; cbn [exec_step] in Hs.
  - injection Hs as <-. apply Hnone; unfold send_command; destruct (ex_sender x); try done;
      by case_bool_decide.
  - destruct (ex_pc x), (ex_inbox x) as [|c inbox]; try discriminate Hs. injection Hs as <-.
    apply Hnone; destruct c as [t|id|id| | |]; cbn;
      try (destruct (enqueue (ex_queue x) t) as [q [i|e]]); cbn;
      rewrite ?spawns_app; cbn; rewrite ?app_nil_r; done.
  - destruct (ex_pc x), (ex_inbox x); try discriminate Hs. injection Hs as <-. by apply Hnone.
  - destruct (ex_pc x); try discriminate Hs. injection Hs as <-.
    apply Hnone; unfold heartbeat; destruct (has_capacity_to_run (ex_queue x)); try done;
      by destruct (dequeue (ex_queue x) now) as [q [t|]].
  - unfold loop_continue in Hs. destruct (ex_pc x) as [| |? ?|id| | | | |]; try discriminate Hs;
      injection Hs as <-; (apply Hnone; [|try (destruct (ex_handles x !! id)); cbn;
        rewrite ?spawns_app; cbn; rewrite ?app_nil_r; done]);
      try (destruct (ex_handles x !! id)); done.
  - destruct (ex_futures x !! h) as [f|]; [|discriminate Hs]. cbn in Hs. unfold future_step in Hs.
    destruct (fut_stage f), input as [fl ck el|oc el|el|n n2]; try discriminate Hs; injection Hs as <-;
      try (apply Hnone; cbn; rewrite ?spawns_app; cbn; rewrite ?app_nil_r; done).
    unfold future_begin. destruct (task_action (fut_task f)) as [[action op]|].
    { destruct (dispatch _ _ _ _ fl (ex_world x) ck action).
      apply Hnone; cbn; rewrite ?spawns_app; cbn; rewrite ?app_nil_r; done. }
    unfold into_tokio_command, is_allowed. case_bool_decide as Hal; [|by apply Hnone].
    split; [done|]. exists [task_spec (fut_task f)]. cbn. rewrite spawns_app. split; [done|].
    intros spec Hin. apply list_elem_of_singleton in Hin as ->.
    unfold from_programs in Hal. by apply elem_of_list_to_set in Hal.
  - destruct (ex_futures x !! h) as [f|]; [|discriminate Hs]. cbn in Hs.
    destruct (fut_aborted f); [|discriminate Hs]. injection Hs as <-. by apply Hnone.
Qed.

(** Whatever tasks are submitted and however the steps fall, every program that is spawned is in
    the list of allowed programs; with the empty list none is. *)
Theorem only_allowed_programs config keypair disk toxic anchors x0 channel now now2 labels spec :
  new_with_key config keypair disk toxic anchors = Ok x0 ->
  spec ∈ spawns (ex_effects (exec_run (start debug_str x0 channel now now2).1 labels)) ->
  cs_program spec ∈ allowed_programs config.
Proof.
  intros Hnew Hs. set (x1 := (start debug_str x0 channel now now2).1) in Hs.
  assert (H0 : ex_config x1 = config /\ spawns (ex_effects x1) = []).
  { subst x1. unfold new_with_key in Hnew. destruct (negb _); [|done].
    destruct (bool_decide _); [|done]. by injection Hnew as <-. }
  destruct H0 as [Hcfg Hsp]. revert Hs Hcfg.
  assert (Hok : forall s, s ∈ spawns (ex_effects x1) -> cs_program s ∈ allowed_programs config).
  { rewrite Hsp. set_solver. }
  clear Hsp. generalize dependent x1. induction labels as [|l labels IH]; intros x Hok Hs Hcfg; [auto|].
  unfold ShadowExecutor.exec_run in Hs. cbn [foldl] in Hs.
  destruct (exec_step err_text debug_str toml_error json_error visit x l) as [x'|] eqn:Es; cbn in Hs.
  - destruct (step_spawns x l x' Es) as (Ec & l' & El & Hl').
    apply (IH x'); [|exact Hs|congruence]. intros s Hin. rewrite El in Hin.
    apply elem_of_app in Hin as [?|?]; [auto|]. rewrite <- Hcfg. auto.
  - by apply (IH x).
Qed.

End Executor.

(** ** Concrete runs *)

Definition toy_exec_config : ExecutorConfig :=
  {| max_queue_size := 10; max_concurrent_tasks := 1; task_timeout_seconds := 300;
     config_principal_id := principal_id (H := toy_env) "key"; allowed_programs := ["make"] |}.

Definition toy_started : Executor :=
  match new_with_key (H := toy_env) toy_exec_config "key" {| files := ∅; dirs := ∅ |} None None with
  | Ok x => (start toy_text x 1 0 0).1
  | Err _ => {| ex_config := toy_exec_config; ex_queue := queue_new 0 0; ex_lifecycle := lifecycle_new;
                ex_world := fresh_world; ex_handles := ∅; ex_futures := ∅; ex_next := O;
                ex_pc := NotStarted; ex_inbox := []; ex_sender := None; ex_receiver := None;
                ex_effects := [] |}
  end.

Definition visit_all (m : gmap TaskId ShadowTask) : list ShadowTask := (map_to_list m).*2.

Definition toy_exec (labels : list Label) : Executor :=
  exec_run (H := toy_env) toy_text toy_text no_toml no_json visit_all toy_started labels.

Definition program_task (id program : string) (retries : Z) : ShadowTask :=
  with_retries (task_new id 0 id program []) retries.

(** A command that the loop receives and serves to its end. *)
Definition served (c : ExecutorCommand) : list Label := [Call c; Receive 0; Continue 0 0].
(** A heartbeat that starts a task. *)
Definition started_task : list Label := [Tick 0; Continue 0 0; Continue 0 0; Continue 0 0].

Definition calm_story : list Label :=
  served (SubmitTask (program_task "a" "make" 0)) ++ served (SubmitTask (program_task "b" "make" 0))
  ++ started_task ++ started_task ++ [FutureGo 0 (Begin no_faults quiet_clock 0)].


(** A task that fails and is retried: the loop starts the second run before the first has ended
    its report, and the end of the first removes the handle of the second.  Cancelling the task
    then frees its place without aborting it, and another task runs beside it, although only one
    may run. *)
Definition retry_story : list Label :=
  served (SubmitTask (program_task "a" "make" 1)) ++ started_task
  ++ [FutureGo 0 (Begin no_faults quiet_clock 0); FutureGo 0 (Ended (Exited false "" "error") 1);
      FutureGo 0 (Go 0 0)]
  ++ started_task ++ [FutureGo 0 (Go 0 0); FutureGo 0 (Go 0 0); FutureGo 0 (Go 0 0)]
  ++ served (CancelTask "a") ++ served (SubmitTask (program_task "b" "make" 0)) ++ started_task.

Example retried_task_escapes :
  active_ids (ex_futures (toy_exec retry_story)) ≡ₚ ["a"; "b"] /\
  ex_handles (toy_exec retry_story) !! "a" = None /\
  (st_status <$> get_task (ex_queue (toy_exec retry_story)) "a") = Some Cancelled.
Proof. vm_compute. repeat split; try reflexivity. apply Permutation_swap. Qed.

(** The limit of time of a task is not read: only that of the configuration is. *)
Example own_timeout_ignored :
  forall seconds elapsed,
  let labels := served (SubmitTask (with_timeout (program_task "a" "make" 0) seconds)) ++ started_task
                ++ [FutureGo 0 (Begin no_faults quiet_clock 0); FutureGo 0 (TimeOut elapsed);
                    FutureGo 0 (Go 0 0)] in
  (get_task (ex_queue (toy_exec labels)) "a" ≫= st_result) ≫= tr_error
    = Some "timed out after 300s".
Proof. intros seconds elapsed. vm_compute. reflexivity. Qed.

(** Stopping the executor leaves its life cycle in the running state. *)
Example stopped_is_active :
  let x := toy_exec (served (SubmitTask (program_task "a" "make" 0)) ++ served Shutdown) in
  ex_pc x = Closed /\ lifecycle_is_active (ex_lifecycle x) = true.
Proof. vm_compute. done. Qed.

(** A second start fails, and leaves the executor without a way to be called. *)
Example second_start_disconnects :
  let x := (start toy_text toy_started 2 0 0).1 in
  (start toy_text toy_started 2 0 0).2 = Err (InvalidStateTransition "Starting" "Start") /\
  (send_command toy_started GetStats).2 = Ok tt /\ (send_command x GetStats).2 = Err ExecutorNotRunning.
Proof. vm_compute. done. Qed.
