(* ===== verification/Checkpoint.v ===== *)
(** * Checkpoints of a directory ([crates/zaion-checkpoint/src/lib.rs])

    A directory is copied into the working directory of a repository of its own, everything
    there is staged and committed; restoring writes the blobs of a commit back.  Directories are
    trees of names; links and faults of the disk are left out.  libgit2 is a parameter: what
    staging a working directory makes of the index, and the identifier of a commit.
    [list_checkpoints] is left out.

    Shown: restoring a checkpoint gives every file that was copied and staged its content of
    that time, whatever happened to the directory since and whatever checkpoints followed, and
    touches no file outside the recorded tree; when it succeeds.  Files that were deleted before
    the checkpoint come back too, because the working directory keeps them. *)

From stdpp Require Import prelude gmap strings list.
From S2P Require Import Prelude.
From S2P Require Import Env.
From S2P Require Import Concrete.
Local Open Scope res_scope.

(** The texts of [git2::Error] and of system errors are given. *)
Inductive CheckpointError : Type :=
| CGit (text : string)
| CIo (text : string)
| CNotFound (text : string)
| CInvalidPath (text : string).

Abbreviation CheckpointId := string (only parsing).

(** ** Directories *)

Inductive node : Type :=
| File (content : string)
| Dir (children : list (string * node)).

Abbreviation path := (list string) (only parsing).

Fixpoint child_get (name : string) (l : list (string * node)) : option node :=
  match l with
  | [] => None
  | (k, n) :: l' => if bool_decide (k = name) then Some n else child_get name l'
  end.

Fixpoint child_set (name : string) (n : node) (l : list (string * node)) : list (string * node) :=
  match l with
  | [] => [(name, n)]
  | (k, old) :: l' => if bool_decide (k = name) then (k, n) :: l' else (k, old) :: child_set name n l'
  end.

Fixpoint node_get (p : path) (n : node) : option node :=
  match p with
  | [] => Some n
  | x :: p' => match n with
               | Dir l => child_get x l ≫= node_get p'
               | File _ => None
               end
  end.

Definition file_at (p : path) (n : node) : option string :=
  match node_get p n with Some (File c) => Some c | _ => None end.

(** [create_dir_all(parent)] and a write of the file; [None] when a file is in the way of a
    directory or a directory in the way of the file. *)
Fixpoint node_write (p : path) (c : string) (n : option node) : option node :=
  match p with
  | [] => match n with Some (Dir _) => None | _ => Some (File c) end
  | x :: p' =>
      match n with
      | Some (File _) => None
      | Some (Dir l) => (fun m => Dir (child_set x m l)) <$> node_write p' c (child_get x l)
      | None => (fun m => Dir [(x, m)]) <$> node_write p' c None
      end
  end.

(** [create_dir_all] *)
Fixpoint node_mkdir (p : path) (n : option node) : option node :=
  match p with
  | [] => match n with Some (File _) => None | Some (Dir l) => Some (Dir l) | None => Some (Dir []) end
  | x :: p' =>
      match n with
      | Some (File _) => None
      | Some (Dir l) => (fun m => Dir (child_set x m l)) <$> node_mkdir p' (child_get x l)
      | None => (fun m => Dir [(x, m)]) <$> node_mkdir p' None
      end
  end.

(** ** The repository *)

Record Commit : Type := {
  co_tree : node;
  co_parent : option string;
  co_message : string;
  co_time : Z
}.

Record Repo : Type := {
  rp_workdir : node;
  rp_index : node;
  rp_commits : gmap string Commit;
  rp_head : option string
}.

(** What staging does: the index before and the working directory give the index after, as the
    tree that [write_tree] makes of it; and the identifier of a commit. *)
Class Git : Type := {
  stage : node -> node -> result string node;
  commit_oid : Commit -> string
}.

Section Checkpoint.
Context `{Env} `{Git}.
(** [canonicalize], and the texts of errors. *)
Context (canonicalize : string -> result string string) (err_text : string -> string).

(** [CheckpointManager]: the root, and the repositories by their path. *)
Record CheckpointManager : Type := { checkpoints_root : string; cm_repos : gmap string Repo }.

Definition shadow_repo_path (self : CheckpointManager) (dir : string) : result CheckpointError string :=
  match canonicalize dir with
  | Err e => Err (CInvalidPath (dir +:+ ": " +:+ e))
  | Ok canonical =>
      Ok (checkpoints_root self +:+ "/" +:+ String.substring 0 16 (hex_encode (sha256 canonical)))
  end.

(** [Repository::init]: the working directory holds the directory of the repository. *)
Definition init_repo : Repo :=
  {| rp_workdir := Dir [(".git", Dir [])]; rp_index := Dir []; rp_commits := ∅; rp_head := None |}.

Definition open_or_init_repo (self : CheckpointManager) (shadow_path : string) : Repo :=
  default init_repo (cm_repos self !! shadow_path).

(** Directories that are not entered. *)
Definition skipped_dir (name : string) : bool :=
  match name with
  | String a _ => Ascii.eqb a (Ascii.ascii_of_N 46)
  | EmptyString => false
  end
  || bool_decide (name = "target") || bool_decide (name = "node_modules")
  || bool_decide (name = "__pycache__").

Definition MAX_FILE_SIZE : Z := 5000000.

(** [copy_dir_to_workdir]: [rel] is the path of the entry below the source; the working
    directory and the count are threaded, and kept on an error. *)
Fixpoint copy_dir_to_workdir (rel : path) (entry : node) (acc : node * nat) {struct entry}
  : (node * nat) * result CheckpointError unit :=
  match entry with
  | Dir children =>
      if match last rel with Some n => skipped_dir n | None => false end then (acc, Ok tt)
      else
        (fix loop (l : list (string * node)) (acc : node * nat) {struct l} :=
           match l with
           | [] => (acc, Ok tt)
           | (name, child) :: l' =>
               match copy_dir_to_workdir (rel ++ [name]) child acc with
               | (acc, Ok _) => loop l' acc
               | (acc, Err e) => (acc, Err e)
               end
           end) children acc
  | File content =>
      if bool_decide (MAX_FILE_SIZE < str_len content)%Z then (acc, Ok tt)
      else match node_write rel content (Some acc.1) with
           | Some workdir => ((workdir, S acc.2), Ok tt)
           | None => (acc, Err (CIo (err_text "copy")))
           end
  end.

(** [stage_directory]: the index is written only when all was copied and staged. *)
Definition stage_directory (repo : Repo) (source : node) : Repo * result CheckpointError nat :=
  let '((workdir, count), r) := copy_dir_to_workdir [] source (rp_workdir repo, O) in
  let repo := {| rp_workdir := workdir; rp_index := rp_index repo; rp_commits := rp_commits repo;
                 rp_head := rp_head repo |} in
  match r with
  | Err e => (repo, Err e)
  | Ok _ =>
      match stage (rp_index repo) workdir with
      | Err e => (repo, Err (CGit e))
      | Ok index =>
          ({| rp_workdir := workdir; rp_index := index; rp_commits := rp_commits repo;
              rp_head := rp_head repo |}, Ok count)
      end
  end.

Definition commit (repo : Repo) (now : Z) (message : string) : Repo * string :=
  let c := {| co_tree := rp_index repo; co_parent := rp_head repo; co_message := message;
              co_time := now |} in
  let oid := commit_oid c in
  ({| rp_workdir := rp_workdir repo; rp_index := rp_index repo;
      rp_commits := <[oid := c]> (rp_commits repo); rp_head := Some oid |}, oid).

Definition set_repo (self : CheckpointManager) (shadow_path : string) (repo : Repo)
  : CheckpointManager :=
  {| checkpoints_root := checkpoints_root self;
     cm_repos := <[shadow_path := repo]> (cm_repos self) |}.

(** [snapshot] of the directory [dir] with the content [source]; [stamp] is the formatted time. *)
Definition snapshot (self : CheckpointManager) (dir : string) (source : node) (now : Z)
    (stamp message : string) : CheckpointManager * result CheckpointError CheckpointId :=
  match shadow_repo_path self dir with
  | Err e => (self, Err e)
  | Ok shadow_path =>
      let '(repo, r) := stage_directory (open_or_init_repo self shadow_path) source in
      match r with
      | Err e => (set_repo self shadow_path repo, Err e)
      | Ok files_staged =>
          if bool_decide (files_staged = O) then (set_repo self shadow_path repo, Ok "empty")
          else
            let '(repo, oid) :=
              commit repo now ("[zaion-checkpoint] " +:+ stamp +:+ " | " +:+ message) in
            (set_repo self shadow_path repo, Ok oid)
      end
  end.

(** [walk_and_write] of a tree below [at_] in the directory, which is kept on an error. *)
Fixpoint walk_and_write (at_ : path) (tree : node) (dest : node) {struct tree}
  : node * result CheckpointError unit :=
  match tree with
  | File _ => (dest, Ok tt)
  | Dir entries =>
      (fix loop (l : list (string * node)) (dest : node) {struct l} :=
         match l with
         | [] => (dest, Ok tt)
         | (name, entry) :: l' =>
             let target := at_ ++ [name] in
             match entry with
             | Dir _ =>
                 match node_mkdir target (Some dest) with
                 | None => (dest, Err (CIo (err_text "mkdir")))
                 | Some dest =>
                     match walk_and_write target entry dest with
                     | (dest, Ok _) => loop l' dest
                     | (dest, Err e) => (dest, Err e)
                     end
                 end
             | File content =>
                 match node_write target content (Some dest) with
                 | None => (dest, Err (CIo (err_text "write")))
                 | Some dest => loop l' dest
                 end
             end
         end) entries dest
  end.

(** [restore] of the directory [dir], whose content is [dest]. *)
Definition restore (self : CheckpointManager) (dir : string) (dest : node)
    (checkpoint_id : CheckpointId) : node * result CheckpointError unit :=
  if bool_decide (checkpoint_id = "empty") then (dest, Ok tt)
  else
    match shadow_repo_path self dir with
    | Err e => (dest, Err e)
    | Ok shadow_path =>
        match cm_repos self !! shadow_path with
        | None => (dest, Err (CGit (err_text "open")))
        | Some repo =>
            match rp_commits repo !! checkpoint_id with
            | None => (dest, Err (CNotFound (checkpoint_id +:+ ": " +:+ err_text "oid")))
            | Some c => walk_and_write [] (co_tree c) dest
            end
        end
    end.

End Checkpoint.

(** * Theorems on checkpoints *)

(** ** Trees *)

Section NodeInd.
Context (P : node -> Prop) (Hfile : forall c, P (File c))
        (Hdir : forall l, Forall (fun kn => P kn.2) l -> P (Dir l)).

Fixpoint node_nested_ind (n : node) : P n :=
  match n with
  | File c => Hfile c
  | Dir l => Hdir l ((fix go (l : list (string * node)) : Forall (fun kn => P kn.2) l :=
                        match l with
                        | [] => Forall_nil_2 _
                        | kn :: l' => Forall_cons_2 _ _ _ (node_nested_ind kn.2) (go l')
                        end) l)
  end.
End NodeInd.

(** No name twice in a directory. *)
Inductive wf_node : node -> Prop :=
| wf_file c : wf_node (File c)
| wf_dir l : NoDup l.*1 -> Forall (fun kn => wf_node kn.2) l -> wf_node (Dir l).

Definition is_dir (p : path) (n : node) : Prop := exists l, node_get p n = Some (Dir l).

Definition files_of (o : option node) (p : path) : option string := o ≫= file_at p.
Definition dir_in (o : option node) (p : path) : Prop := exists n, o = Some n /\ is_dir p n.

Lemma child_get_set name n l k :
  child_get k (child_set name n l) = if bool_decide (k = name) then Some n else child_get k l.
Proof.
  induction l as [|[x m] l IH]; simpl.
  - repeat case_bool_decide; congruence.
  - destruct (decide (x = name)) as [->|Hx].
    + rewrite (bool_decide_eq_true_2 (name = name)) by done. simpl.
      repeat case_bool_decide; congruence.
    + rewrite (bool_decide_eq_false_2 (x = name)) by done. simpl. rewrite IH.
      repeat case_bool_decide; congruence.
Qed.

Lemma child_get_elem name l n : child_get name l = Some n -> (name, n) ∈ l.
Proof.
  induction l as [|[x m] l IH]; simpl; [done|].
  case_bool_decide; [intros [= ->]; subst; set_solver|]. intros Hc. apply elem_of_cons. auto.
Qed.

Lemma child_get_NoDup name l n : NoDup l.*1 -> (name, n) ∈ l -> child_get name l = Some n.
Proof.
  induction l as [|[x m] l IH]; simpl; intros Hn Hin; [by apply elem_of_nil in Hin|].
  apply NoDup_cons in Hn as [Hx Hn]. apply elem_of_cons in Hin as [[= -> ->]|Hin].
  - by rewrite bool_decide_eq_true_2.
  - rewrite bool_decide_eq_false_2; [by apply IH|]. intros ->. apply Hx.
    by apply (list_elem_of_fmap_2 fst) in Hin.
Qed.

(** What a path sees through a directory. *)
Lemma file_at_dir x p l : file_at (x :: p) (Dir l) = files_of (child_get x l) p.
Proof. unfold file_at, files_of. simpl. by destruct (child_get x l). Qed.

Lemma is_dir_dir x p l : is_dir (x :: p) (Dir l) <-> dir_in (child_get x l) p.
Proof.
  unfold is_dir, dir_in. simpl. destruct (child_get x l) as [n|]; simpl; [|naive_solver].
  split; [intros [k Hk]; exists n; unfold is_dir; eauto|]. by intros (? & [= <-] & Hk).
Qed.

(** A change of one child of what is, or becomes, a directory. *)
Definition children (o : option node) : list (string * node) :=
  match o with Some (Dir l) => l | _ => [] end.

Lemma child_files o y q :
  (forall c, o <> Some (File c)) -> files_of (child_get y (children o)) q = files_of o (y :: q).
Proof.
  intros Ho. destruct o as [[c|l]|]; [by destruct (Ho c)| |done]. symmetry. apply file_at_dir.
Qed.

Lemma child_dirs o y q : dir_in (child_get y (children o)) q -> dir_in o (y :: q).
Proof.
  destruct o as [[c|l]|]; [by intros (? & ? & _)| |by intros (? & ? & _)].
  intros Hd. exists (Dir l). split; [done|]. by apply is_dir_dir.
Qed.

Lemma child_change o x k q :
  (forall c, o <> Some (File c)) ->
  file_at q (Dir (child_set x k (children o)))
  = match q with
    | [] => files_of o []
    | y :: q' => if bool_decide (y = x) then file_at q' k else files_of o q
    end /\
  (is_dir q (Dir (child_set x k (children o))) ->
   match q with
   | [] => True
   | y :: q' => if bool_decide (y = x) then is_dir q' k else dir_in o q
   end).
Proof.
  intros Ho. destruct q as [|y q].
  - split; [|done]. destruct o as [[c|l]|]; [by destruct (Ho c)|done..].
  - rewrite file_at_dir, is_dir_dir, child_get_set, <- child_files by done.
    case_bool_decide; [|split; [done|apply child_dirs]].
    split; [done|]. by intros (? & [= <-] & ?).
Qed.

Lemma write_child p c o x m :
  node_write (x :: p) c o = Some m ->
  (forall c', o <> Some (File c')) /\
  exists k, node_write p c (child_get x (children o)) = Some k /\ m = Dir (child_set x k (children o)).
Proof.
  intros Hw. destruct o as [[c'|l]|]; [done|..]; simpl in Hw;
    apply fmap_Some in Hw as (k & Hk & ->); eauto.
Qed.

Lemma mkdir_child p o x m :
  node_mkdir (x :: p) o = Some m ->
  (forall c', o <> Some (File c')) /\
  exists k, node_mkdir p (child_get x (children o)) = Some k /\ m = Dir (child_set x k (children o)).
Proof.
  intros Hw. destruct o as [[c'|l]|]; [done|..]; simpl in Hw;
    apply fmap_Some in Hw as (k & Hk & ->); eauto.
Qed.

(** A write gives the file its content and changes no other file; the directories are those
    before and those on the way. *)
Lemma node_write_spec c p : forall o m,
  node_write p c o = Some m ->
  file_at p m = Some c /\ (forall q, q <> p -> file_at q m = files_of o q) /\
  (forall q, is_dir q m -> dir_in o q \/ (q `prefix_of` p /\ q <> p)).
Proof.
  induction p as [|x p IH]; intros o m Hw.
  - assert (m = File c /\ forall l, o <> Some (Dir l)) as [-> Ho]
      by (simpl in Hw; destruct o as [[]|]; naive_solver).
    split; [done|]. split; [|by intros [|y q] [l Hl]].
    intros [|y q] Hq; [done|]. destruct o as [[c'|l]|]; [done|by destruct (Ho l)|done].
  - apply write_child in Hw as (Ho & k & Hk & ->). destruct (IH _ _ Hk) as (H1 & H2 & H3).
    pose proof (fun q => child_change o x k q Ho) as Hc. split; [|split].
    + rewrite (proj1 (Hc _)), bool_decide_eq_true_2 by done. exact H1.
    + intros [|y q] Hq; rewrite (proj1 (Hc _)); [done|]. case_bool_decide; [|done]. subst y.
      rewrite H2 by congruence. by apply child_files.
    + intros [|y q] Hd; [right; split; [apply prefix_nil|done]|].
      apply (proj2 (Hc _)) in Hd. cbn in Hd. case_bool_decide; [subst y|by left].
      destruct (H3 q Hd) as [Hin|[Hp Hne]]; [left; by apply child_dirs|].
      right. split; [by apply prefix_cons|congruence].
Qed.

Lemma node_mkdir_spec p : forall o m,
  node_mkdir p o = Some m ->
  (forall q, file_at q m = files_of o q) /\
  (forall q, is_dir q m -> dir_in o q \/ q `prefix_of` p).
Proof.
  induction p as [|x p IH]; intros o m Hw.
  - destruct o as [[c|l]|]; [done|..]; injection Hw as <-.
    + split; [done|]. intros q Hd. left. by exists (Dir l).
    + split; [by intros [|y q]|]. intros [|y q] Hd; [by right|]. by destruct Hd as (l & Hl).
  - apply mkdir_child in Hw as (Ho & k & Hk & ->). destruct (IH _ _ Hk) as [H2 H3].
    pose proof (fun q => child_change o x k q Ho) as Hc. split.
    + intros [|y q]; rewrite (proj1 (Hc _)); [done|]. case_bool_decide; [|done]. subst y.
      rewrite H2. by apply child_files.
    + intros [|y q] Hd; [right; apply prefix_nil|]. apply (proj2 (Hc _)) in Hd.
      cbn in Hd. case_bool_decide; [subst y|by left].
      destruct (H3 q Hd) as [Hin|Hp]; [left; by apply child_dirs|right; by apply prefix_cons].
Qed.

(** When they succeed. *)
Lemma node_write_ok c p : forall o,
  (forall q, q `prefix_of` p -> q <> p -> files_of o q = None) -> ~ dir_in o p ->
  is_Some (node_write p c o).
Proof.
  induction p as [|x p IH]; intros o Hf Hd; simpl.
  - destruct o as [[c'|l]|]; [eauto| |eauto]. destruct Hd. exists (Dir l). split; [done|]. by exists l.
  - destruct o as [[c'|l]|].
    + by specialize (Hf [] (prefix_nil _) ltac:(done)).
    + apply fmap_is_Some, IH.
      * intros q Hq Hne. rewrite <- file_at_dir. apply (Hf (x :: q)); [by apply prefix_cons|congruence].
      * intros Hin. apply Hd. exists (Dir l). split; [done|]. by apply is_dir_dir.
    + apply fmap_is_Some, IH; [done|]. by intros (? & ? & _).
Qed.

Lemma node_mkdir_ok p : forall o,
  (forall q, q `prefix_of` p -> files_of o q = None) -> is_Some (node_mkdir p o).
Proof.
  induction p as [|x p IH]; intros o Hf; simpl.
  - destruct o as [[c'|l]|]; [|eauto..]. by specialize (Hf [] (prefix_nil _)).
  - destruct o as [[c'|l]|].
    + by specialize (Hf [] (prefix_nil _)).
    + apply fmap_is_Some, IH. intros q Hq. rewrite <- file_at_dir.
      apply (Hf (x :: q)). by apply prefix_cons.
    + apply fmap_is_Some, IH. done.
Qed.

(** ** What a tree holds *)

(** Its files, with their paths below [at_]; [enter] says which directories are entered. *)
Fixpoint listing (enter : path -> bool) (at_ : path) (n : node) {struct n} : list (path * string) :=
  match n with
  | File c => [(at_, c)]
  | Dir l =>
      if enter at_ then
        (fix go (l : list (string * node)) :=
           match l with
           | [] => []
           | (x, m) :: l' => listing enter (at_ ++ [x]) m ++ go l'
           end) l
      else []
  end.

Lemma listing_dir enter at_ l :
  listing enter at_ (Dir l)
  = if enter at_ then l ≫= (fun xm => listing enter (at_ ++ [xm.1]) xm.2) else [].
Proof.
  simpl. destruct (enter at_); [|done]. induction l as [|[x m] l IH]; [done|]. simpl. by rewrite IH.
Qed.

(** The directories on the way to a path below [at_]. *)
Fixpoint entered (enter : path -> bool) (at_ p : path) : bool :=
  match p with
  | [] => true
  | x :: p' => enter at_ && entered enter (at_ ++ [x]) p'
  end.

Lemma elem_of_listing enter n : forall at_ q c,
  wf_node n ->
  (q, c) ∈ listing enter at_ n <->
  exists p, q = at_ ++ p /\ file_at p n = Some c /\ entered enter at_ p = true.
Proof.
  induction n as [c0|l IH] using node_nested_ind; intros at_ q c Hwf.
  - simpl. rewrite list_elem_of_singleton. split.
    + intros [= -> ->]. exists []. by rewrite app_nil_r.
    + intros ([|x p] & -> & Hf & _); [|done]. rewrite app_nil_r. by injection Hf as ->.
  - rewrite listing_dir. inversion Hwf as [|? Hn Hall]; subst. rewrite Forall_forall in IH, Hall.
    destruct (enter at_) eqn:Ee.
    + rewrite list_elem_of_bind. split.
      * intros ([x m] & Hq & Hin). apply (IH _ Hin) in Hq as (p & -> & Hf & He); [|by apply (Hall _ Hin)].
        exists (x :: p). rewrite <- app_assoc. split; [done|].
        rewrite file_at_dir, (child_get_NoDup x l m) by done. simpl. by rewrite Ee.
      * intros ([|x p] & -> & Hf & He); [done|]. rewrite file_at_dir in Hf.
        destruct (child_get x l) as [m|] eqn:Ec; [|done]. apply child_get_elem in Ec.
        exists (x, m). split; [|done]. apply (IH _ Ec); [by apply (Hall _ Ec)|].
        exists p. rewrite <- app_assoc. split; [done|]. split; [done|].
        simpl in He. by rewrite Ee in He.
    + split; [by intros ?%elem_of_nil|]. intros ([|x p] & -> & Hf & He); [done|].
      simpl in He. by rewrite Ee in He.
Qed.

Lemma listing_NoDup enter n : forall at_, wf_node n -> NoDup (listing enter at_ n).*1.
Proof.
  induction n as [c0|l IH] using node_nested_ind; intros at_ Hwf; [apply NoDup_singleton|].
  inversion Hwf as [|? Hn Hall]; subst. rewrite listing_dir. destruct (enter at_); [|apply NoDup_nil_2].
  clear Hwf. induction l as [|[x m] l IHl]; [apply NoDup_nil_2|].
  apply Forall_cons in IH as [IHm IH], Hall as [Hm Hall]. cbn in Hn.
  apply NoDup_cons in Hn as [Hx Hn]. cbn [mbind list_bind]. rewrite fmap_app. apply NoDup_app.
  split; [by apply IHm|]. split; [|by apply IHl].
  intros q H1 H2. apply list_elem_of_fmap in H1 as ([? c1] & -> & H1), H2 as ([? c2] & He & H2).
  simpl in *. subst. apply elem_of_listing in H1 as (p1 & -> & _); [|done].
  apply list_elem_of_bind in H2 as ([y k] & H2 & Hin). rewrite Forall_forall in Hall.
  apply elem_of_listing in H2 as (p2 & Hp & _); [|by apply (Hall _ Hin)].
  rewrite <- !app_assoc in Hp. apply app_inv_head in Hp. injection Hp as -> _.
  apply Hx. by apply (list_elem_of_fmap_2 fst) in Hin.
Qed.

(** ** Copies as folds of writes *)

Section Writes.
Context (err_text : string -> string).

Definition too_big (c : string) : bool := bool_decide (MAX_FILE_SIZE < str_len c)%Z.

Fixpoint write_list (l : list (path * string)) (acc : node * nat)
  : (node * nat) * result CheckpointError unit :=
  match l with
  | [] => (acc, Ok tt)
  | (p, c) :: l' =>
      if too_big c then write_list l' acc
      else match node_write p c (Some acc.1) with
           | Some workdir => write_list l' (workdir, S acc.2)
           | None => (acc, Err (CIo (err_text "copy")))
           end
  end.

Lemma write_list_app l l' acc :
  write_list (l ++ l') acc
  = match write_list l acc with
    | (acc, Ok _) => write_list l' acc
    | (acc, Err e) => (acc, Err e)
    end.
Proof.
  revert acc; induction l as [|[p c] l IH]; intros acc; simpl; [done|].
  destruct (too_big c); [apply IH|]. destruct (node_write p c (Some acc.1)); [apply IH|done].
Qed.

(** Which directories the copy enters. *)
Definition enters (at_ : path) : bool :=
  negb (match last at_ with Some n => skipped_dir n | None => false end).

Lemma copy_is_write_list n : forall rel acc,
  copy_dir_to_workdir err_text rel n acc = write_list (listing enters rel n) acc.
Proof.
  induction n as [c|l IH] using node_nested_ind; intros rel acc.
  - simpl. unfold too_big. case_bool_decide; [done|].
    by destruct (node_write rel c (Some acc.1)).
  - rewrite listing_dir. cbn [copy_dir_to_workdir]. unfold enters at 1.
    destruct (match last rel with Some n => skipped_dir n | None => false end); [done|].
    cbn [negb]. revert acc; induction l as [|[x m] l IHl]; intros acc; [done|].
    apply Forall_cons in IH as [IHm IH]. cbn in IHm. rewrite IHm. cbn [mbind list_bind fst snd].
    rewrite write_list_app. destruct (write_list (listing enters (rel ++ [x]) m) acc) as [acc' [[]|e]];
      [|done]. by apply IHl.
Qed.

Lemma write_list_files l : forall acc acc',
  NoDup l.*1 -> write_list l acc = (acc', Ok tt) ->
  (forall p c, (p, c) ∈ l -> too_big c = false -> file_at p acc'.1 = Some c) /\
  (forall q, (forall c, (q, c) ∈ l -> too_big c = true) -> file_at q acc'.1 = file_at q acc.1).
Proof.
  induction l as [|[p c] l IH]; intros acc acc' Hn Hw; simpl in Hw.
  - injection Hw as <-. split; [by intros ? ? ?%elem_of_nil|done].
  - cbn in Hn. apply NoDup_cons in Hn as [Hp Hn].
    assert (Hnot : forall c', (p, c') ∉ l).
    { intros c' Hin. apply Hp. by apply (list_elem_of_fmap_2 fst) in Hin. }
    destruct (too_big c) eqn:Eb.
    + destruct (IH _ _ Hn Hw) as [H1 H2]. split.
      * intros q d Hin Hb. apply elem_of_cons in Hin as [[= -> ->]|Hin]; [congruence|by apply H1].
      * intros q Hq. apply H2. intros d Hd. apply Hq. set_solver.
    + destruct (node_write p c (Some acc.1)) as [w|] eqn:Ew; [|done].
      apply node_write_spec in Ew as (W1 & W2 & _). destruct (IH _ _ Hn Hw) as [H1 H2]. split.
      * intros q d Hin Hb. apply elem_of_cons in Hin as [[= -> ->]|Hin]; [|by apply H1].
        rewrite H2; [done|]. intros c' Hc. by destruct (Hnot c').
      * intros q Hq. assert (q <> p) by (intros ->; specialize (Hq c); rewrite Eb in Hq; set_solver).
        rewrite H2 by (intros d Hd; apply Hq; set_solver). by apply W2.
Qed.

(** ** Restoring as a fold of writes *)

(** Writes of files, and directories that are made. *)
Fixpoint run_acts (l : list (path * option string)) (dest : node) : node * result CheckpointError unit :=
  match l with
  | [] => (dest, Ok tt)
  | (p, Some c) :: l' =>
      match node_write p c (Some dest) with
      | None => (dest, Err (CIo (err_text "write")))
      | Some dest => run_acts l' dest
      end
  | (p, None) :: l' =>
      match node_mkdir p (Some dest) with
      | None => (dest, Err (CIo (err_text "mkdir")))
      | Some dest => run_acts l' dest
      end
  end.

Fixpoint acts (at_ : path) (n : node) {struct n} : list (path * option string) :=
  match n with
  | File _ => []
  | Dir l =>
      (fix go (l : list (string * node)) :=
         match l with
         | [] => []
         | (x, m) :: l' =>
             match m with
             | Dir _ => (at_ ++ [x], None) :: acts (at_ ++ [x]) m ++ go l'
             | File c => (at_ ++ [x], Some c) :: go l'
             end
         end) l
  end.

Lemma run_acts_app l l' dest :
  run_acts (l ++ l') dest
  = match run_acts l dest with
    | (dest, Ok _) => run_acts l' dest
    | (dest, Err e) => (dest, Err e)
    end.
Proof.
  revert dest; induction l as [|[p [c|]] l IH]; intros dest; simpl; [done|..];
    [destruct (node_write p c (Some dest))|destruct (node_mkdir p (Some dest))]; (apply IH || done).
Qed.

Lemma walk_is_acts n : forall at_ dest,
  walk_and_write err_text at_ n dest = run_acts (acts at_ n) dest.
Proof.
  induction n as [c|l IH] using node_nested_ind; intros at_ dest; [done|]. cbn [walk_and_write acts].
  revert dest; induction l as [|[x m] l IHl]; intros dest; [done|].
  apply Forall_cons in IH as [IHm IH]. cbn [snd] in IHm. destruct m as [c|k].
  - cbn [run_acts]. destruct (node_write (at_ ++ [x]) c (Some dest)); [by apply IHl|done].
  - cbn [run_acts]. destruct (node_mkdir (at_ ++ [x]) (Some dest)) as [d|]; [|done].
    rewrite IHm, run_acts_app. destruct (run_acts (acts (at_ ++ [x]) (Dir k)) d) as [d' [[]|e]]; [|done].
    by apply IHl.
Qed.

(** The acts of a tree are its files and its directories. *)
Lemma elem_of_acts n : forall at_ q o,
  wf_node n -> (q, o) ∈ acts at_ n ->
  exists p, q = at_ ++ p /\ match o with Some c => file_at p n = Some c | None => is_dir p n end.
Proof.
  induction n as [c0|l IH] using node_nested_ind; intros at_ q o Hwf Hin; [by apply elem_of_nil in Hin|].
  inversion Hwf as [|? Hn Hall]; subst.
  assert (Hsub : exists x m, (x, m) ∈ l /\
            ((q = at_ ++ [x] /\ match m with File c => o = Some c | Dir _ => o = None end) \/
             (q, o) ∈ acts (at_ ++ [x]) m)).
  { clear -Hin. cbn [acts] in Hin. induction l as [|[x m] l IHl]; [by apply elem_of_nil in Hin|].
    destruct m as [c|k]; apply elem_of_cons in Hin as [[= -> ->]|Hin].
    - exists x, (File c). set_solver.
    - destruct (IHl Hin) as (y & k & ? & ?). exists y, k. set_solver.
    - exists x, (Dir k). set_solver.
    - apply elem_of_app in Hin as [Hin|Hin]; [exists x, (Dir k); set_solver|].
      destruct (IHl Hin) as (y & k' & ? & ?). exists y, k'. set_solver. }
  rewrite Forall_forall in IH, Hall.
  destruct Hsub as (x & m & Hm & [[-> Ho]|Hq]).
  - exists [x]. split; [done|]. destruct m as [c|k]; subst o.
    + by rewrite file_at_dir, (child_get_NoDup x l (File c)).
    + apply is_dir_dir. rewrite (child_get_NoDup x l (Dir k)) by done. exists (Dir k).
      split; [done|]. by exists k.
  - apply (IH _ Hm) in Hq as (p & -> & Hp); [|by apply (Hall _ Hm)]. cbn in Hp.
    exists (x :: p). rewrite <- app_assoc. split; [done|]. destruct o.
    + by rewrite file_at_dir, (child_get_NoDup x l m).
    + apply is_dir_dir. rewrite (child_get_NoDup x l m) by done. by exists m.
Qed.

Lemma acts_complete n : forall at_ x p c,
  wf_node n -> file_at (x :: p) n = Some c -> (at_ ++ x :: p, Some c) ∈ acts at_ n.
Proof.
  induction n as [c0|l IH] using node_nested_ind; intros at_ x p c Hwf Hf; [done|].
  inversion Hwf as [|? Hn Hall]; subst. rewrite file_at_dir in Hf.
  destruct (child_get x l) as [m|] eqn:Ec; [|done]. apply child_get_elem in Ec.
  rewrite Forall_forall in IH, Hall. specialize (IH _ Ec). specialize (Hall _ Ec). cbn in IH, Hall, Hf.
  assert (Hgoal : (at_ ++ x :: p, Some c) ∈ match m with
            | Dir _ => (at_ ++ [x], None) :: acts (at_ ++ [x]) m
            | File c => [(at_ ++ [x], Some c)]
            end).
  { destruct m as [c'|k].
    - destruct p; [|done]. injection Hf as ->. set_solver.
    - destruct p as [|y p]; [done|]. apply elem_of_cons. right.
      change (x :: y :: p) with ([x] ++ y :: p). rewrite (app_assoc at_ [x] (y :: p)). by apply IH. }
  clear -Ec Hgoal. cbn [acts]. induction l as [|[y k] l IHl]; [by apply elem_of_nil in Ec|].
  apply elem_of_cons in Ec as [[= <- <-]|Ec].
  - destruct m; set_solver.
  - destruct k; set_solver.
Qed.

(** The directory can take the tree: no file where the tree has a directory, and no directory
    where it has a file. *)
Definition fits (tree dest : node) : Prop :=
  (forall q, is_dir q tree -> file_at q dest = None) /\
  (forall q, file_at q tree <> None -> ~ is_dir q dest).

Lemma file_not_dir q n c : file_at q n = Some c -> ~ is_dir q n.
Proof. unfold file_at, is_dir. intros Hf [l Hl]. by rewrite Hl in Hf. Qed.

(** A prefix of a path of the tree is a directory of it. *)
Lemma prefix_is_dir q : forall p n, q `prefix_of` p -> q <> p -> is_Some (node_get p n) -> is_dir q n.
Proof.
  induction q as [|x q IH]; intros p n Hp Hne [m Hm].
  - destruct p as [|y p]; [done|]. destruct n as [c|l]; [done|]. by exists l.
  - destruct Hp as [k ->]. cbn in Hm. destruct n as [c|l]; [done|].
    destruct (child_get x l) as [n'|] eqn:E; [|done]. cbn in Hm. apply is_dir_dir.
    exists n'. split; [done|]. apply (IH (q ++ k)); [by exists k| |eauto].
    intros Heq. apply Hne. exact (f_equal (cons x) Heq).
Qed.

Definition from_tree (tree : node) (po : path * option string) : Prop :=
  match po.2 with Some c => file_at po.1 tree = Some c | None => is_dir po.1 tree end.

Lemma run_acts_ok tree l : forall dest,
  Forall (from_tree tree) l -> fits tree dest -> exists d, run_acts l dest = (d, Ok tt).
Proof.
  induction l as [|[p o] l IH]; intros dest Hl Hfit; [by exists dest|].
  apply Forall_cons in Hl as [Hp Hl]. unfold from_tree in Hp. cbn in Hp.
  pose proof Hfit as [F1 F2].
  assert (Hup : forall q, q `prefix_of` p -> q <> p -> is_dir q tree).
  { intros q Hq Hne. apply (prefix_is_dir q p tree Hq Hne).
    destruct o; [unfold file_at in Hp; by destruct (node_get p tree)|destruct Hp; eauto]. }
  destruct o as [c|]; cbn [run_acts].
  - destruct (node_write_ok c p (Some dest)) as [d Hd].
    { intros q Hq Hne. by apply F1, Hup. }
    { intros (? & [= <-] & Hdir). by apply (F2 p); [rewrite Hp|]. }
    rewrite Hd. apply IH; [done|]. apply node_write_spec in Hd as (W1 & W2 & W3). split.
    + intros q Hq. rewrite W2; [by apply F1|]. intros ->. by apply (file_not_dir p tree c).
    + intros q Hq Hdir. destruct (W3 q Hdir) as [(? & [= <-] & ?)|[Hpre Hne]]; [by apply (F2 q)|].
      specialize (Hup q Hpre Hne). destruct (file_at q tree) eqn:E; [|done].
      by apply file_not_dir in E.
  - destruct (node_mkdir_ok p (Some dest)) as [d Hd].
    { intros q Hq. apply F1. destruct (decide (q = p)) as [->|]; [done|by apply Hup]. }
    rewrite Hd. apply IH; [done|]. apply node_mkdir_spec in Hd as (W2 & W3). split.
    + intros q Hq. rewrite W2. by apply F1.
    + intros q Hq Hdir. destruct (W3 q Hdir) as [(? & [= <-] & ?)|Hpre]; [by apply (F2 q)|].
      assert (is_dir q tree) by (destruct (decide (q = p)) as [->|]; [done|by apply Hup]).
      destruct (file_at q tree) eqn:E; [|done]. by apply file_not_dir in E.
Qed.

Lemma run_acts_files tree l : forall dest d,
  Forall (from_tree tree) l -> run_acts l dest = (d, Ok tt) ->
  forall q, (forall c, (q, Some c) ∈ l -> file_at q d = Some c) /\
            ((forall c, (q, Some c) ∉ l) -> file_at q d = file_at q dest).
Proof.
  induction l as [|[p o] l IH]; intros dest d Hl Hr q.
  { injection Hr as <-. split; [by intros c ?%elem_of_nil|done]. }
  apply Forall_cons in Hl as [Hp Hl]. unfold from_tree in Hp. cbn in Hp. destruct o as [c|].
  - cbn [run_acts] in Hr. destruct (node_write p c (Some dest)) as [e|] eqn:Ew; [|done].
    apply node_write_spec in Ew as (W1 & W2 & _). destruct (IH _ _ Hl Hr q) as [H1 H2]. split.
    + intros c' Hin. destruct (decide ((q, Some c') ∈ l)) as [Hin'|Hnin]; [by apply H1|].
      apply elem_of_cons in Hin as [[= -> ->]|Hin]; [|done]. rewrite H2; [done|].
      intros c'' Hin. rewrite Forall_forall in Hl. specialize (Hl _ Hin). unfold from_tree in Hl.
      cbn in Hl. rewrite Hp in Hl. injection Hl as ->. done.
    + intros Hn. rewrite H2 by set_solver. apply W2. intros ->. apply (Hn c). set_solver.
  - cbn [run_acts] in Hr. destruct (node_mkdir p (Some dest)) as [e|] eqn:Ew; [|done].
    apply node_mkdir_spec in Ew as (W2 & _). destruct (IH _ _ Hl Hr q) as [H1 H2]. split.
    + intros c' Hin. apply H1. apply elem_of_cons in Hin as [[=]|Hin]. done.
    + intros Hn. rewrite H2 by set_solver. apply W2.
Qed.

(** Writing a tree into a directory. *)
Lemma walk_spec tree dest d r :
  wf_node tree -> (forall c, tree <> File c) ->
  walk_and_write err_text [] tree dest = (d, r) ->
  (fits tree dest -> r = Ok tt) /\
  (r = Ok tt -> forall p, file_at p d = match file_at p tree with
                                       | Some c => Some c
                                       | None => file_at p dest
                                       end).
Proof.
  intros Hwf Hdir Hw. rewrite walk_is_acts in Hw.
  assert (Hacts : Forall (from_tree tree) (acts [] tree)).
  { apply Forall_forall. intros [q o] Hin. apply elem_of_acts in Hin as (p & -> & Hp); [|done].
    unfold from_tree. by destruct o. }
  split.
  - intros Hfit. destruct (run_acts_ok tree _ dest Hacts Hfit) as [d' Hd']. congruence.
  - intros -> p. destruct (run_acts_files tree _ dest d Hacts Hw p) as [H1 H2].
    destruct (file_at p tree) as [c|] eqn:E.
    + apply H1. destruct p as [|x p]; [destruct tree as [c'|]; [by destruct (Hdir c')|done]|].
      by apply (acts_complete tree [] x p c).
    + apply H2. intros c Hin. apply elem_of_acts in Hin as (q & -> & Hq); [|done].
      cbn in E. by rewrite E in Hq.
Qed.

End Writes.

(** ** Checkpoints *)

(** What is relied on of libgit2: [ignored] is the meaning of the ignore rules of a working
    directory; what is not ignored and not the repository's own is staged with its content, and
    the index is a tree. *)
Class GitLaws `{Git} (ignored : node -> path -> bool) : Prop := {
  stage_files index workdir tree x p c :
    stage index workdir = Ok tree -> file_at (x :: p) workdir = Some c -> x <> ".git" ->
    ignored workdir (x :: p) = false -> file_at (x :: p) tree = Some c;
  stage_tree index workdir tree :
    stage index workdir = Ok tree -> wf_node tree /\ forall c, tree <> File c
}.

(** A file that the copy takes: not too big, and in no directory that is skipped. *)
Definition copied (p : path) (c : string) : bool := negb (too_big c) && entered enters [] p.

Section Restore.
Context `{Env} (ignored : node -> path -> bool) `{GitLaws ignored}.
Context (canonicalize : string -> result string string) (err_text : string -> string).
Local Abbreviation snapshot := (snapshot canonicalize err_text).
Local Abbreviation restore := (restore canonicalize err_text).
Local Abbreviation shadow_repo_path := (shadow_repo_path canonicalize).

(** A checkpoint to take: the directory, its content, the time and the texts. *)
Record Shot : Type := {
  sh_dir : string; sh_source : node; sh_now : Z; sh_stamp : string; sh_message : string
}.

Definition shoot (m : CheckpointManager) (s : Shot) :=
  snapshot m (sh_dir s) (sh_source s) (sh_now s) (sh_stamp s) (sh_message s).

Fixpoint shoot_all (m : CheckpointManager) (l : list Shot)
  : CheckpointManager * list (result CheckpointError string) :=
  match l with
  | [] => (m, [])
  | s :: l' => let '(m, r) := shoot m s in let '(m, rs) := shoot_all m l' in (m, r :: rs)
  end.

(** The commit with an identifier in the repository at a path. *)
Definition commit_at (m : CheckpointManager) (shadow_path id : string) : option Commit :=
  repo ← cm_repos m !! shadow_path; rp_commits repo !! id.

(** Staging a directory: the working directory it leaves, and the tree. *)
Lemma stage_directory_ok repo source repo' count :
  wf_node source -> stage_directory err_text repo source = (repo', Ok count) ->
  rp_commits repo' = rp_commits repo /\
  stage (rp_index repo) (rp_workdir repo') = Ok (rp_index repo') /\
  (forall p c, file_at p source = Some c -> copied p c = true -> file_at p (rp_workdir repo') = Some c).
Proof.
  unfold stage_directory. rewrite copy_is_write_list. intros Hwf Hs.
  destruct (write_list err_text (listing enters [] source) (rp_workdir repo, O)) as [[w n] [[]|e]] eqn:Ew;
    [|done]. cbn in Hs. destruct (stage (rp_index repo) w) as [index|e] eqn:Es; [|done].
  injection Hs as <- <-. split; [done|]. split; [done|]. intros p c Hf Hc.
  apply andb_true_iff in Hc as [Hb He]. apply write_list_files in Ew as [HW _]; [|by apply listing_NoDup].
  apply HW; [|by apply negb_true_iff in Hb]. apply elem_of_listing; [done|]. by exists p.
Qed.

(** A checkpoint other than [id] keeps the commit [id]. *)
Lemma shoot_keeps m s m' r path id c :
  shoot m s = (m', r) -> r <> Ok id -> commit_at m path id = Some c -> commit_at m' path id = Some c.
Proof.
  unfold shoot, Checkpoint.snapshot, commit_at. intros Hs Hne Hc.
  assert (Hset : forall sp repo', rp_commits repo' !! id = Some c \/ sp <> path ->
            (repo ← cm_repos (set_repo m sp repo') !! path; rp_commits repo !! id) = Some c).
  { intros sp repo' Hor. cbn. destruct (decide (sp = path)) as [->|Hsp].
    - rewrite lookup_insert_eq. cbn. by destruct Hor.
    - by rewrite lookup_insert_ne. }
  destruct (shadow_repo_path m (sh_dir s)) as [sp|e]; [|by injection Hs as <- <-].
  assert (Hold : rp_commits (open_or_init_repo m sp) !! id = Some c \/ sp <> path).
  { destruct (decide (sp = path)) as [->|]; [left|by right]. unfold open_or_init_repo.
    by destruct (cm_repos m !! path). }
  assert (Hstage : forall repo' r', stage_directory err_text (open_or_init_repo m sp) (sh_source s)
            = (repo', r') -> rp_commits repo' = rp_commits (open_or_init_repo m sp)).
  { unfold stage_directory. intros repo' r' Hx.
    destruct (copy_dir_to_workdir err_text [] (sh_source s) _) as [[w n] [[]|e]]; [|by injection Hx as <- _].
    cbn in Hx. destruct (stage _ w); by injection Hx as <- _. }
  destruct (stage_directory err_text (open_or_init_repo m sp) (sh_source s)) as [repo [count|e]] eqn:Es;
    rewrite <- (Hstage _ _ eq_refl) in Hold.
  - case_bool_decide; injection Hs as <- <-; [by apply Hset|]. apply Hset. cbn.
    destruct Hold as [Hold|]; [left|by right]. rewrite lookup_insert_ne; [done|].
    intros He. apply Hne. by rewrite He.
  - injection Hs as <- <-. by apply Hset.
Qed.

Lemma shoot_all_keeps l : forall m m' rs path id c,
  shoot_all m l = (m', rs) -> Ok id ∉ rs -> commit_at m path id = Some c ->
  commit_at m' path id = Some c.
Proof.
  induction l as [|s l IH]; intros m m' rs path id c Hs Hn Hc; [by injection Hs as <- <-|].
  cbn in Hs. destruct (shoot m s) as [m1 r] eqn:E1. destruct (shoot_all m1 l) as [m2 rs2] eqn:E2.
  injection Hs as <- <-. apply (IH m1 m2 rs2); [done|set_solver|].
  eapply shoot_keeps; [exact E1| |exact Hc]. intros ->. set_solver.
Qed.

Lemma shoot_root m s : checkpoints_root (shoot m s).1 = checkpoints_root m.
Proof.
  unfold shoot, Checkpoint.snapshot. destruct (shadow_repo_path m (sh_dir s)); [|done].
  destruct (stage_directory err_text _ (sh_source s)) as [repo [n|e]]; [|done].
  by case_bool_decide.
Qed.

Lemma shoot_all_root l : forall m, checkpoints_root (shoot_all m l).1 = checkpoints_root m.
Proof.
  induction l as [|s l IH]; intros m; [done|]. cbn. pose proof (shoot_root m s) as Hr.
  destruct (shoot m s) as [m1 r]. specialize (IH m1). destruct (shoot_all m1 l). cbn in *. congruence.
Qed.


End Restore.

(** ** A concrete repository *)

Fixpoint wf_b (n : node) : bool :=
  match n with
  | File _ => true
  | Dir l => bool_decide (NoDup l.*1)
             && (fix go (l : list (string * node)) :=
                   match l with [] => true | kn :: l' => wf_b kn.2 && go l' end) l
  end.

Lemma wf_b_ok n : wf_b n = true -> wf_node n.
Proof.
  induction n as [c|l IH] using node_nested_ind; intros Hw; [constructor|]. simpl in Hw.
  apply andb_true_iff in Hw as [Hn Hw]. rewrite bool_decide_eq_true in Hn. constructor; [done|].
  clear Hn. induction IH as [|[k n] l Hk _ IHl]; [constructor|]. apply andb_true_iff in Hw as [H1 H2].
  constructor; auto.
Qed.

(** All but the directory of the repository. *)
Definition strip_git (n : node) : node :=
  match n with File _ => Dir [] | Dir l => Dir (filter (fun kn => kn.1 <> ".git") l) end.

Lemma child_get_filter x l :
  x <> ".git" -> child_get x (filter (fun kn => kn.1 <> ".git") l) = child_get x l.
Proof.
  intros Hx. induction l as [|[k n] l IH]; [done|]. rewrite filter_cons. case_decide as Hd.
  - simpl. by rewrite IH.
  - cbn in Hd. rewrite IH. cbn [child_get]. rewrite bool_decide_eq_false_2; [done|]. naive_solver.
Qed.

(** Stages every file of a sound working directory; commits are numbered by their time. *)
#[local] Instance toy_git : Git := {|
  stage _ workdir := if wf_b workdir then Ok (strip_git workdir) else Err "duplicate name";
  commit_oid c := "commit at " +:+ z_to_string (co_time c)
|}.

#[local] Instance toy_git_laws : GitLaws (fun _ _ => false).
Proof.
  split.
  - intros index w t x p c Hs Hf Hx _. unfold stage, toy_git in Hs. destruct (wf_b w); [|done].
    injection Hs as <-. destruct w as [c'|l]; [done|]. simpl strip_git.
    rewrite file_at_dir in *. by rewrite child_get_filter.
  - intros index w t Hs. unfold stage, toy_git in Hs. destruct (wf_b w) eqn:Ew; [|done].
    injection Hs as <-. apply wf_b_ok in Ew. destruct w as [c'|l].
    { split; [|done]. constructor; [apply NoDup_nil_2|constructor]. }
    split; [|done]. simpl. inversion Ew as [|? Hn Hall]; subst. constructor.
    + clear -Hn. induction l as [|[k n] l IH]; [done|]. cbn in Hn. apply NoDup_cons in Hn as [Hk Hn].
      rewrite filter_cons. case_decide; [|by apply IH]. cbn. apply NoDup_cons. split; [|by apply IH].
      intros Hin. apply Hk. apply list_elem_of_fmap in Hin as ([? ?] & -> & Hin).
      apply list_elem_of_filter in Hin as [_ Hin]. by apply (list_elem_of_fmap_2 fst) in Hin.
    + apply Forall_forall. intros kn Hin. apply list_elem_of_filter in Hin as [_ Hin].
      rewrite Forall_forall in Hall. by apply Hall.
Qed.

Definition toy_canonical (s : string) : result string string := Ok s.
Definition toy_err (s : string) : string := s.
Definition no_repos : CheckpointManager := {| checkpoints_root := "/data"; cm_repos := ∅ |}.

Definition shot_at (n : Z) (source : node) : Shot :=
  {| sh_dir := "/project"; sh_source := source; sh_now := n; sh_stamp := "t"; sh_message := "m" |}.

Definition old_dir : node := Dir [("a.txt", File "one"); ("src", Dir [("b.txt", File "two")])].
Definition new_dir : node := Dir [("a.txt", File "changed"); ("c.txt", File "three")].

Definition toy_shoot_all := shoot_all (H := toy_env) (H0 := toy_git) toy_canonical toy_err.


(** A file that was deleted before a checkpoint is part of it, and restoring the checkpoint
    brings the file back. *)
Example deleted_file_returns :
  file_at ["src"; "b.txt"] new_dir = None /\
  let '(d, r) := restore (H := toy_env) toy_canonical toy_err
      (toy_shoot_all no_repos [shot_at 1 old_dir; shot_at 2 new_dir]).1 "/project" new_dir "commit at 2" in
  is_ok r = true /\ file_at ["src"; "b.txt"] d = Some "two".
Proof. vm_compute. done. Qed.

(** A directory with a [.git] file, as a work tree or a submodule has, cannot be recorded. *)
Example git_file_blocks_checkpoint :
  (toy_shoot_all no_repos [shot_at 1 (Dir [("a.txt", File "one"); (".git", File "gitdir: x")])]).2
  = [Err (CIo "copy")].
Proof. vm_compute. reflexivity. Qed.
