(* ===== verification/Cron.v ===== *)
(** * Timed jobs ([crates/zaion-runtime/src/cron.rs])

    The jobs are kept in one JSON file, rewritten as a whole by every operation, which is then
    recorded in a signed event of the ledger.  [serde_json::from_str] and [to_string_pretty] are
    parameters; a text with a member name twice, and the array that serde also reads as a struct,
    are not considered.  Clock readings and fresh identifiers are arguments.

    The jobs of the file, by their identifiers, are what an abstract table has after the same
    operations, whether or not the ledger takes the events; an operation that succeeds adds one
    signed event, any other none.  [tick] triggers every enabled job, whatever its schedule.

    Four defects: an operation that reports an error may have taken effect; a file that a write
    left half done counts as empty, and the next operation replaces it; the schedule, the next
    run and the number of repeats of a job are never read; and the event of an edit does not
    name the new command. *)

From stdpp Require Import prelude gmap strings list.
From S2P Require Import Prelude.
From S2P Require Import Json.
From S2P Require Import Env.
From S2P Require Import Text.
From S2P Require Import FileSystem.
From S2P Require Import Concrete.
From S2P Require Import Database.
From S2P Require Import Samples.
From S2P Require Import Ledger.
From S2P Require Import LedgerChain.
From S2P Require Import LedgerQueries.
Local Open Scope res_scope.
Local Open Scope Z_scope.

Record CronJob : Type := {
  cj_job_id : string;
  cj_name : string;
  cj_schedule : string;
  cj_command : string;
  cj_deliver : option string;
  cj_repeat : option Z;
  cj_skills : list string;
  cj_script : option string;
  cj_principal_id : string;
  cj_enabled : bool;
  cj_last_run : option string;
  cj_next_run : option string;
  cj_created_at : string
}.

(** [CronStore] *)
Abbreviation CronStore := (list CronJob) (only parsing).

(** [RuntimeError::Internal], the only variant raised here. *)
Inductive CronError : Type := CronInternal (text : string).

(** ** The derived codec *)

Definition u32_value (n : Z) : option Z := if bool_decide (0 <= n < 2 ^ 32) then Some n else None.

Definition strings_value (l : list string) : Value := VArray (map VString l).

Definition job_value (j : CronJob) : Value :=
  VObject [("job_id", VString (cj_job_id j)); ("name", VString (cj_name j));
           ("schedule", VString (cj_schedule j)); ("command", VString (cj_command j));
           ("deliver", opt_string (cj_deliver j));
           ("repeat", match cj_repeat j with Some n => VNumber n | None => VNull end);
           ("skills", strings_value (cj_skills j)); ("script", opt_string (cj_script j));
           ("principal_id", VString (cj_principal_id j)); ("enabled", VBool (cj_enabled j));
           ("last_run", opt_string (cj_last_run j)); ("next_run", opt_string (cj_next_run j));
           ("created_at", VString (cj_created_at j))].

Definition store_value (s : CronStore) : Value := VObject [("jobs", VArray (map job_value s))].

(** A required string, an optional one that may be missing or null, and the other fields. *)
Definition str_field (k : string) (v : Value) : option string := value_get k v ≫= as_str.

Definition opt_field (k : string) (v : Value) : option (option string) :=
  match value_get k v with
  | None | Some VNull => Some None
  | Some (VString s) => Some (Some s)
  | _ => None
  end.

Definition u32_field (k : string) (v : Value) : option (option Z) :=
  match value_get k v with
  | None | Some VNull => Some None
  | Some (VNumber n) => Some <$> u32_value n
  | _ => None
  end.

Definition strings_field (k : string) (v : Value) : option (list string) :=
  match value_get k v with
  | None => Some []
  | Some (VArray l) => mapM as_str l
  | _ => None
  end.

Definition job_of_value (v : Value) : option CronJob :=
  job_id ← str_field "job_id" v; name ← str_field "name" v;
  schedule ← str_field "schedule" v; command ← str_field "command" v;
  deliver ← opt_field "deliver" v; repeat_ ← u32_field "repeat" v;
  skills ← strings_field "skills" v; script ← opt_field "script" v;
  principal ← str_field "principal_id" v;
  enabled ← (value_get "enabled" v ≫= as_bool);
  last_run ← opt_field "last_run" v; next_run ← opt_field "next_run" v;
  created_at ← str_field "created_at" v;
  Some {| cj_job_id := job_id; cj_name := name; cj_schedule := schedule; cj_command := command;
          cj_deliver := deliver; cj_repeat := repeat_; cj_skills := skills; cj_script := script;
          cj_principal_id := principal; cj_enabled := enabled; cj_last_run := last_run;
          cj_next_run := next_run; cj_created_at := created_at |}.

Definition store_of_value (v : Value) : option CronStore :=
  match value_get "jobs" v with Some (VArray l) => mapM job_of_value l | _ => None end.

(** ** Changes of a job *)

Definition with_run (j : CronJob) (enabled : bool) (last_run : option string) : CronJob :=
  {| cj_job_id := cj_job_id j; cj_name := cj_name j; cj_schedule := cj_schedule j;
     cj_command := cj_command j; cj_deliver := cj_deliver j; cj_repeat := cj_repeat j;
     cj_skills := cj_skills j; cj_script := cj_script j; cj_principal_id := cj_principal_id j;
     cj_enabled := enabled; cj_last_run := last_run; cj_next_run := cj_next_run j;
     cj_created_at := cj_created_at j |}.

Definition edited (name schedule command : option string) (j : CronJob) : CronJob :=
  {| cj_job_id := cj_job_id j; cj_name := default (cj_name j) name;
     cj_schedule := default (cj_schedule j) schedule;
     cj_command := default (cj_command j) command; cj_deliver := cj_deliver j;
     cj_repeat := cj_repeat j; cj_skills := cj_skills j; cj_script := cj_script j;
     cj_principal_id := cj_principal_id j; cj_enabled := cj_enabled j;
     cj_last_run := cj_last_run j; cj_next_run := cj_next_run j; cj_created_at := cj_created_at j |}.

(** The arguments of [set_metadata]. *)
Record JobMetadata : Type := {
  md_deliver : option string;
  md_repeat : option Z;
  md_skills : option (list string);
  md_add_skills : list string;
  md_remove_skills : list string;
  md_clear_skills : bool;
  md_script : option string
}.

Definition new_skills (md : JobMetadata) (old : list string) : list string :=
  let skills := default old (md_skills md) in
  let skills := if md_clear_skills md then [] else skills in
  let skills := foldl (fun l s => if bool_decide (s ∈ l) then l else l ++ [s]) skills
                  (md_add_skills md) in
  filter (fun s => s ∉ md_remove_skills md) skills.

Definition with_metadata (md : JobMetadata) (j : CronJob) : CronJob :=
  {| cj_job_id := cj_job_id j; cj_name := cj_name j; cj_schedule := cj_schedule j;
     cj_command := cj_command j;
     cj_deliver := match md_deliver md with Some d => Some d | None => cj_deliver j end;
     cj_repeat := match md_repeat md with Some n => Some n | None => cj_repeat j end;
     cj_skills := new_skills md (cj_skills j);
     cj_script := match md_script md with
                  | Some s => if bool_decide (s = EmptyString) then None else Some s
                  | None => cj_script j
                  end;
     cj_principal_id := cj_principal_id j; cj_enabled := cj_enabled j;
     cj_last_run := cj_last_run j; cj_next_run := cj_next_run j; cj_created_at := cj_created_at j |}.

(** The first job with an identifier is changed, and what it becomes. *)
Fixpoint change_job (job_id : string) (f : CronJob -> CronJob) (s : CronStore)
  : option (CronStore * CronJob) :=
  match s with
  | [] => None
  | j :: s' =>
      if bool_decide (cj_job_id j = job_id) then Some (f j :: s', f j)
      else '(s'', j') ← change_job job_id f s'; Some (j :: s'', j')
  end.

Definition not_found (job_id : string) : CronError :=
  CronInternal ("job not found: " +:+ job_id).

(** ** The engine *)

(** The disk and the database of the ledger. *)
Record CronWorld : Type := { cw_disk : Disk; cw_db : Db }.

(** The readings of one operation: the clock, the fresh job identifier, the identifier and the
    time of the event, and the faults of the disk. *)
Record CronDraw : Type := {
  cd_now : string;
  cd_uuid : string;
  cd_event_id : string;
  cd_event_at : string;
  cd_faults : Faults
}.

Record CronEngine : Type := {
  ce_store_path : string;
  ce_ledger : EventLedger;
  ce_keypair : string;
  ce_namespace : string
}.

Section Engine.
Context `{Env} (err_text : string -> string) (ledger_text : LedgerError -> string).
Context (parse : string -> option Value) (pretty : Value -> string).

(** [CronEngine::load] *)
Definition load (self : CronEngine) (w : CronWorld) : CronStore :=
  default [] ((read_to_string (cw_disk w) (ce_store_path self) ≫= parse) ≫= store_of_value).

Definition save (self : CronEngine) (w : CronWorld) (fl : Faults) (s : CronStore)
  : CronWorld * result CronError unit :=
  let '(d, r) :=
    match path_parent (ce_store_path self) with
    | Some parent => create_dir_all err_text fl (cw_disk w) parent
    | None => (cw_disk w, Ok tt)
    end in
  match r with
  | Err e => ({| cw_disk := d; cw_db := cw_db w |}, Err (CronInternal e))
  | Ok _ =>
      let '(d, r) := write_file err_text fl d (ce_store_path self) (pretty (store_value s)) in
      ({| cw_disk := d; cw_db := cw_db w |},
       match r with Ok _ => Ok tt | Err e => Err (CronInternal e) end)
  end.

(** The event of an operation. *)
Definition record_event (self : CronEngine) (w : CronWorld) (dr : CronDraw) (kind : string)
    (payload : Value) : CronWorld * result CronError unit :=
  match append_signed_event (ce_ledger self) (cw_db w) (cd_event_id dr) (cd_event_at dr)
          (ce_keypair self) (ce_namespace self) kind payload None with
  | Ok (_, db) => ({| cw_disk := cw_disk w; cw_db := db |}, Ok tt)
  | Err e => (w, Err (CronInternal (ledger_text e)))
  end.

(** The end that the operations share: the file, then the event. *)
Definition save_and_record {A} (self : CronEngine) (w : CronWorld) (dr : CronDraw) (s : CronStore)
    (kind : string) (payload : Value) (answer : A) : CronWorld * result CronError A :=
  match save self w (cd_faults dr) s with
  | (w, Err e) => (w, Err e)
  | (w, Ok _) =>
      match record_event self w dr kind payload with
      | (w, Err e) => (w, Err e)
      | (w, Ok _) => (w, Ok answer)
      end
  end.

Definition new_job (self : CronEngine) (dr : CronDraw) (name schedule command : string) : CronJob :=
  {| cj_job_id := "cron-" +:+ cd_uuid dr; cj_name := name; cj_schedule := schedule;
     cj_command := command; cj_deliver := None; cj_repeat := None; cj_skills := [];
     cj_script := None; cj_principal_id := principal_id (ce_keypair self); cj_enabled := true;
     cj_last_run := None; cj_next_run := Some (cd_now dr); cj_created_at := cd_now dr |}.

Definition add (self : CronEngine) (w : CronWorld) (dr : CronDraw) (name schedule command : string)
  : CronWorld * result CronError CronJob :=
  let job := new_job self dr name schedule command in
  save_and_record self w dr (load self w ++ [job]) "cron.added"
    (VObject [("job_id", VString (cj_job_id job)); ("name", VString name);
              ("schedule", VString schedule); ("command", VString command)]) job.

Definition remove (self : CronEngine) (w : CronWorld) (dr : CronDraw) (job_id : string)
  : CronWorld * result CronError unit :=
  let store := load self w in
  let kept := filter (fun j => cj_job_id j <> job_id) store in
  if bool_decide (length kept = length store) then (w, Err (not_found job_id))
  else save_and_record self w dr kept "cron.removed" (VObject [("job_id", VString job_id)]) tt.

(** [set_enabled], [edit], [set_metadata] and [run_now] change one job and record it. *)
Definition change_and_record (self : CronEngine) (w : CronWorld) (dr : CronDraw) (job_id : string)
    (f : CronJob -> CronJob) (kind : string) (payload : CronJob -> Value)
  : CronWorld * result CronError CronJob :=
  match change_job job_id f (load self w) with
  | None => (w, Err (not_found job_id))
  | Some (store, job) => save_and_record self w dr store kind (payload job) job
  end.

Definition set_enabled (self : CronEngine) (w : CronWorld) (dr : CronDraw) (job_id : string)
    (enabled : bool) : CronWorld * result CronError CronJob :=
  change_and_record self w dr job_id (fun j => with_run j enabled (cj_last_run j))
    (if enabled then "cron.resumed" else "cron.paused")
    (fun _ => VObject [("job_id", VString job_id); ("enabled", VBool enabled)]).

Definition edit (self : CronEngine) (w : CronWorld) (dr : CronDraw) (job_id : string)
    (name schedule command : option string) : CronWorld * result CronError CronJob :=
  change_and_record self w dr job_id (edited name schedule command) "cron.edited"
    (fun j => VObject [("job_id", VString job_id); ("name", VString (cj_name j));
                       ("schedule", VString (cj_schedule j))]).

Definition set_metadata (self : CronEngine) (w : CronWorld) (dr : CronDraw) (job_id : string)
    (md : JobMetadata) : CronWorld * result CronError CronJob :=
  change_and_record self w dr job_id (with_metadata md) "cron.metadata"
    (fun j => VObject [("job_id", VString job_id); ("deliver", opt_string (cj_deliver j));
                       ("repeat", match cj_repeat j with Some n => VNumber n | None => VNull end);
                       ("skills", strings_value (cj_skills j));
                       ("script", opt_string (cj_script j))]).

Definition cron_list (self : CronEngine) (w : CronWorld) : list CronJob := load self w.

Definition run_now (self : CronEngine) (w : CronWorld) (dr : CronDraw) (job_id : string)
  : CronWorld * result CronError CronJob :=
  change_and_record self w dr job_id (fun j => with_run j (cj_enabled j) (Some (cd_now dr)))
    "cron.triggered"
    (fun j => VObject [("job_id", VString job_id); ("triggered_at", VString (cd_now dr));
                       ("command", VString (cj_command j))]).

(** The loop of [tick], with the readings of each run. *)
Fixpoint run_jobs (self : CronEngine) (w : CronWorld) (draws : nat -> CronDraw) (i : nat)
    (ids : list string) : CronWorld * result CronError (list CronJob) :=
  match ids with
  | [] => (w, Ok [])
  | id :: ids' =>
      match run_now self w (draws i) id with
      | (w, Err e) => (w, Err e)
      | (w, Ok job) =>
          let '(w, r) := run_jobs self w draws (S i) ids' in
          (w, let? l := r in Ok (job :: l))
      end
  end.

Definition tick (self : CronEngine) (w : CronWorld) (draws : nat -> CronDraw)
  : CronWorld * result CronError (list CronJob) :=
  run_jobs self w draws O (map cj_job_id (filter (fun j => cj_enabled j = true) (cron_list self w))).

(** [limit * 10] is a multiplication of 64 bits, which wraps. *)
Definition logs (visit : list EventRow -> list EventRow) (self : CronEngine) (w : CronWorld)
    (job_id : string) (limit : Z) : result CronError (list LedgerEvent) :=
  match list_global_events visit (ce_ledger self) (cw_db w) ((limit * 10) mod 2 ^ 64) with
  | Err e => Err (CronInternal (ledger_text e))
  | Ok events =>
      Ok (take (Z.to_nat limit)
            (filter (fun e => starts_with "cron." (le_event_type e) = true /\
                              (value_get "job_id" (le_payload e) ≫= as_str) = Some job_id) events))
  end.

End Engine.

(** * Theorems on timed jobs *)

(** ** The codec *)

Definition u32_opt (o : option Z) : Prop := forall n, o = Some n -> 0 <= n < 2 ^ 32.
Definition job_ok (j : CronJob) : Prop := u32_opt (cj_repeat j).

Lemma u32_value_ok n m : u32_value n = Some m -> m = n /\ 0 <= n < 2 ^ 32.
Proof. unfold u32_value. case_bool_decide; intros [= <-]; done. Qed.

Lemma u32_field_ok k v o : u32_field k v = Some o -> u32_opt o.
Proof.
  unfold u32_field. destruct (value_get k v) as [[]|]; try done; try (by intros [= <-] ? [=]).
  intros (m & Hm & ->)%fmap_Some n' [= <-]. apply u32_value_ok in Hm. by destruct Hm as [-> ?].
Qed.

Lemma mapM_strings l : mapM as_str (map VString l) = Some l.
Proof. induction l as [|s l IH]; [done|]. simpl. by rewrite IH. Qed.

Lemma opt_field_value k v o : value_get k v = Some (opt_string o) -> opt_field k v = Some o.
Proof. unfold opt_field. intros ->. by destruct o. Qed.

Lemma u32_field_value k v o :
  u32_opt o -> value_get k v = Some (match o with Some n => VNumber n | None => VNull end) ->
  u32_field k v = Some o.
Proof.
  unfold u32_field. intros Ho ->. destruct o as [n|]; [|done].
  unfold u32_value. by rewrite bool_decide_eq_true_2 by auto.
Qed.

Lemma strings_field_value k v l : value_get k v = Some (strings_value l) -> strings_field k v = Some l.
Proof. unfold strings_field. intros ->. apply mapM_strings. Qed.

Lemma job_roundtrip j : job_ok j -> job_of_value (job_value j) = Some j.
Proof.
  intros Hj. unfold job_of_value.
  rewrite (opt_field_value "deliver" _ (cj_deliver j)), (opt_field_value "script" _ (cj_script j)),
    (opt_field_value "last_run" _ (cj_last_run j)), (opt_field_value "next_run" _ (cj_next_run j)),
    (u32_field_value "repeat" _ (cj_repeat j)), (strings_field_value "skills" _ (cj_skills j))
    by (exact Hj || reflexivity).
  by destruct j.
Qed.

Lemma store_roundtrip s : Forall job_ok s -> store_of_value (store_value s) = Some s.
Proof.
  intros Hs. change (mapM job_of_value (map job_value s) = Some s). apply mapM_Some.
  induction Hs as [|j s Hj _ IH]; constructor; [by apply job_roundtrip|done].
Qed.

Lemma job_of_value_ok v j : job_of_value v = Some j -> job_ok j.
Proof.
  unfold job_of_value. intros Hj. repeat (apply bind_Some in Hj as (? & ? & Hj)).
  injection Hj as <-. by eapply u32_field_ok.
Qed.

Lemma store_of_value_ok v s : store_of_value v = Some s -> Forall job_ok s.
Proof.
  unfold store_of_value. destruct (value_get "jobs" v) as [[]|]; try done.
  intros Hm. apply mapM_Some in Hm. induction Hm; constructor; [by eapply job_of_value_ok|done].
Qed.

(** The text of the file is one that the parser reads back exactly. *)
Lemma strings_exact l :
  exact_json (strings_value l) = true /\ (json_depth (strings_value l) <= 1)%nat.
Proof.
  unfold strings_value. cbn. induction l as [|s l [IH1 IH2]]; [split; [done|simpl; lia]|].
  cbn in *. split; [done|]. lia.
Qed.

Lemma opt_string_exact o : exact_json (opt_string o) = true /\ json_depth (opt_string o) = 0%nat.
Proof. by destruct o. Qed.

Lemma repeat_exact o :
  u32_opt o ->
  let v := match o with Some n => VNumber n | None => VNull end in
  exact_json v = true /\ json_depth v = 0%nat.
Proof.
  intros Ho. destruct o as [n|]; [|done]. cbn. split; [|done]. specialize (Ho n eq_refl).
  apply bool_decide_eq_true_2. unfold i64_min, u64_max. lia.
Qed.

Lemma job_value_exact j :
  job_ok j -> exact_json (job_value j) = true /\ (json_depth (job_value j) <= 2)%nat.
Proof.
  intros Hj. unfold job_value. cbn [exact_json json_depth forallb foldr map fst snd].
  destruct (strings_exact (cj_skills j)) as [-> H1], (repeat_exact _ Hj) as [H2 H3].
  cbn zeta in H2, H3. rewrite H2, H3, !(proj1 (opt_string_exact _)), !(proj2 (opt_string_exact _)).
  split; [vm_compute; reflexivity|lia].
Qed.

Lemma store_value_exact s :
  Forall job_ok s ->
  exact_json (store_value s) = true /\ (json_depth (store_value s) <= max_json_depth)%nat.
Proof.
  intros Hs.
  assert (Hl : forallb exact_json (map job_value s) = true /\
               (foldr (fun v d => Nat.max (json_depth v) d) 0 (map job_value s) <= 2)%nat).
  { induction Hs as [|j s Hj _ [IH1 IH2]]; [split; [done|simpl; lia]|].
    destruct (job_value_exact j Hj) as [H1 H2]. cbn [map forallb foldr]. rewrite H1, IH1.
    split; [done|]. lia. }
  destruct Hl as [H1 H2]. unfold store_value. cbn [exact_json json_depth forallb foldr map fst snd].
  rewrite H1. split; [vm_compute; reflexivity|]. unfold max_json_depth. lia.
Qed.

(** ** The table of jobs *)

Definition job_ids (s : list CronJob) : list string := map cj_job_id s.

Definition jobs_map (s : list CronJob) : gmap string CronJob :=
  list_to_map (map (fun j => (cj_job_id j, j)) s).

Lemma jobs_map_cons j s : jobs_map (j :: s) = <[cj_job_id j := j]> (jobs_map s).
Proof. done. Qed.

Lemma jobs_map_None s id : jobs_map s !! id = None <-> id ∉ job_ids s.
Proof.
  induction s as [|j s IH]; [split; [intros _; apply not_elem_of_nil|done]|].
  change (job_ids (j :: s)) with (cj_job_id j :: job_ids s).
  rewrite jobs_map_cons, lookup_insert_None, IH, not_elem_of_cons. naive_solver.
Qed.

Lemma jobs_map_snoc s j :
  cj_job_id j ∉ job_ids s -> jobs_map (s ++ [j]) = <[cj_job_id j := j]> (jobs_map s).
Proof.
  induction s as [|x s IH]; [done|]. intros Hj. change (job_ids (x :: s)) with (cj_job_id x :: job_ids s) in Hj.
  apply not_elem_of_cons in Hj as [Hne Hj]. cbn [app]. rewrite !jobs_map_cons, IH by done.
  by apply insert_insert_ne.
Qed.

Lemma change_job_spec f id s :
  (forall j, cj_job_id (f j) = cj_job_id j) -> NoDup (job_ids s) ->
  match change_job id f s with
  | None => jobs_map s !! id = None
  | Some (s', j') => exists j, jobs_map s !! id = Some j /\ j' = f j /\
      jobs_map s' = <[id := f j]> (jobs_map s) /\ job_ids s' = job_ids s /\
      cj_job_id j = id /\ (j ∈ s) /\ (forall x, x ∈ s' -> x ∈ s \/ x = f j)
  end.
Proof.
  intros Hf. induction s as [|x s IH]; intros Hn; [done|].
  change (job_ids (x :: s)) with (cj_job_id x :: job_ids s) in Hn.
  apply NoDup_cons in Hn as [Hx Hn]. specialize (IH Hn). cbn [change_job].
  destruct (decide (cj_job_id x = id)) as [<-|Hne].
  - rewrite bool_decide_eq_true_2 by done. exists x. rewrite !jobs_map_cons, lookup_insert_eq, Hf.
    rewrite insert_insert_eq. unfold job_ids. cbn [map]. rewrite Hf. split_and!; try done; [left|].
    intros y Hy. apply elem_of_cons in Hy as [->|Hy]; [by right|]. left. by right.
  - rewrite bool_decide_eq_false_2 by done. rewrite jobs_map_cons, lookup_insert_ne by done.
    destruct (change_job id f s) as [[s' j']|]; [|done]. cbn [mbind option_bind].
    destruct IH as (j & Hl & -> & Hm & Hi & Hj & Hin & Hfrom). exists j. rewrite jobs_map_cons, Hm.
    split_and!; [done|done|by apply insert_insert_ne| |done|by right|].
    { unfold job_ids in *. cbn [map]. by rewrite Hi. }
    intros y Hy. apply elem_of_cons in Hy as [->|Hy]; [by left; left|].
    destruct (Hfrom y Hy); [left; by right|by right].
Qed.

Lemma filter_ids_map id s :
  NoDup (job_ids s) ->
  jobs_map (filter (fun j => cj_job_id j <> id) s) = delete id (jobs_map s) /\
  NoDup (job_ids (filter (fun j => cj_job_id j <> id) s)) /\
  (length (filter (fun j => cj_job_id j <> id) s) = length s <-> jobs_map s !! id = None).
Proof.
  induction s as [|x s IH]; intros Hn; [split_and!; [done|constructor|done]|].
  change (job_ids (x :: s)) with (cj_job_id x :: job_ids s) in Hn.
  apply NoDup_cons in Hn as [Hx Hn]. destruct (IH Hn) as (Hm & Hd & Hlen).
  pose proof (length_filter (fun j => cj_job_id j <> id) s) as Hle.
  rewrite filter_cons, jobs_map_cons. case_decide as Hne.
  - rewrite jobs_map_cons, Hm, delete_insert_ne, lookup_insert_ne by done. split; [done|]. split.
    + change (NoDup (cj_job_id x :: job_ids (filter (fun j => cj_job_id j <> id) s))).
      apply NoDup_cons. split; [|done]. intros Hin. apply Hx. apply list_elem_of_fmap in Hin as (y & -> & Hy).
      apply list_elem_of_filter in Hy as [_ Hy]. by apply (list_elem_of_fmap_2 cj_job_id).
    + rewrite <- Hlen. cbn. lia.
  - subst id. rewrite Hm, delete_insert_eq, lookup_insert_eq. split; [done|].
    split; [done|]. split; [cbn; lia|done].
Qed.

(** ** Operations and their meaning *)

Inductive CronOp : Type :=
| OpAdd (name schedule command : string)
| OpRemove (job_id : string)
| OpEnable (job_id : string) (enabled : bool)
| OpEdit (job_id : string) (name schedule command : option string)
| OpMetadata (job_id : string) (md : JobMetadata)
| OpRun (job_id : string).

Definition op_u32 (op : CronOp) : Prop :=
  match op with OpMetadata _ md => u32_opt (md_repeat md) | _ => True end.

Section Table.
Context `{Env}.

(** The changed job of the operations that change one. *)
Definition op_change (dr : CronDraw) (op : CronOp) : option (string * (CronJob -> CronJob)) :=
  match op with
  | OpAdd _ _ _ | OpRemove _ => None
  | OpEnable id b => Some (id, fun j => with_run j b (cj_last_run j))
  | OpEdit id name schedule command => Some (id, edited name schedule command)
  | OpMetadata id md => Some (id, with_metadata md)
  | OpRun id => Some (id, fun j => with_run j (cj_enabled j) (Some (cd_now dr)))
  end.

(** An operation of the table, its answer, or the identifier that was not found. *)
Definition table_op (self : CronEngine) (dr : CronDraw) (op : CronOp) (t : gmap string CronJob)
  : result string (gmap string CronJob * option CronJob) :=
  match op, op_change dr op with
  | OpAdd name schedule command, _ =>
      let j := new_job self dr name schedule command in Ok (<[cj_job_id j := j]> t, Some j)
  | OpRemove id, _ => match t !! id with Some _ => Ok (delete id t, None) | None => Err id end
  | _, Some (id, f) =>
      match t !! id with Some j => Ok (<[id := f j]> t, Some (f j)) | None => Err id end
  | _, None => Ok (t, None)
  end.

Definition table_after (self : CronEngine) (o : CronDraw * CronOp) (t : gmap string CronJob)
  : gmap string CronJob :=
  match table_op self o.1 o.2 t with Ok (t', _) => t' | Err _ => t end.

Definition table_all (self : CronEngine) (l : list (CronDraw * CronOp)) (t : gmap string CronJob)
  : gmap string CronJob := foldl (fun t o => table_after self o t) t l.

(** The identifiers of the new jobs are new. *)
Fixpoint fresh_ids (self : CronEngine) (l : list (CronDraw * CronOp)) (t : gmap string CronJob) : Prop :=
  match l with
  | [] => True
  | o :: l' =>
      match o.2 with OpAdd _ _ _ => t !! ("cron-" +:+ cd_uuid o.1) = None | _ => True end /\
      fresh_ids self l' (table_after self o t)
  end.

(** The kind and the payload of the event, from the answer. *)
Definition op_event (dr : CronDraw) (op : CronOp) (answer : option CronJob) : string * Value :=
  match op, answer with
  | OpAdd name schedule command, _ =>
      ("cron.added", VObject [("job_id", VString ("cron-" +:+ cd_uuid dr)); ("name", VString name);
                              ("schedule", VString schedule); ("command", VString command)])
  | OpRemove id, _ => ("cron.removed", VObject [("job_id", VString id)])
  | OpEnable id b, _ => (if b then "cron.resumed" else "cron.paused",
                         VObject [("job_id", VString id); ("enabled", VBool b)])
  | OpEdit id _ _ _, Some j =>
      ("cron.edited", VObject [("job_id", VString id); ("name", VString (cj_name j));
                               ("schedule", VString (cj_schedule j))])
  | OpMetadata id _, Some j =>
      ("cron.metadata", VObject [("job_id", VString id); ("deliver", opt_string (cj_deliver j));
         ("repeat", match cj_repeat j with Some n => VNumber n | None => VNull end);
         ("skills", strings_value (cj_skills j)); ("script", opt_string (cj_script j))])
  | OpRun id, Some j =>
      ("cron.triggered", VObject [("job_id", VString id); ("triggered_at", VString (cd_now dr));
                                  ("command", VString (cj_command j))])
  | _, None => ("", VNull)
  end.

(** The signed row of an event in the ledger. *)
Definition signed_row (self : CronEngine) (dr : CronDraw) (e : string * Value) (row : EventRow) : Prop :=
  let principal := principal_id (ce_keypair self) in
  ev_event_id row = cd_event_id dr /\ ev_principal_id row = principal /\
  ev_namespace_key row = ce_namespace self /\ ev_event_type row = e.1 /\
  ev_payload_json row = json_to_string e.2 /\
  ev_signature_hex row = Some (hex_encode (sign_event_envelope (ce_keypair self) principal
    (ce_namespace self) None e.1 e.2 None)).

End Table.

(** ** The engine *)

Section Engine.
Context `{Env} (err_text : string -> string) (ledger_text : LedgerError -> string).
Context (parse : string -> option Value) (pretty : Value -> string).
Context (parse_pretty : forall v, exact_json v = true -> (json_depth v <= max_json_depth)%nat ->
           parse (pretty v) = Some v).
Context (pretty_utf8 : forall v, str_utf8 (pretty v) = true).

Local Abbreviation load := (load parse).
Local Abbreviation save := (save err_text pretty).
Local Abbreviation record_event := (record_event ledger_text).
Local Abbreviation save_and_record := (save_and_record err_text ledger_text pretty).
Local Abbreviation change_and_record := (change_and_record err_text ledger_text parse pretty).

Definition table (self : CronEngine) (w : CronWorld) : gmap string CronJob := jobs_map (load self w).

(** The file can be written: its path has a parent that exists or can be created. *)
Definition ready (self : CronEngine) (d : Disk) : Prop :=
  exists parent, path_parent (ce_store_path self) = Some parent /\ (ce_store_path self ∉ dirs d) /\
    (parent = EmptyString \/
     Forall (fun p => files d !! p = None) (ancestors (S (String.length parent)) parent)).

Lemma save_spec self w s w' r :
  ready self (cw_disk w) -> Forall job_ok s -> save self w no_faults s = (w', r) ->
  r = Ok tt /\ cw_db w' = cw_db w /\ ready self (cw_disk w') /\ load self w' = s /\
  files (cw_disk w') = <[ce_store_path self := pretty (store_value s)]> (files (cw_disk w)).
Proof.
  intros (parent & Hp & Hd & Hw) Hs Hsv. pose proof (path_parent_shorter _ _ Hp) as Hlen.
  assert (Hnot : ce_store_path self ∉ ancestors (S (String.length parent)) parent).
  { intros Hin. apply ancestors_shorter in Hin. lia. }
  assert (Hmk : exists d, create_dir_all err_text no_faults (cw_disk w) parent = (d, Ok tt) /\
            files d = files (cw_disk w) /\ (ce_store_path self ∉ dirs d) /\
            (parent = EmptyString \/ parent ∈ dirs d)).
  { unfold create_dir_all. cbn [mkdir_fault no_faults]. case_bool_decide as He; [eauto 6|].
    destruct Hw as [Hw|Hw]; [done|]. destruct (existsb _ _) eqn:Ex.
    - apply existsb_exists in Ex as (p & Hin & Hf). apply list_elem_of_In in Hin.
      rewrite Forall_forall in Hw. by rewrite (Hw p Hin) in Hf.
    - eexists. split; [done|]. cbn [files dirs]. split; [done|].
      split; [rewrite elem_of_union, elem_of_list_to_set; tauto|]. right.
      apply elem_of_union_r, elem_of_list_to_set. left. }
  destruct Hmk as (d & Hmk & Hf & Hd' & Hpar). unfold Cron.save in Hsv. rewrite Hp, Hmk in Hsv.
  unfold write_file, parent_present in Hsv. rewrite Hp in Hsv.
  rewrite (bool_decide_eq_false_2 (ce_store_path self ∈ dirs d)) in Hsv by done.
  assert (Hb : bool_decide (parent = EmptyString) || bool_decide (parent ∈ dirs d) = true).
  { apply orb_true_iff. rewrite !bool_decide_eq_true. done. }
  rewrite Hb in Hsv. cbn [negb orb write_fault no_faults] in Hsv. injection Hsv as <- <-.
  split; [done|]. split; [done|]. cbn [cw_disk]. split; [|split; [|by rewrite Hf]].
  - exists parent. split; [done|]. split; [done|]. destruct Hw as [->|Hw]; [by left|]. right.
    rewrite Forall_forall in *. intros p Hin. cbn [files]. rewrite Hf, lookup_insert_ne; [auto|].
    intros <-. done.
  - unfold Cron.load, read_to_string. cbn [cw_disk files]. rewrite Hf, lookup_insert_eq.
    cbn [mbind option_bind]. rewrite pretty_utf8. cbn [mbind option_bind].
    destruct (store_value_exact s Hs). rewrite parse_pretty by done. cbn [mbind option_bind].
    by rewrite store_roundtrip.
Qed.

Lemma load_ok self w : Forall job_ok (load self w).
Proof.
  unfold Cron.load. destruct (_ ≫= store_of_value) as [s|] eqn:E; [|constructor].
  apply bind_Some in E as (v & _ & E). by eapply store_of_value_ok.
Qed.

(** The ledger was asked for the event, and refused or added its signed row. *)
Definition recorded (self : CronEngine) (dr : CronDraw) (e : string * Value) (db db' : Db)
    (refused : option CronError) : Prop :=
  match refused with
  | None => exists row, db' = with_events db (events db ++ [row]) /\ signed_row self dr e row
  | Some err => db' = db /\ exists le, err = CronInternal (ledger_text le) /\
      append_signed_event (ce_ledger self) db (cd_event_id dr) (cd_event_at dr) (ce_keypair self)
        (ce_namespace self) e.1 e.2 None = Err le
  end.

Lemma record_event_spec self w dr kind payload w' r :
  record_event self w dr kind payload = (w', r) ->
  cw_disk w' = cw_disk w /\
  recorded self dr (kind, payload) (cw_db w) (cw_db w')
    (match r with Ok _ => None | Err e => Some e end).
Proof.
  unfold Cron.record_event. destruct (append_signed_event _ _ _ _ _ _ _ _ _) as [[id db']|le] eqn:E.
  - intros [= <- <-]. split; [done|]. cbn [recorded cw_db].
    unfold append_signed_event, append_signed_event_with_parent, append_event_with_parent in E.
    cbv zeta in E. apply with_conn_inv in E as [E _].
    destruct (append_prepared_event _ _ _) as [[ins db1]|] eqn:Ep in E; [|done].
    injection E as <- <-. destruct ins; [|by apply append_existing in Ep as (_ & ? & _ & _ & ?)].
    apply append_inserted in Ep as (seq & prev & _ & _ & ->). eexists. split; [reflexivity|].
    by repeat split.
  - intros [= <- <-]. split; [done|]. cbn. split; [done|]. eauto.
Qed.

(** What an operation that changes the table does to the world. *)
Definition effect (self : CronEngine) (dr : CronDraw) (s : list CronJob) (e : string * Value)
    (w w' : CronWorld) (refused : option CronError) : Prop :=
  load self w' = s /\ ready self (cw_disk w') /\
  (forall p, p <> ce_store_path self -> files (cw_disk w') !! p = files (cw_disk w) !! p) /\
  recorded self dr e (cw_db w) (cw_db w') refused.

Lemma save_and_record_spec {A} self w dr s kind payload (a : A) w' r :
  ready self (cw_disk w) -> Forall job_ok s -> cd_faults dr = no_faults ->
  save_and_record self w dr s kind payload a = (w', r) ->
  effect self dr s (kind, payload) w w' (match r with Ok _ => None | Err e => Some e end) /\
  (forall a', r = Ok a' -> a' = a).
Proof.
  intros Hr Hs Hf Hc. unfold Cron.save_and_record in Hc. rewrite Hf in Hc.
  destruct (save self w no_faults s) as [w1 r1] eqn:E1.
  destruct (save_spec _ _ _ _ _ Hr Hs E1) as (-> & Hdb & Hr1 & Hl & Hfiles).
  destruct (record_event self w1 dr kind payload) as [w2 r2] eqn:E2.
  apply record_event_spec in E2 as [Hd Hrec]. rewrite Hdb in Hrec.
  assert (effect self dr s (kind, payload) w w2 (match r2 with Ok _ => None | Err e => Some e end)).
  { split; [unfold Cron.load in *; by rewrite Hd|]. rewrite Hd. split; [done|]. split; [|done].
    intros p Hp. rewrite Hfiles. by apply lookup_insert_ne. }
  destruct r2 as [u|e]; injection Hc as <- <-; (split; [done|]); [by intros ? [= <-]|done].
Qed.

(** Any operation, with the job it answers. *)
Definition exec (self : CronEngine) (w : CronWorld) (dr : CronDraw) (op : CronOp)
  : CronWorld * result CronError (option CronJob) :=
  let changed (wr : CronWorld * result CronError CronJob) :=
    (wr.1, let? j := wr.2 in Ok (Some j)) in
  match op with
  | OpAdd name schedule command =>
      changed (add err_text ledger_text parse pretty self w dr name schedule command)
  | OpRemove id =>
      let '(w', r) := remove err_text ledger_text parse pretty self w dr id in
      (w', let? _ := r in Ok None)
  | OpEnable id b => changed (set_enabled err_text ledger_text parse pretty self w dr id b)
  | OpEdit id name schedule command =>
      changed (edit err_text ledger_text parse pretty self w dr id name schedule command)
  | OpMetadata id md => changed (set_metadata err_text ledger_text parse pretty self w dr id md)
  | OpRun id => changed (run_now err_text ledger_text parse pretty self w dr id)
  end.

(** An operation against the table: an identifier that is not found changes nothing; otherwise
    the table changes, and the answer is its, unless the ledger refused the event. *)
Definition step_spec (self : CronEngine) (o : CronDraw * CronOp) (t : gmap string CronJob)
    (db db' : Db) (r : result CronError (option CronJob)) : Prop :=
  match table_op self o.1 o.2 t with
  | Err id => r = Err (not_found id) /\ db' = db
  | Ok (_, a) =>
      recorded self o.1 (op_event o.1 o.2 a) db db' (match r with Ok _ => None | Err e => Some e end) /\
      (forall a', r = Ok a' -> a' = a)
  end.

(** What is kept between operations. *)
Definition sound (self : CronEngine) (w : CronWorld) : Prop :=
  ready self (cw_disk w) /\ NoDup (job_ids (load self w)).

Definition step_holds (self : CronEngine) (o : CronDraw * CronOp) (w w' : CronWorld)
    (r : result CronError (option CronJob)) : Prop :=
  sound self w' /\ table self w' = table_after self o (table self w) /\
  (forall p, p <> ce_store_path self -> files (cw_disk w') !! p = files (cw_disk w) !! p) /\
  step_spec self o (table self w) (cw_db w) (cw_db w') r.

Lemma nothing_done self o w id :
  sound self w -> table_op self o.1 o.2 (table self w) = Err id ->
  step_holds self o w w (Err (not_found id)).
Proof. intros Hs Ht. unfold step_holds, table_after, step_spec. by rewrite Ht. Qed.

(** From the effect on the list of jobs to that on the table. *)
Lemma effect_step self dr op s e a w w' r :
  effect self dr s e w w' (match r with Ok _ => None | Err e => Some e end) ->
  NoDup (job_ids s) -> table_op self dr op (table self w) = Ok (jobs_map s, a) ->
  op_event dr op a = e -> (forall a', r = Ok a' -> a' = a) ->
  step_holds self (dr, op) w w' r.
Proof.
  intros (Hl & Hr & Hf & Hrec) Hn Ht He Ha.
  unfold step_holds, sound, table_after, step_spec. cbn [fst snd]. rewrite Ht, He.
  split; [split; [done|by rewrite Hl]|]. split; [unfold table; by rewrite Hl|]. done.
Qed.

(** The four operations that change one job. *)
Lemma change_step self w dr op id f kind payload w' r :
  sound self w -> cd_faults dr = no_faults -> op_change dr op = Some (id, f) ->
  (forall j, cj_job_id (f j) = cj_job_id j) -> (forall j, job_ok j -> job_ok (f j)) ->
  (forall j, op_event dr op (Some (f j)) = (kind, payload (f j))) ->
  change_and_record self w dr id f kind payload = (w', r) ->
  step_holds self (dr, op) w w' (let? j := r in Ok (Some j)).
Proof.
  intros [Hr Hn] Hfl Hop Hid Hok Hev Hc. unfold Cron.change_and_record in Hc.
  pose proof (change_job_spec f id _ Hid Hn) as Hs.
  assert (Ht : table_op self dr op (table self w)
    = match table self w !! id with Some j => Ok (<[id := f j]> (table self w), Some (f j)) | None => Err id end).
  { destruct op; try done; injection Hop as <- <-; reflexivity. }
  unfold table in Ht at 2. destruct (change_job id f (load self w)) as [[s j']|].
  - destruct Hs as (j & Hl & -> & Hm & Hi & _ & Hin & Hfrom). rewrite Hl in Ht.
    pose proof (load_ok self w) as Hload. rewrite Forall_forall in Hload.
    destruct (save_and_record_spec self w dr s kind (payload (f j)) (f j) w' r Hr) as [He Ha];
      [|done|done|].
    { rewrite Forall_forall. intros x Hx. destruct (Hfrom x Hx) as [?| ->]; auto. }
    eapply effect_step; [|by rewrite Hi|rewrite Ht; unfold table; by rewrite Hm|apply Hev|].
    + by destruct r.
    + intros a' Hr'. destruct r as [x|]; [|done]. injection Hr' as <-. by rewrite (Ha x).
  - injection Hc as <- <-. apply nothing_done; [done|]. cbn [fst snd]. by rewrite Ht, Hs.
Qed.

Lemma with_metadata_ok md j : u32_opt (md_repeat md) -> job_ok j -> job_ok (with_metadata md j).
Proof.
  unfold job_ok, u32_opt. cbn. intros Hm Hj n. destruct (md_repeat md); [apply Hm|apply Hj].
Qed.

Lemma cron_step self w o w' r :
  sound self w -> cd_faults o.1 = no_faults -> op_u32 o.2 ->
  match o.2 with OpAdd _ _ _ => table self w !! ("cron-" +:+ cd_uuid o.1) = None | _ => True end ->
  exec self w o.1 o.2 = (w', r) -> step_holds self o w w' r.
Proof.
  destruct o as [dr op]. cbn [fst snd]. intros Hs Hfl Hu Hfresh Hx. pose proof Hs as [Hr Hn].
  destruct op as [name schedule command|id|id b|id name schedule command|id md|id];
    unfold exec in Hx; cbv zeta in Hx.
  - unfold add in Hx. cbv zeta in Hx. set (j := new_job self dr name schedule command) in *.
    destruct (save_and_record _ _ _ _ _ _ _) as [w1 r1] eqn:E. cbn [fst snd] in Hx. injection Hx as <- <-.
    apply jobs_map_None in Hfresh.
    apply save_and_record_spec in E as [He Ha]; [|done| |done].
    2: { apply Forall_app. split; [apply load_ok|]. constructor; [by intros ? [=]|done]. }
    eapply effect_step; [by destruct r1| |cbn; unfold table; by rewrite jobs_map_snoc|done|].
    + unfold job_ids. rewrite map_app. apply NoDup_app. split; [done|]. split; [|apply NoDup_singleton].
      intros x H1 H2. apply list_elem_of_singleton in H2 as ->. done.
    + intros a' Hr'. destruct r1 as [x|]; [|done]. injection Hr' as <-. by rewrite (Ha x).
  - unfold remove in Hx. cbv zeta in Hx. destruct (filter_ids_map id _ Hn) as (Hm & Hd & Hlen).
    case_bool_decide as Hl.
    + injection Hx as <- <-. apply nothing_done; [done|]. cbn. unfold table. by rewrite (proj1 Hlen Hl).
    + destruct (save_and_record _ _ _ _ _ _ _) as [w1 r1] eqn:E. injection Hx as <- <-.
      apply save_and_record_spec in E as [He Ha]; [|done| |done].
      2: { pose proof (load_ok self w) as Hload. rewrite Forall_forall in *.
           intros x Hin. apply list_elem_of_filter in Hin as [_ Hin]. auto. }
      eapply effect_step; [by destruct r1|done| |done|by destruct r1; [intros ? [= <-]|]].
      cbn. unfold table. rewrite Hm. destruct (jobs_map (load self w) !! id) eqn:El; [done|].
      by destruct Hl; apply Hlen.
  - destruct (set_enabled _ _ _ _ _ _ _ _ _) as [w1 r1] eqn:E. injection Hx as <- <-.
    by eapply change_step; [..|exact E].
  - destruct (edit _ _ _ _ _ _ _ _ _ _ _) as [w1 r1] eqn:E. injection Hx as <- <-.
    by eapply change_step; [..|exact E].
  - destruct (set_metadata _ _ _ _ _ _ _ _ _) as [w1 r1] eqn:E. injection Hx as <- <-.
    eapply change_step; [..|exact E]; try done. intros j. by apply with_metadata_ok.
  - destruct (run_now _ _ _ _ _ _ _ _) as [w1 r1] eqn:E. injection Hx as <- <-.
    by eapply change_step; [..|exact E].
Qed.

Fixpoint exec_all (self : CronEngine) (w : CronWorld) (l : list (CronDraw * CronOp))
  : CronWorld * list (result CronError (option CronJob)) :=
  match l with
  | [] => (w, [])
  | o :: l' =>
      let '(w1, r) := exec self w o.1 o.2 in
      let '(w2, rs) := exec_all self w1 l' in (w2, r :: rs)
  end.

(** The answers and the ledger, operation by operation. *)
Inductive run_spec (self : CronEngine) :
  list (CronDraw * CronOp) -> gmap string CronJob -> Db -> Db ->
  list (result CronError (option CronJob)) -> Prop :=
| run_done t db : run_spec self [] t db db []
| run_next o l t db db1 db2 r rs :
    step_spec self o t db db1 r -> run_spec self l (table_after self o t) db1 db2 rs ->
    run_spec self (o :: l) t db db2 (r :: rs).

(** C28. Timed jobs against a table: with a disk that does not fail, after any sequence of operations
    the file holds exactly the jobs that the table of the jobs has after them, whatever the
    ledger did; every operation answers as the table does or reports that the ledger refused
    its event; one that succeeds adds one signed event to the ledger, any other none; and no
    other file changes. *)
Theorem cron_refines_table self w l w' rs :
  sound self w -> Forall (fun o => cd_faults o.1 = no_faults /\ op_u32 o.2) l ->
  fresh_ids self l (table self w) -> exec_all self w l = (w', rs) ->
  sound self w' /\ table self w' = table_all self l (table self w) /\
  run_spec self l (table self w) (cw_db w) (cw_db w') rs /\
  (forall p, p <> ce_store_path self -> files (cw_disk w') !! p = files (cw_disk w) !! p).
Proof.
  revert w w' rs. induction l as [|o l IH]; intros w w' rs Hs Hl Hf Hx.
  { injection Hx as <- <-. split; [done|]. split; [done|]. split; [constructor|done]. }
  apply Forall_cons in Hl as [[Hfl Hu] Hl]. destruct Hf as [Hf0 Hf]. cbn in Hx.
  destruct (exec self w o.1 o.2) as [w1 r] eqn:E1.
  destruct (exec_all self w1 l) as [w2 rs2] eqn:E2. injection Hx as <- <-.
  destruct (cron_step _ _ _ _ _ Hs Hfl Hu Hf0 E1) as (Hs1 & Ht1 & Hd1 & Hsp).
  rewrite <- Ht1 in Hf. destruct (IH _ _ _ Hs1 Hl Hf E2) as (Hs2 & Ht2 & Hr2 & Hd2).
  rewrite Ht1 in Ht2, Hr2. split; [done|]. split; [done|]. split; [by econstructor|].
  intros p Hp. by rewrite Hd2, Hd1.
Qed.

(** A tick that succeeds triggers the enabled jobs, each once and in their order: neither the
    schedule nor the time of the last run nor the number of repeats is asked. *)
Lemma run_jobs_ids self draws ids : forall i w w' l,
  run_jobs err_text ledger_text parse pretty self w draws i ids = (w', Ok l) -> job_ids l = ids.
Proof.
  induction ids as [|id ids IH]; intros i w w' l Hr; cbn in Hr; [by injection Hr as _ <-|].
  destruct (run_now _ _ _ _ self w (draws i) id) as [w1 [j|e]] eqn:E; [|done].
  destruct (run_jobs _ _ _ _ self w1 draws (S i) ids) as [w2 [l2|e]] eqn:E2; [|done].
  cbn in Hr. injection Hr as _ <-. unfold job_ids. cbn [map]. f_equal; [|by eapply IH].
  unfold run_now, Cron.change_and_record in E. clear -E.
  destruct (change_job _ _ _) as [[s j']|] eqn:Ec; [|done].
  assert (j' = j) as <-.
  { unfold Cron.save_and_record in E. destruct (save _ _ _ _) as [? []]; [|done].
    destruct (record_event _ _ _ _ _) as [? []]; congruence. }
  clear E. revert s Ec. generalize (load self w).
  induction l as [|x l IH]; intros s; cbn [change_job]; [done|].
  case_bool_decide; [by intros [= _ <-]|]. intros ([s'' j''] & Hc & [= _ <-])%bind_Some. by eapply IH.
Qed.

Theorem tick_triggers_enabled self w draws w' l :
  tick err_text ledger_text parse pretty self w draws = (w', Ok l) ->
  job_ids l = job_ids (filter (fun j => cj_enabled j = true) (load self w)).
Proof. apply run_jobs_ids. Qed.

End Engine.

(** ** A concrete engine *)

Definition hex_pretty (v : Value) : string := toy_hex_encode (toy_to_string v).
Definition hex_parse (s : string) : option Value := toy_hex_decode s ≫= toy_from_str.

Lemma hex_parse_pretty v : hex_parse (hex_pretty v) = Some v.
Proof. unfold hex_parse, hex_pretty. rewrite toy_hex_roundtrip. apply toy_json_roundtrip. Qed.

Lemma hex_pretty_utf8 v : str_utf8 (hex_pretty v) = true.
Proof.
  unfold hex_pretty, str_utf8. generalize (toy_to_string v).
  induction s as [|a s IH]; [done|].
  assert (Hd : forall n, (n < 16)%N -> (Ascii.N_of_ascii (hex_digit n) <=? 127)%N = true).
  { intros n Hn. unfold hex_digit. apply N.leb_le. rewrite Ascii.N_ascii_embedding;
      destruct (n <? 10)%N eqn:En; try apply N.ltb_lt in En; lia. }
  pose proof (Ascii.N_ascii_bounded a) as Ha.
  cbn [toy_hex_encode String.list_ascii_of_string utf8_ok].
  rewrite !Hd; [exact IH|apply N.mod_lt; lia|apply N.Div0.div_lt_upper_bound; lia].
Qed.

Definition toy_ledger_text (e : LedgerError) : string := "ledger".

Definition cron_engine (handle : EventLedger) : CronEngine :=
  {| ce_store_path := "/data/cron.json"; ce_ledger := handle; ce_keypair := sample_keypair;
     ce_namespace := "ns" |}.

Definition cron_start : CronWorld := {| cw_disk := {| files := ∅; dirs := ∅ |}; cw_db := sample_db |}.

Definition cron_draw (n : string) (fl : Faults) : CronDraw :=
  {| cd_now := "t" +:+ n; cd_uuid := n; cd_event_id := "evt-" +:+ n; cd_event_at := "now";
     cd_faults := fl |}.

Definition toy_exec_all :=
  exec_all (H := toy_env) (fun s => s) toy_ledger_text hex_parse hex_pretty.
Definition toy_load := load hex_parse.

Definition cron_script : list (CronDraw * CronOp) :=
  [(cron_draw "1" no_faults, OpAdd "backup" "every 1h" "tar");
   (cron_draw "2" no_faults, OpAdd "report" "never" "mail");
   (cron_draw "3" no_faults, OpEnable "cron-1" false);
   (cron_draw "4" no_faults, OpRun "cron-9");
   (cron_draw "5" no_faults, OpRemove "cron-1")].

Lemma cron_start_sound : sound hex_parse (cron_engine sample_handle) cron_start.
Proof.
  split; [|constructor]. exists "/data". split; [vm_compute; reflexivity|].
  split; [apply not_elem_of_empty|]. right. apply Forall_forall. intros p _. apply lookup_empty.
Qed.

Lemma cron_refines_table_witness :
  let '(w, _) := toy_exec_all (cron_engine sample_handle) cron_start cron_script in
  table hex_parse (cron_engine sample_handle) w
  = {["cron-2" := new_job (H := toy_env) (cron_engine sample_handle) (cron_draw "2" no_faults)
                    "report" "never" "mail"]}.
Proof.
  destruct (toy_exec_all (cron_engine sample_handle) cron_start cron_script) as [w rs] eqn:E.
  destruct (cron_refines_table (H := toy_env) (fun s => s) toy_ledger_text hex_parse hex_pretty
    (fun v _ _ => hex_parse_pretty v) hex_pretty_utf8 (cron_engine sample_handle) cron_start
    cron_script w rs cron_start_sound) as (_ & Ht & _ & _); [| |exact E|].
  - repeat constructor.
  - repeat split; vm_compute; reflexivity.
  - rewrite Ht. vm_compute. reflexivity.
Defined.

Example cron_script_runs :
  let '(w, rs) := toy_exec_all (cron_engine sample_handle) cron_start cron_script in
  map (is_ok (A := option CronJob)) rs = [true; true; true; false; true] /\
  map ev_event_type (events (cw_db w))
  = ["cron.added"; "cron.added"; "cron.paused"; "cron.removed"].
Proof. vm_compute. done. Qed.

(** The ledger is another database than the engine expects: the job is there, the caller is
    told that it is not. *)
Example error_after_effect :
  let '(w, rs) := toy_exec_all (cron_engine {| el_instance_id := Some "other" |}) cron_start
                    [(cron_draw "1" no_faults, OpAdd "backup" "every 1h" "tar")] in
  rs = [Err (CronInternal "ledger")] /\
  job_ids (toy_load (cron_engine sample_handle) w) = ["cron-1"].
Proof. vm_compute. done. Qed.

(** A write that stops half way leaves a file that counts as empty, and the next job replaces
    the jobs that were there. *)
Example torn_write_loses_jobs :
  let torn := {| mkdir_fault := None; write_fault := Some ("no space", Some "7b"); rename_fault := None |} in
  let '(w, rs) := toy_exec_all (cron_engine sample_handle) cron_start
                    [(cron_draw "1" no_faults, OpAdd "backup" "every 1h" "tar");
                     (cron_draw "2" torn, OpRun "cron-1");
                     (cron_draw "3" no_faults, OpAdd "report" "never" "mail")] in
  map (is_ok (A := option CronJob)) rs = [true; false; true] /\
  job_ids (toy_load (cron_engine sample_handle) w) = ["cron-3"].
Proof. vm_compute. done. Qed.

(** A job with no repeats left is triggered by every tick, also twice within one instant. *)
Example tick_ignores_schedule :
  let md := {| md_deliver := None; md_repeat := Some 0; md_skills := None; md_add_skills := [];
               md_remove_skills := []; md_clear_skills := false; md_script := None |} in
  let '(w, _) := toy_exec_all (cron_engine sample_handle) cron_start
                   [(cron_draw "1" no_faults, OpAdd "report" "never" "mail");
                    (cron_draw "2" no_faults, OpMetadata "cron-1" md)] in
  let toy_tick w n := tick (H := toy_env) (fun s => s) toy_ledger_text hex_parse hex_pretty
                        (cron_engine sample_handle) w (fun _ => cron_draw n no_faults) in
  let '(w, r1) := toy_tick w "3" in let '(w, r2) := toy_tick w "4" in
  let ids (r : result CronError (list CronJob)) := match r with Ok l => job_ids l | Err _ => [] end in
  ids r1 = ["cron-1"] /\ ids r2 = ["cron-1"].
Proof. vm_compute. done. Qed.

(** The event of an edit does not say which command the job runs from now on. *)
Example edit_hides_command :
  op_event (cron_draw "1" no_faults) (OpEdit "cron-1" None None (Some "rm"))
    (Some (edited None None (Some "rm") (new_job (H := toy_env) (cron_engine sample_handle)
             (cron_draw "1" no_faults) "backup" "every 1h" "tar")))
  = ("cron.edited", VObject [("job_id", VString "cron-1"); ("name", VString "backup");
                             ("schedule", VString "every 1h")]).
Proof. vm_compute. reflexivity. Qed.
