(* ===== verification/F64.v ===== *)
(** * Binary64 floats

    The part of [f64] that the sources use on token counts: conversion of a [usize],
    product, quotient, comparison, and the saturating conversion back ([as usize]).  The
    arithmetic is the executable specification of IEEE 754 of the Standard Library, at 53
    bits of precision, with rounding to nearest even. *)

From Stdlib Require Import SpecFloat.
From stdpp Require Import prelude.
From S2P Require Import Prelude.
Local Open Scope Z_scope.

Definition f64 : Type := spec_float.

Definition usize_max : Z := u64_max.

(** [n as f64] *)
Definition usize_as_f64 (n : Z) : f64 := binary_normalize 53 1024 n 0 false.

Definition f64_mul : f64 -> f64 -> f64 := SFmul 53 1024.
Definition f64_div : f64 -> f64 -> f64 := SFdiv 53 1024.

(** [a >= b]: false when either is not a number. *)
Definition f64_ge (a b : f64) : bool := SFleb b a.

(** [f as usize]: truncates towards zero and saturates; not-a-number is zero. *)
Definition f64_as_usize (f : f64) : Z :=
  match f with
  | S754_nan | S754_zero _ => 0
  | S754_infinity s => if s then 0 else usize_max
  | S754_finite s m e => if s then 0 else Z.min usize_max (Z.shiftl (Zpos m) e)
  end.

(** [(n as f64 * ratio) as usize] *)
Definition scale (n : Z) (ratio : f64) : Z := f64_as_usize (f64_mul (usize_as_f64 n) ratio).

(** A decimal literal [p/q], correctly rounded. *)
Definition f64_literal (p q : Z) : f64 := f64_div (usize_as_f64 p) (usize_as_f64 q).

(** [usize::saturating_add] *)
Definition saturating_add (a b : Z) : Z := Z.min usize_max (a + b).

Lemma f64_as_usize_bounds f : 0 <= f64_as_usize f <= usize_max.
Proof.
  unfold f64_as_usize, usize_max, u64_max. destruct f as [s|s| |s m e]; [lia|destruct s; lia|lia|].
  destruct s; [lia|]. split; [|apply Z.le_min_l].
  apply Z.min_glb; [lia|]. by apply Z.shiftl_nonneg.
Qed.

Lemma scale_bounds n ratio : 0 <= scale n ratio <= usize_max.
Proof. apply f64_as_usize_bounds. Qed.

Example scale_half : scale 10000 (f64_literal 50 100) = 5000.
Proof. vm_compute. reflexivity. Qed.

(** Rounding shows: 29 hundredths of 100 are truncated to 28. *)
Example scale_rounds :
  scale 30 (f64_literal 10 100) = 3 /\ scale 10 (f64_literal 30 100) = 3 /\
  scale 100 (f64_literal 29 100) = 28.
Proof. vm_compute. done. Qed.

Example scale_extremes :
  scale 10 (f64_literal 1 0) = usize_max /\ scale 0 (f64_literal 1 0) = 0 /\
  scale usize_max (f64_literal 1 1) = usize_max.
Proof. vm_compute. done. Qed.
