(* ===== verification/Todo.v ===== *)
(** * The todo list of a session ([crates/zaion-runtime/src/todo_tool.rs])

    A list of items by identifier, the requests of the tool, and the text that is put back
    into a conversation after its compression.  The JSON form of requests and responses is
    not modelled: a request is the value it was parsed to.

    Shown: the list never holds an identifier twice nor an empty one, whatever is requested;
    [replace] keeps the last item of each identifier in order; what every request does; and a
    defect: an item that was added under an identifier with surrounding white space is not
    found under it. *)

From stdpp Require Import prelude gmap strings list.
From S2P Require Import Prelude.
Local Open Scope res_scope.

Inductive TodoStatus : Type := Pending | InProgress | Completed | Cancelled.
#[global] Instance todo_status_eq_dec : EqDecision TodoStatus.
Proof. solve_decision. Defined.

Definition is_active (s : TodoStatus) : bool :=
  match s with Pending | InProgress => true | Completed | Cancelled => false end.

Definition status_as_str (s : TodoStatus) : string :=
  match s with
  | Pending => "pending"
  | InProgress => "in_progress"
  | Completed => "completed"
  | Cancelled => "cancelled"
  end.

Inductive TodoPriority : Type := Low | Normal | High | Urgent.

Definition priority_as_str (p : TodoPriority) : string :=
  match p with Low => "low" | Normal => "normal" | High => "high" | Urgent => "urgent" end.

Record TodoItem : Type := {
  ti_id : string;
  ti_title : string;
  ti_status : TodoStatus;
  ti_priority : TodoPriority;
  ti_notes : option string
}.

Definition todo_item_new (id title : string) : TodoItem :=
  {| ti_id := id; ti_title := title; ti_status := Pending; ti_priority := Normal;
     ti_notes := None |}.

Definition non_empty_trimmed_owned (value : string) : option string :=
  let trimmed := str_trim value in
  if bool_decide (trimmed = EmptyString) then None else Some trimmed.

Definition clean_or (value fallback : string) : string :=
  default fallback (non_empty_trimmed_owned value).

Definition normalize (i : TodoItem) : TodoItem :=
  {| ti_id := clean_or (ti_id i) "?"; ti_title := clean_or (ti_title i) "(no title)";
     ti_status := ti_status i; ti_priority := ti_priority i;
     ti_notes := ti_notes i ≫= non_empty_trimmed_owned |}.

Record TodoUpdate : Type := {
  tu_title : option string;
  tu_status : option TodoStatus;
  tu_priority : option TodoPriority;
  tu_notes : option string
}.

Record TodoSummary : Type := {
  ts_total : nat;
  ts_pending : nat;
  ts_in_progress : nat;
  ts_completed : nat;
  ts_cancelled : nat
}.

Record TodoToolResponse : Type := { tr_todos : list TodoItem; tr_summary : TodoSummary }.

Inductive TodoToolRequest : Type :=
| Add (id title : string) (priority : TodoPriority) (notes : option string)
| Update (id : string) (update : TodoUpdate)
| Complete (id : string) (notes : option string)
| Remove (id : string)
| ListItems (status : option TodoStatus) (active_only : bool)
| Replace (todos : list TodoItem).

(** [TodoStore]: its items.  The operations return the list after the change; [replace] and
    [add], which cannot fail, are the new list. *)
Notation TodoStore := (list TodoItem).

Definition same_id (id : string) (i : TodoItem) : bool := bool_decide (ti_id i = id).

(** [deduped.remove(index)] at the first item with the identifier, if there is one. *)
Fixpoint remove_first (id : string) (items : TodoStore) : TodoStore :=
  match items with
  | [] => []
  | i :: items' => if same_id id i then items' else i :: remove_first id items'
  end.

Fixpoint dedupe_loop (deduped items : TodoStore) : TodoStore :=
  match items with
  | [] => deduped
  | i :: items' => dedupe_loop (remove_first (ti_id i) deduped ++ [i]) items'
  end.

Definition dedupe_keep_last_position (items : TodoStore) : TodoStore := dedupe_loop [] items.

Definition replace (todos : list TodoItem) : TodoStore :=
  dedupe_keep_last_position (map normalize todos).

(** [*existing = f(existing)] at the first item with the identifier. *)
Fixpoint change_first (id : string) (f : TodoItem -> TodoItem) (items : TodoStore)
  : option TodoStore :=
  match items with
  | [] => None
  | i :: items' =>
      if same_id id i then Some (f i :: items') else (i ::.) <$> change_first id f items'
  end.

Definition add (store : TodoStore) (item : TodoItem) : TodoStore :=
  let item := normalize item in
  match change_first (ti_id item) (fun _ => item) store with
  | Some store' => store'
  | None => store ++ [item]
  end.

Definition not_found (id : string) : string := "todo '" +:+ id +:+ "' not found".

Definition updated (u : TodoUpdate) (i : TodoItem) : TodoItem :=
  {| ti_id := ti_id i;
     ti_title := default (ti_title i) (tu_title u ≫= non_empty_trimmed_owned);
     ti_status := default (ti_status i) (tu_status u);
     ti_priority := default (ti_priority i) (tu_priority u);
     ti_notes := match tu_notes u with
                 | Some notes => non_empty_trimmed_owned notes
                 | None => ti_notes i
                 end |}.

Definition update (store : TodoStore) (id : string) (u : TodoUpdate)
  : TodoStore * result string (list TodoItem) :=
  match change_first id (updated u) store with
  | Some store' => (store', Ok store')
  | None => (store, Err (not_found id))
  end.

Definition complete (store : TodoStore) (id : string) (notes : option string)
  : TodoStore * result string (list TodoItem) :=
  update store id {| tu_title := None; tu_status := Some Completed; tu_priority := None;
                     tu_notes := notes |}.

Definition remove (store : TodoStore) (id : string) : TodoStore * result string (list TodoItem) :=
  let retained := filter (fun i => ti_id i <> id) store in
  if bool_decide (length retained = length store) then (retained, Err (not_found id))
  else (retained, Ok retained).

Definition list_filtered (store : TodoStore) (status : option TodoStatus) (active_only : bool)
  : list TodoItem :=
  filter (fun i => is_none_or (fun s => bool_decide (ti_status i = s)) status
                   && (negb active_only || is_active (ti_status i)) = true) store.

Definition count_status (s : TodoStatus) (store : TodoStore) : nat :=
  length (filter (fun i => ti_status i = s) store).

Definition summary (store : TodoStore) : TodoSummary :=
  {| ts_total := length store; ts_pending := count_status Pending store;
     ts_in_progress := count_status InProgress store;
     ts_completed := count_status Completed store;
     ts_cancelled := count_status Cancelled store |}.

Definition response (store : TodoStore) : TodoToolResponse :=
  {| tr_todos := store; tr_summary := summary store |}.

(** The response to a step that may have failed. *)
Definition respond (r : TodoStore * result string (list TodoItem))
  : TodoStore * result string TodoToolResponse :=
  match r with
  | (store, Ok _) => (store, Ok (response store))
  | (store, Err e) => (store, Err e)
  end.

Definition handle_request (store : TodoStore) (request : TodoToolRequest)
  : TodoStore * result string TodoToolResponse :=
  match request with
  | Add id title priority notes =>
      let store' := add store {| ti_id := id; ti_title := title; ti_status := Pending;
                                 ti_priority := priority; ti_notes := notes |} in
      (store', Ok (response store'))
  | Update id u => respond (update store id u)
  | Complete id notes => respond (complete store id notes)
  | Remove id => respond (remove store id)
  | ListItems status active_only =>
      (store, Ok {| tr_todos := list_filtered store status active_only;
                    tr_summary := summary store |})
  | Replace todos => let store' := replace todos in (store', Ok (response store'))
  end.

Definition marker (s : TodoStatus) : string :=
  match s with Pending => "[ ]" | InProgress => "[>]" | Completed => "[x]" | Cancelled => "[~]" end.

Definition todo_line (i : TodoItem) : string :=
  "- " +:+ marker (ti_status i) +:+ " " +:+ ti_id i +:+ ". " +:+ ti_title i +:+ " (status="
  +:+ status_as_str (ti_status i) +:+ ", priority=" +:+ priority_as_str (ti_priority i) +:+ ")"
  +:+ match ti_notes i with Some notes => " notes=" +:+ notes | None => EmptyString end.

Definition compression_reinjection_text (store : TodoStore) : option string :=
  let active := list_filtered store None true in
  if bool_decide (length active = 0%nat) then None
  else Some (join_lines ("[Active session todo list preserved across context compression]"
                         :: map todo_line active)).

(** ** The list as a map *)

Notation ids s := (ti_id <$> s).

Definition store_ok (s : TodoStore) : Prop :=
  NoDup (ids s) /\ Forall (fun i => ti_id i <> EmptyString /\ ti_title i <> EmptyString) s.

Definition items_of (s : TodoStore) : gmap string TodoItem :=
  list_to_map ((fun i => (ti_id i, i)) <$> s).

(** What a request that succeeds does to the items by identifier. *)
Definition apply_request (req : TodoToolRequest) (m : gmap string TodoItem)
  : gmap string TodoItem :=
  match req with
  | Add id title priority notes =>
      let i := normalize {| ti_id := id; ti_title := title; ti_status := Pending;
                            ti_priority := priority; ti_notes := notes |} in
      <[ti_id i := i]> m
  | Update id u => alter (updated u) id m
  | Complete id notes =>
      alter (updated {| tu_title := None; tu_status := Some Completed; tu_priority := None;
                        tu_notes := notes |}) id m
  | Remove id => delete id m
  | ListItems _ _ => m
  | Replace todos => foldl (fun acc i => <[ti_id i := i]> acc) ∅ (map normalize todos)
  end.

(** The identifier that a request needs. *)
Definition needs (req : TodoToolRequest) : option string :=
  match req with
  | Update id _ | Complete id _ | Remove id => Some id
  | Add _ _ _ _ | ListItems _ _ | Replace _ => None
  end.

Lemma items_of_lookup s id i :
  NoDup (ids s) -> items_of s !! id = Some i <-> i ∈ s /\ ti_id i = id.
Proof.
  intros Hnd. unfold items_of. rewrite <- elem_of_list_to_map.
  - rewrite list_elem_of_fmap. split; [intros (j & [= -> ->] & Hj); done|].
    intros [Hi <-]. by exists i.
  - by rewrite <- list_fmap_compose.
Qed.

Lemma items_of_None s id : items_of s !! id = None <-> id ∉ ids s.
Proof.
  unfold items_of. rewrite <- not_elem_of_list_to_map, <- list_fmap_compose. done.
Qed.

(** Stores with the same items have the same map. *)
Lemma items_of_ext s m :
  NoDup (ids s) -> (forall id i, (i ∈ s /\ ti_id i = id) <-> m !! id = Some i) -> items_of s = m.
Proof.
  intros Hnd Hm. apply map_eq. intros id. apply option_eq. intros i.
  rewrite items_of_lookup by done. apply Hm.
Qed.

Lemma change_first_spec id f s :
  match change_first id f s with
  | Some s' => exists l1 i l2, s = l1 ++ i :: l2 /\ ti_id i = id /\ (id ∉ ids l1) /\
                 s' = l1 ++ f i :: l2
  | None => id ∉ ids s
  end.
Proof.
  induction s as [|j s IH]; simpl; [set_solver|]. unfold same_id. case_bool_decide as E.
  - exists [], j, s. set_solver.
  - destruct (change_first id f s) as [s'|]; simpl.
    + destruct IH as (l1 & i & l2 & -> & Hi & Hn & ->). exists (j :: l1), i, l2. set_solver.
    + set_solver.
Qed.

Lemma remove_first_filter id s :
  NoDup (ids s) -> remove_first id s = filter (fun i => ti_id i <> id) s.
Proof.
  induction s as [|i s IH]; simpl; intros Hnd; [done|].
  apply NoDup_cons in Hnd as [Hi Hnd]. unfold same_id. rewrite filter_cons.
  case_bool_decide as E; case_decide; try done.
  - symmetry. apply filter_every. intros j Hj <-. apply Hi. rewrite E.
    apply list_elem_of_fmap. eauto.
  - by rewrite IH.
Qed.

Lemma NoDup_ids_filter (P : TodoItem -> Prop) `{forall i, Decision (P i)} s :
  NoDup (ids s) -> NoDup (ids (filter P s)).
Proof.
  intros Hnd. induction s as [|i s IH]; [done|]. apply NoDup_cons in Hnd as [Hi Hnd].
  rewrite filter_cons. case_decide; [|by apply IH]. simpl. apply NoDup_cons. split; [|by apply IH].
  intros (j & Hj & Hin)%list_elem_of_fmap. apply Hi. rewrite Hj. apply list_elem_of_fmap_2.
  by apply list_elem_of_filter in Hin as [_ Hin].
Qed.

(** [replace] keeps the last item of every identifier, in the order of the request. *)
Fixpoint last_of_each (items : list TodoItem) : list TodoItem :=
  match items with
  | [] => []
  | i :: items' =>
      if decide (ti_id i ∈ ids items') then last_of_each items' else i :: last_of_each items'
  end.

Lemma dedupe_loop_spec items : forall d,
  NoDup (ids d) ->
  dedupe_loop d items = filter (fun i => ti_id i ∉ ids items) d ++ last_of_each items.
Proof.
  induction items as [|i items IH]; intros d Hd; cbn [dedupe_loop last_of_each].
  - rewrite app_nil_r. symmetry. apply filter_every. set_solver.
  - rewrite IH.
    + rewrite remove_first_filter, filter_app, list_filter_filter by done.
      rewrite <- app_assoc. f_equal.
      { apply list_filter_iff. intros j. rewrite fmap_cons, not_elem_of_cons. tauto. }
      rewrite filter_cons, filter_nil. destruct (decide (ti_id i ∈ ids items)).
      * by rewrite decide_False by tauto.
      * by rewrite decide_True by done.
    + rewrite remove_first_filter, fmap_app by done. apply NoDup_app. split_and!.
      * by apply NoDup_ids_filter.
      * intros x (j & -> & [Hj _]%list_elem_of_filter)%list_elem_of_fmap. set_solver.
      * apply NoDup_singleton.
Qed.

Lemma dedupe_last items : dedupe_keep_last_position items = last_of_each items.
Proof. unfold dedupe_keep_last_position. rewrite dedupe_loop_spec by constructor. done. Qed.

Lemma last_of_each_sub items i : i ∈ last_of_each items -> i ∈ items.
Proof.
  induction items as [|j items IH]; simpl; [done|]. case_decide; [set_solver|].
  rewrite !elem_of_cons. tauto.
Qed.

Lemma last_of_each_NoDup items : NoDup (ids (last_of_each items)).
Proof.
  induction items as [|j items IH]; simpl; [constructor|]. case_decide as E; [done|].
  simpl. apply NoDup_cons. split; [|done].
  intros (k & Hk & Hin)%list_elem_of_fmap. apply E. rewrite Hk.
  apply list_elem_of_fmap_2. by apply last_of_each_sub.
Qed.

Lemma last_of_each_map items : forall m,
  foldl (fun acc i => <[ti_id i := i]> acc) m items = items_of (last_of_each items) ∪ m.
Proof.
  induction items as [|i items IH]; intros m; cbn [foldl last_of_each].
  - change (items_of []) with (∅ : gmap string TodoItem). by rewrite (left_id_L ∅ (∪)).
  - rewrite IH. destruct (decide (ti_id i ∈ ids items)) as [Hin|Hin].
    + apply map_eq. intros id. rewrite !lookup_union.
      destruct (decide (id = ti_id i)) as [->|Hne]; [|by rewrite lookup_insert_ne by done].
      destruct (items_of (last_of_each items) !! ti_id i) eqn:E;
        [by rewrite lookup_insert_eq; destruct (m !! ti_id i)|].
      exfalso. apply items_of_None in E. apply E. clear -Hin.
      induction items as [|j items IH]; simpl in *; [by apply elem_of_nil in Hin|].
      case_decide as Ej; [|].
      * apply IH. apply elem_of_cons in Hin as [->|]; done.
      * simpl. apply elem_of_cons in Hin as [->|]; [set_solver|]. apply elem_of_cons. right. auto.
    + unfold items_of at 2. rewrite fmap_cons, list_to_map_cons. fold (items_of (last_of_each items)).
      rewrite <- insert_union_l, insert_union_r; [done|]. apply items_of_None.
      intros (k & Hk & Hk')%list_elem_of_fmap. apply Hin. rewrite Hk.
      apply list_elem_of_fmap_2. by apply last_of_each_sub.
Qed.

Lemma change_first_items id f s s' :
  NoDup (ids s) -> (forall i, ti_id i = id -> ti_id (f i) = id) -> change_first id f s = Some s' ->
  ids s' = ids s /\ items_of s' = alter f id (items_of s) /\ is_Some (items_of s !! id) /\
  (forall j, j ∈ s' -> j ∈ s \/ exists i, i ∈ s /\ j = f i).
Proof.
  intros Hnd Hf Hc. pose proof (change_first_spec id f s) as H. rewrite Hc in H.
  destruct H as (l1 & i & l2 & -> & <- & Hn & ->).
  assert (Hids : ids (l1 ++ f i :: l2) = ids (l1 ++ i :: l2))
    by (rewrite !fmap_app, !fmap_cons; by rewrite Hf).
  assert (Hlast : (ti_id i ∉ ids l2)).
  { rewrite fmap_app, fmap_cons in Hnd. apply NoDup_app in Hnd as (_ & _ & Hnd).
    by apply NoDup_cons in Hnd as [Hnd _]. }
  split; [done|]. split; [|split].
  - unfold items_of. rewrite !fmap_app, !fmap_cons, !list_to_map_app, !list_to_map_cons.
    rewrite Hf by done. apply map_eq. intros id.
    destruct (decide (id = ti_id i)) as [->|Hne].
    + rewrite lookup_alter_eq, !lookup_union, !lookup_insert_eq.
      assert (Hl1 : (list_to_map ((fun i => (ti_id i, i)) <$> l1) : gmap string TodoItem)
                    !! ti_id i = None) by by apply items_of_None.
      by rewrite Hl1.
    + by rewrite lookup_alter_ne, !lookup_union, !lookup_insert_ne by done.
  - exists i. apply items_of_lookup; [done|]. set_solver.
  - set_solver.
Qed.

Lemma clean_or_not_empty v d : d <> EmptyString -> clean_or v d <> EmptyString.
Proof.
  unfold clean_or, non_empty_trimmed_owned. cbv zeta. by case_bool_decide.
Qed.

Lemma normalize_ok i : ti_id (normalize i) <> EmptyString /\ ti_title (normalize i) <> EmptyString.
Proof. split; apply clean_or_not_empty; done. Qed.

Lemma updated_title u i : ti_title i <> EmptyString -> ti_title (updated u i) <> EmptyString.
Proof.
  intros Hi. simpl. destruct (tu_title u) as [t|]; simpl; [|done].
  unfold non_empty_trimmed_owned. cbv zeta. by case_bool_decide.
Qed.

Lemma update_refines s id u s' r :
  store_ok s -> update s id u = (s', r) ->
  store_ok s' /\ (is_ok r = true <-> is_Some (items_of s !! id)) /\
  items_of s' = (if is_ok r then alter (updated u) id else (fun m => m)) (items_of s).
Proof.
  intros [Hnd Hok]. unfold update. destruct (change_first id (updated u) s) as [s1|] eqn:E;
    intros [= <- <-]; simpl.
  - apply change_first_items in E as (Hids & Hm & Hs & Hin); [|done..].
    split; [|done]. split; [by rewrite Hids|]. apply Forall_forall. intros j Hj.
    rewrite Forall_forall in Hok. destruct (Hin j Hj) as [|(i & Hi & ->)]; [by apply Hok|].
    destruct (Hok i Hi). split; [done|]. by apply updated_title.
  - pose proof (change_first_spec id (updated u) s) as Hc. rewrite E in Hc.
    apply items_of_None in Hc. split; [done|]. split; [|done]. rewrite Hc. split; [done|].
    by intros [? ?].
Qed.

Lemma filter_length_all (P : TodoItem -> Prop) `{forall i, Decision (P i)} s :
  length (filter P s) = length s <-> Forall P s.
Proof.
  induction s as [|i s IH]; [done|]. rewrite filter_cons, Forall_cons.
  pose proof (length_filter P s). case_decide; simpl; [|split; [lia|tauto]].
  rewrite <- IH. split; [|lia]. split; [done|lia].
Qed.

Lemma remove_refines s id s' r :
  store_ok s -> remove s id = (s', r) ->
  store_ok s' /\ (is_ok r = true <-> is_Some (items_of s !! id)) /\
  items_of s' = delete id (items_of s).
Proof.
  intros [Hnd Hok]. unfold remove. cbv zeta. intros Hr.
  assert (s' = filter (fun i => ti_id i <> id) s) as -> by (case_bool_decide; by simplify_eq).
  split; [split; [by apply NoDup_ids_filter|]|split].
  - rewrite Forall_forall in Hok |- *. intros i [_ Hi]%list_elem_of_filter. by apply Hok.
  - assert (Hr' : is_ok r = negb (bool_decide (length (filter (fun i => ti_id i <> id) s) = length s)))
      by (case_bool_decide; by simplify_eq).
    rewrite Hr', negb_true_iff, bool_decide_eq_false, filter_length_all, <- not_eq_None_Some,
      items_of_None, Forall_forall. set_solver.
  - apply items_of_ext; [by apply NoDup_ids_filter|]. intros x i.
    rewrite lookup_delete_Some, items_of_lookup, list_elem_of_filter by done. naive_solver.
Qed.

Lemma add_refines s i :
  store_ok s ->
  store_ok (add s i) /\ items_of (add s i) = <[ti_id (normalize i) := normalize i]> (items_of s).
Proof.
  intros [Hnd Hok]. unfold add. cbv zeta. set (n := normalize i).
  destruct (change_first (ti_id n) (fun _ => n) s) as [s1|] eqn:E.
  - apply change_first_items in E as (Hids & Hm & Hs & Hin); [|done..].
    split; [split; [by rewrite Hids|]|].
    + apply Forall_forall. intros j Hj. rewrite Forall_forall in Hok.
      destruct (Hin j Hj) as [|(k & _ & ->)]; [by apply Hok|apply normalize_ok].
    + rewrite Hm. apply map_eq. intros x. destruct (decide (x = ti_id n)) as [->|].
      * rewrite lookup_alter_eq, lookup_insert_eq. by destruct Hs as [? ->].
      * by rewrite lookup_alter_ne, lookup_insert_ne by done.
  - pose proof (change_first_spec (ti_id n) (fun _ => n) s) as Hc. rewrite E in Hc.
    split; [split|].
    + rewrite fmap_app. apply NoDup_app. split; [done|]. split; [set_solver|apply NoDup_singleton].
    + apply Forall_app. split; [done|]. constructor; [apply normalize_ok|done].
    + unfold items_of. rewrite fmap_app, list_to_map_app. simpl.
      rewrite <- insert_union_r; [by rewrite (right_id_L ∅ (∪))|]. by apply items_of_None.
Qed.

Lemma replace_refines todos :
  store_ok (replace todos) /\
  items_of (replace todos) = foldl (fun acc i => <[ti_id i := i]> acc) ∅ (map normalize todos).
Proof.
  unfold replace. rewrite dedupe_last. split; [split; [apply last_of_each_NoDup|]|].
  - apply Forall_forall. intros i Hi%last_of_each_sub.
    apply list_elem_of_fmap in Hi as (j & -> & _). apply normalize_ok.
  - by rewrite last_of_each_map, (right_id_L ∅ (∪)).
Qed.

(** A step that needs an identifier, and the answer to it. *)
Lemma respond_refines s id step f s' r :
  store_ok step.1 /\ (is_ok step.2 = true <-> is_Some (items_of s !! id)) /\
  items_of step.1 = (if is_ok step.2 then f else (fun m => m)) (items_of s) ->
  respond step = (s', r) ->
  store_ok s' /\ (is_ok r = false <-> exists id', Some id = Some id' /\ items_of s !! id' = None) /\
  items_of s' = if is_ok r then f (items_of s) else items_of s.
Proof.
  intros (Ho & Hr & Hm) Hs. assert (s' = step.1 /\ is_ok r = is_ok step.2) as [-> ->].
  { destruct step as [s1 [u|e]]; simpl in Hs; by simplify_eq. }
  split; [done|]. split; [|by destruct (is_ok step.2)].
  destruct (is_ok step.2), (items_of s !! id) eqn:E; naive_solver.
Qed.

(** Whatever is requested, the list stays a map from non-empty identifiers to titled items:
    a request does to it what [apply_request] does to the map, or fails and changes nothing,
    which happens exactly when it names an identifier that is not there. *)
Theorem todo_list_refines_map s req s' r :
  store_ok s -> handle_request s req = (s', r) ->
  store_ok s' /\
  (is_ok r = false <-> exists id, needs req = Some id /\ items_of s !! id = None) /\
  items_of s' = if is_ok r then apply_request req (items_of s) else items_of s.
Proof.
  intros Hs. destruct req as [id title priority notes|id u|id notes|id|st ao|todos]; simpl.
  - intros [= <- <-]. destruct (add_refines s (Build_TodoItem id title Pending priority notes) Hs).
    naive_solver.
  - destruct (update s id u) as [s1 r1] eqn:E. apply (respond_refines s id (s1, r1)).
    by apply update_refines.
  - destruct (complete s id notes) as [s1 r1] eqn:E. apply (respond_refines s id (s1, r1)).
    by apply update_refines.
  - destruct (remove s id) as [s1 r1] eqn:E. apply (respond_refines s id (s1, r1)).
    apply remove_refines in E as (Ho & Hr & Hm); [|done]. split; [done|]. split; [done|].
    simpl. rewrite Hm. destruct (is_ok r1); [done|]. apply delete_id. apply eq_None_not_Some.
    intros Hx%Hr. done.
  - intros [= <- <-]. naive_solver.
  - intros [= <- <-]. destruct (replace_refines todos). naive_solver.
Qed.

(** A request cycle on a concrete list. *)
Definition ex_todos : TodoStore :=
  replace [todo_item_new "1" "old"; todo_item_new "2" "second"; todo_item_new " 1" "new"].

Lemma todo_list_refines_map_witness :
  handle_request ex_todos (Remove "2") =
    ([todo_item_new "1" "new"], Ok (response [todo_item_new "1" "new"])) /\
  items_of [todo_item_new "1" "new"] = delete "2" (items_of ex_todos).
Proof.
  split; [vm_compute; reflexivity|].
  destruct (todo_list_refines_map ex_todos (Remove "2") [todo_item_new "1" "new"]
    (Ok (response [todo_item_new "1" "new"]))) as (_ & _ & H).
  - apply replace_refines.
  - vm_compute. reflexivity.
  - exact H.
Defined.

(** The identifier is trimmed when an item is added and not when it is looked up. *)
Example added_item_not_found :
  let s := add [] (todo_item_new " plan" "Read the evidence") in
  length s = 1%nat /\ complete s " plan" None = (s, Err "todo ' plan' not found").
Proof. vm_compute. done. Qed.

(** Adding an item again reopens it. *)
Example added_again_is_pending :
  map ti_status (add (complete (add [] (todo_item_new "a" "t")) "a" None).1 (todo_item_new "a" "t"))
  = [Pending].
Proof. vm_compute. reflexivity. Qed.

(** The text after a compression lists exactly the active items, in order. *)
Theorem reinjection_lists_active s :
  compression_reinjection_text s =
    match filter (fun i => is_active (ti_status i) = true) s with
    | [] => None
    | active => Some (join_lines ("[Active session todo list preserved across context compression]"
                                  :: map todo_line active))
    end.
Proof.
  unfold compression_reinjection_text, list_filtered. cbv zeta.
  rewrite (list_filter_iff _ (fun i => is_active (ti_status i) = true)); [|done].
  by destruct (filter _ s).
Qed.
