(* ===== verification/Compressor.v ===== *)
(** * Compression of a conversation ([crates/zaion-runtime/src/compressor.rs])

    [ContextCompressor]: old tool outputs are cleared, the turns between a protected head and
    a protected tail are replaced by a summary, and a fallback drops the oldest turns.

    Lists are indexed the way the code indexes its vectors: an index or a range that is out of
    bounds panics, which is [None] here, and [CompressorTheorems] shows that it does not
    happen.  Counts of turns are [nat]; token counts are [Z], estimated from byte lengths of
    strings in memory, so that their sums stay below the width of a [usize]; where the code
    saturates, so does the model. *)

From stdpp Require Import prelude strings list.
From S2P Require Import Prelude.
From S2P Require Import Ingress.
From S2P Require Import Dispatcher.
From S2P Require Import F64.
From S2P Require Import Todo.
Local Open Scope Z_scope.

Record Turn : Type := { turn_role : string; turn_content : string }.

Definition token_estimate (t : Turn) : Z := (str_len (turn_role t) + str_len (turn_content t)) / 4.

(** [turns.iter().map(|t| t.token_estimate()).sum()] *)
Definition sum_tokens (turns : list Turn) : Z := foldr (fun t acc => token_estimate t + acc) 0 turns.

Definition has_role (role : string) (t : Turn) : bool := bool_decide (turn_role t = role).

Record CompressorConfig : Type := {
  threshold_ratio : f64;
  target_ratio : f64;
  protect_last_n_turns : nat;
  protect_first_n_turns : nat;
  min_summary_tokens : Z;
  max_summary_tokens : Z;
  summary_ratio : f64;
  min_reduction_ratio : f64
}.

Definition compressor_config_default : CompressorConfig :=
  {| threshold_ratio := f64_literal 50 100; target_ratio := f64_literal 20 100;
     protect_last_n_turns := 10; protect_first_n_turns := 2; min_summary_tokens := 2000;
     max_summary_tokens := 12000; summary_ratio := f64_literal 20 100;
     min_reduction_ratio := f64_literal 10 100 |}.

Record CompressedContext : Type := {
  cc_turns : list Turn;
  cc_total_tokens : Z;
  cc_was_compressed : bool;
  cc_turns_pruned : nat;
  cc_summary_text : string;
  cc_summary_strategy : string;
  cc_pruned_tool_outputs : nat;
  cc_protected_head_turns : nat;
  cc_protected_tail_turns : nat;
  cc_protected_tail_tokens : Z;
  cc_summary_budget_tokens : Z;
  cc_compaction_effective : bool;
  cc_still_over_threshold : bool
}.

Record ContextCompressor : Type := {
  config : CompressorConfig;
  previous_summary : option string
}.

Definition compressor_new (cfg : CompressorConfig) : ContextCompressor :=
  {| config := cfg; previous_summary := None |}.

Definition with_defaults : ContextCompressor := compressor_new compressor_config_default.

Definition restore_previous_summary (c : ContextCompressor) (summary : string) : ContextCompressor :=
  let summary := str_trim summary in
  if bool_decide (summary = EmptyString) then c
  else {| config := config c; previous_summary := Some summary |}.

(** ** Clearing old tool outputs *)

Definition CLEARED : string := "[Old tool output cleared to save context space]".

Fixpoint prune_loop (prune_boundary i : nat) (turns : list Turn) : list Turn * nat :=
  match turns with
  | [] => ([], O)
  | t :: turns' =>
      let '(result, pruned) := prune_loop prune_boundary (S i) turns' in
      if bool_decide (i < prune_boundary)%nat && has_role "tool" t
         && bool_decide (200 < str_len (turn_content t))
      then ({| turn_role := "tool"; turn_content := CLEARED |} :: result, S pruned)
      else (t :: result, pruned)
  end.

Definition prune_old_tool_outputs (history : list Turn) (protect_tail_count : nat)
  : list Turn * nat :=
  match history with
  | [] => (history, O)
  | _ => prune_loop (length history - protect_tail_count) 0 history
  end.

(** ** Budgets *)

Definition compute_summary_budget (cfg : CompressorConfig) (middle_turns : list Turn) : Z :=
  Z.min (Z.max (scale (sum_tokens middle_turns) (summary_ratio cfg)) (min_summary_tokens cfg))
        (max_summary_tokens cfg).

Definition trigger_threshold (cfg : CompressorConfig) (token_budget : Z) : Z :=
  scale token_budget (threshold_ratio cfg).

Definition selection_budget (cfg : CompressorConfig) (total_tokens token_budget : Z) (force : bool)
  : Z :=
  if force && bool_decide (total_tokens <= trigger_threshold cfg token_budget)
  then Z.max (scale total_tokens (target_ratio cfg)) 1
  else token_budget.

Definition needs_compression (cfg : CompressorConfig) (history : list Turn) (token_budget : Z)
  : bool := bool_decide (trigger_threshold cfg token_budget < sum_tokens history).

Definition compaction_reduced_enough (cfg : CompressorConfig) (before after : Z) : bool :=
  if bool_decide (before = 0) then true
  else f64_ge (f64_div (usize_as_f64 (Z.max 0 (before - after))) (usize_as_f64 before))
         (min_reduction_ratio cfg).

(** ** The start of the protected tail *)

(** [while idx > head_end && history[idx].role == "tool" { idx -= 1; }] *)
Fixpoint back_over_tools (history : list Turn) (head_end idx : nat) : option nat :=
  match idx with
  | O => Some O
  | S idx' =>
      if bool_decide (head_end < idx)%nat then
        match history !! idx with
        | None => None
        | Some t => if has_role "tool" t then back_over_tools history head_end idx' else Some idx
        end
      else Some idx
  end.

Definition align_tail_boundary_backward (history : list Turn) (idx head_end : nat) : option nat :=
  let clamped i := Nat.min (Nat.max i (head_end + 1)) (length history) in
  if bool_decide (idx = O) || bool_decide (length history <= idx)%nat
  then Some (clamped idx) else
  match history !! idx with
  | None => None
  | Some t =>
      if negb (has_role "tool" t) then Some (clamped idx) else
      match back_over_tools history head_end idx with
      | None => None
      | Some idx =>
          match history !! idx with
          | None => None
          | Some t => Some (if has_role "assistant" t then idx else clamped (idx + 1)%nat)
          end
      end
  end.

(** The index of the last turn with a role in [turns], which start at [i]. *)
Fixpoint last_with_role (role : string) (i : nat) (turns : list Turn) : option nat :=
  match turns with
  | [] => None
  | t :: turns' =>
      match last_with_role role (S i) turns' with
      | Some j => Some j
      | None => if has_role role t then Some i else None
      end
  end.

Definition ensure_last_user_turn_in_tail (history : list Turn) (cut_idx head_end : nat) : nat :=
  match last_with_role "user" head_end (drop head_end history) with
  | None => cut_idx
  | Some last_user_idx =>
      if bool_decide (cut_idx <= last_user_idx)%nat then cut_idx else last_user_idx
  end.

(** [for i in (head_end..n).rev()], with [k] indices left. *)
Fixpoint tail_loop (history : list Turn) (head_end min_tail : nat) (tail_budget : Z) (k : nat)
    (accumulated : Z) (cut_idx : nat) : option nat :=
  match k with
  | O => Some cut_idx
  | S k' =>
      let i := (head_end + k')%nat in
      match history !! i with
      | None => None
      | Some t =>
          let msg_tokens := Z.max (token_estimate t) 1 in
          let protected_count := (length history - i)%nat in
          if bool_decide (tail_budget < saturating_add accumulated msg_tokens)
             && bool_decide (min_tail <= protected_count)%nat
          then Some cut_idx
          else tail_loop history head_end min_tail tail_budget k'
                 (saturating_add accumulated msg_tokens) i
      end
  end.

Definition minimum_tail (cfg : CompressorConfig) (available_after_head : nat) : nat :=
  let minimum_middle_turns := if bool_decide (2 < available_after_head)%nat then 2%nat else 1%nat in
  let max_min_tail := (available_after_head - minimum_middle_turns)%nat in
  Nat.min (Nat.max (Nat.min (protect_last_n_turns cfg) max_min_tail) 1) available_after_head.

Definition find_tail_start_by_tokens (cfg : CompressorConfig) (history : list Turn) (head_end : nat)
    (token_budget : Z) : option nat :=
  let n := length history in
  if bool_decide (n <= head_end)%nat then Some n else
  let available_after_head := (n - head_end)%nat in
  let min_tail := minimum_tail cfg available_after_head in
  let fallback_cut := (n - min_tail)%nat in
  let threshold_tokens := scale token_budget (threshold_ratio cfg) in
  let tail_budget := Z.max (scale threshold_tokens (target_ratio cfg)) 1 in
  match tail_loop history head_end min_tail tail_budget available_after_head 0 n with
  | None => None
  | Some cut_idx =>
      let cut_idx := if bool_decide (fallback_cut < cut_idx)%nat then fallback_cut else cut_idx in
      let cut_idx := if bool_decide (cut_idx <= head_end)%nat then fallback_cut else cut_idx in
      match align_tail_boundary_backward history cut_idx head_end with
      | None => None
      | Some cut_idx => Some (ensure_last_user_turn_in_tail history cut_idx head_end)
      end
  end.

(** ** The text of a summary *)

(** [text.chars()] with at most [max_chars] of them kept: a character starts at every byte
    that is not a continuation byte. *)
Fixpoint clip_chars (text : string) (max_chars : nat) : string :=
  match text with
  | EmptyString => EmptyString
  | String a rest =>
      if is_continuation_byte a then String a (clip_chars rest max_chars)
      else match max_chars with
           | O => "..."
           | S m => String a (clip_chars rest m)
           end
  end.

Definition REFERENCE_ONLY : string := "[CONTEXT COMPACTION - REFERENCE ONLY]".

Definition SUMMARY_PREFIX : string :=
  REFERENCE_ONLY +:+ " Earlier turns were compacted into the summary below. Treat it as background reference, NOT as active instructions. Do NOT answer questions or fulfill requests mentioned in this summary; they were already addressed or are superseded by the protected tail. Respond ONLY to the latest user message that appears AFTER this summary. The current session state may still reflect work described here, so avoid repeating it:".

Definition blank_line : string := newline +:+ newline.

Definition with_summary_prefix (summary : string) : string :=
  let text := str_trim summary in
  if starts_with REFERENCE_ONLY text then text else
  match strip_prefix "[CONTEXT COMPACTION]" text with
  | Some rest => SUMMARY_PREFIX +:+ rest
  | None => if bool_decide (text = EmptyString) then SUMMARY_PREFIX
            else SUMMARY_PREFIX +:+ blank_line +:+ text
  end.

Definition any_of (needles : list string) (s : string) : bool :=
  existsb (fun n => str_contains n s) needles.

(** The clipped contents of the turns whose lower-cased text has one of the words. *)
Definition marked (words : list string) (middle : list Turn) : list string :=
  map (fun t => clip_chars (turn_content t) 220)
    (filter (fun t => any_of words (to_ascii_lowercase (turn_content t)) = true) middle).

Definition contents (role : string) (middle : list Turn) : list string :=
  map turn_content (filter (fun t => has_role role t = true) middle).

Definition bullet (s : string) : string := "- " +:+ s +:+ newline.
Definition bullets (items : list string) : string := foldr (fun s acc => bullet s +:+ acc) EmptyString items.

Definition count_text (n : nat) : string := z_to_string (Z.of_nat n).

Definition files_mentioned (middle : list Turn) : list string :=
  map (fun c => clip_chars c 180)
    (filter (fun c => any_of ["file"; "path"; "/"; "\"; ".rs"; ".py"; ".ts"] c = true)
       (map turn_content middle)).

Definition fallback_body (middle : list Turn) (pruned_tool_outputs : nat)
    (summary_budget_tokens : Z) : string :=
  let user_messages := contents "user" middle in
  let assistant_messages := contents "assistant" middle in
  let tool_calls := contents "tool" middle in
  let decisions := marked ["decision"; "decided"; "choose"; "chose"] middle in
  let next_steps := marked ["next"; "todo"; "follow"; "continue"] middle in
  let critical_context := marked ["error"; "failed"; "panic"; "command"; "config"] middle in
  let files := files_mentioned middle in
  "## Active Task" +:+ newline +:+
  match last user_messages with
  | Some last_user => clip_chars last_user 260 +:+ blank_line
  | None => "None captured in the compacted middle turns." +:+ blank_line
  end +:+
  "## Goal" +:+ newline +:+
  match user_messages with
  | first_user :: _ => clip_chars first_user 260 +:+ blank_line
  | [] => "No explicit user goal captured in the compacted middle turns." +:+ blank_line
  end +:+
  "## Constraints & Preferences" +:+ newline +:+
  bullet "Preserve signed lineage, current session state, and already-completed work." +:+
  bullet "Avoid repeating compacted work; continue from the current repository/runtime state." +:+
  newline +:+
  "## Progress" +:+ newline +:+ "### Done" +:+ newline +:+
  bullet (count_text (length user_messages) +:+ " user messages") +:+
  bullet (count_text (length assistant_messages) +:+ " assistant responses") +:+
  bullet (count_text (length tool_calls) +:+ " tool calls") +:+
  (if bool_decide (0 < pruned_tool_outputs)%nat
   then bullet ("Pruned tool outputs: " +:+ count_text pruned_tool_outputs
                +:+ " old verbose result(s) replaced with placeholders")
   else EmptyString) +:+
  newline +:+ "### In Progress" +:+ newline +:+
  match last assistant_messages with
  | Some last_assistant => bullet (clip_chars last_assistant 260)
  | None => bullet "No assistant progress marker captured."
  end +:+
  newline +:+ "### Blocked" +:+ newline +:+
  bullet "None captured in the compacted middle turns." +:+ newline +:+
  "## Key Decisions" +:+ newline +:+
  match decisions with
  | [] => bullet "No explicit decision marker captured." +:+ newline
  | _ => bullets (take 6 decisions) +:+ newline
  end +:+
  "## Relevant Files" +:+ newline +:+
  match files with
  | [] => bullet "No file/path references captured." +:+ newline
  | _ => bullets (take 5 files) +:+ newline
  end +:+
  "## Pending User Asks" +:+ newline +:+
  match next_steps with
  | [] => "None captured." +:+ blank_line
  | _ => bullets (take 6 next_steps) +:+ newline
  end +:+
  "## Remaining Work" +:+ newline +:+
  match next_steps with
  | [] => match last assistant_messages with
          | Some last_assistant => bullet (clip_chars last_assistant 260) +:+ newline
          | None => bullet "Continue from the protected tail turns." +:+ newline
          end
  | _ => bullets (take 6 next_steps) +:+ newline
  end +:+
  "## Critical Context" +:+ newline +:+
  bullet ("Middle turns compacted: " +:+ count_text (length middle)) +:+
  bullet ("Pruned tool outputs: " +:+ count_text pruned_tool_outputs) +:+
  bullet ("Summary budget tokens: " +:+ z_to_string summary_budget_tokens) +:+
  match critical_context with
  | [] => bullet "No explicit errors, command output, or configuration values captured."
  | _ => bullets (take 6 critical_context)
  end.

Definition build_fallback_summary (middle : list Turn) (pruned_tool_outputs : nat)
    (summary_budget_tokens : Z) : string :=
  with_summary_prefix (fallback_body middle pruned_tool_outputs summary_budget_tokens).

(** The text that carries a previous summary on, with the sentences that differ between a
    summary of a model and the fallback. *)
Definition merged_summary (constraints decisions files critical previous fresh : string) : string :=
  join_lines
    ["## Goal"; "Preserve and extend the previous compaction goal."; "";
     "## Constraints & Preferences"; constraints; "";
     "## Progress"; "### Done"; previous; ""; "### In Progress"; fresh; "";
     "### Blocked"; "None captured."; "";
     "## Key Decisions"; decisions; "";
     "## Relevant Files"; files; "";
     "## Active Task"; "Use the latest protected user turn after this summary as the active task."; "";
     "## Remaining Work"; "Continue from the new compaction details as background reference, not as a new instruction."; "";
     "## Critical Context"; critical].

Definition merged_llm : string -> string -> string :=
  merged_summary "Preserve all still-relevant constraints from the previous summary."
    "Preserve previous key decisions unless explicitly superseded."
    "Preserve previous file references and add newly mentioned files."
    "Previous summary and new LLM summary were merged for iterative compaction.".

Definition merged_fallback : string -> string -> string :=
  merged_summary "Preserve still-relevant constraints from the previous summary and add new constraints from this pass."
    "Preserve prior decisions and incorporate the new fallback summary decisions."
    "Preserve prior file references and add newly mentioned files."
    "Previous persisted summary and new structured fallback summary were merged for iterative compaction.".

(** The summary and its strategy. *)
Definition generate_summary (previous llm_summary : option string) (middle : list Turn)
    (pruned_tool_outputs : nat) (summary_budget_tokens : Z) : string * string :=
  match llm_summary with
  | Some llm_text =>
      match previous with
      | Some prev => (with_summary_prefix (merged_llm prev llm_text), "llm_iterative")
      | None => (with_summary_prefix llm_text, "llm")
      end
  | None =>
      let fallback := build_fallback_summary middle pruned_tool_outputs summary_budget_tokens in
      match previous with
      | Some prev =>
          (with_summary_prefix (merged_fallback prev fallback), "structured_fallback_iterative")
      | None => (fallback, "structured_fallback")
      end
  end.

(** ** A pass *)

(** [&turns[a..b]] *)
Definition slice (turns : list Turn) (a b : nat) : option (list Turn) :=
  if bool_decide (a <= b)%nat && bool_decide (b <= length turns)%nat
  then Some (take (b - a) (drop a turns)) else None.

Definition unchanged_context (history : list Turn) (total_tokens threshold : Z) : CompressedContext :=
  {| cc_turns := history; cc_total_tokens := total_tokens; cc_was_compressed := false;
     cc_turns_pruned := 0; cc_summary_text := EmptyString; cc_summary_strategy := "none";
     cc_pruned_tool_outputs := 0; cc_protected_head_turns := length history;
     cc_protected_tail_turns := 0; cc_protected_tail_tokens := 0; cc_summary_budget_tokens := 0;
     cc_compaction_effective := true;
     cc_still_over_threshold := bool_decide (threshold < total_tokens) |}.

Definition compress_internal (c : ContextCompressor) (history : list Turn) (token_budget : Z)
    (llm_summary : option string) (force : bool) : option (ContextCompressor * CompressedContext) :=
  let cfg := config c in
  let total_before := sum_tokens history in
  let threshold := trigger_threshold cfg token_budget in
  if (negb force && bool_decide (total_before <= threshold)) || bool_decide (length history = O)
  then Some (c, unchanged_context history total_before threshold) else
  let '(pruned_history, pruned_tool_outputs) :=
    prune_old_tool_outputs history (protect_last_n_turns cfg) in
  let n := length pruned_history in
  let head_n := Nat.min (protect_first_n_turns cfg) n in
  match find_tail_start_by_tokens cfg pruned_history head_n
          (selection_budget cfg total_before token_budget force) with
  | None => None
  | Some middle_end =>
      if bool_decide (middle_end <= head_n)%nat
      then Some (c, unchanged_context history total_before threshold) else
      match slice pruned_history head_n middle_end, slice pruned_history 0 head_n,
            slice pruned_history middle_end n with
      | Some middle, Some head, Some tail =>
          let summary_budget_tokens := compute_summary_budget cfg middle in
          let '(summary_text, summary_strategy) :=
            generate_summary (previous_summary c) llm_summary middle pruned_tool_outputs
              summary_budget_tokens in
          let compressed :=
            head ++ {| turn_role := "system"; turn_content := summary_text |} :: tail in
          let total_tokens := sum_tokens compressed in
          Some ({| config := cfg; previous_summary := Some summary_text |},
                {| cc_turns := compressed; cc_total_tokens := total_tokens;
                   cc_was_compressed := true; cc_turns_pruned := middle_end - head_n;
                   cc_summary_text := summary_text; cc_summary_strategy := summary_strategy;
                   cc_pruned_tool_outputs := pruned_tool_outputs;
                   cc_protected_head_turns := head_n; cc_protected_tail_turns := n - middle_end;
                   cc_protected_tail_tokens := sum_tokens tail;
                   cc_summary_budget_tokens := summary_budget_tokens;
                   cc_compaction_effective := compaction_reduced_enough cfg total_before total_tokens;
                   cc_still_over_threshold := bool_decide (threshold < total_tokens) |})
      | _, _, _ => None
      end
  end.

Definition compress (c : ContextCompressor) (history : list Turn) (token_budget : Z)
    (llm_summary : option string) : option (ContextCompressor * CompressedContext) :=
  compress_internal c history token_budget llm_summary false.

Definition compress_forced (c : ContextCompressor) (history : list Turn) (token_budget : Z)
    (llm_summary : option string) : option (ContextCompressor * CompressedContext) :=
  compress_internal c history token_budget llm_summary true.

(** ** Todo items after a pass *)

Definition reinject_todos (compressed : CompressedContext) (todo_store : TodoStore)
  : CompressedContext :=
  if cc_was_compressed compressed then
    match compression_reinjection_text todo_store with
    | None => compressed
    | Some todo_context =>
        let turn := {| turn_role := "user"; turn_content := todo_context |} in
        {| cc_turns := cc_turns compressed ++ [turn];
           cc_total_tokens := saturating_add (cc_total_tokens compressed) (str_len todo_context / 4);
           cc_was_compressed := cc_was_compressed compressed;
           cc_turns_pruned := cc_turns_pruned compressed;
           cc_summary_text := cc_summary_text compressed;
           cc_summary_strategy := cc_summary_strategy compressed;
           cc_pruned_tool_outputs := cc_pruned_tool_outputs compressed;
           cc_protected_head_turns := cc_protected_head_turns compressed;
           cc_protected_tail_turns := cc_protected_tail_turns compressed + 1;
           cc_protected_tail_tokens :=
             saturating_add (cc_protected_tail_tokens compressed) (token_estimate turn);
           cc_summary_budget_tokens := cc_summary_budget_tokens compressed;
           cc_compaction_effective := cc_compaction_effective compressed;
           cc_still_over_threshold := cc_still_over_threshold compressed |}
    end
  else compressed.

Definition compress_with_todo_reinjection (c : ContextCompressor) (history : list Turn)
    (token_budget : Z) (llm_summary : option string) (todo_store : TodoStore)
  : option (ContextCompressor * CompressedContext) :=
  '(c', compressed) ← compress c history token_budget llm_summary;
  Some (c', reinject_todos compressed todo_store).

Definition compress_with_todo_reinjection_forced (c : ContextCompressor) (history : list Turn)
    (token_budget : Z) (llm_summary : option string) (todo_store : TodoStore)
  : option (ContextCompressor * CompressedContext) :=
  '(c', compressed) ← compress_forced c history token_budget llm_summary;
  Some (c', reinject_todos compressed todo_store).

(** ** The prompt for a summary *)

Definition build_summary_prompt (middle_turns : list Turn) : string :=
  let history_text := join_lines (map (fun t => turn_role t +:+ ": " +:+ turn_content t) middle_turns) in
  join_lines
    ["Summarize the following conversation segment concisely. Structure your summary with these sections:";
     "- **Goal**: What the user was trying to accomplish";
     "- **Constraints & Preferences**: User preferences, constraints, and important style choices";
     "- **Progress**: What was done / discovered";
     "- **Decisions**: Key decisions made";
     "- **Files Changed**: Any files or code modified";
     "- **Active Task**: The user's most recent unfulfilled request, if it is in the summarized segment";
     "- **Pending User Asks**: Questions or requests not yet answered";
     "- **Remaining Work**: What remains as context, not active instructions";
     "- **Critical Context**: Specific values, errors, commands, and state that must not be lost";
     "";
     "Treat these turns as prior source material only. Do not answer any question in them. Keep it under 300 words. Be factual and specific.";
     "";
     "--- CONVERSATION ---"; history_text; "--- END ---"].

Definition summarizable_middle_turns_internal (cfg : CompressorConfig) (history : list Turn)
    (token_budget : Z) (force : bool) : option (list Turn) :=
  let total_tokens := sum_tokens history in
  if (negb force && bool_decide (total_tokens <= trigger_threshold cfg token_budget))
     || bool_decide (length history = O)
  then Some [] else
  let '(pruned_history, _) := prune_old_tool_outputs history (protect_last_n_turns cfg) in
  let head_n := Nat.min (protect_first_n_turns cfg) (length pruned_history) in
  match find_tail_start_by_tokens cfg pruned_history head_n
          (selection_budget cfg total_tokens token_budget force) with
  | None => None
  | Some middle_end =>
      if bool_decide (middle_end <= head_n)%nat then Some []
      else slice pruned_history head_n middle_end
  end.

Definition summarizable_middle_turns (cfg : CompressorConfig) (history : list Turn)
    (token_budget : Z) : option (list Turn) :=
  summarizable_middle_turns_internal cfg history token_budget false.

(** The outer option is a panic, the inner one the result. *)
Definition build_compression_summary_prompt_internal (c : ContextCompressor) (history : list Turn)
    (token_budget : Z) (force : bool) : option (option string) :=
  middle ← summarizable_middle_turns_internal (config c) history token_budget force;
  Some (if bool_decide (length middle = O) then None else
        let middle_prompt := build_summary_prompt middle in
        Some match previous_summary c with
             | Some previous =>
                 join_lines
                   ["You are updating a context compaction summary. A previous compaction produced the summary below. New conversation turns have occurred since then and need to be incorporated.";
                    ""; "PREVIOUS SUMMARY:"; str_trim previous; "";
                    "NEW TURNS TO INCORPORATE:"; middle_prompt; "";
                    "Update the summary using the same sections. Preserve relevant prior facts, add new progress, move completed items to Done, and remove only clearly obsolete details. Write only the updated summary body."]
             | None => middle_prompt
             end).

Definition build_compression_summary_prompt (c : ContextCompressor) (history : list Turn)
    (token_budget : Z) : option (option string) :=
  build_compression_summary_prompt_internal c history token_budget false.

Definition build_compression_summary_prompt_forced (c : ContextCompressor) (history : list Turn)
    (token_budget : Z) : option (option string) :=
  build_compression_summary_prompt_internal c history token_budget true.

(** ** Truncation *)

(** The loop over the turns after the head, newest first; what is kept comes out in order. *)
Fixpoint keep_newest (tail_budget tail_tokens : Z) (kept_tail rev_turns : list Turn) : list Turn :=
  match rev_turns with
  | [] => kept_tail
  | t :: rev_turns' =>
      let cost := token_estimate t in
      if bool_decide (tail_budget < tail_tokens + cost)
         && negb (bool_decide (length kept_tail = O))
      then kept_tail
      else keep_newest tail_budget (tail_tokens + cost) (t :: kept_tail) rev_turns'
  end.

Definition hard_truncate_to_budget (cfg : CompressorConfig) (turns : list Turn) (token_budget : Z)
  : list Turn * nat :=
  if bool_decide (sum_tokens turns <= token_budget) || bool_decide (length turns = O)
  then (turns, O) else
  let n := length turns in
  let head_n := Nat.min (protect_first_n_turns cfg) n in
  let head := take head_n turns in
  let tail_budget := Z.max 0 (token_budget - sum_tokens head) in
  let kept_tail := keep_newest tail_budget 0 [] (rev (drop head_n turns)) in
  let result := head ++ kept_tail in
  (result, (n - length result)%nat).
