(* ===== verification/CompressorTheorems.v ===== *)
(** * What the compression of a conversation ensures

    A pass never panics; it returns the history, or a protected head, one marked summary and
    a protected tail that has the latest user turn; the prompt for a summary is built from
    exactly the turns that the summary replaces; what truncation keeps and how far it can
    exceed its budget; and that a summary carries all earlier ones. *)

From Stdlib Require Import Ascii.
From stdpp Require Import prelude strings list.
From S2P Require Import Prelude.
From S2P Require Import Env.
From S2P Require Import Ingress.
From S2P Require Import F64.
From S2P Require Import Todo.
From S2P Require Import Compressor.
Local Open Scope Z_scope.

(** ** Clearing *)

Definition cleared_turn : Turn := {| turn_role := "tool"; turn_content := CLEARED |}.

(** A turn as it is after the clearing of old tool outputs. *)
Definition cleared (t t' : Turn) : Prop :=
  t' = t \/ (turn_role t = "tool" /\ 200 < str_len (turn_content t) /\ t' = cleared_turn).

Lemma prune_loop_cleared b ts : forall i, Forall2 cleared ts (prune_loop b i ts).1.
Proof.
  induction ts as [|t ts IH]; intros i; simpl; [constructor|].
  specialize (IH (S i)). destruct (prune_loop b (S i) ts) as [res p]; simpl in IH.
  destruct (_ && _ && _) eqn:E; simpl; constructor; try done; [|by left].
  unfold has_role in E. bool_props. by right.
Qed.

Lemma prune_cleared history k : Forall2 cleared history (prune_old_tool_outputs history k).1.
Proof. destruct history as [|t ts]; [constructor|]. apply prune_loop_cleared. Qed.

Lemma prune_length history k : length (prune_old_tool_outputs history k).1 = length history.
Proof. symmetry. eapply Forall2_length, prune_cleared. Qed.

(** Clearing keeps roles, so also the turns of users. *)
Lemma cleared_role t t' : cleared t t' -> turn_role t' = turn_role t.
Proof. intros [-> |(Hr & _ & ->)]; [done|]. by rewrite Hr. Qed.

Lemma has_role_true role t : has_role role t = true <-> turn_role t = role.
Proof. unfold has_role. by rewrite bool_decide_eq_true. Qed.

Lemma has_role_false role t : has_role role t = false <-> turn_role t <> role.
Proof. unfold has_role. by rewrite bool_decide_eq_false. Qed.

(** ** The boundary *)

(** The turn at an index has a role. *)
Definition role_at (h : list Turn) (i : nat) (role : string) : Prop :=
  exists t, h !! i = Some t /\ turn_role t = role.

Lemma tail_loop_total h he mt tb k : forall acc cut,
  (he + k <= length h)%nat -> exists r, tail_loop h he mt tb k acc cut = Some r.
Proof.
  induction k as [|k IH]; intros acc cut Hk; cbn [tail_loop]; [by exists cut|]. cbv zeta.
  destruct (lookup_lt_is_Some_2 h (he + k)) as [t ->]; [lia|].
  destruct (_ && _); [by exists cut|]. apply IH. lia.
Qed.

Lemma back_over_tools_spec h he idx :
  (he <= idx < length h)%nat ->
  exists j, back_over_tools h he idx = Some j /\ (he <= j <= idx)%nat /\
    (j = he \/ ~ role_at h j "tool").
Proof.
  induction idx as [|idx IH]; intros Hi; cbn [back_over_tools].
  - exists O. split; [done|]. lia.
  - case_bool_decide as E; [|exists (S idx); split; [done|lia]].
    destruct (lookup_lt_is_Some_2 h (S idx)) as [t Ht]; [lia|]. rewrite Ht.
    destruct (has_role "tool" t) eqn:Er.
    + destruct IH as (j & -> & Hj & Hjt); [lia|]. exists j. split; [done|]. split; [lia|done].
    + exists (S idx). split; [done|]. split; [lia|]. right. intros (t' & Ht' & Hr).
      simplify_eq. by apply has_role_false in Er.
Qed.

(** An aligned boundary is no later, and a tool result that starts the tail was not asked for
    by the turn before it, unless a group of results reaches into the head. *)
Definition aligned (h : list Turn) (he cut : nat) : Prop :=
  role_at h cut "tool" ->
  (cut = S he /\ role_at h he "tool") \/
  (~ role_at h (pred cut) "tool" /\ ~ role_at h (pred cut) "assistant").

Lemma align_spec h idx he :
  (he < idx < length h)%nat ->
  exists r, align_tail_boundary_backward h idx he = Some r /\ (he <= r <= idx)%nat /\ aligned h he r.
Proof.
  intros Hi. unfold align_tail_boundary_backward. cbv zeta.
  rewrite (bool_decide_eq_false_2 (idx = O)) by lia.
  rewrite (bool_decide_eq_false_2 (length h <= idx)%nat) by lia. cbn [orb].
  destruct (lookup_lt_is_Some_2 h idx) as [t Ht]; [lia|]. rewrite Ht.
  destruct (has_role "tool" t) eqn:Er; cbn [negb].
  - destruct (back_over_tools_spec h he idx) as (j & -> & Hj & Hjt); [lia|].
    destruct (lookup_lt_is_Some_2 h j) as [u Hu]; [lia|]. rewrite Hu.
    destruct (has_role "assistant" u) eqn:Ea.
    + exists j. split; [done|]. split; [lia|]. intros (v & Hv & Hr).
      apply has_role_true in Ea. simplify_eq. congruence.
    + assert (j <> idx \/ j = he) as Hne.
      { destruct Hjt as [|Hjt]; [by right|]. left. intros ->. apply Hjt.
        exists t. by rewrite <- has_role_true. }
      exists (S j). split; [f_equal; lia|]. split; [lia|]. intros _. simpl.
      apply has_role_false in Ea. destruct Hjt as [-> |Hjt]; [|right; split; [done|]].
      * destruct (decide (turn_role u = "tool")); [left; split; [done|by exists u]|right].
        split; intros (v & Hv & ?); simplify_eq.
      * intros (v & Hv & ?). simplify_eq.
  - exists idx. split; [f_equal; lia|]. split; [lia|]. intros (v & Hv & Hr).
    apply has_role_false in Er. simplify_eq.
Qed.

(** With one turn after the head, that turn is not in the tail. *)
Lemma align_single h he :
  length h = S he -> align_tail_boundary_backward h he he = Some (length h).
Proof.
  intros Hl. unfold align_tail_boundary_backward. cbv zeta.
  assert (Hc : Nat.min (Nat.max he (he + 1)) (length h) = length h) by lia.
  rewrite (bool_decide_eq_false_2 (length h <= he)%nat) by lia.
  case_bool_decide as E0; cbn [orb]; [by rewrite Hc|].
  destruct (lookup_lt_is_Some_2 h he) as [t Ht]; [lia|]. rewrite Ht.
  destruct (has_role "tool" t) eqn:Er; cbn [negb]; [|by rewrite Hc].
  destruct (back_over_tools_spec h he he) as (j & -> & Hj & _); [lia|].
  assert (j = he) as -> by lia. rewrite Ht.
  apply has_role_true in Er. rewrite (proj2 (has_role_false "assistant" t)) by congruence.
  f_equal. lia.
Qed.

Lemma last_with_role_spec role ts : forall i,
  match last_with_role role i ts with
  | Some j => (i <= j)%nat /\ role_at ts (j - i) role /\
              forall k, role_at ts k role -> (i + k <= j)%nat
  | None => forall k, ~ role_at ts k role
  end.
Proof.
  induction ts as [|t ts IH]; intros i; simpl.
  - intros k (t & Ht & _). by rewrite lookup_nil in Ht.
  - specialize (IH (S i)). destruct (last_with_role role (S i) ts) as [j|].
    + destruct IH as (Hj & Hr & Hl). split; [lia|].
      split; [by replace (j - i)%nat with (S (j - S i)) by lia|].
      intros [|k] Hk; [lia|]. specialize (Hl k Hk). lia.
    + destruct (has_role role t) eqn:E.
      * split; [lia|]. rewrite Nat.sub_diag. split; [exists t; by rewrite <- has_role_true|].
        intros [|k] Hk; [lia|]. by destruct (IH k).
      * intros [|k] (u & Hu & Hr); simpl in Hu; simplify_eq; [by apply has_role_false in E|].
        apply (IH k). by exists u.
Qed.

Lemma ensure_spec h cut he :
  exists r : nat, ensure_last_user_turn_in_tail h cut he = r /\
    (r = cut \/ (he <= r < cut)%nat /\ role_at h r "user") /\
    forall k, (he <= k)%nat -> role_at h k "user" ->
      exists j, (r <= j)%nat /\ (k <= j)%nat /\ role_at h j "user".
Proof.
  eexists; split; [done|]. unfold ensure_last_user_turn_in_tail.
  pose proof (last_with_role_spec "user" (drop he h) he) as Hl.
  assert (Hd : forall k, (he <= k)%nat -> role_at h k "user" -> role_at (drop he h) (k - he) "user").
  { intros k Hk (t & Ht & Hr). exists t. rewrite lookup_drop. by replace (he + (k - he))%nat with k by lia. }
  destruct (last_with_role _ _ _) as [j|].
  - destruct Hl as (Hj & (t & Ht & Hr) & Hl). rewrite lookup_drop in Ht.
    replace (he + (j - he))%nat with j in Ht by lia.
    assert (Hju : role_at h j "user") by by exists t.
    split; [case_bool_decide; [by left|right; split; [lia|done]]|].
    intros k Hk Hu. exists j. split; [case_bool_decide; lia|]. split; [|done].
    specialize (Hl _ (Hd k Hk Hu)). lia.
  - split; [by left|]. intros k Hk Hu. by destruct (Hl _ (Hd k Hk Hu)).
Qed.

Lemma minimum_tail_bounds cfg available :
  (1 <= available)%nat -> (1 <= minimum_tail cfg available <= available)%nat.
Proof. unfold minimum_tail. cbv zeta. lia. Qed.

(** Where the tail starts: after the head, before or at the floor of recent turns when two
    turns follow the head, aligned, and with the latest user turn in it. *)
Lemma find_tail_spec cfg h he budget :
  (he <= length h)%nat ->
  exists cut, find_tail_start_by_tokens cfg h he budget = Some cut /\ (he <= cut <= length h)%nat /\
    (forall k, (he <= k)%nat -> role_at h k "user" ->
      exists j, (cut <= j)%nat /\ (k <= j)%nat /\ role_at h j "user") /\
    (he + 2 <= length h ->
      cut <= length h - minimum_tail cfg (length h - he) /\ aligned h he cut)%nat.
Proof.
  intros Hhe. unfold find_tail_start_by_tokens. cbv zeta. case_bool_decide as En.
  { exists (length h). split; [done|]. split; [lia|]. split; [|lia].
    intros k Hk (t & Ht & _). apply lookup_lt_Some in Ht. lia. }
  pose proof (minimum_tail_bounds cfg (length h - he)) as Hmt.
  set (mt := minimum_tail cfg (length h - he)) in *.
  destruct (tail_loop_total h he mt (Z.max (scale (scale budget (threshold_ratio cfg)) (target_ratio cfg)) 1)
              (length h - he) 0 (length h)) as [r ->]; [lia|].
  set (c1 := if bool_decide (length h - mt < r)%nat then (length h - mt)%nat else r).
  set (c2 := if bool_decide (c1 <= he)%nat then (length h - mt)%nat else c1).
  assert (Hc1 : (c1 <= length h - mt)%nat) by (unfold c1; case_bool_decide; lia).
  destruct (decide (he + 2 <= length h)%nat) as [H2|H2].
  - assert (Hmt2 : (mt < length h - he)%nat).
    { unfold mt, minimum_tail. cbv zeta. case_bool_decide; lia. }
    assert (Hc2 : (he < c2 <= length h - mt)%nat) by (unfold c2; case_bool_decide; lia).
    destruct (align_spec h c2 he) as (r1 & -> & Hr1 & Hal); [lia|].
    destruct (ensure_spec h r1 he) as (r2 & -> & Hr2 & Hu).
    exists r2. split; [done|]. split; [destruct Hr2 as [->|[? _]]; lia|]. split; [done|].
    intros _. split; [destruct Hr2 as [->|[? _]]; lia|].
    destruct Hr2 as [->|(_ & t & Ht & Hr)]; [done|]. intros (u & Hu' & ?). simplify_eq. congruence.
  - assert (length h = S he) as Hl by lia.
    assert (c2 = he) as -> by (unfold c2; case_bool_decide; lia).
    rewrite align_single by done.
    destruct (ensure_spec h (length h) he) as (r2 & -> & Hr2 & Hu).
    exists r2. split; [done|]. split; [destruct Hr2 as [->|[? _]]; lia|]. split; [done|lia].
Qed.

(** ** A pass *)

Lemma slice_some ts a b :
  (a <= b <= length ts)%nat -> slice ts a b = Some (take (b - a) (drop a ts)).
Proof.
  intros H. unfold slice. rewrite !bool_decide_eq_true_2 by lia. done.
Qed.

(** A list at two positions. *)
Lemma split_at (ts : list Turn) a b :
  (a <= b <= length ts)%nat -> ts = take a ts ++ take (b - a) (drop a ts) ++ drop b ts.
Proof.
  intros H. rewrite <- (take_drop a ts) at 1. f_equal.
  rewrite <- (take_drop (b - a) (drop a ts)) at 1. f_equal.
  rewrite drop_drop. f_equal. lia.
Qed.

Definition summary_turn (text : string) : Turn := {| turn_role := "system"; turn_content := text |}.

Definition pruned_history (c : ContextCompressor) (history : list Turn) : list Turn :=
  (prune_old_tool_outputs history (protect_last_n_turns (config c))).1.
Definition pruned_count (c : ContextCompressor) (history : list Turn) : nat :=
  (prune_old_tool_outputs history (protect_last_n_turns (config c))).2.

(** What a pass that replaces [middle] returns. *)
Definition compacted (c : ContextCompressor) (history : list Turn) (budget : Z)
    (llm : option string) (head middle tail : list Turn) : ContextCompressor * CompressedContext :=
  let summary_budget := compute_summary_budget (config c) middle in
  let s := generate_summary (previous_summary c) llm middle (pruned_count c history) summary_budget in
  let turns := head ++ summary_turn s.1 :: tail in
  ({| config := config c; previous_summary := Some s.1 |},
   {| cc_turns := turns; cc_total_tokens := sum_tokens turns; cc_was_compressed := true;
      cc_turns_pruned := length middle; cc_summary_text := s.1; cc_summary_strategy := s.2;
      cc_pruned_tool_outputs := pruned_count c history; cc_protected_head_turns := length head;
      cc_protected_tail_turns := length tail; cc_protected_tail_tokens := sum_tokens tail;
      cc_summary_budget_tokens := summary_budget;
      cc_compaction_effective :=
        compaction_reduced_enough (config c) (sum_tokens history) (sum_tokens turns);
      cc_still_over_threshold := bool_decide (trigger_threshold (config c) budget < sum_tokens turns) |}).

Definition has_user (ts : list Turn) : Prop := exists t, t ∈ ts /\ turn_role t = "user".

(** How a pass divides the cleared history. *)
Record division (c : ContextCompressor) (history head middle tail : list Turn) : Prop := {
  div_app : pruned_history c history = head ++ middle ++ tail;
  div_head : length head = Nat.min (protect_first_n_turns (config c)) (length history);
  div_middle : middle <> [];
  div_user : has_user middle -> has_user tail
}.

Lemma has_user_at ts : has_user ts <-> exists i, role_at ts i "user".
Proof.
  split.
  - intros (t & [i Hi]%list_elem_of_lookup & Hr). by exists i, t.
  - intros (i & t & Hi & Hr). exists t. split; [|done]. by eapply list_elem_of_lookup_2.
Qed.

(** Both entry points follow the same division, or both leave the history alone. *)
Lemma pass_cases c history budget force :
  (summarizable_middle_turns_internal (config c) history budget force = Some [] /\
   forall llm, compress_internal c history budget llm force =
     Some (c, unchanged_context history (sum_tokens history) (trigger_threshold (config c) budget))) \/
  exists head middle tail,
    division c history head middle tail /\
    summarizable_middle_turns_internal (config c) history budget force = Some middle /\
    (forall llm, compress_internal c history budget llm force =
       Some (compacted c history budget llm head middle tail)) /\
    (force = false -> needs_compression (config c) history budget = true).
Proof.
  unfold compress_internal, summarizable_middle_turns_internal. cbv zeta.
  destruct (_ || _) eqn:E0; [by left|].
  rewrite (surjective_pairing (prune_old_tool_outputs _ _)).
  change (prune_old_tool_outputs _ _).1 with (pruned_history c history).
  change (prune_old_tool_outputs _ _).2 with (pruned_count c history).
  assert (Hlen : length (pruned_history c history) = length history) by apply prune_length.
  set (ph := pruned_history c history) in *.
  set (hn := Nat.min (protect_first_n_turns (config c)) (length ph)).
  destruct (find_tail_spec (config c) ph hn
    (selection_budget (config c) (sum_tokens history) budget force)) as (cut & -> & Hcut & Hu & _);
    [lia|].
  destruct (bool_decide (cut <= hn)%nat) eqn:E1; [by left|]. apply bool_decide_eq_false in E1. right.
  rewrite !slice_some by lia.
  exists (take hn ph), (take (cut - hn) (drop hn ph)), (drop cut ph).
  assert (Hm : length (take (cut - hn) (drop hn ph)) = (cut - hn)%nat)
    by (rewrite length_take, length_drop; lia).
  assert (Hh : length (take hn ph) = hn) by (rewrite length_take; lia).
  split; [split|split; [done|split]].
  - apply split_at. lia.
  - rewrite Hh. unfold hn. by rewrite Hlen.
  - intros Hnil. rewrite Hnil in Hm. simpl in Hm. lia.
  - rewrite !has_user_at. intros (i & t & Hi & Hr).
    apply lookup_take_Some in Hi as [Hi Hlt]. rewrite lookup_drop in Hi.
    destruct (Hu (hn + i)%nat) as (j & Hj & _ & v & Hv & Hvr); [lia|by exists t|].
    exists (j - cut)%nat, v. rewrite lookup_drop. by replace (cut + (j - cut))%nat with j by lia.
  - intros llm. unfold compacted. cbv zeta.
    rewrite (surjective_pairing (generate_summary _ _ _ _ _)). rewrite Hm, Hh, drop_0, Nat.sub_0_r.
    rewrite (take_ge (drop cut ph)) by (rewrite length_drop; lia).
    rewrite length_drop. done.
  - intros ->. unfold needs_compression. apply bool_decide_eq_true_2.
    apply orb_false_iff in E0 as [E0 _]. simpl in E0. bool_props. lia.
Qed.

(** ** Summaries *)

(** Every summary is marked as reference only. *)
Lemma with_summary_prefix_marked s : starts_with REFERENCE_ONLY (with_summary_prefix s) = true.
Proof.
  unfold with_summary_prefix. cbv zeta. destruct (starts_with REFERENCE_ONLY (str_trim s)) eqn:E; [done|].
  unfold SUMMARY_PREFIX.
  destruct (strip_prefix _ _); [|case_bool_decide]; rewrite <- ?string_app_assoc; apply starts_with_own.
Qed.

Lemma generate_summary_marked prev llm middle k b :
  starts_with REFERENCE_ONLY (generate_summary prev llm middle k b).1 = true.
Proof.
  unfold generate_summary. cbv zeta. destruct llm, prev; apply with_summary_prefix_marked.
Qed.

(** Text between a number sign and a full stop is not trimmed. *)
Lemma trim_front_hash l : trim_front ("#"%char :: l) = "#"%char :: l.
Proof. by destruct l as [|b [|c l]]. Qed.

Lemma ws2_dot b : ws2 b "."%char = false.
Proof. by destruct b as [[] [] [] [] [] [] [] []]. Qed.

Lemma ws3_dot c b : ws3 c b "."%char = false.
Proof.
  destruct c as [[] [] [] [] [] [] [] []]; try reflexivity;
    by destruct b as [[] [] [] [] [] [] [] []].
Qed.

Lemma trim_back_dot l : trim_back ("."%char :: l) = "."%char :: l.
Proof. destruct l as [|b [|c l]]; simpl; [done|by rewrite ws2_dot|by rewrite ws2_dot, ws3_dot]. Qed.

Lemma list_ascii_app (a b : string) :
  String.list_ascii_of_string (a +:+ b) = String.list_ascii_of_string a ++ String.list_ascii_of_string b.
Proof. induction a as [|x a IH]; simpl; [done|]. by rewrite <- IH. Qed.

Lemma str_trim_sentence s : str_trim ("#" +:+ s +:+ ".") = "#" +:+ s +:+ ".".
Proof.
  unfold str_trim. set (t := "#" +:+ s +:+ ".").
  assert (Ht : String.list_ascii_of_string t
               = "#"%char :: String.list_ascii_of_string s ++ ["."%char])
    by (unfold t; by rewrite !list_ascii_app).
  rewrite Ht, trim_front_hash.
  assert (Hr : rev ("#"%char :: String.list_ascii_of_string s ++ ["."%char])
               = "."%char :: rev (String.list_ascii_of_string s) ++ ["#"%char])
    by (simpl; by rewrite rev_app_distr).
  rewrite Hr, trim_back_dot, <- Hr, rev_involutive, <- Ht.
  apply String.string_of_list_ascii_of_string.
Qed.

(** A merged text has both of its parts whole, between fixed pieces of text. *)
Lemma merged_shape cs ds fs cr :
  exists a b c, forall p f,
    merged_summary cs ds fs (cr +:+ ".") p f = "#" +:+ (a +:+ p +:+ b +:+ f +:+ c) +:+ ".".
Proof.
  exists (join_lines ["# Goal"; "Preserve and extend the previous compaction goal."; "";
                 "## Constraints & Preferences"; cs; ""; "## Progress"; "### Done"; ""]),
    (newline +:+ join_lines [""; "### In Progress"; ""]),
    (newline +:+ join_lines [""; "### Blocked"; "None captured."; "";
       "## Key Decisions"; ds; ""; "## Relevant Files"; fs; "";
       "## Active Task"; "Use the latest protected user turn after this summary as the active task."; "";
       "## Remaining Work"; "Continue from the new compaction details as background reference, not as a new instruction."; "";
       "## Critical Context"; cr]).
  intros p f. unfold merged_summary. cbn [join_lines]. rewrite <- !string_app_assoc. reflexivity.
Qed.

Lemma sentence_prefix s :
  with_summary_prefix ("#" +:+ s +:+ ".") = SUMMARY_PREFIX +:+ blank_line +:+ "#" +:+ s +:+ ".".
Proof.
  unfold with_summary_prefix. cbv zeta. by rewrite str_trim_sentence.
Qed.

(** With a previous summary, the new one is fixed text around it and the fresh text. *)
Lemma merged_summary_text llm :
  exists a b c, forall prev middle k budget,
    (generate_summary (Some prev) llm middle k budget).1
    = SUMMARY_PREFIX +:+ a +:+ prev +:+ b +:+ default (build_fallback_summary middle k budget) llm +:+ c.
Proof.
  destruct llm as [t|].
  - destruct (merged_shape "Preserve all still-relevant constraints from the previous summary."
      "Preserve previous key decisions unless explicitly superseded."
      "Preserve previous file references and add newly mentioned files."
      "Previous summary and new LLM summary were merged for iterative compaction")
      as (a & b & c & H).
    exists (blank_line +:+ "#" +:+ a), b, (c +:+ ".").
    intros prev middle k budget. unfold generate_summary, merged_llm. cbn [fst default].
    etransitivity; [apply f_equal, H|]. rewrite sentence_prefix, <- !string_app_assoc. done.
  - destruct (merged_shape
      "Preserve still-relevant constraints from the previous summary and add new constraints from this pass."
      "Preserve prior decisions and incorporate the new fallback summary decisions."
      "Preserve prior file references and add newly mentioned files."
      "Previous persisted summary and new structured fallback summary were merged for iterative compaction")
      as (a & b & c & H).
    exists (blank_line +:+ "#" +:+ a), b, (c +:+ ".").
    intros prev middle k budget. unfold generate_summary, merged_fallback. cbv zeta. cbn [fst default].
    etransitivity; [apply f_equal, H|]. rewrite sentence_prefix, <- !string_app_assoc. done.
Qed.

(** ** What a pass returns *)


(** The prompt for a summary and the pass agree: there is a prompt exactly when the pass
    compresses, and the turns it quotes are the ones the pass replaces, with the turns before
    and after them kept. *)
Theorem prompt_matches_pass c history budget llm force :
  exists middle c' r,
    summarizable_middle_turns_internal (config c) history budget force = Some middle /\
    compress_internal c history budget llm force = Some (c', r) /\
    cc_turns_pruned r = length middle /\
    (exists prompt, build_compression_summary_prompt_internal c history budget force = Some prompt /\
       (is_Some prompt <-> cc_was_compressed r = true) /\
       (previous_summary c = None -> is_Some prompt -> prompt = Some (build_summary_prompt middle))) /\
    (cc_was_compressed r = true ->
       exists head tail, pruned_history c history = head ++ middle ++ tail /\
         cc_turns r = head ++ summary_turn (cc_summary_text r) :: tail).
Proof.
  unfold build_compression_summary_prompt_internal.
  destruct (pass_cases c history budget force) as [[Hs H]|(h & m & t & Hd & Hs & H & _)];
    rewrite H, Hs; eexists _, _, _; (split; [done|]); (split; [apply f_equal; apply surjective_pairing|]).
  - split; [done|]. split; [|done]. exists None. simpl. split; [done|]. split; [|by intros _ [? ?]].
    split; [by intros [? ?]|done].
  - split; [done|]. destruct Hd as [Happ Hh Hm Hu]. split.
    + eexists. cbn [mbind option_bind]. split; [done|].
      rewrite bool_decide_eq_false_2 by (by destruct m). cbv zeta.
      split; [done|]. by intros -> _.
    + intros _. by exists h, t.
Qed.

(** When at least two turns follow the head, the tail has at least the configured number
    of recent turns, less the one or two that are left for the middle, and at least one; and
    when it starts with a tool result then the turn before is neither the assistant turn that
    asked for it nor another result, unless the results begin right after the head. *)
Theorem recent_turns_protected cfg history head_end budget :
  (head_end + 2 <= length history)%nat ->
  exists cut, find_tail_start_by_tokens cfg history head_end budget = Some cut /\
    (Nat.max 1 (Nat.min (protect_last_n_turns cfg)
                  (length history - head_end - (if decide (head_end + 2 < length history)%nat then 2 else 1)))
     <= length history - cut)%nat /\
    aligned history head_end cut.
Proof.
  intros Hl. destruct (find_tail_spec cfg history head_end budget) as (cut & Hf & Hb & _ & Ht); [lia|].
  destruct (Ht Hl) as [Hm Ha]. exists cut. split; [done|]. split; [|done].
  revert Hm. unfold minimum_tail. cbv zeta. case_bool_decide; case_decide; lia.
Qed.

(** A conversation with a tool call near its end. *)
Definition ex_turn (role content : string) : Turn := {| turn_role := role; turn_content := content |}.
Definition ex_conversation : list Turn :=
  [ex_turn "system" "root"; ex_turn "user" "first task"; ex_turn "assistant" "first answer";
   ex_turn "user" "second task"; ex_turn "assistant" "calls read_file"; ex_turn "tool" "file text";
   ex_turn "assistant" "second answer"].

Definition ex_config (first last : nat) : CompressorConfig :=
  {| threshold_ratio := f64_literal 1 100; target_ratio := f64_literal 20 100;
     protect_last_n_turns := last; protect_first_n_turns := first; min_summary_tokens := 2000;
     max_summary_tokens := 12000; summary_ratio := f64_literal 20 100;
     min_reduction_ratio := f64_literal 10 100 |}.

Lemma recent_turns_protected_witness :
  (1 + 2 <= length ex_conversation)%nat /\
  exists cut, find_tail_start_by_tokens (ex_config 1 2) ex_conversation 1 100 = Some cut /\
    (2 <= length ex_conversation - cut)%nat.
Proof.
  split; [simpl; lia|].
  destruct (recent_turns_protected (ex_config 1 2) ex_conversation 1 100) as (cut & H & Hc & _);
    [simpl; lia|].
  exists cut. split; [exact H|]. revert Hc. simpl. lia.
Defined.

(** The tail starts at the user turn before the call, not between the call and its result. *)
Example tail_boundary_example :
  find_tail_start_by_tokens (ex_config 1 2) ex_conversation 1 100 = Some 3%nat.
Proof. vm_compute. reflexivity. Qed.

(** A single turn after the head is compacted whatever number of recent turns is protected. *)
Example last_turn_not_protected :
  let history := [ex_turn "user" "task"; ex_turn "assistant" "the only answer"] in
  match compress_forced (compressor_new (ex_config 1 10)) history 100 (Some "s") with
  | Some (_, r) => cc_was_compressed r = true /\ cc_protected_tail_turns r = 0%nat /\
                   map turn_role (cc_turns r) = ["user"; "system"]
  | None => False
  end.
Proof. vm_compute. done. Qed.

(** Results that begin right after the head are separated: the first goes into the summary,
    the others stay without it. *)
Example results_after_head_separated :
  let history := [ex_turn "assistant" "three calls"; ex_turn "tool" "one"; ex_turn "tool" "two";
                  ex_turn "tool" "three"; ex_turn "assistant" "done"; ex_turn "assistant" "more"] in
  find_tail_start_by_tokens (ex_config 1 3) history 1 100 = Some 2%nat.
Proof. vm_compute. reflexivity. Qed.

(** ** Truncation *)

Lemma token_estimate_nonneg t : 0 <= token_estimate t.
Proof. unfold token_estimate, str_len. apply Z.div_pos; lia. Qed.

Lemma sum_tokens_app l1 l2 : sum_tokens (l1 ++ l2) = sum_tokens l1 + sum_tokens l2.
Proof. induction l1 as [|t l1 IH]; simpl; [done|]. rewrite IH. lia. Qed.

Lemma sum_tokens_nonneg l : 0 <= sum_tokens l.
Proof. induction l as [|t l IH]; simpl; [lia|]. pose proof (token_estimate_nonneg t). lia. Qed.

(** The loop keeps turns from the newest on, until the next one would not fit. *)
Lemma keep_newest_spec budget rev_turns : forall tokens kept,
  tokens = sum_tokens kept -> tokens <= budget \/ (length kept <= 1)%nat ->
  exists dropped, rev rev_turns ++ kept = dropped ++ keep_newest budget tokens kept rev_turns /\
    (sum_tokens (keep_newest budget tokens kept rev_turns) <= budget \/
     (length (keep_newest budget tokens kept rev_turns) <= 1)%nat) /\
    (forall t, last dropped = Some t ->
       budget < token_estimate t + sum_tokens (keep_newest budget tokens kept rev_turns)).
Proof.
  induction rev_turns as [|t ts IH]; intros tokens kept -> Hk; cbn [keep_newest rev].
  - exists []. split; [done|]. split; [done|]. done.
  - cbv zeta. destruct (_ && _) eqn:E.
    + exists (rev ts ++ [t]). split; [done|]. split; [done|]. intros u Hu.
      rewrite last_snoc in Hu. injection Hu as <-. bool_props. lia.
    + destruct (IH (sum_tokens kept + token_estimate t) (t :: kept)) as (d & Hd & Hb & Hm).
      * simpl. lia.
      * apply andb_false_iff in E as [E|E]; bool_props; [left; lia|].
        right. simpl. lia.
      * exists d. split; [by rewrite <- app_assoc|]. split; [|done]. done.
Qed.

Lemma keep_newest_not_nil budget rev_turns : forall tokens kept,
  rev_turns ++ kept <> [] -> keep_newest budget tokens kept rev_turns <> [].
Proof.
  induction rev_turns as [|t ts IH]; intros tokens kept Hne; cbn [keep_newest]; [done|]. cbv zeta.
  destruct (_ && _) eqn:E; [|by apply IH; destruct ts]. bool_props. by destruct kept.
Qed.


(** A head above the budget stays, and so does one turn: the result is three times as large as
    the budget. *)
Example truncation_over_budget :
  let cfg := compressor_config_default in
  let turns := [ex_turn "system" "a system prompt of forty-two characters !!"; ex_turn "user" "aaaaaaaa";
                ex_turn "user" "bbbbbbbb"; ex_turn "user" "cccccccc"] in
  let r := hard_truncate_to_budget cfg turns 6 in
  r.2 = 1%nat /\ sum_tokens r.1 = 18.
Proof. vm_compute. done. Qed.

(** ** Growth of summaries *)

Lemma str_len_app a b : str_len (a +:+ b) = str_len a + str_len b.
Proof. unfold str_len. induction a as [|x a IH]; simpl; [done|]. lia. Qed.

Lemma str_len_nonneg s : 0 <= str_len s.
Proof. unfold str_len. lia. Qed.

(** One pass of a sequence: its history, its budget, the summary of a model and the force. *)
Definition Pass : Type := (list Turn * Z * option string * bool).

Fixpoint run_passes (c : ContextCompressor) (ps : list Pass)
  : option (ContextCompressor * list CompressedContext) :=
  match ps with
  | [] => Some (c, [])
  | (history, budget, llm, force) :: ps' =>
      '(c1, r) ← compress_internal c history budget llm force;
      '(c2, rs) ← run_passes c1 ps';
      Some (c2, r :: rs)
  end.

Definition compressions (rs : list CompressedContext) : nat :=
  length (filter (fun r => cc_was_compressed r = true) rs).

Lemma carried_refl (s : string) : exists a b, s = a +:+ s +:+ b.
Proof.
  exists EmptyString, EmptyString. change (s = s +:+ EmptyString).
  induction s as [|x s IH]; [done|].
  change (String x s = String x (s +:+ EmptyString)). by f_equal.
Qed.

(** A pass with a previous summary keeps it, or carries it in a longer one. *)
Lemma pass_carries c prev history budget llm force :
  previous_summary c = Some prev ->
  exists c' r next, compress_internal c history budget llm force = Some (c', r) /\
    previous_summary c' = Some next /\
    (cc_was_compressed r = true -> cc_summary_text r = next) /\
    (exists a b, next = a +:+ prev +:+ b) /\
    str_len prev + (if cc_was_compressed r then str_len SUMMARY_PREFIX else 0) <= str_len next.
Proof.
  intros Hp. destruct (pass_cases c history budget force) as [[_ H]|(h & m & t & _ & _ & H & _)];
    rewrite H; eexists _, _; eexists; (split; [apply f_equal; apply surjective_pairing|]).
  - split; [exact Hp|]. split; [done|]. split; [apply carried_refl|simpl; lia].
  - split; [reflexivity|]. split; [done|]. destruct (merged_summary_text llm) as (a & b & d & Hm).
    rewrite Hp, Hm. split; [exists (SUMMARY_PREFIX +:+ a); eexists; by rewrite <- !string_app_assoc|].
    cbn [fst snd compacted cc_was_compressed]. rewrite !str_len_app.
    pose proof (str_len_nonneg a). pose proof (str_len_nonneg b). pose proof (str_len_nonneg d).
    pose proof (str_len_nonneg (default (build_fallback_summary m (pruned_count c history)
      (compute_summary_budget (config c) m)) llm)). lia.
Qed.

(** Summaries accumulate: once there is a summary, any sequence of passes ends with one that
    contains it whole and has grown by at least the fixed prefix for every compression among
    them, whatever the configured maximum of summary tokens is. *)
Theorem summaries_accumulate ps : forall c prev,
  previous_summary c = Some prev ->
  exists c' rs final, run_passes c ps = Some (c', rs) /\ previous_summary c' = Some final /\
    (exists a b, final = a +:+ prev +:+ b) /\
    str_len prev + Z.of_nat (compressions rs) * str_len SUMMARY_PREFIX <= str_len final.
Proof.
  induction ps as [|[[[history budget] llm] force] ps IH]; intros c prev Hp.
  - exists c, [], prev. split; [done|]. split; [done|]. split; [apply carried_refl|].
    change (compressions []) with 0%nat. lia.
  - destruct (pass_carries c prev history budget llm force Hp) as (c1 & r & next & H & Hn & _ & Hc & Hl).
    destruct (IH c1 next Hn) as (c2 & rs & final & Hr & Hf & Hc2 & Hl2).
    exists c2, (r :: rs), final. cbn [run_passes]. rewrite H. cbn [mbind option_bind]. rewrite Hr.
    cbn [mbind option_bind]. split; [done|]. split; [done|].
    destruct Hc as (a & b & ->), Hc2 as (a2 & b2 & ->).
    split; [exists (a2 +:+ a), (b +:+ b2); by rewrite <- !string_app_assoc|].
    unfold compressions in *. rewrite filter_cons.
    destruct (cc_was_compressed r); [rewrite decide_True by done|rewrite decide_False by done];
      cbn [length] in *; [rewrite Nat2Z.inj_succ, Z.mul_succ_l|]; lia.
Qed.

(** Two passes over a growing conversation. *)
Definition ex_state : ContextCompressor :=
  {| config := ex_config 1 2; previous_summary := Some "earlier work" |}.

Lemma summaries_accumulate_witness :
  previous_summary ex_state = Some "earlier work" /\
  exists c' rs final,
    run_passes ex_state [(ex_conversation, 100, Some "s1", true); (ex_conversation, 100, None, true)]
      = Some (c', rs) /\
    previous_summary c' = Some final /\ 900 <= str_len final.
Proof.
  split; [reflexivity|].
  destruct (summaries_accumulate [(ex_conversation, 100, Some "s1", true); (ex_conversation, 100, None, true)]
    ex_state "earlier work" eq_refl) as (c' & rs & final & H & Hf & _ & Hl).
  exists c', rs, final. split; [exact H|]. split; [exact Hf|].
  assert (Hk : option_map (fun x => compressions (snd x))
    (run_passes ex_state [(ex_conversation, 100, Some "s1", true); (ex_conversation, 100, None, true)])
    = Some 2%nat) by (vm_compute; reflexivity).
  rewrite H in Hk. injection Hk as Hk. simpl in Hk. rewrite Hk in Hl.
  assert (Hp : 444 <= str_len SUMMARY_PREFIX) by (vm_compute; discriminate).
  assert (He : str_len "earlier work" = 12) by reflexivity. lia.
Defined.

(** A pass can make a conversation longer: the fixed text of a summary outweighs short turns. *)
Example compression_can_grow :
  match compress (compressor_new (ex_config 1 2)) ex_conversation 100 None with
  | Some (_, r) => cc_was_compressed r = true /\ sum_tokens ex_conversation < 40 /\
                   200 < cc_total_tokens r /\ cc_compaction_effective r = false
  | None => False
  end.
Proof. vm_compute. done. Qed.
