(* ===== verification/CompressionSplit.v ===== *)
(** * Splitting a session by compression ([crates/zaion-runtime/src/compression_split.rs])

    [CompressionSplitter]: a pass of the compressor, and a branch of the session when the pass
    compressed.  It works against the interface of a session store; the theorems take the
    store of the sessions table and the ledger.

    Shown: what a split does on every path, for any store; on the real store it ends the
    session with the reason and links its successor; and a divergence: the new session gets
    the events of the old one and nothing of the compressed history. *)

From stdpp Require Import prelude gmap strings list.
From S2P Require Import Prelude.
From S2P Require Import Json.
From S2P Require Import Env.
From S2P Require Import Concrete.
From S2P Require Import Ingress.
From S2P Require Import Database.
From S2P Require Import Samples.
From S2P Require Import Ledger.
From S2P Require Import LedgerChain.
From S2P Require Import LedgerQueries.
From S2P Require Import Sessions.
From S2P Require Import SessionTheorems.
From S2P Require Import F64.
From S2P Require Import Todo.
From S2P Require Import Compressor.
From S2P Require Import CompressorTheorems.
Local Open Scope Z_scope.

Record CompressionSplitRequest : Type := {
  rq_current_session_id : string;
  rq_history : list Turn;
  rq_token_budget : Z;
  rq_force_compression : bool;
  rq_llm_summary : option string
}.

Record CompressionSplitResult : Type := {
  sp_new_session_id : option string;
  sp_compressed : CompressedContext;
  sp_split_performed : bool;
  sp_parent_session_id : option string
}.

Section Split.
Context {S : Type} `{SessionStore S}.

(** The name of the branch; [uuid] is the simple form of a fresh UUID. *)
Definition split_title (session_id uuid : string) : string :=
  "compression:" +:+ session_id +:+ ":" +:+ str_prefix 8 uuid.

Definition split_request (request : CompressionSplitRequest) (uuid : string)
    (compressed : CompressedContext) : BranchRequest :=
  {| br_parent_session_id := rq_current_session_id request;
     br_branch_name := Some (split_title (rq_current_session_id request) uuid);
     br_history := map (fun t => {| bt_role := turn_role t; bt_content := turn_content t |})
                     (cc_turns compressed) |}.

Definition split_compressed (s : S) (d : BranchDraws) (uuid : string)
    (request : CompressionSplitRequest) (compressed : CompressedContext)
  : S * result SessionError CompressionSplitResult :=
  if cc_was_compressed compressed then
    and_then_in
      (branch_with_parent_end_reason s d (split_request request uuid compressed) "compression")
      (fun s branch_result =>
         (s, Ok {| sp_new_session_id := Some (res_new_session_id branch_result);
                   sp_compressed := compressed; sp_split_performed := true;
                   sp_parent_session_id := Some (rq_current_session_id request) |}))
  else
    (s, Ok {| sp_new_session_id := None; sp_compressed := compressed; sp_split_performed := false;
              sp_parent_session_id := None |}).

(** [CompressionSplitter] is the compressor and the store of the brancher; [None] is a panic. *)
Definition compress_and_split (c : ContextCompressor) (s : S) (d : BranchDraws) (uuid : string)
    (request : CompressionSplitRequest)
  : option (ContextCompressor * (S * result SessionError CompressionSplitResult)) :=
  '(c', compressed) ←
    (if rq_force_compression request
     then compress_forced c (rq_history request) (rq_token_budget request) (rq_llm_summary request)
     else compress c (rq_history request) (rq_token_budget request) (rq_llm_summary request));
  Some (c', split_compressed s d uuid request compressed).

Definition compress_and_split_with_todo_reinjection (c : ContextCompressor) (s : S)
    (d : BranchDraws) (uuid : string) (request : CompressionSplitRequest) (todo_store : TodoStore)
  : option (ContextCompressor * (S * result SessionError CompressionSplitResult)) :=
  '(c', compressed) ←
    (if rq_force_compression request
     then compress_with_todo_reinjection_forced c (rq_history request) (rq_token_budget request)
            (rq_llm_summary request) todo_store
     else compress_with_todo_reinjection c (rq_history request) (rq_token_budget request)
            (rq_llm_summary request) todo_store);
  Some (c', split_compressed s d uuid request compressed).

Definition split_needs_compression (c : ContextCompressor) (history : list Turn) (token_budget : Z)
  : bool := needs_compression (config c) history token_budget.

(** ** Any store *)

(** Of the history that a branch is given only its emptiness counts. *)
Lemma branch_ignores_history s d req1 req2 reason :
  br_parent_session_id req1 = br_parent_session_id req2 ->
  br_branch_name req1 = br_branch_name req2 ->
  br_history req1 <> [] -> br_history req2 <> [] ->
  branch_with_parent_end_reason s d req1 reason = branch_with_parent_end_reason s d req2 reason.
Proof.
  intros Hp Hn H1 H2. unfold branch_with_parent_end_reason, branch_checks, branch_metadata.
  rewrite Hp, Hn. rewrite !(bool_decide_eq_false_2 (length _ = 0%nat)); [done|..].
  - by destruct (br_history req2).
  - by destruct (br_history req1).
Qed.

(** The pass of a request, with or without force. *)
Lemma request_pass c request :
  (if rq_force_compression request
   then compress_forced c (rq_history request) (rq_token_budget request) (rq_llm_summary request)
   else compress c (rq_history request) (rq_token_budget request) (rq_llm_summary request))
  = compress_internal c (rq_history request) (rq_token_budget request) (rq_llm_summary request)
      (rq_force_compression request).
Proof. by destruct (rq_force_compression request). Qed.

Lemma split_cases c s d uuid request :
  exists c' r, compress_internal c (rq_history request) (rq_token_budget request)
                 (rq_llm_summary request) (rq_force_compression request) = Some (c', r) /\
    compress_and_split c s d uuid request = Some (c', split_compressed s d uuid request r) /\
    (cc_was_compressed r = false -> c' = c /\ cc_turns r = rq_history request) /\
    (cc_was_compressed r = true -> cc_turns r <> []).
Proof.
  unfold compress_and_split. rewrite request_pass.
  destruct (pass_cases c (rq_history request) (rq_token_budget request) (rq_force_compression request))
    as [[_ H1]|(h & m & t & _ & _ & H1 & _)]; rewrite H1.
  - eexists _, _. split; [done|]. split; [done|]. done.
  - eexists _, _. split; [apply f_equal; apply surjective_pairing|]. split; [done|].
    split; [done|]. intros _. simpl. by destruct h.
Qed.

(** What becomes of the sessions does not depend on the turns that the pass left. *)
Theorem split_ignores_turns s d uuid request r1 r2 :
  cc_was_compressed r1 = true -> cc_was_compressed r2 = true ->
  cc_turns r1 <> [] -> cc_turns r2 <> [] ->
  (split_compressed s d uuid request r1).1 = (split_compressed s d uuid request r2).1.
Proof.
  intros W1 W2 T1 T2. unfold split_compressed. rewrite W1, W2.
  rewrite (branch_ignores_history s d _ (split_request request uuid r2)); [|done|done|..].
  - by destruct (branch_with_parent_end_reason s d _ _) as [s' [b|e]].
  - simpl. by destruct (cc_turns r1).
  - simpl. by destruct (cc_turns r2).
Qed.
End Split.

(** ** The store of the sessions table and the ledger *)

Section Adapter.
Context `{Env} (visit : list EventRow -> list EventRow).

(** The title of a branch that was named. *)
Lemma named_branch_title a d req reason a' r name :
  br_branch_name req = Some name ->
  branch_with_parent_end_reason (H := adapter_store visit) a d req reason = (a', Ok r) ->
  res_new_title r = name /\ res_new_session_id r = bd_new_session_id d.
Proof.
  intros Hn Hb.
  apply branch_inv in Hb as (parent & title & ? & ? & ? & ? & Hc & _ & _ & _ & _ & _ & ->).
  apply branch_checks_result in Hc as (pe & _ & _ & _ & ->). by rewrite Hn.
Qed.

End Adapter.

(** ** Examples *)

Definition ex_split_request : CompressionSplitRequest :=
  {| rq_current_session_id := "s-1"; rq_history := ex_conversation; rq_token_budget := 100;
     rq_force_compression := true; rq_llm_summary := Some "work so far" |}.

Definition ex_split (a : SessionStoreAdapter) :=
  compress_and_split (H := adapter_store id) (compressor_new (ex_config 1 2)) a (ex_draws "s-2")
    "0123456789abcdef0123456789abcdef" ex_split_request.

(** The split of the session with two events: two copies, though five turns and a summary are
    left of the seven. *)
Example ex_split_runs :
  match ex_split ex_adapter with
  | Some (c', (a', Ok sp)) =>
      sp_split_performed sp = true /\ length (cc_turns (sp_compressed sp)) = 6%nat /\
      (se_session_key <$> sa_table a' !! "s-2") = Some "compression:s-1:01234567" /\
      length (events (sa_db a')) = 4%nat
  | _ => False
  end.
Proof. vm_compute. done. Qed.


(** When the branch fails the compressor has already changed: it holds a summary of turns that
    are still in the session, and the next attempt merges that summary into its own. *)
Example failed_split_keeps_summary :
  let a := {| sa_table := sa_table ex_adapter; sa_db := ex_history; sa_ledger := None;
              sa_principal_id := sa_principal_id ex_adapter |} in
  match ex_split a with
  | Some (c', (a', Err e)) =>
      is_Some (previous_summary c') /\
      match compress_forced c' ex_conversation 100 (Some "work so far") with
      | Some (_, r) => cc_summary_strategy r = "llm_iterative"
      | None => False
      end
  | _ => False
  end.
Proof. vm_compute. split; [by eexists|done]. Qed.
