(* ===== verification/TaskScheduler.v ===== *)
(** * The task scheduler ([crates/zaion-runtime/src/task_scheduler.rs])

    Queues of tasks per session, background tasks by identifier, and a history per session,
    each of the three maps behind a mutex of its own.  A call is modelled as atomic: it holds
    the map it changes while it writes the history, and no task moves between the queues and
    the background tasks, which are looked at one after the other only by [cancel_task].
    Clock readings are arguments; the order in which a [HashMap] is visited is an argument
    too.

    Shown: the queue of every session is first in, first out under any sequence of calls, with
    every task of it accounted for; the history has the last hundred finished tasks; and what is
    missing: a task that is taken from its queue leaves no trace. *)

From stdpp Require Import prelude gmap strings list pretty.
From S2P Require Import Prelude.
Local Open Scope nat_scope.

Inductive TaskMode : Type := Queue | Background.
Inductive TaskPriority : Type := PLow | PNormal | PHigh | PUrgent.
Inductive TaskStatus : Type := TPending | TRunning | TCompleted | TFailed | TCancelled.

Record ScheduledTask : Type := {
  st_task_id : string;
  st_session_key : string;
  st_prompt : string;
  st_mode : TaskMode;
  st_priority : TaskPriority;
  st_status : TaskStatus;
  st_created_at : Z;
  st_started_at : option Z;
  st_completed_at : option Z;
  st_error : option string
}.

(** [ScheduledTask::new] at a time, with the simple form of a fresh UUID. *)
Definition scheduled_task_new (now : Z) (uuid session_key prompt : string) (mode : TaskMode)
  : ScheduledTask :=
  {| st_task_id := match mode with Queue => "q" | Background => "bg" end +:+ "_"
                   +:+ z_to_string now +:+ "_" +:+ str_prefix 8 uuid;
     st_session_key := session_key; st_prompt := prompt; st_mode := mode;
     st_priority := PNormal; st_status := TPending; st_created_at := now;
     st_started_at := None; st_completed_at := None; st_error := None |}.

Definition with_priority (t : ScheduledTask) (p : TaskPriority) : ScheduledTask :=
  {| st_task_id := st_task_id t; st_session_key := st_session_key t; st_prompt := st_prompt t;
     st_mode := st_mode t; st_priority := p; st_status := st_status t;
     st_created_at := st_created_at t; st_started_at := st_started_at t;
     st_completed_at := st_completed_at t; st_error := st_error t |}.

Definition mark_running (now : Z) (t : ScheduledTask) : ScheduledTask :=
  {| st_task_id := st_task_id t; st_session_key := st_session_key t; st_prompt := st_prompt t;
     st_mode := st_mode t; st_priority := st_priority t; st_status := TRunning;
     st_created_at := st_created_at t; st_started_at := Some now;
     st_completed_at := st_completed_at t; st_error := st_error t |}.

(** [mark_completed], [mark_failed] and [mark_cancelled] end a task. *)
Definition ended_as (status : TaskStatus) (error : option string) (now : Z) (t : ScheduledTask)
  : ScheduledTask :=
  {| st_task_id := st_task_id t; st_session_key := st_session_key t; st_prompt := st_prompt t;
     st_mode := st_mode t; st_priority := st_priority t; st_status := status;
     st_created_at := st_created_at t; st_started_at := st_started_at t;
     st_completed_at := Some now; st_error := error |}.
Definition mark_completed (now : Z) (t : ScheduledTask) : ScheduledTask :=
  ended_as TCompleted (st_error t) now t.
Definition mark_failed (now : Z) (error : string) (t : ScheduledTask) : ScheduledTask :=
  ended_as TFailed (Some error) now t.
Definition mark_cancelled (now : Z) (t : ScheduledTask) : ScheduledTask :=
  ended_as TCancelled (st_error t) now t.

Record Scheduler : Type := {
  queue_tasks : gmap string (list ScheduledTask);
  background_tasks : gmap string ScheduledTask;
  history : gmap string (list ScheduledTask)
}.

Definition scheduler_new : Scheduler :=
  {| queue_tasks := ∅; background_tasks := ∅; history := ∅ |}.

Definition with_queues (s : Scheduler) (q : gmap string (list ScheduledTask)) : Scheduler :=
  {| queue_tasks := q; background_tasks := background_tasks s; history := history s |}.
Definition with_background (s : Scheduler) (b : gmap string ScheduledTask) : Scheduler :=
  {| queue_tasks := queue_tasks s; background_tasks := b; history := history s |}.

Definition HISTORY_LIMIT : nat := 100.

(** [while session_history.len() > 100 { session_history.pop_front(); }] *)
Fixpoint trim_history (h : list ScheduledTask) : list ScheduledTask :=
  match h with
  | [] => []
  | _ :: h' => if bool_decide (HISTORY_LIMIT < length h) then trim_history h' else h
  end.

Definition add_to_history (s : Scheduler) (task : ScheduledTask) : Scheduler :=
  let session_history := default [] (history s !! st_session_key task) in
  {| queue_tasks := queue_tasks s; background_tasks := background_tasks s;
     history := <[st_session_key task := trim_history (session_history ++ [task])]> (history s) |}.

Definition queue_of (s : Scheduler) (key : string) : list ScheduledTask :=
  default [] (queue_tasks s !! key).

Definition enqueue (s : Scheduler) (task : ScheduledTask) : Scheduler * string :=
  (match st_mode task with
   | Queue => with_queues s (<[st_session_key task := queue_of s (st_session_key task) ++ [task]]>
                               (queue_tasks s))
   | Background => with_background s (<[st_task_id task := task]> (background_tasks s))
   end, st_task_id task).

Definition pop_queue_task (s : Scheduler) (key : string) : Scheduler * option ScheduledTask :=
  match queue_tasks s !! key with
  | Some (t :: q) => (with_queues s (<[key := q]> (queue_tasks s)), Some t)
  | Some [] | None => (s, None)
  end.

Definition peek_queue_task (s : Scheduler) (key : string) : option ScheduledTask :=
  queue_tasks s !! key ≫= head.

Definition queue_length (s : Scheduler) (key : string) : nat :=
  default 0 (length <$> queue_tasks s !! key).

Definition list_queue_tasks (s : Scheduler) (key : string) : list ScheduledTask :=
  default [] (queue_tasks s !! key).

Definition get_background_task (s : Scheduler) (task_id : string) : option ScheduledTask :=
  background_tasks s !! task_id.

Definition update_background_task (s : Scheduler) (task : ScheduledTask) : Scheduler :=
  with_background s (<[st_task_id task := task]> (background_tasks s)).

Definition complete_background_task (s : Scheduler) (task_id : string)
  : Scheduler * result string unit :=
  match background_tasks s !! task_id with
  | Some task =>
      (add_to_history (with_background s (delete task_id (background_tasks s))) task, Ok tt)
  | None => (s, Err ("Background task not found: " +:+ task_id))
  end.

(** [position] and [remove] in one queue. *)
Fixpoint take_task (task_id : string) (q : list ScheduledTask)
  : option (ScheduledTask * list ScheduledTask) :=
  match q with
  | [] => None
  | t :: q' =>
      if bool_decide (st_task_id t = task_id) then Some (t, q')
      else match take_task task_id q' with
           | Some (found, rest) => Some (found, t :: rest)
           | None => None
           end
  end.

(** The first queue, in the order of the visit, that has the task. *)
Fixpoint find_in_queues (task_id : string) (queues : list (string * list ScheduledTask))
  : option (string * ScheduledTask * list ScheduledTask) :=
  match queues with
  | [] => None
  | (key, q) :: queues' =>
      match take_task task_id q with
      | Some (t, rest) => Some (key, t, rest)
      | None => find_in_queues task_id queues'
      end
  end.

Section Visit.
(** The order in which [values_mut] and [values] visit a map. *)
Context (visit : forall {A}, list (string * A) -> list (string * A)).

Definition list_background_tasks (s : Scheduler) : list ScheduledTask :=
  map snd (visit _ (map_to_list (background_tasks s))).

Definition list_background_tasks_for_session (s : Scheduler) (key : string) : list ScheduledTask :=
  filter (fun t => st_session_key t = key) (list_background_tasks s).

Definition cancel_task (s : Scheduler) (now : Z) (task_id : string) : Scheduler * result string unit :=
  match find_in_queues task_id (visit _ (map_to_list (queue_tasks s))) with
  | Some (key, task, rest) =>
      (add_to_history (with_queues s (<[key := rest]> (queue_tasks s))) (mark_cancelled now task), Ok tt)
  | None =>
      match background_tasks s !! task_id with
      | Some task =>
          (add_to_history (with_background s (delete task_id (background_tasks s)))
             (mark_cancelled now task), Ok tt)
      | None => (s, Err ("Task not found: " +:+ task_id))
      end
  end.
End Visit.

(** [now i] is the time at which the task at [i] is marked. *)
Definition clear_queue (s : Scheduler) (now : nat -> Z) (key : string) : Scheduler * nat :=
  match queue_tasks s !! key with
  | Some q =>
      (foldl add_to_history (with_queues s (delete key (queue_tasks s))) (imap (fun i => mark_cancelled (now i)) q),
       length q)
  | None => (s, 0)
  end.

Definition get_history (s : Scheduler) (key : string) (limit : nat) : list ScheduledTask :=
  take limit (rev (default [] (history s !! key))).

(** ** Sequences of calls *)

Inductive Call : Type :=
| CEnqueue (task : ScheduledTask)
| CPop (key : string)
| CUpdateBackground (task : ScheduledTask)
| CCompleteBackground (task_id : string)
| CCancel (now : Z) (task_id : string)
| CClear (now : nat -> Z) (key : string).

(** What happened to tasks: those that entered a queue, were taken from one, were dropped from
    one by a cancellation, and those that ended, in the order of the calls. *)
Record Log : Type := {
  entered : list ScheduledTask;
  taken : list ScheduledTask;
  dropped : list ScheduledTask;
  finished : list ScheduledTask
}.

Definition log_empty : Log := {| entered := []; taken := []; dropped := []; finished := [] |}.

Definition of_session (key : string) (l : list ScheduledTask) : list ScheduledTask :=
  filter (fun t => st_session_key t = key) l.

Section Runs.
Context (visit : forall {A}, list (string * A) -> list (string * A)).
Context (visit_perm : forall A (l : list (string * A)), visit A l ≡ₚ l).

Definition log_call (s : Scheduler) (c : Call) (g : Log) : Log :=
  match c with
  | CEnqueue t =>
      match st_mode t with
      | Queue => {| entered := entered g ++ [t]; taken := taken g; dropped := dropped g;
                    finished := finished g |}
      | Background => g
      end
  | CPop key =>
      {| entered := entered g; taken := taken g ++ option_list (pop_queue_task s key).2;
         dropped := dropped g; finished := finished g |}
  | CUpdateBackground _ => g
  | CCompleteBackground id =>
      {| entered := entered g; taken := taken g; dropped := dropped g;
         finished := finished g ++ option_list (background_tasks s !! id) |}
  | CCancel now id =>
      match find_in_queues id (visit _ (map_to_list (queue_tasks s))) with
      | Some (_, t, _) => {| entered := entered g; taken := taken g; dropped := dropped g ++ [t];
                             finished := finished g ++ [mark_cancelled now t] |}
      | None => {| entered := entered g; taken := taken g; dropped := dropped g;
                   finished := finished g ++ (mark_cancelled now <$> option_list (background_tasks s !! id)) |}
      end
  | CClear now key =>
      {| entered := entered g; taken := taken g; dropped := dropped g ++ queue_of s key;
         finished := finished g ++ imap (fun i => mark_cancelled (now i)) (queue_of s key) |}
  end.

Definition call (s : Scheduler) (c : Call) : Scheduler :=
  match c with
  | CEnqueue t => (enqueue s t).1
  | CPop key => (pop_queue_task s key).1
  | CUpdateBackground t => update_background_task s t
  | CCompleteBackground id => (complete_background_task s id).1
  | CCancel now id => (cancel_task (@visit) s now id).1
  | CClear now key => (clear_queue s now key).1
  end.

Definition run (calls : list Call) : Scheduler * Log :=
  foldl (fun sg c => (call sg.1 c, log_call sg.1 c sg.2)) (scheduler_new, log_empty) calls.

(** ** The history *)

Definition last_hundred (l : list ScheduledTask) : list ScheduledTask :=
  drop (length l - HISTORY_LIMIT) l.

Lemma trim_history_spec h : trim_history h = last_hundred h.
Proof.
  unfold last_hundred. induction h as [|t h IH]; [done|]. cbn [trim_history length].
  case_bool_decide as E.
  - rewrite IH. replace (S (length h) - HISTORY_LIMIT) with (S (length h - HISTORY_LIMIT)) by lia. done.
  - replace (S (length h) - HISTORY_LIMIT) with 0 by lia. done.
Qed.

(** Trimming after every task is trimming once. *)
Lemma last_hundred_snoc l t : last_hundred (last_hundred l ++ [t]) = last_hundred (l ++ [t]).
Proof.
  unfold last_hundred. rewrite !length_app, length_drop. cbn [length].
  assert (1 <= HISTORY_LIMIT) by (unfold HISTORY_LIMIT; lia).
  destruct (decide (length l <= HISTORY_LIMIT)).
  - replace (length l - HISTORY_LIMIT) with 0 by lia. by rewrite drop_0, Nat.sub_0_r.
  - rewrite !drop_app_le by (rewrite ?length_drop; lia). rewrite drop_drop. do 2 f_equal. lia.
Qed.

(** The history of every session is the end of what finished in it. *)
Definition history_ok (s : Scheduler) (f : list ScheduledTask) : Prop :=
  forall key, default [] (history s !! key) = last_hundred (of_session key f).

Lemma of_session_app key l1 l2 : of_session key (l1 ++ l2) = of_session key l1 ++ of_session key l2.
Proof. apply filter_app. Qed.

Lemma add_to_history_ok s f t : history_ok s f -> history_ok (add_to_history s t) (f ++ [t]).
Proof.
  intros Hh key. unfold add_to_history. simpl. rewrite of_session_app. unfold of_session at 2.
  rewrite filter_cons, filter_nil. destruct (decide (st_session_key t = key)) as [<-|Hne].
  - rewrite lookup_insert_eq. simpl. by rewrite Hh, trim_history_spec, last_hundred_snoc.
  - by rewrite lookup_insert_ne, app_nil_r by done.
Qed.

Lemma add_all_ok ts : forall s f,
  history_ok s f -> history_ok (foldl add_to_history s ts) (f ++ ts).
Proof.
  induction ts as [|t ts IH]; intros s f Hh; simpl; [by rewrite app_nil_r|].
  replace (f ++ t :: ts) with ((f ++ [t]) ++ ts) by by rewrite <- app_assoc.
  by apply IH, add_to_history_ok.
Qed.

Lemma add_all_queues ts : forall s,
  queue_tasks (foldl add_to_history s ts) = queue_tasks s.
Proof. induction ts as [|t ts IH]; intros s; simpl; [done|]. by rewrite IH. Qed.

(** ** The queues *)

(** A queue holds tasks of its session; with the tasks taken it is in the order of entry, and
    with the tasks dropped nothing is missing. *)
Definition queue_ok (s : Scheduler) (g : Log) : Prop :=
  forall key, Forall (fun t => st_session_key t = key) (queue_of s key) /\
    (of_session key (taken g) ++ queue_of s key) `sublist_of` of_session key (entered g) /\
    of_session key (taken g) ++ queue_of s key ++ of_session key (dropped g)
      ≡ₚ of_session key (entered g).

Lemma of_session_all key l : Forall (fun t => st_session_key t = key) l -> of_session key l = l.
Proof. intros H. apply filter_every. by apply Forall_forall. Qed.

Lemma of_session_none key key' l :
  key <> key' -> Forall (fun t => st_session_key t = key') l -> of_session key l = [].
Proof.
  intros Hne H. apply filter_none. rewrite Forall_forall in H. intros t Ht Hk.
  rewrite (H t Ht) in Hk. done.
Qed.

Lemma of_session_cons key t l :
  of_session key (t :: l) = (if decide (st_session_key t = key) then [t] else []) ++ of_session key l.
Proof. unfold of_session. rewrite filter_cons. by destruct (decide _). Qed.

Lemma queue_of_insert s key q key' :
  queue_of (with_queues s (<[key := q]> (queue_tasks s))) key'
  = if decide (key = key') then q else queue_of s key'.
Proof.
  unfold queue_of. simpl. destruct (decide (key = key')) as [->|Hne].
  - by rewrite lookup_insert_eq.
  - by rewrite lookup_insert_ne.
Qed.

Lemma take_task_spec id q t rest :
  take_task id q = Some (t, rest) ->
  st_task_id t = id /\ exists l1 l2, q = l1 ++ t :: l2 /\ rest = l1 ++ l2.
Proof.
  revert t rest. induction q as [|u q IH]; intros t rest; simpl; [done|].
  case_bool_decide as E.
  - intros [= -> ->]. split; [done|]. by exists [], rest.
  - destruct (take_task id q) as [[f r]|]; [|done]. intros [= -> <-].
    destruct (IH t r eq_refl) as (Hid & l1 & l2 & -> & ->). split; [done|]. by exists (u :: l1), l2.
Qed.

Lemma find_in_queues_spec id m key t rest :
  find_in_queues id (visit _ (map_to_list m)) = Some (key, t, rest) ->
  exists q l1 l2, m !! key = Some q /\ q = l1 ++ t :: l2 /\ rest = l1 ++ l2.
Proof.
  intros Hf. assert (Hin : exists q, (key, q) ∈ visit _ (map_to_list m) /\
    take_task id q = Some (t, rest)).
  { revert Hf. generalize (visit _ (map_to_list m)). intros l. induction l as [|[k q] l IH]; simpl; [done|].
    destruct (take_task id q) as [[f r]|] eqn:E.
    - intros [= -> -> ->]. exists q. split; [set_solver|done].
    - intros Hf. destruct (IH Hf) as (q' & Hin & Hq). exists q'. split; [set_solver|done]. }
  destruct Hin as (q & Hin & Ht). rewrite visit_perm in Hin. apply elem_of_map_to_list in Hin.
  apply take_task_spec in Ht as (_ & l1 & l2 & Hq & Hr). by exists q, l1, l2.
Qed.

(** Calls that leave queues and their part of the log alone. *)
Lemma queue_ok_same s s' g g' :
  queue_tasks s' = queue_tasks s -> entered g' = entered g -> taken g' = taken g ->
  dropped g' = dropped g -> queue_ok s g -> queue_ok s' g'.
Proof. unfold queue_ok, queue_of. by intros -> -> -> ->. Qed.

(** Dropping a task from the middle of a queue. *)
Lemma queue_ok_drop s g key t l1 l2 f :
  queue_tasks s !! key = Some (l1 ++ t :: l2) -> queue_ok s g ->
  queue_ok (with_queues s (<[key := l1 ++ l2]> (queue_tasks s)))
    {| entered := entered g; taken := taken g; dropped := dropped g ++ [t]; finished := f |}.
Proof.
  intros Hq Ho key'. rewrite queue_of_insert. cbn [entered taken dropped].
  destruct (Ho key') as (Hk & Hs & Hp).
  assert (Htk : st_session_key t = key).
  { destruct (Ho key) as (Hk' & _). unfold queue_of in Hk'. rewrite Hq in Hk'. simpl in Hk'.
    apply Forall_app in Hk' as [_ Hk']. by apply Forall_cons in Hk' as [Hk' _]. }
  rewrite of_session_app, of_session_cons, app_nil_r, Htk. simpl.
  destruct (decide (key = key')) as [<-|Hne]; [|by rewrite app_nil_r].
  unfold queue_of in *. rewrite Hq in *. simpl in *. split; [|split].
  - apply Forall_app in Hk as [H1 H2]. apply Forall_cons in H2 as [_ H2]. by apply Forall_app.
  - etransitivity; [|exact Hs]. apply sublist_app; [done|]. apply sublist_app; [done|].
    by apply sublist_cons.
  - rewrite <- Hp. solve_Permutation.
Qed.

Lemma enqueue_ok s g t : queue_ok s g -> queue_ok (call s (CEnqueue t)) (log_call s (CEnqueue t) g).
Proof.
  intros Ho. unfold call, enqueue, log_call. destruct (st_mode t); [|exact Ho].
  intros key. cbn [fst]. rewrite queue_of_insert. cbn [entered taken dropped].
  rewrite of_session_app, of_session_cons, app_nil_r. destruct (Ho key) as (Hk & Hs & Hp).
  destruct (decide (st_session_key t = key)) as [<-|]; [|by rewrite app_nil_r]. split; [|split].
  - apply Forall_app. by repeat constructor.
  - rewrite app_assoc. by apply sublist_app.
  - rewrite <- Hp. solve_Permutation.
Qed.

Lemma pop_ok s g key : queue_ok s g -> queue_ok (call s (CPop key)) (log_call s (CPop key) g).
Proof.
  intros Ho. unfold call, log_call, pop_queue_task.
  destruct (queue_tasks s !! key) as [[|t q]|] eqn:E; cbn [fst snd option_list];
    [eapply queue_ok_same; [..|exact Ho]; simpl; by rewrite ?app_nil_r| |
     eapply queue_ok_same; [..|exact Ho]; simpl; by rewrite ?app_nil_r].
  intros key'. rewrite queue_of_insert. cbn [entered taken dropped].
  change (option_list (Some t)) with [t].
  rewrite of_session_app, of_session_cons, app_nil_r. destruct (Ho key') as (Hk & Hs & Hp).
  assert (Htk : st_session_key t = key).
  { destruct (Ho key) as (Hk' & _). unfold queue_of in Hk'. rewrite E in Hk'. simpl in Hk'.
    by apply Forall_cons in Hk' as [Hk' _]. }
  rewrite Htk. destruct (decide (key = key')) as [<-|]; [|by rewrite app_nil_r].
  unfold queue_of in *. rewrite E in *. simpl in *. apply Forall_cons in Hk as [_ Hk].
  split; [done|]. rewrite <- !app_assoc. done.
Qed.

Lemma clear_ok s g now key :
  queue_ok s g -> queue_ok (call s (CClear now key)) (log_call s (CClear now key) g).
Proof.
  intros Ho key'. destruct (Ho key') as (Hk & Hs & Hp). cbn [call log_call entered taken dropped].
  rewrite of_session_app. destruct (Ho key) as (Hkey & _ & _).
  assert (Hq : queue_of (clear_queue s now key).1 key'
               = if decide (key = key') then [] else queue_of s key').
  { unfold clear_queue, queue_of. destruct (queue_tasks s !! key) as [q|] eqn:E; simpl.
    - rewrite add_all_queues. simpl. destruct (decide (key = key')) as [->|].
      + by rewrite lookup_delete_eq.
      + by rewrite lookup_delete_ne.
    - destruct (decide (key = key')) as [<-|]; [by rewrite E|done]. }
  rewrite Hq. destruct (decide (key = key')) as [<-|Hne].
  - rewrite (of_session_all key (queue_of s key)) by done. split; [constructor|]. split.
    + rewrite app_nil_r. etransitivity; [|exact Hs]. by apply sublist_inserts_r.
    + rewrite <- Hp. solve_Permutation.
  - rewrite (of_session_none key' key (queue_of s key)) by done. by rewrite app_nil_r.
Qed.

Lemma cancel_ok s g now id :
  queue_ok s g -> queue_ok (call s (CCancel now id)) (log_call s (CCancel now id) g).
Proof.
  intros Ho. unfold call, log_call, cancel_task.
  destruct (find_in_queues _ _) as [[[key t] rest]|] eqn:E.
  - apply find_in_queues_spec in E as (q & l1 & l2 & Hq & -> & ->).
    eapply queue_ok_same; [..|by eapply queue_ok_drop]; done.
  - eapply queue_ok_same; [..|exact Ho]; try done. by destruct (background_tasks s !! id).
Qed.

Lemma call_history s g c :
  history_ok s (finished g) -> history_ok (call s c) (finished (log_call s c g)).
Proof.
  intros Hh. destruct c as [t|key|t|id|now id|now key]; cbn [call log_call].
  - unfold enqueue. by destruct (st_mode t).
  - unfold pop_queue_task. by destruct (queue_tasks s !! key) as [[|]|].
  - done.
  - unfold complete_background_task. destruct (background_tasks s !! id) as [t|]; cbn [fst finished].
    + by apply add_to_history_ok.
    + by rewrite app_nil_r.
  - unfold cancel_task. destruct (find_in_queues _ _) as [[[key t] rest]|]; cbn [fst finished].
    + by apply add_to_history_ok.
    + destruct (background_tasks s !! id) as [t|]; cbn [fst finished].
      * by apply add_to_history_ok.
      * by rewrite app_nil_r.
  - unfold clear_queue, queue_of. destruct (queue_tasks s !! key) as [q|]; cbn [fst finished default].
    + by apply add_all_ok.
    + by rewrite app_nil_r.
Qed.

Lemma run_ok calls : queue_ok (run calls).1 (run calls).2 /\
  history_ok (run calls).1 (finished (run calls).2).
Proof.
  induction calls as [|c calls IH] using rev_ind.
  - split; intros key; [|done]. split; [constructor|]. by split.
  - unfold run. rewrite foldl_app. cbn [foldl fst snd].
    fold (run calls). destruct IH as [Ho Hh]. split; [|by apply call_history].
    destruct c as [t|key|t|id|now id|now key].
    + by apply enqueue_ok.
    + by apply pop_ok.
    + exact Ho.
    + eapply queue_ok_same; [..|exact Ho]; try done. cbn [call]. unfold complete_background_task.
      by destruct (background_tasks _ !! id).
    + by apply cancel_ok.
    + by apply clear_ok.
Qed.

(** Whatever calls a scheduler has served, and in whatever order its maps are visited: the
    tasks taken from the queue of a session, followed by those in it, are in the order in
    which they entered; with the cancelled ones they are all that entered, each as often;
    and the history of a session is the last hundred of its background tasks that completed
    and of its tasks that were cancelled, in order. *)
Theorem queues_are_fifo calls key :
  let s := (run calls).1 in
  let g := (run calls).2 in
  (of_session key (taken g) ++ list_queue_tasks s key) `sublist_of` of_session key (entered g) /\
  of_session key (taken g) ++ list_queue_tasks s key ++ of_session key (dropped g)
    ≡ₚ of_session key (entered g) /\
  peek_queue_task s key = head (list_queue_tasks s key) /\
  get_history s key HISTORY_LIMIT = rev (last_hundred (of_session key (finished g))).
Proof.
  intros s g. destruct (run_ok calls) as [Ho Hh]. destruct (Ho key) as (_ & Hs & Hp).
  split; [exact Hs|]. split; [exact Hp|]. split.
  - unfold peek_queue_task, list_queue_tasks. by destruct (queue_tasks s !! key).
  - unfold get_history, s, g. rewrite (Hh key). apply take_ge. rewrite length_rev. unfold last_hundred.
    rewrite length_drop. lia.
Qed.
End Runs.

(** ** Examples *)

Definition ex_task (mode : TaskMode) (uuid : string) : ScheduledTask :=
  scheduled_task_new 1700000000 uuid "session-1" "prompt" mode.

Definition ex_calls : list Call :=
  [CEnqueue (ex_task Queue "aaaaaaaa"); CEnqueue (with_priority (ex_task Queue "bbbbbbbb") PUrgent);
   CEnqueue (ex_task Queue "cccccccc"); CPop "session-1"; CCancel 5 "q_1700000000_cccccccc"].

(** The urgent task waits behind the normal one. *)
Example priority_is_ignored :
  let s := (run (fun _ l => l) (take 3 ex_calls)).1 in
  (st_task_id <$> peek_queue_task s "session-1") = Some "q_1700000000_aaaaaaaa".
Proof. vm_compute. reflexivity. Qed.

(** The task that was taken is in no list any more; only the cancelled one has a history. *)
Example taken_task_leaves_no_trace :
  let s := (run (fun _ l => l) ex_calls).1 in
  map st_task_id (list_queue_tasks s "session-1") = ["q_1700000000_bbbbbbbb"] /\
  map st_task_id (get_history s "session-1" 100) = ["q_1700000000_cccccccc"] /\
  cancel_task (fun _ l => l) s 9 "q_1700000000_aaaaaaaa"
    = (s, Err "Task not found: q_1700000000_aaaaaaaa").
Proof. vm_compute. done. Qed.

Lemma queues_are_fifo_witness :
  let s := (run (fun _ l => l) ex_calls).1 in
  let g := (run (fun _ l => l) ex_calls).2 in
  (of_session "session-1" (taken g) ++ list_queue_tasks s "session-1")
    `sublist_of` of_session "session-1" (entered g) /\ length (entered g) = 3%nat.
Proof.
  destruct (queues_are_fifo (fun _ l => l) (fun A l => reflexivity l) ex_calls "session-1") as (H & _).
  split; [exact H|reflexivity].
Defined.
