(* ===== verification/Promotion.v ===== *)
(** * Promotion of self-made changes ([crates/zaion-evolve/src/promotion.rs])

    A change that the agent proposes to itself becomes stable through a chain of signed
    records: proposed, ready to be rolled back, promoted, on probation, confirmed stable or
    rolled back.  The chain is a file of JSON lines; it is modelled as the list of what the
    derived decoder makes of its non-blank lines, [None] for a line that does not parse.  The
    texts that are signed and hashed are the derived encoders', which are parameters.
    Clock readings are arguments, in the order in which a call takes them; the failures of
    the file system are left out. *)

From stdpp Require Import prelude strings list.
From S2P Require Import Prelude.
From S2P Require Import Env.
From S2P Require Import Database.
From S2P Require Import Ledger.
Local Open Scope res_scope.
Local Open Scope Z_scope.

(** ** Data *)

Inductive PromotionModule : Type := Opd | Evolve.
#[global] Instance promotion_module_eq_dec : EqDecision PromotionModule.
Proof. solve_decision. Defined.

Inductive PromotionStatus : Type :=
| ExperimentalNotPromoted
| Proposed
| Promoted
| Probation
| ConfirmedStable
| RollbackReady
| RolledBack.
#[global] Instance promotion_status_eq_dec : EqDecision PromotionStatus.
Proof. solve_decision. Defined.

Inductive EvidenceKind : Type :=
| OpdRunManifest
| BenchmarkComparisonReport
| MandatoryTestMatrixReport
| TestOutput
| OwnerApprovalEvidence
| OtherEvidence.
#[global] Instance evidence_kind_eq_dec : EqDecision EvidenceKind.
Proof. solve_decision. Defined.

Record EvidenceHash : Type := {
  eh_kind : EvidenceKind;
  eh_path : string;
  eh_sha256 : string;
  eh_description : string
}.

Record RollbackPlan : Type := {
  rp_strategy : string;
  rp_disable_flag : option string;
  rp_git_event_id : option string;
  rp_verification_commands : list string;
  rp_manual_steps : list string
}.

Record ProbationMetadata : Type := {
  pm_probation : bool;
  pm_promotion_record_id : string;
  pm_rollback_target : string;
  pm_required_observation_turns : Z;
  pm_observed_turns : Z;
  pm_started_at : string;
  pm_anomaly_level : option Z;
  pm_anomaly_reason : option string
}.

Record PromotionProposal : Type := {
  pp_schema_version : Z;
  pp_proposal_id : string;
  pp_module : PromotionModule;
  pp_status : PromotionStatus;
  pp_change_summary : string;
  pp_risk_summary : string;
  pp_evidence_hashes : list EvidenceHash;
  pp_rollback_plan : option RollbackPlan;
  pp_probation : option ProbationMetadata;
  pp_remaining_blockers : list string;
  pp_created_at : string;
  pp_principal_id : string
}.

(** [OwnerApproval]; its decision has one value. *)
Record OwnerApproval : Type := {
  oa_schema_version : Z;
  oa_proposal_id : string;
  oa_module : PromotionModule;
  oa_approver : string;
  oa_reason : string;
  oa_approved_at : string;
  oa_principal_id : string
}.

Record PromotionSignature : Type := {
  ps_scheme : string;
  ps_public_key : string;
  ps_signature : string;
  ps_content_hash : string;
  ps_signed_at : string
}.

Record OwnerApprovalArtifact : Type := {
  ar_approval : OwnerApproval;
  ar_signature : PromotionSignature
}.

Record SignedPromotionRecord : Type := {
  sr_proposal : PromotionProposal;
  sr_signature : PromotionSignature;
  sr_prev_record_hash : option string;
  sr_record_hash : string
}.

Record VerifiedOwnerApproval : Type := {
  va_proposal_id : string;
  va_module : PromotionModule;
  va_principal_id : string;
  va_content_hash : string
}.

Record VerifiedPromotionRecord : Type := {
  vr_proposal_id : string;
  vr_status : PromotionStatus;
  vr_record_hash : string
}.

(** [EvolveError]: a message of the code, a signature that does not verify, or a line of the
    chain that does not parse. *)
Inductive EvolveError : Type :=
| Codex (message : string)
| SignatureFailed
| JsonError.

(** ** The gate *)

Definition blank (s : string) : bool := bool_decide (str_trim s = EmptyString).

Definition is_ascii_hexdigit (a : Ascii.ascii) : bool :=
  let n := Ascii.N_of_ascii a in
  in_range 48 57 n || in_range 65 70 n || in_range 97 102 n.

Definition check_evidence (e : EvidenceHash) : result EvolveError unit :=
  guard? bool_decide (str_len (eh_sha256 e) = 64) && str_all is_ascii_hexdigit (eh_sha256 e)
    else Codex "evidence sha256 must be 64 hex chars" in
  guard? negb (blank (eh_path e)) else Codex "evidence path must not be empty" in
  Ok tt.

Fixpoint check_all_evidence (es : list EvidenceHash) : result EvolveError unit :=
  match es with
  | [] => Ok tt
  | e :: es' => let? _ := check_evidence e in check_all_evidence es'
  end.

Definition has_kind (k : EvidenceKind) (p : PromotionProposal) : bool :=
  existsb (fun e => bool_decide (eh_kind e = k)) (pp_evidence_hashes p).

(** [matches!(self.status, ...)] *)
Definition status_in (l : list PromotionStatus) (s : PromotionStatus) : bool := bool_decide (s ∈ l).

Definition validate_gate (p : PromotionProposal) : result EvolveError unit :=
  guard? bool_decide (pp_schema_version p = 1) else Codex "promotion schema_version must be 1" in
  guard? negb (blank (pp_proposal_id p)) else Codex "proposal_id must not be empty" in
  guard? negb (blank (pp_change_summary p)) else Codex "change_summary must not be empty" in
  guard? negb (blank (pp_risk_summary p)) else Codex "risk_summary must not be empty" in
  guard? negb (bool_decide (length (pp_evidence_hashes p) = 0%nat))
    else Codex "at least one evidence hash is required" in
  let? _ := check_all_evidence (pp_evidence_hashes p) in
  guard? negb (status_in [Proposed; Promoted; Probation; ConfirmedStable; RollbackReady; RolledBack]
                 (pp_status p)) || has_kind MandatoryTestMatrixReport p
    else Codex "mandatory test matrix report evidence is required" in
  let has_owner_approval := has_kind OwnerApprovalEvidence p in
  let? plan := ok_or (pp_rollback_plan p) (Codex "rollback plan is required") in
  guard? negb (blank (rp_strategy plan)) else Codex "rollback plan strategy is required" in
  guard? negb (bool_decide (length (rp_verification_commands plan) = 0%nat))
    else Codex "rollback plan verification_commands are required" in
  let no_blockers := bool_decide (length (pp_remaining_blockers p) = 0%nat) in
  if status_in [Promoted; Probation; ConfirmedStable] (pp_status p) then
    guard? has_owner_approval
      else Codex "owner approval evidence is required before final promotion" in
    guard? no_blockers
      else Codex "remaining blockers must be resolved before final promotion" in
    guard? negb (status_in [Probation; ConfirmedStable] (pp_status p) && opt_is_none (pp_probation p))
      else Codex "probation metadata is required after promotion" in
    Ok tt
  else if bool_decide (pp_status p = RolledBack) then
    guard? negb no_blockers else Codex "rollback blocker must stay visible" in
    Ok tt
  else
    guard? negb no_blockers else Codex "remaining blockers must stay visible" in
    guard? has_owner_approval
           || existsb (fun b => str_contains "owner approval" (to_ascii_lowercase b))
                (pp_remaining_blockers p)
      else Codex "owner approval blocker must stay visible until owner approval evidence exists" in
    Ok tt.

(** ** Signed records *)

(** [serde_json::to_vec] of a proposal, of an approval, and of the payload of a record hash. *)
Class PromotionText : Type := {
  proposal_text : PromotionProposal -> string;
  approval_text : OwnerApproval -> string;
  record_text : PromotionProposal -> PromotionSignature -> option string -> string
}.

(** The chain: the non-blank lines of the file. *)
Notation PromotionChain := (list (option SignedPromotionRecord)).

Section Records.
Context `{Env} `{PromotionText}.

Definition sha256_hex (bytes : string) : string := hex_encode (sha256 bytes).

Definition compute_record_hash (p : PromotionProposal) (s : PromotionSignature)
    (prev : option string) : string := sha256_hex (record_text p s prev).

Definition PROMOTION_SCHEME : string := "ed25519-promotion-v1".
Definition APPROVAL_SCHEME : string := "ed25519-owner-approval-v1".

(** The signature of a text; [now] is the time of signing. *)
Definition sign_text (scheme text now : string) (keypair : ZaionKeypair) : PromotionSignature :=
  {| ps_scheme := scheme; ps_public_key := public_key_bytes keypair;
     ps_signature := sign keypair text; ps_content_hash := sha256_hex text; ps_signed_at := now |}.

(** [SignedPromotionRecord::sign] *)
Definition sign_record (now : string) (p : PromotionProposal) (keypair : ZaionKeypair)
    (prev : option string) : result EvolveError SignedPromotionRecord :=
  let? _ := validate_gate p in
  let s := sign_text PROMOTION_SCHEME (proposal_text p) now keypair in
  Ok {| sr_proposal := p; sr_signature := s; sr_prev_record_hash := prev;
        sr_record_hash := compute_record_hash p s prev |}.

(** The checks that [verify] of a record and of an approval share. *)
Definition verify_text (scheme unsupported mismatch principal text : string)
    (s : PromotionSignature) : result EvolveError unit :=
  guard? bool_decide (ps_scheme s = scheme) else Codex unsupported in
  guard? bool_decide (principal_id_from_public_key (ps_public_key s) = principal)
    else Codex mismatch in
  guard? bool_decide (sha256_hex text = ps_content_hash s) else Codex "content hash mismatch" in
  match verify_signature (ps_public_key s) text (ps_signature s) with
  | Ok _ => Ok tt
  | Err _ => Err SignatureFailed
  end.

(** [SignedPromotionRecord::verify] *)
Definition verify_record (r : SignedPromotionRecord) : result EvolveError VerifiedPromotionRecord :=
  let p := sr_proposal r in
  let? _ := validate_gate p in
  let? _ := verify_text PROMOTION_SCHEME "unsupported promotion signature scheme"
              "promotion principal does not match signing key" (pp_principal_id p)
              (proposal_text p) (sr_signature r) in
  guard? bool_decide (compute_record_hash p (sr_signature r) (sr_prev_record_hash r) = sr_record_hash r)
    else Codex "record hash mismatch" in
  Ok {| vr_proposal_id := pp_proposal_id p; vr_status := pp_status p;
        vr_record_hash := sr_record_hash r |}.

(** ** Owner approvals *)

Definition validate_owner_approval (a : OwnerApproval) : result EvolveError unit :=
  guard? bool_decide (oa_schema_version a = 1) else Codex "owner approval schema_version must be 1" in
  guard? negb (blank (oa_proposal_id a)) else Codex "owner approval proposal_id must not be empty" in
  guard? negb (blank (oa_approver a)) else Codex "owner approval approver must not be empty" in
  guard? negb (blank (oa_reason a)) else Codex "owner approval reason must not be empty" in
  guard? negb (blank (oa_principal_id a)) else Codex "owner approval principal_id must not be empty" in
  Ok tt.

Definition approve (now proposal_id : string) (module : PromotionModule) (approver reason : string)
    (keypair : ZaionKeypair) : result EvolveError OwnerApprovalArtifact :=
  let approval := {| oa_schema_version := 1; oa_proposal_id := proposal_id; oa_module := module;
                     oa_approver := approver; oa_reason := reason; oa_approved_at := now;
                     oa_principal_id := principal_id keypair |} in
  let? _ := validate_owner_approval approval in
  Ok {| ar_approval := approval;
        ar_signature := sign_text APPROVAL_SCHEME (approval_text approval) now keypair |}.

Definition verify_approval (a : OwnerApprovalArtifact) : result EvolveError VerifiedOwnerApproval :=
  let? _ := validate_owner_approval (ar_approval a) in
  let? _ := verify_text APPROVAL_SCHEME "unsupported owner approval signature scheme"
              "owner approval principal does not match signing key" (oa_principal_id (ar_approval a))
              (approval_text (ar_approval a)) (ar_signature a) in
  Ok {| va_proposal_id := oa_proposal_id (ar_approval a); va_module := oa_module (ar_approval a);
        va_principal_id := oa_principal_id (ar_approval a);
        va_content_hash := ps_content_hash (ar_signature a) |}.

Definition ensure_matches (a : OwnerApprovalArtifact) (proposal_id : string) (module : PromotionModule)
  : result EvolveError VerifiedOwnerApproval :=
  let? verified := verify_approval a in
  guard? bool_decide (va_proposal_id verified = proposal_id)
    else Codex ("owner approval proposal_id '" +:+ va_proposal_id verified
                +:+ "' does not match proposal '" +:+ proposal_id +:+ "'") in
  guard? bool_decide (va_module verified = module)
    else Codex "owner approval module does not match proposal module" in
  Ok verified.

(** ** The chain *)

Definition list_records (c : PromotionChain) : result EvolveError (list SignedPromotionRecord) :=
  collect_map (fun line => ok_or line JsonError) c.

Definition append_record (c : PromotionChain) (r : SignedPromotionRecord) : PromotionChain :=
  c ++ [Some r].

Definition last_hash (records : list SignedPromotionRecord) : option string :=
  sr_record_hash <$> last records.

Definition latest_record_hash (c : PromotionChain) : result EvolveError (option string) :=
  let? records := list_records c in
  Ok (last_hash records).

Fixpoint verify_loop (previous : option string) (records : list SignedPromotionRecord)
  : result EvolveError (list VerifiedPromotionRecord) :=
  match records with
  | [] => Ok []
  | r :: records' =>
      guard? bool_decide (sr_prev_record_hash r = previous) else Codex "prev_record_hash chain mismatch" in
      let? v := verify_record r in
      let? vs := verify_loop (Some (sr_record_hash r)) records' in
      Ok (v :: vs)
  end.

Definition verify_all (c : PromotionChain) : result EvolveError (list VerifiedPromotionRecord) :=
  let? records := list_records c in
  verify_loop None records.

Definition latest_verified_record (c : PromotionChain)
  : result EvolveError (option VerifiedPromotionRecord) :=
  let? verified := verify_all c in
  Ok (last verified).

(** A call that computes a record from the chain and appends it. *)
Definition appending (c : PromotionChain) (r : result EvolveError SignedPromotionRecord)
  : PromotionChain * result EvolveError SignedPromotionRecord :=
  match r with
  | Ok record => (append_record c record, Ok record)
  | Err e => (c, Err e)
  end.

Definition append_signed (c : PromotionChain) (now : string) (p : PromotionProposal)
    (keypair : ZaionKeypair) : PromotionChain * result EvolveError SignedPromotionRecord :=
  appending c (let? prev := latest_record_hash c in sign_record now p keypair prev).

Definition of_proposal (id : string) (status : PromotionStatus) (r : SignedPromotionRecord) : bool :=
  bool_decide (pp_proposal_id (sr_proposal r) = id) && bool_decide (pp_status (sr_proposal r) = status).

Definition is_final_transition_blocker (blocker : string) : bool :=
  str_contains "final signed promotion transition" (to_ascii_lowercase blocker).

(** The proposal with the status, the time and the principal of a transition. *)
Definition with_transition (p : PromotionProposal) (status : PromotionStatus) (now principal : string)
    (blockers : list string) (probation : option ProbationMetadata) : PromotionProposal :=
  {| pp_schema_version := pp_schema_version p; pp_proposal_id := pp_proposal_id p;
     pp_module := pp_module p; pp_status := status; pp_change_summary := pp_change_summary p;
     pp_risk_summary := pp_risk_summary p; pp_evidence_hashes := pp_evidence_hashes p;
     pp_rollback_plan := pp_rollback_plan p; pp_probation := probation;
     pp_remaining_blockers := blockers; pp_created_at := now; pp_principal_id := principal |}.

Definition ROLLBACK_BLOCKER : string :=
  "promotion rollback recorded; stable use is blocked until a new signed proposal".

(** The record of [append_transition]; [now] is when it is made, [signed] when it is signed. *)
Definition transition_record (records : list SignedPromotionRecord) (now signed proposal_id : string)
    (status : PromotionStatus) (keypair : ZaionKeypair) : result EvolveError SignedPromotionRecord :=
  let? proposed := ok_or (find (of_proposal proposal_id Proposed) records)
    (Codex ("no proposed record found for promotion proposal '" +:+ proposal_id +:+ "'")) in
  let p := sr_proposal proposed in
  let rollback_ready := existsb (of_proposal proposal_id RollbackReady) records in
  let? _ :=
    (if bool_decide (status = Promoted) then
       guard? has_kind OwnerApprovalEvidence p
         else Codex "owner approval evidence is required before final promotion" in
       guard? forallb is_final_transition_blocker (pp_remaining_blockers p)
         else Codex "remaining blockers must be resolved before final promotion" in
       guard? rollback_ready
         else Codex ("rollback-ready record is required before promoting proposal '"
                     +:+ proposal_id +:+ "'") in
       Ok tt
     else Ok tt) in
  guard? negb (bool_decide (status = RolledBack)) || rollback_ready
    else Codex ("rollback-ready record is required before rolling back promotion proposal '"
                +:+ proposal_id +:+ "'") in
  let blockers := if bool_decide (status = Promoted) then []
                  else if bool_decide (status = RolledBack) then [ROLLBACK_BLOCKER]
                  else pp_remaining_blockers p in
  sign_record signed (with_transition p status now (principal_id keypair) blockers (pp_probation p))
    keypair (last_hash records).

Definition append_transition (c : PromotionChain) (now signed proposal_id : string)
    (status : PromotionStatus) (keypair : ZaionKeypair)
  : PromotionChain * result EvolveError SignedPromotionRecord :=
  appending c (let? records := list_records c in
               transition_record records now signed proposal_id status keypair).

Definition append_rollback_ready (c : PromotionChain) (now signed proposal_id : string)
    (keypair : ZaionKeypair) : PromotionChain * result EvolveError SignedPromotionRecord :=
  append_transition c now signed proposal_id RollbackReady keypair.

Definition append_rolled_back (c : PromotionChain) (now signed proposal_id : string)
    (keypair : ZaionKeypair) : PromotionChain * result EvolveError SignedPromotionRecord :=
  append_transition c now signed proposal_id RolledBack keypair.

Definition REQUIRED_OBSERVATION_TURNS : Z := 3.

Definition append_probation_for_promoted (c : PromotionChain) (now started signed : string)
    (promoted : SignedPromotionRecord) (keypair : ZaionKeypair)
  : PromotionChain * result EvolveError SignedPromotionRecord :=
  let metadata :=
    {| pm_probation := true; pm_promotion_record_id := sr_record_hash promoted;
       pm_rollback_target := pp_proposal_id (sr_proposal promoted);
       pm_required_observation_turns := REQUIRED_OBSERVATION_TURNS; pm_observed_turns := 0;
       pm_started_at := started; pm_anomaly_level := None; pm_anomaly_reason := None |} in
  appending c
    (sign_record signed
       (with_transition (sr_proposal promoted) Probation now (principal_id keypair) [] (Some metadata))
       keypair (Some (sr_record_hash promoted))).

(** The clock readings of a call. *)
Record Times : Type := { t1 : string; t2 : string; t3 : string; t4 : string; t5 : string }.

Definition append_promoted (c : PromotionChain) (t : Times) (proposal_id : string)
    (keypair : ZaionKeypair) : PromotionChain * result EvolveError SignedPromotionRecord :=
  match append_transition c (t1 t) (t2 t) proposal_id Promoted keypair with
  | (c', Ok promoted) => append_probation_for_promoted c' (t3 t) (t4 t) (t5 t) promoted keypair
  | (c', Err e) => (c', Err e)
  end.

Definition with_anomaly (level : Z) (reason : string) (m : ProbationMetadata) : ProbationMetadata :=
  {| pm_probation := false; pm_promotion_record_id := pm_promotion_record_id m;
     pm_rollback_target := pm_rollback_target m;
     pm_required_observation_turns := pm_required_observation_turns m;
     pm_observed_turns := pm_observed_turns m; pm_started_at := pm_started_at m;
     pm_anomaly_level := Some level; pm_anomaly_reason := Some reason |}.

Definition append_probation_auto_rollback (c : PromotionChain) (t : Times) (proposal_id : string)
    (anomaly_level : Z) (reason : string) (keypair : ZaionKeypair)
  : PromotionChain * result EvolveError SignedPromotionRecord :=
  if bool_decide (anomaly_level < 3)
  then (c, Err (Codex "probation auto-rollback requires Level 3 or higher anomaly")) else
  match list_records c with
  | Err e => (c, Err e)
  | Ok records =>
      match find (fun r => bool_decide (pp_proposal_id (sr_proposal r) = proposal_id)) (rev records) with
      | None => (c, Err (Codex ("no promotion record found for proposal '" +:+ proposal_id +:+ "'")))
      | Some latest =>
          if negb (bool_decide (pp_status (sr_proposal latest) = Probation))
          then (c, Err (Codex "probation auto-rollback requires latest status Probation")) else
          let ready := if existsb (of_proposal proposal_id RollbackReady) records then (c, Ok tt)
                       else match append_transition c (t1 t) (t2 t) proposal_id RollbackReady keypair with
                            | (c', Ok _) => (c', Ok tt)
                            | (c', Err e) => (c', Err e)
                            end in
          match ready with
          | (c', Err e) => (c', Err e)
          | (c', Ok _) =>
              let p := sr_proposal latest in
              let blocker := "Level " +:+ z_to_string anomaly_level
                             +:+ " probation anomaly triggered automatic rollback: " +:+ reason in
              appending c'
                (let? prev := latest_record_hash c' in
                 sign_record (t4 t)
                   (with_transition p RolledBack (t3 t) (principal_id keypair) [blocker]
                      (with_anomaly anomaly_level reason <$> pp_probation p))
                   keypair prev)
          end
      end
  end.

Definition observed (turns : Z) (m : ProbationMetadata) : ProbationMetadata :=
  {| pm_probation := false; pm_promotion_record_id := pm_promotion_record_id m;
     pm_rollback_target := pm_rollback_target m;
     pm_required_observation_turns := pm_required_observation_turns m;
     pm_observed_turns := turns; pm_started_at := pm_started_at m;
     pm_anomaly_level := None; pm_anomaly_reason := None |}.

(** The record of [append_confirmed_stable]. *)
Definition confirmed_record (c : PromotionChain) (now signed proposal_id : string)
    (observed_turns : Z) (keypair : ZaionKeypair) : result EvolveError SignedPromotionRecord :=
  let? _ := verify_all c in
  let? records := list_records c in
  let? latest := ok_or (last records)
    (Codex ("no probation record found for promotion proposal '" +:+ proposal_id +:+ "'")) in
  let p := sr_proposal latest in
  guard? bool_decide (pp_proposal_id p = proposal_id)
    else Codex ("confirmed stable probation exit requires proposal '" +:+ proposal_id
                +:+ "' to be the latest verified record") in
  guard? bool_decide (pp_status p = Probation)
    else Codex "confirmed stable probation exit requires latest status Probation" in
  let? probation := ok_or (pp_probation p)
    (Codex "probation metadata is required before confirmed stable exit") in
  guard? negb (opt_is_some (pm_anomaly_level probation) || opt_is_some (pm_anomaly_reason probation))
    else Codex "confirmed stable probation exit requires no probation anomalies" in
  guard? bool_decide (pm_required_observation_turns probation <= observed_turns)
    else Codex "observed_turns must meet required_observation_turns" in
  sign_record signed
    (with_transition p ConfirmedStable now (principal_id keypair) []
       (observed observed_turns <$> pp_probation p))
    keypair (Some (sr_record_hash latest)).

Definition append_confirmed_stable (c : PromotionChain) (now signed proposal_id : string)
    (observed_turns : Z) (keypair : ZaionKeypair)
  : PromotionChain * result EvolveError SignedPromotionRecord :=
  appending c (confirmed_record c now signed proposal_id observed_turns keypair).
End Records.

(** ** The evidence report *)

(** [format!("{:?}", kind)], [format!("{:?}", status)] *)
Definition kind_debug (k : EvidenceKind) : string :=
  match k with
  | OpdRunManifest => "OpdRunManifest"
  | BenchmarkComparisonReport => "BenchmarkComparisonReport"
  | MandatoryTestMatrixReport => "MandatoryTestMatrixReport"
  | TestOutput => "TestOutput"
  | OwnerApprovalEvidence => "OwnerApproval"
  | OtherEvidence => "Other"
  end.

Definition status_debug (s : PromotionStatus) : string :=
  match s with
  | ExperimentalNotPromoted => "ExperimentalNotPromoted"
  | Proposed => "Proposed"
  | Promoted => "Promoted"
  | Probation => "Probation"
  | ConfirmedStable => "ConfirmedStable"
  | RollbackReady => "RollbackReady"
  | RolledBack => "RolledBack"
  end.

Definition promotion_state_label (s : PromotionStatus) : string :=
  match s with
  | ExperimentalNotPromoted => "not_promoted"
  | Proposed => "not_promoted"
  | RollbackReady => "rollback_ready"
  | Promoted => "promoted_transition"
  | Probation => "promoted_probation"
  | ConfirmedStable => "confirmed_stable"
  | RolledBack => "rolled_back"
  end.

Record PromotionStageMatrixRow : Type := {
  sg_index : nat;
  sg_proposal_id : string;
  sg_status : string;
  sg_record_hash : string;
  sg_prev_record_hash : option string;
  sg_principal_id : string;
  sg_signature_scheme : string;
  sg_content_hash : string;
  sg_evidence_kinds : list string;
  sg_has_mandatory_test_matrix : bool;
  sg_has_owner_approval : bool;
  sg_rollback_plan_present : bool;
  sg_remaining_blockers : list string;
  sg_probation_active : bool;
  sg_required_observation_turns : option Z;
  sg_observed_turns : option Z;
  sg_anomaly_level : option Z;
  sg_anomaly_reason : option string
}.

Record PromotionGateMatrixRow : Type := {
  gt_gate : string;
  gt_passed : bool;
  gt_evidence : list string;
  gt_blocker : option string
}.

Record PromotionEvidenceKindMatrixRow : Type := {
  ek_kind : string;
  ek_count : nat;
  ek_paths : list string;
  ek_sha256s : list string;
  ek_descriptions : list string
}.

Record PromotionEvidenceMatrixReport : Type := {
  mr_schema : string;
  mr_chain_path : string;
  mr_chain_verified : bool;
  mr_verifier_error : option string;
  mr_record_count : nat;
  mr_latest_state : string;
  mr_promoted : bool;
  mr_quality_gate_passed : bool;
  mr_source_record_hashes : list string;
  mr_stage_matrix : list PromotionStageMatrixRow;
  mr_gate_matrix : list PromotionGateMatrixRow;
  mr_evidence_kind_matrix : list PromotionEvidenceKindMatrixRow;
  mr_evidence_hash : string;
  mr_report_path : string
}.

Definition promotion_stage_matrix_row (index : nat) (r : SignedPromotionRecord)
  : PromotionStageMatrixRow :=
  let p := sr_proposal r in
  {| sg_index := index; sg_proposal_id := pp_proposal_id p; sg_status := status_debug (pp_status p);
     sg_record_hash := sr_record_hash r; sg_prev_record_hash := sr_prev_record_hash r;
     sg_principal_id := pp_principal_id p; sg_signature_scheme := ps_scheme (sr_signature r);
     sg_content_hash := ps_content_hash (sr_signature r);
     sg_evidence_kinds := map (fun e => kind_debug (eh_kind e)) (pp_evidence_hashes p);
     sg_has_mandatory_test_matrix := has_kind MandatoryTestMatrixReport p;
     sg_has_owner_approval := has_kind OwnerApprovalEvidence p;
     sg_rollback_plan_present := opt_is_some (pp_rollback_plan p);
     sg_remaining_blockers := pp_remaining_blockers p;
     sg_probation_active := default false (pm_probation <$> pp_probation p);
     sg_required_observation_turns := pm_required_observation_turns <$> pp_probation p;
     sg_observed_turns := pm_observed_turns <$> pp_probation p;
     sg_anomaly_level := pp_probation p ≫= pm_anomaly_level;
     sg_anomaly_reason := pp_probation p ≫= pm_anomaly_reason |}.

Definition promotion_gate_row (gate : string) (passed : bool) (evidence : list string)
    (blocker : string) : PromotionGateMatrixRow :=
  {| gt_gate := gate; gt_passed := passed; gt_evidence := evidence;
     gt_blocker := if passed then None else Some blocker |}.

Definition all_evidence (records : list SignedPromotionRecord) : list EvidenceHash :=
  concat (map (fun r => pp_evidence_hashes (sr_proposal r)) records).

Definition evidence_paths_for_kind (records : list SignedPromotionRecord) (k : EvidenceKind)
  : list string := map eh_path (filter (fun e => eh_kind e = k) (all_evidence records)).

Definition record_hashes_for_status (records : list SignedPromotionRecord) (s : PromotionStatus)
  : list string :=
  map sr_record_hash (filter (fun r => pp_status (sr_proposal r) = s) records).

Definition has_full_evidence (k : EvidenceKind) (records : list SignedPromotionRecord) : bool :=
  existsb (fun e => bool_decide (eh_kind e = k) && bool_decide (str_len (eh_sha256 e) = 64))
    (all_evidence records).

Definition has_status (s : PromotionStatus) (records : list SignedPromotionRecord) : bool :=
  existsb (fun r => bool_decide (pp_status (sr_proposal r) = s)) records.

Definition promotion_gate_matrix (chain_verified : bool) (records : list SignedPromotionRecord)
    (latest_state : string) : list PromotionGateMatrixRow :=
  [promotion_gate_row "signed_chain_verified" chain_verified (map sr_record_hash records)
     "promotion chain signatures and prev_record_hash lineage must verify";
   promotion_gate_row "mandatory_test_matrix" (has_full_evidence MandatoryTestMatrixReport records)
     (evidence_paths_for_kind records MandatoryTestMatrixReport)
     "mandatory test matrix report evidence is required";
   promotion_gate_row "rollback_ready" (has_status RollbackReady records)
     (record_hashes_for_status records RollbackReady)
     "rollback-ready signed record must exist before promotion";
   promotion_gate_row "owner_approval" (has_full_evidence OwnerApprovalEvidence records)
     (evidence_paths_for_kind records OwnerApprovalEvidence)
     "signed owner approval evidence is required before final promotion";
   promotion_gate_row "promoted_transition" (has_status Promoted records)
     (record_hashes_for_status records Promoted) "final signed Promoted transition must exist";
   promotion_gate_row "probation_record"
     (existsb (fun r => bool_decide (pp_status (sr_proposal r) = Probation)
                        && opt_is_some (pp_probation (sr_proposal r))) records)
     (record_hashes_for_status records Probation)
     "signed probation metadata is required after promotion";
   promotion_gate_row "confirmed_stable_latest_state" (bool_decide (latest_state = "confirmed_stable"))
     (record_hashes_for_status records ConfirmedStable)
     "latest verified chain state must be ConfirmedStable"].

(** One row per kind that occurs, in the order of a [BTreeMap] over the names. *)
Definition kind_row (evidence : list EvidenceHash) (kind : string) : PromotionEvidenceKindMatrixRow :=
  let es := filter (fun e => kind_debug (eh_kind e) = kind) evidence in
  {| ek_kind := kind; ek_count := length es; ek_paths := map eh_path es;
     ek_sha256s := map eh_sha256 es; ek_descriptions := map eh_description es |}.

Definition promotion_evidence_kind_matrix (records : list SignedPromotionRecord)
  : list PromotionEvidenceKindMatrixRow :=
  let evidence := all_evidence records in
  map (kind_row evidence)
    (filter (fun k => k ∈ map (fun e => kind_debug (eh_kind e)) evidence)
       ["BenchmarkComparisonReport"; "MandatoryTestMatrixReport"; "OpdRunManifest"; "Other";
        "OwnerApproval"; "TestOutput"]).

Section Report.
(** The text of a report and of an error. *)
Context `{Env} `{PromotionText}.
Context (report_text : PromotionEvidenceMatrixReport -> string) (error_text : EvolveError -> string).

Definition with_report_hash (hash : string) (path : string) (r : PromotionEvidenceMatrixReport)
  : PromotionEvidenceMatrixReport :=
  {| mr_schema := mr_schema r; mr_chain_path := mr_chain_path r;
     mr_chain_verified := mr_chain_verified r; mr_verifier_error := mr_verifier_error r;
     mr_record_count := mr_record_count r; mr_latest_state := mr_latest_state r;
     mr_promoted := mr_promoted r; mr_quality_gate_passed := mr_quality_gate_passed r;
     mr_source_record_hashes := mr_source_record_hashes r; mr_stage_matrix := mr_stage_matrix r;
     mr_gate_matrix := mr_gate_matrix r; mr_evidence_kind_matrix := mr_evidence_kind_matrix r;
     mr_evidence_hash := hash; mr_report_path := path |}.

Definition promotion_report_hash (r : PromotionEvidenceMatrixReport) : string :=
  sha256_hex (report_text (with_report_hash EmptyString EmptyString r)).

Definition evidence_matrix_report (c : PromotionChain) (chain_path report_path : string)
  : result EvolveError PromotionEvidenceMatrixReport :=
  let? records := list_records c in
  let '(chain_verified, verifier_error) :=
    match verify_all c with
    | Ok _ => (true, None)
    | Err e => (false, Some (error_text e))
    end in
  let latest_state := match last records with
                      | Some r => promotion_state_label (pp_status (sr_proposal r))
                      | None => "not_promoted"
                      end in
  let promoted := bool_decide (latest_state = "confirmed_stable") in
  let gate_matrix := promotion_gate_matrix chain_verified records latest_state in
  let report :=
    {| mr_schema := "zaion.opd_promotion_evidence_matrix.v1"; mr_chain_path := chain_path;
       mr_chain_verified := chain_verified; mr_verifier_error := verifier_error;
       mr_record_count := length records; mr_latest_state := latest_state; mr_promoted := promoted;
       mr_quality_gate_passed := chain_verified && promoted && forallb gt_passed gate_matrix
                                 && negb (bool_decide (length records = 0%nat));
       mr_source_record_hashes := map sr_record_hash records;
       mr_stage_matrix := imap promotion_stage_matrix_row records;
       mr_gate_matrix := gate_matrix;
       mr_evidence_kind_matrix := promotion_evidence_kind_matrix records;
       mr_evidence_hash := EmptyString; mr_report_path := report_path |} in
  Ok (with_report_hash (promotion_report_hash report) report_path report).
End Report.
