(* ===== verification/PromotionTheorems.v ===== *)
(** * What the promotion chain ensures

    The chain that the operations build verifies exactly when every record was made in the name
    of the key that signed it; when proposals are the only records that are signed directly,
    promotions, confirmations and rollbacks are earned by the records before them; and two
    defects: one proposal under another name breaks the chain for good, and a proposal that was
    rolled back can be promoted again. *)

From stdpp Require Import prelude strings list.
From S2P Require Import Prelude.
From S2P Require Import Env.
From S2P Require Import Concrete.
From S2P Require Import Database.
From S2P Require Import Ledger.
From S2P Require Import LedgerChain.
From S2P Require Import Promotion.
Local Open Scope res_scope.
Local Open Scope Z_scope.

Section Chain.
Context `{Env} `{PromotionText}.

(** ** Sequences of operations *)

Inductive Op : Type :=
| OpSigned (now : string) (p : PromotionProposal) (keypair : ZaionKeypair)
| OpRollbackReady (now signed id : string) (keypair : ZaionKeypair)
| OpPromote (t : Times) (id : string) (keypair : ZaionKeypair)
| OpRolledBack (now signed id : string) (keypair : ZaionKeypair)
| OpAutoRollback (t : Times) (id : string) (level : Z) (reason : string) (keypair : ZaionKeypair)
| OpConfirm (now signed id : string) (turns : Z) (keypair : ZaionKeypair).

Definition exec (c : PromotionChain) (op : Op) : PromotionChain :=
  match op with
  | OpSigned now p keypair => (append_signed c now p keypair).1
  | OpRollbackReady now signed id keypair => (append_rollback_ready c now signed id keypair).1
  | OpPromote t id keypair => (append_promoted c t id keypair).1
  | OpRolledBack now signed id keypair => (append_rolled_back c now signed id keypair).1
  | OpAutoRollback t id level reason keypair =>
      (append_probation_auto_rollback c t id level reason keypair).1
  | OpConfirm now signed id turns keypair => (append_confirmed_stable c now signed id turns keypair).1
  end.

Definition execs : PromotionChain -> list Op -> PromotionChain := foldl exec.

(** ** One record more *)

Definition status_of (r : SignedPromotionRecord) : PromotionStatus := pp_status (sr_proposal r).
Definition id_of (r : SignedPromotionRecord) : string := pp_proposal_id (sr_proposal r).

Definition probation_of (promoted : SignedPromotionRecord) (started : string) : ProbationMetadata :=
  {| pm_probation := true; pm_promotion_record_id := sr_record_hash promoted;
     pm_rollback_target := id_of promoted;
     pm_required_observation_turns := REQUIRED_OBSERVATION_TURNS; pm_observed_turns := 0;
     pm_started_at := started; pm_anomaly_level := None; pm_anomaly_reason := None |}.

(** How an operation adds a record to the records of a chain, when the proposals that are signed
    directly satisfy [direct]. *)
Inductive grows (direct : PromotionProposal -> Prop) (recs : list SignedPromotionRecord)
  : SignedPromotionRecord -> Prop :=
| grow_signed now p keypair r :
    direct p -> sign_record now p keypair (last_hash recs) = Ok r -> grows direct recs r
| grow_transition now signed id status keypair r :
    status = RollbackReady \/ status = Promoted \/ status = RolledBack ->
    transition_record recs now signed id status keypair = Ok r -> grows direct recs r
| grow_probation promoted now started signed keypair r :
    last recs = Some promoted -> status_of promoted = Promoted ->
    sign_record signed (with_transition (sr_proposal promoted) Probation now (principal_id keypair) []
                          (Some (probation_of promoted started)))
      keypair (Some (sr_record_hash promoted)) = Ok r -> grows direct recs r
| grow_auto_rollback latest now signed blocker m keypair r :
    existsb (of_proposal (id_of latest) RollbackReady) recs = true ->
    sign_record signed (with_transition (sr_proposal latest) RolledBack now (principal_id keypair)
                          [blocker] m)
      keypair (last_hash recs) = Ok r -> grows direct recs r
| grow_confirmed latest m now signed turns keypair r :
    last recs = Some latest -> status_of latest = Probation ->
    pp_probation (sr_proposal latest) = Some m ->
    pm_anomaly_level m = None -> pm_anomaly_reason m = None ->
    pm_required_observation_turns m <= turns ->
    sign_record signed (with_transition (sr_proposal latest) ConfirmedStable now (principal_id keypair) []
                          (Some (observed turns m)))
      keypair (Some (sr_record_hash latest)) = Ok r -> grows direct recs r.

(** A chain whose lines all parse. *)
Definition chain_of (recs : list SignedPromotionRecord) : PromotionChain := Some <$> recs.

Lemma list_chain_of recs : list_records (chain_of recs) = Ok recs.
Proof.
  unfold list_records. apply collect_map_ok. induction recs; simpl; constructor; done.
Qed.

Lemma chain_of_snoc recs r : append_record (chain_of recs) r = chain_of (recs ++ [r]).
Proof. unfold append_record, chain_of. by rewrite fmap_app. Qed.

Lemma sign_record_inv now p keypair prev r :
  sign_record now p keypair prev = Ok r ->
  validate_gate p = Ok tt /\ sr_proposal r = p /\ sr_prev_record_hash r = prev /\
  sr_signature r = sign_text PROMOTION_SCHEME (proposal_text p) now keypair /\
  sr_record_hash r = compute_record_hash p (sr_signature r) prev.
Proof.
  unfold sign_record. destruct (validate_gate p) as [[]|] eqn:E; [|done]. by intros [= <-].
Qed.

Lemma transition_status recs now signed id status keypair r :
  transition_record recs now signed id status keypair = Ok r ->
  exists q, q ∈ recs /\ of_proposal id Proposed q = true /\
    status_of r = status /\ id_of r = id /\
    pp_evidence_hashes (sr_proposal r) = pp_evidence_hashes (sr_proposal q) /\
    (status = Promoted -> has_kind OwnerApprovalEvidence (sr_proposal q) = true /\
       forallb is_final_transition_blocker (pp_remaining_blockers (sr_proposal q)) = true) /\
    (status = Promoted \/ status = RolledBack ->
       existsb (of_proposal id RollbackReady) recs = true).
Proof.
  unfold transition_record. destruct (find _ recs) as [q|] eqn:Ef; [|done]. cbv zeta. cbn [ok_or].
  apply find_some in Ef as [Hin Hq]. intros Ht.
  destruct (bool_decide (status = Promoted)) eqn:Ep; [|].
  - apply bool_decide_eq_true in Ep as ->.
    destruct (has_kind OwnerApprovalEvidence (sr_proposal q)) eqn:Eo; [|done].
    destruct (forallb _ _) eqn:Eb; [|done].
    destruct (existsb (of_proposal id RollbackReady) recs) eqn:Er; [|done]. cbn in Ht.
    apply sign_record_inv in Ht as (_ & Hp & _). exists q. unfold status_of, id_of. rewrite Hp.
    split; [by apply list_elem_of_In|]. split; [done|]. split; [done|]. split; [|done].
    unfold of_proposal in Hq. bool_props. done.
  - destruct (_ || _) eqn:Er in Ht; [|done]. apply sign_record_inv in Ht as (_ & Hp & _).
    exists q. unfold status_of, id_of. rewrite Hp. apply bool_decide_eq_false in Ep.
    split; [by apply list_elem_of_In|]. split; [done|]. split; [done|].
    split; [unfold of_proposal in Hq; bool_props; done|]. split; [done|].
    split; [done|]. intros [?| ->]; [done|]. done.
Qed.

Inductive grown (direct : PromotionProposal -> Prop) (recs : list SignedPromotionRecord)
  : list SignedPromotionRecord -> Prop :=
| grown_refl : grown direct recs recs
| grown_step recs' r : grown direct recs recs' -> grows direct recs' r -> grown direct recs (recs' ++ [r]).

Definition op_direct (direct : PromotionProposal -> Prop) (op : Op) : Prop :=
  match op with OpSigned _ p _ => direct p | _ => True end.

Lemma grown_trans direct a b c : grown direct a b -> grown direct b c -> grown direct a c.
Proof. intros Hab. induction 1; [done|]. by econstructor. Qed.

Lemma grown_one direct a r : grows direct a r -> grown direct a (a ++ [r]).
Proof. intros Hr. econstructor; [constructor|done]. Qed.

(** What a call appends, when the record it computes is a growth. *)
Lemma appending_grown direct recs res :
  (forall r, res = Ok r -> grows direct recs r) ->
  exists recs', (appending (chain_of recs) res).1 = chain_of recs' /\ grown direct recs recs'.
Proof.
  intros Hr. destruct res as [r|e]; simpl.
  - exists (recs ++ [r]). split; [apply chain_of_snoc|]. apply grown_one. by apply Hr.
  - exists recs. split; [done|constructor].
Qed.

Lemma transition_grown direct recs now signed id status keypair :
  status = RollbackReady \/ status = Promoted \/ status = RolledBack ->
  exists recs', (append_transition (chain_of recs) now signed id status keypair).1 = chain_of recs' /\
    grown direct recs recs'.
Proof.
  intros Hs. unfold append_transition. rewrite list_chain_of. apply appending_grown.
  intros r Hr. by eapply grow_transition.
Qed.

Lemma last_snoc_hash recs (r : SignedPromotionRecord) : last_hash (recs ++ [r]) = Some (sr_record_hash r).
Proof. unfold last_hash. by rewrite last_snoc. Qed.

Lemma promote_grown direct recs t id keypair :
  exists recs', (append_promoted (chain_of recs) t id keypair).1 = chain_of recs' /\
    grown direct recs recs'.
Proof.
  unfold append_promoted, append_transition. rewrite list_chain_of.
  destruct (transition_record _ _ _ _ _ _) as [r|e] eqn:E; simpl.
  - rewrite chain_of_snoc.
    assert (Hr : grown direct recs (recs ++ [r])) by (eapply grown_one, grow_transition; [|exact E]; tauto).
    destruct (appending_grown direct (recs ++ [r])
      (sign_record (t5 t) (with_transition (sr_proposal r) Probation (t3 t) (principal_id keypair) []
         (Some (probation_of r (t4 t)))) keypair (Some (sr_record_hash r)))) as (recs' & He & Hg).
    { intros r' Hr'. eapply grow_probation; [by rewrite last_snoc| |done].
      by apply transition_status in E as (_ & _ & _ & -> & _). }
    exists recs'. split; [exact He|]. by eapply grown_trans.
  - exists recs. split; [done|constructor].
Qed.

Lemma find_rev_in (f : SignedPromotionRecord -> bool) recs r : find f (rev recs) = Some r -> f r = true.
Proof. by intros [_ ?]%find_some. Qed.

Lemma auto_rollback_grown direct recs t id level reason keypair :
  exists recs', (append_probation_auto_rollback (chain_of recs) t id level reason keypair).1
                = chain_of recs' /\ grown direct recs recs'.
Proof.
  unfold append_probation_auto_rollback. case_bool_decide; [exists recs; split; [done|constructor]|].
  rewrite list_chain_of. destruct (find _ (rev recs)) as [latest|] eqn:Ef;
    [|exists recs; split; [done|constructor]].
  apply find_rev_in, bool_decide_eq_true in Ef.
  destruct (negb _); [exists recs; split; [done|constructor]|]. cbv zeta.
  set (blocker := "Level " +:+ _). set (m := with_anomaly level reason <$> _).
  assert (Hfin : forall recs', existsb (of_proposal id RollbackReady) recs' = true ->
    exists recs2, (appending (chain_of recs')
      (let? prev := latest_record_hash (chain_of recs') in
       sign_record (t4 t) (with_transition (sr_proposal latest) RolledBack (t3 t)
         (principal_id keypair) [blocker] m) keypair prev)).1 = chain_of recs2 /\
      grown direct recs' recs2).
  { intros recs' Hrr. unfold latest_record_hash. rewrite list_chain_of. apply appending_grown.
    intros r Hr. eapply grow_auto_rollback; [|exact Hr]. unfold id_of. by rewrite Ef. }
  destruct (existsb (of_proposal id RollbackReady) recs) eqn:Er; [by apply Hfin|].
  unfold append_transition. rewrite list_chain_of.
  destruct (transition_record _ _ _ _ _ _) as [r|e] eqn:E; cbn [appending];
    [|exists recs; split; [done|constructor]].
  rewrite chain_of_snoc. destruct (Hfin (recs ++ [r])) as (recs2 & He & Hg).
  { apply transition_status in E as (_ & _ & _ & Hs & Hi & _). rewrite existsb_app. simpl.
    unfold of_proposal. fold (id_of r) (status_of r). rewrite Hs, Hi, !bool_decide_eq_true_2 by done.
    by rewrite orb_true_r. }
  exists recs2. split; [exact He|]. eapply grown_trans; [|exact Hg].
  eapply grown_one, grow_transition; [|exact E]; tauto.
Qed.

Lemma confirm_grows direct recs now signed id turns keypair r :
  confirmed_record (chain_of recs) now signed id turns keypair = Ok r -> grows direct recs r.
Proof.
  unfold confirmed_record. rewrite list_chain_of. destruct (verify_all _); [|done].
  destruct (last recs) as [latest|] eqn:El; [|done]. cbn [ok_or]. cbv zeta.
  destruct (bool_decide (_ = id)) eqn:Ei; [|done].
  destruct (bool_decide (_ = Probation)) eqn:Es; [|done].
  destruct (pp_probation (sr_proposal latest)) as [m|] eqn:Em; [|done]. cbn [ok_or].
  destruct (negb _) eqn:Ea; [|done]. destruct (bool_decide (_ <= turns)) eqn:Et; [|done].
  intros Hr. bool_props.
  eapply (grow_confirmed direct recs latest m); [done|done|done|..|exact Hr]; [| |done].
  - by destruct (pm_anomaly_level m).
  - by destruct (pm_anomaly_reason m).
Qed.

(** Every operation grows a chain whose lines parse. *)
Lemma exec_grown direct recs op :
  op_direct direct op -> exists recs', exec (chain_of recs) op = chain_of recs' /\ grown direct recs recs'.
Proof.
  destruct op as [now p kp|now signed id kp|t id kp|now signed id kp|t id level reason kp|now signed id turns kp];
    cbn [exec op_direct]; intros Hd.
  - unfold append_signed, latest_record_hash. rewrite list_chain_of. apply appending_grown.
    intros r Hr. by eapply grow_signed.
  - apply transition_grown. tauto.
  - apply promote_grown.
  - apply transition_grown. tauto.
  - apply auto_rollback_grown.
  - unfold append_confirmed_stable. apply appending_grown. intros r Hr. by eapply confirm_grows.
Qed.

Lemma execs_grown direct ops : forall recs,
  Forall (op_direct direct) ops ->
  exists recs', execs (chain_of recs) ops = chain_of recs' /\ grown direct recs recs'.
Proof.
  induction ops as [|op ops IH]; intros recs Hd; [exists recs; split; [done|constructor]|].
  apply Forall_cons in Hd as [Hop Hd]. destruct (exec_grown direct recs op Hop) as (r1 & He & Hg).
  destruct (IH r1 Hd) as (r2 & He2 & Hg2). exists r2. unfold execs in *. cbn [foldl].
  rewrite He. split; [done|]. by eapply grown_trans.
Qed.

(** ** Verification *)

(** A record is made in the name of its signer. *)
Definition own_name (r : SignedPromotionRecord) : Prop :=
  principal_id_from_public_key (ps_public_key (sr_signature r)) = pp_principal_id (sr_proposal r).

Lemma grows_signed direct recs r :
  grows direct recs r -> exists now p keypair, sign_record now p keypair (last_hash recs) = Ok r.
Proof.
  destruct 1 as [now p kp r _ Hr|now signed id status kp r _ Hr|q now started signed kp r Hl _ Hr
                |q now signed b m kp r _ Hr|q m now signed turns kp r Hl _ _ _ _ _ Hr].
  - by eexists _, _, _.
  - unfold transition_record in Hr. destruct (find _ recs); [|done]. cbv zeta in Hr. cbn [ok_or] in Hr.
    ok_step Hr. destruct (_ || _) in Hr; [|done]. by eexists _, _, _.
  - unfold last_hash. rewrite Hl. by eexists _, _, _.
  - by eexists _, _, _.
  - unfold last_hash. rewrite Hl. by eexists _, _, _.
Qed.

Lemma verify_loop_snoc recs r : forall previous,
  is_ok (verify_loop previous (recs ++ [r])) =
  is_ok (verify_loop previous recs)
  && bool_decide (sr_prev_record_hash r = match last_hash recs with Some h => Some h | None => previous end)
  && is_ok (verify_record r).
Proof.
  induction recs as [|q recs IH]; intros previous; cbn [app verify_loop].
  - cbn. case_bool_decide; [|done]. by destruct (verify_record r).
  - case_bool_decide; [|done]. destruct (verify_record q) as [v|]; [|done]. specialize (IH (Some (sr_record_hash q))).
    assert (Hl : match last_hash (q :: recs) with Some h => Some h | None => previous end
                 = match last_hash recs with Some h => Some h | None => Some (sr_record_hash q) end).
    { unfold last_hash. rewrite last_cons. by destruct (last recs). }
    rewrite Hl. destruct (verify_loop _ (recs ++ [r])), (verify_loop _ recs); exact IH.
Qed.

Context `{!EnvLaws}.

(** A record that was signed verifies exactly when it is in the name of its signer. *)
Lemma signed_record_verifies now p keypair prev r :
  sign_record now p keypair prev = Ok r -> (is_ok (verify_record r) = true <-> own_name r).
Proof.
  intros (Hg & Hp & Hprev & Hs & Hh)%sign_record_inv. unfold verify_record, own_name. cbv zeta.
  rewrite Hp, Hg, Hprev, <- Hh, bool_decide_eq_true_2 by done. unfold verify_text. rewrite Hs.
  cbn [sign_text ps_scheme ps_public_key ps_content_hash ps_signature].
  rewrite (bool_decide_eq_true_2 (PROMOTION_SCHEME = _)) by done.
  rewrite (bool_decide_eq_true_2 (sha256_hex _ = _)) by done.
  case_bool_decide as E; [|done].
  unfold verify_signature, public_key_bytes, sign. rewrite verifying_key_length, verifying_key_ok,
    sign_length, sign_verifies, !bool_decide_eq_true_2 by done. done.
Qed.

(** The chain of any growth verifies exactly when every record is in the name of its signer. *)
Lemma grown_verifies direct recs :
  grown direct [] recs -> (is_ok (verify_loop None recs) = true <-> Forall own_name recs).
Proof.
  induction 1 as [|recs r Hg IH Hr]; [done|].
  rewrite verify_loop_snoc, Forall_app, Forall_singleton, !andb_true_iff, IH.
  apply grows_signed in Hr as (now & p & kp & Hr). rewrite (signed_record_verifies _ _ _ _ _ Hr).
  apply sign_record_inv in Hr as (_ & _ & Hprev & _).
  rewrite bool_decide_eq_true, Hprev. destruct (last_hash recs); tauto.
Qed.

Lemma verify_chain_of recs : verify_all (chain_of recs) = verify_loop None recs.
Proof. unfold verify_all. by rewrite list_chain_of. Qed.

(** C36. Whatever operations build a chain, it can be read, and it verifies exactly when every
    record of it was made in the name of the key that signed it: links, hashes, signatures
    and gates always hold. *)
Theorem built_chain_verifies ops :
  exists recs, list_records (execs [] ops) = Ok recs /\
    (is_ok (verify_all (execs [] ops)) = true <-> Forall own_name recs).
Proof.
  destruct (execs_grown (fun _ => True) ops []) as (recs & He & Hg).
  { apply Forall_forall. by intros [] _. }
  change (chain_of []) with ([] : PromotionChain) in He. rewrite He. exists recs.
  split; [apply list_chain_of|]. rewrite verify_chain_of. by eapply grown_verifies.
Qed.

(** Records stay. *)
Lemma grown_prefix direct a b : grown direct a b -> exists c, b = a ++ c.
Proof.
  induction 1 as [|b r _ [c ->] _]; [by exists []; rewrite app_nil_r|].
  exists (c ++ [r]). by rewrite app_assoc.
Qed.

(** A proposal signed under another name breaks the chain for good: no operation after it makes
    the chain verify again. *)
Theorem foreign_name_breaks_chain recs now p keypair c r ops :
  append_signed (chain_of recs) now p keypair = (c, Ok r) ->
  pp_principal_id p <> principal_id keypair ->
  is_ok (verify_all (execs c ops)) = false.
Proof.
  unfold append_signed, latest_record_hash. rewrite list_chain_of.
  destruct (sign_record _ _ _ _) as [r'|] eqn:Er; [|done]. intros [= <- <-] Hp.
  rewrite chain_of_snoc. destruct (execs_grown (fun _ => True) ops (recs ++ [r'])) as (recs' & -> & Hg).
  { apply Forall_forall. by intros [] _. }
  apply grown_prefix in Hg as (rest & ->). rewrite verify_chain_of.
  assert (Hv : is_ok (verify_record r') = false).
  { apply not_true_is_false. rewrite (signed_record_verifies _ _ _ _ _ Er). intros Ho. apply Hp.
    apply sign_record_inv in Er as (_ & Hpr & _ & Hs & _). unfold own_name in Ho.
    rewrite Hpr, Hs in Ho. by rewrite <- Ho. }
  induction rest as [|q rest IH] using rev_ind.
  - rewrite app_nil_r, verify_loop_snoc, Hv. apply andb_false_r.
  - rewrite app_assoc, verify_loop_snoc, IH. done.
Qed.

(** ** What a status is worth *)

(** An earlier record of the proposal with a status. *)
Definition earlier (id : string) (status : PromotionStatus) (prefix : list SignedPromotionRecord)
    (q : SignedPromotionRecord) : Prop := q ∈ prefix /\ id_of q = id /\ status_of q = status.

(** What must have come before a record. *)
Definition earned (prefix : list SignedPromotionRecord) (r : SignedPromotionRecord) : Prop :=
  match status_of r with
  | Promoted =>
      (exists q, earlier (id_of r) Proposed prefix q /\
         has_kind OwnerApprovalEvidence (sr_proposal q) = true /\
         forallb is_final_transition_blocker (pp_remaining_blockers (sr_proposal q)) = true /\
         pp_evidence_hashes (sr_proposal r) = pp_evidence_hashes (sr_proposal q)) /\
      exists q, earlier (id_of r) RollbackReady prefix q
  | Probation =>
      exists q m, last prefix = Some q /\ status_of q = Promoted /\ id_of q = id_of r /\
        pp_probation (sr_proposal r) = Some m /\ pm_promotion_record_id m = sr_record_hash q /\
        pm_required_observation_turns m = REQUIRED_OBSERVATION_TURNS
  | ConfirmedStable =>
      exists q m m', last prefix = Some q /\ status_of q = Probation /\ id_of q = id_of r /\
        pp_probation (sr_proposal q) = Some m /\ pm_anomaly_level m = None /\
        pm_anomaly_reason m = None /\ pp_probation (sr_proposal r) = Some m' /\
        pm_required_observation_turns m <= pm_observed_turns m'
  | RolledBack => exists q, earlier (id_of r) RollbackReady prefix q
  | RollbackReady => exists q, earlier (id_of r) Proposed prefix q
  | Proposed | ExperimentalNotPromoted => True
  end.

Definition is_proposed (p : PromotionProposal) : Prop := pp_status p = Proposed.

Lemma ready_earlier id recs :
  existsb (of_proposal id RollbackReady) recs = true -> exists q, earlier id RollbackReady recs q.
Proof.
  intros (q & Hin & Hq)%existsb_exists. exists q. unfold of_proposal in Hq. bool_props.
  split; [by apply list_elem_of_In|done].
Qed.

Lemma grows_earned recs r : grows is_proposed recs r -> earned recs r.
Proof.
  destruct 1 as [now p kp r Hd Hr|now signed id status kp r Hst Hr|q now started signed kp r Hl Hs Hr
                |q now signed b m kp r Hrr Hr|q m now signed turns kp r Hl Hs Hm Hal Har Ht Hr].
  - apply sign_record_inv in Hr as (_ & Hp & _). unfold earned, status_of. by rewrite Hp, Hd.
  - apply transition_status in Hr as (q & Hin & Hq & Hs & Hi & He & Hpro & Hrb).
    unfold of_proposal in Hq. bool_props. unfold earned. rewrite Hs.
    assert (Hearly : earlier (id_of r) Proposed recs q) by (rewrite Hi; done).
    destruct Hst as [-> |[-> | ->]].
    + by exists q.
    + destruct (Hpro eq_refl). split; [by exists q|]. rewrite Hi. apply ready_earlier, Hrb. tauto.
    + rewrite Hi. apply ready_earlier, Hrb. tauto.
  - apply sign_record_inv in Hr as (_ & Hp & _). unfold earned, status_of, id_of. rewrite Hp. simpl.
    exists q, (probation_of q started). split_and!; done.
  - apply sign_record_inv in Hr as (_ & Hp & _). unfold earned, status_of, id_of. rewrite Hp. simpl.
    by apply ready_earlier.
  - apply sign_record_inv in Hr as (_ & Hp & _). unfold earned, status_of, id_of. rewrite Hp. simpl.
    exists q, m, (observed turns m). split_and!; done.
Qed.

Lemma grown_earned recs :
  grown is_proposed [] recs ->
  forall prefix r suffix, recs = prefix ++ r :: suffix -> earned prefix r.
Proof.
  induction 1 as [|recs r Hg IH Hr]; intros prefix q suffix Heq; [by destruct prefix|].
  destruct suffix as [|q' suffix _] using rev_ind.
  - apply app_inj_tail in Heq as [-> ->]. by apply grows_earned.
  - change (q :: suffix ++ [q']) with ((q :: suffix) ++ [q']) in Heq. rewrite app_assoc in Heq.
    apply app_inj_tail in Heq as [-> _]. by eapply IH.
Qed.


(** ** Promotion again *)

(** The gate does not look at the time or the principal. *)
Lemma validate_gate_name p status now1 name1 now2 name2 b m :
  validate_gate (with_transition p status now1 name1 b m)
  = validate_gate (with_transition p status now2 name2 b m).
Proof. done. Qed.

Lemma sign_record_gate s1 s2 p1 p2 k1 k2 prev1 prev2 r :
  validate_gate p1 = validate_gate p2 -> sign_record s1 p1 k1 prev1 = Ok r ->
  exists r', sign_record s2 p2 k2 prev2 = Ok r' /\ sr_proposal r = p1 /\ sr_proposal r' = p2.
Proof.
  unfold sign_record. intros ->. destruct (validate_gate p2); [|done]. intros [= <-]. by eexists.
Qed.

Lemma find_app_some (f : SignedPromotionRecord -> bool) a b q :
  find f a = Some q -> find f (a ++ b) = Some q.
Proof. induction a as [|x a IH]; simpl; [done|]. by destruct (f x). Qed.

(** What makes a promotion succeed once stays in the chain. *)
Lemma transition_again recs rest now1 signed1 now2 signed2 id k1 k2 r :
  transition_record recs now1 signed1 id Promoted k1 = Ok r ->
  exists r' p n1 n2 b m, transition_record (recs ++ rest) now2 signed2 id Promoted k2 = Ok r' /\
    sr_proposal r = with_transition p Promoted now1 n1 b m /\
    sr_proposal r' = with_transition p Promoted now2 n2 b m.
Proof.
  unfold transition_record. destruct (find _ recs) as [q|] eqn:Ef; [|done].
  rewrite (find_app_some _ _ rest _ Ef). cbv zeta. cbn [ok_or]. rewrite existsb_app.
  destruct (has_kind _ _); [|done]. destruct (forallb _ _); [|done].
  destruct (existsb _ recs); [|done]. cbn. intros Hr.
  eapply sign_record_gate in Hr as (r' & Hr' & Hp & Hp'); [|by apply validate_gate_name].
  exists r'. rewrite Hr', Hp, Hp'. by eexists _, _, _, _, _.
Qed.

Lemma promote_inv recs t id keypair c r :
  append_promoted (chain_of recs) t id keypair = (c, Ok r) ->
  exists promoted, transition_record recs (t1 t) (t2 t) id Promoted keypair = Ok promoted /\
    sign_record (t5 t) (with_transition (sr_proposal promoted) Probation (t3 t) (principal_id keypair)
       [] (Some (probation_of promoted (t4 t)))) keypair (Some (sr_record_hash promoted)) = Ok r /\
    c = chain_of ((recs ++ [promoted]) ++ [r]).
Proof.
  unfold append_promoted, append_transition. rewrite list_chain_of.
  destruct (transition_record _ _ _ _ _ _) as [q|e] eqn:E; [|done].
  unfold appending at 1. rewrite chain_of_snoc. unfold append_probation_for_promoted. cbv zeta.
  fold (id_of q). fold (probation_of q (t4 t)). destruct (sign_record _ _ _ _) as [r'|] eqn:Er; [|done].
  cbn [appending]. rewrite chain_of_snoc. intros [= <- <-]. by exists q.
Qed.

(** What was promoted once can be promoted again at any later time, by any key and whatever
    happened since: the operations never look at the latest status of a proposal, so neither a
    rollback nor the anomaly that caused it stands in the way, although the record of a rollback
    says that stable use is blocked until a new signed proposal. *)
Theorem promotion_repeatable recs t id keypair c r ops t' keypair' :
  append_promoted (chain_of recs) t id keypair = (c, Ok r) ->
  exists c' r', append_promoted (execs c ops) t' id keypair' = (c', Ok r') /\
    status_of r' = Probation /\ id_of r' = id.
Proof.
  intros (q & Hq & Hr & ->)%promote_inv.
  destruct (execs_grown (fun _ => True) ops ((recs ++ [q]) ++ [r])) as (recs' & -> & Hg).
  { apply Forall_forall. by intros [] _. }
  apply grown_prefix in Hg as (rest & ->). rewrite <- !app_assoc.
  pose proof Hq as Hid. apply transition_status in Hid as (_ & _ & _ & _ & Hid & _).
  eapply (transition_again _ ([q] ++ [r] ++ rest) _ _ (t1 t') (t2 t') _ _ keypair') in Hq
    as (q' & p & n1 & n2 & b & m & Hq' & Hp & Hp').
  unfold append_promoted, append_transition. rewrite list_chain_of, Hq'.
  unfold appending at 1. rewrite chain_of_snoc. unfold append_probation_for_promoted. cbv zeta.
  fold (id_of q'). fold (probation_of q' (t4 t')). rewrite Hp in Hr. rewrite Hp'.
  eapply sign_record_gate in Hr as (r' & Hr' & _ & Hpr'); [rewrite Hr'|done]. cbn [appending].
  eexists _, r'. split; [done|]. unfold status_of, id_of in *. rewrite Hpr'. split; [done|].
  rewrite Hp in Hid. exact Hid.
Qed.

(** An approval that was given verifies, and for its proposal and module only. *)
Theorem approval_roundtrip now id module approver reason keypair a :
  approve now id module approver reason keypair = Ok a ->
  exists v, verify_approval a = Ok v /\ va_principal_id v = principal_id keypair /\
    forall id' module', is_ok (ensure_matches a id' module') = true <-> id' = id /\ module' = module.
Proof.
  unfold approve. cbv zeta. destruct (validate_owner_approval _) as [[]|] eqn:Ev; [|done]. intros [= <-].
  assert (Hv : verify_text APPROVAL_SCHEME "unsupported owner approval signature scheme"
    "owner approval principal does not match signing key" (principal_id keypair)
    (approval_text (Build_OwnerApproval 1 id module approver reason now (principal_id keypair)))
    (sign_text APPROVAL_SCHEME
       (approval_text (Build_OwnerApproval 1 id module approver reason now (principal_id keypair)))
       now keypair) = Ok tt).
  { unfold verify_text, sign_text. cbn [ps_scheme ps_public_key ps_content_hash ps_signature].
    rewrite !bool_decide_eq_true_2 by done.
    unfold verify_signature, public_key_bytes, sign. rewrite verifying_key_length, verifying_key_ok,
      sign_length, sign_verifies, !bool_decide_eq_true_2 by done. done. }
  assert (Ha : exists v, verify_approval
    {| ar_approval := Build_OwnerApproval 1 id module approver reason now (principal_id keypair);
       ar_signature := sign_text APPROVAL_SCHEME
         (approval_text (Build_OwnerApproval 1 id module approver reason now (principal_id keypair)))
         now keypair |} = Ok v /\ va_proposal_id v = id /\ va_module v = module /\
    va_principal_id v = principal_id keypair).
  { unfold verify_approval. cbn [ar_approval ar_signature oa_principal_id]. rewrite Ev, Hv. by eexists. }
  destruct Ha as (v & Ha & Hid & Hmo & Hpr). exists v. split; [done|]. split; [done|].
  intros id' module'. unfold ensure_matches. rewrite Ha, Hid, Hmo.
  case_bool_decide; [|naive_solver]. case_bool_decide; naive_solver.
Qed.
End Chain.

(** ** Examples *)

#[local] Instance ex_text : PromotionText := {
  proposal_text p := status_debug (pp_status p) +:+ pp_proposal_id p +:+ pp_created_at p;
  approval_text a := oa_proposal_id a +:+ oa_reason a;
  record_text p s prev := status_debug (pp_status p) +:+ pp_proposal_id p +:+ ps_signature s +:+ default "" prev
}.

Definition ex_evidence (k : EvidenceKind) : EvidenceHash :=
  {| eh_kind := k; eh_path := "out/report.json";
     eh_sha256 := "aaaaaaaaaaaaaaaaaaaaaaaaaaaaaaaaaaaaaaaaaaaaaaaaaaaaaaaaaaaaaaaa"; eh_description := "report" |}.

Definition ex_proposal (id : string) (status : PromotionStatus) (blockers : list string)
    (m : option ProbationMetadata) : PromotionProposal :=
  {| pp_schema_version := 1; pp_proposal_id := id; pp_module := Opd; pp_status := status;
     pp_change_summary := "change"; pp_risk_summary := "risk";
     pp_evidence_hashes := [ex_evidence MandatoryTestMatrixReport; ex_evidence OwnerApprovalEvidence];
     pp_rollback_plan := Some {| rp_strategy := "disable"; rp_disable_flag := None; rp_git_event_id := None;
                                 rp_verification_commands := ["cargo check"]; rp_manual_steps := [] |};
     pp_probation := m; pp_remaining_blockers := blockers; pp_created_at := "day 1";
     pp_principal_id := principal_id sample_keypair |}.

Definition ex_times : Times := {| t1 := "1"; t2 := "2"; t3 := "3"; t4 := "4"; t5 := "5" |}.

Definition ex_ops : list Op :=
  [OpSigned "now" (ex_proposal "p-1" Proposed ["final signed promotion transition is open"] None) sample_keypair;
   OpRollbackReady "1" "2" "p-1" sample_keypair; OpPromote ex_times "p-1" sample_keypair;
   OpAutoRollback ex_times "p-1" 3 "crash loop" sample_keypair; OpPromote ex_times "p-1" sample_keypair;
   OpConfirm "6" "7" "p-1" 3 sample_keypair].

Definition ex_statuses (c : PromotionChain) : list string :=
  match list_records c with Ok recs => map (fun r => status_debug (status_of r)) recs | Err _ => [] end.

(** A change that was rolled back for an anomaly becomes stable without a new proposal, and the
    chain verifies. *)
Example rolled_back_becomes_stable :
  ex_statuses (execs [] ex_ops)
  = ["Proposed"; "RollbackReady"; "Promoted"; "Probation"; "RolledBack"; "Promoted"; "Probation";
     "ConfirmedStable"] /\
  is_ok (verify_all (execs [] ex_ops)) = true.
Proof. vm_compute. done. Qed.

(** The quality gate counts the records of all proposals together: a proposal that was only ever
    signed as stable passes on the stages of another one. *)
Example quality_gate_mixes_proposals :
  let stable := ex_proposal "p-2" ConfirmedStable []
    (Some {| pm_probation := false; pm_promotion_record_id := ""; pm_rollback_target := "";
             pm_required_observation_turns := 0; pm_observed_turns := 0; pm_started_at := "";
             pm_anomaly_level := None; pm_anomaly_reason := None |}) in
  let c := execs [] (take 4 ex_ops ++ [OpSigned "now" stable sample_keypair]) in
  match evidence_matrix_report (fun _ => "") (fun _ => "") c "chain" "report" with
  | Ok r => mr_latest_state r = "confirmed_stable" /\ mr_quality_gate_passed r = true
  | Err _ => False
  end.
Proof. vm_compute. done. Qed.


Lemma promotion_repeatable_witness :
  exists recs c r, append_promoted (chain_of recs) ex_times "p-1" sample_keypair = (c, Ok r) /\
  exists c' r', append_promoted (execs c [OpAutoRollback ex_times "p-1" 3 "crash loop" sample_keypair])
                  ex_times "p-1" sample_keypair = (c', Ok r') /\ status_of r' = Probation.
Proof.
  destruct (execs_grown (fun _ => True) (take 2 ex_ops) []) as (recs & He & _); [by repeat constructor|].
  assert (Hs : is_ok (append_promoted (execs [] (take 2 ex_ops)) ex_times "p-1" sample_keypair).2 = true)
    by (vm_compute; reflexivity).
  change (chain_of []) with ([] : PromotionChain) in He. rewrite He in Hs.
  destruct (append_promoted (chain_of recs) ex_times "p-1" sample_keypair) as [c [r|e]] eqn:E; [|done].
  exists recs, c, r. split; [exact E|].
  destruct (promotion_repeatable recs ex_times "p-1" sample_keypair c r
    [OpAutoRollback ex_times "p-1" 3 "crash loop" sample_keypair] ex_times sample_keypair E)
    as (c' & r' & H1 & H2 & _).
  exists c', r'. split; [exact H1|exact H2].
Defined.

Lemma foreign_name_breaks_chain_witness :
  exists c r, append_signed (chain_of []) "now"
      (ex_proposal "p-1" Proposed ["owner approval is open"] None) "another key of thirty-two bytes.." = (c, Ok r) /\
    is_ok (verify_all (execs c ex_ops)) = false.
Proof.
  destruct (append_signed (chain_of []) "now" (ex_proposal "p-1" Proposed ["owner approval is open"] None)
    "another key of thirty-two bytes..") as [c [r|e]] eqn:E; [|vm_compute in E; discriminate E].
  exists c, r. split; [reflexivity|].
  apply (foreign_name_breaks_chain [] "now" (ex_proposal "p-1" Proposed ["owner approval is open"] None)
    "another key of thirty-two bytes.." c r ex_ops E). vm_compute. discriminate.
Defined.

Lemma approval_roundtrip_witness :
  exists a, approve "now" "p-1" Opd "owner" "reviewed" sample_keypair = Ok a /\
    is_ok (ensure_matches a "p-1" Opd) = true.
Proof.
  destruct (approve "now" "p-1" Opd "owner" "reviewed" sample_keypair) as [a|e] eqn:E;
    [|vm_compute in E; discriminate E].
  exists a. split; [reflexivity|].
  destruct (approval_roundtrip "now" "p-1" Opd "owner" "reviewed" sample_keypair a E) as (v & _ & _ & H).
  apply H. split; reflexivity.
Defined.

Lemma built_chain_verifies_witness :
  exists recs, list_records (execs [] ex_ops) = Ok recs /\ Forall own_name recs.
Proof.
  destruct (built_chain_verifies ex_ops) as (recs & Hl & Hv).
  exists recs. split; [exact Hl|]. apply Hv. vm_compute. reflexivity.
Defined.
