(* ===== verification/ToolResults.v ===== *)
(** * Tool result storage ([crates/zaion-runtime/src/tool_result_storage.rs])

    Large tool results are written to files under a storage directory and replaced
    in the conversation by a message with a preview.  Paths are Unix paths in UTF-8,
    so their lossy text is the path; a path is read through its [components].  [Fs]
    is the content of files by path.  [cwd] is [std::env::current_dir], [create_fault]
    and [write_fault] are the failures of [create_dir_all] and [fs::write] (with the
    files the failed write left behind), and [size_label] is the text of a size in
    kilobytes or megabytes, which the code computes in floating point. *)

From stdpp Require Import prelude gmap strings list.
From S2P Require Import Prelude.
From S2P Require Import Env.
From S2P Require Import Dispatcher.
From S2P Require Import TurnProof.
Local Open Scope res_scope.
Local Open Scope Z_scope.

(** ** Paths *)

Inductive Component : Type :=
| RootDir | CurDir | ParentDir | Normal (name : string).

#[export] Instance Component_eq_dec : EqDecision Component.
Proof. solve_decision. Defined.

Definition slash : Ascii.ascii := Ascii.ascii_of_N 47.

(** The pieces between slashes. *)
Fixpoint split_slash (s : string) : list string :=
  match s with
  | EmptyString => [EmptyString]
  | String c s' =>
      if Ascii.eqb c slash then EmptyString :: split_slash s'
      else match split_slash s' with
           | w :: ws => String c w :: ws
           | [] => [String c EmptyString]
           end
  end.

Definition piece (w : string) : list Component :=
  if bool_decide (w = "" \/ w = ".") then []
  else if bool_decide (w = "..") then [ParentDir] else [Normal w].

(** A leading [.] of a relative path is kept. *)
Definition first_piece (w : string) : list Component :=
  if bool_decide (w = ".") then [CurDir] else piece w.

Definition is_absolute (path : string) : bool :=
  match path with String c _ => Ascii.eqb c slash | EmptyString => false end.

(** [Path::components] *)
Definition components (path : string) : list Component :=
  (if is_absolute path then [RootDir] else [])
    ++ match split_slash path with
       | w :: ws => first_piece w ++ (ws ≫= piece)
       | [] => []
       end.

Fixpoint ends_with_slash (s : string) : bool :=
  match s with
  | EmptyString => false
  | String c EmptyString => Ascii.eqb c slash
  | String _ s' => ends_with_slash s'
  end.

(** [Path::join] *)
Definition path_join (base path : string) : string :=
  if is_absolute path then path
  else if bool_decide (base = "") || ends_with_slash base then base +:+ path
  else base +:+ "/" +:+ path.

(** [PathBuf::push] of a component, and [PathBuf::pop], which leaves the root. *)
Definition push_component (normalized : list Component) (c : Component) : list Component :=
  match c with RootDir => [RootDir] | _ => normalized ++ [c] end.

Definition pop_component (normalized : list Component) : list Component :=
  match last normalized with
  | Some RootDir | None => normalized
  | Some _ => removelast normalized
  end.

Definition normalize_step (normalized : list Component) (c : Component) : list Component :=
  match c with
  | CurDir => normalized
  | ParentDir => pop_component normalized
  | other => push_component normalized other
  end.

(** The components of [normalize_components(path)]. *)
Definition normalize_components (path : string) : list Component :=
  foldl normalize_step [] (components path).

(** [Path::starts_with] *)
Definition path_starts_with (path base : list Component) : bool :=
  bool_decide (take (length base) path = base).

(** ** Configuration, messages and errors *)

Definition DEFAULT_RESULT_BUDGET_BYTES : Z := 100000.
Definition DEFAULT_TURN_BUDGET_BYTES : Z := 200000.
Definition DEFAULT_PREVIEW_BYTES : Z := 4000.
Definition PERSISTED_OUTPUT_TAG : string := "<persisted-output>".
Definition PERSISTED_OUTPUT_CLOSING_TAG : string := "</persisted-output>".

Record ToolResultBudgetConfig : Type := {
  result_budget_bytes : Z;
  turn_budget_bytes : Z;
  preview_bytes : Z;
  storage_dir : string
}.

(** [ToolResultBudgetConfig::default]; [temp_dir] is [std::env::temp_dir()]. *)
Definition config_default (temp_dir : string) : ToolResultBudgetConfig :=
  {| result_budget_bytes := DEFAULT_RESULT_BUDGET_BYTES;
     turn_budget_bytes := DEFAULT_TURN_BUDGET_BYTES;
     preview_bytes := DEFAULT_PREVIEW_BYTES;
     storage_dir := path_join temp_dir "zaion-tool-results" |}.

Definition config_new (temp_dir dir : string) : ToolResultBudgetConfig :=
  let d := config_default temp_dir in
  {| result_budget_bytes := result_budget_bytes d; turn_budget_bytes := turn_budget_bytes d;
     preview_bytes := preview_bytes d; storage_dir := dir |}.

Record ToolResultMetadata : Type := {
  md_tool_name : string;
  md_tool_call_id : string;
  md_bytes : Z;
  md_preview_bytes : Z;
  md_truncated : bool;
  md_stored : bool;
  md_path : option string;
  md_environment_id : option string;
  md_environment_kind : option string;
  md_preview : string
}.

Record StoredToolResult : Type := {
  sr_injectable_content : string;
  sr_metadata : ToolResultMetadata
}.

Record ToolResultMessage : Type := {
  msg_tool_name : string;
  msg_tool_call_id : string;
  msg_content : string;
  msg_metadata : option ToolResultMetadata
}.

Definition message_new (tool_name tool_call_id content : string) : ToolResultMessage :=
  {| msg_tool_name := tool_name; msg_tool_call_id := tool_call_id; msg_content := content;
     msg_metadata := None |}.

Definition already_stored (m : ToolResultMessage) : bool :=
  is_some_and md_stored (msg_metadata m) || str_contains PERSISTED_OUTPUT_TAG (msg_content m).

Inductive ToolResultStorageError : Type :=
| UnsafePath (path : string)
| StorageIo (e : string)
| StorageState (message : string).

(** ** Previews *)

(** [str::rfind('\n')] *)
Fixpoint rfind_newline (s : string) : option nat :=
  match s with
  | EmptyString => None
  | String c s' =>
      match rfind_newline s' with
      | Some i => Some (S i)
      | None => if byte_is 10 c then Some O else None
      end
  end.

Definition generate_preview (content : string) (max_bytes : Z) : string * bool :=
  if bool_decide (str_len content <= max_bytes) then (content, false)
  else
    let boundary := boundary_before content (Z.to_nat (Z.min max_bytes (str_len content))) in
    let truncated := str_prefix boundary content in
    match rfind_newline truncated with
    | Some last_newline =>
        if bool_decide (boundary `div` 2 < last_newline)%nat
        then (str_prefix (last_newline + 1) truncated, true) else (truncated, true)
    | None => (truncated, true)
    end.

(** ** Targets *)

Definition Fs : Type := gmap string string.

(** The trait [ToolResultStorageTarget] *)
Record ToolResultStorageTarget : Type := {
  storage_root : string;
  environment_id : option string;
  environment_kind : option string;
  write_tool_result : Fs -> string -> string -> Fs * result ToolResultStorageError unit
}.

(** What a target promises: a write that succeeds stores the content at the path and
    touches no other file. *)
Class TargetLaws (target : ToolResultStorageTarget) : Prop := {
  write_ok fs path content fs' :
    write_tool_result target fs path content = (fs', Ok tt) -> fs' = <[path := content]> fs
}.

Section Storage.
Context `{Env} (cwd : option string) (size_label : Z -> string).
Context (create_fault : Fs -> string -> option string).
Context (write_fault : Fs -> string -> string -> option (string * Fs)).

Definition absolutize_for_check (path : string) : list Component :=
  if is_absolute path then normalize_components path
  else normalize_components (path_join (default "." cwd) path).

Definition ensure_child_path (root path : string) : result ToolResultStorageError unit :=
  let root_abs := absolutize_for_check root in
  let path_abs := absolutize_for_check path in
  guard? path_starts_with path_abs root_abs else UnsafePath path in
  Ok tt.

Definition write_result_file (root : string) (fs : Fs) (path content : string)
  : Fs * result ToolResultStorageError unit :=
  match create_fault fs root with
  | Some e => (fs, Err (StorageIo e))
  | None =>
      match ensure_child_path root path with
      | Err e => (fs, Err e)
      | Ok _ =>
          match write_fault fs path content with
          | Some (e, fs') => (fs', Err (StorageIo e))
          | None => (<[path := content]> fs, Ok tt)
          end
      end
  end.

(** [HostToolResultStorageTarget]: [with_environment] and [new]. *)
Definition host_with_environment (root : string) (id kind : option string)
  : ToolResultStorageTarget :=
  {| storage_root := root; environment_id := id; environment_kind := kind;
     write_tool_result := write_result_file root |}.

Definition host_new (root : string) : ToolResultStorageTarget :=
  host_with_environment root None None.

(** ** File names *)

(** A byte of a multi-byte character is dropped like the character. *)
Definition safe_byte (c : Ascii.ascii) : option Ascii.ascii :=
  if is_ascii_alphanumeric c || byte_in "_-" c then Some c
  else if byte_in "." c then Some (Ascii.ascii_of_N 95) else None.

Definition safe_file_stem (value : string) : string :=
  let sanitized := String.string_of_list_ascii
                     (take 80 (omap safe_byte (String.list_ascii_of_string value))) in
  if bool_decide (sanitized = "") || bool_decide (sanitized = ".")
     || bool_decide (sanitized = "..") || str_contains "/" value || str_contains "\" value
     || str_contains ".." value
  then "tool_" +:+ hex_encode (str_prefix 8 (sha256 value)) else sanitized.

Definition stable_result_path (dir tool_call_id : string) : result ToolResultStorageError string :=
  let path := path_join dir (safe_file_stem tool_call_id +:+ ".txt") in
  let? _ := ensure_child_path dir path in
  Ok path.

(** ** Replacing a result *)

Definition build_persisted_message (preview : string) (has_more : bool) (original_size : Z)
    (file_path : string) : string :=
  PERSISTED_OUTPUT_TAG +:+ newline
  +:+ "This tool result was too large (" +:+ z_to_string original_size +:+ " bytes, "
  +:+ size_label original_size +:+ ")." +:+ newline
  +:+ "Full output saved to: " +:+ file_path +:+ newline
  +:+ "Use fs_read/read_file with offset and limit to inspect specific sections."
  +:+ newline +:+ newline
  +:+ "Preview (first " +:+ z_to_string (str_len preview) +:+ " bytes):" +:+ newline
  +:+ preview
  +:+ (if has_more then newline +:+ "..." else "")
  +:+ newline +:+ PERSISTED_OUTPUT_CLOSING_TAG.

Definition metadata_of (target : ToolResultStorageTarget) (tool_name tool_call_id : string)
    (bytes : Z) (preview : string) (truncated stored : bool) (path : option string)
  : ToolResultMetadata :=
  {| md_tool_name := tool_name; md_tool_call_id := tool_call_id; md_bytes := bytes;
     md_preview_bytes := str_len preview; md_truncated := truncated; md_stored := stored;
     md_path := path; md_environment_id := environment_id target;
     md_environment_kind := environment_kind target; md_preview := preview |}.

Definition maybe_store_tool_result_with_target (fs : Fs) (content tool_name tool_call_id : string)
    (threshold_bytes : Z) (config : ToolResultBudgetConfig) (target : ToolResultStorageTarget)
  : Fs * result ToolResultStorageError StoredToolResult :=
  let bytes := str_len content in
  let '(preview, has_more) := generate_preview content (preview_bytes config) in
  if bool_decide (bytes <= threshold_bytes) then
    (fs, Ok {| sr_injectable_content := content;
               sr_metadata := metadata_of target tool_name tool_call_id bytes preview
                                false false None |})
  else
    match stable_result_path (storage_root target) tool_call_id with
    | Err e => (fs, Err e)
    | Ok path =>
        match ensure_child_path (storage_root target) path with
        | Err e => (fs, Err e)
        | Ok _ =>
            match write_tool_result target fs path content with
            | (fs', Err e) => (fs', Err e)
            | (fs', Ok _) =>
                (fs', Ok {| sr_injectable_content :=
                              build_persisted_message preview has_more bytes path;
                            sr_metadata := metadata_of target tool_name tool_call_id bytes
                                             preview has_more true (Some path) |})
            end
        end
    end.

Definition maybe_store_tool_result_with_threshold (fs : Fs)
    (content tool_name tool_call_id : string) (threshold_bytes : Z)
    (config : ToolResultBudgetConfig) : Fs * result ToolResultStorageError StoredToolResult :=
  let target := host_new (storage_dir config) in
  maybe_store_tool_result_with_target fs content tool_name tool_call_id threshold_bytes config
    target.

Definition maybe_store_tool_result (fs : Fs) (content tool_name tool_call_id : string)
    (config : ToolResultBudgetConfig) : Fs * result ToolResultStorageError StoredToolResult :=
  maybe_store_tool_result_with_threshold fs content tool_name tool_call_id
    (result_budget_bytes config) config.

(** ** The budget of a turn *)

Definition total_bytes (messages : list ToolResultMessage) : Z :=
  foldr (fun m acc => str_len (msg_content m) + acc) 0 messages.

(** The messages that can be spilled, with their sizes, largest first. *)
Definition candidates (messages : list ToolResultMessage) : list (nat * Z) :=
  order_by_key (fun c => - c.2)
    (map (fun im => (im.1, str_len (msg_content im.2)))
       (filter (fun im => already_stored im.2 = false /\ msg_content im.2 <> "")
          (imap pair messages))).

Definition replaced (m : ToolResultMessage) (stored : StoredToolResult) : ToolResultMessage :=
  {| msg_tool_name := msg_tool_name m; msg_tool_call_id := msg_tool_call_id m;
     msg_content := sr_injectable_content stored; msg_metadata := Some (sr_metadata stored) |}.

(** The loop; an error leaves the messages replaced so far.  The indices are those of
    the messages ([candidates_valid]), so that the lookup does not fail. *)
Fixpoint spill_loop (config : ToolResultBudgetConfig) (target : ToolResultStorageTarget)
    (cands : list (nat * Z)) (total_size : Z) (fs : Fs) (messages : list ToolResultMessage)
  : Fs * list ToolResultMessage * result ToolResultStorageError unit :=
  match cands with
  | [] => (fs, messages, Ok tt)
  | (idx, original_size) :: cands' =>
      if bool_decide (total_size <= turn_budget_bytes config) then (fs, messages, Ok tt)
      else
        match messages !! idx with
        | None => (fs, messages, Ok tt)
        | Some m =>
            match maybe_store_tool_result_with_target fs (msg_content m) (msg_tool_name m)
                    (msg_tool_call_id m) 0 config target with
            | (fs', Err e) => (fs', messages, Err e)
            | (fs', Ok stored) =>
                spill_loop config target cands'
                  (total_size - original_size + str_len (sr_injectable_content stored))
                  fs' (<[idx := replaced m stored]> messages)
            end
        end
  end.

Definition enforce_turn_budget_with_target (fs : Fs) (messages : list ToolResultMessage)
    (config : ToolResultBudgetConfig) (target : ToolResultStorageTarget)
  : Fs * list ToolResultMessage * result ToolResultStorageError unit :=
  let total_size := total_bytes messages in
  if bool_decide (total_size <= turn_budget_bytes config) then (fs, messages, Ok tt)
  else spill_loop config target (candidates messages) total_size fs messages.

Definition enforce_turn_budget (fs : Fs) (messages : list ToolResultMessage)
    (config : ToolResultBudgetConfig)
  : Fs * list ToolResultMessage * result ToolResultStorageError unit :=
  enforce_turn_budget_with_target fs messages config (host_new (storage_dir config)).

#[export] Instance host_laws root id kind : TargetLaws (host_with_environment root id kind).
Proof.
  constructor. intros fs path content fs' Hw. simpl in Hw. unfold write_result_file in Hw.
  repeat case_match; congruence.
Qed.

End Storage.
