(* ===== verification/ToolResultsTheorems.v ===== *)
(** * What tool result storage guarantees

    Whatever a tool call is named, its file is a direct child of the storage
    directory; a preview is a bounded prefix; the turn budget is enforced largest
    first, and what it replaces is in the files. *)

From stdpp Require Import prelude gmap strings list sorting.
From S2P Require Import Prelude.
From S2P Require Import Env.
From S2P Require Import Concrete.
From S2P Require Import Dispatcher.
From S2P Require Import TurnProof.
From S2P Require Import ToolResults.
Local Open Scope res_scope.
Local Open Scope Z_scope.

(** ** Paths *)

Definition no_slash (s : string) : Prop :=
  str_all (fun c => negb (Ascii.eqb c slash)) s = true.

(** A file name: one normal component. *)
Definition name_ok (f : string) : Prop :=
  no_slash f /\ f <> "" /\ f <> "." /\ f <> "..".

Lemma split_slash_cons s : exists w ws, split_slash s = w :: ws.
Proof.
  induction s as [|c s [w [ws IH]]]; simpl; [eauto|]. destruct (Ascii.eqb c slash); [eauto|].
  rewrite IH. eauto.
Qed.

Lemma split_slash_app a b :
  split_slash (a +:+ String slash b) = split_slash a ++ split_slash b.
Proof.
  induction a as [|c a IH]; simpl; [done|].
  destruct (Ascii.eqb c slash); rewrite IH; [done|].
  by destruct (split_slash_cons a) as (w & ws & ->).
Qed.

Lemma split_slash_name f : no_slash f -> split_slash f = [f].
Proof.
  unfold no_slash, str_all. induction f as [|c f IH]; simpl; [done|].
  intros [Hc Hf]%andb_prop. apply negb_true_iff in Hc. by rewrite Hc, IH.
Qed.

Lemma ends_with_slash_split s :
  ends_with_slash s = true -> exists s', s = s' +:+ String slash EmptyString.
Proof.
  induction s as [|c s IH]; [done|]. destruct s as [|c' s].
  - intros He%Ascii.eqb_eq. exists "". by rewrite He.
  - intros He. destruct (IH He) as [s' Hs]. exists (String c s'). by rewrite Hs.
Qed.

Lemma ends_with_slash_app a b :
  b <> "" -> ends_with_slash (a +:+ b) = ends_with_slash b.
Proof.
  intros Hb. induction a as [|c a IH]; [done|]. simpl. rewrite IH.
  destruct a; simpl; [by destruct b|done].
Qed.

Lemma is_absolute_app a b : a <> "" -> is_absolute (a +:+ b) = is_absolute a.
Proof. by destruct a. Qed.

Lemma is_absolute_name f : no_slash f -> is_absolute f = false.
Proof.
  destruct f as [|c f]; [done|]. unfold no_slash, str_all. simpl.
  intros [Hc _]%andb_prop. by apply negb_true_iff in Hc.
Qed.

Lemma string_app_nil_r s : s +:+ "" = s.
Proof. induction s as [|c s IH]; [done|]. exact (f_equal (String c) IH). Qed.

(** What [path_join] puts between the two. *)
Definition sep (a : string) : string :=
  if bool_decide (a = "") || ends_with_slash a then "" else "/".

Lemma path_join_rel a b : is_absolute b = false -> path_join a b = a +:+ sep a +:+ b.
Proof. intros Hb. unfold path_join, sep. rewrite Hb. by destruct (_ || _). Qed.

Lemma sep_join a r : sep (a +:+ sep a +:+ r) = sep r.
Proof.
  destruct (decide (r = "")) as [->|Hr].
  - rewrite string_app_nil_r. unfold sep at 2. destruct (bool_decide (a = "")) eqn:Ea; simpl.
    { apply bool_decide_eq_true in Ea as ->. done. }
    apply bool_decide_eq_false in Ea. unfold sep.
    destruct (ends_with_slash a) eqn:He; rewrite ?string_app_nil_r, ?He, ?orb_true_r; [done|].
    rewrite ends_with_slash_app by done. by rewrite orb_true_r.
  - unfold sep at 1. rewrite string_app_assoc, ends_with_slash_app by done.
    unfold sep. rewrite !(bool_decide_false (r = "")) by done.
    rewrite bool_decide_false; [done|]. destruct (a +:+ _); [by destruct r|done].
Qed.

Lemma is_absolute_join a b : is_absolute a = false -> is_absolute b = false ->
  is_absolute (path_join a b) = false.
Proof. intros Ha Hb. rewrite path_join_rel by done. by destruct a. Qed.

Lemma path_join_assoc a r f : is_absolute r = false -> is_absolute f = false ->
  path_join a (path_join r f) = path_join (path_join a r) f.
Proof.
  intros Hr Hf. rewrite path_join_rel by (by apply is_absolute_join).
  rewrite !path_join_rel by done. by rewrite sep_join, !string_app_assoc.
Qed.

(** Joining a file name adds one component. *)
Lemma components_join root f :
  name_ok f -> components (path_join root f) = components root ++ [Normal f].
Proof.
  intros (Hs & H1 & H2 & H3).
  assert (Hp : piece f = [Normal f]).
  { unfold piece. rewrite !bool_decide_false by naive_solver. done. }
  assert (Hsuf : forall a b, a <> "" ->
    split_slash b = split_slash a ++ [f] \/ (exists x, split_slash a = x ++ [""] /\ x <> [] /\ split_slash b = x ++ [f]) ->
    is_absolute b = is_absolute a -> components b = components a ++ [Normal f]).
  { intros a b Ha Hsplit Hb. unfold components. rewrite Hb, <- app_assoc. f_equal.
    destruct Hsplit as [->|([|w ws] & -> & Hx & ->)]; [|done|].
    - destruct (split_slash_cons a) as (w & ws & ->). simpl.
      by rewrite bind_app, <- app_assoc; simpl; rewrite Hp.
    - simpl. rewrite !bind_app, <- !app_assoc. simpl. by rewrite Hp. }
  unfold path_join. rewrite is_absolute_name by done. case_bool_decide as Hr; simpl.
  - subst. simpl. unfold components. rewrite is_absolute_name, split_slash_name by done. simpl.
    unfold first_piece. by rewrite bool_decide_false, app_nil_r.
  - destruct (ends_with_slash root) eqn:He; apply Hsuf; try done.
    + right. apply ends_with_slash_split in He as [r' ->].
      exists (split_slash r'). rewrite split_slash_app. split; [done|]. split.
      * by destruct (split_slash_cons r') as (w & ws & ->).
      * rewrite <- string_app_assoc. change (split_slash (r' +:+ String slash f) = split_slash r' ++ [f]).
        by rewrite split_slash_app, (split_slash_name f).
    + by apply is_absolute_app.
    + left. change (split_slash (root +:+ String slash f) = split_slash root ++ [f]).
      by rewrite split_slash_app, (split_slash_name f).
    + by apply is_absolute_app.
Qed.

Section Confined.
Context `{Env} (cwd : option string) (size_label : Z -> string).
Context (create_fault : Fs -> string -> option string).
Context (write_fault : Fs -> string -> string -> option (string * Fs)).
(** [hex::encode] writes digits and letters. *)
Context (hex_digits : forall s, str_all is_ascii_alphanumeric (hex_encode s) = true).

(** The bytes of a file name. *)
Definition name_byte (c : Ascii.ascii) : bool :=
  is_ascii_alphanumeric c || byte_in "_-." c.

Lemma str_all_app p a b : str_all p (a +:+ b) = str_all p a && str_all p b.
Proof.
  unfold str_all. induction a as [|c a IH]; [done|]. simpl. by rewrite IH, andb_assoc.
Qed.

Lemma str_all_impl (p q : Ascii.ascii -> bool) s :
  (forall c, p c = true -> q c = true) -> str_all p s = true -> str_all q s = true.
Proof. unfold str_all. rewrite !forallb_forall. eauto. Qed.

Lemma name_byte_no_slash c : name_byte c = true -> negb (Ascii.eqb c slash) = true.
Proof. destruct (Ascii.eqb c slash) eqn:E; [|done]. apply Ascii.eqb_eq in E as ->. done. Qed.

Lemma safe_bytes_name l :
  str_all name_byte (String.string_of_list_ascii (take 80 (omap safe_byte l))) = true.
Proof.
  unfold str_all. rewrite String.list_ascii_of_string_of_list_ascii.
  apply forallb_forall. intros c Hc%list_elem_of_In%elem_of_take.
  destruct Hc as (i & Hc & _). apply list_elem_of_lookup_2, list_elem_of_omap in Hc as (d & _ & Hd).
  unfold safe_byte in Hd. unfold name_byte. unfold byte_in in *. simpl in *.
  destruct (is_ascii_alphanumeric d) eqn:Ed; simpl in Hd; [by simplify_eq; rewrite Ed|].
  rewrite !orb_false_r in *. destruct (Ascii.eqb d _) eqn:E1; simpl in Hd.
  { simplify_eq. rewrite E1. by rewrite orb_true_r. }
  destruct (Ascii.eqb d _) eqn:E2 in Hd; simpl in Hd.
  { simplify_eq. rewrite E2. by rewrite !orb_true_r. }
  case_match; simplify_eq. done.
Qed.

Lemma safe_file_stem_ok id :
  safe_file_stem id <> "" /\ str_all name_byte (safe_file_stem id) = true.
Proof.
  unfold safe_file_stem. set (s := String.string_of_list_ascii _).
  destruct (bool_decide (s = "")) eqn:Es; simpl; [|destruct (_ || _)].
  1,2: split; [by destruct (hex_encode _)|]; rewrite str_all_app;
    apply andb_true_intro; split; [done|];
    eapply str_all_impl; [|apply hex_digits]; unfold name_byte; by intros c ->.
  apply bool_decide_eq_false in Es. split; [done|]. apply safe_bytes_name.
Qed.

Definition file_name (id : string) : string := safe_file_stem id +:+ ".txt".

Lemma file_name_ok id : name_ok (file_name id).
Proof.
  destruct (safe_file_stem_ok id) as [Hne Hb]. unfold file_name.
  assert (Hl : (5 <= String.length (safe_file_stem id +:+ ".txt"))%nat).
  { rewrite append_length. destruct (safe_file_stem id); simpl; [done|lia]. }
  split.
  - unfold no_slash. eapply str_all_impl; [apply name_byte_no_slash|].
    by rewrite str_all_app, Hb.
  - repeat split; intros E; rewrite E in Hl; simpl in Hl; lia.
Qed.

Lemma absolutize_join root f : name_ok f ->
  absolutize_for_check cwd (path_join root f) = absolutize_for_check cwd root ++ [Normal f].
Proof.
  intros Hf. assert (Hn : is_absolute f = false) by apply is_absolute_name, Hf.
  assert (Hnorm : forall p, normalize_components (path_join p f)
                            = normalize_components p ++ [Normal f]).
  { intros p. unfold normalize_components. rewrite components_join by done.
    by rewrite foldl_app. }
  unfold absolutize_for_check. destruct (is_absolute root) eqn:Hr.
  - rewrite path_join_rel by done. rewrite is_absolute_app by (by destruct root).
    rewrite Hr, <- path_join_rel by done. apply Hnorm.
  - rewrite is_absolute_join by done. rewrite path_join_assoc by done. apply Hnorm.
Qed.

Lemma ensure_child_join root f : name_ok f ->
  ensure_child_path cwd root (path_join root f) = Ok tt.
Proof.
  intros Hf. unfold ensure_child_path, path_starts_with. rewrite absolutize_join by done.
  by rewrite take_app_length, bool_decide_true.
Qed.

Lemma stable_result_path_ok root id :
  stable_result_path cwd root id = Ok (path_join root (file_name id)).
Proof.
  unfold stable_result_path. fold (file_name id).
  by rewrite ensure_child_join by apply file_name_ok.
Qed.

(**  Where a tool result goes.  Whatever the tool call is named (the model
    chooses the name), its file is a direct child of the storage directory: the path
    is never refused as unsafe and has the components of the directory and one more.
    A result within the threshold is passed on as it is and nothing is written; a
    larger one is written to that file in full, no other file changes, and the only
    errors are those of the file system. *)
Theorem result_file_confined fs content name id threshold config root env_id env_kind :
  let path := path_join root (safe_file_stem id +:+ ".txt") in
  components path = components root ++ [Normal (safe_file_stem id +:+ ".txt")] /\
  absolutize_for_check cwd path
    = absolutize_for_check cwd root ++ [Normal (safe_file_stem id +:+ ".txt")] /\
  match maybe_store_tool_result_with_target cwd size_label fs content name id threshold config
          (host_with_environment cwd create_fault write_fault root env_id env_kind) with
  | (fs', Ok r) =>
      md_bytes (sr_metadata r) = str_len content /\
      if bool_decide (str_len content <= threshold)
      then fs' = fs /\ sr_injectable_content r = content /\ md_path (sr_metadata r) = None
      else fs' = <[path := content]> fs /\ md_path (sr_metadata r) = Some path
  | (_, Err e) => threshold < str_len content /\ exists io, e = StorageIo io
  end.
Proof.
  intros path. pose proof (file_name_ok id) as Hn. unfold file_name in Hn.
  split; [by apply components_join|]. split; [by apply absolutize_join|].
  unfold maybe_store_tool_result_with_target.
  destruct (generate_preview content (preview_bytes config)) as [preview more].
  case_bool_decide as Hb; [done|]. simpl storage_root. rewrite stable_result_path_ok.
  unfold file_name. fold path. unfold path at 1. rewrite ensure_child_join by done. fold path.
  simpl. unfold write_result_file. destruct (create_fault fs root); [split; [lia|eauto]|].
  unfold path at 1. rewrite ensure_child_join by done. fold path.
  destruct (write_fault fs path content) as [[e fs']|]; [split; [lia|eauto]|done].
Qed.

End Confined.

Lemma toy_hex_digits s : str_all is_ascii_alphanumeric (toy_hex_encode s) = true.
Proof.
  unfold str_all. induction s as [|a s IH]; [done|]. simpl. rewrite IH, andb_true_r.
  destruct a as [[] [] [] [] [] [] [] []]; vm_compute; reflexivity.
Qed.

Lemma result_file_confined_witness :
  let path := path_join "/data/results" (safe_file_stem "../../etc/passwd" +:+ ".txt") in
  components path
    = [RootDir; Normal "data"; Normal "results";
       Normal (safe_file_stem "../../etc/passwd" +:+ ".txt")].
Proof.
  refine (proj1 (result_file_confined (Some "/") (fun _ => "") (fun _ _ => None)
    (fun _ _ _ => None) toy_hex_digits ∅ "output" "shell" "../../etc/passwd" 0
    (config_new "/tmp" "/data/results") "/data/results" None None)).
Defined.

(** ** Previews *)

Lemma str_prefix_le n m s : (n <= m)%nat -> str_prefix n (str_prefix m s) = str_prefix n s.
Proof.
  unfold str_prefix. revert n m. induction s as [|a s IH]; intros [|n] [|m] Hn; simpl; try done;
    [lia|]. f_equal. apply IH. lia.
Qed.

Lemma prefix_get i n s : (i < n)%nat -> String.get i (str_prefix n s) = String.get i s.
Proof.
  unfold str_prefix. revert i n. induction s as [|a s IH]; intros [|i] [|n] Hi; simpl; try done;
    try lia. apply IH. lia.
Qed.

Lemma get_at_length s : String.get (String.length s) s = None.
Proof. by induction s. Qed.

Lemma rfind_newline_Some s i : rfind_newline s = Some i ->
  (i < String.length s)%nat /\ String.get i s = Some (Ascii.ascii_of_N 10).
Proof.
  revert i. induction s as [|c s IH]; intros i Hi; simpl in *; [done|].
  destruct (rfind_newline s) as [j|]; simplify_eq; [destruct (IH j eq_refl); split; [lia|done]|].
  destruct (byte_is 10 c) eqn:Ec; simplify_eq. split; [lia|].
  unfold byte_is in Ec. apply N.eqb_eq in Ec. f_equal.
  by rewrite <- (Ascii.ascii_N_embedding c), Ec.
Qed.

(** In UTF-8 text no continuation byte comes first or after an ASCII byte. *)
Definition utf8_ascii (s : string) : Prop :=
  is_char_boundary s 0 = true /\
  forall i a, String.get i s = Some a -> (Ascii.N_of_ascii a < 128)%N ->
    is_char_boundary s (S i) = true.

(** Previews.  On UTF-8 text the preview is a prefix that ends at a character
    boundary (the slices of the code do not panic), of at most the configured bytes;
    it says there is more exactly when the content is longer than that, and is the
    whole content otherwise. *)
Theorem generate_preview_spec content max_bytes preview has_more :
  utf8_ascii content -> 0 <= max_bytes ->
  generate_preview content max_bytes = (preview, has_more) ->
  (exists rest, content = preview +:+ rest) /\
  str_len preview <= max_bytes /\
  is_char_boundary content (String.length preview) = true /\
  (has_more = true <-> max_bytes < str_len content) /\
  (has_more = false -> preview = content).
Proof.
  intros [H0 Hu] Hm Hg. unfold generate_preview in Hg. case_bool_decide as Hlen.
  { simplify_eq. split; [exists ""; by rewrite string_app_nil_r|].
    split; [done|]. split; [|split; [split; [done|lia]|done]].
    unfold is_char_boundary. rewrite get_at_length. by rewrite bool_decide_true. }
  rewrite Z.min_l in Hg by lia. set (b := boundary_before content (Z.to_nat max_bytes)) in Hg.
  destruct (boundary_before_spec content (Z.to_nat max_bytes)) as (H1 & H2 & _). fold b in H1, H2.
  assert (Hb : is_char_boundary content b = true) by (destruct H2 as [H2 | ->]; done).
  assert (Hlb : (b < String.length content)%nat) by (unfold str_len in Hlen; lia).
  assert (Hcut : exists n, preview = str_prefix n content /\ (n <= b)%nat /\
                   is_char_boundary content n = true /\ has_more = true).
  { destruct (rfind_newline (str_prefix b content)) as [j|] eqn:Ej; [|by simplify_eq; eauto].
    case_bool_decide; [|by simplify_eq; eauto]. simplify_eq.
    apply rfind_newline_Some in Ej as [Hj1 Hj2]. rewrite prefix_length in Hj1 by lia.
    rewrite prefix_get in Hj2 by lia.
    exists (j + 1)%nat. rewrite str_prefix_le by lia. split; [done|]. split; [lia|].
    split; [|done]. rewrite Nat.add_1_r. by eapply Hu. }
  destruct Hcut as (n & -> & Hn & Hbn & ->). split; [apply prefix_split|].
  unfold str_len in *. rewrite prefix_length by lia.
  split; [lia|]. split; [done|]. split; [split; [lia|done]|done].
Qed.

Lemma generate_preview_spec_witness :
  generate_preview "short text" 100 = ("short text", false) /\
  ((exists rest, "short text" = "short text" +:+ rest) /\
   str_len "short text" <= 100 /\
   is_char_boundary "short text" (String.length "short text") = true /\
   (false = true <-> 100 < str_len "short text") /\
   (false = false -> "short text" = "short text")).
Proof.
  split; [reflexivity|]. apply generate_preview_spec; [|lia|reflexivity].
  split; [reflexivity|]. intros i a Hi _.
  do 10 (destruct i as [|i]; [vm_compute; reflexivity|]). discriminate Hi.
Defined.

(** ** The turn budget *)

Section Budget.
Context `{Env} (cwd : option string) (size_label : Z -> string).
Context (hex_digits : forall s, str_all is_ascii_alphanumeric (hex_encode s) = true).
Context (config : ToolResultBudgetConfig) (target : ToolResultStorageTarget).
Context `{!TargetLaws target}.

(** The file of a message. *)
Definition result_file (m : ToolResultMessage) : string :=
  path_join (storage_root target) (safe_file_stem (msg_tool_call_id m) +:+ ".txt").

(** The message a spilled message becomes. *)
Definition spilled (m : ToolResultMessage) : ToolResultMessage :=
  let '(preview, has_more) := generate_preview (msg_content m) (preview_bytes config) in
  replaced m
    {| sr_injectable_content := build_persisted_message size_label preview has_more
                                  (str_len (msg_content m)) (result_file m);
       sr_metadata := metadata_of target (msg_tool_name m) (msg_tool_call_id m)
                        (str_len (msg_content m)) preview has_more true (Some (result_file m)) |}.

Lemma store_spills fs m threshold fs' stored :
  threshold < str_len (msg_content m) ->
  maybe_store_tool_result_with_target cwd size_label fs (msg_content m) (msg_tool_name m)
    (msg_tool_call_id m) threshold config target = (fs', Ok stored) ->
  replaced m stored = spilled m /\ fs' = <[result_file m := msg_content m]> fs.
Proof.
  intros Hs. unfold maybe_store_tool_result_with_target, spilled.
  destruct (generate_preview (msg_content m) (preview_bytes config)) as [preview more].
  rewrite bool_decide_false by lia. rewrite stable_result_path_ok by done.
  rewrite ensure_child_join by (by apply file_name_ok).
  destruct (write_tool_result _ _ _ _) as [fs1 [[]|e]] eqn:Hw; intros; simplify_eq.
  apply write_ok in Hw as ->. done.
Qed.

(** The spilled prefix of the candidates, and what is written for it. *)
Definition spill_all (messages : list ToolResultMessage) (idxs : list nat)
  : list ToolResultMessage :=
  foldl (fun ms i => alter spilled i ms) messages idxs.

Definition write_all (messages : list ToolResultMessage) (idxs : list nat) (fs : Fs) : Fs :=
  foldl (fun fs i => match messages !! i with
                     | Some m => <[result_file m := msg_content m]> fs
                     | None => fs end) fs idxs.

Lemma total_bytes_insert messages i m m' :
  messages !! i = Some m ->
  total_bytes (<[i := m']> messages)
  = total_bytes messages - str_len (msg_content m) + str_len (msg_content m').
Proof.
  revert i. induction messages as [|x messages IH]; intros [|i] Hi; simplify_eq/=; [lia|].
  rewrite (IH i Hi). lia.
Qed.

Definition cand_ok (messages : list ToolResultMessage) (c : nat * Z) : Prop :=
  exists m, messages !! c.1 = Some m /\ c.2 = str_len (msg_content m) /\ 0 < c.2.

Lemma write_all_ext messages messages' idxs : forall fs,
  (forall i, i ∈ idxs -> messages !! i = messages' !! i) ->
  write_all messages idxs fs = write_all messages' idxs fs.
Proof.
  induction idxs as [|i idxs IH]; intros fs Hext; simpl; [done|].
  rewrite (Hext i) by set_solver. apply IH. set_solver.
Qed.

Lemma spill_loop_ok cands : forall total fs messages fs' messages',
  NoDup cands.*1 -> Forall (cand_ok messages) cands -> total = total_bytes messages ->
  spill_loop cwd size_label config target cands total fs messages = (fs', messages', Ok tt) ->
  exists picked rest, cands = picked ++ rest /\
    messages' = spill_all messages picked.*1 /\ fs' = write_all messages picked.*1 fs /\
    (rest = [] \/ total_bytes messages' <= turn_budget_bytes config).
Proof.
  induction cands as [|[i size] cands IH]; intros total fs messages fs' messages' Hnd Hok Htot Hl;
    simpl in Hl.
  { simplify_eq. exists [], []. eauto. }
  case_bool_decide as Hb.
  { simplify_eq. exists [], ((i, size) :: cands). split; [done|]. eauto. }
  apply NoDup_cons in Hnd as [Hi Hnd]. apply Forall_cons in Hok as [(m & Hm & Hsz & Hpos) Hok].
  simpl in Hm, Hsz, Hpos. rewrite Hm in Hl. subst size.
  destruct (maybe_store_tool_result_with_target _ _ _ _ _ _ _ _ _) as [fs1 [stored|e]] eqn:Hst;
    [|done].
  apply store_spills in Hst as [Hrep ->]; [|done].
  assert (Hkeep : forall j, j ∈ cands.*1 -> <[i := spilled m]> messages !! j = messages !! j).
  { intros j Hj. apply list_lookup_insert_ne. by intros ->. }
  assert (Halt : <[i:=spilled m]> messages = alter spilled i messages).
  { apply list_eq. intros j. destruct (decide (j = i)) as [->|Hj].
    - rewrite list_lookup_alter_eq, list_lookup_insert_eq, Hm; [done|].
      by eapply lookup_lt_Some.
    - by rewrite list_lookup_alter_ne, list_lookup_insert_ne. }
  assert (Hcont : str_len (sr_injectable_content stored) = str_len (msg_content (spilled m))).
  { by rewrite <- Hrep. }
  rewrite Hrep, Hcont in Hl. eapply IH in Hl as (picked & rest & -> & -> & -> & Hend).
  - exists ((i, str_len (msg_content m)) :: picked), rest. split; [done|].
    rewrite Halt in Hend. rewrite Halt. split; [done|]. split; [|done].
    simpl. rewrite Hm, <- Halt. apply write_all_ext. intros j Hj. apply Hkeep.
    rewrite fmap_app. set_solver.
  - done.
  - rewrite Forall_forall in Hok |- *. intros c Hc. destruct (Hok c Hc) as (m' & Hm' & ?).
    exists m'. split; [|done]. rewrite Hkeep; [done|]. by apply list_elem_of_fmap_2.
  - subst total. by rewrite (total_bytes_insert _ _ m).
Qed.

Lemma candidates_valid messages c :
  c ∈ candidates messages <->
  exists m, messages !! c.1 = Some m /\ c.2 = str_len (msg_content m) /\
            already_stored m = false /\ msg_content m <> "".
Proof.
  unfold candidates, order_by_key. rewrite elem_of_order_by. destruct c as [i size].
  change (map ?f ?l) with (f <$> l). rewrite list_elem_of_fmap. setoid_rewrite list_elem_of_filter.
  split.
  - intros ([j m] & Hc & [Hs Hne] & Hin). simplify_eq/=.
    apply elem_of_lookup_imap in Hin as (j' & m' & Hj & Hm). simplify_eq. eauto.
  - intros (m & Hm & Hsz & Hs & Hne). simpl in Hm, Hsz. subst size. exists (i, m). split; [done|]. split; [done|].
    apply elem_of_lookup_imap. eauto.
Qed.

Lemma NoDup_filter_key {A B} (k : A -> B) (P : A -> Prop) `{!forall x, Decision (P x)} l :
  NoDup (k <$> l) -> NoDup (k <$> filter P l).
Proof.
  induction l as [|x l IH]; [done|]. rewrite fmap_cons, NoDup_cons. intros [Hx Hl].
  rewrite filter_cons. case_decide; [|auto]. rewrite fmap_cons, NoDup_cons. split; [|auto].
  contradict Hx. apply list_elem_of_fmap in Hx as (y & -> & Hy).
  apply list_elem_of_filter in Hy as [_ Hy]. by apply list_elem_of_fmap_2.
Qed.

Lemma candidates_nodup messages : NoDup (candidates messages).*1.
Proof.
  unfold candidates, order_by_key. rewrite order_by_perm.
  change (map ?f ?l) with (f <$> l). rewrite <- list_fmap_compose.
  apply (NoDup_filter_key (fun im : nat * ToolResultMessage => im.1)).
  rewrite fmap_imap. apply NoDup_alt. intros i j x.
  rewrite !list_lookup_imap. intros Hi Hj.
  apply fmap_Some in Hi as (? & _ & Hi). apply fmap_Some in Hj as (? & _ & Hj).
  simpl in Hi, Hj. congruence.
Qed.

Lemma spill_all_lookup idxs : forall messages i, NoDup idxs ->
  spill_all messages idxs !! i
  = (if bool_decide (i ∈ idxs) then spilled else id) <$> messages !! i.
Proof.
  induction idxs as [|j idxs IH]; intros messages i Hnd.
  { change (spill_all messages []) with messages. rewrite bool_decide_false by set_solver.
    by destruct (messages !! i). }
  apply NoDup_cons in Hnd as [Hj Hnd].
  change (spill_all messages (j :: idxs)) with (spill_all (alter spilled j messages) idxs).
  rewrite IH by done.
  destruct (decide (i = j)) as [->|Hij].
  - rewrite list_lookup_alter_eq. rewrite bool_decide_false by done.
    rewrite bool_decide_true by set_solver. by destruct (messages !! j).
  - rewrite list_lookup_alter_ne by done. 
    rewrite (bool_decide_ext (i ∈ j :: idxs) (i ∈ idxs)) by set_solver. done.
Qed.

Lemma write_all_other messages idxs p : forall fs,
  (forall i m, i ∈ idxs -> messages !! i = Some m -> result_file m <> p) ->
  write_all messages idxs fs !! p = fs !! p.
Proof.
  induction idxs as [|i idxs IH]; intros fs Hp; simpl; [done|].
  change (foldl _ ?f ?l) with (write_all messages l f). rewrite IH by set_solver.
  destruct (messages !! i) as [m|] eqn:Hm; [|done].
  apply lookup_insert_ne. eapply Hp; [|done]. set_solver.
Qed.

Lemma write_all_lookup messages idxs i m : forall fs,
  NoDup idxs -> NoDup (result_file <$> messages) -> i ∈ idxs -> messages !! i = Some m ->
  write_all messages idxs fs !! result_file m = Some (msg_content m).
Proof.
  induction idxs as [|j idxs IH]; intros fs Hnd Hf Hi Hm; simpl; [set_solver|].
  apply NoDup_cons in Hnd as [Hj Hnd].
  change (foldl _ ?f ?l) with (write_all messages l f).
  apply elem_of_cons in Hi as [<-|Hi]; [|by apply IH].
  rewrite Hm, write_all_other; [apply lookup_insert_eq|].
  intros k mk Hk Hmk E. assert (k = i) as ->; [|done].
  eapply NoDup_lookup; [exact Hf|by rewrite list_lookup_fmap, Hmk|].
  rewrite list_lookup_fmap, Hm. simpl. by rewrite E.
Qed.

(** When every candidate was spilled nothing is left to spill. *)
Lemma spill_candidates_complete messages :
  Forall (fun m => already_stored m = true \/ msg_content m = "")
    (spill_all messages (candidates messages).*1).
Proof.
  apply Forall_lookup. intros i m' Hm'.
  rewrite spill_all_lookup in Hm' by apply candidates_nodup.
  apply fmap_Some in Hm' as (m & Hm & ->). case_bool_decide as Hi.
  { left. unfold spilled. by destruct (generate_preview _ _). }
  destruct (already_stored m) eqn:Hst; [by left|right]. simpl.
  destruct (decide (msg_content m = "")) as [|Hne]; [done|]. destruct Hi.
  apply (list_elem_of_fmap_2 fst _ (i, str_len (msg_content m))).
  apply candidates_valid. eauto.
Qed.

Lemma largest_first messages picked rest i j mi mj :
  candidates messages = picked ++ rest ->
  messages !! i = Some mi -> messages !! j = Some mj ->
  i ∈ picked.*1 -> j ∉ picked.*1 -> already_stored mj = false -> msg_content mj <> "" ->
  str_len (msg_content mj) <= str_len (msg_content mi).
Proof.
  intros Hc Hi Hj Hpi Hpj Hst Hne.
  apply list_elem_of_fmap in Hpi as ([i' si] & -> & Hpi).
  assert (Hci : (i', si) ∈ candidates messages) by (rewrite Hc; set_solver).
  apply candidates_valid in Hci as (m & Hm & Hs & _). simpl in *. simplify_eq.
  assert (Hcj : (j, str_len (msg_content mj)) ∈ candidates messages).
  { apply candidates_valid. eauto. }
  rewrite Hc in Hcj. apply elem_of_app in Hcj as [Hcj|Hcj].
  { destruct Hpj. by apply (list_elem_of_fmap_2 fst) in Hcj. }
  assert (Hsort : StronglySorted (fun c d : nat * Z => - c.2 <= - d.2) (candidates messages))
    by apply order_by_key_sorted.
  rewrite Hc in Hsort.
  eapply StronglySorted_app_1_elem_of in Hsort; [|exact Hpi|exact Hcj]. simpl in Hsort. lia.
Qed.

(** The turn budget.  When the budget is enforced, every message is either kept
    or replaced by the pointer to its file, nothing is replaced that is already stored
    or empty or if the turn is within budget, and larger messages go first.  Then the
    turn is within the budget or nothing is left that could be spilled.  When the files
    of the messages are different, every replaced content is in its file; no other file
    changes. *)
Lemma turn_budget_spec fs messages fs' messages' :
  enforce_turn_budget_with_target cwd size_label fs messages config target
    = (fs', messages', Ok tt) ->
  exists spill : nat -> bool,
    (forall i, messages' !! i = (if spill i then spilled else id) <$> messages !! i) /\
    (forall i, spill i = true -> turn_budget_bytes config < total_bytes messages /\
       exists m, messages !! i = Some m /\ already_stored m = false /\ msg_content m <> "") /\
    (total_bytes messages' <= turn_budget_bytes config \/
     Forall (fun m => already_stored m = true \/ msg_content m = "") messages') /\
    (forall i j mi mj, messages !! i = Some mi -> messages !! j = Some mj ->
       spill i = true -> spill j = false -> already_stored mj = false -> msg_content mj <> "" ->
       str_len (msg_content mj) <= str_len (msg_content mi)) /\
    (forall p, (forall i m, messages !! i = Some m -> spill i = true -> result_file m <> p) ->
       fs' !! p = fs !! p) /\
    (NoDup (result_file <$> messages) -> forall i m, messages !! i = Some m -> spill i = true ->
       fs' !! result_file m = Some (msg_content m)).
Proof.
  unfold enforce_turn_budget_with_target. case_bool_decide as Hb; intros He.
  { simplify_eq. exists (fun _ => false). split; [by intros i; destruct (messages' !! i)|].
    split; [done|]. split; [by left|]. done. }
  pose proof (candidates_nodup messages) as Hnd.
  apply spill_loop_ok in He as (picked & rest & Hc & -> & -> & Hend); [|done| |done].
  2:{ apply Forall_forall. intros c Hc. apply candidates_valid in Hc as (m & Hm & Hs & _ & Hne).
      exists m. split; [done|]. split; [done|]. rewrite Hs. unfold str_len.
      destruct (msg_content m); simpl; [done|lia]. }
  rewrite Hc, fmap_app in Hnd.
  apply NoDup_app in Hnd as (Hnp & Hdisj & _).
  exists (fun i => bool_decide (i ∈ picked.*1)).
  split; [intros i; by apply spill_all_lookup|]. split; [|split; [|split; [|split]]].
  - intros i Hi%bool_decide_eq_true. split; [lia|].
    apply list_elem_of_fmap in Hi as (c & -> & Hi).
    assert (Hin : c ∈ candidates messages) by (rewrite Hc; set_solver).
    apply candidates_valid in Hin as (m & ? & _ & ? & ?). eauto.
  - destruct Hend as [-> | Hend]; [right|by left]. rewrite app_nil_r in Hc. subst picked.
    apply spill_candidates_complete.
  - intros i j mi mj Hi Hj Hpi%bool_decide_eq_true Hpj%bool_decide_eq_false Hst Hne.
    by eapply largest_first.
  - intros p Hp. apply write_all_other. intros i m Hi Hm. eapply Hp; [done|].
    by apply bool_decide_eq_true.
  - intros Hf i m Hm Hi%bool_decide_eq_true. by apply write_all_lookup with (i := i).
Qed.
End Budget.

(** ** A run *)

Definition sample_config : ToolResultBudgetConfig :=
  {| result_budget_bytes := 100; turn_budget_bytes := 12; preview_bytes := 4;
     storage_dir := "/r" |}.

Definition sample_enforce (messages : list ToolResultMessage)
  : Fs * list ToolResultMessage * result ToolResultStorageError unit :=
  enforce_turn_budget (Some "/") (fun _ => "0.0 KB") (fun _ _ => None) (fun _ _ _ => None) ∅
    messages sample_config.

Definition sample_messages : list ToolResultMessage :=
  [message_new "shell" "call-1" "first output"; message_new "shell" "call-2" "ok"].

Lemma turn_budget_spec_witness :
  snd (sample_enforce sample_messages) = Ok tt /\
  fst (fst (sample_enforce sample_messages)) !! "/r/call-1.txt" = Some "first output".
Proof.
  split; [vm_compute; reflexivity|].
  destruct (@turn_budget_spec toy_env (Some "/") (fun _ => "0.0 KB") toy_hex_digits sample_config
    (host_new (Some "/") (fun _ _ => None) (fun _ _ _ => None) "/r") _ ∅ sample_messages
    (fst (fst (sample_enforce sample_messages))) (snd (fst (sample_enforce sample_messages))))
    as (spill & Hm & _ & _ & _ & _ & Hf).
  - vm_compute. reflexivity.
  - refine (Hf _ O _ eq_refl _).
    { apply (bool_decide_unpack _). vm_compute. exact I. }
    specialize (Hm O). destruct (spill O); [reflexivity|]. vm_compute in Hm. discriminate Hm.
Defined.

(** Two calls whose names differ in a dropped character share one file: the first
    output is announced as saved there and is gone. *)
Example colliding_results_lost :
  let '(fs, messages, r) :=
    sample_enforce [message_new "shell" "call.1" "first output";
                    message_new "shell" "call_1" "other output"] in
  map (fun m => md_path <$> msg_metadata m) messages
    = [Some (Some "/r/call_1.txt"); Some (Some "/r/call_1.txt")] /\
  fs !! "/r/call_1.txt" = Some "other output" /\ size fs = 1%nat.
Proof. vm_compute. repeat split; reflexivity. Qed.

(** Replacing a short message makes the turn larger. *)
Example spilling_can_grow :
  let '(_, messages, r) := sample_enforce sample_messages in
  total_bytes sample_messages = 14 /\ 200 < total_bytes messages.
Proof. vm_compute. split; reflexivity. Qed.
