(* ===== verification/ToolBroker.v ===== *)
(** * Tool policy ([crates/zaion-runtime/src/tool_broker.rs])

    The declaration of a tool's authority ([ToolManifest]), of one call
    ([ToolInvocation]) and of what its caller was granted ([ToolAuthorization]), with
    their validating constructors, and the decision of [ToolBroker].

    A [BTreeSet<String>] is the list of its elements in order, as in [Ingress]; the sets
    of effects are lists.  Times are nanoseconds. *)

From stdpp Require Import prelude strings list.
From S2P Require Import Prelude.
From S2P Require Import Json.
From S2P Require Import Env.
From S2P Require Import Ingress.
From S2P Require Import ToolResults.
Local Open Scope res_scope.
Local Open Scope Z_scope.

Definition MAX_APPROVAL_TTL_SECONDS : Z := 15 * 60.

(** ** Declarations *)

Inductive ToolEffect : Type := Pure | Read | Write | Execute | Network.
#[export] Instance ToolEffect_eq_dec : EqDecision ToolEffect.
Proof. solve_decision. Defined.

Definition requires_explicit_grant (e : ToolEffect) : bool :=
  match e with Write | Execute | Network => true | Pure | Read => false end.

Inductive ToolRisk : Type := Low | Moderate | High | Critical.
#[export] Instance ToolRisk_eq_dec : EqDecision ToolRisk.
Proof. solve_decision. Defined.

Definition requires_approval (r : ToolRisk) : bool :=
  match r with High | Critical => true | Low | Moderate => false end.

Inductive ToolApprovalRequirement : Type := NotRequired | Required.
#[export] Instance ToolApprovalRequirement_eq_dec : EqDecision ToolApprovalRequirement.
Proof. solve_decision. Defined.

Inductive ToolIdempotency : Type := Idempotent | KeyRequired | NonIdempotent.
#[export] Instance ToolIdempotency_eq_dec : EqDecision ToolIdempotency.
Proof. solve_decision. Defined.

Inductive FilesystemPolicy : Type :=
| FilesystemDeniedPolicy
| ReadOnly (roots : list string)
| ReadWrite (roots : list string).

Definition fs_roots (p : FilesystemPolicy) : option (list string) :=
  match p with
  | FilesystemDeniedPolicy => None
  | ReadOnly roots | ReadWrite roots => Some roots
  end.

Inductive NetworkPolicy : Type :=
| NetworkDeniedPolicy
| AllowHosts (hosts : list string).

Definition net_hosts (p : NetworkPolicy) : option (list string) :=
  match p with NetworkDeniedPolicy => None | AllowHosts hosts => Some hosts end.

Inductive EnvironmentPolicy : Type :=
| EnvironmentDeniedPolicy
| AllowRead (variables : list string).

Definition env_variables (p : EnvironmentPolicy) : option (list string) :=
  match p with EnvironmentDeniedPolicy => None | AllowRead variables => Some variables end.

Record ToolManifestInput : Type := {
  mi_name : string;
  mi_version : string;
  mi_effect : ToolEffect;
  mi_risk : ToolRisk;
  mi_required_scopes : list string;
  mi_approval : ToolApprovalRequirement;
  mi_idempotency : ToolIdempotency;
  mi_filesystem : FilesystemPolicy;
  mi_network : NetworkPolicy;
  mi_environment : EnvironmentPolicy
}.

Record ToolManifest : Type := {
  tm_name : string;
  tm_version : string;
  tm_effect : ToolEffect;
  tm_risk : ToolRisk;
  tm_required_scopes : list string;
  tm_approval : ToolApprovalRequirement;
  tm_idempotency : ToolIdempotency;
  tm_filesystem : FilesystemPolicy;
  tm_network : NetworkPolicy;
  tm_environment : EnvironmentPolicy
}.

Inductive ToolManifestError : Type :=
| MfInvalidField (field : string)
| MfMissingScopes
| MfInvalidScope (scope : string)
| MfDuplicateScope (scope : string)
| InvalidFilesystemPolicy
| InvalidNetworkPolicy
| InvalidEnvironmentPolicy
| PureToolDeclaresResources
| NetworkEffectWithoutHosts
| ApprovalRequiredByRisk.

Record ToolInvocationInput : Type := {
  ii_invocation_hash : string;
  ii_filesystem_paths : list string;
  ii_network_hosts : list string;
  ii_environment_variables : list string;
  ii_idempotency_key : option string
}.

Record ToolInvocation : Type := {
  ti_invocation_hash : string;
  ti_filesystem_paths : list string;
  ti_network_hosts : list string;
  ti_environment_variables : list string;
  ti_idempotency_key : option string
}.

Record ToolApprovalGrant : Type := {
  ag_approval_id : string;
  ag_subject_id : string;
  ag_tool_name : string;
  ag_tool_version : string;
  ag_invocation_hash : string;
  ag_issued_at : Z;
  ag_expires_at : Z
}.

Record ToolAuthorizationInput : Type := {
  zi_subject_id : string;
  zi_tool_name : string;
  zi_tool_version : string;
  zi_granted_scopes : list string;
  zi_granted_effects : list ToolEffect;
  zi_filesystem_roots : list string;
  zi_network_hosts : list string;
  zi_environment_variables : list string;
  zi_approval : option ToolApprovalGrant
}.

Record ToolAuthorization : Type := {
  ta_subject_id : string;
  ta_tool_name : string;
  ta_tool_version : string;
  ta_granted_scopes : list string;
  ta_granted_effects : list ToolEffect;
  ta_filesystem_roots : list string;
  ta_network_hosts : list string;
  ta_environment_variables : list string;
  ta_approval : option ToolApprovalGrant
}.

Inductive ToolAuthorizationError : Type :=
| AuInvalidField (field : string)
| AuInvalidScope (scope : string)
| DuplicateValue (value : string)
| InvalidPath (path : string)
| InvalidHost (host : string)
| InvalidEnvironmentVariable (variable : string)
| AuInvalidIdempotencyKey
| InvalidInvocationHash
| InvalidApprovalWindow.

(** ** Validators *)

Definition is_token (value : string) (max : Z) : bool :=
  non_empty value && bool_decide (str_len value <= max) && is_trimmed value
  && str_all (fun b => is_ascii_alphanumeric b || byte_in "._:-@" b) value.

Definition validate_token (field value : string) (max : Z) : result ToolManifestError unit :=
  if is_token value max then Ok tt else Err (MfInvalidField field).

Definition validate_token_authorization (field value : string) (max : Z)
  : result ToolAuthorizationError unit :=
  if is_token value max then Ok tt else Err (AuInvalidField field).

Definition is_scope (value : string) : bool :=
  non_empty value && bool_decide (str_len value <= 128) && is_trimmed value
  && str_all (fun b => is_ascii_alphanumeric b || byte_in "._:-" b) value.

Definition is_host (host : string) : bool :=
  non_empty host && bool_decide (str_len host <= 253) && is_trimmed host
  && bool_decide (host = to_ascii_lowercase host)
  && str_all (fun b => is_ascii_alphanumeric b || byte_in ".-:" b) host.

Definition is_ascii_alphabetic (a : Ascii.ascii) : bool :=
  let n := Ascii.N_of_ascii a in in_range 65 90 n || in_range 97 122 n.

Definition is_environment_variable (variable : string) : bool :=
  match variable with
  | EmptyString => false
  | String first rest =>
      bool_decide (str_len variable <= 128)
      && (byte_in "_" first || is_ascii_alphabetic first)
      && str_all (fun b => byte_in "_" b || is_ascii_alphanumeric b) rest
  end.

(** The loops that fill a set: [valid] checks an element, [duplicate] is the error of a
    second one. *)
Fixpoint collect_set {E} (valid : string -> result E unit) (duplicate : string -> E)
    (validated input : list string) : result E (list string) :=
  match input with
  | [] => Ok validated
  | x :: input' =>
      let? _ := valid x in
      match btree_insert x validated with
      | None => Err (duplicate x)
      | Some validated' => collect_set valid duplicate validated' input'
      end
  end.

Definition check {E} (ok : string -> bool) (error : string -> E) (x : string) : result E unit :=
  if ok x then Ok tt else Err (error x).

Definition validate_unique_scopes (scopes : list string)
  : result ToolManifestError (list string) :=
  guard? negb (bool_decide (scopes = [])) else MfMissingScopes in
  collect_set (check is_scope MfInvalidScope) MfDuplicateScope [] scopes.

Definition validate_authorization_scopes
  : list string -> result ToolAuthorizationError (list string) :=
  collect_set (check is_scope AuInvalidScope) DuplicateValue [].

Definition backslash : Ascii.ascii := Ascii.ascii_of_N 92.

(** [value.replace('\\', "/")] *)
Definition replace_backslashes (s : string) : string :=
  String.string_of_list_ascii
    (map (fun a => if Ascii.eqb a backslash then slash else a) (String.list_ascii_of_string s)).

Fixpoint contains_double_slash (s : string) : bool :=
  match s with
  | String a (String b _ as s') =>
      (Ascii.eqb a slash && Ascii.eqb b slash) || contains_double_slash s'
  | _ => false
  end.

(** [parts.join("/")] *)
Fixpoint join_slash (parts : list string) : string :=
  match parts with
  | [] => EmptyString
  | [p] => p
  | p :: parts' => p +:+ String slash (join_slash parts')
  end.

Definition bad_part (part : string) : bool :=
  bool_decide (part = "") || bool_decide (part = ".") || bool_decide (part = "..")
  || negb (str_all (fun b => negb (byte_in ":" b)) part).

Definition canonical_relative_path (value : string) : option string :=
  if negb (non_empty value) || bool_decide (1024 < str_len value) || negb (is_trimmed value)
  then None else
  let value := replace_backslashes value in
  if bool_decide (value = ".") then Some value else
  if is_absolute value || ends_with_slash value || contains_double_slash value then None else
  let parts := split_slash value in
  if existsb bad_part parts then None else Some (join_slash parts).

Definition path_ok (path : string) : bool :=
  bool_decide (canonical_relative_path path = Some path).

Definition validate_paths : list string -> result ToolAuthorizationError (list string) :=
  collect_set (check path_ok InvalidPath) DuplicateValue [].

Definition validate_hosts : list string -> result ToolAuthorizationError (list string) :=
  collect_set (check is_host InvalidHost) DuplicateValue [].

Definition validate_environment_variables
  : list string -> result ToolAuthorizationError (list string) :=
  collect_set (check is_environment_variable InvalidEnvironmentVariable) DuplicateValue [].

Definition validate_filesystem_policy (policy : FilesystemPolicy)
  : result ToolManifestError unit :=
  match fs_roots policy with
  | None => Ok tt
  | Some roots =>
      if negb (bool_decide (roots = [])) && forallb path_ok roots then Ok tt
      else Err InvalidFilesystemPolicy
  end.

Definition validate_network_policy (policy : NetworkPolicy) : result ToolManifestError unit :=
  match net_hosts policy with
  | None => Ok tt
  | Some hosts =>
      if negb (bool_decide (hosts = [])) && forallb is_host hosts then Ok tt
      else Err InvalidNetworkPolicy
  end.

Definition validate_environment_policy (policy : EnvironmentPolicy)
  : result ToolManifestError unit :=
  match env_variables policy with
  | None => Ok tt
  | Some variables =>
      if negb (bool_decide (variables = [])) && forallb is_environment_variable variables
      then Ok tt else Err InvalidEnvironmentPolicy
  end.

Definition validate_optional_idempotency_key (key : option string)
  : result ToolAuthorizationError (option string) :=
  match key with
  | Some k =>
      guard? bool_decide (8 <= str_len k <= 128) && is_trimmed k
             && str_all (fun b => is_ascii_alphanumeric b || byte_in "._:-" b) k
        else AuInvalidIdempotencyKey in
      Ok (Some k)
  | None => Ok None
  end.

Definition invocation_hash_ok (value : string) : bool :=
  is_some_and
    (fun digest => bool_decide (str_len digest = 64)
                   && str_all (fun b => is_ascii_digit b || is_hex_letter b) digest)
    (strip_prefix "sha256:" value).

Definition validate_invocation_hash (value : string) : result ToolAuthorizationError unit :=
  if invocation_hash_ok value then Ok tt else Err InvalidInvocationHash.

Definition window_ok (issued_at expires_at : Z) : bool :=
  let lifetime := expires_at - issued_at in
  negb (bool_decide (lifetime <= 0)
        || bool_decide (MAX_APPROVAL_TTL_SECONDS * nanos_per_second < lifetime)).

Definition validate_approval_window (issued_at expires_at : Z)
  : result ToolAuthorizationError unit :=
  if window_ok issued_at expires_at then Ok tt else Err InvalidApprovalWindow.

(** ** Constructors *)

(** [ToolManifest::new] *)
Definition manifest_new (input : ToolManifestInput) : result ToolManifestError ToolManifest :=
  let? _ := validate_token "name" (mi_name input) 128 in
  let? _ := validate_token "version" (mi_version input) 64 in
  let? required_scopes := validate_unique_scopes (mi_required_scopes input) in
  let? _ := validate_filesystem_policy (mi_filesystem input) in
  let? _ := validate_network_policy (mi_network input) in
  let? _ := validate_environment_policy (mi_environment input) in
  guard? negb (bool_decide (mi_effect input = Pure)
               && (opt_is_some (fs_roots (mi_filesystem input))
                   || opt_is_some (net_hosts (mi_network input))
                   || opt_is_some (env_variables (mi_environment input))))
    else PureToolDeclaresResources in
  guard? negb (bool_decide (mi_effect input = Network)
               && opt_is_none (net_hosts (mi_network input)))
    else NetworkEffectWithoutHosts in
  guard? negb ((requires_approval (mi_risk input)
                || bool_decide (mi_idempotency input = NonIdempotent))
               && negb (bool_decide (mi_approval input = Required)))
    else ApprovalRequiredByRisk in
  Ok {| tm_name := mi_name input; tm_version := mi_version input;
        tm_effect := mi_effect input; tm_risk := mi_risk input;
        tm_required_scopes := required_scopes; tm_approval := mi_approval input;
        tm_idempotency := mi_idempotency input; tm_filesystem := mi_filesystem input;
        tm_network := mi_network input; tm_environment := mi_environment input |}.

(** [ToolInvocation::new] *)
Definition invocation_new (input : ToolInvocationInput)
  : result ToolAuthorizationError ToolInvocation :=
  let? _ := validate_invocation_hash (ii_invocation_hash input) in
  let? paths := validate_paths (ii_filesystem_paths input) in
  let? hosts := validate_hosts (ii_network_hosts input) in
  let? variables := validate_environment_variables (ii_environment_variables input) in
  let? key := validate_optional_idempotency_key (ii_idempotency_key input) in
  Ok {| ti_invocation_hash := ii_invocation_hash input; ti_filesystem_paths := paths;
        ti_network_hosts := hosts; ti_environment_variables := variables;
        ti_idempotency_key := key |}.

(** The checks of [ToolApprovalGrant::new], which [ToolAuthorization::new] repeats on a
    grant; [prefix] is in front of the names of three fields there. *)
Definition validate_grant (prefix : string) (g : ToolApprovalGrant)
  : result ToolAuthorizationError unit :=
  let? _ := validate_token_authorization "approval_id" (ag_approval_id g) 128 in
  let? _ := validate_token_authorization (prefix +:+ "subject_id") (ag_subject_id g) 256 in
  let? _ := validate_token_authorization (prefix +:+ "tool_name") (ag_tool_name g) 128 in
  let? _ := validate_token_authorization (prefix +:+ "tool_version") (ag_tool_version g) 64 in
  let? _ := validate_invocation_hash (ag_invocation_hash g) in
  validate_approval_window (ag_issued_at g) (ag_expires_at g).

(** [ToolApprovalGrant::new] *)
Definition grant_new (approval_id subject_id tool_name tool_version invocation_hash : string)
    (issued_at expires_at : Z) : result ToolAuthorizationError ToolApprovalGrant :=
  let g := {| ag_approval_id := approval_id; ag_subject_id := subject_id;
              ag_tool_name := tool_name; ag_tool_version := tool_version;
              ag_invocation_hash := invocation_hash; ag_issued_at := issued_at;
              ag_expires_at := expires_at |} in
  let? _ := validate_grant "" g in
  Ok g.

(** [ToolAuthorization::new] *)
Definition authorization_new (input : ToolAuthorizationInput)
  : result ToolAuthorizationError ToolAuthorization :=
  let? _ := validate_token_authorization "subject_id" (zi_subject_id input) 256 in
  let? _ := validate_token_authorization "tool_name" (zi_tool_name input) 128 in
  let? _ := validate_token_authorization "tool_version" (zi_tool_version input) 64 in
  let? _ := match zi_approval input with
            | Some g => validate_grant "approval." g
            | None => Ok tt
            end in
  let? scopes := validate_authorization_scopes (zi_granted_scopes input) in
  let? roots := validate_paths (zi_filesystem_roots input) in
  let? hosts := validate_hosts (zi_network_hosts input) in
  let? variables := validate_environment_variables (zi_environment_variables input) in
  Ok {| ta_subject_id := zi_subject_id input; ta_tool_name := zi_tool_name input;
        ta_tool_version := zi_tool_version input; ta_granted_scopes := scopes;
        ta_granted_effects := zi_granted_effects input; ta_filesystem_roots := roots;
        ta_network_hosts := hosts; ta_environment_variables := variables;
        ta_approval := zi_approval input |}.

(** ** The decision *)

Inductive ToolDenyReason : Type :=
| AuthorizationTargetMismatch
| MissingScope (scope : string)
| EffectNotAuthorized (effect : ToolEffect)
| ApprovalMissing
| ApprovalTargetMismatch
| ApprovalSubjectMismatch
| ApprovalInvocationMismatch
| ApprovalNotYetValid
| ApprovalExpired
| IdempotencyKeyMissing
| FilesystemDenied (path : string)
| FilesystemPathNotDeclared (path : string)
| FilesystemPathNotAuthorized (path : string)
| NetworkDenied (host : string)
| NetworkHostNotDeclared (host : string)
| NetworkHostNotAuthorized (host : string)
| EnvironmentDenied (variable : string)
| EnvironmentVariableNotDeclared (variable : string)
| EnvironmentVariableNotAuthorized (variable : string).

Inductive ToolPolicyDecision : Type :=
| Allow (reason_code : string)
| Deny (reason : ToolDenyReason).

Definition is_allowed (d : ToolPolicyDecision) : bool :=
  match d with Allow _ => true | Deny _ => false end.

Definition denial_reason (d : ToolPolicyDecision) : option ToolDenyReason :=
  match d with Allow _ => None | Deny reason => Some reason end.

Definition path_is_within_any_root (path : string) (roots : list string) : bool :=
  existsb (fun root =>
    bool_decide (root = ".") || bool_decide (path = root)
    || is_some_and (starts_with "/") (strip_prefix root path)) roots.

Definition contains (set : list string) (x : string) : bool := bool_decide (x ∈ set).

(** The loop of the three resource checks: the first element with a reason against it. *)
Fixpoint first_denial {A} (reason : A -> option ToolDenyReason) (items : list A)
  : option ToolDenyReason :=
  match items with
  | [] => None
  | x :: items' => match reason x with Some r => Some r | None => first_denial reason items' end
  end.

Definition path_denial (m : ToolManifest) (a : ToolAuthorization) (path : string)
  : option ToolDenyReason :=
  match fs_roots (tm_filesystem m) with
  | None => Some (FilesystemDenied path)
  | Some declared =>
      if negb (path_is_within_any_root path declared)
      then Some (FilesystemPathNotDeclared path)
      else if negb (path_is_within_any_root path (ta_filesystem_roots a))
      then Some (FilesystemPathNotAuthorized path) else None
  end.

Definition host_denial (m : ToolManifest) (a : ToolAuthorization) (host : string)
  : option ToolDenyReason :=
  match net_hosts (tm_network m) with
  | None => Some (NetworkDenied host)
  | Some declared =>
      if negb (contains declared host) then Some (NetworkHostNotDeclared host)
      else if negb (contains (ta_network_hosts a) host)
      then Some (NetworkHostNotAuthorized host) else None
  end.

Definition variable_denial (m : ToolManifest) (a : ToolAuthorization) (variable : string)
  : option ToolDenyReason :=
  match env_variables (tm_environment m) with
  | None => Some (EnvironmentDenied variable)
  | Some declared =>
      if negb (contains declared variable) then Some (EnvironmentVariableNotDeclared variable)
      else if negb (contains (ta_environment_variables a) variable)
      then Some (EnvironmentVariableNotAuthorized variable) else None
  end.

Definition decide_filesystem (m : ToolManifest) (i : ToolInvocation) (a : ToolAuthorization)
  : option ToolDenyReason := first_denial (path_denial m a) (ti_filesystem_paths i).
Definition decide_network (m : ToolManifest) (i : ToolInvocation) (a : ToolAuthorization)
  : option ToolDenyReason := first_denial (host_denial m a) (ti_network_hosts i).
Definition decide_environment (m : ToolManifest) (i : ToolInvocation) (a : ToolAuthorization)
  : option ToolDenyReason := first_denial (variable_denial m a) (ti_environment_variables i).

Definition grants (a : ToolAuthorization) (e : ToolEffect) : bool :=
  bool_decide (e ∈ ta_granted_effects a).

Definition approval_required (m : ToolManifest) : bool :=
  bool_decide (tm_approval m = Required) || requires_approval (tm_risk m)
  || bool_decide (tm_idempotency m = NonIdempotent).

(** The checks of the approval, when one is required. *)
Definition approval_denial (m : ToolManifest) (i : ToolInvocation) (a : ToolAuthorization)
    (now : Z) : option ToolDenyReason :=
  match ta_approval a with
  | None => Some ApprovalMissing
  | Some g =>
      if negb (bool_decide (ag_tool_name g = tm_name m)
               && bool_decide (ag_tool_version g = tm_version m))
      then Some ApprovalTargetMismatch
      else if negb (bool_decide (ag_subject_id g = ta_subject_id a))
      then Some ApprovalSubjectMismatch
      else if negb (bool_decide (ag_invocation_hash g = ti_invocation_hash i))
      then Some ApprovalInvocationMismatch
      else if bool_decide (now < ag_issued_at g) then Some ApprovalNotYetValid
      else if bool_decide (ag_expires_at g <= now) then Some ApprovalExpired
      else None
  end.

(** [ToolBroker::decide]: the reason of the first check that fails. *)
Definition denial (m : ToolManifest) (i : ToolInvocation) (a : ToolAuthorization) (now : Z)
  : option ToolDenyReason :=
  if negb (bool_decide (ta_tool_name a = tm_name m)
           && bool_decide (ta_tool_version a = tm_version m))
  then Some AuthorizationTargetMismatch else
  match first_denial (fun s => if contains (ta_granted_scopes a) s then None
                               else Some (MissingScope s)) (tm_required_scopes m) with
  | Some r => Some r
  | None =>
  if requires_explicit_grant (tm_effect m) && negb (grants a (tm_effect m))
  then Some (EffectNotAuthorized (tm_effect m)) else
  if match tm_filesystem m with ReadWrite _ => true | _ => false end && negb (grants a Write)
  then Some (EffectNotAuthorized Write) else
  if opt_is_some (net_hosts (tm_network m)) && negb (grants a Network)
  then Some (EffectNotAuthorized Network) else
  match (if approval_required m then approval_denial m i a now else None) with
  | Some r => Some r
  | None =>
  if bool_decide (tm_idempotency m = KeyRequired) && opt_is_none (ti_idempotency_key i)
  then Some IdempotencyKeyMissing else
  match decide_filesystem m i a with
  | Some r => Some r
  | None =>
  match decide_network m i a with
  | Some r => Some r
  | None => decide_environment m i a
  end end end end.

Definition decide_tool (m : ToolManifest) (i : ToolInvocation) (a : ToolAuthorization) (now : Z)
  : ToolPolicyDecision :=
  match denial m i a now with
  | Some reason => Deny reason
  | None => Allow "explicit_policy_grants_satisfied"
  end.
