(* ===== verification/ToolBrokerTheorems.v ===== *)
(** * What [ToolBroker] lets through

    The decision allows a call exactly when it is authorised: right tool and scopes,
    granted effects, a live approval of this very call where one is required, and only
    paths, hosts and variables that are both declared and granted.  A path is compared by
    its components. *)

From stdpp Require Import prelude strings list sorting.
From S2P Require Import Prelude.
From S2P Require Import Json.
From S2P Require Import Env.
From S2P Require Import Ingress.
From S2P Require Import ToolResults.
From S2P Require Import ToolResultsTheorems.
From S2P Require Import ToolBroker.
Local Open Scope res_scope.
Local Open Scope Z_scope.

(** ** Strings and paths *)

Lemma join_slash_cons p ps : ps <> [] -> join_slash (p :: ps) = p +:+ String slash (join_slash ps).
Proof. by destruct ps. Qed.

Lemma join_split s : join_slash (split_slash s) = s.
Proof.
  induction s as [|c s IH]; [done|]. simpl. destruct (split_slash_cons s) as (w & ws & Es).
  destruct (Ascii.eqb_spec c slash) as [->|Hne].
  - rewrite join_slash_cons, IH by (by rewrite Es). done.
  - rewrite Es in *. destruct ws as [|v ws]; [by simpl in *; rewrite IH|].
    rewrite join_slash_cons in IH |- * by done. exact (f_equal (String c) IH).
Qed.

Lemma join_app a b : a <> [] -> b <> [] ->
  join_slash (a ++ b) = join_slash a +:+ String slash (join_slash b).
Proof.
  induction a as [|x a IH]; intros Ha Hb; [done|]. destruct a as [|y a].
  - simpl app. by rewrite join_slash_cons.
  - change ((x :: y :: a) ++ b) with (x :: ((y :: a) ++ b)).
    rewrite !join_slash_cons by done. rewrite IH by done.
    change (String slash (join_slash (y :: a) +:+ String slash (join_slash b)))
      with (String slash (join_slash (y :: a)) +:+ String slash (join_slash b)).
    apply string_app_assoc.
Qed.

(** The components of a canonical path; a dot stands for the workspace itself. *)
Definition parts_of (path : string) : list string :=
  if bool_decide (path = ".") then [] else split_slash path.

Definition plain_part (part : string) : Prop :=
  part <> "" /\ part <> "." /\ part <> ".." /\ str_all (fun b => negb (byte_in ":" b)) part = true.

Lemma bad_part_plain part : bad_part part = false <-> plain_part part.
Proof.
  unfold bad_part, plain_part. rewrite !orb_false_iff, !bool_decide_eq_false, negb_false_iff.
  tauto.
Qed.

(** A canonical path names something below the workspace. *)
Lemma path_ok_parts path : path_ok path = true -> Forall plain_part (parts_of path) /\ path <> "".
Proof.
  unfold path_ok. intros Hp%bool_decide_eq_true_1. unfold canonical_relative_path in Hp.
  destruct (negb (non_empty path) || _ || _) eqn:E1; [done|]. cbv zeta in Hp.
  apply orb_false_iff in E1 as [[E1 _]%orb_false_iff _]. unfold non_empty in E1.
  rewrite negb_involutive in E1. apply bool_decide_eq_false_1 in E1. split; [|exact E1].
  unfold parts_of. destruct (decide (path = ".")) as [-> |Ed]; [constructor|].
  rewrite (bool_decide_eq_false_2 _ Ed).
  destruct (bool_decide (replace_backslashes path = ".")) eqn:E2.
  { injection Hp as Hp. apply bool_decide_eq_true_1 in E2. congruence. }
  destruct (_ || _ || _) in Hp; [done|]. destruct (existsb bad_part _) eqn:E3 in Hp; [done|].
  injection Hp as Hp. rewrite join_split in Hp. rewrite Hp in E3.
  apply Forall_forall. intros part Hin. apply bad_part_plain, not_true_iff_false. intros Hb.
  apply not_true_iff_false in E3. apply E3, existsb_exists. exists part.
  split; [by apply list_elem_of_In|done].
Qed.

Definition beneath (root path : string) : Prop := parts_of root `prefix_of` parts_of path.

Lemma split_prefix root path :
  split_slash root `prefix_of` split_slash path <->
  path = root \/ exists rest, path = root +:+ String slash rest.
Proof.
  split.
  - intros [l Hl]. destruct l as [|x l].
    + left. rewrite app_nil_r in Hl. by rewrite <- (join_split path), Hl, join_split.
    + right. exists (join_slash (x :: l)).
      rewrite <- (join_split path), Hl, join_app, join_split; [done| |done].
      by destruct (split_slash_cons root) as (w & ws & ->).
  - intros [-> |[rest ->]]; [done|]. rewrite split_slash_app. by eexists.
Qed.

Lemma within_root_iff path root :
  path <> "" -> root <> "" ->
  (bool_decide (root = ".") || bool_decide (path = root)
   || is_some_and (starts_with "/") (strip_prefix root path)) = true <-> beneath root path.
Proof.
  intros Hpe Hre. unfold beneath, parts_of. rewrite !orb_true_iff, !bool_decide_eq_true.
  assert (Hstrip : is_some_and (starts_with "/") (strip_prefix root path) = true <->
    exists rest, path = root +:+ String slash rest).
  { split.
    - destruct (strip_prefix root path) as [r|] eqn:E; [|done]. apply strip_prefix_Some in E as ->.
      destruct r as [|c r]; [done|]. cbn [is_some_and]. unfold starts_with.
      cbn [String.prefix].
      match goal with |- context [Ascii.ascii_dec ?x c] =>
        destruct (Ascii.ascii_dec x c) as [<-|]; [|done] end.
      intros _. by exists r.
    - intros [rest Hr]. rewrite (proj2 (strip_prefix_Some _ _ _) Hr).
      by destruct rest. }
  rewrite Hstrip. case_bool_decide as Er.
  { split; [|auto]. intros _. apply prefix_nil. }
  case_bool_decide as Ep.
  - subst path. split.
    + intros [[?|<-]|[rest Hr]]; [done|done|]. destruct root as [|c root]; [done|].
      simpl in Hr. injection Hr as _ Hr. by destruct root.
    + intros [l Hl]. by destruct (split_slash_cons root) as (w & ws & Ew); rewrite Ew in Hl.
  - rewrite split_prefix. naive_solver.
Qed.

Lemma within_iff path roots :
  path <> "" -> Forall (fun r => r <> "") roots ->
  path_is_within_any_root path roots = true <-> exists root, root ∈ roots /\ beneath root path.
Proof.
  intros Hp Hr. unfold path_is_within_any_root. rewrite existsb_exists.
  rewrite Forall_forall in Hr. split.
  - intros (root & Hin%list_elem_of_In & Hw). exists root. split; [done|].
    by apply within_root_iff; auto.
  - intros (root & Hin & Hb). exists root. split; [by apply list_elem_of_In|].
    apply within_root_iff; auto.
Qed.

(** ** The constructors *)

Lemma collect_set_ok {E} (ok : string -> bool) (error duplicate : string -> E) validated input out :
  StronglySorted str_lt validated ->
  collect_set (check ok error) duplicate validated input = Ok out ->
  StronglySorted str_lt out /\ out ≡ₚ input ++ validated /\ Forall (fun x => ok x = true) input.
Proof.
  revert validated. induction input as [|x input IH]; intros validated Hs Hc; simpl in Hc.
  { injection Hc as <-. auto. }
  unfold check at 1 in Hc. destruct (ok x) eqn:Eok; [|done]. cbv beta iota in Hc.
  destruct (btree_insert x validated) as [v'|] eqn:Ei; [|done].
  pose proof (btree_insert_Some _ _ _ Ei) as Hp.
  destruct (IH v' (btree_insert_sorted _ _ _ Hs Ei) Hc) as (H1 & H2 & H3).
  split; [done|]. split; [|by constructor]. rewrite H2, Hp. simpl. by rewrite Permutation_middle.
Qed.

(** What a set of validated strings is. *)
Definition valid_set (ok : string -> bool) (input out : list string) : Prop :=
  StronglySorted str_lt out /\ out ≡ₚ input /\ Forall (fun x => ok x = true) out.

Lemma collect_set_valid {E} (ok : string -> bool) (error duplicate : string -> E) input out :
  collect_set (check ok error) duplicate [] input = Ok out -> valid_set ok input out.
Proof.
  intros Hc. destruct (collect_set_ok _ _ _ [] _ _ (SSorted_nil _) Hc) as (H1 & H2 & H3).
  rewrite app_nil_r in H2. split; [done|]. split; [done|]. by rewrite H2.
Qed.

(** The parts of a manifest that its constructor ensures. *)
Record manifest_wf (m : ToolManifest) : Prop := {
  mw_scopes : tm_required_scopes m <> [];
  mw_roots : forall roots, fs_roots (tm_filesystem m) = Some roots ->
    roots <> [] /\ Forall (fun r => path_ok r = true) roots;
  mw_hosts : forall hosts, net_hosts (tm_network m) = Some hosts ->
    hosts <> [] /\ Forall (fun h => is_host h = true) hosts;
  mw_pure : tm_effect m = Pure -> fs_roots (tm_filesystem m) = None /\
    net_hosts (tm_network m) = None /\ env_variables (tm_environment m) = None;
  mw_network : tm_effect m = Network -> net_hosts (tm_network m) <> None;
  mw_approval : requires_approval (tm_risk m) = true \/ tm_idempotency m = NonIdempotent ->
    tm_approval m = Required
}.

Lemma policy_valid {E} (ok : string -> bool) (values : option (list string)) (e : E) :
  match values with
  | None => Ok tt
  | Some l => if negb (bool_decide (l = [])) && forallb ok l then Ok tt else Err e
  end = Ok tt ->
  forall l, values = Some l -> l <> [] /\ Forall (fun x => ok x = true) l.
Proof.
  intros Hv l ->. destruct (negb _ && _) eqn:Eb; [|done]. bool_props. split; [done|].
  apply Forall_forall. intros x Hx. rewrite forallb_forall in *. by apply H0, list_elem_of_In.
Qed.

Lemma manifest_new_wf input m : manifest_new input = Ok m -> manifest_wf m.
Proof.
  unfold manifest_new. intros Hn.
  destruct (validate_token _ _ _) in Hn; [|done]. cbv beta iota in Hn.
  destruct (validate_token _ _ _) in Hn; [|done]. cbv beta iota in Hn.
  destruct (validate_unique_scopes _) as [scopes|] eqn:Es in Hn; [|done]. cbv beta iota in Hn.
  destruct (validate_filesystem_policy _) as [[]|] eqn:Ef in Hn; [|done]. cbv beta iota in Hn.
  destruct (validate_network_policy _) as [[]|] eqn:En in Hn; [|done]. cbv beta iota in Hn.
  destruct (validate_environment_policy _) as [[]|] eqn:Ee in Hn; [|done]. cbv beta iota in Hn.
  destruct (negb _) eqn:Ep in Hn; [|done]. destruct (negb _) eqn:Ew in Hn; [|done].
  destruct (negb _) eqn:Ea in Hn; [|done]. injection Hn as <-.
  apply negb_true_iff in Ep, Ew, Ea. split; simpl.
  - unfold validate_unique_scopes in Es. destruct (negb _) eqn:E0 in Es; [|done]. bool_props.
    apply collect_set_valid in Es as (_ & Hp & _). intros ->.
    apply E0. by apply Permutation_nil.
  - by apply (policy_valid _ _ InvalidFilesystemPolicy).
  - by apply (policy_valid _ _ InvalidNetworkPolicy).
  - intros He. rewrite He in Ep. simpl in Ep.
    destruct (fs_roots _), (net_hosts _), (env_variables _); done.
  - intros He Hnone. by rewrite He, Hnone in Ew.
  - intros Hr. apply andb_false_iff in Ea as [Ea|Ea].
    + apply orb_false_iff in Ea as [Ea1 Ea2]. apply bool_decide_eq_false_1 in Ea2.
      destruct Hr; congruence.
    + by apply negb_false_iff, bool_decide_eq_true_1 in Ea.
Qed.

Lemma invocation_new_wf input i :
  invocation_new input = Ok i ->
  valid_set path_ok (ii_filesystem_paths input) (ti_filesystem_paths i) /\
  valid_set is_host (ii_network_hosts input) (ti_network_hosts i) /\
  valid_set is_environment_variable (ii_environment_variables input) (ti_environment_variables i) /\
  ti_invocation_hash i = ii_invocation_hash input /\ invocation_hash_ok (ti_invocation_hash i) = true.
Proof.
  unfold invocation_new, validate_invocation_hash. intros Hn.
  destruct (invocation_hash_ok _) eqn:Eh in Hn; [|done]. cbv beta iota in Hn.
  destruct (validate_paths _) as [paths|] eqn:Ep in Hn; [|done]. cbv beta iota in Hn.
  destruct (validate_hosts _) as [hosts|] eqn:Ew in Hn; [|done]. cbv beta iota in Hn.
  destruct (validate_environment_variables _) as [vs|] eqn:Ev in Hn; [|done]. cbv beta iota in Hn.
  destruct (validate_optional_idempotency_key _) in Hn; [|done]. injection Hn as <-. simpl.
  apply collect_set_valid in Ep, Ew, Ev. done.
Qed.

Lemma authorization_new_wf input a :
  authorization_new input = Ok a ->
  valid_set path_ok (zi_filesystem_roots input) (ta_filesystem_roots a) /\
  (forall g, ta_approval a = Some g -> window_ok (ag_issued_at g) (ag_expires_at g) = true).
Proof.
  unfold authorization_new. intros Hn.
  do 3 (destruct (validate_token_authorization _ _ _) in Hn; [|done]; cbv beta iota in Hn).
  destruct (match zi_approval input with Some g => _ | None => _ end) eqn:Eg in Hn; [|done].
  cbv beta iota in Hn.
  destruct (validate_authorization_scopes _) in Hn; [|done]. cbv beta iota in Hn.
  destruct (validate_paths _) as [roots|] eqn:Ep in Hn; [|done]. cbv beta iota in Hn.
  destruct (validate_hosts _) in Hn; [|done]. cbv beta iota in Hn.
  destruct (validate_environment_variables _) in Hn; [|done]. injection Hn as <-. simpl.
  split; [by apply collect_set_valid in Ep|]. intros g Hg. rewrite Hg in Eg.
  unfold validate_grant in Eg.
  do 4 (destruct (validate_token_authorization _ _ _) in Eg; [|done]; cbv beta iota in Eg).
  destruct (validate_invocation_hash _) in Eg; [|done]. cbv beta iota in Eg.
  unfold validate_approval_window in Eg. by destruct (window_ok _ _).
Qed.

(** ** What a call needs *)

Definition approves (g : ToolApprovalGrant) (m : ToolManifest) (i : ToolInvocation)
    (a : ToolAuthorization) (now : Z) : Prop :=
  ag_tool_name g = tm_name m /\ ag_tool_version g = tm_version m /\
  ag_subject_id g = ta_subject_id a /\ ag_invocation_hash g = ti_invocation_hash i /\
  ag_issued_at g <= now < ag_expires_at g.

Definition beneath_any (roots : list string) (path : string) : Prop :=
  exists root, root ∈ roots /\ beneath root path.

Record authorized (m : ToolManifest) (i : ToolInvocation) (a : ToolAuthorization) (now : Z)
  : Prop := {
  az_tool : ta_tool_name a = tm_name m /\ ta_tool_version a = tm_version m;
  az_scopes : forall s, s ∈ tm_required_scopes m -> s ∈ ta_granted_scopes a;
  az_effect : requires_explicit_grant (tm_effect m) = true -> tm_effect m ∈ ta_granted_effects a;
  az_write : forall roots, tm_filesystem m = ReadWrite roots -> Write ∈ ta_granted_effects a;
  az_network : net_hosts (tm_network m) <> None -> Network ∈ ta_granted_effects a;
  az_approval : approval_required m = true ->
    exists g, ta_approval a = Some g /\ approves g m i a now;
  az_key : tm_idempotency m = KeyRequired -> ti_idempotency_key i <> None;
  az_paths : forall p, p ∈ ti_filesystem_paths i -> exists roots,
    fs_roots (tm_filesystem m) = Some roots /\ beneath_any roots p /\
    beneath_any (ta_filesystem_roots a) p;
  az_hosts : forall h, h ∈ ti_network_hosts i -> exists hosts,
    net_hosts (tm_network m) = Some hosts /\ h ∈ hosts /\ h ∈ ta_network_hosts a;
  az_variables : forall v, v ∈ ti_environment_variables i -> exists variables,
    env_variables (tm_environment m) = Some variables /\ v ∈ variables /\
    v ∈ ta_environment_variables a
}.

Lemma first_denial_None {A} (reason : A -> option ToolDenyReason) items :
  first_denial reason items = None <-> forall x, x ∈ items -> reason x = None.
Proof.
  induction items as [|x items IH]; simpl.
  { split; [by intros _ x Hx%elem_of_nil|done]. }
  destruct (reason x) eqn:E.
  - split; [done|]. intros Hall. rewrite <- E. apply Hall. set_solver.
  - rewrite IH. split; [intros Hall y [-> |Hy]%elem_of_cons; auto|]. intros Hall y Hy.
    apply Hall. set_solver.
Qed.

Lemma first_denial_Some {A} (reason : A -> option ToolDenyReason) items r :
  first_denial reason items = Some r -> exists x, x ∈ items /\ reason x = Some r.
Proof.
  induction items as [|x items IH]; simpl; [done|]. destruct (reason x) eqn:E.
  - intros [= ->]. exists x. set_solver.
  - intros Hf. destruct (IH Hf) as (y & Hy & Hr). exists y. set_solver.
Qed.

Lemma guard_None {A} (b : bool) (r : A) (o : option A) :
  (if b then Some r else o) = None <-> b = false /\ o = None.
Proof. by destruct b; split; [|intros [? ?]| |intros [? ?]]. Qed.

Lemma then_None {A} (o o' : option A) :
  match o with Some r => Some r | None => o' end = None <-> o = None /\ o' = None.
Proof. by destruct o; split; [|intros [? ?]| |intros [? ?]]. Qed.

Lemma scope_None (set : list string) s :
  (if contains set s then None else Some (MissingScope s)) = None <-> s ∈ set.
Proof.
  unfold contains. case_bool_decide; split; done.
Qed.

Lemma approval_None m i a now :
  approval_denial m i a now = None <-> exists g, ta_approval a = Some g /\ approves g m i a now.
Proof.
  unfold approval_denial, approves. destruct (ta_approval a) as [g|].
  - rewrite !guard_None, !negb_false_iff, andb_true_iff, !bool_decide_eq_true, !bool_decide_eq_false.
    split.
    + intros ([? ?] & ? & ? & ? & ? & _). exists g. repeat split; auto; lia.
    + intros (g' & [= <-] & ? & ? & ? & ? & ?). repeat split; auto; lia.
  - split; [done|]. by intros (g & ? & _).
Qed.

Lemma named_denial_None (declared granted : list string) (x : string) (r1 r2 : ToolDenyReason) :
  (if negb (contains declared x) then Some r1
   else if negb (contains granted x) then Some r2 else None) = None <->
  x ∈ declared /\ x ∈ granted.
Proof.
  rewrite !guard_None, !negb_false_iff. unfold contains. rewrite !bool_decide_eq_true. tauto.
Qed.

Lemma host_denial_None m a h :
  host_denial m a h = None <-> exists hosts,
    net_hosts (tm_network m) = Some hosts /\ h ∈ hosts /\ h ∈ ta_network_hosts a.
Proof.
  unfold host_denial. destruct (net_hosts _) as [hosts|].
  - rewrite named_denial_None. naive_solver.
  - naive_solver.
Qed.

Lemma variable_denial_None m a v :
  variable_denial m a v = None <-> exists variables,
    env_variables (tm_environment m) = Some variables /\ v ∈ variables /\
    v ∈ ta_environment_variables a.
Proof.
  unfold variable_denial. destruct (env_variables _) as [vs|].
  - rewrite named_denial_None. naive_solver.
  - naive_solver.
Qed.

Lemma paths_nonempty l : Forall (fun r => path_ok r = true) l -> Forall (fun r => r <> "") l.
Proof. intros Hl. eapply Forall_impl; [exact Hl|]. intros r Hr. by apply path_ok_parts in Hr as [_ ?]. Qed.

Lemma path_denial_None m a p :
  manifest_wf m -> Forall (fun r => path_ok r = true) (ta_filesystem_roots a) ->
  path_ok p = true ->
  path_denial m a p = None <-> exists roots,
    fs_roots (tm_filesystem m) = Some roots /\ beneath_any roots p /\
    beneath_any (ta_filesystem_roots a) p.
Proof.
  intros Hm Ha [_ Hp]%path_ok_parts. unfold path_denial, beneath_any.
  destruct (fs_roots _) as [roots|] eqn:Er; [|naive_solver].
  destruct (mw_roots _ Hm _ Er) as [_ Hr].
  rewrite !guard_None, !negb_false_iff, !within_iff by auto using paths_nonempty. naive_solver.
Qed.

Lemma decide_allowed m i a now : is_allowed (decide_tool m i a now) = true <-> denial m i a now = None.
Proof. unfold decide_tool. by destruct (denial m i a now). Qed.

(** The checks in their order, one by one. *)
Lemma denial_None m i a now :
  denial m i a now = None <->
  (ta_tool_name a = tm_name m /\ ta_tool_version a = tm_version m) /\
  (forall s, s ∈ tm_required_scopes m -> s ∈ ta_granted_scopes a) /\
  (requires_explicit_grant (tm_effect m) && negb (grants a (tm_effect m))) = false /\
  (match tm_filesystem m with ReadWrite _ => true | _ => false end && negb (grants a Write)) = false /\
  (opt_is_some (net_hosts (tm_network m)) && negb (grants a Network)) = false /\
  (if approval_required m then approval_denial m i a now else None) = None /\
  (bool_decide (tm_idempotency m = KeyRequired) && opt_is_none (ti_idempotency_key i)) = false /\
  (forall p, p ∈ ti_filesystem_paths i -> path_denial m a p = None) /\
  (forall h, h ∈ ti_network_hosts i -> host_denial m a h = None) /\
  (forall v, v ∈ ti_environment_variables i -> variable_denial m a v = None).
Proof.
  unfold denial, decide_filesystem, decide_network, decide_environment.
  repeat first [rewrite guard_None | rewrite then_None]. rewrite !first_denial_None.
  rewrite negb_false_iff, andb_true_iff, !bool_decide_eq_true. setoid_rewrite scope_None. tauto.
Qed.

Lemma needs_grant (b : bool) (a : ToolAuthorization) e :
  (b && negb (grants a e)) = false <-> (b = true -> e ∈ ta_granted_effects a).
Proof.
  unfold grants. rewrite andb_false_iff, negb_false_iff, bool_decide_eq_true.
  destruct b; naive_solver.
Qed.

Lemma denial_iff m i a now :
  manifest_wf m -> Forall (fun r => path_ok r = true) (ta_filesystem_roots a) ->
  Forall (fun r => path_ok r = true) (ti_filesystem_paths i) ->
  denial m i a now = None <-> authorized m i a now.
Proof.
  intros Hm Ha Hi. rewrite Forall_forall in Hi. rewrite denial_None, !needs_grant.
  setoid_rewrite host_denial_None. setoid_rewrite variable_denial_None.
  assert (Hp : (forall p, p ∈ ti_filesystem_paths i -> path_denial m a p = None) <->
    (forall p, p ∈ ti_filesystem_paths i -> exists roots,
       fs_roots (tm_filesystem m) = Some roots /\ beneath_any roots p /\
       beneath_any (ta_filesystem_roots a) p)).
  { split; intros Hall p Hin; specialize (Hall p Hin); by apply (path_denial_None m a p Hm Ha (Hi p Hin)). }
  rewrite Hp. clear Hp.
  assert (Hap : (if approval_required m then approval_denial m i a now else None) = None <->
    (approval_required m = true -> exists g, ta_approval a = Some g /\ approves g m i a now)).
  { destruct (approval_required m); [rewrite approval_None|]; naive_solver. }
  rewrite Hap. clear Hap.
  split.
  - intros (H1 & H2 & H3 & H4 & H5 & H6 & H7 & H8 & H9 & H10). split; try done.
    + intros roots Hr. apply H4. by rewrite Hr.
    + intros Hn. apply H5. by destruct (net_hosts _).
    + intros Hk. rewrite Hk in H7. by destruct (ti_idempotency_key i).
  - intros [H1 H2 H3 H4 H5 H6 H7 H8 H9 H10]. do 3 (split; [done|]). repeat split; try done.
    + destruct (tm_filesystem m) as [| |roots]; [done..|]. intros _. by eapply H4.
    + intros Hs. apply H5. intros Hn. by rewrite Hn in Hs.
    + destruct (bool_decide _) eqn:Ek; [|done]. apply bool_decide_eq_true_1 in Ek.
      specialize (H7 Ek). by destruct (ti_idempotency_key i).
Qed.

Lemma allowed_iff mi m ii i ai a now :
  manifest_new mi = Ok m -> invocation_new ii = Ok i -> authorization_new ai = Ok a ->
  is_allowed (decide_tool m i a now) = true <-> authorized m i a now.
Proof.
  intros Hm Hi Ha. rewrite decide_allowed. apply denial_iff.
  - by eapply manifest_new_wf.
  - by apply authorization_new_wf in Ha as [(_ & _ & ?) _].
  - by apply invocation_new_wf in Hi as [(_ & _ & ?) _].
Qed.

(** C30. The broker is exact: for a manifest, a call and an authorisation that their
    constructors accepted, the call is allowed if and only if it is authorised - the
    authorisation is for this tool and version, every scope and effect was granted, a
    required approval is present, for this subject, tool and call, and live now, a
    required idempotency key is present, and every path, host and variable of the call is
    both declared by the tool and granted to the caller, paths by their components. *)
Theorem broker_decides_exactly mi m ii i ai a now :
  manifest_new mi = Ok m -> invocation_new ii = Ok i -> authorization_new ai = Ok a ->
  is_allowed (decide_tool m i a now) = true <-> authorized m i a now.
Proof. apply allowed_iff. Qed.

(** A call that was let through names no path outside the workspace, and a risky or
    non-idempotent one was approved for this very call within the last 15 minutes. *)
Theorem allowed_calls_are_confined mi m ii i ai a now :
  manifest_new mi = Ok m -> invocation_new ii = Ok i -> authorization_new ai = Ok a ->
  is_allowed (decide_tool m i a now) = true ->
  Forall (fun p => Forall plain_part (parts_of p)) (ii_filesystem_paths ii) /\
  (tm_effect m = Pure -> ii_filesystem_paths ii = [] /\ ii_network_hosts ii = [] /\
     ii_environment_variables ii = []) /\
  (requires_approval (tm_risk m) = true \/ tm_idempotency m = NonIdempotent ->
   exists g, ta_approval a = Some g /\ approves g m i a now /\
     now < ag_issued_at g + MAX_APPROVAL_TTL_SECONDS * nanos_per_second).
Proof.
  intros Hm Hi Ha Hd. apply (allowed_iff _ _ _ _ _ _ _ Hm Hi Ha) in Hd as Hz.
  apply manifest_new_wf in Hm. apply authorization_new_wf in Ha as [_ Hw].
  apply invocation_new_wf in Hi as ((_ & Hp & Hok) & (_ & Hh & _) & (_ & Hv & _) & _).
  assert (Hempty : forall l l' : list string, l ≡ₚ l' -> (forall x, x ∈ l -> False) -> l' = []).
  { intros l l' Hl Hx. apply Permutation_nil. rewrite <- Hl. symmetry.
    destruct l as [|x l]; [done|]. exfalso. apply (Hx x). set_solver. }
  split; [|split].
  - rewrite <- Hp. eapply Forall_impl; [exact Hok|]. intros p Hpo. by apply path_ok_parts in Hpo as [? _].
  - intros He. destruct (mw_pure _ Hm He) as (P1 & P2 & P3). repeat split.
    + apply (Hempty _ _ Hp). intros x Hx. destruct (az_paths _ _ _ _ Hz x Hx) as (? & ? & _). congruence.
    + apply (Hempty _ _ Hh). intros x Hx. destruct (az_hosts _ _ _ _ Hz x Hx) as (? & ? & _). congruence.
    + apply (Hempty _ _ Hv). intros x Hx. destruct (az_variables _ _ _ _ Hz x Hx) as (? & ? & _). congruence.
  - intros Hr. destruct (az_approval _ _ _ _ Hz) as (g & Hg & Hap).
    { unfold approval_required. rewrite (mw_approval _ Hm Hr). done. }
    exists g. split; [done|]. split; [done|]. specialize (Hw g Hg). unfold window_ok in Hw. cbv zeta in Hw.
    bool_props. destruct Hap as (_ & _ & _ & _ & ?). lia.
Qed.

(** What is granted besides the approval. *)
Definition grants_more (a a' : ToolAuthorization) : Prop :=
  ta_subject_id a' = ta_subject_id a /\ ta_tool_name a' = ta_tool_name a /\
  ta_tool_version a' = ta_tool_version a /\ ta_approval a' = ta_approval a /\
  ta_granted_scopes a ⊆ ta_granted_scopes a' /\ ta_granted_effects a ⊆ ta_granted_effects a' /\
  ta_filesystem_roots a ⊆ ta_filesystem_roots a' /\ ta_network_hosts a ⊆ ta_network_hosts a' /\
  ta_environment_variables a ⊆ ta_environment_variables a'.

(** Granting more never turns a call down, and an approval stays good while it lasts. *)
Theorem more_grants_allow mi m ii i ai a ai' a' now now' :
  manifest_new mi = Ok m -> invocation_new ii = Ok i -> authorization_new ai = Ok a ->
  authorization_new ai' = Ok a' -> grants_more a a' ->
  now <= now' -> (forall g, ta_approval a = Some g -> now' < ag_expires_at g) ->
  is_allowed (decide_tool m i a now) = true -> is_allowed (decide_tool m i a' now') = true.
Proof.
  intros Hm Hi Ha Ha' (E1 & E2 & E3 & E4 & S1 & S2 & S3 & S4 & S5) Hle Hg.
  rewrite (allowed_iff _ _ _ _ _ _ _ Hm Hi Ha), (allowed_iff _ _ _ _ _ _ _ Hm Hi Ha').
  intros [Z1 Z2 Z3 Z4 Z5 Z6 Z7 Z8 Z9 Z10]. split.
  - by rewrite E2, E3.
  - auto.
  - auto.
  - eauto.
  - auto.
  - intros Hr. destruct (Z6 Hr) as (g & Hga & Hap). exists g. rewrite E4. split; [done|].
    specialize (Hg g Hga). unfold approves in *. rewrite E1. intuition lia.
  - done.
  - intros p Hp. destruct (Z8 p Hp) as (roots & Hr & Hb & root & Hin & Hb').
    exists roots. split; [done|]. split; [done|]. exists root. auto.
  - intros h Hh. destruct (Z9 h Hh) as (hosts & ? & ? & ?). eauto 6.
  - intros v Hv. destruct (Z10 v Hv) as (vs & ? & ? & ?). eauto 6.
Qed.

(** ** Examples *)

Definition ex_manifest_input : ToolManifestInput :=
  {| mi_name := "fs.patch"; mi_version := "1.2.0"; mi_effect := Write; mi_risk := High;
     mi_required_scopes := ["fs:write"]; mi_approval := Required; mi_idempotency := KeyRequired;
     mi_filesystem := ReadWrite ["docs"; "src"]; mi_network := NetworkDeniedPolicy;
     mi_environment := EnvironmentDeniedPolicy |}.

Definition ex_hash : string :=
  "sha256:0123456789abcdef0123456789abcdef0123456789abcdef0123456789abcdef".

Definition ex_call (path : string) : ToolInvocationInput :=
  {| ii_invocation_hash := ex_hash; ii_filesystem_paths := [path]; ii_network_hosts := [];
     ii_environment_variables := []; ii_idempotency_key := Some "request-0001" |}.

Definition ex_authorization_input : ToolAuthorizationInput :=
  {| zi_subject_id := "subject-1"; zi_tool_name := "fs.patch"; zi_tool_version := "1.2.0";
     zi_granted_scopes := ["fs:write"; "fs:read"]; zi_granted_effects := [Read; Write];
     zi_filesystem_roots := ["src/crates"]; zi_network_hosts := [];
     zi_environment_variables := [];
     zi_approval := Some {| ag_approval_id := "approval-1"; ag_subject_id := "subject-1";
                            ag_tool_name := "fs.patch"; ag_tool_version := "1.2.0";
                            ag_invocation_hash := ex_hash; ag_issued_at := 0;
                            ag_expires_at := 60 * nanos_per_second |} |}.

Definition ex_manifest : ToolManifest :=
  {| tm_name := "fs.patch"; tm_version := "1.2.0"; tm_effect := Write; tm_risk := High;
     tm_required_scopes := ["fs:write"]; tm_approval := Required; tm_idempotency := KeyRequired;
     tm_filesystem := ReadWrite ["docs"; "src"]; tm_network := NetworkDeniedPolicy;
     tm_environment := EnvironmentDeniedPolicy |}.
Definition ex_invocation (path : string) : ToolInvocation :=
  {| ti_invocation_hash := ex_hash; ti_filesystem_paths := [path]; ti_network_hosts := [];
     ti_environment_variables := []; ti_idempotency_key := Some "request-0001" |}.
Definition ex_authorization : ToolAuthorization :=
  {| ta_subject_id := "subject-1"; ta_tool_name := "fs.patch"; ta_tool_version := "1.2.0";
     ta_granted_scopes := ["fs:read"; "fs:write"]; ta_granted_effects := [Read; Write];
     ta_filesystem_roots := ["src/crates"]; ta_network_hosts := [];
     ta_environment_variables := [];
     ta_approval := zi_approval ex_authorization_input |}.

Lemma ex_manifest_new : manifest_new ex_manifest_input = Ok ex_manifest.
Proof. vm_compute. reflexivity. Qed.
Lemma ex_invocation_new : invocation_new (ex_call "src/crates/a.rs") = Ok (ex_invocation "src/crates/a.rs").
Proof. vm_compute. reflexivity. Qed.
Lemma ex_authorization_new : authorization_new ex_authorization_input = Ok ex_authorization.
Proof. vm_compute. reflexivity. Qed.

(** A sibling with a longer name is not below the root, an expired approval does not
    count, and a path that climbs is refused before. *)
Example ex_decisions :
  decide_tool ex_manifest (ex_invocation "src/crates/a.rs") ex_authorization 5
  = Allow "explicit_policy_grants_satisfied" /\
  decide_tool ex_manifest (ex_invocation "src/crates2/a.rs") ex_authorization 5
  = Deny (FilesystemPathNotAuthorized "src/crates2/a.rs") /\
  decide_tool ex_manifest (ex_invocation "src/crates/a.rs") ex_authorization (60 * nanos_per_second)
  = Deny ApprovalExpired /\
  invocation_new (ex_call "src/../etc") = Err (InvalidPath "src/../etc").
Proof. vm_compute. done. Qed.

Lemma broker_decides_exactly_witness :
  authorized ex_manifest (ex_invocation "src/crates/a.rs") ex_authorization 5.
Proof.
  apply (broker_decides_exactly ex_manifest_input ex_manifest (ex_call "src/crates/a.rs")
           (ex_invocation "src/crates/a.rs") ex_authorization_input ex_authorization 5
           ex_manifest_new ex_invocation_new ex_authorization_new).
  vm_compute. reflexivity.
Defined.

Lemma allowed_calls_are_confined_witness :
  exists g, ta_approval ex_authorization = Some g /\
    5 < ag_issued_at g + MAX_APPROVAL_TTL_SECONDS * nanos_per_second.
Proof.
  destruct (allowed_calls_are_confined ex_manifest_input ex_manifest (ex_call "src/crates/a.rs")
    (ex_invocation "src/crates/a.rs") ex_authorization_input ex_authorization 5
    ex_manifest_new ex_invocation_new ex_authorization_new) as (_ & _ & Hg).
  - vm_compute. reflexivity.
  - destruct Hg as (g & ? & _ & ?); [left; reflexivity|]. by exists g.
Defined.
