(* ===== verification/AgentFsm.v ===== *)
(** * The state machine of the agent loop ([crates/zaion-runtime/src/agent_fsm.rs])

    One [AgentFsm] governs one agent session: user messages, model responses, tool
    results and deliveries are its events, each handled by one method.  [now] is the
    clock a handler reads for its log entry.  Additions of [u64] and [usize] wrap, as
    in a build without overflow checks.

    Its log is a run of the documented state graph, tool rounds and the work on one
    user message are bounded, the token limit is final, and tool results under a
    budget enter the conversation whole or as a pointer to a file that holds them. *)

From stdpp Require Import prelude gmap strings list.
From S2P Require Import Prelude.
From S2P Require Import Json.
From S2P Require Import Env.
From S2P Require Import Concrete.
From S2P Require Import TurnProof.
From S2P Require Import ToolResults.
From S2P Require Import ToolResultsTheorems.
Local Open Scope res_scope.
Local Open Scope Z_scope.

Inductive FinishReason : Type := Stop | FinishToolUse | MaxTokens.

Record ToolCallRequest : Type := {
  tc_id : string;
  tc_name : string;
  tc_arguments : string
}.

Record LlmOutcome : Type := {
  lo_finish_reason : FinishReason;
  lo_tool_calls : list ToolCallRequest;
  lo_text : string;
  lo_tokens_used : Z
}.

Record ToolResult : Type := {
  tr_tool_call_id : string;
  tr_tool_name : string;
  tr_output : string;
  tr_success : bool
}.

Inductive AgentState : Type := Idle | Thinking | ToolUse | Responding | Reflecting.

#[export] Instance AgentState_eq_dec : EqDecision AgentState.
Proof. solve_decision. Defined.

Inductive FsmError : Type :=
| InvalidTransition (from to : AgentState)
| MaxToolRoundsExceeded (max : Z)
| TokenLimitExceeded.

Definition state_debug (s : AgentState) : string :=
  match s with
  | Idle => "Idle" | Thinking => "Thinking" | ToolUse => "ToolUse"
  | Responding => "Responding" | Reflecting => "Reflecting"
  end.

(** [FsmError]'s [Display] *)
Definition fsm_error_text (e : FsmError) : string :=
  match e with
  | InvalidTransition from to =>
      "invalid transition: cannot go from " +:+ state_debug from +:+ " to " +:+ state_debug to
  | MaxToolRoundsExceeded max => "max tool rounds (" +:+ z_to_string max +:+ ") exceeded"
  | TokenLimitExceeded => "session token limit exceeded"
  end.

Record FsmConfig : Type := {
  max_tool_rounds : Z;
  max_session_tokens : Z;
  reflection_enabled : bool
}.

Definition fsm_config_default : FsmConfig :=
  {| max_tool_rounds := 10; max_session_tokens := 100000; reflection_enabled := true |}.

Record StateTransition : Type := {
  st_from : AgentState;
  st_to : AgentState;
  st_reason : string;
  st_timestamp_ms : Z
}.

(** [zaion_adapters::ToolCall] and [ChatMessage] *)
Record ToolCall : Type := {
  call_id : string;
  call_name : string;
  call_arguments : Value
}.

Record ChatMessage : Type := {
  cm_role : string;
  cm_content : string;
  cm_tool_calls : list ToolCall;
  cm_tool_call_id : option string;
  cm_reasoning_content : option string;
  cm_reasoning_signature : option string
}.

Record AgentFsm : Type := {
  state : AgentState;
  messages : list ChatMessage;
  config : FsmConfig;
  transitions : list StateTransition;
  tool_round_count : Z;
  session_tokens : Z
}.

Definition new (cfg : FsmConfig) : AgentFsm :=
  {| state := Idle; messages := []; config := cfg; transitions := []; tool_round_count := 0;
     session_tokens := 0 |}.

Definition wrapping_add (a b : Z) : Z := (a + b) mod 2 ^ 64.

(** ** Field updates and private helpers *)

Definition with_messages (f : AgentFsm) (ms : list ChatMessage) : AgentFsm :=
  {| state := state f; messages := ms; config := config f; transitions := transitions f;
     tool_round_count := tool_round_count f; session_tokens := session_tokens f |}.

Definition with_rounds (f : AgentFsm) (n : Z) : AgentFsm :=
  {| state := state f; messages := messages f; config := config f;
     transitions := transitions f; tool_round_count := n; session_tokens := session_tokens f |}.

Definition with_tokens (f : AgentFsm) (n : Z) : AgentFsm :=
  {| state := state f; messages := messages f; config := config f;
     transitions := transitions f; tool_round_count := tool_round_count f;
     session_tokens := n |}.

Definition require_state (f : AgentFsm) (expected target : AgentState) : result FsmError unit :=
  guard? bool_decide (state f = expected) else InvalidTransition (state f) target in
  Ok tt.

(** [transition_to] with [record_transition]; it does not fail. *)
Definition transition_to (now : Z) (f : AgentFsm) (to : AgentState) (reason : string) : AgentFsm :=
  {| state := to; messages := messages f; config := config f;
     transitions := transitions f ++ [{| st_from := state f; st_to := to; st_reason := reason;
                                         st_timestamp_ms := now |}];
     tool_round_count := tool_round_count f; session_tokens := session_tokens f |}.

Definition add_assistant_message_from_outcome (f : AgentFsm) (outcome : LlmOutcome) : AgentFsm :=
  with_messages f (messages f ++ [{| cm_role := "assistant"; cm_content := lo_text outcome;
                                     cm_tool_calls := []; cm_tool_call_id := None;
                                     cm_reasoning_content := None;
                                     cm_reasoning_signature := None |}]).

(** ** Event handlers: the machine afterwards and what the handler returns *)

Definition on_user_message (now : Z) (f : AgentFsm) (message : ChatMessage)
  : AgentFsm * result FsmError AgentState :=
  match require_state f Idle Thinking with
  | Err e => (f, Err e)
  | Ok _ =>
      let f := with_messages f (messages f ++ [message]) in
      let f := with_rounds f 0 in
      (transition_to now f Thinking "user message received", Ok Thinking)
  end.

Definition on_llm_response (now : Z) (f : AgentFsm) (outcome : LlmOutcome)
  : AgentFsm * result FsmError AgentState :=
  match require_state f Thinking Responding with
  | Err e => (f, Err e)
  | Ok _ =>
      let f := with_tokens f (wrapping_add (session_tokens f) (lo_tokens_used outcome)) in
      if bool_decide (max_session_tokens (config f) < session_tokens f)
      then (transition_to now f Idle "session token limit exceeded", Err TokenLimitExceeded)
      else
        match lo_finish_reason outcome with
        | FinishToolUse =>
            let f := add_assistant_message_from_outcome f outcome in
            (transition_to now f ToolUse "LLM requested tool calls", Ok ToolUse)
        | Stop =>
            let f := add_assistant_message_from_outcome f outcome in
            (transition_to now f Responding "LLM produced text response", Ok Responding)
        | MaxTokens => (transition_to now f Idle "max tokens reached", Ok Idle)
        end
  end.

Definition tool_message (r : ToolResult) : ChatMessage :=
  {| cm_role := "tool";
     cm_content := "[" +:+ (if tr_success r then "ok" else "err") +:+ "] "
                   +:+ tr_tool_name r +:+ ": " +:+ tr_output r;
     cm_tool_calls := []; cm_tool_call_id := Some (tr_tool_call_id r);
     cm_reasoning_content := None; cm_reasoning_signature := None |}.

Definition on_tool_results (now : Z) (f : AgentFsm) (results : list ToolResult)
  : AgentFsm * result FsmError AgentState :=
  match require_state f ToolUse Thinking with
  | Err e => (f, Err e)
  | Ok _ =>
      let f := with_rounds f (wrapping_add (tool_round_count f) 1) in
      if bool_decide (max_tool_rounds (config f) < tool_round_count f)
      then (transition_to now f Idle "max tool rounds exceeded",
            Err (MaxToolRoundsExceeded (max_tool_rounds (config f))))
      else
        let f := with_messages f (messages f ++ map tool_message results) in
        (transition_to now f Thinking "tool results collected", Ok Thinking)
  end.

Definition on_response_delivered (now : Z) (f : AgentFsm)
  : AgentFsm * result FsmError AgentState :=
  match require_state f Responding Reflecting with
  | Err e => (f, Err e)
  | Ok _ =>
      if reflection_enabled (config f)
      then (transition_to now f Reflecting "response delivered, reflecting", Ok Reflecting)
      else (transition_to now f Idle "response delivered, reflection disabled", Ok Idle)
  end.

Definition on_reflection_complete (now : Z) (f : AgentFsm)
  : AgentFsm * result FsmError AgentState :=
  match require_state f Reflecting Idle with
  | Err e => (f, Err e)
  | Ok _ => (transition_to now f Idle "reflection complete", Ok Idle)
  end.

Definition reset (now : Z) (f : AgentFsm) : AgentFsm :=
  transition_to now (with_rounds f 0) Idle "forced reset".

(** ** Tool results under a budget *)

Section Budgeted.
Context `{Env} (cwd : option string) (size_label : Z -> string).
Context (create_fault : Fs -> string -> option string).
Context (write_fault : Fs -> string -> string -> option (string * Fs)).

(** The first loop: every result through [maybe_store_tool_result]. *)
Fixpoint store_results (fs : Fs) (cfg : ToolResultBudgetConfig) (results : list ToolResult)
  : Fs * result ToolResultStorageError (list ToolResultMessage) :=
  match results with
  | [] => (fs, Ok [])
  | r :: results' =>
      match maybe_store_tool_result cwd size_label create_fault write_fault fs (tr_output r)
              (tr_tool_name r) (tr_tool_call_id r) cfg with
      | (fs, Err e) => (fs, Err e)
      | (fs, Ok stored) =>
          let message := {| msg_tool_name := tr_tool_name r; msg_tool_call_id := tr_tool_call_id r;
                            msg_content := sr_injectable_content stored;
                            msg_metadata := Some (sr_metadata stored) |} in
          match store_results fs cfg results' with
          | (fs, Err e) => (fs, Err e)
          | (fs, Ok ms) => (fs, Ok (message :: ms))
          end
      end
  end.

Definition budgeted_result (m : ToolResultMessage) (success : bool) : ToolResult :=
  {| tr_tool_call_id := msg_tool_call_id m; tr_tool_name := msg_tool_name m;
     tr_output := msg_content m; tr_success := success |}.

Definition on_tool_results_with_budget (now : Z) (fs : Fs) (f : AgentFsm)
    (results : list ToolResult) (cfg : ToolResultBudgetConfig)
  : Fs * AgentFsm * result ToolResultStorageError AgentState :=
  match require_state f ToolUse Thinking with
  | Err e => (fs, f, Err (StorageState (fsm_error_text e)))
  | Ok _ =>
      match store_results fs cfg results with
      | (fs, Err e) => (fs, f, Err e)
      | (fs, Ok ms) =>
          match enforce_turn_budget cwd size_label create_fault write_fault fs ms cfg with
          | (fs, _, Err e) => (fs, f, Err e)
          | (fs, ms, Ok _) =>
              let budgeted := zip_with budgeted_result ms (map tr_success results) in
              match on_tool_results now f budgeted with
              | (f, Err e) => (fs, f, Err (StorageState (fsm_error_text e)))
              | (f, Ok s) => (fs, f, Ok s)
              end
          end
      end
  end.

(** ** Sessions: any sequence of calls *)

Inductive FsmEvent : Type :=
| UserMessage (m : ChatMessage)
| LlmResponse (o : LlmOutcome)
| ToolResults (rs : list ToolResult)
| ToolResultsWithBudget (rs : list ToolResult) (cfg : ToolResultBudgetConfig)
| ResponseDelivered
| ReflectionComplete
| Reset.

Definition handle (w : Fs * AgentFsm) (ev : Z * FsmEvent) : Fs * AgentFsm :=
  let '(fs, f) := w in
  let '(now, ev) := ev in
  match ev with
  | UserMessage m => (fs, fst (on_user_message now f m))
  | LlmResponse o => (fs, fst (on_llm_response now f o))
  | ToolResults rs => (fs, fst (on_tool_results now f rs))
  | ToolResultsWithBudget rs cfg => fst (on_tool_results_with_budget now fs f rs cfg)
  | ResponseDelivered => (fs, fst (on_response_delivered now f))
  | ReflectionComplete => (fs, fst (on_reflection_complete now f))
  | Reset => (fs, reset now f)
  end.

Definition run (w : Fs * AgentFsm) (evs : list (Z * FsmEvent)) : Fs * AgentFsm :=
  foldl handle w evs.

End Budgeted.

(** * What the agent state machine guarantees *)

(** ** The state graph *)

(** Idle -> Thinking -> ToolUse/Responding -> Reflecting -> Idle *)
Definition edge (a b : AgentState) : bool :=
  match a, b with
  | Idle, Thinking
  | Thinking, (ToolUse | Responding | Idle)
  | ToolUse, (Thinking | Idle)
  | Responding, (Reflecting | Idle)
  | Reflecting, Idle => true
  | _, _ => false
  end.

Definition legal (t : StateTransition) : Prop :=
  edge (st_from t) (st_to t) = true \/ (st_to t = Idle /\ st_reason t = "forced reset").

(** A log that leads from one state to another. *)
Fixpoint log_path (a : AgentState) (log : list StateTransition) (b : AgentState) : Prop :=
  match log with
  | [] => a = b
  | t :: log' => st_from t = a /\ log_path (st_to t) log' b
  end.

Lemma log_path_snoc a log t :
  log_path a log (st_from t) -> log_path a (log ++ [t]) (st_to t).
Proof. revert a. induction log as [|u log IH]; simpl; intros a Hl; [done|]. naive_solver. Qed.

(** The entries since the session was last idle. *)
Fixpoint open_len (log : list StateTransition) (n : Z) : Z :=
  match log with
  | [] => n
  | t :: log' => open_len log' (if bool_decide (st_to t = Idle) then 0 else n + 1)
  end.

Lemma open_len_snoc log t n :
  open_len (log ++ [t]) n
  = if bool_decide (st_to t = Idle) then 0 else open_len log n + 1.
Proof. revert n. induction log as [|u log IH]; intros n; simpl; [done|]. apply IH. Qed.

(** ** What one event can do *)

(** The tokens a handler adds to the session. *)
Inductive move (f f' : AgentFsm) : Prop :=
| move_user : state f = Idle -> state f' = Thinking -> tool_round_count f' = 0 ->
    session_tokens f' = session_tokens f -> move f f'
| move_llm t : state f = Thinking -> tool_round_count f' = tool_round_count f ->
    session_tokens f' = wrapping_add (session_tokens f) t ->
    (state f' = Idle \/
     session_tokens f' <= max_session_tokens (config f) /\
     (state f' = ToolUse \/ state f' = Responding)) -> move f f'
| move_tools : state f = ToolUse ->
    tool_round_count f' = wrapping_add (tool_round_count f) 1 ->
    session_tokens f' = session_tokens f ->
    (state f' = Idle \/
     tool_round_count f' <= max_tool_rounds (config f) /\ state f' = Thinking) -> move f f'
| move_deliver : state f = Responding -> (state f' = Reflecting \/ state f' = Idle) ->
    tool_round_count f' = tool_round_count f -> session_tokens f' = session_tokens f -> move f f'
| move_reflect : state f = Reflecting -> state f' = Idle ->
    tool_round_count f' = tool_round_count f -> session_tokens f' = session_tokens f -> move f f'
| move_reset : state f' = Idle -> tool_round_count f' = 0 ->
    session_tokens f' = session_tokens f -> move f f'.

(** One entry is appended to the log; messages are appended. *)
Definition logs_one (f f' : AgentFsm) : Prop :=
  exists t, transitions f' = transitions f ++ [t] /\ st_from t = state f /\
    st_to t = state f' /\ legal t /\ config f' = config f /\
    messages f `prefix_of` messages f'.

Section Sessions.
Context `{Env} (cwd : option string) (size_label : Z -> string).
Context (create_fault : Fs -> string -> option string).
Context (write_fault : Fs -> string -> string -> option (string * Fs)).
Abbreviation step := (handle cwd size_label create_fault write_fault).
Abbreviation session := (run cwd size_label create_fault write_fault).

Ltac one_entry E :=
  eexists; split; [reflexivity|]; simpl; rewrite ?E; repeat split;
  solve [done | unfold legal; simpl; rewrite ?E; tauto | by apply prefix_app_r].

(** The guard of a handler. *)
Ltac by_state :=
  cbv zeta; unfold require_state;
  match goal with |- context [bool_decide (state ?f = ?s)] =>
    destruct (bool_decide (state f = s)) eqn:E; simpl; [|by left];
    apply bool_decide_eq_true in E; right end.

Lemma on_tool_results_move now f rs :
  let f' := fst (on_tool_results now f rs) in f' = f \/ (move f f' /\ logs_one f f').
Proof.
  unfold on_tool_results. by_state. case_bool_decide; simpl in *;
    (split; [apply move_tools; simpl; eauto with lia|one_entry E]).
Qed.

Lemma on_llm_response_move now f o :
  let f' := fst (on_llm_response now f o) in f' = f \/ (move f f' /\ logs_one f f').
Proof.
  unfold on_llm_response. by_state. case_bool_decide as Ht; simpl in *.
  { split; [eapply move_llm; simpl; eauto|one_entry E]. }
  destruct (lo_finish_reason o); simpl;
    (split; [eapply move_llm; simpl; eauto 6 with lia|one_entry E]).
Qed.

Lemma handle_move w ev :
  (step w ev).2 = w.2 \/ (move w.2 (step w ev).2 /\ logs_one w.2 (step w ev).2).
Proof.
  destruct w as [fs f], ev as [now [m|o|rs|rs cfg| | |]]; simpl.
  - unfold on_user_message. by_state. split; [by apply move_user|one_entry E].
  - apply on_llm_response_move.
  - apply on_tool_results_move.
  - unfold on_tool_results_with_budget. unfold require_state.
    case_bool_decide; simpl; [|by left].
    destruct (store_results _ _ _ _ _ _ _) as [fs1 [ms|e]]; simpl; [|by left].
    destruct (enforce_turn_budget _ _ _ _ _ _ _) as [[fs2 ms'] [[]|e]]; simpl; [|by left].
    pose proof (on_tool_results_move now f (zip_with budgeted_result ms' (map tr_success rs))) as Hm.
    by destruct (on_tool_results _ _ _) as [f' []].
  - unfold on_response_delivered. by_state. destruct (reflection_enabled (config f)); simpl;
      (split; [apply move_deliver; simpl; auto|one_entry E]).
  - unfold on_reflection_complete. by_state. split; [by apply move_reflect|one_entry E].
  - right. split; [by apply move_reset|]. unfold logs_one. eexists.
    split; [reflexivity|]. simpl. repeat split; [by right|done].
Qed.

(** ** Invariants of a session *)

(** Where the session is in the work on one user message. *)
Definition open_at (s : AgentState) (rounds : Z) : Z :=
  match s with
  | Idle => 0 | Thinking => 2 * rounds + 1 | ToolUse => 2 * rounds + 2
  | Responding => 2 * rounds + 2 | Reflecting => 2 * rounds + 3
  end.

Record session_ok (cfg : FsmConfig) (f : AgentFsm) : Prop := {
  so_config : config f = cfg;
  so_path : log_path Idle (transitions f) (state f);
  so_legal : Forall legal (transitions f);
  so_rounds : 0 <= tool_round_count f;
  so_bound : state f <> Idle -> tool_round_count f <= max_tool_rounds cfg;
  so_open : open_len (transitions f) 0 = open_at (state f) (tool_round_count f);
  so_tokens : max_session_tokens cfg < session_tokens f -> state f = Idle \/ state f = Thinking
}.

Lemma session_ok_new cfg : session_ok cfg (new cfg).
Proof. constructor; simpl; try done; by left. Qed.

Lemma wrapping_succ n m : 0 <= n <= m -> m < u64_max -> wrapping_add n 1 = n + 1.
Proof. intros Hn Hm. unfold wrapping_add, u64_max in *. apply Z.mod_small. lia. Qed.

Ltac move_cases H :=
  destruct H as [Hs1 Hs2 Hrounds Htokens|tk Hs1 Hrounds Htokens [Hs2|[Hk [Hs2|Hs2]]]
    |Hs1 Hrounds Htokens [Hs2|[Hk Hs2]]|Hs1 [Hs2|Hs2] Hrounds Htokens
    |Hs1 Hs2 Hrounds Htokens|Hs2 Hrounds Htokens].

Lemma session_ok_move cfg f f' :
  0 <= max_tool_rounds cfg < u64_max -> session_ok cfg f -> move f f' -> logs_one f f' ->
  session_ok cfg f'.
Proof.
  intros Hmax [<- Hp Hl Hr Hb Ho Ht] Hmv (t & Htr & Hfrom & Hto & Hlegal & Hcfg & _).
  constructor; rewrite ?Htr.
  - done.
  - rewrite <- Hto. apply log_path_snoc. by rewrite Hfrom.
  - apply Forall_app. split; [done|]. by apply Forall_singleton.
  - destruct Hmv; try lia. unfold wrapping_add in *. pose proof (Z.mod_pos_bound
      (tool_round_count f + 1) (2 ^ 64)). lia.
  - intros Hs. move_cases Hmv; try done; try lia; rewrite Hrounds; apply Hb; congruence.
  - rewrite open_len_snoc, Hto, Ho.
    assert (Hw : state f = Idle \/ wrapping_add (tool_round_count f) 1 = tool_round_count f + 1).
    { destruct (decide (state f = Idle)); [by left|right].
      eapply wrapping_succ; [split; [done|by apply Hb]|lia]. }
    move_cases Hmv; rewrite Hs2; case_bool_decide; try done; rewrite Hs1 in Hw |- *; simpl;
      rewrite ?Hrounds; destruct Hw; try done; lia.
  - intros Hlim. move_cases Hmv; rewrite ?Hs2; try (by auto); exfalso; try lia;
      rewrite Htokens in Hlim; rewrite Hs1 in Ht; destruct (Ht Hlim); done.
Qed.

Lemma session_ok_run cfg w evs :
  0 <= max_tool_rounds cfg < u64_max -> session_ok cfg w.2 -> session_ok cfg (session w evs).2.
Proof.
  intros Hmax. revert w. induction evs as [|ev evs IH]; intros w Hw; [done|].
  apply IH. destruct (handle_move w ev) as [->|[Hm Hl]]; [done|].
  by eapply session_ok_move.
Qed.
(** What is once in the log or the conversation stays there. *)
Lemma run_extends w evs :
  transitions w.2 `prefix_of` transitions (session w evs).2 /\
  messages w.2 `prefix_of` messages (session w evs).2.
Proof.
  revert w. induction evs as [|ev evs IH]; intros w; [done|].
  destruct (IH (step w ev)) as [H1 H2].
  destruct (handle_move w ev) as [He|[_ (t & Ht & _ & _ & _ & _ & Hm)]].
  - by rewrite He in H1, H2.
  - split; [etrans; [|exact H1]|by etrans].
    rewrite Ht. by apply prefix_app_r.
Qed.


(** A stretch of the log without a return to idle. *)
Definition busy (log : list StateTransition) : Prop := Forall (fun t => st_to t <> Idle) log.

Lemma open_len_busy l2 : forall n, busy l2 -> open_len l2 n = n + Z.of_nat (length l2).
Proof.
  induction l2 as [|t l2 IH]; intros n Hb; simpl; [lia|].
  apply Forall_cons in Hb as [Ht Hb]. rewrite bool_decide_false by done. rewrite IH by done. lia.
Qed.

Lemma open_len_app l1 l2 n : open_len (l1 ++ l2) n = open_len l2 (open_len l1 n).
Proof. revert n. induction l1 as [|t l1 IH]; intros n; simpl; [done|]. apply IH. Qed.

Lemma open_len_nonneg log : forall n, 0 <= n -> 0 <= open_len log n.
Proof. induction log as [|t log IH]; intros n Hn; simpl; [done|]. apply IH. case_bool_decide; lia. Qed.

Lemma prefix_snoc_cases {A} (k l : list A) x :
  k `prefix_of` l ++ [x] -> k `prefix_of` l \/ k = l ++ [x].
Proof.
  intros [r Hr]. destruct r as [|y r _] using rev_ind; [right; by rewrite app_nil_r in Hr|left].
  rewrite app_assoc in Hr. apply app_inj_tail in Hr as [-> _]. by apply prefix_app_r.
Qed.

(** Every prefix of the log was the log at some time. *)
Lemma log_prefix_reached w evs log :
  log `prefix_of` transitions (session w evs).2 -> transitions w.2 `prefix_of` log ->
  exists evs', log = transitions (session w evs').2.
Proof.
  revert w. induction evs as [|ev evs IH] using rev_ind; intros w H1 H2.
  { exists []. by apply (anti_symm prefix). }
  unfold run in H1. rewrite foldl_app in H1. simpl in H1.
  change (foldl step w evs) with (session w evs) in H1.
  destruct (handle_move (session w evs) ev) as [He|[_ (t & Ht & _)]].
  { rewrite He in H1. by apply IH. }
  rewrite Ht in H1. apply prefix_snoc_cases in H1 as [|]; [by apply IH|].
  exists (evs ++ [ev]). unfold run. rewrite foldl_app. simpl.
  change (foldl step w evs) with (session w evs). by rewrite Ht.
Qed.
(** Every user message is worked off.  In the log of any session, between two
    returns to idle there are at most [2 * max_tool_rounds + 3] entries: a session
    that keeps being driven gives a response or stops with an error after finitely
    many events, however often the model asks for tools. *)
Theorem work_on_a_message_bounded cfg fs evs before stretch after :
  0 <= max_tool_rounds cfg < u64_max ->
  transitions (session (fs, new cfg) evs).2 = before ++ stretch ++ after -> busy stretch ->
  Z.of_nat (length stretch) <= 2 * max_tool_rounds cfg + 3.
Proof.
  intros Hmax Hlog Hbusy.
  destruct (log_prefix_reached (fs, new cfg) evs (before ++ stretch)) as [evs' Hevs].
  { rewrite Hlog, app_assoc. by apply prefix_app_r. }
  { apply prefix_nil. }
  destruct (session_ok_run cfg (fs, new cfg) evs' Hmax (session_ok_new cfg)) as [_ _ _ Hr Hb Ho _].
  rewrite <- Hevs, open_len_app, open_len_busy in Ho by done.
  pose proof (open_len_nonneg before 0).
  set (f := (session (fs, new cfg) evs').2) in *. destruct (state f); simpl in Ho; try lia;
    (assert (tool_round_count f <= max_tool_rounds cfg) by (by apply Hb); lia).
Qed.

(** ** The token limit *)

(** What the model's responses report as used, and the messages users send. *)
Definition tokens_of (evs : list (Z * FsmEvent)) : Z :=
  foldr (fun ev acc => match ev.2 with LlmResponse o => lo_tokens_used o + acc | _ => acc end)
    0 evs.

Definition tokens_ok (evs : list (Z * FsmEvent)) : Prop :=
  Forall (fun ev => match ev.2 with LlmResponse o => 0 <= lo_tokens_used o | _ => True end) evs.

Definition user_messages (evs : list (Z * FsmEvent)) : list ChatMessage :=
  omap (fun ev => match ev.2 with UserMessage m => Some m | _ => None end) evs.

Definition waiting (f : AgentFsm) : Prop := state f = Idle \/ state f = Thinking.

Lemma tokens_of_nonneg evs : tokens_ok evs -> 0 <= tokens_of evs.
Proof.
  induction 1 as [|[now ev] evs Hev _ IH]; simpl; [done|]. destruct ev; simpl in Hev; lia.
Qed.

(** One event in a session over its limit. *)
Lemma over_limit_step f fs ev f' :
  waiting f -> 0 <= max_session_tokens (config f) < session_tokens f ->
  tokens_ok [ev] -> session_tokens f + tokens_of [ev] <= u64_max ->
  (step (fs, f) ev).2 = f' ->
  waiting f' /\ config f' = config f /\
  session_tokens f <= session_tokens f' <= session_tokens f + tokens_of [ev] /\
  exists ms, messages f' = messages f ++ ms /\ ms `sublist_of` user_messages [ev].
Proof.
  intros Hw [Hpos Hlim] Htok%tokens_of_nonneg Hsum <-.
  assert (Hsame : waiting f /\ config f = config f /\
    session_tokens f <= session_tokens f <= session_tokens f + tokens_of [ev] /\
    exists ms, messages f = messages f ++ ms /\ ms `sublist_of` user_messages [ev]).
  { split; [done|]. split; [done|]. split.
    - lia.
    - exists []. rewrite app_nil_r. split; [done|]. apply sublist_nil_l. }
  assert (Hreject : forall s s', s <> Idle -> s <> Thinking ->
            require_state f s s' = Err (InvalidTransition (state f) s')).
  { intros s s' H1 H2. unfold require_state.
    rewrite bool_decide_false; [done|]. destruct Hw; congruence. }
  destruct ev as [now [m|o|rs|rs cfg| | |]]; simpl in Htok, Hsum |- *.
  - unfold on_user_message, require_state. case_bool_decide; simpl; [|exact Hsame].
    split; [by right|]. split; [done|]. split; [lia|]. exists [m]. done.
  - unfold on_llm_response, require_state. case_bool_decide; simpl; [|exact Hsame].
    assert (Hadd : wrapping_add (session_tokens f) (lo_tokens_used o)
                   = session_tokens f + lo_tokens_used o).
    { unfold wrapping_add, u64_max in *. apply Z.mod_small. lia. }
    rewrite Hadd, bool_decide_true by lia. simpl. split; [by left|]. split; [done|].
    split; [lia|]. exists []. rewrite app_nil_r. done.
  - unfold on_tool_results. rewrite Hreject by done. exact Hsame.
  - unfold on_tool_results_with_budget. rewrite Hreject by done. exact Hsame.
  - unfold on_response_delivered. rewrite Hreject by done. exact Hsame.
  - unfold on_reflection_complete. rewrite Hreject by done. exact Hsame.
  - split; [by left|]. split; [done|]. split; [lia|]. exists []. rewrite app_nil_r. done.
Qed.
Lemma over_limit_run evs : forall fs f,
  waiting f -> 0 <= max_session_tokens (config f) < session_tokens f ->
  tokens_ok evs -> session_tokens f + tokens_of evs <= u64_max ->
  let f' := (session (fs, f) evs).2 in
  waiting f' /\ exists ms, messages f' = messages f ++ ms /\ ms `sublist_of` user_messages evs.
Proof.
  induction evs as [|ev evs IH]; intros fs f Hw Hlim Htok Hsum.
  { split; [done|]. exists []. by rewrite app_nil_r. }
  apply Forall_cons in Htok as [He Htok].
  assert (Hadd : tokens_of (ev :: evs) = tokens_of [ev] + tokens_of evs).
  { simpl. destruct ev as [now []]; simpl; lia. }
  pose proof (tokens_of_nonneg evs Htok). rewrite Hadd in Hsum.
  destruct (over_limit_step f fs ev (step (fs, f) ev).2 Hw Hlim)
    as (Hw' & Hc' & Ht' & ms & Hm & Hsub); [by apply Forall_singleton|lia|done|].
  cbv zeta. change (session (fs, f) (ev :: evs)) with (session (step (fs, f) ev) evs).
  destruct (step (fs, f) ev) as [fs' f'] eqn:Hstep. cbn [snd] in Hw', Hc', Ht', Hm.
  destruct (IH fs' f') as (Hw'' & ms' & Hm' & Hsub'); [done|rewrite Hc'; lia|done|lia|].
  split; [done|]. exists (ms ++ ms'). rewrite Hm', Hm, app_assoc. split; [done|].
  assert (Hu : user_messages (ev :: evs) = user_messages [ev] ++ user_messages evs)
    by apply (omap_app _ [ev] evs).
  rewrite Hu. by apply sublist_app.
Qed.

(** The token limit is final.  Once a session has used more tokens than it may
    (and the counter does not wrap), nothing but further user messages enters the
    conversation: whatever happens afterwards, a forced reset included, the session
    only waits and thinks, and no response, tool round or reflection follows. *)
Theorem token_limit_final cfg fs evs evs' :
  0 <= max_tool_rounds cfg < u64_max -> 0 <= max_session_tokens cfg ->
  let w := session (fs, new cfg) evs in
  max_session_tokens cfg < session_tokens w.2 ->
  tokens_ok evs' -> session_tokens w.2 + tokens_of evs' <= u64_max ->
  let f' := (session w evs').2 in
  (state f' = Idle \/ state f' = Thinking) /\
  exists ms, messages f' = messages w.2 ++ ms /\ ms `sublist_of` user_messages evs'.
Proof.
  intros Hmax Hpos w Hlim Htok Hsum.
  destruct (session_ok_run cfg (fs, new cfg) evs Hmax (session_ok_new cfg)) as [Hc _ _ _ _ _ Ht].
  fold w in Hc, Ht. destruct w as [fs' f]. simpl in *.
  apply over_limit_run; [by apply Ht|rewrite Hc; lia|done|done].
Qed.
(** ** Tool results under a budget *)

Context (hex_digits : forall s, str_all is_ascii_alphanumeric (hex_encode s) = true).

Section Budget.
Context (cfg : ToolResultBudgetConfig).
Let host := host_new cwd create_fault write_fault (storage_dir cfg).

(** A result as a message of its own, its file, and the text that points to it. *)
Definition raw_message (r : ToolResult) : ToolResultMessage :=
  message_new (tr_tool_name r) (tr_tool_call_id r) (tr_output r).

Definition tool_file (r : ToolResult) : string :=
  path_join (storage_dir cfg) (safe_file_stem (tr_tool_call_id r) +:+ ".txt").

Definition pointer (r : ToolResult) : string :=
  msg_content (spilled size_label cfg host (raw_message r)).

Definition too_large (r : ToolResult) : bool :=
  bool_decide (result_budget_bytes cfg < str_len (tr_output r)).

(** The message after the first loop. *)
Definition first_pass (r : ToolResult) : ToolResultMessage :=
  if too_large r then spilled size_label cfg host (raw_message r)
  else {| msg_tool_name := tr_tool_name r; msg_tool_call_id := tr_tool_call_id r;
          msg_content := tr_output r;
          msg_metadata := Some (metadata_of host (tr_tool_name r) (tr_tool_call_id r)
            (str_len (tr_output r)) (generate_preview (tr_output r) (preview_bytes cfg)).1
            false false None) |}.

Definition first_writes (fs : Fs) (rs : list ToolResult) : Fs :=
  foldl (fun fs r => if too_large r then <[tool_file r := tr_output r]> fs else fs) fs rs.

Lemma store_results_ok rs : forall fs fs' ms,
  store_results cwd size_label create_fault write_fault fs cfg rs = (fs', Ok ms) ->
  ms = map first_pass rs /\ fs' = first_writes fs rs.
Proof.
  induction rs as [|r rs IH]; intros fs fs' ms Hs; simpl in Hs; [by simplify_eq|].
  unfold maybe_store_tool_result, maybe_store_tool_result_with_threshold in Hs.
  destruct (maybe_store_tool_result_with_target _ _ _ _ _ _ _ _ _) as [fs1 [stored|e]] eqn:Hst;
    [|done].
  destruct (store_results _ _ _ _ fs1 cfg rs) as [fs2 [ms2|e]] eqn:Hrs; simplify_eq.
  apply IH in Hrs as [-> ->]. simpl. unfold too_large. case_bool_decide as Hbig.
  - apply (store_spills cwd size_label hex_digits cfg host fs (raw_message r)) in Hst as [Hrep ->];
      [|done]. unfold first_pass, too_large. rewrite bool_decide_true by done.
    by rewrite <- Hrep.
  - unfold maybe_store_tool_result_with_target in Hst.
    unfold first_pass, too_large. rewrite bool_decide_false by done.
    destruct (generate_preview (tr_output r) (preview_bytes cfg)) as [preview more] eqn:Hg.
    rewrite bool_decide_true in Hst by lia. by simplify_eq.
Qed.

Lemma first_pass_file r : result_file host (first_pass r) = tool_file r.
Proof.
  unfold first_pass, spilled. destruct (too_large r); [|done]. by destruct (generate_preview _ _).
Qed.

(** A message that was spilled in either pass reads like the pointer. *)
Lemma spilled_first_pass r :
  too_large r = false -> msg_content (spilled size_label cfg host (first_pass r)) = pointer r.
Proof.
  intros Hr. unfold pointer, first_pass. rewrite Hr. unfold spilled. simpl.
  by destruct (generate_preview _ _).
Qed.

Lemma spilled_tagged m :
  str_contains PERSISTED_OUTPUT_TAG (msg_content (spilled size_label cfg host m)) = true.
Proof. unfold spilled. destruct (generate_preview _ _) as [preview more]. done. Qed.
Definition with_output (r : ToolResult) (out : string) : ToolResult :=
  {| tr_tool_call_id := tr_tool_call_id r; tr_tool_name := tr_tool_name r;
     tr_output := out; tr_success := tr_success r |}.

Lemma first_pass_ids r :
  msg_tool_call_id (first_pass r) = tr_tool_call_id r /\
  msg_tool_name (first_pass r) = tr_tool_name r.
Proof.
  unfold first_pass, spilled. destruct (too_large r); [|done]. by destruct (generate_preview _ _).
Qed.

Lemma spilled_ids m :
  msg_tool_call_id (spilled size_label cfg host m) = msg_tool_call_id m /\
  msg_tool_name (spilled size_label cfg host m) = msg_tool_name m.
Proof. unfold spilled. by destruct (generate_preview _ _). Qed.

Lemma first_writes_other rs p : forall fs,
  p ∉ map tool_file rs -> first_writes fs rs !! p = fs !! p.
Proof.
  induction rs as [|r rs IH]; intros fs Hp; [done|]. simpl in Hp.
  change (first_writes fs (r :: rs)) with
    (first_writes (if too_large r then <[tool_file r := tr_output r]> fs else fs) rs).
  rewrite IH by set_solver. destruct (too_large r); [|done]. apply lookup_insert_ne. set_solver.
Qed.

Lemma first_writes_lookup rs r : forall fs,
  NoDup (map tool_file rs) -> r ∈ rs -> too_large r = true ->
  first_writes fs rs !! tool_file r = Some (tr_output r).
Proof.
  induction rs as [|r' rs IH]; intros fs Hnd Hr Hl; [by apply not_elem_of_nil in Hr|].
  simpl in Hnd. apply NoDup_cons in Hnd as [Hn Hnd].
  change (first_writes fs (r' :: rs)) with
    (first_writes (if too_large r' then <[tool_file r' := tr_output r']> fs else fs) rs).
  apply elem_of_cons in Hr as [<-|Hr]; [|by apply IH].
  rewrite first_writes_other by done. rewrite Hl. apply lookup_insert_eq.
Qed.

Lemma first_pass_stored r : too_large r = true -> already_stored (first_pass r) = true.
Proof.
  intros Hr. unfold first_pass. rewrite Hr. unfold spilled. by destruct (generate_preview _ _).
Qed.

Lemma first_pass_content r :
  msg_content (first_pass r) = if too_large r then pointer r else tr_output r.
Proof. unfold first_pass, pointer. by destruct (too_large r). Qed.

(** What a message and its file hold after both passes, where [spill] says which
    messages the second pass replaced. *)
Lemma pass_outcome rs spill (fs fs2 : Fs) i r :
  NoDup (map tool_file rs) ->
  (forall i, spill i = true -> exists m, map first_pass rs !! i = Some m /\
     already_stored m = false) ->
  (forall p, (forall i m, map first_pass rs !! i = Some m -> spill i = true ->
                result_file host m <> p) -> fs2 !! p = first_writes fs rs !! p) ->
  (forall i m, map first_pass rs !! i = Some m -> spill i = true ->
     fs2 !! result_file host m = Some (msg_content m)) ->
  rs !! i = Some r ->
  let out := msg_content ((if spill i then spilled size_label cfg host else id) (first_pass r)) in
  out = tr_output r \/ (out = pointer r /\ fs2 !! tool_file r = Some (tr_output r)).
Proof.
  intros Hnd Hcand Hother Hfile Hr. cbv zeta.
  assert (Hfp : map first_pass rs !! i = Some (first_pass r)).
  { change (map first_pass rs) with (first_pass <$> rs). by rewrite list_lookup_fmap, Hr. }
  destruct (too_large r) eqn:Hbig.
  - right. destruct (spill i) eqn:Hsp.
    { destruct (Hcand i Hsp) as (m & Hm & Hst). simplify_eq.
      by rewrite first_pass_stored in Hst. }
    simpl. rewrite first_pass_content, Hbig. split; [done|].
    rewrite Hother; [|intros j m Hj Hsj E].
    { apply first_writes_lookup; [done| |done]. by eapply list_elem_of_lookup_2. }
    change (map first_pass rs) with (first_pass <$> rs) in Hj.
    apply list_lookup_fmap_Some in Hj as (r' & -> & Hr'). rewrite first_pass_file in E.
    assert (j = i) as ->; [|by rewrite Hsp in Hsj].
    apply (NoDup_lookup (tool_file <$> rs) j i (tool_file r) Hnd);
      rewrite list_lookup_fmap, ?Hr', ?Hr; simpl; by rewrite ?E.
  - destruct (spill i) eqn:Hsp; [right|left; simpl; by rewrite first_pass_content, Hbig].
    split; [by apply spilled_first_pass|].
    rewrite <- first_pass_file, (Hfile i _ Hfp Hsp), first_pass_content. by rewrite Hbig.
Qed.

(** What both passes together make of a turn's results. *)
Lemma two_passes fs rs ms fs1 fs2 ms2 :
  NoDup (map tool_file rs) ->
  store_results cwd size_label create_fault write_fault fs cfg rs = (fs1, Ok ms) ->
  enforce_turn_budget cwd size_label create_fault write_fault fs1 ms cfg = (fs2, ms2, Ok tt) ->
  zip_with budgeted_result ms2 (map tr_success rs)
    = zip_with with_output rs (map msg_content ms2) /\
  Forall2 (fun r out => out = tr_output r \/
             (out = pointer r /\ fs2 !! tool_file r = Some (tr_output r)))
    rs (map msg_content ms2) /\
  (total_bytes ms2 <= turn_budget_bytes cfg \/
   Forall (fun out => out = "" \/ str_contains PERSISTED_OUTPUT_TAG out = true)
     (map msg_content ms2)) /\
  (forall p, p ∉ map tool_file rs -> fs2 !! p = fs !! p).
Proof.
  intros Hnd Hs1 Hs2. apply store_results_ok in Hs1 as [-> ->].
  unfold enforce_turn_budget in Hs2. fold host in Hs2.
  apply (turn_budget_spec cwd size_label hex_digits cfg host) in Hs2
    as (spill & Hms & Hcand & Htotal & _ & Hother & Hfile).
  assert (Hfiles : result_file host <$> map first_pass rs = map tool_file rs).
  { rewrite <- list_fmap_compose. apply list_fmap_ext. intros i r _. apply first_pass_file. }
  rewrite Hfiles in Hfile. specialize (Hfile Hnd).
  assert (Hms2 : ms2 = imap (fun i r => (if spill i then spilled size_label cfg host else id)
                                          (first_pass r)) rs).
  { apply list_eq. intros i. rewrite Hms, list_lookup_imap.
    change (map first_pass rs) with (first_pass <$> rs). rewrite list_lookup_fmap.
    by destruct (rs !! i). }
  clear Hms. subst ms2. split; [|split; [|split]].
  - apply list_eq. intros i. change (map ?f ?l) with (f <$> l).
    rewrite !lookup_zip_with, !list_lookup_fmap, list_lookup_imap.
    destruct (rs !! i) as [r|]; [|done]. simpl. f_equal. unfold budgeted_result, with_output.
    destruct (first_pass_ids r) as [H1 H2].
    destruct (spill i); simpl; [destruct (spilled_ids (first_pass r)) as [-> ->]|]; by rewrite H1, H2.
  - apply Forall2_same_length_lookup. rewrite length_map, length_imap. split; [done|].
    intros i r out Hr Hout. change (map ?f ?l) with (f <$> l) in Hout.
    rewrite list_lookup_fmap, list_lookup_imap, Hr in Hout. simplify_eq/=.
    eapply pass_outcome; try done. intros j Hj. destruct (Hcand j Hj) as (_ & m & ? & ? & _). eauto.
  - destruct Htotal as [|Hall]; [by left|right]. apply Forall_map.
    eapply Forall_lookup_2. intros i m Hm.
    eapply Forall_lookup_1 in Hall; [|exact Hm]. destruct Hall as [Hst|]; [right|by left].
    rewrite list_lookup_imap in Hm. apply fmap_Some in Hm as (r & _ & ->).
    destruct (spill i); [apply spilled_tagged|]. simpl in *. unfold first_pass in *.
    destruct (too_large r); [apply spilled_tagged|done].
  - intros p Hp. rewrite Hother; [by apply first_writes_other|].
    intros i m Hm _ <-. apply Hp. rewrite <- Hfiles. apply list_elem_of_fmap_2.
    by eapply list_elem_of_lookup_2.
Qed.
(**  Tool results under a budget.  When the calls of a turn have files of their
    own and the results are taken in, the session thinks again and its conversation
    has one tool message per result, in order and under the call's identifier: the
    output itself, or the pointer to the file that holds it in full.  Together they
    are within the turn budget, or every one that is not empty is a pointer; no other
    file changes.  A failure leaves the session as it was, or idle because of the
    limit on tool rounds. *)
Theorem budgeted_results_spec now fs f rs fs' f' res :
  NoDup (map tool_file rs) ->
  on_tool_results_with_budget cwd size_label create_fault write_fault now fs f rs cfg
    = (fs', f', res) ->
  match res with
  | Ok s =>
      state f = ToolUse /\ s = Thinking /\ state f' = Thinking /\
      exists outputs,
        messages f' = messages f ++ map tool_message (zip_with with_output rs outputs) /\
        Forall2 (fun r out => out = tr_output r \/
                   (out = pointer r /\ fs' !! tool_file r = Some (tr_output r))) rs outputs /\
        (foldr (fun out acc => str_len out + acc) 0 outputs <= turn_budget_bytes cfg \/
         Forall (fun out => out = "" \/ str_contains PERSISTED_OUTPUT_TAG out = true) outputs) /\
        (forall p, p ∉ map tool_file rs -> fs' !! p = fs !! p)
  | Err e =>
      f' = f \/ (state f = ToolUse /\ state f' = Idle /\ messages f' = messages f /\
                 max_tool_rounds (config f) < tool_round_count f')
  end.
Proof.
  intros Hnd. unfold on_tool_results_with_budget, require_state.
  case_bool_decide as Hs; simpl; [|by intros [= <- <- <-]; left].
  destruct (store_results _ _ _ _ _ _ _) as [fs1 [ms|e]] eqn:Hs1; [|by intros [= <- <- <-]; left].
  destruct (enforce_turn_budget _ _ _ _ _ _ _) as [[fs2 ms2] [[]|e]] eqn:Hs2;
    [|by intros [= <- <- <-]; left].
  destruct (two_passes fs rs ms fs1 fs2 ms2 Hnd Hs1 Hs2) as (Hzip & Hout & Htotal & Hother).
  rewrite Hzip. unfold on_tool_results, require_state. rewrite bool_decide_true by done. simpl.
  case_bool_decide as Hmax; intros [= <- <- <-]; simpl.
  { right. done. }
  split; [done|]. split; [done|]. split; [done|]. exists (map msg_content ms2).
  split; [done|]. split; [done|]. split; [|done].
  destruct Htotal as [Ht|]; [left|by right].
  unfold total_bytes in Ht. change (map ?f ?l) with (f <$> l). by rewrite foldr_fmap.
Qed.
End Budget.
End Sessions.

(** ** A session *)

Definition sample_message : ChatMessage :=
  {| cm_role := "user"; cm_content := "list the files"; cm_tool_calls := [];
     cm_tool_call_id := None; cm_reasoning_content := None; cm_reasoning_signature := None |}.

Definition sample_outcome (reason : FinishReason) (tokens : Z) : LlmOutcome :=
  {| lo_finish_reason := reason; lo_tool_calls := []; lo_text := "text"; lo_tokens_used := tokens |}.

Definition sample_result (id output : string) : ToolResult :=
  {| tr_tool_call_id := id; tr_tool_name := "shell"; tr_output := output; tr_success := true |}.

Definition sample_results : list ToolResult :=
  [sample_result "call-1" "first output"; sample_result "call-2" "ok"].

Definition sample_events : list (Z * FsmEvent) :=
  [(1, UserMessage sample_message); (2, LlmResponse (sample_outcome FinishToolUse 50));
   (3, ToolResultsWithBudget sample_results sample_config);
   (4, LlmResponse (sample_outcome Stop 60)); (5, ResponseDelivered)].

Definition sample_run (evs : list (Z * FsmEvent)) : Fs * AgentFsm :=
  run (Some "/") (fun _ => "0.0 KB") (fun _ _ => None) (fun _ _ _ => None)
    (∅, new fsm_config_default) evs.


Lemma work_on_a_message_bounded_witness :
  Z.of_nat (length (transitions (sample_run sample_events).2)) <= 2 * 10 + 3.
Proof.
  refine (work_on_a_message_bounded (Some "/") (fun _ => "0.0 KB") (fun _ _ => None)
    (fun _ _ _ => None) fsm_config_default ∅ sample_events []
    (transitions (sample_run sample_events).2) [] _ _ _).
  - split; [discriminate|reflexivity].
  - vm_compute. reflexivity.
  - vm_compute. repeat constructor; discriminate.
Defined.

Definition limit_events : list (Z * FsmEvent) :=
  [(1, UserMessage sample_message); (2, LlmResponse (sample_outcome Stop 200000))].

Lemma token_limit_final_witness :
  max_session_tokens fsm_config_default < session_tokens (sample_run limit_events).2 /\
  exists ms,
    messages (run (Some "/") (fun _ => "0.0 KB") (fun _ _ => None) (fun _ _ _ => None)
                (sample_run limit_events) ((3, Reset) :: sample_events)).2
    = messages (sample_run limit_events).2 ++ ms /\
    ms `sublist_of` user_messages ((3, Reset) :: sample_events).
Proof.
  split; [vm_compute; reflexivity|].
  refine (proj2 (token_limit_final (Some "/") (fun _ => "0.0 KB") (fun _ _ => None)
    (fun _ _ _ => None) fsm_config_default ∅ limit_events ((3, Reset) :: sample_events)
    _ _ _ _ _)).
  - split; [discriminate|reflexivity].
  - discriminate.
  - vm_compute. reflexivity.
  - repeat constructor; discriminate.
  - vm_compute. discriminate.
Defined.

Lemma budgeted_results_spec_witness :
  NoDup (map (tool_file sample_config) sample_results) /\
  exists outputs,
    messages (sample_run (take 3 sample_events)).2
      = messages (sample_run (take 2 sample_events)).2
        ++ map tool_message (zip_with with_output sample_results outputs).
Proof.
  assert (Hnd : NoDup (map (tool_file sample_config) sample_results)).
  { apply (bool_decide_unpack _). vm_compute. exact I. }
  split; [exact Hnd|].
  destruct (@budgeted_results_spec toy_env (Some "/") (fun _ => "0.0 KB") (fun _ _ => None)
    (fun _ _ _ => None) toy_hex_digits sample_config 3 ∅ (sample_run (take 2 sample_events)).2
    sample_results (sample_run (take 3 sample_events)).1 (sample_run (take 3 sample_events)).2
    (Ok Thinking) Hnd) as (_ & _ & _ & outputs & Hm & _).
  - vm_compute. reflexivity.
  - exact (ex_intro _ outputs Hm).
Defined.
