(* ===== verification/Gateway.v ===== *)
(** * The gateway's guards ([crates/zaion-gateway/src])

    Authentication ([auth.rs]), rate limiting ([rate_limit.rs]), write audit
    ([audit.rs]), CSRF ([csrf.rs]), outbound address checks ([ssrf.rs]) and their
    composition by [server.rs].  A middleware is a function of the service inside it;
    the limiter and the audit log are the state they share.  The endpoints themselves
    and the router's matching of paths are parameters, as are DNS and the parser of
    address literals.  A poisoned lock is not modelled. *)

From stdpp Require Import prelude strings list gmap.
From S2P Require Import Prelude.
From S2P Require Import Sync.
Local Open Scope res_scope.
Local Open Scope Z_scope.

(** ** Credentials ([auth.rs]) *)

Record BearerAuth : Type := { token : string }.

#[export] Instance BearerAuth_eq_dec : EqDecision BearerAuth.
Proof. solve_decision. Defined.

(** The loop of [constant_time_eq]: the differences of all bytes, or'ed. *)
Fixpoint bytes_diff (a b : list Ascii.ascii) (diff : N) : N :=
  match a, b with
  | x :: a', y :: b' =>
      bytes_diff a' b' (N.lor diff (N.lxor (Ascii.N_of_ascii x) (Ascii.N_of_ascii y)))
  | _, _ => diff
  end.

Definition constant_time_eq (a b : string) : bool :=
  let a_bytes := String.list_ascii_of_string a in
  let b_bytes := String.list_ascii_of_string b in
  if negb (bool_decide (length a_bytes = length b_bytes)) then false
  else bool_decide (bytes_diff a_bytes b_bytes 0 = 0%N).

(** [BearerAuth::extract] *)
Definition extract (authorization : option string) : option BearerAuth :=
  match authorization ≫= strip_prefix "Bearer " with
  | Some rest =>
      let t := str_trim rest in
      if bool_decide (t = "") then None else Some {| token := t |}
  | None => None
  end.

Inductive AuthDecision : Type := Allowed | MissingToken | InvalidToken.

#[export] Instance AuthDecision_eq_dec : EqDecision AuthDecision.
Proof. solve_decision. Defined.

Inductive AuthRole : Type := Admin | Operator.

Record AuthPolicy : Type := {
  bearer_token : option string;
  allow_loopback_anonymous : bool;
  roles : gmap string AuthRole
}.

Definition policy_new (t : option string) (anonymous : bool) : AuthPolicy :=
  {| bearer_token := t; allow_loopback_anonymous := anonymous; roles := ∅ |}.

Definition with_role (p : AuthPolicy) (t : string) (role : AuthRole) : AuthPolicy :=
  {| bearer_token := bearer_token p; allow_loopback_anonymous := allow_loopback_anonymous p;
     roles := <[t := role]> (roles p) |}.

Definition role_of (p : AuthPolicy) (auth : BearerAuth) : option AuthRole :=
  roles p !! token auth.

Definition deny_by_default : AuthPolicy := policy_new None false.

Definition authorize (p : AuthPolicy) (auth : option BearerAuth) : AuthDecision :=
  match bearer_token p, auth with
  | None, _ => if allow_loopback_anonymous p then Allowed else MissingToken
  | Some expected, Some given =>
      if constant_time_eq expected (token given) then Allowed else InvalidToken
  | Some _, None => MissingToken
  end.

Definition role_of_header (p : AuthPolicy) (authorization : option string) : option AuthRole :=
  match extract authorization with
  | Some auth => if bool_decide (authorize p (Some auth) = Allowed) then role_of p auth else None
  | None => None
  end.

Definition is_allowed (p : AuthPolicy) (authorization : option string) : bool :=
  bool_decide (authorize p (extract authorization) = Allowed).

(** [websocket.rs]'s [authenticate]; an empty token needs no credential. *)
Definition authenticate (authorization : option string) (expected : string) : bool :=
  if bool_decide (expected = "") then true
  else match extract authorization with
       | Some auth => constant_time_eq (token auth) expected
       | None => false
       end.

(** ** The rate limiter ([rate_limit.rs]); times in nanoseconds *)

Record WindowState : Type := { window_start : Z; count : Z }.

Record RateLimiter : Type := { max_requests : Z; window : Z }.

(** [RateLimiter::new] at time [now] *)
Definition limiter_new (max w now : Z) : RateLimiter * WindowState :=
  ({| max_requests := Z.max max 1; window := w |}, {| window_start := now; count := 0 |}).

(** [RateLimiter::check]; [now] is read by [elapsed], [now'] for the new window. *)
Definition check (l : RateLimiter) (s : WindowState) (now now' : Z) : bool * WindowState :=
  let s := if bool_decide (window l <= now - window_start s)
           then {| window_start := now'; count := 0 |} else s in
  if bool_decide (count s < max_requests l)
  then (true, {| window_start := window_start s; count := count s + 1 |})
  else (false, s).

(** ** The audit log ([audit.rs]) *)

Record AuditEntry : Type := {
  ae_method : string;
  ae_path : string;
  ae_status : Z;
  ae_at : string
}.

(** [WriteAudit::new]'s capacity, and [record]. *)
Definition audit_capacity (capacity : nat) : nat := Nat.max capacity 1.

Definition record (capacity : nat) (entries : list AuditEntry) (e : AuditEntry)
  : list AuditEntry :=
  (if bool_decide (capacity <= length entries)%nat then tail entries else entries) ++ [e].

(** ** Requests and middlewares *)

Inductive Method : Type := GET | POST | PUT | PATCH | DELETE | OtherMethod (name : string).

Definition method_str (m : Method) : string :=
  match m with
  | GET => "GET" | POST => "POST" | PUT => "PUT" | PATCH => "PATCH" | DELETE => "DELETE"
  | OtherMethod name => name
  end.

Definition is_mutating (m : Method) : bool :=
  match m with POST | PUT | PATCH | DELETE => true | _ => false end.

(** A header is absent, present with text, or present with other bytes. *)
Record HttpRequest : Type := {
  rq_method : Method;
  rq_path : string;
  rq_authorization : option (option string);
  rq_csrf_token : option (option string)
}.

(** A status and the message of the body. *)
Record HttpResponse : Type := { res_status : Z; res_body : string }.

(** The state the layers share, and the clock readings of one request: the two of
    [check] and the text of the audit's timestamp. *)
Record GatewayMem : Type := {
  gm_limit : WindowState;
  gm_audit : list AuditEntry
}.

Record Clock : Type := { ck_now : Z; ck_now' : Z; ck_at : string }.

Definition Service : Type := Clock -> GatewayMem -> HttpRequest -> HttpResponse * GatewayMem.

(** The text of a header: [headers().get(..).and_then(|v| v.to_str().ok())]. *)
Definition header_text (h : option (option string)) : option string := mjoin h.

Definition unauthorized : HttpResponse :=
  {| res_status := 401; res_body := "missing or invalid gateway bearer token" |}.

(** [AuthMiddleware::call] *)
Definition auth_layer (p : AuthPolicy) (inner : Service) : Service :=
  fun ck m req =>
    let auth := extract (header_text (rq_authorization req)) in
    if bool_decide (authorize p auth = Allowed) then inner ck m req
    else (unauthorized, m).

Definition too_many : HttpResponse := {| res_status := 429; res_body := "rate limit exceeded" |}.

(** [RateLimitMiddleware::call] *)
Definition rate_limit_layer (l : RateLimiter) (inner : Service) : Service :=
  fun ck m req =>
    let '(ok, s) := check l (gm_limit m) (ck_now ck) (ck_now' ck) in
    let m := {| gm_limit := s; gm_audit := gm_audit m |} in
    if ok then inner ck m req else (too_many, m).

(** [AuditMiddleware::call] *)
Definition audit_layer (capacity : nat) (inner : Service) : Service :=
  fun ck m req =>
    let '(res, m) := inner ck m req in
    if is_mutating (rq_method req) then
      (res, {| gm_limit := gm_limit m;
               gm_audit := record capacity (gm_audit m)
                             {| ae_method := method_str (rq_method req); ae_path := rq_path req;
                                ae_status := res_status res; ae_at := ck_at ck |} |})
    else (res, m).

Definition forbidden : HttpResponse :=
  {| res_status := 403;
     res_body := "CSRF protection: mutating request requires Authorization or X-CSRF-Token header" |}.

(** [CsrfMiddleware::call] *)
Definition csrf_layer (inner : Service) : Service :=
  fun ck m req =>
    if is_mutating (rq_method req)
       && negb (opt_is_some (rq_authorization req)) && negb (opt_is_some (rq_csrf_token req))
    then (forbidden, m) else inner ck m req.

(** ** The server ([server.rs]) *)

Record GatewayServer : Type := {
  gs_bearer_token : option string;
  gs_allow_loopback_anonymous : bool;
  gs_rate_limit : option RateLimiter;
  gs_audit : option nat
}.

Definition server_new (t : option string) (anonymous : bool) : GatewayServer :=
  {| gs_bearer_token := t; gs_allow_loopback_anonymous := anonymous; gs_rate_limit := None;
     gs_audit := None |}.

Definition auth_policy (s : GatewayServer) : AuthPolicy :=
  policy_new (gs_bearer_token s) (gs_allow_loopback_anonymous s).

(** [serve]: the server of an address and a token. *)
Definition serve (t : option string) : GatewayServer := server_new t true.

Inductive Route : Type := Health | Console | Events | Ws.

Section Server.
(** The router's matching, the endpoints, what it answers where nothing matches, and
    the upgrade of an authenticated socket. *)
Context (route_of : string -> option Route).
Context (endpoint : Route -> HttpRequest -> HttpResponse).
Context (no_route : HttpRequest -> HttpResponse).
Context (on_upgrade : HttpRequest -> HttpResponse).

(** [ws_handler] *)
Definition ws_handler (expected : string) (req : HttpRequest) : HttpResponse :=
  if authenticate (header_text (rq_authorization req)) expected then on_upgrade req
  else {| res_status := 401; res_body := "" |}.

Definition protected_service (s : GatewayServer) (r : Route) : Service :=
  fun _ m req =>
    (match r with
     | Ws => ws_handler (default "" (gs_bearer_token s)) req
     | _ => endpoint r req
     end, m).

(** [build_router].  The CORS layer, which answers preflight requests and adds response
    headers, is left out. *)
Definition build_router (s : GatewayServer) : Service :=
  let routed : Service := fun ck m req =>
    match route_of (rq_path req) with
    | Some Health => (endpoint Health req, m)
    | Some r => auth_layer (auth_policy s) (protected_service s r) ck m req
    | None => (no_route req, m)
    end in
  let routed := match gs_rate_limit s with Some l => rate_limit_layer l routed | None => routed end in
  match gs_audit s with Some capacity => audit_layer capacity routed | None => routed end.

End Server.

(** ** Outbound addresses ([ssrf.rs]) *)

Inductive SsfrError : Type :=
| InvalidUrl | ResolutionFailed | LoopbackAddress | PrivateAddress | LinkLocalAddress
| UnspecifiedAddress.

(** A 32-bit and a 128-bit integer. *)
Inductive IpAddr : Type := V4 (a : Z) | V6 (a : Z).

(** The methods of [Ipv4Addr]: tests of its octets. *)
Definition octet (a : Z) (i : Z) : Z := Z.land (Z.shiftr a (8 * (3 - i))) 255.

Definition v4_is_loopback (a : Z) : bool := octet a 0 =? 127.
Definition v4_is_private (a : Z) : bool :=
  (octet a 0 =? 10)
  || ((octet a 0 =? 172) && ((16 <=? octet a 1) && (octet a 1 <=? 31)))
  || ((octet a 0 =? 192) && (octet a 1 =? 168)).
Definition v4_is_link_local (a : Z) : bool := (octet a 0 =? 169) && (octet a 1 =? 254).
Definition v4_is_unspecified (a : Z) : bool := a =? 0.

(** [Ipv6Addr::segments()[i]] and [to_ipv4_mapped] *)
Definition segment (a : Z) (i : Z) : Z := Z.land (Z.shiftr a (16 * (7 - i))) 65535.

Definition to_ipv4_mapped (a : Z) : option Z :=
  if bool_decide (Z.shiftr a 32 = 65535) then Some (Z.land a (2 ^ 32 - 1)) else None.

Definition check_v4 (a : Z) : result SsfrError unit :=
  guard? negb (v4_is_loopback a) else LoopbackAddress in
  guard? negb (v4_is_private a) else PrivateAddress in
  guard? negb (v4_is_link_local a) else LinkLocalAddress in
  guard? negb (v4_is_unspecified a) else UnspecifiedAddress in
  Ok tt.

Definition check_address (addr : IpAddr) : result SsfrError unit :=
  match addr with
  | V4 a => check_v4 a
  | V6 a =>
      match to_ipv4_mapped a with
      | Some v4 => check_v4 v4
      | None =>
          guard? negb (a =? 1) else LoopbackAddress in
          guard? negb (a =? 0) else UnspecifiedAddress in
          guard? negb (Z.land (segment a 0) 65024 =? 64512) else PrivateAddress in
          guard? negb (Z.land (segment a 0) 65472 =? 65152) else LinkLocalAddress in
          Ok tt
      end
  end.

(** [str::find] of a string: what follows its first occurrence. *)
Fixpoint after (needle s : string) : option string :=
  match strip_prefix needle s with
  | Some rest => Some rest
  | None => match s with EmptyString => None | String _ s' => after needle s' end
  end.

(** [&rest[..rest.find(['/', '?', '#']).unwrap_or(rest.len())]] *)
Fixpoint until_any (stops s : string) : string :=
  match s with
  | EmptyString => EmptyString
  | String c s' => if byte_in stops c then EmptyString else String c (until_any stops s')
  end.

(** [strip_suffix(']')] *)
Fixpoint strip_last (c : Ascii.ascii) (s : string) : option string :=
  match s with
  | EmptyString => None
  | String d EmptyString => if Ascii.eqb c d then Some EmptyString else None
  | String d s' => String d <$> strip_last c s'
  end.

(** [rsplit_once(c).map_or(s, |(h, _)| h)]: before the last [c], if there is one. *)
Fixpoint before_last (c : Ascii.ascii) (s : string) : option string :=
  match s with
  | EmptyString => None
  | String d s' =>
      match before_last c s' with
      | Some h => Some (String d h)
      | None => if Ascii.eqb c d then Some EmptyString else None
      end
  end.

Definition parse_host (url : string) : result SsfrError string :=
  let rest := default url (after "://" url) in
  let hostport := until_any "/?#" rest in
  let host := match strip_prefix "[" hostport ≫= strip_last (Ascii.ascii_of_N 93) with
              | Some stripped => stripped
              | None => default hostport (before_last (Ascii.ascii_of_N 58) hostport)
              end in
  guard? negb (bool_decide (host = "")) else InvalidUrl in
  Ok host.

Section Guard.
(** [host.parse::<IpAddr>()] and the guard's resolver. *)
Context (parse_ip : string -> option IpAddr) (resolver : string -> list IpAddr).

Definition validate (url : string) : result SsfrError unit :=
  let? host := parse_host url in
  match parse_ip host with
  | Some ip => check_address ip
  | None =>
      let addrs := resolver host in
      guard? negb (bool_decide (length addrs = 0%nat)) else ResolutionFailed in
      let? _ := collect_map check_address addrs in
      Ok tt
  end.

End Guard.

(** * What the gateway's guards guarantee *)

(** ** Tokens *)

Lemma bytes_diff_zero a : forall b diff, length a = length b ->
  (bytes_diff a b diff = 0%N <-> diff = 0%N /\ a = b).
Proof.
  induction a as [|x a IH]; intros [|y b] diff Hl; simplify_eq/=; [naive_solver|].
  rewrite IH by done. rewrite N.lor_eq_0_iff, N.lxor_eq_0_iff. split.
  - intros [[-> Hxy] ->]. split; [done|]. f_equal.
    by rewrite <- (Ascii.ascii_N_embedding x), Hxy, Ascii.ascii_N_embedding.
  - intros [-> [= -> ->]]. done.
Qed.

(** The constant-time comparison is equality. *)
Lemma constant_time_eq_spec a b : constant_time_eq a b = true <-> a = b.
Proof.
  unfold constant_time_eq. case_bool_decide as Hl; simpl.
  - rewrite bool_decide_eq_true, bytes_diff_zero by done. split; [|by intros ->].
    intros [_ He]. by rewrite <- (String.string_of_list_ascii_of_string a), He,
      String.string_of_list_ascii_of_string.
  - split; [done|]. by intros ->.
Qed.

Lemma extract_nonempty h auth : extract h = Some auth -> token auth <> "".
Proof.
  unfold extract. destruct (h ≫= _); [|done]. case_bool_decide; [done|]. by intros [= <-].
Qed.

Lemma authorize_token p t auth : bearer_token p = Some t ->
  authorize p auth = Allowed <-> auth = Some {| token := t |}.
Proof.
  intros Ht. unfold authorize. rewrite Ht. destruct auth as [[given]|]; [|done]. simpl.
  destruct (constant_time_eq t given) eqn:E.
  - apply constant_time_eq_spec in E as ->. done.
  - split; [done|]. intros [= ->]. assert (constant_time_eq t t = true) by by apply constant_time_eq_spec.
    congruence.
Qed.

(** ** The router *)

Section Router.
Context (route_of : string -> option Route).
Context (endpoint : Route -> HttpRequest -> HttpResponse).
Context (no_route : HttpRequest -> HttpResponse).
Context (on_upgrade : HttpRequest -> HttpResponse).
Abbreviation router := (build_router route_of endpoint no_route on_upgrade).

(** What a request is answered once the limiter let it pass. *)
Definition answered (tok : string) (req : HttpRequest) : HttpResponse :=
  match route_of (rq_path req) with
  | None => no_route req
  | Some Health => endpoint Health req
  | Some r =>
      if bool_decide (extract (header_text (rq_authorization req)) = Some {| token := tok |})
      then match r with Ws => on_upgrade req | _ => endpoint r req end
      else unauthorized
  end.

Definition passes (s : GatewayServer) (ck : Clock) (m : GatewayMem) : bool :=
  match gs_rate_limit s with
  | Some l => fst (check l (gm_limit m) (ck_now ck) (ck_now' ck))
  | None => true
  end.

Lemma protected_answer s tok r ck m req : gs_bearer_token s = Some tok ->
  auth_layer (auth_policy s) (protected_service endpoint on_upgrade s r) ck m req
  = ((if bool_decide (extract (header_text (rq_authorization req)) = Some {| token := tok |})
      then match r with Ws => on_upgrade req | _ => endpoint r req end else unauthorized), m).
Proof.
  intros Htok. unfold auth_layer.
  rewrite (bool_decide_ext (authorize _ _ = Allowed)
    (extract (header_text (rq_authorization req)) = Some {| token := tok |}))
    by (by apply authorize_token).
  case_bool_decide as He; [|done]. unfold protected_service. destruct r; try done.
  unfold ws_handler. rewrite Htok. simpl. unfold authenticate. rewrite He.
  apply extract_nonempty in He. simpl in He |- *. rewrite bool_decide_false by done.
  by rewrite (proj2 (constant_time_eq_spec tok tok)).
Qed.

Lemma routed_answer s tok ck m req : gs_bearer_token s = Some tok ->
  match route_of (rq_path req) with
  | Some Health => (endpoint Health req, m)
  | Some r => auth_layer (auth_policy s) (protected_service endpoint on_upgrade s r) ck m req
  | None => (no_route req, m)
  end = (answered tok req, m).
Proof.
  intros Htok. unfold answered. destruct (route_of (rq_path req)) as [[]|]; try done;
    by apply protected_answer.
Qed.

End Router.

(** ** The rate limit *)

(** Successive calls of [check], with the two clock readings of each. *)
Fixpoint checks (l : RateLimiter) (s : WindowState) (calls : list (Z * Z)) : list (Z * bool) :=
  match calls with
  | [] => []
  | (now, now') :: calls' =>
      let '(ok, s') := check l s now now' in (now, ok) :: checks l s' calls'
  end.

(** The readings are taken under the lock from a monotonic clock. *)
Fixpoint readings_from (t : Z) (calls : list (Z * Z)) : Prop :=
  match calls with
  | [] => True
  | (now, now') :: calls' => t <= now <= now' /\ readings_from now' calls'
  end.

(** The requests let through from [x] on for less than [w]. *)
Definition let_through (x w : Z) (log : list (Z * bool)) : Z :=
  foldr (fun c acc => (if bool_decide (x <= c.1 < x + w) && c.2 then 1 else 0) + acc) 0 log.

Section Limit.
Context (l : RateLimiter).
Abbreviation W := (window l).
Abbreviation M := (max_requests l).

Ltac by_test P H :=
  destruct (bool_decide P) eqn:H; [apply bool_decide_eq_true in H|apply bool_decide_eq_false in H].

Lemma let_through_late x calls : forall t s,
  x + W <= t -> readings_from t calls -> let_through x W (checks l s calls) = 0.
Proof.
  induction calls as [|[n n'] calls IH]; intros t s Ht Hr; [done|]. simpl.
  destruct Hr as [Hn Hr]. destruct (check l s n n') as [ok s'] eqn:Hc. simpl.
  rewrite (IH n' s'); [|lia|done]. rewrite bool_decide_false by lia. done.
Qed.

(** A window that began within the stretch admits what is left of it. *)
Lemma let_through_one x calls : forall t s,
  x <= window_start s -> 0 <= count s <= M -> readings_from t calls ->
  let_through x W (checks l s calls) <= M - count s.
Proof.
  induction calls as [|[n n'] calls IH]; intros t s Hw Hc Hr; simpl; [lia|].
  destruct Hr as [Hn Hr]. unfold check.
  by_test (W <= n - window_start s) Hreset.
  - simpl. destruct (bool_decide (0 < M)); simpl;
      rewrite (let_through_late x calls n') by (done || lia);
      rewrite bool_decide_false by lia; simpl; lia.
  - match goal with |- context [bool_decide (?c < M)] => by_test (c < M) Hlt end; simpl.
    + pose proof (IH n' {| window_start := window_start s; count := count s + 1 |}) as Hi.
      simpl in Hi. specialize (Hi Hw ltac:(lia) Hr). destruct (_ && _); lia.
    + pose proof (IH n' s Hw Hc Hr). rewrite andb_false_r. lia.
Qed.

(** From a call within the stretch on, two windows can be met. *)
Lemma let_through_two x calls : forall t s,
  x <= t -> 0 <= count s <= M -> 0 < W -> readings_from t calls ->
  let_through x W (checks l s calls) <= (M - count s) + M.
Proof.
  induction calls as [|[n n'] calls IH]; intros t s Ht Hc HW Hr; simpl; [lia|].
  destruct Hr as [Hn Hr]. unfold check. by_test (W <= n - window_start s) Hreset; simpl.
  - match goal with |- context [bool_decide (?c < M)] => by_test (c < M) Hlt end; simpl.
    + pose proof (let_through_one x calls n' {| window_start := n'; count := 1 |}) as Hi.
      simpl in Hi. specialize (Hi ltac:(lia) ltac:(lia) Hr). change (0 + 1) with 1. destruct (_ && _); lia.
    + pose proof (let_through_one x calls n' {| window_start := n'; count := 0 |}) as Hi.
      simpl in Hi. specialize (Hi ltac:(lia) ltac:(lia) Hr). rewrite andb_false_r. lia.
  - match goal with |- context [bool_decide (?c < M)] => by_test (c < M) Hlt end; simpl.
    + pose proof (IH n' {| window_start := window_start s; count := count s + 1 |}) as Hi.
      simpl in Hi. specialize (Hi ltac:(lia) ltac:(lia) HW Hr). destruct (_ && _); lia.
    + pose proof (IH n' s ltac:(lia) Hc HW Hr). rewrite andb_false_r. lia.
Qed.

Lemma let_through_any x calls : forall t s,
  0 <= count s <= M -> 0 < W -> readings_from t calls ->
  let_through x W (checks l s calls) <= 2 * M.
Proof.
  induction calls as [|[n n'] calls IH]; intros t s Hc HW Hr; [simpl; lia|].
  destruct (decide (x <= n)) as [Hx|Hx].
  { assert (Hr' : readings_from n ((n, n') :: calls)) by (destruct Hr; simpl; split; [lia|done]).
    pose proof (let_through_two x ((n, n') :: calls) n s Hx Hc HW Hr'). lia. }
  destruct Hr as [Hn Hr]. simpl. destruct (check l s n n') as [ok s'] eqn:Hch. simpl.
  rewrite bool_decide_false by lia. simpl. apply (IH n'); [|done..].
  unfold check in Hch. repeat case_bool_decide; simplify_eq/=; lia.
Qed.
End Limit.

(** C39.  The rate limit.  Over any stretch of time shorter than the window at most
    twice the limit of requests is let through, whatever the calls, and during the first
    window at most the limit. *)
Theorem rate_limit_bound max w start calls x :
  0 < w -> readings_from start calls ->
  let '(l, s) := limiter_new max w start in
  let_through x w (checks l s calls) <= 2 * Z.max max 1 /\
  (x <= start -> let_through x w (checks l s calls) <= Z.max max 1).
Proof.
  intros Hw Hr. simpl. split.
  - apply (let_through_any {| max_requests := Z.max max 1; window := w |} x calls start);
      simpl; [lia|done|done].
  - intros Hx. pose proof (let_through_one {| max_requests := Z.max max 1; window := w |} x calls start
      {| window_start := start; count := 0 |} Hx) as H1. simpl in H1.
    specialize (H1 ltac:(lia) Hr). lia.
Qed.


Definition burst : list (Z * Z) :=
  [(90, 90); (95, 95); (99, 99); (100, 100); (101, 101); (102, 102)].

Lemma rate_limit_bound_witness :
  let '(l, s) := limiter_new 2 100 0 in
  let_through 90 100 (checks l s burst) <= 2 * Z.max 2 1 /\
  (90 <= 0 -> let_through 90 100 (checks l s burst) <= Z.max 2 1).
Proof.
  apply rate_limit_bound; [lia|]. simpl. repeat split; lia.
Defined.

(** The bound is met: four requests within twelve units of a window of a hundred,
    with a limit of two. *)
Example two_windows_meet :
  let '(l, s) := limiter_new 2 100 0 in let_through 90 12 (checks l s burst) = 4.
Proof. reflexivity. Qed.

(** ** The audit log *)

(** The log holds the latest entries, in order. *)
Lemma record_latest capacity es entries :
  (1 <= capacity)%nat -> (length entries <= capacity)%nat ->
  foldl (record capacity) entries es
  = drop (length entries + length es - capacity) (entries ++ es).
Proof.
  intros Hc. revert entries. induction es as [|e es IH]; intros entries Hl; simpl.
  { replace (length entries + 0 - capacity)%nat with 0%nat by lia. by rewrite app_nil_r. }
  unfold record at 2. case_bool_decide as Hfull.
  - destruct entries as [|x entries]; simpl in *; [lia|].
    rewrite IH by (rewrite length_app; simpl; lia). rewrite length_app. simpl.
    rewrite <- app_assoc. simpl.
    by replace (S (length entries + S (length es)) - capacity)%nat
      with (S (length entries + 1 + length es - capacity)) by lia.
  - rewrite IH by (rewrite length_app; simpl; lia). rewrite length_app. simpl.
    rewrite <- app_assoc. simpl. f_equal. lia.
Qed.

(** ** Outbound addresses *)

Definition in_net (a base size : Z) : bool := (base <=? a) && (a <? base + size).

(** 0.0.0.0, 10/8, 127/8, 169.254/16, 172.16/12 and 192.168/16 *)
Definition blocked_v4 (a : Z) : bool :=
  (a =? 0) || in_net a (10 * 2 ^ 24) (2 ^ 24) || in_net a (127 * 2 ^ 24) (2 ^ 24)
  || in_net a ((169 * 256 + 254) * 2 ^ 16) (2 ^ 16)
  || in_net a ((172 * 256 + 16) * 2 ^ 16) (2 ^ 20)
  || in_net a ((192 * 256 + 168) * 2 ^ 16) (2 ^ 16).

(** ::, ::1, fc00::/7, fe80::/10, and ::ffff:0:0/96 over the above *)
Definition blocked (ip : IpAddr) : bool :=
  match ip with
  | V4 a => blocked_v4 a
  | V6 a =>
      if in_net a (65535 * 2 ^ 32) (2 ^ 32) then blocked_v4 (a - 65535 * 2 ^ 32)
      else (a =? 0) || (a =? 1) || in_net a (64512 * 2 ^ 112) (2 ^ 121)
           || in_net a (65152 * 2 ^ 112) (2 ^ 118)
  end.

Definition ip_wf (ip : IpAddr) : Prop :=
  match ip with V4 a => 0 <= a < 2 ^ 32 | V6 a => 0 <= a < 2 ^ 128 end.

Lemma octet_div a i : octet a i = (a / 2 ^ (8 * (3 - i))) mod 256 \/ i < 0 \/ 3 < i.
Proof.
  destruct (decide (0 <= i <= 3)); [left|lia]. unfold octet.
  rewrite Z.shiftr_div_pow2 by lia. by rewrite (Z.land_ones _ 8) by lia.
Qed.

Lemma v4_tests a : 0 <= a < 2 ^ 32 ->
  blocked_v4 a
  = v4_is_loopback a || v4_is_private a || v4_is_link_local a || v4_is_unspecified a.
Proof.
  intros Ha. assert (H0 : octet a 0 = a / 2 ^ 24).
  { destruct (octet_div a 0) as [->|]; [|lia]. apply Z.mod_small. zdiv_lia. }
  assert (H1 : octet a 1 = (a / 2 ^ 16) mod 256) by (destruct (octet_div a 1) as [->|]; [done|lia]).
  unfold v4_is_loopback, v4_is_private, v4_is_link_local, v4_is_unspecified, blocked_v4, in_net.
  rewrite H0, H1. apply eq_true_iff_eq.
  rewrite !orb_true_iff, !andb_true_iff, !Z.eqb_eq, !Z.leb_le, !Z.ltb_lt. zdiv_lia.
Qed.

Lemma check_v4_spec a : 0 <= a < 2 ^ 32 -> check_v4 a = Ok tt <-> blocked_v4 a = false.
Proof.
  intros Ha. rewrite v4_tests by done. unfold check_v4.
  destruct (v4_is_loopback a), (v4_is_private a), (v4_is_link_local a), (v4_is_unspecified a);
    simpl; naive_solver.
Qed.

(** The two masks of the first segment, on all its values. *)
Definition masks_agree (s : Z) : bool :=
  Bool.eqb (Z.land s 65024 =? 64512) (in_net s 64512 512)
  && Bool.eqb (Z.land s 65472 =? 65152) (in_net s 65152 64).

Fixpoint masks_agree_from (n : nat) (s : Z) : bool :=
  match n with O => true | S n' => masks_agree s && masks_agree_from n' (s + 1) end.

Lemma masks_agree_from_spec n : forall s s', masks_agree_from n s = true ->
  s <= s' < s + Z.of_nat n -> masks_agree s' = true.
Proof.
  induction n as [|n IH]; intros s s' Hm Hs; [lia|]. simpl in Hm. apply andb_prop in Hm as [H1 H2].
  destruct (decide (s' = s)) as [->|]; [done|]. apply (IH (s + 1)); [done|lia].
Qed.

Lemma masks_agree_all : masks_agree_from (Z.to_nat 65536) 0 = true.
Proof. vm_compute. reflexivity. Qed.

Lemma segment_masks s : 0 <= s < 65536 ->
  (Z.land s 65024 =? 64512) = in_net s 64512 512 /\
  (Z.land s 65472 =? 65152) = in_net s 65152 64.
Proof.
  intros Hs. assert (Hm : masks_agree s = true).
  { eapply masks_agree_from_spec; [apply masks_agree_all|]. rewrite Z2Nat.id; lia. }
  unfold masks_agree in Hm. by rewrite andb_true_iff, !Bool.eqb_true_iff in Hm.
Qed.

Lemma check_address_spec ip : ip_wf ip -> check_address ip = Ok tt <-> blocked ip = false.
Proof.
  destruct ip as [a|a]; [apply check_v4_spec|]. cbn [check_address blocked ip_wf]. intros Ha.
  unfold to_ipv4_mapped. rewrite Z.shiftr_div_pow2, (Z.land_ones _ 32) by lia.
  destruct (in_net a (65535 * 2 ^ 32) (2 ^ 32)) eqn:Hm; unfold in_net in Hm.
  - assert (Hd : a / 2 ^ 32 = 65535) by (bool_props; zdiv_lia).
    rewrite bool_decide_true by done.
    assert (a mod 2 ^ 32 = a - 65535 * 2 ^ 32) as -> by (bool_props; zdiv_lia).
    apply check_v4_spec. bool_props. lia.
  - rewrite bool_decide_false by (intros Hd; apply not_true_iff_false in Hm; apply Hm;
      rewrite andb_true_iff, Z.leb_le, Z.ltb_lt; zdiv_lia).
    assert (Hs : segment a 0 = a / 2 ^ 112).
    { unfold segment. rewrite Z.shiftr_div_pow2, (Z.land_ones _ 16) by lia.
      apply Z.mod_small. change (16 * (7 - 0)) with 112. zdiv_lia. }
    rewrite Hs. destruct (segment_masks (a / 2 ^ 112)) as [-> ->]; [zdiv_lia|].
    assert (Hn1 : in_net a (64512 * 2 ^ 112) (2 ^ 121) = in_net (a / 2 ^ 112) 64512 512).
    { unfold in_net. apply eq_true_iff_eq. rewrite !andb_true_iff, !Z.leb_le, !Z.ltb_lt. zdiv_lia. }
    assert (Hn2 : in_net a (65152 * 2 ^ 112) (2 ^ 118) = in_net (a / 2 ^ 112) 65152 64).
    { unfold in_net. apply eq_true_iff_eq. rewrite !andb_true_iff, !Z.leb_le, !Z.ltb_lt. zdiv_lia. }
    rewrite Hn1, Hn2. destruct (a =? 1), (a =? 0), (in_net _ 64512 512), (in_net _ 65152 64);
      simpl; naive_solver.
Qed.

Lemma collect_check l us : Forall ip_wf l -> collect_map check_address l = Ok us ->
  Forall (fun ip => blocked ip = false) l.
Proof.
  revert us. induction l as [|ip l IH]; intros us Hw Hc; [done|]. apply Forall_cons in Hw as [Hi Hw].
  simpl in Hc. destruct (check_address ip) as [[]|] eqn:Hip; [|done]. simpl in Hc.
  destruct (collect_map check_address l) eqn:Hl; [|done].
  constructor; [by apply check_address_spec|by eapply IH].
Qed.

Lemma collect_check_ok l e : Forall ip_wf l -> Forall (fun ip => blocked ip = false) l ->
  collect_map check_address l <> Err e.
Proof.
  induction l as [|ip l IH]; intros Hw Hb; [done|]. apply Forall_cons in Hw as [Hi Hw].
  apply Forall_cons in Hb as [Hip Hb]. apply check_address_spec in Hip; [|done]. simpl.
  rewrite Hip. simpl. specialize (IH Hw Hb). by destruct (collect_map check_address l).
Qed.

(** The guard on outbound URLs.  It accepts a URL exactly when its host (as it reads
    it) is an address literal outside the blocked networks, or resolves, to addresses
    all outside of them. *)
Theorem validate_spec parse_ip resolver url :
  (forall h ip, parse_ip h = Some ip -> ip_wf ip) -> (forall h, Forall ip_wf (resolver h)) ->
  validate parse_ip resolver url = Ok tt <->
  exists host, parse_host url = Ok host /\
    match parse_ip host with
    | Some ip => blocked ip = false
    | None => resolver host <> [] /\ Forall (fun ip => blocked ip = false) (resolver host)
    end.
Proof.
  intros Hp Hr. unfold validate. destruct (parse_host url) as [host|e]; simpl; [|naive_solver].
  split; [intros Hv; exists host; split; [done|]|intros (h & [= <-] & Hv)].
  - destruct (parse_ip host) as [ip|] eqn:Hip; [apply check_address_spec; eauto|].
    case_bool_decide as Hn; simpl in Hv; [done|].
    split; [by intros E; rewrite E in Hn|].
    destruct (collect_map check_address (resolver host)) as [us|] eqn:Hc; [|done].
    apply collect_check in Hc; [done|by apply Hr].
  - destruct (parse_ip host) as [ip|] eqn:Hip; [apply check_address_spec; eauto|].
    destruct Hv as [Hne Hb]. rewrite bool_decide_false; [simpl|by destruct (resolver host)].
    destruct (collect_map check_address (resolver host)) as [us|e] eqn:Hc; [done|].
    exfalso. revert Hc. apply collect_check_ok; [by apply Hr|done].
Qed.

(** User information before an at sign is taken for the host: the guard resolves
    [example.com] and lets the URL through, although its host is 127.0.0.1. *)
Example userinfo_bypass :
  parse_host "http://example.com:80@127.0.0.1/admin" = Ok "example.com".
Proof. reflexivity. Qed.

(** A bracketed literal with a port keeps its brackets and is taken for a name. *)
Example bracketed_port_kept : parse_host "http://[2001:db8::1]:443/" = Ok "[2001:db8::1]".
Proof. reflexivity. Qed.
