(* ===== verification/ProofClosure.v ===== *)
(** * Proof closure ([crates/zaion-runtime/src/turn_outcome.rs],
    [ProofClosureVerifier])

    A turn is completed only with a [ProofClosure]: the verifier follows the turn's
    events through the ledger from the received message to the answer and its proof.
    [text] renders a signature error. *)

From stdpp Require Import prelude gmap strings list.
From S2P Require Import Prelude.
From S2P Require Import Json.
From S2P Require Import TurnKernel.
From S2P Require Import Env.
From S2P Require Import Database.
From S2P Require Import Ledger.
From S2P Require Import TurnProof.
Local Open Scope res_scope.
Local Open Scope Z_scope.

Inductive ProofClosureError : Type :=
| ClosureLedger (e : LedgerError)
| MissingEvent (event_id : string)
| WrongEventType (event_id expected actual : string)
| ScopeMismatch
| ParentMismatch (event_id expected : string)
| InvalidSignature (event_id reason : string)
| InvalidTurnProof (reason : string)
| InvalidTurnProofHash
| EvidenceGraphMismatch
| InvalidNamespaceTransition (reason : string)
| InvalidEvidenceGraph
| MissingEvidenceNode (node_id : string)
| MissingReceiptProofJoin
| InvalidReceiptProofJoin
| BrokenLedgerChain (sequence : Z).

Definition closure_ledger {A} (r : result LedgerError A) : result ProofClosureError A :=
  match r with Ok a => Ok a | Err e => Err (ClosureLedger e) end.

(** [payload.get(key).and_then(Value::as_str)] *)
Definition get_str (key : string) (v : Value) : option string := pointer_str [key] v.

(** [.and_then(Value::as_array)] with the strings of it. *)
Definition str_items (v : option Value) : list string :=
  match v with Some (VArray vs) => omap as_str vs | _ => [] end.

Section Closure.
Context `{Env} `{ProofCodec} (text : CryptoError -> string).
Context (ledger : EventLedger) (public_key : string).

(** [ProofClosureVerifier::event] *)
Definition event (db : Db) (event_id expected_type : string)
  : result ProofClosureError LedgerEvent :=
  let? found := closure_ledger (get_event ledger db event_id) in
  let? e := ok_or found (MissingEvent event_id) in
  guard? bool_decide (le_event_type e = expected_type)
    else WrongEventType event_id expected_type (le_event_type e) in
  Ok e.

(** [ProofClosureVerifier::verify_signature] *)
Definition check_signature (e : LedgerEvent) : result ProofClosureError unit :=
  match verify_event_signature public_key e with
  | Ok _ => Ok tt
  | Err err => Err (InvalidSignature (le_event_id e) (text err))
  end.

(** The event with its signature checked. *)
Definition signed_event (db : Db) (event_id expected_type : string)
  : result ProofClosureError LedgerEvent :=
  let? e := event db event_id expected_type in
  let? _ := check_signature e in
  Ok e.

Definition same_scope (a b : LedgerEvent) : bool :=
  bool_decide (le_principal_id a = le_principal_id b)
  && bool_decide (le_namespace_key a = le_namespace_key b).

(** The route between the received and the sent event, if there is one. *)
Definition check_route (db : Db) (proof_event received sent : LedgerEvent) (p : TurnProof)
  : result ProofClosureError unit :=
  match tp_omni_route_event_id p with
  | Some route_event_id =>
      let? route := signed_event db route_event_id "omni.route" in
      guard? bool_decide (le_principal_id route = le_principal_id proof_event)
             && bool_decide (le_namespace_key route = le_namespace_key received)
        else ScopeMismatch in
      guard? bool_decide (le_parent_event_id sent = Some route_event_id)
             && bool_decide (le_parent_event_id route = Some (tp_user_event_id p))
        else InvalidTurnProof "received -> route -> sent lineage is not closed" in
      Ok tt
  | None =>
      guard? bool_decide (le_parent_event_id sent = Some (tp_user_event_id p))
        else InvalidTurnProof "received -> sent lineage is not closed" in
      Ok tt
  end.

(** The transition between the namespaces of the received and the proof event. *)
Definition check_transition (db : Db) (proof_event received : LedgerEvent) (p : TurnProof)
  : result ProofClosureError unit :=
  match bool_decide (le_namespace_key received = le_namespace_key proof_event),
        tp_namespace_transition_event_id p with
  | true, None => Ok tt
  | true, Some _ =>
      Err (InvalidNamespaceTransition
             "same-namespace turn must not declare a transition event")
  | false, None =>
      Err (InvalidNamespaceTransition "cross-namespace turn is missing a transition event")
  | false, Some transition_event_id =>
      let? transition := signed_event db transition_event_id "channel.received" in
      guard? same_scope transition proof_event else ScopeMismatch in
      guard? bool_decide (le_parent_event_id transition = Some (tp_user_event_id p))
        else ParentMismatch transition_event_id (tp_user_event_id p) in
      let payload := le_payload transition in
      guard? bool_decide (get_str "source_parent_namespace_key" payload
                          = Some (le_namespace_key received))
             && bool_decide (get_str "source_parent_received_event_id" payload
                             = Some (tp_user_event_id p))
             && bool_decide (get_str "source" payload
                             = Some "compression.active_child_continuation")
             && bool_decide (get_str "copy_policy" payload
                             = Some "active_child_turn_materialization")
        else InvalidNamespaceTransition
               "signed transition payload does not bind the source ingress and policy" in
      Ok tt
  end.

(** [require_graph_node] *)
Definition require_graph_node (g : EvidenceSubgraph) (prefix id : string)
  : result ProofClosureError unit :=
  let node_id := prefix +:+ ":" +:+ id in
  guard? existsb (fun n => bool_decide (en_id n = node_id)) (eg_nodes g)
    else MissingEvidenceNode node_id in
  Ok tt.

Definition require_opt_node (g : EvidenceSubgraph) (prefix : string) (id : option string)
  : result ProofClosureError unit :=
  match id with Some id => require_graph_node g prefix id | None => Ok tt end.

(** One receipt of the proof: its node, its event and its scope. *)
Definition check_receipt (db : Db) (g : EvidenceSubgraph) (proof_event : LedgerEvent)
    (receipt_id : string) : result ProofClosureError unit :=
  let? _ := require_graph_node g "tool-receipt" receipt_id in
  let? receipt := signed_event db receipt_id "tool.receipt" in
  guard? same_scope receipt proof_event else ScopeMismatch in
  Ok tt.

(** The join of the receipts with the proof. *)
Definition check_join (db : Db) (proof_event : LedgerEvent) (p : TurnProof)
    (answer_trace_event_id turn_proof_event_id : string)
    (receipt_proof_join_event_id : option string)
  : result ProofClosureError (option string) :=
  match receipt_proof_join_event_id with
  | Some event_id =>
      let? join := signed_event db event_id "tool.receipt.proof_join" in
      guard? same_scope join proof_event else ScopeMismatch in
      guard? bool_decide (le_parent_event_id join = Some turn_proof_event_id)
        else ParentMismatch event_id turn_proof_event_id in
      let payload := le_payload join in
      guard? bool_decide (get_str "turn_proof_event_id" payload = Some turn_proof_event_id)
             && bool_decide (get_str "turn_proof_hash" payload = Some (tp_proof_hash p))
             && bool_decide (get_str "answer_trace_event_id" payload
                             = Some answer_trace_event_id)
             && bool_decide (str_items (value_get "tool_receipt_ids" payload)
                             = tp_tool_receipt_ids p)
        else InvalidReceiptProofJoin in
      Ok (Some event_id)
  | None =>
      guard? bool_decide (tp_tool_receipt_ids p = []) else MissingReceiptProofJoin in
      Ok None
  end.

(** The graph of the answer and its declared hash. *)
Definition answer_graph (answer : LedgerEvent)
  : result ProofClosureError (EvidenceSubgraph * string) :=
  let? v := ok_or (value_get "evidence_graph" (le_payload answer)) InvalidEvidenceGraph in
  let? g := ok_or (evidence_graph_from_value v) InvalidEvidenceGraph in
  let? hash := ok_or (get_str "evidence_graph_hash" (le_payload answer))
                 InvalidEvidenceGraph in
  guard? verify_hash g && bool_decide (eg_graph_hash g = hash) else InvalidEvidenceGraph in
  Ok (g, hash).

(** The proof in the payload of its event, with what it must agree with. *)
Definition payload_proof (answer proof_event : LedgerEvent)
    (answer_trace_event_id graph_hash : string) : result ProofClosureError TurnProof :=
  let? p := match turn_proof_from_value (le_payload proof_event) with
            | Ok p => Ok p
            | Err reason => Err (InvalidTurnProof reason)
            end in
  guard? verify_turn_proof_hash p else InvalidTurnProofHash in
  guard? bool_decide (tp_principal_id p = le_principal_id proof_event)
         && bool_decide (tp_namespace_key p = le_namespace_key proof_event)
    else ScopeMismatch in
  guard? bool_decide (get_str "answer_trace_event_id" (le_payload proof_event)
                      = Some answer_trace_event_id)
    else InvalidTurnProof "answer_trace_event_id does not match parent" in
  guard? bool_decide (tp_evidence_graph_hash p = Some graph_hash)
    else EvidenceGraphMismatch in
  guard? bool_decide (get_str "namespace_transition_event_id" (le_payload answer)
                      = tp_namespace_transition_event_id p)
    else InvalidNamespaceTransition
           "answer trace and turn proof transition ids do not match" in
  Ok p.

(** The answer's own lineage. *)
Definition check_answer (answer : LedgerEvent) (p : TurnProof) : result ProofClosureError unit :=
  guard? bool_decide (le_parent_event_id answer = Some (tp_output_event_id p))
         && bool_decide (get_str "user_event_id" (le_payload answer)
                         = Some (tp_user_event_id p))
         && bool_decide (get_str "output_event_id" (le_payload answer)
                         = Some (tp_output_event_id p))
    else InvalidTurnProof "answer trace lineage does not match turn proof" in
  Ok tt.

(** [ProofClosureVerifier::verify] *)
Definition verify (db : Db) (answer_trace_event_id turn_proof_event_id : string)
    (receipt_proof_join_event_id : option string) : result ProofClosureError ProofClosure :=
  let? answer := event db answer_trace_event_id "answer.trace" in
  let? proof_event := event db turn_proof_event_id "turn.proof" in
  let? _ := check_signature answer in
  let? _ := check_signature proof_event in
  guard? same_scope answer proof_event else ScopeMismatch in
  guard? bool_decide (le_parent_event_id proof_event = Some answer_trace_event_id)
    else ParentMismatch turn_proof_event_id answer_trace_event_id in
  let? (g, graph_hash) := answer_graph answer in
  let? p := payload_proof answer proof_event answer_trace_event_id graph_hash in
  let? received := event db (tp_user_event_id p) "channel.received" in
  let? sent := event db (tp_output_event_id p) "channel.sent" in
  let? _ := check_signature received in
  let? _ := check_signature sent in
  guard? bool_decide (le_principal_id received = le_principal_id proof_event)
         && bool_decide (le_principal_id sent = le_principal_id proof_event)
    else ScopeMismatch in
  guard? bool_decide (le_namespace_key sent = le_namespace_key proof_event)
    else ScopeMismatch in
  let? _ := check_answer answer p in
  let? _ := check_route db proof_event received sent p in
  let? _ := check_transition db proof_event received p in
  guard? bool_decide (tp_event_lineage p
           = lineage (tp_user_event_id p) (tp_omni_route_event_id p)
               (tp_namespace_transition_event_id p) (tp_output_event_id p)
               (tp_tool_receipt_ids p))
    else InvalidTurnProof "event_lineage does not match the proof event ids" in
  let? _ := require_graph_node g "ledger-event" (tp_user_event_id p) in
  let? _ := require_graph_node g "ledger-event" (tp_output_event_id p) in
  let? _ := require_opt_node g "ledger-event" (tp_omni_route_event_id p) in
  let? _ := require_opt_node g "ledger-event" (tp_namespace_transition_event_id p) in
  let? _ := require_opt_node g "context-pack" (tp_context_pack_id p) in
  let? _ := collect_map (require_graph_node g "memory-atom") (tp_memory_atom_ids p) in
  let? _ := collect_map (check_receipt db g proof_event) (tp_tool_receipt_ids p) in
  let? join_id := check_join db proof_event p answer_trace_event_id turn_proof_event_id
                    receipt_proof_join_event_id in
  let? chain := closure_ledger (verify_chain ledger db (le_principal_id answer)) in
  guard? opt_is_none (broken_at chain)
    else BrokenLedgerChain (default 0 (broken_at chain)) in
  Ok {| schema_version := 1; TurnKernel.answer_trace_event_id := answer_trace_event_id;
        TurnKernel.turn_proof_event_id := turn_proof_event_id;
        proof_hash := tp_proof_hash p;
        TurnKernel.receipt_proof_join_event_id := join_id;
        evidence_graph_hash := graph_hash |}.

End Closure.
