(* ===== verification/ProofClosureTheorems.v ===== *)
(** * Theorems about proof closure

    [closed_turn] is what a closure stands for, without the order of the checks: the
    signed events of the turn, how they are linked, what the proof and the evidence
    graph bind.  The verifier accepts exactly the closed turns. *)

From stdpp Require Import prelude gmap strings list.
From S2P Require Import Prelude.
From S2P Require Import Json.
From S2P Require Import TurnKernel.
From S2P Require Import Env.
From S2P Require Import Concrete.
From S2P Require Import Database.
From S2P Require Import Samples.
From S2P Require Import Ledger.
From S2P Require Import LedgerChain.
From S2P Require Import Binding.
From S2P Require Import TurnProof.
From S2P Require Import ProofClosure.
Local Open Scope res_scope.
Local Open Scope Z_scope.

Section Closure.
Context `{Env} `{ProofCodec} (text : CryptoError -> string).
Context (ledger : EventLedger) (pk : string).

(** The ledger holds the event, of that type, with a signature of the key. *)
Definition holds (db : Db) (id ty : string) (e : LedgerEvent) : Prop :=
  get_event ledger db id = Ok (Some e) /\ le_event_type e = ty /\
  exists mode, verify_event_signature pk e = Ok mode.

(** The graph has the node [prefix:id]. *)
Definition has_node (g : EvidenceSubgraph) (prefix id : string) : Prop :=
  exists n, n ∈ eg_nodes g /\ en_id n = prefix +:+ ":" +:+ id.

(** The received event is the parent of the sent one, or of a signed route that
    is. *)
Definition routed (db : Db) (proof_event received sent : LedgerEvent) (p : TurnProof) : Prop :=
  match tp_omni_route_event_id p with
  | None => le_parent_event_id sent = Some (tp_user_event_id p)
  | Some id => exists route, holds db id "omni.route" route /\
      le_principal_id route = le_principal_id proof_event /\
      le_namespace_key route = le_namespace_key received /\
      le_parent_event_id sent = Some id /\ le_parent_event_id route = Some (tp_user_event_id p)
  end.

(** The turn stays in its namespace, or a signed transition brought it there. *)
Definition transitioned (db : Db) (proof_event received : LedgerEvent) (p : TurnProof) : Prop :=
  match tp_namespace_transition_event_id p with
  | None => le_namespace_key received = le_namespace_key proof_event
  | Some id => le_namespace_key received <> le_namespace_key proof_event /\
      exists e, holds db id "channel.received" e /\
        le_principal_id e = le_principal_id proof_event /\
        le_namespace_key e = le_namespace_key proof_event /\
        le_parent_event_id e = Some (tp_user_event_id p) /\
        get_str "source_parent_namespace_key" (le_payload e) = Some (le_namespace_key received) /\
        get_str "source_parent_received_event_id" (le_payload e) = Some (tp_user_event_id p) /\
        get_str "source" (le_payload e) = Some "compression.active_child_continuation" /\
        get_str "copy_policy" (le_payload e) = Some "active_child_turn_materialization"
  end.

(** The receipts of the proof are signed events of its scope, and a signed join
    lists exactly them; without receipts no join is needed. *)
Definition joined (db : Db) (proof_event : LedgerEvent) (p : TurnProof)
    (answer_id proof_id : string) (join : option string) : Prop :=
  match join with
  | None => tp_tool_receipt_ids p = []
  | Some id => exists e, holds db id "tool.receipt.proof_join" e /\
      le_principal_id e = le_principal_id proof_event /\
      le_namespace_key e = le_namespace_key proof_event /\
      le_parent_event_id e = Some proof_id /\
      get_str "turn_proof_event_id" (le_payload e) = Some proof_id /\
      get_str "turn_proof_hash" (le_payload e) = Some (tp_proof_hash p) /\
      get_str "answer_trace_event_id" (le_payload e) = Some answer_id /\
      str_items (value_get "tool_receipt_ids" (le_payload e)) = tp_tool_receipt_ids p
  end.

(** A closed turn: the events, the links, the proof, the graph. *)
Record closed_turn (db : Db) (answer_id proof_id : string) (join : option string)
    (answer proof_event received sent : LedgerEvent) (p : TurnProof) (g : EvidenceSubgraph)
  : Prop := {
  ct_answer : holds db answer_id "answer.trace" answer;
  ct_proof : holds db proof_id "turn.proof" proof_event;
  ct_received : holds db (tp_user_event_id p) "channel.received" received;
  ct_sent : holds db (tp_output_event_id p) "channel.sent" sent;
  ct_principal : le_principal_id answer = le_principal_id proof_event /\
    le_principal_id received = le_principal_id proof_event /\
    le_principal_id sent = le_principal_id proof_event;
  ct_namespace : le_namespace_key answer = le_namespace_key proof_event /\
    le_namespace_key sent = le_namespace_key proof_event;
  ct_parent_proof : le_parent_event_id proof_event = Some answer_id;
  ct_parent_answer : le_parent_event_id answer = Some (tp_output_event_id p);
  ct_routed : routed db proof_event received sent p;
  ct_transitioned : transitioned db proof_event received p;
  ct_decoded : turn_proof_from_value (le_payload proof_event) = Ok p;
  ct_hash : verify_turn_proof_hash p = true;
  ct_scope : tp_principal_id p = le_principal_id proof_event /\
    tp_namespace_key p = le_namespace_key proof_event;
  ct_names : get_str "answer_trace_event_id" (le_payload proof_event) = Some answer_id /\
    get_str "user_event_id" (le_payload answer) = Some (tp_user_event_id p) /\
    get_str "output_event_id" (le_payload answer) = Some (tp_output_event_id p) /\
    get_str "namespace_transition_event_id" (le_payload answer)
    = tp_namespace_transition_event_id p;
  ct_lineage : tp_event_lineage p = lineage (tp_user_event_id p) (tp_omni_route_event_id p)
    (tp_namespace_transition_event_id p) (tp_output_event_id p) (tp_tool_receipt_ids p);
  ct_graph : (value_get "evidence_graph" (le_payload answer) ≫= evidence_graph_from_value)
    = Some g;
  ct_graph_hash : verify_hash g = true /\ tp_evidence_graph_hash p = Some (eg_graph_hash g) /\
    get_str "evidence_graph_hash" (le_payload answer) = Some (eg_graph_hash g);
  ct_nodes : has_node g "ledger-event" (tp_user_event_id p) /\
    has_node g "ledger-event" (tp_output_event_id p) /\
    (forall id, tp_omni_route_event_id p = Some id -> has_node g "ledger-event" id) /\
    (forall id, tp_namespace_transition_event_id p = Some id -> has_node g "ledger-event" id) /\
    (forall id, tp_context_pack_id p = Some id -> has_node g "context-pack" id) /\
    (forall id, id ∈ tp_memory_atom_ids p -> has_node g "memory-atom" id);
  ct_receipts : forall id, id ∈ tp_tool_receipt_ids p -> has_node g "tool-receipt" id /\
    exists e, holds db id "tool.receipt" e /\
      le_principal_id e = le_principal_id proof_event /\
      le_namespace_key e = le_namespace_key proof_event;
  ct_join : joined db proof_event p answer_id proof_id join;
  ct_chain : exists chain, verify_chain ledger db (le_principal_id answer) = Ok chain /\
    broken_at chain = None
}.

(** ** The checks one by one *)

Lemma event_iff db id ty e :
  event ledger db id ty = Ok e <-> get_event ledger db id = Ok (Some e) /\ le_event_type e = ty.
Proof.
  unfold event. split.
  - intros Hv. destruct (get_event ledger db id) as [[e'|]|]; simpl in Hv; try done.
    case_bool_decide; [|done]. by simplify_eq.
  - intros [-> Ht]. simpl. by rewrite bool_decide_eq_true_2.
Qed.

Lemma signature_iff e :
  check_signature text pk e = Ok tt <-> exists mode, verify_event_signature pk e = Ok mode.
Proof.
  unfold check_signature. destruct (verify_event_signature pk e); naive_solver.
Qed.

Lemma signed_iff db id ty e :
  signed_event text ledger pk db id ty = Ok e <-> holds db id ty e.
Proof.
  unfold signed_event, holds. split.
  - intros Hv. destruct (event ledger db id ty) as [e'|] eqn:Ee; [|done].
    destruct (check_signature text pk e') as [[]|] eqn:Es; [|done]. simplify_eq.
    apply event_iff in Ee. apply signature_iff in Es. tauto.
  - intros (Hg & Ht & Hs). rewrite (proj2 (event_iff db id ty e)) by done.
    by rewrite (proj2 (signature_iff e) Hs).
Qed.

Lemma node_iff g prefix id : require_graph_node g prefix id = Ok tt <-> has_node g prefix id.
Proof.
  unfold require_graph_node, has_node. cbv zeta.
  destruct (existsb _ _) eqn:E.
  - split; [|done]. intros _. apply existsb_exists in E as (n & Hn & He). bool_props.
    exists n. split; [by apply list_elem_of_In|done].
  - split; [done|]. intros (n & Hn & He). exfalso.
    assert (existsb (fun n => bool_decide (en_id n = prefix +:+ ":" +:+ id)) (eg_nodes g) = true);
      [|congruence].
    apply existsb_exists. exists n. split; [by apply list_elem_of_In|].
    by apply bool_decide_eq_true_2.
Qed.

Lemma opt_node_iff g prefix o :
  require_opt_node g prefix o = Ok tt <-> forall id, o = Some id -> has_node g prefix id.
Proof.
  destruct o as [id|]; simpl; [rewrite node_iff|]; naive_solver.
Qed.

Lemma collect_unit_iff {A} (f : A -> result ProofClosureError unit) l :
  is_ok (collect_map f l) = true <-> forall x, x ∈ l -> f x = Ok tt.
Proof.
  induction l as [|x l IH]; simpl; [split; [set_solver|done]|].
  destruct (f x) as [[]|] eqn:E; simpl.
  - destruct (collect_map f l) eqn:El; simpl in *.
    + split; [|done]. intros _ y [->|Hy]%elem_of_cons; [done|]. by apply IH.
    + split; [done|]. intros Hall. apply IH. set_solver.
  - split; [done|]. intros Hall. specialize (Hall x ltac:(set_solver)). congruence.
Qed.

Lemma same_scope_iff a b :
  same_scope a b = true <->
  le_principal_id a = le_principal_id b /\ le_namespace_key a = le_namespace_key b.
Proof. unfold same_scope. by rewrite andb_true_iff, !bool_decide_eq_true. Qed.

(** A guard that is a conjunction of equalities. *)
Lemma and_decide (P Q : Prop) `{Decision P} `{Decision Q} :
  bool_decide P && bool_decide Q = true <-> P /\ Q.
Proof. by rewrite andb_true_iff, !bool_decide_eq_true. Qed.

Lemma route_iff db proof_event received sent p :
  check_route text ledger pk db proof_event received sent p = Ok tt <->
  routed db proof_event received sent p.
Proof.
  unfold check_route, routed. destruct (tp_omni_route_event_id p) as [id|].
  - split.
    + intros Hv. ok_inv Hv. rewrite signed_iff in Hm. bool_props. eauto 10.
    + intros (route & Hr & H1 & H2 & H3 & H4). rewrite (proj2 (signed_iff _ _ _ _) Hr).
      by rewrite (proj2 (and_decide _ _) (conj H1 H2)), (proj2 (and_decide _ _) (conj H3 H4)).
  - case_bool_decide; naive_solver.
Qed.

Lemma transition_iff db proof_event received p :
  check_transition text ledger pk db proof_event received p = Ok tt <->
  transitioned db proof_event received p.
Proof.
  unfold check_transition, transitioned.
  destruct (tp_namespace_transition_event_id p) as [id|];
    case_bool_decide as E; try naive_solver.
  split.
  - intros Hv. ok_inv Hv. rewrite signed_iff in Hm. rewrite same_scope_iff in Hg. bool_props.
    destruct Hg. eauto 20.
  - intros (_ & e & He & H1 & H2 & H3 & H4 & H5 & H6 & H7).
    rewrite (proj2 (signed_iff _ _ _ _) He), (proj2 (same_scope_iff _ _) (conj H1 H2)), H3.
    rewrite H4, H5, H6, H7. by rewrite !bool_decide_eq_true_2.
Qed.

Lemma receipt_iff db g proof_event id :
  check_receipt text ledger pk db g proof_event id = Ok tt <->
  has_node g "tool-receipt" id /\ exists e, holds db id "tool.receipt" e /\
    le_principal_id e = le_principal_id proof_event /\
    le_namespace_key e = le_namespace_key proof_event.
Proof.
  unfold check_receipt. split.
  - intros Hv. ok_inv Hv. destruct a. rewrite node_iff in Hm. rewrite signed_iff in Hm0.
    rewrite same_scope_iff in Hg. eauto.
  - intros (Hn & e & He & Hs). apply node_iff in Hn. rewrite Hn.
    by rewrite (proj2 (signed_iff _ _ _ _) He), (proj2 (same_scope_iff _ _) Hs).
Qed.

Lemma join_iff db proof_event p answer_id proof_id join j :
  check_join text ledger pk db proof_event p answer_id proof_id join = Ok j <->
  j = join /\ joined db proof_event p answer_id proof_id join.
Proof.
  unfold check_join, joined. destruct join as [id|]; [|case_bool_decide; naive_solver].
  split.
  - intros Hv. ok_inv Hv. rewrite signed_iff in Hm. rewrite same_scope_iff in Hg. bool_props.
    destruct Hg. split; [done|]. eauto 20.
  - intros (-> & e & He & H1 & H2 & H3 & H4 & H5 & H6 & H7).
    rewrite (proj2 (signed_iff _ _ _ _) He), (proj2 (same_scope_iff _ _) (conj H1 H2)), H3.
    rewrite H4, H5, H6, H7. by rewrite !bool_decide_eq_true_2.
Qed.

Lemma answer_graph_iff answer g h :
  answer_graph answer = Ok (g, h) <->
  (value_get "evidence_graph" (le_payload answer) ≫= evidence_graph_from_value) = Some g /\
  verify_hash g = true /\ h = eg_graph_hash g /\
  get_str "evidence_graph_hash" (le_payload answer) = Some h.
Proof.
  unfold answer_graph. destruct (value_get _ _) as [v|]; simpl; [|naive_solver].
  destruct (evidence_graph_from_value v) as [g'|]; simpl; [|naive_solver].
  destruct (get_str _ _) as [h'|]; simpl; [|naive_solver].
  split.
  - intros Hv. ok_inv Hv. bool_props. by simplify_eq.
  - intros ([= ->] & -> & -> & [= ->]). by rewrite bool_decide_eq_true_2.
Qed.

Lemma payload_proof_iff answer proof_event answer_id h p :
  payload_proof answer proof_event answer_id h = Ok p <->
  turn_proof_from_value (le_payload proof_event) = Ok p /\ verify_turn_proof_hash p = true /\
  (tp_principal_id p = le_principal_id proof_event /\
   tp_namespace_key p = le_namespace_key proof_event) /\
  get_str "answer_trace_event_id" (le_payload proof_event) = Some answer_id /\
  tp_evidence_graph_hash p = Some h /\
  get_str "namespace_transition_event_id" (le_payload answer)
  = tp_namespace_transition_event_id p.
Proof.
  unfold payload_proof. split.
  - intros Hv. destruct (turn_proof_from_value _) as [p'|]; [|done]. ok_inv Hv. subst.
    bool_props. tauto.
  - intros (-> & -> & H1 & H2 & H3 & H4). rewrite (proj2 (and_decide _ _) H1).
    by rewrite !bool_decide_eq_true_2.
Qed.

Lemma answer_iff answer p :
  check_answer answer p = Ok tt <->
  le_parent_event_id answer = Some (tp_output_event_id p) /\
  get_str "user_event_id" (le_payload answer) = Some (tp_user_event_id p) /\
  get_str "output_event_id" (le_payload answer) = Some (tp_output_event_id p).
Proof.
  unfold check_answer. split.
  - intros Hv. ok_inv Hv. by bool_props.
  - intros (H1 & H2 & H3). by rewrite !bool_decide_eq_true_2.
Qed.

Lemma memory_iff g ids :
  is_ok (collect_map (require_graph_node g "memory-atom") ids) = true <->
  forall id, id ∈ ids -> has_node g "memory-atom" id.
Proof. rewrite collect_unit_iff. by setoid_rewrite node_iff. Qed.

Lemma receipts_iff db g proof_event ids :
  is_ok (collect_map (check_receipt text ledger pk db g proof_event) ids) = true <->
  forall id, id ∈ ids -> has_node g "tool-receipt" id /\
    exists e, holds db id "tool.receipt" e /\
      le_principal_id e = le_principal_id proof_event /\
      le_namespace_key e = le_namespace_key proof_event.
Proof. rewrite collect_unit_iff. by setoid_rewrite receipt_iff. Qed.

Lemma is_ok_intro {E A} (r : result E A) a : r = Ok a -> is_ok r = true.
Proof. by intros ->. Qed.

Lemma is_ok_elim {E A} (r : result E A) : is_ok r = true -> exists a, r = Ok a.
Proof. destruct r; [eauto|done]. Qed.

Lemma closure_ledger_ok {A} (r : result LedgerError A) a : closure_ledger r = Ok a <-> r = Ok a.
Proof. destruct r; simpl; naive_solver. Qed.

(** Replaces the success of each check by what it establishes. *)
Ltac closure_facts :=
  repeat match goal with
  | u : unit |- _ => destruct u
  | H : event _ _ _ _ = Ok _ |- _ => apply event_iff in H
  | H : check_signature _ _ _ = Ok tt |- _ => apply signature_iff in H
  | H : same_scope _ _ = true |- _ => apply same_scope_iff in H
  | H : answer_graph _ = Ok _ |- _ => apply answer_graph_iff in H
  | H : payload_proof _ _ _ _ = Ok _ |- _ => apply payload_proof_iff in H
  | H : check_answer _ _ = Ok tt |- _ => apply answer_iff in H
  | H : check_route _ _ _ _ _ _ _ _ = Ok tt |- _ => apply route_iff in H
  | H : check_transition _ _ _ _ _ _ _ = Ok tt |- _ => apply transition_iff in H
  | H : require_graph_node _ _ _ = Ok tt |- _ => apply node_iff in H
  | H : require_opt_node _ _ _ = Ok tt |- _ => pose proof (proj1 (opt_node_iff _ _ _) H); clear H
  | H : collect_map (require_graph_node _ _) _ = Ok _ |- _ =>
      pose proof (proj1 (memory_iff _ _) (is_ok_intro _ _ H)); clear H
  | H : collect_map (check_receipt _ _ _ _ _ _) _ = Ok _ |- _ =>
      pose proof (proj1 (receipts_iff _ _ _ _) (is_ok_intro _ _ H)); clear H
  | H : check_join _ _ _ _ _ _ _ _ _ = Ok _ |- _ => apply join_iff in H
  | H : closure_ledger _ = Ok _ |- _ => apply closure_ledger_ok in H
  | H : opt_is_none ?o = true |- _ =>
      let E := fresh "Hnone" in destruct o eqn:E; [discriminate H|clear H]
  end; bool_props.

Definition closure_of (answer_id proof_id : string) (join : option string) (p : TurnProof)
    (g : EvidenceSubgraph) : ProofClosure :=
  {| schema_version := 1; answer_trace_event_id := answer_id; turn_proof_event_id := proof_id;
     proof_hash := tp_proof_hash p; receipt_proof_join_event_id := join;
     evidence_graph_hash := eg_graph_hash g |}.

Lemma verify_sound db answer_id proof_id join c :
  verify text ledger pk db answer_id proof_id join = Ok c ->
  exists answer proof_event received sent p g,
    closed_turn db answer_id proof_id join answer proof_event received sent p g /\
    c = closure_of answer_id proof_id join p g.
Proof.
  intros Hv. unfold verify in Hv. ok_inv Hv. closure_facts. subst.
  repeat match goal with H : _ /\ _ |- _ => destruct H end. subst.
  eexists _, _, _, _, _, _. split; [|reflexivity].
  split; unfold holds; eauto 10.
Qed.

Lemma verify_complete db answer_id proof_id join answer proof_event received sent p g :
  closed_turn db answer_id proof_id join answer proof_event received sent p g ->
  verify text ledger pk db answer_id proof_id join
  = Ok (closure_of answer_id proof_id join p g).
Proof.
  intros [(A1 & A2 & A3) (P1 & P2 & P3) (R1 & R2 & R3) (S1 & S2 & S3) (K1 & K2 & K3) (N1 & N2)
          Hpp Hpa Hr Ht Hd Hh Hs (M1 & M2 & M3 & M4) Hl Hg (G1 & G2 & G3)
          (O1 & O2 & O3 & O4 & O5 & O6) Hrec Hj (chain & Hc & Hb)].
  unfold verify.
  rewrite (proj2 (event_iff _ _ _ answer)), (proj2 (event_iff _ _ _ proof_event)) by done.
  rewrite !(proj2 (signature_iff _)) by done.
  rewrite (proj2 (same_scope_iff answer proof_event)) by done.
  rewrite (bool_decide_eq_true_2 _ Hpp), (proj2 (answer_graph_iff _ g _)) by done.
  rewrite (proj2 (payload_proof_iff _ _ _ _ p)) by done.
  rewrite (proj2 (event_iff _ _ _ received)), (proj2 (event_iff _ _ _ sent)) by done.
  rewrite !(proj2 (signature_iff _)), (proj2 (and_decide _ _) (conj K2 K3)) by done.
  rewrite (bool_decide_eq_true_2 _ N2), (proj2 (answer_iff _ _)) by done.
  rewrite (proj2 (route_iff _ _ _ _ _) Hr), (proj2 (transition_iff _ _ _ _) Ht).
  rewrite (bool_decide_eq_true_2 _ Hl), !(proj2 (node_iff _ _ _)), !(proj2 (opt_node_iff _ _ _))
    by done.
  destruct (is_ok_elim _ (proj2 (memory_iff g _) O6)) as [u1 ->].
  destruct (is_ok_elim _ (proj2 (receipts_iff db g proof_event _) Hrec)) as [u2 ->].
  rewrite (proj2 (join_iff _ _ _ _ _ _ join)) by done.
  by rewrite (proj2 (closure_ledger_ok _ chain) Hc), Hb.
Qed.

(** C9.  Proof closure is decided by the ledger.  The verifier returns a closure
    exactly when the ledger holds a closed turn: signed answer, proof, received and
    sent events (and route, transition, receipt and join events where the proof
    names them) of the declared types, in one scope, linked parent to child from
    the message to the proof; a proof whose hash and lineage are right; an evidence
    graph whose hash the answer and the proof repeat, with a node for everything the
    proof names; and an unbroken chain.  The closure repeats those hashes. *)
Theorem closure_iff_closed db answer_id proof_id join c :
  verify text ledger pk db answer_id proof_id join = Ok c <->
  exists answer proof_event received sent p g,
    closed_turn db answer_id proof_id join answer proof_event received sent p g /\
    c = closure_of answer_id proof_id join p g.
Proof.
  split; [apply verify_sound|].
  intros (answer & proof_event & received & sent & p & g & Hc & ->).
  by eapply verify_complete.
Qed.

End Closure.

(** ** A worked closed turn

    A codec that computes, and a turn with one tool receipt in a ledger: the events
    are appended and signed one after another, and the verifier closes the turn. *)

Definition node_kind_of (s : string) : option EvidenceNodeKind :=
  find (fun k => bool_decide (node_kind_str k = s))
    [ProviderTrace; ContextPack; MemoryAtom; ToolReceipt; LedgerEventNode; AnswerTraceSpan].

Definition edge_kind_of (s : string) : option EvidenceEdgeKind :=
  find (fun k => bool_decide (edge_kind_str k = s)) [UsedBy; DerivedFrom].

Definition value_node (v : Value) : option EvidenceNode :=
  match v with
  | VObject [(_, VString id); (_, VString kind); (_, VString h)] =>
      (fun k => with_hash k id h) <$> node_kind_of kind
  | _ => None
  end.

Definition value_edge (v : Value) : option EvidenceEdge :=
  match v with
  | VObject [(_, VString from); (_, VString to); (_, VString kind)] =>
      (fun k => {| ee_from := from; ee_to := to; ee_kind := k |}) <$> edge_kind_of kind
  | _ => None
  end.

Definition graph_value (g : EvidenceSubgraph) : Value :=
  VArray [VString (eg_schema g); VString (eg_answer_id g);
          VArray (map node_value (eg_nodes g)); VArray (map edge_value (eg_edges g));
          VString (eg_graph_hash g)].

Definition value_graph (v : Value) : option EvidenceSubgraph :=
  match v with
  | VArray [VString schema; VString answer_id; VArray ns; VArray es; VString h] =>
      match mapM value_node ns, mapM value_edge es with
      | Some ns', Some es' =>
          Some {| eg_schema := schema; eg_answer_id := answer_id; eg_nodes := ns';
                  eg_edges := es'; eg_graph_hash := h |}
      | _, _ => None
      end
  | _ => None
  end.

Definition toy_manifest : TurnCapabilityManifest :=
  {| cm_provider := "provider"; cm_model := "model"; cm_max_tokens := None;
     cm_temperature := None; cm_memory_enabled := false; cm_mcp_enabled := false;
     cm_cache_enabled := false; cm_smart_route_enabled := false;
     cm_compression_requested := false; cm_tools_requested := []; cm_boundaries := [] |}.

Definition toy_proof_value (p : TurnProof) : list (string * Value) :=
  [("proof_id", VString (tp_proof_id p)); ("principal_id", VString (tp_principal_id p));
   ("namespace_key", VString (tp_namespace_key p));
   ("user_event_id", VString (tp_user_event_id p));
   ("output_event_id", VString (tp_output_event_id p));
   ("identity_contract_hash", VString (tp_identity_contract_hash p));
   ("context_digest", VString (tp_context_digest p));
   ("manifest_hash", VString (tp_capability_manifest_hash p));
   ("lineage", strs (tp_event_lineage p)); ("receipts", strs (tp_tool_receipt_ids p));
   ("graph_hash", opt_string (tp_evidence_graph_hash p));
   ("proof_hash", VString (tp_proof_hash p))].

(** Reads a proof whose other fields have the sample's values. *)
Definition toy_value_proof (v : Value) : result string TurnProof :=
  let str k := default "" (get_str k v) in
  Ok {| tp_schema_version := 1; tp_proof_id := str "proof_id";
        tp_principal_id := str "principal_id"; tp_workspace_id := "workspace-1";
        tp_project_id := "project-1"; tp_channel_id := "cli"; tp_thread_id := "main";
        tp_namespace_key := str "namespace_key"; tp_user_event_id := str "user_event_id";
        tp_output_event_id := str "output_event_id"; tp_omni_route_event_id := None;
        tp_omni_route_authority_hash := None; tp_namespace_transition_event_id := None;
        tp_event_lineage := str_items (value_get "lineage" v);
        tp_identity_contract_hash := str "identity_contract_hash";
        tp_capability_manifest_hash := str "manifest_hash"; tp_context_pack_id := None;
        tp_context_digest := str "context_digest"; tp_context_layers := [];
        tp_memory_atom_ids := []; tp_compression_evidence := None;
        tp_compression_evidence_hash := None; tp_cost_evidence := None;
        tp_cost_evidence_hash := None; tp_runtime_memory_evidence := None;
        tp_runtime_memory_evidence_hash := None;
        tp_evidence_graph_hash := get_str "graph_hash" v;
        tp_capability_manifest := toy_manifest; tp_tokens_in := 3; tp_tokens_out := 5;
        tp_tool_call_count := 1; tp_tool_receipt_ids := str_items (value_get "receipts" v);
        tp_tool_receipt_count := 1; tp_proof_hash := str "proof_hash" |}.

#[local] Instance toy_codec : ProofCodec := {|
  evidence_graph_from_value := value_graph;
  turn_proof_from_value := toy_value_proof;
  layers_value := fun _ => VNull; compression_value := fun _ => VNull;
  cost_value := fun _ => VNull; runtime_memory_value := fun _ => VNull;
  manifest_bytes := cm_provider;
  turn_proof_bytes := fun p => json_to_string (VObject (toy_proof_value p))
|}.

Definition cs_graph : EvidenceSubgraph := build_answer_evidence_subgraph
  {| ae_response_hash := "response"; ae_context_pack_id := None; ae_memory_atom_ids := [];
     ae_tool_receipt_ids := ["receipt-1"]; ae_source_ledger_event_ids := ["user-1"];
     ae_output_ledger_event_id := "sent-1"; ae_answer_trace_span_hashes := ["span"] |}.

Definition cs_proof : TurnProof := build_turn_proof
  {| pi_principal_id := principal_id sample_keypair; pi_workspace_id := "workspace-1";
     pi_project_id := "project-1"; pi_channel_id := "cli"; pi_thread_id := "main";
     pi_namespace_key := "ns"; pi_user_event_id := "user-1"; pi_output_event_id := "sent-1";
     pi_omni_route_event_id := None; pi_omni_route_authority_hash := None;
     pi_namespace_transition_event_id := None; pi_identity_contract := "contract";
     pi_capability_manifest := toy_manifest; pi_context_pack_id := None;
     pi_context_layers := []; pi_memory_atom_ids := []; pi_compression_evidence := None;
     pi_cost_evidence := None; pi_runtime_memory_evidence := None;
     pi_evidence_graph_hash := Some (eg_graph_hash cs_graph); pi_tokens_in := 3;
     pi_tokens_out := 5; pi_tool_call_count := 1; pi_tool_receipt_ids := ["receipt-1"] |}.

(** The events of the turn: identifier, type, payload and parent. *)
Definition cs_events : list (string * string * Value * option string) :=
  [("user-1", "channel.received", VNull, None);
   ("receipt-1", "tool.receipt", VNull, Some "user-1");
   ("sent-1", "channel.sent", VNull, Some "user-1");
   ("answer-1", "answer.trace",
    VObject [("evidence_graph", graph_value cs_graph);
             ("evidence_graph_hash", VString (eg_graph_hash cs_graph));
             ("user_event_id", VString "user-1"); ("output_event_id", VString "sent-1")],
    Some "sent-1");
   ("proof-1", "turn.proof",
    VObject (toy_proof_value cs_proof ++ [("answer_trace_event_id", VString "answer-1")]),
    Some "answer-1");
   ("join-1", "tool.receipt.proof_join",
    VObject [("turn_proof_event_id", VString "proof-1");
             ("turn_proof_hash", VString (tp_proof_hash cs_proof));
             ("answer_trace_event_id", VString "answer-1");
             ("tool_receipt_ids", strs ["receipt-1"])],
    Some "proof-1")].

Definition cs_append (db : Db) (e : string * string * Value * option string) : Db :=
  match append_signed_event_with_parent sample_handle db e.1.1.1 "now" sample_keypair "ns"
          e.1.1.2 e.1.2 None e.2 with
  | Ok (_, db') => db'
  | Err _ => db
  end.

Definition cs_db : Db := foldl cs_append sample_db cs_events.

Definition cs_verify (db : Db) (join : option string) : result ProofClosureError ProofClosure :=
  verify (fun _ => "invalid") sample_handle (public_key_bytes sample_keypair) db "answer-1"
    "proof-1" join.

Example closed_turn_closes :
  cs_verify cs_db (Some "join-1")
  = Ok (closure_of "answer-1" "proof-1" (Some "join-1") cs_proof cs_graph).
Proof. vm_compute. reflexivity. Qed.

Example receipts_need_their_join :
  cs_verify cs_db None = Err MissingReceiptProofJoin.
Proof. vm_compute. reflexivity. Qed.

Example a_missing_event_is_named :
  cs_verify (foldl cs_append sample_db (drop 1 cs_events)) (Some "join-1")
  = Err (MissingEvent "user-1").
Proof. vm_compute. reflexivity. Qed.
