(* ===== verification/Metabolic.v ===== *)
(** * Token budgets, hunger and pain ([crates/zaion-metabolic/src])

    The budget that callers share behind a lock, so that any interleaving of their calls is a
    sequence of whole calls; the action that the policy takes on it; the hunger that grows with
    the time since it was fed; and the receptors that report a level when it crosses its
    threshold.  Counts are [u64] with the wrap of a release build, levels are [f64].  The
    readings of the clock, in nanoseconds, are arguments; the two formats of a message of a
    receptor are parameters; a map is visited in any order.

    Shown: for any sequence of calls the arithmetic of the budget neither wraps nor saturates
    and agrees with sums of unbounded integers; the degradation always belongs to the hunger,
    which is a number whatever it is fed; a receptor fails exactly when its level crosses the
    threshold from below.  Two defects: every update of the hunger counts all the time since
    the last feeding again, and a budget that is reserved as a whole, or is zero, counts as
    unused. *)

From Stdlib Require Import SpecFloat.
From stdpp Require Import prelude gmap strings list.
From S2P Require Import Prelude.
From S2P Require Import F64.
Local Open Scope res_scope.
Local Open Scope Z_scope.

(** ** Budgets ([budget.rs]) *)

Record TokenBudget : Type := { tb_total : Z; tb_used : Z; tb_reserved : Z }.

Definition u64_add (a b : Z) : Z := (a + b) mod 2 ^ 64.
Definition u64_saturating_sub (a b : Z) : Z := Z.max 0 (a - b).

Definition token_budget_new (total : Z) : TokenBudget :=
  {| tb_total := total; tb_used := 0; tb_reserved := 0 |}.

Definition remaining (b : TokenBudget) : Z :=
  u64_saturating_sub (tb_total b) (u64_add (tb_used b) (tb_reserved b)).

Definition available (b : TokenBudget) : Z := u64_saturating_sub (tb_total b) (tb_used b).

Definition utilization (b : TokenBudget) : f64 :=
  if bool_decide (tb_total b = 0) then usize_as_f64 0
  else f64_mul (f64_div (usize_as_f64 (tb_used b)) (usize_as_f64 (tb_total b))) (usize_as_f64 100).

Definition can_afford (b : TokenBudget) (amount : Z) : bool := bool_decide (amount <= remaining b).

Record BudgetExceededError : Type := { be_requested : Z; be_available : Z; be_total : Z }.

Record BudgetTracker : Type := {
  bt_budget : TokenBudget;
  bt_warning_threshold : f64;
  bt_critical_threshold : f64
}.

Definition with_thresholds (total : Z) (warning critical : f64) : BudgetTracker :=
  {| bt_budget := token_budget_new total; bt_warning_threshold := warning;
     bt_critical_threshold := critical |}.

Definition tracker_new (total : Z) : BudgetTracker :=
  with_thresholds total (f64_literal 80 100) (f64_literal 95 100).

Definition with_budget (t : BudgetTracker) (b : TokenBudget) : BudgetTracker :=
  {| bt_budget := b; bt_warning_threshold := bt_warning_threshold t;
     bt_critical_threshold := bt_critical_threshold t |}.

Definition exceeded (b : TokenBudget) (amount : Z) : BudgetExceededError :=
  {| be_requested := amount; be_available := remaining b; be_total := tb_total b |}.

Definition consume (t : BudgetTracker) (amount : Z)
  : BudgetTracker * result BudgetExceededError unit :=
  let b := bt_budget t in
  if negb (can_afford b amount) then (t, Err (exceeded b amount))
  else (with_budget t {| tb_total := tb_total b; tb_used := u64_add (tb_used b) amount;
                         tb_reserved := tb_reserved b |}, Ok tt).

Definition reserve (t : BudgetTracker) (amount : Z)
  : BudgetTracker * result BudgetExceededError unit :=
  let b := bt_budget t in
  if negb (can_afford b amount) then (t, Err (exceeded b amount))
  else (with_budget t {| tb_total := tb_total b; tb_used := tb_used b;
                         tb_reserved := u64_add (tb_reserved b) amount |}, Ok tt).

Definition release_reservation (t : BudgetTracker) (amount : Z) : BudgetTracker :=
  let b := bt_budget t in
  with_budget t {| tb_total := tb_total b; tb_used := tb_used b;
                   tb_reserved := u64_saturating_sub (tb_reserved b) amount |}.

Definition reset (t : BudgetTracker) : BudgetTracker :=
  with_budget t {| tb_total := tb_total (bt_budget t); tb_used := 0; tb_reserved := 0 |}.

Definition threshold_warning (t : BudgetTracker) : bool :=
  f64_ge (utilization (bt_budget t)) (f64_mul (bt_warning_threshold t) (usize_as_f64 100)).

Definition threshold_critical (t : BudgetTracker) : bool :=
  f64_ge (utilization (bt_budget t)) (f64_mul (bt_critical_threshold t) (usize_as_f64 100)).

Definition set_thresholds (t : BudgetTracker) (warning critical : f64) : BudgetTracker :=
  {| bt_budget := bt_budget t; bt_warning_threshold := warning;
     bt_critical_threshold := critical |}.

(** ** The policy ([policy.rs]) *)

Inductive MetabolicAction : Type :=
| Normal
| ReduceConcurrency (max_parallel : Z)
| SwitchModel (preferred_model : string)
| EmergencyThrottle.

Definition evaluate (t : BudgetTracker) : MetabolicAction :=
  if threshold_critical t then EmergencyThrottle
  else if threshold_warning t then ReduceConcurrency 2
  else Normal.

(** ** Hunger ([hunger.rs]) *)

Inductive DegradationLevel : Type := LevelNone | Mild | Moderate | Severe | Critical.

#[export] Instance DegradationLevel_eq_dec : EqDecision DegradationLevel.
Proof. solve_decision. Defined.

(** The derived order. *)
Definition level_rank (d : DegradationLevel) : nat :=
  match d with LevelNone => 0 | Mild => 1 | Moderate => 2 | Severe => 3 | Critical => 4 end.

Definition level_multiplier (d : DegradationLevel) : f64 :=
  match d with
  | LevelNone => f64_literal 1 1
  | Mild => f64_literal 9 10
  | Moderate => f64_literal 7 10
  | Severe => f64_literal 5 10
  | Critical => f64_literal 3 10
  end.

Definition f64_lt (a b : f64) : bool := SFltb a b.
Definition f64_add : f64 -> f64 -> f64 := SFadd 53 1024.
Definition f64_sub : f64 -> f64 -> f64 := SFsub 53 1024.

Definition is_nan (a : f64) : bool := match a with S754_nan => true | _ => false end.

(** [f64::max] and [f64::min] give the other argument when one is not a number. *)
Definition f64_max (a b : f64) : f64 :=
  if is_nan a then b else if is_nan b then a else if f64_lt a b then b else a.
Definition f64_min (a b : f64) : f64 :=
  if is_nan a then b else if is_nan b then a else if f64_lt b a then b else a.

Definition from_hunger (hunger : f64) : DegradationLevel :=
  if f64_lt hunger (f64_literal 2 10) then LevelNone
  else if f64_lt hunger (f64_literal 4 10) then Mild
  else if f64_lt hunger (f64_literal 6 10) then Moderate
  else if f64_lt hunger (f64_literal 8 10) then Severe
  else Critical.

Record HungerState : Type := {
  hs_hunger_level : f64;
  hs_last_fed : Z;
  hs_degradation : DegradationLevel
}.

Definition hunger_new (now : Z) : HungerState :=
  {| hs_hunger_level := usize_as_f64 0; hs_last_fed := now; hs_degradation := LevelNone |}.

Definition feed (s : HungerState) (now : Z) (amount : f64) : HungerState :=
  let level := f64_max (f64_sub (hs_hunger_level s) amount) (usize_as_f64 0) in
  {| hs_hunger_level := level; hs_last_fed := now; hs_degradation := from_hunger level |}.

Definition starve (s : HungerState) (amount : f64) : HungerState :=
  let level := f64_min (f64_add (hs_hunger_level s) amount) (usize_as_f64 1) in
  {| hs_hunger_level := level; hs_last_fed := hs_last_fed s; hs_degradation := from_hunger level |}.

Definition time_since_fed (s : HungerState) (now : Z) : Z := now - hs_last_fed s.

Definition is_critical (s : HungerState) : bool := bool_decide (hs_degradation s = Critical).

Record HungerDegradation : Type := { hd_state : HungerState; hd_decay_rate : f64 }.

Definition degradation_new (now : Z) (decay_rate : f64) : HungerDegradation :=
  {| hd_state := hunger_new now; hd_decay_rate := decay_rate |}.

(** [num_seconds] drops the fraction of a second. *)
Definition update (d : HungerDegradation) (now : Z) : HungerDegradation :=
  let elapsed := usize_as_f64 (Z.quot (time_since_fed (hd_state d) now) 1000000000) in
  {| hd_state := starve (hd_state d) (f64_mul (hd_decay_rate d) elapsed);
     hd_decay_rate := hd_decay_rate d |}.

Definition degradation_feed (d : HungerDegradation) (now : Z) (amount : f64) : HungerDegradation :=
  {| hd_state := feed (hd_state d) now amount; hd_decay_rate := hd_decay_rate d |}.

Definition performance_multiplier (d : HungerDegradation) : f64 :=
  level_multiplier (hs_degradation (hd_state d)).

Definition should_warn (d : HungerDegradation) : bool :=
  bool_decide (level_rank Moderate <= level_rank (hs_degradation (hd_state d)))%nat.

(** ** Pain ([pain.rs]) *)

Inductive PainSignal : Type :=
| TokenStarvation
| MemoryPressure
| ContextOverflow
| RepeatedFailure
| TimeoutExceeded
| Custom (name : string).

Record PainThreshold : Type := {
  pt_signal_type : PainSignal;
  pt_threshold : f64;
  pt_current_level : f64;
  pt_triggered : bool
}.

Definition threshold_new (signal : PainSignal) (threshold : f64) : PainThreshold :=
  {| pt_signal_type := signal; pt_threshold := threshold; pt_current_level := usize_as_f64 0;
     pt_triggered := false |}.

Definition threshold_update (t : PainThreshold) (level : f64) : PainThreshold * bool :=
  let triggered := f64_ge level (pt_threshold t) in
  ({| pt_signal_type := pt_signal_type t; pt_threshold := pt_threshold t;
      pt_current_level := level; pt_triggered := triggered |}, negb (pt_triggered t) && triggered).

Definition threshold_reset (t : PainThreshold) : PainThreshold :=
  {| pt_signal_type := pt_signal_type t; pt_threshold := pt_threshold t;
     pt_current_level := usize_as_f64 0; pt_triggered := false |}.

Definition f64_eq (a b : f64) : bool := SFeqb a b.

Definition severity (t : PainThreshold) : f64 :=
  if f64_eq (pt_threshold t) (usize_as_f64 0) then usize_as_f64 0
  else f64_min (f64_div (pt_current_level t) (pt_threshold t)) (usize_as_f64 2).

(** [PainReceptor] *)
Abbreviation PainReceptor := (gmap string PainThreshold) (only parsing).

(** [MetabolicError::PainThresholdExceeded], the variant that the receptors raise. *)
Inductive MetabolicError : Type := PainThresholdExceeded (text : string).

Definition receptor_register (p : PainReceptor) (id : string) (t : PainThreshold) : PainReceptor :=
  <[id := t]> p.

Section Receptors.
Context (debug_signal : PainSignal -> string) (two_decimals : f64 -> string).

Definition signal (p : PainReceptor) (id : string) (level : f64)
  : PainReceptor * result MetabolicError bool :=
  match p !! id with
  | None => (p, Err (PainThresholdExceeded ("Unknown pain receptor: " +:+ id)))
  | Some t =>
      let '(t', just_triggered) := threshold_update t level in
      (<[id := t']> p,
       if just_triggered then
         Err (PainThresholdExceeded (debug_signal (pt_signal_type t') +:+ " threshold exceeded: "
                +:+ two_decimals level +:+ " >= " +:+ two_decimals (pt_threshold t')))
       else Ok (pt_triggered t'))
  end.
End Receptors.

Definition receptor_reset (p : PainReceptor) (id : string) : PainReceptor :=
  alter threshold_reset id p.

Definition reset_all (p : PainReceptor) : PainReceptor := threshold_reset <$> p.

Definition active_signals (p : PainReceptor) : list PainThreshold :=
  filter (fun t => pt_triggered t = true) (map snd (map_to_list p)).

Definition receptor_count (p : PainReceptor) : nat := size p.

(** * Theorems on budgets, hunger and pain *)

(** ** Budgets *)

Inductive BudgetCall : Type :=
| CallConsume (amount : Z)
| CallReserve (amount : Z)
| CallRelease (amount : Z)
| CallReset.

Definition call_u64 (c : BudgetCall) : Prop :=
  match c with
  | CallConsume a | CallReserve a | CallRelease a => 0 <= a <= u64_max
  | CallReset => True
  end.

Definition answer : Type := result BudgetExceededError unit.

Definition call (t : BudgetTracker) (c : BudgetCall) : BudgetTracker * answer :=
  match c with
  | CallConsume a => consume t a
  | CallReserve a => reserve t a
  | CallRelease a => (release_reservation t a, Ok tt)
  | CallReset => (reset t, Ok tt)
  end.

Fixpoint calls (t : BudgetTracker) (l : list BudgetCall) : BudgetTracker * list answer :=
  match l with
  | [] => (t, [])
  | c :: l' => let '(t1, r) := call t c in let '(t2, rs) := calls t1 l' in (t2, r :: rs)
  end.

(** The account in unbounded integers: what was used and what is reserved. *)
Definition account_step (total : Z) (c : BudgetCall) (ur : Z * Z) : (Z * Z) * answer :=
  let '(u, r) := ur in
  let refused a := Err {| be_requested := a; be_available := total - u - r; be_total := total |} in
  match c with
  | CallConsume a => if u + r + a <=? total then ((u + a, r), Ok tt) else (ur, refused a)
  | CallReserve a => if u + r + a <=? total then ((u, r + a), Ok tt) else (ur, refused a)
  | CallRelease a => ((u, Z.max 0 (r - a)), Ok tt)
  | CallReset => ((0, 0), Ok tt)
  end.

Fixpoint account (total : Z) (l : list BudgetCall) (ur : Z * Z) : (Z * Z) * list answer :=
  match l with
  | [] => (ur, [])
  | c :: l' =>
      let '(ur1, r) := account_step total c ur in
      let '(ur2, rs) := account total l' ur1 in (ur2, r :: rs)
  end.

(** What the callers were granted since the last reset. *)
Fixpoint granted (before : Z) (l : list BudgetCall) (rs : list answer) : Z :=
  match l, rs with
  | CallConsume a :: l', Ok _ :: rs' => granted (before + a) l' rs'
  | CallReset :: l', _ :: rs' => granted 0 l' rs'
  | _ :: l', _ :: rs' => granted before l' rs'
  | _, _ => before
  end.

(** The tracker has the account's numbers, which fit. *)
Definition keeps (total : Z) (ur : Z * Z) (t : BudgetTracker) : Prop :=
  bt_budget t = {| tb_total := total; tb_used := ur.1; tb_reserved := ur.2 |} /\
  0 <= ur.1 /\ 0 <= ur.2 /\ ur.1 + ur.2 <= total /\ total <= u64_max.

Lemma u64_add_exact a b : 0 <= a + b <= u64_max -> u64_add a b = a + b.
Proof. unfold u64_add, u64_max. intros. apply Z.mod_small. lia. Qed.

Lemma keeps_remaining total ur t :
  keeps total ur t -> remaining (bt_budget t) = total - ur.1 - ur.2.
Proof.
  intros (-> & ? & ? & ? & ?). unfold remaining, u64_saturating_sub. cbn.
  rewrite u64_add_exact by lia. lia.
Qed.

Lemma keeps_afford total ur t a :
  keeps total ur t -> can_afford (bt_budget t) a = (ur.1 + ur.2 + a <=? total).
Proof.
  intros Hk. unfold can_afford. rewrite (keeps_remaining _ _ _ Hk). apply eq_true_iff_eq.
  rewrite bool_decide_eq_true, Z.leb_le. lia.
Qed.

Lemma call_step total ur t c t' r :
  keeps total ur t -> call_u64 c -> call t c = (t', r) ->
  exists ur', account_step total c ur = (ur', r) /\ keeps total ur' t'.
Proof.
  intros Hk Hc Hs. pose proof (keeps_remaining _ _ _ Hk) as Hrem.
  pose proof (fun a => keeps_afford _ _ _ a Hk) as Ha.
  destruct Hk as (Hb & Hu & Hr & Hsum & Hmax), ur as [u v]. cbn [fst snd] in *.
  destruct c as [a|a|a|]; cbn [call account_step call_u64] in *.
  1, 2: unfold consume, reserve in Hs; rewrite Ha in Hs;
    destruct (u + v + a <=? total) eqn:E; cbn [negb] in Hs; injection Hs as <- <-;
    [|unfold exceeded; rewrite Hrem, Hb; by exists (u, v)];
    apply Z.leb_le in E; eexists; split; [reflexivity|]; rewrite Hb;
    unfold keeps; cbn; rewrite u64_add_exact by lia; lia || (split; [done|lia]).
  - injection Hs as <- <-. eexists. split; [done|]. unfold keeps, release_reservation. rewrite Hb.
    cbn. unfold u64_saturating_sub. split; [done|lia].
  - injection Hs as <- <-. eexists. split; [done|]. unfold keeps, reset. rewrite Hb. cbn.
    split; [done|lia].
Qed.

Lemma account_granted total c ur ur' r :
  account_step total c ur = (ur', r) -> ur'.1 = granted ur.1 [c] [r].
Proof. destruct ur as [u v], c; cbn; try (destruct (_ <=? _)); by intros [= <- <-]. Qed.

Lemma granted_cons before c l r rs :
  granted before (c :: l) (r :: rs) = granted (granted before [c] [r]) l rs.
Proof. by destruct c, r. Qed.

(** The shared budget: whatever calls arrive in whatever order, the answers and the numbers are
    those of an account in unbounded integers, so no operation wraps or saturates; what was
    granted since the last reset and what is reserved never exceed the total, and the tokens
    that remain are exactly the rest. *)
Theorem budget_never_overdrawn total l t rs :
  0 <= total <= u64_max -> Forall call_u64 l -> calls (tracker_new total) l = (t, rs) ->
  exists r, account total l (0, 0) = ((granted 0 l rs, r), rs) /\
    tb_used (bt_budget t) = granted 0 l rs /\ tb_reserved (bt_budget t) = r /\
    0 <= granted 0 l rs /\ 0 <= r /\ granted 0 l rs + r <= total /\
    remaining (bt_budget t) = total - granted 0 l rs - r.
Proof.
  intros Ht Hl Hc.
  assert (Hgen : forall ur t0 t rs, keeps total ur t0 -> calls t0 l = (t, rs) ->
    exists r, account total l ur = ((granted ur.1 l rs, r), rs) /\ keeps total (granted ur.1 l rs, r) t).
  { clear Hc t rs. induction Hl as [|c l Hc _ IH]; intros ur t0 t rs Hk Hr.
    - injection Hr as <- <-. exists ur.2. by destruct ur.
    - cbn in Hr. destruct (call t0 c) as [t1 r1] eqn:E1, (calls t1 l) as [t2 rs2] eqn:E2.
      injection Hr as <- <-. destruct (call_step _ _ _ _ _ _ Hk Hc E1) as (ur1 & Ea & Hk1).
      destruct (IH _ _ _ _ Hk1 E2) as (r & Eb & Hk2). pose proof (account_granted _ _ _ _ _ Ea) as Hg.
      rewrite granted_cons, <- Hg. exists r. split; [|done]. cbn. by rewrite Ea, Eb. }
  destruct (Hgen (0, 0) (tracker_new total) t rs) as (r & Ea & Hk); [|done|].
  { unfold keeps. cbn. split; [done|lia]. }
  pose proof (keeps_remaining _ _ _ Hk) as Hrem. destruct Hk as (Hb & ? & ? & ? & ?).
  cbn [fst snd] in *. exists r. rewrite Hrem, Hb. split_and!; done || lia.
Qed.

Definition sample_calls : list BudgetCall :=
  [CallReserve 300; CallConsume 600; CallConsume 200; CallRelease 300; CallConsume 200].

Lemma budget_never_overdrawn_witness :
  let '(t, rs) := calls (tracker_new 1000) sample_calls in
  tb_used (bt_budget t) = 800 /\ remaining (bt_budget t) = 200.
Proof.
  destruct (calls _ _) as [t rs] eqn:E.
  assert (Hrs : rs = [Ok tt; Ok tt; Err {| be_requested := 200; be_available := 100; be_total := 1000 |};
                      Ok tt; Ok tt]).
  { change rs with (t, rs).2. rewrite <- E. vm_compute. reflexivity. }
  destruct (budget_never_overdrawn 1000 sample_calls t rs) as (r & Ha & Hu & Hr & _ & _ & _ & Hrem); [| |exact E|].
  - unfold u64_max. lia.
  - repeat constructor; unfold u64_max; lia.
  - rewrite Hu, Hrem. subst rs. injection Ha as Ha. vm_compute in Ha. subst r. split; reflexivity.
Defined.

(** A budget that is reserved as a whole, or that is zero, leaves nothing to consume and still
    counts as unused. *)
Example exhausted_budget_is_normal :
  let t := (reserve (tracker_new 1000) 1000).1 in
  remaining (bt_budget t) = 0 /\ evaluate t = Normal /\
  remaining (bt_budget (tracker_new 0)) = 0 /\ evaluate (tracker_new 0) = Normal.
Proof. vm_compute. done. Qed.

(** A caller cannot consume what it reserved: it has to give the reservation back first. *)
Example reservation_blocks_its_owner :
  let t := (reserve (tracker_new 1000) 600).1 in
  is_ok (consume t 600).2 = false /\ is_ok (consume (release_reservation t 600) 600).2 = true.
Proof. vm_compute. done. Qed.

Example policy_thresholds :
  let at_ n := evaluate (consume (tracker_new 1000) n).1 in
  at_ 799 = Normal /\ at_ 800 = ReduceConcurrency 2 /\ at_ 949 = ReduceConcurrency 2 /\
  at_ 950 = EmergencyThrottle.
Proof. vm_compute. done. Qed.

(** Just below a threshold the quotient can round up to it. *)
Example threshold_rounds :
  let t := (consume (tracker_new 10000000000000000000) 7999999999999999999).1 in
  tb_used (bt_budget t) * 10 < tb_total (bt_budget t) * 8 /\ evaluate t = ReduceConcurrency 2.
Proof. vm_compute. done. Qed.

(** ** Hunger *)

Lemma SFcompare_swap a b : SFcompare b a = CompOpp <$> SFcompare a b.
Proof.
  destruct a as [[]|[]| |[] m e], b as [[]|[]| |[] n f]; try done; cbn;
    rewrite (Z.compare_antisym e f); destruct (e ?= f); cbn; try done;
    rewrite ?CompOpp_involutive; f_equal;
    rewrite ?Pos.compare_cont_antisym; cbn; by rewrite ?CompOpp_involutive.
Qed.

Lemma not_lt_le a b : is_nan a = false -> is_nan b = false -> f64_lt a b = false -> f64_ge a b = true.
Proof.
  unfold f64_lt, f64_ge, SFltb, SFleb. intros Ha Hb. rewrite (SFcompare_swap a b).
  destruct (SFcompare a b) as [[]|] eqn:E; cbn; try done.
  intros _. exfalso. clear -Ha Hb E. destruct a as [[]|[]| |[] m e], b as [[]|[]| |[] n f]; cbn in E;
    try done; by destruct (e ?= f).
Qed.

Lemma f64_max_ge a b :
  is_nan b = false -> f64_ge b b = true ->
  f64_ge (f64_max a b) b = true /\ is_nan (f64_max a b) = false.
Proof.
  intros Hb Hbb. unfold f64_max. destruct (is_nan a) eqn:Ea; [done|]. rewrite Hb.
  destruct (f64_lt a b) eqn:E; [done|]. split; [by apply not_lt_le|done].
Qed.

Lemma f64_min_le a b :
  is_nan b = false -> f64_ge b b = true ->
  f64_ge b (f64_min a b) = true /\ is_nan (f64_min a b) = false.
Proof.
  intros Hb Hbb. unfold f64_min. destruct (is_nan a) eqn:Ea; [done|]. rewrite Hb.
  destruct (f64_lt b a) eqn:E; [done|]. split; [by apply not_lt_le|done].
Qed.

Inductive HungerCall : Type :=
| CallFeed (now : Z) (amount : f64)
| CallUpdate (now : Z).

Definition hunger_call (d : HungerDegradation) (c : HungerCall) : HungerDegradation :=
  match c with
  | CallFeed now amount => degradation_feed d now amount
  | CallUpdate now => update d now
  end.

(** Whatever amounts are fed, whatever the rate and the clock, infinite or not a number: the
    level is a number, the degradation is the one of the level, and the level is at least zero
    after a feeding and at most one after an update. *)
Theorem hunger_consistent now rate cs c :
  let d := foldl hunger_call (degradation_new now rate) (cs ++ [c]) in
  let level := hs_hunger_level (hd_state d) in
  is_nan level = false /\ hs_degradation (hd_state d) = from_hunger level /\
  match c with
  | CallFeed _ _ => f64_ge level (usize_as_f64 0) = true
  | CallUpdate _ => f64_ge (usize_as_f64 1) level = true
  end.
Proof.
  cbv zeta. rewrite foldl_app. cbn [foldl]. destruct c as [now' amount|now'].
  - destruct (f64_max_ge (f64_sub (hs_hunger_level (hd_state
      (foldl hunger_call (degradation_new now rate) cs))) amount) (usize_as_f64 0)) as [H1 H2];
      [done..|]. split; [exact H2|]. split; [reflexivity|exact H1].
  - set (d := foldl hunger_call (degradation_new now rate) cs).
    destruct (f64_min_le (f64_add (hs_hunger_level (hd_state d)) (f64_mul (hd_decay_rate d)
      (usize_as_f64 (Z.quot (time_since_fed (hd_state d) now') 1000000000)))) (usize_as_f64 1))
      as [H1 H2]; [done..|]. split; [exact H2|]. split; [reflexivity|exact H1].
Qed.

(** Ten seconds at a hundredth per second are a tenth; asking again at the same instant makes
    them two tenths. *)
Example update_counts_time_twice :
  let d0 := degradation_new 0 (f64_literal 1 100) in
  let d1 := update d0 10000000000 in
  let d2 := update d1 10000000000 in
  hs_hunger_level (hd_state d1) = f64_literal 1 10 /\
  hs_hunger_level (hd_state d2) = f64_literal 2 10 /\
  hs_degradation (hd_state d1) = LevelNone /\ hs_degradation (hd_state d2) = Mild.
Proof. vm_compute. done. Qed.

(** ** Pain *)

Section Receptors.
Context (debug_signal : PainSignal -> string) (two_decimals : f64 -> string).

Local Abbreviation signal := (signal debug_signal two_decimals).

Fixpoint signals (p : gmap string PainThreshold) (l : list (string * f64))
  : gmap string PainThreshold * list (result MetabolicError bool) :=
  match l with
  | [] => (p, [])
  | (id, level) :: l' =>
      let '(p1, r) := signal p id level in let '(p2, rs) := signals p1 l' in (p2, r :: rs)
  end.

(** The levels and the answers of one receptor. *)
Definition of_receptor {A} (id : string) (l : list (string * A)) : list A :=
  map snd (filter (fun x => x.1 = id) l).

(** The reference: for each level whether it crosses the threshold, and whether it is over. *)
Fixpoint crossings (threshold : f64) (over : bool) (levels : list f64) : list (bool * bool) :=
  match levels with
  | [] => []
  | level :: levels' =>
      let over' := f64_ge level threshold in
      (negb over && over', over') :: crossings threshold over' levels'
  end.

Definition reports (r : result MetabolicError bool) (x : bool * bool) : Prop :=
  match r with Err _ => x.1 = true | Ok over => x.1 = false /\ over = x.2 end.

Lemma of_receptor_cons {A} id x (a : A) l :
  of_receptor id ((x, a) :: l) = if bool_decide (x = id) then a :: of_receptor id l else of_receptor id l.
Proof. unfold of_receptor. rewrite filter_cons. cbn. by repeat case_decide || case_bool_decide. Qed.

(** The answers of a receptor, whatever other receptors are signalled in between: an error
    exactly for the levels that cross its threshold from below, and otherwise whether the level
    is over the threshold. *)
Theorem receptor_reports_crossings p l p' rs id t :
  p !! id = Some t -> signals p l = (p', rs) ->
  Forall2 reports (of_receptor id (zip (map fst l) rs))
    (crossings (pt_threshold t) (pt_triggered t) (of_receptor id l)).
Proof.
  revert p p' rs t. induction l as [|[x level] l IH]; intros p p' rs t Hp Hs; cbn in Hs.
  { injection Hs as <- <-. constructor. }
  destruct (signal p x level) as [p1 r] eqn:E1, (signals p1 l) as [p2 rs2] eqn:E2. injection Hs as <- <-.
  cbn [map zip zip_with fst]. rewrite !of_receptor_cons. unfold Metabolic.signal in E1. case_bool_decide as Hx.
  - subst x. rewrite Hp in E1. cbn [threshold_update] in E1. unfold threshold_update in E1.
    injection E1 as <- <-. cbn [crossings]. constructor.
    + cbn. by destruct (negb (pt_triggered t) && f64_ge level (pt_threshold t)) eqn:E.
    + by eapply (IH _ _ _ _ (lookup_insert_eq _ _ _) E2).
  - eapply IH; [|exact E2]. destruct (p !! x) as [u|]; [|by injection E1 as <- <-].
    unfold threshold_update in E1. injection E1 as <- <-. by rewrite lookup_insert_ne.
Qed.

End Receptors.

Lemma receptor_reports_crossings_witness :
  let level := fun n => f64_literal n 10 in
  let p := receptor_register (receptor_register ∅ "a" (threshold_new TokenStarvation (level 8)))
             "b" (threshold_new MemoryPressure (level 5)) in
  let l := [("a", level 9); ("b", level 1); ("a", level 9); ("c", level 9); ("a", level 2); ("a", level 8)] in
  let '(p', rs) := signals (fun _ => "") (fun _ => "") p l in
  Forall2 reports (of_receptor "a" (zip (map fst l) rs))
    [(true, true); (false, true); (false, false); (true, true)].
Proof.
  intros level p l. destruct (signals _ _ p l) as [p' rs] eqn:E.
  exact (receptor_reports_crossings (fun _ => "") (fun _ => "") p l p' rs "a"
    (threshold_new TokenStarvation (level 8)) eq_refl E).
Defined.
