(* ===== verification/Enclave.v ===== *)
(** * The software enclave ([crates/zaion-enclave/src])

    Identities, sealed secrets, attestation reports, the audited context and the store of sealed
    secrets.  The cipher (aes-gcm) is a parameter, as are the parser and the printer of the file
    of secrets and the texts of errors; the nonce and the clock are arguments.  An object with a
    member name twice, and the array that serde also reads as a struct, are not considered.

    Shown: what is sealed is unsealed; what is stored is found until it is
    deleted or replaced, and nothing else changes; a report of an identity verifies.  Defects:
    sealed data opens with the public key alone, as the key of the cipher is derived from it; a
    nonce of another length than the cipher's makes unsealing panic; the type of enclave is not
    signed and two reports with different fields can share a signature; a file of secrets that
    does not parse is overwritten. *)

From stdpp Require Import prelude gmap strings list.
From S2P Require Import Prelude.
From S2P Require Import Json.
From S2P Require Import Env.
From S2P Require Import Text.
From S2P Require Import FileSystem.
From S2P Require Import Concrete.
From S2P Require Import Database.
From S2P Require Import Ledger.
From S2P Require Import ToolResults.
Local Open Scope res_scope.
Local Open Scope Z_scope.

Inductive EnclaveError : Type :=
| SealFailed (text : string)
| UnsealFailed
| AttestationInvalid (text : string)
| EnclaveIo (text : string)
| Serialization (text : string).

Record SealPayload : Type := {
  sp_label : string;
  sp_data : Value;
  sp_principal_id : string;
  sp_sealed_at : string
}.

Record SealedSecret : Type := {
  ss_nonce_hex : string;
  ss_ciphertext_hex : string;
  ss_label : string;
  ss_enclave_id : string
}.

(** ** The derived codecs *)

Definition payload_value (p : SealPayload) : Value :=
  VObject [("label", VString (sp_label p)); ("data", sp_data p);
           ("principal_id", VString (sp_principal_id p)); ("sealed_at", VString (sp_sealed_at p))].

Definition string_member (k : string) (v : Value) : option string := value_get k v ≫= as_str.

Definition payload_of_value (v : Value) : option SealPayload :=
  label ← string_member "label" v; data ← value_get "data" v;
  principal ← string_member "principal_id" v; sealed_at ← string_member "sealed_at" v;
  Some {| sp_label := label; sp_data := data; sp_principal_id := principal;
          sp_sealed_at := sealed_at |}.

Definition secret_value (s : SealedSecret) : Value :=
  VObject [("nonce_hex", VString (ss_nonce_hex s)); ("ciphertext_hex", VString (ss_ciphertext_hex s));
           ("label", VString (ss_label s)); ("enclave_id", VString (ss_enclave_id s))].

Definition secret_of_value (v : Value) : option SealedSecret :=
  nonce ← string_member "nonce_hex" v; ciphertext ← string_member "ciphertext_hex" v;
  label ← string_member "label" v; enclave ← string_member "enclave_id" v;
  Some {| ss_nonce_hex := nonce; ss_ciphertext_hex := ciphertext; ss_label := label;
          ss_enclave_id := enclave |}.

Definition secrets_value (l : list SealedSecret) : Value := VArray (map secret_value l).

Definition secrets_of_value (v : Value) : option (list SealedSecret) :=
  match v with VArray l => mapM secret_of_value l | _ => None end.

Section Enclave.
Context `{Env}.

(** ** Identities ([identity.rs]) *)

Record EnclaveIdentity : Type := { ei_keypair : ZaionKeypair; ei_sealing_key : string }.

Definition derive_sealing_key (keypair : ZaionKeypair) : string :=
  sha256 ("zaion-enclave-sealing-key-v1:" +:+ verifying_key keypair).

Definition from_keypair (keypair : ZaionKeypair) : EnclaveIdentity :=
  {| ei_keypair := keypair; ei_sealing_key := derive_sealing_key keypair |}.

Definition ei_principal_id (i : EnclaveIdentity) : string := principal_id (ei_keypair i).

Definition ei_enclave_id (i : EnclaveIdentity) : string :=
  hex_encode (str_prefix 8 (ei_sealing_key i)).

(** ** Sealed secrets ([sealed.rs]) *)

Section Seal.
(** AES-256-GCM: key, nonce and text. *)
Context (encrypt : string -> string -> string -> result string string).
Context (decrypt : string -> string -> string -> option string).

Definition seal (identity : EnclaveIdentity) (nonce now label : string) (data : Value)
  : result EnclaveError SealedSecret :=
  let payload := {| sp_label := label; sp_data := data;
                    sp_principal_id := ei_principal_id identity; sp_sealed_at := now |} in
  match encrypt (ei_sealing_key identity) nonce (json_to_string (payload_value payload)) with
  | Err e => Err (SealFailed e)
  | Ok ciphertext =>
      Ok {| ss_nonce_hex := hex_encode nonce; ss_ciphertext_hex := hex_encode ciphertext;
            ss_label := label; ss_enclave_id := ei_enclave_id identity |}
  end.

(** The panic of [Nonce::from_slice] on another length than 12 bytes is [None]. *)
Definition unseal (self : SealedSecret) (identity : EnclaveIdentity)
  : option (result EnclaveError SealPayload) :=
  if negb (bool_decide (ss_enclave_id self = ei_enclave_id identity)) then Some (Err UnsealFailed)
  else
    match hex_decode (ss_nonce_hex self) with
    | None => Some (Err UnsealFailed)
    | Some nonce =>
        match hex_decode (ss_ciphertext_hex self) with
        | None => Some (Err UnsealFailed)
        | Some ciphertext =>
            if negb (bool_decide (String.length nonce = 12%nat)) then None
            else Some (let? plaintext := ok_or (decrypt (ei_sealing_key identity) nonce ciphertext)
                                           UnsealFailed in
                       ok_or (json_from_str plaintext ≫= payload_of_value) UnsealFailed)
        end
    end.

End Seal.

(** ** Attestation ([attestation.rs]) *)

Record AttestationReport : Type := {
  ar_enclave_id : string;
  ar_principal_id : string;
  ar_measurement_hex : string;
  ar_user_data : string;
  ar_generated_at : string;
  ar_signature_hex : string;
  ar_tee_type : string
}.

Definition canonical_body (enclave_id principal measurement_hex user_data generated_at : string)
  : string :=
  enclave_id +:+ "|" +:+ principal +:+ "|" +:+ measurement_hex +:+ "|" +:+ user_data +:+ "|"
  +:+ generated_at.

Definition compute_measurement (software_version : string) : string :=
  sha256 ("zaion-enclave-measurement-v1:" +:+ software_version).

Definition generate (identity : EnclaveIdentity) (now user_data software_version : string)
  : AttestationReport :=
  let measurement_hex := hex_encode (compute_measurement software_version) in
  let body := canonical_body (ei_enclave_id identity) (ei_principal_id identity) measurement_hex
                user_data now in
  {| ar_enclave_id := ei_enclave_id identity; ar_principal_id := ei_principal_id identity;
     ar_measurement_hex := measurement_hex; ar_user_data := user_data; ar_generated_at := now;
     ar_signature_hex := hex_encode (sign (ei_keypair identity) body);
     ar_tee_type := "software-simulation" |}.

(** [AttestationVerifier::verify] *)
Definition attestation_verify (crypto_text : CryptoError -> string) (report : AttestationReport)
    (identity : EnclaveIdentity) : result EnclaveError unit :=
  guard? bool_decide (ar_enclave_id report = ei_enclave_id identity)
    else AttestationInvalid "enclave_id mismatch" in
  let body := canonical_body (ar_enclave_id report) (ar_principal_id report)
                (ar_measurement_hex report) (ar_user_data report) (ar_generated_at report) in
  let? sig := ok_or (hex_decode (ar_signature_hex report))
                (AttestationInvalid "invalid signature hex") in
  match verify_signature (verifying_key (ei_keypair identity)) body sig with
  | Ok _ => Ok tt
  | Err e => Err (AttestationInvalid ("signature failed: " +:+ crypto_text e))
  end.

(** ** The audited context ([context.rs]) *)

Record SecureTaskResult : Type := {
  st_task_id : string;
  st_output : Value;
  st_audit_log : list string;
  st_executed_in_enclave : bool
}.

Record SecureContext : Type := { sx_identity : EnclaveIdentity; sx_audit_log : list string }.

Definition context_new (identity : EnclaveIdentity) : SecureContext :=
  {| sx_identity := identity; sx_audit_log := [] |}.

Definition execute (c : SecureContext) (started_at completed_at task_id : string) (input : Value)
    (f : Value -> Value) : SecureContext * SecureTaskResult :=
  let log := sx_audit_log c ++ ["[" +:+ started_at +:+ "] task_started: " +:+ task_id;
                                "[" +:+ completed_at +:+ "] task_completed: " +:+ task_id] in
  ({| sx_identity := sx_identity c; sx_audit_log := log |},
   {| st_task_id := task_id; st_output := f input; st_audit_log := log;
      st_executed_in_enclave := true |}).

End Enclave.

(** ** The store ([store.rs]) *)

Section Store.
Context (err_text : string -> string) (json_error : string -> string).
Context (parse : string -> option Value) (pretty : Value -> string).

Definition secrets_path (dir : string) : string := path_join dir "enclave_secrets.json".

Definition load_all_secrets (dir : string) (d : Disk) : result EnclaveError (list SealedSecret) :=
  let path := secrets_path dir in
  if negb (path_exists d path) then Ok []
  else
    let? json := ok_or (read_to_string d path) (EnclaveIo (err_text "read")) in
    ok_or (parse json ≫= secrets_of_value) (Serialization (json_error json)).

Definition unwrap_or_default (r : result EnclaveError (list SealedSecret)) : list SealedSecret :=
  match r with Ok l => l | Err _ => [] end.

Definition write_secrets (dir : string) (fl : Faults) (d : Disk) (l : list SealedSecret)
  : Disk * result EnclaveError unit :=
  match write_file err_text fl d (secrets_path dir) (pretty (secrets_value l)) with
  | (d, Ok _) => (d, Ok tt)
  | (d, Err e) => (d, Err (EnclaveIo e))
  end.

Definition without (label : string) (l : list SealedSecret) : list SealedSecret :=
  filter (fun s => ss_label s <> label) l.

Definition save_secret (dir : string) (fl : Faults) (d : Disk) (secret : SealedSecret)
  : Disk * result EnclaveError unit :=
  match create_dir_all err_text fl d dir with
  | (d, Err e) => (d, Err (EnclaveIo e))
  | (d, Ok _) =>
      write_secrets dir fl d
        (without (ss_label secret) (unwrap_or_default (load_all_secrets dir d)) ++ [secret])
  end.

Definition load_secret (dir : string) (d : Disk) (label : string) : option SealedSecret :=
  match load_all_secrets dir d with
  | Ok l => List.find (fun s => bool_decide (ss_label s = label)) l
  | Err _ => None
  end.

Definition delete_secret (dir : string) (fl : Faults) (d : Disk) (label : string)
  : Disk * result EnclaveError unit :=
  write_secrets dir fl d (without label (unwrap_or_default (load_all_secrets dir d))).

End Store.

(** * Theorems on the software enclave *)

(** ** Sealing *)

Section Seal.
Context `{EnvLaws} (encrypt : string -> string -> string -> result string string).
Context (decrypt : string -> string -> string -> option string).
Context (decrypt_encrypt : forall k n p c, encrypt k n p = Ok c -> decrypt k n c = Some p).

(** What is sealed by an identity is unsealed by everyone who knows its public key: the key of
    the cipher is a digest of the public key, and the keypair of the identity that unseals is
    not used, so that any other does. *)
Theorem public_key_unseals keypair nonce now label data s other :
  String.length nonce = 12%nat -> exact_json data = true -> (json_depth data < max_json_depth)%nat ->
  seal encrypt (from_keypair keypair) nonce now label data = Ok s ->
  unseal decrypt s {| ei_keypair := other;
                      ei_sealing_key := sha256 ("zaion-enclave-sealing-key-v1:" +:+ verifying_key keypair) |}
  = Some (Ok {| sp_label := label; sp_data := data; sp_principal_id := principal_id keypair;
                sp_sealed_at := now |}).
Proof.
  intros Hn Hd Hdep Hs. unfold seal in Hs. cbv zeta in Hs.
  destruct (encrypt _ _ _) as [c|] eqn:Ec; [|done]. injection Hs as <-.
  unfold unseal. cbn [ss_enclave_id ss_nonce_hex ss_ciphertext_hex ei_sealing_key].
  rewrite bool_decide_eq_true_2 by done. cbn [negb]. rewrite !hex_roundtrip.
  rewrite bool_decide_eq_true_2 by done. cbn [negb].
  change (sha256 ("zaion-enclave-sealing-key-v1:" +:+ verifying_key keypair))
    with (ei_sealing_key (from_keypair keypair)).
  rewrite (decrypt_encrypt _ _ _ _ Ec). cbn [ok_or].
  set (p := {| sp_label := label; sp_data := data; sp_principal_id := _; sp_sealed_at := now |}).
  rewrite json_exact_roundtrip; [by destruct p| |].
  - subst p. unfold payload_value. cbn [exact_json map fst snd forallb sp_data]. rewrite Hd.
    vm_compute. reflexivity.
  - subst p. unfold payload_value. cbn [json_depth foldr snd sp_data]. unfold max_json_depth in *. lia.
Qed.

End Seal.

(** ** Reports *)

Section Reports.
Context `{EnvLaws} (crypto_text : CryptoError -> string).

Lemma signed_body_verifies keypair r :
  ar_enclave_id r = ei_enclave_id (from_keypair keypair) ->
  ar_signature_hex r = hex_encode (sign keypair
    (canonical_body (ar_enclave_id r) (ar_principal_id r) (ar_measurement_hex r) (ar_user_data r)
       (ar_generated_at r))) ->
  attestation_verify crypto_text r (from_keypair keypair) = Ok tt.
Proof.
  intros He Hsig. unfold attestation_verify. rewrite bool_decide_eq_true_2 by done. cbv beta iota zeta.
  rewrite Hsig, hex_roundtrip. cbn [ok_or]. unfold verify_signature, sign. cbn [ei_keypair from_keypair].
  by rewrite verifying_key_length, verifying_key_ok, sign_length, sign_verifies.
Qed.

(** A report verifies, and so does one with another type of enclave, and one in which a part of
    the user data has become the time. *)
Theorem report_signature_ambiguous keypair now a b version tee :
  let r := generate (from_keypair keypair) now (a +:+ "|" +:+ b) version in
  attestation_verify crypto_text r (from_keypair keypair) = Ok tt /\
  attestation_verify crypto_text
    {| ar_enclave_id := ar_enclave_id r; ar_principal_id := ar_principal_id r;
       ar_measurement_hex := ar_measurement_hex r; ar_user_data := a;
       ar_generated_at := b +:+ "|" +:+ now; ar_signature_hex := ar_signature_hex r;
       ar_tee_type := tee |} (from_keypair keypair) = Ok tt.
Proof.
  split; apply signed_body_verifies; try reflexivity. unfold generate, canonical_body. cbn.
  by rewrite <- !string_app_assoc.
Qed.

End Reports.

(** ** The store *)

Section Store.
Context (err_text : string -> string) (json_error : string -> string).
Context (parse : string -> option Value) (pretty : Value -> string).
Context (parse_pretty : forall v, exact_json v = true -> (json_depth v <= max_json_depth)%nat ->
           parse (pretty v) = Some v).
Context (pretty_utf8 : forall v, str_utf8 (pretty v) = true).

Local Abbreviation load_all_secrets := (load_all_secrets err_text json_error parse).
Local Abbreviation load_secret := (load_secret err_text json_error parse).

Inductive StoreOp : Type := Save (secret : SealedSecret) | Delete (label : string).

Definition store_op (dir : string) (fl : Faults) (d : Disk) (op : StoreOp)
  : Disk * result EnclaveError unit :=
  match op with
  | Save s => save_secret err_text json_error parse pretty dir fl d s
  | Delete label => delete_secret err_text json_error parse pretty dir fl d label
  end.

(** The meaning of an operation on a map from labels. *)
Definition map_op (op : StoreOp) (m : string -> option SealedSecret) (label : string)
  : option SealedSecret :=
  match op with
  | Save s => if bool_decide (label = ss_label s) then Some s else m label
  | Delete l => if bool_decide (label = l) then None else m label
  end.

Lemma secrets_roundtrip l : secrets_of_value (secrets_value l) = Some l.
Proof.
  change (mapM secret_of_value (map secret_value l) = Some l). apply mapM_Some.
  induction l as [|s l IH]; constructor; [by destruct s|done].
Qed.

Lemma secrets_exact l :
  exact_json (secrets_value l) = true /\ (json_depth (secrets_value l) <= max_json_depth)%nat.
Proof.
  assert (Hl : forallb exact_json (map secret_value l) = true /\
               (foldr (fun v d => Nat.max (json_depth v) d) 0 (map secret_value l) <= 1)%nat).
  { induction l as [|s l [IH1 IH2]]; [split; [done|simpl; lia]|]. cbn [map forallb foldr].
    rewrite IH1. split; [vm_compute; reflexivity|]. cbn [json_depth secret_value foldr snd]. lia. }
  unfold secrets_value, max_json_depth. cbn [exact_json json_depth]. destruct Hl as [-> ?]. split; [done|lia].
Qed.

Lemma write_secrets_ok dir fl d l d' :
  write_secrets err_text pretty dir fl d l = (d', Ok tt) ->
  load_all_secrets dir d' = Ok l /\
  (forall p, p <> secrets_path dir -> files d' !! p = files d !! p).
Proof.
  unfold write_secrets, write_file. destruct (_ || _); [done|].
  destruct (write_fault fl) as [[? ?]|]; [done|]. intros [= <-]. cbn [files]. split.
  - unfold Enclave.load_all_secrets, path_exists, read_to_string. cbn [files dirs].
    rewrite lookup_insert_eq. cbn. rewrite pretty_utf8. cbn.
    destruct (secrets_exact l). rewrite parse_pretty by done. cbn [mbind option_bind].
    by rewrite secrets_roundtrip.
  - intros p Hp. by rewrite lookup_insert_ne.
Qed.

Lemma write_secrets_place dir fl d l d' :
  write_secrets err_text pretty dir fl d l = (d', Ok tt) -> secrets_path dir ∉ dirs d.
Proof.
  unfold write_secrets, write_file. intros Hw Hin.
  by rewrite (bool_decide_eq_true_2 _ Hin), orb_true_r in Hw.
Qed.

Lemma load_all_same dir d d1 :
  files d1 = files d -> dirs d ⊆ dirs d1 -> secrets_path dir ∉ dirs d1 ->
  load_all_secrets dir d1 = load_all_secrets dir d.
Proof.
  intros Hf Hd Hp. unfold Enclave.load_all_secrets, path_exists, read_to_string. rewrite Hf.
  rewrite !(bool_decide_eq_false_2 (secrets_path dir ∈ _)) by (done || by intros ?; apply Hp, Hd). done.
Qed.

Lemma find_without label l x :
  List.find (fun s => bool_decide (ss_label s = x)) (without label l)
  = if bool_decide (x = label) then None
    else List.find (fun s => bool_decide (ss_label s = x)) l.
Proof.
  unfold without. induction l as [|s l IH]; [by case_bool_decide|].
  destruct (decide (ss_label s = label)) as [Hs|Hs].
  - rewrite filter_cons_False by (by intros ?). rewrite IH. cbn [List.find].
    repeat case_bool_decide; congruence.
  - rewrite filter_cons_True by done. cbn [List.find]. rewrite IH. repeat case_bool_decide; congruence.
Qed.

Lemma find_snoc x l s :
  List.find (fun s => bool_decide (ss_label s = x)) (l ++ [s])
  = match List.find (fun s => bool_decide (ss_label s = x)) l with
    | Some y => Some y
    | None => if bool_decide (ss_label s = x) then Some s else None
    end.
Proof. induction l as [|y l IH]; [done|]. cbn. destruct (bool_decide (ss_label y = x)); [done|apply IH]. Qed.

(** One operation that succeeds on a store that can be read. *)
Lemma store_step dir fl d op d' l :
  load_all_secrets dir d = Ok l -> store_op dir fl d op = (d', Ok tt) ->
  (exists l', load_all_secrets dir d' = Ok l') /\
  (forall label, load_secret dir d' label = map_op op (load_secret dir d) label) /\
  (forall p, p <> secrets_path dir -> files d' !! p = files d !! p).
Proof.
  intros Hl Hs.
  assert (Hw : exists d1 l', write_secrets err_text pretty dir fl d1 l' = (d', Ok tt) /\
    files d1 = files d /\
    forall label, List.find (fun s => bool_decide (ss_label s = label)) l'
                  = map_op op (load_secret dir d) label).
  { unfold Enclave.load_secret. rewrite Hl. destruct op as [s|label]; cbn in Hs.
    - unfold save_secret in Hs. destruct (create_dir_all err_text fl d dir) as [d1 [u|e]] eqn:Ec; [|done].
      destruct (create_dir_all_files _ _ _ _ _ _ Ec) as [Hf Hd].
      assert (Hl1 : load_all_secrets dir d1 = Ok l).
      { rewrite (load_all_same dir d d1) by (done || by eapply write_secrets_place). done. }
      rewrite Hl1 in Hs. exists d1. eexists. split; [exact Hs|]. split; [done|]. intros x.
      rewrite find_snoc. cbn [unwrap_or_default map_op]. rewrite find_without.
      destruct (decide (x = ss_label s)) as [->|Hne].
      + by rewrite !bool_decide_eq_true_2.
      + rewrite (bool_decide_eq_false_2 (x = ss_label s)) by done. destruct (List.find _ l); [done|].
        by rewrite bool_decide_eq_false_2.
    - unfold delete_secret in Hs. rewrite Hl in Hs. exists d. eexists. split; [exact Hs|]. split; [done|].
      intros x. cbn [unwrap_or_default map_op]. by rewrite find_without. }
  destruct Hw as (d1 & l' & Hw & Hf & Hfind). apply write_secrets_ok in Hw as [Hl' Hfiles].
  split; [eauto|]. split.
  - intros label. unfold Enclave.load_secret at 1. rewrite Hl'. apply Hfind.
  - intros p Hp. by rewrite Hfiles, Hf.
Qed.

Fixpoint store_all (dir : string) (d : Disk) (ops : list (Faults * StoreOp))
  : Disk * list (result EnclaveError unit) :=
  match ops with
  | [] => (d, [])
  | (fl, op) :: ops' =>
      let '(d1, r) := store_op dir fl d op in
      let '(d2, rs) := store_all dir d1 ops' in (d2, r :: rs)
  end.

(** From a store that can be read, after operations that succeed each label has the secret that
    was saved under it last, unless it was deleted since, and no other file changed. *)
Theorem secrets_refine_map dir ops d d' rs l :
  load_all_secrets dir d = Ok l -> store_all dir d ops = (d', rs) -> Forall (fun r => r = Ok tt) rs ->
  (forall label, load_secret dir d' label
     = foldl (fun m op => map_op op m) (load_secret dir d) (map snd ops) label) /\
  (forall p, p <> secrets_path dir -> files d' !! p = files d !! p).
Proof.
  revert d d' rs l. induction ops as [|[fl op] ops IH]; intros d d' rs l Hl Hs Hok; cbn in Hs.
  { injection Hs as <- <-. done. }
  destruct (store_op dir fl d op) as [d1 r] eqn:E1, (store_all dir d1 ops) as [d2 rs2] eqn:E2.
  injection Hs as <- <-. apply Forall_cons in Hok as [-> Hok].
  destruct (store_step _ _ _ _ _ _ Hl E1) as ([l1 Hl1] & Hm & Hf).
  destruct (IH _ _ _ _ Hl1 E2 Hok) as [Hm2 Hf2]. split.
  - intros label. rewrite Hm2. cbn [map foldl snd]. clear -Hm.
    assert (Hext : forall ops m m', (forall x, m x = m' x) -> forall x,
      foldl (fun m op => map_op op m) m ops x = foldl (fun m op => map_op op m) m' ops x).
    { intros os. induction os as [|o os IHo]; intros m m' He x; cbn; [done|]. apply IHo.
      intros y. destruct o; cbn; by rewrite He. }
    by apply Hext.
  - intros p Hp. by rewrite Hf2, Hf.
Qed.

End Store.

(** ** Examples *)

(** A cipher that puts the key and the nonce before the text. *)
Definition toy_encrypt (k n p : string) : result string string := Ok (k +:+ n +:+ p).
Definition toy_decrypt (k n c : string) : option string :=
  if String.prefix (k +:+ n) c then Some (str_drop (String.length (k +:+ n)) c) else None.

Lemma toy_prefix a b : String.prefix a (a +:+ b) = true /\ str_drop (String.length a) (a +:+ b) = b.
Proof.
  induction a as [|x a [IH1 IH2]].
  - split; [by destruct b|]. change (String.substring 0 (String.length b - 0) b = b).
    rewrite Nat.sub_0_r. induction b as [|y b IHb]; [done|]. cbn. by rewrite IHb.
  - split; [|exact IH2].
    change ((if Ascii.ascii_dec x x then String.prefix a (a +:+ b) else false) = true).
    by destruct (Ascii.ascii_dec x x).
Qed.

Lemma toy_cipher k n p c : toy_encrypt k n p = Ok c -> toy_decrypt k n c = Some p.
Proof.
  unfold toy_encrypt, toy_decrypt. intros [= <-]. rewrite string_app_assoc.
  by rewrite (proj1 (toy_prefix _ _)), (proj2 (toy_prefix _ _)).
Qed.

Definition toy_identity : EnclaveIdentity := from_keypair (H := toy_env) "keypair".

Lemma public_key_unseals_witness :
  exists s, seal (H := toy_env) toy_encrypt toy_identity "twelve bytes" "now" "api" (VString "key") = Ok s /\
    unseal (H := toy_env) toy_decrypt s
      {| ei_keypair := "stranger";
         ei_sealing_key := sha256 (Env := toy_env)
           ("zaion-enclave-sealing-key-v1:" +:+ verifying_key (Env := toy_env) "keypair") |}
    = Some (Ok {| sp_label := "api"; sp_data := VString "key";
                  sp_principal_id := principal_id (H := toy_env) "keypair"; sp_sealed_at := "now" |}).
Proof.
  destruct (seal (H := toy_env) toy_encrypt toy_identity "twelve bytes" "now" "api" (VString "key"))
    as [s|e] eqn:E; [|discriminate E].
  exists s. split; [reflexivity|].
  apply (public_key_unseals (H := toy_env) toy_encrypt toy_decrypt toy_cipher "keypair" "twelve bytes"
    "now" "api" (VString "key") s "stranger"); [reflexivity|reflexivity| |exact E].
  unfold max_json_depth. simpl. lia.
Defined.

(** A nonce of another length is a panic. *)
Example short_nonce_panics :
  unseal (H := toy_env) toy_decrypt
    {| ss_nonce_hex := "00"; ss_ciphertext_hex := "00"; ss_label := "api";
       ss_enclave_id := ei_enclave_id (H := toy_env) toy_identity |} toy_identity = None.
Proof. vm_compute. reflexivity. Qed.

(** A file that does not parse counts as empty when a secret is saved or deleted: the next
    operation replaces all secrets. *)
Example unreadable_secrets_lost :
  let parse := fun _ : string => None : option Value in
  let d := {| files := {[ "/e/enclave_secrets.json" := "[{..}" ]}; dirs := {[ "/e"; "/" ]} |} in
  let r := delete_secret (fun s => s) (fun s => s) parse (fun _ => "[]") "/e" no_faults d "api" in
  is_ok r.2 = true /\ files r.1 !! "/e/enclave_secrets.json" = Some "[]".
Proof. vm_compute. done. Qed.
